(* ===== verification/_CoqProject ===== *)
-Q . S2P
Prelude.v
Text.v
BTreeMap.v
Json.v
Resource.v
WatchHistory.v
Command.v
Read.v
PatchApply.v
PatchFacts.v
Ssa.v
Pagination.v
Catalog.v
SsaFacts.v
CatalogMeta.v
CatalogFacts.v
CatalogTheorems.v
CatalogReads.v
AtRest.v
AtRestFacts.v
WatchBackend.v
WatchBackendFacts.v
WatchTheorems.v
InMemoryStore.v
Maquina.v
Ring.v
Quantity.v
Backoff.v
Lifecycle.v
Journal.v
Supervisor.v
SupervisorFacts.v
Ipam.v
IpamFacts.v
SchedFit.v
SchedFilter.v
SchedFilterFacts.v
SchedPolicy.v
Birth.v
Mesh.v
Scheduler.v
SchedulerStore.v
SchedulerTheorems.v
ApiErrors.v
Coords.v
Auth.v
Authz.v
FrontDoor.v
AuthzFacts.v
FrontDoorFacts.v
Params.v
ParamsFacts.v
Names.v
ObjectBody.v
Defaulting.v
Validation.v
SchemaValidation.v
FieldShapes.v
FieldValidation.v
FieldFacts.v
Handler.v
WritePlan.v
WriteFacts.v
WriteRace.v
Eviction.v
Scale.v
Accept.v
Verbs.v
VerbFacts.v
ObjectMeta.v
Sweep.v
OwnedChildren.v
OwnedFacts.v
ReplicaSet.v
PodTemplate.v
Deployment.v
Served.v
Gc.v
Probe.v
PodPhase.v
