(* ===== verification/Prelude.v ===== *)
(** * Verification of the engenho control plane

    engenho is a Kubernetes control plane in Rust.  Its heart is the crate
    [engenho-store]: a Raft-replicated, MVCC resource catalog that every other
    part (API server, controllers, scheduler, kubelet, etcd facade) reads,
    writes and watches.  This development models that crate's state machine and
    everything it computes with, the API server's path from a request to the
    store and back, the controllers of owned children with ReplicaSets and
    Deployments, the garbage collector, the scheduler, the daemon lifecycle and
    its supervisor, the back-off, probes and pod phases of the kubelet and the
    address management of the network plugin, and proves what their clients rely
    on.

    ** The parts and how they interact

    A client's request enters the API server: its path is parsed to coordinates,
    it is authenticated and authorised, its parameters and body are decoded, and
    the verb's handler runs.  A write is planned from the object the store holds
    (normalisation, field validation, defaulting, admission, validation, the
    fields the server owns) and committed as a [ResourceCommand] conditional on
    what the plan read, again and again until it fits or the attempts run out.
    Raft orders the commands; each replica feeds the log to
    [ResourceCatalog::apply_logged], which checks the precondition, merges
    (through the patch interpreter or server-side apply), stamps the metadata the
    store owns, and commits the change to the watch history under one new
    revision.  Watchers resume from the history; readers ask for the head, for a
    bound on staleness or for an exact past revision, whole or page by page.  The
    catalog is written to disk as an image in which Secrets are sealed, and log
    entries that name Secrets are sealed too.

    The controllers and the scheduler are clients of the store.  A controller
    sweeps over the parents of one kind; its pass over a parent gathers the
    children, computes a delta, proposes it and writes the status under
    compare-and-swap.  The garbage collector reads the owners of each dependent
    live and deletes or trims it at the revision it read.  On its node the kubelet
    runs each container's probes and decides restarts, the order of init
    containers and the phase it publishes.  One tick of the scheduler lists pods and nodes, opens a
    ledger of what each node has left, runs the filter plugins, picks a node by
    its strategy and proposes the bind.  Around all of them runs the daemon: a
    supervisor drives a pure lifecycle machine with boot outcomes, operator
    requests and timers, and keeps a journal, a run marker and a hold file from
    which the next process concludes how this one ended.

    ** Files

    Foundations:
    - [Prelude]: machine integers at their width with wrap-around, Rust's
      [Result] with its [?], options, booleans of decidable equality, the
      [engenho] hint database, and list lemmas.
    - [BTreeMap]: [std::collections::BTreeMap] as a strictly sorted association
      list over a class [Ord], with the ranges that panic.
    - [Json]: [serde_json::Value] (objects are ordered maps: the
      [preserve_order] feature is off); the text form is a class with its round
      trip as law and a lawful instance.
    - [Text]: what the sources use of [str]: splitting, trimming, the integer
      parsers and printers.

    [engenho-store]:
    - [Resource]: [resource.rs] and [revision.rs].
      [WatchHistory]: [watch_history.rs].  [Read]: [read.rs].
      [Pagination]: [pagination.rs].
    - [Command]: [command.rs], and the patch discriminants of
      [engenho-types/src/patch.rs].
    - [PatchApply], [PatchFacts]: [patch_apply.rs] (RFC 7396, RFC 6901/6902 and
      Kubernetes strategic merge).  [Ssa], [SsaFacts]: [ssa.rs].
    - [Catalog]: [state.rs], every operation of [ResourceCatalog]: [apply_put],
      [apply_patch], [apply_ssa_command], [apply_delete], [apply_txn],
      [apply_under], [compact], the reads, the image.  [CatalogMeta]: lemmas on
      the stamps.  [CatalogFacts]: what one command does and the invariant.
      [CatalogTheorems]: promises to writers and watchers.  [CatalogReads]:
      promises to readers.
    - [AtRest], [AtRestFacts]: [at_rest.rs].
    - [WatchBackend]: [watch.rs] and [watch_backend.rs], the live half of
      watching: channels in a shared heap, the registry that holds their senders
      and the streams that hold their receivers.  [WatchBackendFacts]: the
      invariant of one consumer, kept by every operation.  [WatchTheorems]: a
      store and its consumers as one system, and what a watch promises.
    - [InMemoryStore]: [store.rs], the log, state machine
      and snapshots that consensus drives.
    - [Birth]: [engenho-types/src/birth.rs] and [pod.rs].  [Mesh]: the proposal
      path of [mesh.rs].

    [engenho-apiserver]:
    - [ApiErrors]: [error.rs].  [Coords]: [coords.rs].
    - [Auth]: [authn.rs], [sa_token.rs] and
      [engenho-types/src/auth.rs].  [Authz], [AuthzFacts]:
      [authz/mod.rs] and [authz/store_env.rs].  [FrontDoor],
      [FrontDoorFacts]: the layers of [router.rs], [authz/sar.rs] and what
      [audit.rs] records.
    - [Params], [ParamsFacts]: [params.rs].  [Accept]: [accept.rs] and
      [table.rs].  [Names]: [engenho-types/src/name.rs].
    - [ObjectBody]: [object_body.rs].  [Defaulting]: [defaulting.rs].
      [Validation]: [validation.rs].  [SchemaValidation]: [schema_validation.rs].
      [FieldShapes], [FieldValidation], [FieldFacts]:
      [field_validation/].
    - [Handler]: the monad of a request over a store that other writers step
      ([World], [M]), the reads, deletes and status writes of [handler.rs], and
      the admission chain of [engenho-controllers/src/admission.rs].
      [WritePlan], [WriteFacts], [WriteRace]: [handler/write_plan.rs].
      [Eviction]: [eviction.rs].  [Scale]: [scale.rs] and
      [engenho-types/src/spec_int.rs], and what the status subresource writes.
    - [Verbs], [VerbFacts]: the verbs of [router.rs], from a request's bytes and
      headers to its response.

    [engenho-controllers]:
    - [ObjectMeta]: [meta.rs], [owner.rs], [condition.rs].  [Sweep]: [error.rs],
      [effect.rs], [sweep.rs].
    - [OwnedChildren]: [owned_children.rs], [status.rs], [create_stamp.rs]; the
      trait is the class [OwnedChildrenReconciler].  [OwnedFacts]: what the store
      does with a controller's writes, and what holds of every instance.
    - [ReplicaSet]: [replicaset.rs].  [PodTemplate]: [pod_template.rs].
      [Deployment]: [deployment.rs].
    - [Served]: the kinds served, from [generated_v1_34/catalog.rs], [crd.rs] and
      [gc/served.rs].  [Gc]: [gc.rs], [gc/collect.rs] and [event_retention.rs].

    [engenho-kubelet]:
    - [Probe]: [probe.rs] and [env_ref.rs]; the container runtime and the network
      are the class [Prober].  [PodPhase]: [lifecycle.rs] and the run states of
      [cri.rs].  [Backoff]: [backoff.rs], and [curve.rs] of
      [engenho-controllers].

    The rest:
    - [Quantity]: [engenho-types/src/primitives/quantity.rs].
    - [SchedFit]: [fit.rs] and [ledger.rs] of [engenho-scheduler].
      [SchedFilter], [SchedFilterFacts]: [predicates.rs], [capability.rs],
      [observed.rs], [filter.rs], [strategy.rs], [scope.rs], and
      [engenho-controllers/src/node_lease.rs].  [SchedPolicy]:
      [affinity.rs] and [preemption.rs].
    - [Scheduler]: [scheduler.rs], the tick against a class [PodStore], and the
      pass as a fold.  [SchedulerStore]: the laws a store
      keeps, and that the catalog behind [Mesh.propose] keeps them.
      [SchedulerTheorems]: promises of one tick and of any run of ticks.
    - [Maquina]: [maquina.rs] and [replay.rs] of [engenho-substrate], a class
      [StateMachine] and what runs it.  [Ring]: [control/ring.rs] of
      [engenho-runtime].
    - [Lifecycle], [Journal], [Supervisor], [SupervisorFacts]: [machine.rs],
      [journal.rs], [supervisor.rs] and [control_dir.rs] of
      [engenho-runtime/src/lifecycle], with the boot phases and failures.
      [DaemonLifecycle] is an instance of [Maquina.StateMachine].
    - [Ipam], [IpamFacts]: [ipam.rs], [result.rs] and the plugin of
      [engenho-cni].

    Definitions carry the source's names.  A method that mutates [self] returns
    the new value beside its result; a [Result] is [result]; a panic of the
    map is [None].  [Arc] sharing of changes is not observable and not modelled.
    Code that awaits the store is a function of a [World]: the catalog, and the
    commands other writers will commit before each of its calls.

    ** What the theorems show

    - The catalog: [catalog_invariant] holds of every catalog reached by log
      entries, compactions and restarts; a revision is consumed exactly by a
      change ([revision_means_change], [put_idempotent]); compare-and-swap
      refuses exactly stale writers and loses no update ([cas_conflict_iff],
      [cas_no_lost_update]); replicas with different local buffers agree
      ([replicas_converge]); deletion is two-phase and gated by finalizers
      ([finalizers_gate_removal], [deletion_is_two_phase]); a restart loses only
      the replay window ([restart_preserves]).
    - Watches: the abstract specification is the log of all changes ever
      committed; the history refines it ([history_seal], [replay_complete]),
      and a resumed watcher's replay reaches the catalog's own map
      ([watch_replay_converges]).  A live watch is exactly the changes above its
      start, whatever is interleaved with it ([watch_exact]), a consumer that
      polls is served ([watch_drains]), a filtered one ends up with the filtered
      list ([filtered_watch_converges]), and an overflow can be resumed when no
      transaction is split by it ([overflow_resumes],
      [overflow_splits_transaction]).
    - The store under consensus: the log is a list above the purge mark
      ([log_refines]), a batch is answered in order ([apply_answers_in_order]),
      and a snapshot catches a peer up ([snapshot_catches_up]), though not the
      watches open on it ([snapshot_skips_live_watch]).
    - Reads: [judge_sound_complete], [list_scope_range_spec], [paging_complete],
      the continue token's codec, and reads of the past ([state_at_exact],
      [exact_read_is_snapshot]).  Past reads are exact where no finalizer was
      released since; [release_rewrites_past] shows the release that breaks it.
    - Patches and server-side apply: the merges follow their specifications
      field by field, a keyed list merge leaves alone what it does not name,
      ownership is a set of paths that survives its wire form, an apply is
      refused exactly on conflicts, and force transfers ownership.
    - Secrets: sealed values are bound to key and resource, the image round
      trips and shows no Secret in the clear, unreadable values are never
      overwritten, log entries round trip, and a recorded key is never replaced.
    - The front door: a path names what its segments spell
      ([path_names_exactly]); who a request is ([authenticate_exact],
      [minted_token_authenticates]) and what it may do ([authorize_exact],
      [rules_review_exact]) are exactly what certificates, tokens and bindings
      say; a request reaches its handler exactly when every layer lets it
      ([front_door_exact]), and the audit record says what happened
      ([audit_truthful]).
    - Bodies and parameters: selectors print and parse back
      ([selector_round_trip]); bodies come out well typed ([normalize_shape]);
      field validation, schemas and the rules of built-in kinds refuse exactly
      what breaks them ([check_object_exact], [judge_patched_exact],
      [schema_exact], [validate_exact]); lowering a schema with cycles ends
      ([lowering_terminates]); content negotiation takes the heaviest range
      ([negotiate_exact]).
    - Writes: whatever others write in between, a write replaces exactly what it
      read ([write_replaces_what_it_read]); no client and no webhook writes what
      the server owns ([update_keeps_server_owned]); a dry run marked in the
      query, or for a delete in a JSON body, writes nothing
      ([dry_requests_write_nothing]); what is created is read back
      ([post_then_get]); a scale is the scale read back ([scale_round_trip]), a
      status write is scoped ([status_put_scoped]), and an eviction spends one
      disruption ([eviction_spends_one]).
    - Controllers: a failing object stops no other ([sweep_isolates]); no
      instance writes a child that is being deleted ([terminating_untouched]); a
      condition is set once ([upsert_condition_settles]); two templates are the
      same exactly when they mean the same ([templates_equal_iff]); one
      undisturbed pass brings a ReplicaSet and a Deployment to what they declare
      and the next has nothing to do ([replicaset_converges],
      [deployment_settles]).
    - Garbage collection: whatever others write meanwhile, what the collector
      deletes or trims is exactly what it read, with every reference it gives up
      seen gone or waiting ([gc_acts_on_what_it_read]); alone, it does what the
      owners call for ([gc_settles]).
    - The kubelet: a probe's verdict is a function of the list of what it observed
      ([probe_follows_its_answers]); a container is restarted only for observed
      failures in a row, in a pod nobody deletes
      ([restart_needs_observed_failures]), and is ready exactly by what its probes
      observed ([ready_by_observations]); a phase is terminal exactly when nothing
      will run again ([phase_exact]); init containers run in order
      ([init_in_order]).
    - Scheduling: the filter stage is exactly its plugins ([filter_exact]), the
      affinity, spread and preemption checks are exactly their definitions, a
      pass binds only admitted nodes and within the headroom it opened with
      ([tick_binds_admitted], [tick_never_overcommits]), and over any run of
      ticks against a lawful store no node is overcommitted by the scheduler
      ([ticks_never_overcommit]).  [round_robin_visits_all]: no node is starved.
    - Pacing: curves are exact at every [u32] step, a crash loop is paced and
      never stopped, the start ledger implements the history of attempts.
    - The daemon: slot, timer, marker and published state agree with the machine
      in every reachable state ([supervisor_in_step], [run_marker_truthful]),
      every stop is answered once, a confirmation is stale after a boot, and a
      run is rebuilt from its history ([replay_rebuilds]).
    - Addresses: allocation and release are exact, and concurrent allocations
      preempted between any two system calls, the single reads of a listing and
      the partial writes of an id among them, stay distinct
      ([concurrent_adds_distinct]) where no id is the beginning of another
      ([half_written_id_found]).
    - Where the code does not do what it says, the lemma that shows it stands
      beside the rest, among them [negative_fraction_loses_sign],
      [malformed_rules_admit], [release_strands_filtered_watch],
      [mixed_rule_hidden], [set_tail_dropped], [budget_spent_twice],
      [born_terminating], [status_patch_moves_spec], [nested_default_missed],
      [dry_run_status_persists], [refused_but_stored], [stranger_overwritten],
      [born_leaving_runs_away], [null_handler_counts] and
      [sidecar_down_reads_pending].

    ** Parameters

    Code outside the repository is a class or an argument, with its documented
    behaviour as a class of laws and a concrete lawful instance used by the
    witnesses: [SerdeJson] (text of a value, read back exactly also for fractional
    numbers, as with the [float_roundtrip] feature), [TokenSerde], [KeySerde],
    [EntrySerde], [ClaimsSerde], [RbacSerde], [CrdSerde], [OpDecoder], [CatalogBytes] (serde
    on other types), [JsonReader] (serde_json reading a document member by
    member), [HttpDecode] (percent and form decoding), [Blake3], [Aead],
    [Base64], [Base64Url], [Ed25519].  Arguments of the definitions stand for the
    admission webhooks, the vendored OpenAPI documents, the protobuf transcoder,
    the [Debug] text of strings, the text of numbers and of serde errors, and the
    clock.  Two classes stand for code of the repository that is an interface
    here: [PatchSchemaEnv] is the trait of the source, and [Sealer] is discharged
    by [AtRest.sealer_of].  [ErrorText] is the [Display] of typed errors, which
    no theorem inspects.  [RbacStoreEnv] and [Authorizer] are the traits of
    authorisation, discharged by the catalog and by RBAC;
    [OwnedChildrenReconciler] is discharged by each controller; [Prober] is the
    container runtime and the network as probes ask them; [PodStore] and
    [SchedulingStrategy] are the interfaces of the tick, discharged by the
    catalog and by the round robin; [StateMachine] is the trait, discharged by
    the daemon lifecycle.  [FloatText] is the text of a JSON number that is not
    an integer, [age] the time since an RFC 3339 time, [Calendar] the last
    instant of chrono's calendar; [io] and [Faults] say which writes and system
    calls fail.

    ** Bounds and fuel

    Revisions are [u64] and wrap; the theorems that need room assume the counter
    is below its maximum.  The eviction loop of [commit] runs with one unit of
    fuel per retained change, and [commit_terminates] shows it stops by its own
    condition.  [pages] follows the cursor with one unit per stored object,
    enough because each page but the last holds at least one.  A write is tried
    [WRITE_ATTEMPTS] times, the source's own bound.  The lowering of schemas runs
    on fuel from the size of the document, enough by [lowering_terminates].  The
    search for free indices of a ReplicaSet runs for the number asked and the
    number in use, enough by [free_indices_spec].  [chunks] runs once per element,
    enough by [chunks_concat]; the expansion of variable references consumes a
    byte of the text per round, and its fuel is the text's length.  Every other
    recursion is structural.

    ** Not modelled

    The fjall-backed log and snapshot store, the network transports, raft and the
    forwarding of a proposal to another leader are I/O or libraries around the
    catalog, and the task that ticks bookmarks is a timer.  The supervisor's
    runtime, its children and its configuration source are inputs.  Of the API
    server, the route table, discovery, OpenAPI serving, tables and protobuf
    output, logs, exec and port-forward streams and the HTTP server are not
    modelled: they are transport or rendering.  Of the controllers,
    those for services, endpoints, volumes, networking, jobs, stateful and daemon
    sets, autoscaling, custom resource definitions and namespaces are not modelled.
    The kubelet's sync loop, volumes and backends, the
    CNI plugin's network setup and the CSI drivers act on a host through system
    calls; the etcd facade, the substrate crates, the clients, code generators,
    configuration renderers and command-line tools are outside the path from a
    request to the stored object this development follows. *)

From Stdlib Require Import Sorted.
From stdpp Require Import base tactics option list strings numbers.

Local Open Scope Z_scope.

(** ** Machine integers

    Counters keep their Rust width: the deployed binary is built by
    [buildRustCrate] with [release = true], where [+] on [u64] and [i64]
    wraps around. *)
Module Word.

Definition u64_modulus : Z := 2 ^ 64.
Definition u64_max : Z := u64_modulus - 1.
Definition is_u64 (z : Z) : Prop := 0 <= z <= u64_max.
Definition u64_add (a b : Z) : Z := (a + b) mod u64_modulus.

Definition i64_min : Z := - 2 ^ 63.
Definition i64_max : Z := 2 ^ 63 - 1.
Definition is_i64 (z : Z) : Prop := i64_min <= z <= i64_max.
Definition i64_add (a b : Z) : Z := (a + b + 2 ^ 63) mod u64_modulus - 2 ^ 63.

Lemma u64_add_small a b : 0 <= a + b <= u64_max -> u64_add a b = a + b.
Proof. unfold u64_add, u64_max, u64_modulus. intros. apply Z.mod_small. lia. Qed.

Lemma u64_add_range a b : is_u64 (u64_add a b).
Proof.
  unfold is_u64, u64_add, u64_max.
  pose proof (Z.mod_pos_bound (a + b) u64_modulus). unfold u64_modulus in *. lia.
Qed.

Lemma i64_add_small a b : is_i64 (a + b) -> i64_add a b = a + b.
Proof.
  unfold is_i64, i64_add, i64_min, i64_max, u64_modulus. intros.
  rewrite Z.mod_small; lia.
Qed.

Lemma i64_add_range a b : is_i64 (i64_add a b).
Proof.
  unfold is_i64, i64_add, i64_min, i64_max, u64_modulus.
  pose proof (Z.mod_pos_bound (a + b + 2 ^ 63) (2 ^ 64)). lia.
Qed.

Definition u32_max : Z := 2 ^ 32 - 1.
Definition is_u32 (z : Z) : Prop := 0 <= z <= u32_max.
Definition i32_min : Z := - 2 ^ 31.
Definition i32_max : Z := 2 ^ 31 - 1.

Definition i128_min : Z := - 2 ^ 127.
Definition i128_max : Z := 2 ^ 127 - 1.
Definition is_i128 (z : Z) : Prop := i128_min <= z <= i128_max.
Definition i128_wrap (z : Z) : Z := (z + 2 ^ 127) mod 2 ^ 128 - 2 ^ 127.

(** The [saturating_*] operations clamp the exact result to the type's range. *)
Definition saturate (lo hi z : Z) : Z := Z.max lo (Z.min hi z).
Definition i128_saturate : Z -> Z := saturate i128_min i128_max.
Definition u32_saturate : Z -> Z := saturate 0 u32_max.
Definition u64_saturate : Z -> Z := saturate 0 u64_max.

Lemma i128_wrap_small z : is_i128 z -> i128_wrap z = z.
Proof.
  unfold is_i128, i128_wrap, i128_min, i128_max. intros. rewrite Z.mod_small; lia.
Qed.

Lemma i128_wrap_range z : is_i128 (i128_wrap z).
Proof.
  unfold is_i128, i128_wrap, i128_min, i128_max.
  pose proof (Z.mod_pos_bound (z + 2 ^ 127) (2 ^ 128)). lia.
Qed.

Lemma saturate_small lo hi z : lo <= z <= hi -> saturate lo hi z = z.
Proof. unfold saturate. lia. Qed.

Lemma saturate_range lo hi z : lo <= hi -> lo <= saturate lo hi z <= hi.
Proof. unfold saturate. lia. Qed.

Lemma saturate_mono lo hi x y : x <= y -> saturate lo hi x <= saturate lo hi y.
Proof. unfold saturate. lia. Qed.

Lemma i128_saturate_small z : is_i128 z -> i128_saturate z = z.
Proof. apply saturate_small. Qed.

Lemma i128_saturate_range z : is_i128 (i128_saturate z).
Proof. by apply saturate_range. Qed.

End Word.

(** ** [slice::sort_by]

    A stable sort, as insertion from the right. *)
Fixpoint insert_sorted {A} (le : A -> A -> bool) (x : A) (l : list A) : list A :=
  match l with
  | [] => [x]
  | y :: l => if le x y then x :: y :: l else y :: insert_sorted le x l
  end.

Definition sort_by {A} (le : A -> A -> bool) (l : list A) : list A :=
  foldr (insert_sorted le) [] l.

Lemma insert_sorted_In {A} (le : A -> A -> bool) x l y :
  In y (insert_sorted le x l) <-> y = x \/ In y l.
Proof. induction l as [|z l IH]; simpl; [naive_solver |]. case_match; simpl; naive_solver. Qed.

Lemma sort_by_In {A} (le : A -> A -> bool) l y : In y (sort_by le l) <-> In y l.
Proof. induction l as [|x l IH]; simpl; [done |]. rewrite insert_sorted_In, IH. naive_solver. Qed.

Lemma sort_by_perm {A} (le : A -> A -> bool) l : sort_by le l ≡ₚ l.
Proof.
  induction l as [|x l IH]; simpl; [done |]. transitivity (x :: sort_by le l); [| by rewrite IH].
  generalize (sort_by le l) as k. intros k. induction k as [|y k IHk]; simpl; [done |].
  case_match; [done |]. rewrite IHk. constructor.
Qed.

Lemma sort_by_sorted {A} (le : A -> A -> bool) l :
  (forall x y, le x y = false -> le y x = true) -> Sorted le (sort_by le l).
Proof.
  intros Htot. induction l as [|x l IH]; simpl; [constructor |].
  induction IH as [|y k Hk IHk Hy]; simpl; [repeat constructor |].
  destruct (le x y) eqn:E; [repeat constructor; auto; by rewrite E |].
  constructor; [done |]. apply Htot in E.
  destruct Hy; simpl; [constructor; by rewrite E |]. case_match; constructor; [by rewrite E | done].
Qed.

(** ** Rust's [Result] *)
Inductive result (A E : Type) : Type :=
  | Ok (a : A)
  | Err (e : E).
Arguments Ok {A E} a.
Arguments Err {A E} e.

Definition result_map {A B E} (f : A -> B) (r : result A E) : result B E :=
  match r with Ok a => Ok (f a) | Err e => Err e end.

Definition result_map_err {A E F} (f : E -> F) (r : result A E) : result A F :=
  match r with Ok a => Ok a | Err e => Err (f e) end.

Definition result_bind {A B E} (r : result A E) (f : A -> result B E) : result B E :=
  match r with Ok a => f a | Err e => Err e end.

Definition ok_or {A E} (o : option A) (e : E) : result A E :=
  match o with Some a => Ok a | None => Err e end.

Definition unwrap_or_else {A E} (r : result A E) (f : E -> A) : A :=
  match r with Ok a => a | Err e => f e end.

Definition is_ok {A E} (r : result A E) : bool :=
  match r with Ok _ => true | Err _ => false end.

(** [let? x := r in k] is Rust's [let x = r?; k]. *)
Declare Scope engenho_scope.
Delimit Scope engenho_scope with engenho.
Notation "'let?' x := r 'in' k" := (result_bind r (fun x => k))
  (at level 10, x name, r at level 100, k at level 200) : engenho_scope.
Open Scope engenho_scope.

#[export] Instance result_eq_dec {A E} `{EqDecision A, EqDecision E} : EqDecision (result A E).
Proof. solve_decision. Defined.

Lemma result_bind_Ok {A B E} (r : result A E) (f : A -> result B E) b :
  result_bind r f = Ok b <-> exists a, r = Ok a /\ f a = Ok b.
Proof. destruct r; simpl; naive_solver. Qed.

(** ** Options *)

(** Rust's [Option::is_some_and] and [Option::is_none_or]. *)
Definition is_some_and {A} (p : A -> bool) (o : option A) : bool :=
  match o with Some a => p a | None => false end.

Definition is_none_or {A} (p : A -> bool) (o : option A) : bool :=
  match o with Some a => p a | None => true end.

(** [o >>? f] is [o.and_then(f)], chained to the left as in the source. *)
Notation "o >>? f" := (mbind (M := option) f o)
  (at level 61, left associativity, only parsing) : engenho_scope.

Definition is_some {A} (o : option A) : bool :=
  match o with Some _ => true | None => false end.

Definition is_none {A} (o : option A) : bool := negb (is_some o).

(** ** Decision procedures as booleans *)
Definition eqb {A} `{EqDecision A} (x y : A) : bool := bool_decide (x = y).

Lemma eqb_true {A} `{EqDecision A} (x y : A) : eqb x y = true <-> x = y.
Proof. apply bool_decide_eq_true. Qed.

Lemma eqb_sound {A} `{EqDecision A} (x y : A) : eqb x y = true -> x = y.
Proof. apply bool_decide_eq_true. Qed.

Lemma eqb_false {A} `{EqDecision A} (x y : A) : eqb x y = false <-> x <> y.
Proof. apply bool_decide_eq_false. Qed.

Lemma eqb_refl {A} `{EqDecision A} (x : A) : eqb x x = true.
Proof. by apply eqb_true. Qed.

(** ** Lists *)

Lemma Forall_weaken {A} (P Q : A -> Prop) (l : list A) :
  Forall P l -> (forall x, P x -> Q x) -> Forall Q l.
Proof. induction 1; constructor; auto. Qed.

(** The length of the longest prefix whose elements satisfy [p]: on a list
    partitioned by [p] this is Rust's [partition_point]. *)
Fixpoint partition_point {A} (p : A -> bool) (l : list A) : nat :=
  match l with
  | [] => 0
  | x :: l => if p x then S (partition_point p l) else 0
  end.

(** A list is partitioned by [p] when the elements satisfying [p] come first. *)
Definition partitioned {A} (p : A -> bool) (l : list A) : Prop :=
  forall i j x y, (i < j)%nat -> l !! i = Some x -> l !! j = Some y -> p y = true -> p x = true.

Section ListFacts.
Context {A : Type}.
Implicit Types (p : A -> bool) (l : list A).

Lemma partitioned_cons p x l : partitioned p (x :: l) -> partitioned p l.
Proof.
  intros H i j y z Hij Hy Hz. apply (H (S i) (S j) y z); [lia | done | done].
Qed.

Lemma partitioned_head p x l :
  partitioned p (x :: l) -> p x = false -> Forall (fun y => p y = false) l.
Proof.
  intros H Hx. apply Forall_lookup. intros i y Hy.
  destruct (p y) eqn:E; [| done].
  specialize (H 0%nat (S i) x y ltac:(lia) eq_refl Hy E). congruence.
Qed.

Lemma filter_none p l :
  Forall (fun y => p y = false) l -> List.filter p l = [].
Proof. induction 1; simpl; [done | by rewrite H]. Qed.

Lemma filter_all p l :
  Forall (fun y => p y = true) l -> List.filter p l = l.
Proof. induction 1; simpl; [done | rewrite H; by f_equal]. Qed.

(** On a partitioned list, cutting at the partition point is filtering. *)
Lemma take_partition_point p l :
  partitioned p l -> take (partition_point p l) l = List.filter p l.
Proof.
  induction l as [|x l IH]; intros H; [done |]. simpl.
  destruct (p x) eqn:E; simpl.
  - rewrite IH; [done | by eapply partitioned_cons].
  - by rewrite (filter_none p l) by (by eapply partitioned_head).
Qed.

Lemma drop_partition_point p l :
  partitioned p l -> drop (partition_point p l) l = List.filter (fun x => negb (p x)) l.
Proof.
  induction l as [|x l IH]; intros H; [done |]. simpl.
  destruct (p x) eqn:E; simpl.
  - rewrite IH; [done | by eapply partitioned_cons].
  - f_equal. symmetry. apply filter_all.
    eapply Forall_weaken; [exact (partitioned_head _ _ _ H E) |]. by intros y ->.
Qed.

Lemma filter_andb p q l :
  List.filter (fun x => p x && q x) l = List.filter q (List.filter p l).
Proof.
  induction l as [|x l IH]; simpl; [done |].
  destruct (p x); simpl; [destruct (q x); by rewrite IH | done].
Qed.

Lemma filter_ext_Forall p q l :
  Forall (fun x => p x = q x) l -> List.filter p l = List.filter q l.
Proof. induction 1 as [|x l Hx _ IH]; simpl; [done | rewrite Hx; by destruct (q x); rewrite ?IH]. Qed.

End ListFacts.

(** ** Automation *)

Create HintDb engenho.
#[export] Hint Resolve Word.u64_add_range Word.i64_add_range : engenho.
#[export] Hint Resolve Word.i128_wrap_range Word.i128_saturate_range : engenho.

(** Case analysis on every [match] and [if] of the goal and hypotheses,
    keeping the equations. *)
Ltac split_matches :=
  repeat (case_match; simplify_eq/=).

Ltac bool_to_prop :=
  repeat match goal with
  | H : _ && _ = true |- _ => apply andb_true_iff in H as [? ?]
  | H : negb _ = true |- _ => apply negb_true_iff in H
  | H : negb _ = false |- _ => apply negb_false_iff in H
  | H : eqb _ _ = true |- _ => apply eqb_sound in H
  | H : eqb _ _ = false |- _ => apply eqb_false in H
  | H : (_ <? _)%Z = true |- _ => apply Z.ltb_lt in H
  | H : (_ <? _)%Z = false |- _ => apply Z.ltb_ge in H
  | H : (_ <=? _)%Z = true |- _ => apply Z.leb_le in H
  | H : (_ <=? _)%Z = false |- _ => apply Z.leb_gt in H
  | H : (_ =? _)%Z = true |- _ => apply Z.eqb_eq in H
  | H : (_ =? _)%Z = false |- _ => apply Z.eqb_neq in H
  end.
