(* ===== verification/Text.v ===== *)
(** * Strings as the Rust code uses them

    [str] is the byte string of its UTF-8 form.  The file holds the operations
    of [core::str] that several components call: [split], [split_once],
    [strip_prefix], [trim], and the integer parsers, which take the bounds of
    the type they parse; printing an integer is stdpp's [pretty].  The lemmas
    say that a printed integer parses back at any width that holds it. *)

From Stdlib Require Import Ascii String.
From stdpp Require Import base tactics option list strings numbers pretty.
From S2P Require Import Prelude.

Local Open Scope string_scope.
Local Open Scope Z_scope.

(** [str::split] on one character. *)
Fixpoint split_char (c : Ascii.ascii) (s : string) : list string :=
  match s with
  | EmptyString => [EmptyString]
  | String x s =>
      if Ascii.eqb x c then EmptyString :: split_char c s
      else match split_char c s with
           | t :: ts => String x t :: ts
           | [] => [String x EmptyString]
           end
  end.

(** [str::split_once] on one character. *)
Fixpoint split_once (c : Ascii.ascii) (s : string) : option (string * string) :=
  match s with
  | EmptyString => None
  | String x s =>
      if Ascii.eqb x c then Some ("", s)
      else match split_once c s with
           | Some (a, b) => Some (String x a, b)
           | None => None
           end
  end.

(** [str::strip_prefix]. *)
Fixpoint strip_prefix (p s : string) : option string :=
  match p, s with
  | EmptyString, _ => Some s
  | String a p, String b s => if Ascii.eqb a b then strip_prefix p s else None
  | _, _ => None
  end.

Definition starts_with (p s : string) : bool := is_some (strip_prefix p s).

(** [str::strip_suffix], by the reversed strings. *)
Definition strip_suffix (p s : string) : option string :=
  option_map String.rev (strip_prefix (String.rev p) (String.rev s)).

(** [str::chars().all] on the bytes. *)
Fixpoint str_all (p : Ascii.ascii -> bool) (s : string) : bool :=
  match s with
  | EmptyString => true
  | String c s => p c && str_all p s
  end.

(** [str::split_at] at the first byte that fails [p], and the rest. *)
Fixpoint span_while (p : Ascii.ascii -> bool) (s : string) : string * string :=
  match s with
  | EmptyString => ("", "")
  | String c t => if p c then let (a, b) := span_while p t in (String c a, b) else ("", s)
  end.

(** ** ASCII case *)

Definition code (c : Ascii.ascii) : Z := Z.of_N (Ascii.N_of_ascii c).

Definition ascii_lower (c : Ascii.ascii) : Ascii.ascii :=
  if (65 <=? code c) && (code c <=? 90) then Ascii.ascii_of_N (Z.to_N (code c + 32)) else c.
Definition ascii_upper (c : Ascii.ascii) : Ascii.ascii :=
  if (97 <=? code c) && (code c <=? 122) then Ascii.ascii_of_N (Z.to_N (code c - 32)) else c.

Fixpoint str_map (f : Ascii.ascii -> Ascii.ascii) (s : string) : string :=
  match s with EmptyString => EmptyString | String c s => String (f c) (str_map f s) end.

(** [str::to_ascii_lowercase] and [to_ascii_uppercase]. *)
Definition to_ascii_lowercase : string -> string := str_map ascii_lower.
Definition to_ascii_uppercase : string -> string := str_map ascii_upper.

(** [str::contains] of a string. *)
Fixpoint str_contains (p s : string) : bool :=
  starts_with p s || match s with EmptyString => false | String _ s => str_contains p s end.

(** ** Integers *)

Definition digit (c : Ascii.ascii) : option Z :=
  let n := Z.of_N (Ascii.N_of_ascii c) - 48 in
  if (0 <=? n) && (n <=? 9) then Some n else None.

Definition is_ascii_digit (c : Ascii.ascii) : bool := is_some (digit c).

(** Decimal digits after [acc], refused as soon as the value exceeds [hi]. *)
Fixpoint parse_digits (hi acc : Z) (s : string) : option Z :=
  match s with
  | EmptyString => Some acc
  | String c s =>
      match digit c with
      | Some d =>
          let acc := acc * 10 + d in
          if acc <=? hi then parse_digits hi acc s else None
      | None => None
      end
  end.

(** [str::parse] at an unsigned type whose maximum is [hi]: an optional [+],
    then at least one digit, in range. *)
Definition parse_unsigned (hi : Z) (s : string) : option Z :=
  match s with
  | EmptyString => None
  | String c t =>
      if Ascii.eqb c "+"%char
      then match t with EmptyString => None | _ => parse_digits hi 0 t end
      else parse_digits hi 0 s
  end.

(** [str::parse] at the signed type with the range [lo .. hi]. *)
Definition parse_signed (lo hi : Z) (s : string) : option Z :=
  match s with
  | String "-"%char t =>
      match t with
      | EmptyString => None
      | _ => option_map Z.opp (parse_digits (- lo) 0 t)
      end
  | _ => parse_unsigned hi s
  end.

(** ** Whitespace: the [White_Space] characters, by their UTF-8 bytes *)

Definition ws1 (a : Z) : bool := ((9 <=? a) && (a <=? 13)) || (a =? 32).

Definition ws2 (a b : Z) : bool := (a =? 194) && ((b =? 133) || (b =? 160)).

Definition ws3 (a b c : Z) : bool :=
  ((a =? 225) && (b =? 154) && (c =? 128)) ||
  ((a =? 226) && (b =? 128) &&
     (((128 <=? c) && (c <=? 138)) || (c =? 168) || (c =? 169) || (c =? 175))) ||
  ((a =? 226) && (b =? 129) && (c =? 159)) ||
  ((a =? 227) && (b =? 128) && (c =? 128)).

(** [str::trim_start]. *)
Fixpoint trim_start (s : string) : string :=
  match s with
  | String a t =>
      if ws1 (code a) then trim_start t
      else match t with
           | String b u =>
               if ws2 (code a) (code b) then trim_start u
               else match u with
                    | String c v => if ws3 (code a) (code b) (code c) then trim_start v else s
                    | EmptyString => s
                    end
           | EmptyString => s
           end
  | EmptyString => EmptyString
  end.

(** [trim_start] on the reversed bytes of a string. *)
Fixpoint trim_back (s : string) : string :=
  match s with
  | String a t =>
      if ws1 (code a) then trim_back t
      else match t with
           | String b u =>
               if ws2 (code b) (code a) then trim_back u
               else match u with
                    | String c v => if ws3 (code c) (code b) (code a) then trim_back v else s
                    | EmptyString => s
                    end
           | EmptyString => s
           end
  | EmptyString => EmptyString
  end.

Definition trim_end (s : string) : string := String.rev (trim_back (String.rev s)).

Definition trim (s : string) : string := trim_end (trim_start s).

(** ** Lemmas *)

Lemma digit_pretty d : (d < 10)%N -> digit (pretty_N_char d) = Some (Z.of_N d).
Proof.
  intros Hd. assert (In d [0; 1; 2; 3; 4; 5; 6; 7; 8; 9]%N) as Hin by (simpl; lia).
  simpl in Hin. repeat destruct Hin as [<- | Hin]; done.
Qed.

Lemma digit_range c d : digit c = Some d -> 0 <= d <= 9.
Proof. unfold digit. case_match; [| done]. intros [= <-]. bool_to_prop. lia. Qed.

Lemma parse_pretty_go hi x s :
  Z.of_N x <= hi -> parse_digits hi 0 (pretty_N_go x s) = parse_digits hi (Z.of_N x) s.
Proof.
  revert s. induction (N.lt_wf_0 x) as [x _ IH]; intros s Hx.
  destruct (decide (x = 0)%N) as [-> | Hne]; [done |].
  rewrite pretty_N_go_step by lia.
  assert (Z.of_N x = Z.of_N (x `div` 10) * 10 + Z.of_N (x `mod` 10)) as Hdm.
  { rewrite N2Z.inj_div, N2Z.inj_mod. pose proof (Z.div_mod (Z.of_N x) 10). lia. }
  rewrite IH; [| apply N.div_lt; [lia | reflexivity] | rewrite N2Z.inj_div; apply Z.le_trans with (Z.of_N x);
    [apply Z.div_le_upper_bound; lia | done]].
  cbn [parse_digits]. rewrite digit_pretty by (apply N.mod_lt; lia).
  rewrite <- Hdm. by rewrite (proj2 (Z.leb_le _ _) Hx).
Qed.

Lemma pretty_N_go_head x s : (0 < x)%N ->
  exists d s', (d < 10)%N /\ pretty_N_go x s = String (pretty_N_char d) s'.
Proof.
  revert s. induction (N.lt_wf_0 x) as [x _ IH]; intros s Hx. rewrite pretty_N_go_step by done.
  destruct (decide (x `div` 10 = 0)%N) as [-> | Hne].
  - exists (x `mod` 10)%N, s. split; [apply N.mod_lt; lia | done].
  - apply IH; [apply N.div_lt; [done | reflexivity] | by apply N.neq_0_lt_0].
Qed.

Lemma parse_digits_nonneg hi s acc idx : 0 <= acc -> parse_digits hi acc s = Some idx -> 0 <= idx.
Proof.
  revert acc. induction s as [|c s IH]; intros acc Ha; simpl; [by intros [= <-] |].
  destruct (digit c) as [d|] eqn:E; [| done]. case_match; [| done].
  apply IH. apply digit_range in E. lia.
Qed.

Lemma parse_digits_le hi s acc z : acc <= hi -> parse_digits hi acc s = Some z -> z <= hi.
Proof.
  revert acc. induction s as [|c s IH]; intros acc Ha; simpl; [by intros [= <-] |].
  destruct (digit c) as [d|]; [| done]. case_match; [| done]. apply IH. by bool_to_prop.
Qed.

Lemma parse_unsigned_range hi s z : 0 <= hi -> parse_unsigned hi s = Some z -> 0 <= z <= hi.
Proof.
  intros Hhi. unfold parse_unsigned. destruct s as [|c s]; [done |].
  repeat case_match; try done; intros Hp;
    (split; [eapply parse_digits_nonneg; [| exact Hp]; lia | eapply parse_digits_le; [| exact Hp]; lia]).
Qed.

Lemma parse_signed_range lo hi s z :
  lo <= 0 <= hi -> parse_signed lo hi s = Some z -> lo <= z <= hi.
Proof.
  intros Hr. assert (forall s z, parse_unsigned hi s = Some z -> lo <= z <= hi) as Hu.
  { intros t y Hy. apply parse_unsigned_range in Hy; lia. }
  unfold parse_signed. repeat case_match; try done; try apply Hu.
  intros Hm. destruct (parse_digits (- lo) 0 _) as [m|] eqn:E; [| done].
  cbn [option_map] in Hm. injection Hm as <-.
  pose proof (parse_digits_nonneg (- lo) _ 0 m ltac:(lia) E).
  pose proof (parse_digits_le (- lo) _ 0 m ltac:(lia) E). lia.
Qed.

(** The digits of a positive number: what both parsers meet. *)
Lemma pretty_pos_digits hi p : Z.pos p <= hi ->
  exists d s, (d < 10)%N /\ pretty (N.pos p) = String (pretty_N_char d) s /\
    parse_digits hi 0 (pretty (N.pos p)) = Some (Z.pos p).
Proof.
  intros Hp. unfold pretty, pretty_N. rewrite decide_False by done.
  destruct (pretty_N_go_head (N.pos p) "" ltac:(lia)) as (d & s' & Hd & E).
  pose proof (parse_pretty_go hi (N.pos p) "" Hp) as Hq. exists d, s'. by rewrite E in *.
Qed.

Lemma pretty_N_char_not_sign d : (d < 10)%N ->
  Ascii.eqb (pretty_N_char d) "+" = false /\ pretty_N_char d <> "-"%char.
Proof.
  intros Hd. assert (In d [0; 1; 2; 3; 4; 5; 6; 7; 8; 9]%N) as Hin by (simpl; lia).
  simpl in Hin. repeat destruct Hin as [<- | Hin]; done.
Qed.

Lemma parse_unsigned_pretty hi z : 0 <= z <= hi -> parse_unsigned hi (pretty z) = Some z.
Proof.
  intros [Hz Hm]. destruct z as [|p|p].
  - change (parse_digits hi 0 "0" = Some 0). cbn [parse_digits].
    change (digit "0") with (Some 0). cbn iota zeta. change (0 * 10 + 0) with 0.
    by rewrite (proj2 (Z.leb_le 0 hi) Hm).
  - change (pretty (Z.pos p)) with (pretty (N.pos p)).
    destruct (pretty_pos_digits hi p Hm) as (d & s & Hd & E & Hp). rewrite E in *.
    unfold parse_unsigned. by rewrite (proj1 (pretty_N_char_not_sign d Hd)).
  - lia.
Qed.

Lemma parse_signed_pretty lo hi z :
  lo <= 0 <= hi -> lo <= z <= hi -> parse_signed lo hi (pretty z) = Some z.
Proof.
  intros Hb Hz. destruct z as [|p|p].
  - rewrite <- (parse_unsigned_pretty hi 0) by lia. done.
  - pose proof (parse_unsigned_pretty hi (Z.pos p) ltac:(lia)) as Hu.
    change (pretty (Z.pos p)) with (pretty (N.pos p)) in *.
    destruct (pretty_pos_digits hi p ltac:(lia)) as (d & s & Hd & E & _). rewrite E in *.
    unfold parse_signed. pose proof (proj2 (pretty_N_char_not_sign d Hd)) as Hn.
    destruct (pretty_N_char d) as [[][][][][][][][]]; done.
  - change (pretty (Z.neg p)) with (String "-" (pretty (N.pos p))).
    destruct (pretty_pos_digits (- lo) p ltac:(lia)) as (d & s & _ & E & Hp).
    unfold parse_signed. rewrite Hp. by rewrite E.
Qed.

Lemma split_once_app c a b :
  str_all (fun x => negb (Ascii.eqb x c)) a = true -> split_once c (a ++ String c b) = Some (a, b).
Proof.
  induction a as [|x a IH]; intros H.
  - change ("" ++ String c b) with (String c b). cbn [split_once]. by rewrite Ascii.eqb_refl.
  - change (String x a ++ String c b) with (String x (a ++ String c b)). cbn [split_once].
    simpl in H. bool_to_prop. by rewrite H, IH.
Qed.

Lemma split_once_none c a :
  str_all (fun x => negb (Ascii.eqb x c)) a = true -> split_once c a = None.
Proof.
  induction a as [|x a IH]; intros H; [done |]. simpl in *. bool_to_prop. by rewrite H, IH.
Qed.

Lemma span_while_app p a b :
  str_all p a = true ->
  match b with String c _ => p c = false | EmptyString => True end ->
  span_while p (a ++ b) = (a, b).
Proof.
  induction a as [|x a IH]; intros Ha Hb.
  - change ("" ++ b) with b. destruct b as [|c b]; [done |]. simpl. by rewrite Hb.
  - change (String x a ++ b) with (String x (a ++ b)). cbn [span_while].
    simpl in Ha. bool_to_prop. rewrite H, IH; done.
Qed.

Lemma str_all_app p a b : str_all p (a ++ b) = str_all p a && str_all p b.
Proof.
  induction a as [|x a IH]; [done |].
  change (String x a ++ b) with (String x (a ++ b)). cbn [str_all]. rewrite IH. by destruct (p x).
Qed.

Lemma str_all_weaken (p q : Ascii.ascii -> bool) s :
  (forall c, p c = true -> q c = true) -> str_all p s = true -> str_all q s = true.
Proof.
  intros Hpq. induction s as [|c s IH]; [done |]. simpl. intros H. bool_to_prop.
  rewrite IH by done. by rewrite Hpq.
Qed.

(** Printed integers are made of digits, after a sign for the negative ones. *)
Lemma pretty_N_digits (n : N) : str_all is_ascii_digit (pretty n) = true.
Proof.
  assert (forall x s, str_all is_ascii_digit s = true ->
            str_all is_ascii_digit (pretty_N_go x s) = true) as Hgo.
  { intros x. induction (N.lt_wf_0 x) as [x _ IH]; intros s Hs.
    destruct (decide (x = 0)%N) as [-> | Hne]; [done |].
    rewrite pretty_N_go_step by lia. apply IH; [apply N.div_lt; [lia | reflexivity] |].
    cbn [str_all]. rewrite Hs, andb_true_r. unfold is_ascii_digit.
    by rewrite digit_pretty by (apply N.mod_lt; lia). }
  unfold pretty, pretty_N. case_decide; [done |]. by apply Hgo.
Qed.

Lemma pretty_nonneg_digits z : 0 <= z -> str_all is_ascii_digit (pretty z) = true.
Proof.
  intros Hz. destruct z as [|p|p]; [done | | lia].
  change (pretty (Z.pos p)) with (pretty (N.pos p)). apply pretty_N_digits.
Qed.

(** *** Trimming *)

(** Printable ASCII: the characters the printer writes. *)
Definition graphic (c : ascii) : bool := (33 <=? code c) && (code c <=? 126).

Lemma graphic_not_ws c x y : graphic c = true ->
  ws1 (code c) = false /\ ws2 (code c) x = false /\ ws2 x (code c) = false /\
  ws3 (code c) x y = false /\ ws3 x y (code c) = false.
Proof.
  unfold graphic, ws1, ws2, ws3. intros H. bool_to_prop.
  repeat match goal with |- context [code c =? ?k] =>
    rewrite (proj2 (Z.eqb_neq (code c) k)) by lia end.
  repeat match goal with |- context [?k <=? code c] =>
    first [rewrite (proj2 (Z.leb_gt k (code c))) by lia
          | rewrite (proj2 (Z.leb_le k (code c))) by lia] end.
  repeat match goal with |- context [code c <=? ?k] =>
    first [rewrite (proj2 (Z.leb_gt (code c) k)) by lia
          | rewrite (proj2 (Z.leb_le (code c) k)) by lia] end.
  rewrite ?andb_false_r, ?andb_false_l, ?orb_false_r. simpl.
  rewrite ?andb_false_r. done.
Qed.

Lemma trim_start_graphic s : str_all graphic s = true -> trim_start s = s.
Proof.
  destruct s as [|a s]; [done |]. simpl. intros H. bool_to_prop.
  destruct (graphic_not_ws a 0 0) as (-> & _); [done |].
  destruct s as [|b s]; [done |]. destruct (graphic_not_ws a (code b) 0) as (_ & -> & _); [done |].
  destruct s as [|c s]; [done |].
  destruct (graphic_not_ws a (code b) (code c)) as (_ & _ & _ & -> & _); done.
Qed.

Lemma trim_back_graphic s : str_all graphic s = true -> trim_back s = s.
Proof.
  destruct s as [|a s]; [done |]. simpl. intros H. bool_to_prop.
  destruct (graphic_not_ws a 0 0) as (-> & _); [done |].
  destruct s as [|b s]; [done |]. destruct (graphic_not_ws a (code b) 0) as (_ & _ & -> & _); [done |].
  destruct s as [|c s]; [done |].
  destruct (graphic_not_ws a (code c) (code b)) as (_ & _ & _ & _ & ->); done.
Qed.

Lemma rev_app_app s t u : String.rev_app (s ++ t) u = String.rev_app t (String.rev_app s u).
Proof.
  revert u. induction s as [|c s IH]; intros u; [done |].
  change (String c s ++ t) with (String c (s ++ t)). cbn [String.rev_app]. apply IH.
Qed.

Lemma rev_app_rev_app s t u : String.rev_app (String.rev_app s t) u = String.rev_app t (s ++ u).
Proof.
  revert t u. induction s as [|c s IH]; intros t u; [done |]. cbn [String.rev_app]. by rewrite IH.
Qed.

Lemma string_app_nil_r s : s ++ "" = s.
Proof. induction s as [|c s IH]; [done |]. by change (String c (s ++ "") = String c s); rewrite IH. Qed.

Lemma string_rev_rev s : String.rev (String.rev s) = s.
Proof. unfold String.rev. rewrite rev_app_rev_app. simpl. apply string_app_nil_r. Qed.

Lemma str_all_rev_app p s t : str_all p (String.rev_app s t) = str_all p s && str_all p t.
Proof.
  revert t. induction s as [|c s IH]; intros t; [done |]. cbn [String.rev_app str_all].
  rewrite IH. cbn [str_all]. by destruct (p c), (str_all p s).
Qed.

Lemma str_all_rev p s : str_all p (String.rev s) = str_all p s.
Proof. unfold String.rev. rewrite str_all_rev_app. apply andb_true_r. Qed.

(** Text without spaces and outside the multi-byte range is left alone. *)
Lemma trim_graphic s : str_all graphic s = true -> trim s = s.
Proof.
  intros H. unfold trim, trim_end. rewrite trim_start_graphic by done.
  rewrite trim_back_graphic by (by rewrite str_all_rev). apply string_rev_rev.
Qed.

Lemma string_app_assoc a b c : (a ++ b) ++ c = a ++ (b ++ c).
Proof.
  induction a as [|x a IH]; [done |].
  by change (String x ((a ++ b) ++ c) = String x (a ++ (b ++ c))); rewrite IH.
Qed.

Lemma strip_prefix_app p s : strip_prefix p (p ++ s) = Some s.
Proof.
  induction p as [|a p IH]; [done |]. change (String a p ++ s) with (String a (p ++ s)). simpl.
  by rewrite Ascii.eqb_refl.
Qed.

Lemma strip_prefix_self s : strip_prefix s s = Some "".
Proof. rewrite <- (string_app_nil_r s) at 2. apply strip_prefix_app. Qed.

Lemma strip_prefix_Some p s r : strip_prefix p s = Some r <-> s = p ++ r.
Proof.
  split; [| by intros ->; apply strip_prefix_app].
  revert s. induction p as [|a p IH]; intros s; simpl; [by intros [= ->] |].
  destruct s as [|b s]; [done |]. destruct (Ascii.eqb a b) eqn:E; [| done].
  apply Ascii.eqb_eq in E as ->. intros Hs. by rewrite (IH _ Hs).
Qed.

(** ** Splitting and joining *)

(** No [c] in the string. *)
Definition free_of (c : Ascii.ascii) (s : string) : bool := str_all (fun x => negb (Ascii.eqb x c)) s.

Lemma split_char_free c s : free_of c s = true -> split_char c s = [s].
Proof.
  unfold free_of. induction s as [|x s IH]; simpl; [done |]. intros Hs. apply andb_true_iff in Hs as [Hx Hs].
  apply negb_true_iff in Hx. by rewrite Hx, IH.
Qed.

Lemma split_char_cut c a b :
  free_of c a = true -> split_char c (a ++ String c b) = a :: split_char c b.
Proof.
  unfold free_of. induction a as [|x a IH]; simpl.
  - intros _. by rewrite Ascii.eqb_refl.
  - intros Ha. apply andb_true_iff in Ha as [Hx Ha]. apply negb_true_iff in Hx. by rewrite Hx, IH.
Qed.

Lemma split_char_pieces c s : Forall (fun p => free_of c p = true) (split_char c s).
Proof.
  induction s as [|x s IH]; simpl; [by repeat constructor |]. destruct (Ascii.eqb x c) eqn:E.
  - by constructor.
  - unfold free_of in *. inversion IH as [|p ps Hp Hps]; [by repeat constructor; simpl; rewrite E |].
    constructor; [| done]. simpl. by rewrite E.
Qed.

Lemma split_char_ne c s : split_char c s <> [].
Proof. destruct s as [|x s]; [done |]. simpl. destruct (Ascii.eqb x c); [done |]. by destruct (split_char c s). Qed.

(** Splitting loses nothing. *)
Lemma concat_split c s : String.concat (String c "") (split_char c s) = s.
Proof.
  induction s as [|x s IH]; [done |]. cbn [split_char]. destruct (Ascii.eqb x c) eqn:E.
  - apply Ascii.eqb_eq in E. subst x. pose proof (split_char_ne c s) as Hne.
    destruct (split_char c s) as [|t ts] eqn:Es; [done |].
    change (String.concat (String c "") ("" :: t :: ts)) with (String c (String.concat (String c "") (t :: ts))).
    by rewrite IH.
  - pose proof (split_char_ne c s) as Hne. destruct (split_char c s) as [|t ts] eqn:Es; [done |].
    destruct ts as [|u ts]; [simpl in IH |- *; by rewrite IH |].
    change (String.concat (String c "") (String x t :: u :: ts)) with (String x (String.concat (String c "") (t :: u :: ts))).
    by rewrite IH.
Qed.

(** Splitting undoes joining. *)
Lemma split_concat c l :
  l <> [] -> Forall (fun p => free_of c p = true) l -> split_char c (String.concat (String c "") l) = l.
Proof.
  intros Hne Hl. induction Hl as [|p l Hp Hl IH]; [done |]. destruct l as [|q l].
  - simpl. by rewrite split_char_free.
  - change (String.concat (String c "") (p :: q :: l)) with (p ++ String c (String.concat (String c "") (q :: l))).
    rewrite split_char_cut by done. by rewrite IH.
Qed.
