(* ===== verification/BTreeMap.v ===== *)
(** * Ordered maps

    Rust's [BTreeMap<K, V>] as a strictly sorted association list, over an
    interface [Ord]/[OrdLaws] of total orders (Rust's [Ord]).  The iteration
    order of the map is the list order; [bt_range] is [BTreeMap::range] with
    its panic on an inverted range as [None].  [JsonMap] of a JSON object and
    the catalog's resource map are both instances. *)

From Stdlib Require Import Sorted.
From stdpp Require Import base tactics option list strings.
From S2P Require Import Prelude.

(** ** Total orders *)

Class Ord (A : Type) : Type := cmp : A -> A -> comparison.

Class OrdLaws (A : Type) `{Ord A} : Prop := {
  cmp_eq : forall x y : A, cmp x y = Eq <-> x = y;
  cmp_sym : forall x y : A, cmp y x = CompOpp (cmp x y);
  cmp_trans : forall x y z : A, cmp x y = Lt -> cmp y z = Lt -> cmp x z = Lt
}.

Definition ltb {A} `{Ord A} (x y : A) : bool :=
  match cmp x y with Lt => true | _ => false end.
Definition leb {A} `{Ord A} (x y : A) : bool :=
  match cmp x y with Gt => false | _ => true end.

Notation "x ≺ y" := (cmp x y = Lt) (at level 70) : engenho_scope.

(** Rust derives [Ord] on a struct by comparing its fields in order. *)
Definition lex (c d : comparison) : comparison :=
  match c with Eq => d | _ => c end.

Section OrdFacts.
Context {A : Type} `{OrdLaws A}.
Implicit Types x y z : A.

Lemma cmp_refl x : cmp x x = Eq.
Proof. by apply cmp_eq. Qed.

Lemma lt_irrefl x : ~ x ≺ x.
Proof. rewrite cmp_refl. done. Qed.

Lemma cmp_gt x y : cmp x y = Gt <-> y ≺ x.
Proof. rewrite (cmp_sym x y). destruct (cmp x y); simpl; naive_solver. Qed.

Lemma lt_antisym x y : x ≺ y -> ~ y ≺ x.
Proof. intros Hxy Hyx. eapply lt_irrefl, cmp_trans; eauto. Qed.

Lemma lt_ne x y : x ≺ y -> x <> y.
Proof. intros Hl ->. by eapply lt_irrefl. Qed.

Lemma ltb_true x y : ltb x y = true <-> x ≺ y.
Proof. unfold ltb. destruct (cmp x y); naive_solver. Qed.

Lemma ltb_false x y : ltb x y = false <-> y ≺ x \/ x = y.
Proof.
  unfold ltb. rewrite <- cmp_eq, <- cmp_gt. destruct (cmp x y); naive_solver.
Qed.

Lemma leb_ltb x y : leb x y = negb (ltb y x).
Proof. unfold leb, ltb. rewrite (cmp_sym x y). by destruct (cmp x y). Qed.

Lemma leb_true x y : leb x y = true <-> x ≺ y \/ x = y.
Proof. unfold leb. rewrite <- cmp_eq. destruct (cmp x y); naive_solver. Qed.

Lemma leb_lt_trans x y z : leb x y = true -> y ≺ z -> x ≺ z.
Proof. rewrite leb_true. intros [Hl | ->] Hr; [by eapply cmp_trans | done]. Qed.

Lemma lt_leb_trans x y z : x ≺ y -> leb y z = true -> x ≺ z.
Proof. rewrite leb_true. intros Hl [Hr | <-]; [by eapply cmp_trans | done]. Qed.

End OrdFacts.

Lemma lex_eq c d : lex c d = Eq <-> c = Eq /\ d = Eq.
Proof. destruct c, d; naive_solver. Qed.

Lemma lex_opp c d : lex (CompOpp c) (CompOpp d) = CompOpp (lex c d).
Proof. by destruct c. Qed.

Lemma lex_lt c d : lex c d = Lt <-> c = Lt \/ (c = Eq /\ d = Lt).
Proof. destruct c; naive_solver. Qed.

(** Transitivity of a lexicographic step, given it for both components. *)
Lemma lex_trans {A} `{OrdLaws A} (x y z : A) (d1 d2 d3 : comparison) :
  (d1 = Lt -> d2 = Lt -> d3 = Lt) ->
  lex (cmp x y) d1 = Lt -> lex (cmp y z) d2 = Lt -> lex (cmp x z) d3 = Lt.
Proof.
  intros Hd. rewrite !lex_lt, !cmp_eq.
  intros [Hxy | [-> H1]] [Hyz | [-> H2]]; [left; by eapply cmp_trans | by left | by left |].
  right. split; [done | auto].
Qed.

(** ** Orders of the standard types *)

(** [str] is ordered by its bytes. *)
#[export] Instance string_ord : Ord string := String.compare.

#[export] Instance ascii_ord : Ord Ascii.ascii := Ascii.compare.

#[export] Instance ascii_ord_laws : OrdLaws Ascii.ascii.
Proof.
  split; unfold cmp, ascii_ord.
  - intros x y. split; [apply Ascii.compare_eq_iff |].
    intros ->. unfold Ascii.compare. apply N.compare_refl.
  - intros. apply Ascii.compare_antisym.
  - unfold Ascii.compare. intros x y z. rewrite !N.compare_lt_iff. lia.
Qed.

Lemma string_cmp_cons a s b t :
  cmp (String a s) (String b t) = lex (cmp a b) (cmp s t).
Proof. unfold cmp, string_ord, ascii_ord, lex. simpl. by destruct (Ascii.compare a b). Qed.

#[export] Instance string_ord_laws : OrdLaws string.
Proof.
  split.
  - intros x y. split; [apply String.compare_eq_iff |]. intros ->.
    induction y as [|a y IH]; [done |]. by rewrite string_cmp_cons, cmp_refl.
  - intros. apply String.compare_antisym.
  - intros x. induction x as [|a x IH]; intros [|b y] [|c z]; try done.
    rewrite !string_cmp_cons. apply lex_trans, IH.
Qed.

(** [None < Some _], and [Some] is monotone. *)
#[export] Instance option_ord {A} `{Ord A} : Ord (option A) := fun x y =>
  match x, y with
  | None, None => Eq
  | None, Some _ => Lt
  | Some _, None => Gt
  | Some x, Some y => cmp x y
  end.

Lemma option_cmp_Some {A} `{Ord A} (x y : A) : cmp (Some x) (Some y) = cmp x y.
Proof. done. Qed.

#[export] Instance option_ord_laws {A} `{OrdLaws A} : OrdLaws (option A).
Proof.
  split.
  - intros [x|] [y|]; try done. rewrite option_cmp_Some, (cmp_eq x y). naive_solver.
  - intros [x|] [y|]; try done. exact (cmp_sym x y).
  - intros [x|] [y|] [z|]; try done. exact (cmp_trans x y z).
Qed.

(** ** The map *)

Definition btmap (K V : Type) : Type := list (K * V).

Inductive bound (K : Type) : Type :=
  | Included (k : K)
  | Excluded (k : K)
  | Unbounded.
Arguments Included {K} k.
Arguments Excluded {K} k.
Arguments Unbounded {K}.

Section BTreeMap.
Context {K : Type} `{Ord K}.

Fixpoint bt_get {V} (k : K) (m : btmap K V) : option V :=
  match m with
  | [] => None
  | (k', v) :: m =>
      match cmp k k' with
      | Lt => None
      | Eq => Some v
      | Gt => bt_get k m
      end
  end.

Fixpoint bt_insert {V} (k : K) (v : V) (m : btmap K V) : btmap K V :=
  match m with
  | [] => [(k, v)]
  | (k', v') :: m' =>
      match cmp k k' with
      | Lt => (k, v) :: m
      | Eq => (k, v) :: m'
      | Gt => (k', v') :: bt_insert k v m'
      end
  end.

Fixpoint bt_remove {V} (k : K) (m : btmap K V) : btmap K V :=
  match m with
  | [] => []
  | (k', v') :: m' =>
      match cmp k k' with
      | Lt => m
      | Eq => m'
      | Gt => (k', v') :: bt_remove k m'
      end
  end.

Definition bt_contains {V} (k : K) (m : btmap K V) : bool := is_some (bt_get k m).

(** [collect()] into a map: later entries overwrite earlier ones. *)
Definition bt_of_list {V} (l : list (K * V)) : btmap K V :=
  fold_left (fun m kv => bt_insert kv.1 kv.2 m) l [].

Definition above {V} (b : bound K) (e : K * V) : bool :=
  match b with
  | Included k => leb k e.1
  | Excluded k => ltb k e.1
  | Unbounded => true
  end.

Definition below {V} (b : bound K) (e : K * V) : bool :=
  match b with
  | Included k => leb e.1 k
  | Excluded k => ltb e.1 k
  | Unbounded => true
  end.

(** The ranges [BTreeMap::range] panics on: start after end, or start equal
    to end with both excluded. *)
Definition range_panics (lo hi : bound K) : bool :=
  match lo, hi with
  | Excluded a, Excluded b => leb b a
  | Excluded a, Included b => ltb b a
  | Included a, (Included b | Excluded b) => ltb b a
  | _, _ => false
  end.

Definition bt_range {V} (lo hi : bound K) (m : btmap K V) : option (list (K * V)) :=
  if range_panics lo hi then None
  else Some (List.filter (fun e => above lo e && below hi e) m).

Definition entry_lt {V} (e f : K * V) : Prop := e.1 ≺ f.1.
Definition bt_sorted {V} (m : btmap K V) : Prop := StronglySorted entry_lt m.

Fixpoint bt_sortedb {V} (m : btmap K V) : bool :=
  match m with
  | [] => true
  | e :: m => forallb (fun f => ltb e.1 f.1) m && bt_sortedb m
  end.

End BTreeMap.

Arguments bt_sorted {K _ V} m.

(** The same keys with other values. *)
Definition bt_map_values {K V W} (f : K -> V -> W) (m : btmap K V) : btmap K W :=
  map (fun e => (e.1, f e.1 e.2)) m.

(** ** Laws *)

Section BTreeMapFacts.
Context {K : Type} `{OrdLaws K} {V : Type}.
Implicit Types (k : K) (v : V) (m : btmap K V).

#[local] Ltac by_cmp k1 k2 :=
  let E := fresh "E" in
  destruct (cmp k1 k2) eqn:E;
  [apply cmp_eq in E; subst | | apply cmp_gt in E].

Lemma bt_sorted_nil : bt_sorted (V := V) [].
Proof. constructor. Qed.

Lemma bt_sorted_cons e m :
  bt_sorted (e :: m) <-> bt_sorted m /\ Forall (entry_lt e) m.
Proof. split; [apply StronglySorted_inv | intros []; by constructor]. Qed.

Lemma bt_sortedb_spec m : bt_sortedb m = true <-> bt_sorted m.
Proof.
  induction m as [|e m IH]; simpl; [split; [constructor | done] |].
  rewrite bt_sorted_cons, andb_true_iff, IH, forallb_forall, List.Forall_forall.
  setoid_rewrite ltb_true. tauto.
Qed.

Lemma bt_get_below k m : Forall (fun e => k ≺ e.1) m -> bt_get k m = None.
Proof. destruct 1 as [|[k' v] m Hk]; simpl in *; [done | by rewrite Hk]. Qed.

Lemma entry_lt_below k k' v m :
  Forall (entry_lt (k', v)) m -> k ≺ k' -> Forall (fun e => k ≺ e.1) m.
Proof. intros Hf Hk. eapply Forall_weaken; [exact Hf |]. intros e. by apply cmp_trans. Qed.

Lemma bt_get_In k v m : bt_sorted m -> bt_get k m = Some v <-> In (k, v) m.
Proof.
  induction m as [|[k' v'] m IH]; [done |].
  rewrite bt_sorted_cons. intros [Hs Hf]. simpl. by_cmp k k'.
  - split; [intros [=]; subst; by left |]. intros [[=] | Hin]; [by subst |].
    rewrite List.Forall_forall in Hf. by apply Hf, lt_irrefl in Hin.
  - split; [done |]. intros [[=] | Hin]; [by subst; apply lt_irrefl in E |].
    rewrite List.Forall_forall in Hf. apply Hf in Hin. by apply lt_antisym in E.
  - rewrite (IH Hs). split; [by right |].
    intros [[=] | Hin]; [by subst; apply lt_irrefl in E | done].
Qed.

Lemma bt_get_mem k v m : bt_get k m = Some v -> In (k, v) m.
Proof.
  induction m as [|[k0 v0] m IH]; [done |]. cbn [bt_get]. destruct (cmp k k0) eqn:E; intros Hk.
  - apply cmp_eq in E. simplify_eq. by left.
  - done.
  - right. by apply IH.
Qed.

Lemma bt_get_insert_eq k v m : bt_get k (bt_insert k v m) = Some v.
Proof.
  induction m as [|[k' v'] m IH]; simpl; [by rewrite cmp_refl |].
  destruct (cmp k k') eqn:E; simpl; rewrite ?cmp_refl, ?E; done.
Qed.

Lemma bt_get_insert_ne k k' v m :
  k <> k' -> bt_get k (bt_insert k' v m) = bt_get k m.
Proof.
  intros Hne. induction m as [|[h w] m IH]; simpl.
  - by_cmp k k'; done.
  - by_cmp k' h; simpl; [by by_cmp k h | | by rewrite IH].
    by_cmp k k'; [done | by rewrite (cmp_trans _ _ _ E0 E) | done].
Qed.

Lemma bt_get_insert k k' v m `{!EqDecision K} :
  bt_get k (bt_insert k' v m) = if decide (k = k') then Some v else bt_get k m.
Proof. case_decide; [subst; apply bt_get_insert_eq | by apply bt_get_insert_ne]. Qed.

Lemma bt_insert_Forall (P : K * V -> Prop) k v m :
  P (k, v) -> Forall P m -> Forall P (bt_insert k v m).
Proof.
  intros Hp. induction 1 as [|[h w] m Hh Hm IH]; simpl; [by repeat constructor |].
  destruct (cmp k h); repeat constructor; done.
Qed.

Lemma bt_remove_Forall (P : K * V -> Prop) k m : Forall P m -> Forall P (bt_remove k m).
Proof.
  induction 1 as [|[h w] m Hh Hm IH]; simpl; [done |].
  destruct (cmp k h); repeat constructor; done.
Qed.

Lemma bt_insert_sorted k v m : bt_sorted m -> bt_sorted (bt_insert k v m).
Proof.
  induction m as [|[h w] m IH]; simpl; [repeat constructor |].
  rewrite bt_sorted_cons. intros [Hs Hf]. by_cmp k h; rewrite !bt_sorted_cons.
  - done.
  - repeat split; [done.. |]. constructor; [done |].
    eapply Forall_weaken; [exact Hf |]. intros e. by apply cmp_trans.
  - split; [by apply IH | by apply bt_insert_Forall].
Qed.

Lemma bt_remove_sorted k m : bt_sorted m -> bt_sorted (bt_remove k m).
Proof.
  induction m as [|[h w] m IH]; simpl; [done |].
  rewrite bt_sorted_cons. intros [Hs Hf]. destruct (cmp k h); [done | |].
  - by rewrite bt_sorted_cons.
  - rewrite bt_sorted_cons. split; [by apply IH | by apply bt_remove_Forall].
Qed.

Lemma bt_get_remove_eq k m : bt_sorted m -> bt_get k (bt_remove k m) = None.
Proof.
  induction m as [|[h w] m IH]; simpl; [done |].
  rewrite bt_sorted_cons. intros [Hs Hf]. destruct (cmp k h) eqn:E; simpl.
  - apply cmp_eq in E. subst. by apply bt_get_below.
  - by rewrite E.
  - rewrite E. auto.
Qed.

Lemma bt_get_remove_ne k k' m :
  bt_sorted m -> k <> k' -> bt_get k (bt_remove k' m) = bt_get k m.
Proof.
  intros Hs Hne. induction m as [|[h w] m IH]; simpl; [done |].
  apply bt_sorted_cons in Hs as [Hs Hf]. by_cmp k' h; simpl; [| done | by rewrite IH].
  by_cmp k h; [done | | done]. by eapply bt_get_below, entry_lt_below.
Qed.

Lemma bt_ext m1 m2 :
  bt_sorted m1 -> bt_sorted m2 -> (forall k, bt_get k m1 = bt_get k m2) -> m1 = m2.
Proof.
  intros Hs1. revert m2. induction m1 as [|[k1 v1] m1 IH]; intros [|[k2 v2] m2] Hs2 Hg.
  - done.
  - specialize (Hg k2). simpl in Hg. by rewrite cmp_refl in Hg.
  - specialize (Hg k1). simpl in Hg. by rewrite cmp_refl in Hg.
  - pose proof (Hg k1) as G1. pose proof (Hg k2) as G2. simpl in G1, G2.
    apply bt_sorted_cons in Hs1 as [Hs1 Hf1], Hs2 as [Hs2 Hf2].
    rewrite cmp_refl in G1, G2. by_cmp k1 k2.
    + simplify_eq. f_equal. apply IH; [done.. |]. intros k. specialize (Hg k).
      simpl in Hg. by_cmp k k2; [| | done].
      * by rewrite !bt_get_below by done.
      * by rewrite !bt_get_below by (by eapply entry_lt_below).
    + done.
    + rewrite E in G2. done.
Qed.

Lemma bt_filter_sorted (p : K * V -> bool) m :
  bt_sorted m -> bt_sorted (List.filter p m).
Proof.
  induction m as [|e m IH]; simpl; [done |]. rewrite bt_sorted_cons. intros [Hs Hf].
  destruct (p e); [| auto]. rewrite bt_sorted_cons. split; [auto |].
  rewrite List.Forall_forall in *. intros f. rewrite filter_In. naive_solver.
Qed.

Lemma bt_get_filter (p : K -> bool) k m :
  bt_sorted m ->
  bt_get k (List.filter (fun e => p e.1) m) = if p k then bt_get k m else None.
Proof.
  intros Hs. destruct (bt_get k (List.filter _ m)) as [v|] eqn:E.
  - apply bt_get_In in E; [| by apply bt_filter_sorted].
    apply filter_In in E as [Hin Hp]. simpl in Hp. rewrite Hp. symmetry. by apply bt_get_In.
  - destruct (p k) eqn:Hp; [| done]. destruct (bt_get k m) as [v|] eqn:G; [| done].
    apply bt_get_In in G; [| done].
    assert (In (k, v) (List.filter (fun e => p e.1) m)) as Hin by (by apply filter_In).
    apply bt_get_In in Hin; [congruence | by apply bt_filter_sorted].
Qed.

Lemma bt_keys_NoDup m : bt_sorted m -> NoDup m.*1.
Proof.
  induction m as [|[k v] m IH]; [constructor |]. rewrite bt_sorted_cons. intros [Hs Hf].
  rewrite fmap_cons. constructor; [| auto].
  rewrite list_elem_of_fmap. intros ([k' v'] & Hk & Hin). simpl in Hk. subst k'.
  rewrite List.Forall_forall in Hf. apply list_elem_of_In, Hf in Hin. by apply lt_irrefl in Hin.
Qed.

Lemma bt_insert_get_id k v m : bt_sorted m -> bt_get k m = Some v -> bt_insert k v m = m.
Proof.
  induction m as [|[h w] m IH]; simpl; [done |]. rewrite bt_sorted_cons. intros [Hs _].
  by_cmp k h; [naive_solver | done |]. intros. by rewrite IH.
Qed.

Lemma bt_insert_insert k v w m : bt_insert k w (bt_insert k v m) = bt_insert k w m.
Proof.
  induction m as [|[h u] m IH]; simpl; [by rewrite cmp_refl |].
  destruct (cmp k h) eqn:E; simpl; rewrite ?cmp_refl, ?E; [done.. | by rewrite IH].
Qed.

Lemma bt_remove_insert k v m : bt_get k m = None -> bt_remove k (bt_insert k v m) = m.
Proof.
  induction m as [|[h u] m IH]; simpl; [by rewrite cmp_refl |].
  destruct (cmp k h) eqn:E; simpl; rewrite ?cmp_refl, ?E; [done.. |].
  intros Hg. by rewrite IH.
Qed.

Lemma bt_of_list_sorted (l : list (K * V)) m0 :
  bt_sorted m0 -> bt_sorted (fold_left (fun m kv => bt_insert kv.1 kv.2 m) l m0).
Proof. revert m0. induction l as [|[k v] l IH]; intros m0 Hs; simpl; [done |]. by apply IH, bt_insert_sorted. Qed.

(** Inserting past the end of a sorted map appends. *)
Lemma bt_insert_last k v m :
  Forall (fun e => e.1 ≺ k) m -> bt_insert k v m = m ++ [(k, v)].
Proof.
  induction 1 as [|[h w] m Hh _ IH]; simpl in *; [done |].
  apply cmp_gt in Hh. by rewrite Hh, IH.
Qed.

Lemma bt_sorted_app m1 m2 :
  bt_sorted (m1 ++ m2) <->
  bt_sorted m1 /\ bt_sorted m2 /\ Forall (fun e => Forall (entry_lt e) m2) m1.
Proof.
  induction m1 as [|e m1 IH]; simpl.
  - split; [intros; split_and!; [constructor | done | constructor] | by intros (_ & ? & _)].
  - rewrite !bt_sorted_cons, IH, Forall_cons, Forall_app. tauto.
Qed.

(** Collecting a sorted list gives the list. *)
Lemma bt_of_list_id m : bt_sorted m -> bt_of_list m = m.
Proof.
  unfold bt_of_list.
  assert (forall m0, bt_sorted (m0 ++ m) ->
    fold_left (fun m kv => bt_insert kv.1 kv.2 m) m m0 = m0 ++ m) as Hgen; [| apply (Hgen [])].
  induction m as [|[k v] m IH]; intros m0 Hs; simpl; [by rewrite app_nil_r |].
  rewrite bt_insert_last; [rewrite IH |]; rewrite <- ?app_assoc; [done | done |].
  apply bt_sorted_app in Hs as (_ & _ & Hlt). eapply Forall_weaken; [exact Hlt |].
  intros e He. by inversion He.
Qed.

End BTreeMapFacts.

Section MapValues.
Context {K V W : Type} `{OrdLaws K} (f : K -> V -> W).

Lemma bt_map_values_sorted (m : btmap K V) : bt_sorted m -> bt_sorted (bt_map_values f m).
Proof.
  induction m as [|[k v] m IH]; simpl; [constructor |].
  rewrite !bt_sorted_cons. intros [Hs Hf]. split; [auto |].
  unfold bt_map_values. rewrite List.Forall_forall in *. intros e.
  rewrite in_map_iff. intros ([k' v'] & <- & Hin). by apply (Hf (k', v')).
Qed.

Lemma bt_get_map_values k (m : btmap K V) :
  bt_get k (bt_map_values f m) = f k <$> bt_get k m.
Proof.
  induction m as [|[k' v] m IH]; simpl; [done |].
  destruct (cmp k k') eqn:E; [apply cmp_eq in E; by subst | done | done].
Qed.

End MapValues.

#[export] Hint Resolve bt_sorted_nil bt_insert_sorted bt_remove_sorted bt_filter_sorted
  bt_map_values_sorted bt_of_list_sorted : engenho.
