(* ===== verification/Json.v ===== *)
(** * JSON values

    [serde_json::Value] as an inductive type.  [serde_json] is built without
    its [preserve_order] feature, so an object is a [BTreeMap<String, Value>]:
    here an association list that [wf_json] requires to be strictly sorted at
    every level, with the accessors the store uses ([get], [as_array],
    [as_str], ...).  Strings are byte strings (UTF-8).  A finite [f64] is
    represented by its value, a canonical rational, which is what [==] on
    [serde_json::Number] compares. *)

From Stdlib Require Import Sorted Qcanon Ascii.
From stdpp Require Import base tactics option list strings numbers countable.
From S2P Require Import Prelude BTreeMap.

Local Open Scope Z_scope.

Inductive number : Type :=
  | PosInt (n : Z)
  | NegInt (n : Z)
  | Float (q : Qc).

#[export] Instance number_eq_dec : EqDecision number.
Proof. solve_decision. Defined.

#[warnings="-register-all"]
Inductive json : Type :=
  | JNull
  | JBool (b : bool)
  | JNumber (n : number)
  | JString (s : string)
  | JArray (l : list json)
  | JObject (m : list (string * json)).

(** ** Induction and equality *)

Section JsonInd.
Variable P : json -> Prop.
Hypothesis HNull : P JNull.
Hypothesis HBool : forall b, P (JBool b).
Hypothesis HNumber : forall n, P (JNumber n).
Hypothesis HString : forall s, P (JString s).
Hypothesis HArray : forall l, Forall P l -> P (JArray l).
Hypothesis HObject : forall m, Forall (fun e => P e.2) m -> P (JObject m).

Fixpoint json_nested_ind (v : json) : P v :=
  match v with
  | JNull => HNull
  | JBool b => HBool b
  | JNumber n => HNumber n
  | JString s => HString s
  | JArray l =>
      HArray l ((fix go l : Forall P l :=
        match l with
        | [] => Forall_nil_2 _
        | x :: l => Forall_cons_2 _ _ _ (json_nested_ind x) (go l)
        end) l)
  | JObject m =>
      HObject m ((fix go m : Forall (fun e => P e.2) m :=
        match m with
        | [] => Forall_nil_2 _
        | e :: m => Forall_cons_2 _ _ _ (json_nested_ind e.2) (go m)
        end) m)
  end.
End JsonInd.

(** Rust's derived [PartialEq]: structural, element by element. *)
Fixpoint json_eqb (v w : json) {struct v} : bool :=
  match v, w with
  | JNull, JNull => true
  | JBool a, JBool b => Bool.eqb a b
  | JNumber a, JNumber b => eqb a b
  | JString a, JString b => eqb a b
  | JArray l, JArray l' =>
      (fix go l l' {struct l} := match l, l' with
        | [], [] => true
        | x :: l, y :: l' => json_eqb x y && go l l'
        | _, _ => false
        end) l l'
  | JObject m, JObject m' =>
      (fix go m m' {struct m} := match m, m' with
        | [], [] => true
        | (k, x) :: m, (k', y) :: m' => eqb k k' && json_eqb x y && go m m'
        | _, _ => false
        end) m m'
  | _, _ => false
  end.

Lemma json_eqb_eq v w : json_eqb v w = true <-> v = w.
Proof.
  split.
  - revert w. induction v as [| b | n | s | l IH | m IH] using json_nested_ind;
      intros [| b' | n' | s' | l' | m']; try done; simpl; intros E.
    + apply Bool.eqb_prop in E. by subst.
    + apply eqb_sound in E. by subst.
    + apply eqb_sound in E. by subst.
    + f_equal. revert l' E. induction IH as [|x l Hx _ IHl]; intros [|y l'] E; try done.
      apply andb_true_iff in E as [E1 E2]. by rewrite (Hx _ E1), (IHl _ E2).
    + f_equal. revert m' E. induction IH as [|[k x] m Hx _ IHm]; intros [|[k' y] m'] E; try done.
      apply andb_true_iff in E as [E1 E2]. apply andb_true_iff in E1 as [E0 E1].
      apply eqb_sound in E0. simpl in Hx. by rewrite E0, (Hx _ E1), (IHm _ E2).
  - intros <-. induction v as [| b | n | s | l IH | m IH] using json_nested_ind; simpl.
    + done.
    + apply Bool.eqb_reflx.
    + apply eqb_refl.
    + apply eqb_refl.
    + induction IH as [|x l Hx _ IHl]; [done |]. by rewrite Hx, IHl.
    + induction IH as [|[k x] m Hx _ IHm]; [done |]. simpl in Hx. by rewrite eqb_refl, Hx, IHm.
Qed.

#[export] Instance json_eq_dec : EqDecision json := fun v w =>
  match json_eqb v w as b return json_eqb v w = b -> Decision (v = w) with
  | true => fun E => left (proj1 (json_eqb_eq v w) E)
  | false => fun E => right (fun F => eq_true_false_abs _ (proj2 (json_eqb_eq v w) F) E)
  end eq_refl.

(** ** Well-formed values *)

Definition number_ok (n : number) : bool :=
  match n with
  | PosInt n => (0 <=? n) && (n <=? Word.u64_max)
  | NegInt n => (Word.i64_min <=? n) && (n <? 0)
  | Float _ => true
  end.

Fixpoint wf_json (v : json) : bool :=
  match v with
  | JNumber n => number_ok n
  | JArray l => forallb wf_json l
  | JObject m => bt_sortedb m && forallb (fun e => wf_json e.2) m
  | _ => true
  end.

(** ** Accessors *)

(** [json!({ ... })]. *)
Definition jobj (fields : list (string * json)) : json := JObject (bt_of_list fields).

Definition jobject (m : btmap string json) : json := JObject m.

Definition as_object (v : json) : option (btmap string json) :=
  match v with JObject m => Some m | _ => None end.
Definition as_array (v : json) : option (list json) :=
  match v with JArray l => Some l | _ => None end.
Definition as_str (v : json) : option string :=
  match v with JString s => Some s | _ => None end.
Definition as_i64 (v : json) : option Z :=
  match v with
  | JNumber (PosInt n) => if n <=? Word.i64_max then Some n else None
  | JNumber (NegInt n) => Some n
  | _ => None
  end.

Definition is_null (v : json) : bool := match v with JNull => true | _ => false end.
Definition is_object (v : json) : bool := is_some (as_object v).
Definition is_array (v : json) : bool := is_some (as_array v).

(** [Value::get] with a string index. *)
Definition jget (k : string) (v : json) : option json :=
  match v with JObject m => bt_get k m | _ => None end.

(** [Number::from] on an [i64]. *)
Definition number_of_i64 (z : Z) : number := if 0 <=? z then PosInt z else NegInt z.

(** [jset k v o] is [o.as_object_mut().insert(k, v)] when [o] is an object. *)
Definition jset (k : string) (v o : json) : json :=
  match o with JObject m => JObject (bt_insert k v m) | _ => o end.

(** ** Facts *)

Lemma wf_json_object m :
  wf_json (JObject m) = true <-> bt_sorted m /\ Forall (fun e => wf_json e.2 = true) m.
Proof.
  simpl. rewrite andb_true_iff, bt_sortedb_spec, forallb_forall, List.Forall_forall. done.
Qed.

Lemma wf_sorted m : wf_json (JObject m) = true -> bt_sorted m.
Proof. intros Hm. by apply wf_json_object in Hm as [? _]. Qed.

Lemma wf_json_array l : wf_json (JArray l) = true <-> Forall (fun v => wf_json v = true) l.
Proof. simpl. by rewrite forallb_forall, List.Forall_forall. Qed.

Lemma wf_json_get k v w : wf_json v = true -> jget k v = Some w -> wf_json w = true.
Proof.
  destruct v as [| | | | | m]; simpl jget; try done. rewrite wf_json_object.
  intros [Hs Hf] Hg. apply bt_get_In in Hg; [| done].
  rewrite List.Forall_forall in Hf. by apply (Hf (k, w)).
Qed.

Lemma wf_json_insert k v m :
  wf_json v = true -> wf_json (JObject m) = true -> wf_json (JObject (bt_insert k v m)) = true.
Proof.
  rewrite !wf_json_object. intros Hv [Hs Hf].
  split; [by apply bt_insert_sorted | by apply bt_insert_Forall].
Qed.

Lemma wf_json_remove k m :
  wf_json (JObject m) = true -> wf_json (JObject (bt_remove k m)) = true.
Proof.
  rewrite !wf_json_object. intros [Hs Hf].
  split; [by apply bt_remove_sorted | by apply bt_remove_Forall].
Qed.

Lemma wf_json_empty : wf_json (JObject []) = true.
Proof. done. Qed.

Lemma number_of_i64_ok z : Word.is_i64 z -> number_ok (number_of_i64 z) = true.
Proof.
  unfold Word.is_i64, number_of_i64, Word.i64_max, Word.i64_min. intros Hz.
  destruct (Z.leb_spec 0 z); simpl; unfold Word.u64_max, Word.u64_modulus, Word.i64_min;
    apply andb_true_iff; split; (apply Z.leb_le || apply Z.ltb_lt); lia.
Qed.

Lemma as_i64_of_i64 z : Word.is_i64 z -> as_i64 (JNumber (number_of_i64 z)) = Some z.
Proof.
  unfold Word.is_i64, number_of_i64. intros Hz.
  destruct (Z.leb_spec 0 z); simpl; [| done]. by rewrite (proj2 (Z.leb_le _ _)) by lia.
Qed.

Lemma as_i64_range v z : wf_json v = true -> as_i64 v = Some z -> Word.is_i64 z.
Proof.
  destruct v as [| | [n | n | q] | | |]; try done; simpl; intros Hw E;
    unfold Word.is_i64, Word.i64_max, Word.i64_min in *; try case_match; simplify_eq; bool_to_prop; lia.
Qed.

#[export] Hint Resolve wf_json_insert wf_json_remove wf_json_empty wf_json_get : engenho.

(** ** The text form

    [serde_json]'s printer and parser are not part of this repository: the
    model takes them as parameters.  [SerdeJsonLaws] is the documented round
    trip, and that a parsed value is one the type can hold; the theorems that
    need them assume them.  For a number that is not an integer the round trip is
    that of the [float_roundtrip] feature: without it the parser may miss the
    printed number in its last place. *)
Class SerdeJson : Type := {
  json_text : json -> string;
  parse_json : string -> option json
}.

Class SerdeJsonLaws `{SerdeJson} : Prop := {
  parse_json_text : forall v, wf_json v = true -> parse_json (json_text v) = Some v;
  parse_json_wf : forall s v, parse_json s = Some v -> wf_json v = true
}.

(** ** A lawful text form

    The theorems that need [serde_json] to read back what it printed assume
    [SerdeJsonLaws].  This file shows the assumption can hold: it numbers the
    JSON values and prints the number in binary.  Only the witnesses use it. *)

#[export] Instance number_countable : Countable number.
Proof.
  refine (inj_countable'
    (fun n => match n with PosInt n => inl n | NegInt n => inr (inl n) | Float q => inr (inr q) end)
    (fun s => match s with inl n => PosInt n | inr (inl n) => NegInt n | inr (inr q) => Float q end) _).
  by intros [].
Defined.

(** Leaves of the tree a value is numbered by. *)
Definition leaf : Type := (unit + bool + number + string)%type.

Fixpoint json_tree (v : json) : gen_tree leaf :=
  match v with
  | JNull => GenLeaf (inl (inl (inl tt)))
  | JBool b => GenLeaf (inl (inl (inr b)))
  | JNumber n => GenLeaf (inl (inr n))
  | JString s => GenLeaf (inr s)
  | JArray l => GenNode 0 (map json_tree l)
  | JObject m => GenNode 1 (map (fun e => GenNode 2 [GenLeaf (inr e.1); json_tree e.2]) m)
  end.

Fixpoint tree_json (t : gen_tree leaf) : json :=
  match t with
  | GenLeaf (inl (inl (inl tt))) => JNull
  | GenLeaf (inl (inl (inr b))) => JBool b
  | GenLeaf (inl (inr n)) => JNumber n
  | GenLeaf (inr s) => JString s
  | GenNode 0 ts => JArray (map tree_json ts)
  | GenNode _ ts =>
      JObject (map (fun e => match e with
                             | GenNode _ [GenLeaf (inr k); t] => (k, tree_json t)
                             | _ => (EmptyString, JNull)
                             end) ts)
  end.

Lemma tree_json_tree v : tree_json (json_tree v) = v.
Proof.
  induction v as [| | | | l IH | m IH] using json_nested_ind; simpl; try done; f_equal.
  - induction IH as [|x l Hx _ IH]; simpl; congruence.
  - induction IH as [|[k x] m Hx _ IH]; simpl in *; congruence.
Qed.

#[export] Instance json_countable : Countable json := inj_countable' json_tree tree_json tree_json_tree.

Fixpoint bits (p : positive) : string :=
  match p with
  | xH => EmptyString
  | xO p => String "0"%char (bits p)
  | xI p => String "1"%char (bits p)
  end.

Fixpoint unbits (s : string) : positive :=
  match s with
  | EmptyString => xH
  | String c s => if Ascii.eqb c "0"%char then xO (unbits s) else xI (unbits s)
  end.

Lemma unbits_bits p : unbits (bits p) = p.
Proof. induction p; simpl; congruence. Qed.

Definition numbered : SerdeJson := {|
  json_text v := bits (encode v);
  parse_json s := decode (unbits s) ≫= fun v => if wf_json v then Some v else None
|}.

Lemma numbered_laws : @SerdeJsonLaws numbered.
Proof.
  split; simpl.
  - intros v Hv. rewrite unbits_bits, decode_encode. simpl. by rewrite Hv.
  - intros s v. destruct (decode (unbits s)) as [w|]; simpl; [| done].
    destruct (wf_json w) eqn:E; [| done]. by intros [= <-].
Qed.
