(* ===== verification/Resource.v ===== *)
(** * Resource keys and list scopes

    Models [engenho-store/src/resource.rs]: [ResourceKey] with its derived
    order, its label, and [ListScope], the contiguous run of catalog keys one
    LIST addresses.  The main result is that the bounded range a scope asks
    the ordered map for is exactly the scope's entries after the cursor, and
    that it never asks for a range the map panics on. *)

From Stdlib Require Import Sorted.
From stdpp Require Import base tactics option list strings numbers.
From S2P Require Import Prelude BTreeMap Json.

Local Open Scope string_scope.

Record ResourceKey : Type := mkResourceKey {
  group : string;
  version : string;
  kind : string;
  namespace : option string;
  name : string
}.

#[export] Instance ResourceKey_eq_dec : EqDecision ResourceKey.
Proof. solve_decision. Defined.

(** The derived [Ord]: fields compared in declaration order. *)
#[export] Instance ResourceKey_ord : Ord ResourceKey := fun a b =>
  lex (cmp (group a) (group b))
  (lex (cmp (version a) (version b))
  (lex (cmp (kind a) (kind b))
  (lex (cmp (namespace a) (namespace b))
  (cmp (name a) (name b))))).

Lemma key_cmp (a b : ResourceKey) :
  cmp a b =
  lex (cmp (group a) (group b))
  (lex (cmp (version a) (version b))
  (lex (cmp (kind a) (kind b))
  (lex (cmp (namespace a) (namespace b))
  (cmp (name a) (name b))))).
Proof. done. Qed.

Lemma ResourceKey_cmp_eq a b : cmp a b = Eq <-> a = b.
Proof.
  unfold cmp at 1, ResourceKey_ord. rewrite !lex_eq, !cmp_eq.
  destruct a, b; simpl. naive_solver.
Qed.

#[export] Instance ResourceKey_ord_laws : OrdLaws ResourceKey.
Proof.
  split.
  - apply ResourceKey_cmp_eq.
  - intros a b. unfold cmp at 1 2, ResourceKey_ord.
    rewrite (cmp_sym (group a)), (cmp_sym (version a)), (cmp_sym (kind a)),
      (cmp_sym (namespace a)), (cmp_sym (name a)). by rewrite !lex_opp.
  - intros a b c. unfold cmp at 1 2 3, ResourceKey_ord. repeat apply lex_trans. apply cmp_trans.
Qed.

Definition namespaced (group version kind namespace name : string) : ResourceKey :=
  mkResourceKey group version kind (Some namespace) name.

Definition cluster_scoped (group version kind name : string) : ResourceKey :=
  mkResourceKey group version kind None name.

Definition label (k : ResourceKey) : string :=
  let group := if eqb (group k) "" then "v1" else group k in
  match namespace k with
  | Some ns => group ++ "/" ++ version k ++ "/" ++ kind k ++ "/" ++ ns ++ "/" ++ name k
  | None => group ++ "/" ++ version k ++ "/" ++ kind k ++ "/" ++ name k
  end.

(** ** List scopes *)

Record ListScope : Type := mkListScope {
  sc_group : string;
  sc_version : string;
  sc_kind : string;
  sc_namespace : option string
}.

Definition contains (s : ListScope) (key : ResourceKey) : bool :=
  eqb (group key) (sc_group s)
  && eqb (version key) (sc_version s)
  && eqb (kind key) (sc_kind s)
  && is_none_or (fun ns => eqb (namespace key) (Some ns)) (sc_namespace s).

(** The least string that sorts after [s]: [s] followed by NUL. *)
Definition successor (s : string) : string := s ++ String Ascii.zero EmptyString.

Definition first (s : ListScope) : ResourceKey :=
  mkResourceKey (sc_group s) (sc_version s) (sc_kind s) (sc_namespace s) "".

Definition end_ (s : ListScope) : ResourceKey :=
  match sc_namespace s with
  | None => mkResourceKey (sc_group s) (sc_version s) (successor (sc_kind s)) None ""
  | Some ns => mkResourceKey (sc_group s) (sc_version s) (sc_kind s) (Some (successor ns)) ""
  end.

(** The lower bound the cursor is clamped to. *)
Definition lower_bound (s : ListScope) (after : option ResourceKey) : bound ResourceKey :=
  match after with
  | Some cursor =>
      if leb (end_ s) cursor then Included (end_ s)
      else if leb (first s) cursor then Excluded cursor
      else Included (first s)
  | None => Included (first s)
  end.

(** [None] is the panic of [BTreeMap::range]. *)
Definition range {V} (s : ListScope) (m : btmap ResourceKey V) (after : option ResourceKey)
  : option (list (ResourceKey * V)) :=
  bt_range (lower_bound s after) (Excluded (end_ s)) m.

(** What a scope with a cursor selects, as a predicate on keys. *)
Definition selects (s : ListScope) (after : option ResourceKey) (key : ResourceKey) : bool :=
  contains s key && is_none_or (fun cursor => ltb cursor key) after.

(** ** The scope is one run *)

Lemma string_cmp_empty_l s : leb "" s = true.
Proof. by destruct s. Qed.

Lemma string_lt_empty s : ~ s ≺ "".
Proof. by destruct s. Qed.

Lemma successor_lt x s : x ≺ successor s <-> leb x s = true.
Proof.
  revert x. induction s as [|a s IH]; intros [|b x]; try (by split).
  - change (successor "") with (String Ascii.zero "").
    rewrite string_cmp_cons, lex_lt. split; [| done].
    intros [Hb | [_ Hx]]; [| by apply string_lt_empty in Hx].
    unfold cmp, ascii_ord, Ascii.compare in Hb.
    rewrite N.compare_lt_iff in Hb. change (Ascii.N_of_ascii Ascii.zero) with 0%N in Hb. lia.
  - change (successor (String a s)) with (String a (successor s)).
    rewrite leb_true, !string_cmp_cons, !lex_lt, cmp_eq, IH, leb_true. naive_solver.
Qed.

Lemma cmp_successor x s : cmp x s = Gt -> cmp x (successor s) <> Lt.
Proof. intros Hx Hl. apply successor_lt in Hl. unfold leb in Hl. by rewrite Hx in Hl. Qed.

Lemma lt_successor s : s ≺ successor s.
Proof. apply successor_lt, leb_true. by right. Qed.

Lemma least_suffix (c : comparison) (n : string) :
  c <> Lt -> lex c (cmp n "") <> Lt.
Proof. destruct c, n; done. Qed.

Lemma cmp_None_r (o : option string) : cmp o None <> Lt.
Proof. by destruct o. Qed.

Lemma leb_first k f : leb f k = true <-> cmp k f <> Lt.
Proof. unfold leb. rewrite (cmp_sym k f). destruct (cmp k f); naive_solver. Qed.

(** A key below [end_] that is not below [first] agrees with the scope on
    every field the scope narrows, and only such a key does. *)
Lemma scope_bounds s k :
  contains s k = true <-> leb (first s) k = true /\ k ≺ end_ s.
Proof.
  rewrite leb_first, !key_cmp. destruct s as [g v kd ns], k as [g' v' kd' ns' n'].
  unfold contains, first, end_, eqb. simpl.
  rewrite !andb_true_iff, !bool_decide_eq_true, <- (cmp_eq g'), <- (cmp_eq v'), <- (cmp_eq kd').
  destruct ns as [ns|]; simpl; rewrite ?bool_decide_eq_true, <- ?(cmp_eq ns');
    (destruct (cmp g' g) eqn:Eg; simpl; [| naive_solver..]);
    (destruct (cmp v' v) eqn:Ev; simpl; [| naive_solver..]).
  - destruct (cmp kd' kd) eqn:Ek; simpl; [| naive_solver..].
    destruct (cmp ns' (Some ns)) eqn:En; simpl.
    + apply cmp_eq in En. subst. rewrite option_cmp_Some, lt_successor. simpl.
      split; [| done]. intros _. split; [apply (least_suffix Eq) | done]. done.
    + naive_solver.
    + destruct ns' as [ns'|]; [| done]. rewrite option_cmp_Some in *.
      pose proof (least_suffix _ n' (cmp_successor _ _ En)). naive_solver.
  - destruct (cmp kd' kd) eqn:Ek; simpl.
    + apply cmp_eq in Ek. subst. rewrite lt_successor. simpl.
      pose proof (least_suffix _ n' (cmp_None_r ns')). naive_solver.
    + naive_solver.
    + apply cmp_successor in Ek. pose proof (least_suffix _ n' (cmp_None_r ns')).
      destruct (cmp kd' (successor kd)); simpl; naive_solver.
Qed.

Lemma first_lt_end s : first s ≺ end_ s.
Proof. apply scope_bounds. unfold contains. rewrite !eqb_refl. simpl. by destruct s as [? ? ? []]; simpl; rewrite ?eqb_refl. Qed.

Lemma range_never_panics s after :
  range_panics (lower_bound s after) (Excluded (end_ s)) = false.
Proof.
  unfold lower_bound, range_panics. destruct after as [cursor|];
    [destruct (leb (end_ s) cursor) eqn:E1; [| destruct (leb (first s) cursor) eqn:E2] |].
  - rewrite ltb_false. by right.
  - done.
  - rewrite ltb_false. left. apply first_lt_end.
  - rewrite ltb_false. left. apply first_lt_end.
Qed.

(** The bounds select exactly the scope's keys after the cursor. *)
Lemma bounds_select {V} s after (e : ResourceKey * V) :
  above (lower_bound s after) e && below (Excluded (end_ s)) e = selects s after e.1.
Proof.
  apply Bool.eq_iff_eq_true. unfold selects, below.
  rewrite !andb_true_iff, scope_bounds, ltb_true.
  destruct after as [c|]; simpl; [| tauto]. rewrite ltb_true.
  destruct (leb (end_ s) c) eqn:E1; [| destruct (leb (first s) c) eqn:E2]; simpl.
  - rewrite leb_ltb, negb_true_iff, ltb_false. split.
    + intros [[Hk | <-] Hk']; [by apply lt_antisym in Hk | by apply lt_irrefl in Hk'].
    + intros [[_ Hk] Hc]. pose proof (lt_leb_trans _ _ _ Hk E1) as Hkc. by apply lt_antisym in Hc.
  - rewrite ltb_true. split; [| tauto]. intros [Hc Hk]. repeat split; [| done..].
    apply leb_true. left. by eapply leb_lt_trans.
  - assert (c ≺ first s) as Hc by (by rewrite leb_ltb, negb_false_iff, ltb_true in E2).
    split; [| tauto]. intros [Hk Hk']. repeat split; [done.. |]. by eapply lt_leb_trans.
Qed.

Lemma range_filter {V} (s : ListScope) (m : btmap ResourceKey V) (after : option ResourceKey) :
  range s m after = Some (List.filter (fun e => selects s after e.1) m).
Proof.
  unfold range, bt_range. rewrite range_never_panics. f_equal.
  apply filter_ext. intros e. apply bounds_select.
Qed.

(** [ListScope::range] never asks the map for a range it panics on, whatever
    cursor the client sent, and on every ordered map returns exactly the
    entries of the scope that sort strictly after the cursor, in key order. *)
Theorem list_scope_range_spec {V} (s : ListScope) (m : btmap ResourceKey V)
    (after : option ResourceKey) :
  range s m after = Some (List.filter (fun e => selects s after e.1) m).
Proof. apply range_filter. Qed.

(** ** MVCC revisions

    Models [engenho-store/src/revision.rs]: the global revision counter (a
    [u64]), the per-key [VersionMeta] triple, and the committed [Change] the
    history ring, the watch replay and the historical reads are built from. *)

Local Open Scope Z_scope.

(** [Revision] is a newtype over [u64]; its order is the numeric one. *)
Abbreviation Revision := Z (only parsing).

Definition ZERO : Revision := 0.

(** [Revision::next]: [self.0 + 1] at [u64] width. *)
Definition next (r : Revision) : Revision := Word.u64_add r 1.

Record VersionMeta : Type := mkVersionMeta {
  create_revision : Revision;
  mod_revision : Revision;
  meta_version : Z
}.

Definition created_at (rev : Revision) : VersionMeta := mkVersionMeta rev rev 1.

Definition bumped_at (m : VersionMeta) (rev : Revision) : VersionMeta :=
  mkVersionMeta (create_revision m) rev (Word.u64_add (meta_version m) 1).

Inductive ChangeKind : Type := Put | Delete.

Record Change : Type := mkChange {
  revision : Revision;
  key : ResourceKey;
  change_kind : ChangeKind;
  value : json;
  prior : option json;
  version_meta : VersionMeta
}.

Record CompactedTooOld : Type := mkCompactedTooOld {
  requested : Revision;
  compacted : Revision
}.

#[export] Instance VersionMeta_eq_dec : EqDecision VersionMeta.
Proof. solve_decision. Defined.
#[export] Instance ChangeKind_eq_dec : EqDecision ChangeKind.
Proof. solve_decision. Defined.
#[export] Instance Change_eq_dec : EqDecision Change.
Proof. solve_decision. Defined.

Lemma next_small r : 0 <= r < Word.u64_max -> next r = r + 1.
Proof. unfold next, Word.u64_max. intros. apply Word.u64_add_small. unfold Word.u64_max. lia. Qed.

(** ** Coherent metadata

    [meta_ok head m] holds of the metadata of a key live at [head]: created no
    later than modified, modified no later than [head], and bumped at least
    once per recorded mutation. *)
Definition meta_ok (head : Revision) (m : VersionMeta) : Prop :=
  1 <= create_revision m /\ create_revision m <= mod_revision m /\ mod_revision m <= head.

Lemma meta_ok_mono head head' m : meta_ok head m -> head <= head' -> meta_ok head' m.
Proof. unfold meta_ok. lia. Qed.

Lemma created_at_ok rev : 1 <= rev -> meta_ok rev (created_at rev).
Proof. unfold meta_ok. simpl. lia. Qed.

Lemma bumped_at_ok head rev m : meta_ok head m -> head <= rev -> meta_ok rev (bumped_at m rev).
Proof. unfold meta_ok. simpl. lia. Qed.

#[export] Hint Resolve meta_ok_mono created_at_ok bumped_at_ok : engenho.
