(* ===== verification/WatchHistory.v ===== *)
(** * The watch-replay history

    Models [engenho-store/src/watch_history.rs]: the ring of retained
    changes, its compaction floor, the head revision and the capacity, as one
    value with the four operations that may change it.  The abstract
    specification is a log of every change ever committed: a reachable
    history retains exactly the log's changes above its floor, so a replay
    from any revision at or above the floor is complete and one below it is
    refused. *)

From Stdlib Require Import Sorted.
From stdpp Require Import base tactics option list strings numbers.
From S2P Require Import Prelude BTreeMap Json Resource.

Local Open Scope Z_scope.

Definition DEFAULT_HISTORY_CAPACITY : positive := 8192.

(** [capacity] is a [NonZeroUsize]. *)
Record WatchHistory : Type := mkWatchHistory {
  ring : list Change;
  floor : Revision;
  head : Revision;
  capacity : positive
}.

Definition new (capacity : positive) : WatchHistory :=
  mkWatchHistory [] ZERO ZERO capacity.

Definition loaded_at (head : Revision) (capacity : positive) : WatchHistory :=
  mkWatchHistory [] head head capacity.

Definition next_revision (h : WatchHistory) : Revision := next (head h).

(** The retained changes at or below [rv], then those strictly after it. *)
Definition split (h : WatchHistory) (rv : Revision)
  : result (list Change * list Change) CompactedTooOld :=
  if rv <? floor h then Err (mkCompactedTooOld rv (floor h))
  else
    let boundary := partition_point (fun c => revision c <=? rv) (ring h) in
    Ok (take boundary (ring h), drop boundary (ring h)).

Definition since (h : WatchHistory) (rv : Revision) : result (list Change) CompactedTooOld :=
  result_map snd (split h rv).

Definition evict_oldest_revision (h : WatchHistory) : WatchHistory :=
  match ring h with
  | [] => h
  | c :: _ =>
      let oldest := revision c in
      let end_ := partition_point (fun c => revision c <=? oldest) (ring h) in
      mkWatchHistory (drop end_ (ring h)) oldest (head h) (capacity h)
  end.

Definition over_capacity (h : WatchHistory) : bool :=
  Z.pos (capacity h) <? Z.of_nat (length (ring h)).

(** The [while] loop of [commit], with [fuel] iterations. *)
Fixpoint evict_while_over (fuel : nat) (h : WatchHistory) : WatchHistory :=
  if over_capacity h then
    match fuel with
    | O => h
    | S fuel => evict_while_over fuel (evict_oldest_revision h)
    end
  else h.

(** One eviction per retained change is always enough, see
    [evict_while_over_exits]. *)
Definition commit (h : WatchHistory) (first : Change) (rest : list Change)
  : WatchHistory * Revision :=
  let revision := next_revision h in
  let pushed := mkWatchHistory (ring h ++ first :: rest) (floor h) revision (capacity h) in
  (evict_while_over (length (ring pushed)) pushed, revision).

Definition compact (h : WatchHistory) (target : Revision) : WatchHistory * Revision :=
  let target := Z.min target (head h) in
  let h' :=
    if floor h <? target then
      let end_ := partition_point (fun c => revision c <=? target) (ring h) in
      mkWatchHistory (drop end_ (ring h)) target (head h) (capacity h)
    else h in
  (h', floor h').

(** ** The abstract specification *)

(** What was committed above [rv], in commit order. *)
Definition changes_above (rv : Revision) (log : list Change) : list Change :=
  List.filter (fun c => rv <? revision c) log.

(** The histories the four operations reach, with the log of every change
    committed since the history was made.  [commit]'s callers stamp each
    change with [next_revision] (the source debug-asserts it), and the
    counter has room for one more revision. *)
Inductive reachable : WatchHistory -> list Change -> Prop :=
  | reachable_new cap : reachable (new cap) []
  | reachable_loaded rev cap : Word.is_u64 rev -> reachable (loaded_at rev cap) []
  | reachable_commit h log first rest :
      reachable h log ->
      head h < Word.u64_max ->
      Forall (fun c => revision c = next_revision h) (first :: rest) ->
      reachable (commit h first rest).1 (log ++ first :: rest)
  | reachable_compact h log target :
      reachable h log -> Word.is_u64 target -> reachable (compact h target).1 log.

Definition in_order (l : list Change) : Prop :=
  StronglySorted (fun c d => revision c <= revision d) l.

(** The seal, relative to the log. *)
Record backed (h : WatchHistory) (log : list Change) : Prop := {
  backed_ring : ring h = changes_above (floor h) log;
  backed_order : in_order log;
  backed_head : Forall (fun c => revision c <= head h) log;
  backed_dense : forall r, floor h < r <= head h -> exists c, In c log /\ revision c = r;
  backed_bounds : 0 <= floor h <= head h /\ head h <= Word.u64_max
}.

(** ** Lemmas *)

Lemma in_order_partitioned l rv : in_order l -> partitioned (fun c => revision c <=? rv) l.
Proof.
  intros Hs. induction Hs as [|c l Hs IH Hf]; intros i j x y Hij Hx Hy Hp; [done |].
  destruct j as [|j]; [lia |]. destruct i as [|i]; simpl in *.
  - simplify_eq. rewrite Forall_lookup in Hf. specialize (Hf _ _ Hy). lia.
  - eapply (IH i j); eauto. lia.
Qed.

Lemma in_order_filter p l : in_order l -> in_order (List.filter p l).
Proof.
  induction 1 as [|c l Hs IH Hf]; simpl; [constructor |].
  destruct (p c); [| done]. constructor; [done |].
  rewrite List.Forall_forall in *. intros d. rewrite filter_In. naive_solver.
Qed.

Lemma in_order_app l1 l2 :
  in_order l1 -> in_order l2 ->
  (forall c d, In c l1 -> In d l2 -> revision c <= revision d) -> in_order (l1 ++ l2).
Proof.
  induction 1 as [|c l1 Hs IH Hf]; intros H2 H12; simpl; [done |].
  constructor; [apply IH; [done | intros; apply H12; simpl; auto] |].
  apply Forall_app. split; [done |]. rewrite List.Forall_forall. intros d Hd.
  apply H12; simpl; auto.
Qed.

Lemma in_order_same r l : Forall (fun c => revision c = r) l -> in_order l.
Proof.
  induction 1 as [|c l Hc Hl IH]; constructor; [done |].
  rewrite List.Forall_forall in *. intros d Hd. rewrite Hc, (Hl d Hd). done.
Qed.

Lemma drop_below rv l :
  in_order l -> drop (partition_point (fun c => revision c <=? rv) l) l = changes_above rv l.
Proof.
  intros Hs. rewrite drop_partition_point by (by apply in_order_partitioned).
  apply filter_ext. intros c. by rewrite Z.leb_antisym, negb_involutive.
Qed.

Lemma changes_above_twice r r' log :
  r <= r' -> changes_above r' (changes_above r log) = changes_above r' log.
Proof.
  intros Hr. unfold changes_above. rewrite <- filter_andb. apply filter_ext. intros c.
  destruct (Z.ltb_spec r (revision c)), (Z.ltb_spec r' (revision c)); simpl; lia || done.
Qed.

Lemma changes_above_app r l1 l2 :
  changes_above r (l1 ++ l2) = changes_above r l1 ++ changes_above r l2.
Proof. apply filter_app. Qed.

Lemma changes_above_all r l : Forall (fun c => r < revision c) l -> changes_above r l = l.
Proof. intros Hl. apply filter_all. eapply Forall_weaken; [exact Hl |]. intros c. apply Z.ltb_lt. Qed.

Lemma changes_above_none r l : Forall (fun c => revision c <= r) l -> changes_above r l = [].
Proof. intros Hl. apply filter_none. eapply Forall_weaken; [exact Hl |]. intros c. apply Z.ltb_ge. Qed.

(** Raising the floor to [r] by draining the ring keeps the seal. *)
Lemma drain_backed h log r :
  backed h log -> floor h <= r <= head h ->
  backed (mkWatchHistory (drop (partition_point (fun c => revision c <=? r) (ring h)) (ring h))
            r (head h) (capacity h)) log.
Proof.
  intros [Hring Hord Hhead Hdense Hb] Hr. split; simpl; [| done | done | | lia].
  - rewrite Hring, drop_below by (by apply in_order_filter). apply changes_above_twice. lia.
  - intros r' ?. apply Hdense. lia.
Qed.

Lemma evict_backed h log : backed h log -> backed (evict_oldest_revision h) log.
Proof.
  intros Hb. unfold evict_oldest_revision. destruct (ring h) as [|c l] eqn:E; [done |].
  rewrite <- E. apply drain_backed; [done |].
  assert (In c (changes_above (floor h) log)) as Hin.
  { rewrite <- (backed_ring _ _ Hb), E. by left. }
  apply filter_In in Hin as [Hin Hc]. apply Z.ltb_lt in Hc.
  pose proof (backed_head _ _ Hb) as Hh. rewrite List.Forall_forall in Hh.
  specialize (Hh c Hin). lia.
Qed.

Lemma evict_floor h log : backed h log -> floor h <= floor (evict_oldest_revision h).
Proof.
  intros Hb. unfold evict_oldest_revision. destruct (ring h) as [|c l] eqn:E; [done |]. simpl.
  assert (In c (changes_above (floor h) log)) as Hin.
  { rewrite <- (backed_ring _ _ Hb), E. by left. }
  apply filter_In in Hin as [_ Hc]. bool_to_prop. lia.
Qed.

Lemma evict_while_over_backed fuel h log :
  backed h log -> backed (evict_while_over fuel h) log.
Proof.
  revert h. induction fuel as [|fuel IH]; intros h Hb; simpl; case_match; try done.
  by apply IH, evict_backed.
Qed.

Lemma evict_while_over_floor fuel h log :
  backed h log -> floor h <= floor (evict_while_over fuel h).
Proof.
  revert h. induction fuel as [|fuel IH]; intros h Hb; simpl; case_match; try lia.
  pose proof (evict_floor _ _ Hb). specialize (IH _ (evict_backed _ _ Hb)). lia.
Qed.

Lemma evict_shrinks h :
  ring h <> [] -> (length (ring (evict_oldest_revision h)) < length (ring h))%nat.
Proof.
  unfold evict_oldest_revision. destruct (ring h) as [|c l]; [done |]. intros _. simpl.
  rewrite Z.leb_refl. simpl. rewrite length_drop. lia.
Qed.

Lemma evict_keeps h :
  head (evict_oldest_revision h) = head h /\ capacity (evict_oldest_revision h) = capacity h.
Proof. unfold evict_oldest_revision. by destruct (ring h). Qed.

Lemma evict_while_over_keeps fuel h :
  head (evict_while_over fuel h) = head h /\ capacity (evict_while_over fuel h) = capacity h.
Proof.
  revert h. induction fuel as [|fuel IH]; intros h; simpl; case_match; try done.
  destruct (IH (evict_oldest_revision h)) as [-> ->]. apply evict_keeps.
Qed.

(** The loop of [commit] leaves by its own condition. *)
Lemma evict_while_over_exits fuel h :
  (length (ring h) <= fuel)%nat -> over_capacity (evict_while_over fuel h) = false.
Proof.
  revert h. induction fuel as [|fuel IH]; intros h Hf; simpl.
  - destruct (over_capacity h) eqn:E; [| done]. unfold over_capacity in E. bool_to_prop. lia.
  - destruct (over_capacity h) eqn:E; [| done]. apply IH.
    assert (ring h <> []) as Hne.
    { intros Hnil. unfold over_capacity in E. rewrite Hnil in E. bool_to_prop. simpl in E. lia. }
    pose proof (evict_shrinks h Hne). lia.
Qed.

Lemma commit_head h first rest : head (commit h first rest).1 = next_revision h.
Proof. unfold commit. simpl. by destruct (evict_while_over_keeps (length (ring h ++ first :: rest)) (mkWatchHistory (ring h ++ first :: rest) (floor h) (next_revision h) (capacity h))) as [-> _]. Qed.

(** The history with the changes pushed, before the capacity is enforced. *)
Lemma push_backed h log first rest :
  backed h log -> head h < Word.u64_max ->
  Forall (fun c => revision c = next_revision h) (first :: rest) ->
  backed (mkWatchHistory (ring h ++ first :: rest) (floor h) (next_revision h) (capacity h))
    (log ++ first :: rest).
Proof.
  intros [Hring Hord Hhead Hdense Hb] Hroom Hrevs.
  assert (next_revision h = head h + 1) as Hn
    by (apply next_small; lia).
  split; simpl.
  - rewrite changes_above_app, <- Hring, (changes_above_all _ (first :: rest)); [done |].
    eapply Forall_weaken; [exact Hrevs |]. intros c ->. lia.
  - apply in_order_app; [done | by eapply in_order_same |].
    intros c d Hc Hd. rewrite List.Forall_forall in Hhead, Hrevs.
    rewrite (Hrevs d Hd). specialize (Hhead c Hc). lia.
  - apply Forall_app. split.
    + eapply Forall_weaken; [exact Hhead |]. simpl. intros. lia.
    + eapply Forall_weaken; [exact Hrevs |]. simpl. intros c ->. lia.
  - intros r Hr. destruct (decide (r = next_revision h)) as [-> | Hne].
    + exists first. split; [apply in_or_app; right; by left |]. by inversion Hrevs.
    + destruct (Hdense r) as (c & Hc & <-); [lia |]. exists c. split; [| done]. apply in_or_app. by left.
  - lia.
Qed.

Lemma commit_backed h log first rest :
  backed h log -> head h < Word.u64_max ->
  Forall (fun c => revision c = next_revision h) (first :: rest) ->
  backed (commit h first rest).1 (log ++ first :: rest).
Proof. intros. by apply evict_while_over_backed, push_backed. Qed.

Lemma commit_floor h log first rest :
  backed h log -> head h < Word.u64_max ->
  Forall (fun c => revision c = next_revision h) (first :: rest) ->
  floor h <= floor (commit h first rest).1.
Proof.
  intros Hb Hroom Hrevs.
  exact (evict_while_over_floor _ _ _ (push_backed _ _ _ _ Hb Hroom Hrevs)).
Qed.

Lemma compact_backed h log target :
  backed h log -> 0 <= target -> backed (compact h target).1 log.
Proof.
  intros Hb Ht. unfold compact. simpl. case_match; [| done]. bool_to_prop.
  apply drain_backed; [done |]. pose proof (backed_bounds _ _ Hb). lia.
Qed.

Lemma fresh_backed rev cap : Word.is_u64 rev -> backed (loaded_at rev cap) [].
Proof.
  unfold Word.is_u64. split; simpl; [done | constructor | done | | lia].
  intros r Hr. lia.
Qed.

Lemma reachable_backed h log : reachable h log -> backed h log.
Proof.
  induction 1.
  - apply fresh_backed. unfold Word.is_u64, Word.u64_max, Word.u64_modulus, ZERO. lia.
  - by apply fresh_backed.
  - by apply commit_backed.
  - apply compact_backed; [done |]. unfold Word.is_u64 in *. lia.
Qed.

Lemma backed_since h log rv :
  backed h log ->
  since h rv = if rv <? floor h then Err (mkCompactedTooOld rv (floor h))
               else Ok (changes_above rv log).
Proof.
  intros Hb. unfold since, split. case_match; [done |]. simpl. f_equal. bool_to_prop.
  rewrite (backed_ring _ _ Hb), drop_below by (apply in_order_filter, Hb).
  by apply changes_above_twice.
Qed.

Lemma backed_split h log rv :
  backed h log ->
  split h rv = if rv <? floor h then Err (mkCompactedTooOld rv (floor h))
               else Ok (List.filter (fun c => revision c <=? rv) (ring h), changes_above rv log).
Proof.
  intros Hb. unfold split. case_match; [done |]. do 2 f_equal; bool_to_prop.
  - apply take_partition_point, in_order_partitioned.
    rewrite (backed_ring _ _ Hb). apply in_order_filter, Hb.
  - rewrite (backed_ring _ _ Hb), drop_below by (apply in_order_filter, Hb).
    by apply changes_above_twice.
Qed.

Lemma drain_shrinks h n : over_capacity h = false ->
  over_capacity (mkWatchHistory (drop n (ring h)) (floor h) (head h) (capacity h)) = false.
Proof. unfold over_capacity. simpl. rewrite length_drop. intros. bool_to_prop. apply Z.ltb_ge. lia. Qed.

Lemma reachable_fits h log : reachable h log -> over_capacity h = false.
Proof.
  induction 1.
  - done.
  - done.
  - by apply evict_while_over_exits.
  - unfold compact. simpl. case_match; [| done]. by eapply drain_shrinks in IHreachable.
Qed.

(** ** Properties *)

(** The promise of the floor: in every history reached by creation, load,
    commits and compactions, the ring fits its capacity, its changes are in
    revision order, they are exactly the committed changes above the floor
    (so a transaction is kept whole or not at all), and every revision from
    the floor, excluded, to the head, included, is retained. *)
Theorem history_seal h log :
  reachable h log ->
  Z.of_nat (length (ring h)) <= Z.pos (capacity h) /\
  in_order (ring h) /\
  ring h = changes_above (floor h) log /\
  (forall r, (exists c, In c (ring h) /\ revision c = r) <-> floor h < r <= head h).
Proof.
  intros Hr. pose proof (reachable_backed _ _ Hr) as Hb. pose proof (reachable_fits _ _ Hr) as Hf.
  unfold over_capacity in Hf. bool_to_prop. rewrite (backed_ring _ _ Hb) in *.
  split_and!; [done | apply in_order_filter, Hb | done |].
  intros r. split.
  - intros (c & Hc & <-). apply filter_In in Hc as [Hc Hlt]. bool_to_prop.
    pose proof (backed_head _ _ Hb) as Hh. rewrite List.Forall_forall in Hh. by split; [| apply Hh].
  - intros Hlt. destruct (backed_dense _ _ Hb r Hlt) as (c & Hc & <-).
    exists c. split; [| done]. apply filter_In. split; [done | apply Z.ltb_lt; lia].
Qed.

(** A resumed watch misses nothing: from any revision at or above the
    floor, the replay window of a reachable history is every change committed
    above that revision, in commit order; from any revision below the floor the
    request is refused with the floor to resume from. *)
Theorem replay_complete h log rv :
  reachable h log ->
  since h rv = if rv <? floor h then Err (mkCompactedTooOld rv (floor h))
               else Ok (changes_above rv log).
Proof. intros Hr. by apply backed_since, reachable_backed. Qed.

(** Whatever the history, the eviction loop of [commit] stops by its own
    condition after at most one iteration per retained change, and the commit
    records exactly one revision, the successor of the head. *)
Theorem commit_terminates h first rest :
  over_capacity (commit h first rest).1 = false /\
  head (commit h first rest).1 = next_revision h /\ (commit h first rest).2 = next_revision h.
Proof. split; [by apply evict_while_over_exits | split; [apply commit_head | done]]. Qed.

(** *** Witnesses *)

Definition sample_change (rev : Revision) (name : string) : Change :=
  mkChange rev (namespaced "" "v1" "ConfigMap" "default" name) Put JNull None (created_at rev).

(** Two transactions of two changes each through a ring of capacity three. *)
Definition sample_history : WatchHistory :=
  (commit (commit (new 3) (sample_change 1 "a") [sample_change 1 "b"]).1
     (sample_change 2 "a") [sample_change 2 "c"]).1.

Definition sample_log : list Change :=
  [sample_change 1 "a"; sample_change 1 "b"; sample_change 2 "a"; sample_change 2 "c"].

Lemma sample_reachable : reachable sample_history sample_log.
Proof.
  apply (reachable_commit _ [sample_change 1 "a"; sample_change 1 "b"]);
    [apply (reachable_commit _ []); [constructor | done |] | done |]; repeat constructor.
Defined.

Lemma history_seal_witness :
  ring sample_history = [sample_change 2 "a"; sample_change 2 "c"] /\ floor sample_history = 1 /\
  ring sample_history = changes_above (floor sample_history) sample_log.
Proof.
  split; [vm_compute; reflexivity |]. split; [vm_compute; reflexivity |].
  exact (proj1 (proj2 (proj2 (history_seal _ _ sample_reachable)))).
Defined.

Lemma replay_complete_witness :
  since sample_history 1 = Ok [sample_change 2 "a"; sample_change 2 "c"] /\
  since sample_history 0 = Err (mkCompactedTooOld 0 1).
Proof.
  split; rewrite (replay_complete _ _ _ sample_reachable); vm_compute; reflexivity.
Defined.
