(* ===== verification/Command.v ===== *)
(** * The replicated command set

    Models [engenho-store/src/command.rs] and the patch discriminants of
    [engenho-types/src/patch.rs]: the mutations the Raft log carries, the
    versioned apply semantics each log entry names, and what an apply
    answers. *)

From stdpp Require Import base tactics option list strings.
From S2P Require Import Prelude BTreeMap Json Resource.

Local Open Scope Z_scope.

Module PatchType.
Inductive t : Type := Merge | Strategic | Json | Apply.
#[global] Instance eq_dec : EqDecision t.
Proof. solve_decision. Defined.
End PatchType.

(** One RFC 6902 operation. *)
Module JsonPatchOp.
Inductive t : Type :=
  | Add (path : string) (value : json)
  | Remove (path : string)
  | Replace (path : string) (value : json)
  | Copy (from path : string)
  | Move (from path : string)
  | Test (path : string) (value : json).
End JsonPatchOp.

Module Reason.
Inductive t : Type :=
  | Operator | Controller | GarbageCollector | Admission | Scheduler | SealedPlaceholder.
End Reason.

Record ApplyMeta : Type := mkApplyMeta {
  manager : string;
  force : bool;
  time : string
}.

Module TxnCompare.
Inductive t : Type :=
  | ModRevisionEq (key : ResourceKey) (revision : Revision)
  | NotExists (key : ResourceKey).
Definition key (c : t) : ResourceKey :=
  match c with ModRevisionEq k _ | NotExists k => k end.
End TxnCompare.

Module TxnOp.
Inductive t : Type :=
  | Put (key : ResourceKey) (value : json)
  | Delete (key : ResourceKey) (deletion_timestamp : option string).
Definition key (o : t) : ResourceKey :=
  match o with Put k _ | Delete k _ => k end.
End TxnOp.

Module ResourceCommand.
Inductive t : Type :=
  | Put (key : ResourceKey) (value : json) (expected : option Revision) (reason : Reason.t)
  | Patch (key : ResourceKey) (patch : json) (patch_type : PatchType.t)
      (apply : option ApplyMeta) (expected : option Revision) (reason : Reason.t)
  | Delete (key : ResourceKey) (expected : option Revision) (reason : Reason.t)
      (deletion_timestamp : option string)
  | Txn (compares : list TxnCompare.t) (success failure : list TxnOp.t) (reason : Reason.t).

(** Every key the command names, in order. *)
Definition keys (c : t) : list ResourceKey :=
  match c with
  | Put key _ _ _ | Patch key _ _ _ _ _ | Delete key _ _ _ => [key]
  | Txn compares success failure _ =>
      map TxnCompare.key compares ++ map TxnOp.key (success ++ failure)
  end.

Definition sealed_placeholder : t := Txn [] [] [] Reason.SealedPlaceholder.

Definition is_sealed_placeholder (c : t) : bool :=
  match c with Txn _ _ _ Reason.SealedPlaceholder => true | _ => false end.

Definition put (key : ResourceKey) (value : json) (reason : Reason.t) : t :=
  Put key value None reason.

Definition patch_typed (key : ResourceKey) (patch : json) (patch_type : PatchType.t)
    (reason : Reason.t) : t :=
  Patch key patch patch_type None None reason.

Definition apply_ssa (key : ResourceKey) (body : json) (apply : ApplyMeta)
    (expected : option Revision) (reason : Reason.t) : t :=
  Patch key body PatchType.Apply (Some apply) expected reason.

Definition patch (key : ResourceKey) (patch : json) (reason : Reason.t) : t :=
  patch_typed key patch PatchType.Merge reason.

Definition patch_cas (key : ResourceKey) (patch : json) (expected : option Revision)
    (reason : Reason.t) : t :=
  Patch key patch PatchType.Merge None expected reason.

Definition delete_at (key : ResourceKey) (expected : option Revision) (reason : Reason.t)
    (deletion_timestamp : option string) : t :=
  Delete key expected reason deletion_timestamp.

(** [now] is the wall clock read on the proposing node. *)
Definition delete (now : string) (key : ResourceKey) (reason : Reason.t) : t :=
  delete_at key None reason (Some now).
End ResourceCommand.

Module ApplySemantics.
Inductive t : Type := V0 | V1.
Definition CURRENT : t := V1.
Definition unmarked : t := V0.
End ApplySemantics.

Record LoggedCommand : Type := mkLoggedCommand {
  command : ResourceCommand.t;
  semantics : ApplySemantics.t
}.

Definition proposed (c : ResourceCommand.t) : LoggedCommand :=
  mkLoggedCommand c ApplySemantics.CURRENT.

Module ResourceOp.
Inductive t : Type :=
  | Created | Replaced | Patched | Deleted | DeletionPending | Conflict
  | PatchRejected | ApplyConflict | Unchanged | NoOp.
#[global] Instance eq_dec : EqDecision t.
Proof. solve_decision. Defined.
End ResourceOp.
