(* ===== verification/Read.v ===== *)
(** * Read consistency

    Models [engenho-store/src/read.rs]: how fresh a read must be, and where a
    judged read is served from. *)

From stdpp Require Import base tactics option list strings numbers.
From S2P Require Import Prelude BTreeMap Json Resource.

Local Open Scope Z_scope.

(** The public fingerprint of a secrets key, eight bytes. *)
Definition KeyId : Type := list Z.

Module SealFault.
Inductive t : Type :=
  | KeyMissing (wanted : KeyId)
  | KeyUnusable
  | WrongKey (wanted have : KeyId)
  | Damaged (key : KeyId)
  | Unopened.
#[global] Instance eq_dec : EqDecision t.
Proof. assert (EqDecision KeyId) by (unfold KeyId; apply _). solve_decision. Defined.
End SealFault.

Module ReadConsistency.
Inductive t : Type := Latest | NotOlderThan (rv : Revision) | Exact (rv : Revision).
End ReadConsistency.

Module ReadPoint.
Inductive t : Type := Head | Past (rv : Revision).
End ReadPoint.

Module ReadRefused.
Inductive t : Type :=
  | TooLarge (requested current : Revision)
  | Expired (requested compacted : Revision)
  | NotLinearizable (leader : option Z)
  | SecretUnreadable (fault : SealFault.t).
End ReadRefused.

Definition refused_of_compacted (e : CompactedTooOld) : ReadRefused.t :=
  ReadRefused.Expired (requested e) (compacted e).

(** The revision a replica must have applied before it can answer. *)
Definition required (c : ReadConsistency.t) : option Revision :=
  match c with
  | ReadConsistency.Latest => None
  | ReadConsistency.NotOlderThan rv | ReadConsistency.Exact rv => Some rv
  end.

(** The arms in source order; a guard that fails falls to the next arm. *)
Definition judge (c : ReadConsistency.t) (head floor : Revision)
  : result ReadPoint.t ReadRefused.t :=
  match c with
  | ReadConsistency.Latest => Ok ReadPoint.Head
  | ReadConsistency.NotOlderThan rv =>
      if head <? rv then Err (ReadRefused.TooLarge rv head) else Ok ReadPoint.Head
  | ReadConsistency.Exact rv =>
      if head <? rv then Err (ReadRefused.TooLarge rv head)
      else if rv <? floor then Err (ReadRefused.Expired rv floor)
      else if rv <? head then Ok (ReadPoint.Past rv)
      else Ok ReadPoint.Head
  end.

(** The revision a served read reports. *)
Definition served_at (p : ReadPoint.t) (head : Revision) : Revision :=
  match p with ReadPoint.Head => head | ReadPoint.Past rv => rv end.

(** A judged read keeps its promise: it is served at a revision between the
    floor and the head that satisfies what the client asked (any for [Latest],
    not older than [rv] for [NotOlderThan rv], exactly [rv] for [Exact rv]),
    and it is refused exactly when no such revision exists. *)
Theorem judge_sound_complete (c : ReadConsistency.t) (head floor : Revision) :
  floor <= head ->
  let acceptable rev :=
    floor <= rev <= head /\
    match c with
    | ReadConsistency.Latest => True
    | ReadConsistency.NotOlderThan rv => rv <= rev
    | ReadConsistency.Exact rv => rev = rv
    end in
  match judge c head floor with
  | Ok p => acceptable (served_at p head)
  | Err _ => forall rev, ~ acceptable rev
  end.
Proof.
  intros Hb. unfold judge. destruct c as [| rv | rv]; simpl; [lia | |];
    repeat case_match; simplify_eq/=; bool_to_prop; lia.
Qed.

Lemma judge_sound_complete_witness :
  judge (ReadConsistency.Exact 4) 7 3 = Ok (ReadPoint.Past 4) /\ 3 <= 4 <= 7.
Proof.
  split; [reflexivity |].
  exact (proj1 (judge_sound_complete (ReadConsistency.Exact 4) 7 3 ltac:(lia))).
Defined.
