(* ===== verification/PatchApply.v ===== *)
(** * The patch interpreter

    Models [engenho-store/src/patch_apply.rs]: the four patch algorithms the
    catalog dispatches on.  RFC 7396 merge and RFC 6902 JSON Patch are pure;
    strategic merge asks the [PatchSchemaEnv] interface for the merge strategy
    of each list field.  Recursion is on the patch, so every algorithm is
    total. *)

From Stdlib Require Import Sorted Ascii.
From stdpp Require Import base tactics option list strings numbers.
From S2P Require Import Prelude Text BTreeMap Json Resource Command.

Local Open Scope string_scope.
Local Open Scope Z_scope.

(** ** Typed border *)

Record Gvk : Type := mkGvk {
  gvk_group : string;
  gvk_version : string;
  gvk_kind : string
}.

Definition gvk_of (k : ResourceKey) : Gvk := mkGvk (group k) (version k) (kind k).

Definition JsonPath : Type := list string.
Definition root : JsonPath := [].
Definition child (p : JsonPath) (seg : string) : JsonPath := (p ++ [seg])%list.
Definition dotted (p : JsonPath) : string := String.concat "." p.

Module ListMergeStrategy.
Inductive t : Type :=
  | Replace
  | MergeByKey (keys : list string)
  | MergeByKeyRetainKeys (keys : list string)
  | Set_.
End ListMergeStrategy.

Module PatchDirective.
Inductive t : Type := Replace | Delete | Merge | DeleteFromPrimitiveList.
#[global] Instance eq_dec : EqDecision t.
Proof. solve_decision. Defined.

Definition from_value (v : json) : option t :=
  match as_str v with
  | Some s =>
      if eqb s "replace" then Some Replace
      else if eqb s "delete" then Some Delete
      else if eqb s "merge" then Some Merge
      else None
  | None => None
  end.
End PatchDirective.

Module PatchError.
Inductive t : Type :=
  | RfcMerge (msg : string)
  | JsonPointer (path : string)
  | TestFailed (path : string)
  | MissingMergeKey (path key : string)
  | BadDirective (raw : string)
  | Unsupported (what : string).
End PatchError.

(** The one side effect strategic merge needs. *)
Class PatchSchemaEnv : Type := {
  merge_strategy : Gvk -> JsonPath -> ListMergeStrategy.t
}.

(** [serde_json::from_value] into the RFC 6902 op list; [Err] carries serde's
    message. *)
Class OpDecoder : Type := {
  decode_ops : json -> result (list JsonPatchOp.t) string
}.

Module PatchBody.
Inductive t : Type :=
  | Merge (v : json)
  | Strategic (v : json)
  | Json (ops : list JsonPatchOp.t)
  | Apply (v : json).

Definition from_raw `{OpDecoder} (patch_type : PatchType.t) (raw : json)
  : result t PatchError.t :=
  match patch_type with
  | PatchType.Merge => Ok (Merge raw)
  | PatchType.Strategic => Ok (Strategic raw)
  | PatchType.Apply => Ok (Apply raw)
  | PatchType.Json =>
      match decode_ops raw with
      | Ok ops => Ok (Json ops)
      | Err e => Err (PatchError.BadDirective ("invalid RFC6902 op array: " ++ e))
      end
  end.
End PatchBody.

(** ** RFC 7396: JSON Merge Patch *)

Fixpoint merge_rfc7396 (target patch : json) {struct patch} : json :=
  match patch with
  | JObject p =>
      JObject
        ((fix go (p : list (string * json)) (target_obj : btmap string json) :=
            match p with
            | [] => target_obj
            | (k, v) :: p =>
                go p
                  (if is_null v then bt_remove k target_obj
                   else bt_insert k (merge_rfc7396 (default JNull (bt_get k target_obj)) v)
                          target_obj)
            end) p (default [] (as_object target)))
  | _ => patch
  end.

(** ** RFC 6902: JSON Patch *)

(** [str::replace] of the two-character pattern [a b] by the character [r]. *)
Fixpoint replace_pair (a b r : Ascii.ascii) (s : string) : string :=
  match s with
  | String x ((String y rest) as tail) =>
      if Ascii.eqb x a && Ascii.eqb y b then String r (replace_pair a b r rest)
      else String x (replace_pair a b r tail)
  | _ => s
  end.

Definition unescape (t : string) : string :=
  replace_pair "~"%char "0"%char "~"%char (replace_pair "~"%char "1"%char "/"%char t).

Definition pointer_tokens (path : string) : list string :=
  if eqb path "" then [] else map unescape (drop 1 (split_char "/"%char path)).

(** [str::parse::<usize>]. *)
Definition parse_usize (s : string) : option Z := parse_unsigned Word.u64_max s.

(** [Vec::get] with a [usize] index. *)
Definition get_index (a : list json) (idx : Z) : option json :=
  if idx <? Z.of_nat (length a) then a !! Z.to_nat idx else None.

Definition step_token (cur : json) (t : string) : option json :=
  match cur with
  | JObject m => bt_get t m
  | JArray a => parse_usize t ≫= get_index a
  | _ => None
  end.

Definition pointer_get (doc : json) (path : string) : option json :=
  fold_left (fun cur t => cur ≫= fun c => step_token c t) (pointer_tokens path) (Some doc).

(** Put [c] back at token [t] of [cur]: the write through the [&mut] that
    [step_token] resolved. *)
Definition put_back (cur : json) (t : string) (c : json) : json :=
  match cur with
  | JObject m => JObject (bt_insert t c m)
  | JArray a =>
      match parse_usize t with
      | Some idx => JArray (<[Z.to_nat idx := c]> a)
      | None => cur
      end
  | _ => cur
  end.

(** Walk the parent tokens, then run [leaf] on the last one.  [None] is the
    [JsonPointer] error every step of the walk reports. *)
Fixpoint descend {A} (leaf : string -> json -> option (json * A)) (last : string)
    (parents : list string) (cur : json) : option (json * A) :=
  match parents with
  | [] => leaf last cur
  | t :: parents =>
      step_token cur t ≫= fun c =>
      descend leaf last parents c ≫= fun r =>
      Some (put_back cur t r.1, r.2)
  end.

(** [split_last]: the last token and those before it. *)
Definition split_last (tokens : list string) : option (string * list string) :=
  match rev tokens with
  | [] => None
  | last :: parents => Some (last, rev parents)
  end.

Definition add_leaf (value : json) (last : string) (cur : json) : option (json * unit) :=
  match cur with
  | JObject m => Some (JObject (bt_insert last value m), tt)
  | JArray a =>
      if eqb last "-" then Some (JArray (a ++ [value])%list, tt)
      else
        parse_usize last ≫= fun idx =>
        if Z.of_nat (length a) <? idx then None
        else Some (JArray (take (Z.to_nat idx) a ++ value :: drop (Z.to_nat idx) a)%list, tt)
  | _ => None
  end.

Definition replace_leaf (value : json) (last : string) (cur : json) : option (json * unit) :=
  match cur with
  | JObject m => Some (JObject (bt_insert last value m), tt)
  | JArray a =>
      parse_usize last ≫= fun idx =>
      if idx <? Z.of_nat (length a) then Some (JArray (<[Z.to_nat idx := value]> a), tt) else None
  | _ => None
  end.

Definition remove_leaf (last : string) (cur : json) : option (json * json) :=
  match cur with
  | JObject m => bt_get last m ≫= fun v => Some (JObject (bt_remove last m), v)
  | JArray a =>
      parse_usize last ≫= fun idx =>
      get_index a idx ≫= fun v =>
      Some (JArray (delete (Z.to_nat idx) a), v)
  | _ => None
  end.

Definition pointer_add (doc : json) (path : string) (value : json) : result json PatchError.t :=
  match split_last (pointer_tokens path) with
  | None => Ok value
  | Some (last, parents) =>
      ok_or (fst <$> descend (add_leaf value) last parents doc) (PatchError.JsonPointer path)
  end.

Definition pointer_replace (doc : json) (path : string) (value : json)
  : result json PatchError.t :=
  match split_last (pointer_tokens path) with
  | None =>
      if is_object value || is_array value then Ok value else Err (PatchError.JsonPointer path)
  | Some (last, parents) =>
      ok_or (fst <$> descend (replace_leaf value) last parents doc) (PatchError.JsonPointer path)
  end.

(** The document without the value, and the value. *)
Definition pointer_remove (doc : json) (path : string) : result (json * json) PatchError.t :=
  match split_last (pointer_tokens path) with
  | None => Ok (JNull, doc)
  | Some (last, parents) =>
      ok_or (descend remove_leaf last parents doc) (PatchError.JsonPointer path)
  end.

Definition apply_one_op (doc : json) (op : JsonPatchOp.t) : result json PatchError.t :=
  match op with
  | JsonPatchOp.Add path value => pointer_add doc path value
  | JsonPatchOp.Remove path => result_map fst (pointer_remove doc path)
  | JsonPatchOp.Replace path value => pointer_replace doc path value
  | JsonPatchOp.Copy from path =>
      let? v := ok_or (pointer_get doc from) (PatchError.JsonPointer from) in
      pointer_add doc path v
  | JsonPatchOp.Move from path =>
      let? r := pointer_remove doc from in
      pointer_add r.1 path r.2
  | JsonPatchOp.Test path value =>
      let? actual := ok_or (pointer_get doc path) (PatchError.TestFailed path) in
      if eqb actual value then Ok doc else Err (PatchError.TestFailed path)
  end.

Fixpoint apply_json_patch (current : json) (ops : list JsonPatchOp.t)
  : result json PatchError.t :=
  match ops with
  | [] => Ok current
  | op :: ops => let? doc := apply_one_op current op in apply_json_patch doc ops
  end.

(** ** Strategic merge *)

Definition PATCH_SENTINEL : string := "$patch".
Definition RETAIN_KEYS_SENTINEL : string := "$retainKeys".

Definition jcontains (l : list json) (v : json) : bool := existsb (fun w => eqb w v) l.

Definition set_union (existing patch : list json) : list json :=
  fold_left (fun out p => if jcontains out p then out else (out ++ [p])%list) patch existing.

(** The key tuple of a list element. *)
Definition key_of (keys : list string) (el : json) : option (list json) :=
  as_object el ≫= fun obj => mapM (fun k => bt_get k obj) keys.

Fixpoint position {A} (p : A -> bool) (l : list A) : option nat :=
  match l with
  | [] => None
  | x :: l => if p x then Some 0%nat else S <$> position p l
  end.

Definition element_directive (pel : json) : option PatchDirective.t :=
  as_object pel ≫= fun o => bt_get PATCH_SENTINEL o ≫= PatchDirective.from_value.

Section MergeList.
(** [rec] is [strategic_merge] on a list element. *)
Variable rec : json -> json -> JsonPath -> result json PatchError.t.

Definition merge_list_by_key (keys : list string) (path : JsonPath)
  : list json -> list json -> result (list json) PatchError.t :=
  fix go (patch out : list json) {struct patch} :=
    match patch with
    | [] => Ok out
    | pel :: patch =>
        let directive := element_directive pel in
        match key_of keys pel with
        | None =>
            match pel with
            | JObject o =>
                Err (PatchError.MissingMergeKey (dotted path)
                       (default "" (List.find (fun k => is_none (bt_get k o)) keys)))
            | _ => go patch (if jcontains out pel then out else (out ++ [pel])%list)
            end
        | Some pkey =>
            let matched := position (fun e => eqb (key_of keys e) (Some pkey)) out in
            match directive, matched with
            | Some PatchDirective.Delete, Some idx => go patch (delete idx out)
            | Some PatchDirective.Delete, None => go patch out
            | _, Some idx =>
                match rec (default JNull (out !! idx)) pel path with
                | Ok merged => go patch (<[idx := merged]> out)
                | Err e => Err e
                end
            | _, None =>
                let cloned :=
                  match pel with JObject o => JObject (bt_remove PATCH_SENTINEL o) | _ => pel end in
                go patch (out ++ [cloned])%list
            end
        end
    end.

Definition merge_list (existing patch : list json) (strat : ListMergeStrategy.t)
    (path : JsonPath) : result (list json) PatchError.t :=
  match strat with
  | ListMergeStrategy.Replace => Ok patch
  | ListMergeStrategy.Set_ => Ok (set_union existing patch)
  | ListMergeStrategy.MergeByKey keys | ListMergeStrategy.MergeByKeyRetainKeys keys =>
      merge_list_by_key keys path patch existing
  end.
End MergeList.

Section Strategic.
Context `{SerdeJson} `{PatchSchemaEnv}.

Definition retain_keys (patch_obj : btmap string json) : option (list string) :=
  bt_get RETAIN_KEYS_SENTINEL patch_obj ≫= fun v => as_array v ≫= fun a : list json => Some (omap as_str a).

(** What is left of the current object before the patch fields are folded in. *)
Definition retained (current : json) (patch_obj : btmap string json) : btmap string json :=
  let out := default [] (as_object current) in
  match retain_keys patch_obj with
  | Some retain => List.filter (fun e => existsb (eqb e.1) retain) out
  | None => out
  end.

Fixpoint strategic_merge (gvk : Gvk) (current patch : json) (path : JsonPath) {struct patch}
  : result json PatchError.t :=
  match patch with
  | JObject patch_obj =>
      let fields :=
        (fix go (p : list (string * json)) (out : btmap string json) {struct p} :=
           match p with
           | [] => Ok out
           | (k, pv) :: p =>
               if eqb k PATCH_SENTINEL || eqb k RETAIN_KEYS_SENTINEL then go p out
               else
                 let field_path := child path k in
                 match pv with
                 | JNull => go p (bt_remove k out)
                 | JArray patch_list =>
                     let strat := merge_strategy gvk field_path in
                     let existing_list := default [] (bt_get k out ≫= as_array) in
                     match merge_list (strategic_merge gvk) existing_list patch_list strat
                             field_path with
                     | Ok merged => go p (bt_insert k (JArray merged) out)
                     | Err e => Err e
                     end
                 | JObject _ =>
                     let base := default (JObject []) (bt_get k out) in
                     match strategic_merge gvk base pv field_path with
                     | Ok merged => go p (bt_insert k merged out)
                     | Err e => Err e
                     end
                 | _ => go p (bt_insert k pv out)
                 end
           end) in
      match bt_get PATCH_SENTINEL patch_obj with
      | Some dir =>
          match PatchDirective.from_value dir with
          | Some PatchDirective.Replace => Ok (JObject (bt_remove PATCH_SENTINEL patch_obj))
          | Some _ => result_map JObject (fields patch_obj (retained current patch_obj))
          | None => Err (PatchError.BadDirective (json_text dir))
          end
      | None => result_map JObject (fields patch_obj (retained current patch_obj))
      end
  | _ => Ok patch
  end.

(** ** The interpreter *)

Definition patch_type_text (pt : PatchType.t) : string :=
  match pt with
  | PatchType.Merge => "Merge"
  | PatchType.Strategic => "Strategic"
  | PatchType.Json => "Json"
  | PatchType.Apply => "Apply"
  end.

Definition apply (patch_type : PatchType.t) (current : json) (patch : PatchBody.t) (gvk : Gvk)
  : result json PatchError.t :=
  match patch_type, patch with
  | PatchType.Merge, PatchBody.Merge p => Ok (merge_rfc7396 current p)
  | PatchType.Json, PatchBody.Json ops => apply_json_patch current ops
  | PatchType.Strategic, PatchBody.Strategic p => strategic_merge gvk current p root
  | PatchType.Apply, _ => Err (PatchError.Unsupported "server-side apply")
  | pt, _ =>
      Err (PatchError.Unsupported ("patch type " ++ patch_type_text pt ++ " with mismatched body"))
  end.

End Strategic.
