(* ===== verification/PatchFacts.v ===== *)
(** * Properties of the patch interpreter

    RFC 7396 merge against the equations of the RFC, RFC 6902 pointer
    round trips, and strategic merge: every algorithm keeps values well
    formed, list merge by key leaves the elements the patch does not name
    alone, and the directives the interpreter does not honour. *)

From Stdlib Require Import Sorted Ascii.
From stdpp Require Import base tactics option list strings numbers.
From S2P Require Import Prelude Text BTreeMap Json Resource Command PatchApply.

Local Open Scope string_scope.
Local Open Scope Z_scope.

(** ** RFC 7396 *)

(** The loop of [merge_rfc7396] over the patch fields. *)
Definition merge_fields : list (string * json) -> btmap string json -> btmap string json :=
  fix go p target_obj :=
    match p with
    | [] => target_obj
    | (k, v) :: p =>
        go p
          (if is_null v then bt_remove k target_obj
           else bt_insert k (merge_rfc7396 (default JNull (bt_get k target_obj)) v) target_obj)
    end.

Lemma merge_object t p :
  merge_rfc7396 t (JObject p) = JObject (merge_fields p (default [] (as_object t))).
Proof. done. Qed.

Definition merge_step (k : string) (v : json) (m : btmap string json) : btmap string json :=
  if is_null v then bt_remove k m
  else bt_insert k (merge_rfc7396 (default JNull (bt_get k m)) v) m.

Lemma merge_step_sorted k v m : bt_sorted m -> bt_sorted (merge_step k v m).
Proof. unfold merge_step. intros. case_match; [by apply bt_remove_sorted | by apply bt_insert_sorted]. Qed.

Lemma merge_step_get_ne k k0 v m :
  bt_sorted m -> k <> k0 -> bt_get k (merge_step k0 v m) = bt_get k m.
Proof.
  unfold merge_step. intros Hm Hne.
  destruct (is_null v); [by apply bt_get_remove_ne | by apply bt_get_insert_ne].
Qed.

Lemma merge_fields_sorted p m : bt_sorted m -> bt_sorted (merge_fields p m).
Proof.
  revert m. induction p as [|[k v] p IH]; intros m Hm; simpl; [done |].
  apply IH. by apply (merge_step_sorted k v m).
Qed.

(** The RFC's [MergePatch] equations, one key at a time. *)
Lemma merge_fields_get k p m :
  bt_sorted p -> bt_sorted m ->
  bt_get k (merge_fields p m) =
  match bt_get k p with
  | None => bt_get k m
  | Some JNull => None
  | Some v => Some (merge_rfc7396 (default JNull (bt_get k m)) v)
  end.
Proof.
  revert m. induction p as [|[k0 v0] p IH]; intros m Hp Hm; [done |].
  apply bt_sorted_cons in Hp as [Hp Hf].
  change (merge_fields ((k0, v0) :: p) m) with (merge_fields p (merge_step k0 v0 m)).
  rewrite IH by auto using merge_step_sorted. simpl. destruct (cmp k k0) eqn:E.
  - apply cmp_eq in E. subst. rewrite (bt_get_below k0 p) by exact Hf. unfold merge_step.
    destruct v0; simpl; by rewrite ?bt_get_insert_eq, ?bt_get_remove_eq.
  - rewrite (bt_get_below k p) by (by eapply entry_lt_below).
    apply lt_ne in E. by rewrite merge_step_get_ne.
  - apply cmp_gt, lt_ne in E. by rewrite merge_step_get_ne by auto.
Qed.

Lemma wf_as_object t : wf_json t = true -> wf_json (JObject (default [] (as_object t))) = true.
Proof. by destruct t. Qed.

Lemma wf_default_null k m :
  wf_json (JObject m) = true -> wf_json (default JNull (bt_get k m)) = true.
Proof.
  intros Hm. destruct (bt_get k m) as [v|] eqn:E; [| done]. simpl.
  by apply (wf_json_get k (JObject m)).
Qed.

Lemma merge_wf patch t :
  wf_json t = true -> wf_json patch = true -> wf_json (merge_rfc7396 t patch) = true.
Proof.
  revert t. induction patch as [| | | | | p IH] using json_nested_ind; intros t Ht Hp; try done.
  rewrite merge_object. apply wf_as_object in Ht. revert Ht.
  generalize (default [] (as_object t)) as m. apply wf_json_object in Hp as [_ Hp].
  induction IH as [|[k v] p Hv _ IHp]; intros m Hm; [done |].
  inversion Hp as [| ? ? Hwv Hwp]; subst. simpl in *. apply (IHp Hwp).
  destruct (is_null v); [by apply wf_json_remove |]. apply wf_json_insert; [| done].
  apply Hv; [by apply wf_default_null | done].
Qed.

Lemma merge_idempotent patch t :
  wf_json t = true -> wf_json patch = true ->
  merge_rfc7396 (merge_rfc7396 t patch) patch = merge_rfc7396 t patch.
Proof.
  revert t. induction patch as [| | | | | p IH] using json_nested_ind; intros t Ht Hp; try done.
  rewrite !merge_object. simpl as_object. simpl default. f_equal.
  apply wf_as_object in Ht. revert Ht. generalize (default [] (as_object t)) as m. intros m Hm.
  pose proof (wf_sorted _ Hp) as Hsp. pose proof (wf_sorted _ Hm) as Hsm.
  apply bt_ext; [by repeat apply merge_fields_sorted.. |]. intros k.
  rewrite !merge_fields_get by auto using merge_fields_sorted.
  destruct (bt_get k p) as [v|] eqn:E; [| done].
  assert (wf_json v = true) as Hv by (by apply (wf_json_get k (JObject p))).
  apply bt_get_In in E; [| done]. rewrite List.Forall_forall in IH.
  specialize (IH _ E (default JNull (bt_get k m)) (wf_default_null _ _ Hm) Hv).
  destruct v; try done. f_equal. exact IH.
Qed.

(** ** RFC 6902: pointers *)

(** The RFC 6901 escape of one reference token, [~] as [~0] and [/] as [~1]. *)
Fixpoint escape (s : string) : string :=
  match s with
  | EmptyString => EmptyString
  | String c s =>
      if Ascii.eqb c "~"%char then String "~" (String "0" (escape s))
      else if Ascii.eqb c "/"%char then String "~" (String "1" (escape s))
      else String c (escape s)
  end.

Fixpoint pointer_of (tokens : list string) : string :=
  match tokens with
  | [] => ""
  | t :: ts => String "/" (escape t ++ pointer_of ts)
  end.

(** The escape of [~] alone: what is left after the first [replace]. *)
Fixpoint escape_tilde (s : string) : string :=
  match s with
  | EmptyString => EmptyString
  | String c s =>
      if Ascii.eqb c "~"%char then String "~" (String "0" (escape_tilde s))
      else String c (escape_tilde s)
  end.

Lemma replace_pair_skip a b r x t :
  Ascii.eqb x a = false -> replace_pair a b r (String x t) = String x (replace_pair a b r t).
Proof. intros Hx. destruct t as [|y t]; [done |]. simpl. by rewrite Hx. Qed.

Lemma replace_slash s :
  replace_pair "~" "1" "/" (escape s) = escape_tilde s.
Proof.
  induction s as [|c s IH]; [done |]. cbn [escape escape_tilde].
  destruct (Ascii.eqb c "~") eqn:E1; [| destruct (Ascii.eqb c "/") eqn:E2].
  - change (replace_pair "~" "1" "/" (String "~" (String "0" (escape s))))
      with (String "~" (replace_pair "~" "1" "/" (String "0" (escape s)))).
    by rewrite replace_pair_skip, IH.
  - apply Ascii.eqb_eq in E2. subst c.
    change (replace_pair "~" "1" "/" (String "~" (String "1" (escape s))))
      with (String "/" (replace_pair "~" "1" "/" (escape s))).
    by rewrite IH.
  - by rewrite replace_pair_skip, IH.
Qed.

Lemma replace_tilde s : replace_pair "~" "0" "~" (escape_tilde s) = s.
Proof.
  induction s as [|c s IH]; [done |]. cbn [escape_tilde].
  destruct (Ascii.eqb c "~") eqn:E1; [| by rewrite replace_pair_skip, IH].
  apply Ascii.eqb_eq in E1. subst c.
  change (replace_pair "~" "0" "~" (String "~" (String "0" (escape_tilde s))))
    with (String "~" (replace_pair "~" "0" "~" (escape_tilde s))).
  by rewrite IH.
Qed.

Lemma unescape_escape s : unescape (escape s) = s.
Proof. unfold unescape. by rewrite replace_slash, replace_tilde. Qed.

Lemma split_char_skip c x t :
  Ascii.eqb x c = false ->
  split_char c (String x t) =
  match split_char c t with u :: us => String x u :: us | [] => [String x ""] end.
Proof. intros E. simpl. by rewrite E. Qed.

Lemma string_app_cons c s t : String c s ++ t = String c (s ++ t).
Proof. done. Qed.

Lemma split_escape t rest us :
  split_char "/" rest = "" :: us ->
  split_char "/" (escape t ++ rest) = escape t :: us.
Proof.
  intros Hr. induction t as [|c t IH]; [done |]. cbn [escape].
  destruct (Ascii.eqb c "~") eqn:E1; [| destruct (Ascii.eqb c "/") eqn:E2];
    rewrite !string_app_cons, !split_char_skip by done; by rewrite IH.
Qed.

Lemma split_pointer tokens :
  split_char "/" (pointer_of tokens) = "" :: map escape tokens.
Proof.
  induction tokens as [|t ts IH]; [done |].
  change (split_char "/" (pointer_of (t :: ts)))
    with ("" :: split_char "/" (escape t ++ pointer_of ts)).
  simpl. f_equal. by apply split_escape.
Qed.

Lemma pointer_tokens_of tokens : pointer_tokens (pointer_of tokens) = tokens.
Proof.
  destruct tokens as [|t ts]; [done |]. unfold pointer_tokens.
  replace (eqb (pointer_of (t :: ts)) "") with false by (symmetry; by apply eqb_false).
  rewrite split_pointer. simpl. rewrite unescape_escape. f_equal.
  induction ts as [|u ts IH]; [done |]. simpl. by rewrite unescape_escape, IH.
Qed.

(** *** Walking and writing back *)

Fixpoint walk (tokens : list string) (doc : json) : option json :=
  match tokens with
  | [] => Some doc
  | t :: ts => step_token doc t ≫= walk ts
  end.

Lemma pointer_get_walk doc path : pointer_get doc path = walk (pointer_tokens path) doc.
Proof.
  unfold pointer_get. generalize (pointer_tokens path) as ts. intros ts. revert doc.
  induction ts as [|t ts IH]; intros doc; [done |]. simpl.
  destruct (step_token doc t) as [c|]; simpl; [apply IH |].
  clear IH. by induction ts.
Qed.

Lemma walk_app ts us doc : walk (ts ++ us) doc = walk ts doc ≫= walk us.
Proof.
  revert doc. induction ts as [|t ts IH]; intros doc; simpl; [done |].
  destruct (step_token doc t); simpl; auto.
Qed.

Lemma split_last_Some tokens last parents :
  split_last tokens = Some (last, parents) -> tokens = (parents ++ [last])%list.
Proof.
  unfold split_last. destruct (rev tokens) as [|l ps] eqn:E; [done |].
  intros [=]. subst. rewrite <- (rev_involutive tokens), E. done.
Qed.

Lemma split_last_snoc last parents : split_last (parents ++ [last]) = Some (last, parents).
Proof. unfold split_last. by rewrite rev_app_distr; simpl; rewrite rev_involutive. Qed.

Lemma get_index_Some a idx v :
  0 <= idx -> get_index a idx = Some v <-> a !! Z.to_nat idx = Some v.
Proof.
  intros Hi. unfold get_index. destruct (Z.ltb_spec idx (Z.of_nat (length a))); [done |].
  split; [done |]. intros Hv. apply lookup_lt_Some in Hv. lia.
Qed.

Lemma parse_usize_nonneg s idx : parse_usize s = Some idx -> 0 <= idx.
Proof. intros H. apply parse_unsigned_range in H; [lia | done]. Qed.

(** What was written through the resolved reference is what the next read at
    the same token resolves, and writing back what was read changes nothing. *)
Lemma step_put_back cur t c c' :
  step_token cur t = Some c -> step_token (put_back cur t c') t = Some c'.
Proof.
  destruct cur as [| | | | a | m]; try done; simpl.
  - destruct (parse_usize t) as [idx|] eqn:E; [| done]. simpl. rewrite E. simpl.
    apply parse_usize_nonneg in E. rewrite !get_index_Some by done. intros Hc.
    apply lookup_lt_Some in Hc. by apply list_lookup_insert_eq.
  - intros _. apply bt_get_insert_eq.
Qed.

Lemma put_back_twice cur t c c1 c2 :
  step_token cur t = Some c -> put_back (put_back cur t c1) t c2 = put_back cur t c2.
Proof.
  destruct cur as [| | | | a | m]; try done; cbn [step_token put_back].
  - destruct (parse_usize t) as [idx|] eqn:E; [| done]. simpl. rewrite E.
    intros _. by rewrite list_insert_insert_eq.
  - intros _. by rewrite bt_insert_insert.
Qed.

Lemma put_back_same cur t c :
  wf_json cur = true -> step_token cur t = Some c -> put_back cur t c = cur.
Proof.
  destruct cur as [| | | | a | m]; try done; cbn [step_token put_back]; intros Hw.
  - destruct (parse_usize t) as [idx|] eqn:E; [| done]. simpl.
    apply parse_usize_nonneg in E. rewrite get_index_Some by done. intros Hc.
    by rewrite list_insert_id.
  - intros Hc. f_equal. by apply bt_insert_get_id; [apply wf_sorted |].
Qed.

(** The document with the value at [tokens] replaced by [c]. *)
Fixpoint write_at (tokens : list string) (doc c : json) : json :=
  match tokens with
  | [] => c
  | t :: ts =>
      match step_token doc t with
      | Some d => put_back doc t (write_at ts d c)
      | None => doc
      end
  end.

Lemma descend_spec {A} (leaf : string -> json -> option (json * A)) last parents doc r :
  descend leaf last parents doc = Some r <->
  exists cur cur', walk parents doc = Some cur /\ leaf last cur = Some (cur', r.2) /\
    r.1 = write_at parents doc cur'.
Proof.
  revert doc r. induction parents as [|t ts IH]; intros doc [d a]; simpl.
  - split; [intros Hl; by exists doc, d |]. intros (? & ? & [= <-] & Hl & ->). exact Hl.
  - destruct (step_token doc t) as [c|] eqn:E; simpl; [| by split; [| intros (? & ? & ? & _)]].
    destruct (descend leaf last ts c) as [[d1 a1]|] eqn:D; simpl; split.
    + apply IH in D as (cur & cur' & Hw & Hl & Hd). simpl in *. intros [=]. subst.
      by exists cur, cur'.
    + intros (cur & cur' & Hw & Hl & ->).
      assert (Some (d1, a1) = Some (write_at ts c cur', a)) as [= -> ->]; [| done].
      rewrite <- D. apply IH. by exists cur, cur'.
    + done.
    + intros (cur & cur' & Hw & Hl & ->).
      assert (None = Some (write_at ts c cur', a)) as [=].
      rewrite <- D. apply IH. by exists cur, cur'.
Qed.

Lemma walk_write_at ts doc cur c :
  walk ts doc = Some cur -> walk ts (write_at ts doc c) = Some c.
Proof.
  revert doc. induction ts as [|t ts IH]; intros doc; simpl; [done |].
  destruct (step_token doc t) as [d|] eqn:E; simpl; [| done]. intros Hw.
  rewrite (step_put_back _ _ _ _ E). simpl. by apply IH.
Qed.

Lemma write_at_twice ts doc cur c1 c2 :
  walk ts doc = Some cur -> write_at ts (write_at ts doc c1) c2 = write_at ts doc c2.
Proof.
  revert doc. induction ts as [|t ts IH]; intros doc; simpl; [done |].
  destruct (step_token doc t) as [d|] eqn:E; simpl; [| done]. intros Hw.
  rewrite (step_put_back _ _ _ _ E), (put_back_twice _ _ _ _ _ E). by rewrite IH.
Qed.

Lemma wf_step_token cur t c : wf_json cur = true -> step_token cur t = Some c -> wf_json c = true.
Proof.
  destruct cur as [| | | | a | m]; try done; intros Hw.
  - simpl. destruct (parse_usize t) as [idx|] eqn:E; [| done]. simpl.
    apply parse_usize_nonneg in E. rewrite get_index_Some by done. intros Hc.
    apply wf_json_array in Hw. rewrite Forall_lookup in Hw. eauto.
  - by apply (wf_json_get t (JObject m)).
Qed.

Lemma write_at_same ts doc cur :
  wf_json doc = true -> walk ts doc = Some cur -> write_at ts doc cur = doc.
Proof.
  revert doc. induction ts as [|t ts IH]; intros doc Hw; simpl; [naive_solver |].
  destruct (step_token doc t) as [d|] eqn:E; simpl; [| done]. intros Hd.
  rewrite IH; [by apply put_back_same | by eapply wf_step_token | done].
Qed.

Lemma pointer_add_Ok doc path v last parents doc' :
  split_last (pointer_tokens path) = Some (last, parents) ->
  pointer_add doc path v = Ok doc' ->
  exists cur cur', walk parents doc = Some cur /\ add_leaf v last cur = Some (cur', tt) /\
    doc' = write_at parents doc cur'.
Proof.
  intros Hs. unfold pointer_add. rewrite Hs.
  destruct (descend (add_leaf v) last parents doc) as [[d []]|] eqn:D; [| done].
  simpl. intros [= <-]. by apply descend_spec in D.
Qed.

Lemma list_lookup_mid {A} (l : list A) i x :
  (i <= length l)%nat -> (take i l ++ x :: drop i l)%list !! i = Some x.
Proof.
  intros Hi. rewrite lookup_app_r by (rewrite length_take; lia).
  by rewrite length_take_le, Nat.sub_diag by done.
Qed.

Lemma list_delete_mid {A} (l : list A) i x :
  (i <= length l)%nat -> delete i (take i l ++ x :: drop i l)%list = l.
Proof.
  intros Hi. rewrite delete_take_drop, take_app_le by (rewrite length_take; lia).
  rewrite take_take, Nat.min_id, drop_app_ge by (rewrite length_take; lia).
  rewrite length_take_le by done. replace (S i - i)%nat with 1%nat by lia.
  simpl. by rewrite drop_0, take_drop.
Qed.

Lemma add_leaf_step v last cur cur' :
  last <> "-" -> add_leaf v last cur = Some (cur', tt) -> step_token cur' last = Some v.
Proof.
  intros Hd. destruct cur as [| | | | a | m]; try done; simpl.
  - rewrite (proj2 (eqb_false _ _) Hd). destruct (parse_usize last) as [idx|] eqn:E; [| done].
    pose proof (parse_usize_nonneg _ _ E). simpl. case_match; [done |]. bool_to_prop.
    intros [= <-]. simpl. rewrite E. simpl. apply get_index_Some; [done |].
    apply list_lookup_mid. lia.
  - intros [= <-]. apply bt_get_insert_eq.
Qed.

Lemma remove_add_leaf v last cur cur' :
  last <> "-" ->
  (forall m, cur = JObject m -> bt_get last m = None) ->
  add_leaf v last cur = Some (cur', tt) -> remove_leaf last cur' = Some (cur, v).
Proof.
  intros Hd Hf Ha. pose proof (add_leaf_step _ _ _ _ Hd Ha) as Hs. revert Ha.
  destruct cur as [| | | | a | m]; try done; simpl.
  - rewrite (proj2 (eqb_false _ _) Hd). destruct (parse_usize last) as [idx|] eqn:E; [| done].
    pose proof (parse_usize_nonneg _ _ E). simpl. case_match; [done |]. bool_to_prop.
    intros [= <-]. simpl in *. rewrite E in *. simpl in *. rewrite Hs. simpl.
    by rewrite list_delete_mid by lia.
  - intros [= <-]. simpl in *. rewrite Hs. simpl. by rewrite bt_remove_insert by auto.
Qed.

Lemma pointer_get_add doc path v last parents doc' :
  split_last (pointer_tokens path) = Some (last, parents) -> last <> "-" ->
  pointer_add doc path v = Ok doc' -> pointer_get doc' path = Some v.
Proof.
  intros Hs Hd Ha. destruct (pointer_add_Ok _ _ _ _ _ _ Hs Ha) as (cur & cur' & Hw & Hl & ->).
  rewrite pointer_get_walk, (split_last_Some _ _ _ Hs), walk_app, (walk_write_at _ _ _ _ Hw).
  simpl. by rewrite (add_leaf_step _ _ _ _ Hd Hl).
Qed.

Lemma pointer_remove_add doc path v last parents doc' :
  wf_json doc = true ->
  split_last (pointer_tokens path) = Some (last, parents) -> last <> "-" ->
  (forall m, walk parents doc = Some (JObject m) -> bt_get last m = None) ->
  pointer_add doc path v = Ok doc' -> pointer_remove doc' path = Ok (doc, v).
Proof.
  intros Hwf Hs Hd Hfresh Ha.
  destruct (pointer_add_Ok _ _ _ _ _ _ Hs Ha) as (cur & cur' & Hw & Hl & ->).
  assert (descend remove_leaf last parents (write_at parents doc cur') = Some (doc, v)) as D.
  { apply descend_spec. exists cur', cur. split_and!; simpl.
    - by eapply walk_write_at.
    - apply remove_add_leaf; [done | | done]. intros m ->. by apply Hfresh.
    - rewrite (write_at_twice _ _ _ _ _ Hw). symmetry. by apply write_at_same. }
  unfold pointer_remove. by rewrite Hs, D.
Qed.

(** *** Well-formedness *)

Definition wf_op (op : JsonPatchOp.t) : bool :=
  match op with
  | JsonPatchOp.Add _ v | JsonPatchOp.Replace _ v | JsonPatchOp.Test _ v => wf_json v
  | _ => true
  end.

Lemma put_back_wf cur t c :
  wf_json cur = true -> wf_json c = true -> wf_json (put_back cur t c) = true.
Proof.
  intros Hw Hc. destruct cur as [| | | | a | m]; try done; cbn [put_back].
  - case_match; [| done]. rewrite wf_json_array in *. by apply Forall_insert.
  - by apply wf_json_insert.
Qed.

Lemma write_at_wf ts doc c :
  wf_json doc = true -> wf_json c = true -> wf_json (write_at ts doc c) = true.
Proof.
  revert doc. induction ts as [|t ts IH]; intros doc Hd Hc; simpl; [done |].
  destruct (step_token doc t) as [d|] eqn:E; [| done].
  apply put_back_wf; [done |]. apply IH; [exact (wf_step_token _ _ _ Hd E) | done].
Qed.

Lemma walk_wf ts doc c : wf_json doc = true -> walk ts doc = Some c -> wf_json c = true.
Proof.
  revert doc. induction ts as [|t ts IH]; intros doc Hd; simpl; [naive_solver |].
  destruct (step_token doc t) as [d|] eqn:E; [| done]. simpl.
  apply IH. by eapply wf_step_token.
Qed.

(** A leaf edit that keeps values well formed does so at any depth. *)
Lemma descend_wf {A} (leaf : string -> json -> option (json * A)) (P : A -> Prop) last parents doc r :
  (forall cur cur' a, wf_json cur = true -> leaf last cur = Some (cur', a) ->
    wf_json cur' = true /\ P a) ->
  wf_json doc = true -> descend leaf last parents doc = Some r -> wf_json r.1 = true /\ P r.2.
Proof.
  intros Hleaf Hd D. apply descend_spec in D as (cur & cur' & Hw & Hl & ->).
  destruct (Hleaf _ _ _ (walk_wf _ _ _ Hd Hw) Hl). split; [by apply write_at_wf | done].
Qed.

Lemma add_leaf_wf v last cur cur' a :
  wf_json v = true -> wf_json cur = true -> add_leaf v last cur = Some (cur', a) ->
  wf_json cur' = true /\ True.
Proof.
  intros Hv Hc Hl. split; [| done]. revert Hl.
  destruct cur as [| | | | l | m]; try done; cbn [add_leaf].
  - rewrite wf_json_array in Hc. case_match; [intros [= <- _]; apply wf_json_array, Forall_app; auto |].
    destruct (parse_usize last); simpl; [| done]. case_match; [done |]. intros [= <- _].
    apply wf_json_array, Forall_app. auto using Forall_take, Forall_drop.
  - intros [= <- _]. by apply wf_json_insert.
Qed.

Lemma replace_leaf_wf v last cur cur' a :
  wf_json v = true -> wf_json cur = true -> replace_leaf v last cur = Some (cur', a) ->
  wf_json cur' = true /\ True.
Proof.
  intros Hv Hc Hl. split; [| done]. revert Hl.
  destruct cur as [| | | | l | m]; try done; cbn [replace_leaf].
  - destruct (parse_usize last); simpl; [| done]. case_match; [| done]. intros [= <- _].
    rewrite wf_json_array in *. by apply Forall_insert.
  - intros [= <- _]. by apply wf_json_insert.
Qed.

Lemma remove_leaf_wf last cur cur' v :
  wf_json cur = true -> remove_leaf last cur = Some (cur', v) ->
  wf_json cur' = true /\ wf_json v = true.
Proof.
  intros Hc. destruct cur as [| | | | l | m]; try done; cbn [remove_leaf].
  - destruct (parse_usize last) as [idx|] eqn:E; simpl; [| done].
    destruct (get_index l idx) as [w|] eqn:G; simpl; [| done]. intros [= <- <-].
    rewrite wf_json_array in *. split; [by apply Forall_delete |].
    apply get_index_Some in G; [| by eapply parse_usize_nonneg].
    rewrite Forall_lookup in Hc. eauto.
  - destruct (bt_get last m) as [w|] eqn:G; simpl; [| done]. intros [= <- <-].
    split; [by apply wf_json_remove | by apply (wf_json_get last (JObject m))].
Qed.

Lemma pointer_add_wf doc path v doc' :
  wf_json doc = true -> wf_json v = true -> pointer_add doc path v = Ok doc' -> wf_json doc' = true.
Proof.
  intros Hd Hv. unfold pointer_add. destruct (split_last _) as [[last parents]|]; [| by intros [= <-]].
  destruct (descend _ _ _ _) as [r|] eqn:D; [| done]. intros [= <-].
  eapply (descend_wf _ (fun _ => True)); [| exact Hd | exact D].
  intros cur cur' a. by apply add_leaf_wf.
Qed.

Lemma pointer_replace_wf doc path v doc' :
  wf_json doc = true -> wf_json v = true -> pointer_replace doc path v = Ok doc' ->
  wf_json doc' = true.
Proof.
  intros Hd Hv. unfold pointer_replace.
  destruct (split_last _) as [[last parents]|]; [| case_match; naive_solver].
  destruct (descend _ _ _ _) as [r|] eqn:D; [| done]. intros [= <-].
  eapply (descend_wf _ (fun _ => True)); [| exact Hd | exact D].
  intros cur cur' a. by apply replace_leaf_wf.
Qed.

Lemma pointer_remove_wf doc path r :
  wf_json doc = true -> pointer_remove doc path = Ok r -> wf_json r.1 = true /\ wf_json r.2 = true.
Proof.
  intros Hd. unfold pointer_remove. destruct (split_last _) as [[last parents]|]; [| by intros [= <-]].
  destruct (descend _ _ _ _) as [r'|] eqn:D; [| done]. intros [= <-].
  eapply (descend_wf _ (fun v => wf_json v = true)); [| exact Hd | exact D].
  intros cur cur' a. by apply remove_leaf_wf.
Qed.

Lemma apply_one_op_wf doc op doc' :
  wf_json doc = true -> wf_op op = true -> apply_one_op doc op = Ok doc' -> wf_json doc' = true.
Proof.
  intros Hd Ho. destruct op as [p v|p|p v|f p|f p|p v]; simpl in *.
  - by apply pointer_add_wf.
  - destruct (pointer_remove doc p) as [r|] eqn:R; simpl; [| done]. intros [= <-].
    by eapply pointer_remove_wf.
  - by apply pointer_replace_wf.
  - rewrite pointer_get_walk. destruct (walk _ doc) as [v|] eqn:W; simpl; [| done].
    apply pointer_add_wf; [done | by eapply walk_wf].
  - destruct (pointer_remove doc f) as [r|] eqn:R; simpl; [| done].
    apply pointer_remove_wf in R as [? ?]; [| done]. by apply pointer_add_wf.
  - destruct (pointer_get doc p); simpl; [| done]. case_match; naive_solver.
Qed.

Lemma apply_json_patch_wf ops doc doc' :
  wf_json doc = true -> forallb wf_op ops = true -> apply_json_patch doc ops = Ok doc' ->
  wf_json doc' = true.
Proof.
  revert doc. induction ops as [|op ops IH]; intros doc Hd Ho; simpl in *; [naive_solver |].
  bool_to_prop. destruct (apply_one_op doc op) as [d|] eqn:E; simpl; [| done].
  apply IH; [by eapply apply_one_op_wf | done].
Qed.

(** ** Strategic merge *)

Section StrategicFacts.
Context `{SerdeJson} `{PatchSchemaEnv}.

(** What one patch field makes of the field's current value. *)
Definition field_merge (gvk : Gvk) (path : JsonPath) (k : string) (pv : json)
    (old : option json) : result (option json) PatchError.t :=
  if eqb k PATCH_SENTINEL || eqb k RETAIN_KEYS_SENTINEL then Ok old
  else
    match pv with
    | JNull => Ok None
    | JArray l =>
        let? merged := merge_list (strategic_merge gvk) (default [] (old ≫= as_array)) l
                         (merge_strategy gvk (child path k)) (child path k) in
        Ok (Some (JArray merged))
    | JObject _ =>
        let? merged := strategic_merge gvk (default (JObject []) old) pv (child path k) in
        Ok (Some merged)
    | _ => Ok (Some pv)
    end.

Definition field_write (k : string) (o : option json) (m : btmap string json) :=
  match o with Some v => bt_insert k v m | None => bt_remove k m end.

(** The loop of [strategic_merge] over the patch fields. *)
Fixpoint strategic_fields (gvk : Gvk) (path : JsonPath) (p : list (string * json))
    (out : btmap string json) : result (btmap string json) PatchError.t :=
  match p with
  | [] => Ok out
  | (k, pv) :: p =>
      let? out' :=
        (if eqb k PATCH_SENTINEL || eqb k RETAIN_KEYS_SENTINEL then Ok out
         else result_map (fun o => field_write k o out) (field_merge gvk path k pv (bt_get k out))) in
      strategic_fields gvk path p out'
  end.

Lemma strategic_object gvk cur p path :
  strategic_merge gvk cur (JObject p) path =
  match bt_get PATCH_SENTINEL p with
  | Some dir =>
      match PatchDirective.from_value dir with
      | Some PatchDirective.Replace => Ok (JObject (bt_remove PATCH_SENTINEL p))
      | Some _ => result_map JObject (strategic_fields gvk path p (retained cur p))
      | None => Err (PatchError.BadDirective (json_text dir))
      end
  | None => result_map JObject (strategic_fields gvk path p (retained cur p))
  end.
Proof.
  cbn [strategic_merge].
  match goal with |- context [result_map JObject (?F p (retained cur p))] =>
    assert (forall q out, F q out = strategic_fields gvk path q out) as HF
  end.
  { intros q. induction q as [|[k pv] q IH]; intros out; [done |].
    cbn [strategic_fields]. unfold field_merge.
    destruct (eqb k PATCH_SENTINEL || eqb k RETAIN_KEYS_SENTINEL); [apply IH |].
    destruct pv; try apply IH.
    - simpl. destruct (merge_list _ _ _ _ _); [apply IH | done].
    - cbn [result_bind]. destruct (strategic_merge gvk _ _ _); [apply IH | done]. }
  by rewrite HF.
Qed.

Lemma field_write_sorted k o m : bt_sorted m -> bt_sorted (field_write k o m).
Proof. intros. destruct o; [by apply bt_insert_sorted | by apply bt_remove_sorted]. Qed.

Lemma field_write_get k o m : bt_sorted m -> bt_get k (field_write k o m) = o.
Proof. intros. destruct o; [apply bt_get_insert_eq | by apply bt_get_remove_eq]. Qed.

Lemma field_write_get_ne k k' o m :
  bt_sorted m -> k <> k' -> bt_get k (field_write k' o m) = bt_get k m.
Proof. intros. destruct o; [by apply bt_get_insert_ne | by apply bt_get_remove_ne]. Qed.

(** Every field of the result is the merge of that field alone: the fields
    the patch does not name keep their value. *)
Lemma strategic_fields_get gvk path p out r :
  bt_sorted p -> bt_sorted out -> strategic_fields gvk path p out = Ok r ->
  bt_sorted r /\
  forall k, match bt_get k p with
            | None => bt_get k r = bt_get k out
            | Some pv => field_merge gvk path k pv (bt_get k out) = Ok (bt_get k r)
            end.
Proof.
  revert out. induction p as [|[k0 pv0] p IH]; intros out Hp Ho; cbn [strategic_fields];
    [by intros [= <-] |]. apply bt_sorted_cons in Hp as [Hp Hf].
  rewrite result_bind_Ok. intros (out' & Hstep & Hr).
  assert (bt_sorted out' /\ (forall k, k <> k0 -> bt_get k out' = bt_get k out) /\
    field_merge gvk path k0 pv0 (bt_get k0 out) = Ok (bt_get k0 out')) as (Hs' & Hne & Heq).
  { unfold field_merge in *. case_match eqn:Es; [by simplify_eq |].
    match goal with H : result_map _ ?x = _ |- _ => destruct x as [o|] eqn:Eo; [| done] end.
    simpl in Hstep. simplify_eq. split_and!; [by apply field_write_sorted | |].
    - intros. by apply field_write_get_ne.
    - by rewrite field_write_get. }
  destruct (IH out' Hp Hs' Hr) as [Hsr Hk]. split; [done |]. intros k.
  specialize (Hk k). simpl. destruct (cmp k k0) eqn:E.
  - apply cmp_eq in E. subst. rewrite (bt_get_below k0 p) in Hk by exact Hf. by rewrite Hk.
  - rewrite (bt_get_below k p) in Hk by (by eapply entry_lt_below).
    apply lt_ne in E. by rewrite Hk, Hne.
  - apply cmp_gt, lt_ne in E. rewrite Hne in Hk by auto. done.
Qed.

Lemma retained_wf cur p : wf_json cur = true -> wf_json (JObject (retained cur p)) = true.
Proof.
  intros Hc. apply wf_as_object in Hc. unfold retained. destruct (retain_keys p); [| done].
  rewrite wf_json_object in *. destruct Hc as [Hs Hf]. split; [by apply bt_filter_sorted |].
  rewrite List.Forall_forall in *. intros e. rewrite filter_In. naive_solver.
Qed.

Lemma set_union_wf ex l :
  Forall (fun v => wf_json v = true) ex -> Forall (fun v => wf_json v = true) l ->
  Forall (fun v => wf_json v = true) (set_union ex l).
Proof.
  intros Hex Hl. unfold set_union. revert ex Hex.
  induction Hl as [|v l Hv _ IH]; intros ex Hex; simpl; [done |]. apply IH.
  case_match; [done |]. apply Forall_app. auto.
Qed.

Definition clone_stripped (pel : json) : json :=
  match pel with JObject o => JObject (bt_remove PATCH_SENTINEL o) | _ => pel end.

(** One iteration of [merge_list_by_key]. *)
Definition merge_element (rec : json -> json -> JsonPath -> result json PatchError.t)
    (keys : list string) (path : JsonPath) (pel : json) (out : list json)
  : result (list json) PatchError.t :=
  match key_of keys pel with
  | None =>
      match pel with
      | JObject o =>
          Err (PatchError.MissingMergeKey (dotted path)
                 (default "" (List.find (fun k => is_none (bt_get k o)) keys)))
      | _ => Ok (if jcontains out pel then out else (out ++ [pel])%list)
      end
  | Some pkey =>
      match position (fun e => eqb (key_of keys e) (Some pkey)) out with
      | Some idx =>
          if eqb (element_directive pel) (Some PatchDirective.Delete) then Ok (delete idx out)
          else result_map (fun merged => <[idx := merged]> out)
                 (rec (default JNull (out !! idx)) pel path)
      | None =>
          if eqb (element_directive pel) (Some PatchDirective.Delete) then Ok out
          else Ok (out ++ [clone_stripped pel])%list
      end
  end.

Lemma merge_list_by_key_cons rec keys path pel patch out :
  merge_list_by_key rec keys path (pel :: patch) out =
  result_bind (merge_element rec keys path pel out) (merge_list_by_key rec keys path patch).
Proof.
  simpl. unfold merge_element. destruct (key_of keys pel) as [pkey|]; [| by destruct pel].
  destruct (position _ out) as [idx|]; destruct (element_directive pel) as [[]|]; simpl;
    try done; by destruct (rec _ _ _).
Qed.

Lemma clone_stripped_wf pel : wf_json pel = true -> wf_json (clone_stripped pel) = true.
Proof. destruct pel; try done. apply wf_json_remove. Qed.

Lemma merge_element_wf rec keys path pel out out' :
  (forall cur r, wf_json cur = true -> rec cur pel path = Ok r -> wf_json r = true) ->
  wf_json pel = true -> Forall (fun v => wf_json v = true) out ->
  merge_element rec keys path pel out = Ok out' -> Forall (fun v => wf_json v = true) out'.
Proof.
  intros Hrec Hp Ho. unfold merge_element. destruct (key_of keys pel) as [pkey|].
  - destruct (position _ out) as [idx|]; case_match; intros E; simplify_eq.
    + by apply Forall_delete.
    + destruct (rec _ pel path) as [r|] eqn:R; [| done]. simpl in E. simplify_eq.
      apply Forall_insert; [done |]. eapply Hrec; [| exact R].
      destruct (out !! idx) eqn:L; [| done]. rewrite Forall_lookup in Ho. by apply (Ho idx).
    + done.
    + apply Forall_app. auto using clone_stripped_wf.
  - destruct pel; try done; intros E; injection E as <-; case_match; try done;
      by apply Forall_app; auto.
Qed.

Lemma merge_list_wf rec strat path existing patch out :
  Forall (fun pel => forall cur r, wf_json cur = true -> rec cur pel path = Ok r -> wf_json r = true)
    patch ->
  Forall (fun v => wf_json v = true) patch -> Forall (fun v => wf_json v = true) existing ->
  merge_list rec existing patch strat path = Ok out -> Forall (fun v => wf_json v = true) out.
Proof.
  intros Hrec Hp He.
  assert (forall keys, merge_list_by_key rec keys path patch existing = Ok out ->
    Forall (fun v => wf_json v = true) out) as Hk.
  { intros keys. revert existing He. induction Hrec as [|pel patch Hpel _ IH]; intros ex He.
    - by intros [= <-].
    - rewrite merge_list_by_key_cons, result_bind_Ok. inversion Hp; subst.
      intros (out' & E & R). eapply IH; [done | | exact R]. by eapply merge_element_wf; [exact Hpel | | exact He | exact E]. }
  destruct strat; simpl; intros E; simplify_eq; eauto using set_union_wf.
Qed.

Lemma field_merge_wf gvk path k pv old o :
  (forall cur path r, wf_json cur = true -> wf_json pv = true ->
    strategic_merge gvk cur pv path = Ok r -> wf_json r = true) ->
  (forall l, pv = JArray l -> Forall (fun pel => forall cur path r, wf_json cur = true ->
    wf_json pel = true -> strategic_merge gvk cur pel path = Ok r -> wf_json r = true) l) ->
  wf_json pv = true -> (forall v, old = Some v -> wf_json v = true) ->
  field_merge gvk path k pv old = Ok o -> forall v, o = Some v -> wf_json v = true.
Proof.
  intros Hrec Hlist Hpv Hold. unfold field_merge. case_match; [naive_solver |].
  destruct pv as [| | | | l | m]; try (by intros [= <-] v [= <-]).
  - rewrite result_bind_Ok. intros (r & R & [= <-]) v [= <-]. apply wf_json_array.
    apply wf_json_array in Hpv. eapply merge_list_wf; [| exact Hpv | | exact R].
    + specialize (Hlist l eq_refl). rewrite List.Forall_forall in *. eauto.
    + destruct old as [[]|]; simpl; try constructor. by apply wf_json_array, Hold.
  - rewrite result_bind_Ok. intros (r & R & [= <-]) v [= <-]. eapply Hrec; [| exact Hpv | exact R].
    destruct old; simpl; auto.
Qed.

Lemma strategic_wf gvk patch : forall cur path r,
  wf_json cur = true -> wf_json patch = true ->
  strategic_merge gvk cur patch path = Ok r -> wf_json r = true.
Proof.
  (* the list case also hands out its elements, for list fields *)
  cut ((forall cur path r, wf_json cur = true -> wf_json patch = true ->
          strategic_merge gvk cur patch path = Ok r -> wf_json r = true) /\
       (forall l, patch = JArray l -> Forall (fun pel => forall cur path r, wf_json cur = true ->
          wf_json pel = true -> strategic_merge gvk cur pel path = Ok r -> wf_json r = true) l));
    [by intros [] |].
  induction patch as [| | | | l IH | p IH] using json_nested_ind; try (split; [naive_solver | done]).
  - split; [naive_solver |]. intros l' [= <-]. eapply Forall_weaken; [exact IH |]. by intros ? [].
  - split; [| done]. intros cur path r Hc Hp. rewrite strategic_object.
    assert (forall q, result_map JObject (strategic_fields gvk path p (retained cur p)) = Ok q ->
      wf_json q = true) as Hfields.
    { intros q. destruct (strategic_fields _ _ _ _) as [m|] eqn:F; [| done]. intros [= <-].
      pose proof (retained_wf cur p Hc) as Hret. pose proof (wf_sorted _ Hp) as Hsp.
      destruct (strategic_fields_get _ _ _ _ _ Hsp (wf_sorted _ Hret) F) as [Hsm Hg].
      apply wf_json_object. split; [done |]. rewrite List.Forall_forall in *. intros [k v] Hin.
      simpl. apply bt_get_In in Hin; [| done]. specialize (Hg k).
      destruct (bt_get k p) as [pv|] eqn:Ek.
      - apply bt_get_In in Ek; [| done]. destruct (IH _ Ek) as [Hr Hl].
        eapply (field_merge_wf gvk path k pv); [exact Hr | exact Hl | | | exact Hg | exact Hin].
        + apply wf_json_object in Hp as [_ Hp]. rewrite List.Forall_forall in Hp. by apply (Hp (k, pv)).
        + intros w Hw. by apply (wf_json_get k (JObject (retained cur p))).
      - rewrite Hg in Hin. by apply (wf_json_get k (JObject (retained cur p))). }
    repeat case_match; intros E; simplify_eq; auto using wf_json_remove.
Qed.

(** *** Lists merged by key *)

Definition scalar (v : json) : bool :=
  match v with JBool _ | JNumber _ | JString _ => true | _ => false end.

Definition sentinel_free (keys : list string) : Prop :=
  Forall (fun k => k <> PATCH_SENTINEL /\ k <> RETAIN_KEYS_SENTINEL) keys.

(** A patch element whose merge keys, when present, are scalars. *)
Definition well_keyed (keys : list string) (pel : json) : Prop :=
  wf_json pel = true /\ (forall key, key_of keys pel = Some key -> forallb scalar key = true).

Lemma key_of_object keys o key :
  key_of keys (JObject o) = Some key <-> Forall2 (fun k v => bt_get k o = Some v) keys key.
Proof. unfold key_of. simpl. apply mapM_Some. Qed.

Lemma key_of_Some keys v key :
  key_of keys v = Some key -> exists o, v = JObject o.
Proof. destruct v; try done. eauto. Qed.

Lemma clone_stripped_key keys pel key :
  wf_json pel = true -> sentinel_free keys ->
  key_of keys pel = Some key -> key_of keys (clone_stripped pel) = Some key.
Proof.
  intros Hw Hs Hk. destruct (key_of_Some _ _ _ Hk) as [o ->]. simpl clone_stripped.
  rewrite key_of_object in *. apply wf_sorted in Hw.
  induction Hk as [|k v keys key Hv _ IH]; inversion Hs as [|? ? [Hne _] Hs']; subst;
    constructor; [| auto]. by rewrite bt_get_remove_ne.
Qed.

(** Merging an element keeps the key it was matched by. *)
Lemma strategic_key_kept gvk keys cur pel path r key :
  wf_json cur = true -> well_keyed keys pel -> sentinel_free keys ->
  key_of keys pel = Some key -> strategic_merge gvk cur pel path = Ok r ->
  key_of keys r = Some key.
Proof.
  intros Hc [Hw Hsc] Hs Hk. specialize (Hsc _ Hk).
  pose proof (clone_stripped_key _ _ _ Hw Hs Hk) as Hclone.
  destruct (key_of_Some _ _ _ Hk) as [o ->]. rewrite strategic_object. simpl clone_stripped in Hclone.
  assert (forall q, result_map JObject (strategic_fields gvk path o (retained cur o)) = Ok q ->
    key_of keys q = Some key) as Hfields.
  { intros q. destruct (strategic_fields _ _ _ _) as [m|] eqn:F; [| done]. intros [= <-].
    apply strategic_fields_get in F as [_ Hg];
      [| by apply wf_sorted | by apply wf_sorted, retained_wf].
    rewrite key_of_object in *. clear Hclone.
    induction Hk as [|k v keys key Hv _ IH]; [constructor |].
    inversion Hs as [|? ? [Hn1 Hn2] Hs']; subst. simpl in Hsc. bool_to_prop. constructor; [| auto].
    specialize (Hg k). rewrite Hv in Hg. unfold field_merge in Hg.
    rewrite (proj2 (eqb_false _ _) Hn1), (proj2 (eqb_false _ _) Hn2) in Hg.
    destruct v; try done; simpl in Hg; congruence. }
  repeat case_match; intros E; simplify_eq; auto.
Qed.

Lemma position_Some {A} (p : A -> bool) l i :
  position p l = Some i -> exists x, l !! i = Some x /\ p x = true.
Proof.
  revert i. induction l as [|x l IH]; intros i; simpl; [done |].
  destruct (p x) eqn:E; [intros [= <-]; by exists x |].
  destruct (position p l) as [j|]; [| done]. simpl. intros [= <-]. by apply IH.
Qed.

Lemma position_None {A} (p : A -> bool) l :
  position p l = None -> Forall (fun x => p x = false) l.
Proof.
  induction l as [|x l IH]; simpl; [constructor |]. destruct (p x) eqn:E; [done |].
  destruct (position p l); [done |]. constructor; auto.
Qed.

(** A key that no element of the patch names. *)
Definition unnamed (keys : list string) (patch : list json) (e : json) : bool :=
  match key_of keys e with
  | Some key => negb (existsb (fun pel => eqb (key_of keys pel) (Some key)) patch)
  | None => false
  end.

Lemma filter_insert_out {A} (p : A -> bool) l i x y :
  l !! i = Some y -> p x = false -> p y = false ->
  List.filter p (<[i := x]> l) = List.filter p l.
Proof.
  revert i. induction l as [|z l IH]; intros [|i] Hl Hx Hy; simpl in *; try done.
  - simplify_eq. by rewrite Hx, Hy.
  - by rewrite (IH i).
Qed.

Lemma filter_delete_out {A} (p : A -> bool) l i y :
  l !! i = Some y -> p y = false -> List.filter p (delete i l) = List.filter p l.
Proof.
  revert i. induction l as [|z l IH]; intros [|i] Hl Hy; simpl in *; try done.
  - simplify_eq. by rewrite Hy.
  - by rewrite (IH i).
Qed.

Lemma omap_insert_same {A B} (f : A -> option B) (l : list A) (i : nat) x y :
  l !! i = Some y -> f x = f y -> omap f (<[i := x]> l) = omap f l.
Proof.
  revert i. induction l as [|z l IH]; intros [|i] Hl Hf; simpl in Hl; try done.
  - simplify_eq. csimpl. by rewrite Hf.
  - csimpl. by rewrite (IH i).
Qed.

Lemma omap_sublist {A B} (f : A -> option B) (l k : list A) :
  l `sublist_of` k -> omap f l `sublist_of` omap f k.
Proof. induction 1; csimpl; [done | | ]; destruct (f x); by try constructor. Qed.

Lemma unnamed_named keys patch pel key e :
  In pel patch -> key_of keys pel = Some key -> key_of keys e = Some key ->
  unnamed keys patch e = false.
Proof.
  intros Hin Hp He. unfold unnamed. rewrite He. apply negb_false_iff, existsb_exists.
  exists pel. by rewrite Hp, eqb_refl.
Qed.

(** One element: what it does to the entries other elements name, and to the
    list of keys. *)
Lemma merge_element_keeps gvk keys path pel out out' patch :
  In pel patch -> well_keyed keys pel -> sentinel_free keys ->
  Forall (fun v => wf_json v = true) out ->
  merge_element (strategic_merge gvk) keys path pel out = Ok out' ->
  List.filter (unnamed keys patch) out' = List.filter (unnamed keys patch) out /\
  (NoDup (omap (key_of keys) out) -> NoDup (omap (key_of keys) out')).
Proof.
  intros Hin Hwk Hs Ho. unfold merge_element. destruct (key_of keys pel) as [key|] eqn:Ek.
  - destruct (position _ out) as [idx|] eqn:Ep; case_match; intros E; simplify_eq.
    + apply position_Some in Ep as (e & Hl & He). bool_to_prop. split.
      * eapply filter_delete_out; [exact Hl | by eapply unnamed_named].
      * intros Hnd. eapply sublist_NoDup; [exact Hnd |]. apply omap_sublist, sublist_delete.
    + apply position_Some in Ep as (e & Hl & He). bool_to_prop. rewrite Hl in E. simpl in E.
      destruct (strategic_merge gvk e pel path) as [r|] eqn:R; [| done]. simpl in E. simplify_eq.
      assert (key_of keys r = Some key) as Hr.
      { eapply strategic_key_kept; [| exact Hwk | exact Hs | exact Ek | exact R].
        rewrite Forall_lookup in Ho. by apply (Ho idx). }
      split.
      * eapply filter_insert_out; [exact Hl | by eapply unnamed_named | by eapply unnamed_named].
      * by rewrite (omap_insert_same _ _ _ _ _ Hl) by congruence.
    + done.
    + pose proof (clone_stripped_key _ _ _ (proj1 Hwk) Hs Ek) as Hc. split.
      * rewrite filter_app. simpl. by rewrite (unnamed_named _ _ _ _ _ Hin Ek Hc), app_nil_r.
      * rewrite omap_app. simpl. rewrite Hc. intros Hnd. apply list_relations.list.NoDup_app. split_and!; [done | |].
        -- intros k Hk ->%list_elem_of_singleton. apply list_elem_of_omap in Hk as (e & He & Hke).
           apply position_None in Ep. rewrite List.Forall_forall in Ep.
           apply list_elem_of_In, Ep in He. rewrite Hke, eqb_refl in He. done.
        -- apply NoDup_singleton.
  - destruct pel; try done; intros E; injection E as <-; case_match; try done;
      (split; [by rewrite filter_app; simpl; rewrite app_nil_r |
               by rewrite omap_app; simpl; rewrite app_nil_r]).
Qed.

Lemma merge_list_by_key_keeps_rest gvk keys path whole rest existing out :
  sentinel_free keys -> Forall (well_keyed keys) rest -> incl rest whole ->
  Forall (fun v => wf_json v = true) existing ->
  merge_list_by_key (strategic_merge gvk) keys path rest existing = Ok out ->
  List.filter (unnamed keys whole) out = List.filter (unnamed keys whole) existing /\
  (NoDup (omap (key_of keys) existing) -> NoDup (omap (key_of keys) out)).
Proof.
  intros Hs. revert existing. induction rest as [|pel rest IH]; intros ex Hp Hin Hex.
  - by intros [= <-].
  - rewrite merge_list_by_key_cons, result_bind_Ok. intros (mid & E & R).
    inversion Hp as [|? ? Hw Hp']; subst. apply incl_cons_inv in Hin as [Hi Hin'].
    assert (Forall (fun v => wf_json v = true) mid) as Hmid.
    { eapply merge_element_wf; [| apply Hw | exact Hex | exact E].
      intros cur r Hcur. apply strategic_wf; [done | apply Hw]. }
    destruct (merge_element_keeps _ _ _ _ _ _ whole Hi Hw Hs Hex E) as [F1 N1].
    destruct (IH mid Hp' Hin' Hmid R) as [F2 N2]. split; [congruence | auto].
Qed.

(** *** The interpreter *)

(** [serde] moves the op values out of the body it decodes. *)
Class OpDecoderLaws `{OpDecoder} : Prop := {
  decode_ops_wf : forall raw ops,
    wf_json raw = true -> decode_ops raw = Ok ops -> forallb wf_op ops = true
}.

Lemma apply_body_wf `{OpDecoderLaws} pt raw body cur gvk r :
  wf_json cur = true -> wf_json raw = true ->
  PatchBody.from_raw pt raw = Ok body -> apply pt cur body gvk = Ok r -> wf_json r = true.
Proof.
  intros Hc Hr. destruct pt; simpl.
  - intros [= <-] [= <-]. by apply merge_wf.
  - intros [= <-]. by apply strategic_wf.
  - destruct (decode_ops raw) as [ops|] eqn:D; [| done]. intros [= <-].
    apply apply_json_patch_wf; [done | by eapply decode_ops_wf].
  - by intros [= <-].
Qed.

End StrategicFacts.

(** ** Properties *)

(** RFC 7396: merging an object patch into a well-formed value gives a
    well-formed object whose every field follows the RFC's [MergePatch]: absent
    from the patch, kept; [null] in the patch, removed; otherwise the recursive
    merge of the old value (or [null]).  Applying the same patch twice is
    applying it once. *)
Theorem merge_rfc7396_spec t p :
  wf_json t = true -> wf_json (JObject p) = true ->
  exists r, merge_rfc7396 t (JObject p) = JObject r /\ wf_json (JObject r) = true /\
    (forall k, bt_get k r = match bt_get k p with
                            | None => jget k t
                            | Some JNull => None
                            | Some v => Some (merge_rfc7396 (default JNull (jget k t)) v)
                            end) /\
    merge_rfc7396 (JObject r) (JObject p) = JObject r.
Proof.
  intros Ht Hp. rewrite merge_object. eexists. split_and!; [done | | |].
  - rewrite <- merge_object. by apply merge_wf.
  - intros k. rewrite merge_fields_get by (by apply wf_sorted; try apply wf_as_object).
    by destruct t.
  - rewrite <- merge_object. by apply merge_idempotent.
Qed.

(** RFC 6901 pointers: the tokens read from the pointer built by escaping
    [~] as [~0] and [/] as [~1] are the original tokens, whatever characters
    they contain. *)
Theorem pointer_round_trip tokens : pointer_tokens (pointer_of tokens) = tokens.
Proof. apply pointer_tokens_of. Qed.

(** RFC 6902 [add] at a pointer whose last token is not [-]: when it
    succeeds, reading the pointer gives the value added, and, where it did not
    overwrite an object member, [remove] at the same pointer gives back the
    value and the original document. *)
Theorem json_patch_add_undo doc path v last parents doc' :
  wf_json doc = true ->
  split_last (pointer_tokens path) = Some (last, parents) -> last <> "-" ->
  pointer_add doc path v = Ok doc' ->
  pointer_get doc' path = Some v /\
  ((forall m, walk parents doc = Some (JObject m) -> bt_get last m = None) ->
   pointer_remove doc' path = Ok (doc, v)).
Proof.
  intros Hw Hs Hd Ha. split; [by eapply pointer_get_add |].
  intros Hf. by eapply pointer_remove_add.
Qed.

(** Strategic merge works field by field: when it accepts an object patch
    with no directive, the result is a well-formed object in which each field
    the patch names is that field's merge and every other field is what the
    current object retained. *)
Theorem strategic_merge_fieldwise `{SerdeJson} `{PatchSchemaEnv} gvk cur p path r :
  wf_json cur = true -> wf_json (JObject p) = true -> bt_get PATCH_SENTINEL p = None ->
  strategic_merge gvk cur (JObject p) path = Ok r ->
  wf_json r = true /\ is_object r = true /\
  forall k, match bt_get k p with
            | None => jget k r = bt_get k (retained cur p)
            | Some pv => field_merge gvk path k pv (bt_get k (retained cur p)) = Ok (jget k r)
            end.
Proof.
  intros Hc Hp Hn E. split; [by eapply strategic_wf; [exact Hc | exact Hp |] |].
  rewrite strategic_object, Hn in E.
  destruct (strategic_fields _ _ _ _) as [m|] eqn:F; [| done]. injection E as <-.
  split; [done |]. eapply strategic_fields_get; [| | exact F]; [by apply wf_sorted |].
  by apply wf_sorted, retained_wf.
Qed.

(** Merging a list by key leaves alone what the patch does not name: the
    elements whose key no patch element carries are all kept, unchanged and in
    order, and a list whose keys were distinct has distinct keys afterwards.
    Merge keys are scalars and are not directive names. *)
Theorem merge_list_keeps_unnamed `{SerdeJson} `{PatchSchemaEnv} gvk keys path patch existing out :
  sentinel_free keys -> Forall (well_keyed keys) patch ->
  Forall (fun v => wf_json v = true) existing ->
  merge_list_by_key (strategic_merge gvk) keys path patch existing = Ok out ->
  List.filter (unnamed keys patch) out = List.filter (unnamed keys patch) existing /\
  (NoDup (omap (key_of keys) existing) -> NoDup (omap (key_of keys) out)).
Proof. intros Hs Hp He E. exact (merge_list_by_key_keeps_rest _ _ _ _ _ _ _ Hs Hp (incl_refl _) He E). Qed.

(** A [$patch: delete] on a map does not delete it: the directive leaves the
    current object as it was, and creates an empty object where there was none,
    so the parent keeps (or gains) the field. *)
Theorem map_delete_directive_ignored `{SerdeJson} `{PatchSchemaEnv} gvk path cur :
  strategic_merge gvk cur (JObject [(PATCH_SENTINEL, JString "delete")]) path =
    Ok (JObject (default [] (as_object cur))) /\
  field_merge gvk path "resources" (JObject [(PATCH_SENTINEL, JString "delete")]) None =
    Ok (Some (JObject [])).
Proof. done. Qed.

(** An unknown [$patch] directive is an error on an object and on a list
    element that matches an existing one, but on an element that matches none
    it is dropped and the element is appended. *)
Theorem unknown_directive_unmatched `{SerdeJson} `{PatchSchemaEnv} gvk path nm :
  let el d := JObject [("$patch", JString d); ("name", JString nm)] in
  let merge existing d := merge_list_by_key (strategic_merge gvk) ["name"] path [el d] existing in
  merge [JObject [("name", JString nm)]] "frob" =
    Err (PatchError.BadDirective (json_text (JString "frob"))) /\
  merge [] "frob" = Ok [JObject [("name", JString nm)]].
Proof.
  cbv beta zeta. rewrite !merge_list_by_key_cons. split; [| done]. unfold merge_element.
  assert (key_of ["name"] (JObject [("$patch", JString "frob"); ("name", JString nm)]) =
    Some [JString nm]) as -> by done. cbn [position].
  assert (key_of ["name"] (JObject [("name", JString nm)]) = Some [JString nm]) as -> by done.
  by rewrite eqb_refl.
Qed.

(** *** Witnesses *)

Local Definition containers_env : PatchSchemaEnv :=
  {| merge_strategy _ path :=
       if eqb path ["spec"; "containers"] then ListMergeStrategy.MergeByKey ["name"]
       else ListMergeStrategy.Replace |}.

Local Definition container (nm img : string) : json :=
  JObject [("image", JString img); ("name", JString nm)].

Lemma merge_rfc7396_spec_witness :
  exists r, merge_rfc7396 (JObject [("a", JBool true); ("b", JBool true)])
              (JObject [("a", JNull); ("c", JString "x")]) = JObject r /\
    bt_get "a" r = None /\ bt_get "b" r = Some (JBool true) /\ bt_get "c" r = Some (JString "x").
Proof.
  destruct (merge_rfc7396_spec (JObject [("a", JBool true); ("b", JBool true)])
    [("a", JNull); ("c", JString "x")] eq_refl eq_refl) as (r & E & _ & K & _).
  exists r. exact (conj E (conj (K "a") (conj (K "b") (K "c")))).
Defined.

Lemma json_patch_add_undo_witness :
  let doc := JObject [("spec", JArray [JBool true; JBool false])] in
  pointer_remove (JObject [("spec", JArray [JBool true; JNull; JBool false])]) "/spec/1" =
  Ok (doc, JNull).
Proof.
  apply (proj2 (json_patch_add_undo (JObject [("spec", JArray [JBool true; JBool false])])
    "/spec/1" JNull "1" ["spec"]
    (JObject [("spec", JArray [JBool true; JNull; JBool false])])
    eq_refl eq_refl ltac:(done) eq_refl)).
  done.
Defined.

Lemma strategic_merge_fieldwise_witness :
  let cur := JObject [("kind", JString "Pod"); ("spec", JObject [("replicas", JNull)])] in
  jget "kind" (JObject [("kind", JString "Pod"); ("metadata", JBool true);
                        ("spec", JObject [("replicas", JNull)])]) = Some (JString "Pod").
Proof.
  intros cur.
  exact (proj2 (proj2 (@strategic_merge_fieldwise numbered containers_env (mkGvk "" "v1" "Pod")
    cur [("metadata", JBool true)] root _ eq_refl eq_refl eq_refl eq_refl)) "kind").
Defined.

Lemma merge_list_keeps_unnamed_witness :
  let existing := [container "a" "1"; container "b" "1"; container "c" "1"] in
  let patch := [container "b" "2"] in
  List.filter (unnamed ["name"] patch) [container "a" "1"; container "b" "2"; container "c" "1"] =
  [container "a" "1"; container "c" "1"].
Proof.
  intros existing patch.
  refine (eq_trans (proj1 (@merge_list_keeps_unnamed numbered containers_env
    (mkGvk "" "v1" "Pod") ["name"] ["spec"; "containers"] patch existing _ _ _ _ _)) _).
  - by repeat constructor.
  - constructor; [| constructor]. split; [reflexivity |]. intros key. vm_compute. by intros [= <-].
  - by repeat constructor.
  - vm_compute. reflexivity.
  - vm_compute. reflexivity.
Defined.
