(* ===== verification/Ssa.v ===== *)
(** * Server-side apply

    Models [engenho-store/src/ssa.rs]: the field-ownership trie with its
    [FieldsV1] wire form, the ownership an applied configuration claims, and
    [apply_ssa], the interpreter that detects conflicts, merges through
    [strategic_merge], drops the fields a manager no longer applies and
    rewrites [metadata.managedFields].

    A [PathElement] is ordered by its [FieldsV1] key, so the children of a trie
    node are a map keyed by that string, each entry holding the element it was
    inserted with. *)

From Stdlib Require Import Sorted Ascii.
From stdpp Require Import base tactics option list strings numbers pretty.
From S2P Require Import Prelude Text BTreeMap Json Resource Command PatchApply.

Local Open Scope string_scope.
Local Open Scope Z_scope.

(** ** Ownership paths *)

Module PathElement.
Inductive t : Type :=
  | Field (name : string)
  | Key (keys : btmap string json)
  | Value (v : json)
  | Index (i : Z).

#[global] Instance eq_dec : EqDecision t.
Proof. solve_decision. Defined.
End PathElement.

#[warnings="-register-all"]
Inductive FieldSet : Type :=
  mkFieldSet (self_owned : bool) (children : list (string * (PathElement.t * FieldSet))).

Definition self_owned (s : FieldSet) : bool := let 'mkFieldSet o _ := s in o.
Definition children (s : FieldSet) : btmap string (PathElement.t * FieldSet) :=
  let 'mkFieldSet _ c := s in c.

Section Encoding.
Context `{SerdeJson}.

Definition to_fields_v1_key (el : PathElement.t) : string :=
  match el with
  | PathElement.Field name => "f:" ++ name
  | PathElement.Key keys => "k:" ++ json_text (JObject keys)
  | PathElement.Value v => "v:" ++ json_text v
  | PathElement.Index i => "i:" ++ pretty i
  end.

Definition from_fields_v1_key (k : string) : option PathElement.t :=
  match strip_prefix "f:" k with
  | Some name => Some (PathElement.Field name)
  | None =>
  match strip_prefix "k:" k with
  | Some rest => parse_json rest ≫= fun v => as_object v ≫= fun obj => Some (PathElement.Key obj)
  | None =>
  match strip_prefix "v:" k with
  | Some rest => parse_json rest ≫= fun v => Some (PathElement.Value v)
  | None =>
  match strip_prefix "i:" k with
  | Some rest => parse_usize rest ≫= fun i => Some (PathElement.Index i)
  | None => None
  end end end end.

(** ** The trie *)

Definition fs_new : FieldSet := mkFieldSet false [].

Definition fs_is_empty (s : FieldSet) : bool :=
  negb (self_owned s) && match children s with [] => true | _ => false end.

Definition mark_owned (s : FieldSet) : FieldSet := mkFieldSet true (children s).

Fixpoint collect_paths (s : FieldSet) (prefix : list PathElement.t) : list (list PathElement.t) :=
  match s with
  | mkFieldSet owned cs =>
      (if owned then [prefix] else []) ++
      (fix go (cs : list (string * (PathElement.t * FieldSet))) :=
         match cs with
         | [] => []
         | (_, (el, c)) :: cs => collect_paths c (prefix ++ [el]) ++ go cs
         end) cs
  end%list.

Definition owned_paths (s : FieldSet) : list (list PathElement.t) := collect_paths s [].

(** [children.get]. *)
Definition child_of (s : FieldSet) (el : PathElement.t) : option FieldSet :=
  snd <$> bt_get (to_fields_v1_key el) (children s).

(** [children.insert]: a key that compares equal keeps the element it had. *)
Definition set_child (s : FieldSet) (el : PathElement.t) (c : FieldSet) : FieldSet :=
  let k := to_fields_v1_key el in
  let el' := match bt_get k (children s) with Some e => e.1 | None => el end in
  mkFieldSet (self_owned s) (bt_insert k (el', c) (children s)).

Definition drop_child (s : FieldSet) (el : PathElement.t) : FieldSet :=
  mkFieldSet (self_owned s) (bt_remove (to_fields_v1_key el) (children s)).

(** [children.entry(el).or_default()], then [f] through the reference. *)
Definition with_child (s : FieldSet) (el : PathElement.t) (f : FieldSet -> FieldSet) : FieldSet :=
  set_child s el (f (default fs_new (child_of s el))).

Fixpoint owns (s : FieldSet) (elems : list PathElement.t) : bool :=
  match elems with
  | [] => self_owned s
  | head :: tail => is_some_and (fun c => owns c tail) (child_of s head)
  end.

Fixpoint fs_to_value (s : FieldSet) : json :=
  match s with
  | mkFieldSet owned cs =>
      JObject
        ((fix go (cs : list (string * (PathElement.t * FieldSet))) (obj : btmap string json) :=
            match cs with
            | [] => obj
            | (_, (el, c)) :: cs => go cs (bt_insert (to_fields_v1_key el) (fs_to_value c) obj)
            end) cs (if owned then [(".", JObject [])] else []))
  end.

Fixpoint fs_from_value (v : json) : FieldSet :=
  match v with
  | JObject obj =>
      (fix go (obj : list (string * json)) (s : FieldSet) :=
         match obj with
         | [] => s
         | (k, child) :: obj =>
             go obj
               (if eqb k "." then mark_owned s
                else match from_fields_v1_key k with
                     | Some el => set_child s el (fs_from_value child)
                     | None => s
                     end)
         end) obj fs_new
  | _ => fs_new
  end.

(** ** What a configuration claims *)

Definition APISERVER_OWNED_METADATA : list string :=
  ["managedFields"; "resourceVersion"; "uid"; "generation"; "creationTimestamp";
   "deletionTimestamp"].

Context `{PatchSchemaEnv}.

Section Build.
(** [rec] is [build_fieldset] on a subtree. *)
Variable rec : json -> JsonPath -> FieldSet -> FieldSet.

Definition build_metadata_fieldset (path : JsonPath) : list (string * json) -> FieldSet -> FieldSet :=
  fix go (obj : list (string * json)) (out : FieldSet) :=
    match obj with
    | [] => out
    | (k, v) :: obj =>
        go obj
          (if existsb (eqb k) APISERVER_OWNED_METADATA then out
           else with_child out (PathElement.Field k) (rec v (child path k)))
    end.

(** The key tuple a list element is addressed by: the merge keys it carries. *)
Definition key_tuple (keys : list string) (obj : btmap string json) : btmap string json :=
  fold_left (fun tuple k =>
    match bt_get k obj with Some v => bt_insert k v tuple | None => tuple end) keys [].

Definition build_list_fieldset (strat : ListMergeStrategy.t) (path : JsonPath)
  : list json -> FieldSet -> FieldSet :=
  fix go (arr : list json) (out : FieldSet) :=
    match strat with
    | ListMergeStrategy.Replace => mark_owned out
    | ListMergeStrategy.Set_ =>
        match arr with
        | [] => out
        | el :: arr => go arr (with_child out (PathElement.Value el) mark_owned)
        end
    | ListMergeStrategy.MergeByKey keys | ListMergeStrategy.MergeByKeyRetainKeys keys =>
        match arr with
        | [] => out
        | el :: arr =>
            go arr
              (match el with
               | JObject obj => with_child out (PathElement.Key (key_tuple keys obj)) (rec el path)
               | _ => with_child out (PathElement.Value el) mark_owned
               end)
        end
    end.
End Build.

Fixpoint build_fieldset (gvk : Gvk) (node : json) (path : JsonPath) (out : FieldSet) : FieldSet :=
  match node with
  | JObject obj =>
      match obj with
      | [] => mark_owned out
      | _ =>
          (fix go (obj : list (string * json)) (out : FieldSet) :=
             match obj with
             | [] => out
             | (k, v) :: obj =>
                 go obj
                   (if match path with [] => eqb k "metadata" | _ => false end then
                      let out' := with_child out (PathElement.Field k)
                        (fun child_ =>
                           match v with
                           | JObject m =>
                               build_metadata_fieldset (build_fieldset gvk) (child path k) m child_
                           | _ => child_
                           end) in
                      if is_some_and fs_is_empty (child_of out' (PathElement.Field k))
                      then drop_child out' (PathElement.Field k) else out'
                    else with_child out (PathElement.Field k) (build_fieldset gvk v (child path k)))
             end) obj out
      end
  | JArray arr =>
      build_list_fieldset (build_fieldset gvk) (merge_strategy gvk path) path arr out
  | _ => mark_owned out
  end.

Definition fieldset_of (config : json) (gvk : Gvk) : FieldSet :=
  build_fieldset gvk config root fs_new.

End Encoding.

(** ** Conflicts and outcomes *)

Record Conflict : Type := mkConflict {
  conflict_manager : string;
  conflict_field : string
}.

#[export] Instance Conflict_eq_dec : EqDecision Conflict.
Proof. solve_decision. Defined.

Definition ApplyConflicts : Type := list Conflict.

(** The double quote character, as a string. *)
Definition quote : string := String (Ascii.ascii_of_N 34) EmptyString.

Definition to_causes (cs : ApplyConflicts) : json :=
  JArray (map (fun c =>
    jobj [("type", JString "FieldManagerConflict");
          ("message", JString ("conflict with " ++ quote ++ conflict_manager c ++ quote));
          ("field", JString (conflict_field c))]) cs).

Module SsaOutcome.
Inductive t : Type :=
  | Created (merged managed_fields : json)
  | Updated (merged managed_fields : json).

Definition merged (o : t) : json := match o with Created m _ | Updated m _ => m end.
Definition managed_fields (o : t) : json := match o with Created _ f | Updated _ f => f end.
End SsaOutcome.

(** [sort_by] on field, then manager; equal elements are indistinguishable. *)
Definition conflict_leb (a b : Conflict) : bool :=
  match lex (cmp (conflict_field a) (conflict_field b))
          (cmp (conflict_manager a) (conflict_manager b)) with
  | Gt => false
  | _ => true
  end.

(** [Vec::dedup]: drop consecutive repetitions. *)
Fixpoint dedup {A} `{EqDecision A} (l : list A) : list A :=
  match l with
  | x :: ((y :: _) as tail) => if eqb x y then dedup tail else x :: dedup tail
  | _ => l
  end.

(** ** Navigation by ownership path *)

Definition key_matches (keys : btmap string json) (e : json) : bool :=
  forallb (fun kv => eqb (jget kv.1 e) (Some kv.2)) keys.

Definition step (node : json) (el : PathElement.t) : option json :=
  match el with
  | PathElement.Field name => jget name node
  | PathElement.Index i => as_array node ≫= fun a => get_index a i
  | PathElement.Value v => as_array node ≫= fun a => List.find (fun e => eqb e v) a
  | PathElement.Key keys => as_array node ≫= fun a => List.find (key_matches keys) a
  end.

Fixpoint value_at (root : json) (path : list PathElement.t) : option json :=
  match path with
  | [] => Some root
  | el :: path => step root el ≫= fun cur => value_at cur path
  end.

Definition list_element_index (node : json) (head : PathElement.t) : option nat :=
  as_array node ≫= fun arr : list json =>
  match head with
  | PathElement.Index i => if i <? Z.of_nat (length arr) then Some (Z.to_nat i) else None
  | PathElement.Value v => position (fun e => eqb e v) arr
  | PathElement.Key keys => position (key_matches keys) arr
  | PathElement.Field _ => None
  end.

Definition is_empty_container (v : json) : bool :=
  match v with
  | JObject m => match m with [] => true | _ => false end
  | JArray a => match a with [] => true | _ => false end
  | _ => false
  end.

(** The leaf step of [remove_rec]. *)
Definition remove_leaf_step (node : json) (head : PathElement.t) : json :=
  match head, node with
  | PathElement.Field name, JObject m => JObject (bt_remove name m)
  | PathElement.Index i, JArray a =>
      if i <? Z.of_nat (length a) then JArray (delete (Z.to_nat i) a) else node
  | PathElement.Value v, JArray a => JArray (List.filter (fun e => negb (eqb e v)) a)
  | PathElement.Key keys, JArray a => JArray (List.filter (fun e => negb (key_matches keys e)) a)
  | _, _ => node
  end.

(** The node without [path], and whether the node itself became empty. *)
Fixpoint remove_rec (node : json) (path : list PathElement.t) : json * bool :=
  match path with
  | [] => (node, false)
  | [head] =>
      let node := remove_leaf_step node head in
      (node, is_empty_container node)
  | head :: tail =>
      match head with
      | PathElement.Field name =>
          match jget name node with
          | None => (node, false)
          | Some child =>
              let node := jset name (remove_rec child tail).1 node in
              (node, is_empty_container node)
          end
      | _ =>
          match list_element_index node head, node with
          | Some idx, JArray arr =>
              match arr !! idx with
              | Some child =>
                  let '(child, child_emptied) := remove_rec child tail in
                  let node := JArray (if child_emptied then delete idx arr
                                      else <[idx := child]> arr) in
                  (node, is_empty_container node)
              | None => (node, false)
              end
          | _, _ => (node, false)
          end
      end
  end.

Definition remove_at (root : json) (path : list PathElement.t) : json := (remove_rec root path).1.

Definition set_managed_fields (obj managed_fields : json) : json :=
  match obj with
  | JObject m =>
      match default (JObject []) (bt_get "metadata" m) with
      | JObject meta =>
          JObject (bt_insert "metadata" (JObject (bt_insert "managedFields" managed_fields meta)) m)
      | _ => obj
      end
  | _ => obj
  end.

(** ** The interpreter *)

Module ManagedOp.
Inductive t : Type := Apply | Update.
#[global] Instance eq_dec : EqDecision t.
Proof. solve_decision. Defined.
End ManagedOp.

Record DecodedEntry : Type := mkDecodedEntry {
  entry_manager : string;
  operation : ManagedOp.t;
  fields : FieldSet;
  raw : json
}.

Section Interpreter.
Context `{SerdeJson} `{PatchSchemaEnv}.

Definition render_field_path (path : list PathElement.t) : string :=
  let out :=
    String.concat "" (map (fun el =>
      match el with
      | PathElement.Field name => "." ++ name
      | PathElement.Index i => "[" ++ pretty i ++ "]"
      | PathElement.Value v => "[" ++ json_text v ++ "]"
      | PathElement.Key keys =>
          "[" ++ String.concat "," (map (fun kv => kv.1 ++ "=" ++ json_text kv.2) keys) ++ "]"
      end) path) in
  if eqb out "" then "." else out.

(** [None] is an entry the [filter_map] drops. *)
Definition decode_entry (e : json) : option DecodedEntry :=
  jget "manager" e ≫= fun m => as_str m ≫= fun manager =>
  let operation :=
    match jget "operation" e ≫= as_str with
    | Some s => if eqb s "Update" then ManagedOp.Update else ManagedOp.Apply
    | None => ManagedOp.Apply
    end in
  let fields := match jget "fieldsV1" e with Some f => fs_from_value f | None => fs_new end in
  Some (mkDecodedEntry manager operation fields e).

Definition read_managed_fields (current : json) : list DecodedEntry :=
  match jget "metadata" current ≫= fun m => jget "managedFields" m ≫= as_array with
  | Some arr => omap decode_entry arr
  | None => []
  end.

Definition make_entry (manager : string) (fieldset : FieldSet) (gvk : Gvk) (time : string) : json :=
  let api_version :=
    if eqb (gvk_group gvk) "" then gvk_version gvk
    else gvk_group gvk ++ "/" ++ gvk_version gvk in
  jobj [("manager", JString manager);
        ("operation", JString "Apply");
        ("apiVersion", JString api_version);
        ("time", JString time);
        ("fieldsType", JString "FieldsV1");
        ("fieldsV1", fs_to_value fieldset)].

Fixpoint remove_owned_path (s : FieldSet) (elems : list PathElement.t) : FieldSet :=
  match elems with
  | [] => mkFieldSet false (children s)
  | head :: tail =>
      match child_of s head with
      | None => s
      | Some c =>
          let c' := remove_owned_path c tail in
          if fs_is_empty c' then drop_child s head else set_child s head c'
      end
  end.

Definition subtract (s remove : FieldSet) : FieldSet :=
  fold_left remove_owned_path (owned_paths remove) s.

(** What one existing entry becomes; [None] when it is dropped. *)
Definition update_entry (manager : string) (applied_fs : FieldSet) (force : bool) (gvk : Gvk)
    (time : string) (e : DecodedEntry) : option json :=
  if eqb (entry_manager e) manager && eqb (operation e) ManagedOp.Apply then
    Some (make_entry manager applied_fs gvk time)
  else if force && eqb (operation e) ManagedOp.Apply then
    let remaining := subtract (fields e) applied_fs in
    if fs_is_empty remaining then None
    else Some (jset "fieldsV1" (fs_to_value remaining) (raw e))
  else Some (raw e).

Definition update_ownership (entries : list DecodedEntry) (manager : string)
    (applied_fs : FieldSet) (force : bool) (gvk : Gvk) (time : string) : list json :=
  let saw_manager :=
    existsb (fun e => eqb (entry_manager e) manager && eqb (operation e) ManagedOp.Apply) entries in
  (omap (update_entry manager applied_fs force gvk time) entries ++
   if saw_manager then [] else [make_entry manager applied_fs gvk time])%list.

(** Another apply-manager's entry. *)
Definition is_other (manager : string) (e : DecodedEntry) : bool :=
  negb (eqb (entry_manager e) manager) && eqb (operation e) ManagedOp.Apply.

Definition conflicts_of (current config : json) (manager : string) (applied_fs : FieldSet)
    (entries : list DecodedEntry) : list Conflict :=
  flat_map (fun path =>
    omap (fun e =>
      if is_other manager e && owns (fields e) path
         && negb (eqb (value_at config path) (value_at current path))
      then Some (mkConflict (entry_manager e) (render_field_path path)) else None) entries)
    (owned_paths applied_fs).

(** Phase 6: drop what [manager] owned, no longer applies, and no one else owns. *)
Definition remove_dropped (merged : json) (manager : string) (applied_fs : FieldSet)
    (entries : list DecodedEntry) : json :=
  let prior_self :=
    match List.find (fun e => eqb (entry_manager e) manager && eqb (operation e) ManagedOp.Apply)
            entries with
    | Some e => fields e
    | None => fs_new
    end in
  fold_left (fun merged path =>
    if owns applied_fs path then merged
    else if existsb (fun e => is_other manager e && owns (fields e) path) entries then merged
    else remove_at merged path) (owned_paths prior_self) merged.

Definition apply_ssa (current : option json) (config : json) (manager : string) (force : bool)
    (gvk : Gvk) (time : string) : result SsaOutcome.t ApplyConflicts :=
  let applied_fs := fieldset_of config gvk in
  match current with
  | None =>
      let managed_fields := JArray [make_entry manager applied_fs gvk time] in
      Ok (SsaOutcome.Created (set_managed_fields config managed_fields) managed_fields)
  | Some current =>
      let entries := read_managed_fields current in
      let conflicts := conflicts_of current config manager applied_fs entries in
      if negb (match conflicts with [] => true | _ => false end) && negb force then
        Err (dedup (sort_by conflict_leb conflicts))
      else
        let merged := unwrap_or_else (strategic_merge gvk current config root) (fun _ => current) in
        let merged := remove_dropped merged manager applied_fs entries in
        let managed_fields := JArray (update_ownership entries manager applied_fs force gvk time) in
        Ok (SsaOutcome.Updated (set_managed_fields merged managed_fields) managed_fields)
  end.

End Interpreter.
