(* ===== verification/Pagination.v ===== *)
(** * List pages and continue tokens

    Models [engenho-store/src/pagination.rs]: the pages a LIST is cut into and
    the opaque continue token, [hex(version ++ digest prefix ++ json)].  BLAKE3
    and the [serde] form of the token are parameters; the hex codec and the
    order of the checks are the source's. *)

From Stdlib Require Import Ascii.
From stdpp Require Import base tactics option list strings numbers countable.
From S2P Require Import Prelude BTreeMap Json Resource.

Local Open Scope string_scope.
Local Open Scope Z_scope.

(** ** Bytes *)

Definition is_byte (b : Z) : bool := (0 <=? b) && (b <=? 255).

Definition ascii_of_byte (b : Z) : ascii := Ascii.ascii_of_N (Z.to_N b).
Definition byte_of_ascii (c : ascii) : Z := Z.of_N (Ascii.N_of_ascii c).

(** [str::as_bytes]. *)
Fixpoint as_bytes (s : string) : list Z :=
  match s with
  | EmptyString => []
  | String c s => byte_of_ascii c :: as_bytes s
  end.

(** [HEX[n]] for a nibble [n], as a character. *)
Definition hex_digit (n : Z) : ascii := ascii_of_byte (if n <? 10 then 48 + n else 87 + n).

Fixpoint to_hex (bytes : list Z) : string :=
  match bytes with
  | [] => ""
  | b :: bytes =>
      String (hex_digit (Z.shiftr b 4)) (String (hex_digit (Z.land b 15)) (to_hex bytes))
  end.

Definition nibble (c : Z) : option Z :=
  if (48 <=? c) && (c <=? 57) then Some (c - 48)
  else if (97 <=? c) && (c <=? 102) then Some (c - 97 + 10)
  else if (65 <=? c) && (c <=? 70) then Some (c - 65 + 10)
  else None.

(** The [chunks_exact(2)] loop. *)
Fixpoint from_pairs (bytes : list Z) : option (list Z) :=
  match bytes with
  | h :: l :: bytes =>
      nibble h ≫= fun hi => nibble l ≫= fun lo =>
      from_pairs bytes ≫= fun out => Some (Z.lor (Z.shiftl hi 4) lo :: out)
  | _ => Some []
  end.

Definition from_hex (s : string) : option (list Z) :=
  let bytes := as_bytes s in
  if Nat.even (length bytes) then from_pairs bytes else None.

(** ** Pages *)

Record ListPage : Type := mkListPage {
  items : list (ResourceKey * json);
  next_key : option ResourceKey;
  remaining : Z
}.

Record PageAtRevision : Type := mkPageAtRevision {
  page_items : list (ResourceKey * json);
  page_revision : Revision;
  page_next : option ResourceKey;
  page_remaining : Z
}.

Definition cloned_at (p : ListPage) (rev : Revision) : PageAtRevision :=
  mkPageAtRevision (items p) rev (next_key p) (remaining p).

(** ** Continue tokens *)

Record ContinueToken : Type := mkContinueToken {
  snapshot_rev : Revision;
  last_key : ResourceKey
}.

Definition CONTINUE_TOKEN_VERSION : Z := 1.
Definition DIGEST_PREFIX_LEN : nat := 8.

Module ContinueInvalid.
Inductive t : Type := bad_hex | too_short | bad_version | digest_mismatch | bad_json.
End ContinueInvalid.

(** BLAKE3 over a byte string. *)
Class Blake3 : Type := { blake3 : list Z -> list Z }.

Class Blake3Laws `{Blake3} : Prop := {
  blake3_length : forall l, length (blake3 l) = 32%nat;
  blake3_bytes : forall l, Forall (fun b => is_byte b = true) (blake3 l)
}.

(** [serde_json::to_vec] and [from_slice] on a token. *)
Class TokenSerde : Type := {
  token_bytes : ContinueToken -> list Z;
  token_of_bytes : list Z -> option ContinueToken
}.

Class TokenSerdeLaws `{TokenSerde} : Prop := {
  token_bytes_range : forall t, Forall (fun b => is_byte b = true) (token_bytes t);
  token_of_token_bytes : forall t,
    Word.is_u64 (snapshot_rev t) -> token_of_bytes (token_bytes t) = Some t
}.

Section Token.
Context `{Blake3} `{TokenSerde}.

Definition encode (t : ContinueToken) : string :=
  let json := token_bytes t in
  let digest := blake3 json in
  to_hex (CONTINUE_TOKEN_VERSION :: take DIGEST_PREFIX_LEN digest ++ json)%list.

Definition decode (s : string) : result ContinueToken ContinueInvalid.t :=
  match from_hex s with
  | None => Err ContinueInvalid.bad_hex
  | Some raw =>
      if (length raw <? 1 + DIGEST_PREFIX_LEN)%nat then Err ContinueInvalid.too_short
      else if negb (eqb (raw !! 0%nat) (Some CONTINUE_TOKEN_VERSION)) then
        Err ContinueInvalid.bad_version
      else
        let digest_prefix := take DIGEST_PREFIX_LEN (drop 1 raw) in
        let json := drop (1 + DIGEST_PREFIX_LEN) raw in
        if negb (eqb (take DIGEST_PREFIX_LEN (blake3 json)) digest_prefix) then
          Err ContinueInvalid.digest_mismatch
        else ok_or (token_of_bytes json) ContinueInvalid.bad_json
  end.
End Token.

(** ** Facts *)

(** A property of every byte, by enumeration. *)
Lemma byte_enum (p : Z -> bool) :
  forallb p (map Z.of_nat (seq 0 256)) = true -> forall b, is_byte b = true -> p b = true.
Proof.
  intros Hall b Hb. unfold is_byte in Hb. bool_to_prop. rewrite forallb_forall in Hall.
  apply Hall, in_map_iff. exists (Z.to_nat b). rewrite in_seq. lia.
Qed.

Definition byte_code_ok (b : Z) : bool :=
  eqb (nibble (byte_of_ascii (hex_digit (Z.shiftr b 4)))) (Some (Z.shiftr b 4)) &&
  eqb (nibble (byte_of_ascii (hex_digit (Z.land b 15)))) (Some (Z.land b 15)) &&
  eqb (Z.lor (Z.shiftl (Z.shiftr b 4) 4) (Z.land b 15)) b.

Lemma byte_codes b : is_byte b = true -> byte_code_ok b = true.
Proof. revert b. apply byte_enum. vm_compute. reflexivity. Qed.

Lemma as_bytes_to_hex_length l : Nat.even (length (as_bytes (to_hex l))) = true.
Proof. by induction l. Qed.

Lemma from_hex_to_hex l :
  Forall (fun b => is_byte b = true) l -> from_hex (to_hex l) = Some l.
Proof.
  unfold from_hex. rewrite as_bytes_to_hex_length. induction 1 as [|b l Hb _ IH]; [done |].
  cbn [to_hex as_bytes from_pairs]. apply byte_codes in Hb. unfold byte_code_ok in Hb.
  apply andb_true_iff in Hb as [Hb Hor]. apply andb_true_iff in Hb as [Hhi Hlo].
  apply eqb_sound in Hhi, Hlo, Hor. rewrite Hhi. simpl. rewrite Hlo. simpl. rewrite IH. simpl.
  by rewrite Hor.
Qed.

Section TokenFacts.
Context `{Blake3Laws} `{TokenSerdeLaws}.

Lemma digest_prefix_length l : length (take DIGEST_PREFIX_LEN (blake3 l)) = DIGEST_PREFIX_LEN.
Proof. rewrite length_take, blake3_length. done. Qed.

Lemma decode_Ok s t :
  decode s = Ok t <->
  exists body, from_hex s =
    Some (CONTINUE_TOKEN_VERSION :: take DIGEST_PREFIX_LEN (blake3 body) ++ body)%list /\
    token_of_bytes body = Some t.
Proof.
  unfold decode. split.
  - destruct (from_hex s) as [raw|]; [| done]. case_match eqn:E1; [done |].
    case_match eqn:E2; [done |]. case_match eqn:E3; [done |]. bool_to_prop.
    destruct raw as [|v raw]; [done |]. simpl in E2, E3. injection E2 as ->.
    destruct (token_of_bytes _) as [t'|] eqn:E; [| done]. intros [= <-].
    exists (drop DIGEST_PREFIX_LEN raw). split; [| exact E].
    simpl in E |- *. rewrite E3, drop_0, take_drop. done.
  - intros (body & -> & Hb). cbn [length]. rewrite length_app, digest_prefix_length.
    replace (S (DIGEST_PREFIX_LEN + length body) <? 1 + DIGEST_PREFIX_LEN)%nat with false
      by (symmetry; apply Nat.ltb_ge; unfold DIGEST_PREFIX_LEN; lia).
    cbv iota. match goal with |- context [eqb (?l !! 0%nat) ?v] =>
      change (l !! 0%nat) with v end.
    rewrite eqb_refl. cbn [negb drop Nat.add]. rewrite drop_0.
    rewrite (take_app_length' _ _ DIGEST_PREFIX_LEN) by (by rewrite digest_prefix_length).
    rewrite (drop_app_length' _ _ DIGEST_PREFIX_LEN) by (by rewrite digest_prefix_length).
    rewrite eqb_refl. simpl. by rewrite Hb.
Qed.

Lemma encode_bytes t :
  from_hex (encode t) =
  Some (CONTINUE_TOKEN_VERSION :: take DIGEST_PREFIX_LEN (blake3 (token_bytes t)) ++ token_bytes t)%list.
Proof.
  apply from_hex_to_hex. constructor; [done |]. apply Forall_app.
  split; [apply Forall_take, blake3_bytes | apply token_bytes_range].
Qed.

End TokenFacts.

(** ** Properties *)

(** A continue token survives the round trip through its opaque form: what
    [encode] emits, [decode] accepts and reads back as the same token. *)
Theorem continue_token_round_trip `{Blake3Laws} `{TokenSerdeLaws} t :
  Word.is_u64 (snapshot_rev t) -> decode (encode t) = Ok t.
Proof.
  intros Ht. apply decode_Ok. exists (token_bytes t).
  split; [apply encode_bytes | by apply token_of_token_bytes].
Qed.

(** [decode] accepts nothing else: a string is accepted as [t] exactly when
    it is the hex of the version byte, the digest prefix of a body, and that
    body, which reads as [t].  Every other string is a typed refusal. *)
Theorem continue_token_decode_exact `{Blake3Laws} `{TokenSerde} s t :
  decode s = Ok t <->
  exists body, from_hex s =
    Some (CONTINUE_TOKEN_VERSION :: take DIGEST_PREFIX_LEN (blake3 body) ++ body)%list /\
    token_of_bytes body = Some t.
Proof. apply decode_Ok. Qed.

(** *** Witness *)

Definition zero_blake3 : Blake3 := {| blake3 _ := repeat 0 32 |}.

Lemma zero_blake3_laws : @Blake3Laws zero_blake3.
Proof. split; intros l; [done | by repeat constructor]. Defined.

(** A lawful token serde: number the token, write the number in binary. *)
Definition token_tuple (t : ContinueToken) :=
  let k := last_key t in
  (snapshot_rev t, group k, version k, kind k, namespace k, name k).

Fixpoint positive_bytes (p : positive) : list Z :=
  match p with
  | xH => []
  | xO p => 0 :: positive_bytes p
  | xI p => 1 :: positive_bytes p
  end.

Fixpoint bytes_positive (l : list Z) : positive :=
  match l with
  | [] => xH
  | b :: l => if b =? 0 then xO (bytes_positive l) else xI (bytes_positive l)
  end.

Definition numbered_tokens : TokenSerde := {|
  token_bytes t := positive_bytes (countable.encode (token_tuple t));
  token_of_bytes l :=
    countable.decode (bytes_positive l) ≫= fun '(r, g, v, kd, ns, n) =>
    Some (mkContinueToken r (mkResourceKey g v kd ns n))
|}.

Lemma numbered_tokens_laws : @TokenSerdeLaws numbered_tokens.
Proof.
  assert (forall p, bytes_positive (positive_bytes p) = p) as Hinv
    by (induction p; simpl; congruence).
  split.
  - intros t. simpl. generalize (countable.encode (token_tuple t)).
    induction p; simpl; constructor; done.
  - intros [r [g v kd ns n]] _. simpl. by rewrite Hinv, decode_encode.
Qed.

Lemma continue_token_round_trip_witness :
  let t := mkContinueToken 7 (namespaced "apps" "v1" "Deployment" "default" "web") in
  @decode zero_blake3 numbered_tokens (@encode zero_blake3 numbered_tokens t) = Ok t.
Proof.
  intros t.
  exact (@continue_token_round_trip zero_blake3 zero_blake3_laws numbered_tokens
    numbered_tokens_laws t ltac:(unfold Word.is_u64, Word.u64_max, Word.u64_modulus; simpl; lia)).
Defined.

Lemma continue_token_decode_exact_witness :
  let t := mkContinueToken 7 (namespaced "apps" "v1" "Deployment" "default" "web") in
  @decode zero_blake3 numbered_tokens (@encode zero_blake3 numbered_tokens t) = Ok t.
Proof.
  intros t.
  apply (proj2 (@continue_token_decode_exact zero_blake3 zero_blake3_laws numbered_tokens _ t)).
  exists (@token_bytes numbered_tokens t). split.
  - apply (@encode_bytes zero_blake3 zero_blake3_laws numbered_tokens numbered_tokens_laws).
  - apply numbered_tokens_laws. unfold Word.is_u64, Word.u64_max, Word.u64_modulus; simpl; lia.
Defined.
