(* ===== verification/Catalog.v ===== *)
(** * The resource catalog

    Models [engenho-store/src/state.rs]: the replicated state machine every
    node applies its Raft log to.  The state is the ordered resource map, the
    applied position, the watch history and the sealed values this node could
    not open; an operation takes the state and returns its outcome and the
    state after.  Parameters: the merge-strategy lookup of the patch
    interpreter, BLAKE3, the text of an error, [serde_json]'s text form and the
    sealer's cipher. *)

From Stdlib Require Import Sorted Ascii.
From stdpp Require Import base tactics option list strings numbers pretty.
From S2P Require Import Prelude Text BTreeMap Json Resource WatchHistory Command Read.
From S2P Require Import PatchApply Ssa Pagination.

Local Open Scope string_scope.
Local Open Scope Z_scope.

(** ** Secrets at rest: the parts of [at_rest.rs] the catalog consults *)

Definition ENVELOPE_PREFIX : string := "engenho-sealed:v1:".
Definition SEALED_KINDS : list string := ["Secret"].

Definition is_sealed_kind (k : ResourceKey) : bool :=
  eqb (group k) "" && existsb (eqb (kind k)) SEALED_KINDS.

Definition is_envelope (v : json) : bool :=
  is_some_and (fun text => is_some (strip_prefix ENVELOPE_PREFIX text)) (as_str v).

(** The cipher of a [SecretSealer]. *)
Class Sealer : Type := {
  seals : bool;
  seal_value : ResourceKey -> json -> result json SealFault.t;
  open_value : ResourceKey -> string -> result json SealFault.t
}.

(** [Display] of the typed errors. *)
Class ErrorText : Type := {
  patch_error_text : PatchError.t -> string;
  seal_fault_text : SealFault.t -> string
}.

(** ** Preconditions *)

Definition check_precondition (expected : option Revision) (live : option VersionMeta) : bool :=
  match expected with
  | None => true
  | Some n => is_some_and (fun m => mod_revision m =? n) live
  end.

(** ** A revision means a change *)

Definition COMPUTED_METADATA : list string := ["resourceVersion"; "generation"].
Definition MANAGED_FIELDS_TIME : string := "time".

Definition objects_equal_except (prior candidate : json) (ignored : list string)
    (field_eq : string -> json -> json -> bool) : bool :=
  match as_object prior, as_object candidate with
  | Some before, Some after =>
      let kept := fun e : string * json => negb (existsb (eqb e.1) ignored) in
      Nat.eqb (length (List.filter kept before)) (length (List.filter kept after)) &&
      forallb (fun e => is_some_and (fun a => field_eq e.1 e.2 a) (bt_get e.1 after))
        (List.filter kept before)
  | _, _ => eqb prior candidate
  end.

Definition callers (manager : string) (entry : json) : bool :=
  eqb (jget "manager" entry ≫= as_str) (Some manager).

Definition managed_fields_unchanged (prior candidate : json) (manager : option string) : bool :=
  match manager, as_array prior, as_array candidate with
  | Some manager, Some before, Some after =>
      Nat.eqb (length before) (length after) &&
      forallb (fun ba =>
        if callers manager ba.1 && callers manager ba.2
        then objects_equal_except ba.1 ba.2 [MANAGED_FIELDS_TIME] (fun _ b a => eqb b a)
        else eqb ba.1 ba.2) (combine before after)
  | _, _, _ => eqb prior candidate
  end.

Definition unchanged (prior candidate : json) (manager : option string) : bool :=
  objects_equal_except prior candidate [] (fun field p c =>
    if eqb field "metadata" then
      objects_equal_except p c COMPUTED_METADATA (fun field p c =>
        if eqb field "managedFields" then managed_fields_unchanged p c manager else eqb p c)
    else eqb p c).

(** ** Metadata *)

Definition spec_of (v : json) : option json := jget "spec" v.

Definition has_finalizers (v : json) : bool :=
  is_some_and (fun a : list json => match a with [] => false | _ => true end)
    (jget "metadata" v ≫= fun m => jget "finalizers" m ≫= as_array).

Definition deletion_timestamp_of (v : json) : option string :=
  jget "metadata" v ≫= fun m => jget "deletionTimestamp" m ≫= fun t => as_str t ≫= fun s =>
  if eqb s "" then None else Some s.

Definition finalizers_released (post : json) : bool :=
  is_some (deletion_timestamp_of post) && negb (has_finalizers post).

(** Run [f] on the object [metadata_mut] hands out; a value it hands nothing
    out for is left alone. *)
Definition with_metadata (f : btmap string json -> btmap string json) (v : json) : json :=
  match v with
  | JObject m =>
      match default (JObject []) (bt_get "metadata" m) with
      | JObject meta => JObject (bt_insert "metadata" (JObject (f meta)) m)
      | _ => v
      end
  | _ => v
  end.

Definition stamp_resource_version (v : json) (rev : Revision) : json :=
  with_metadata (bt_insert "resourceVersion" (JString (pretty rev))) v.

Definition stamp_revision (v : json) (rev : Revision) (generation : Z) : json :=
  with_metadata (bt_insert "generation" (JNumber (number_of_i64 generation)))
    (stamp_resource_version v rev).

Definition stamp_deletion_timestamp (v : json) (ts : string) : json :=
  with_metadata (bt_insert "deletionTimestamp" (JString ts)) v.

Definition generation_of (v : json) : Z :=
  default 0 (jget "metadata" v ≫= fun m => jget "generation" m ≫= as_i64).

Definition compute_generation_on_put (prior : option json) (next : json) : Z :=
  match prior with
  | None => 1
  | Some prior_value =>
      let prior_gen := Z.max (generation_of prior_value) 1 in
      if eqb (spec_of prior_value) (spec_of next) then prior_gen else Word.i64_add prior_gen 1
  end.

(** ** Identity *)

Definition UID_NAMESPACE : string := "engenho.pleme.io/resource-uid/v1".

(** [u64::to_be_bytes]. *)
Definition to_be_bytes (n : Z) : list Z :=
  map (fun i => Z.land (Z.shiftr n (8 * i)) 255) [7; 6; 5; 4; 3; 2; 1; 0].

(** The two hex digits of octet [i], after the separator where there is one. *)
Definition uid_octet (i : nat) (b : Z) : string :=
  (if existsb (Nat.eqb i) [4; 6; 8; 10]%nat then "-" else "") ++
  String (hex_digit (Z.shiftr b 4)) (String (hex_digit (Z.land b 15)) "").

Definition render_uid (u : list Z) : string := String.concat "" (imap uid_octet u).

Definition mint_uid `{Blake3} (key_label : string) (create_revision : Revision) : string :=
  let digest :=
    blake3 (as_bytes UID_NAMESPACE ++ [0] ++ as_bytes key_label ++ [0] ++
            to_be_bytes create_revision)%list in
  let u := take 16 digest in
  let u := alter (fun b => Z.lor (Z.land b 15) 128) 6%nat u in
  let u := alter (fun b => Z.lor (Z.land b 63) 128) 8%nat u in
  render_uid u.

(** A [uid] that is set: neither null nor the empty string. *)
Definition uid_set (uid : json) : bool := negb (is_null uid || eqb (as_str uid) (Some "")).

(** [prior.metadata.f], when there is one. *)
Definition prior_meta_field (prior_value : option json) (f : string) : option json :=
  prior_value ≫= fun v => jget "metadata" v ≫= fun m => jget f m.

Definition stamp_identity `{Blake3} (v : json) (k : ResourceKey) (create_revision : Revision)
    (prior_value : option json) : json :=
  with_metadata (fun meta_obj =>
    let kept := bt_get "uid" meta_obj in
    let meta_obj :=
      match prior_meta_field prior_value "uid" with
      | Some prior_uid =>
          if uid_set prior_uid then bt_insert "uid" prior_uid meta_obj
          else if is_some_and uid_set kept then meta_obj
          else bt_insert "uid" (JString (mint_uid (label k) create_revision)) meta_obj
      | None =>
          if is_some_and uid_set kept then meta_obj
          else bt_insert "uid" (JString (mint_uid (label k) create_revision)) meta_obj
      end in
    match prior_meta_field prior_value "creationTimestamp" with
    | Some prior_creation => bt_insert "creationTimestamp" prior_creation meta_obj
    | None => meta_obj
    end) v.

(** ** What an identical write does *)

Module OnIdentical.
Inductive t : Type := Commit | Skip.

Definition under (s : ApplySemantics.t) : t :=
  match s with ApplySemantics.V0 => Commit | ApplySemantics.V1 => Skip end.

Definition skips (r : t) (prior : option json) (candidate : json) (manager : option string) : bool :=
  match r with
  | Commit => false
  | Skip =>
      is_some_and (fun prior => unchanged prior candidate manager
                                && negb (finalizers_released candidate)) prior
  end.
End OnIdentical.

(** ** Outcomes *)

Record ApplyOutcome : Type := mkApplyOutcome {
  op : ResourceOp.t;
  change : option Change;
  patch_error : option string;
  extra_changes : list Change
}.

Definition no_change (op : ResourceOp.t) : ApplyOutcome := mkApplyOutcome op None None [].

Definition committed (op : ResourceOp.t) (first : Change) (rest : list Change) : ApplyOutcome :=
  mkApplyOutcome op (Some first) None rest.

Definition with_change (op : ResourceOp.t) (c : Change) : ApplyOutcome := committed op c [].

Definition changes (o : ApplyOutcome) : list Change :=
  match change o with Some c => c :: extra_changes o | None => extra_changes o end.

Definition patch_rejected (error : string) : ApplyOutcome :=
  mkApplyOutcome ResourceOp.PatchRejected None (Some error) [].

Definition apply_conflict (causes_json : string) : ApplyOutcome :=
  mkApplyOutcome ResourceOp.ApplyConflict None (Some causes_json) [].

(** ** State *)

Record Unreadable : Type := mkUnreadable {
  sealed : json * VersionMeta;
  fault : SealFault.t
}.

Record ResourceCatalog : Type := mkResourceCatalog {
  resources : btmap ResourceKey (json * VersionMeta);
  last_applied_term : Z;
  last_applied_index : Z;
  history : WatchHistory;
  unreadable : btmap ResourceKey Unreadable
}.

Definition catalog_default : ResourceCatalog :=
  mkResourceCatalog [] 0 0 (WatchHistory.new DEFAULT_HISTORY_CAPACITY) [].

(** [NonZeroUsize::new(n).unwrap_or(NonZeroUsize::MIN)]. *)
Definition with_history_capacity (history_capacity : Z) : ResourceCatalog :=
  mkResourceCatalog [] 0 0 (WatchHistory.new (Z.to_pos history_capacity)) [].

Definition set_resources (c : ResourceCatalog) (m : btmap ResourceKey (json * VersionMeta))
  : ResourceCatalog :=
  mkResourceCatalog m (last_applied_term c) (last_applied_index c) (history c) (unreadable c).

Definition set_applied (c : ResourceCatalog) (term index : Z) : ResourceCatalog :=
  mkResourceCatalog (resources c) term index (history c) (unreadable c).

Definition set_history (c : ResourceCatalog) (h : WatchHistory) : ResourceCatalog :=
  mkResourceCatalog (resources c) (last_applied_term c) (last_applied_index c) h (unreadable c).

Definition revision_of (c : ResourceCatalog) : Revision := head (history c).
Definition compacted_revision (c : ResourceCatalog) : Revision := floor (history c).

Definition secret_fault (c : ResourceCatalog) (k : ResourceKey) : option SealFault.t :=
  fault <$> bt_get k (unreadable c).

Definition unreadable_touched_by (c : ResourceCatalog) (cmd : ResourceCommand.t)
  : option (ResourceKey * SealFault.t) :=
  match unreadable c with
  | [] => None
  | _ =>
      (fix go ks := match ks with
        | [] => None
        | k :: ks => match secret_fault c k with Some f => Some (k, f) | None => go ks end
        end) (ResourceCommand.keys cmd)
  end.

(** ** Operations *)

(** [prior_meta.bumped_at(rev)], or a first version. *)
Definition next_meta (prior : option VersionMeta) (rev : Revision) : VersionMeta :=
  match prior with Some m => bumped_at m rev | None => created_at rev end.

(** [Some] when the rule fires: the outcome and the catalog without the key. *)
Definition finalizer_release_removal (c : ResourceCatalog) (k : ResourceKey) (post : json)
    (prior : option json) (rev : Revision) : option (ApplyOutcome * ResourceCatalog) :=
  if is_none prior || negb (finalizers_released post) then None
  else
    let removed_meta := from_option snd (created_at rev) (bt_get k (resources c)) in
    Some (with_change ResourceOp.Deleted (mkChange rev k Delete post (Some post) removed_meta),
          set_resources c (bt_remove k (resources c))).

Definition apply_delete (c : ResourceCatalog) (k : ResourceKey) (expected : option Revision)
    (deletion_timestamp : option string) (rev : Revision) : ApplyOutcome * ResourceCatalog :=
  if negb (check_precondition expected (snd <$> bt_get k (resources c))) then
    (no_change ResourceOp.Conflict, c)
  else
    match bt_get k (resources c) with
    | None => (no_change ResourceOp.NoOp, c)
    | Some (live_value, live_meta) =>
        if negb (has_finalizers live_value) then
          (with_change ResourceOp.Deleted
             (mkChange rev k Delete live_value (Some live_value) live_meta),
           set_resources c (bt_remove k (resources c)))
        else if is_some (deletion_timestamp_of live_value) then (no_change ResourceOp.NoOp, c)
        else
          match deletion_timestamp with
          | None => (no_change ResourceOp.NoOp, c)
          | Some ts =>
              let version_meta := bumped_at live_meta rev in
              let terminating :=
                stamp_resource_version (stamp_deletion_timestamp live_value ts) rev in
              (with_change ResourceOp.DeletionPending
                 (mkChange rev k Put terminating (Some live_value) version_meta),
               set_resources c (bt_insert k (terminating, version_meta) (resources c)))
          end
    end.

Section Apply.
Context `{SerdeJson} `{PatchSchemaEnv} `{OpDecoder} `{Blake3} `{ErrorText}.

Definition apply_put (c : ResourceCatalog) (k : ResourceKey) (v : json)
    (expected : option Revision) (on_identical : OnIdentical.t) (rev : Revision)
  : ApplyOutcome * ResourceCatalog :=
  let prior_entry := bt_get k (resources c) in
  if negb (check_precondition expected (snd <$> prior_entry)) then
    (no_change ResourceOp.Conflict, c)
  else
    let prior_value := fst <$> prior_entry in
    let version_meta := next_meta (snd <$> prior_entry) rev in
    let new_value := stamp_identity v k (create_revision version_meta) prior_value in
    if OnIdentical.skips on_identical prior_value new_value None then
      (no_change ResourceOp.Unchanged, c)
    else
      let new_value := stamp_revision new_value rev (compute_generation_on_put prior_value v) in
      match finalizer_release_removal c k new_value prior_value rev with
      | Some out => out
      | None =>
          (with_change (if is_some prior_value then ResourceOp.Replaced else ResourceOp.Created)
             (mkChange rev k Put new_value prior_value version_meta),
           set_resources c (bt_insert k (new_value, version_meta) (resources c)))
      end.

Definition apply_ssa_command (c : ResourceCatalog) (k : ResourceKey) (body : json)
    (meta : ApplyMeta) (expected : option Revision) (on_identical : OnIdentical.t)
    (rev : Revision) : ApplyOutcome * ResourceCatalog :=
  let prior_entry := bt_get k (resources c) in
  if negb (check_precondition expected (snd <$> prior_entry)) then
    (no_change ResourceOp.Conflict, c)
  else
    let prior_value := fst <$> prior_entry in
    match apply_ssa prior_value body (manager meta) (force meta) (gvk_of k) (time meta) with
    | Err conflicts => (apply_conflict (json_text (to_causes conflicts)), c)
    | Ok ssa_out =>
        let version_meta := next_meta (snd <$> prior_entry) rev in
        let merged :=
          stamp_identity (SsaOutcome.merged ssa_out) k (create_revision version_meta) prior_value in
        if OnIdentical.skips on_identical prior_value merged (Some (manager meta)) then
          (no_change ResourceOp.Unchanged, c)
        else
          let merged :=
            stamp_revision merged rev (compute_generation_on_put prior_value merged) in
          match (if is_some prior_value
                 then finalizer_release_removal c k merged prior_value rev else None) with
          | Some out => out
          | None =>
              (with_change (if is_some prior_value then ResourceOp.Patched else ResourceOp.Created)
                 (mkChange rev k Put merged prior_value version_meta),
               set_resources c (bt_insert k (merged, version_meta) (resources c)))
          end
    end.

Definition apply_patch (c : ResourceCatalog) (k : ResourceKey) (patch : json)
    (patch_type : PatchType.t) (apply_meta : option ApplyMeta) (expected : option Revision)
    (on_identical : OnIdentical.t) (rev : Revision) : ApplyOutcome * ResourceCatalog :=
  if eqb patch_type PatchType.Apply then
    match apply_meta with
    | None => (patch_rejected "server-side apply requires a fieldManager", c)
    | Some meta => apply_ssa_command c k patch meta expected on_identical rev
    end
  else
    match bt_get k (resources c) with
    | None => (no_change (if is_some expected then ResourceOp.Conflict else ResourceOp.NoOp), c)
    | Some (prior_value, prior_meta) =>
        if negb (check_precondition expected (Some prior_meta)) then
          (no_change ResourceOp.Conflict, c)
        else
          match PatchBody.from_raw patch_type patch with
          | Err e => (patch_rejected (patch_error_text e), c)
          | Ok body =>
              match PatchApply.apply patch_type prior_value body (gvk_of k) with
              | Err e => (patch_rejected (patch_error_text e), c)
              | Ok merged =>
                  if OnIdentical.skips on_identical (Some prior_value) merged None then
                    (no_change ResourceOp.Unchanged, c)
                  else
                    let version_meta := bumped_at prior_meta rev in
                    let merged :=
                      stamp_revision merged rev
                        (compute_generation_on_put (Some prior_value) merged) in
                    match finalizer_release_removal c k merged (Some prior_value) rev with
                    | Some out => out
                    | None =>
                        (with_change ResourceOp.Patched
                           (mkChange rev k Put merged (Some prior_value) version_meta),
                         set_resources c (bt_insert k (merged, version_meta) (resources c)))
                    end
              end
          end
    end.

Definition eval_compare (c : ResourceCatalog) (cmp : TxnCompare.t) : bool :=
  match cmp with
  | TxnCompare.ModRevisionEq k revision =>
      is_some_and (fun e => mod_revision e.2 =? revision) (bt_get k (resources c))
  | TxnCompare.NotExists k => negb (bt_contains k (resources c))
  end.

Definition apply_txn_op (c : ResourceCatalog) (o : TxnOp.t) (rev : Revision)
  : ApplyOutcome * ResourceCatalog :=
  match o with
  | TxnOp.Put k v => apply_put c k v None OnIdentical.Commit rev
  | TxnOp.Delete k ts => apply_delete c k None ts rev
  end.

(** The loop over the chosen branch: the changes pushed, and the catalog after. *)
Fixpoint run_branch (c : ResourceCatalog) (branch : list TxnOp.t) (rev : Revision)
  : list Change * ResourceCatalog :=
  match branch with
  | [] => ([], c)
  | o :: branch =>
      let '(outcome, c) := apply_txn_op c o rev in
      let '(rest, c) := run_branch c branch rev in
      (match change outcome with Some ch => ch :: rest | None => rest end, c)
  end.

Definition apply_txn (c : ResourceCatalog) (compares : list TxnCompare.t)
    (success failure : list TxnOp.t) (rev : Revision) : ApplyOutcome * ResourceCatalog :=
  let taken := forallb (eval_compare c) compares in
  let branch := if taken then success else failure in
  let '(chs, c) := run_branch c branch rev in
  match chs with
  | [] => (no_change ResourceOp.NoOp, c)
  | first :: rest => (committed ResourceOp.Replaced first rest, c)
  end.

(** The dispatch of [apply_under]. *)
Definition apply_command (c : ResourceCatalog) (cmd : ResourceCommand.t)
    (on_identical : OnIdentical.t) (rev : Revision) : ApplyOutcome * ResourceCatalog :=
  match cmd with
  | ResourceCommand.Put k v expected _ => apply_put c k v expected on_identical rev
  | ResourceCommand.Patch k patch patch_type apply_meta expected _ =>
      apply_patch c k patch patch_type apply_meta expected on_identical rev
  | ResourceCommand.Delete k expected _ ts => apply_delete c k expected ts rev
  | ResourceCommand.Txn compares success failure _ => apply_txn c compares success failure rev
  end.

Definition apply_under (c : ResourceCatalog) (cmd : ResourceCommand.t)
    (semantics : ApplySemantics.t) (term index : Z) : ApplyOutcome * ResourceCatalog :=
  match unreadable_touched_by c cmd with
  | Some (k, f) =>
      (patch_rejected (label k ++ ": " ++ seal_fault_text f), set_applied c term index)
  | None =>
      let rev := next_revision (history c) in
      let '(outcome, c) := apply_command c cmd (OnIdentical.under semantics) rev in
      let c := set_applied c term index in
      (outcome,
       match change outcome with
       | Some first => set_history c (commit (history c) first (extra_changes outcome)).1
       | None => c
       end)
  end.

Definition apply (c : ResourceCatalog) (cmd : ResourceCommand.t) (term index : Z) :=
  apply_under c cmd ApplySemantics.CURRENT term index.

Definition apply_logged (c : ResourceCatalog) (entry : LoggedCommand) (term index : Z) :=
  apply_under c (command entry) (semantics entry) term index.

End Apply.

Definition compact (c : ResourceCatalog) (target : Revision) : ResourceCatalog * Revision :=
  let '(h, answer) := WatchHistory.compact (history c) target in (set_history c h, answer).

(** ** Reads *)

Definition get (c : ResourceCatalog) (k : ResourceKey) : option json :=
  fst <$> bt_get k (resources c).

Definition get_with_meta (c : ResourceCatalog) (k : ResourceKey) : option (json * VersionMeta) :=
  bt_get k (resources c).

Definition changes_after (c : ResourceCatalog) (rv : Revision)
  : result (list Change) CompactedTooOld := since (history c) rv.

(** A scope's run; it is never the range the map panics on. *)
Definition run_of {V} (s : ListScope) (m : btmap ResourceKey V) (after : option ResourceKey)
  : list (ResourceKey * V) := default [] (range s m after).

Definition values_of (l : list (ResourceKey * (json * VersionMeta))) : list (ResourceKey * json) :=
  map (fun e => (e.1, e.2.1)) l.

Definition list_ (c : ResourceCatalog) (group version kind : string) (namespace : option string)
  : list (ResourceKey * json) :=
  values_of (run_of (mkListScope group version kind namespace) (resources c) None).

Definition list_at_revision (c : ResourceCatalog) (s : ListScope)
  : list (ResourceKey * json) * Revision :=
  (values_of (run_of s (resources c) None), revision_of c).

(** [limit] is a [usize]; the count of what is left saturates at [u64::MAX]. *)
Definition page_of (run : list (ResourceKey * json)) (limit : Z) : ListPage :=
  if limit =? 0 then mkListPage run None 0
  else
    let items := take (Z.to_nat limit) run in
    let remaining := Z.min (Z.of_nat (length (drop (Z.to_nat limit) run))) Word.u64_max in
    mkListPage items (if 0 <? remaining then fst <$> last items else None) remaining.

Definition page (c : ResourceCatalog) (s : ListScope) (after : option ResourceKey) (limit : Z)
  : ListPage :=
  page_of (values_of (run_of s (resources c) after)) limit.

Definition list_page (c : ResourceCatalog) (group version kind : string)
    (namespace : option string) (after : option ResourceKey) (limit : Z) : ListPage :=
  page c (mkListScope group version kind namespace) after limit.

Definition list_page_at_revision (c : ResourceCatalog) (s : ListScope)
    (after : option ResourceKey) (limit : Z) : PageAtRevision :=
  cloned_at (page c s after limit) (revision_of c).

(** One entry of a selection as it was at a past revision. *)
Module AsOf.
Inductive t : Type :=
  | Live (v : json) (meta : VersionMeta)
  | Undone (v : json) (by_ : Change).

Definition value (a : t) : json := match a with Live v _ | Undone v _ => v end.
End AsOf.

(** Undo one change. *)
Definition undo (selects : ResourceKey -> bool) (state : btmap ResourceKey AsOf.t) (ch : Change)
  : btmap ResourceKey AsOf.t :=
  if negb (selects (key ch)) then state
  else
    match prior ch with
    | Some v => bt_insert (key ch) (AsOf.Undone v ch) state
    | None => bt_remove (key ch) state
    end.

Definition rewind (present : list (ResourceKey * (json * VersionMeta))) (newer : list Change)
    (selects : ResourceKey -> bool) : btmap ResourceKey AsOf.t :=
  fold_left (undo selects) (rev newer)
    (bt_of_list (map (fun e => (e.1, AsOf.Live e.2.1 e.2.2)) present)).

Inductive MetaFidelity : Type := Exact | ModRevisionFloor.

Record HistoricalEntry : Type := mkHistoricalEntry {
  entry_value : json;
  entry_meta : VersionMeta;
  fidelity : MetaFidelity
}.

Definition historical_entry (floor : Revision) (a : AsOf.t) : HistoricalEntry :=
  match a with
  | AsOf.Live v meta => mkHistoricalEntry v meta Exact
  | AsOf.Undone v by_ =>
      mkHistoricalEntry v
        (mkVersionMeta (create_revision (version_meta by_)) floor 1) ModRevisionFloor
  end.

(** The second pass of [state_at]: a retained change gives exact metadata. *)
Definition refine_meta (state : btmap ResourceKey HistoricalEntry) (ch : Change)
  : btmap ResourceKey HistoricalEntry :=
  match bt_get (key ch) state with
  | Some e => bt_insert (key ch) (mkHistoricalEntry (entry_value e) (version_meta ch) Exact) state
  | None => state
  end.

Definition state_at (c : ResourceCatalog) (rv : Revision)
  : result (btmap ResourceKey HistoricalEntry) CompactedTooOld :=
  let? w := split (history c) rv in
  let state := bt_map_values (fun _ => historical_entry (floor (history c)))
                 (rewind (resources c) w.2 (fun _ => true)) in
  Ok (fold_left refine_meta w.1 state).

Definition get_at (c : ResourceCatalog) (k : ResourceKey) (rv : Revision)
  : result (option HistoricalEntry) CompactedTooOld :=
  result_map (bt_get k) (state_at c rv).

Definition read_point (c : ResourceCatalog) (consistency : ReadConsistency.t)
  : result ReadPoint.t ReadRefused.t :=
  judge consistency (head (history c)) (floor (history c)).

(** [since(rev)?], with the refusal as a [ReadRefused]. *)
Definition newer_than (c : ResourceCatalog) (rv : Revision)
  : result (list Change) ReadRefused.t :=
  match since (history c) rv with
  | Ok l => Ok l
  | Err e => Err (refused_of_compacted e)
  end.

Definition after_bound (after : option ResourceKey) : bound ResourceKey :=
  match after with Some k => Excluded k | None => Unbounded end.

Definition read_page (c : ResourceCatalog) (s : ListScope) (after : option ResourceKey)
    (limit : Z) (consistency : ReadConsistency.t) : result PageAtRevision ReadRefused.t :=
  match run_of s (unreadable c) None with
  | (_, entry) :: _ => Err (ReadRefused.SecretUnreadable (fault entry))
  | [] =>
      let? p := read_point c consistency in
      match p with
      | ReadPoint.Head => Ok (list_page_at_revision c s after limit)
      | ReadPoint.Past rv =>
          let? newer := newer_than c rv in
          let past := rewind (run_of s (resources c) None) newer (contains s) in
          let run := map (fun e => (e.1, AsOf.value e.2))
                       (default [] (bt_range (after_bound after) Unbounded past)) in
          Ok (cloned_at (page_of run limit) rv)
      end
  end.

Definition read_one (c : ResourceCatalog) (k : ResourceKey) (consistency : ReadConsistency.t)
  : result (option json) ReadRefused.t :=
  match secret_fault c k with
  | Some f => Err (ReadRefused.SecretUnreadable f)
  | None =>
      let? p := read_point c consistency in
      match p with
      | ReadPoint.Head => Ok (get c k)
      | ReadPoint.Past rv =>
          let? newer := newer_than c rv in
          let present := match bt_get k (resources c) with Some e => [(k, e)] | None => [] end in
          Ok (AsOf.value <$> bt_get k (rewind present newer (fun changed => eqb changed k)))
      end
  end.

Definition len (c : ResourceCatalog) : nat := length (resources c).
Definition is_empty (c : ResourceCatalog) : bool :=
  match resources c with [] => true | _ => false end.

Definition secret_faults (c : ResourceCatalog) (s : ListScope) : list (ResourceKey * SealFault.t) :=
  map (fun e => (e.1, fault e.2)) (run_of s (unreadable c) None).

Definition all_secret_faults (c : ResourceCatalog) : list (ResourceKey * SealFault.t) :=
  map (fun e => (e.1, fault e.2)) (unreadable c).

Definition has_unreadable (c : ResourceCatalog) : bool :=
  match unreadable c with [] => false | _ => true end.

Definition holds_open_sealed_kind (c : ResourceCatalog) : bool :=
  existsb (fun e => is_sealed_kind e.1) (resources c).

(** ** The stored image *)

Record CatalogRepr : Type := mkCatalogRepr {
  repr_resources : list (ResourceKey * (json * VersionMeta));
  repr_term : Z;
  repr_index : Z;
  current_revision : Revision;
  repr_compacted : Revision
}.

(** [render] every live value, stopping at the first failure. *)
Fixpoint render_all {E} (render : ResourceKey -> json -> result json E)
    (l : list (ResourceKey * (json * VersionMeta)))
  : result (list (ResourceKey * (json * VersionMeta))) E :=
  match l with
  | [] => Ok []
  | (k, (v, m)) :: l =>
      let? v' := render k v in
      let? rest := render_all render l in
      Ok ((k, (v', m)) :: rest)
  end.

Definition repr {E} (c : ResourceCatalog) (render : ResourceKey -> json -> result json E)
  : result CatalogRepr E :=
  let? live := render_all render (resources c) in
  let all :=
    match unreadable c with
    | [] => live
    | _ => sort_by (fun a b => leb a.1 b.1)
             (live ++ map (fun e => (e.1, sealed e.2)) (unreadable c))%list
    end in
  Ok (mkCatalogRepr all (last_applied_term c) (last_applied_index c)
        (head (history c)) (floor (history c))).

Definition plain_render (k : ResourceKey) (v : json) : result json Empty_set := Ok v.

Definition serialize (c : ResourceCatalog) : result CatalogRepr Empty_set := repr c plain_render.

Definition to_rest_repr `{Sealer} (c : ResourceCatalog) : result CatalogRepr SealFault.t :=
  repr c (fun k v => if seals && is_sealed_kind k then seal_value k v else Ok v).

(** One entry of the image lands in one of the two maps. *)
Definition load_entry (acc : btmap ResourceKey (json * VersionMeta) * btmap ResourceKey Unreadable)
    (e : ResourceKey * (json * VersionMeta)) :=
  if is_envelope e.2.1
  then (acc.1, bt_insert e.1 (mkUnreadable e.2 SealFault.Unopened) acc.2)
  else (bt_insert e.1 e.2 acc.1, acc.2).

Definition deserialize (h : CatalogRepr) : ResourceCatalog :=
  let '(res, unr) := fold_left load_entry (repr_resources h) ([], []) in
  mkResourceCatalog res (repr_term h) (repr_index h)
    (loaded_at (current_revision h) DEFAULT_HISTORY_CAPACITY) unr.

(** One sealed entry: opened into the live map, or kept with the reason. *)
Definition open_entry `{Sealer}
    (acc : btmap ResourceKey (json * VersionMeta) * btmap ResourceKey Unreadable)
    (e : ResourceKey * Unreadable) :=
  let envelope := default "" (as_str (sealed e.2).1) in
  match open_value e.1 envelope with
  | Ok v => (bt_insert e.1 (v, (sealed e.2).2) acc.1, acc.2)
  | Err f => (acc.1, bt_insert e.1 (mkUnreadable (sealed e.2) f) acc.2)
  end.

Definition open_sealed `{Sealer} (c : ResourceCatalog) : ResourceCatalog :=
  let '(res, unr) := fold_left open_entry (unreadable c) (resources c, []) in
  mkResourceCatalog res (last_applied_term c) (last_applied_index c) (history c) unr.
