(* ===== verification/SsaFacts.v ===== *)
(** * Properties of server-side apply

    The ownership trie as a set of paths ([subtract] is set difference), its
    [FieldsV1] round trip, and the interpreter: an unforced apply is refused
    exactly on a conflict, a forced apply takes every applied path from the
    other managers, and values stay well formed. *)

From Stdlib Require Import Sorted Ascii.
From stdpp Require Import base tactics option list strings numbers pretty.
From S2P Require Import Prelude Text BTreeMap Json Resource Command PatchApply.
From S2P Require Import PatchFacts Ssa.

Local Open Scope string_scope.
Local Open Scope Z_scope.

(** ** Induction on tries *)

Section FieldSetInd.
Variable P : FieldSet -> Prop.
Hypothesis Hnode : forall o cs, Forall (fun e => P e.2.2) cs -> P (mkFieldSet o cs).

Fixpoint fieldset_nested_ind (s : FieldSet) : P s :=
  match s with
  | mkFieldSet o cs =>
      Hnode o cs ((fix go cs : Forall (fun e => P e.2.2) cs :=
        match cs with
        | [] => Forall_nil_2 _
        | e :: cs => Forall_cons_2 _ _ _ (fieldset_nested_ind e.2.2) (go cs)
        end) cs)
  end.
End FieldSetInd.

Section Trie.
Context `{SerdeJson}.

Definition enc (p : list PathElement.t) : list string := map to_fields_v1_key p.

(** Every node's children are sorted and filed under their own [FieldsV1] key,
    and each element satisfies [Q]. *)
#[warnings="-register-all"]
Inductive fs_ok (Q : PathElement.t -> Prop) : FieldSet -> Prop :=
  fs_ok_node o cs :
    bt_sorted cs ->
    Forall (fun e => e.1 = to_fields_v1_key e.2.1 /\ Q e.2.1 /\ fs_ok Q e.2.2) cs ->
    fs_ok Q (mkFieldSet o cs).

Lemma fs_ok_inv Q s :
  fs_ok Q s ->
  bt_sorted (children s) /\
  Forall (fun e => e.1 = to_fields_v1_key e.2.1 /\ Q e.2.1 /\ fs_ok Q e.2.2) (children s).
Proof. by destruct 1. Qed.

Lemma fs_ok_new Q : fs_ok Q fs_new.
Proof. constructor; constructor. Qed.

Lemma mark_owned_ok Q s : fs_ok Q s -> fs_ok Q (mark_owned s).
Proof. intros [Hs Hf]%fs_ok_inv. by constructor. Qed.

Lemma child_of_ok Q s el c : fs_ok Q s -> child_of s el = Some c -> fs_ok Q c.
Proof.
  intros [Hs Hf]%fs_ok_inv. unfold child_of.
  destruct (bt_get _ (children s)) as [[el' c']|] eqn:G; [| done]. intros [= <-].
  apply bt_get_In in G; [| done]. rewrite List.Forall_forall in Hf. by apply Hf in G as (_ & _ & ?).
Qed.

Lemma set_child_ok Q s el c : Q el -> fs_ok Q s -> fs_ok Q c -> fs_ok Q (set_child s el c).
Proof.
  intros Hq [Hs Hf]%fs_ok_inv Hc. constructor; [by apply bt_insert_sorted |].
  apply bt_insert_Forall; [| done]. simpl.
  destruct (bt_get _ (children s)) as [[el' c']|] eqn:G; [| done]. simpl.
  apply bt_get_In in G; [| done]. rewrite List.Forall_forall in Hf.
  apply Hf in G as (Hk & Hq' & _). simpl in *. done.
Qed.

Lemma drop_child_ok Q s el : fs_ok Q s -> fs_ok Q (drop_child s el).
Proof.
  intros [Hs Hf]%fs_ok_inv. constructor; [by apply bt_remove_sorted | by apply bt_remove_Forall].
Qed.

Lemma with_child_ok Q s el f :
  Q el -> (forall c, fs_ok Q c -> fs_ok Q (f c)) -> fs_ok Q s -> fs_ok Q (with_child s el f).
Proof.
  intros Hq Hf Hs. apply set_child_ok; [done.. |]. apply Hf.
  destruct (child_of s el) eqn:E; [by eapply child_of_ok | apply fs_ok_new].
Qed.

(** *** Children by key *)

Lemma child_set_child s el el' c :
  child_of (set_child s el c) el' =
  if eqb (to_fields_v1_key el') (to_fields_v1_key el) then Some c else child_of s el'.
Proof.
  unfold child_of, set_child. simpl. destruct (eqb _ _) eqn:E.
  - apply eqb_sound in E. rewrite E, bt_get_insert_eq. done.
  - apply eqb_false in E. by rewrite bt_get_insert_ne.
Qed.

Lemma child_drop_child Q s el el' :
  fs_ok Q s ->
  child_of (drop_child s el) el' =
  if eqb (to_fields_v1_key el') (to_fields_v1_key el) then None else child_of s el'.
Proof.
  intros [Hs _]%fs_ok_inv. unfold child_of, drop_child. simpl. destruct (eqb _ _) eqn:E.
  - apply eqb_sound in E. by rewrite E, bt_get_remove_eq.
  - apply eqb_false in E. by rewrite bt_get_remove_ne.
Qed.

Lemma owns_empty s p : fs_is_empty s = true -> owns s p = false.
Proof.
  destruct s as [o cs]. unfold fs_is_empty. simpl. intros E. bool_to_prop. subst.
  destruct cs; [| done]. by destruct p.
Qed.

(** *** Removing a path *)

Lemma remove_owned_path_ok Q p s : fs_ok Q s -> fs_ok Q (remove_owned_path s p).
Proof.
  revert s. induction p as [|el p IH]; intros s Hs; simpl.
  - apply fs_ok_inv in Hs as [Hs Hf]. by constructor.
  - destruct (child_of s el) as [c|] eqn:E; [| done].
    pose proof (child_of_ok _ _ _ _ Hs E) as Hc. case_match; [by apply drop_child_ok |].
    apply fs_ok_inv in Hs as [Hs Hf]. unfold child_of in E.
    destruct (bt_get _ (children s)) as [[el' c']|] eqn:G; [| done].
    constructor; [by apply bt_insert_sorted |]. apply bt_insert_Forall; [| done].
    simpl. rewrite G. simpl. apply bt_get_In in G; [| done]. rewrite List.Forall_forall in Hf.
    apply Hf in G as (Hk & Hq & _). simpl in *. auto.
Qed.

Lemma owns_remove_owned_path Q p q s :
  fs_ok Q s ->
  owns (remove_owned_path s p) q = owns s q && negb (eqb (enc q) (enc p)).
Proof.
  revert q s. induction p as [|el p IH]; intros q s Hs; cbn [remove_owned_path].
  - destruct q as [|e q]; cbn [owns]; [by rewrite eqb_refl, andb_false_r |].
    change (child_of (mkFieldSet false (children s)) e) with (child_of s e).
    rewrite (proj2 (eqb_false _ _)) by done. by rewrite andb_true_r.
  - destruct (child_of s el) as [c|] eqn:E.
    + pose proof (child_of_ok _ _ _ _ Hs E) as Hc.
      assert (forall e q', eqb (enc (e :: q')) (enc (el :: p)) =
        eqb (to_fields_v1_key e) (to_fields_v1_key el) && eqb (enc q') (enc p)) as Heq.
      { intros e q'. apply Bool.eq_iff_eq_true. rewrite andb_true_iff, !eqb_true. simpl.
        split; [by intros [= ? ?] | intros [-> ->]; done]. }
      destruct q as [|e q].
      { rewrite (proj2 (eqb_false _ _)), andb_true_r by done. by case_match. }
      rewrite Heq. specialize (IH q c Hc). simpl owns.
      destruct (fs_is_empty (remove_owned_path c p)) eqn:Em; simpl.
      * rewrite (child_drop_child _ _ _ _ Hs). apply (owns_empty _ q) in Em. rewrite IH in Em.
        destruct (eqb (to_fields_v1_key e) _) eqn:Ek; simpl; [| by rewrite andb_true_r].
        apply eqb_sound in Ek. unfold child_of in *. rewrite Ek, E. simpl. done.
      * rewrite child_set_child.
        destruct (eqb (to_fields_v1_key e) _) eqn:Ek; simpl; [| by rewrite andb_true_r].
        apply eqb_sound in Ek. unfold child_of in *. rewrite Ek, E. simpl. done.
    + destruct q as [|e q]; [by rewrite (proj2 (eqb_false _ _)), andb_true_r by done |].
      simpl. destruct (eqb (_ :: _) _) eqn:Ek; simpl; [| by rewrite andb_true_r].
      apply eqb_sound in Ek. injection Ek as Ek _. unfold child_of in *. by rewrite Ek, E.
Qed.

(** *** Paths of a trie *)

Lemma collect_paths_prefix s pre :
  collect_paths s pre = map (app pre) (collect_paths s []).
Proof.
  revert pre. induction s as [o cs IH] using fieldset_nested_ind. intros pre. simpl.
  rewrite map_app. f_equal; [destruct o; simpl; by rewrite ?app_nil_r |].
  induction IH as [|[k [el c]] cs Hc _ IHcs]; simpl; [done |]. simpl in Hc.
  rewrite map_app, IHcs, (Hc (pre ++ [el])%list), (Hc [el]), map_map.
  f_equal. apply map_ext. intros p. by rewrite <- app_assoc.
Qed.

Lemma owned_paths_node o cs :
  owned_paths (mkFieldSet o cs) =
  ((if o then [[]] else []) ++
   flat_map (fun e => map (cons e.2.1) (owned_paths e.2.2)) cs)%list.
Proof.
  unfold owned_paths. simpl. f_equal.
  induction cs as [|[k [el c]] cs IH]; simpl; [done |].
  by rewrite IH, (collect_paths_prefix c [el]).
Qed.

(** The listed paths are the owned ones, up to their encoding. *)
Lemma owns_owned_paths Q s p :
  fs_ok Q s -> owns s p = true <-> exists q, In q (owned_paths s) /\ enc q = enc p.
Proof.
  revert p. induction s as [o cs IH] using fieldset_nested_ind. intros p Hok.
  apply fs_ok_inv in Hok as [Hs Hf]. simpl in Hs, Hf. rewrite owned_paths_node.
  setoid_rewrite in_app_iff. setoid_rewrite in_flat_map. setoid_rewrite in_map_iff.
  rewrite List.Forall_forall in IH, Hf. destruct p as [|e p]; simpl owns.
  - split; [intros ->; exists []; split; [left; by left | done] |].
    intros (q & [Hq | (? & _ & ? & <- & _)] & Hqe); [| done]. destruct o; [done | by destruct Hq].
  - unfold child_of. simpl children. split.
    + destruct (bt_get _ cs) as [[el c]|] eqn:G; [| done]. simpl. intros Ho.
      apply bt_get_In in G; [| done]. destruct (Hf _ G) as (Hk & _ & Hc). simpl in *.
      apply (IH _ G p Hc) in Ho as (q & Hq & Hqe). exists (el :: q). split.
      * right. exists (to_fields_v1_key e, (el, c)). split; [done |]. by exists q.
      * simpl. by rewrite Hqe, <- Hk.
    + intros (q & [Hq | ([k [el c]] & Hin & q' & <- & Hq)] & Hqe).
      { destruct o; [| done]. by destruct Hq as [<- | []]. }
      destruct (Hf _ Hin) as (Hk & _ & Hc). simpl in *. injection Hqe as He Hqe.
      rewrite <- He, <- Hk. rewrite (proj2 (bt_get_In k (el, c) cs Hs) Hin). simpl.
      apply (IH _ Hin p Hc). by exists q'.
Qed.

Lemma subtract_fold Q ps s q :
  fs_ok Q s ->
  fs_ok Q (fold_left remove_owned_path ps s) /\
  owns (fold_left remove_owned_path ps s) q =
  owns s q && forallb (fun p => negb (eqb (enc q) (enc p))) ps.
Proof.
  revert s. induction ps as [|p ps IH]; intros s Hs; simpl; [by rewrite andb_true_r |].
  destruct (IH _ (remove_owned_path_ok _ p _ Hs)) as [Hok Ho]. split; [done |].
  rewrite Ho, (owns_remove_owned_path _ _ _ _ Hs). by rewrite andb_assoc.
Qed.

Lemma subtract_ok Q s r : fs_ok Q s -> fs_ok Q (subtract s r).
Proof. intros Hs. by apply (subtract_fold Q (owned_paths r) s []). Qed.

Lemma owns_subtract Q R s r p :
  fs_ok Q s -> fs_ok R r -> owns (subtract s r) p = owns s p && negb (owns r p).
Proof.
  intros Hs Hr. unfold subtract. rewrite (proj2 (subtract_fold Q (owned_paths r) s p Hs)). f_equal.
  apply Bool.eq_iff_eq_true. rewrite forallb_forall, negb_true_iff.
  pose proof (owns_owned_paths R r p Hr) as Ho. split.
  - intros Hall. destruct (owns r p); [| done].
    destruct (proj1 Ho eq_refl) as (q & Hq & He). specialize (Hall q Hq).
    by rewrite He, eqb_refl in Hall.
  - intros Hn q Hq. apply negb_true_iff, eqb_false. intros He.
    rewrite (proj2 Ho) in Hn; [done |]. by exists q.
Qed.

(** *** Elements that survive the wire *)

Definition decodable (el : PathElement.t) : Prop :=
  from_fields_v1_key (to_fields_v1_key el) = Some el.

Lemma parse_usize_pretty z : Word.is_u64 z -> parse_usize (pretty z) = Some z.
Proof. apply parse_unsigned_pretty. Qed.

Lemma parse_usize_range s z : parse_usize s = Some z -> Word.is_u64 z.
Proof. intros Hp. by apply parse_unsigned_range in Hp. Qed.

Lemma decodable_field name : decodable (PathElement.Field name).
Proof. done. Qed.

Lemma decodable_index i : Word.is_u64 i -> decodable (PathElement.Index i).
Proof.
  intros Hi. unfold decodable, from_fields_v1_key. cbn [to_fields_v1_key].
  change (strip_prefix "f:" ("i:" ++ pretty i)) with (@None string).
  change (strip_prefix "k:" ("i:" ++ pretty i)) with (@None string).
  change (strip_prefix "v:" ("i:" ++ pretty i)) with (@None string).
  rewrite strip_prefix_app. by rewrite parse_usize_pretty.
Qed.

Context `{!SerdeJsonLaws}.

Lemma decodable_value v : wf_json v = true -> decodable (PathElement.Value v).
Proof.
  intros Hv. unfold decodable, from_fields_v1_key. cbn [to_fields_v1_key].
  change (strip_prefix "f:" ("v:" ++ json_text v)) with (@None string).
  change (strip_prefix "k:" ("v:" ++ json_text v)) with (@None string).
  rewrite strip_prefix_app. by rewrite parse_json_text.
Qed.

Lemma decodable_key keys : wf_json (JObject keys) = true -> decodable (PathElement.Key keys).
Proof.
  intros Hv. unfold decodable, from_fields_v1_key. cbn [to_fields_v1_key].
  change (strip_prefix "f:" ("k:" ++ json_text (JObject keys))) with (@None string).
  rewrite strip_prefix_app. by rewrite parse_json_text.
Qed.

Lemma from_key_decodable k el : from_fields_v1_key k = Some el -> decodable el.
Proof.
  unfold from_fields_v1_key at 1. repeat case_match; try done.
  - intros [= <-]. apply decodable_field.
  - destruct (parse_json s) as [v|] eqn:P; simpl; [| done]. apply parse_json_wf in P.
    destruct v; try done. simpl. intros [= <-]. by apply decodable_key.
  - destruct (parse_json s) as [v|] eqn:P; simpl; [| done]. apply parse_json_wf in P.
    intros [= <-]. by apply decodable_value.
  - destruct (parse_usize s) as [i|] eqn:P; simpl; [| done]. apply parse_usize_range in P.
    intros [= <-]. by apply decodable_index.
Qed.

Lemma fs_from_value_ok v : fs_ok decodable (fs_from_value v).
Proof.
  induction v as [| | | | | m IH] using json_nested_ind; try apply fs_ok_new. simpl.
  generalize (fs_ok_new decodable). generalize fs_new as s.
  induction IH as [|[k c] m Hc _ IHm]; intros s Hs; [done |]. apply IHm.
  destruct (eqb k "."); [by apply mark_owned_ok |].
  destruct (from_fields_v1_key k) as [el|] eqn:E; [| done].
  apply set_child_ok; [by eapply from_key_decodable | done | done].
Qed.

(** *** The round trip *)

Fixpoint value_fields (cs : list (string * (PathElement.t * FieldSet))) (obj : btmap string json) :=
  match cs with
  | [] => obj
  | (_, (el, c)) :: cs => value_fields cs (bt_insert (to_fields_v1_key el) (fs_to_value c) obj)
  end.

Lemma fs_to_value_node o cs :
  fs_to_value (mkFieldSet o cs) = JObject (value_fields cs (if o then [(".", JObject [])] else [])).
Proof. done. Qed.

Lemma key_after_dot el : "." ≺ to_fields_v1_key el.
Proof. by destruct el. Qed.

Lemma value_fields_append cs m :
  bt_sorted cs -> Forall (fun e => e.1 = to_fields_v1_key e.2.1) cs ->
  Forall (fun e => Forall (fun f => f.1 ≺ e.1) m) cs ->
  value_fields cs m = (m ++ map (fun e => (e.1, fs_to_value e.2.2)) cs)%list.
Proof.
  revert m. induction cs as [|[k [el c]] cs IH]; intros m Hs Hk Hb; simpl.
  - by rewrite app_nil_r.
  - apply bt_sorted_cons in Hs as [Hs Hlt]. inversion Hk as [|? ? Hk1 Hk2]; subst.
    inversion Hb as [|? ? Hb1 Hb2]; subst. simpl in *. subst k.
    rewrite (bt_insert_last _ _ m Hb1), IH; [by rewrite <- app_assoc | done | done |].
    rewrite List.Forall_forall in *. intros e He. apply Forall_app. split; [by apply Hb2 |].
    constructor; [by apply (Hlt e He) | constructor].
Qed.

(** The loop of [fs_from_value] over the members of an object. *)
Fixpoint parse_fields (obj : list (string * json)) (s : FieldSet) : FieldSet :=
  match obj with
  | [] => s
  | (k, c) :: obj =>
      parse_fields obj
        (if eqb k "." then mark_owned s
         else match from_fields_v1_key k with
              | Some el => set_child s el (fs_from_value c)
              | None => s
              end)
  end.

Lemma fs_from_value_object m : fs_from_value (JObject m) = parse_fields m fs_new.
Proof.
  simpl. generalize fs_new as s. induction m as [|[k c] m IH]; intros s; simpl; [done |].
  by rewrite IH.
Qed.

Lemma set_child_last s el c :
  Forall (fun e => e.1 ≺ to_fields_v1_key el) (children s) ->
  set_child s el c =
  mkFieldSet (self_owned s) (children s ++ [(to_fields_v1_key el, (el, c))])%list.
Proof.
  intros Hf. unfold set_child. rewrite bt_insert_last by done.
  destruct (bt_get _ (children s)) as [e|] eqn:G; [| done].
  assert (bt_get (to_fields_v1_key el) (children s) = None) as Hn; [| congruence].
  clear G. induction Hf as [|[k v] cs Hk _ IH]; [done |]. simpl in *.
  apply cmp_gt in Hk. by rewrite Hk.
Qed.

Lemma parse_fields_append cs s :
  bt_sorted cs ->
  Forall (fun e => e.1 = to_fields_v1_key e.2.1 /\ decodable e.2.1 /\
                   fs_from_value (fs_to_value e.2.2) = e.2.2) cs ->
  Forall (fun e => Forall (fun f => f.1 ≺ e.1) (children s)) cs ->
  parse_fields (map (fun e => (e.1, fs_to_value e.2.2)) cs) s =
  mkFieldSet (self_owned s) (children s ++ cs)%list.
Proof.
  revert s. induction cs as [|[k [el c]] cs IH]; intros s Hs Hk Hb; simpl.
  - rewrite app_nil_r. by destruct s.
  - apply bt_sorted_cons in Hs as [Hs Hlt]. inversion Hk as [|? ? (Hk1 & Hd & Hrt) Hk2]; subst.
    inversion Hb as [|? ? Hb1 Hb2]; subst. simpl in *. subst k.
    rewrite (proj2 (eqb_false _ _)) by (intros E; by pose proof (lt_ne _ _ (key_after_dot el))).
    rewrite Hd, Hrt, set_child_last by done.
    rewrite IH; simpl; [by rewrite <- app_assoc | done | done |].
    rewrite List.Forall_forall in *. intros e He. apply Forall_app. split; [by apply Hb2 |].
    constructor; [by apply (Hlt e He) | constructor].
Qed.

Lemma fs_round_trip s : fs_ok decodable s -> fs_from_value (fs_to_value s) = s.
Proof.
  induction s as [o cs IH] using fieldset_nested_ind. intros [Hs Hf]%fs_ok_inv. simpl in Hs, Hf.
  assert (Forall (fun e => e.1 = to_fields_v1_key e.2.1 /\ decodable e.2.1 /\
    fs_from_value (fs_to_value e.2.2) = e.2.2) cs) as Hcs.
  { rewrite List.Forall_forall in *. intros e He. destruct (Hf e He) as (? & ? & ?).
    split_and!; [done.. |]. by apply IH. }
  rewrite fs_to_value_node, fs_from_value_object, value_fields_append; [| done | |].
  - destruct o; simpl app; cbn [parse_fields]; rewrite ?eqb_refl; rewrite parse_fields_append;
      try done; by apply List.Forall_forall.
  - eapply Forall_weaken; [exact Hf |]. by intros e (? & _).
  - eapply Forall_weaken; [exact Hf |]. intros e (-> & _). destruct o; constructor; [| constructor].
    apply key_after_dot.
Qed.

(** *** The claimed fields *)

Context `{PatchSchemaEnv}.

(** The loop of [build_fieldset] over the members of an object. *)
Definition build_field (gvk : Gvk) (path : JsonPath) (k : string) (v : json) (out : FieldSet)
  : FieldSet :=
  if match path with [] => eqb k "metadata" | _ => false end then
    let out' := with_child out (PathElement.Field k)
      (fun child_ =>
         match v with
         | JObject m => build_metadata_fieldset (build_fieldset gvk) (child path k) m child_
         | _ => child_
         end) in
    if is_some_and fs_is_empty (child_of out' (PathElement.Field k))
    then drop_child out' (PathElement.Field k) else out'
  else with_child out (PathElement.Field k) (build_fieldset gvk v (child path k)).

Definition build_fields (gvk : Gvk) (path : JsonPath)
  : list (string * json) -> FieldSet -> FieldSet :=
  fix go obj out :=
    match obj with
    | [] => out
    | (k, v) :: obj => go obj (build_field gvk path k v out)
    end.

Lemma build_fieldset_object gvk e obj path out :
  build_fieldset gvk (JObject (e :: obj)) path out = build_fields gvk path (e :: obj) out.
Proof. reflexivity. Qed.

Lemma build_metadata_ok rec path m out :
  Forall (fun e => forall path out, fs_ok decodable out -> fs_ok decodable (rec e.2 path out)) m ->
  fs_ok decodable out -> fs_ok decodable (build_metadata_fieldset rec path m out).
Proof.
  intros Hm. revert out. induction Hm as [|[k v] m Hv _ IH]; intros out Ho; [done |].
  simpl. apply IH. case_match; [done |].
  apply with_child_ok; [apply decodable_field | intros c; apply Hv | done].
Qed.

Lemma key_tuple_wf keys obj :
  wf_json (JObject obj) = true -> wf_json (JObject (key_tuple keys obj)) = true.
Proof.
  intros Hw. unfold key_tuple. generalize wf_json_empty. generalize (@nil (string * json)) as t.
  induction keys as [|k keys IH]; intros t Ht; simpl; [done |]. apply IH.
  destruct (bt_get k obj) as [v|] eqn:E; [| done].
  apply wf_json_insert; [| done]. by apply (wf_json_get k (JObject obj)).
Qed.

Lemma build_list_ok rec strat path arr out :
  Forall (fun el => wf_json el = true /\
    forall path out, fs_ok decodable out -> fs_ok decodable (rec el path out)) arr ->
  fs_ok decodable out -> fs_ok decodable (build_list_fieldset rec strat path arr out).
Proof.
  intros Ha. destruct strat as [| keys | keys |].
  1: by destruct arr; apply mark_owned_ok.
  all: revert out; induction Ha as [|el arr [Hw Hel] _ IH]; intros out Ho; [done |]; simpl; apply IH.
  all: try (destruct el; (apply with_child_ok; [| | exact Ho]);
            try (by apply decodable_value); try (by intros; apply mark_owned_ok);
            try (by apply decodable_key, key_tuple_wf); by intros; apply Hel).
Qed.

Lemma build_fieldset_ok gvk node : forall path out,
  wf_json node = true -> fs_ok decodable out -> fs_ok decodable (build_fieldset gvk node path out).
Proof.
  cut ((forall path out, wf_json node = true -> fs_ok decodable out ->
          fs_ok decodable (build_fieldset gvk node path out)) /\
       (forall m, node = JObject m -> Forall (fun e => wf_json e.2 = true -> forall path out,
          fs_ok decodable out -> fs_ok decodable (build_fieldset gvk e.2 path out)) m));
    [by intros [] |].
  induction node as [| | | | l IH | m IH] using json_nested_ind;
    try (split; [intros; by apply mark_owned_ok | done]).
  - split; [| done]. intros path out Hw Ho. simpl. apply build_list_ok; [| done].
    apply wf_json_array in Hw. rewrite List.Forall_forall in *. intros el Hin.
    split; [by apply Hw |]. intros p o. apply IH; [done | by apply Hw].
  - split.
    + intros path out Hw Ho. destruct m as [|e0 m]; [by apply mark_owned_ok |].
      rewrite build_fieldset_object. apply wf_json_object in Hw as [_ Hw].
      revert out Ho. generalize (e0 :: m) IH Hw. clear IH Hw e0 m. intros l IH Hw.
      induction IH as [|[k v] l [Hv Hm] _ IHl]; intros out Ho; [done |]. simpl.
      inversion Hw as [|? ? Hwv Hwl]; subst. simpl in *. apply IHl; [done |]. unfold build_field.
      case_match; [| apply with_child_ok; [apply decodable_field | intros; by apply Hv | done]].
      assert (fs_ok decodable (with_child out (PathElement.Field k) (fun child_ =>
        match v with
        | JObject m => build_metadata_fieldset (build_fieldset gvk) (child path k) m child_
        | _ => child_ end))) as Hok.
      { apply with_child_ok; [apply decodable_field | | done]. intros c Hc.
        destruct v as [| | | | | m]; try done. apply build_metadata_ok; [| done].
        specialize (Hm m eq_refl). apply wf_json_object in Hwv as [_ Hwv].
        rewrite List.Forall_forall in *. intros e He. apply Hm; auto. }
      cbv zeta. destruct (is_some_and fs_is_empty _); [by apply drop_child_ok | exact Hok].
    + intros m' [= <-]. rewrite List.Forall_forall in *. intros e He Hwe p o.
      by apply (proj1 (IH e He)).
Qed.

Lemma fieldset_of_ok config gvk : wf_json config = true -> fs_ok decodable (fieldset_of config gvk).
Proof. intros. by apply build_fieldset_ok; [| apply fs_ok_new]. Qed.

(** *** Which fields a configuration applies, from its text *)

(** A key tuple: the merge keys an element carries, with their values. *)
Definition carries (keys : list string) (obj tuple : btmap string json) : Prop :=
  bt_sorted tuple /\ forall k v, bt_get k tuple = Some v <-> In k keys /\ bt_get k obj = Some v.

(** [applies gvk path node p]: at [path], [node] sets the field [p] below it.  The
    metadata the server owns is not applied, a list that is replaced is one field,
    and the elements of another list are addressed by value or by merge keys. *)
#[warnings="-register-all"]
Inductive applies (gvk : Gvk) : JsonPath -> json -> list PathElement.t -> Prop :=
  | applies_scalar path v :
      (forall l, v <> JArray l) -> (forall m, v <> JObject m) -> applies gvk path v []
  | applies_empty path : applies gvk path (JObject []) []
  | applies_field path m k v p :
      In (k, v) m -> path <> root \/ k <> "metadata" -> applies gvk (path ++ [k])%list v p ->
      applies gvk path (JObject m) (PathElement.Field k :: p)
  | applies_metadata m meta k v p :
      In ("metadata", JObject meta) m -> In (k, v) meta -> ~ In k APISERVER_OWNED_METADATA ->
      applies gvk ["metadata"; k] v p ->
      applies gvk root (JObject m) (PathElement.Field "metadata" :: PathElement.Field k :: p)
  | applies_replaced path l :
      merge_strategy gvk path = ListMergeStrategy.Replace -> applies gvk path (JArray l) []
  | applies_member path l v :
      merge_strategy gvk path = ListMergeStrategy.Set_ -> In v l ->
      applies gvk path (JArray l) [PathElement.Value v]
  | applies_keyed path keys l obj tuple p :
      merge_strategy gvk path = ListMergeStrategy.MergeByKey keys \/
      merge_strategy gvk path = ListMergeStrategy.MergeByKeyRetainKeys keys ->
      In (JObject obj) l -> carries keys obj tuple -> applies gvk path (JObject obj) p ->
      applies gvk path (JArray l) (PathElement.Key tuple :: p)
  | applies_unkeyed path keys l v :
      merge_strategy gvk path = ListMergeStrategy.MergeByKey keys \/
      merge_strategy gvk path = ListMergeStrategy.MergeByKeyRetainKeys keys ->
      In v l -> (forall m, v <> JObject m) -> applies gvk path (JArray l) [PathElement.Value v].

Lemma key_tuple_carries keys obj : bt_sorted obj -> carries keys obj (key_tuple keys obj).
Proof.
  intros Hs. unfold key_tuple, carries.
  assert (forall t, bt_sorted t -> (forall k v, bt_get k t = Some v -> bt_get k obj = Some v) ->
    let t' := fold_left (fun tuple k => match bt_get k obj with Some v => bt_insert k v tuple | None => tuple end) keys t in
    bt_sorted t' /\ forall k v, bt_get k t' = Some v <-> bt_get k t = Some v \/ In k keys /\ bt_get k obj = Some v) as Hgen.
  { induction keys as [|k keys IH]; intros t Ht Hsub; cbn [fold_left]; [naive_solver |].
    destruct (bt_get k obj) as [x |] eqn:Ek.
    - destruct (IH (bt_insert k x t)) as [G1 G2]; [by apply bt_insert_sorted | |].
      { intros k' v'. destruct (decide (k' = k)) as [-> | Hne]; [rewrite bt_get_insert_eq; congruence |].
        rewrite bt_get_insert_ne by done. apply Hsub. }
      split; [done |]. intros k' v'. rewrite G2. destruct (decide (k' = k)) as [-> | Hne].
      + rewrite bt_get_insert_eq. specialize (Hsub k v'). simpl. naive_solver.
      + rewrite bt_get_insert_ne by done. simpl. naive_solver.
    - destruct (IH t Ht Hsub) as [G1 G2]. split; [done |]. intros k' v'. rewrite G2. simpl. naive_solver. }
  destruct (Hgen [] ltac:(by constructor) ltac:(done)) as [G1 G2]. split; [done |]. intros k v. rewrite G2. naive_solver.
Qed.

Lemma carries_unique keys obj t t' : carries keys obj t -> carries keys obj t' -> t = t'.
Proof.
  intros [Hs Ht] [Hs' Ht']. apply bt_ext; [done | done |]. intros k.
  destruct (bt_get k t) as [v |] eqn:E.
  - apply Ht in E. symmetry. by apply Ht'.
  - destruct (bt_get k t') as [v |] eqn:E'; [| done]. apply Ht', Ht in E'. congruence.
Qed.

(** [f] gains to a set exactly the paths of [L]. *)
Definition gains (f : FieldSet -> FieldSet) (L : list PathElement.t -> Prop) : Prop :=
  forall out, fs_ok decodable out -> fs_ok decodable (f out) /\
    forall p, owns (f out) p = true <-> owns out p = true \/ exists q, L q /\ enc q = enc p.

Lemma gains_ext f L M : gains f L -> (forall q, L q <-> M q) -> gains f M.
Proof. intros Hf HLM out Ho. destruct (Hf out Ho) as [G1 G2]. split; [done |]. intros p. rewrite G2. by setoid_rewrite HLM. Qed.

Lemma gains_none : gains (fun s => s) (fun _ => False).
Proof. intros out Ho. split; [done |]. naive_solver. Qed.

Lemma gains_mark : gains mark_owned (fun q => q = []).
Proof.
  intros out Ho. split; [by apply mark_owned_ok |]. intros [|el p]; simpl.
  - split; [| done]. intros _. right. by exists [].
  - split; [by left |]. intros [Hp | (q & -> & Hq)]; [done | done].
Qed.

Lemma gains_seq f g L M : gains f L -> gains g M -> gains (fun s => g (f s)) (fun q => L q \/ M q).
Proof.
  intros Hf Hg out Ho. destruct (Hf out Ho) as [Ho1 Hf1]. destruct (Hg _ Ho1) as [Ho2 Hg1]. split; [done |].
  intros p. rewrite Hg1, Hf1. naive_solver.
Qed.

Lemma owns_with_child s el f p :
  owns (with_child s el f) p =
  match p with
  | [] => owns s []
  | el' :: p' => if eqb (to_fields_v1_key el') (to_fields_v1_key el)
                 then owns (f (default fs_new (child_of s el))) p' else owns s p
  end.
Proof.
  destruct p as [|el' p]; [done |]. cbn [owns]. unfold with_child. rewrite child_set_child. by destruct (eqb _ _).
Qed.

Lemma owns_child s el p : owns (default fs_new (child_of s el)) p = owns s (el :: p).
Proof. cbn [owns]. destruct (child_of s el); [done |]. cbn. by destruct p. Qed.

Lemma gains_child el f L :
  decodable el -> gains f L -> gains (fun s => with_child s el f) (fun q => exists p, q = el :: p /\ L p).
Proof.
  intros Hel Hf out Ho.
  assert (fs_ok decodable (default fs_new (child_of out el))) as Hc.
  { destruct (child_of out el) eqn:E; [by eapply child_of_ok | apply fs_ok_new]. }
  destruct (Hf _ Hc) as [Hfo Hfp]. split; [by apply set_child_ok |].
  intros p. rewrite owns_with_child. destruct p as [|el' p].
  - split; [by left |]. intros [Hp | (q & (p & -> & _) & Hq)]; done.
  - destruct (eqb (to_fields_v1_key el') (to_fields_v1_key el)) eqn:E.
    + apply eqb_sound in E. rewrite Hfp, owns_child. cbn [owns]. unfold child_of at 1. rewrite <- E.
      fold (child_of out el'). split.
      * intros [Hp | (q & Hq & He)]; [by left |]. right. exists (el :: q). split; [by exists q |]. unfold enc in *. simpl. by rewrite E, He.
      * intros [Hp | (q & (p' & -> & Hl) & He)]; [by left |]. right. exists p'. split; [done |]. unfold enc in *. simpl in He. by injection He.
    + apply eqb_false in E. split; [by left |]. intros [Hp | (q & (p' & -> & Hl) & He)]; [done |].
      unfold enc in He. simpl in He. by injection He.
Qed.

(** Dropping a child that owns nothing owns the same. *)
Lemma owns_drop_empty s el p :
  fs_ok decodable s -> is_some_and fs_is_empty (child_of s el) = true -> owns (drop_child s el) p = owns s p.
Proof.
  intros Hs He. destruct p as [|el' p]; [done |]. cbn [owns]. rewrite (child_drop_child decodable) by done.
  destruct (eqb _ _) eqn:E; [| done]. apply eqb_sound in E.
  assert (child_of s el' = child_of s el) as Hch by (unfold child_of; by rewrite E). rewrite Hch.
  destruct (child_of s el) as [c |]; [| done]. cbn [is_some_and] in *. by rewrite (owns_empty c).
Qed.

Lemma gains_metadata rec path m (L : string * json -> list PathElement.t -> Prop) :
  Forall (fun e => gains (rec e.2 (child path e.1)) (L e)) m ->
  gains (build_metadata_fieldset rec path m)
    (fun q => exists e p, In e m /\ ~ In e.1 APISERVER_OWNED_METADATA /\ q = PathElement.Field e.1 :: p /\ L e p).
Proof.
  induction 1 as [|[k v] m Hv _ IH]; [eapply gains_ext; [apply gains_none | naive_solver] |].
  cbn [build_metadata_fieldset]. destruct (existsb (eqb k) APISERVER_OWNED_METADATA) eqn:E.
  - eapply gains_ext; [exact IH |]. intros q. apply existsb_exists in E as (k' & Hin & Hk). apply eqb_sound in Hk as <-.
    split; [intros (e & p & ?); exists e, p; naive_solver |]. intros (e & p & [<- | He] & Hn & Hq); [done | eauto].
  - assert (~ In k APISERVER_OWNED_METADATA) as Hk.
    { intros Hin. apply not_true_iff_false in E. apply E, existsb_exists. exists k. split; [done | apply eqb_refl]. }
    eapply gains_ext; [apply (gains_seq _ _ _ _ (gains_child (PathElement.Field k) _ _ (decodable_field k) Hv) IH) |].
    intros q. split.
    + intros [(p & -> & Hp) | (e & p & He & ?)]; [exists (k, v), p; split_and!; auto; by left | exists e, p; naive_solver].
    + intros (e & p & [<- | He] & Hn & -> & Hp); [left; eauto | right; exists e, p; auto].
Qed.

Lemma list_applies gvk path l q :
  Forall (fun v => wf_json v = true) l ->
  match merge_strategy gvk path with
  | ListMergeStrategy.Replace => q = []
  | ListMergeStrategy.Set_ => exists v, In v l /\ q = [PathElement.Value v]
  | ListMergeStrategy.MergeByKey keys | ListMergeStrategy.MergeByKeyRetainKeys keys =>
      exists v, In v l /\
        match v with
        | JObject obj => exists p, q = PathElement.Key (key_tuple keys obj) :: p /\ applies gvk path v p
        | _ => q = [PathElement.Value v]
        end
  end <-> applies gvk path (JArray l) q.
Proof.
  intros Hl. rewrite List.Forall_forall in Hl. split.
  - destruct (merge_strategy gvk path) as [| keys | keys |] eqn:E.
    + intros ->. by apply applies_replaced.
    + intros (v & Hin & Hv). specialize (Hl v Hin). destruct v as [| | | | | obj];
        try (subst q; by apply (applies_unkeyed gvk path keys); [left | |]).
      destruct Hv as (p & -> & Hp). apply (applies_keyed gvk path keys l obj); [by left | done | | done].
      apply key_tuple_carries. by apply wf_sorted.
    + intros (v & Hin & Hv). specialize (Hl v Hin). destruct v as [| | | | | obj];
        try (subst q; by apply (applies_unkeyed gvk path keys); [right | |]).
      destruct Hv as (p & -> & Hp). apply (applies_keyed gvk path keys l obj); [by right | done | | done].
      apply key_tuple_carries. by apply wf_sorted.
    + intros (v & Hin & ->). by apply applies_member.
  - assert (forall keys obj t p, In (JObject obj) l -> carries keys obj t ->
      PathElement.Key t :: p = PathElement.Key (key_tuple keys obj) :: p) as Ht.
    { intros keys obj t p Hin Hc. do 2 f_equal. eapply carries_unique; [exact Hc |].
      apply key_tuple_carries, wf_sorted. by apply Hl. }
    inversion 1 as [? v Hn | | | | ? ? E | ? ? v E Hin | ? keys ? obj t p E Hin Hc Hp | ? keys ? v E Hin Hn]; subst.
    + by destruct (Hn l).
    + by rewrite E.
    + rewrite E. eauto.
    + destruct E as [-> | ->]; exists (JObject obj); (split; [done |]); exists p; (split; [by apply Ht | done]).
    + destruct E as [-> | ->]; exists v; (split; [done |]); destruct v; try done; by destruct (Hn m).
Qed.

Lemma enc_inj p q : Forall decodable p -> Forall decodable q -> enc p = enc q -> p = q.
Proof.
  intros Hp. revert q. induction Hp as [|a p Ha _ IH]; intros q Hq He; destruct q as [|b q]; try done.
  apply List.Forall_cons_iff in Hq as [Hb Hq]. unfold enc in He. simpl in He. injection He as Hab He.
  f_equal; [| by apply IH]. unfold decodable in *. rewrite Hab in Ha. congruence.
Qed.

Lemma owned_decodable s p : fs_ok decodable s -> In p (owned_paths s) -> Forall decodable p.
Proof.
  revert p. induction s as [o cs IH] using fieldset_nested_ind. intros p Hok Hp.
  apply fs_ok_inv in Hok as [_ Hf]. simpl in Hf. rewrite owned_paths_node in Hp. apply in_app_iff in Hp as [Hp | Hp].
  - destruct o; [| done]. by destruct Hp as [<- | []].
  - apply in_flat_map in Hp as (e & He & Hp). apply in_map_iff in Hp as (p' & <- & Hp').
    rewrite List.Forall_forall in IH, Hf. destruct (Hf e He) as (_ & Hd & Hok). constructor; [done |].
    by apply (IH e He).
Qed.

Lemma carries_wf keys obj t : wf_json (JObject obj) = true -> carries keys obj t -> wf_json (JObject t) = true.
Proof.
  intros Hw Hc. rewrite (carries_unique keys obj t (key_tuple keys obj) Hc); [by apply key_tuple_wf |].
  by apply key_tuple_carries, wf_sorted.
Qed.

Lemma applies_decodable gvk path v p : wf_json v = true -> applies gvk path v p -> Forall decodable p.
Proof.
  intros Hw Ha. induction Ha as [path v | path | path m k v p Hin _ _ IH | m meta k v p Hin Hin' _ _ IH
    | path l | path l v _ Hin | path keys l obj t p _ Hin Hc _ IH | path keys l v _ Hin].
  1,2,5: constructor.
  - apply wf_json_object in Hw as [_ Hw]. rewrite List.Forall_forall in Hw. constructor; [apply decodable_field |].
    apply IH. by apply (Hw (k, v)).
  - apply wf_json_object in Hw as [_ Hw]. rewrite List.Forall_forall in Hw. specialize (Hw _ Hin). simpl in Hw.
    apply wf_json_object in Hw as [_ Hw]. rewrite List.Forall_forall in Hw.
    constructor; [apply decodable_field |]. constructor; [apply decodable_field |]. apply IH. by apply (Hw (k, v)).
  - apply wf_json_array in Hw. rewrite List.Forall_forall in Hw. constructor; [by apply decodable_value, Hw | constructor].
  - apply wf_json_array in Hw. rewrite List.Forall_forall in Hw. specialize (Hw _ Hin).
    constructor; [by apply decodable_key, (carries_wf keys obj) | by apply IH].
  - apply wf_json_array in Hw. rewrite List.Forall_forall in Hw. constructor; [by apply decodable_value, Hw | constructor].
Qed.

Lemma gains_list rec strat path arr (L : json -> list PathElement.t -> Prop) :
  Forall (fun el => wf_json el = true /\ gains (rec el path) (L el)) arr ->
  gains (build_list_fieldset rec strat path arr)
    (fun q =>
       match strat with
       | ListMergeStrategy.Replace => q = []
       | ListMergeStrategy.Set_ => exists v, In v arr /\ q = [PathElement.Value v]
       | ListMergeStrategy.MergeByKey keys | ListMergeStrategy.MergeByKeyRetainKeys keys =>
           exists v, In v arr /\
             match v with
             | JObject obj => exists p, q = PathElement.Key (key_tuple keys obj) :: p /\ L v p
             | _ => q = [PathElement.Value v]
             end
       end).
Proof.
  assert (forall v, wf_json v = true -> gains (fun s => with_child s (PathElement.Value v) mark_owned) (fun q => q = [PathElement.Value v]))
    as Hval.
  { intros v Hv. eapply gains_ext; [apply (gains_child _ _ _ (decodable_value v Hv) gains_mark) |]. naive_solver. }
  intros Ha. destruct strat as [| keys | keys |].
  1: by destruct arr; apply gains_mark.
  all: induction Ha as [|el arr [Hw Hel] _ IH]; [eapply gains_ext; [apply gains_none | naive_solver] |].
  3: { cbn [build_list_fieldset]. eapply gains_ext; [apply (gains_seq _ _ _ _ (Hval el Hw) IH) |]. naive_solver. }
  all: cbn [build_list_fieldset]; eapply gains_ext;
    [refine (gains_seq (fun s => match el with
       | JObject obj => with_child s (PathElement.Key (key_tuple keys obj)) (rec el path)
       | _ => with_child s (PathElement.Value el) mark_owned end) _
       (fun q => match el with
         | JObject obj => exists p, q = PathElement.Key (key_tuple keys obj) :: p /\ L el p
         | _ => q = [PathElement.Value el] end) _ _ IH);
     destruct el; try (by apply Hval); apply (gains_child _ _ _ (decodable_key _ (key_tuple_wf keys _ Hw)) Hel)
    | naive_solver].
Qed.

(** What one member of an object gains. *)
Definition member_applies (gvk : Gvk) (path : JsonPath) (e : string * json) (q : list PathElement.t) : Prop :=
  (path <> root \/ e.1 <> "metadata") /\ (exists p, q = PathElement.Field e.1 :: p /\ applies gvk (path ++ [e.1])%list e.2 p) \/
  path = root /\ e.1 = "metadata" /\ exists meta k v p, e.2 = JObject meta /\ In (k, v) meta /\
    ~ In k APISERVER_OWNED_METADATA /\ applies gvk ["metadata"; k] v p /\
    q = PathElement.Field "metadata" :: PathElement.Field k :: p.

Lemma object_applies gvk path m q :
  applies gvk path (JObject m) q <->
  m = [] /\ q = [] \/ exists e, In e m /\ member_applies gvk path e q.
Proof.
  split.
  - intros Ha. inversion Ha; subst; try (by left); try (by destruct (H5 m)).
    + match goal with Hn : forall m', JObject m <> JObject m' |- _ => by destruct (Hn m) end.
    + right. eexists (_, _). split; [eassumption |]. left. split; [done |]. eauto.
    + right. eexists (_, _). split; [eassumption |]. right. split_and!; [done | done |]. eauto 12.
  - intros [[-> ->] | ([k v] & Hin & [[Hne (p & -> & Hp)] | (-> & Hk & meta & k' & v' & p & Hv & Hin' & Hn & Hp & ->)])].
    + apply applies_empty.
    + by eapply applies_field.
    + simpl in *. subst. by eapply applies_metadata.
Qed.

Lemma gains_field gvk path k v :
  wf_json v = true ->
  (forall path, gains (build_fieldset gvk v path) (applies gvk path v)) ->
  (forall m, v = JObject m -> Forall (fun e => forall path, gains (build_fieldset gvk e.2 path) (applies gvk path e.2)) m) ->
  gains (build_field gvk path k v) (member_applies gvk path (k, v)).
Proof.
  intros Hw Hv Hm. unfold build_field.
  destruct (match path with [] => eqb k "metadata" | _ => false end) eqn:Ek.
  - destruct path; [| done]. apply eqb_sound in Ek as ->. cbv zeta.
    assert (gains (fun out => with_child out (PathElement.Field "metadata") (fun child_ =>
      match v with
      | JObject m => build_metadata_fieldset (build_fieldset gvk) (child [] "metadata") m child_
      | _ => child_ end)) (member_applies gvk [] ("metadata", v))) as Hc.
    { destruct v as [| | | | | meta].
      6: { eapply gains_ext.
        - apply gains_child; [apply decodable_field |].
          apply (gains_metadata _ _ _ (fun e => applies gvk ["metadata"; e.1] e.2)).
          eapply Forall_impl; [exact (Hm meta eq_refl) |]. intros [k' v'] He. apply He.
        - intros q. unfold member_applies. cbn [fst snd]. split.
          + intros (p & -> & e & p' & Hin & Hn & -> & Ha). right. split_and!; [done | done |].
            exists meta, e.1, e.2, p'. split_and!; try done. by destruct e.
          + intros [[[? | ?] _] | (_ & _ & meta' & k' & v' & p & [= <-] & Hin & Hn & Ha & ->)]; [done | done |].
            eexists. split; [done |]. exists (k', v'), p. by split_and!. }
      all: eapply gains_ext; [apply (gains_child _ _ _ (decodable_field "metadata") gains_none) |].
      all: intros q; unfold member_applies; cbn [fst snd]; naive_solver. }
    intros out Ho. destruct (Hc out Ho) as [Hok Hp]. destruct (is_some_and fs_is_empty _) eqn:Ee; [| by split].
    split; [by apply drop_child_ok |]. intros p. by rewrite owns_drop_empty, Hp.
  - eapply gains_ext; [apply (gains_child _ _ _ (decodable_field k) (Hv (child path k))) |].
    assert (path <> root \/ k <> "metadata") as Hne.
    { destruct path; [right | by left]. by apply eqb_false in Ek. }
    intros q. unfold member_applies, child. cbn [fst snd]. split; [left; by split |].
    intros [[_ Hq] | (-> & -> & _)]; [done |]. by destruct Hne.
Qed.

Lemma build_gains gvk node : forall path,
  wf_json node = true -> gains (build_fieldset gvk node path) (applies gvk path node).
Proof.
  cut ((forall path, wf_json node = true -> gains (build_fieldset gvk node path) (applies gvk path node)) /\
       (forall m, node = JObject m -> wf_json node = true ->
          Forall (fun e => forall path, gains (build_fieldset gvk e.2 path) (applies gvk path e.2)) m));
    [by intros [] |].
  induction node as [| | | | l IH | m IH] using json_nested_ind.
  1-4: split; [| done]; intros path _; eapply gains_ext; [apply gains_mark |];
    intros q; split; [intros ->; by apply applies_scalar | by inversion 1].
  - split; [| done]. intros path Hw. cbn [build_fieldset]. apply wf_json_array in Hw.
    assert (Forall (fun el => wf_json el = true /\ gains (build_fieldset gvk el path) (applies gvk path el)) l) as Hl.
    { rewrite List.Forall_forall in *. intros el Hin. split; [by apply Hw |]. apply IH; [done | by apply Hw]. }
    eapply gains_ext; [apply (gains_list _ (merge_strategy gvk path) path l (applies gvk path) Hl) |].
    intros q. by apply list_applies.
  - split.
    + intros path Hw. destruct m as [|e0 m].
      { eapply gains_ext; [apply gains_mark |]. intros q. rewrite object_applies. naive_solver. }
      apply (gains_ext _ (fun q => exists e, In e (e0 :: m) /\ member_applies gvk path e q)).
      2: { intros q. rewrite object_applies. split; [intros Hx; right; exact Hx | by intros [[? _] | ?]]. }
      change (build_fieldset gvk (JObject (e0 :: m)) path) with (build_fields gvk path (e0 :: m)).
      apply wf_json_object in Hw as [_ Hw]. revert IH Hw. generalize (e0 :: m). clear e0 m. intros l IH Hw.
      induction IH as [|[k v] l [Hv Hm] _ IHl]; [eapply gains_ext; [apply gains_none | naive_solver] |].
      apply List.Forall_cons_iff in Hw as [Hwv Hwl]. cbn [snd] in *.
      eapply gains_ext; [apply (gains_seq _ _ _ _ (gains_field gvk path k v Hwv (fun p => Hv p Hwv) (fun m Hq => Hm m Hq Hwv)) (IHl Hwl)) |].
      intros q. split; [intros [Hq | (e & Hin & Hq)]; [exists (k, v); split; [by left | done] | exists e; split; [by right | done]] |].
      intros (e & [<- | Hin] & Hq); [by left | right; eauto].
    + intros m' [= <-] Hw. apply wf_json_object in Hw as [_ Hw]. rewrite List.Forall_forall in *.
      intros e He p. apply (proj1 (IH e He)). by apply Hw.
Qed.

(** The paths of the set a configuration claims are the fields it applies. *)
Lemma fieldset_of_applies config gvk p :
  wf_json config = true -> In p (owned_paths (fieldset_of config gvk)) <-> applies gvk root config p.
Proof.
  intros Hw. pose proof (fieldset_of_ok config gvk Hw) as Hok. unfold fieldset_of in *.
  destruct (build_gains gvk config root Hw fs_new (fs_ok_new _)) as [_ Hb]. split.
  - intros Hin. assert (owns (build_fieldset gvk config root fs_new) p = true) as Ho.
    { apply (owns_owned_paths decodable); [done |]. by exists p. }
    apply Hb in Ho as [Ho | (q & Hq & He)]; [by destruct p |].
    replace p with q; [done |]. apply enc_inj; [by eapply applies_decodable | by eapply owned_decodable | done].
  - intros Ha. assert (owns (build_fieldset gvk config root fs_new) p = true) as Ho by (apply Hb; right; by exists p).
    apply (owns_owned_paths decodable) in Ho as (q & Hq & He); [| done].
    replace p with q; [done |]. apply enc_inj; [by eapply owned_decodable | by eapply applies_decodable | done].
Qed.

(** ** Well-formedness *)

Lemma fs_to_value_wf s : wf_json (fs_to_value s) = true.
Proof.
  induction s as [o cs IH] using fieldset_nested_ind. rewrite fs_to_value_node.
  assert (forall m, wf_json (JObject m) = true -> wf_json (JObject (value_fields cs m)) = true) as Hm;
    [| apply Hm; by destruct o].
  induction IH as [|[k [el c]] cs Hc _ IHcs]; intros m Hm; cbn [value_fields]; [done |].
  by apply IHcs, wf_json_insert.
Qed.

Lemma jobj_wf l : Forall (fun e => wf_json e.2 = true) l -> wf_json (jobj l) = true.
Proof.
  intros Hl. unfold jobj, bt_of_list. generalize wf_json_empty.
  generalize (@nil (string * json)) as m.
  induction Hl as [|e l He _ IH]; intros m Hm; cbn [fold_left]; [done |]. by apply IH, wf_json_insert.
Qed.

Lemma make_entry_wf m fs gvk t : wf_json (make_entry m fs gvk t) = true.
Proof. apply jobj_wf. repeat constructor. apply fs_to_value_wf. Qed.

Lemma jset_wf k v o : wf_json v = true -> wf_json o = true -> wf_json (jset k v o) = true.
Proof. destruct o; try done. apply wf_json_insert. Qed.

Lemma decode_entry_raw e d : decode_entry e = Some d -> raw d = e.
Proof.
  unfold decode_entry. destruct (jget "manager" e) as [m|]; simpl; [| done].
  destruct (as_str m); simpl; [| done]. by intros [= <-].
Qed.

Lemma read_managed_fields_In cur d :
  wf_json cur = true -> In d (read_managed_fields cur) ->
  decode_entry (raw d) = Some d /\ wf_json (raw d) = true.
Proof.
  intros Hc. unfold read_managed_fields.
  destruct (jget "metadata" cur) as [meta|] eqn:E1; simpl; [| done].
  destruct (jget "managedFields" meta) as [mf|] eqn:E2; simpl; [| done].
  destruct mf as [| | | | arr |]; simpl; try done.
  rewrite <- list_elem_of_In, list_elem_of_omap. intros (e & He & Hd).
  rewrite (decode_entry_raw _ _ Hd). split; [done |].
  apply (wf_json_get _ _ _ Hc), (fun w => wf_json_get _ _ _ w E2), wf_json_array in E1.
  rewrite List.Forall_forall in E1. by apply E1, list_elem_of_In.
Qed.

Lemma update_ownership_wf entries m fs force gvk t :
  Forall (fun d => wf_json (raw d) = true) entries ->
  Forall (fun v => wf_json v = true) (update_ownership entries m fs force gvk t).
Proof.
  intros He. unfold update_ownership. apply Forall_app. split.
  - apply Forall_forall. intros v Hv. apply list_elem_of_omap in Hv as (d & Hd & Hu).
    rewrite Forall_forall in He. specialize (He d Hd). revert Hu. unfold update_entry.
    repeat case_match; intros [= <-]; auto using make_entry_wf, jset_wf, fs_to_value_wf.
  - case_match; constructor; [apply make_entry_wf | constructor].
Qed.

Lemma set_managed_fields_wf o f :
  wf_json o = true -> wf_json f = true -> wf_json (set_managed_fields o f) = true.
Proof.
  intros Ho Hf. destruct o as [| | | | | m]; try done. cbn [set_managed_fields].
  destruct (bt_get "metadata" m) as [meta|] eqn:E; simpl default.
  - apply (wf_json_get "metadata" (JObject m)) in E; [| done].
    destruct meta; try done. by apply wf_json_insert; [apply wf_json_insert |].
  - by apply wf_json_insert; [apply wf_json_insert |].
Qed.

Lemma filter_wf p (l : list json) :
  Forall (fun v => wf_json v = true) l -> Forall (fun v => wf_json v = true) (List.filter p l).
Proof. rewrite !List.Forall_forall. intros Hl v. rewrite filter_In. naive_solver. Qed.

Lemma remove_leaf_step_wf node el :
  wf_json node = true -> wf_json (remove_leaf_step node el) = true.
Proof.
  intros Hn. destruct el, node; try done; cbn [remove_leaf_step].
  - by apply wf_json_remove.
  - apply wf_json_array, filter_wf. by apply wf_json_array.
  - apply wf_json_array, filter_wf. by apply wf_json_array.
  - case_match; [| done]. rewrite wf_json_array in *. by apply Forall_delete.
Qed.

Lemma remove_rec_wf path node : wf_json node = true -> wf_json (remove_rec node path).1 = true.
Proof.
  revert node. induction path as [|el [|el2 path] IH]; intros node Hn; [done | |].
  - by apply remove_leaf_step_wf.
  - assert (forall name, wf_json (match jget name node with
      | None => (node, false)
      | Some c => (jset name (remove_rec c (el2 :: path)).1 node,
                   is_empty_container (jset name (remove_rec c (el2 :: path)).1 node)) end).1 = true)
      as Hfield.
    { intros name. destruct (jget name node) as [c|] eqn:E; [| done]. simpl fst.
      apply jset_wf; [| done]. apply IH. by eapply wf_json_get. }
    assert (forall o, wf_json (match o, node with
      | Some idx, JArray arr =>
          match arr !! idx with
          | Some c => let '(c, e) := remove_rec c (el2 :: path) in
              let node := JArray (if e then delete idx arr else <[idx := c]> arr) in
              (node, is_empty_container node)
          | None => (node, false) end
      | _, _ => (node, false) end).1 = true) as Hlist.
    { intros [idx|]; [| done]. destruct node as [| | | | arr |]; try done.
      destruct (arr !! idx) as [c|] eqn:L; [| done]. rewrite wf_json_array in Hn.
      assert (wf_json c = true) as Hc by (rewrite Forall_lookup in Hn; eauto).
      specialize (IH c Hc). destruct (remove_rec c (el2 :: path)) as [c' e]. cbn [fst] in *.
      destruct e; apply wf_json_array; [by apply Forall_delete | by apply Forall_insert]. }
    destruct el; [apply Hfield | apply Hlist..].
Qed.

Lemma remove_dropped_wf v m fs entries :
  wf_json v = true -> wf_json (remove_dropped v m fs entries) = true.
Proof.
  unfold remove_dropped. cbv zeta.
  generalize (owned_paths (match List.find (fun e => eqb (entry_manager e) m &&
    eqb (operation e) ManagedOp.Apply) entries with Some e => fields e | None => fs_new end)) as ps.
  intros ps. revert v. induction ps as [|p ps IH]; intros v Hv; simpl; [done |]. apply IH.
  repeat case_match; try done. by apply remove_rec_wf.
Qed.

Lemma apply_ssa_wf cur config m force gvk t out :
  (forall v, cur = Some v -> wf_json v = true) -> wf_json config = true ->
  apply_ssa cur config m force gvk t = Ok out -> wf_json (SsaOutcome.merged out) = true.
Proof.
  intros Hcur Hc. unfold apply_ssa. destruct cur as [cur|].
  - specialize (Hcur cur eq_refl). case_match; [done |]. intros [= <-]. simpl.
    apply set_managed_fields_wf; [apply remove_dropped_wf |].
    + destruct (strategic_merge gvk cur config root) as [r|] eqn:S; simpl; [| done].
      by apply (strategic_wf gvk config cur root).
    + apply wf_json_array, update_ownership_wf, List.Forall_forall. intros d Hd.
      by apply (read_managed_fields_In cur).
  - intros [= <-]. simpl. apply set_managed_fields_wf; [done |].
    apply wf_json_array. constructor; [apply make_entry_wf | constructor].
Qed.

(** ** Conflicts *)

Lemma dedup_In {A} `{EqDecision A} (l : list A) y : In y (dedup l) <-> In y l.
Proof.
  induction l as [|x [|z l] IH]; [done | done |].
  change (dedup (x :: z :: l)) with (if eqb x z then dedup (z :: l) else x :: dedup (z :: l)).
  destruct (eqb x z) eqn:E; [apply eqb_sound in E; subst | simpl in *]; simpl in *; naive_solver.
Qed.

(** *** What a conflict is *)

(** [marks s p]: the set holds the path [p]. *)
#[warnings="-register-all"]
Inductive marks : FieldSet -> list PathElement.t -> Prop :=
  | marks_here cs : marks (mkFieldSet true cs) []
  | marks_below o cs k el c p : In (k, (el, c)) cs -> marks c p -> marks (mkFieldSet o cs) (el :: p).

Lemma owned_marks s p : In p (owned_paths s) <-> marks s p.
Proof.
  split.
  - revert p. induction s as [o cs IH] using fieldset_nested_ind. intros p. rewrite owned_paths_node.
    rewrite List.Forall_forall in IH. intros [Hp | Hp]%in_app_iff.
    + destruct o; [| done]. destruct Hp as [<- | []]. apply marks_here.
    + apply in_flat_map in Hp as ([k [el c]] & He & Hp). apply in_map_iff in Hp as (p' & <- & Hp').
      eapply marks_below; [exact He |]. by apply (IH _ He).
  - induction 1 as [cs | o cs k el c p Hin _ IH]; rewrite owned_paths_node; apply in_app_iff; [by left; left |].
    right. apply in_flat_map. exists (k, (el, c)). split; [done |]. by apply in_map.
Qed.

Lemma owns_marks s p : fs_ok decodable s -> Forall decodable p -> owns s p = true <-> marks s p.
Proof.
  intros Hs Hp. rewrite (owns_owned_paths decodable), <- owned_marks by done. split.
  - intros (q & Hq & He). replace p with q; [done |]. apply enc_inj; [by eapply owned_decodable | done | done].
  - intros Hq. by exists p.
Qed.

(** [found v p x]: the value of the field [p] of [v] is [x]; list elements are
    looked up by their place, by value, or as the first that has the given keys. *)
#[warnings="-register-all"]
Inductive found : json -> list PathElement.t -> json -> Prop :=
  | found_here v : found v [] v
  | found_field m k v p x : bt_get k m = Some v -> found v p x -> found (JObject m) (PathElement.Field k :: p) x
  | found_index l i v p x :
      i < Z.of_nat (length l) -> l !! Z.to_nat i = Some v -> found v p x -> found (JArray l) (PathElement.Index i :: p) x
  | found_member l v p x : In v l -> found v p x -> found (JArray l) (PathElement.Value v :: p) x
  | found_keyed l1 v l2 keys p x :
      (forall k y, In (k, y) keys -> jget k v = Some y) ->
      (forall v', In v' l1 -> exists k y, In (k, y) keys /\ jget k v' <> Some y) ->
      found v p x -> found (JArray (l1 ++ v :: l2)) (PathElement.Key keys :: p) x.

Lemma key_matches_exact keys v : key_matches keys v = true <-> forall k y, In (k, y) keys -> jget k v = Some y.
Proof.
  unfold key_matches. rewrite forallb_forall. split.
  - intros Hk k y Hin. exact (eqb_sound _ _ (Hk (k, y) Hin)).
  - intros Hk [k y] Hin. apply eqb_true. by apply Hk.
Qed.

Lemma key_matches_not keys v : key_matches keys v = false <-> exists k y, In (k, y) keys /\ jget k v <> Some y.
Proof.
  split.
  - unfold key_matches. induction keys as [|[k y] keys IH]; [done |]. cbn [forallb fst snd].
    destruct (eqb (jget k v) (Some y)) eqn:E; cbn [andb].
    + intros (k' & y' & Hin & Hne)%IH. exists k', y'. split; [by right | done].
    + intros _. exists k, y. split; [by left | by apply eqb_false in E].
  - intros (k & y & Hin & Hne). apply not_true_iff_false. rewrite key_matches_exact. intros Hk. by apply Hne, Hk.
Qed.

Lemma find_first {A} (f : A -> bool) l x :
  List.find f l = Some x <-> exists l1 l2, l = (l1 ++ x :: l2)%list /\ f x = true /\ forall y, In y l1 -> f y = false.
Proof.
  split.
  - induction l as [|y l IH]; [done |]. cbn [List.find]. destruct (f y) eqn:E.
    + intros [= ->]. by exists [], l.
    + intros (l1 & l2 & -> & Hx & Hl)%IH. exists (y :: l1), l2. split_and!; [done | done |]. intros z [<- | Hz]; auto.
  - intros (l1 & l2 & -> & Hx & Hl). induction l1 as [|y l1 IH]; cbn [app List.find]; [by rewrite Hx |].
    rewrite (Hl y) by (by left). apply IH. intros z Hz. apply Hl. by right.
Qed.

Lemma value_at_found v p x : value_at v p = Some x <-> found v p x.
Proof.
  split.
  - revert v. induction p as [|el p IH]; intros v; cbn [value_at]; [intros [= ->]; apply found_here |].
    destruct (step v el) as [w |] eqn:E; cbn [mbind option_bind]; [| done]. intros Hw%IH.
    destruct el as [k | keys | y | i]; cbn [step] in E.
    + destruct v; try done. by eapply found_field.
    + destruct v; try done. cbn in E. apply find_first in E as (l1 & l2 & -> & Hk & Hn).
      apply found_keyed; [by apply key_matches_exact | | done]. intros v' Hv'. apply key_matches_not. by apply Hn.
    + destruct v; try done. cbn in E. apply List.find_some in E as [Hin Hy]. apply eqb_sound in Hy as ->. by apply found_member.
    + destruct v; try done. cbn in E. unfold get_index in E. destruct (i <? _) eqn:Ei; [| done].
      eapply found_index; [lia | done | done].
  - induction 1 as [v | m k v p x Hk _ IH | l i v p x Hi Hv _ IH | l v p x Hin _ IH | l1 v l2 keys p x Hk Hn _ IH]; [done | | | |];
      cbn [value_at step as_array mbind option_bind].
    + cbn. by rewrite Hk.
    + unfold get_index. replace (i <? _) with true by lia. by rewrite Hv.
    + destruct (List.find _ l) as [w |] eqn:E; cbn [mbind option_bind].
      * apply List.find_some in E as [_ Hw]. apply eqb_sound in Hw as ->. done.
      * pose proof (List.find_none _ _ E v Hin) as Hv. simpl in Hv. by rewrite eqb_refl in Hv.
    + replace (List.find _ _) with (Some v); [done |]. symmetry. apply find_first. exists l1, l2.
      split_and!; [done | by apply key_matches_exact |]. intros v' Hv'. by apply key_matches_not, Hn.
Qed.

(** The objects agree on a field: it has one value in both, or is in neither. *)
Definition agree (a b : json) (p : list PathElement.t) : Prop := forall x, found a p x <-> found b p x.

Lemma value_at_agree a b p : value_at a p = value_at b p <-> agree a b p.
Proof.
  unfold agree. setoid_rewrite <- value_at_found. split; [by intros -> |]. intros Hx.
  destruct (value_at a p) as [x |] eqn:Ea; [symmetry; by apply Hx |].
  destruct (value_at b p) as [x |] eqn:Eb; [| done]. specialize (Hx x). naive_solver.
Qed.

(** The ledger of [current] says that [mgr], another manager than [m], owns the
    field [p] by having applied it. *)
Definition owned_by_other (current : json) (m mgr : string) (p : list PathElement.t) : Prop :=
  exists meta entries e fields,
    jget "metadata" current = Some meta /\ jget "managedFields" meta = Some (JArray entries) /\ In e entries /\
    jget "manager" e = Some (JString mgr) /\ mgr <> m /\ jget "operation" e <> Some (JString "Update") /\
    jget "fieldsV1" e = Some fields /\ marks (fs_from_value fields) p.

Lemma read_managed_spec current d :
  In d (read_managed_fields current) <->
  exists meta entries, jget "metadata" current = Some meta /\ jget "managedFields" meta = Some (JArray entries) /\
    exists e, In e entries /\ decode_entry e = Some d.
Proof.
  unfold read_managed_fields. destruct (jget "metadata" current) as [meta |]; cbn [mbind option_bind]; [| naive_solver].
  destruct (jget "managedFields" meta) as [v |] eqn:Ev; cbn [mbind option_bind]; [| naive_solver].
  destruct v; cbn [as_array]; try naive_solver. rewrite <- list_elem_of_In, list_elem_of_omap. setoid_rewrite list_elem_of_In.
  naive_solver.
Qed.

Lemma owned_by_other_exact current m p mgr :
  Forall decodable p ->
  owned_by_other current m mgr p <->
  exists d, In d (read_managed_fields current) /\ is_other m d = true /\ owns (fields d) p = true /\ entry_manager d = mgr.
Proof.
  intros Hp. unfold owned_by_other. setoid_rewrite read_managed_spec. unfold is_other. split.
  - intros (meta & entries & e & f & Hmeta & Hent & Hin & Hm & Hne & Hop & Hf & Hmk).
    eexists (mkDecodedEntry mgr ManagedOp.Apply (fs_from_value f) e). split_and!.
    + exists meta, entries. split_and!; [done | done |]. exists e. split; [done |]. unfold decode_entry. rewrite Hm, Hf. cbn.
      do 2 f_equal. destruct (jget "operation" e) as [o |]; [| done]. cbn. destruct (as_str o) as [s |] eqn:Es; [| done].
      destruct o; try done. injection Es as ->. destruct (eqb s "Update") eqn:Eu; [| done]. apply eqb_sound in Eu as ->. done.
    + cbn [entry_manager operation]. rewrite eqb_refl, andb_true_r, negb_true_iff. by apply eqb_false.
    + cbn [fields]. apply owns_marks; [apply fs_from_value_ok | done | done].
    + done.
  - intros (d & (meta & entries & Hmeta & Hent & e & Hin & Hd) & Ho & Hown & <-). exists meta, entries, e.
    unfold decode_entry in Hd. destruct (jget "manager" e) as [v |] eqn:Em; cbn [mbind option_bind] in Hd; [| done].
    destruct (as_str v) as [s |] eqn:Es; cbn [mbind option_bind] in Hd; [| done].
    destruct v; try done. injection Es as ->. injection Hd as <-. cbn [entry_manager operation fields] in *. apply andb_true_iff in Ho as [Hne Hop].
    apply negb_true_iff, eqb_false in Hne. destruct (jget "fieldsV1" e) as [f |] eqn:Ef.
    + exists f. split_and!; try done; [| by apply owns_marks; [apply fs_from_value_ok | |]].
      intros Hu. rewrite Hu in Hop. cbn in Hop. done.
    + by destruct p.
Qed.

(** A conflict of [config], applied by [m], with [current]. *)
Definition conflicting (gvk : Gvk) (current config : json) (m : string) (c : Conflict) : Prop :=
  exists mgr p, applies gvk root config p /\ owned_by_other current m mgr p /\ ~ agree config current p /\
    c = mkConflict mgr (render_field_path p).

Lemma conflicts_of_In gvk current config m c :
  wf_json config = true ->
  In c (conflicts_of current config m (fieldset_of config gvk) (read_managed_fields current)) <->
  conflicting gvk current config m c.
Proof.
  intros Hw. unfold conflicts_of, conflicting. rewrite in_flat_map. split.
  - intros (p & Hp & Hc). apply fieldset_of_applies in Hp; [| done].
    rewrite <- list_elem_of_In, list_elem_of_omap in Hc. destruct Hc as (d & Hd & Hc).
    destruct (_ && _) eqn:E; [| done]. injection Hc as <-. apply andb_true_iff in E as [E Hv].
    apply andb_true_iff in E as [Ho Hown]. exists (entry_manager d), p. split_and!; try done.
    + apply owned_by_other_exact; [by eapply applies_decodable |]. exists d. split_and!; try done. by apply list_elem_of_In.
    + rewrite <- value_at_agree. by apply negb_true_iff, eqb_false in Hv.
  - intros (mgr & p & Hp & Ho & Hne & ->). exists p. split; [by apply fieldset_of_applies |].
    apply owned_by_other_exact in Ho as (d & Hd & Ho & Hown & <-); [| by eapply applies_decodable].
    rewrite <- list_elem_of_In, list_elem_of_omap. exists d. split; [by apply list_elem_of_In |].
    rewrite Ho, Hown. rewrite <- value_at_agree in Hne. apply eqb_false in Hne. by rewrite Hne.
Qed.

Lemma apply_ssa_refused current config m force gvk t cs :
  apply_ssa (Some current) config m force gvk t = Err cs <->
  force = false /\ cs <> [] /\
  cs = dedup (sort_by conflict_leb
         (conflicts_of current config m (fieldset_of config gvk) (read_managed_fields current))).
Proof.
  unfold apply_ssa. cbv zeta.
  destruct (conflicts_of _ _ _ _ _) as [|c l] eqn:E; simpl negb; simpl andb; cbv iota.
  - split; [done |]. by intros (_ & Hne & ->).
  - destruct force; simpl; [split; [done | by intros (? & _)] |].
    split; [| by intros (_ & _ & ->)]. intros [= <-]. split_and!; [done | | done].
    intros Hnil. enough (In c []) by done. rewrite <- Hnil.
    apply dedup_In, (sort_by_In conflict_leb (c :: l)). by left.
Qed.

(** ** Ownership *)

Lemma decode_make_entry m fs gvk t :
  fs_ok decodable fs ->
  decode_entry (make_entry m fs gvk t) =
  Some (mkDecodedEntry m ManagedOp.Apply fs (make_entry m fs gvk t)).
Proof.
  intros Hok. rewrite <- (fs_round_trip fs Hok) at 2. reflexivity.
Qed.

Lemma decode_entry_inv e d :
  decode_entry e = Some d ->
  exists o, e = JObject o /\ fs_ok decodable (fields d).
Proof.
  unfold decode_entry. destruct e as [| | | | | o]; try done.
  destruct (jget "manager" (JObject o)) as [m|]; simpl; [| done].
  destruct (as_str m); simpl; [| done]. intros [= <-]. exists o. split; [done |]. simpl.
  case_match; [apply fs_from_value_ok | apply fs_ok_new].
Qed.

Lemma decode_set_fields e d s :
  decode_entry e = Some d -> fs_ok decodable s ->
  decode_entry (jset "fieldsV1" (fs_to_value s) e) =
  Some (mkDecodedEntry (entry_manager d) (operation d) s (jset "fieldsV1" (fs_to_value s) e)).
Proof.
  intros Hd Hs. destruct (decode_entry_inv _ _ Hd) as (o & -> & _). revert Hd.
  unfold decode_entry. cbn [jset jget].
  rewrite (bt_get_insert_ne "manager"), (bt_get_insert_ne "operation") by done.
  rewrite bt_get_insert_eq, fs_round_trip by done.
  destruct (bt_get "manager" o) as [m|]; simpl; [| done].
  destruct (as_str m); simpl; [| done]. by intros [= <-].
Qed.

(** What one existing entry becomes under a forced apply. *)
Lemma forced_entry m fs gvk t d r :
  decode_entry (raw d) = Some d -> fs_ok decodable fs ->
  update_entry m fs true gvk t d = Some r ->
  exists d', decode_entry r = Some d' /\
    (is_other m d' = true -> entry_manager d' = entry_manager d /\
       forall p, owns (fields d') p = owns (fields d) p && negb (owns fs p)).
Proof.
  intros Hd Hfs. unfold update_entry. case_match eqn:E1; [| case_match eqn:E2].
  - intros [= <-]. eexists. split; [by apply decode_make_entry |].
    unfold is_other. simpl. by rewrite eqb_refl.
  - destruct (decode_entry_inv _ _ Hd) as (_ & _ & Hok).
    case_match; [done |]. intros [= <-]. eexists.
    split; [by apply decode_set_fields; [exact Hd | apply subtract_ok] |].
    intros _. split; [done |]. intros p. by apply (owns_subtract decodable decodable).
  - intros [= <-]. exists d. split; [done |]. unfold is_other. simpl in E2. rewrite E2.
    by rewrite andb_false_r.
Qed.

Lemma update_ownership_own entries m fs force gvk t :
  In (make_entry m fs gvk t) (update_ownership entries m fs force gvk t).
Proof.
  unfold update_ownership. apply in_app_iff.
  destruct (existsb _ entries) eqn:E; [left | right; by left].
  apply existsb_exists in E as (d & Hd & Hm). rewrite <- list_elem_of_In, list_elem_of_omap.
  exists d. split; [by apply list_elem_of_In |]. unfold update_entry. by rewrite Hm.
Qed.

Lemma forced_ownership current config m gvk t out :
  wf_json current = true -> wf_json config = true ->
  apply_ssa (Some current) config m true gvk t = Ok out ->
  exists arr, SsaOutcome.managed_fields out = JArray arr /\
    In (make_entry m (fieldset_of config gvk) gvk t) arr /\
    (forall r d', In r arr -> decode_entry r = Some d' -> is_other m d' = true ->
       exists d, In d (read_managed_fields current) /\ entry_manager d = entry_manager d' /\
         forall p, owns (fields d') p = owns (fields d) p && negb (owns (fieldset_of config gvk) p)).
Proof.
  intros Hcur Hc. unfold apply_ssa. cbv zeta. rewrite andb_false_r. intros [= <-]. simpl.
  pose proof (fieldset_of_ok config gvk Hc) as Hfs.
  eexists. split; [done |]. split; [apply update_ownership_own |].
  intros r d' Hin Hd' Ho. unfold update_ownership in Hin. apply in_app_iff in Hin as [Hin | Hin].
  - rewrite <- list_elem_of_In, list_elem_of_omap in Hin. destruct Hin as (d & Hd & Hu).
    apply list_elem_of_In in Hd. destruct (read_managed_fields_In _ _ Hcur Hd) as [Hdec _].
    destruct (forced_entry _ _ _ _ _ _ Hdec Hfs Hu) as (d2 & Hd2 & Hown).
    rewrite Hd' in Hd2. injection Hd2 as <-. destruct (Hown Ho) as [Hm Hp]. by exists d.
  - destruct (existsb _ _); [by destruct Hin |]. destruct Hin as [<- | []].
    rewrite decode_make_entry in Hd' by done. injection Hd' as <-.
    unfold is_other in Ho. simpl in Ho. by rewrite eqb_refl in Ho.
Qed.

End Trie.

(** ** Properties *)

(** The ownership trie behaves as a set of paths: subtracting one trie from
    another leaves exactly the paths of the first that the second does not own. *)
Theorem subtract_is_difference `{SerdeJson} Q R s r p :
  fs_ok Q s -> fs_ok R r -> owns (subtract s r) p = owns s p && negb (owns r p).
Proof. apply owns_subtract. Qed.

(** What an applied configuration owns survives the wire: written to
    [FieldsV1] and read back, the fieldset is the same. *)
Theorem fieldset_round_trip `{SerdeJsonLaws} `{PatchSchemaEnv} config gvk :
  wf_json config = true ->
  fs_from_value (fs_to_value (fieldset_of config gvk)) = fieldset_of config gvk.
Proof. intros. by apply fs_round_trip, fieldset_of_ok. Qed.

(** (C39) An apply to an existing object is refused exactly when it is not forced and
    some field the configuration sets is one that another manager's Apply entry of
    [managedFields] lists, and the object does not have the value the configuration
    gives it; the refusal names every such manager and field and nothing else. *)
Theorem ssa_refused_iff_conflict `{SerdeJsonLaws} `{PatchSchemaEnv} current config m force gvk t :
  wf_json config = true ->
  ((exists cs, apply_ssa (Some current) config m force gvk t = Err cs) <->
     force = false /\ exists c, conflicting gvk current config m c) /\
  (forall cs, apply_ssa (Some current) config m force gvk t = Err cs ->
     forall c, In c cs <-> conflicting gvk current config m c).
Proof.
  intros Hw. setoid_rewrite <- (conflicts_of_In gvk current config m _ Hw). split; [split |].
  - intros [cs (Hf & Hne & ->)%apply_ssa_refused]. split; [done |].
    destruct (dedup _) as [|c l] eqn:E; [done |]. exists c.
    apply (sort_by_In conflict_leb), dedup_In. rewrite E. by left.
  - intros (Hf & c & Hc). eexists. apply apply_ssa_refused. split_and!; [done | | done].
    intros Hnil. apply (sort_by_In conflict_leb), dedup_In in Hc. by rewrite Hnil in Hc.
  - intros cs (_ & _ & ->)%apply_ssa_refused c. by rewrite dedup_In, sort_by_In.
Qed.

(** A forced apply takes ownership: afterwards the manager's entry owns
    exactly what it applied, and every other apply-manager's entry owns what it
    owned before minus the applied paths. *)
Theorem ssa_force_takes_ownership `{SerdeJsonLaws} `{PatchSchemaEnv} current config m gvk t out :
  wf_json current = true -> wf_json config = true ->
  apply_ssa (Some current) config m true gvk t = Ok out ->
  exists arr, SsaOutcome.managed_fields out = JArray arr /\
    In (make_entry m (fieldset_of config gvk) gvk t) arr /\
    (forall r d', In r arr -> decode_entry r = Some d' -> is_other m d' = true ->
       exists d, In d (read_managed_fields current) /\ entry_manager d = entry_manager d' /\
         forall p, owns (fields d') p = owns (fields d) p && negb (owns (fieldset_of config gvk) p)).
Proof. apply forced_ownership. Qed.

(** *** Witnesses *)

Local Definition atomic_env : PatchSchemaEnv :=
  {| merge_strategy _ _ := ListMergeStrategy.Replace |}.

Local Definition replicas (n : Z) : json :=
  JObject [("spec", JObject [("replicas", JNumber (PosInt n))])].

Local Definition deployment : Gvk := mkGvk "apps" "v1" "Deployment".

(** The object manager [a] created by applying three replicas. *)
Definition sample_owned : json :=
  match @apply_ssa numbered atomic_env None (replicas 3) "a" false deployment "t0" with
  | Ok o => SsaOutcome.merged o
  | Err _ => JNull
  end.

Lemma subtract_is_difference_witness :
  let s := @fieldset_of numbered atomic_env (replicas 3) deployment in
  @owns numbered (@subtract numbered s s)
    [PathElement.Field "spec"; PathElement.Field "replicas"] = false.
Proof.
  intros s.
  rewrite (@subtract_is_difference numbered (@decodable numbered) (@decodable numbered) s s
    [PathElement.Field "spec"; PathElement.Field "replicas"]
    (@fieldset_of_ok numbered numbered_laws atomic_env (replicas 3) deployment eq_refl)
    (@fieldset_of_ok numbered numbered_laws atomic_env (replicas 3) deployment eq_refl)).
  apply andb_negb_r.
Defined.

Lemma fieldset_round_trip_witness :
  let s := @fieldset_of numbered atomic_env (replicas 3) deployment in
  @fs_from_value numbered (@fs_to_value numbered s) = s.
Proof.
  exact (@fieldset_round_trip numbered numbered_laws atomic_env (replicas 3) deployment eq_refl).
Defined.

Lemma ssa_refused_iff_conflict_witness :
  exists cs, @apply_ssa numbered atomic_env (Some sample_owned) (replicas 5) "b" false deployment
    "t1" = Err cs.
Proof.
  apply (proj1 (@ssa_refused_iff_conflict numbered numbered_laws atomic_env sample_owned (replicas 5) "b" false
    deployment "t1" eq_refl)).
  split; [reflexivity |]. exists (mkConflict "a" ".spec.replicas").
  refine (proj1 (@conflicts_of_In numbered numbered_laws atomic_env deployment sample_owned (replicas 5) "b" _ eq_refl) _).
  vm_compute. left. reflexivity.
Defined.

Lemma ssa_force_takes_ownership_witness :
  exists out arr,
    @apply_ssa numbered atomic_env (Some sample_owned) (replicas 5) "b" true deployment "t1" = Ok out /\
    SsaOutcome.managed_fields out = JArray arr /\ length arr = 1%nat.
Proof.
  destruct (@apply_ssa numbered atomic_env (Some sample_owned) (replicas 5) "b" true deployment "t1")
    as [out|] eqn:E; [| vm_compute in E; discriminate].
  destruct (@ssa_force_takes_ownership numbered numbered_laws atomic_env sample_owned (replicas 5)
    "b" deployment "t1" out eq_refl eq_refl E) as (arr & Harr & _).
  exists out, arr. split_and!; [reflexivity | exact Harr |].
  vm_compute in E. injection E as <-. vm_compute in Harr. injection Harr as <-. reflexivity.
Defined.
