(* ===== verification/CatalogMeta.v ===== *)
(** * Metadata the store owns

    Facts about the stamps of [state.rs]: what [with_metadata] writes and
    leaves alone, the identity fields, the generation rule, the shape of a
    minted uid, and when a rewrite leaves an object [unchanged]. *)

From Stdlib Require Import Sorted Ascii.
From stdpp Require Import base tactics option list strings numbers pretty.
From S2P Require Import Prelude BTreeMap Json Resource WatchHistory Command Read.
From S2P Require Import PatchApply PatchFacts Ssa SsaFacts Pagination Catalog.

Local Open Scope string_scope.
Local Open Scope Z_scope.

(** ** Writing through [metadata] *)

(** The object [metadata_mut] hands out. *)
Definition meta_of (v : json) : option (btmap string json) :=
  match v with
  | JObject m =>
      match default (JObject []) (bt_get "metadata" m) with JObject meta => Some meta | _ => None end
  | _ => None
  end.

Lemma with_metadata_none f v : meta_of v = None -> with_metadata f v = v.
Proof. destruct v as [| | | | | m]; try done. simpl. by case_match. Qed.

Lemma with_metadata_some f v meta :
  meta_of v = Some meta ->
  exists m, v = JObject m /\
    with_metadata f v = JObject (bt_insert "metadata" (JObject (f meta)) m).
Proof.
  destruct v as [| | | | | m]; try done. simpl. intros E. exists m.
  split; [done |]. by destruct (default (JObject []) (bt_get "metadata" m)); simplify_eq.
Qed.

Lemma meta_of_with_metadata f v : meta_of (with_metadata f v) = f <$> meta_of v.
Proof.
  destruct (meta_of v) as [meta|] eqn:E; [| by rewrite with_metadata_none].
  destruct (with_metadata_some f v meta E) as (m & -> & ->). simpl. by rewrite bt_get_insert_eq.
Qed.

Lemma with_metadata_compose f g v :
  with_metadata g (with_metadata f v) = with_metadata (fun m => g (f m)) v.
Proof.
  destruct (meta_of v) as [meta|] eqn:E; [| by rewrite !with_metadata_none by (by rewrite ?with_metadata_none)].
  destruct (with_metadata_some (fun m => g (f m)) v meta E) as (m & -> & ->).
  destruct (with_metadata_some f _ meta E) as (m' & [= <-] & ->).
  simpl. by rewrite bt_get_insert_eq; simpl; rewrite bt_insert_insert.
Qed.

Lemma jget_with_metadata f v k : k <> "metadata" -> jget k (with_metadata f v) = jget k v.
Proof.
  intros Hk. destruct (meta_of v) as [meta|] eqn:E; [| by rewrite with_metadata_none].
  destruct (with_metadata_some f v meta E) as (m & -> & ->). simpl. by rewrite bt_get_insert_ne.
Qed.

Lemma jget_metadata_with f v meta :
  meta_of v = Some meta -> jget "metadata" (with_metadata f v) = Some (JObject (f meta)).
Proof.
  intros E. destruct (with_metadata_some f v meta E) as (m & -> & ->). simpl.
  by rewrite bt_get_insert_eq.
Qed.

Lemma meta_of_wf v meta :
  wf_json v = true -> meta_of v = Some meta -> wf_json (JObject meta) = true.
Proof.
  destruct v as [| | | | | m]; try done. intros Hv. cbn [meta_of].
  destruct (bt_get "metadata" m) as [w|] eqn:E; simpl default; [| by intros [= <-]].
  apply (wf_json_get "metadata" (JObject m)) in E; [| done].
  destruct w; try done. by intros [= <-].
Qed.

Lemma with_metadata_wf f v :
  (forall meta, wf_json (JObject meta) = true -> wf_json (JObject (f meta)) = true) ->
  wf_json v = true -> wf_json (with_metadata f v) = true.
Proof.
  intros Hf Hv. destruct (meta_of v) as [meta|] eqn:E; [| by rewrite with_metadata_none].
  pose proof (meta_of_wf _ _ Hv E) as Hm.
  destruct (with_metadata_some f v meta E) as (m & -> & ->). by apply wf_json_insert; [apply Hf |].
Qed.

(** Reading one metadata field. *)
Definition meta_field (k : string) (v : json) : option json := jget "metadata" v ≫= jget k.

Lemma meta_field_meta_of k v : meta_field k v = meta_of v ≫= bt_get k.
Proof.
  unfold meta_field. destruct v as [| | | | | m]; try done. simpl.
  destruct (bt_get "metadata" m) as [[]|]; try done.
Qed.

Lemma prior_meta_field_spec v k : prior_meta_field (Some v) k = meta_field k v.
Proof. done. Qed.

Lemma has_finalizers_field v :
  has_finalizers v =
  is_some_and (fun a : list json => match a with [] => false | _ => true end)
    (meta_field "finalizers" v ≫= as_array).
Proof. unfold has_finalizers, meta_field. by destruct (jget "metadata" v). Qed.

Lemma deletion_timestamp_field v :
  deletion_timestamp_of v =
  meta_field "deletionTimestamp" v ≫= fun t => as_str t ≫= fun s =>
    if eqb s "" then None else Some s.
Proof. unfold deletion_timestamp_of, meta_field. by destruct (jget "metadata" v). Qed.

Lemma finalizers_released_ext v w :
  meta_field "finalizers" v = meta_field "finalizers" w ->
  meta_field "deletionTimestamp" v = meta_field "deletionTimestamp" w ->
  finalizers_released v = finalizers_released w.
Proof.
  intros Hf Hd. unfold finalizers_released.
  by rewrite !has_finalizers_field, !deletion_timestamp_field, Hf, Hd.
Qed.

(** ** The stamps *)

(** A stored value carries the revision it was written at. *)
Definition stamped (rev : Revision) (v : json) : Prop :=
  match meta_of v with
  | Some meta => bt_get "resourceVersion" meta = Some (JString (pretty rev))
  | None => True
  end.

Definition revision_stamp (rev : Revision) (gen : Z) (meta : btmap string json) : btmap string json :=
  bt_insert "generation" (JNumber (number_of_i64 gen))
    (bt_insert "resourceVersion" (JString (pretty rev)) meta).

Lemma stamp_revision_spec v rev gen :
  stamp_revision v rev gen = with_metadata (revision_stamp rev gen) v.
Proof. unfold stamp_revision, stamp_resource_version. by rewrite with_metadata_compose. Qed.

Lemma stamp_revision_stamped v rev gen : stamped rev (stamp_revision v rev gen).
Proof.
  unfold stamped. rewrite stamp_revision_spec, meta_of_with_metadata.
  destruct (meta_of v); simpl; [| done]. unfold revision_stamp.
  by rewrite bt_get_insert_ne, bt_get_insert_eq by done.
Qed.

Lemma stamp_resource_version_stamped v rev : stamped rev (stamp_resource_version v rev).
Proof.
  unfold stamped, stamp_resource_version. rewrite meta_of_with_metadata.
  destruct (meta_of v); simpl; [| done]. by rewrite bt_get_insert_eq.
Qed.

Lemma generation_range v : wf_json v = true -> Word.is_i64 (generation_of v).
Proof.
  intros Hv. unfold generation_of.
  destruct (jget "metadata" v) as [m|] eqn:E1; simpl; [| done].
  destruct (jget "generation" m) as [g|] eqn:E2; simpl; [| done].
  destruct (as_i64 g) as [z|] eqn:E3; simpl; [| done].
  eapply as_i64_range; [| exact E3]. eapply wf_json_get; [| exact E2]. by eapply wf_json_get.
Qed.

Lemma compute_generation_range prior next :
  (forall v, prior = Some v -> wf_json v = true) ->
  Word.is_i64 (compute_generation_on_put prior next).
Proof.
  intros Hp. unfold compute_generation_on_put. destruct prior as [v|]; [| done].
  case_match; [| apply Word.i64_add_range].
  pose proof (generation_range v (Hp v eq_refl)). unfold Word.is_i64, Word.i64_min, Word.i64_max in *.
  lia.
Qed.

Lemma stamp_revision_wf v rev gen :
  Word.is_i64 gen -> wf_json v = true -> wf_json (stamp_revision v rev gen) = true.
Proof.
  intros Hg Hv. rewrite stamp_revision_spec. apply with_metadata_wf; [| done].
  intros meta Hm. apply wf_json_insert; [by apply number_of_i64_ok |]. by apply wf_json_insert.
Qed.

Lemma stamp_resource_version_wf v rev :
  wf_json v = true -> wf_json (stamp_resource_version v rev) = true.
Proof. intros Hv. apply with_metadata_wf; [| done]. intros. by apply wf_json_insert. Qed.

Lemma stamp_deletion_timestamp_wf v ts :
  wf_json v = true -> wf_json (stamp_deletion_timestamp v ts) = true.
Proof. intros Hv. apply with_metadata_wf; [| done]. intros. by apply wf_json_insert. Qed.

(** ** Identity *)

Section Identity.
Context `{Blake3}.

(** What [stamp_identity] does to the metadata object. *)
Definition identity_stamp (k : ResourceKey) (cr : Revision) (prior : option json)
    (meta : btmap string json) : btmap string json :=
  let kept := bt_get "uid" meta in
  let meta' :=
    match prior_meta_field prior "uid" with
    | Some prior_uid =>
        if uid_set prior_uid then bt_insert "uid" prior_uid meta
        else if is_some_and uid_set kept then meta
        else bt_insert "uid" (JString (mint_uid (label k) cr)) meta
    | None =>
        if is_some_and uid_set kept then meta
        else bt_insert "uid" (JString (mint_uid (label k) cr)) meta
    end in
  match prior_meta_field prior "creationTimestamp" with
  | Some t => bt_insert "creationTimestamp" t meta'
  | None => meta'
  end.

Lemma stamp_identity_spec v k cr prior :
  stamp_identity v k cr prior = with_metadata (identity_stamp k cr prior) v.
Proof. done. Qed.

Lemma identity_stamp_other k cr prior meta f :
  f <> "uid" -> f <> "creationTimestamp" ->
  bt_get f (identity_stamp k cr prior meta) = bt_get f meta.
Proof.
  intros Hu Hc. unfold identity_stamp. cbv zeta.
  repeat case_match; by rewrite ?bt_get_insert_ne by done.
Qed.

Lemma identity_stamp_creation k cr prior meta :
  bt_get "creationTimestamp" (identity_stamp k cr prior meta) =
  match prior_meta_field prior "creationTimestamp" with
  | Some t => Some t
  | None => bt_get "creationTimestamp" meta
  end.
Proof.
  unfold identity_stamp. cbv zeta. destruct (prior_meta_field prior "creationTimestamp");
    [by rewrite bt_get_insert_eq |]. repeat case_match; by rewrite ?bt_get_insert_ne by done.
Qed.

Lemma identity_stamp_uid k cr prior meta :
  bt_get "uid" (identity_stamp k cr prior meta) =
  match prior_meta_field prior "uid" with
  | Some u => if uid_set u then Some u
              else if is_some_and uid_set (bt_get "uid" meta) then bt_get "uid" meta
              else Some (JString (mint_uid (label k) cr))
  | None => if is_some_and uid_set (bt_get "uid" meta) then bt_get "uid" meta
            else Some (JString (mint_uid (label k) cr))
  end.
Proof.
  unfold identity_stamp. cbv zeta.
  assert (forall (o : option json) m, bt_get "uid" (match o with Some t => bt_insert "creationTimestamp" t m
    | None => m end) = bt_get "uid" m) as Hc.
  { intros [] m; by rewrite ?bt_get_insert_ne by done. }
  rewrite Hc. repeat case_match; by rewrite ?bt_get_insert_eq.
Qed.

Lemma prior_meta_field_wf prior f v :
  (forall p, prior = Some p -> wf_json p = true) -> prior_meta_field prior f = Some v ->
  wf_json v = true.
Proof.
  intros Hp. destruct prior as [p|]; [| done]. unfold prior_meta_field. simpl.
  destruct (jget "metadata" p) as [m|] eqn:E; [| done]. simpl. intros Hf.
  eapply wf_json_get; [| exact Hf]. eapply wf_json_get; [| exact E]. by apply Hp.
Qed.

Lemma stamp_identity_wf v k cr prior :
  (forall p, prior = Some p -> wf_json p = true) -> wf_json v = true ->
  wf_json (stamp_identity v k cr prior) = true.
Proof.
  intros Hp Hv. rewrite stamp_identity_spec. apply with_metadata_wf; [| done]. intros meta Hm.
  pose proof (prior_meta_field_wf prior "uid") as Hu.
  pose proof (prior_meta_field_wf prior "creationTimestamp") as Hc.
  unfold identity_stamp. cbv zeta. repeat case_match; repeat apply wf_json_insert; eauto.
Qed.

End Identity.

(** ** The minted uid *)

Definition is_lower_hex (c : ascii) : bool :=
  existsb (Ascii.eqb c) (String.list_ascii_of_string "0123456789abcdef").

Definition is_variant (c : ascii) : bool :=
  existsb (Ascii.eqb c) (String.list_ascii_of_string "89ab").

(** The RFC 9562 text form: five groups of lowercase hex digits, version 8,
    variant [10xx]. *)
Definition uid_shape (s : string) : bool :=
  Nat.eqb (String.length s) 36 &&
  forallb (fun i => match String.get i s with
                    | Some c =>
                        if existsb (Nat.eqb i) [8; 13; 18; 23]%nat then Ascii.eqb c "-"
                        else if Nat.eqb i 14 then Ascii.eqb c "8"
                        else if Nat.eqb i 19 then is_variant c
                        else is_lower_hex c
                    | None => false
                    end) (seq 0 36).

Definition nibbles_ok (b : Z) : bool :=
  is_lower_hex (hex_digit (Z.shiftr b 4)) && is_lower_hex (hex_digit (Z.land b 15)).

Definition version_ok (b : Z) : bool :=
  let b := Z.lor (Z.land b 15) 128 in
  Ascii.eqb (hex_digit (Z.shiftr b 4)) "8" && is_lower_hex (hex_digit (Z.land b 15)).

Definition variant_ok (b : Z) : bool :=
  let b := Z.lor (Z.land b 63) 128 in
  is_variant (hex_digit (Z.shiftr b 4)) && is_lower_hex (hex_digit (Z.land b 15)).

Lemma octets_ok b : is_byte b = true -> nibbles_ok b && version_ok b && variant_ok b = true.
Proof.
  revert b. apply (byte_enum (fun b => nibbles_ok b && version_ok b && variant_ok b)).
  vm_compute. reflexivity.
Qed.

Lemma render_uid_shape b0 b1 b2 b3 b4 b5 b6 b7 b8 b9 b10 b11 b12 b13 b14 b15 :
  Forall (fun b => nibbles_ok b = true)
    [b0; b1; b2; b3; b4; b5; b7; b9; b10; b11; b12; b13; b14; b15] ->
  version_ok b6 = true -> variant_ok b8 = true ->
  uid_shape (render_uid [b0; b1; b2; b3; b4; b5; Z.lor (Z.land b6 15) 128; b7;
    Z.lor (Z.land b8 63) 128; b9; b10; b11; b12; b13; b14; b15]) = true.
Proof.
  intros Hf H6 H8. rewrite !Forall_cons in Hf. unfold nibbles_ok, version_ok, variant_ok in *.
  destruct_and!. rewrite !andb_true_iff in *. destruct_and!.
  unfold uid_shape. apply andb_true_iff. split; [reflexivity |].
  cbv -[is_lower_hex is_variant hex_digit Z.shiftr Z.land Z.lor Ascii.eqb andb].
  rewrite !andb_true_iff. by split_and!.
Qed.

Lemma mint_uid_shaped `{Blake3Laws} lbl cr : uid_shape (mint_uid lbl cr) = true.
Proof.
  unfold mint_uid. cbv zeta.
  match goal with |- context [blake3 ?x] => pose proof (blake3_length x) as Hl;
    pose proof (blake3_bytes x) as Hb; revert Hl Hb; generalize (blake3 x) as d end.
  intros d Hl Hb. do 16 (destruct d as [|? d]; [done |]). clear Hl.
  rewrite !Forall_cons in Hb. destruct_and!.
  repeat match goal with H : is_byte _ = true |- _ =>
    apply octets_ok, andb_true_iff in H as [[? ?]%andb_true_iff ?] end.
  simpl take. simpl alter. apply render_uid_shape; [| done | done]. by repeat constructor.
Qed.

Lemma mint_uid_set `{Blake3Laws} lbl cr : uid_set (JString (mint_uid lbl cr)) = true.
Proof.
  unfold uid_set. simpl. apply negb_true_iff, eqb_false. intros [= E].
  pose proof (mint_uid_shaped lbl cr) as Hs. by rewrite E in Hs.
Qed.

(** ** Unchanged objects *)

Lemma objects_equal_intro before after ignored field_eq :
  bt_sorted before -> bt_sorted after ->
  (forall k, existsb (eqb k) ignored = false ->
    match bt_get k before, bt_get k after with
    | Some b, Some a => field_eq k b a = true
    | None, None => True
    | _, _ => False
    end) ->
  objects_equal_except (JObject before) (JObject after) ignored field_eq = true.
Proof.
  intros Hb Ha Hk. unfold objects_equal_except. simpl.
  set (kept := fun k : string => negb (existsb (eqb k) ignored)).
  assert (List.filter (fun e => kept e.1) (bt_map_values (fun _ _ => tt) before) =
          List.filter (fun e => kept e.1) (bt_map_values (fun _ _ => tt) after)) as Hkeys.
  { apply bt_ext; [by apply bt_filter_sorted, bt_map_values_sorted.. |]. intros k.
    rewrite !bt_get_filter by (by apply bt_map_values_sorted). rewrite !bt_get_map_values.
    unfold kept. destruct (existsb (eqb k) ignored) eqn:E; [done |]. simpl. specialize (Hk k E).
    by destruct (bt_get k before), (bt_get k after). }
  apply (f_equal length) in Hkeys.
  assert (forall m : btmap string json, length (List.filter (fun e => kept e.1) m) =
    length (List.filter (fun e => kept e.1) (bt_map_values (fun _ _ => tt) m))) as Hlen.
  { intros m. induction m as [|[k v] m IH]; simpl; [done |]. destruct (kept k); simpl; auto. }
  apply andb_true_iff. split.
  - apply Nat.eqb_eq. etrans; [apply (Hlen before) |]. etrans; [exact Hkeys | symmetry; apply (Hlen after)].
  - apply forallb_forall. intros [k b] Hin. apply filter_In in Hin as [Hin Hkept].
    simpl in *. apply negb_true_iff in Hkept. specialize (Hk k Hkept).
    apply bt_get_In in Hin; [| done]. rewrite Hin in Hk. by destruct (bt_get k after).
Qed.

(** An object whose metadata differs only in what a commit stamps is unchanged. *)
Lemma unchanged_intro v f g manager :
  wf_json v = true ->
  (forall meta, meta_of v = Some meta -> wf_json (JObject meta) = true ->
     bt_sorted (f meta) /\ bt_sorted (g meta) /\
     forall k, existsb (eqb k) COMPUTED_METADATA = false -> bt_get k (f meta) = bt_get k (g meta)) ->
  (forall meta w, meta_of v = Some meta -> bt_get "managedFields" (f meta) = Some w ->
     managed_fields_unchanged w w manager = true) ->
  unchanged (with_metadata f v) (with_metadata g v) manager = true.
Proof.
  intros Hv Hfg Hmf. destruct (meta_of v) as [meta|] eqn:E.
  - pose proof (meta_of_wf _ _ Hv E) as Hm. destruct (Hfg meta eq_refl Hm) as (Hsf & Hsg & Hk).
    destruct (with_metadata_some f v meta E) as (m & -> & ->).
    destruct (with_metadata_some g _ meta E) as (m' & [= <-] & ->).
    apply wf_sorted in Hv. apply objects_equal_intro; [by apply bt_insert_sorted.. |]. intros k _.
    destruct (decide (k = "metadata")) as [-> | Hne].
    + rewrite !bt_get_insert_eq. simpl. apply objects_equal_intro; [done.. |]. intros k' Hk'.
      rewrite <- (Hk k' Hk'). destruct (bt_get k' (f meta)) as [w|] eqn:G; [| done].
      destruct (eqb k' "managedFields") eqn:Em; [| apply eqb_refl].
      apply eqb_sound in Em. subst. by apply (Hmf meta w eq_refl).
    + rewrite !bt_get_insert_ne by done. destruct (bt_get k m); [| done].
      rewrite (proj2 (eqb_false _ _) Hne). apply eqb_refl.
  - rewrite !with_metadata_none by done. destruct v as [| | | | | m]; try apply eqb_refl.
    apply wf_sorted in Hv. apply objects_equal_intro; [done.. |]. intros k _.
    destruct (bt_get k m) as [w|] eqn:G; [| done]. destruct (eqb k "metadata") eqn:Ek; [| apply eqb_refl].
    apply eqb_sound in Ek. subst. simpl in E. rewrite G in E. simpl in E.
    destruct w; try done; apply eqb_refl.
Qed.

Lemma managed_fields_refl_none w : managed_fields_unchanged w w None = true.
Proof. apply eqb_refl. Qed.

(** ** Rewriting the same body *)

Section Rewrite.
Context `{Blake3Laws}.

Lemma identity_stamp_sorted k cr prior meta :
  bt_sorted meta -> bt_sorted (identity_stamp k cr prior meta).
Proof.
  intros Hm. unfold identity_stamp. cbv zeta.
  repeat case_match; repeat apply bt_insert_sorted; done.
Qed.

Lemma revision_stamp_sorted rev gen meta : bt_sorted meta -> bt_sorted (revision_stamp rev gen meta).
Proof. intros. by repeat apply bt_insert_sorted. Qed.

Lemma revision_stamp_get rev gen meta k :
  existsb (eqb k) COMPUTED_METADATA = false -> bt_get k (revision_stamp rev gen meta) = bt_get k meta.
Proof.
  intros Hk. simpl in Hk. rewrite !orb_false_iff in Hk. destruct Hk as (H1 & H2 & _).
  apply eqb_false in H1, H2. unfold revision_stamp. by rewrite !bt_get_insert_ne.
Qed.

Lemma identity_stamp_uid_set k cr prior meta :
  exists u, bt_get "uid" (identity_stamp k cr prior meta) = Some u /\ uid_set u = true.
Proof.
  assert (exists u, (if is_some_and uid_set (bt_get "uid" meta) then bt_get "uid" meta
    else Some (JString (mint_uid (label k) cr))) = Some u /\ uid_set u = true) as Hkept.
  { destruct (is_some_and uid_set (bt_get "uid" meta)) eqn:E.
    - destruct (bt_get "uid" meta) as [w|]; [by exists w | done].
    - eexists. split; [done | apply mint_uid_set]. }
  rewrite identity_stamp_uid. destruct (prior_meta_field prior "uid") as [u|]; [| done].
  destruct (uid_set u) eqn:Eu; [by exists u | done].
Qed.

(** The identity stamp, over an object whose metadata it produced, gives back
    the same fields. *)
Lemma restamp_identity k cr cr' prior stored meta f :
  (forall g, existsb (eqb g) COMPUTED_METADATA = false ->
     meta_field g stored = bt_get g (identity_stamp k cr prior meta)) ->
  bt_get f (identity_stamp k cr' (Some stored) meta) = bt_get f (identity_stamp k cr prior meta).
Proof.
  intros Hp. destruct (decide (f = "uid")) as [-> | Hu].
  - rewrite (identity_stamp_uid k cr' (Some stored)), prior_meta_field_spec, Hp by done.
    destruct (identity_stamp_uid_set k cr prior meta) as (u & -> & ->). done.
  - destruct (decide (f = "creationTimestamp")) as [-> | Hc].
    + rewrite (identity_stamp_creation k cr' (Some stored)), prior_meta_field_spec, Hp by done.
      destruct (bt_get "creationTimestamp" (identity_stamp k cr prior meta)) eqn:G; [done |].
      rewrite identity_stamp_creation in G. by case_match.
    + by rewrite !identity_stamp_other.
Qed.

(** The object a write of body [v] stores. *)
Definition stored_by (v : json) (k : ResourceKey) (cr : Revision) (prior : option json)
    (rev : Revision) (gen : Z) : json :=
  stamp_revision (stamp_identity v k cr prior) rev gen.

Lemma stored_by_spec v k cr prior rev gen :
  stored_by v k cr prior rev gen =
  with_metadata (fun m => revision_stamp rev gen (identity_stamp k cr prior m)) v.
Proof.
  unfold stored_by. by rewrite stamp_revision_spec, stamp_identity_spec, with_metadata_compose.
Qed.

Lemma meta_field_stored v k cr prior rev gen meta g :
  meta_of v = Some meta -> existsb (eqb g) COMPUTED_METADATA = false ->
  meta_field g (stored_by v k cr prior rev gen) = bt_get g (identity_stamp k cr prior meta).
Proof.
  intros E Hg. rewrite stored_by_spec, meta_field_meta_of, meta_of_with_metadata, E. simpl.
  by apply revision_stamp_get.
Qed.

Lemma rewrite_unchanged v k cr cr' prior rev gen :
  wf_json v = true ->
  unchanged (stored_by v k cr prior rev gen)
    (stamp_identity v k cr' (Some (stored_by v k cr prior rev gen))) None = true.
Proof.
  intros Hv. rewrite stored_by_spec at 1. rewrite stamp_identity_spec.
  apply unchanged_intro; [done | | intros; apply managed_fields_refl_none].
  intros meta E Hm. apply wf_sorted in Hm. split_and!.
  - by apply revision_stamp_sorted, identity_stamp_sorted.
  - by apply identity_stamp_sorted.
  - intros f Hf. rewrite revision_stamp_get by done. symmetry. apply restamp_identity.
    intros g Hg. by apply meta_field_stored.
Qed.

Lemma rewrite_released v k cr prior :
  finalizers_released (stamp_identity v k cr prior) = finalizers_released v.
Proof.
  assert (forall f, f <> "uid" -> f <> "creationTimestamp" ->
    meta_field f (stamp_identity v k cr prior) = meta_field f v) as Hf.
  { intros f Hu Hc. rewrite stamp_identity_spec, !meta_field_meta_of, meta_of_with_metadata.
    destruct (meta_of v); [| done]. simpl. by apply identity_stamp_other. }
  by apply finalizers_released_ext; apply Hf.
Qed.

End Rewrite.

(** ** Properties *)

(** A minted uid is an RFC 9562 UUID: 36 characters, lowercase hex digits in
    groups of 8-4-4-4-12, version nibble 8 and variant bits [10]. *)
Theorem mint_uid_is_uuid `{Blake3Laws} key_label create_revision :
  uid_shape (mint_uid key_label create_revision) = true.
Proof. apply mint_uid_shaped. Qed.

(** Identity is immutable: an object the store stamps over an existing one
    keeps the prior uid whenever that one is set, and the prior
    creationTimestamp whenever there is one, whatever the new body says; and a
    stamped object always carries a set uid. *)
Theorem identity_preserved `{Blake3Laws} v k cr prior meta :
  meta_of v = Some meta ->
  let stored := stamp_identity v k cr (Some prior) in
  (forall u, meta_field "uid" prior = Some u -> uid_set u = true ->
     meta_field "uid" stored = Some u) /\
  (forall t, meta_field "creationTimestamp" prior = Some t ->
     meta_field "creationTimestamp" stored = Some t) /\
  (exists u, meta_field "uid" stored = Some u /\ uid_set u = true).
Proof.
  intros E stored. unfold stored.
  assert (forall f, meta_field f (stamp_identity v k cr (Some prior)) =
    bt_get f (identity_stamp k cr (Some prior) meta)) as Hf.
  { intros f. by rewrite stamp_identity_spec, meta_field_meta_of, meta_of_with_metadata, E. }
  rewrite !Hf. split_and!.
  - intros u Hu Hs. by rewrite identity_stamp_uid, prior_meta_field_spec, Hu, Hs.
  - intros t Ht. by rewrite identity_stamp_creation, prior_meta_field_spec, Ht.
  - apply identity_stamp_uid_set.
Qed.

(** The generation counts spec-intent revisions: on a replace it is the prior
    generation (at least 1) when the [spec] is the same, and one more when it
    differs, with no wrap-around below [i64::MAX]; a first create is 1; and the
    number stamped in the object reads back as it. *)
Theorem generation_tracks_spec prior next rev :
  wf_json prior = true -> generation_of prior < Word.i64_max ->
  compute_generation_on_put None next = 1 /\
  compute_generation_on_put (Some prior) next =
    Z.max (generation_of prior) 1 + (if eqb (spec_of prior) (spec_of next) then 0 else 1) /\
  forall meta, meta_of next = Some meta ->
    generation_of (stamp_revision next rev (compute_generation_on_put (Some prior) next)) =
    compute_generation_on_put (Some prior) next.
Proof.
  intros Hp Hg. split_and!; [done | |].
  - unfold compute_generation_on_put. pose proof (generation_range _ Hp) as Hr.
    unfold Word.is_i64, Word.i64_min, Word.i64_max in *.
    case_match; [lia |]. rewrite Word.i64_add_small; [lia |].
    unfold Word.is_i64, Word.i64_min, Word.i64_max in *. lia.
  - intros meta E. generalize (compute_generation_range (Some prior) next
      ltac:(by intros v [= <-])).
    generalize (compute_generation_on_put (Some prior) next) as gen. intros gen Hgen.
    unfold generation_of. rewrite stamp_revision_spec, (jget_metadata_with _ _ _ E). simpl. unfold revision_stamp.
    rewrite bt_get_insert_eq. cbn [mbind option_bind].
    by rewrite as_i64_of_i64.
Qed.

(** *** Witnesses *)

Lemma mint_uid_is_uuid_witness :
  uid_shape (@mint_uid zero_blake3 "v1/v1/Pod/default/web" 4) = true.
Proof. exact (@mint_uid_is_uuid zero_blake3 zero_blake3_laws "v1/v1/Pod/default/web" 4). Defined.

Local Definition named (uid : string) : json :=
  JObject [("metadata", JObject [("uid", JString uid)]); ("spec", JBool true)].

Lemma identity_preserved_witness :
  meta_field "uid" (@stamp_identity zero_blake3 (named "") (namespaced "" "v1" "Pod" "default" "web")
    9 (Some (named "u-1"))) = Some (JString "u-1").
Proof.
  exact (proj1 (@identity_preserved zero_blake3 zero_blake3_laws (named "")
    (namespaced "" "v1" "Pod" "default" "web") 9 (named "u-1") [("uid", JString "")] eq_refl)
    (JString "u-1") eq_refl eq_refl).
Defined.

Lemma generation_tracks_spec_witness :
  compute_generation_on_put (Some (named "u-1")) (JObject [("spec", JBool false)]) = 2.
Proof.
  exact (proj1 (proj2 (generation_tracks_spec (named "u-1") (JObject [("spec", JBool false)]) 5
    eq_refl eq_refl))).
Defined.
