(* ===== verification/CatalogFacts.v ===== *)
(** * The catalog as a replicated state machine

    What every command does to the catalog: it records a list of changes at one
    revision, and the state after is the state before with those changes
    replayed ([effect], [chain]).  From this follow the catalog invariant, the
    revision rule, the refusals, and that replaying a watch window brings a
    client from one state to the other. *)

From Stdlib Require Import Sorted Ascii.
From stdpp Require Import base tactics option list strings numbers pretty.
From S2P Require Import Prelude BTreeMap Json Resource WatchHistory Command Read.
From S2P Require Import PatchApply PatchFacts Ssa SsaFacts Pagination Catalog CatalogMeta.

Local Open Scope string_scope.
Local Open Scope Z_scope.

Abbreviation resource_map := (btmap ResourceKey (json * VersionMeta)).

(** ** The client's view: replaying changes *)

(** What a watch client does with one event. *)
Definition replay1 (m : resource_map) (ch : Change) : resource_map :=
  match change_kind ch with
  | Put => bt_insert (key ch) (value ch, version_meta ch) m
  | Delete => bt_remove (key ch) m
  end.

Definition replay (chs : list Change) (m : resource_map) : resource_map :=
  fold_left replay1 chs m.

Definition values_wf (m : resource_map) : Prop := Forall (fun e => wf_json e.2.1 = true) m.

(** A change recorded at [rev] over the resources [m]. *)
Record recorded (m : resource_map) (rev : Revision) (ch : Change) : Prop := {
  rec_revision : revision ch = rev;
  rec_put : change_kind ch = Put ->
    version_meta ch = next_meta (snd <$> bt_get (key ch) m) rev /\
    stamped rev (value ch) /\ wf_json (value ch) = true;
  rec_delete : change_kind ch = Delete ->
    has_finalizers (value ch) = false /\
    exists v, bt_get (key ch) m = Some (v, version_meta ch);
  rec_prior :
    prior ch = fst <$> bt_get (key ch) m \/
    (change_kind ch = Delete /\ finalizers_released (value ch) = true /\
     prior ch = Some (value ch))
}.

(** What one operation on key [k] does: nothing, or one recorded change of it. *)
Inductive effect (c : ResourceCatalog) (k : ResourceKey) (rev : Revision)
  : ApplyOutcome * ResourceCatalog -> Prop :=
  | effect_none o : change o = None -> extra_changes o = [] -> effect c k rev (o, c)
  | effect_one op ch :
      key ch = k -> recorded (resources c) rev ch ->
      effect c k rev (with_change op ch, set_resources c (replay1 (resources c) ch)).

(** A sequence of changes, each recorded over the resources the previous ones
    left. *)
Inductive chain (rev : Revision) : resource_map -> list Change -> Prop :=
  | chain_nil m : chain rev m []
  | chain_cons m ch chs :
      recorded m rev ch -> chain rev (replay1 m ch) chs -> chain rev m (ch :: chs).

Lemma no_change_effect c k rev op : effect c k rev (no_change op, c).
Proof. by constructor. Qed.

Lemma rejected_effect c k rev e : effect c k rev (patch_rejected e, c).
Proof. by constructor. Qed.

Lemma values_wf_get m k e : bt_sorted m -> values_wf m -> bt_get k m = Some e -> wf_json e.1 = true.
Proof.
  intros Hs Hw Hg. apply bt_get_In in Hg; [| done]. unfold values_wf in Hw.
  rewrite List.Forall_forall in Hw. by apply (Hw (k, e)).
Qed.

Lemma prior_values_wf m k :
  bt_sorted m -> values_wf m -> forall v, fst <$> bt_get k m = Some v -> wf_json v = true.
Proof.
  intros Hs Hw v. destruct (bt_get k m) as [e|] eqn:E; [| done]. intros [= <-].
  by eapply values_wf_get.
Qed.

(** ** One operation at a time *)

(** The common end of every write: release the object, or store it. *)
Lemma settle_effect c k post rev op :
  wf_json post = true -> stamped rev post ->
  effect c k rev
    (match finalizer_release_removal c k post (fst <$> bt_get k (resources c)) rev with
     | Some out => out
     | None =>
         (with_change op
            (mkChange rev k Put post (fst <$> bt_get k (resources c))
               (next_meta (snd <$> bt_get k (resources c)) rev)),
          set_resources c
            (bt_insert k (post, next_meta (snd <$> bt_get k (resources c)) rev) (resources c)))
     end).
Proof.
  intros Hw Hst. unfold finalizer_release_removal.
  destruct (is_none _ || negb (finalizers_released post)) eqn:E.
  - apply (effect_one c k rev op (mkChange rev k Put post _ _)); [done |]. split; simpl; try done. by left.
  - apply orb_false_iff in E as [Hp Hr]. apply negb_false_iff in Hr.
    destruct (bt_get k (resources c)) as [[v m]|] eqn:G; [| done].
    apply (effect_one c k rev ResourceOp.Deleted (mkChange rev k Delete post (Some post) m)); [done |].
    split; simpl; try done.
    + intros _. split; [| exists v; by rewrite G].
      unfold finalizers_released in Hr. bool_to_prop. done.
    + right. done.
Qed.

Lemma apply_delete_effect c k expected ts rev :
  bt_sorted (resources c) -> values_wf (resources c) ->
  effect c k rev (apply_delete c k expected ts rev).
Proof.
  intros Hs Hw. unfold apply_delete. case_match; [apply no_change_effect |].
  destruct (bt_get k (resources c)) as [[v m]|] eqn:G; [| apply no_change_effect].
  pose proof (values_wf_get _ _ _ Hs Hw G) as Hv. simpl in Hv.
  destruct (has_finalizers v) eqn:Hf; simpl negb; cbv iota.
  - case_match; [apply no_change_effect |]. destruct ts as [ts|]; [| apply no_change_effect].
    apply (effect_one c k rev ResourceOp.DeletionPending (mkChange rev k Put _ (Some v) _)); [done |].
    split; simpl; try done; rewrite G; simpl.
    + intros _. split_and!; [done | apply stamp_resource_version_stamped |].
      by apply stamp_resource_version_wf, stamp_deletion_timestamp_wf.
    + by left.
  - apply (effect_one c k rev ResourceOp.Deleted (mkChange rev k Delete v (Some v) m)); [done |].
    split; simpl; try done; rewrite G; simpl.
    + intros _. split; [done |]. by exists v.
    + by left.
Qed.

Section Apply.
Context `{SerdeJsonLaws} `{PatchSchemaEnv} `{OpDecoderLaws} `{Blake3} `{ErrorText}.

Lemma apply_put_effect c k v expected oi rev :
  bt_sorted (resources c) -> values_wf (resources c) -> wf_json v = true ->
  effect c k rev (apply_put c k v expected oi rev).
Proof.
  intros Hs Hw Hv. unfold apply_put. cbv zeta. case_match; [apply no_change_effect |].
  case_match; [apply no_change_effect |].
  pose proof (prior_values_wf _ k Hs Hw) as Hp.
  apply settle_effect; [| apply stamp_revision_stamped].
  apply stamp_revision_wf; [by apply compute_generation_range | by apply stamp_identity_wf].
Qed.

Lemma apply_ssa_command_effect c k body meta expected oi rev :
  bt_sorted (resources c) -> values_wf (resources c) -> wf_json body = true ->
  effect c k rev (apply_ssa_command c k body meta expected oi rev).
Proof.
  intros Hs Hw Hb. unfold apply_ssa_command. cbv zeta. case_match; [apply no_change_effect |].
  destruct (apply_ssa _ _ _ _ _ _) as [out|cs] eqn:S; [| by constructor].
  pose proof (prior_values_wf _ k Hs Hw) as Hp.
  pose proof (apply_ssa_wf _ _ _ _ _ _ _ Hp Hb S) as Hm.
  case_match; [apply no_change_effect |].
  match goal with |- effect _ _ _ (match (if is_some ?p then ?r else None) with _ => _ end) =>
    replace (if is_some p then r else None) with r by (by unfold finalizer_release_removal; destruct p)
  end.
  apply settle_effect; [| apply stamp_revision_stamped].
  apply stamp_revision_wf; [by apply compute_generation_range | by apply stamp_identity_wf].
Qed.

Lemma apply_patch_effect c k patch pt am expected oi rev :
  bt_sorted (resources c) -> values_wf (resources c) -> wf_json patch = true ->
  effect c k rev (apply_patch c k patch pt am expected oi rev).
Proof.
  intros Hs Hw Hb. unfold apply_patch.
  destruct (eqb pt PatchType.Apply).
  { destruct am; [by apply apply_ssa_command_effect | by constructor]. }
  destruct (bt_get k (resources c)) as [[v m]|] eqn:G; [| by constructor].
  case_match; [apply no_change_effect |].
  destruct (PatchBody.from_raw pt patch) as [body|] eqn:B; [| by constructor].
  destruct (PatchApply.apply pt v body (gvk_of k)) as [merged|] eqn:A; [| by constructor].
  pose proof (values_wf_get _ _ _ Hs Hw G) as Hv. simpl in Hv.
  pose proof (apply_body_wf _ _ _ _ _ _ Hv Hb B A) as Hm.
  case_match; [apply no_change_effect |]. cbv zeta.
  pose proof (settle_effect c k (stamp_revision merged rev
    (compute_generation_on_put (Some v) merged)) rev ResourceOp.Patched) as Hse.
  rewrite G in Hse. simpl in Hse. apply Hse; [| apply stamp_revision_stamped].
  apply stamp_revision_wf; [| done].
  exact (compute_generation_range (Some v) merged ltac:(by intros ? [= <-])).
Qed.

(** ** Sequences *)

Definition wf_txn_op (o : TxnOp.t) : bool :=
  match o with TxnOp.Put _ v => wf_json v | TxnOp.Delete _ _ => true end.

Definition wf_command (cmd : ResourceCommand.t) : bool :=
  match cmd with
  | ResourceCommand.Put _ v _ _ => wf_json v
  | ResourceCommand.Patch _ p _ _ _ _ => wf_json p
  | ResourceCommand.Delete _ _ _ _ => true
  | ResourceCommand.Txn _ success failure _ => forallb wf_txn_op (success ++ failure)
  end.

Lemma replay1_sorted m ch : bt_sorted m -> bt_sorted (replay1 m ch).
Proof. intros. unfold replay1. case_match; [by apply bt_insert_sorted | by apply bt_remove_sorted]. Qed.

Lemma replay_sorted chs m : bt_sorted m -> bt_sorted (replay chs m).
Proof. revert m. induction chs; intros m Hm; [done |]. by apply IHchs, replay1_sorted. Qed.

(** A property of stored entries that every recorded [Put] establishes. *)
Lemma replay1_Forall (P : ResourceKey * (json * VersionMeta) -> Prop) m ch :
  (change_kind ch = Put -> P (key ch, (value ch, version_meta ch))) ->
  Forall P m -> Forall P (replay1 m ch).
Proof.
  intros Hp Hm. unfold replay1. case_match; [apply bt_insert_Forall; auto | by apply bt_remove_Forall].
Qed.

Lemma replay1_values_wf m rev ch : recorded m rev ch -> values_wf m -> values_wf (replay1 m ch).
Proof. intros Hr. apply replay1_Forall. intros Hk. by apply (rec_put _ _ _ Hr). Qed.

Lemma chain_app rev m chs chs' :
  chain rev m chs -> chain rev (replay chs m) chs' -> chain rev m (chs ++ chs').
Proof. induction 1 as [|m ch chs Hr _ IH]; intros Hc; simpl; [done |]. constructor; auto. Qed.

Lemma set_resources_twice c m m' : set_resources (set_resources c m) m' = set_resources c m'.
Proof. done. Qed.

Lemma set_resources_same c : set_resources c (resources c) = c.
Proof. by destruct c. Qed.

(** What a whole command does. *)
Record performs (c : ResourceCatalog) (ks : list ResourceKey) (rev : Revision) (chs : list Change)
    (c' : ResourceCatalog) : Prop := {
  perf_state : c' = set_resources c (replay chs (resources c));
  perf_chain : chain rev (resources c) chs;
  perf_keys : Forall (fun ch => In (key ch) ks) chs
}.

Lemma effect_performs c k rev o c' :
  effect c k rev (o, c') -> performs c [k] rev (changes o) c' /\ (change o = None -> changes o = []).
Proof.
  inversion 1 as [? Hc He | op0 ch Hk Hr]; subst.
  - unfold changes. rewrite Hc, He. split; [| done].
    split; [by rewrite set_resources_same | constructor | constructor].
  - split; [| done]. change (changes (with_change op0 ch)) with [ch].
    split; [done | constructor; [done | constructor] |]. by repeat constructor.
Qed.

Lemma run_branch_performs c branch rev :
  bt_sorted (resources c) -> values_wf (resources c) -> forallb wf_txn_op branch = true ->
  performs c (map TxnOp.key branch) rev (run_branch c branch rev).1 (run_branch c branch rev).2.
Proof.
  revert c. induction branch as [|o branch IH]; intros c Hs Hw Hb; simpl in *.
  - split; [by rewrite set_resources_same | constructor | constructor].
  - bool_to_prop.
    assert (effect c (TxnOp.key o) rev (apply_txn_op c o rev)) as He.
    { destruct o; [by apply apply_put_effect | by apply apply_delete_effect]. }
    destruct (apply_txn_op c o rev) as [out c1]. inversion He as [? Hn _ | ? ch Hk Hr]; subst.
    + rewrite Hn. specialize (IH c1 Hs Hw ltac:(done)).
      destruct (run_branch c1 branch rev) as [rest c2]. destruct IH as [Hst Hc Hks]. simpl in *. subst c2.
      split; [done | done |]. eapply Forall_weaken; [exact Hks |]. simpl. auto.
    + specialize (IH (set_resources c (replay1 (resources c) ch)) (replay1_sorted _ _ Hs)
        (replay1_values_wf _ _ _ Hr Hw) ltac:(done)).
      destruct (run_branch _ branch rev) as [rest c2]. destruct IH as [Hst Hc Hks]. simpl in *. subst c2.
      split; [done | by constructor |]. constructor; [by left |].
      eapply Forall_weaken; [exact Hks |]. simpl. auto.
Qed.

Lemma performs_weaken c ks ks' rev chs c' :
  (forall k, In k ks -> In k ks') -> performs c ks rev chs c' -> performs c ks' rev chs c'.
Proof.
  intros Hk [Hst Hc Hks]. split; [done | done |]. eapply Forall_weaken; [exact Hks |]. auto.
Qed.

Lemma apply_command_performs c cmd oi rev :
  bt_sorted (resources c) -> values_wf (resources c) -> wf_command cmd = true ->
  let '(o, c') := apply_command c cmd oi rev in
  performs c (ResourceCommand.keys cmd) rev (changes o) c' /\ (change o = None -> changes o = []).
Proof.
  intros Hs Hw Hcmd. destruct cmd as [k v ex r | k p pt am ex r | k ex r ts | cmps su fa r]; simpl in *.
  - pose proof (apply_put_effect c k v ex oi rev Hs Hw Hcmd) as He.
    destruct (apply_put _ _ _ _ _ _). by apply effect_performs.
  - pose proof (apply_patch_effect c k p pt am ex oi rev Hs Hw Hcmd) as He.
    destruct (apply_patch _ _ _ _ _ _ _ _). by apply effect_performs.
  - pose proof (apply_delete_effect c k ex ts rev Hs Hw) as He.
    destruct (apply_delete _ _ _ _ _). by apply effect_performs.
  - rewrite forallb_app in Hcmd. bool_to_prop. unfold apply_txn.
    set (branch := if forallb (eval_compare c) cmps then su else fa).
    assert (performs c (map TxnCompare.key cmps ++ map TxnOp.key (su ++ fa)) rev
      (run_branch c branch rev).1 (run_branch c branch rev).2) as Hp.
    { eapply performs_weaken; [| apply run_branch_performs; [done | done | by unfold branch; case_match]].
      intros k. rewrite in_app_iff, map_app, in_app_iff. unfold branch. case_match; auto. }
    destruct (run_branch c branch rev) as [[|ch chs] c2]; simpl in *; by split.
Qed.

(** ** One log entry *)

Lemma untouched_keys c cmd :
  unreadable_touched_by c cmd = None ->
  forall k, In k (ResourceCommand.keys cmd) -> bt_get k (unreadable c) = None.
Proof.
  intros Hn k Hk. assert (secret_fault c k = None) as Hf.
  { unfold unreadable_touched_by in Hn. destruct (unreadable c) as [|u us] eqn:E.
    - unfold secret_fault. by rewrite E.
    - revert Hn Hk. generalize (ResourceCommand.keys cmd) as ks. intros ks.
      induction ks as [|k' ks IH]; [done |]. destruct (secret_fault c k') eqn:G; [done |].
      intros Hn [-> | Hin]; [done | by apply IH]. }
  unfold secret_fault in Hf. by destruct (bt_get k (unreadable c)).
Qed.

(** What applying one log entry does to the catalog. *)
Record advances (c : ResourceCatalog) (chs : list Change) (c' : ResourceCatalog) : Prop := {
  adv_resources : resources c' = replay chs (resources c);
  adv_chain : chain (next_revision (history c)) (resources c) chs;
  adv_history : history c' =
    match chs with [] => history c | first :: rest => (commit (history c) first rest).1 end;
  adv_unreadable : unreadable c' = unreadable c;
  adv_keys : Forall (fun ch => bt_get (key ch) (unreadable c) = None) chs
}.

Lemma apply_under_advances c cmd sem term index :
  bt_sorted (resources c) -> values_wf (resources c) -> wf_command cmd = true ->
  advances c (changes (apply_under c cmd sem term index).1) (apply_under c cmd sem term index).2 /\
  last_applied_term (apply_under c cmd sem term index).2 = term /\
  last_applied_index (apply_under c cmd sem term index).2 = index.
Proof.
  intros Hs Hw Hcmd. unfold apply_under.
  destruct (unreadable_touched_by c cmd) as [[k f]|] eqn:U.
  { split; [| done]. split; simpl; by constructor. }
  pose proof (apply_command_performs c cmd (OnIdentical.under sem) (next_revision (history c))
    Hs Hw Hcmd) as Hp.
  destruct (apply_command _ _ _ _) as [o c1]. destruct Hp as [[Hst Hc Hks] Hnone]. subst c1.
  simpl fst. simpl snd. split; [| by case_match].
  assert (Forall (fun ch => bt_get (key ch) (unreadable c) = None) (changes o)) as Hun.
  { eapply Forall_weaken; [exact Hks |]. intros ch. by apply untouched_keys. }
  destruct (change o) as [first|] eqn:E.
  - assert (changes o = first :: extra_changes o) as Hch by (unfold changes; by rewrite E).
    rewrite Hch in *. by split.
  - rewrite (Hnone eq_refl) in *. by split.
Qed.

End Apply.

(** ** The invariant *)

Definition on_key (k : ResourceKey) (chs : list Change) : list Change :=
  List.filter (fun ch => eqb (key ch) k) chs.

(** A live key's metadata is that of its last logged change, or older than
    everything the history retains. *)
Definition tracked (m : resource_map) (floor : Revision) (log : list Change) : Prop :=
  forall k v meta, bt_get k m = Some (v, meta) ->
    match last (on_key k log) with
    | Some ch => change_kind ch = Put /\ version_meta ch = meta /\ revision ch = mod_revision meta
    | None => mod_revision meta <= floor
    end.

Record catalog_ok (c : ResourceCatalog) (log : list Change) : Prop := {
  ok_sorted : bt_sorted (resources c);
  ok_unreadable : bt_sorted (unreadable c);
  ok_disjoint : forall k u, bt_get k (unreadable c) = Some u -> bt_get k (resources c) = None;
  ok_sealed : Forall (fun e => is_envelope (sealed e.2).1 = true /\
                               meta_ok (revision_of c) (sealed e.2).2) (unreadable c);
  ok_values : values_wf (resources c);
  ok_metas : Forall (fun e => meta_ok (revision_of c) e.2.2 /\
                              stamped (mod_revision e.2.2) e.2.1) (resources c);
  ok_history : backed (history c) log;
  ok_tracked : tracked (resources c) (floor (history c)) log
}.

Lemma replay_app chs chs' m : replay (chs ++ chs') m = replay chs' (replay chs m).
Proof. apply fold_left_app. Qed.

Lemma replay1_get m ch k :
  bt_sorted m ->
  bt_get k (replay1 m ch) =
  if eqb (key ch) k then
    match change_kind ch with Put => Some (value ch, version_meta ch) | Delete => None end
  else bt_get k m.
Proof.
  intros Hs. unfold replay1. destruct (eqb (key ch) k) eqn:E; bool_to_prop.
  - subst. case_match; [apply bt_get_insert_eq | by apply bt_get_remove_eq].
  - case_match; [apply bt_get_insert_ne; auto | apply bt_get_remove_ne; auto].
Qed.

(** The last change of a key decides it. *)
Lemma replay_get chs m k :
  bt_sorted m ->
  bt_get k (replay chs m) =
  match last (on_key k chs) with
  | Some ch =>
      match change_kind ch with Put => Some (value ch, version_meta ch) | Delete => None end
  | None => bt_get k m
  end.
Proof.
  intros Hs. induction chs as [|ch chs IH] using rev_ind; [done |].
  rewrite replay_app. simpl. rewrite replay1_get by (by apply replay_sorted).
  unfold on_key. rewrite List.filter_app. simpl. destruct (eqb (key ch) k).
  - by rewrite last_snoc.
  - by rewrite app_nil_r, IH.
Qed.

Lemma chain_revisions rev m chs : chain rev m chs -> Forall (fun ch => revision ch = rev) chs.
Proof. induction 1 as [|m ch chs Hr _ IH]; constructor; [apply Hr | done]. Qed.

Lemma chain_put rev m chs ch :
  chain rev m chs -> In ch chs -> change_kind ch = Put -> mod_revision (version_meta ch) = rev.
Proof.
  induction 1 as [|m ch' chs Hr _ IH]; [done |]. intros [-> | Hin] Hk; [| auto].
  destruct (rec_put _ _ _ Hr Hk) as [-> _]. by destruct (bt_get _ m).
Qed.

Lemma chain_values_wf rev m chs : chain rev m chs -> values_wf m -> values_wf (replay chs m).
Proof. induction 1 as [|m ch chs Hr _ IH]; [done |]. intros Hw. by apply IH, (replay1_values_wf m rev). Qed.

Definition entry_ok (head : Revision) (e : ResourceKey * (json * VersionMeta)) : Prop :=
  meta_ok head e.2.2 /\ stamped (mod_revision e.2.2) e.2.1.

Lemma next_meta_ok m k rev :
  bt_sorted m -> Forall (entry_ok rev) m -> 1 <= rev ->
  meta_ok rev (next_meta (snd <$> bt_get k m) rev) /\
  mod_revision (next_meta (snd <$> bt_get k m) rev) = rev.
Proof.
  intros Hs Hm Hr. destruct (bt_get k m) as [[v meta]|] eqn:G; simpl.
  - apply bt_get_In in G; [| done]. rewrite List.Forall_forall in Hm. apply Hm in G as [Hmeta _].
    split; [| done]. unfold meta_ok in *. simpl in *. lia.
  - split; [by apply created_at_ok | done].
Qed.

Lemma chain_entries rev m chs :
  chain rev m chs -> bt_sorted m -> 1 <= rev -> Forall (entry_ok rev) m ->
  Forall (entry_ok rev) (replay chs m).
Proof.
  induction 1 as [|m ch chs Hr _ IH]; intros Hs Hrev Hm; [done |].
  apply IH; [by apply replay1_sorted | done |]. apply replay1_Forall; [| done].
  intros Hk. destruct (rec_put _ _ _ Hr Hk) as (Hmeta & Hst & _).
  destruct (next_meta_ok m (key ch) rev Hs Hm Hrev) as [Hok Hmod]. rewrite <- Hmeta in Hok, Hmod.
  split; simpl; [done |]. by rewrite Hmod.
Qed.

Lemma last_on_key_app k log chs :
  last (on_key k (log ++ chs)) =
  match last (on_key k chs) with Some ch => Some ch | None => last (on_key k log) end.
Proof.
  unfold on_key. rewrite List.filter_app. destruct (List.filter _ chs) as [|ch l] eqn:E using rev_ind.
  - by rewrite app_nil_r.
  - by rewrite app_assoc, !last_snoc.
Qed.

Lemma last_on_key_In k chs ch : last (on_key k chs) = Some ch -> In ch chs /\ key ch = k.
Proof.
  intros Hl. apply last_Some_elem_of, list_elem_of_In in Hl. apply filter_In in Hl as [Hin Hk].
  split; [done | by apply eqb_sound].
Qed.

Lemma advances_tracked c log chs floor' :
  bt_sorted (resources c) -> chain (next_revision (history c)) (resources c) chs ->
  tracked (resources c) (floor (history c)) log -> floor (history c) <= floor' ->
  tracked (replay chs (resources c)) floor' (log ++ chs).
Proof.
  intros Hs Hc Ht Hf k v meta Hg. rewrite replay_get in Hg by done. rewrite last_on_key_app.
  destruct (last (on_key k chs)) as [ch|] eqn:E.
  - destruct (last_on_key_In _ _ _ E) as [Hin _]. destruct (change_kind ch) eqn:Ek; [| done].
    injection Hg as _ <-. split_and!; [done | done |].
    rewrite (chain_put _ _ _ _ Hc Hin Ek). pose proof (chain_revisions _ _ _ Hc) as Hr.
    rewrite List.Forall_forall in Hr. by apply Hr.
  - specialize (Ht k v meta Hg). destruct (last (on_key k log)); [done | lia].
Qed.

Lemma chain_disjoint {V} (u : btmap ResourceKey V) (m : resource_map) chs :
  bt_sorted m -> Forall (fun ch => bt_get (key ch) u = None) chs ->
  (forall k x, bt_get k u = Some x -> bt_get k m = None) ->
  forall k x, bt_get k u = Some x -> bt_get k (replay chs m) = None.
Proof.
  intros Hs Hk Hd k x Hx. rewrite replay_get by done.
  destruct (last (on_key k chs)) as [ch|] eqn:E; [| by eapply Hd].
  destruct (last_on_key_In _ _ _ E) as [Hin <-]. rewrite List.Forall_forall in Hk.
  by rewrite (Hk ch Hin) in Hx.
Qed.

Lemma advances_ok c log chs c' :
  catalog_ok c log -> advances c chs c' -> revision_of c < Word.u64_max ->
  catalog_ok c' (log ++ chs).
Proof.
  intros [Hs Hu Hd Hse Hv Hm Hh Ht] [Hres Hch Hhist Hun Hks] Hroom.
  unfold revision_of in *. destruct chs as [|first rest].
  { rewrite app_nil_r. simpl in Hres, Hhist. split; unfold revision_of; rewrite ?Hres, ?Hhist, ?Hun; done. }
  pose proof (backed_bounds _ _ Hh) as Hb.
  assert (next_revision (history c) = head (history c) + 1) as Hn by (apply next_small; lia).
  pose proof (chain_revisions _ _ _ Hch) as Hrev.
  split; unfold revision_of; rewrite ?Hres, ?Hun, ?Hhist.
  - by apply replay_sorted.
  - done.
  - by apply chain_disjoint.
  - rewrite commit_head. eapply Forall_weaken; [exact Hse |]. intros e [He Hm']. split; [done |].
    eapply meta_ok_mono; [exact Hm' | lia].
  - by eapply chain_values_wf.
  - rewrite commit_head. apply chain_entries; [done | done | lia |].
    eapply Forall_weaken; [exact Hm |]. intros e [He Hst]. split; [| done].
    eapply meta_ok_mono; [exact He | lia].
  - by apply commit_backed.
  - by apply advances_tracked, (commit_floor _ log).
Qed.

Lemma fresh_ok capacity : catalog_ok (with_history_capacity capacity) [].
Proof.
  split; simpl; try (by constructor); try done.
  apply fresh_backed. unfold Word.is_u64, Word.u64_max, Word.u64_modulus, ZERO. lia.
Qed.

Lemma compact_ok c log target :
  catalog_ok c log -> 0 <= target -> catalog_ok (Catalog.compact c target).1 log.
Proof.
  intros [Hs Hu Hd Hse Hv Hm Hh Ht] Htg. pose proof (compact_backed _ _ target Hh Htg) as Hb.
  pose proof (backed_bounds _ _ Hh) as Hbd.
  assert (head (WatchHistory.compact (history c) target).1 = head (history c) /\
    floor (history c) <= floor (WatchHistory.compact (history c) target).1) as [Hhd Hfl].
  { unfold WatchHistory.compact. simpl. case_match; simpl; bool_to_prop; lia. }
  unfold Catalog.compact. destruct (WatchHistory.compact (history c) target) as [h a]. simpl in *.
  split; unfold revision_of in *; simpl; rewrite ?Hhd; try done.
  intros k v meta Hg. specialize (Ht k v meta Hg). case_match; [done | lia].
Qed.

(** ** Restarts *)

Section Load.
Implicit Types l : list (ResourceKey * (json * VersionMeta)).

Definition loads l := fold_left load_entry l ([], []).

Lemma loads_snoc l x : loads (l ++ [x]) = load_entry (loads l) x.
Proof. unfold loads. by rewrite fold_left_app. Qed.

Lemma loads_sorted l : bt_sorted (loads l).1 /\ bt_sorted (loads l).2.
Proof.
  induction l as [|x l [IH1 IH2]] using rev_ind; [by split; constructor |].
  rewrite loads_snoc. unfold load_entry. case_match; simpl; split; try done; by apply bt_insert_sorted.
Qed.

Lemma loads_get l k :
  NoDup l.*1 ->
  (forall e, bt_get k (loads l).1 = Some e <-> In (k, e) l /\ is_envelope e.1 = false) /\
  (forall u, bt_get k (loads l).2 = Some u <->
     In (k, sealed u) l /\ is_envelope (sealed u).1 = true /\ fault u = SealFault.Unopened).
Proof.
  induction l as [|[k0 e0] l IH] using rev_ind; intros Hnd; [split; simpl; naive_solver |].
  rewrite fmap_app in Hnd. apply list_relations.list.NoDup_app in Hnd as (Hnd & Hni & _).
  destruct (IH Hnd) as [IH1 IH2]. rewrite loads_snoc. unfold load_entry. simpl.
  assert (forall e, In (k0, e) l -> False) as Hnew.
  { intros e Hin. apply (Hni k0); [| by left]. apply list_elem_of_fmap. exists (k0, e).
    split; [done | by apply list_elem_of_In]. }
  setoid_rewrite in_app_iff. simpl.
  destruct (is_envelope e0.1) eqn:Ee; simpl.
  - split.
    + intros e. rewrite IH1. split; [naive_solver |]. intros [[Hin | [[= -> ->] | []]] Hn]; [done |]. congruence.
    + intros u. destruct (decide (k = k0)) as [-> | Hne].
      * rewrite bt_get_insert_eq. split.
        -- intros [= <-]. simpl. auto.
        -- intros ([Hin | [[= ->] | []]] & _ & Hf); [by apply Hnew in Hin |].
           destruct u; simpl in *; by subst.
      * rewrite bt_get_insert_ne, IH2 by done. naive_solver.
  - split.
    + intros e. destruct (decide (k = k0)) as [-> | Hne].
      * rewrite bt_get_insert_eq. split; [intros [= <-]; auto |].
        intros [[Hin | [[= ->] | []]] _]; [by apply Hnew in Hin | done].
      * rewrite bt_get_insert_ne, IH1 by done. naive_solver.
    + intros u. rewrite IH2. split; [naive_solver |].
      intros ([Hin | [[= -> ->] | []]] & Hn & Hf); [done |]. congruence.
Qed.

End Load.

(** Every key of the image, live or sealed, once. *)
Definition image_entries (c : ResourceCatalog) : list (ResourceKey * (json * VersionMeta)) :=
  match unreadable c with
  | [] => resources c
  | _ => sort_by (fun a b => leb a.1 b.1)
           (resources c ++ map (fun e => (e.1, sealed e.2)) (unreadable c))
  end.

Lemma render_all_plain l : render_all plain_render l = Ok l.
Proof. induction l as [|[k [v m]] l IH]; simpl; [done | by rewrite IH]. Qed.

Lemma serialize_spec c :
  serialize c = Ok (mkCatalogRepr (image_entries c) (last_applied_term c) (last_applied_index c)
                      (head (history c)) (floor (history c))).
Proof. unfold serialize, repr. by rewrite render_all_plain. Qed.

Lemma image_entries_perm c :
  image_entries c ≡ₚ (resources c ++ map (fun e => (e.1, sealed e.2)) (unreadable c))%list.
Proof.
  unfold image_entries. destruct (unreadable c); [simpl; by rewrite app_nil_r | apply sort_by_perm].
Qed.

Lemma image_entries_NoDup c log : catalog_ok c log -> NoDup (image_entries c).*1.
Proof.
  intros [Hs Hu Hd _ _ _ _ _]. rewrite image_entries_perm, fmap_app.
  apply list_relations.list.NoDup_app. split_and!.
  - by apply bt_keys_NoDup.
  - intros k Hk Hk'. rewrite list_elem_of_fmap in Hk, Hk'.
    destruct Hk as ([k1 e] & -> & Hin), Hk' as ([k2 e'] & Heq & Hin'). simpl in Heq. subst k2.
    apply list_elem_of_In in Hin, Hin'. apply in_map_iff in Hin' as ([k3 u] & [= -> _] & Hin').
    apply bt_get_In in Hin; [| done]. apply bt_get_In in Hin'; [| done].
    apply Hd in Hin'. simpl in *. congruence.
  - rewrite <- list_fmap_compose. by apply (bt_keys_NoDup (unreadable c)).
Qed.

Lemma In_image c log k e :
  catalog_ok c log ->
  In (k, e) (image_entries c) <->
  bt_get k (resources c) = Some e \/ exists u, bt_get k (unreadable c) = Some u /\ sealed u = e.
Proof.
  intros [Hs Hu _ _ _ _ _ _]. rewrite <- list_elem_of_In, image_entries_perm, list_elem_of_In.
  rewrite in_app_iff, in_map_iff, (bt_get_In k e _ Hs). setoid_rewrite (bt_get_In k _ _ Hu).
  split; (intros [Hin | Hin]; [by left | right]).
  - destruct Hin as ([k' u] & [= -> <-] & Hin). by exists u.
  - destruct Hin as (u & Hin & <-). by exists (k, u).
Qed.

(** Stop, write the image, and load it back. *)
Definition restart (c : ResourceCatalog) : ResourceCatalog :=
  match serialize c with
  | Ok r => deserialize r
  | Err e => match e : Empty_set with end
  end.

Lemma restart_spec c :
  restart c =
  mkResourceCatalog (loads (image_entries c)).1 (last_applied_term c) (last_applied_index c)
    (loaded_at (revision_of c) DEFAULT_HISTORY_CAPACITY) (loads (image_entries c)).2.
Proof.
  unfold restart. rewrite serialize_spec. unfold deserialize. simpl.
  change (fold_left load_entry (image_entries c) ([], [])) with (loads (image_entries c)).
  by destruct (loads (image_entries c)).
Qed.

Section Restart.
Context (c : ResourceCatalog) (log : list Change) (Hok : catalog_ok c log).

Lemma restart_live k e :
  bt_get k (resources (restart c)) = Some e <->
  bt_get k (resources c) = Some e /\ is_envelope e.1 = false.
Proof using Hok.
  rewrite restart_spec. simpl.
  rewrite (proj1 (loads_get _ k (image_entries_NoDup _ _ Hok))), (In_image _ _ _ _ Hok).
  split; [| naive_solver]. intros [[Hg | (u & Hu & <-)] He]; [done |].
  pose proof (ok_sealed _ _ Hok) as Hse. apply bt_get_In in Hu; [| apply Hok].
  rewrite List.Forall_forall in Hse. apply Hse in Hu as [Hu _]. simpl in Hu. congruence.
Qed.

Lemma restart_sealed k u :
  bt_get k (unreadable (restart c)) = Some u <->
  fault u = SealFault.Unopened /\ is_envelope (sealed u).1 = true /\
  (bt_get k (resources c) = Some (sealed u) \/
   exists u', bt_get k (unreadable c) = Some u' /\ sealed u' = sealed u).
Proof using Hok.
  rewrite restart_spec. simpl.
  rewrite (proj2 (loads_get _ k (image_entries_NoDup _ _ Hok))), (In_image _ _ _ _ Hok). tauto.
Qed.

Lemma restart_ok : catalog_ok (restart c) [].
Proof using Hok.
  destruct (loads_sorted (image_entries c)) as [Hs1 Hs2].
  assert (bt_sorted (resources (restart c)) /\ bt_sorted (unreadable (restart c)) /\
    history (restart c) = loaded_at (revision_of c) DEFAULT_HISTORY_CAPACITY) as (HR & HU & HH)
    by (by rewrite restart_spec).
  pose proof (backed_bounds _ _ (ok_history _ _ Hok)) as Hb.
  pose proof (ok_metas _ _ Hok) as Hm. pose proof (ok_sealed _ _ Hok) as Hse.
  rewrite List.Forall_forall in Hm, Hse.
  assert (revision_of (restart c) = revision_of c) as Hrev by (unfold revision_of; by rewrite HH).
  assert (forall k e, bt_get k (resources (restart c)) = Some e -> In (k, e) (resources c)) as Hlive.
  { intros k e Hg. apply restart_live in Hg as [Hg _]. by apply bt_get_In in Hg; [| apply Hok]. }
  split; rewrite ?Hrev; try done.
  - intros k u Hu. destruct (bt_get k (resources (restart c))) as [e|] eqn:E; [| done].
    apply restart_live in E as [E Hn]. apply restart_sealed in Hu as (_ & He & [Hg | (u' & Hg & _)]).
    + congruence.
    + apply (ok_disjoint _ _ Hok) in Hg. congruence.
  - apply List.Forall_forall. intros [k u] Hin. apply bt_get_In in Hin; [| done].
    apply restart_sealed in Hin as (_ & He & [Hg | (u' & Hg & Heq)]); (split; [done |]); simpl.
    + apply bt_get_In in Hg; [| apply Hok]. by apply Hm in Hg as [? _].
    + apply bt_get_In in Hg; [| apply Hok]. apply Hse in Hg as [_ Hg]. simpl in Hg. by rewrite <- Heq.
  - apply List.Forall_forall. intros [k e] Hin. apply bt_get_In, Hlive in Hin; [| done].
    pose proof (ok_values _ _ Hok) as Hv. unfold values_wf in Hv. rewrite List.Forall_forall in Hv.
    by apply Hv in Hin.
  - apply List.Forall_forall. intros [k e] Hin. apply bt_get_In, Hlive in Hin; [| done]. by apply Hm.
  - rewrite HH. apply fresh_backed. unfold Word.is_u64, revision_of. lia.
  - intros k v meta Hg. apply Hlive, Hm in Hg as [Hg _]. rewrite HH. simpl.
    unfold meta_ok in Hg. simpl in Hg. lia.
Qed.

End Restart.

(** ** Reachable catalogs *)

Section Reach.
Context `{SerdeJsonLaws} `{PatchSchemaEnv} `{OpDecoderLaws} `{Blake3} `{ErrorText}.

(** The catalogs a node goes through, with the log of what its history was fed
    since it was last loaded.  The revision counter has room for one more. *)
Inductive reaches : ResourceCatalog -> list Change -> Prop :=
  | reaches_fresh capacity : reaches (with_history_capacity capacity) []
  | reaches_apply c log entry term index :
      reaches c log -> wf_command (command entry) = true -> revision_of c < Word.u64_max ->
      reaches (apply_logged c entry term index).2
        (log ++ changes (apply_logged c entry term index).1)
  | reaches_compact c log target :
      reaches c log -> 0 <= target -> reaches (Catalog.compact c target).1 log
  | reaches_restart c log : reaches c log -> reaches (restart c) [].

Lemma apply_logged_advances c log entry term index :
  catalog_ok c log -> wf_command (command entry) = true ->
  advances c (changes (apply_logged c entry term index).1) (apply_logged c entry term index).2.
Proof. intros Hok Hw. by apply apply_under_advances; [apply Hok | apply Hok |]. Qed.

Lemma reaches_ok c log : reaches c log -> catalog_ok c log.
Proof.
  induction 1 as [cap | c log entry term index _ IH Hw Hr | c log t _ IH Ht | c log _ IH].
  - apply fresh_ok.
  - eapply advances_ok; [exact IH | by eapply apply_logged_advances | done].
  - by apply compact_ok.
  - by eapply restart_ok.
Qed.

End Reach.
