(* ===== verification/CatalogTheorems.v ===== *)
(** * What the catalog promises its writers and watchers

    The invariant over every reachable catalog, the revision rule, optimistic
    concurrency, idempotent writes, the finalizer gate, sealed values,
    replay of the watch window, convergence of replicas, and restarts. *)

From Stdlib Require Import Sorted Ascii.
From stdpp Require Import base tactics option list strings numbers pretty.
From S2P Require Import Prelude BTreeMap Json Resource WatchHistory Command Read.
From S2P Require Import PatchApply PatchFacts Ssa SsaFacts Pagination Catalog CatalogMeta CatalogFacts.

Local Open Scope string_scope.
Local Open Scope Z_scope.

(** A log entry with the Raft position it is applied at. *)
Definition LogEntry : Type := LoggedCommand * Z * Z.

Section Runs.
Context `{SerdeJson} `{PatchSchemaEnv} `{OpDecoder} `{Blake3} `{ErrorText}.

(** Apply a sequence of log entries: the changes committed, in order, and the
    catalog after. *)
Fixpoint run (c : ResourceCatalog) (entries : list LogEntry) : list Change * ResourceCatalog :=
  match entries with
  | [] => ([], c)
  | (e, term, index) :: entries =>
      let '(o, c) := apply_logged c e term index in
      let '(chs, c) := run c entries in
      ((changes o ++ chs)%list, c)
  end.

Definition wf_entries (entries : list LogEntry) : bool :=
  forallb (fun e => wf_command (command e.1.1)) entries.

(** Changes recorded one after another, whatever their revisions. *)
Inductive tape : resource_map -> list Change -> Prop :=
  | tape_nil m : tape m []
  | tape_cons m rev ch chs :
      recorded m rev ch -> tape (replay1 m ch) chs -> tape m (ch :: chs).

Lemma chain_tape rev m chs : chain rev m chs -> tape m chs.
Proof. induction 1; econstructor; eauto. Qed.

Lemma tape_app m chs chs' : tape m chs -> tape (replay chs m) chs' -> tape m (chs ++ chs').
Proof. induction 1 as [|m rev ch chs Hr _ IH]; intros Ht; simpl; [done |]. econstructor; eauto. Qed.

(** What a run does, in one record. *)
Record run_spec (c : ResourceCatalog) (log : list Change) (chs : list Change)
    (c' : ResourceCatalog) : Prop := {
  run_ok : catalog_ok c' (log ++ chs);
  run_resources : resources c' = replay chs (resources c);
  run_tape : tape (resources c) chs;
  run_newer : Forall (fun ch => revision_of c < revision ch) chs;
  run_unreadable : unreadable c' = unreadable c;
  run_head : revision_of c <= revision_of c';
  run_floor : compacted_revision c <= compacted_revision c'
}.

Lemma advances_floor c log chs c' :
  catalog_ok c log -> advances c chs c' -> revision_of c < Word.u64_max ->
  compacted_revision c <= compacted_revision c'.
Proof.
  intros Hok [_ Hch Hh _ _] Hroom. unfold compacted_revision. rewrite Hh. destruct chs; [lia |].
  eapply commit_floor; [apply (ok_history _ _ Hok) | done | by eapply chain_revisions].
Qed.

Lemma advances_head c log chs c' :
  catalog_ok c log -> advances c chs c' -> revision_of c < Word.u64_max ->
  revision_of c' = revision_of c + (if match chs with [] => true | _ => false end then 0 else 1) /\
  Forall (fun ch => revision ch = revision_of c + 1) chs.
Proof.
  intros Hok [_ Hch Hh _ _] Hroom. pose proof (backed_bounds _ _ (ok_history _ _ Hok)) as Hb.
  unfold revision_of in *.
  assert (next_revision (history c) = head (history c) + 1) as Hn by (apply next_small; lia).
  split; [| rewrite <- Hn; by eapply chain_revisions].
  rewrite Hh. destruct chs; [lia |]. by rewrite commit_head, Hn.
Qed.

End Runs.

Section RunFacts.
Context `{SerdeJsonLaws} `{PatchSchemaEnv} `{OpDecoderLaws} `{Blake3} `{ErrorText}.

Lemma run_correct entries c log :
  catalog_ok c log -> wf_entries entries = true ->
  revision_of c + Z.of_nat (length entries) <= Word.u64_max ->
  run_spec c log (run c entries).1 (run c entries).2.
Proof.
  revert c log. induction entries as [|[[e t] i] entries IH]; intros c log Hok Hw Hroom.
  - split; simpl; try done; [by rewrite app_nil_r | constructor].
  - cbn [run]. cbn [wf_entries forallb fst] in Hw. apply andb_true_iff in Hw as [He Hw].
    cbn [length] in Hroom.
    pose proof (apply_logged_advances c log e t i Hok He) as Ha.
    destruct (apply_logged c e t i) as [o c1]. cbn [fst snd] in Ha.
    destruct (advances_head _ _ _ _ Hok Ha ltac:(lia)) as [Hh1 Hr1].
    assert (revision_of c <= revision_of c1 <= revision_of c + 1) as Hle by (case_match; lia).
    pose proof (advances_ok _ _ _ _ Hok Ha ltac:(lia)) as Hok1.
    pose proof (advances_floor _ _ _ _ Hok Ha ltac:(lia)) as Hfl1.
    specialize (IH c1 _ Hok1 Hw ltac:(lia)). destruct (run c1 entries) as [chs c2]. simpl in *.
    destruct IH as [Hok2 Hres Htape Hnew Hun Hhd Hfl], Ha as [Hres1 Hch1 _ Hun1 _]. split.
    + by rewrite app_assoc.
    + by rewrite replay_app, Hres, Hres1.
    + apply tape_app; [by eapply chain_tape | by rewrite <- Hres1].
    + apply Forall_app. split; [eapply Forall_weaken; [exact Hr1 |] | eapply Forall_weaken; [exact Hnew |]];
        simpl; intros; lia.
    + congruence.
    + lia.
    + lia.
Qed.

(** The window a run leaves in the history. *)
Lemma run_window entries c log :
  catalog_ok c log -> wf_entries entries = true ->
  revision_of c + Z.of_nat (length entries) <= Word.u64_max ->
  changes_after (run c entries).2 (revision_of c) =
  if revision_of c <? compacted_revision (run c entries).2
  then Err (mkCompactedTooOld (revision_of c) (compacted_revision (run c entries).2))
  else Ok (run c entries).1.
Proof.
  intros Hok Hw Hroom. destruct (run_correct entries c log Hok Hw Hroom) as [Hok' _ _ Hnew _ _ _].
  unfold changes_after. rewrite (backed_since _ _ _ (ok_history _ _ Hok')).
  unfold compacted_revision. case_match; [done |]. f_equal.
  rewrite changes_above_app, (changes_above_none _ log), (changes_above_all _ _ Hnew); [done |].
  apply (backed_head _ _ (ok_history _ _ Hok)).
Qed.

End RunFacts.

(** ** Optimistic concurrency *)

(** The key and precondition of a single-key command; a server-side apply with
    no field manager is rejected before its precondition is looked at. *)
Definition expected_of (cmd : ResourceCommand.t) : option (ResourceKey * option Revision) :=
  match cmd with
  | ResourceCommand.Put k _ ex _ => Some (k, ex)
  | ResourceCommand.Patch k _ pt am ex _ =>
      if eqb pt PatchType.Apply && is_none am then None else Some (k, ex)
  | ResourceCommand.Delete k ex _ _ => Some (k, ex)
  | ResourceCommand.Txn _ _ _ _ => None
  end.

Lemma release_op c k post prior rev out :
  finalizer_release_removal c k post prior rev = Some out -> op out.1 = ResourceOp.Deleted.
Proof. unfold finalizer_release_removal. case_match; [done |]. by intros [= <-]. Qed.

Section Concurrency.
Context `{SerdeJson} `{PatchSchemaEnv} `{OpDecoder} `{Blake3} `{ErrorText}.

(** A settled write is never a conflict. *)
Lemma settle_not_conflict c k post prior rev (o : ResourceOp.t) ch c' :
  o <> ResourceOp.Conflict ->
  op (match finalizer_release_removal c k post prior rev with
      | Some out => out | None => (with_change o ch, c') end).1 <> ResourceOp.Conflict.
Proof. intros Ho. case_match eqn:E; [apply release_op in E; congruence | done]. Qed.

Lemma conflict_iff c cmd oi rev k ex :
  expected_of cmd = Some (k, ex) ->
  let r := apply_command c cmd oi rev in
  if check_precondition ex (snd <$> bt_get k (resources c))
  then op r.1 <> ResourceOp.Conflict else r = (no_change ResourceOp.Conflict, c).
Proof.
  destruct cmd as [k0 v ex0 r0 | k0 p pt am ex0 r0 | k0 ex0 r0 ts | cmps su fa r0]; simpl.
  - intros [= -> ->]. unfold apply_put. cbv zeta.
    destruct (check_precondition ex _); simpl negb; cbv iota; [| done].
    case_match; [done |]. apply settle_not_conflict. by case_match.
  - unfold apply_patch. destruct (eqb pt PatchType.Apply) eqn:Ept; simpl.
    + destruct am as [am|]; simpl; [| done]. intros [= -> ->]. unfold apply_ssa_command. cbv zeta.
      destruct (check_precondition ex _); simpl negb; cbv iota; [| done].
      destruct (apply_ssa _ _ _ _ _ _); [| done]. case_match; [done |].
      destruct (is_some _); [by apply settle_not_conflict | done].
    + intros [= -> ->]. destruct (bt_get k (resources c)) as [[v m]|]; simpl.
      * destruct (check_precondition ex (Some m)); simpl; [| done].
        destruct (PatchBody.from_raw pt p); [| done].
        destruct (PatchApply.apply pt v a (gvk_of k)); [| done]. case_match; [done |].
        by apply settle_not_conflict.
      * by destruct ex.
  - intros [= -> ->]. unfold apply_delete.
    destruct (check_precondition ex _); simpl negb; cbv iota; [| done].
    repeat case_match; done.
  - done.
Qed.

Lemma expected_keys cmd k ex : expected_of cmd = Some (k, ex) -> ResourceCommand.keys cmd = [k].
Proof. destruct cmd; simpl; try case_match; naive_solver. Qed.

Lemma touched_one c cmd k ex :
  expected_of cmd = Some (k, ex) ->
  unreadable_touched_by c cmd = (fun f => (k, f)) <$> secret_fault c k.
Proof.
  intros He. unfold unreadable_touched_by. rewrite (expected_keys _ _ _ He).
  destruct (unreadable c) as [|u us] eqn:E; [| by destruct (secret_fault c k)].
  unfold secret_fault. by rewrite E.
Qed.

End Concurrency.

Section Concurrency2.
Context `{SerdeJsonLaws} `{PatchSchemaEnv} `{OpDecoderLaws} `{Blake3} `{ErrorText}.

(** After a committed write of [k], the key is gone or carries the new revision. *)
Lemma committed_write c log cmd sem term index k ex :
  catalog_ok c log -> wf_command cmd = true -> revision_of c < Word.u64_max ->
  expected_of cmd = Some (k, ex) ->
  let r := apply_under c cmd sem term index in
  changes r.1 <> [] ->
  secret_fault c k = None /\
  check_precondition ex (snd <$> bt_get k (resources c)) = true /\
  match bt_get k (resources r.2) with
  | Some (_, m) => mod_revision m = revision_of c + 1
  | None => True
  end.
Proof.
  intros Hok Hw Hroom He r Hch.
  destruct (apply_under_advances c cmd sem term index (ok_sorted _ _ Hok) (ok_values _ _ Hok) Hw)
    as [[Hres Hchain _ _ _] _]. fold r in Hres, Hchain.
  unfold r, apply_under in Hch. rewrite (touched_one _ _ _ _ He) in Hch.
  destruct (secret_fault c k) as [f|] eqn:Hf; [done |]. split; [done |]. simpl in Hch.
  pose proof (conflict_iff c cmd (OnIdentical.under sem) (next_revision (history c)) k ex He) as Hci.
  cbv zeta in Hci. split.
  { destruct (check_precondition _ _); [done |]. by rewrite Hci in Hch. }
  pose proof (apply_command_performs c cmd (OnIdentical.under sem) (next_revision (history c))
    (ok_sorted _ _ Hok) (ok_values _ _ Hok) Hw) as Hp.
  assert (changes r.1 = changes (apply_command c cmd (OnIdentical.under sem)
    (next_revision (history c))).1) as Heq.
  { unfold r, apply_under. rewrite (touched_one _ _ _ _ He), Hf. simpl.
    by destruct (apply_command _ _ _ _). }
  destruct (apply_command _ _ _ _) as [o c1]. destruct Hp as [[_ _ Hks] _]. simpl in *.
  rewrite (expected_keys _ _ _ He) in Hks. rewrite Hres, replay_get by apply Hok.
  pose proof (backed_bounds _ _ (ok_history _ _ Hok)) as Hb. unfold revision_of in *.
  assert (next_revision (history c) = head (history c) + 1) as Hn by (apply next_small; lia).
  destruct (last (on_key k (changes r.1))) as [ch|] eqn:El.
  - destruct (last_on_key_In _ _ _ El) as [Hin _]. destruct (change_kind ch) eqn:Ek; [| done].
    by rewrite (chain_put _ _ _ _ Hchain Hin Ek).
  - exfalso. rewrite Heq in El. destruct (changes o) as [|ch chs]; [done |].
    inversion Hks as [|? ? [Hk | []] _]; subst. unfold on_key in El. simpl in El.
    rewrite eqb_refl in El. apply last_None in El. done.
Qed.

End Concurrency2.

(** ** Replicas *)

(** The source's [PartialEq] on catalogs: everything but the local replay
    buffer and its floor. *)
Record cat_eq (c d : ResourceCatalog) : Prop := {
  eq_resources : resources c = resources d;
  eq_unreadable : unreadable c = unreadable d;
  eq_term : last_applied_term c = last_applied_term d;
  eq_index : last_applied_index c = last_applied_index d;
  eq_revision : revision_of c = revision_of d
}.

#[export] Instance cat_eq_equiv : Equivalence cat_eq.
Proof.
  split.
  - by intros c.
  - intros c d []. by split.
  - intros c d e [] []. split; congruence.
Qed.

(** An outcome and the catalog after, up to [cat_eq]. *)
Definition result_eq (r s : ApplyOutcome * ResourceCatalog) : Prop := r.1 = s.1 /\ cat_eq r.2 s.2.

Lemma set_resources_eq c d m : cat_eq c d -> cat_eq (set_resources c m) (set_resources d m).
Proof. intros []. by split. Qed.

Lemma unchanged_eq o c d : cat_eq c d -> result_eq (o, c) (o, d).
Proof. intros Heq. split; [reflexivity | exact Heq]. Qed.

Lemma stored_eq o c d m : cat_eq c d -> result_eq (o, set_resources c m) (o, set_resources d m).
Proof. split; [done | by apply set_resources_eq]. Qed.

Lemma release_eq c d k post prior rev :
  cat_eq c d ->
  match finalizer_release_removal c k post prior rev, finalizer_release_removal d k post prior rev with
  | Some r, Some s => result_eq r s
  | None, None => True
  | _, _ => False
  end.
Proof.
  intros Heq. unfold finalizer_release_removal. rewrite (eq_resources _ _ Heq).
  destruct (is_none prior || negb (finalizers_released post)); [done | by apply stored_eq].
Qed.

(** Outcomes that agree, whichever way the release rule goes. *)
Lemma settle_eq c d k post prior rev o m :
  cat_eq c d ->
  result_eq
    (match finalizer_release_removal c k post prior rev with
     | Some out => out | None => (o, set_resources c m) end)
    (match finalizer_release_removal d k post prior rev with
     | Some out => out | None => (o, set_resources d m) end).
Proof.
  intros Heq. pose proof (release_eq c d k post prior rev Heq) as Hr.
  destruct (finalizer_release_removal c _ _ _ _), (finalizer_release_removal d _ _ _ _); try done.
  by apply stored_eq.
Qed.

Create HintDb replica.
#[export] Hint Resolve unchanged_eq stored_eq settle_eq : replica.

Section Replica.
Context `{SerdeJson} `{PatchSchemaEnv} `{OpDecoder} `{Blake3} `{ErrorText}.

Lemma apply_put_eq c d k v ex oi rev :
  cat_eq c d -> result_eq (apply_put c k v ex oi rev) (apply_put d k v ex oi rev).
Proof.
  intros Heq. unfold apply_put. rewrite <- (eq_resources _ _ Heq). cbv zeta.
  destruct (negb _); [auto with replica |]. destruct (OnIdentical.skips _ _ _ _); auto with replica.
Qed.

Lemma apply_delete_eq c d k ex ts rev :
  cat_eq c d -> result_eq (apply_delete c k ex ts rev) (apply_delete d k ex ts rev).
Proof.
  intros Heq. unfold apply_delete. rewrite <- (eq_resources _ _ Heq).
  repeat (case_match; simplify_eq; auto with replica).
Qed.

Lemma apply_patch_eq c d k p pt am ex oi rev :
  cat_eq c d -> result_eq (apply_patch c k p pt am ex oi rev) (apply_patch d k p pt am ex oi rev).
Proof.
  intros Heq. unfold apply_patch, apply_ssa_command. rewrite <- (eq_resources _ _ Heq). cbv zeta.
  destruct (eqb pt PatchType.Apply).
  - destruct am as [am|]; [| auto with replica]. destruct (negb _); [auto with replica |].
    destruct (apply_ssa _ _ _ _ _ _); [| auto with replica].
    destruct (OnIdentical.skips _ _ _ _); [auto with replica |].
    destruct (is_some _); [by apply settle_eq | auto with replica].
  - destruct (bt_get k (resources c)) as [[v m]|]; [| auto with replica].
    destruct (negb _); [auto with replica |].
    destruct (PatchBody.from_raw pt p) as [b|]; [| auto with replica].
    destruct (PatchApply.apply pt v b (gvk_of k)); [| auto with replica].
    destruct (OnIdentical.skips _ _ _ _); auto with replica.
Qed.

Lemma run_branch_eq branch c d rev :
  cat_eq c d ->
  (run_branch c branch rev).1 = (run_branch d branch rev).1 /\
  cat_eq (run_branch c branch rev).2 (run_branch d branch rev).2.
Proof.
  revert c d. induction branch as [|o branch IH]; intros c d Heq; simpl; [done |].
  assert (result_eq (apply_txn_op c o rev) (apply_txn_op d o rev)) as [Ho Hc].
  { destruct o; [by apply apply_put_eq | by apply apply_delete_eq]. }
  destruct (apply_txn_op c o rev) as [o1 c1], (apply_txn_op d o rev) as [o2 d1]. simpl in *. subst o2.
  destruct (IH c1 d1 Hc) as [Hch Hcat].
  destruct (run_branch c1 branch rev), (run_branch d1 branch rev). simpl in *. by subst.
Qed.

Lemma apply_command_eq c d cmd oi rev :
  cat_eq c d -> result_eq (apply_command c cmd oi rev) (apply_command d cmd oi rev).
Proof.
  intros Heq. destruct cmd as [| | | cmps su fa r]; simpl;
    [by apply apply_put_eq | by apply apply_patch_eq | by apply apply_delete_eq |].
  unfold apply_txn.
  assert (forallb (eval_compare c) cmps = forallb (eval_compare d) cmps) as ->.
  { induction cmps as [|cmp cmps IH]; simpl; [done |]. rewrite IH. f_equal.
    destruct cmp; simpl; by rewrite (eq_resources _ _ Heq). }
  destruct (run_branch_eq (if forallb (eval_compare d) cmps then su else fa) c d rev Heq) as [Hch Hcat].
  destruct (run_branch c _ rev) as [chs c1], (run_branch d _ rev) as [chs' d1]. simpl in *. subst.
  by destruct chs'.
Qed.

Lemma touched_eq c d cmd :
  cat_eq c d -> unreadable_touched_by c cmd = unreadable_touched_by d cmd.
Proof.
  intros Heq. unfold unreadable_touched_by, secret_fault. by rewrite (eq_unreadable _ _ Heq).
Qed.

Lemma apply_under_eq c d cmd sem term index :
  cat_eq c d -> result_eq (apply_under c cmd sem term index) (apply_under d cmd sem term index).
Proof.
  intros Heq. unfold apply_under. rewrite <- (touched_eq _ _ cmd Heq).
  destruct (unreadable_touched_by c cmd) as [[k f]|]; [split; [done | destruct Heq; by split] |].
  unfold next_revision. fold (revision_of c). fold (revision_of d). rewrite <- (eq_revision _ _ Heq).
  destruct (apply_command_eq c d cmd (OnIdentical.under sem) (next (revision_of c)) Heq) as [Ho Hc].
  destruct (apply_command c _ _ _) as [o c1], (apply_command d _ _ _) as [o' d1].
  cbn [fst snd] in *. subst o'.
  split; [done |]. cbn [snd]. destruct Hc as [? ? ? ? Hr]. unfold revision_of in Hr.
  destruct (change o) as [ch|]; split; try done. unfold revision_of, set_history, set_applied.
  cbn [history]. rewrite !commit_head. unfold next_revision. by rewrite Hr.
Qed.

#[export] Instance apply_logged_proper :
  Proper (cat_eq ==> eq ==> eq ==> eq ==> result_eq) apply_logged.
Proof. intros c d Heq e ? <- t ? <- i ? <-. by apply apply_under_eq. Qed.

Lemma run_eq entries c d :
  cat_eq c d -> (run c entries).1 = (run d entries).1 /\ cat_eq (run c entries).2 (run d entries).2.
Proof.
  revert c d. induction entries as [|[[e t] i] entries IH]; intros c d Heq; simpl; [done |].
  destruct (apply_logged_proper c d Heq e e eq_refl t t eq_refl i i eq_refl) as [Ho Hc].
  destruct (apply_logged c e t i) as [o c1], (apply_logged d e t i) as [o' d1]. simpl in *. subst o'.
  destruct (IH c1 d1 Hc) as [Hch Hcat]. destruct (run c1 entries), (run d1 entries).
  simpl in *. by subst.
Qed.

End Replica.

(** ** Writers *)

Section Writers.
Context `{SerdeJson} `{PatchSchemaEnv} `{OpDecoder} `{Blake3Laws} `{ErrorText}.

Lemma stamp_revision_released w rev g :
  finalizers_released (stamp_revision w rev g) = finalizers_released w.
Proof.
  assert (forall f, existsb (eqb f) COMPUTED_METADATA = false ->
    meta_field f (stamp_revision w rev g) = meta_field f w) as Hf.
  { intros f Hf. rewrite stamp_revision_spec, !meta_field_meta_of, meta_of_with_metadata.
    destruct (meta_of w); [| done]. simpl. by apply revision_stamp_get. }
  by apply finalizers_released_ext; apply Hf.
Qed.

(** Writing the same body again. *)
Lemma apply_put_again c k v rev rev' :
  wf_json v = true -> finalizers_released v = false ->
  let '(o, c1) := apply_put c k v None OnIdentical.Skip rev in
  change o <> None ->
  apply_put c1 k v None OnIdentical.Skip rev' = (no_change ResourceOp.Unchanged, c1).
Proof.
  intros Hv Hr. unfold apply_put at 1. cbn [check_precondition negb]. cbv zeta.
  destruct (OnIdentical.skips _ _ _ _); [done |].
  match goal with |- context [finalizer_release_removal c k ?post ?p rev] =>
    assert (finalizers_released post = false) as Hpost end.
  { rewrite <- Hr, <- (rewrite_released v k (create_revision
      (next_meta (snd <$> bt_get k (resources c)) rev)) (fst <$> bt_get k (resources c))).
    apply stamp_revision_released. }
  unfold finalizer_release_removal at 1. rewrite Hpost, orb_true_r. intros _.
  unfold apply_put. cbn [check_precondition negb resources set_resources]. cbv zeta.
  rewrite bt_get_insert_eq. cbn [fmap option_fmap option_map fst snd].
  unfold OnIdentical.skips. cbn [is_some_and].
  fold (stored_by v k (create_revision (next_meta (snd <$> bt_get k (resources c)) rev))
    (fst <$> bt_get k (resources c)) rev
    (compute_generation_on_put (fst <$> bt_get k (resources c)) v)).
  by rewrite rewrite_unchanged, rewrite_released, Hr.
Qed.

(** A put whose body is released removes the object. *)
Lemma apply_put_release c k body v m oi rev :
  bt_get k (resources c) = Some (v, m) -> finalizers_released body = true ->
  let '(o, c') := apply_put c k body None oi rev in
  op o = ResourceOp.Deleted /\ resources c' = bt_remove k (resources c).
Proof.
  intros Hg Hr. unfold apply_put. rewrite Hg. cbn [check_precondition negb fmap option_fmap option_map fst snd].
  cbv zeta. set (w := stamp_identity _ _ _ _).
  assert (finalizers_released w = true) as Hw by (unfold w; by rewrite rewrite_released).
  assert (OnIdentical.skips oi (Some v) w None = false) as ->.
  { destruct oi; [done |]. simpl. rewrite Hw. apply andb_false_r. }
  unfold finalizer_release_removal. rewrite stamp_revision_released, Hw. done.
Qed.

Lemma finalizers_metadata v : has_finalizers v = true -> exists meta, meta_of v = Some meta.
Proof.
  rewrite has_finalizers_field, meta_field_meta_of. destruct (meta_of v); [eauto | done].
Qed.

(** The first delete of an object with finalizers. *)
Lemma terminating_fields v ts rev :
  has_finalizers v = true -> ts <> "" ->
  let t := stamp_resource_version (stamp_deletion_timestamp v ts) rev in
  has_finalizers t = true /\ deletion_timestamp_of t = Some ts.
Proof.
  intros Hf Hts t. destruct (finalizers_metadata v Hf) as [meta E].
  assert (forall f, meta_field f t =
    bt_get f (bt_insert "resourceVersion" (JString (pretty rev))
      (bt_insert "deletionTimestamp" (JString ts) meta))) as Hm.
  { intros f. unfold t, stamp_resource_version, stamp_deletion_timestamp.
    by rewrite meta_field_meta_of, !meta_of_with_metadata, E. }
  rewrite has_finalizers_field, meta_field_meta_of, E in Hf. simpl in Hf.
  rewrite has_finalizers_field, deletion_timestamp_field, !Hm.
  rewrite !(bt_get_insert_ne "finalizers"), (bt_get_insert_ne "deletionTimestamp") by done.
  split; [exact Hf |]. rewrite bt_get_insert_eq. simpl. by rewrite (proj2 (eqb_false _ _) Hts).
Qed.

End Writers.

(** ** Properties *)

Section Properties.
Context `{SerdeJsonLaws} `{PatchSchemaEnv} `{OpDecoderLaws} `{Blake3Laws} `{ErrorText}.

(** (C1) The catalog invariant: in every catalog a node reaches (fresh, through
    log entries, compactions and restarts) the maps are ordered and disjoint,
    every stored value is a well-formed value carrying in [resourceVersion] the
    revision of its last write, that revision lies between its creation and the
    head, sealed values are envelopes, the history backs its floor, and each
    key's metadata is that of its last logged change. *)
Theorem catalog_invariant c log : reaches c log -> catalog_ok c log.
Proof. apply reaches_ok. Qed.

(** (C8) A revision means a change: applying a log entry either commits nothing,
    and then the resources and the history are exactly as before, or it
    advances the revision by exactly one and every change it committed, of
    however many keys, carries that one revision.  Sealed values and the
    applied position are as the entry requires either way. *)
Theorem revision_means_change c log entry term index :
  catalog_ok c log -> wf_command (command entry) = true -> revision_of c < Word.u64_max ->
  let '(o, c') := apply_logged c entry term index in
  (if match changes o with [] => true | _ => false end
   then resources c' = resources c /\ history c' = history c
   else revision_of c' = revision_of c + 1 /\
        Forall (fun ch => revision ch = revision_of c + 1) (changes o)) /\
  unreadable c' = unreadable c /\ last_applied_term c' = term /\ last_applied_index c' = index.
Proof.
  intros Hok Hw Hroom.
  destruct (apply_under_advances c (command entry) (semantics entry) term index
    (ok_sorted _ _ Hok) (ok_values _ _ Hok) Hw) as [Ha Hpos].
  fold (apply_logged c entry term index) in Ha, Hpos.
  destruct (apply_logged c entry term index) as [o c']. cbn [fst snd] in *.
  destruct (advances_head _ _ _ _ Hok Ha Hroom) as [Hh Hr]. destruct Ha as [Hres _ Hhist Hun _].
  split; [| by rewrite Hun]. by destruct (changes o).
Qed.

(** (C2) A watcher that resumes misses nothing: after any run of log entries, a
    client holding the resources as of the run's start either is told its
    resume point was compacted, or gets a window of changes that, replayed over
    what it holds, gives exactly the resources of the catalog. *)
Theorem watch_replay_converges c log entries :
  catalog_ok c log -> wf_entries entries = true ->
  revision_of c + Z.of_nat (length entries) <= Word.u64_max ->
  let c' := (run c entries).2 in
  match changes_after c' (revision_of c) with
  | Ok window => replay window (resources c) = resources c'
  | Err e => e = mkCompactedTooOld (revision_of c) (compacted_revision c') /\
             revision_of c < compacted_revision c'
  end.
Proof.
  intros Hok Hw Hroom. cbv zeta. rewrite (run_window _ _ _ Hok Hw Hroom).
  destruct (Z.ltb_spec (revision_of c) (compacted_revision (run c entries).2)); [done |].
  symmetry. apply (run_resources _ _ _ _ (run_correct entries c log Hok Hw Hroom)).
Qed.

(** Compare-and-swap: a single-key command answers [Conflict] exactly when
    its precondition fails against the live key, and a conflict leaves the
    catalog as it was. *)
Theorem cas_conflict_iff c cmd oi rev k ex :
  expected_of cmd = Some (k, ex) ->
  let r := apply_command c cmd oi rev in
  (op r.1 = ResourceOp.Conflict <->
     check_precondition ex (snd <$> bt_get k (resources c)) = false) /\
  (op r.1 = ResourceOp.Conflict -> changes r.1 = [] /\ r.2 = c).
Proof.
  intros He. cbv zeta. pose proof (conflict_iff c cmd oi rev k ex He) as Hc. cbv zeta in Hc.
  destruct (check_precondition ex _); [by split; [split |] |]. rewrite Hc. by split.
Qed.

(** The revision a precondition holds at is not above the head. *)
Lemma precondition_bound c log k n :
  catalog_ok c log -> check_precondition (Some n) (snd <$> bt_get k (resources c)) = true ->
  n <= revision_of c.
Proof.
  intros Hok Hpre. simpl in Hpre. destruct (bt_get k (resources c)) as [[v m] |] eqn:G; [| done].
  simpl in Hpre. bool_to_prop. pose proof (ok_metas _ _ Hok) as Hm.
  apply bt_get_In in G; [| apply Hok]. rewrite List.Forall_forall in Hm. apply Hm in G as [G _].
  unfold meta_ok in G. simpl in G. lia.
Qed.

(** A key that is newer than a revision stays so over a run. *)
Lemma run_keeps_newer c log chs c' k n :
  bt_sorted (resources c) -> run_spec c log chs c' -> n <= revision_of c ->
  match bt_get k (resources c) with Some (_, m) => n < mod_revision m | None => True end ->
  match bt_get k (resources c') with Some (_, m) => n < mod_revision m | None => True end.
Proof.
  intros Hs Hr Hn Hk. destruct (bt_get k (resources c')) as [[v m] |] eqn:G; [| done].
  pose proof (ok_tracked _ _ (run_ok _ _ _ _ Hr) k v m G) as Ht. rewrite last_on_key_app in Ht.
  rewrite (run_resources _ _ _ _ Hr), replay_get in G by done.
  destruct (last (on_key k chs)) as [ch |] eqn:E.
  - destruct Ht as (_ & _ & <-). apply last_on_key_In in E as [Hin _].
    pose proof (run_newer _ _ _ _ Hr) as Hnew. rewrite List.Forall_forall in Hnew. specialize (Hnew _ Hin). lia.
  - by rewrite G in Hk.
Qed.

(** A conditional write of a readable key that is not at its revision is refused. *)
Lemma refused_conflict c cmd sem term index r k n :
  expected_of cmd = Some (k, Some n) -> apply_under c cmd sem term index = r ->
  secret_fault c k = None ->
  match bt_get k (resources c) with Some (_, m) => n < mod_revision m | None => True end ->
  op r.1 = ResourceOp.Conflict /\ changes r.1 = [] /\ resources r.2 = resources c.
Proof.
  intros He <- Hf Hk. unfold apply_under. rewrite (touched_one _ _ _ _ He), Hf.
  pose proof (conflict_iff c cmd (OnIdentical.under sem) (next_revision (history c)) k _ He) as Hc.
  cbv zeta in Hc. replace (check_precondition (Some n) _) with false in Hc.
  - cbn [fmap option_fmap option_map]. by rewrite Hc.
  - symmetry. simpl. destruct (bt_get k (resources c)) as [[v m] |]; [| done]. simpl. apply Z.eqb_neq. lia.
Qed.

(** (C10) No lost update: once a write of a key conditional on revision [n] has
    committed, every write of that key conditional on the same [n] that comes
    later in the log is refused as a conflict and changes nothing, whatever log
    entries lie between the two (the key may be rewritten, deleted and created
    again any number of times). *)
Theorem cas_no_lost_update c log cmd1 sem1 t1 i1 between cmd2 sem2 t2 i2 k n :
  catalog_ok c log -> wf_command cmd1 = true -> wf_entries between = true ->
  revision_of c + 1 + Z.of_nat (length between) <= Word.u64_max ->
  expected_of cmd1 = Some (k, Some n) -> expected_of cmd2 = Some (k, Some n) ->
  let '(o1, c1) := apply_under c cmd1 sem1 t1 i1 in
  let later := (run c1 between).2 in
  let '(o2, c2) := apply_under later cmd2 sem2 t2 i2 in
  changes o1 <> [] -> op o2 = ResourceOp.Conflict /\ changes o2 = [] /\ resources c2 = resources later.
Proof.
  intros Hok Hw Hwb Hroom He1 He2.
  pose proof (committed_write c log cmd1 sem1 t1 i1 k (Some n) Hok Hw ltac:(lia) He1) as Hcw.
  destruct (apply_under_advances c cmd1 sem1 t1 i1 (ok_sorted _ _ Hok) (ok_values _ _ Hok) Hw) as [Ha _].
  cbv zeta in *. destruct (apply_under c cmd1 sem1 t1 i1) as [o1 c1]. cbn [fst snd] in *.
  destruct (apply_under (run c1 between).2 cmd2 sem2 t2 i2) as [o2 c2] eqn:E2. intros Hch.
  destruct (Hcw Hch) as (Hf & Hpre & Hlive).
  destruct (advances_head _ _ _ _ Hok Ha ltac:(lia)) as [Hh _].
  assert (revision_of c <= revision_of c1 <= revision_of c + 1) as Hle by (case_match; lia).
  pose proof (advances_ok _ _ _ _ Hok Ha ltac:(lia)) as Hok1.
  pose proof (run_correct between c1 _ Hok1 Hwb ltac:(lia)) as Hrun.
  assert (n <= revision_of c) as Hn by (by eapply precondition_bound).
  apply (refused_conflict _ _ _ _ _ _ k n He2) in E2; [done | |].
  - unfold secret_fault in *. by rewrite (run_unreadable _ _ _ _ Hrun), (adv_unreadable _ _ _ Ha).
  - apply (run_keeps_newer _ _ _ _ k n (ok_sorted _ _ Hok1) Hrun); [lia |].
    destruct (bt_get k (resources c1)) as [[v m] |]; [lia | done].
Qed.

(** An identical write is not a write: under the current semantics, putting
    the same body again after it was stored answers [Unchanged], commits no
    change, and leaves resources and history as they were. *)
Theorem put_idempotent c k v reason term index term' index' :
  wf_json v = true -> finalizers_released v = false -> secret_fault c k = None ->
  let '(o, c1) := apply c (ResourceCommand.put k v reason) term index in
  let '(o', c2) := apply c1 (ResourceCommand.put k v reason) term' index' in
  change o <> None ->
  op o' = ResourceOp.Unchanged /\ changes o' = [] /\
  resources c2 = resources c1 /\ history c2 = history c1.
Proof.
  intros Hv Hr Hf. unfold apply, apply_under.
  rewrite (touched_one c (ResourceCommand.put k v reason) k None eq_refl), Hf. cbn [fmap option_fmap option_map].
  cbn [apply_command ResourceCommand.put OnIdentical.under ApplySemantics.CURRENT].
  pose proof (fun rev' => apply_put_again c k v (next_revision (history c)) rev' Hv Hr) as Hagain.
  assert (unreadable (apply_put c k v None OnIdentical.Skip (next_revision (history c))).2 =
    unreadable c) as Hun.
  { unfold apply_put, finalizer_release_removal. cbv zeta. repeat case_match; by simplify_eq/=. }
  destruct (apply_put c k v None OnIdentical.Skip (next_revision (history c))) as [o c1].
  cbn [snd] in Hun. set (c1' := match change o with Some _ => _ | None => _ end).
  rewrite (touched_one c1' (ResourceCommand.put k v reason) k None eq_refl).
  assert (unreadable c1' = unreadable c /\ resources c1' = resources c1) as [Hun' Hres']
    by (unfold c1'; by destruct (change o)).
  unfold secret_fault in *. rewrite Hun', Hf. cbn [fmap option_fmap option_map].
  destruct (apply_put c1' k v None OnIdentical.Skip (next_revision (history c1'))) as [o' c2] eqn:E.
  intros Hne. specialize (Hagain (next_revision (history c1')) Hne).
  assert (forall rev, apply_put c1' k v None OnIdentical.Skip rev =
    ((apply_put c1 k v None OnIdentical.Skip rev).1, c1') \/
    change (apply_put c1 k v None OnIdentical.Skip rev).1 <> None) as Hsame.
  { intros rev. unfold apply_put. rewrite Hres'. cbv zeta. unfold finalizer_release_removal.
    rewrite Hres'. repeat case_match; auto. }
  destruct (Hsame (next_revision (history c1'))) as [Hs | Hs]; rewrite Hagain in Hs; [| done].
  rewrite E in Hs. by simplify_eq/=.
Qed.

(** (C34) Replicas converge: catalogs that are equal up to the local replay buffer
    answer every sequence of log entries with the same changes and stay equal. *)
Theorem replicas_converge c d entries :
  cat_eq c d -> (run c entries).1 = (run d entries).1 /\ cat_eq (run c entries).2 (run d entries).2.
Proof. apply run_eq. Qed.

(** A sealed value this node cannot open is never overwritten: a command that
    names its key, in any role, is rejected with no change, and no command at
    all alters what the sealed map holds. *)
Theorem sealed_never_overwritten c log entry term index :
  catalog_ok c log -> wf_command (command entry) = true ->
  let '(o, c') := apply_logged c entry term index in
  unreadable c' = unreadable c /\
  (forall k f, In k (ResourceCommand.keys (command entry)) -> secret_fault c k = Some f ->
     op o = ResourceOp.PatchRejected /\ changes o = [] /\ resources c' = resources c /\
     history c' = history c).
Proof.
  intros Hok Hw.
  destruct (apply_under_advances c (command entry) (semantics entry) term index
    (ok_sorted _ _ Hok) (ok_values _ _ Hok) Hw) as [[_ _ _ Hun _] _].
  fold (apply_logged c entry term index) in Hun.
  destruct (apply_logged c entry term index) as [o c'] eqn:E. split; [exact Hun |].
  intros k f Hin Hf. unfold apply_logged, apply_under in E.
  destruct (unreadable_touched_by c (command entry)) as [[k' f']|] eqn:U; [by simplify_eq/= |].
  apply (untouched_keys _ _ U) in Hin. unfold secret_fault in Hf. by rewrite Hin in Hf.
Qed.

(** (C33) Finalizers gate deletion: whatever the command, every removal it commits
    carries a last image with no finalizers, and a key that was live before and
    is not after was removed by such a change. *)
Theorem finalizers_gate_removal c log entry term index :
  catalog_ok c log -> wf_command (command entry) = true ->
  let '(o, c') := apply_logged c entry term index in
  (forall ch, In ch (changes o) -> change_kind ch = Delete -> has_finalizers (value ch) = false) /\
  (forall k, bt_get k (resources c) <> None -> bt_get k (resources c') = None ->
     exists ch, In ch (changes o) /\ key ch = k /\ change_kind ch = Delete).
Proof.
  intros Hok Hw. pose proof (apply_logged_advances c log entry term index Hok Hw) as Ha.
  destruct (apply_logged c entry term index) as [o c']. cbn [fst snd] in Ha.
  destruct Ha as [Hres Hch _ _ _]. split.
  - clear Hres. induction Hch as [|m ch chs Hr _ IH]; [done |].
    intros ch' [<- | Hin] Hk; [by apply (rec_delete _ _ _ Hr) | by apply IH].
  - intros k Hlive Hgone. rewrite Hres, replay_get in Hgone by apply Hok.
    destruct (last (on_key k (changes o))) as [ch|] eqn:El; [| done].
    destruct (last_on_key_In _ _ _ El) as [Hin Hk]. exists ch. split_and!; [done | done |].
    by destruct (change_kind ch).
Qed.

(** Deletion is two-phase: deleting an object with finalizers keeps it, with
    its finalizers, marked [deletionTimestamp] and at the new revision; deleting
    it again changes nothing; and a put whose body has no finalizers left
    removes it. *)
Theorem deletion_is_two_phase c k v m ts rev ts' rev' body oi rev'' :
  bt_get k (resources c) = Some (v, m) -> has_finalizers v = true ->
  deletion_timestamp_of v = None -> ts <> "" ->
  is_some (deletion_timestamp_of body) = true -> has_finalizers body = false ->
  let '(o1, c1) := apply_delete c k None (Some ts) rev in
  let '(o2, c2) := apply_delete c1 k None ts' rev' in
  let '(o3, c3) := apply_put c2 k body None oi rev'' in
  op o1 = ResourceOp.DeletionPending /\
  (exists v1, bt_get k (resources c1) = Some (v1, bumped_at m rev) /\
     has_finalizers v1 = true /\ deletion_timestamp_of v1 = Some ts) /\
  o2 = no_change ResourceOp.NoOp /\ c2 = c1 /\
  op o3 = ResourceOp.Deleted /\ (bt_sorted (resources c) -> bt_get k (resources c3) = None).
Proof.
  intros Hg Hf Hd Hts Hdb Hfb. unfold apply_delete at 1. rewrite Hg. simpl negb.
  rewrite Hf, Hd. cbn [negb is_some].
  destruct (terminating_fields v ts rev Hf Hts) as [Hf1 Hd1].
  set (v1 := stamp_resource_version (stamp_deletion_timestamp v ts) rev) in *.
  set (c1 := set_resources c (bt_insert k (v1, bumped_at m rev) (resources c))).
  assert (bt_get k (resources c1) = Some (v1, bumped_at m rev)) as Hg1 by apply bt_get_insert_eq.
  unfold apply_delete. rewrite Hg1. simpl negb. rewrite Hf1, Hd1. cbn [negb is_some].
  assert (finalizers_released body = true) as Hrel.
  { unfold finalizers_released. by rewrite Hdb, Hfb. }
  pose proof (apply_put_release c1 k body v1 (bumped_at m rev) oi rev'' Hg1 Hrel) as Hput.
  destruct (apply_put c1 k body None oi rev'') as [o3 c3]. destruct Hput as [Ho3 Hc3].
  split_and!; try done; [by exists v1 |]. intros Hs. rewrite Hc3.
  by apply bt_get_remove_eq, bt_insert_sorted.
Qed.

Lemma restart_same c log :
  catalog_ok c log -> Forall (fun e => is_envelope e.2.1 = false) (resources c) ->
  let c' := restart c in
  resources c' = resources c /\ revision_of c' = revision_of c /\
  last_applied_term c' = last_applied_term c /\ last_applied_index c' = last_applied_index c /\
  (forall k, sealed <$> bt_get k (unreadable c') = sealed <$> bt_get k (unreadable c)) /\
  (forall rv, changes_after c' rv =
     if rv <? revision_of c then Err (mkCompactedTooOld rv (revision_of c)) else Ok []).
Proof.
  intros Hok Hplain. cbv zeta. pose proof (restart_ok _ _ Hok) as Hok'.
  rewrite List.Forall_forall in Hplain. split_and!.
  - apply bt_ext; [apply Hok' | apply Hok |]. intros k.
    destruct (bt_get k (resources c)) as [e|] eqn:E.
    + apply (restart_live _ _ Hok). split; [done |]. apply bt_get_In in E; [| apply Hok].
      by apply Hplain in E.
    + destruct (bt_get k (resources (restart c))) as [e|] eqn:E'; [| done].
      apply (restart_live _ _ Hok) in E' as [E' _]. congruence.
  - by rewrite restart_spec.
  - by rewrite restart_spec.
  - by rewrite restart_spec.
  - intros k. destruct (bt_get k (unreadable (restart c))) as [u|] eqn:E.
    + apply (restart_sealed _ _ Hok) in E as (_ & He & [Hg | (u' & -> & Hs)]); [| simpl; congruence].
      apply bt_get_In in Hg; [| apply Hok]. apply Hplain in Hg. simpl in Hg. congruence.
    + destruct (bt_get k (unreadable c)) as [u|] eqn:E'; [| done].
      assert (bt_get k (unreadable (restart c)) = Some (mkUnreadable (sealed u) SealFault.Unopened))
        as Hs; [| congruence].
      apply (restart_sealed _ _ Hok). split_and!; [done | | right; by exists u]. simpl.
      pose proof (ok_sealed _ _ Hok) as Hse. rewrite List.Forall_forall in Hse.
      apply bt_get_In in E'; [| apply Hok]. by apply Hse in E' as [? _].
  - intros rv. unfold changes_after. rewrite (backed_since _ _ _ (ok_history _ _ Hok')).
    by rewrite restart_spec.
Qed.

(** A restart loses nothing but the replay window: when no live value looks
    like a sealed envelope, the catalog loaded from its own image equals the
    one that wrote it on resources, position and revision, keeps every sealed
    value byte for byte, and honestly refuses to replay from any revision below
    the one it was loaded at. *)
Theorem restart_preserves c log :
  catalog_ok c log -> Forall (fun e => is_envelope e.2.1 = false) (resources c) ->
  let c' := restart c in
  resources c' = resources c /\ revision_of c' = revision_of c /\
  last_applied_term c' = last_applied_term c /\ last_applied_index c' = last_applied_index c /\
  (forall k, sealed <$> bt_get k (unreadable c') = sealed <$> bt_get k (unreadable c)) /\
  (forall rv, changes_after c' rv =
     if rv <? revision_of c then Err (mkCompactedTooOld rv (revision_of c)) else Ok []).
Proof. apply restart_same. Qed.

End Properties.

(** ** Witnesses *)

Definition sample_env : PatchSchemaEnv := {| merge_strategy _ _ := ListMergeStrategy.Replace |}.
Definition sample_ops : OpDecoder := {| decode_ops _ := Err "not an operation list" |}.
Definition sample_text : ErrorText :=
  {| patch_error_text _ := "patch error"; seal_fault_text _ := "sealed" |}.

Lemma sample_ops_laws : @OpDecoderLaws sample_ops.
Proof. by split. Qed.

#[local] Existing Instance numbered.
#[local] Existing Instance numbered_laws.
#[local] Existing Instance sample_env.
#[local] Existing Instance sample_ops.
#[local] Existing Instance sample_ops_laws.
#[local] Existing Instance zero_blake3.
#[local] Existing Instance zero_blake3_laws.
#[local] Existing Instance sample_text.

Definition pod_key : ResourceKey := namespaced "" "v1" "Pod" "default" "web".

(** A pod held by a finalizer. *)
Definition held_pod : json :=
  JObject [("metadata", JObject [("finalizers", JArray [JString "example.io/hold"])]);
           ("spec", JObject [("node", JString "a")])].

Definition entry (cmd : ResourceCommand.t) (index : Z) : LogEntry := (proposed cmd, 1, index).

Definition put_pod : ResourceCommand.t := ResourceCommand.put pod_key held_pod Reason.Operator.
Definition delete_pod : ResourceCommand.t :=
  ResourceCommand.delete_at pod_key None Reason.Operator (Some "2026-01-01T00:00:00Z").

Definition empty : ResourceCatalog := with_history_capacity 16.

Lemma catalog_invariant_witness :
  catalog_ok (apply_logged empty (proposed put_pod) 1 1).2
    (changes (apply_logged empty (proposed put_pod) 1 1).1).
Proof.
  exact (catalog_invariant _ _ (reaches_apply _ [] (proposed put_pod) 1 1 (reaches_fresh 16)
    eq_refl eq_refl)).
Defined.

Lemma revision_means_change_witness :
  let '(o, c') := apply_logged empty (proposed put_pod) 1 7 in
  revision_of c' = 1 /\ last_applied_index c' = 7.
Proof.
  pose proof (revision_means_change empty [] (proposed put_pod) 1 7 (fresh_ok 16) eq_refl eq_refl) as H.
  vm_compute in H |- *. exact (conj (proj1 (proj1 H)) (proj2 (proj2 (proj2 H)))).
Defined.

Lemma watch_replay_converges_witness :
  let c' := (run empty [entry put_pod 1; entry delete_pod 2]).2 in
  exists window, changes_after c' 0 = Ok window /\ length window = 2%nat /\
    replay window [] = resources c'.
Proof.
  pose proof (watch_replay_converges empty [] [entry put_pod 1; entry delete_pod 2] (fresh_ok 16)
    eq_refl ltac:(vm_compute; discriminate)) as H. cbv zeta in H |- *.
  change (revision_of empty) with 0 in H. change (resources empty) with (@nil (ResourceKey * (json * VersionMeta))) in H.
  destruct (changes_after (run empty [entry put_pod 1; entry delete_pod 2]).2 0) as [w|e] eqn:E.
  - exists w. split; [reflexivity |]. split; [| exact H].
    vm_compute in E. injection E as <-. reflexivity.
  - vm_compute in E. discriminate.
Defined.

Lemma cas_conflict_iff_witness :
  op (apply_command empty (ResourceCommand.Put pod_key held_pod (Some 4) Reason.Operator)
        OnIdentical.Skip 1).1 = ResourceOp.Conflict.
Proof.
  apply (proj1 (cas_conflict_iff empty
    (ResourceCommand.Put pod_key held_pod (Some 4) Reason.Operator) OnIdentical.Skip 1 pod_key
    (Some 4) eq_refl)).
  reflexivity.
Defined.

(** The catalog with the pod stored at revision 1. *)
Definition stored : ResourceCatalog := (apply_logged empty (proposed put_pod) 1 1).2.

Lemma stored_ok : catalog_ok stored (changes (apply_logged empty (proposed put_pod) 1 1).1).
Proof.
  apply (reaches_ok _ _ (reaches_apply _ [] (proposed put_pod) 1 1 (reaches_fresh 16) eq_refl eq_refl)).
Qed.

Definition put_at (node : string) : ResourceCommand.t :=
  ResourceCommand.Put pod_key (JObject [("spec", JObject [("node", JString node)])]) (Some 1)
    Reason.Scheduler.

(** In between, the pod is deleted and created again. *)
Definition recreated : list LogEntry := [entry delete_pod 3; entry put_pod 4].

Lemma cas_no_lost_update_witness :
  let '(o1, c1) := apply_under stored (put_at "b") ApplySemantics.V1 1 2 in
  let '(o2, c2) := apply_under (run c1 recreated).2 (put_at "c") ApplySemantics.V1 1 5 in
  op o1 = ResourceOp.Replaced /\ op o2 = ResourceOp.Conflict.
Proof.
  pose proof (cas_no_lost_update stored _ (put_at "b") ApplySemantics.V1 1 2 recreated (put_at "c")
    ApplySemantics.V1 1 5 pod_key 1 stored_ok eq_refl eq_refl ltac:(vm_compute; discriminate) eq_refl eq_refl) as H.
  destruct (apply_under stored (put_at "b") ApplySemantics.V1 1 2) as [o1 c1] eqn:E1.
  cbv zeta in H. destruct (apply_under (run c1 recreated).2 (put_at "c") ApplySemantics.V1 1 5) as [o2 c2] eqn:E2.
  vm_compute in E1. injection E1 as <- <-. split; [reflexivity |].
  exact (proj1 (H ltac:(discriminate))).
Defined.

Lemma put_idempotent_witness :
  let '(o, c1) := apply empty put_pod 1 1 in
  let '(o', c2) := apply c1 put_pod 1 2 in
  op o = ResourceOp.Created /\ op o' = ResourceOp.Unchanged.
Proof.
  pose proof (put_idempotent empty pod_key held_pod Reason.Operator 1 1 1 2 eq_refl eq_refl eq_refl) as H.
  fold put_pod in H. destruct (apply empty put_pod 1 1) as [o c1] eqn:E1.
  destruct (apply c1 put_pod 1 2) as [o' c2] eqn:E2.
  vm_compute in E1. injection E1 as <- <-. split; [reflexivity |].
  exact (proj1 (H ltac:(discriminate))).
Defined.

(** A replica that keeps a shorter replay buffer. *)
Lemma replicas_converge_witness :
  cat_eq (run empty [entry put_pod 1; entry delete_pod 2]).2
    (run (with_history_capacity 1) [entry put_pod 1; entry delete_pod 2]).2.
Proof.
  apply (replicas_converge empty (with_history_capacity 1) [entry put_pod 1; entry delete_pod 2]).
  split; reflexivity.
Defined.

(** A catalog loaded with a secret it cannot open. *)
Definition secret_key : ResourceKey := namespaced "" "v1" "Secret" "default" "token".
Definition sealed_image : CatalogRepr :=
  mkCatalogRepr [(secret_key, (JString "engenho-sealed:v1:00:AA", created_at 1))] 1 1 1 0.

Lemma sealed_ok : catalog_ok (deserialize sealed_image) [].
Proof.
  split; simpl; try (by repeat constructor); try done.
  apply fresh_backed. unfold Word.is_u64, Word.u64_max, Word.u64_modulus. lia.
Qed.

Lemma sealed_never_overwritten_witness :
  let '(o, c') := apply_logged (deserialize sealed_image)
    (proposed (ResourceCommand.put secret_key held_pod Reason.Operator)) 1 2 in
  op o = ResourceOp.PatchRejected /\ unreadable c' = unreadable (deserialize sealed_image).
Proof.
  pose proof (sealed_never_overwritten (deserialize sealed_image) []
    (proposed (ResourceCommand.put secret_key held_pod Reason.Operator)) 1 2 sealed_ok eq_refl) as H.
  destruct (apply_logged _ _ _ _) as [o c']. destruct H as [Hun Hrej].
  split; [| exact Hun].
  exact (proj1 (Hrej secret_key SealFault.Unopened (or_introl eq_refl) eq_refl)).
Defined.

Lemma finalizers_gate_removal_witness :
  let '(o, c') := apply_logged stored (proposed delete_pod) 1 2 in
  Forall (fun ch => change_kind ch = Delete -> has_finalizers (value ch) = false) (changes o) /\
  bt_get pod_key (resources c') <> None.
Proof.
  pose proof (finalizers_gate_removal stored _ (proposed delete_pod) 1 2 stored_ok eq_refl) as H.
  destruct (apply_logged stored (proposed delete_pod) 1 2) as [o c'] eqn:E. split.
  - apply List.Forall_forall. exact (proj1 H).
  - vm_compute in E. injection E as <- <-. vm_compute. discriminate.
Defined.

Lemma deletion_is_two_phase_witness :
  exists v m o1 c1, bt_get pod_key (resources stored) = Some (v, m) /\
    apply_delete stored pod_key None (Some "now") 2 = (o1, c1) /\
    op o1 = ResourceOp.DeletionPending.
Proof.
  destruct (bt_get pod_key (resources stored)) as [[v m]|] eqn:G; [| vm_compute in G; discriminate].
  pose proof (deletion_is_two_phase stored pod_key v m "now" 2 None 3
    (JObject [("metadata", JObject [("deletionTimestamp", JString "now")])]) OnIdentical.Skip 4 G) as H.
  destruct (apply_delete stored pod_key None (Some "now") 2) as [o1 c1] eqn:E1.
  exists v, m, o1, c1. split; [reflexivity |]. split; [reflexivity |].
  assert (v = fst (default (JNull, created_at 0) (bt_get pod_key (resources stored)))) as Hv by (by rewrite G).
  vm_compute in Hv. subst v.
  specialize (H eq_refl eq_refl ltac:(discriminate) eq_refl eq_refl).
  destruct (apply_delete c1 pod_key None None 3) as [o2 c2].
  destruct (apply_put c2 pod_key _ None OnIdentical.Skip 4) as [o3 c3]. exact (proj1 H).
Defined.

Lemma restart_preserves_witness :
  resources (restart stored) = resources stored /\
  changes_after (restart stored) 0 = Err (mkCompactedTooOld 0 1).
Proof.
  pose proof (restart_preserves stored _ stored_ok) as H. cbv zeta in H.
  specialize (H ltac:(vm_compute; repeat constructor)).
  split; [exact (proj1 H) |].
  rewrite (proj2 (proj2 (proj2 (proj2 (proj2 H)))) 0). reflexivity.
Defined.
