(* ===== verification/CatalogReads.v ===== *)
(** * What the catalog promises its readers

    Reads at a past revision by undoing the retained changes ([rewind],
    [state_at], [read_one], [read_page]), how faithful their metadata is, where
    the pre-image of a finalizer release breaks them, and paging. *)

From Stdlib Require Import Sorted Ascii.
From stdpp Require Import base tactics option list strings numbers pretty.
From S2P Require Import Prelude BTreeMap Json Resource WatchHistory Command Read.
From S2P Require Import PatchApply PatchFacts Ssa SsaFacts Pagination Catalog CatalogMeta CatalogFacts CatalogTheorems.

Local Open Scope string_scope.
Local Open Scope Z_scope.

(** ** Undoing changes *)

(** No change of the window removed an object by releasing its finalizers. *)
Definition no_release (chs : list Change) : Prop :=
  Forall (fun ch => change_kind ch = Delete -> finalizers_released (value ch) = false) chs.

(** How an entry of the rewound map relates to the entry it stands for. *)
Definition stands_for (a : option AsOf.t) (e : option (json * VersionMeta)) : Prop :=
  match a, e with
  | Some a, Some (v, m) =>
      AsOf.value a = v /\
      match a with
      | AsOf.Live _ meta => meta = m
      | AsOf.Undone _ by_ => create_revision (version_meta by_) = create_revision m
      end
  | None, None => True
  | _, _ => False
  end.

(** The rewound map [st] shows the selected part of [m]. *)
Record shows (selects : ResourceKey -> bool) (st : btmap ResourceKey AsOf.t) (m : resource_map)
  : Prop := {
  shows_sorted : bt_sorted st;
  shows_get : forall k, if selects k then stands_for (bt_get k st) (bt_get k m)
                        else bt_get k st = None
}.

Lemma undo_get selects st ch k :
  bt_sorted st ->
  bt_get k (undo selects st ch) =
  if selects (key ch) && eqb (key ch) k then (fun v => AsOf.Undone v ch) <$> prior ch
  else bt_get k st.
Proof.
  intros Hs. unfold undo. destruct (selects (key ch)); simpl; [| done].
  destruct (eqb (key ch) k) eqn:E; bool_to_prop.
  - subst. destruct (prior ch); [apply bt_get_insert_eq | by apply bt_get_remove_eq].
  - destruct (prior ch); [apply bt_get_insert_ne; auto | apply bt_get_remove_ne; auto].
Qed.

Lemma undo_sorted selects st ch : bt_sorted st -> bt_sorted (undo selects st ch).
Proof.
  intros. unfold undo. repeat case_match; try done; [by apply bt_insert_sorted | by apply bt_remove_sorted].
Qed.

Lemma undo_shows selects st m rev ch :
  bt_sorted m -> recorded m rev ch -> prior ch = fst <$> bt_get (key ch) m ->
  shows selects st (replay1 m ch) -> shows selects (undo selects st ch) m.
Proof.
  intros Hs Hr Hp [Hst Hg]. split; [by apply undo_sorted |]. intros k. specialize (Hg k).
  rewrite replay1_get in Hg by done. rewrite undo_get by done.
  destruct (eqb (key ch) k) eqn:Ek; [apply eqb_sound in Ek; subst k | by rewrite andb_false_r].
  destruct (selects (key ch)) eqn:Es; [| done]. simpl andb. cbv iota. rewrite Hp.
  destruct (bt_get (key ch) m) as [[v meta]|] eqn:G; [| done]. simpl. split; [done |].
  destruct (change_kind ch) eqn:Ek.
  - destruct (rec_put _ _ _ Hr Ek) as [-> _]. by rewrite G.
  - destruct (rec_delete _ _ _ Hr Ek) as [_ [v' Hv']]. rewrite G in Hv'. by injection Hv' as _ ->.
Qed.

Lemma prior_exact m rev ch :
  recorded m rev ch -> (change_kind ch = Delete -> finalizers_released (value ch) = false) ->
  prior ch = fst <$> bt_get (key ch) m.
Proof. intros Hr Hn. destruct (rec_prior _ _ _ Hr) as [? | (Hk & Hf & _)]; [done |]. by rewrite Hn in Hf. Qed.

(** Undoing a tape, newest change first, shows where it started. *)
Lemma rewind_shows selects chs m st :
  tape m chs -> no_release chs -> bt_sorted m -> shows selects st (replay chs m) ->
  shows selects (fold_left (undo selects) (rev chs) st) m.
Proof.
  induction 1 as [m | m rv ch chs Hr _ IH]; intros Hn Hs Hst; [done |].
  inversion Hn as [|? ? Hch Hn']; subst. cbn [List.rev]. rewrite fold_left_app. simpl.
  eapply undo_shows; [done | exact Hr | by eapply prior_exact |].
  apply IH; [done | by apply replay1_sorted | exact Hst].
Qed.

(** The live entries, before anything is undone. *)
Definition live (l : list (ResourceKey * (json * VersionMeta))) : btmap ResourceKey AsOf.t :=
  map (fun e => (e.1, AsOf.Live e.2.1 e.2.2)) l.

Lemma live_spec l : live l = bt_map_values (fun _ e => AsOf.Live e.1 e.2) l.
Proof. done. Qed.

Lemma live_shows selects m :
  bt_sorted m -> shows selects (live (List.filter (fun e => selects e.1) m)) m.
Proof.
  intros Hs. rewrite live_spec. split; [by apply bt_map_values_sorted, bt_filter_sorted |].
  intros k. rewrite bt_get_map_values, bt_get_filter by done.
  destruct (selects k); [| done]. by destruct (bt_get k m) as [[v meta]|].
Qed.

Lemma rewind_filter selects m newer :
  bt_sorted m ->
  rewind (List.filter (fun e => selects e.1) m) newer selects =
  fold_left (undo selects) (rev newer) (live (List.filter (fun e => selects e.1) m)).
Proof.
  intros Hs. unfold rewind. f_equal. apply bt_of_list_id.
  change (bt_sorted (live (List.filter (fun e => selects e.1) m))).
  rewrite live_spec. by apply bt_map_values_sorted, bt_filter_sorted.
Qed.

(** ** The window of a past read *)

Section Past.
Context `{SerdeJsonLaws} `{PatchSchemaEnv} `{OpDecoderLaws} `{Blake3} `{ErrorText}.
Context (c : ResourceCatalog) (log : list Change) (entries : list LogEntry).
Hypothesis Hok : catalog_ok c log.
Hypothesis Hw : wf_entries entries = true.
Hypothesis Hroom : revision_of c + Z.of_nat (length entries) <= Word.u64_max.
Hypothesis Hno : no_release (run c entries).1.
Hypothesis Hkept : compacted_revision (run c entries).2 <= revision_of c.

Let c' : ResourceCatalog := (run c entries).2.
Let chs : list Change := (run c entries).1.

Lemma run_facts : run_spec c log chs c'.
Proof using Hok Hw Hroom H0 H2 H3. by apply run_correct. Qed.

Lemma past_since : since (history c') (revision_of c) = Ok chs.
Proof using Hok Hw Hroom Hkept H0 H3.
  pose proof (run_window entries c log Hok Hw Hroom) as Hwin. unfold changes_after in Hwin.
  fold c' in Hwin, Hkept. rewrite Hwin. by rewrite (proj2 (Z.ltb_ge _ _) Hkept).
Qed.

Lemma past_shows selects :
  shows selects (rewind (List.filter (fun e => selects e.1) (resources c')) chs selects) (resources c).
Proof using Hok Hw Hroom Hno H0 H3.
  destruct run_facts as [Hok' Hres Htape _ _ _ _].
  rewrite rewind_filter by apply Hok'. apply rewind_shows; [done | done | apply Hok |].
  rewrite <- Hres. apply live_shows, Hok'.
Qed.

Lemma past_all : shows (fun _ => true) (rewind (resources c') chs (fun _ => true)) (resources c).
Proof using Hok Hw Hroom Hno H0 H3.
  pose proof (past_shows (fun _ => true)) as Hp. simpl in Hp.
  by rewrite filter_all in Hp by (by apply Forall_forall).
Qed.

(** The retained changes at or below the past revision are the logged ones
    above the floor. *)
Lemma past_split :
  split (history c') (revision_of c) = Ok (changes_above (compacted_revision c') log, chs).
Proof using Hok Hw Hroom Hkept H0 H3.
  destruct run_facts as [Hok' _ _ Hnew _ _ _]. fold c' in Hkept.
  rewrite (backed_split _ _ _ (ok_history _ _ Hok')).
  unfold compacted_revision in *. rewrite (proj2 (Z.ltb_ge _ _) Hkept). f_equal. f_equal.
  - rewrite (backed_ring _ _ (ok_history _ _ Hok')), changes_above_app, List.filter_app.
    rewrite (filter_all _ (changes_above _ log)), filter_none, app_nil_r; [done | |];
      apply List.Forall_forall; intros ch Hin; apply filter_In in Hin as [Hin _].
    + rewrite List.Forall_forall in Hnew. specialize (Hnew ch Hin). apply Z.leb_gt. lia.
    + pose proof (backed_head _ _ (ok_history _ _ Hok)) as Hh. rewrite List.Forall_forall in Hh.
      apply Z.leb_le. by apply Hh.
  - rewrite changes_above_app, changes_above_none, changes_above_all by (done || apply (ok_history _ _ Hok)).
    done.
Qed.

End Past.

(** ** Metadata of a past entry *)

(** The second pass sets the metadata of the last change of each key. *)
Lemma refine_get through st k :
  bt_get k (fold_left refine_meta through st) =
  match bt_get k st, last (on_key k through) with
  | Some e, Some ch => Some (mkHistoricalEntry (entry_value e) (version_meta ch) Exact)
  | o, _ => o
  end.
Proof.
  induction through as [|ch through IH] using rev_ind.
  - simpl. by destruct (bt_get k st).
  - rewrite fold_left_app. simpl. unfold refine_meta at 1, on_key. rewrite List.filter_app. simpl.
    destruct (eqb (key ch) k) eqn:E; bool_to_prop.
    + subst. rewrite last_snoc. destruct (bt_get (key ch) st) as [e|] eqn:G.
      * destruct (last (on_key (key ch) through)) as [ch'|]; rewrite IH; by rewrite bt_get_insert_eq.
      * by rewrite IH, IH.
    + rewrite app_nil_r. destruct (bt_get (key ch) _); [rewrite bt_get_insert_ne by auto |]; apply IH.
Qed.

(** The last change of a key above [f], when changes are in order. *)
Lemma last_above log k f :
  in_order log ->
  last (on_key k (changes_above f log)) =
  match last (on_key k log) with
  | Some ch => if f <? revision ch then Some ch else None
  | None => None
  end.
Proof.
  intros Ho. induction log as [|x log IH] using rev_ind; [done |].
  assert (in_order log /\ Forall (fun ch => revision ch <= revision x) log) as [Ho' Hx].
  { clear IH. induction log as [|y log IHl]; [by split; constructor |].
    inversion Ho as [|? ? Ho1 Hy]; subst. destruct (IHl Ho1) as [Ha Hb].
    apply Forall_app in Hy as [Hy1 Hy2]. inversion Hy2; subst. by split; constructor. }
  rewrite changes_above_app. unfold on_key in *. rewrite !List.filter_app. simpl.
  destruct (Z.ltb_spec f (revision x)) as [Hlt | Hge]; simpl.
  - destruct (eqb (key x) k); [rewrite !last_snoc; by rewrite (proj2 (Z.ltb_lt _ _) Hlt) |].
    rewrite !app_nil_r. by apply IH.
  - rewrite changes_above_none; [| eapply Forall_weaken; [exact Hx |]; simpl; intros; lia]. simpl.
    destruct (eqb (key x) k); [by rewrite last_snoc, (proj2 (Z.ltb_ge _ _) Hge) |].
    rewrite app_nil_r.
    match goal with |- _ = match ?x with _ => _ end => destruct x as [ch|] eqn:El end; [| done].
    apply last_on_key_In in El as [Hin _]. rewrite List.Forall_forall in Hx. specialize (Hx _ Hin).
    by rewrite (proj2 (Z.ltb_ge _ _)) by lia.
Qed.

(** A historical entry is faithful to the entry of [m] it reports: the value is
    exact, and the metadata is exact or declared a floor. *)
Definition faithful (h : option HistoricalEntry) (e : option (json * VersionMeta)) : Prop :=
  match h, e with
  | Some h, Some (v, m) =>
      entry_value h = v /\
      match fidelity h with
      | Exact => entry_meta h = m
      | ModRevisionFloor =>
          create_revision (entry_meta h) = create_revision m /\
          mod_revision m <= mod_revision (entry_meta h)
      end
  | None, None => True
  | _, _ => False
  end.

Section PastReads.
Context `{SerdeJsonLaws} `{PatchSchemaEnv} `{OpDecoderLaws} `{Blake3} `{ErrorText}.
Context (c : ResourceCatalog) (log : list Change) (entries : list LogEntry).
Hypothesis Hok : catalog_ok c log.
Hypothesis Hw : wf_entries entries = true.
Hypothesis Hroom : revision_of c + Z.of_nat (length entries) <= Word.u64_max.
Hypothesis Hno : no_release (run c entries).1.
Hypothesis Hkept : compacted_revision (run c entries).2 <= revision_of c.

Lemma past_meta k v m :
  bt_get k (resources c) = Some (v, m) ->
  match last (on_key k (changes_above (compacted_revision (run c entries).2) log)) with
  | Some ch => version_meta ch = m
  | None => mod_revision m <= compacted_revision (run c entries).2
  end.
Proof using Hok Hw Hroom H0 H3.
  intros Hg. pose proof (ok_tracked _ _ Hok k v m Hg) as Ht.
  rewrite last_above by apply (ok_history _ _ Hok).
  destruct (run_correct entries c log Hok Hw Hroom) as [_ _ _ _ _ _ Hfl].
  unfold compacted_revision in *. destruct (last (on_key k log)) as [ch|]; [| lia].
  destruct Ht as (_ & Hv & Hr). destruct (Z.ltb_spec (floor (history (run c entries).2)) (revision ch)); [done | lia].
Qed.

Lemma state_at_faithful :
  exists st, state_at (run c entries).2 (revision_of c) = Ok st /\
    forall k, faithful (bt_get k st) (bt_get k (resources c)).
Proof using Hok Hw Hroom Hno Hkept H0 H3.
  unfold state_at. rewrite (past_split c log entries Hok Hw Hroom Hkept). simpl result_bind.
  eexists. split; [done |]. intros k. rewrite refine_get, bt_get_map_values.
  destruct (past_all c log entries Hok Hw Hroom Hno) as [_ Hs]. specialize (Hs k). simpl in Hs.
  destruct (bt_get k (rewind _ _ _)) as [a|], (bt_get k (resources c)) as [[v m]|] eqn:G; try done.
  destruct Hs as [Hv Hm]. pose proof (past_meta k v m G) as Hpm. cbn [fmap option_fmap option_map].
  destruct (last (on_key k _)) as [ch|]; simpl.
  - split; [by destruct a | done].
  - split; [by destruct a |]. by destruct a.
Qed.

Lemma read_one_past k :
  secret_fault c k = None ->
  read_one (run c entries).2 k (ReadConsistency.Exact (revision_of c)) = Ok (get c k).
Proof using Hok Hw Hroom Hno Hkept H0 H3.
  intros Hf. destruct (run_correct entries c log Hok Hw Hroom) as [Hok' Hres _ Hnew Hun Hhd _].
  unfold read_one, secret_fault in *. rewrite Hun, Hf. unfold read_point, judge.
  unfold revision_of, compacted_revision in *.
  rewrite (proj2 (Z.ltb_ge _ _) Hhd), (proj2 (Z.ltb_ge _ _) Hkept).
  destruct (Z.ltb_spec (head (history c)) (head (history (run c entries).2))) as [Hlt | Hge].
  - cbn [result_bind]. unfold newer_than.
    pose proof (past_since c log entries Hok Hw Hroom Hkept) as Hsince.
    unfold revision_of in Hsince. rewrite Hsince. cbn [result_bind]. f_equal.
    destruct (past_shows c log entries Hok Hw Hroom Hno (fun k' => eqb k' k)) as [_ Hs].
    specialize (Hs k). rewrite eqb_refl in Hs.
    assert (List.filter (fun e => eqb e.1 k) (resources (run c entries).2) =
      match bt_get k (resources (run c entries).2) with Some e => [(k, e)] | None => [] end) as Hfil.
    { apply bt_ext; [apply bt_filter_sorted, Hok' | case_match; repeat constructor |]. intros k'.
      rewrite (bt_get_filter (fun k' => eqb k' k)) by apply Hok'.
      destruct (eqb k' k) eqn:E; bool_to_prop.
      - subst. case_match; simpl; by rewrite ?cmp_refl.
      - case_match; [| done]. simpl. destruct (cmp k' k) eqn:Ec; try done. by apply cmp_eq in Ec. }
    rewrite Hfil in Hs. unfold get.
    destruct (bt_get k (rewind _ _ _)) as [a|], (bt_get k (resources c)) as [[v m]|]; try done.
    simpl. by destruct Hs as [-> _].
  - cbn [result_bind]. f_equal. unfold get. rewrite Hres.
    pose proof (backed_head _ _ (ok_history _ _ Hok')) as Hh. apply Forall_app in Hh as [_ Hh].
    destruct (run c entries).1 as [|ch chs]; [done |].
    inversion Hnew; inversion Hh; subst. lia.
Qed.

(** The rewound scope, value by value. *)
Lemma shows_values selects st m :
  shows selects st m -> bt_sorted m ->
  map (fun e => (e.1, AsOf.value e.2)) st = values_of (List.filter (fun e => selects e.1) m).
Proof.
  intros [Hst Hg] Hs.
  change (bt_map_values (fun _ => AsOf.value) st =
          bt_map_values (fun _ e => e.1) (List.filter (fun e => selects e.1) m)).
  apply bt_ext; [by apply bt_map_values_sorted | by apply bt_map_values_sorted, bt_filter_sorted |].
  intros k. rewrite !bt_get_map_values, bt_get_filter by done. specialize (Hg k).
  destruct (selects k); [| by rewrite Hg].
  destruct (bt_get k st) as [a|], (bt_get k m) as [[v meta]|]; try done. simpl. by destruct Hg as [-> _].
Qed.

Lemma filter_map_key {V W} (f : V -> W) (p : ResourceKey -> bool) (l : list (ResourceKey * V)) :
  map (fun e => (e.1, f e.2)) (List.filter (fun e => p e.1) l) =
  List.filter (fun e => p e.1) (map (fun e => (e.1, f e.2)) l).
Proof. induction l as [|[k v] l IH]; simpl; [done |]. destruct (p k); simpl; by rewrite IH. Qed.

Lemma run_of_filter {V} s (m : btmap ResourceKey V) after :
  run_of s m after = List.filter (fun e => selects s after e.1) m.
Proof. unfold run_of. by rewrite range_filter. Qed.

Lemma run_of_scope {V} s (m : btmap ResourceKey V) :
  run_of s m None = List.filter (fun e => contains s e.1) m.
Proof.
  rewrite run_of_filter. apply List.filter_ext. intros e. unfold selects. simpl. apply andb_true_r.
Qed.

Lemma cursor_range {V} after (m : btmap ResourceKey V) :
  default [] (bt_range (after_bound after) Unbounded m) =
  List.filter (fun e => is_none_or (fun k => ltb k e.1) after) m.
Proof.
  unfold bt_range. destruct after as [k|]; simpl; apply List.filter_ext; intros e;
    by rewrite ?andb_true_r.
Qed.

Lemma scope_cursor s after (m : resource_map) :
  values_of (run_of s m after) =
  List.filter (fun e => is_none_or (fun k => ltb k e.1) after)
    (values_of (List.filter (fun e => contains s e.1) m)).
Proof.
  rewrite run_of_filter. unfold values_of.
  rewrite <- (filter_map_key fst (fun k => is_none_or (fun c => ltb c k) after)).
  by rewrite <- filter_andb.
Qed.

Lemma read_page_past s after limit :
  run_of s (unreadable c) None = [] ->
  read_page (run c entries).2 s after limit (ReadConsistency.Exact (revision_of c)) =
  Ok (list_page_at_revision c s after limit).
Proof using Hok Hw Hroom Hno Hkept H0 H3.
  intros Hf. destruct (run_correct entries c log Hok Hw Hroom) as [Hok' Hres _ Hnew Hun Hhd _].
  unfold read_page. rewrite Hun, Hf. unfold read_point, judge.
  unfold list_page_at_revision, revision_of, compacted_revision in *.
  rewrite (proj2 (Z.ltb_ge _ _) Hhd), (proj2 (Z.ltb_ge _ _) Hkept).
  destruct (Z.ltb_spec (head (history c)) (head (history (run c entries).2))) as [Hlt | Hge].
  - cbn [result_bind]. unfold newer_than.
    pose proof (past_since c log entries Hok Hw Hroom Hkept) as Hsince.
    unfold revision_of in Hsince. rewrite Hsince. cbn [result_bind]. unfold page. do 3 f_equal.
    rewrite run_of_scope, cursor_range, scope_cursor.
    rewrite <- (shows_values _ _ _ (past_shows c log entries Hok Hw Hroom Hno (contains s))
      (ok_sorted _ _ Hok)).
    apply (filter_map_key AsOf.value (fun k => is_none_or (fun c => ltb c k) after)).
  - cbn [result_bind]. unfold page. f_equal. rewrite Hres.
    pose proof (backed_head _ _ (ok_history _ _ Hok')) as Hh. apply Forall_app in Hh as [_ Hh].
    destruct (run c entries).1 as [|ch chs]; [simpl; f_equal; lia |].
    inversion Hnew; inversion Hh; subst. lia.
Qed.

End PastReads.

(** ** Paging *)

(** Follow the cursor from page to page, at most [fuel] further pages. *)
Fixpoint pages (fuel : nat) (c : ResourceCatalog) (s : ListScope) (after : option ResourceKey)
    (limit : Z) : list (list (ResourceKey * json)) :=
  let p := page c s after limit in
  items p ::
  match next_key p, fuel with
  | Some k, S fuel => pages fuel c s (Some k) limit
  | _, _ => []
  end.

Lemma take_last_drop {V} (m : btmap ResourceKey V) n k v :
  bt_sorted m -> last (take n m) = Some (k, v) ->
  List.filter (fun e => ltb k e.1) m = drop n m.
Proof.
  intros Hs Hl. rewrite <- (take_drop n m) in Hs. apply bt_sorted_app in Hs as (Hs1 & _ & Hlt).
  rewrite <- (take_drop n m) at 1. rewrite List.filter_app.
  assert (exists l, take n m = l ++ [(k, v)])%list as [l Hl'].
  { destruct (take n m) as [|x l] using rev_ind; [done |]. rewrite last_snoc in Hl. exists l. congruence. }
  rewrite Hl' in *. rewrite filter_none, filter_all; [done | |].
  - apply Forall_app in Hlt as [_ Hlt]. inversion Hlt as [|? ? Hk _]; subst.
    eapply Forall_weaken; [exact Hk |]. intros e. apply ltb_true.
  - apply bt_sorted_app in Hs1 as (_ & _ & Hl1). apply Forall_app. split.
    + eapply Forall_weaken; [exact Hl1 |]. intros e He. inversion He as [|? ? Hek _]; subst.
      apply ltb_false. by left.
    + constructor; [| constructor]. apply ltb_false. by right.
Qed.

(** What is left after a page is what the next page's cursor selects. *)
Lemma next_page_rest c s after n k v :
  bt_sorted (resources c) ->
  last (take n (values_of (run_of s (resources c) after))) = Some (k, v) ->
  values_of (run_of s (resources c) (Some k)) =
  drop n (values_of (run_of s (resources c) after)).
Proof.
  intros Hs. set (L := run_of s (resources c) after).
  assert (bt_sorted L) as HsL by (unfold L; rewrite run_of_filter; by apply bt_filter_sorted).
  change (values_of L) with ((fun e : ResourceKey * (json * VersionMeta) => (e.1, e.2.1)) <$> L).
  rewrite <- fmap_take, fmap_last, <- fmap_drop.
  destruct (last (take n L)) as [[k' e]|] eqn:El; [| done]. simpl. intros [= -> _].
  rewrite <- (take_last_drop L n k e HsL El). unfold values_of.
  assert (In (k, e) L) as Hin.
  { apply last_Some_elem_of in El. apply list_elem_of_In. rewrite <- (take_drop n L). apply elem_of_app. by left. }
  unfold L in Hin |- *. rewrite run_of_filter in Hin. rewrite !run_of_filter.
  apply filter_In in Hin as [_ Hk]. unfold selects in Hk. simpl in Hk. bool_to_prop.
  rewrite <- filter_andb. apply (f_equal (map _)). apply List.filter_ext. intros x.
  unfold selects. simpl. destruct (contains s x.1); [| done]. simpl.
  destruct (ltb k x.1) eqn:Ex; [| by rewrite andb_false_r]. rewrite andb_true_r.
  destruct after as [a|]; [| done]. simpl in *. symmetry. apply ltb_true.
  apply ltb_true in Ex. eapply cmp_trans; [by apply ltb_true | exact Ex].
Qed.

Lemma pages_concat fuel c s after limit :
  bt_sorted (resources c) -> 0 < limit ->
  Z.of_nat (length (values_of (run_of s (resources c) after))) <= Word.u64_max ->
  (length (values_of (run_of s (resources c) after)) <= fuel)%nat ->
  List.concat (pages fuel c s after limit) = values_of (run_of s (resources c) after) /\
  Forall (fun p => Z.of_nat (length p) <= limit) (pages fuel c s after limit).
Proof.
  revert after. induction fuel as [|fuel IH]; intros after Hs Hl Hb Hf; cbn [pages];
    set (R := values_of (run_of s (resources c) after)) in *;
    unfold page; fold R; unfold page_of; rewrite (proj2 (Z.eqb_neq _ _)) by lia; cbn [items next_key];
    (assert (Z.of_nat (length (take (Z.to_nat limit) R)) <= limit) as Hlen
      by (rewrite length_take; lia));
    (assert (Z.of_nat (length (drop (Z.to_nat limit) R)) <= Word.u64_max) as Hb'
      by (rewrite length_drop; lia));
    rewrite Z.min_l by done.
  - assert (R = []) as E by (apply length_zero_iff_nil; lia).
    rewrite E, take_nil, drop_nil. simpl. split; [done |]. repeat constructor. simpl. lia.
  - destruct (Z.ltb_spec 0 (Z.of_nat (length (drop (Z.to_nat limit) R)))) as [Hm | Hm].
    + destruct (last (take (Z.to_nat limit) R)) as [[k v]|] eqn:El; simpl.
      * pose proof (next_page_rest c s after _ k v Hs El) as Hrest. fold R in Hrest.
        destruct (IH (Some k) Hs Hl) as [IH1 IH2]; rewrite ?Hrest, ?length_drop in *; [lia | lia |].
        rewrite IH1. split; [apply take_drop | by constructor].
      * apply last_None in El. apply (f_equal length) in El. rewrite length_take in El.
        rewrite length_drop in Hm. simpl in El. lia.
    + simpl. rewrite app_nil_r. split; [| by repeat constructor].
      apply take_ge. rewrite length_drop in Hm. lia.
Qed.

(** ** Properties *)

(** A past read is exact where no finalizer was released since: after any run
    of log entries whose window is still retained, [state_at] the starting
    revision holds exactly the keys that were live then, each with the value it
    had; its metadata is either exact, or declared a floor, and then the
    creation revision is right and the true modification revision is at most
    the one reported. *)
Theorem state_at_exact `{SerdeJsonLaws} `{PatchSchemaEnv} `{OpDecoderLaws} `{Blake3} `{ErrorText}
    c log entries :
  catalog_ok c log -> wf_entries entries = true ->
  revision_of c + Z.of_nat (length entries) <= Word.u64_max ->
  no_release (run c entries).1 -> compacted_revision (run c entries).2 <= revision_of c ->
  exists st, state_at (run c entries).2 (revision_of c) = Ok st /\
    forall k, faithful (bt_get k st) (bt_get k (resources c)).
Proof. apply state_at_faithful. Qed.

(** A page read at an exact past revision is the page the catalog served then:
    after any run of log entries that released no finalizer and whose window is
    retained, [read_page] and [read_one] at the earlier revision answer what the
    catalog at that revision answers from its head, so a page series read at its
    first page's revision is one snapshot. *)
Theorem exact_read_is_snapshot `{SerdeJsonLaws} `{PatchSchemaEnv} `{OpDecoderLaws} `{Blake3}
    `{ErrorText} c log entries s after limit k :
  catalog_ok c log -> wf_entries entries = true ->
  revision_of c + Z.of_nat (length entries) <= Word.u64_max ->
  no_release (run c entries).1 -> compacted_revision (run c entries).2 <= revision_of c ->
  (run_of s (unreadable c) None = [] ->
   read_page (run c entries).2 s after limit (ReadConsistency.Exact (revision_of c)) =
   Ok (list_page_at_revision c s after limit)) /\
  (secret_fault c k = None ->
   read_one (run c entries).2 k (ReadConsistency.Exact (revision_of c)) = Ok (get c k)).
Proof.
  intros Hok Hw Hroom Hno Hkept.
  split; [by eapply read_page_past | by eapply read_one_past].
Qed.

(** Paging is complete: following the cursor through a catalog that does not
    change, with any positive page size, returns every item of the scope
    exactly once and in key order, in pages of at most that size, and stops. *)
Theorem paging_complete c log s limit :
  catalog_ok c log -> 0 < limit ->
  Z.of_nat (length (resources c)) <= Word.u64_max ->
  let all := values_of (List.filter (fun e => contains s e.1) (resources c)) in
  List.concat (pages (length (resources c)) c s None limit) = all /\ NoDup all.*1 /\
  Forall (fun p => Z.of_nat (length p) <= limit) (pages (length (resources c)) c s None limit).
Proof.
  intros Hok Hl Hb. cbv zeta.
  assert (length (values_of (run_of s (resources c) None)) <= length (resources c))%nat as Hlen.
  { unfold values_of. rewrite length_map, run_of_filter. apply List.filter_length_le. }
  destruct (pages_concat (length (resources c)) c s None limit (ok_sorted _ _ Hok) Hl
    ltac:(lia) Hlen) as [-> Hsz].
  rewrite run_of_scope. split_and!; [done | | done]. unfold values_of.
  change (map (fun e : ResourceKey * (json * VersionMeta) => (e.1, e.2.1)) ?l)
    with (bt_map_values (fun _ (e : json * VersionMeta) => e.1) l).
  apply bt_keys_NoDup, bt_map_values_sorted, bt_filter_sorted, Hok.
Qed.

(** ** Witnesses *)

#[local] Existing Instance numbered.
#[local] Existing Instance numbered_laws.
#[local] Existing Instance sample_env.
#[local] Existing Instance sample_ops.
#[local] Existing Instance sample_ops_laws.
#[local] Existing Instance zero_blake3.
#[local] Existing Instance zero_blake3_laws.
#[local] Existing Instance sample_text.

(** Two writes after the pod was stored: it is marked for deletion, and another
    pod is created. *)
Definition later : list LogEntry :=
  [entry delete_pod 2;
   entry (ResourceCommand.put (namespaced "" "v1" "Pod" "default" "api") held_pod Reason.Operator) 3].

Lemma later_no_release : no_release (run stored later).1.
Proof. unfold no_release. vm_compute. repeat constructor; discriminate. Qed.

Lemma state_at_exact_witness :
  exists st, state_at (run stored later).2 1 = Ok st /\
    faithful (bt_get pod_key st) (bt_get pod_key (resources stored)) /\
    revision_of (run stored later).2 = 3.
Proof.
  destruct (state_at_exact stored _ later stored_ok eq_refl ltac:(vm_compute; discriminate)
    later_no_release ltac:(vm_compute; discriminate)) as (st & Hst & Hf).
  exists st. split; [exact Hst |]. split; [exact (Hf pod_key) | vm_compute; reflexivity].
Defined.

Lemma exact_read_is_snapshot_witness :
  read_page (run stored later).2 (mkListScope "" "v1" "Pod" None) None 0 (ReadConsistency.Exact 1) =
    Ok (list_page_at_revision stored (mkListScope "" "v1" "Pod" None) None 0) /\
  read_one (run stored later).2 pod_key (ReadConsistency.Exact 1) = Ok (get stored pod_key).
Proof.
  destruct (exact_read_is_snapshot stored _ later (mkListScope "" "v1" "Pod" None) None 0 pod_key stored_ok
    eq_refl ltac:(vm_compute; discriminate) later_no_release ltac:(vm_compute; discriminate)) as [H1 H2].
  split; [apply H1; reflexivity | apply H2; reflexivity].
Defined.

Lemma paging_complete_witness :
  List.concat (pages 2 (run stored later).2 (mkListScope "" "v1" "Pod" None) None 1) =
  values_of (List.filter (fun e => contains (mkListScope "" "v1" "Pod" None) e.1)
    (resources (run stored later).2)).
Proof.
  exact (proj1 (paging_complete (run stored later).2 _ (mkListScope "" "v1" "Pod" None) 1
    (run_ok _ _ _ _ (run_correct later stored _ stored_ok eq_refl ltac:(vm_compute; discriminate)))
    ltac:(lia) ltac:(vm_compute; discriminate))).
Defined.

(** The merge patch by which the finalizer's owner releases the pod. *)
Definition release_pod : ResourceCommand.t :=
  ResourceCommand.patch pod_key
    (JObject [("metadata", JObject [("finalizers", JNull)])]) Reason.Controller.

(** A finalizer release rewrites the past it replaced. The change recorded for
    the removal carries the object as it was left without its finalizers as its
    pre-image; undoing it therefore reports that object at the earlier revision.
    Here the pod is stored at revision 1, marked at revision 2 and released at
    revision 3; the whole window is retained, the reads at revision 2 are
    granted, and both answer a pod without finalizers where the catalog at
    revision 2 held one with them. *)
Theorem release_rewrites_past :
  let c2 := (run empty [entry put_pod 1; entry delete_pod 2]).2 in
  let c3 := (run c2 [entry release_pod 3]).2 in
  revision_of c2 = 2 /\ revision_of c3 = 3 /\ compacted_revision c3 = 0 /\
  (exists v, get c2 pod_key = Some v /\ has_finalizers v = true) /\
  (exists v, read_one c3 pod_key (ReadConsistency.Exact 2) = Ok (Some v) /\
     has_finalizers v = false) /\
  (exists e, get_at c3 pod_key 2 = Ok (Some e) /\
     has_finalizers (entry_value e) = false).
Proof.
  cbv zeta. split_and!; try (vm_compute; reflexivity);
    eexists; (split; [vm_compute; reflexivity | vm_compute; reflexivity]).
Qed.
