(* ===== verification/AtRest.v ===== *)
(** * Secrets at rest

    Models [engenho-store/src/at_rest.rs]: the key identity, the sealer with
    its key state and write policy, loading it from the key file, sealing and
    opening of values and of Raft log entries, and the placeholder a node
    reads where it cannot open an entry.  The AEAD cipher, base64, the key
    derivation and serde's text are parameters with their documented laws; a
    nonce is an argument, so every theorem holds whatever nonce is drawn. *)

From Stdlib Require Import Ascii.
From stdpp Require Import base tactics option list strings numbers.
From S2P Require Import Prelude Text BTreeMap Json Resource Command Read Ssa Pagination Catalog.

Local Open Scope string_scope.
Local Open Scope Z_scope.

Definition KEY_FILE : string := "secrets-at-rest.key".
Definition SEALED_ENTRY_PREFIX : list Z :=
  (as_bytes "ENGENHO-SEALED-ENTRY:v1" ++ [10])%list.
Definition KEY_LEN : nat := 32.
Definition NONCE_LEN : nat := 24.
Definition KEY_ID_DERIVATION : string := "engenho-store secrets-at-rest key id v1".
Definition RESOURCE_AAD : list Z := as_bytes "resource:".
Definition LOG_AAD : list Z := as_bytes "log-entry:".

(** ** Bytes and text *)

Fixpoint of_bytes (l : list Z) : string :=
  match l with
  | [] => ""
  | b :: l => String (ascii_of_byte b) (of_bytes l)
  end.

Definition continuation (b : Z) : bool := (128 <=? b) && (b <=? 191).

(** The well-formed UTF-8 byte sequences. *)
Fixpoint utf8_valid (l : list Z) : bool :=
  match l with
  | [] => true
  | a :: l1 =>
      if a <=? 127 then utf8_valid l1
      else
        match l1 with
        | b :: l2 =>
            if (194 <=? a) && (a <=? 223) then continuation b && utf8_valid l2
            else
              match l2 with
              | c :: l3 =>
                  if (224 <=? a) && (a <=? 239) then
                    (if a =? 224 then (160 <=? b) && (b <=? 191)
                     else if a =? 237 then (128 <=? b) && (b <=? 159)
                     else continuation b) && continuation c && utf8_valid l3
                  else
                    match l3 with
                    | d :: l4 =>
                        (240 <=? a) && (a <=? 244) &&
                        (if a =? 240 then (144 <=? b) && (b <=? 191)
                         else if a =? 244 then (128 <=? b) && (b <=? 143)
                         else continuation b) &&
                        continuation c && continuation d && utf8_valid l4
                    | [] => false
                    end
              | [] => false
              end
        | [] => false
        end
  end.

(** [std::str::from_utf8]. *)
Definition from_utf8 (l : list Z) : option string :=
  if utf8_valid l then Some (of_bytes l) else None.

(** [slice::strip_prefix]. *)
Fixpoint strip_bytes (p l : list Z) : option (list Z) :=
  match p, l with
  | [], _ => Some l
  | a :: p, b :: l => if a =? b then strip_bytes p l else None
  | _, _ => None
  end.

(** ** Key identity *)

Module KeyId.
(** [blake3::derive_key]: a context string and the key material. *)
Definition of_key (derive_key : string -> list Z -> list Z) (key : list Z) : KeyId :=
  take 8 (derive_key KEY_ID_DERIVATION key).

(** [{byte:02x}] for each byte. *)
Definition hex (id : KeyId) : string := to_hex id.

(** [u8::from_str_radix(pair, 16)]: digits of either case, an optional [+]. *)
Definition parse_pair (a b : Z) : option Z :=
  if a =? 43 then nibble b
  else nibble a ≫= fun hi => nibble b ≫= fun lo => Some (hi * 16 + lo).

Fixpoint parse_pairs (l : list Z) : option KeyId :=
  match l with
  | a :: b :: l => parse_pair a b ≫= fun x => parse_pairs l ≫= fun id => Some (x :: id)
  | _ => Some []
  end.

Definition parse (s : string) : option KeyId :=
  let bytes := as_bytes s in
  if negb (Nat.eqb (length bytes) 16) || negb (forallb (fun b => b <=? 127) bytes) then None
  else parse_pairs bytes.
End KeyId.

Definition parse_key_id (text : string) : option KeyId := KeyId.parse text.

(** ** The sealer *)

Module SealWrites.
Inductive t : Type := Seal | Plain.
#[global] Instance eq_dec : EqDecision t.
Proof. solve_decision. Defined.
End SealWrites.

(** [Held] keeps the key the cipher was made from. *)
Module KeyState.
Inductive t : Type := Held (cipher : list Z) (id : KeyId) | Absent | Unusable.
End KeyState.

Record SecretSealer : Type := mkSecretSealer {
  writes : SealWrites.t;
  key_state : KeyState.t;
  pinned : option KeyId
}.

#[export] Instance KeyId_eq_dec : EqDecision KeyId.
Proof. unfold KeyId. apply _. Defined.

(** What [fs::read] answers on the key file. *)
Module KeyFile.
Inductive t : Type := Missing | Present (bytes : list Z) | Unreadable.
End KeyFile.

Definition read_key (f : KeyFile.t) : result (option (list Z)) unit :=
  match f with
  | KeyFile.Present bytes =>
      if Nat.eqb (length bytes) KEY_LEN then Ok (Some bytes) else Err tt
  | KeyFile.Missing => Ok None
  | KeyFile.Unreadable => Err tt
  end.

(** What the filesystem does while a key is generated: whether the directory
    can be prepared, the fresh key drawn, whether the exclusive create
    succeeds, and the file another process may have put there first. *)
Inductive WriteOnce : Type := Created | AlreadyExisted.

Record Generation : Type := mkGeneration {
  prepared : result unit string;
  fresh : list Z;
  write_new : result WriteOnce string;
  raced : KeyFile.t
}.

(** The key, and the key file afterwards. *)
Definition generate_key (g : Generation) (f : KeyFile.t) : result (list Z) string * KeyFile.t :=
  match prepared g with
  | Err e => (Err e, f)
  | Ok _ =>
      match write_new g with
      | Err e => (Err e, f)
      | Ok Created => (Ok (fresh g), KeyFile.Present (fresh g))
      | Ok AlreadyExisted =>
          (match read_key (raced g) with
           | Ok (Some key) => Ok key
           | _ => Err (KEY_FILE ++ " exists and cannot be used")
           end, raced g)
      end
  end.

Definition load (derive_key : string -> list Z -> list Z) (f : KeyFile.t) (g : Generation)
    (writes : SealWrites.t) (pinned : option KeyId) : SecretSealer * KeyFile.t :=
  let finish key := mkSecretSealer writes
    (match key with
     | Some key => KeyState.Held key (KeyId.of_key derive_key key)
     | None => KeyState.Absent
     end) pinned in
  let unusable := mkSecretSealer writes KeyState.Unusable pinned in
  match read_key f with
  | Ok (Some key) => (finish (Some key), f)
  | Err _ => (unusable, f)
  | Ok None =>
      if is_some pinned || eqb writes SealWrites.Plain then (finish None, f)
      else
        match generate_key g f with
        | (Ok key, f') => (finish (Some key), f')
        | (Err _, f') => (unusable, f')
        end
  end.

Definition pin_to_record (s : SecretSealer) : option KeyId :=
  match key_state s, pinned s with
  | KeyState.Held _ id, None => Some id
  | _, _ => None
  end.

Definition write_fault (s : SecretSealer) : option SealFault.t :=
  if eqb (writes s) SealWrites.Plain then None
  else
    match key_state s, pinned s with
    | KeyState.Held _ id, Some wanted =>
        if negb (eqb id wanted) then Some (SealFault.WrongKey wanted id) else None
    | KeyState.Held _ _, None => None
    | KeyState.Absent, Some wanted => Some (SealFault.KeyMissing wanted)
    | KeyState.Absent, None | KeyState.Unusable, _ => Some SealFault.KeyUnusable
    end.

Definition sealer_seals (s : SecretSealer) : bool :=
  eqb (writes s) SealWrites.Seal && is_none (write_fault s).

Definition damaged (s : SecretSealer) : SealFault.t :=
  match key_state s with
  | KeyState.Held _ id => SealFault.Damaged id
  | _ => SealFault.KeyUnusable
  end.

(** ** Sealing and opening *)

(** XChaCha20-Poly1305 with associated data. *)
Class Aead : Type := {
  encrypt : list Z -> list Z -> list Z -> list Z -> option (list Z);
  decrypt : list Z -> list Z -> list Z -> list Z -> option (list Z)
}.

(** What an AEAD promises: decryption inverts encryption under the same key,
    nonce and associated data, and authentication fails under other data. *)
Class AeadLaws `{Aead} : Prop := {
  decrypt_encrypt : forall k n a m c, encrypt k n a m = Some c -> decrypt k n a c = Some m;
  decrypt_other_aad : forall k n a a' m c,
    encrypt k n a m = Some c -> a' <> a -> decrypt k n a' c = None;
  encrypt_bytes : forall k n a m c,
    encrypt k n a m = Some c -> Forall (fun b => is_byte b = true) c
}.

(** Base64, standard alphabet. *)
Class Base64 : Type := {
  b64_encode : list Z -> string;
  b64_decode : string -> option (list Z)
}.

Class Base64Laws `{Base64} : Prop := {
  b64_decode_encode : forall l,
    Forall (fun b => is_byte b = true) l -> b64_decode (b64_encode l) = Some l;
  b64_ascii : forall l,
    Forall (fun b => is_byte b = true) l -> Forall (fun b => b <= 127) (as_bytes (b64_encode l))
}.

(** [serde_json::to_vec] of a key; two keys never share a text. *)
Class KeySerde : Type := { key_bytes : ResourceKey -> list Z }.
Class KeySerdeLaws `{KeySerde} : Prop := {
  key_bytes_inj : forall k k', key_bytes k = key_bytes k' -> k = k'
}.

Section Seal.
Context `{SerdeJson} `{Aead} `{Base64} `{KeySerde}.

Definition resource_aad (k : ResourceKey) : list Z := (RESOURCE_AAD ++ key_bytes k)%list.

Definition log_aad (header : list Z) : list Z := (LOG_AAD ++ header)%list.

(** [nonce] is what the generator draws. *)
Definition seal (s : SecretSealer) (nonce aad plain : list Z) : result string SealFault.t :=
  match key_state s, write_fault s with
  | KeyState.Held cipher id, None =>
      let? body := ok_or (encrypt cipher nonce aad plain) (SealFault.Damaged id) in
      let sealed := (nonce ++ body)%list in
      Ok (ENVELOPE_PREFIX ++ KeyId.hex id ++ ":" ++ b64_encode sealed)
  | _, fault => Err (default SealFault.KeyUnusable fault)
  end.

Definition open (s : SecretSealer) (aad : list Z) (envelope : string)
  : result (list Z) SealFault.t :=
  let unparsed := damaged s in
  let? rest := ok_or (strip_prefix ENVELOPE_PREFIX envelope) unparsed in
  let? parts := ok_or (split_once ":"%char rest) unparsed in
  let? wanted := ok_or (KeyId.parse parts.1) unparsed in
  match key_state s with
  | KeyState.Absent => Err (SealFault.KeyMissing wanted)
  | KeyState.Unusable => Err SealFault.KeyUnusable
  | KeyState.Held cipher have =>
      if negb (eqb have wanted) then Err (SealFault.WrongKey wanted have)
      else
        let? sealed := ok_or (b64_decode parts.2) (SealFault.Damaged have) in
        if (length sealed <? NONCE_LEN)%nat then Err (SealFault.Damaged have)
        else
          ok_or (decrypt cipher (take NONCE_LEN sealed) aad (drop NONCE_LEN sealed))
            (SealFault.Damaged have)
  end.

Definition sealer_seal_value (s : SecretSealer) (nonce : list Z) (k : ResourceKey) (v : json)
  : result json SealFault.t :=
  result_map JString (seal s nonce (resource_aad k) (as_bytes (json_text v))).

Definition sealer_open_value (s : SecretSealer) (k : ResourceKey) (envelope : string)
  : result json SealFault.t :=
  let? plain := open s (resource_aad k) envelope in
  ok_or (parse_json (of_bytes plain)) (damaged s).

(** The sealer as the catalog uses it; [draw] is the nonce drawn for each key
    of the image being written. *)
Definition sealer_of (s : SecretSealer) (draw : ResourceKey -> list Z) : Sealer := {|
  seals := sealer_seals s;
  seal_value k := sealer_seal_value s (draw k) k;
  open_value := sealer_open_value s
|}.

End Seal.

(** ** Log entries *)

(** [openraft::EntryPayload] and [openraft::Entry]. *)
Inductive EntryPayload (Membership : Type) : Type :=
  | Blank
  | Normal (logged : LoggedCommand)
  | MembershipChange (m : Membership).
Arguments Blank {_}.
Arguments Normal {_} _.
Arguments MembershipChange {_} _.

Record Entry (LogId Membership : Type) : Type := mkEntry {
  log_id : LogId;
  payload : EntryPayload Membership
}.
Arguments mkEntry {_ _} _ _.
Arguments log_id {_ _} _.
Arguments payload {_ _} _.

Inductive EntryRefused : Type :=
  | Encode (e : string)
  | Fault (f : SealFault.t)
  | Placeholder (index : Z).

(** [serde_json] on entries and log ids. *)
Class EntrySerde (LogId Membership : Type) : Type := {
  entry_to_vec : Entry LogId Membership -> result (list Z) string;
  entry_from_slice : list Z -> result (Entry LogId Membership) string;
  log_id_to_vec : LogId -> result (list Z) string;
  log_id_from_slice : list Z -> result LogId string
}.

(** Both round-trip; an entry is written as a JSON object; compact JSON holds
    no line feed. *)
Class EntrySerdeLaws `{EntrySerde LogId Membership} : Prop := {
  entry_from_to : forall e b, entry_to_vec e = Ok b -> entry_from_slice b = Ok e;
  entry_is_object : forall e b, entry_to_vec e = Ok b -> exists rest, b = 123 :: rest;
  log_id_from_to : forall l b, log_id_to_vec l = Ok b -> log_id_from_slice b = Ok l;
  log_id_one_line : forall l b, log_id_to_vec l = Ok b -> Forall (fun x => x <> 10) b
}.

(** The bytes before the first line feed, and those after it. *)
Fixpoint split_line (l : list Z) : option (list Z * list Z) :=
  match l with
  | [] => None
  | x :: l =>
      if x =? 10 then Some ([], l)
      else match split_line l with Some (a, b) => Some (x :: a, b) | None => None end
  end.

Definition split_sealed_entry (bytes : list Z) : option (list Z * list Z) :=
  strip_bytes SEALED_ENTRY_PREFIX bytes ≫= split_line.

Section Entries.
Context {LogId Membership : Type} `{Aead} `{Base64} `{EntrySerde LogId Membership}.
(** [LogId::index]. *)
Context (index : LogId -> Z).

Definition encode_entry (s : SecretSealer) (nonce : list Z) (entry : Entry LogId Membership)
  : result (list Z) EntryRefused :=
  let plain_text := result_map_err Encode (entry_to_vec entry) in
  match payload entry with
  | Normal logged =>
      let cmd := command logged in
      if ResourceCommand.is_sealed_placeholder cmd then Err (Placeholder (index (log_id entry)))
      else if eqb (writes s) SealWrites.Plain
              || negb (existsb is_sealed_kind (ResourceCommand.keys cmd)) then plain_text
      else
        let? plain := plain_text in
        let? header := result_map_err Encode (log_id_to_vec (log_id entry)) in
        let? envelope := result_map_err Fault (seal s nonce (log_aad header) plain) in
        Ok (SEALED_ENTRY_PREFIX ++ header ++ 10 :: as_bytes envelope)%list
  | _ => plain_text
  end.

Definition open_log_entry (s : SecretSealer) (header envelope : list Z)
  : result (list Z) SealFault.t :=
  let? envelope := ok_or (from_utf8 envelope) (damaged s) in
  open s (log_aad header) envelope.

Definition placeholder_entry (id : LogId) : Entry LogId Membership :=
  mkEntry id (Normal (proposed ResourceCommand.sealed_placeholder)).

Definition decode_entry (s : SecretSealer) (bytes : list Z)
  : result (Entry LogId Membership) string :=
  match split_sealed_entry bytes with
  | None => entry_from_slice bytes
  | Some (header, envelope) =>
      let? id := log_id_from_slice header in
      match open_log_entry s header envelope with
      | Ok plain => entry_from_slice plain
      | Err _ => Ok (placeholder_entry id)
      end
  end.

Definition entry_fault (s : SecretSealer) (bytes : list Z) : option SealFault.t :=
  split_sealed_entry bytes ≫= fun '(header, envelope) =>
  match open_log_entry s header envelope with Ok _ => None | Err f => Some f end.

End Entries.
