(* ===== verification/AtRestFacts.v ===== *)
(** * What sealing promises

    A sealed value opens under its key at its own resource and nowhere else;
    the stored image holds no sealed kind in the clear and loads back to the
    catalog that wrote it; a sealed log entry round-trips, and where it cannot
    be opened it reads as a placeholder that can be stored nowhere; a store
    keeps its key across restarts.  The catalog's theorem is proved against
    [SealerLaws], which [sealer_of] discharges. *)

From Stdlib Require Import Sorted Ascii.
From stdpp Require Import base tactics option list strings numbers.
From S2P Require Import Prelude Text BTreeMap Json Resource WatchHistory Command Read.
From S2P Require Import PatchFacts Ssa SsaFacts Pagination Catalog CatalogFacts CatalogTheorems AtRest.

Local Open Scope string_scope.
Local Open Scope Z_scope.

(** ** Text *)

Definition bytes (l : list Z) : Prop := Forall (fun b => is_byte b = true) l.

Lemma byte_of_ascii_range c : is_byte (byte_of_ascii c) = true.
Proof.
  unfold is_byte, byte_of_ascii. pose proof (N_ascii_bounded c).
  apply andb_true_iff. split; apply Z.leb_le; lia.
Qed.

Lemma ascii_of_byte_of_ascii c : ascii_of_byte (byte_of_ascii c) = c.
Proof. unfold ascii_of_byte, byte_of_ascii. rewrite N2Z.id. apply ascii_N_embedding. Qed.

Lemma as_bytes_bytes s : bytes (as_bytes s).
Proof. induction s; constructor; [apply byte_of_ascii_range | done]. Qed.

Lemma of_as_bytes s : of_bytes (as_bytes s) = s.
Proof. induction s as [|c s IH]; simpl; [done |]. by rewrite ascii_of_byte_of_ascii, IH. Qed.

Lemma as_bytes_app s t : as_bytes (s ++ t) = (as_bytes s ++ as_bytes t)%list.
Proof. induction s as [|c s IH]; [done |]. rewrite string_app_cons. simpl. by rewrite IH. Qed.

Definition ascii_text (s : string) : Prop := Forall (fun b => b <= 127) (as_bytes s).

Lemma utf8_ascii l : Forall (fun b => b <= 127) l -> utf8_valid l = true.
Proof. induction 1 as [|b l Hb _ IH]; simpl; [done |]. by rewrite (proj2 (Z.leb_le _ _) Hb). Qed.

Lemma from_utf8_ascii s : ascii_text s -> from_utf8 (as_bytes s) = Some s.
Proof. intros Hs. unfold from_utf8. by rewrite utf8_ascii, of_as_bytes. Qed.

Lemma ascii_text_app s t : ascii_text s -> ascii_text t -> ascii_text (s ++ t).
Proof. unfold ascii_text. rewrite as_bytes_app. intros. by apply Forall_app. Qed.

Lemma strip_bytes_app p l : strip_bytes p (p ++ l) = Some l.
Proof. induction p as [|a p IH]; simpl; [done |]. by rewrite Z.eqb_refl. Qed.

(** ** Key identities *)

Definition id_ok (id : KeyId) : Prop := length id = 8%nat /\ bytes id.

(** Each hex digit of a byte is a plain digit: parsed as written, not a sign,
    not a colon, ASCII. *)
Definition hex_pair_ok (b : Z) : bool :=
  let h := byte_of_ascii (hex_digit (Z.shiftr b 4)) in
  let l := byte_of_ascii (hex_digit (Z.land b 15)) in
  eqb (KeyId.parse_pair h l) (Some b) && (h <=? 127) && (l <=? 127) &&
  negb (Ascii.eqb (hex_digit (Z.shiftr b 4)) ":"%char) &&
  negb (Ascii.eqb (hex_digit (Z.land b 15)) ":"%char).

Lemma hex_pairs b : is_byte b = true -> hex_pair_ok b = true.
Proof. revert b. apply byte_enum. vm_compute. reflexivity. Qed.

Lemma hex_facts id :
  bytes id ->
  KeyId.parse_pairs (as_bytes (KeyId.hex id)) = Some id /\
  length (as_bytes (KeyId.hex id)) = (2 * length id)%nat /\
  ascii_text (KeyId.hex id) /\
  forall rest, split_once ":"%char (KeyId.hex id ++ String ":"%char rest) = Some (KeyId.hex id, rest).
Proof.
  induction 1 as [|b id Hb _ (IH1 & IH2 & IH3 & IH4)]; [split_and!; try done; by constructor |].
  apply hex_pairs in Hb. unfold hex_pair_ok in Hb. repeat setoid_rewrite andb_true_iff in Hb.
  destruct Hb as ((((Hp & Hh) & Hl) & Hch) & Hcl). apply negb_true_iff in Hch, Hcl.
  apply eqb_sound in Hp. apply Z.leb_le in Hh, Hl. unfold KeyId.hex in *. cbn [to_hex as_bytes].
  split_and!.
  - cbn [KeyId.parse_pairs]. rewrite Hp. simpl. by rewrite IH1.
  - simpl. rewrite IH2. lia.
  - unfold ascii_text. cbn [as_bytes]. by repeat constructor.
  - intros rest. rewrite !string_app_cons. cbn [split_once]. by rewrite Hch, Hcl, IH4.
Qed.

Lemma parse_hex id : id_ok id -> KeyId.parse (KeyId.hex id) = Some id.
Proof.
  intros [Hlen Hb]. destruct (hex_facts id Hb) as (Hp & Hl & Ha & _).
  unfold KeyId.parse. rewrite Hl, Hlen. simpl.
  replace (forallb _ _) with true; [done |]. symmetry. apply forallb_forall. intros x Hx.
  unfold ascii_text in Ha. rewrite List.Forall_forall in Ha. by apply Z.leb_le, Ha.
Qed.

(** ** Sealing *)

Definition sealer_ok (s : SecretSealer) : Prop :=
  match key_state s with KeyState.Held _ id => id_ok id | _ => True end.

Definition nonce_ok (n : list Z) : Prop := length n = NONCE_LEN /\ bytes n.

Section Seal.
Context `{AeadLaws} `{Base64Laws}.

Definition envelope_of (id : KeyId) (sealed : list Z) : string :=
  ENVELOPE_PREFIX ++ KeyId.hex id ++ ":" ++ b64_encode sealed.

(** What an envelope of [seal] reads as, under any key state. *)
Lemma open_envelope s aad id n body :
  id_ok id -> nonce_ok n -> bytes body ->
  open s aad (envelope_of id (n ++ body)) =
  match key_state s with
  | KeyState.Absent => Err (SealFault.KeyMissing id)
  | KeyState.Unusable => Err SealFault.KeyUnusable
  | KeyState.Held cipher have =>
      if negb (eqb have id) then Err (SealFault.WrongKey id have)
      else ok_or (decrypt cipher n aad body) (SealFault.Damaged have)
  end.
Proof using H2.
  intros Hid [Hn Hnb] Hb. unfold open, envelope_of. rewrite strip_prefix_app. simpl result_bind.
  change (":" ++ ?x) with (String ":"%char x).
  destruct (hex_facts id (proj2 Hid)) as (_ & _ & _ & ->). simpl result_bind.
  rewrite (parse_hex id Hid). simpl result_bind. destruct (key_state s) as [cipher have | |]; try done.
  case_match; [done |]. rewrite b64_decode_encode by (by apply Forall_app). simpl result_bind.
  rewrite length_app, Hn. replace (NONCE_LEN + length body <? NONCE_LEN)%nat with false
    by (symmetry; apply Nat.ltb_ge; lia).
  by rewrite take_app_length', drop_app_length'.
Qed.

Lemma seal_Ok s n aad plain env :
  seal s n aad plain = Ok env ->
  exists cipher id body, key_state s = KeyState.Held cipher id /\ write_fault s = None /\
    encrypt cipher n aad plain = Some body /\ env = envelope_of id (n ++ body).
Proof.
  unfold seal. destruct (key_state s) as [cipher id | |]; try done.
  destruct (write_fault s); [done |]. destruct (encrypt cipher n aad plain) as [body|] eqn:E; [| done].
  simpl. intros [= <-]. by exists cipher, id, body.
Qed.

Lemma envelope_ascii id l : id_ok id -> bytes l -> ascii_text (envelope_of id l).
Proof using H2.
  intros [_ Hb] Hl. destruct (hex_facts id Hb) as (_ & _ & Ha & _). unfold envelope_of.
  apply ascii_text_app; [repeat constructor; done |]. apply ascii_text_app; [done |].
  apply ascii_text_app; [repeat constructor; done | by apply b64_ascii].
Qed.

(** A sealed text opens to its plain text under the key that sealed it, in
    either write policy. *)
Lemma open_seal s s' n aad plain env :
  sealer_ok s -> nonce_ok n -> seal s n aad plain = Ok env -> key_state s' = key_state s ->
  open s' aad env = Ok plain.
Proof using H0 H2.
  intros Hs Hn Hseal Hk. destruct (seal_Ok _ _ _ _ _ Hseal) as (cipher & id & body & Hks & _ & He & ->).
  unfold sealer_ok in Hs. rewrite Hks in Hs.
  rewrite open_envelope by (done || by eapply encrypt_bytes). rewrite Hk, Hks, eqb_refl. simpl.
  by rewrite (decrypt_encrypt _ _ _ _ _ He).
Qed.
End Seal.

(** ** The catalog's view of a sealer *)

(** What the catalog relies on: a sealed value is an envelope, and opens to
    the value it was made from. *)
Class SealerLaws `{Sealer} : Prop := {
  seal_is_envelope : forall k v w, seal_value k v = Ok w -> is_envelope w = true;
  open_sealed_value : forall k v w,
    wf_json v = true -> seal_value k v = Ok w -> open_value k (default "" (as_str w)) = Ok v
}.

Section Discharge.
Context `{SerdeJsonLaws} `{AeadLaws} `{Base64Laws} `{KeySerde}.

Lemma sealer_seal_value_Ok s n k v w :
  sealer_seal_value s n k v = Ok w ->
  exists env, seal s n (resource_aad k) (as_bytes (json_text v)) = Ok env /\ w = JString env.
Proof.
  unfold sealer_seal_value. destruct (seal _ _ _ _) as [env|]; [| done]. intros [= <-]. by exists env.
Qed.

Lemma envelope_is_envelope id l : is_envelope (JString (envelope_of id l)) = true.
Proof. unfold is_envelope, as_str, is_some_and, envelope_of. by rewrite strip_prefix_app. Qed.

Lemma sealer_open_sealed s s' n k v env :
  sealer_ok s -> nonce_ok n -> wf_json v = true -> key_state s' = key_state s ->
  seal s n (resource_aad k) (as_bytes (json_text v)) = Ok env -> sealer_open_value s' k env = Ok v.
Proof using H0 H2 H4.
  intros Hs Hn Hv Hk Hseal. unfold sealer_open_value.
  rewrite (open_seal _ _ _ _ _ _ Hs Hn Hseal Hk). simpl.
  by rewrite of_as_bytes, parse_json_text.
Qed.

Lemma sealer_of_laws s draw :
  sealer_ok s -> (forall k, nonce_ok (draw k)) -> @SealerLaws (sealer_of s draw).
Proof using H0 H2 H4.
  intros Hs Hd. split; simpl; intros k v w.
  - intros (env & Hseal & ->)%sealer_seal_value_Ok.
    destruct (seal_Ok _ _ _ _ _ Hseal) as (? & ? & ? & _ & _ & _ & ->). apply envelope_is_envelope.
  - intros Hv (env & Hseal & ->)%sealer_seal_value_Ok. simpl. by eapply sealer_open_sealed.
Qed.
End Discharge.

(** ** The image at rest *)

Lemma render_all_Ok {E} (render : ResourceKey -> json -> result json E) l l' :
  render_all render l = Ok l' <->
  Forall2 (fun e e' => e'.1 = e.1 /\ e'.2.2 = e.2.2 /\ render e.1 e.2.1 = Ok e'.2.1) l l'.
Proof.
  revert l'. induction l as [|[k [v m]] l IH]; intros l'; simpl.
  - split; [intros [= <-]; constructor | by inversion 1].
  - rewrite result_bind_Ok. split.
    + intros (v' & Hv & (rest & Hr & [= <-])%result_bind_Ok). constructor; [done | by apply IH].
    + inversion 1 as [|? [k' [v' m']] ? rest (? & ? & Hv) Hr]; simpl in *; subst.
      exists v'. split; [done |]. apply IH in Hr. by rewrite Hr.
Qed.

Lemma NoDup_keys_inj {V} (l : list (ResourceKey * V)) k v w :
  NoDup l.*1 -> In (k, v) l -> In (k, w) l -> v = w.
Proof.
  assert (forall k (v : V) (l : list (ResourceKey * V)), In (k, v) l -> k ∈ l.*1) as Hkey.
  { intros k0 v0 l0 Hin. apply list_elem_of_fmap. exists (k0, v0).
    split; [done | by apply list_elem_of_In]. }
  induction l as [|[k' x] l IH]; [done |]. rewrite fmap_cons, list_relations.list.NoDup_cons. simpl.
  intros [Hni Hnd] [E | Hv] [E' | Hw]; try congruence; auto;
    simplify_eq; exfalso; eauto.
Qed.

(** Where one image entry lands. *)
Lemma loads_at l k e :
  NoDup l.*1 -> In (k, e) l ->
  bt_get k (loads l).1 = (if is_envelope e.1 then None else Some e) /\
  bt_get k (loads l).2 = (if is_envelope e.1 then Some (mkUnreadable e SealFault.Unopened) else None).
Proof.
  intros Hnd Hin. destruct (loads_get l k Hnd) as [Hlive Hseal].
  assert (forall e', In (k, e') l -> e' = e) as Hu by (intros; by eapply NoDup_keys_inj).
  destruct (is_envelope e.1) eqn:Ee; split.
  - destruct (bt_get k (loads l).1) as [e'|]; [| done].
    destruct (proj1 (Hlive e') eq_refl) as [Hin' Hn]. apply Hu in Hin'. congruence.
  - by apply Hseal.
  - by apply Hlive.
  - destruct (bt_get k (loads l).2) as [u|]; [| done].
    destruct (proj1 (Hseal u) eq_refl) as (Hin' & Hn & _). apply Hu in Hin'. congruence.
Qed.

Lemma loads_none l k :
  NoDup l.*1 -> (forall e, ~ In (k, e) l) ->
  bt_get k (loads l).1 = None /\ bt_get k (loads l).2 = None.
Proof.
  intros Hnd Hno. destruct (loads_get l k Hnd) as [Hlive Hseal]. split.
  - destruct (bt_get k (loads l).1) as [e|]; [| done].
    destruct (proj1 (Hlive e) eq_refl) as [Hin _]. by apply Hno in Hin.
  - destruct (bt_get k (loads l).2) as [u|]; [| done].
    destruct (proj1 (Hseal u) eq_refl) as [Hin _]. by apply Hno in Hin.
Qed.

Lemma deserialize_maps r :
  resources (deserialize r) = (loads (repr_resources r)).1 /\
  unreadable (deserialize r) = (loads (repr_resources r)).2 /\
  revision_of (deserialize r) = current_revision r.
Proof.
  unfold deserialize. change (fold_left load_entry ?l ([], [])) with (loads l).
  by destruct (loads (repr_resources r)).
Qed.

Lemma bt_get_cons {V} k k0 (v0 : V) (l : btmap ResourceKey V) :
  bt_sorted ((k0, v0) :: l) ->
  bt_get k ((k0, v0) :: l) = if decide (k = k0) then Some v0 else bt_get k l.
Proof.
  rewrite bt_sorted_cons. intros [_ Hf]. simpl. destruct (cmp k k0) eqn:E.
  - apply cmp_eq in E. by rewrite decide_True.
  - rewrite decide_False by (intros ->; by apply lt_irrefl in E).
    symmetry. by eapply bt_get_below, entry_lt_below.
  - rewrite decide_False; [done |]. intros ->. by rewrite cmp_refl in E.
Qed.

(** What opening makes of a sealed entry. *)
Definition opened `{Sealer} (k : ResourceKey) (u : Unreadable) : result json SealFault.t :=
  open_value k (default "" (as_str (sealed u).1)).

Lemma opens_get `{Sealer} l res unr k :
  bt_sorted l ->
  let acc := fold_left open_entry l (res, unr) in
  bt_get k acc.1 =
    match bt_get k l with
    | Some u => match opened k u with Ok v => Some (v, (sealed u).2) | Err _ => bt_get k res end
    | None => bt_get k res
    end /\
  bt_get k acc.2 =
    match bt_get k l with
    | Some u => match opened k u with Ok _ => bt_get k unr | Err f => Some (mkUnreadable (sealed u) f) end
    | None => bt_get k unr
    end.
Proof.
  revert res unr. induction l as [|[k0 u0] l IH]; intros res unr Hs; [done |]. cbv zeta.
  rewrite (bt_get_cons _ _ _ _ Hs). apply bt_sorted_cons in Hs as [Hs Hf].
  assert (bt_get k0 l = None) as Hnone by (apply bt_get_below; exact Hf).
  cbn [fold_left]. unfold open_entry at 2 4. cbn [fst snd]. fold (opened k0 u0).
  destruct (decide (k = k0)) as [-> | Hne]; destruct (opened k0 u0) as [v|f] eqn:Eo;
    match goal with |- context [fold_left open_entry l (?a, ?b)] =>
      destruct (IH a b Hs) as [-> ->] end;
    rewrite ?Hnone, ?bt_get_insert_eq, ?bt_get_insert_ne by done; done.
Qed.


Section Image.
Context `{SealerLaws} (c : ResourceCatalog) (log : list Change) (r : CatalogRepr).
Hypothesis Hok : catalog_ok c log.
Hypothesis Hplain : Forall (fun e => is_envelope e.2.1 = false) (resources c).
Hypothesis Hseals : seals = true.
Hypothesis Hr : to_rest_repr c = Ok r.

Definition rest_render (k : ResourceKey) (v : json) : result json SealFault.t :=
  if seals && is_sealed_kind k then seal_value k v else Ok v.

(** The entries of the image: each live one rendered, each sealed one as it is. *)
Lemma image_spec :
  NoDup (repr_resources r).*1 /\
  (forall k e, In (k, e) (repr_resources r) <->
     (exists v, bt_get k (resources c) = Some (v, e.2) /\ rest_render k v = Ok e.1) \/
     (exists u, bt_get k (unreadable c) = Some u /\ sealed u = e)) /\
  (forall k v m, bt_get k (resources c) = Some (v, m) -> exists w, rest_render k v = Ok w) /\
  repr_term r = last_applied_term c /\ repr_index r = last_applied_index c /\
  current_revision r = revision_of c.
Proof using Hok Hr.
  unfold to_rest_repr, repr in Hr. apply result_bind_Ok in Hr as (live & Hl & Hr'). injection Hr' as <-.
  apply render_all_Ok in Hl. simpl repr_resources. simpl repr_term.
  set (all := match unreadable c with [] => _ | _ => _ end).
  assert (all ≡ₚ (live ++ map (fun e => (e.1, sealed e.2)) (unreadable c))%list) as Hp.
  { unfold all. destruct (unreadable c); [simpl; by rewrite app_nil_r | apply sort_by_perm]. }
  assert (live.*1 = (resources c).*1) as Hk.
  { clear -Hl. induction Hl as [|? ? ? ? (Hk & _) _ IH]; [done |].
    rewrite !fmap_cons. by rewrite Hk, IH. }
  split_and!; try done.
  - pose proof (image_entries_NoDup c log Hok) as Hnd. rewrite image_entries_perm, fmap_app in Hnd.
    by rewrite Hp, fmap_app, Hk.
  - intros k e. rewrite <- list_elem_of_In, Hp, list_elem_of_In, in_app_iff, in_map_iff.
    setoid_rewrite (bt_get_In k _ _ (ok_sorted _ _ Hok)).
    setoid_rewrite (bt_get_In k _ _ (ok_unreadable _ _ Hok)).
    assert (In (k, e) live <-> exists v, In (k, (v, e.2)) (resources c) /\ rest_render k v = Ok e.1) as ->.
    { clear -Hl. induction Hl as [|[k1 [v1 m1]] [k2 [v2 m2]] ? ? (? & ? & Hv) _ IH]; simpl in *; subst.
      - naive_solver.
      - rewrite IH. fold (rest_render k1 v1) in Hv. destruct e as [w m]; simpl. split.
        + intros [E | (v & Hin & Hw)]; [injection E as -> -> ->; exists v1; auto | exists v; auto].
        + intros (v & [E | Hin] & Hw); [injection E as -> -> ->; left; congruence | eauto]. }
    split; (intros [? | Hs]; [by left | right]).
    + destruct Hs as ([k' u] & [= -> <-] & Hin). by exists u.
    + destruct Hs as (u & Hin & <-). by exists (k, u).
  - intros k v m. rewrite (bt_get_In k _ _ (ok_sorted _ _ Hok)). clear -Hl.
    induction Hl as [|[k1 [v1 m1]] [k2 [v2 m2]] ? ? (? & ? & Hv) _ IH]; simpl in *; [done |].
    intros [E | Hin]; [| auto]. injection E as -> -> ->. by exists v2.
Qed.

(** No sealed kind is written in the clear. *)
Lemma image_sealed k e :
  In (k, e) (repr_resources r) -> is_sealed_kind k = true -> is_envelope e.1 = true.
Proof using Hok Hr Hseals H0.
  intros Hin Hk. apply (proj1 (proj2 image_spec)) in Hin as [(v & _ & Hv) | (u & Hu & <-)].
  - unfold rest_render in Hv. rewrite Hseals, Hk in Hv. simpl in Hv.
    by eapply seal_is_envelope.
  - apply bt_get_In in Hu; [| apply Hok]. pose proof (ok_sealed _ _ Hok) as Hse.
    rewrite List.Forall_forall in Hse. by apply Hse in Hu as [Hu _].
Qed.
(** Load the image and open what is sealed. *)
Lemma reopened_get k :
  let c' := open_sealed (deserialize r) in
  bt_get k (resources c') =
    match bt_get k (resources c), bt_get k (unreadable c) with
    | Some e, _ => Some e
    | None, Some u => match opened k u with Ok v => Some (v, (sealed u).2) | Err _ => None end
    | None, None => None
    end /\
  bt_get k (unreadable c') =
    match bt_get k (unreadable c) with
    | Some u => match opened k u with Ok _ => None | Err f => Some (mkUnreadable (sealed u) f) end
    | None => None
    end.
Proof using All.
  destruct image_spec as (Hnd & Hin & Hren & _). destruct (deserialize_maps r) as (Hres & Hunr & _).
  unfold open_sealed. rewrite Hres, Hunr.
  pose proof (opens_get (loads (repr_resources r)).2 (loads (repr_resources r)).1 [] k
    (proj2 (loads_sorted _))) as Ho. cbv zeta in Ho |- *.
  destruct (fold_left open_entry _ _) as [res unr]. simpl in Ho |- *.
  destruct (bt_get k (resources c)) as [[v m]|] eqn:G.
  - assert (bt_get k (unreadable c) = None) as Hu.
    { destruct (bt_get k (unreadable c)) eqn:E; [| done]. apply (ok_disjoint _ _ Hok) in E. congruence. }
    rewrite Hu. destruct (Hren _ _ _ G) as [w Hw].
    destruct (loads_at _ k (w, m) Hnd) as [H1 H2].
    { apply Hin. left. by exists v. }
    rewrite H1, H2 in Ho. simpl in Ho. unfold rest_render in Hw. rewrite Hseals in Hw.
    destruct (is_sealed_kind k); simpl in Hw.
    + rewrite (seal_is_envelope _ _ _ Hw) in Ho. unfold opened in Ho. simpl in Ho.
      rewrite (open_sealed_value k v w) in Ho; [done | | done].
      exact (values_wf_get _ _ _ (ok_sorted _ _ Hok) (ok_values _ _ Hok) G).
    + injection Hw as <-. rewrite List.Forall_forall in Hplain.
      apply bt_get_In in G; [| apply Hok]. apply Hplain in G. simpl in G. by rewrite G in Ho.
  - destruct (bt_get k (unreadable c)) as [u|] eqn:Hu.
    + destruct (loads_at _ k (sealed u) Hnd) as [H1 H2].
      { apply Hin. right. by exists u. }
      rewrite H1, H2 in Ho. apply bt_get_In in Hu; [| apply Hok].
      pose proof (ok_sealed _ _ Hok) as Hse. rewrite List.Forall_forall in Hse.
      apply Hse in Hu as [Hu _]. simpl in Hu. by rewrite Hu in Ho.
    + destruct (loads_none _ k Hnd) as [H1 H2]; [| by rewrite H1, H2 in Ho].
      intros e He. apply Hin in He. naive_solver congruence.
Qed.
End Image.

(** ** Log entries *)

Lemma split_line_app h rest :
  Forall (fun x => x <> 10) h -> split_line (h ++ 10 :: rest) = Some (h, rest).
Proof.
  induction 1 as [|x h Hx _ IH]; simpl; [done |]. rewrite (proj2 (Z.eqb_neq _ _) Hx). by rewrite IH.
Qed.

Section Entries.
Context {LogId Membership : Type}.
Context `{AeadLaws} `{Base64Laws} `{EntrySerdeLaws LogId Membership}.
Context (index : LogId -> Z).

Lemma split_plain e b : entry_to_vec e = Ok b -> split_sealed_entry b = None.
Proof using H4. intros Hb. destruct (entry_is_object _ _ Hb) as [rest ->]. done. Qed.

Lemma split_record h env :
  Forall (fun x => x <> 10) h ->
  split_sealed_entry (SEALED_ENTRY_PREFIX ++ h ++ 10 :: as_bytes env) = Some (h, as_bytes env).
Proof. intros Hh. unfold split_sealed_entry. rewrite strip_bytes_app. simpl. by apply split_line_app. Qed.

(** An entry is stored as it is, or as a sealed record. *)
Lemma encode_entry_Ok s n (e : Entry LogId Membership) b :
  encode_entry index s n e = Ok b ->
  entry_to_vec e = Ok b \/
  exists plain h env, entry_to_vec e = Ok plain /\ log_id_to_vec (log_id e) = Ok h /\
    seal s n (log_aad h) plain = Ok env /\
    b = (SEALED_ENTRY_PREFIX ++ h ++ 10 :: as_bytes env)%list.
Proof.
  unfold encode_entry.
  assert (forall r : result (list Z) string, result_map_err Encode r = Ok b -> r = Ok b) as Hp.
  { intros [x|x]; simpl; [by intros [= ->] | done]. }
  destruct (payload e) as [|logged|m]; [by left; apply Hp | | by left; apply Hp].
  case_match; [done |]. case_match; [by left; apply Hp |].
  destruct (entry_to_vec e) as [plain|] eqn:E1; [| done].
  destruct (log_id_to_vec (log_id e)) as [h|] eqn:E2; [| done]. simpl.
  destruct (seal s n (log_aad h) plain) as [env|] eqn:E3; [| done]. simpl. intros [= <-].
  right. by exists plain, h, env.
Qed.

Lemma decode_record s (e : Entry LogId Membership) h plain env n s0 :
  sealer_ok s0 -> nonce_ok n -> entry_to_vec e = Ok plain -> log_id_to_vec (log_id e) = Ok h ->
  seal s0 n (log_aad h) plain = Ok env ->
  let b := (SEALED_ENTRY_PREFIX ++ h ++ 10 :: as_bytes env)%list in
  (key_state s = key_state s0 -> decode_entry s b = Ok e /\ entry_fault s b = None) /\
  (forall f, entry_fault s b = Some f -> decode_entry s b = Ok (placeholder_entry (log_id e))).
Proof using H0 H2 H4.
  intros Hs Hn Hp Hh Hseal. cbv zeta. unfold decode_entry, entry_fault.
  rewrite (split_record h env (log_id_one_line _ _ Hh)), (log_id_from_to _ _ Hh). simpl.
  unfold open_log_entry. rewrite from_utf8_ascii.
  2: { destruct (seal_Ok _ _ _ _ _ Hseal) as (? & id & ? & Hk & _ & He & ->).
       unfold sealer_ok in Hs. rewrite Hk in Hs. apply envelope_ascii; [done |].
       apply Forall_app. split; [apply Hn | by eapply encrypt_bytes]. }
  simpl. split.
  - intros Hk. rewrite (open_seal _ _ _ _ _ _ Hs Hn Hseal Hk). by rewrite (entry_from_to _ _ Hp).
  - intros f. by destruct (open s _ env).
Qed.
End Entries.

(** ** Loading the key *)

Lemma read_key_Ok f key :
  read_key f = Ok (Some key) -> f = KeyFile.Present key /\ length key = KEY_LEN.
Proof.
  destruct f as [| b |]; simpl; try done. destruct (Nat.eqb_spec (length b) KEY_LEN); [| done].
  by intros [= ->].
Qed.

Lemma read_key_Present key : length key = KEY_LEN -> read_key (KeyFile.Present key) = Ok (Some key).
Proof. intros Hk. simpl. by rewrite Hk. Qed.

(** A loaded key is the content of the key file the load left. *)
Lemma load_Held derive_key f g w pin s f' cipher id :
  length (fresh g) = KEY_LEN -> load derive_key f g w pin = (s, f') ->
  key_state s = KeyState.Held cipher id ->
  read_key f' = Ok (Some cipher) /\ id = KeyId.of_key derive_key cipher /\
  s = mkSecretSealer w (KeyState.Held cipher id) pin.
Proof.
  intros Hfresh. unfold load. destruct (read_key f) as [[key|]|] eqn:Er.
  - intros [= <- <-] [= -> <-]. done.
  - case_match; [by intros [= <- <-] |]. unfold generate_key.
    destruct (prepared g); [| by intros [= <- <-]].
    destruct (write_new g) as [[|]|]; [| | by intros [= <- <-]].
    + intros [= <- <-] [= <- <-]. split; [by apply read_key_Present | done].
    + destruct (read_key (raced g)) as [[key|]|] eqn:E; [| by intros [= <- <-] | by intros [= <- <-]].
      intros [= <- <-] [= -> <-]. done.
  - by intros [= <- <-].
Qed.

(** ** Properties *)

(** A sealed value is bound to its key and its resource: what a sealer seals
    is an envelope that any sealer holding the same key opens to the same value
    at the same resource, whatever its write policy; at every other resource it
    is damaged; a node holding another key, or none, is told which key it
    needs. *)
Theorem sealed_value_bound `{SerdeJsonLaws} `{AeadLaws} `{Base64Laws} `{KeySerdeLaws} s n k v w :
  sealer_ok s -> nonce_ok n -> wf_json v = true -> sealer_seal_value s n k v = Ok w ->
  is_envelope w = true /\
  exists cipher id env, key_state s = KeyState.Held cipher id /\ w = JString env /\
    (forall s', key_state s' = key_state s -> sealer_open_value s' k env = Ok v) /\
    (forall k', k' <> k -> sealer_open_value s k' env = Err (SealFault.Damaged id)) /\
    (forall s' cipher' id', key_state s' = KeyState.Held cipher' id' -> id' <> id ->
       sealer_open_value s' k env = Err (SealFault.WrongKey id id')) /\
    (forall s', key_state s' = KeyState.Absent ->
       sealer_open_value s' k env = Err (SealFault.KeyMissing id)).
Proof.
  intros Hs Hn Hv (env & Hseal & ->)%sealer_seal_value_Ok.
  pose proof (fun s' Hk => sealer_open_sealed s s' n k v env Hs Hn Hv Hk Hseal) as Hopen.
  destruct (seal_Ok _ _ _ _ _ Hseal) as (cipher & id & body & Hk & _ & He & ->).
  unfold sealer_ok in Hs. rewrite Hk in Hs. pose proof (encrypt_bytes _ _ _ _ _ He) as Hb.
  split; [apply envelope_is_envelope |]. exists cipher, id, (envelope_of id (n ++ body)).
  split_and!; [done | done | done | | |]; unfold sealer_open_value.
  - intros k' Hne. rewrite open_envelope, Hk, eqb_refl by done. simpl.
    rewrite (decrypt_other_aad _ _ _ (resource_aad k') _ _ He); [done |].
    intros E. apply app_inv_head, key_bytes_inj in E. done.
  - intros s' c' id' Hk' Hne. rewrite open_envelope, Hk' by done.
    destruct (eqb id' id) eqn:E; [by apply eqb_sound in E | done].
  - intros s' Hk'. by rewrite open_envelope, Hk' by done.
Qed.

(** (C40) The image at rest keeps secrets and loses nothing: when the store seals
    and its live values are not themselves envelopes, the image holds every
    sealed kind as an envelope, and loading and opening it with the same sealer
    gives back every live object with its metadata, at the same revision; a
    value that was sealed before opens if it can now, and otherwise stays
    sealed byte for byte with the reason. *)
Theorem image_at_rest_round_trip `{SerdeJsonLaws} `{AeadLaws} `{Base64Laws} `{KeySerde}
    s draw c log r :
  sealer_ok s -> (forall k, nonce_ok (draw k)) -> sealer_seals s = true ->
  catalog_ok c log -> Forall (fun e => is_envelope e.2.1 = false) (resources c) ->
  @to_rest_repr (sealer_of s draw) c = Ok r ->
  (forall k e, In (k, e) (repr_resources r) -> is_sealed_kind k = true -> is_envelope e.1 = true) /\
  let c' := @open_sealed (sealer_of s draw) (deserialize r) in
  revision_of c' = revision_of c /\
  (forall k e, bt_get k (resources c) = Some e -> bt_get k (resources c') = Some e) /\
  (forall k u, bt_get k (unreadable c) = Some u ->
     match sealer_open_value s k (default "" (as_str (sealed u).1)) with
     | Ok v => bt_get k (resources c') = Some (v, (sealed u).2)
     | Err f => bt_get k (unreadable c') = Some (mkUnreadable (sealed u) f)
     end) /\
  (forall k, bt_get k (resources c) = None -> bt_get k (unreadable c) = None ->
     bt_get k (resources c') = None /\ bt_get k (unreadable c') = None).
Proof.
  intros Hs Hd Hse Hok Hpl Hr. pose proof (sealer_of_laws s draw Hs Hd) as Hl.
  pose proof (@reopened_get (sealer_of s draw) Hl c log r Hok Hpl Hse Hr) as Hg.
  split; [exact (@image_sealed (sealer_of s draw) Hl c log r Hok Hse Hr) |]. cbv zeta.
  destruct (@image_spec (sealer_of s draw) c log r Hok Hr) as (_ & _ & _ & _ & _ & Hrev).
  split_and!.
  - rewrite <- Hrev, <- (proj2 (proj2 (deserialize_maps r))). unfold open_sealed. by case_match.
  - intros k e He. destruct (Hg k) as [-> _]. by rewrite He.
  - intros k u Hu. destruct (Hg k) as [-> ->]. rewrite Hu, (ok_disjoint _ _ Hok _ _ Hu).
    unfold opened. simpl. by destruct (sealer_open_value s k _).
  - intros k Hn Hu. destruct (Hg k) as [-> ->]. by rewrite Hn, Hu.
Qed.

(** A stored log entry reads back: what [encode_entry] writes,
    [decode_entry] reads as the same entry under the same key, with no fault;
    a node that cannot open it reads a placeholder under the same log id, and
    no node can store that placeholder in its log. *)
Theorem log_entry_round_trip {LogId Membership : Type} `{AeadLaws} `{Base64Laws}
    `{EntrySerdeLaws LogId Membership} (index : LogId -> Z) s n (e : Entry LogId Membership) b :
  sealer_ok s -> nonce_ok n -> encode_entry index s n e = Ok b ->
  (forall s', key_state s' = key_state s -> decode_entry s' b = Ok e /\ entry_fault s' b = None) /\
  (forall s' f, entry_fault s' b = Some f ->
     decode_entry s' b = Ok (placeholder_entry (log_id e)) /\
     forall s'' n'', encode_entry index s'' n'' (placeholder_entry (Membership := Membership) (log_id e)) =
       Err (Placeholder (index (log_id e)))).
Proof.
  intros Hs Hn [Hp | (plain & h & env & Hp & Hh & Hseal & ->)]%encode_entry_Ok.
  - unfold decode_entry, entry_fault. rewrite (split_plain _ _ Hp).
    split; [by rewrite (entry_from_to _ _ Hp) | done].
  - split; [intros s' Hk | intros s' f Hf; split; [| done]];
      destruct (decode_record s' e h plain env n s Hs Hn Hp Hh Hseal) as [Hread Hhold]; eauto.
Qed.

(** A store keeps its key: an existing key file, and any file of a store that
    recorded a key, is left as found; once a key is held, a restart with the
    recorded key id reloads the same key with the same write policy; and when
    the file is lost, no new key is generated in its place and sealing is
    refused naming the missing key. *)
Theorem key_survives_restart derive_key f g w pin :
  length (fresh g) = KEY_LEN ->
  let '(s, f') := load derive_key f g w pin in
  (f <> KeyFile.Missing \/ pin <> None -> f' = f) /\
  forall cipher id, key_state s = KeyState.Held cipher id ->
    exists p, match pin with Some q => Some q | None => pin_to_record s end = Some p /\
    (forall g', let '(s2, f2) := load derive_key f' g' w (Some p) in
       f2 = f' /\ key_state s2 = key_state s /\ write_fault s2 = write_fault s) /\
    (forall g', let '(s2, f2) := load derive_key KeyFile.Missing g' w (Some p) in
       f2 = KeyFile.Missing /\ (w = SealWrites.Seal -> write_fault s2 = Some (SealFault.KeyMissing p))).
Proof.
  intros Hfresh. destruct (load derive_key f g w pin) as [s f'] eqn:El. split.
  - unfold load in El. destruct (read_key f) as [[key|]|] eqn:Er; try (by injection El as _ <-).
    intros [Hf | Hp].
    + destruct f as [| b |]; unfold read_key in Er; [done | | done].
      by destruct (Nat.eqb (length b) KEY_LEN).
    + destruct pin; [by injection El as _ <- | done].
  - intros cipher id Hk. destruct (load_Held _ _ _ _ _ _ _ _ _ Hfresh El Hk) as (Hr & -> & ->).
    exists (match pin with Some q => q | None => KeyId.of_key derive_key cipher end).
    split; [by destruct pin |]. split.
    + intros g'. unfold load. rewrite Hr. split_and!; [done | done |].
      unfold write_fault. simpl. destruct w; [| done]. simpl. destruct pin; [done |].
      by rewrite eqb_refl.
    + intros g'. simpl. split; [done |]. by intros ->.
Qed.

(** ** Witnesses *)

(** A cipher that writes the associated data, length first, before the plain
    text: lawful, and computable. *)
Definition tag (a : list Z) : list Z := (repeat 1 (length a) ++ 0 :: a)%list.

Definition tagging : Aead := {|
  encrypt _ _ a m := if forallb is_byte (a ++ m) then Some (tag a ++ m)%list else None;
  decrypt _ _ a c := strip_bytes (tag a) c
|}.

Lemma strip_same_length a a' m : length a = length a' -> a' <> a -> strip_bytes a' (a ++ m) = None.
Proof.
  revert a'. induction a as [|x a IH]; intros [|y a'] Hl Hne; try done. simpl.
  destruct (Z.eqb_spec y x) as [-> |]; [| done]. apply IH; [simpl in Hl; lia | congruence].
Qed.

Lemma strip_tag a a' m : a' <> a -> strip_bytes (tag a') (tag a ++ m) = None.
Proof.
  intros Hne. unfold tag. rewrite <- app_assoc. simpl.
  assert (forall n n', (n = n' -> strip_bytes a' (a ++ m) = None) ->
    strip_bytes (repeat 1 n' ++ 0 :: a') (repeat 1 n ++ 0 :: a ++ m) = None)%list as Hgo.
  { induction n as [|n IH]; intros [|n'] Hs; simpl; auto. }
  apply Hgo. intros Hl. by apply strip_same_length.
Qed.

Lemma tagging_laws : @AeadLaws tagging.
Proof.
  split; simpl; intros k n a.
  - intros m c. case_match; [| done]. intros [= <-]. apply strip_bytes_app.
  - intros a' m c. case_match; [| done]. intros [= <-]. by apply strip_tag.
  - intros m c. case_match eqn:E; [| done]. intros [= <-]. rewrite forallb_forall in E.
    apply Forall_app. split; [apply Forall_app; split |].
    + apply List.Forall_forall. intros x Hx. by apply repeat_spec in Hx as ->.
    + constructor; [done |]. apply List.Forall_forall. intros x Hx. apply E, in_or_app. by left.
    + apply List.Forall_forall. intros x Hx. apply E, in_or_app. by right.
Qed.

(** Hex in place of base64. *)
Definition hex64 : Base64 := {| b64_encode := to_hex; b64_decode := from_hex |}.

Lemma hex64_laws : @Base64Laws hex64.
Proof. split; simpl; intros l Hl; [by apply from_hex_to_hex | apply (hex_facts l Hl)]. Qed.

Definition numbered_keys : KeySerde := {|
  key_bytes k := @token_bytes numbered_tokens (mkContinueToken 0 k)
|}.

Lemma numbered_keys_laws : @KeySerdeLaws numbered_keys.
Proof.
  split. intros k k' E. unfold key_bytes, numbered_keys in E. apply (f_equal (@token_of_bytes numbered_tokens)) in E.
  rewrite !(@token_of_token_bytes _ numbered_tokens_laws) in E by done. by injection E.
Qed.

#[local] Existing Instance numbered.
#[local] Existing Instance numbered_laws.
#[local] Existing Instance tagging.
#[local] Existing Instance tagging_laws.
#[local] Existing Instance hex64.
#[local] Existing Instance hex64_laws.
#[local] Existing Instance numbered_keys.
#[local] Existing Instance numbered_keys_laws.

Definition sample_derive (_ : string) (_ : list Z) : list Z := repeat 7 32.
Definition sample_key : list Z := repeat 42 32.
Definition sample_sealer : SecretSealer :=
  (load sample_derive (KeyFile.Present sample_key)
     (mkGeneration (Ok tt) sample_key (Ok Created) KeyFile.Missing) SealWrites.Seal None).1.
Definition sample_nonce : list Z := repeat 9 24.

Lemma sample_sealer_ok : sealer_ok sample_sealer.
Proof. split; [done | repeat constructor]. Qed.

Lemma sample_nonce_ok : nonce_ok sample_nonce.
Proof. split; [done | repeat constructor]. Qed.

Definition sample_secret : json := JObject [("data", JObject [("k", JString "v")])].

Lemma sealed_value_bound_witness :
  exists env, sealer_seal_value sample_sealer sample_nonce secret_key sample_secret = Ok (JString env) /\
    sealer_open_value sample_sealer secret_key env = Ok sample_secret /\
    sealer_open_value sample_sealer pod_key env = Err (SealFault.Damaged (repeat 7 8)).
Proof.
  destruct (sealer_seal_value sample_sealer sample_nonce secret_key sample_secret) as [w|f] eqn:E;
    [| vm_compute in E; discriminate].
  destruct (sealed_value_bound sample_sealer sample_nonce secret_key sample_secret w sample_sealer_ok
    sample_nonce_ok eq_refl E) as (_ & cipher & id & env & Hk & -> & Hopen & Hother & _).
  exists env. split; [reflexivity |]. split; [apply Hopen; reflexivity |].
  assert (id = repeat 7 8) as -> by (vm_compute in Hk |- *; congruence).
  apply Hother. discriminate.
Defined.

Lemma key_survives_restart_witness :
  let s := (load sample_derive KeyFile.Missing
    (mkGeneration (Ok tt) sample_key (Ok Created) KeyFile.Missing) SealWrites.Seal None) in
  s.2 = KeyFile.Present sample_key /\
  exists p, pin_to_record s.1 = Some p /\
    forall g', (load sample_derive s.2 g' SealWrites.Seal (Some p)).2 = s.2.
Proof.
  pose proof (key_survives_restart sample_derive KeyFile.Missing
    (mkGeneration (Ok tt) sample_key (Ok Created) KeyFile.Missing) SealWrites.Seal None eq_refl) as H.
  cbv zeta. destruct (load sample_derive _ _ _ _) as [s f'] eqn:E. simpl.
  vm_compute in E. injection E as <- <-.
  destruct (proj2 H _ _ eq_refl) as (p & Hp & Hre & _).
  split; [reflexivity |]. exists p. split; [exact Hp |]. intros g'. specialize (Hre g').
  destruct (load sample_derive _ g' SealWrites.Seal (Some p)) as [s2 f2]. exact (proj1 Hre).
Defined.

#[local] Existing Instance sample_env.
#[local] Existing Instance sample_ops.
#[local] Existing Instance sample_ops_laws.
#[local] Existing Instance zero_blake3.
#[local] Existing Instance zero_blake3_laws.
#[local] Existing Instance sample_text.

Definition put_secret : LoggedCommand :=
  proposed (ResourceCommand.put secret_key sample_secret Reason.Operator).

Definition with_secret : ResourceCatalog := (apply_logged empty put_secret 1 1).2.

Lemma with_secret_ok : catalog_ok with_secret (changes (apply_logged empty put_secret 1 1).1).
Proof.
  apply (reaches_ok _ _ (reaches_apply _ [] put_secret 1 1 (reaches_fresh 16) eq_refl eq_refl)).
Qed.

Lemma image_at_rest_round_trip_witness :
  exists r, @to_rest_repr (sealer_of sample_sealer (fun _ => sample_nonce)) with_secret = Ok r /\
    Forall (fun e => is_envelope e.2.1 = true) (repr_resources r) /\
    bt_get secret_key (resources (@open_sealed (sealer_of sample_sealer (fun _ => sample_nonce))
      (deserialize r))) = bt_get secret_key (resources with_secret).
Proof.
  destruct (@to_rest_repr (sealer_of sample_sealer (fun _ => sample_nonce)) with_secret) as [r|f] eqn:E;
    [| vm_compute in E; discriminate].
  destruct (image_at_rest_round_trip sample_sealer (fun _ => sample_nonce) with_secret _ r
    sample_sealer_ok (fun _ => sample_nonce_ok) eq_refl with_secret_ok
    ltac:(vm_compute; repeat constructor) E) as (Henv & _ & Hlive & _).
  exists r. split; [reflexivity |]. split.
  - vm_compute in E. injection E as <-. repeat constructor.
  - destruct (bt_get secret_key (resources with_secret)) as [e|] eqn:G;
      [exact (Hlive _ _ G) | vm_compute in G; discriminate].
Defined.

(** Entries of one log, written as themselves. *)
Definition secret_entry : Entry Z unit := mkEntry 5 (Normal put_secret).

Definition one_entry : EntrySerde Z unit := {|
  entry_to_vec e :=
    match payload e with
    | Blank => if log_id e =? 4 then Ok [123; 4] else Err "not this log"
    | Normal (mkLoggedCommand (ResourceCommand.Put k v None Reason.Operator) ApplySemantics.V1) =>
        if (log_id e =? 5) && eqb k secret_key && eqb v sample_secret then Ok [123; 5]
        else Err "not this log"
    | _ => Err "not this log"
    end;
  entry_from_slice b :=
    if eqb b [123; 4] then Ok (mkEntry 4 Blank)
    else if eqb b [123; 5] then Ok secret_entry else Err "unreadable";
  log_id_to_vec i := if i =? 5 then Ok [53] else Err "not this log";
  log_id_from_slice b := if eqb b [53] then Ok 5 else Err "unreadable"
|}.

Lemma one_entry_laws : @EntrySerdeLaws Z unit one_entry.
Proof.
  split.
  - intros [i [|[[k v [] []| | |] []]|]] b; simpl; try done; intros Hb;
      repeat match type of Hb with (if ?c then _ else _) = _ => destruct c eqn:?; [| done] end;
      injection Hb as <-; bool_to_prop; by subst.
  - intros e b. simpl. repeat case_match; try done; intros [= <-]; eauto.
  - intros l b. simpl. case_match; [| done]. intros [= <-]. bool_to_prop. by subst.
  - intros l b. simpl. case_match; [| done]. intros [= <-]. by repeat constructor.
Qed.

Lemma log_entry_round_trip_witness :
  exists b, @encode_entry Z unit _ _ one_entry id sample_sealer sample_nonce secret_entry = Ok b /\
    @decode_entry Z unit _ _ one_entry sample_sealer b = Ok secret_entry /\
    @decode_entry Z unit _ _ one_entry (mkSecretSealer SealWrites.Seal KeyState.Absent None) b =
      Ok (placeholder_entry 5).
Proof.
  destruct (@encode_entry Z unit _ _ one_entry id sample_sealer sample_nonce secret_entry) as [b|f] eqn:E;
    [| vm_compute in E; discriminate].
  destruct (@log_entry_round_trip Z unit _ tagging_laws _ hex64_laws one_entry one_entry_laws id
    sample_sealer sample_nonce secret_entry b sample_sealer_ok sample_nonce_ok E) as [Hread Hhold].
  exists b. split; [reflexivity |]. split; [exact (proj1 (Hread _ eq_refl)) |].
  apply (proj1 (Hhold (mkSecretSealer SealWrites.Seal KeyState.Absent None)
    (SealFault.KeyMissing (repeat 7 8)) ltac:(vm_compute in E; injection E as <-; vm_compute; reflexivity))).
Defined.
