(* ===== verification/WatchBackend.v ===== *)
(** * Live watches

    [engenho-store/src/watch.rs] (events, and the projection of a change onto a
    selector's view), [watch_backend.rs] (the registry of watchers, their bounded
    channels and the streams consumers read) and the parts of [store.rs] that run
    the registry under the catalog's lock.

    A channel is shared by the registry's handle, which holds its only sender,
    and by one stream: channels live in a heap, and both sides name theirs by its
    place there.  A sender is gone when no handle of the registry names the
    channel.  An [await] that cannot go on is [Pending]; an instant is a number of
    nanoseconds.  Sharing of a change by [Arc] is not observable. *)

From stdpp Require Import base tactics option list strings numbers.
From S2P Require Import Prelude BTreeMap Json Resource WatchHistory Command Read.
From S2P Require Import PatchApply Ssa Pagination Catalog.

Local Open Scope string_scope.
Local Open Scope Z_scope.

(** ** Events *)

Module WatchEventKind.

Inductive t : Type := Added | Modified | Deleted | Bookmark.

#[global] Instance t_eq_dec : EqDecision t.
Proof. solve_decision. Defined.

End WatchEventKind.

Record WatchEvent : Type := mkWatchEvent {
  event_kind : WatchEventKind.t;
  event_object : json;
  event_key : ResourceKey;
  resource_version : Z
}.

#[export] Instance WatchEvent_eq_dec : EqDecision WatchEvent.
Proof. solve_decision. Defined.

Module ChangeShape.

Inductive t : Type := Created | Updated | Deleted.

#[global] Instance t_eq_dec : EqDecision t.
Proof. solve_decision. Defined.

Definition of_change (ch : Change) : t :=
  match change_kind ch, prior ch with
  | Delete, _ => Deleted
  | Put, None => Created
  | Put, Some _ => Updated
  end.

Definition unfiltered (self : t) : WatchEventKind.t :=
  match self with
  | Created => WatchEventKind.Added
  | Updated => WatchEventKind.Modified
  | Deleted => WatchEventKind.Deleted
  end.

End ChangeShape.

Module Projection.

Inductive t : Type := Added | Modified | Deleted.

Definition judge (shape : ChangeShape.t) (passes_before passes_after : bool) : option t :=
  let before := passes_before && negb (eqb shape ChangeShape.Created) in
  let after := passes_after && negb (eqb shape ChangeShape.Deleted) in
  match before, after with
  | false, true => Some Added
  | true, true => Some Modified
  | true, false => Some Deleted
  | false, false => None
  end.

Definition event_kind (self : t) : WatchEventKind.t :=
  match self with
  | Added => WatchEventKind.Added
  | Modified => WatchEventKind.Modified
  | Deleted => WatchEventKind.Deleted
  end.

End Projection.

Definition project (ch : Change) (passes : json -> bool) : option WatchEvent :=
  let shape := ChangeShape.of_change ch in
  let passes_before := is_some_and passes (prior ch) in
  let passes_after := negb (eqb shape ChangeShape.Deleted) && passes (value ch) in
  match Projection.judge shape passes_before passes_after with
  | None => None
  | Some projection =>
      let event object :=
        Some (mkWatchEvent (Projection.event_kind projection) object (key ch) (revision ch)) in
      match projection with
      | Projection.Added | Projection.Modified => event (value ch)
      | Projection.Deleted =>
          match prior ch with
          | Some p => event (stamp_resource_version p (revision ch))
          | None => None
          end
      end
  end.

Definition watch_event_from_change (ch : Change) : WatchEvent :=
  mkWatchEvent (ChangeShape.unfiltered (ChangeShape.of_change ch)) (value ch) (key ch) (revision ch).

(** ** Signals and ends *)

Module WatchGone.

Inductive t : Type :=
  | CompactedTooOld (requested compacted : Revision)
  | AheadOfStore (requested current : Revision)
  | Overflow (capacity : Z) (last_seen : Revision).

#[global] Instance t_eq_dec : EqDecision t.
Proof. solve_decision. Defined.

Definition from_compacted (e : Resource.CompactedTooOld) : t :=
  CompactedTooOld (requested e) (compacted e).

End WatchGone.

Module ChangeSignal.

Inductive t : Type := Change (change : Resource.Change) | Bookmark (rev : Revision).

#[global] Instance t_eq_dec : EqDecision t.
Proof. solve_decision. Defined.

Definition revision (self : t) : Revision :=
  match self with Change ch => Resource.revision ch | Bookmark rev => rev end.

End ChangeSignal.

Module WatchSignal.

Inductive t : Type := Event (event : WatchEvent) | Bookmark (rev : Revision).

Definition revision (self : t) : Revision :=
  match self with Event ev => resource_version ev | Bookmark rev => rev end.

Definition from_change_signal (signal : ChangeSignal.t) : t :=
  match signal with
  | ChangeSignal.Change ch => Event (watch_event_from_change ch)
  | ChangeSignal.Bookmark rev => Bookmark rev
  end.

End WatchSignal.

Definition WATCH_CHANNEL_CAPACITY : Z := 1024.
Definition DEFAULT_BOOKMARK_EVERY : Z := 5000000000.

Record WatchOpts : Type := mkWatchOpts {
  from : Revision;
  buffer : Z;
  bookmark_every : Z
}.

Definition opts_default : WatchOpts := mkWatchOpts ZERO WATCH_CHANNEL_CAPACITY DEFAULT_BOOKMARK_EVERY.

Definition from_revision (from : Revision) : WatchOpts :=
  mkWatchOpts from (buffer opts_default) (bookmark_every opts_default).

Definition live_tail (from : Revision) (buffer : Z) : WatchOpts := mkWatchOpts from (Z.max buffer 1) 0.

(** ** Channels *)

(** A bounded [mpsc] channel with the terminal slot ([GoneSlot]) its two ends
    share. *)
Record Chan : Type := mkChan {
  queue : list ChangeSignal.t;
  chan_capacity : Z;
  rx_open : bool;
  gone : option WatchGone.t
}.

Abbreviation heap := (list Chan).

Inductive SendResult : Type := Sent | Full | Closed.

Definition try_send (hp : heap) (id : nat) (signal : ChangeSignal.t) : heap * SendResult :=
  match hp !! id with
  | None => (hp, Closed)
  | Some ch =>
      if negb (rx_open ch) then (hp, Closed)
      else if chan_capacity ch <=? Z.of_nat (length (queue ch)) then (hp, Full)
      else (<[id := mkChan (queue ch ++ [signal]) (chan_capacity ch) true (gone ch)]> hp, Sent)
  end.

Definition set_gone (hp : heap) (id : nat) (reason : option WatchGone.t) : heap :=
  alter (fun ch => mkChan (queue ch) (chan_capacity ch) (rx_open ch) reason) id hp.

(** [GoneSlot::arm]. *)
Definition arm (hp : heap) (id : nat) (reason : WatchGone.t) : heap :=
  match hp !! id ≫= gone with None => set_gone hp id (Some reason) | Some _ => hp end.

Definition armed (hp : heap) (id : nat) : bool := is_some (hp !! id ≫= gone).

(** ** The registry *)

Record WatcherHandle : Type := mkHandle {
  tx : nat;
  boundary : Revision;
  last_seen : Revision;
  handle_capacity : Z;
  handle_bookmark_every : Z;
  last_bookmark_at : Z;
  last_bookmarked_rev : option Revision;
  overflowed : bool
}.

Definition set_last_seen (h : WatcherHandle) (rev : Revision) : WatcherHandle :=
  mkHandle (tx h) (boundary h) rev (handle_capacity h) (handle_bookmark_every h)
    (last_bookmark_at h) (last_bookmarked_rev h) (overflowed h).

Definition set_overflowed (h : WatcherHandle) : WatcherHandle :=
  mkHandle (tx h) (boundary h) (last_seen h) (handle_capacity h) (handle_bookmark_every h)
    (last_bookmark_at h) (last_bookmarked_rev h) true.

Definition set_bookmarked (h : WatcherHandle) (rev : Revision) (now : Z) : WatcherHandle :=
  mkHandle (tx h) (boundary h) (last_seen h) (handle_capacity h) (handle_bookmark_every h)
    now (Some rev) (overflowed h).

Module HandleSendOutcome.

Inductive t : Type := Sent | Overflowed | Closed | Dead.

#[global] Instance t_eq_dec : EqDecision t.
Proof. solve_decision. Defined.

Definition should_reap (self : t) : bool := match self with Sent => false | _ => true end.

End HandleSendOutcome.

Definition try_enqueue (hp : heap) (h : WatcherHandle) (signal : ChangeSignal.t)
  : heap * WatcherHandle * HandleSendOutcome.t :=
  if overflowed h then (hp, h, HandleSendOutcome.Dead)
  else
    let rev := ChangeSignal.revision signal in
    match try_send hp (tx h) signal with
    | (hp, Sent) =>
        (hp, if last_seen h <? rev then set_last_seen h rev else h, HandleSendOutcome.Sent)
    | (hp, Full) =>
        (arm hp (tx h) (WatchGone.Overflow (handle_capacity h) (last_seen h)), set_overflowed h,
         HandleSendOutcome.Overflowed)
    | (hp, Closed) => (hp, h, HandleSendOutcome.Closed)
    end.

Record WatcherRegistry : Type := mkRegistry { handles : list WatcherHandle; chans : heap }.

(** [Vec::retain_mut], the closure working on the heap too. *)
Fixpoint retain_mut (f : heap -> WatcherHandle -> heap * WatcherHandle * bool) (hp : heap)
    (hs : list WatcherHandle) : heap * list WatcherHandle :=
  match hs with
  | [] => (hp, [])
  | h :: hs =>
      let '(hp, h, keep) := f hp h in
      let '(hp, hs) := retain_mut f hp hs in
      (hp, if keep then h :: hs else hs)
  end.

Record WatchStream : Type := mkStream {
  rx : nat;
  stream_last_seen : Revision;
  terminal_emitted : bool;
  draining_for_gone : bool
}.

(** The replay, until a change is not delivered. *)
Fixpoint feed (hp : heap) (h : WatcherHandle) (replay : list Change) : heap * WatcherHandle :=
  match replay with
  | [] => (hp, h)
  | ch :: replay =>
      let '(hp, h, outcome) := try_enqueue hp h (ChangeSignal.Change ch) in
      if eqb outcome HandleSendOutcome.Sent then feed hp h replay else (hp, h)
  end.

Definition register_shared (self : WatcherRegistry) (now : Z) (replay : list Change)
    (boundary : Revision) (opts : WatchOpts) : WatcherRegistry * WatchStream :=
  let capacity := Z.max (buffer opts) 1 in
  let id := length (chans self) in
  let hp := (chans self ++ [mkChan [] capacity true None])%list in
  let last_seen := from opts in
  let handle := mkHandle id boundary last_seen capacity (bookmark_every opts) now None false in
  let '(hp, handle) := feed hp handle replay in
  (mkRegistry (handles self ++ [handle])%list hp, mkStream id last_seen false false).

Definition register (self : WatcherRegistry) (now : Z) (catalog : ResourceCatalog) (opts : WatchOpts)
  : result (WatcherRegistry * WatchStream) WatchGone.t :=
  let current := revision_of catalog in
  if current <? from opts then Err (WatchGone.AheadOfStore (from opts) current)
  else
    let? replay := result_map_err WatchGone.from_compacted (changes_after catalog (from opts)) in
    Ok (register_shared self now replay current opts).

Definition register_live_tail (self : WatcherRegistry) (now : Z) (catalog : ResourceCatalog) (buffer : Z)
  : WatcherRegistry * WatchStream :=
  let current := revision_of catalog in
  register_shared self now [] current (live_tail current buffer).

Definition fan_shared (self : WatcherRegistry) (change : Change) : WatcherRegistry :=
  let boundary_floor := revision change in
  let '(hp, hs) :=
    retain_mut (fun hp h =>
      if boundary_floor <=? boundary h then (hp, h, true)
      else
        let '(hp, h, outcome) := try_enqueue hp h (ChangeSignal.Change change) in
        (hp, h, negb (HandleSendOutcome.should_reap outcome))) (chans self) (handles self) in
  mkRegistry hs hp.

Definition tick_handle (current : Revision) (now : Z) (hp : heap) (h : WatcherHandle)
  : heap * WatcherHandle * bool :=
  if overflowed h then (hp, h, false)
  else
    let due := negb (handle_bookmark_every h =? 0)
               && (handle_bookmark_every h <=? Z.max 0 (now - last_bookmark_at h)) in
    if negb due || eqb (last_bookmarked_rev h) (Some current) then (hp, h, true)
    else
      match try_send hp (tx h) (ChangeSignal.Bookmark current) with
      | (hp, Sent) =>
          let h := if last_seen h <? current then set_last_seen h current else h in
          (hp, set_bookmarked h current now, true)
      | (hp, Full) => (hp, h, true)
      | (hp, Closed) => (hp, h, false)
      end.

Definition tick_bookmarks (self : WatcherRegistry) (current : Revision) (now : Z) : WatcherRegistry :=
  let '(hp, hs) := retain_mut (tick_handle current now) (chans self) (handles self) in
  mkRegistry hs hp.

Definition is_closed (hp : heap) (id : nat) : bool :=
  match hp !! id with Some ch => negb (rx_open ch) | None => true end.

Definition reap_closed (self : WatcherRegistry) : WatcherRegistry :=
  mkRegistry (List.filter (fun h => negb (overflowed h) && negb (is_closed (chans self) (tx h)))
                (handles self)) (chans self).

(** ** Streams *)

(** Whether a sender of the channel is left. *)
Definition has_sender (self : WatcherRegistry) (id : nat) : bool :=
  existsb (fun h => Nat.eqb (tx h) id) (handles self).

Inductive TryRecv : Type := Received (signal : ChangeSignal.t) | Empty | Disconnected.

Definition try_recv (self : WatcherRegistry) (id : nat) : heap * TryRecv :=
  match chans self !! id with
  | Some (mkChan (signal :: rest) capacity open reason) =>
      (<[id := mkChan rest capacity open reason]> (chans self), Received signal)
  | _ => (chans self, if has_sender self id then Empty else Disconnected)
  end.

(** [GoneSlot::take]. *)
Definition take_gone (hp : heap) (id : nat) : heap * option WatchGone.t :=
  (set_gone hp id None, hp !! id ≫= gone).

Definition account (s : WatchStream) (signal : ChangeSignal.t) : WatchStream :=
  let rev := ChangeSignal.revision signal in
  if stream_last_seen s <? rev
  then mkStream (rx s) rev (terminal_emitted s) (draining_for_gone s) else s.

Definition emit_terminal (s : WatchStream) : WatchStream :=
  mkStream (rx s) (stream_last_seen s) true (draining_for_gone s).

Definition set_draining (s : WatchStream) : WatchStream :=
  mkStream (rx s) (stream_last_seen s) (terminal_emitted s) true.

Definition next_while_draining (self : WatcherRegistry) (s : WatchStream)
  : result ChangeSignal.t WatchGone.t * WatcherRegistry * WatchStream :=
  match try_recv self (rx s) with
  | (hp, Received signal) => (Ok signal, mkRegistry (handles self) hp, account s signal)
  | (hp, _) =>
      let '(hp, reason) := take_gone hp (rx s) in
      (Err (default (WatchGone.Overflow 0 (stream_last_seen s)) reason),
       mkRegistry (handles self) hp, emit_terminal s)
  end.

Definition close_or_gone (self : WatcherRegistry) (s : WatchStream)
  : option (result ChangeSignal.t WatchGone.t) * WatcherRegistry * WatchStream :=
  let '(hp, reason) := take_gone (chans self) (rx s) in
  match reason with
  | Some reason => (Some (Err reason), mkRegistry (handles self) hp, emit_terminal s)
  | None => (None, mkRegistry (handles self) hp, s)
  end.

(** The outcome of polling a future. *)
Inductive Poll (A : Type) : Type := Pending | Ready (a : A).
Arguments Pending {A}.
Arguments Ready {A} a.

(** The [select!] of [next_change], polled once. *)
Definition poll_parked (self : WatcherRegistry) (s : WatchStream)
  : Poll (option (result ChangeSignal.t WatchGone.t)) * WatcherRegistry * WatchStream :=
  match try_recv self (rx s) with
  | (hp, Received signal) => (Ready (Some (Ok signal)), mkRegistry (handles self) hp, account s signal)
  | (_, Disconnected) =>
      let '(answer, self, s) := close_or_gone self s in (Ready answer, self, s)
  | (_, Empty) =>
      if armed (chans self) (rx s) then
        let '(answer, self, s) := next_while_draining self (set_draining s) in
        (Ready (Some answer), self, s)
      else (Pending, self, s)
  end.

(** One call of [next_change], up to where it first parks. *)
Definition next_change (self : WatcherRegistry) (s : WatchStream)
  : Poll (option (result ChangeSignal.t WatchGone.t)) * WatcherRegistry * WatchStream :=
  if terminal_emitted s then (Ready None, self, s)
  else
    let s := if negb (draining_for_gone s) && armed (chans self) (rx s) then set_draining s else s in
    if draining_for_gone s then
      let '(answer, self, s) := next_while_draining self s in (Ready (Some answer), self, s)
    else poll_parked self s.

Definition next (self : WatcherRegistry) (s : WatchStream)
  : Poll (option (result WatchSignal.t WatchGone.t)) * WatcherRegistry * WatchStream :=
  let '(answer, self, s) := next_change self s in
  (match answer with
   | Pending => Pending
   | Ready answer => Ready (result_map WatchSignal.from_change_signal <$> answer)
   end, self, s).

Definition try_next_change (self : WatcherRegistry) (s : WatchStream)
  : option (result ChangeSignal.t WatchGone.t) * WatcherRegistry * WatchStream :=
  if terminal_emitted s then (None, self, s)
  else
    let s := if negb (draining_for_gone s) && armed (chans self) (rx s) then set_draining s else s in
    if draining_for_gone s then
      let '(answer, self, s) := next_while_draining self s in (Some answer, self, s)
    else
      match try_recv self (rx s) with
      | (hp, Received signal) => (Some (Ok signal), mkRegistry (handles self) hp, account s signal)
      | (_, Empty) => (None, self, s)
      | (_, Disconnected) => close_or_gone self s
      end.

(** Dropping the stream closes its receiver. *)
Definition drop_stream (self : WatcherRegistry) (s : WatchStream) : WatcherRegistry :=
  mkRegistry (handles self)
    (alter (fun ch => mkChan [] (chan_capacity ch) false (gone ch)) (rx s) (chans self)).

(** ** Under the catalog's lock *)

(** The two fields of the store's [Inner] a watch operation works on. *)
Record Watched : Type := mkWatched { catalog : ResourceCatalog; watchers : WatcherRegistry }.

Section Store.
Context `{SerdeJson} `{PatchSchemaEnv} `{OpDecoder} `{Blake3} `{ErrorText}.

(** A [Normal] entry of the log: applied, then fanned out change by change. *)
Definition apply_entry (self : Watched) (entry : LoggedCommand) (term index : Z) : ApplyOutcome * Watched :=
  let '(outcome, catalog) := apply_logged (catalog self) entry term index in
  (outcome, mkWatched catalog (fold_left fan_shared (changes outcome) (watchers self))).

End Store.

Definition watch_from (self : Watched) (now : Z) (opts : WatchOpts) : result (Watched * WatchStream) WatchGone.t :=
  let? out := register (watchers self) now (catalog self) opts in
  Ok (mkWatched (catalog self) out.1, out.2).

Definition watch_subscribe (self : Watched) (now : Z) : Watched * WatchStream :=
  let '(registry, stream) :=
    register_live_tail (watchers self) now (catalog self) WATCH_CHANNEL_CAPACITY in
  (mkWatched (catalog self) registry, stream).

Definition tick_once (self : Watched) (now : Z) : Watched :=
  mkWatched (catalog self) (tick_bookmarks (watchers self) (revision_of (catalog self)) now).
