(* ===== verification/WatchBackendFacts.v ===== *)
(** * Watches, consumer by consumer

    The abstract specification of a watch from revision [f] is the list of the
    changes committed above [f], in order.  The invariant of one consumer, its
    channel and its handle ties what it was handed and what its channel holds to
    that list: all of it while it keeps up, a prefix that falls short, and the
    [Overflow] that says so, once the channel was full.  Every operation of the
    registry keeps the invariant; each is first reduced to what it does to one
    channel. *)

From stdpp Require Import base tactics option list strings numbers.
From S2P Require Import Prelude BTreeMap Json Resource WatchHistory Command Read.
From S2P Require Import PatchApply PatchFacts Ssa SsaFacts Pagination Catalog CatalogMeta CatalogFacts CatalogTheorems.
From S2P Require Import WatchBackend.

Local Open Scope string_scope.
Local Open Scope Z_scope.

(** ** What was handed over *)

Definition change_of (s : ChangeSignal.t) : option Change :=
  match s with ChangeSignal.Change ch => Some ch | ChangeSignal.Bookmark _ => None end.

Definition changes_of (l : list ChangeSignal.t) : list Change := omap change_of l.

(** The highest revision seen after [l], from [start]. *)
Definition seen (start : Revision) (l : list ChangeSignal.t) : Revision :=
  fold_left (fun r s => Z.max r (ChangeSignal.revision s)) l start.

Definition changes_upto (start r : Revision) (log : list Change) : list Change :=
  List.filter (fun c => (start <? revision c) && (revision c <=? r)) log.

(** A bookmark comes after every change it covers. *)
Definition bookmarks_ok (b start : Revision) (log : list Change) (l : list ChangeSignal.t) : Prop :=
  forall l1 r l2, l = (l1 ++ ChangeSignal.Bookmark r :: l2)%list ->
    r <= b /\ changes_of l1 = changes_upto start r log.

Lemma changes_of_app l1 l2 : changes_of (l1 ++ l2) = (changes_of l1 ++ changes_of l2)%list.
Proof. apply omap_app. Qed.

Lemma changes_of_replay l : changes_of (map ChangeSignal.Change l) = l.
Proof. induction l as [|c l IH]; csimpl; [done |]. by rewrite IH. Qed.

Lemma seen_app start l1 l2 : seen start (l1 ++ l2) = seen (seen start l1) l2.
Proof. apply fold_left_app. Qed.

Lemma seen_snoc start l s : seen start (l ++ [s]) = Z.max (seen start l) (ChangeSignal.revision s).
Proof. by rewrite seen_app. Qed.

Lemma changes_upto_app start r l1 l2 :
  changes_upto start r (l1 ++ l2) = (changes_upto start r l1 ++ changes_upto start r l2)%list.
Proof. apply filter_app. Qed.

Lemma changes_upto_newer start r c : r < revision c -> changes_upto start r [c] = [].
Proof.
  intros Hr. unfold changes_upto. simpl. destruct (Z.leb_spec (revision c) r); [lia |].
  by rewrite andb_false_r.
Qed.

Lemma changes_upto_all start r log :
  Forall (fun c => revision c <= r) log -> changes_upto start r log = changes_above start log.
Proof.
  intros Hl. unfold changes_upto, changes_above. induction Hl as [|c log Hc _ IH]; simpl; [done |].
  rewrite IH. destruct (Z.leb_spec (revision c) r); [| lia]. by rewrite andb_true_r.
Qed.

Lemma bookmarks_log b start log c l :
  b < revision c -> bookmarks_ok b start log l -> bookmarks_ok b start (log ++ [c]) l.
Proof.
  intros Hc Hl l1 r l2 E. destruct (Hl _ _ _ E) as [Hr ->]. split; [done |].
  rewrite changes_upto_app, changes_upto_newer by lia. by rewrite app_nil_r.
Qed.

Lemma bookmarks_weaken b b' start log l :
  b <= b' -> bookmarks_ok b start log l -> bookmarks_ok b' start log l.
Proof. intros Hb Hl l1 r l2 E. destruct (Hl _ _ _ E). split; [lia | done]. Qed.

Lemma bookmarks_snoc b start log l s :
  bookmarks_ok b start log l ->
  match s with
  | ChangeSignal.Change _ => True
  | ChangeSignal.Bookmark r => r <= b /\ changes_of l = changes_upto start r log
  end -> bookmarks_ok b start log (l ++ [s]).
Proof.
  intros Hl Hs l1 r l2 E. destruct l2 as [|s' l2 _] using rev_ind.
  - apply app_inj_tail in E as [-> ->]. done.
  - rewrite app_comm_cons, app_assoc in E. apply app_inj_tail in E as [-> _]. by eapply Hl.
Qed.

(** ** One channel and its handle *)

(** [try_send] and [try_enqueue], on the channel alone. *)
Definition send1 (ch : Chan) (signal : ChangeSignal.t) : Chan * SendResult :=
  if negb (rx_open ch) then (ch, Closed)
  else if chan_capacity ch <=? Z.of_nat (length (queue ch)) then (ch, Full)
  else (mkChan (queue ch ++ [signal]) (chan_capacity ch) true (gone ch), Sent).

Definition arm1 (ch : Chan) (reason : WatchGone.t) : Chan :=
  match gone ch with
  | None => mkChan (queue ch) (chan_capacity ch) (rx_open ch) (Some reason)
  | Some _ => ch
  end.

Definition enqueue1 (ch : Chan) (h : WatcherHandle) (signal : ChangeSignal.t)
  : Chan * WatcherHandle * HandleSendOutcome.t :=
  if overflowed h then (ch, h, HandleSendOutcome.Dead)
  else
    match send1 ch signal with
    | (ch, Sent) =>
        (ch, if last_seen h <? ChangeSignal.revision signal
             then set_last_seen h (ChangeSignal.revision signal) else h, HandleSendOutcome.Sent)
    | (ch, Full) =>
        (arm1 ch (WatchGone.Overflow (handle_capacity h) (last_seen h)), set_overflowed h,
         HandleSendOutcome.Overflowed)
    | (ch, Closed) => (ch, h, HandleSendOutcome.Closed)
    end.

Lemma try_send_at hp id ch s :
  hp !! id = Some ch ->
  try_send hp id s = (<[id := (send1 ch s).1]> hp, (send1 ch s).2).
Proof.
  intros Hc. unfold try_send, send1. rewrite Hc.
  destruct (rx_open ch); simpl; [case_match |]; simpl; first [done | by rewrite list_insert_id].
Qed.

Lemma alter_at f (hp : heap) id ch : hp !! id = Some ch -> alter f id hp = <[id := f ch]> hp.
Proof.
  intros Hc. apply list_eq. intros j. destruct (decide (j = id)) as [-> | Hne].
  - rewrite list_lookup_alter_eq, Hc, list_lookup_insert_eq; [done |]. by eapply lookup_lt_Some.
  - by rewrite list_lookup_alter_ne, list_lookup_insert_ne.
Qed.

Lemma arm_at hp id ch r : hp !! id = Some ch -> arm hp id r = <[id := arm1 ch r]> hp.
Proof.
  intros Hc. unfold arm, arm1, set_gone. rewrite Hc. simpl.
  destruct (gone ch); [by rewrite list_insert_id | by rewrite (alter_at _ _ _ _ Hc)].
Qed.

Lemma try_enqueue_at hp h ch s :
  hp !! tx h = Some ch ->
  try_enqueue hp h s =
    (<[tx h := (enqueue1 ch h s).1.1]> hp, (enqueue1 ch h s).1.2, (enqueue1 ch h s).2).
Proof.
  intros Hc. unfold try_enqueue, enqueue1.
  destruct (overflowed h); simpl; [by rewrite list_insert_id |].
  rewrite (try_send_at _ _ _ _ Hc). destruct (send1 ch s) as [ch' []]; simpl; [done | | done].
  rewrite (arm_at _ _ ch') by (apply list_lookup_insert_eq; by eapply lookup_lt_Some).
  by rewrite list_insert_insert_eq.
Qed.

Lemma enqueue1_tx ch h s : tx (enqueue1 ch h s).1.2 = tx h.
Proof. unfold enqueue1. repeat case_match; done. Qed.

(** ** The registry, channel by channel *)

Definition handle_of (i : nat) (hs : list WatcherHandle) : option WatcherHandle :=
  List.find (fun h => Nat.eqb (tx h) i) hs.

Lemma handle_of_tx i hs h : handle_of i hs = Some h -> tx h = i.
Proof. intros Hf. apply find_some in Hf as [_ Hf]. by apply Nat.eqb_eq. Qed.

Lemma handle_of_none i hs : ~ In i (map tx hs) -> handle_of i hs = None.
Proof.
  intros Hn. destruct (handle_of i hs) as [h|] eqn:E; [| done]. exfalso. apply Hn.
  apply find_some in E as [Hi E]. apply Nat.eqb_eq in E as <-. by apply in_map.
Qed.

Lemma has_sender_handle reg i : has_sender reg i = is_some (handle_of i (handles reg)).
Proof.
  unfold has_sender, handle_of. induction (handles reg) as [|h hs IH]; simpl; [done |].
  by destruct (Nat.eqb (tx h) i).
Qed.

Lemma has_sender_eq hs hp i : has_sender (mkRegistry hs hp) i = is_some (handle_of i hs).
Proof. apply (has_sender_handle (mkRegistry hs hp)). Qed.

(** The handles name distinct channels of the heap. *)
Definition handles_ok (hp : heap) (hs : list WatcherHandle) : Prop :=
  List.NoDup (map tx hs) /\ Forall (fun h => is_Some (hp !! tx h)) hs.

(** A sweep whose closure works on the handle's own channel works on every
    channel on its own. *)
Lemma retain_mut_local f (g : Chan -> WatcherHandle -> Chan * WatcherHandle * bool) hs :
  (forall hp h ch, hp !! tx h = Some ch ->
     f hp h = (<[tx h := (g ch h).1.1]> hp, (g ch h).1.2, (g ch h).2)) ->
  (forall ch h, tx (g ch h).1.2 = tx h) ->
  forall hp, handles_ok hp hs ->
  let out := retain_mut f hp hs in
  length out.1 = length hp /\ handles_ok out.1 out.2 /\
  (forall j, In j (map tx out.2) -> In j (map tx hs)) /\
  forall i, (out.1 !! i, handle_of i out.2) =
    match hp !! i, handle_of i hs with
    | Some ch, Some h => (Some (g ch h).1.1, if (g ch h).2 then Some (g ch h).1.2 else None)
    | o, ho => (o, ho)
    end.
Proof.
  intros Hf Htx. induction hs as [|h hs IH]; intros hp [Hnd Hin]; simpl.
  { split_and!; [done | done | done |]. intros i. by destruct (hp !! i). }
  apply NoDup_cons_iff in Hnd as [Hnew Hnd]. apply Forall_cons_iff in Hin as [[ch Hch] Hin].
  rewrite (Hf _ _ _ Hch). set (hp1 := <[tx h := (g ch h).1.1]> hp).
  assert (handles_ok hp1 hs) as Hok1.
  { split; [done |]. eapply Forall_weaken; [exact Hin |]. intros h' Hs. simpl. unfold hp1.
    apply lookup_lt_is_Some. rewrite length_insert. by apply lookup_lt_is_Some. }
  specialize (IH hp1 Hok1). cbv zeta in IH. destruct (retain_mut f hp1 hs) as [hp' hs'] eqn:E.
  cbn [fst snd] in *. destruct IH as (Hlen & [Hnd' Hin'] & Hsub & Hview).
  assert (hp' !! tx h = Some (g ch h).1.1) as Hmine.
  { specialize (Hview (tx h)). rewrite (handle_of_none _ _ Hnew) in Hview. unfold hp1 in Hview.
    rewrite list_lookup_insert_eq in Hview by (by eapply lookup_lt_Some). by inversion Hview. }
  assert (~ In (tx h) (map tx hs')) as Hnew' by (intros Hi; by apply Hnew, Hsub).
  split_and!.
  - rewrite Hlen. unfold hp1. by rewrite length_insert.
  - destruct (g ch h).2; [| by split]. split; simpl.
    + constructor; [by rewrite Htx | done].
    + constructor; [rewrite Htx, Hmine; by eexists | done].
  - intros j. destruct (g ch h).2; simpl; [rewrite Htx |]; naive_solver.
  - intros i. simpl. destruct (Nat.eqb_spec (tx h) i) as [<- | Hne].
    + rewrite Hmine, Hch. f_equal. destruct (g ch h).2; simpl.
      * by rewrite Htx, Nat.eqb_refl.
      * by apply handle_of_none.
    + specialize (Hview i). unfold hp1 in Hview. rewrite list_lookup_insert_ne in Hview by done.
      rewrite <- Hview. f_equal. destruct (g ch h).2; simpl; [| done].
      rewrite Htx. by destruct (Nat.eqb_spec (tx h) i).
Qed.

(** ** Consumers *)

(** A consumer: its stream, where it started, what it was handed, the end it
    was told, and whether it dropped the stream. *)
Record Seat : Type := mkSeat {
  stream : WatchStream;
  start : Revision;
  delivered : list ChangeSignal.t;
  ended : option WatchGone.t;
  dropped : bool
}.

Definition handed (seat : Seat) (ch : Chan) : list ChangeSignal.t := (delivered seat ++ queue ch)%list.

Definition dead (ho : option WatcherHandle) : Prop := forall h, ho = Some h -> overflowed h = true.

(** The consumer keeps up: all that was committed is handed over or in the
    channel, and the registry holds its sender. *)
Definition keeps_up (b : Revision) (log : list Change) (seat : Seat) (ch : Chan)
    (ho : option WatcherHandle) : Prop :=
  changes_of (handed seat ch) = changes_above (start seat) log /\
  draining_for_gone (stream seat) = false /\
  exists h, ho = Some h /\ overflowed h = false /\ boundary h <= b /\
    handle_capacity h = chan_capacity ch /\ last_seen h = seen (start seat) (handed seat ch).

(** The channel overflowed: what is handed over or in the channel falls short,
    and [g] says how far it goes. *)
Definition fell_behind (log : list Change) (seat : Seat) (ch : Chan) (ho : option WatcherHandle)
    (g : WatchGone.t) : Prop :=
  dead ho /\ g = WatchGone.Overflow (chan_capacity ch) (seen (start seat) (handed seat ch)) /\
  exists c rest, changes_above (start seat) log = (changes_of (handed seat ch) ++ c :: rest)%list.

Record live_ok (b : Revision) (log : list Change) (seat : Seat) (ch : Chan)
    (ho : option WatcherHandle) : Prop := {
  live_open : rx_open ch = true;
  live_start : start seat <= b;
  live_seen : stream_last_seen (stream seat) = seen (start seat) (delivered seat);
  live_terminal : terminal_emitted (stream seat) = is_some (ended seat);
  live_marks : bookmarks_ok b (start seat) log (handed seat ch);
  live_state :
    match ended seat, gone ch with
    | None, None => keeps_up b log seat ch ho
    | None, Some g => fell_behind log seat ch ho g
    | Some g, None => queue ch = [] /\ fell_behind log seat ch ho g
    | Some _, Some _ => False
    end
}.

Definition seat_ok (b : Revision) (log : list Change) (i : nat) (seat : Seat) (ch : Chan)
    (ho : option WatcherHandle) : Prop :=
  rx (stream seat) = i /\
  if dropped seat then rx_open ch = false else live_ok b log seat ch ho.

Lemma fell_behind_log log seat ch ho g c :
  fell_behind log seat ch ho g -> fell_behind (log ++ [c]) seat ch ho g.
Proof.
  intros (Hd & Hg & c' & rest & Hc). split_and!; [done | done |].
  exists c', (rest ++ changes_above (start seat) [c])%list.
  by rewrite changes_above_app, Hc, <- app_assoc.
Qed.

Lemma fell_behind_dead log seat ch ho ho' g :
  fell_behind log seat ch ho g -> dead ho' -> fell_behind log seat ch ho' g.
Proof. intros (_ & H) Hd. by split. Qed.

Lemma live_weaken b b' log seat ch ho : b <= b' -> live_ok b log seat ch ho -> live_ok b' log seat ch ho.
Proof.
  intros Hb [Ho Hs Hn Ht Hm Hst]. split; [done | lia | done | done | by eapply bookmarks_weaken |].
  destruct (ended seat), (gone ch); try done.
  destruct Hst as (Hc & Hd & h & ? & ? & ? & ?). split_and!; [done | done |].
  exists h. split_and!; naive_solver lia.
Qed.

Lemma seat_weaken b b' log i seat ch ho : b <= b' -> seat_ok b log i seat ch ho -> seat_ok b' log i seat ch ho.
Proof. intros Hb [Hi Hs]. split; [done |]. destruct (dropped seat); [done |]. by eapply live_weaken. Qed.

(** ** A change is fanned out *)

(** [fan_shared]'s closure, on the handle's channel. *)
Definition fan1 (c : Change) (ch : Chan) (h : WatcherHandle) : Chan * WatcherHandle * bool :=
  if revision c <=? boundary h then (ch, h, true)
  else
    let out := enqueue1 ch h (ChangeSignal.Change c) in
    (out.1.1, out.1.2, negb (HandleSendOutcome.should_reap out.2)).

Lemma handed_snoc seat ch s b g :
  handed seat (mkChan (queue ch ++ [s]) (chan_capacity ch) b g) = (handed seat ch ++ [s])%list.
Proof. unfold handed. simpl. by rewrite app_assoc. Qed.

Lemma live_no_handle b log seat ch c :
  b < revision c -> live_ok b log seat ch None -> live_ok b (log ++ [c]) seat ch None.
Proof.
  intros Hc [Ho Hs Hn Ht Hm Hst]. split; [done | done | done | done | by apply bookmarks_log |].
  destruct (ended seat), (gone ch); try done.
  - destruct Hst as [Hq Hf]. split; [done |]. by apply fell_behind_log.
  - by apply fell_behind_log.
  - by destruct Hst as (_ & _ & h & [=] & _).
Qed.

Lemma fan1_dead b log seat ch h c :
  b < revision c -> overflowed h = true -> live_ok b log seat ch (Some h) ->
  live_ok b (log ++ [c]) seat (fan1 c ch h).1.1
    (if (fan1 c ch h).2 then Some (fan1 c ch h).1.2 else None).
Proof.
  intros Hc Hov [Ho Hs Hn Ht Hm Hst].
  assert (dead (Some h)) as Hdead by (intros ? [= <-]; done).
  assert (dead None) as Hdead' by done.
  unfold fan1, enqueue1. rewrite Hov.
  destruct (revision c <=? boundary h); simpl; (split; [done | done | done | done | by apply bookmarks_log |]);
    destruct (ended seat), (gone ch); try done.
  all: try (destruct Hst as (_ & _ & h' & [= <-] & Hov' & _); congruence).
  all: try (destruct Hst as [Hq Hst]; split; [done |]).
  all: by eapply fell_behind_dead; [apply fell_behind_log |].
Qed.

Lemma fan1_live b log seat ch h c :
  b < revision c -> overflowed h = false -> live_ok b log seat ch (Some h) ->
  live_ok b (log ++ [c]) seat (fan1 c ch h).1.1
    (if (fan1 c ch h).2 then Some (fan1 c ch h).1.2 else None).
Proof.
  intros Hc Hov [Ho Hs Hn Ht Hm Hst].
  destruct (ended seat) as [g|] eqn:He, (gone ch) as [g'|] eqn:Hg; try done.
  { destruct Hst as (_ & Hd & _). by rewrite (Hd h eq_refl) in Hov. }
  { destruct Hst as (Hd & _). by rewrite (Hd h eq_refl) in Hov. }
  destruct Hst as (Hall & Hdr & h' & [= <-] & _ & Hbd & Hcap & Hls).
  assert (changes_above (start seat) (log ++ [c]) = changes_of (handed seat ch) ++ [c])%list as Hnew.
  { rewrite changes_above_app, Hall. f_equal. apply changes_above_all. repeat constructor. lia. }
  unfold fan1, enqueue1, send1. rewrite Hov, Ho.
  destruct (Z.leb_spec (revision c) (boundary h)); [lia |].
  destruct (chan_capacity ch <=? Z.of_nat (length (queue ch))); cbn -[handed changes_above Z.ltb].
  - unfold arm1. rewrite Hg.
    split; [done | done | done | by rewrite He, Ht | by apply bookmarks_log |]. rewrite He. simpl.
    split_and!; [by intros ? [=] | by rewrite Hcap, Hls |]. exists c, []. exact Hnew.
  - split; rewrite ?He; cbn -[handed changes_above Z.ltb]; [done | done | done | done | |].
    + rewrite handed_snoc. apply bookmarks_snoc; [by apply bookmarks_log | done].
    + rewrite Hg. split_and!; [| done |].
      * rewrite handed_snoc, changes_of_app, Hnew. done.
      * eexists. split; [done |]. rewrite handed_snoc, seen_snoc, <- Hls. simpl.
        destruct (Z.ltb_spec (last_seen h) (revision c)); simpl; split_and!; try done; lia.
Qed.

Lemma fan1_ok b log i seat ch h c :
  b < revision c -> seat_ok b log i seat ch (Some h) ->
  seat_ok b (log ++ [c]) i seat (fan1 c ch h).1.1
    (if (fan1 c ch h).2 then Some (fan1 c ch h).1.2 else None).
Proof.
  intros Hc [Hi Hs]. split; [done |]. destruct (dropped seat).
  - unfold fan1, enqueue1, send1. rewrite Hs. by destruct (revision c <=? boundary h), (overflowed h).
  - destruct (overflowed h) eqn:E; [by apply fan1_dead | by apply fan1_live].
Qed.

(** ** The registry and its consumers *)

Record reg_ok (b : Revision) (log : list Change) (reg : WatcherRegistry) (seats : list Seat) : Prop := {
  reg_length : length (chans reg) = length seats;
  reg_handles : handles_ok (chans reg) (handles reg);
  reg_seats : forall i seat, seats !! i = Some seat ->
    exists ch, chans reg !! i = Some ch /\ seat_ok b log i seat ch (handle_of i (handles reg))
}.

Lemma reg_weaken b b' log reg seats : b <= b' -> reg_ok b log reg seats -> reg_ok b' log reg seats.
Proof.
  intros Hb [Hl Hh Hs]. split; [done | done |]. intros i seat Hi. destruct (Hs i seat Hi) as (ch & Hc & Ho).
  exists ch. split; [done |]. by eapply seat_weaken.
Qed.

(** A sweep over the handles, from what it does to each channel. *)
Lemma sweep_ok b b' log log' reg seats f (g : Chan -> WatcherHandle -> Chan * WatcherHandle * bool) :
  (forall hp h ch, hp !! tx h = Some ch ->
     f hp h = (<[tx h := (g ch h).1.1]> hp, (g ch h).1.2, (g ch h).2)) ->
  (forall ch h, tx (g ch h).1.2 = tx h) ->
  (forall i seat ch h, seat_ok b log i seat ch (Some h) ->
     seat_ok b' log' i seat (g ch h).1.1 (if (g ch h).2 then Some (g ch h).1.2 else None)) ->
  (forall i seat ch, seat_ok b log i seat ch None -> seat_ok b' log' i seat ch None) ->
  reg_ok b log reg seats ->
  let out := retain_mut f (chans reg) (handles reg) in
  reg_ok b' log' (mkRegistry out.2 out.1) seats.
Proof.
  intros Hf Htx Hsome Hnone [Hl Hh Hs] out.
  destruct (retain_mut_local f g (handles reg) Hf Htx (chans reg) Hh) as (Hlen & Hok & _ & Hview).
  fold out in Hlen, Hok, Hview. split; simpl; [by rewrite Hlen | done |].
  intros i seat Hi. destruct (Hs i seat Hi) as (ch & Hc & Ho). specialize (Hview i). rewrite Hc in Hview.
  destruct (handle_of i (handles reg)) as [h|]; apply pair_equal_spec in Hview as [Hv ->].
  - exists (g ch h).1.1. split; [exact Hv | by apply Hsome].
  - exists ch. split; [exact Hv | by apply Hnone].
Qed.

Lemma fan_ok b log reg seats c :
  b < revision c -> reg_ok b log reg seats -> reg_ok b (log ++ [c]) (fan_shared reg c) seats.
Proof.
  intros Hc Hok. unfold fan_shared.
  match goal with |- context [retain_mut ?f _ _] =>
    pose proof (sweep_ok b b log (log ++ [c])%list reg seats f (fan1 c)) as H end.
  cbv zeta in H. destruct (retain_mut _ _ _) as [hp hs]. apply H; clear H.
  - intros hp' h ch Hch. unfold fan1. case_match; simpl; [by rewrite list_insert_id |].
    by rewrite (try_enqueue_at _ _ _ _ Hch).
  - intros ch h. unfold fan1. case_match; [done |]. apply enqueue1_tx.
  - intros i seat ch h. by apply fan1_ok.
  - intros i seat ch [Hi Hs]. split; [done |]. destruct (dropped seat); [done |]. by apply live_no_handle.
  - done.
Qed.

Lemma fan_all_ok cs b log reg seats :
  Forall (fun c => b < revision c) cs -> reg_ok b log reg seats ->
  reg_ok b (log ++ cs) (fold_left fan_shared cs reg) seats.
Proof.
  intros Hcs. revert log reg. induction Hcs as [|c cs Hc _ IH]; intros log reg Hok; simpl.
  - by rewrite app_nil_r.
  - replace (log ++ c :: cs)%list with ((log ++ [c]) ++ cs)%list by (by rewrite <- app_assoc).
    by apply IH, fan_ok.
Qed.

(** ** A bookmark tick *)

Definition tick1 (current : Revision) (now : Z) (ch : Chan) (h : WatcherHandle)
  : Chan * WatcherHandle * bool :=
  if overflowed h then (ch, h, false)
  else
    let due := negb (handle_bookmark_every h =? 0)
               && (handle_bookmark_every h <=? Z.max 0 (now - last_bookmark_at h)) in
    if negb due || eqb (last_bookmarked_rev h) (Some current) then (ch, h, true)
    else
      match send1 ch (ChangeSignal.Bookmark current) with
      | (ch, Sent) =>
          let h := if last_seen h <? current then set_last_seen h current else h in
          (ch, set_bookmarked h current now, true)
      | (ch, Full) => (ch, h, true)
      | (ch, Closed) => (ch, h, false)
      end.

Lemma tick1_live b log seat ch h now :
  Forall (fun c => revision c <= b) log -> live_ok b log seat ch (Some h) ->
  live_ok b log seat (tick1 b now ch h).1.1
    (if (tick1 b now ch h).2 then Some (tick1 b now ch h).1.2 else None).
Proof.
  intros Hlog Hok. unfold tick1. destruct (overflowed h) eqn:Hov; simpl.
  { destruct Hok as [Ho Hs Hn Ht Hm Hst]. split; try done. destruct (ended seat), (gone ch); try done.
    - destruct Hst as [Hq Hst]. split; [done |]. by eapply fell_behind_dead.
    - by eapply fell_behind_dead.
    - destruct Hst as (_ & _ & h' & [= <-] & Hov' & _). congruence. }
  destruct (_ || _); simpl; [done |].
  destruct Hok as [Ho Hs Hn Ht Hm Hst]. unfold send1. rewrite Ho. simpl.
  destruct (chan_capacity ch <=? _); simpl; [by split |].
  destruct (ended seat) as [g|] eqn:He, (gone ch) as [g'|] eqn:Hg; try done.
  { destruct Hst as (_ & Hd & _). by rewrite (Hd h eq_refl) in Hov. }
  { destruct Hst as (Hd & _). by rewrite (Hd h eq_refl) in Hov. }
  destruct Hst as (Hall & Hdr & h' & [= <-] & _ & Hbd & Hcap & Hls).
  split; rewrite ?He; cbn -[handed changes_above Z.ltb]; [done | done | done | done | |].
  - rewrite handed_snoc. apply bookmarks_snoc; [done |]. split; [lia |].
    by rewrite Hall, changes_upto_all.
  - split_and!; [| done |].
    + rewrite handed_snoc, changes_of_app, Hall. apply app_nil_r.
    + eexists. split; [done |]. rewrite handed_snoc, seen_snoc, <- Hls. simpl.
      destruct (Z.ltb_spec (last_seen h) b); simpl; split_and!; try done; lia.
Qed.

Lemma tick_ok b log reg seats now :
  Forall (fun c => revision c <= b) log -> reg_ok b log reg seats ->
  reg_ok b log (tick_bookmarks reg b now) seats.
Proof.
  intros Hlog Hok. unfold tick_bookmarks.
  pose proof (sweep_ok b b log log reg seats (tick_handle b now) (tick1 b now)) as H.
  cbv zeta in H. destruct (retain_mut _ _ _) as [hp hs]. apply H; clear H.
  - intros hp' h ch Hch. unfold tick_handle, tick1.
    destruct (overflowed h); simpl; [by rewrite list_insert_id |].
    destruct (_ || _); simpl; [by rewrite list_insert_id |].
    rewrite (try_send_at _ _ _ _ Hch). by destruct (send1 ch _) as [ch' []].
  - intros ch h. unfold tick1. repeat case_match; simplify_eq; done.
  - intros i seat ch h [Hi Hs]. split; [done |]. destruct (dropped seat); [| by apply tick1_live].
    unfold tick1, send1. rewrite Hs. simpl. repeat case_match; simplify_eq; done.
  - done.
  - done.
Qed.

(** ** Reaping *)

Lemma nodup_map_filter {A B} (f : A -> B) p l : List.NoDup (map f l) -> List.NoDup (map f (List.filter p l)).
Proof.
  induction l as [|a l IH]; simpl; [done |]. intros Hnd. apply NoDup_cons_iff in Hnd as [Hn Hnd].
  destruct (p a); simpl; [| by apply IH]. constructor; [| by apply IH]. intros Hi. apply Hn.
  apply in_map_iff in Hi as (a' & Ht & Hi). apply filter_In in Hi as [Hi _]. rewrite <- Ht. by apply in_map.
Qed.

Lemma reap_ok b log reg seats : reg_ok b log reg seats -> reg_ok b log (reap_closed reg) seats.
Proof.
  intros Hok. unfold reap_closed.
  set (keep := fun h => negb (overflowed h) && negb (is_closed (chans reg) (tx h))).
  destruct Hok as [Hl [Hnd Hin] Hs]. split; simpl; [done | |].
  - split; [by apply nodup_map_filter |].
    rewrite List.Forall_forall in *. intros h Hh. apply filter_In in Hh as [Hh _]. by apply Hin.
  - intros i seat Hi. destruct (Hs i seat Hi) as (ch & Hc & Ho). exists ch. split; [done |].
    assert (handle_of i (List.filter keep (handles reg)) = handle_of i (handles reg) \/
      exists h, handle_of i (handles reg) = Some h /\ keep h = false /\
        handle_of i (List.filter keep (handles reg)) = None) as [-> | (h & Hh & Hk & ->)]; [| done |].
    { clear -Hnd. induction (handles reg) as [|h hs IH]; simpl; [by left |].
      apply NoDup_cons_iff in Hnd as [Hn Hnd]. destruct (Nat.eqb_spec (tx h) i) as [<- | Hne].
      - destruct (keep h) eqn:Hk; simpl; [rewrite Nat.eqb_refl; by left |]. right. exists h.
        split_and!; [done | done |]. apply handle_of_none. intros Hi. apply Hn.
        apply in_map_iff in Hi as (h' & Ht & Hi). apply filter_In in Hi as [Hi _]. rewrite <- Ht. by apply in_map.
      - destruct (keep h); simpl; [| by apply IH]. destruct (Nat.eqb_spec (tx h) i); [done |]. by apply IH. }
    rewrite Hh in Ho. destruct Ho as [Hi' Ho]. split; [done |]. destruct (dropped seat); [done |].
    pose proof (handle_of_tx _ _ _ Hh) as Ht. unfold keep, is_closed in Hk. rewrite Ht, Hc in Hk.
    destruct Ho as [Ho1 Hs1 Hn1 Ht1 Hm1 Hst]. rewrite Ho1, andb_true_r in Hk. bool_to_prop.
    split; try done. destruct (ended seat), (gone ch); try done.
    + destruct Hst as [Hq Hst]. split; [done |]. by eapply fell_behind_dead.
    + by eapply fell_behind_dead.
    + destruct Hst as (_ & _ & h' & [= <-] & Hov' & _). by rewrite Hov' in Hk.
Qed.

(** ** Registration *)

Fixpoint feed1 (ch : Chan) (h : WatcherHandle) (replay : list Change) : Chan * WatcherHandle :=
  match replay with
  | [] => (ch, h)
  | c :: replay =>
      let out := enqueue1 ch h (ChangeSignal.Change c) in
      if eqb out.2 HandleSendOutcome.Sent then feed1 out.1.1 out.1.2 replay else out.1
  end.

Lemma feed_at replay : forall hp h ch,
  hp !! tx h = Some ch ->
  feed hp h replay = (<[tx h := (feed1 ch h replay).1]> hp, (feed1 ch h replay).2).
Proof.
  induction replay as [|c replay IH]; intros hp h ch Hc; simpl; [by rewrite list_insert_id |].
  rewrite (try_enqueue_at _ _ _ _ Hc). pose proof (enqueue1_tx ch h (ChangeSignal.Change c)) as Ht.
  destruct (enqueue1 ch h _) as [[ch' h'] o]. simpl in *. destruct (eqb o _); [| done].
  rewrite (IH _ _ ch'); rewrite Ht; [by rewrite list_insert_insert_eq |].
  apply list_lookup_insert_eq. by eapply lookup_lt_Some.
Qed.

(** The replay is in the channel whole, or up to where the channel was full. *)
Lemma feed1_spec st replay : forall ch h,
  rx_open ch = true -> gone ch = None -> overflowed h = false ->
  handle_capacity h = chan_capacity ch -> last_seen h = seen st (queue ch) ->
  let out := feed1 ch h replay in
  rx_open out.1 = true /\ chan_capacity out.1 = chan_capacity ch /\ boundary out.2 = boundary h /\
  handle_capacity out.2 = handle_capacity h /\ tx out.2 = tx h /\
  ((gone out.1 = None /\ queue out.1 = (queue ch ++ map ChangeSignal.Change replay)%list /\
    overflowed out.2 = false /\ last_seen out.2 = seen st (queue out.1)) \/
   (exists l1 c l2, replay = (l1 ++ c :: l2)%list /\
      queue out.1 = (queue ch ++ map ChangeSignal.Change l1)%list /\
      gone out.1 = Some (WatchGone.Overflow (chan_capacity ch) (seen st (queue out.1))) /\
      overflowed out.2 = true)).
Proof.
  induction replay as [|c replay IH]; intros ch h Ho Hg Hov Hcap Hls; simpl.
  { split_and!; try done. left. by rewrite app_nil_r. }
  unfold enqueue1, send1. rewrite Hov, Ho. simpl. destruct (chan_capacity ch <=? _); simpl.
  - unfold arm1. rewrite Hg. simpl. split_and!; try done. right. exists [], c, replay.
    split_and!; [done | by rewrite app_nil_r | by rewrite Hcap, Hls | done].
  - set (ch' := mkChan _ _ _ _). set (h' := if _ <? _ then _ else _).
    assert (boundary h' = boundary h /\ handle_capacity h' = handle_capacity h /\ tx h' = tx h /\
            overflowed h' = false /\ last_seen h' = seen st (queue ch')) as (Hb & Hc & Ht & Hov' & Hls').
    { unfold h', ch'. simpl. rewrite seen_snoc, <- Hls. simpl.
      destruct (Z.ltb_spec (last_seen h) (revision c)); simpl; split_and!; try done; lia. }
    destruct (IH ch' h') as (H1 & H2 & H3 & H4 & H5 & H6); [done | done | done | by rewrite Hc | done |].
    rewrite H3, H4, H5. split_and!; [done | by rewrite H2 | done | done | done |].
    destruct H6 as [(Hg1 & Hq & Ho1 & Hl1) | (l1 & d & l2 & -> & Hq & Hg1 & Ho1)]; [left | right].
    + split_and!; [done | | done | done]. rewrite Hq. simpl. by rewrite <- app_assoc.
    + exists (c :: l1), d, l2. split_and!; [done | rewrite Hq; simpl; by rewrite <- app_assoc | done | done].
Qed.

Lemma bookmarks_replay b start log l : bookmarks_ok b start log (map ChangeSignal.Change l).
Proof.
  intros l1 r l2 E. exfalso. assert (In (ChangeSignal.Bookmark r) (map ChangeSignal.Change l)) as Hi.
  { rewrite E. apply in_or_app. right. by left. }
  apply in_map_iff in Hi as (c & [=] & _).
Qed.

Definition new_seat (s : WatchStream) (start : Revision) : Seat := mkSeat s start [] None false.

Lemma handle_of_app i hs h :
  handle_of i (hs ++ [h]) = match handle_of i hs with
                            | Some h' => Some h'
                            | None => if Nat.eqb (tx h) i then Some h else None
                            end.
Proof. unfold handle_of. induction hs as [|h' hs IH]; simpl; [done |]. by destruct (Nat.eqb (tx h') i). Qed.

Lemma register_ok b log reg seats now replay opts :
  reg_ok b log reg seats -> from opts <= b -> changes_above (from opts) log = replay ->
  let out := register_shared reg now replay b opts in
  reg_ok b log out.1 (seats ++ [new_seat out.2 (from opts)]).
Proof.
  intros [Hl [Hnd Hin] Hs] Hb Hr. unfold register_shared. set (id := length (chans reg)).
  set (ch0 := mkChan _ _ _ _). set (h0 := mkHandle _ _ _ _ _ _ _ _).
  assert ((chans reg ++ [ch0])%list !! tx h0 = Some ch0) as Hc0.
  { simpl. rewrite lookup_app_r by (unfold id; lia). unfold id. by rewrite Nat.sub_diag. }
  rewrite (feed_at _ _ _ _ Hc0).
  destruct (feed1_spec (from opts) replay ch0 h0) as (H1 & H2 & H3 & H4 & H5 & H6); try done.
  destruct (feed1 ch0 h0 replay) as [ch h]. simpl in *.
  rewrite insert_app_r_alt by (unfold id; lia). unfold id. rewrite Nat.sub_diag. simpl.
  assert (~ In (length (chans reg)) (map tx (handles reg))) as Hfresh.
  { intros Hi. apply in_map_iff in Hi as (h' & Ht & Hi). rewrite List.Forall_forall in Hin.
    specialize (Hin _ Hi). rewrite Ht in Hin. apply lookup_lt_is_Some in Hin. lia. }
  split; simpl.
  - rewrite !length_app. simpl. lia.
  - split.
    + rewrite map_app. simpl. rewrite H5. apply NoDup_app; [done | repeat constructor; naive_solver |].
      intros j Hj [<- | []]. done.
    + apply Forall_app. split; [| repeat constructor].
      * eapply Forall_weaken; [exact Hin |]. intros h' [c Hc]. simpl. exists c. by apply lookup_app_l_Some.
      * rewrite H5. eexists. rewrite lookup_app_r by (unfold id; lia). unfold id. by rewrite Nat.sub_diag.
  - intros i seat Hi. rewrite handle_of_app. apply lookup_app_Some in Hi as [Hi | [Hge Hi]].
    + destruct (Hs i seat Hi) as (c & Hc & Ho). exists c. split; [by apply lookup_app_l_Some |].
      destruct (handle_of i (handles reg)) eqn:E; [done |].
      destruct (Nat.eqb_spec (tx h) i) as [He | _]; [| done]. apply lookup_lt_Some in Hc. unfold id in *. lia.
    + apply list_lookup_singleton_Some in Hi as [Hi <-]. assert (i = id) as -> by (unfold id; lia).
      rewrite handle_of_none by done. rewrite H5, Nat.eqb_refl. exists ch. split.
      { rewrite lookup_app_r by (unfold id; lia). unfold id. by rewrite Nat.sub_diag. }
      split; [done |]. simpl. split; simpl; [done | lia | done | done | |].
      * unfold handed. simpl. destruct H6 as [(_ & -> & _) | (l1 & c & l2 & _ & -> & _)]; apply bookmarks_replay.
      * destruct H6 as [(Hg & Hq & Hov & Hls) | (l1 & c & l2 & Hrep & Hq & Hg & Hov)].
        -- rewrite Hg. split_and!; [| done |].
           ++ unfold handed. simpl. by rewrite Hq, changes_of_replay, Hr.
           ++ exists h. split_and!; [done | done | simpl in *; lia | by rewrite H4, H2 | done].
        -- rewrite Hg. split_and!.
           ++ intros ? [= <-]. done.
           ++ unfold handed. simpl. by rewrite H2.
           ++ exists c, l2. unfold handed. simpl. by rewrite Hq, changes_of_replay, Hr.
Qed.

(** ** Reading *)

(** What a consumer gets from its channel, if anything, and the channel after. *)
Definition read1 (ch : Chan) : option (result ChangeSignal.t WatchGone.t) * Chan :=
  match queue ch with
  | s :: q => (Some (Ok s), mkChan q (chan_capacity ch) (rx_open ch) (gone ch))
  | [] =>
      match gone ch with
      | Some g => (Some (Err g), mkChan [] (chan_capacity ch) (rx_open ch) None)
      | None => (None, ch)
      end
  end.

Definition seat_read (seat : Seat) (answer : option (result ChangeSignal.t WatchGone.t)) (s : WatchStream)
  : Seat :=
  match answer with
  | Some (Ok signal) => mkSeat s (start seat) (delivered seat ++ [signal]) (ended seat) (dropped seat)
  | Some (Err g) => mkSeat s (start seat) (delivered seat) (Some g) (dropped seat)
  | None => mkSeat s (start seat) (delivered seat) (ended seat) (dropped seat)
  end.

(** How the stream is left. *)
Definition left_as (ch : Chan) (answer : option (result ChangeSignal.t WatchGone.t)) (s s' : WatchStream)
  : Prop :=
  rx s' = rx s /\
  (draining_for_gone s' = true -> draining_for_gone s = true \/ gone ch <> None) /\
  match answer with
  | Some (Ok signal) =>
      stream_last_seen s' = Z.max (stream_last_seen s) (ChangeSignal.revision signal) /\
      terminal_emitted s' = terminal_emitted s
  | Some (Err _) => stream_last_seen s' = stream_last_seen s /\ terminal_emitted s' = true
  | None => stream_last_seen s' = stream_last_seen s /\ terminal_emitted s' = terminal_emitted s
  end.

Lemma read_ok b log i seat ch ho s' :
  seat_ok b log i seat ch ho -> dropped seat = false -> ended seat = None ->
  left_as ch (read1 ch).1 (stream seat) s' ->
  seat_ok b log i (seat_read seat (read1 ch).1 s') (read1 ch).2 ho.
Proof.
  intros [Hi Hs] Hd He (Hrx & Hdr & Hl). rewrite Hd in Hs. destruct Hs as [Ho Hst Hn Ht Hm Hk].
  rewrite He in *. unfold read1 in *. destruct (queue ch) as [|sg q] eqn:Hq; [destruct (gone ch) as [g|] eqn:Hg |];
    simpl in *; (split; [simpl; by rewrite Hrx |]); simpl; rewrite ?Hd; destruct Hl as [Hl1 Hl2].
  - split; simpl; [done | done | by rewrite Hl1 | done | |].
    + unfold handed in *. simpl. by rewrite Hq in Hm.
    + split; [done |]. destruct Hk as (Hdead & -> & Hr). unfold fell_behind, handed in *. rewrite Hq in *. done.
  - split; simpl; rewrite ?He; [done | done | by rewrite Hl1 | by rewrite Hl2 | |].
    + exact Hm.
    + rewrite Hg. destruct Hk as (Hall & Hdf & Hh). split_and!; [exact Hall | | exact Hh].
      simpl. destruct (draining_for_gone s'); [| done]. destruct (Hdr eq_refl); [congruence | done].
  - assert (forall x e d g,
      handed (mkSeat x (start seat) (delivered seat ++ [sg]) e d) (mkChan q (chan_capacity ch) (rx_open ch) g)
      = handed seat ch) as Hh.
    { intros. unfold handed. simpl. by rewrite Hq, <- app_assoc. }
    split; [done | done | | simpl; by rewrite He, Hl2 | by rewrite Hh |].
    + simpl. by rewrite Hl1, Hn, seen_snoc.
    + simpl. rewrite He. destruct (gone ch) as [g|] eqn:Hg.
      * unfold fell_behind. rewrite Hh. exact Hk.
      * destruct Hk as (Hall & Hdf & Hx). unfold keeps_up. rewrite Hh. split_and!; [exact Hall | | exact Hx].
        simpl. destruct (draining_for_gone s'); [| done]. destruct (Hdr eq_refl); [congruence | done].
Qed.

Lemma try_recv_at reg i ch :
  chans reg !! i = Some ch ->
  try_recv reg i =
    match queue ch with
    | s :: q => (<[i := mkChan q (chan_capacity ch) (rx_open ch) (gone ch)]> (chans reg), Received s)
    | [] => (chans reg, if has_sender reg i then Empty else Disconnected)
    end.
Proof. intros Hc. unfold try_recv. rewrite Hc. by destruct ch as [[|s q] cap o g]. Qed.

Lemma set_gone_at hp i ch :
  hp !! i = Some ch ->
  set_gone hp i None = <[i := mkChan (queue ch) (chan_capacity ch) (rx_open ch) None]> hp.
Proof. intros Hc. unfold set_gone. by rewrite (alter_at _ _ _ _ Hc). Qed.

Lemma account_spec s sg :
  stream_last_seen (account s sg) = Z.max (stream_last_seen s) (ChangeSignal.revision sg) /\
  terminal_emitted (account s sg) = terminal_emitted s /\ rx (account s sg) = rx s /\
  draining_for_gone (account s sg) = draining_for_gone s.
Proof.
  unfold account. destruct (Z.ltb_spec (stream_last_seen s) (ChangeSignal.revision sg));
    simpl; split_and!; try done; lia.
Qed.

Section Reads.
Context (reg : WatcherRegistry) (i : nat) (ch : Chan).
Hypothesis Hch : chans reg !! i = Some ch.

Definition after_read : WatcherRegistry := mkRegistry (handles reg) (<[i := (read1 ch).2]> (chans reg)).

Lemma draining_reads s g :
  rx s = i -> gone ch = Some g ->
  exists a s', next_while_draining reg s = (a, after_read, s') /\ (read1 ch).1 = Some a /\
    left_as ch (read1 ch).1 s s'.
Proof.
  intros Hi Hg. unfold next_while_draining, after_read, read1. rewrite Hi, (try_recv_at _ _ _ Hch).
  destruct (queue ch) as [|sg q] eqn:Hq; simpl.
  - destruct (has_sender reg i); simpl; rewrite (set_gone_at _ _ _ Hch), Hch; simpl; rewrite Hg, Hq; simpl;
      (do 2 eexists; split_and!; [done | done |]); unfold left_as; simpl; split_and!; auto.
  - do 2 eexists. split_and!; [done | done |]. destruct (account_spec s sg) as (H1 & H2 & H3 & H4).
    unfold left_as. rewrite H3, H4. auto.
Qed.

Lemma parked_reads s :
  rx s = i -> (gone ch = None -> is_some (handle_of i (handles reg)) = true) ->
  exists s', poll_parked reg s =
      (match (read1 ch).1 with Some a => Ready (Some a) | None => Pending end, after_read, s') /\
    left_as ch (read1 ch).1 s s'.
Proof.
  intros Hi Hsend. unfold poll_parked, close_or_gone, armed. rewrite Hi, (try_recv_at _ _ _ Hch), Hch. simpl.
  rewrite has_sender_handle. destruct (queue ch) as [|sg q] eqn:Hq.
  - destruct (gone ch) as [g|] eqn:Hg; simpl.
    + destruct (is_some _); simpl.
      * destruct (draining_reads (set_draining s) g) as (a & s' & -> & Ha & Hl); [done | done |]. rewrite Ha in *.
        exists s'. split; [done |]. destruct Hl as (H1 & _ & H3). unfold left_as. split_and!; [done | | done].
        intros _. right. by rewrite Hg.
      * rewrite Hch. simpl. rewrite Hg, (set_gone_at _ _ _ Hch), Hq. unfold after_read, read1. rewrite Hq, Hg. simpl.
        eexists. split; [done |]. unfold left_as. simpl. auto.
    + rewrite Hsend by done. simpl. unfold after_read, read1. rewrite Hq, Hg. simpl.
      rewrite list_insert_id by done. destruct reg. eexists. split; [done |]. unfold left_as. auto.
  - unfold after_read, read1. rewrite Hq. simpl. eexists. split; [done |].
    destruct (account_spec s sg) as (H1 & H2 & H3 & H4). unfold left_as. rewrite H3, H4. auto.
Qed.

Lemma left_as_draining s s' :
  gone ch <> None -> left_as ch (read1 ch).1 (set_draining s) s' -> left_as ch (read1 ch).1 s s'.
Proof. intros Hg (H1 & _ & H3). unfold left_as. split_and!; auto. Qed.

Lemma next_change_reads s :
  rx s = i -> (gone ch = None -> is_some (handle_of i (handles reg)) = true) ->
  terminal_emitted s = false -> (gone ch = None -> draining_for_gone s = false) ->
  exists s', next_change reg s =
      (match (read1 ch).1 with Some a => Ready (Some a) | None => Pending end, after_read, s') /\
    left_as ch (read1 ch).1 s s'.
Proof.
  intros Hi Hsend Ht Hd. unfold next_change, armed. rewrite Ht, Hi, Hch. simpl.
  destruct (gone ch) as [g|] eqn:Hg; simpl.
  - assert (exists s', next_while_draining reg (if negb (draining_for_gone s) then set_draining s else s)
      = (default (Err g) (read1 ch).1, after_read, s') /\ is_some (read1 ch).1 = true /\
        left_as ch (read1 ch).1 s s') as (s' & Hn & Hs & Hl).
    { destruct (draining_reads (if negb (draining_for_gone s) then set_draining s else s) g) as (a & s' & -> & Ha & Hl);
        [by destruct (draining_for_gone s) | done |]. rewrite Ha in *. exists s'. split_and!; [done | done |].
      destruct (draining_for_gone s); simpl in Hl; [done |]. rewrite <- Ha in *.
      apply left_as_draining; [by rewrite Hg | done]. }
    rewrite andb_true_r. rewrite Hn. exists s'.
    replace (draining_for_gone (if negb (draining_for_gone s) then set_draining s else s)) with true
      by (by destruct (draining_for_gone s) eqn:E; simpl; rewrite ?E).
    destruct (read1 ch).1; [done |]. discriminate Hs.
  - rewrite andb_false_r, Hd by done. apply parked_reads; [done |]. by rewrite Hg.
Qed.

Lemma try_next_reads s :
  rx s = i -> (gone ch = None -> is_some (handle_of i (handles reg)) = true) ->
  terminal_emitted s = false -> (gone ch = None -> draining_for_gone s = false) ->
  exists s', try_next_change reg s = ((read1 ch).1, after_read, s') /\ left_as ch (read1 ch).1 s s'.
Proof.
  intros Hi Hsend Ht Hd. pose proof (next_change_reads s Hi Hsend Ht Hd) as (s' & Hn & Hl).
  unfold try_next_change. unfold next_change in Hn. rewrite Ht in *.
  set (s0 := if negb _ && _ then _ else _) in *. destruct (draining_for_gone s0) eqn:E.
  - destruct (next_while_draining reg s0) as [[a reg'] s''].
    destruct (read1 ch).1 as [a'|]; simplify_eq. by exists s'.
  - assert (rx s0 = i) as Hi0 by (unfold s0; by destruct (negb _ && _)).
    unfold poll_parked in Hn. rewrite Hi0 in *. rewrite (try_recv_at _ _ _ Hch) in *.
    rewrite has_sender_handle in *. destruct (queue ch) as [|sg q] eqn:Hq.
    + destruct (is_some _) eqn:Hs0.
      * assert (gone ch = None) as Hg.
        { destruct (gone ch) as [g|] eqn:Hg; [| done]. unfold s0, armed in E. rewrite Hi, Hch in E. simpl in E.
          rewrite Hg in E. simpl in E. rewrite andb_true_r in E.
          destruct (draining_for_gone s) eqn:E'; simpl in E; congruence. }
        unfold armed in Hn. rewrite Hch in Hn. simpl in Hn. rewrite Hg in Hn. simpl in Hn.
        destruct (read1 ch).1 as [a'|] eqn:Hr; [discriminate Hn |]. injection Hn as Hreg Hs. exists s'.
        split; [by rewrite <- Hreg, <- Hs | done].
      * destruct (close_or_gone reg s0) as [[a reg'] s''] eqn:Hcg.
        destruct (read1 ch).1 as [a'|]; simplify_eq. eauto.
    + destruct (read1 ch).1 as [a'|]; [| discriminate Hn]. injection Hn as <- Hreg Hs. exists s'.
      split; [| done]. unfold after_read. by rewrite <- Hreg, <- Hs.
Qed.

End Reads.
