(* ===== verification/WatchTheorems.v ===== *)
(** * Watches, end to end

    One store and its consumers as a system stepped by every operation that
    touches a watch, and what [WatchBackendFacts]' invariant of it promises: what
    a poll answers, that a consumer who keeps polling is served, where an end by
    overflow can be resumed from, and what the consumer of a filtered watch ends
    up holding.  Beside them, the inputs on which the promises fail: a transaction
    split by an overflow, and a finalizer release that also leaves the selector. *)

From stdpp Require Import base tactics option list strings numbers.
From S2P Require Import Prelude BTreeMap Json Resource WatchHistory Command Read.
From S2P Require Import PatchApply PatchFacts Ssa SsaFacts Pagination Catalog CatalogMeta CatalogFacts CatalogTheorems CatalogReads.
From S2P Require Import WatchBackend WatchBackendFacts.

Local Open Scope string_scope.
Local Open Scope Z_scope.

(** ** The system *)

Record System : Type := mkSystem { inner : Watched; committed : list Change; seats : list Seat }.

Inductive Op : Type :=
  | Apply (entry : LoggedCommand) (term index : Z)
  | Watch (now : Z) (opts : WatchOpts)
  | Subscribe (now : Z)
  | Tick (now : Z)
  | Compact (target : Revision)
  | Reap
  | Next (i : nat)
  | Wake (i : nat)
  | TryNext (i : nat)
  | Leave (i : nat).

Abbreviation answer := (option (result ChangeSignal.t WatchGone.t)).

Definition try_poll (reg : WatcherRegistry) (s : WatchStream) : Poll answer * WatcherRegistry * WatchStream :=
  let '(a, reg, s) := try_next_change reg s in (Ready a, reg, s).

(** A future that parked is polled again; one that answered is gone. *)
Definition wake (reg : WatcherRegistry) (s : WatchStream) : Poll answer * WatcherRegistry * WatchStream :=
  if terminal_emitted s || draining_for_gone s then (Pending, reg, s) else poll_parked reg s.

Definition poll_seat (poll : WatcherRegistry -> WatchStream -> Poll answer * WatcherRegistry * WatchStream)
    (sys : System) (i : nat) : System :=
  match seats sys !! i with
  | None => sys
  | Some seat =>
      if dropped seat then sys
      else
        let '(p, reg, s) := poll (watchers (inner sys)) (stream seat) in
        let a := match p with Pending => None | Ready a => a end in
        mkSystem (mkWatched (catalog (inner sys)) reg) (committed sys)
          (<[i := seat_read seat a s]> (seats sys))
  end.

Definition leave (sys : System) (i : nat) : System :=
  match seats sys !! i with
  | None => sys
  | Some seat =>
      if dropped seat then sys
      else
        mkSystem (mkWatched (catalog (inner sys)) (drop_stream (watchers (inner sys)) (stream seat)))
          (committed sys)
          (<[i := mkSeat (stream seat) (start seat) (delivered seat) (ended seat) true]> (seats sys))
  end.

Section Systems.
Context `{SerdeJsonLaws} `{PatchSchemaEnv} `{OpDecoderLaws} `{Blake3} `{ErrorText}.

Definition exec (sys : System) (op : Op) : System :=
  let '(mkSystem i log ss) := sys in
  match op with
  | Apply entry term index =>
      let '(o, i) := apply_entry i entry term index in mkSystem i (log ++ changes o) ss
  | Watch now opts =>
      match watch_from i now opts with
      | Ok (i, s) => mkSystem i log (ss ++ [new_seat s (from opts)])
      | Err _ => sys
      end
  | Subscribe now =>
      let '(i', s) := watch_subscribe i now in
      mkSystem i' log (ss ++ [new_seat s (revision_of (catalog i))])
  | Tick now => mkSystem (tick_once i now) log ss
  | Compact target => mkSystem (mkWatched (Catalog.compact (catalog i) target).1 (watchers i)) log ss
  | Reap => mkSystem (mkWatched (catalog i) (reap_closed (watchers i))) log ss
  | Next k => poll_seat next_change sys k
  | Wake k => poll_seat wake sys k
  | TryNext k => poll_seat try_poll sys k
  | Leave k => leave sys k
  end.

Definition exec_all (ops : list Op) (sys : System) : System := fold_left exec ops sys.

Definition permitted (sys : System) (op : Op) : bool :=
  match op with
  | Apply entry _ _ => wf_command (command entry) && (revision_of (catalog (inner sys)) <? Word.u64_max)
  | Compact target => 0 <=? target
  | _ => true
  end.

Inductive system_reachable : System -> Prop :=
  | reachable_start c log :
      catalog_ok c log -> system_reachable (mkSystem (mkWatched c (mkRegistry [] [])) log [])
  | reachable_step sys op :
      system_reachable sys -> permitted sys op = true -> system_reachable (exec sys op).

Record system_ok (sys : System) : Prop := {
  sys_catalog : catalog_ok (catalog (inner sys)) (committed sys);
  sys_registry :
    reg_ok (revision_of (catalog (inner sys))) (committed sys) (watchers (inner sys)) (seats sys)
}.

(** ** The invariant *)

(** What a live consumer's read needs of its seat. *)
Lemma seat_readable b log reg ss i seat :
  reg_ok b log reg ss -> ss !! i = Some seat -> dropped seat = false -> ended seat = None ->
  exists ch, chans reg !! i = Some ch /\ seat_ok b log i seat ch (handle_of i (handles reg)) /\
    rx (stream seat) = i /\ terminal_emitted (stream seat) = false /\
    (gone ch = None -> is_some (handle_of i (handles reg)) = true) /\
    (gone ch = None -> draining_for_gone (stream seat) = false).
Proof.
  intros [_ _ Hs] Hi Hd He. destruct (Hs i seat Hi) as (ch & Hc & Ho). exists ch.
  split_and!; [done | done | apply Ho | | |];
    destruct Ho as [_ Ho]; rewrite Hd in Ho; destruct Ho as [_ _ _ Ht _ Hst]; rewrite He in *; [done | |];
    intros Hg; rewrite Hg in Hst; destruct Hst as (_ & Hdr & h & Hh & _); [by rewrite Hh | done].
Qed.

Lemma reg_insert b log reg ss i seat' ch' :
  reg_ok b log reg ss -> seat_ok b log i seat' ch' (handle_of i (handles reg)) ->
  reg_ok b log (mkRegistry (handles reg) (<[i := ch']> (chans reg))) (<[i := seat']> ss).
Proof.
  intros [Hl [Hnd Hin] Hs] Ho. split; simpl; [by rewrite !length_insert | |].
  - split; [done |]. eapply Forall_weaken; [exact Hin |]. intros h Hh. simpl.
    apply lookup_lt_is_Some. rewrite length_insert. by apply lookup_lt_is_Some.
  - intros j seat Hj. apply list_lookup_insert_Some in Hj as [(-> & <- & Hlt) | [Hne Hj]].
    + exists ch'. rewrite list_lookup_insert_eq by lia. done.
    + destruct (Hs j seat Hj) as (ch & Hc & Hok). exists ch. by rewrite list_lookup_insert_ne.
Qed.

Lemma read_seat_ok b log reg ss i seat ch s' :
  reg_ok b log reg ss -> ss !! i = Some seat -> dropped seat = false -> ended seat = None ->
  seat_ok b log i seat ch (handle_of i (handles reg)) ->
  left_as ch (read1 ch).1 (stream seat) s' ->
  reg_ok b log (after_read reg i ch) (<[i := seat_read seat (read1 ch).1 s']> ss).
Proof. intros Hok Hi Hd He Hso Hl. apply reg_insert; [done |]. by apply read_ok. Qed.

(** A poll that reads, as the three ways of reading do. *)
Definition reads (poll : WatcherRegistry -> WatchStream -> Poll answer * WatcherRegistry * WatchStream)
  : Prop :=
  (forall reg i ch s, chans reg !! i = Some ch -> rx s = i -> terminal_emitted s = false ->
     (gone ch = None -> is_some (handle_of i (handles reg)) = true) ->
     (gone ch = None -> draining_for_gone s = false) ->
     poll reg s = (Pending, reg, s) \/
     exists p s', poll reg s = (p, after_read reg i ch, s') /\
       match p with Pending => None | Ready a => a end = (read1 ch).1 /\
       left_as ch (read1 ch).1 s s') /\
  (forall reg s, terminal_emitted s = true -> (poll reg s).1.2 = reg /\ (poll reg s).2 = s /\
     match (poll reg s).1.1 with Pending => None | Ready a => a end = None).

Lemma next_change_is_read : reads next_change.
Proof.
  split.
  - intros reg i ch s Hc Hi Ht Hs Hd. right.
    destruct (next_change_reads reg i ch Hc s Hi Hs Ht Hd) as (s' & Hn & Hl).
    eexists _, s'. split_and!; [exact Hn | | done]. by destruct (read1 ch).1.
  - intros reg s Ht. unfold next_change. by rewrite Ht.
Qed.

Lemma try_poll_is_read : reads try_poll.
Proof.
  split.
  - intros reg i ch s Hc Hi Ht Hs Hd. right.
    destruct (try_next_reads reg i ch Hc s Hi Hs Ht Hd) as (s' & Hn & Hl).
    eexists _, s'. unfold try_poll. rewrite Hn. split_and!; [done | done | done].
  - intros reg s Ht. unfold try_poll, try_next_change. by rewrite Ht.
Qed.

Lemma wake_is_read : reads wake.
Proof.
  split.
  - intros reg i ch s Hc Hi Ht Hs Hd. unfold wake. rewrite Ht. simpl.
    destruct (draining_for_gone s); [by left | right].
    destruct (parked_reads reg i ch Hc s Hi Hs) as (s' & Hn & Hl).
    eexists _, s'. split_and!; [exact Hn | | done]. by destruct (read1 ch).1.
  - intros reg s Ht. unfold wake. by rewrite Ht.
Qed.

Lemma seat_read_same seat : seat_read seat None (stream seat) = seat.
Proof. by destruct seat. Qed.

Lemma poll_seat_ok poll sys i :
  reads poll -> system_ok sys -> system_ok (poll_seat poll sys i).
Proof.
  intros [Hread Hend] [Hcat Hreg]. unfold poll_seat. destruct (seats sys !! i) as [seat|] eqn:Hi; [| done].
  destruct (dropped seat) eqn:Hd; [done |]. destruct (ended seat) as [g|] eqn:He.
  - assert (terminal_emitted (stream seat) = true) as Ht.
    { destruct (reg_seats _ _ _ _ Hreg i seat Hi) as (ch & _ & _ & Ho). rewrite Hd in Ho.
      by rewrite (live_terminal _ _ _ _ _ Ho), He. }
    specialize (Hend (watchers (inner sys)) (stream seat) Ht).
    destruct (poll _ _) as [[p reg] s]. simpl in Hend. destruct Hend as (-> & -> & ->).
    rewrite seat_read_same, list_insert_id by done. by destruct sys as [[]].
  - destruct (seat_readable _ _ _ _ _ _ Hreg Hi Hd He) as (ch & Hc & Hso & Hrx & Ht & Hs & Hdr).
    destruct (Hread _ i ch _ Hc Hrx Ht Hs Hdr) as [-> | (p & s' & -> & -> & Hl)].
    + rewrite seat_read_same, list_insert_id by done. by destruct sys as [[]].
    + split; [done |]. simpl. by eapply read_seat_ok.
Qed.

Lemma leave_ok sys i : system_ok sys -> system_ok (leave sys i).
Proof.
  intros [Hcat Hreg]. unfold leave. destruct (seats sys !! i) as [seat|] eqn:Hi; [| done].
  destruct (dropped seat) eqn:Hd; [done |]. split; [done |]. simpl.
  destruct (reg_seats _ _ _ _ Hreg i seat Hi) as (ch & Hc & Hrx & _). unfold drop_stream. rewrite Hrx.
  replace (alter _ i (chans (watchers (inner sys)))) with
    (<[i := mkChan [] (chan_capacity ch) false (gone ch)]> (chans (watchers (inner sys)))).
  { apply reg_insert; [done |]. by split. }
  by rewrite (alter_at _ _ _ _ Hc).
Qed.

Lemma register_live_ok c log reg ss now opts replay :
  catalog_ok c log -> reg_ok (revision_of c) log reg ss -> from opts <= revision_of c ->
  changes_above (from opts) log = replay ->
  let out := register_shared reg now replay (revision_of c) opts in
  system_ok (mkSystem (mkWatched c out.1) log (ss ++ [new_seat out.2 (from opts)])).
Proof. intros Hcat Hreg Hf Hr out. split; [done |]. simpl. by apply register_ok. Qed.

Lemma watch_ok sys now opts : system_ok sys -> system_ok (exec sys (Watch now opts)).
Proof.
  destruct sys as [[c reg] log ss]. intros [Hcat Hreg]. simpl in *. unfold watch_from, register. simpl.
  destruct (Z.ltb_spec (revision_of c) (from opts)); simpl; [done |].
  unfold changes_after. rewrite (backed_since _ _ _ (ok_history _ _ Hcat)).
  destruct (from opts <? floor (history c)); simpl; [done |].
  by apply (register_live_ok c log reg ss now opts).
Qed.

Lemma subscribe_ok sys now : system_ok sys -> system_ok (exec sys (Subscribe now)).
Proof.
  destruct sys as [[c reg] log ss]. intros [Hcat Hreg]. simpl in *.
  unfold watch_subscribe, register_live_tail. simpl.
  pose proof (register_live_ok c log reg ss now (live_tail (revision_of c) WATCH_CHANNEL_CAPACITY) []
    Hcat Hreg) as Hok. apply Hok; [simpl; lia |].
  apply changes_above_none. apply (backed_head _ _ (ok_history _ _ Hcat)).
Qed.

Lemma tick_once_ok sys now : system_ok sys -> system_ok (exec sys (Tick now)).
Proof.
  destruct sys as [[c reg] log ss]. intros [Hcat Hreg]. split; [done |]. simpl in *.
  apply tick_ok; [| done]. apply (backed_head _ _ (ok_history _ _ Hcat)).
Qed.

Lemma compact_system_ok sys target :
  0 <= target -> system_ok sys -> system_ok (exec sys (Compact target)).
Proof.
  destruct sys as [[c reg] log ss]. intros Ht [Hcat Hreg]. split; [by apply compact_ok |].
  assert (revision_of (Catalog.compact c target).1 = revision_of c) as E
    by (unfold Catalog.compact, revision_of, WatchHistory.compact; simpl; by case_match).
  cbn [inner catalog exec committed watchers seats] in *. by rewrite E.
Qed.

Lemma apply_ok sys entry term index :
  wf_command (command entry) = true -> revision_of (catalog (inner sys)) < Word.u64_max ->
  system_ok sys -> system_ok (exec sys (Apply entry term index)).
Proof.
  destruct sys as [[c reg] log ss]. intros Hw Hr [Hcat Hreg]. simpl in *. unfold apply_entry. simpl.
  pose proof (apply_logged_advances c log entry term index Hcat Hw) as Hadv.
  destruct (apply_logged c entry term index) as [o c']. simpl in *.
  destruct (advances_head _ _ _ _ Hcat Hadv Hr) as [Hhd Hrev].
  split; simpl; [by eapply advances_ok |].
  apply (reg_weaken (revision_of c)); [by case_match; lia |]. apply fan_all_ok; [| done].
  eapply Forall_weaken; [exact Hrev |]. intros ch. simpl. lia.
Qed.

Lemma exec_ok sys op : permitted sys op = true -> system_ok sys -> system_ok (exec sys op).
Proof.
  intros Hp Hok. destruct op as [entry term index | now opts | now | now | target | | i | i | i | i];
    simpl in Hp.
  - bool_to_prop. by apply apply_ok.
  - by apply watch_ok.
  - by apply subscribe_ok.
  - by apply tick_once_ok.
  - bool_to_prop. by apply compact_system_ok.
  - destruct sys as [[c reg] log ss], Hok as [Hcat Hreg]. split; [done |]. by apply reap_ok.
  - destruct sys. apply (poll_seat_ok _ _ _ next_change_is_read Hok).
  - destruct sys. apply (poll_seat_ok _ _ _ wake_is_read Hok).
  - destruct sys. apply (poll_seat_ok _ _ _ try_poll_is_read Hok).
  - destruct sys. apply (leave_ok _ _ Hok).
Qed.

Lemma system_invariant sys : system_reachable sys -> system_ok sys.
Proof.
  induction 1 as [c log Hok | sys op _ IH Hp]; [| by apply exec_ok].
  split; [done |]. split; [done | by split; constructor | done].
Qed.

(** ** What a poll answers *)

(** What an answer says of a watch from [st] that has been handed [got]. *)
Definition says (log : list Change) (head : Revision) (st : Revision) (got : list ChangeSignal.t)
    (end_ : option WatchGone.t) (p : Poll answer) : Prop :=
  match p with
  | Pending => end_ = None /\ changes_above st log = changes_of got
  | Ready (Some (Ok (ChangeSignal.Change c))) =>
      exists rest, changes_above st log = (changes_of got ++ c :: rest)%list
  | Ready (Some (Ok (ChangeSignal.Bookmark r))) => r <= head /\ changes_of got = changes_upto st r log
  | Ready (Some (Err g)) =>
      exists cap c rest, g = WatchGone.Overflow cap (seen st got) /\
        changes_above st log = (changes_of got ++ c :: rest)%list
  | Ready None => is_Some end_
  end.

Lemma read_says b log i seat ch ho :
  seat_ok b log i seat ch ho -> dropped seat = false -> ended seat = None ->
  says log b (start seat) (delivered seat) None
    (match (read1 ch).1 with Some a => Ready (Some a) | None => Pending end).
Proof.
  intros [_ Ho] Hd He. rewrite Hd in Ho. destruct Ho as [_ _ _ _ Hm Hst]. rewrite He in Hst.
  unfold read1. destruct (queue ch) as [|s q] eqn:Hq.
  - destruct (gone ch) as [g|]; simpl.
    + destruct Hst as (_ & -> & c & rest & Hc). unfold handed in *. rewrite Hq, app_nil_r in *.
      exists (chan_capacity ch), c, rest. done.
    + destruct Hst as (Hall & _). unfold handed in Hall. by rewrite Hq, app_nil_r in Hall.
  - simpl. destruct s as [c | r]; [| by eapply Hm; unfold handed; rewrite Hq].
    assert (changes_of (handed seat ch) = (changes_of (delivered seat) ++ c :: changes_of q)%list) as Hh
      by (unfold handed; by rewrite Hq, changes_of_app).
    destruct (gone ch) as [g|].
    + destruct Hst as (_ & _ & c' & rest & ->). rewrite Hh, <- app_assoc. by eexists.
    + destruct Hst as (<- & _). rewrite Hh. by eexists.
Qed.

(** (C4) A watch is exactly the changes committed above where it started. In every
    state the store, the registry and its consumers reach, a consumer that was
    handed [delivered] and polls gets: the next committed change it has not got;
    or a bookmark, whose revision covers exactly the changes it has got; or the
    end, which is an overflow, names the highest revision it was handed, and
    comes only when some change is still owed; or it waits, and then it has been
    handed every committed change above its start, in order, each once. The
    stream closes without a word only after it has told its end. *)
Theorem watch_exact sys i seat :
  system_reachable sys -> seats sys !! i = Some seat -> dropped seat = false ->
  says (committed sys) (revision_of (catalog (inner sys))) (start seat) (delivered seat) (ended seat)
    (next_change (watchers (inner sys)) (stream seat)).1.1.
Proof.
  intros Hr Hi Hd. apply system_invariant in Hr as [_ Hreg]. destruct (ended seat) as [g|] eqn:He.
  - destruct (reg_seats _ _ _ _ Hreg i seat Hi) as (ch & _ & _ & Ho). rewrite Hd in Ho.
    unfold next_change. rewrite (live_terminal _ _ _ _ _ Ho), He. by eexists.
  - destruct (seat_readable _ _ _ _ _ _ Hreg Hi Hd He) as (ch & Hc & Hso & Hrx & Ht & Hs & Hdr).
    destruct (next_change_reads _ _ _ Hc _ Hrx Hs Ht Hdr) as (s' & -> & _). by eapply read_says.
Qed.

(** ** Polling until it waits *)

Fixpoint poll_times (n : nat) (sys : System) (i : nat) : System :=
  match n with O => sys | S n => poll_times n (poll_seat next_change sys i) i end.

(** What is left in the consumer's channel. *)
Definition backlog (sys : System) (i : nat) : nat :=
  match chans (watchers (inner sys)) !! i with Some ch => length (queue ch) | None => 0 end.

Lemma poll_seat_live sys i seat :
  system_ok sys -> seats sys !! i = Some seat -> dropped seat = false -> ended seat = None ->
  exists ch s', chans (watchers (inner sys)) !! i = Some ch /\
    seat_ok (revision_of (catalog (inner sys))) (committed sys) i seat ch
      (handle_of i (handles (watchers (inner sys)))) /\
    poll_seat next_change sys i =
      mkSystem (mkWatched (catalog (inner sys)) (after_read (watchers (inner sys)) i ch)) (committed sys)
        (<[i := seat_read seat (read1 ch).1 s']> (seats sys)).
Proof.
  intros [_ Hreg] Hi Hd He. unfold poll_seat. rewrite Hi, Hd.
  destruct (seat_readable _ _ _ _ _ _ Hreg Hi Hd He) as (ch & Hc & Hso & Hrx & Ht & Hs & Hdr).
  destruct (next_change_reads _ _ _ Hc _ Hrx Hs Ht Hdr) as (s' & -> & _).
  exists ch, s'. split_and!; [done | done |]. by destruct (read1 ch).1.
Qed.

Lemma poll_seat_ended sys i seat :
  system_ok sys -> seats sys !! i = Some seat -> is_Some (ended seat) -> poll_seat next_change sys i = sys.
Proof.
  intros [_ Hreg] Hi [g He]. unfold poll_seat. rewrite Hi. destruct (dropped seat) eqn:Hd; [done |].
  destruct (reg_seats _ _ _ _ Hreg i seat Hi) as (ch & _ & _ & Ho). rewrite Hd in Ho.
  unfold next_change. rewrite (live_terminal _ _ _ _ _ Ho), He. cbn -[seat_read].
  rewrite seat_read_same, list_insert_id by done. by destruct sys as [[]].
Qed.

Definition served (sys : System) (i : nat) (st : Revision) : Prop :=
  exists seat, seats sys !! i = Some seat /\ start seat = st /\
    ((ended seat = None /\ changes_of (delivered seat) = changes_above st (committed sys)) \/
     exists cap, ended seat = Some (WatchGone.Overflow cap (seen st (delivered seat)))).

Lemma poll_times_ended n sys i seat :
  system_ok sys -> seats sys !! i = Some seat -> is_Some (ended seat) -> poll_times n sys i = sys.
Proof.
  intros Hok Hi He. induction n as [|n IH]; simpl; [done |]. by rewrite (poll_seat_ended _ _ _ Hok Hi He).
Qed.

Lemma ended_served sys i seat :
  system_ok sys -> seats sys !! i = Some seat -> dropped seat = false -> is_Some (ended seat) ->
  served sys i (start seat).
Proof.
  intros [_ Hreg] Hi Hd [g He]. exists seat. split_and!; [done | done | right].
  destruct (reg_seats _ _ _ _ Hreg i seat Hi) as (ch & _ & _ & Ho). rewrite Hd in Ho.
  destruct Ho as [_ _ _ _ _ Hst]. rewrite He in *. destruct (gone ch); [done |].
  destruct Hst as [Hq (_ & -> & _)]. unfold handed. rewrite Hq, app_nil_r. by eexists.
Qed.

Lemma poll_times_served n : forall sys i seat,
  system_ok sys -> seats sys !! i = Some seat -> dropped seat = false ->
  (backlog sys i < n)%nat -> served (poll_times n sys i) i (start seat).
Proof.
  induction n as [|n IH]; intros sys i seat Hok Hi Hd Hn; [lia |].
  destruct (ended seat) as [g|] eqn:He.
  { rewrite (poll_times_ended _ _ _ _ Hok Hi) by (by eexists). eapply ended_served; by eauto. }
  pose proof (poll_seat_ok _ _ i next_change_is_read Hok) as Hok'. simpl.
  destruct (poll_seat_live _ _ _ Hok Hi Hd He) as (ch & s' & Hc & Hso & E). rewrite E in *.
  pose proof (lookup_lt_Some _ _ _ Hi) as Hlt. pose proof (lookup_lt_Some _ _ _ Hc) as Hlc.
  pose proof (read_says _ _ _ _ _ _ Hso Hd He) as Hsays.
  set (sys' := mkSystem _ _ _) in *. set (seat' := seat_read _ _ _) in *.
  assert (seats sys' !! i = Some seat') as Hi' by (by apply list_lookup_insert_eq).
  assert (dropped seat' = false /\ start seat' = start seat) as [Hd' Hst']
    by (unfold seat', seat_read; by repeat case_match).
  rewrite <- Hst'. unfold backlog in Hn. rewrite Hc in Hn.
  assert (chans (watchers (inner sys')) !! i = Some (read1 ch).2) as Hc' by (by apply list_lookup_insert_eq).
  assert (backlog sys' i = length (queue (read1 ch).2)) as Hb by (unfold backlog; by rewrite Hc').
  unfold read1 in *. destruct (queue ch) as [|sg q] eqn:Hq; [destruct (gone ch) as [g|] |]; simpl in *.
  - rewrite (poll_times_ended _ _ _ _ Hok' Hi') by (by eexists).
    apply (ended_served _ _ seat'); [done | done | done | by eexists].
  - destruct n as [|n].
    + exists seat'. split_and!; [done | done | left]. destruct Hsays as [_ Hall]. by split.
    + apply (IH _ _ seat'); [done | done | done |]. rewrite Hb, Hq. simpl. lia.
  - apply (IH _ _ seat'); [done | done | done |]. rewrite Hb. simpl. lia.
Qed.

(** (C38) Whatever happened before, a consumer that goes on polling is served: once it
    has polled more often than its channel holds signals, it has been handed every
    committed change above its start, in order, each once, and would wait; or it
    was told the overflow that cut it short. *)
Theorem watch_drains sys i seat n :
  system_reachable sys -> seats sys !! i = Some seat -> dropped seat = false ->
  (backlog sys i < n)%nat -> served (poll_times n sys i) i (start seat).
Proof. intros Hr. apply poll_times_served. by apply system_invariant. Qed.

(** ** Resuming after an overflow *)

Lemma seen_start st l : st <= seen st l.
Proof.
  revert st. induction l as [|s l IH]; intros st; simpl; [lia |].
  specialize (IH (Z.max st (ChangeSignal.revision s))). lia.
Qed.

Lemma seen_bound st r l :
  st <= r -> Forall (fun s => ChangeSignal.revision s <= r) l -> seen st l <= r.
Proof.
  intros Hs Hl. revert st Hs. induction Hl as [|s l Hs' _ IH]; intros st Hs; simpl; [done |]. apply IH. lia.
Qed.

Lemma seen_in st l s : In s l -> ChangeSignal.revision s <= seen st l.
Proof.
  intros Hi. apply in_split in Hi as (l1 & l2 & ->). rewrite seen_app. simpl.
  pose proof (seen_start (Z.max (seen st l1) (ChangeSignal.revision s)) l2). lia.
Qed.

Lemma changes_of_in c l : In c (changes_of l) <-> In (ChangeSignal.Change c) l.
Proof.
  unfold changes_of. rewrite <- !list_elem_of_In, list_elem_of_omap. split.
  - intros ([c' | r] & Hi & Hc); naive_solver.
  - intros Hi. by exists (ChangeSignal.Change c).
Qed.

Lemma in_order_strict l1 l2 c d :
  in_order (l1 ++ l2) -> List.NoDup (map revision (l1 ++ l2)) -> In c l1 -> In d l2 ->
  revision c < revision d.
Proof.
  induction l1 as [|e l1 IH]; intros Hord Hnd Hc Hd; simpl in *; [done |].
  inversion Hord as [|? ? Hord' Hall]; subst. apply NoDup_cons_iff in Hnd as [Hne Hnd].
  destruct Hc as [-> | Hc]; [| by apply IH]. rewrite List.Forall_forall in Hall.
  assert (In d (l1 ++ l2)) as Hi by (apply in_or_app; by right). specialize (Hall d Hi).
  assert (revision c <> revision d); [| lia]. intros E. apply Hne. rewrite E. by apply in_map.
Qed.

(** With one change to a revision, what is owed is all above what was seen. *)
Lemma owed_is_newer st b log l c rest :
  in_order log -> List.NoDup (map revision log) -> bookmarks_ok b st log l ->
  changes_above st log = (changes_of l ++ c :: rest)%list ->
  Forall (fun c' => seen st l < revision c') (c :: rest).
Proof.
  intros Hord Hnd Hm Hsplit. apply List.Forall_forall. intros x Hx.
  assert (In x log /\ st < revision x) as [Hxl Hxs].
  { assert (In x (changes_above st log)) as Hi by (rewrite Hsplit; apply in_or_app; by right).
    apply filter_In in Hi as [Hi Hlt]. split; [done |]. by apply Z.ltb_lt. }
  assert (forall d, In d (changes_of l) -> revision d < revision x) as Hlow.
  { intros d Hd. eapply in_order_strict; [| | exact Hd | exact Hx]; rewrite <- Hsplit.
    - by apply in_order_filter.
    - by apply nodup_map_filter. }
  cut (seen st l <= revision x - 1); [lia |]. apply seen_bound; [lia |].
  apply List.Forall_forall. intros [d | r] Hs; simpl.
  - apply changes_of_in, Hlow in Hs. lia.
  - destruct (Z.le_gt_cases r (revision x - 1)) as [? | Hr]; [done | exfalso].
    apply in_split in Hs as (l1 & l2 & ->). destruct (Hm _ _ _ eq_refl) as [_ Hcov].
    assert (In x (changes_upto st r log)) as Hi.
    { apply filter_In. split; [done |]. rewrite andb_true_iff, Z.ltb_lt, Z.leb_le. lia. }
    rewrite <- Hcov in Hi. specialize (Hlow x). rewrite changes_of_app in Hlow.
    cut (revision x < revision x); [lia |]. apply Hlow, in_or_app. by left.
Qed.

(** An overflow can be resumed, when no transaction committed several changes at
    one revision: the changes the consumer was handed, followed by those above the
    revision the overflow names, are all of the changes above its start, in order
    and each once. *)
Theorem overflow_resumes sys i seat cap ls :
  system_reachable sys -> seats sys !! i = Some seat -> dropped seat = false ->
  ended seat = Some (WatchGone.Overflow cap ls) -> List.NoDup (map revision (committed sys)) ->
  changes_above (start seat) (committed sys) =
    (changes_of (delivered seat) ++ changes_above ls (committed sys))%list.
Proof.
  intros Hr Hi Hd He Hnd. apply system_invariant in Hr as [Hcat Hreg].
  destruct (reg_seats _ _ _ _ Hreg i seat Hi) as (ch & _ & _ & Ho). rewrite Hd in Ho.
  destruct Ho as [_ _ _ _ Hm Hst]. rewrite He in Hst. destruct (gone ch); [done |].
  destruct Hst as [Hq (_ & [= -> ->] & c & rest & Hc)]. unfold handed in *. rewrite Hq, app_nil_r in *.
  pose proof (owed_is_newer _ _ _ _ _ _ (backed_order _ _ (ok_history _ _ Hcat)) Hnd Hm Hc) as Hnew.
  rewrite <- (changes_above_twice (start seat) (seen (start seat) (delivered seat))) by apply seen_start.
  rewrite Hc, changes_above_app, (changes_above_all _ _ Hnew), changes_above_none; [done |].
  apply List.Forall_forall. intros d Hdl. apply changes_of_in in Hdl.
  apply (seen_in (start seat) _ _ Hdl).
Qed.

(** ** A watch with a selector *)

(** A consumer's cache. It takes an [Added] only for an object it does not hold,
    a [Modified] or [Deleted] only for one it does. *)
Definition consume (cache : btmap ResourceKey json) (ev : WatchEvent) : option (btmap ResourceKey json) :=
  match event_kind ev, bt_get (event_key ev) cache with
  | WatchEventKind.Added, None | WatchEventKind.Modified, Some _ =>
      Some (bt_insert (event_key ev) (event_object ev) cache)
  | WatchEventKind.Deleted, Some _ => Some (bt_remove (event_key ev) cache)
  | _, _ => None
  end.

Fixpoint consume_all (cache : btmap ResourceKey json) (evs : list WatchEvent)
  : option (btmap ResourceKey json) :=
  match evs with [] => Some cache | ev :: evs => consume cache ev ≫= fun cache => consume_all cache evs end.

Definition projected (passes : json -> bool) (chs : list Change) : list WatchEvent :=
  omap (fun ch => project ch passes) chs.

(** The objects of [m] the selector passes. *)
Definition selected (passes : json -> bool) (m : resource_map) (k : ResourceKey) : option json :=
  match bt_get k m with Some (v, _) => if passes v then Some v else None | None => None end.

Record caches (passes : json -> bool) (cache : btmap ResourceKey json) (m : resource_map) : Prop := {
  caches_sorted : bt_sorted cache;
  caches_get : forall k, bt_get k cache = selected passes m k
}.

Lemma caches_nothing passes m :
  bt_sorted m -> forallb (fun e => negb (passes e.2.1)) m = true -> caches passes [] m.
Proof.
  intros Hs Hall. split; [constructor |]. intros k. unfold selected.
  destruct (bt_get k m) as [[v meta]|] eqn:E; [| done]. apply bt_get_In in E; [| done].
  rewrite forallb_forall in Hall. apply Hall in E. simpl in E. by destruct (passes v).
Qed.

Lemma selected_replay1 passes m ch k :
  bt_sorted m ->
  selected passes (replay1 m ch) k =
  if eqb (key ch) k then
    match change_kind ch with Put => if passes (value ch) then Some (value ch) else None | Delete => None end
  else selected passes m k.
Proof.
  intros Hs. unfold selected. rewrite replay1_get by done.
  destruct (eqb (key ch) k); [by destruct (change_kind ch) | done].
Qed.

Lemma caches_insert passes cache m ch :
  caches passes cache m -> bt_sorted m -> change_kind ch = Put -> passes (value ch) = true ->
  caches passes (bt_insert (key ch) (value ch) cache) (replay1 m ch).
Proof.
  intros [Hs Hg] Hm Hk Hp. split; [by apply bt_insert_sorted |]. intros k.
  rewrite selected_replay1, Hk, Hp by done. destruct (eqb (key ch) k) eqn:E; bool_to_prop.
  - subst k. apply bt_get_insert_eq.
  - rewrite <- Hg. by apply bt_get_insert_ne; auto.
Qed.

Lemma caches_remove passes cache m ch :
  caches passes cache m -> bt_sorted m -> (change_kind ch = Delete \/ passes (value ch) = false) ->
  caches passes (bt_remove (key ch) cache) (replay1 m ch).
Proof.
  intros [Hs Hg] Hm Hk. split; [by apply bt_remove_sorted |]. intros k.
  rewrite selected_replay1 by done. destruct (eqb (key ch) k) eqn:E; bool_to_prop.
  - subst k. rewrite bt_get_remove_eq by done. destruct (change_kind ch), Hk as [Hk | Hk]; by rewrite ?Hk.
  - rewrite <- Hg. by apply bt_get_remove_ne; auto.
Qed.

Lemma caches_skip passes cache m ch :
  caches passes cache m -> bt_sorted m -> (change_kind ch = Delete \/ passes (value ch) = false) ->
  bt_get (key ch) cache = None -> caches passes cache (replay1 m ch).
Proof.
  intros [Hs Hg] Hm Hk Hn. split; [done |]. intros k. rewrite selected_replay1 by done.
  destruct (eqb (key ch) k) eqn:E; [| done]. apply eqb_sound in E as <-. rewrite Hn.
  destruct (change_kind ch), Hk as [Hk | Hk]; by rewrite ?Hk.
Qed.

(** One change, whose pre-image is the object it replaced. *)
Lemma consume_projected passes cache m rev ch :
  caches passes cache m -> bt_sorted m -> recorded m rev ch -> prior ch = fst <$> bt_get (key ch) m ->
  exists cache', consume_all cache (projected passes [ch]) = Some cache' /\
    caches passes cache' (replay1 m ch).
Proof.
  intros Hc Hs Hr Hp. pose proof (caches_get _ _ _ Hc (key ch)) as Hg. unfold selected in Hg.
  unfold projected. csimpl. unfold project. destruct (change_kind ch) eqn:Hk.
  - unfold ChangeShape.of_change. rewrite Hk, Hp.
    destruct (bt_get (key ch) m) as [[v meta]|]; simpl; [destruct (passes v) eqn:Hv |];
      destruct (passes (value ch)) eqn:Hn; simpl; unfold consume; simpl; rewrite ?Hg; simpl;
      (eexists; split; [done |]); by eauto using caches_insert, caches_remove, caches_skip.
  - destruct (rec_delete _ _ _ Hr Hk) as [_ [v Hv]]. unfold ChangeShape.of_change. rewrite Hk, Hp, Hv in *. simpl in *.
    destruct (passes v); simpl; unfold consume; simpl; rewrite ?Hg; simpl;
      (eexists; split; [done |]); by eauto using caches_remove, caches_skip.
Qed.

Lemma consume_all_app cache evs evs' :
  consume_all cache (evs ++ evs') = consume_all cache evs ≫= fun cache => consume_all cache evs'.
Proof.
  revert cache. induction evs as [|ev evs IH]; intros cache; simpl; [done |].
  destruct (consume cache ev); simpl; [apply IH | done].
Qed.

Lemma consume_tape passes m chs : forall cache,
  tape m chs -> no_release chs -> bt_sorted m -> caches passes cache m ->
  exists cache', consume_all cache (projected passes chs) = Some cache' /\ caches passes cache' (replay chs m).
Proof.
  intros cache Ht. revert cache. induction Ht as [m | m rv ch chs Hr _ IH]; intros cache Hn Hs Hc.
  { by exists cache. }
  apply Forall_cons_iff in Hn as [Hch Hn].
  destruct (consume_projected passes cache m rv ch Hc Hs Hr) as (c1 & Hf & Hc1); [by eapply prior_exact |].
  destruct (IH c1 Hn) as (c2 & Hf2 & Hc2); [by apply replay1_sorted | done |].
  exists c2. split; [| done]. change (ch :: chs) with ([ch] ++ chs)%list. unfold projected in *.
  rewrite omap_app, consume_all_app, Hf. done.
Qed.

(** A filtered watch converges on the filtered list. A consumer that lists what a
    selector passes and then applies the events the selector's view of each
    committed change gives, object by object, never meets an event that contradicts
    what it holds, and ends up with exactly what the selector passes in the catalog:
    objects that come into view are added, objects that leave it are deleted. No
    finalizer release is in the window. *)
Theorem filtered_watch_converges c log entries passes cache :
  catalog_ok c log -> wf_entries entries = true ->
  revision_of c + Z.of_nat (length entries) <= Word.u64_max ->
  no_release (run c entries).1 -> caches passes cache (resources c) ->
  exists cache', consume_all cache (projected passes (run c entries).1) = Some cache' /\
    caches passes cache' (resources (run c entries).2).
Proof.
  intros Hok Hw Hroom Hn Hc. destruct (run_correct entries c log Hok Hw Hroom) as [_ Hres Ht _ _ _ _].
  rewrite Hres. apply consume_tape; [done | done | apply Hok | done].
Qed.

End Systems.

(** ** Where the promises fail, and witnesses *)

#[local] Existing Instance numbered.
#[local] Existing Instance numbered_laws.
#[local] Existing Instance sample_env.
#[local] Existing Instance sample_ops.
#[local] Existing Instance sample_ops_laws.
#[local] Existing Instance zero_blake3.
#[local] Existing Instance zero_blake3_laws.
#[local] Existing Instance sample_text.

Definition api_key : ResourceKey := namespaced "" "v1" "Pod" "default" "api".
Definition put_api : ResourceCommand.t := ResourceCommand.put api_key held_pod Reason.Operator.

(** One transaction that writes two pods. *)
Definition put_both : ResourceCommand.t :=
  ResourceCommand.Txn [] [TxnOp.Put pod_key held_pod; TxnOp.Put api_key held_pod] [] Reason.Operator.

Definition fresh_system : System := mkSystem (mkWatched empty (mkRegistry [] [])) [] [].

Lemma fresh_reachable : system_reachable fresh_system.
Proof. apply reachable_start. apply fresh_ok. Qed.

(** A watch with room for one signal, under a transaction of two changes, read to
    its end and resumed where the end says. *)
Definition split_run : list Op :=
  [Watch 0 (mkWatchOpts 0 1 0); Apply (proposed put_both) 1 1; Next 0; Next 0; Watch 0 (from_revision 1)].

(** Resuming from an overflow can lose a change. When the channel fills up inside
    one transaction, the end names the transaction's own revision, of which only
    the first change was handed over; the watch resumed from that revision waits at
    once, and the second change is handed to nobody. *)
Theorem overflow_splits_transaction :
  let sys := exec_all split_run fresh_system in
  system_reachable sys /\
  map key (committed sys) = [pod_key; api_key] /\
  map (fun s => (map key (changes_of (delivered s)), ended s)) (seats sys) =
    [([pod_key], Some (WatchGone.Overflow 1 1)); ([], None)] /\
  exists resumed, seats sys !! 1%nat = Some resumed /\ start resumed = 1 /\
    (next_change (watchers (inner sys)) (stream resumed)).1.1 = Pending.
Proof.
  cbv zeta. split_and!.
  - unfold exec_all, split_run. cbn [fold_left]. do 5 (apply reachable_step; [| vm_compute; reflexivity]).
    apply fresh_reachable.
  - vm_compute. reflexivity.
  - vm_compute. reflexivity.
  - eexists. split_and!; vm_compute; reflexivity.
Qed.

Definition labelled (v : json) : bool := is_some (jget "metadata" v ≫= jget "labels").

Definition labelled_pod : json :=
  JObject [("metadata", JObject [("finalizers", JArray [JString "example.io/hold"]);
                                 ("labels", JObject [("app", JString "web")])])].

(** The release of the pod's finalizers, dropping its labels in the same patch. *)
Definition release_unlabelled : ResourceCommand.t :=
  ResourceCommand.patch pod_key
    (JObject [("metadata", JObject [("finalizers", JNull); ("labels", JNull)])]) Reason.Controller.

(** A finalizer release that takes the object out of the selector strands it in a
    filtered consumer's cache. The removal's pre-image is the object as the patch
    left it, which the selector does not pass, so the selector's view of the change
    is empty: the consumer still holds the pod the store no longer has. *)
Theorem release_strands_filtered_watch :
  let c2 := (run empty [entry (ResourceCommand.put pod_key labelled_pod Reason.Operator) 1;
                        entry delete_pod 2]).2 in
  let out := run c2 [entry release_unlabelled 3] in
  is_some (selected labelled (resources c2) pod_key) = true /\
  map change_kind out.1 = [Delete] /\ projected labelled out.1 = [] /\
  selected labelled (resources out.2) pod_key = None.
Proof. cbv zeta. split_and!; vm_compute; reflexivity. Qed.

(** A watch open over one write, unread. *)
Definition one_run : list Op := [Watch 0 (from_revision 0); Apply (proposed put_pod) 1 1].
Definition one_system : System := exec_all one_run fresh_system.

Lemma one_reachable : system_reachable one_system.
Proof.
  unfold one_system, exec_all, one_run. cbn [fold_left].
  do 2 (apply reachable_step; [| vm_compute; reflexivity]). apply fresh_reachable.
Qed.

Definition first_seat (sys : System) : Seat :=
  match seats sys with s :: _ => s | [] => new_seat (mkStream 0 0 false false) 0 end.

Lemma watch_exact_witness :
  says (committed one_system) (revision_of (catalog (inner one_system))) 0 [] None
    (next_change (watchers (inner one_system)) (stream (first_seat one_system))).1.1 /\
  is_some (match (next_change (watchers (inner one_system)) (stream (first_seat one_system))).1.1 with
           | Ready (Some (Ok s)) => change_of s | _ => None end) = true.
Proof.
  split; [| vm_compute; reflexivity].
  refine (watch_exact one_system 0 (first_seat one_system) one_reachable _ _); vm_compute; reflexivity.
Defined.

Lemma watch_drains_witness :
  backlog one_system 0 = 1%nat /\ served (poll_times 2 one_system 0) 0 0.
Proof.
  split; [vm_compute; reflexivity |].
  refine (watch_drains one_system 0 (first_seat one_system) 2 one_reachable _ _ _).
  - vm_compute. reflexivity.
  - vm_compute. reflexivity.
  - apply Nat.ltb_lt. vm_compute. reflexivity.
Defined.

(** A watch with room for one signal, under two writes, read to its end. *)
Definition behind_run : list Op :=
  [Watch 0 (mkWatchOpts 0 1 0); Apply (proposed put_pod) 1 1; Apply (proposed put_api) 1 2; Next 0; Next 0].
Definition behind_system : System := exec_all behind_run fresh_system.

Lemma behind_reachable : system_reachable behind_system.
Proof.
  unfold behind_system, exec_all, behind_run. cbn [fold_left].
  do 5 (apply reachable_step; [| vm_compute; reflexivity]). apply fresh_reachable.
Qed.

Lemma overflow_resumes_witness :
  map key (changes_above 0 (committed behind_system)) = [pod_key; api_key] /\
  changes_above 0 (committed behind_system) =
    (changes_of (delivered (first_seat behind_system)) ++ changes_above 1 (committed behind_system))%list.
Proof.
  split; [vm_compute; reflexivity |].
  refine (overflow_resumes behind_system 0 (first_seat behind_system) 1 1 behind_reachable _ _ _ _).
  - vm_compute. reflexivity.
  - vm_compute. reflexivity.
  - vm_compute. reflexivity.
  - replace (map revision (committed behind_system)) with [1; 2] by (vm_compute; reflexivity).
    repeat constructor; simpl; lia.
Defined.

Definition has_deletion (v : json) : bool := is_some (jget "metadata" v ≫= jget "deletionTimestamp").

Lemma filtered_watch_converges_witness :
  map event_kind (projected has_deletion (run stored later).1) = [WatchEventKind.Added] /\
  exists cache', consume_all [] (projected has_deletion (run stored later).1) = Some cache' /\
    caches has_deletion cache' (resources (run stored later).2).
Proof.
  split; [vm_compute; reflexivity |].
  refine (filtered_watch_converges stored _ later has_deletion [] stored_ok _ _ later_no_release _).
  - vm_compute. reflexivity.
  - apply Z.leb_le. vm_compute. reflexivity.
  - apply caches_nothing; [apply stored_ok | vm_compute; reflexivity].
Defined.
