(* ===== verification/InMemoryStore.v ===== *)
(** * The in-memory store

    [engenho-store/src/store.rs]: the log, votes, snapshots and state machine the
    consensus library drives, over the catalog and its watches.  The library's own
    types are arguments: a vote and a cluster membership are opaque, and the bytes
    of a catalog image are what [CatalogBytes] encodes and decodes.  A lock held
    across an operation makes it one step; completing the flush callback of
    [append] has no effect on the store. *)

From Stdlib Require Import Sorted.
From stdpp Require Import base tactics option list strings numbers pretty.
From S2P Require Import Prelude BTreeMap Json Resource WatchHistory Command Read.
From S2P Require Import PatchApply PatchFacts Ssa SsaFacts Pagination Catalog CatalogMeta CatalogFacts CatalogTheorems CatalogReads.
From S2P Require Import WatchBackend WatchBackendFacts WatchTheorems.

Local Open Scope string_scope.
Local Open Scope Z_scope.

#[export] Instance Z_ord : Ord Z := Z.compare.

#[export] Instance Z_ord_laws : OrdLaws Z.
Proof.
  split; unfold cmp, Z_ord.
  - apply Z.compare_eq_iff.
  - intros. apply Z.compare_antisym.
  - intros x y z. rewrite !Z.compare_lt_iff. lia.
Qed.

(** ** The consensus library's types *)

Record LogId : Type := mkLogId { leader_term : Z; leader_node : Z; log_index : Z }.

#[export] Instance LogId_eq_dec : EqDecision LogId.
Proof. solve_decision. Defined.

(** The JSON bytes of a catalog image. *)
Class CatalogBytes (Bytes : Type) : Type := {
  to_vec : CatalogRepr -> Bytes;
  from_slice : Bytes -> option CatalogRepr
}.

Class CatalogBytesLaws (Bytes : Type) `{CatalogBytes Bytes} : Prop :=
  from_to : forall r, from_slice (to_vec r) = Some r.

Section Types.
Context {Vote Membership Bytes : Type}.

Inductive EntryPayload : Type :=
  | Blank
  | Normal (logged : LoggedCommand)
  | MembershipChange (m : Membership).

Record Entry : Type := mkEntry { log_id : LogId; payload : EntryPayload }.

Record StoredMembership : Type := mkStoredMembership {
  membership_log_id : option LogId;
  membership : option Membership
}.

Record LogState : Type := mkLogState { last_purged_log_id : option LogId; last_log_id : option LogId }.

Record SnapshotMeta : Type := mkSnapshotMeta {
  meta_last_log_id : option LogId;
  meta_last_membership : StoredMembership;
  snapshot_id : string
}.

Record Snapshot : Type := mkSnapshot { snapshot_meta : SnapshotMeta; snapshot_data : Bytes }.

Record ApplyResult : Type := mkApplyResult {
  applied_index : Z;
  applied_term : Z;
  result_op : ResourceOp.t;
  result_revision : Z;
  result_patch_error : option string
}.

(** ** State *)

Record Inner : Type := mkInner {
  vote : option Vote;
  committed_id : option LogId;
  log : btmap Z Entry;
  last_purged : option LogId;
  live : Watched;
  last_applied : option LogId;
  last_membership : StoredMembership;
  snapshot : option Snapshot;
  snapshot_index : Z
}.

(** [Inner::default]; the membership of a store that has none yet is [None]. *)
Definition inner_default : Inner :=
  mkInner None None [] None (mkWatched catalog_default (mkRegistry [] []))
    None (mkStoredMembership None None) None 0.

Definition set_log (s : Inner) (l : btmap Z Entry) (purged : option LogId) : Inner :=
  mkInner (vote s) (committed_id s) l purged (live s) (last_applied s) (last_membership s) (snapshot s)
    (snapshot_index s).

Definition set_live (s : Inner) (w : Watched) : Inner :=
  mkInner (vote s) (committed_id s) (log s) (last_purged s) w (last_applied s) (last_membership s)
    (snapshot s) (snapshot_index s).

Definition set_applied (s : Inner) (id : option LogId) (m : StoredMembership) : Inner :=
  mkInner (vote s) (committed_id s) (log s) (last_purged s) (live s) id m (snapshot s) (snapshot_index s).

(** ** The log *)

(** [None] is the panic of [BTreeMap::range]. *)
Definition try_get_log_entries (s : Inner) (lo hi : bound Z) : option (list Entry) :=
  option_map (map snd) (bt_range lo hi (log s)).

Definition get_log_state (s : Inner) : LogState :=
  mkLogState (last_purged s)
    (match last (log s) with Some e => Some (log_id e.2) | None => last_purged s end).

Definition save_vote (s : Inner) (v : Vote) : Inner :=
  mkInner (Some v) (committed_id s) (log s) (last_purged s) (live s) (last_applied s) (last_membership s)
    (snapshot s) (snapshot_index s).

Definition read_vote (s : Inner) : option Vote := vote s.

Definition save_committed (s : Inner) (id : option LogId) : Inner :=
  mkInner (vote s) id (log s) (last_purged s) (live s) (last_applied s) (last_membership s) (snapshot s)
    (snapshot_index s).

Definition read_committed (s : Inner) : option LogId := committed_id s.

Definition append (s : Inner) (entries : list Entry) : Inner :=
  set_log s (fold_left (fun l e => bt_insert (log_index (log_id e)) e l) entries (log s)) (last_purged s).

Definition truncate (s : Inner) (id : LogId) : Inner :=
  set_log s (List.filter (fun e => e.1 <? log_index id) (log s)) (last_purged s).

Definition purge (s : Inner) (id : LogId) : Inner :=
  set_log s (List.filter (fun e => log_index id <? e.1) (log s)) (Some id).

(** ** The state machine *)

Definition applied_state (s : Inner) : option LogId * StoredMembership :=
  (last_applied s, last_membership s).

Section Apply.
Context `{SerdeJson} `{PatchSchemaEnv} `{OpDecoder} `{Blake3} `{ErrorText}.

(** One entry of the loop of [apply]. *)
Definition apply_one (s : Inner) (entry : Entry) : ApplyResult * Inner :=
  let id := log_id entry in
  let '(op, error, s) :=
    match payload entry with
    | Blank => (ResourceOp.NoOp, None, s)
    | Normal logged =>
        let '(outcome, w) := apply_entry (live s) logged (leader_term id) (log_index id) in
        (op outcome, patch_error outcome, set_live s w)
    | MembershipChange m =>
        (ResourceOp.NoOp, None, set_applied s (last_applied s) (mkStoredMembership (Some id) (Some m)))
    end in
  let s := set_applied s (Some id) (last_membership s) in
  (mkApplyResult (log_index id) (leader_term id) op (revision_of (catalog (live s))) error, s).

Fixpoint apply (s : Inner) (entries : list Entry) : list ApplyResult * Inner :=
  match entries with
  | [] => ([], s)
  | e :: entries =>
      let '(r, s) := apply_one s e in
      let '(rs, s) := apply s entries in (r :: rs, s)
  end.

End Apply.

(** ** Snapshots *)

(** [serialize] cannot fail without a sealer. *)
Definition image_of (c : ResourceCatalog) : CatalogRepr :=
  match serialize c with Ok r => r | Err e => match e : Empty_set with end end.

Definition build_snapshot `{CatalogBytes Bytes} (s : Inner) : Snapshot * Inner :=
  let index := Word.u64_add (snapshot_index s) 1 in
  let built :=
    mkSnapshot (mkSnapshotMeta (last_applied s) (last_membership s) ("snap-" +:+ pretty index))
      (to_vec (image_of (catalog (live s)))) in
  (built,
   mkInner (vote s) (committed_id s) (log s) (last_purged s) (live s) (last_applied s) (last_membership s)
     (Some built) index).

(** [None] is the storage error of bytes that are no image; the store is as it
    was. *)
Definition install_snapshot `{CatalogBytes Bytes} (s : Inner) (meta : SnapshotMeta) (data : Bytes)
  : option Inner :=
  match from_slice data with
  | None => None
  | Some image =>
      Some (set_applied (set_live s (mkWatched (deserialize image) (watchers (live s))))
              (meta_last_log_id meta) (meta_last_membership meta))
  end.

Definition get_current_snapshot (s : Inner) : option Snapshot := snapshot s.

End Types.

Arguments EntryPayload : clear implicits.
Arguments Entry : clear implicits.
Arguments StoredMembership : clear implicits.
Arguments SnapshotMeta : clear implicits.
Arguments Snapshot : clear implicits.
Arguments Inner : clear implicits.

(** ** What the in-memory store promises consensus

    The log refines a list of entries above the last purged one, under appends,
    truncations and purges; the state machine answers a batch entry by entry and
    its catalog is the catalog of the committed commands; and a store that installs
    a peer's snapshot answers every later entry as the peer does. *)

(** ** The abstract log *)

Section Log.
Context {Vote Membership Bytes : Type}.
Implicit Types (s : Inner Vote Membership Bytes) (e : Entry Membership) (es : list (Entry Membership)).

(** The last purged entry, and the entries after it. *)
Record AbsLog : Type := mkAbsLog { abs_purged : option LogId; abs_entries : list (Entry Membership) }.

(** The index after the last purged one. *)
Definition base (purged : option LogId) : Z :=
  match purged with Some id => log_index id + 1 | None => 0 end.

Definition next_index (a : AbsLog) : Z := base (abs_purged a) + Z.of_nat (length (abs_entries a)).

Inductive LogOp : Type :=
  | OpAppend (es : list (Entry Membership))
  | OpTruncate (id : LogId)
  | OpPurge (id : LogId).

Definition log_exec s (o : LogOp) : Inner Vote Membership Bytes :=
  match o with
  | OpAppend es => append s es
  | OpTruncate id => truncate s id
  | OpPurge id => purge s id
  end.

Definition abs_exec (a : AbsLog) (o : LogOp) : AbsLog :=
  match o with
  | OpAppend es => mkAbsLog (abs_purged a) (abs_entries a ++ es)
  | OpTruncate id =>
      mkAbsLog (abs_purged a) (take (Z.to_nat (log_index id - base (abs_purged a))) (abs_entries a))
  | OpPurge id =>
      mkAbsLog (Some id) (drop (Z.to_nat (log_index id + 1 - base (abs_purged a))) (abs_entries a))
  end.

Fixpoint indexed (b : Z) es : btmap Z (Entry Membership) :=
  match es with [] => [] | e :: es => (b, e) :: indexed (b + 1) es end.

Fixpoint consecutive (b : Z) es : bool :=
  match es with [] => true | e :: es => (log_index (log_id e) =? b) && consecutive (b + 1) es end.

(** What consensus keeps to: entries are appended in sequence, and the purge mark
    never moves back. *)
Definition allowed (a : AbsLog) (o : LogOp) : bool :=
  match o with
  | OpAppend es => consecutive (next_index a) es
  | OpTruncate _ => true
  | OpPurge id => base (abs_purged a) <=? log_index id + 1
  end.

Record represents s (a : AbsLog) : Prop := {
  rep_purged : last_purged s = abs_purged a;
  rep_log : log s = indexed (base (abs_purged a)) (abs_entries a)
}.

Lemma indexed_app b es es' : indexed b (es ++ es') = (indexed b es ++ indexed (b + Z.of_nat (length es)) es')%list.
Proof.
  revert b. induction es as [|e es IH]; intros b; simpl; [f_equal; lia |]. rewrite IH. do 3 f_equal. lia.
Qed.

Lemma indexed_insert b es e :
  bt_insert (b + Z.of_nat (length es)) e (indexed b es) = (indexed b es ++ [(b + Z.of_nat (length es), e)])%list.
Proof.
  revert b. induction es as [|e' es IH]; intros b; [done |].
  cbn [length indexed bt_insert app]. rewrite Nat2Z.inj_succ.
  replace (b + Z.succ (Z.of_nat (length es))) with (b + 1 + Z.of_nat (length es)) by lia. rewrite IH.
  unfold cmp, Z_ord. destruct (Z.compare_spec (b + 1 + Z.of_nat (length es)) b); [lia | lia | done].
Qed.

Lemma indexed_append b es es' :
  consecutive (b + Z.of_nat (length es)) es' = true ->
  fold_left (fun l e => bt_insert (log_index (log_id e)) e l) es' (indexed b es) = indexed b (es ++ es').
Proof.
  revert es. induction es' as [|e es' IH]; intros es Hc; simpl in *; [by rewrite app_nil_r |].
  apply andb_true_iff in Hc as [Hi Hc]. apply Z.eqb_eq in Hi as ->. rewrite indexed_insert.
  replace (indexed b es ++ _)%list with (indexed b (es ++ [e])) by (by rewrite indexed_app).
  rewrite IH; [by rewrite <- app_assoc |]. rewrite length_app. simpl.
  by replace (b + Z.of_nat (length es + 1)) with (b + Z.of_nat (length es) + 1) by lia.
Qed.

Lemma filter_below k b es :
  List.filter (fun p : Z * Entry Membership => p.1 <? k) (indexed b es) = indexed b (take (Z.to_nat (k - b)) es).
Proof.
  revert b. induction es as [|e es IH]; intros b; simpl; [by rewrite take_nil |].
  rewrite IH. destruct (Z.ltb_spec b k).
  - replace (Z.to_nat (k - b)) with (S (Z.to_nat (k - (b + 1)))) by lia. done.
  - replace (Z.to_nat (k - b)) with 0%nat by lia. by replace (Z.to_nat (k - (b + 1))) with 0%nat by lia.
Qed.

Lemma filter_from k b es :
  List.filter (fun p : Z * Entry Membership => k <=? p.1) (indexed b es) = indexed (Z.max b k) (drop (Z.to_nat (k - b)) es).
Proof.
  revert b. induction es as [|e es IH]; intros b; simpl; [by rewrite drop_nil |].
  rewrite IH. destruct (Z.leb_spec k b).
  - replace (Z.to_nat (k - b)) with 0%nat by lia. replace (Z.to_nat (k - (b + 1))) with 0%nat by lia. simpl.
    replace (Z.max b k) with b by lia. by replace (Z.max (b + 1) k) with (b + 1) by lia.
  - replace (Z.to_nat (k - b)) with (S (Z.to_nat (k - (b + 1)))) by lia. simpl. f_equal. lia.
Qed.

Lemma log_exec_rep s a o :
  represents s a -> allowed a o = true -> represents (log_exec s o) (abs_exec a o).
Proof.
  intros [Hp Hl] Ho. destruct o as [es | id | id]; simpl in *; (split; [simpl; done |]); simpl; rewrite Hl.
  - by apply indexed_append.
  - apply filter_below.
  - bool_to_prop. rewrite (filter_ext _ (fun p : Z * Entry Membership => log_index id + 1 <=? p.1)).
    + rewrite filter_from. f_equal. lia.
    + intros [i e]. simpl. destruct (Z.ltb_spec (log_index id) i), (Z.leb_spec (log_index id + 1) i); lia.
Qed.

Fixpoint allowed_all (a : AbsLog) (ops : list LogOp) : bool :=
  match ops with [] => true | o :: ops => allowed a o && allowed_all (abs_exec a o) ops end.

Lemma log_run_rep ops : forall s a,
  represents s a -> allowed_all a ops = true ->
  represents (fold_left log_exec ops s) (fold_left abs_exec ops a).
Proof.
  induction ops as [|o ops IH]; intros s a Hr Ho; simpl in *; [done |].
  apply andb_true_iff in Ho as [Ho Hos]. apply IH; [by apply log_exec_rep | done].
Qed.

Lemma indexed_snd b es : map snd (indexed b es) = es.
Proof. revert b. induction es as [|e es IH]; intros b; simpl; [done |]. by rewrite IH. Qed.

Lemma indexed_last b es : snd <$> last (indexed b es) = last es.
Proof.
  destruct es as [|e es] using rev_ind; [done |]. rewrite indexed_app. simpl. by rewrite !last_snoc.
Qed.

(** Reading [lo..hi). *)
Lemma get_entries_rep s a lo hi :
  represents s a -> lo <= hi ->
  try_get_log_entries s (Included lo) (Excluded hi) =
    Some (take (Z.to_nat (hi - Z.max lo (base (abs_purged a))))
            (drop (Z.to_nat (lo - base (abs_purged a))) (abs_entries a))).
Proof.
  intros [_ Hl] Hlo. unfold try_get_log_entries, bt_range, range_panics, ltb, cmp, Z_ord.
  destruct (Z.compare_spec hi lo); [| lia |]; simpl; f_equal; rewrite Hl.
  all: rewrite (filter_ext _ (fun p : Z * Entry Membership => (lo <=? p.1) && (p.1 <? hi))) by
    (intros [i e]; unfold leb, ltb, cmp, Z_ord, Z.leb, Z.ltb; simpl; by destruct (lo ?= i), (i ?= hi)).
  all: rewrite filter_andb, filter_from, filter_below, indexed_snd.
  all: f_equal; f_equal; lia.
Qed.

Lemma log_state_rep s a :
  represents s a ->
  get_log_state s =
    mkLogState (abs_purged a)
      (match last (abs_entries a) with Some e => Some (log_id e) | None => abs_purged a end).
Proof.
  intros [Hp Hl]. unfold get_log_state. rewrite Hp, Hl. f_equal.
  pose proof (indexed_last (base (abs_purged a)) (abs_entries a)) as Hlast.
  destruct (last (indexed _ _)) as [[i e]|], (last (abs_entries a)); simpl in *; congruence.
Qed.

(** (C6) The log is a list of entries above the last purged one. After any run of
    appends in sequence, truncations and forward purges, a read of [lo..hi) gives
    exactly the entries of those indices still held, in order, and the log state
    names the last entry, or the purge mark when none is left. *)
Theorem log_refines s a ops lo hi :
  represents s a -> allowed_all a ops = true -> lo <= hi ->
  let s' := fold_left log_exec ops s in
  let a' := fold_left abs_exec ops a in
  try_get_log_entries s' (Included lo) (Excluded hi) =
    Some (take (Z.to_nat (hi - Z.max lo (base (abs_purged a'))))
            (drop (Z.to_nat (lo - base (abs_purged a'))) (abs_entries a'))) /\
  get_log_state s' =
    mkLogState (abs_purged a')
      (match last (abs_entries a') with Some e => Some (log_id e) | None => abs_purged a' end).
Proof.
  intros Hr Ho Hlo s' a'. pose proof (log_run_rep ops s a Hr Ho) as Hr'.
  split; [by apply get_entries_rep | by apply log_state_rep].
Qed.

End Log.

(** ** The state machine *)

Section Machine.
Context `{SerdeJsonLaws} `{PatchSchemaEnv} `{OpDecoderLaws} `{Blake3} `{ErrorText}.
Context {Vote Membership Bytes : Type}.
Implicit Types (s t : Inner Vote Membership Bytes) (e : Entry Membership) (es : list (Entry Membership)).

(** The commands among the entries, where they stand in the log. *)
Definition command_of e : option LogEntry :=
  match payload e with
  | Normal logged => Some (logged, leader_term (log_id e), log_index (log_id e))
  | _ => None
  end.

Definition commands es : list LogEntry := omap command_of es.

Lemma commands_cons e es :
  commands (e :: es) = match command_of e with Some l => l :: commands es | None => commands es end.
Proof. done. Qed.

Definition apply_op (l : LogEntry) : Op := Apply l.1.1 l.1.2 l.2.

Lemma apply_one_catalog s e :
  catalog (live (apply_one s e).2) =
    match command_of e with
    | Some l => (apply_logged (catalog (live s)) l.1.1 l.1.2 l.2).2
    | None => catalog (live s)
    end.
Proof.
  unfold apply_one, command_of, apply_entry. destruct (payload e); simpl; [done | | done].
  by destruct (apply_logged _ _ _ _).
Qed.

Lemma apply_catalog es : forall s, catalog (live (apply s es).2) = (run (catalog (live s)) (commands es)).2.
Proof.
  induction es as [|e es IH]; intros s; [done |]. cbn [apply].
  pose proof (apply_one_catalog s e) as Hc. destruct (apply_one s e) as [r s1]. cbn [snd] in Hc.
  specialize (IH s1). destruct (apply s1 es) as [rs s2]. cbn [snd] in *. rewrite IH, Hc.
  rewrite commands_cons. destruct (command_of e) as [[[l t] i]|]; [| done]. cbn [fst snd run].
  destruct (apply_logged _ l t i) as [o c]. cbn [snd]. by destruct (run c _).
Qed.

Lemma run_app_catalog l1 l2 c : (run (run c l1).2 l2).2 = (run c (l1 ++ l2)).2.
Proof.
  revert c. induction l1 as [|[[e t] i] l1 IH]; intros c; [done |]. cbn [run app].
  destruct (apply_logged c e t i) as [o c1]. specialize (IH c1).
  destruct (run c1 l1) as [chs c2], (run c1 (l1 ++ l2)). exact IH.
Qed.

(** What a reply says, from the entry and the catalog after it. *)
Definition replies_to (c : ResourceCatalog) e (r : ApplyResult) : Prop :=
  applied_index r = log_index (log_id e) /\ applied_term r = leader_term (log_id e) /\
  match command_of e with
  | Some l =>
      let out := apply_logged c l.1.1 l.1.2 l.2 in
      result_op r = op out.1 /\ result_patch_error r = patch_error out.1 /\
      result_revision r = revision_of out.2
  | None =>
      result_op r = ResourceOp.NoOp /\ result_patch_error r = None /\ result_revision r = revision_of c
  end.

Lemma apply_one_replies s e : replies_to (catalog (live s)) e (apply_one s e).1.
Proof.
  unfold replies_to, apply_one, command_of, apply_entry. destruct (payload e); simpl; [done | | done].
  by destruct (apply_logged _ _ _ _).
Qed.

Lemma apply_replies es : forall s i e,
  es !! i = Some e ->
  exists r, (apply s es).1 !! i = Some r /\
    replies_to (run (catalog (live s)) (commands (take i es))).2 e r.
Proof.
  induction es as [|e' es IH]; intros s i e Hi; [done |]. cbn [apply].
  pose proof (apply_one_replies s e') as Hr. pose proof (apply_catalog [e'] s) as Hc. cbn [apply] in Hc.
  destruct (apply_one s e') as [r s1]. cbn [snd] in Hc. destruct i as [|i].
  - injection Hi as <-. destruct (apply s1 es). by exists r.
  - destruct (IH s1 i e Hi) as (r' & Hr' & Hrep). destruct (apply s1 es) as [rs s2]. exists r'. split; [exact Hr' |].
    rewrite Hc in Hrep. replace (run (catalog (live s)) (commands (take (S i) (e' :: es)))).2
      with (run (run (catalog (live s)) (commands [e'])).2 (commands (take i es))).2; [done |].
    rewrite run_app_catalog. unfold commands. by rewrite <- omap_app.
Qed.

Lemma apply_applied es : forall s,
  last_applied (apply s es).2 = match last es with Some e => Some (log_id e) | None => last_applied s end.
Proof.
  induction es as [|e es IH]; intros s; [done |]. cbn [apply].
  assert (last_applied (apply_one s e).2 = Some (log_id e)) as Ha.
  { unfold apply_one. destruct (payload e); simpl; [done | by destruct (apply_entry _ _ _ _) | done]. }
  destruct (apply_one s e) as [r s1]. cbn [snd] in Ha. specialize (IH s1). destruct (apply s1 es) as [rs s2].
  cbn [snd] in *. rewrite IH. destruct es as [|e' es]; [done |]. rewrite last_cons_cons.
  by destruct (last (e' :: es)) eqn:E; [| apply last_None in E].
Qed.

Lemma apply_one_steps s e lg ss :
  live (apply_one s e).2 =
    match command_of e with
    | Some l => inner (exec (mkSystem (live s) lg ss) (apply_op l))
    | None => live s
    end.
Proof.
  unfold apply_one, command_of. destruct (payload e); simpl; [done | | done].
  by destruct (apply_entry _ _ _ _).
Qed.

Lemma apply_steps es : forall s log ss,
  live (apply s es).2 = inner (exec_all (map apply_op (commands es)) (mkSystem (live s) log ss)).
Proof.
  induction es as [|e es IH]; intros s lg ss; [done |]. cbn [apply].
  pose proof (apply_one_steps s e lg ss) as Ho. destruct (apply_one s e) as [r s1]. cbn [snd] in Ho.
  pose proof (IH s1) as IH1. destruct (apply s1 es) as [rs s2]. cbn [snd] in *. rewrite commands_cons.
  destruct (command_of e) as [l|]; [| by rewrite <- Ho; apply IH1].
  change (live s2 = inner (exec_all (map apply_op (commands es)) (exec (mkSystem (live s) lg ss) (apply_op l)))).
  destruct (exec _ (apply_op l)) as [w lg' ss']. simpl in Ho. rewrite <- Ho. apply IH1.
Qed.

(** A batch is answered entry by entry: the reply to each entry carries its place
    in the log, what the catalog did with its command (nothing, for an entry that
    carries none) and the revision the catalog then stood at; the catalog after the
    batch is the catalog after its commands, its watches have seen exactly those
    steps, and the last entry is the last applied. *)
Theorem apply_answers_in_order s es log ss :
  length (apply s es).1 = length es /\
  (forall i e, es !! i = Some e -> exists r, (apply s es).1 !! i = Some r /\
     replies_to (run (catalog (live s)) (commands (take i es))).2 e r) /\
  live (apply s es).2 = inner (exec_all (map apply_op (commands es)) (mkSystem (live s) log ss)) /\
  catalog (live (apply s es).2) = (run (catalog (live s)) (commands es)).2 /\
  last_applied (apply s es).2 = match last es with Some e => Some (log_id e) | None => last_applied s end.
Proof.
  split_and!; [| by apply apply_replies | by apply apply_steps | by apply apply_catalog | by apply apply_applied].
  revert s. induction es as [|e es IH]; intros s; [done |]. cbn [apply]. destruct (apply_one s e) as [r s1].
  specialize (IH s1). destruct (apply s1 es). simpl in *. by rewrite IH.
Qed.

End Machine.

(** ** Snapshots *)

Section Snapshots.
Context `{SerdeJsonLaws} `{PatchSchemaEnv} `{OpDecoderLaws} `{Blake3} `{ErrorText}.
Context {Vote Membership Bytes : Type} `{CatalogBytesLaws Bytes}.
Implicit Types (s t : Inner Vote Membership Bytes) (e : Entry Membership) (es : list (Entry Membership)).

Lemma deserialize_image c : deserialize (image_of c) = restart c.
Proof. unfold image_of, restart. by destruct (serialize c) as [r | []]. Qed.

Lemma restart_cat_eq c log :
  catalog_ok c log -> unreadable c = [] -> Forall (fun p => is_envelope p.2.1 = false) (resources c) ->
  cat_eq c (restart c).
Proof.
  intros Hok Hu Hp. pose proof (restart_ok _ _ Hok) as Hok'.
  destruct (restart_same _ _ Hok Hp) as (Hr & Hv & Ht & Hi & Hs & _).
  split; [done | | done | done | done]. rewrite Hu. symmetry.
  destruct (unreadable (restart c)) as [|[k u] l] eqn:E; [done |]. exfalso.
  specialize (Hs k). rewrite Hu in Hs. cbn [bt_get] in Hs. rewrite cmp_refl in Hs. discriminate Hs.
Qed.

(** Two stores that stand at the same point, whatever their logs, watches and
    replay buffers. *)
Record in_step s t : Prop := {
  step_catalog : cat_eq (catalog (live s)) (catalog (live t));
  step_applied : applied_state s = applied_state t
}.

Lemma entry_in_step s t e :
  in_step s t -> (apply_one s e).1 = (apply_one t e).1 /\ in_step (apply_one s e).2 (apply_one t e).2.
Proof.
  intros [Hc Ha]. unfold applied_state in Ha. injection Ha as Ha Hm.
  unfold apply_one. destruct (payload e) as [| logged | m]; simpl.
  - split; [by rewrite (eq_revision _ _ Hc) |]. split; [done |]. unfold applied_state. simpl. by rewrite Hm.
  - unfold apply_entry.
    pose proof (apply_logged_proper _ _ Hc logged logged eq_refl (leader_term (log_id e)) _ eq_refl
      (log_index (log_id e)) _ eq_refl) as [Ho Hc'].
    destruct (apply_logged (catalog (live s)) _ _ _) as [o c1], (apply_logged (catalog (live t)) _ _ _) as [o' c2].
    simpl in *. subst o'. split; [by rewrite (eq_revision _ _ Hc') |]. split; [done |].
    unfold applied_state. simpl. by rewrite Hm.
  - split; [by rewrite (eq_revision _ _ Hc) |]. by split.
Qed.

Lemma batch_in_step es : forall s t,
  in_step s t -> (apply s es).1 = (apply t es).1 /\ in_step (apply s es).2 (apply t es).2.
Proof.
  induction es as [|e es IH]; intros s t Hst; [done |]. cbn [apply].
  destruct (entry_in_step s t e Hst) as [Hr Hst'].
  destruct (apply_one s e) as [r s1], (apply_one t e) as [r' t1]. simpl in *. subst r'.
  destruct (IH s1 t1 Hst') as [Hrs Hst2]. destruct (apply s1 es), (apply t1 es). simpl in *. by subst.
Qed.

(** (C5) A snapshot catches a store up. Whatever a store held before, once it has
    installed the snapshot a peer built it stands where the peer stood, and from
    there every run of log entries gets the same replies from both and leaves them
    in step: the same resources, revision, applied entry and membership. The peer
    holds no value sealed under a key it cannot open. *)
Theorem snapshot_catches_up s t es log :
  catalog_ok (catalog (live s)) log -> unreadable (catalog (live s)) = [] ->
  Forall (fun p => is_envelope p.2.1 = false) (resources (catalog (live s))) ->
  let '(snap, s') := build_snapshot s in
  get_current_snapshot s' = Some snap /\
  exists t', install_snapshot t (snapshot_meta snap) (snapshot_data snap) = Some t' /\
    (apply s' es).1 = (apply t' es).1 /\ in_step (apply s' es).2 (apply t' es).2.
Proof.
  intros Hok Hu Hp. unfold build_snapshot. split; [done |]. unfold install_snapshot. simpl.
  rewrite from_to. eexists. split; [done |]. apply batch_in_step. split; [| done]. simpl.
  rewrite deserialize_image. by eapply restart_cat_eq.
Qed.

End Snapshots.

(** ** A snapshot under live watches, and witnesses *)

#[local] Existing Instance numbered.
#[local] Existing Instance numbered_laws.
#[local] Existing Instance sample_env.
#[local] Existing Instance sample_ops.
#[local] Existing Instance sample_ops_laws.
#[local] Existing Instance zero_blake3.
#[local] Existing Instance zero_blake3_laws.
#[local] Existing Instance sample_text.

(** An image as its own bytes. *)
#[local] Instance plain_bytes : CatalogBytes CatalogRepr := {| to_vec := id; from_slice := Some |}.

#[local] Instance plain_bytes_laws : CatalogBytesLaws CatalogRepr.
Proof. done. Qed.

Abbreviation Store := (Inner unit unit CatalogRepr).

Definition write_at (i : Z) (cmd : ResourceCommand.t) : Entry unit :=
  mkEntry (mkLogId 1 1 i) (Normal (proposed cmd)).

Definition fresh_store : Store := inner_default.

(** A store two writes ahead, and the snapshot it builds. *)
Definition two_writes : list (Entry unit) := [write_at 1 put_pod; write_at 2 put_api].
Definition ahead : Store := (apply fresh_store two_writes).2.
Definition ahead_snapshot : Snapshot unit CatalogRepr := (build_snapshot ahead).1.

Definition db_key : ResourceKey := namespaced "" "v1" "Pod" "default" "db".
Definition put_db : ResourceCommand.t := ResourceCommand.put db_key held_pod Reason.Operator.

(** A store with one watch open, from revision 0. *)
Definition watched : System := exec (mkSystem (live fresh_store) [] []) (Watch 0 (from_revision 0)).

Lemma ahead_ok : catalog_ok (catalog (live ahead)) (run catalog_default (commands two_writes)).1.
Proof.
  unfold ahead. rewrite apply_catalog. change (catalog (live fresh_store)) with catalog_default.
  assert (catalog_ok catalog_default []) as Hok by exact (fresh_ok (Z.pos DEFAULT_HISTORY_CAPACITY)).
  refine (run_ok _ _ _ _ (run_correct (commands two_writes) catalog_default [] Hok _ _));
    [vm_compute; reflexivity | apply Z.leb_le; vm_compute; reflexivity].
Qed.

(** A snapshot installed under a live watch leaves a gap in it. The watch from
    revision 0 is open when the snapshot of a store at revision 2 is installed; its
    first signal is the change at revision 3 and it then waits, never told of the
    two pods the snapshot brought nor that its history was replaced. *)
Theorem snapshot_skips_live_watch :
  exists installed : Store,
    install_snapshot (set_live fresh_store (inner watched)) (snapshot_meta ahead_snapshot)
      (snapshot_data ahead_snapshot) = Some installed /\
    let after := (apply installed [write_at 3 put_db]).2 in
    let sys := exec_all [Next 0; Next 0] (mkSystem (live after) [] (seats watched)) in
    map fst (resources (catalog (live after))) = [api_key; db_key; pod_key] /\
    revision_of (catalog (live after)) = 3 /\
    map (fun s => (start s, map revision (changes_of (delivered s)), ended s)) (seats sys) =
      [(0, [3], None)] /\
    exists seat, seats sys !! 0%nat = Some seat /\
      (next_change (watchers (inner sys)) (stream seat)).1.1 = Pending.
Proof.
  eexists. split; [vm_compute; reflexivity |]. cbv zeta. split_and!; try (vm_compute; reflexivity).
  eexists. split; vm_compute; reflexivity.
Qed.

Lemma snapshot_catches_up_witness :
  exists t', install_snapshot fresh_store (snapshot_meta ahead_snapshot) (snapshot_data ahead_snapshot)
      = Some t' /\
    (apply (build_snapshot ahead).2 [write_at 3 put_db]).1 = (apply t' [write_at 3 put_db]).1 /\
    in_step (apply (build_snapshot ahead).2 [write_at 3 put_db]).2 (apply t' [write_at 3 put_db]).2.
Proof.
  refine (proj2 (snapshot_catches_up ahead fresh_store [write_at 3 put_db]
    (run catalog_default (commands two_writes)).1 ahead_ok _ _)).
  - vm_compute. reflexivity.
  - vm_compute. repeat constructor.
Defined.

Lemma log_refines_witness :
  try_get_log_entries (fold_left log_exec
      [OpAppend [write_at 0 put_pod; write_at 1 put_api; write_at 2 put_db]; OpPurge (mkLogId 1 1 0);
       OpTruncate (mkLogId 1 1 2)] fresh_store) (Included 0) (Excluded 9) = Some [write_at 1 put_api].
Proof.
  refine (proj1 (log_refines fresh_store (mkAbsLog None [])
    [OpAppend [write_at 0 put_pod; write_at 1 put_api; write_at 2 put_db]; OpPurge (mkLogId 1 1 0);
     OpTruncate (mkLogId 1 1 2)] 0 9 _ _ _)).
  - by split.
  - reflexivity.
  - lia.
Defined.
