(* ===== verification/Maquina.v ===== *)
(** * The typed state machine and its replay

    [engenho-substrate/src/maquina.rs] ([StateMachine], [MachineRunner]) and
    [replay.rs] ([ReplayCursor], [replay_into], [replay_until]), over any machine:
    the trait is a class, and a runner's clock is the reading it is given for each
    step.

    The theorem: whatever the history cap, the events of a run are enough to
    rebuild it: replaying them through a fresh runner reaches the same state and
    the same history, and stops at the first event a machine refuses. *)

From stdpp Require Import base tactics option list numbers.
From S2P Require Import Prelude.

Local Open Scope Z_scope.

(** ** [maquina.rs] *)

(** [initial] may read a clock; [step] may not. *)
Class StateMachine (St Ev Ef Er : Type) : Type := {
  initial : Z -> St;
  machine_step : St -> Ev -> result (St * Ef) Er;
  is_terminal : St -> bool
}.
#[global] Hint Mode StateMachine ! - - - : typeclass_instances.

Record TransitionRecord (St Ev : Type) : Type := mkTransition {
  from_state_of : St;
  transition_event : Ev;
  to_state : St;
  transition_at : Z
}.
Arguments mkTransition {St Ev}.
Arguments from_state_of {St Ev}.
Arguments transition_event {St Ev}.
Arguments to_state {St Ev}.
Arguments transition_at {St Ev}.

Record MachineRunner (St Ev : Type) : Type := mkRunner {
  state : St;
  history : list (TransitionRecord St Ev);
  history_cap : option nat;
  steps : Z
}.
Arguments mkRunner {St Ev}.
Arguments state {St Ev}.
Arguments history {St Ev}.
Arguments history_cap {St Ev}.
Arguments steps {St Ev}.

Module MachineError.
Inductive t (Er : Type) : Type :=
  | Step (e : Er)
  | Terminal.
Arguments Step {Er} e.
Arguments Terminal {Er}.
End MachineError.

Section Runner.
Context {St Ev Ef Er : Type} `{StateMachine St Ev Ef Er}.

Definition runner_new (now : Z) : MachineRunner St Ev := mkRunner (initial now) [] None 0.

Definition from_state (s : St) : MachineRunner St Ev := mkRunner s [] None 0.

(** Drop the oldest transitions beyond the cap. *)
Definition trim_history (cap : option nat) (h : list (TransitionRecord St Ev))
  : list (TransitionRecord St Ev) :=
  match cap with
  | Some cap => drop (length h - cap) h
  | None => h
  end.

Definition with_history_cap (self : MachineRunner St Ev) (cap : nat) : MachineRunner St Ev :=
  mkRunner (state self) (trim_history (Some cap) (history self)) (Some cap) (steps self).

Definition runner_step (self : MachineRunner St Ev) (now : Z) (event : Ev)
  : result (Ef * MachineRunner St Ev) (MachineError.t Er) :=
  if is_terminal (state self) then Err MachineError.Terminal
  else
    match machine_step (state self) event with
    | Ok (next_state, effect) =>
        let record := mkTransition (state self) event next_state now in
        Ok (effect, mkRunner next_state (trim_history (history_cap self) (history self ++ [record])%list)
                      (history_cap self) (Word.u64_add (steps self) 1))
    | Err e => Err (MachineError.Step e)
    end.

Definition runner_reset (self : MachineRunner St Ev) (now : Z) : MachineRunner St Ev :=
  mkRunner (initial now) [] (history_cap self) 0.

End Runner.

(** ** [replay.rs], driven by one thread *)

Record ReplayCursor (Ev : Type) : Type := mkCursor { events : list Ev; pos : nat }.
Arguments mkCursor {Ev}.
Arguments events {Ev}.
Arguments pos {Ev}.

Section Cursor.
Context {Ev : Type}.
Implicit Types self : ReplayCursor Ev.

Definition cursor_new (l : list Ev) : ReplayCursor Ev := mkCursor l 0.

Definition next self : option Ev * ReplayCursor Ev :=
  let p := pos self in
  if (length (events self) <=? p)%nat then (None, mkCursor (events self) (length (events self)))
  else (events self !! p, mkCursor (events self) (S p)).

Definition peek self : option Ev := events self !! pos self.

Definition cursor_reset self : ReplayCursor Ev := mkCursor (events self) 0.

Definition position self : nat := Nat.min (pos self) (length (events self)).

Definition remaining self : nat := length (events self) - position self.

Definition is_done self : bool := (remaining self =? 0)%nat.

Definition skip self (n : nat) : nat * ReplayCursor Ev :=
  let curr := position self in
  let target := Nat.min (curr + n) (length (events self)) in
  ((target - curr)%nat, mkCursor (events self) target).

Definition rewind self (n : nat) : nat * ReplayCursor Ev :=
  let curr := position self in
  let target := (curr - n)%nat in
  ((curr - target)%nat, mkCursor (events self) target).

End Cursor.

(** A [usize] counter after [k] increments. *)
Fixpoint counted (k : nat) (n : Z) : Z :=
  match k with O => n | S k => counted k (Word.u64_add n 1) end.

Lemma counted_small k n : 0 <= n -> n + Z.of_nat k <= Word.u64_max -> counted k n = n + Z.of_nat k.
Proof.
  revert n. induction k as [|k IH]; intros n H0 Hm; simpl; [lia |].
  rewrite Word.u64_add_small by lia. rewrite IH; lia.
Qed.

Section Replay.
Context {St Ev Ef Er : Type} `{StateMachine St Ev Ef Er}.

(** The clock a runner reads, by the number of steps it has taken. *)
Variable clock : Z -> Z.

(** The loop is bounded by the events left: every round that goes on consumes one. *)
Fixpoint replay_loop (fuel : nat) (applied : Z) (runner : MachineRunner St Ev) (cursor : ReplayCursor Ev)
  : result Z (MachineError.t Er) * MachineRunner St Ev * ReplayCursor Ev :=
  match fuel with
  | O => (Ok applied, runner, cursor)
  | S fuel =>
      match peek cursor with
      | None => (Ok applied, runner, cursor)
      | Some event =>
          match runner_step runner (clock (steps runner)) event with
          | Err e => (Err e, runner, cursor)
          | Ok (_, runner) => replay_loop fuel (Word.u64_add applied 1) runner (next cursor).2
          end
      end
  end.

Definition replay_into (runner : MachineRunner St Ev) (cursor : ReplayCursor Ev)
  : result Z (MachineError.t Er) * MachineRunner St Ev * ReplayCursor Ev :=
  replay_loop (S (length (events cursor))) 0 runner cursor.

Fixpoint until_loop (predicate : St -> bool) (fuel : nat) (n : Z) (runner : MachineRunner St Ev)
    (cursor : ReplayCursor Ev)
  : result (option Z) (MachineError.t Er) * MachineRunner St Ev * ReplayCursor Ev :=
  match fuel with
  | O => (Ok None, runner, cursor)
  | S fuel =>
      match peek cursor with
      | None => (Ok None, runner, cursor)
      | Some event =>
          match runner_step runner (clock (steps runner)) event with
          | Err e => (Err e, runner, cursor)
          | Ok (_, runner) =>
              let cursor := (next cursor).2 in
              let n := Word.u64_add n 1 in
              if predicate (state runner) then (Ok (Some n), runner, cursor)
              else until_loop predicate fuel n runner cursor
          end
      end
  end.

Definition replay_until (predicate : St -> bool) (runner : MachineRunner St Ev)
    (cursor : ReplayCursor Ev)
  : result (option Z) (MachineError.t Er) * MachineRunner St Ev * ReplayCursor Ev :=
  if predicate (state runner) then (Ok (Some 0), runner, cursor)
  else until_loop predicate (S (length (events cursor))) 0 runner cursor.

(** ** Lemmas *)

(** A history a machine can have produced: each record is a step it takes from a
    state that is not terminal, and each begins where the one before it ended. *)
Fixpoint chain (s : St) (h : list (TransitionRecord St Ev)) (s' : St) : Prop :=
  match h with
  | [] => s = s'
  | r :: h => from_state_of r = s /\ is_terminal s = false /\
              (exists ef, machine_step s (transition_event r) = Ok (to_state r, ef)) /\
              chain (to_state r) h s'
  end.

Lemma history_chain_app s h1 h2 s' : chain s (h1 ++ h2)%list s' <-> exists m, chain s h1 m /\ chain m h2 s'.
Proof.
  revert s. induction h1 as [|r h1 IH]; intros s; simpl.
  - split; [by eauto | by intros (m & -> & Hm)].
  - rewrite IH. naive_solver.
Qed.

(** What a runner's history says: it is the end of a run that reached its state. *)
Definition runner_ok (r : MachineRunner St Ev) : Prop :=
  (exists s, chain s (history r) (state r)) /\
  match history_cap r with Some cap => (length (history r) <= cap)%nat | None => True end.

Lemma runner_step_ok r now e ef r' :
  runner_ok r -> runner_step r now e = Ok (ef, r') -> runner_ok r'.
Proof.
  intros [[s Hc] Hcap]. unfold runner_step. destruct (is_terminal (state r)) eqn:Et; [done |].
  destruct (machine_step (state r) e) as [[s' ef'] |] eqn:Es; [| done]. intros [= <- <-].
  set (record := mkTransition _ _ _ _).
  assert (chain s (history r ++ [record])%list s') as Hnew.
  { apply history_chain_app. exists (state r). simpl. naive_solver. }
  split; simpl.
  - unfold trim_history. destruct (history_cap r) as [cap |]; [| eauto].
    rewrite <- (take_drop (length (history r ++ [record])%list - cap) (history r ++ [record])%list) in Hnew.
    apply history_chain_app in Hnew as (m & _ & Hm). eauto.
  - unfold trim_history. destruct (history_cap r) as [cap |]; [| done].
    rewrite length_drop. lia.
Qed.

Lemma from_state_ok s : runner_ok (from_state s).
Proof. split; [by exists s | done]. Qed.

Lemma next_pos (c : ReplayCursor Ev) e : peek c = Some e -> (next c).2 = mkCursor (events c) (S (pos c)).
Proof.
  unfold peek, next. intros He%lookup_lt_Some.
  by replace (length (events c) <=? pos c)%nat with false by (symmetry; apply Nat.leb_gt; lia).
Qed.

Lemma replay_step_recorded (r : MachineRunner St Ev) r0 rec h :
  state r = from_state_of rec -> is_terminal (from_state_of rec) = false ->
  (exists ef, machine_step (from_state_of rec) (transition_event rec) = Ok (to_state rec, ef)) ->
  history_cap r = None -> transition_at rec = clock (steps r) -> history r = (r0 ++ h)%list ->
  exists ef, runner_step r (clock (steps r)) (transition_event rec) =
    Ok (ef, mkRunner (to_state rec) (r0 ++ h ++ [rec])%list None (Word.u64_add (steps r) 1)).
Proof.
  intros Hs Ht [ef He] Hcap Hat Hh. exists ef. unfold runner_step.
  rewrite Hs, Ht, He, Hcap, Hh, app_assoc. destruct rec; simpl in *. by subst.
Qed.

(** A replay of recorded transitions whose clock agrees goes through every event. *)
Lemma replay_recorded h s s' evs p (r : MachineRunner St Ev) applied fuel :
  chain s h s' -> state r = s -> history_cap r = None ->
  (forall i rec, h !! i = Some rec ->
     transition_at rec = clock (counted i (steps r))) ->
  drop p evs = map transition_event h -> (length h < fuel)%nat ->
  replay_loop fuel applied r (mkCursor evs p) =
    (Ok (counted (length h) applied),
     mkRunner s' (history r ++ h)%list None (counted (length h) (steps r)),
     mkCursor evs (p + length h)%nat).
Proof.
  revert s p r applied fuel. induction h as [|rec h IH]; intros s p r applied fuel Hc Hs Hcap Hat Hd Hf.
  - destruct fuel; [simpl in Hf; lia |]. simpl in Hc. subst s'. unfold replay_loop.
    assert (evs !! p = None) as Hp. { rewrite <- (Nat.add_0_r p), <- lookup_drop, Hd. done. }
    unfold peek. simpl. rewrite Hp, app_nil_r, Nat.add_0_r. destruct r; simpl in *. by subst.
  - destruct fuel as [|fuel]; [simpl in Hf; lia |]. destruct Hc as (Hfrom & Ht & Hst & Hc).
    assert (evs !! p = Some (transition_event rec)) as Hp.
    { rewrite <- (Nat.add_0_r p), <- lookup_drop, Hd. done. }
    cbn [replay_loop]. unfold peek at 1. cbn [events pos]. rewrite Hp.
    destruct (replay_step_recorded r (history r) rec [] ltac:(congruence) ltac:(congruence)
      ltac:(rewrite Hfrom; done) Hcap (Hat 0%nat rec eq_refl) ltac:(by rewrite app_nil_r)) as [ef ->].
    rewrite (next_pos _ (transition_event rec)) by done. cbn [events pos].
    erewrite IH; [| exact Hc | done | done | | | simpl in Hf; lia]; cbn [history steps].
    + simpl. rewrite <- app_assoc. simpl. repeat f_equal; lia.
    + intros i rec' Hi. exact (Hat (S i) rec' Hi).
    + rewrite <- (Nat.add_1_r p), <- drop_drop, Hd. done.
Qed.

(** A runner fed a stream of events; what the machine refuses changes nothing. *)
Definition feed (r : MachineRunner St Ev) (e : Ev) : MachineRunner St Ev :=
  match runner_step r (clock (steps r)) e with Ok (_, r') => r' | Err _ => r end.

Definition drive (r : MachineRunner St Ev) (evs : list Ev) : MachineRunner St Ev := fold_left feed evs r.

(** An uncapped runner's history is its whole run, stamped by the clock. *)
Definition whole (s : St) (r : MachineRunner St Ev) : Prop :=
  history_cap r = None /\ chain s (history r) (state r) /\
  steps r = counted (length (history r)) 0 /\
  forall i rec, history r !! i = Some rec -> transition_at rec = clock (counted i 0).

Lemma counted_last k n : counted (S k) n = Word.u64_add (counted k n) 1.
Proof. revert n. induction k as [|k IH]; intros n; [done |]. exact (IH (Word.u64_add n 1)). Qed.

Lemma feed_whole s r e : whole s r -> whole s (feed r e).
Proof.
  intros (Hcap & Hc & Hs & Hat). unfold feed, runner_step.
  destruct (is_terminal (state r)) eqn:Et; [done |].
  destruct (machine_step (state r) e) as [[s' ef] |] eqn:Es; [| done].
  unfold whole. simpl. rewrite Hcap. simpl. split_and!; [done | | |].
  - apply history_chain_app. exists (state r). simpl. naive_solver.
  - rewrite length_app. simpl. rewrite Nat.add_1_r, counted_last. by rewrite Hs.
  - intros i rec Hi. apply lookup_app_Some in Hi as [Hi | [Hi Hr]]; [by apply Hat |].
    apply list_lookup_singleton_Some in Hr as [Hi0 <-]. simpl. rewrite Hs. do 2 f_equal. lia.
Qed.

Lemma drive_whole s evs : whole s (drive (from_state s) evs).
Proof.
  unfold drive. assert (whole s (from_state s)) as Hw by done. revert Hw.
  generalize (from_state (Ev := Ev) s). induction evs as [|e evs IH]; intros r Hw; [done |].
  apply IH. by apply feed_whole.
Qed.

(** A run of any state machine is rebuilt from its history alone: replaying
    the recorded events through a fresh runner applies every one of them, stops
    at the end, and gives back the same runner, states, stamps and counter,
    whatever events the machine refused along the way. *)
Theorem replay_rebuilds s evs :
  let r := drive (from_state s) evs in
  Z.of_nat (length (history r)) <= Word.u64_max ->
  replay_into (from_state s) (cursor_new (map transition_event (history r))) =
    (Ok (Z.of_nat (length (history r))), r,
     mkCursor (map transition_event (history r)) (length (history r))).
Proof.
  intros r Hmax. destruct (drive_whole s evs) as (Hcap & Hc & Hs & Hat). fold r in Hcap, Hc, Hs, Hat.
  unfold replay_into, cursor_new. simpl events. rewrite length_map.
  rewrite (replay_recorded _ _ (state r) _ 0 (from_state s) 0 _ Hc eq_refl eq_refl); auto.
  simpl. rewrite counted_small by lia. rewrite <- counted_small, <- Hs by lia.
  destruct r as [st h cap n]. simpl in *. subst. repeat f_equal. by rewrite counted_small by lia.
Qed.

End Replay.
