(* ===== verification/Ring.v ===== *)
(** * The control plane's event ring

    [engenho-runtime/src/control/ring.rs]: a bounded ring of numbered items a
    reader pages through with a cursor.  The mutex makes each operation one step;
    [last] is the sequence number the readers wait on.  A wait is the sequence of
    rings seen at its wake-ups, each with whether a new item arrived or the
    budget ran out.

    The theorems: a page that reports no loss holds exactly the wanted items of
    the stream between its two cursors; a reader that waits is not told of a
    loss it would have been told of without waiting. *)

From stdpp Require Import base tactics option list numbers.
From S2P Require Import Prelude.

Local Open Scope Z_scope.

Section Ring.
Context {A : Type}.

Record Sequenced : Type := mkSequenced { seq : Z; seq_at : Z; item : A }.

Record Page : Type := mkPage {
  items : list Sequenced;
  next_cursor : Z;
  truncated : option Z
}.

Record Ring : Type := mkRing { ring_state : list Sequenced; ring_cap : nat; ring_last : Z }.

Definition ring_new (cap : nat) : Ring := mkRing [] (Nat.max cap 1) 0.

(** [NonZeroU64::new(last + 1).unwrap_or(MIN)]. *)
Definition next_seq (last : Z) : Z :=
  let n := Word.u64_add last 1 in if n =? 0 then 1 else n.

Definition push (self : Ring) (now : Z) (x : A) : Z * Ring :=
  let n := next_seq (ring_last self) in
  let kept := if (length (ring_state self) =? ring_cap self)%nat then tail (ring_state self)
              else ring_state self in
  (n, mkRing (kept ++ [mkSequenced n now x])%list (ring_cap self) n).

Definition last_seq (self : Ring) : Z := ring_last self.

(** The scan of a page: the items taken and the last sequence number looked at. *)
Fixpoint scan (limit : nat) (keep : A -> bool) (taken : list Sequenced) (scanned : Z)
    (l : list Sequenced) : list Sequenced * Z :=
  match l with
  | [] => (taken, scanned)
  | entry :: l =>
      if (length taken =? limit)%nat then (taken, scanned)
      else scan limit keep (if keep (item entry) then taken ++ [entry] else taken)%list (seq entry) l
  end.

Definition oldest (self : Ring) : Z :=
  match ring_state self with [] => ring_last self | s :: _ => seq s - 1 end.

Definition page (self : Ring) (after : Z) (limit : nat) (keep : A -> bool) : Page :=
  let truncated :=
    if (after <? oldest self) && (after <? ring_last self) then Some (oldest self) else None in
  let '(items, scanned) :=
    scan limit keep [] after (List.filter (fun s => after <? seq s) (ring_state self)) in
  mkPage items scanned truncated.

(** The waiting loop over its wake-ups; [None] while it still waits. *)
Fixpoint wait_loop (cursor : Z) (limit : nat) (keep : A -> bool) (wakes : list (Ring * bool))
  : option Page :=
  match wakes with
  | [] => None
  | (ring, arrived) :: wakes =>
      let p := page ring cursor limit keep in
      if negb (match items p with [] => true | _ => false end) || negb arrived then Some p
      else wait_loop (next_cursor p) limit keep wakes
  end.

Definition wait_page (self : Ring) (after : Z) (limit : nat) (wait_is_zero : bool) (keep : A -> bool)
    (wakes : list (Ring * bool)) : option Page :=
  let p := page self after limit keep in
  if negb (match items p with [] => true | _ => false end) || wait_is_zero then Some p
  else wait_loop (next_cursor p) limit keep wakes.

(** ** Lemmas *)

(** The stream: every item ever pushed, numbered from 1. *)
Fixpoint numbered (n : Z) (l : list (Z * A)) : list Sequenced :=
  match l with
  | [] => []
  | (at_, x) :: l => mkSequenced n at_ x :: numbered (n + 1) l
  end.

Definition stream (l : list (Z * A)) : list Sequenced := numbered 1 l.

Definition push_all (r : Ring) (l : list (Z * A)) : Ring :=
  fold_left (fun r e => (push r e.1 e.2).2) l r.

Lemma numbered_app n l1 l2 :
  numbered n (l1 ++ l2)%list = (numbered n l1 ++ numbered (n + Z.of_nat (length l1)) l2)%list.
Proof.
  revert n. induction l1 as [|[t x] l1 IH]; intros n; simpl; [f_equal; lia |].
  rewrite IH. do 3 f_equal. lia.
Qed.

Lemma numbered_length n l : length (numbered n l) = length l.
Proof. revert n. induction l as [|[] l IH]; intros; simpl; [done |]. by rewrite IH. Qed.

Lemma numbered_lookup n l i s : numbered n l !! i = Some s -> seq s = n + Z.of_nat i.
Proof.
  revert n i. induction l as [|[t x] l IH]; intros n i; [done |].
  destruct i as [|i]; simpl; [intros [= <-]; simpl; lia |]. intros Hi. rewrite (IH _ _ Hi). lia.
Qed.

(** After any pushes the ring holds the end of the stream. *)
Lemma push_all_spec cap l :
  Z.of_nat (length l) <= Word.u64_max ->
  push_all (ring_new cap) l =
    mkRing (drop (length l - Nat.max cap 1) (stream l)) (Nat.max cap 1) (Z.of_nat (length l)).
Proof.
  induction l as [|e l IH] using rev_ind; intros Hmax; [done |].
  rewrite length_app in *. simpl in Hmax. unfold push_all in *. rewrite fold_left_app, IH by lia. simpl.
  assert (next_seq (Z.of_nat (length l)) = Z.of_nat (length l) + 1) as Hn.
  { unfold next_seq. rewrite Word.u64_add_small by lia. by replace (_ =? 0) with false by lia. }
  unfold push. cbn [snd ring_state ring_cap ring_last]. rewrite Hn.
  assert (stream (l ++ [e])%list = (stream l ++ [mkSequenced (Z.of_nat (length l) + 1) e.1 e.2])%list) as ->.
  { unfold stream. rewrite numbered_app. destruct e. simpl. do 3 f_equal. lia. }
  assert (length (stream l) = length l) as Hlen by apply numbered_length.
  rewrite length_drop, Hlen. set (k := Nat.max cap 1). assert (1 <= k)%nat by lia.
  f_equal; [| simpl; lia]. simpl.
  destruct (decide (k <= length l)%nat) as [Hk | Hk].
  - replace (length l - (length l - k) =? k)%nat with true by (symmetry; apply Nat.eqb_eq; lia).
    rewrite drop_app_le by lia. f_equal.
    replace (length l + 1 - k)%nat with (length l - k + 1)%nat by lia.
    rewrite <- drop_drop. by destruct (drop (length l - k) (stream l)).
  - replace (length l - (length l - k) =? k)%nat with false by (symmetry; apply Nat.eqb_neq; lia).
    replace (length l - k)%nat with 0%nat by lia. by replace (length l + 1 - k)%nat with 0%nat by lia.
Qed.

(** What the scan returns: the wanted items of a prefix, the prefix ending at the
    cursor it hands back. *)
Lemma scan_spec limit keep taken scanned l :
  exists k, (k <= length l)%nat /\
    scan limit keep taken scanned l =
      ((taken ++ List.filter (fun s => keep (item s)) (take k l))%list,
       match list.last (take k l) with Some s => seq s | None => scanned end) /\
    (k = length l \/ length (taken ++ List.filter (fun s => keep (item s)) (take k l))%list = limit).
Proof.
  revert taken scanned. induction l as [|e l IH]; intros taken scanned.
  { exists 0%nat. simpl. rewrite app_nil_r. auto. }
  cbn [scan]. destruct (length taken =? limit)%nat eqn:E.
  { exists 0%nat. simpl. rewrite app_nil_r. apply Nat.eqb_eq in E. split_and!; [lia | done | by right]. }
  destruct (IH (if keep (item e) then taken ++ [e] else taken)%list (seq e)) as (k & Hk & -> & Hl).
  assert (((if keep (item e) then taken ++ [e] else taken) ++
           List.filter (fun s => keep (item s)) (take k l))%list =
          (taken ++ List.filter (fun s => keep (item s)) (take (S k) (e :: l)))%list) as Ht.
  { rewrite firstn_cons. simpl. destruct (keep (item e)); [by rewrite <- app_assoc | done]. }
  exists (S k). rewrite Ht in Hl |- *. split_and!; [simpl; lia | | destruct Hl; [left; simpl; lia | by right]].
  f_equal. rewrite firstn_cons, last_cons. by destruct (list.last (take k l)).
Qed.

(** The items after a cursor are the end of the ring. *)
Lemma filter_after n l after :
  n - 1 <= after ->
  List.filter (fun s => after <? seq s) (numbered n l) = drop (Z.to_nat (after - (n - 1))) (numbered n l).
Proof.
  revert n. induction l as [|[t x] l IH]; intros n Ha; simpl; [by rewrite drop_nil |].
  destruct (after <? n) eqn:E.
  - apply Z.ltb_lt in E. replace (after - (n - 1)) with 0 by lia. simpl. f_equal.
    assert (forall m l, after < m -> List.filter (fun s => after <? seq s) (numbered m l) = numbered m l) as Hall.
    { clear. intros m l. revert m. induction l as [|[t x] l IH]; intros m Hm; [done |]. simpl.
      replace (after <? m) with true by lia. f_equal. apply IH. lia. }
    apply Hall. lia.
  - apply Z.ltb_ge in E. rewrite IH by lia.
    replace (Z.to_nat (after - (n - 1))) with (S (Z.to_nat (after - (n + 1 - 1)))) by lia. done.
Qed.

Lemma drop_numbered k n l :
  drop k (numbered n l) = numbered (n + Z.of_nat k) (drop k l).
Proof.
  revert k n. induction l as [|[t x] l IH]; intros k n; [simpl; by rewrite !drop_nil |].
  destruct k as [|k]; simpl; [by rewrite Z.add_0_r |]. rewrite IH. f_equal. lia.
Qed.

(** ** Theorems *)

(** A page that reports no loss misses nothing: after any pushes, if the page
    read from cursor [after] is not marked truncated, its items are exactly the
    wanted items of the whole stream numbered from [after + 1] to the cursor it
    hands back, and it stops short of the end only when it is full; it is marked
    exactly when an item after the cursor has left the ring. *)
Theorem page_misses_nothing cap l after limit keep :
  0 <= after <= Z.of_nat (length l) -> Z.of_nat (length l) <= Word.u64_max ->
  let p := page (push_all (ring_new cap) l) after limit keep in
  (truncated p = None ->
     items p = List.filter (fun s => keep (item s))
                 (take (Z.to_nat (next_cursor p - after)) (drop (Z.to_nat after) (stream l))) /\
     (after <= next_cursor p <= Z.of_nat (length l)) /\
     (next_cursor p = Z.of_nat (length l) \/ length (items p) = limit)) /\
  (truncated p <> None <-> (Z.to_nat after < length l - Nat.max cap 1)%nat).
Proof.
  intros Ha Hmax. cbv zeta. rewrite push_all_spec by done. set (c := Nat.max cap 1).
  set (r := mkRing _ _ _). assert (1 <= c)%nat by lia.
  assert (oldest r = Z.of_nat (length l - c)) as Hold.
  { unfold oldest, r. simpl. unfold stream. rewrite drop_numbered.
    destruct (drop (length l - c) l) as [|[t x] rest] eqn:E; simpl; [| lia].
    assert (length (drop (length l - c) l) = 0%nat) as Hz by by rewrite E. rewrite length_drop in Hz. lia. }
  assert (truncated (page r after limit keep) =
    if (Z.to_nat after <? length l - c)%nat then Some (oldest r) else None) as Htr.
  { unfold page. destruct (scan _ _ _ _ _). simpl. rewrite Hold. simpl.
    destruct (Z.to_nat after <? length l - c)%nat eqn:E;
      [apply Nat.ltb_lt in E | apply Nat.ltb_ge in E];
      [by rewrite !(proj2 (Z.ltb_lt _ _)) by lia | by rewrite (proj2 (Z.ltb_ge _ _)) by lia]. }
  rewrite Htr. split.
  - destruct (Z.to_nat after <? length l - c)%nat eqn:E; [done |]. apply Nat.ltb_ge in E. intros _.
    set (rest := drop (Z.to_nat after) (stream l)).
    assert (List.filter (fun s => after <? seq s) (ring_state r) = rest) as Hrest.
    { unfold r, rest, stream. simpl. rewrite (drop_numbered (length l - c)), filter_after by lia.
      rewrite <- (drop_numbered (length l - c)), drop_drop. f_equal. lia. }
    unfold page. rewrite Hrest.
    destruct (scan_spec limit keep [] after rest) as (k & Hk & Hs & Hl). rewrite Hs. simpl.
    assert (length rest = (length l - Z.to_nat after)%nat) as Hr.
    { unfold rest. rewrite length_drop. f_equal. apply numbered_length. }
    assert (match list.last (take k rest) with Some s => seq s | None => after end = after + Z.of_nat k) as ->.
    { rewrite last_lookup, length_take. destruct k as [|k].
      { rewrite take_0. simpl. lia. }
      rewrite lookup_take_lt by lia. replace (pred (S k `min` length rest))%nat with k by lia.
      unfold rest. rewrite lookup_drop.
      destruct (lookup_lt_is_Some_2 (stream l) (Z.to_nat after + k)%nat) as [s Hsk].
      { unfold stream. rewrite numbered_length. lia. }
      rewrite Hsk. apply numbered_lookup in Hsk. lia. }
    replace (Z.to_nat (after + Z.of_nat k - after)) with k by lia. simpl in Hl.
    split_and!; [done | lia | lia |]. destruct Hl as [-> | Hl]; [left; lia | by right].
  - destruct (Z.to_nat after <? length l - c)%nat eqn:E;
      [apply Nat.ltb_lt in E | apply Nat.ltb_ge in E]; split; (lia || done).
Qed.

End Ring.
Arguments Ring : clear implicits.
Arguments Page : clear implicits.
Arguments Sequenced : clear implicits.

Lemma page_misses_nothing_witness :
  let p := page (push_all (ring_new 3) [(0, 1); (0, 2); (0, 3); (0, 4); (0, 5)]) 2 10 Z.odd in
  map item (items p) = [3; 5] /\ next_cursor p = 5.
Proof.
  pose proof (page_misses_nothing 3 [(0, 1); (0, 2); (0, 3); (0, 4); (0, 5)] 2 10 Z.odd) as Hp.
  destruct Hp as [Hp _]; [vm_compute; split; discriminate | vm_compute; discriminate |].
  destruct (Hp eq_refl) as (Hi & _ & _). split; [| reflexivity]. cbv zeta. rewrite Hi. reflexivity.
Defined.

(** Five items in a ring of three. *)
Definition overrun : Ring Z := push_all (ring_new 3) [(0, 1); (0, 2); (0, 3); (0, 4); (0, 5)].

(** Waiting hides a loss: a reader at the start of an overrun ring who wants
    none of the items still there is told by [page] that items 1 and 2 are gone,
    but [wait_page] drops that page and, when its budget ends, hands back one that
    reports no loss and a cursor past the items the reader never saw. *)
Theorem wait_page_hides_loss :
  truncated (page overrun 0 10 (Z.eqb 1)) = Some 2 /\
  exists p, wait_page overrun 0 10 false (Z.eqb 1) [(overrun, false)] = Some p /\
    truncated p = None /\ next_cursor p = 5 /\ items p = [].
Proof. split; [reflexivity |]. eexists. repeat split. Qed.
