(* ===== verification/Quantity.v ===== *)
(** * Resource quantities

    [engenho-types/src/primitives/quantity.rs]: a Kubernetes quantity such as
    [1Gi], [100m] or [2.5] as a number of thousandths in an [i128] beside the
    suffix it was written with.  Strings are their bytes; the digits of an
    integer are printed by [pretty]; [/] and [%] of Rust are [Z.quot] and
    [Z.rem].  Additions wrap around and [saturating_mul] clamps.

    The theorems: the range of a parsed value, the wire round trip with the
    domain on which it holds, the two inputs outside that domain that change
    value (a fraction strictly between -1 and 0 loses its sign when printed; a
    saturated integer part with a fraction wraps to the other sign). *)

From Stdlib Require Import Ascii String.
From stdpp Require Import base tactics option list strings numbers pretty.
From S2P Require Import Prelude Text.

Local Open Scope string_scope.
Local Open Scope Z_scope.

Module QuantityParseError.
Inductive t : Type :=
  | Empty
  | NoNumeric
  | NonNumeric (s : string)
  | UnknownSuffix (s : string).

#[global] Instance t_eq_dec : EqDecision t.
Proof. solve_decision. Defined.
End QuantityParseError.

Module Suffix.
Inductive t : Type :=
  | None
  | Milli
  | DecimalSi (exp : Z)
  | BinarySi (exp : Z).

#[global] Instance t_eq_dec : EqDecision t.
Proof. solve_decision. Defined.

Definition from_str (s : string) : result t QuantityParseError.t :=
  if eqb s "" then Ok None
  else if eqb s "m" then Ok Milli
  else if eqb s "k" then Ok (DecimalSi 1)
  else if eqb s "M" then Ok (DecimalSi 2)
  else if eqb s "G" then Ok (DecimalSi 3)
  else if eqb s "T" then Ok (DecimalSi 4)
  else if eqb s "P" then Ok (DecimalSi 5)
  else if eqb s "E" then Ok (DecimalSi 6)
  else if eqb s "Ki" then Ok (BinarySi 1)
  else if eqb s "Mi" then Ok (BinarySi 2)
  else if eqb s "Gi" then Ok (BinarySi 3)
  else if eqb s "Ti" then Ok (BinarySi 4)
  else if eqb s "Pi" then Ok (BinarySi 5)
  else if eqb s "Ei" then Ok (BinarySi 6)
  else Err (QuantityParseError.UnknownSuffix s).

Definition to_str (self : t) : string :=
  match self with
  | None => ""
  | Milli => "m"
  | DecimalSi 1 => "k"
  | DecimalSi 2 => "M"
  | DecimalSi 3 => "G"
  | DecimalSi 4 => "T"
  | DecimalSi 5 => "P"
  | DecimalSi 6 => "E"
  | BinarySi 1 => "Ki"
  | BinarySi 2 => "Mi"
  | BinarySi 3 => "Gi"
  | BinarySi 4 => "Ti"
  | BinarySi 5 => "Pi"
  | BinarySi 6 => "Ei"
  | DecimalSi _ | BinarySi _ => "?"
  end.

Definition apply_to_milli (self : t) (milli : Z) : Z :=
  match self with
  | None => milli
  | Milli => Z.quot milli 1000
  | DecimalSi exp => Word.i128_saturate (milli * 10 ^ (exp * 3))
  | BinarySi exp => Word.i128_saturate (milli * Z.shiftl 1 (exp * 10))
  end.

Definition un_apply_from_milli (self : t) (scaled : Z) : Z :=
  match self with
  | None => scaled
  | Milli => Word.i128_wrap (scaled * 1000)
  | DecimalSi exp => Z.quot scaled (10 ^ (exp * 3))
  | BinarySi exp => Z.quot scaled (Z.shiftl 1 (exp * 10))
  end.

(** The suffixes the parser produces. *)
Definition valid (self : t) : bool :=
  match self with
  | None | Milli => true
  | DecimalSi exp | BinarySi exp => (1 <=? exp) && (exp <=? 6)
  end.
End Suffix.

Module Quantity.
Inductive t : Type :=
  | Parsed (milli : Z) (suffix : Suffix.t)
  | Other (s : string).

#[global] Instance t_eq_dec : EqDecision t.
Proof. solve_decision. Defined.

Definition from_millis (milli : Z) : t :=
  Parsed milli (if Z.rem milli 1000 =? 0 then Suffix.None else Suffix.Milli).

Definition milli_value (self : t) : option Z :=
  match self with Parsed milli _ => Some milli | Other _ => None end.

Definition integer_value (self : t) : option Z :=
  option_map (fun milli => Z.quot milli 1000) (milli_value self).

(** The bytes of the numeric portion: the scan of [from_str] stops at the first
    character that is none of these. *)
Definition numeric_char (c : ascii) : bool :=
  is_ascii_digit c || Ascii.eqb c "." || Ascii.eqb c "-" || Ascii.eqb c "+".

Definition parse_i128 (s : string) : option Z := parse_signed Word.i128_min Word.i128_max s.

(** [&frac_part[..3]] where it is longer: every byte is ASCII here. *)
Definition take_bytes (n : nat) (s : string) : string := String.substring 0 n s.

Definition parse_decimal_to_milli (s : string) : result Z QuantityParseError.t :=
  let parts := default (s, "") (split_once "." s) in
  let? int_val := ok_or (parse_i128 parts.1) (QuantityParseError.NonNumeric s) in
  if eqb parts.2 "" then Ok (Word.i128_saturate (int_val * 1000))
  else
    let trimmed := if (3 <? String.length parts.2)%nat then take_bytes 3 parts.2 else parts.2 in
    let? frac := ok_or (parse_i128 trimmed) (QuantityParseError.NonNumeric s) in
    let frac_val := frac * 10 ^ Z.of_nat (3 - String.length trimmed) in
    let sign := if (int_val <? 0) || starts_with "-" s then -1 else 1 in
    Ok (Word.i128_wrap (Word.i128_saturate (int_val * 1000) + frac_val * sign)).

Definition from_str (s : string) : result t QuantityParseError.t :=
  if eqb s "" then Err QuantityParseError.Empty
  else
    let s := trim s in
    let split := span_while numeric_char s in
    if eqb split.1 "" then Err QuantityParseError.NoNumeric
    else
      let? suffix := Suffix.from_str split.2 in
      let? milli := parse_decimal_to_milli split.1 in
      Ok (Parsed (Suffix.apply_to_milli suffix milli) suffix).

(** [{:02}] and [{:03}] of a non-negative number below the width's bound. *)
Definition pad2 (n : Z) : string := if n <? 10 then "0" ++ pretty n else pretty n.
Definition pad3 (n : Z) : string := if n <? 100 then "0" ++ pad2 n else pretty n.

(** [Display]. *)
Definition to_string (self : t) : string :=
  match self with
  | Other s => s
  | Parsed milli suffix =>
      let unscaled := Suffix.un_apply_from_milli suffix milli in
      let suffix_str := Suffix.to_str suffix in
      if Z.rem unscaled 1000 =? 0 then pretty (Z.quot unscaled 1000) ++ suffix_str
      else
        let int_part := Z.quot unscaled 1000 in
        let frac_part := Z.abs (Z.rem unscaled 1000) in
        if Z.rem frac_part 100 =? 0
        then pretty int_part ++ "." ++ pretty (Z.quot frac_part 100) ++ suffix_str
        else if Z.rem frac_part 10 =? 0
        then pretty int_part ++ "." ++ pad2 (Z.quot frac_part 10) ++ suffix_str
        else pretty int_part ++ "." ++ pad3 frac_part ++ suffix_str
  end.

(** The wire form is the string; reading falls back to [Other]. *)
Definition serialize (self : t) : string := to_string self.

Definition deserialize (s : string) : t :=
  unwrap_or_else (from_str s) (fun _ => Other s).

End Quantity.

(** ** Lemmas *)

Module QuantityFacts.
Import Quantity.

(** The number the printer writes before the suffix. *)
Definition frac_text (n : Z) : string :=
  if Z.rem n 100 =? 0 then pretty (Z.quot n 100)
  else if Z.rem n 10 =? 0 then pad2 (Z.quot n 10)
  else pad3 n.

Definition decimal (u : Z) : string :=
  if Z.rem u 1000 =? 0 then pretty (Z.quot u 1000)
  else pretty (Z.quot u 1000) ++ String "." (frac_text (Z.abs (Z.rem u 1000))).

Lemma to_string_decimal m sfx :
  to_string (Parsed m sfx) = decimal (Suffix.un_apply_from_milli sfx m) ++ Suffix.to_str sfx.
Proof.
  unfold to_string, decimal, frac_text.
  repeat case_match; rewrite ?string_app_assoc; done.
Qed.

(** The wire form is exact when un-scaling loses nothing and the printed number
    keeps its sign. *)
Definition wire_exact (q : t) : bool :=
  match q with
  | Other s => negb (is_ok (from_str s))
  | Parsed m sfx =>
      let u := Suffix.un_apply_from_milli sfx m in
      Suffix.valid sfx && bool_decide (Word.is_i128 m) && bool_decide (Word.is_i128 u) &&
      (Suffix.apply_to_milli sfx u =? m) && negb ((-1000 <? u) && (u <? 0))
  end.

(** All 999 fractions, evaluated. *)
Definition frac_ok (n : Z) : bool :=
  let t := frac_text n in
  negb (eqb t "") && (String.length t <=? 3)%nat && str_all is_ascii_digit t &&
  eqb (option_map (fun f => f * 10 ^ Z.of_nat (3 - String.length t)) (parse_i128 t)) (Some n).

Lemma frac_table : forallb frac_ok (seqZ 1 999) = true.
Proof. vm_compute. reflexivity. Qed.

Lemma frac_text_ok n : 0 < n < 1000 -> frac_ok n = true.
Proof.
  intros Hn. pose proof frac_table as H. rewrite forallb_forall in H. apply H.
  apply list_elem_of_In, elem_of_seqZ. lia.
Qed.

Lemma digit_numeric c : is_ascii_digit c = true -> numeric_char c = true.
Proof. unfold numeric_char. by intros ->. Qed.

Lemma numeric_graphic c : numeric_char c = true -> graphic c = true.
Proof.
  destruct c as [[][][][][][][][]]; vm_compute; congruence.
Qed.

Lemma digit_not_dot c : is_ascii_digit c = true -> negb (Ascii.eqb c ".") = true.
Proof. destruct c as [[][][][][][][][]]; vm_compute; congruence. Qed.

Lemma pretty_Z_chars (z : Z) :
  str_all numeric_char (pretty z) = true /\
  str_all (fun x => negb (Ascii.eqb x ".")) (pretty z) = true /\ pretty z <> "".
Proof.
  assert (forall s, str_all is_ascii_digit s = true -> str_all numeric_char s = true /\
    str_all (fun x => negb (Ascii.eqb x ".")) s = true) as Hd.
  { intros s Hs. split; eapply str_all_weaken; try exact Hs; auto using digit_numeric, digit_not_dot. }
  destruct z as [|p|p]; [done | |].
  - change (pretty (Z.pos p)) with (pretty (N.pos p)).
    destruct (Hd _ (pretty_N_digits (N.pos p))) as [-> ->]. split_and!; try done.
    destruct (pretty_pos_digits (Z.pos p) p) as (d & s & _ & -> & _); [lia | done].
  - change (pretty (Z.neg p)) with (String "-" (pretty (N.pos p))). simpl.
    by destruct (Hd _ (pretty_N_digits (N.pos p))) as [-> ->].
Qed.

Lemma pretty_nonneg_no_sign (z : Z) b : 0 <= z -> starts_with "-" (pretty z ++ b) = false.
Proof.
  intros Hz. destruct z as [|p|p]; [done | | lia].
  change (pretty (Z.pos p)) with (pretty (N.pos p)).
  destruct (pretty_pos_digits (Z.pos p) p) as (d & s & Hd & -> & _); [lia |].
  change (String (pretty_N_char d) s ++ b) with (String (pretty_N_char d) (s ++ b)).
  unfold starts_with. cbn [strip_prefix].
  destruct (Ascii.eqb "-" (pretty_N_char d)) eqn:E; [| done].
  apply Ascii.eqb_eq in E. by destruct (pretty_N_char_not_sign d Hd).
Qed.

Lemma parse_i128_pretty z : Word.is_i128 z -> parse_i128 (pretty z) = Some z.
Proof. intros H. by apply parse_signed_pretty. Qed.

Lemma decimal_chars u : str_all numeric_char (decimal u) = true /\ decimal u <> "".
Proof.
  unfold decimal. destruct (pretty_Z_chars (Z.quot u 1000)) as (Hn & _ & Hne).
  case_match; [done |]. bool_to_prop.
  pose proof (Z.rem_bound_abs u 1000). pose proof (frac_text_ok (Z.abs (Z.rem u 1000)) ltac:(lia)) as Hf.
  unfold frac_ok in Hf. bool_to_prop. split.
  - rewrite !str_all_app, Hn. simpl.
    eapply str_all_weaken; [exact digit_numeric | done].
  - by destruct (pretty (Z.quot u 1000)).
Qed.

(** The number a fraction and an integer part make, when neither the sign nor
    the range is lost. *)
Lemma decimal_round_trip u :
  Word.is_i128 u -> ~ (-1000 < u < 0) -> parse_decimal_to_milli (decimal u) = Ok u.
Proof.
  intros Hu Hs. pose proof (Z.quot_rem u 1000 ltac:(lia)) as Hqr.
  pose proof (Z.rem_bound_abs u 1000 ltac:(lia)) as Hrb.
  destruct (pretty_Z_chars (Z.quot u 1000)) as (_ & Hdot & Hne).
  assert (Word.is_i128 (Z.quot u 1000) /\ Word.is_i128 (Z.quot u 1000 * 1000)) as [Hq Hq'].
  { unfold Word.is_i128, Word.i128_min, Word.i128_max in *.
    pose proof (Z.rem_sign_mul u 1000). nia. }
  unfold parse_decimal_to_milli, decimal. case_match; bool_to_prop.
  - rewrite split_once_none by done. simpl. rewrite parse_i128_pretty by done. simpl.
    rewrite Word.i128_saturate_small by done. f_equal. lia.
  - pose proof (frac_text_ok (Z.abs (Z.rem u 1000)) ltac:(lia)) as Hf.
    unfold frac_ok in Hf. bool_to_prop.
    assert (0 <= u -> starts_with "-" (pretty (Z.quot u 1000) ++
              String "." (frac_text (Z.abs (Z.rem u 1000)))) = false) as Hsign.
    { intros. apply pretty_nonneg_no_sign. pose proof (Z.rem_sign_mul u 1000). nia. }
    rewrite split_once_app by done. cbn [from_option id fst snd]. rewrite parse_i128_pretty by done.
    cbn [ok_or result_bind]. set (t := frac_text (Z.abs (Z.rem u 1000))) in *.
    apply eqb_false in H0. rewrite H0.
    replace (3 <? String.length t)%nat with false by (symmetry; apply Nat.ltb_ge, Nat.leb_le; done).
    destruct (parse_i128 t) as [f|]; [| done]. cbn [ok_or result_bind]. injection H1 as H1.
    rewrite H1, Word.i128_saturate_small by done. f_equal.
    pose proof (Z.rem_sign_mul u 1000 ltac:(lia)).
    destruct (Z_lt_le_dec u 0) as [Hneg | Hpos].
    + rewrite (proj2 (Z.ltb_lt _ _)) by nia. cbn [orb].
      replace (_ + _) with u by nia. by apply Word.i128_wrap_small.
    + rewrite (proj2 (Z.ltb_ge _ _)), Hsign by nia. cbn [orb].
      replace (_ + _) with u by nia. by apply Word.i128_wrap_small.
Qed.

Lemma suffix_round_trip sfx : Suffix.valid sfx = true -> Suffix.from_str (Suffix.to_str sfx) = Ok sfx.
Proof.
  destruct sfx as [| |e|e]; [done | done | |]; simpl; intros H; bool_to_prop;
  assert (e = 1 \/ e = 2 \/ e = 3 \/ e = 4 \/ e = 5 \/ e = 6) as He by lia;
  repeat destruct He as [-> | He]; subst; done.
Qed.

Lemma suffix_text sfx : Suffix.valid sfx = true ->
  str_all graphic (Suffix.to_str sfx) = true /\
  match Suffix.to_str sfx with String c _ => numeric_char c = false | EmptyString => True end.
Proof.
  destruct sfx as [| |e|e]; [done | done | |]; simpl; intros H; bool_to_prop;
  assert (e = 1 \/ e = 2 \/ e = 3 \/ e = 4 \/ e = 5 \/ e = 6) as He by lia;
  repeat destruct He as [-> | He]; subst; done.
Qed.

(** Text in the numeric alphabet followed by a known suffix is read as that
    number under that suffix. *)
Lemma from_str_number num sfx :
  str_all numeric_char num = true -> num <> "" -> Suffix.valid sfx = true ->
  from_str (num ++ Suffix.to_str sfx) =
    result_map (fun m => Parsed (Suffix.apply_to_milli sfx m) sfx) (parse_decimal_to_milli num).
Proof.
  intros Hnum Hne Hv. destruct (suffix_text sfx Hv) as [Hg Hhd]. unfold from_str.
  rewrite (proj2 (eqb_false _ _)) by (by destruct num).
  rewrite trim_graphic by (rewrite str_all_app, Hg, andb_true_r;
    by eapply str_all_weaken; [exact numeric_graphic |]).
  rewrite span_while_app by done. cbn [fst snd]. rewrite (proj2 (eqb_false _ _)) by done.
  rewrite suffix_round_trip by done. cbn [result_bind]. by destruct (parse_decimal_to_milli num).
Qed.

Lemma from_str_valid s m sfx :
  from_str s = Ok (Parsed m sfx) -> Suffix.valid sfx = true /\ Word.is_i128 m.
Proof.
  unfold from_str. case_match; [done |]. case_match; [done |].
  intros Hp. apply result_bind_Ok in Hp as (sf & Hsf & Hp).
  apply result_bind_Ok in Hp as (mi & Hmi & [= <- <-]). split.
  - unfold Suffix.from_str in Hsf. repeat (case_match; [by simplify_eq |]). done.
  - assert (Word.is_i128 mi) as Hi.
    { unfold parse_decimal_to_milli in Hmi. apply result_bind_Ok in Hmi as (iv & _ & Hmi).
      case_match; [injection Hmi as <-; apply Word.i128_saturate_range |].
      apply result_bind_Ok in Hmi as (f & _ & [= <-]). apply Word.i128_wrap_range. }
    destruct sf; simpl; auto using Word.i128_saturate_range.
    unfold Word.is_i128, Word.i128_min, Word.i128_max in *.
    pose proof (Z.quot_rem mi 1000). pose proof (Z.rem_bound_abs mi 1000). lia.
Qed.

(** How many thousandths one unit of the suffix is. *)
Definition unit_millis (sfx : Suffix.t) : Z :=
  match sfx with
  | Suffix.None => 1000
  | Suffix.Milli => 1
  | Suffix.DecimalSi e => 1000 * 10 ^ (3 * e)
  | Suffix.BinarySi e => 1000 * 2 ^ (10 * e)
  end.

Lemma apply_saturated n sfx :
  0 <= n -> Suffix.valid sfx = true -> (sfx = Suffix.Milli -> n * 1000 <= Word.i128_max) ->
  Suffix.apply_to_milli sfx (Word.i128_saturate (n * 1000)) =
    Z.min Word.i128_max (n * unit_millis sfx).
Proof.
  intros Hn Hv Hm. assert (Word.i128_min <= 0 /\ 0 <= Word.i128_max) by done.
  assert (forall k, 0 < k -> Word.i128_saturate (Word.i128_saturate (n * 1000) * k)
            = Z.min Word.i128_max (n * (1000 * k))) as Hk.
  { intros k Hk. unfold Word.i128_saturate, Word.saturate. nia. }
  destruct sfx as [| |e|e]; simpl in *; bool_to_prop.
  - unfold Word.i128_saturate, Word.saturate. lia.
  - specialize (Hm eq_refl). rewrite Word.i128_saturate_small by (unfold Word.is_i128; lia).
    rewrite Z.quot_mul by lia. lia.
  - rewrite Hk by (apply Z.pow_pos_nonneg; lia). do 4 f_equal. lia.
  - rewrite Z.shiftl_mul_pow2, Z.mul_1_l by lia. rewrite Hk by (apply Z.pow_pos_nonneg; lia).
    do 4 f_equal. lia.
Qed.

End QuantityFacts.

(** ** Theorems *)
Section Theorems.
Import Quantity QuantityFacts.

(** The wire round trip: a quantity whose number survives un-scaling and
    does not lie strictly between -1 and 0 units is printed as text that parses
    back to exactly it, suffix included; text that no parse accepts is carried
    verbatim. *)
Theorem quantity_wire_round_trip q : wire_exact q = true -> deserialize (serialize q) = q.
Proof.
  unfold deserialize, serialize. destruct q as [m sfx|s]; simpl wire_exact; intros H.
  - bool_to_prop. rewrite to_string_decimal.
    destruct (decimal_chars (Suffix.un_apply_from_milli sfx m)) as [Hc Hne].
    rewrite from_str_number, decimal_round_trip; try done.
    + simpl. by rewrite H1.
    + by apply bool_decide_eq_true in H2.
    + apply andb_false_iff in H0 as [H0 | H0]; bool_to_prop; lia.
  - simpl. by destruct (from_str s).
Qed.

Lemma quantity_wire_round_trip_witness :
  deserialize (serialize (Parsed (-2050000) (Suffix.DecimalSi 1))) = Parsed (-2050000) (Suffix.DecimalSi 1).
Proof. apply quantity_wire_round_trip. vm_compute. reflexivity. Defined.

(** Integers never wrap: printed with any known suffix, a non-negative
    integer parses to its exact value in thousandths, clamped at the [i128]
    maximum. *)
Theorem quantity_integer_saturates n sfx :
  0 <= n <= Word.i128_max -> Suffix.valid sfx = true ->
  (sfx = Suffix.Milli -> n * 1000 <= Word.i128_max) ->
  from_str (pretty n ++ Suffix.to_str sfx) =
    Ok (Parsed (Z.min Word.i128_max (n * unit_millis sfx)) sfx).
Proof.
  intros Hn Hv Hm. destruct (pretty_Z_chars n) as (Hc & Hd & Hne).
  rewrite from_str_number by done. unfold parse_decimal_to_milli.
  rewrite split_once_none by done. cbn [from_option id fst snd].
  assert (Word.i128_min <= 0 /\ 0 <= Word.i128_max) by done.
  rewrite parse_i128_pretty by (unfold Word.is_i128; lia). cbn [ok_or result_bind].
  rewrite eqb_refl. cbn [result_map]. do 2 f_equal. apply apply_saturated; [lia | done | done].
Qed.

Lemma quantity_integer_saturates_witness :
  from_str (pretty 4096 ++ Suffix.to_str (Suffix.BinarySi 3)) =
    Ok (Parsed (Z.min Word.i128_max (4096 * unit_millis (Suffix.BinarySi 3))) (Suffix.BinarySi 3)).
Proof. apply quantity_integer_saturates; [done | done | done]. Defined.

(** A negative quantity smaller than one unit loses its sign on the wire:
    it is written as the positive one, and read back as it. *)
Theorem negative_fraction_loses_sign n :
  0 < n < 1000 -> deserialize (serialize (Parsed (- n) Suffix.None)) = Parsed n Suffix.None.
Proof.
  intros Hn. unfold deserialize, serialize.
  rewrite to_string_decimal. cbn [Suffix.un_apply_from_milli].
  assert (decimal (- n) = decimal n) as ->.
  { unfold decimal. rewrite Z.rem_opp_l, Z.quot_opp_l, Z.quot_small by lia.
    rewrite Z.rem_small by lia. rewrite Z.abs_opp.
    by rewrite !(proj2 (Z.eqb_neq _ _)) by lia. }
  destruct (decimal_chars n) as [Hc Hne].
  rewrite from_str_number, decimal_round_trip; try done; [| lia].
  unfold Word.is_i128, Word.i128_min, Word.i128_max. lia.
Qed.

Lemma negative_fraction_loses_sign_witness :
  deserialize (serialize (Parsed (- 500) Suffix.None)) = Parsed 500 Suffix.None.
Proof. apply (negative_fraction_loses_sign 500). lia. Defined.

(** A fraction on an integer part that saturates wraps to the other sign:
    the largest integer plus a half parses as a quantity near the minimum. *)
Theorem saturated_fraction_wraps :
  from_str (pretty Word.i128_max ++ ".5") =
    Ok (Parsed (Word.i128_max + 500 - 2 ^ 128) Suffix.None).
Proof. vm_compute. reflexivity. Qed.

End Theorems.
