(* ===== verification/Backoff.v ===== *)
(** * Retry curves and the kubelet's back-off

    [engenho-controllers/src/curve.rs] ([Curve], [Streak]) and
    [engenho-kubelet/src/backoff.rs]: the crash-loop gate, the ledger every
    container start asks first, and the ledger that paces a pod whose volumes do
    not resolve.

    A [Duration] is a number of nanoseconds, an [Instant] a reading in
    nanoseconds of the injected clock; a [HashMap] is a [gmap], whose iteration
    order nothing here reads.

    The theorems: the curve is [base * 2^n] capped, at every step a [u32] holds;
    a container that keeps crashing waits out exactly the curve and is restarted
    once it has; over any interleaving of starts of any containers, the attempts
    of one container that keeps failing are spaced by the curve. *)

From stdpp Require Import base tactics option list strings numbers gmap.
From S2P Require Import Prelude.

Local Open Scope Z_scope.

(** ** Time *)

Definition Duration : Type := Z.
Definition Instant : Type := Z.

Definition from_millis (ms : Z) : Duration := ms * 1000000.
Definition from_secs (s : Z) : Duration := s * 1000000000.

(** [Duration::checked_sub]. *)
Definition checked_sub (a b : Duration) : option Duration := if b <=? a then Some (a - b) else None.

(** [Instant::saturating_duration_since]. *)
Definition since (later earlier : Instant) : Duration := Z.max 0 (later - earlier).

(** ** [curve.rs] *)

Record Curve : Type := mkCurve { base_ms : Z; cap_ms : Z }.

(** [Curve::from_millis] refuses a pair of bounds at compile time. *)
Definition curve_ok (c : Curve) : Prop := 0 < base_ms c < cap_ms c /\ cap_ms c <= Word.u64_max.

Definition curve_base (self : Curve) : Duration := from_millis (base_ms self).
Definition curve_cap (self : Curve) : Duration := from_millis (cap_ms self).

(** [1u64.checked_shl(n)]. *)
Definition checked_shl_1 (n : Z) : option Z := if n <? 64 then Some (Z.shiftl 1 n) else None.

(** [u64::checked_mul]. *)
Definition checked_mul (a b : Z) : option Z := if a * b <=? Word.u64_max then Some (a * b) else None.

Definition delay (self : Curve) (n : Z) : Duration :=
  let ms :=
    match checked_shl_1 n with
    | Some factor =>
        match checked_mul (base_ms self) factor with
        | Some ms => if ms <? cap_ms self then ms else cap_ms self
        | None => cap_ms self
        end
    | None => cap_ms self
    end in
  from_millis ms.

Record Streak : Type := mkStreak { streak_curve : Curve; misses : Z }.

Definition streak_new (c : Curve) : Streak := mkStreak c 0.

Definition miss (self : Streak) : Duration * Streak :=
  (delay (streak_curve self) (misses self),
   mkStreak (streak_curve self) (Word.u32_saturate (misses self + 1))).

Definition streak_reset (self : Streak) : Streak := mkStreak (streak_curve self) 0.

(** ** The crash-loop gate *)

Definition CRASH : Curve := mkCurve 10000 300000.
Definition RESET_AFTER : Duration := from_secs 600.
Definition CRASH_LOOP_BACK_OFF : string := "CrashLoopBackOff".

Module BackoffDecision.
Inductive t : Type :=
  | Restart
  | Wait (remaining : Duration).

Definition waiting_reason (self : t) : option string :=
  match self with Restart => None | Wait _ => Some CRASH_LOOP_BACK_OFF end.
End BackoffDecision.

Definition still_owed (owed elapsed : Duration) : option Duration :=
  match checked_sub owed elapsed with
  | Some remaining => if negb (remaining =? 0) then Some remaining else None
  | None => None
  end.

Definition decision_after (owed elapsed : Duration) : BackoffDecision.t :=
  match still_owed owed elapsed with
  | Some remaining => BackoffDecision.Wait remaining
  | None => BackoffDecision.Restart
  end.

(** [repeats.checked_sub(1)] on a [u32]. *)
Definition delay_for (repeats : Z) : Duration :=
  if repeats =? 0 then 0 else delay CRASH (repeats - 1).

Record CrashBackoff : Type := mkCrashBackoff { crash_step : Z; last_update : Instant }.

Definition owed (self : CrashBackoff) : Duration := delay CRASH (crash_step self).

Definition forgiven_by (self : CrashBackoff) (finished_at : Instant) : bool :=
  RESET_AFTER <? since finished_at (last_update self).

Module CrashGate.
Inductive t : Type :=
  | Hold (remaining : Duration)
  | Go (entry : CrashBackoff).

Definition waiting_reason (self : t) : option string :=
  match self with Hold _ => Some CRASH_LOOP_BACK_OFF | Go _ => None end.
End CrashGate.

Definition live_entry (entry : option CrashBackoff) (finished_at : Instant) : option CrashBackoff :=
  match entry with
  | Some e => if forgiven_by e finished_at then None else Some e
  | None => None
  end.

Definition crash_gate (entry : option CrashBackoff) (finished_at now : Instant) : CrashGate.t :=
  let live := live_entry entry finished_at in
  let go := CrashGate.Go (mkCrashBackoff
    match live with None => 0 | Some e => Word.u32_saturate (crash_step e + 1) end now) in
  match live with
  | Some e =>
      match still_owed (owed e) (since now finished_at) with
      | Some remaining => CrashGate.Hold remaining
      | None => go
      end
  | None => go
  end.

Definition decide_start (failures : Z) (since_last_attempt : Duration) : BackoffDecision.t :=
  decision_after (delay_for failures) since_last_attempt.

(** ** The start ledger *)

Definition StartLedger : Type := gmap string (gmap string (Z * Instant)).

Record StartPermit : Type := mkPermit { permit_pod : string; permit_container : string; permit_at : Instant }.
Record StartHeld : Type := mkHeld { held_remaining : Duration; held_failures : Z }.
Record StartFailed : Type := mkFailed { consecutive_failures : Z; next_attempt_in : Duration }.

(** [self.failures.get(pod).and_then(|c| c.get(container))]. *)
Definition failures_of (self : StartLedger) (pod container : string) : option (Z * Instant) :=
  (self !! pod) >>? (fun c : gmap string (Z * Instant) => c !! container).

Definition permit (self : StartLedger) (pod container : string) (now : Instant)
  : result StartPermit StartHeld :=
  let granted := Ok (mkPermit pod container now) in
  match failures_of self pod container with
  | Some (failures, last) =>
      match decide_start failures (since now last) with
      | BackoffDecision.Wait remaining => Err (mkHeld remaining failures)
      | BackoffDecision.Restart => granted
      end
  | None => granted
  end.

Definition succeeded (self : StartLedger) (p : StartPermit) : StartLedger :=
  match self !! permit_pod p with
  | Some containers =>
      let containers := delete (permit_container p) containers in
      if decide (containers = ∅) then delete (permit_pod p) self
      else <[permit_pod p := containers]> self
  | None => self
  end.

Definition failed (self : StartLedger) (p : StartPermit) : StartFailed * StartLedger :=
  let containers := default ∅ (self !! permit_pod p) in
  let entry := default (0, permit_at p) (containers !! permit_container p) in
  let n := Word.u32_saturate (entry.1 + 1) in
  (mkFailed n (delay_for n),
   <[permit_pod p := <[permit_container p := (n, permit_at p)]> containers]> self).

Definition retain_pods (self : StartLedger) (keep : string -> bool) : StartLedger :=
  filter (fun e => keep e.1 = true) self.

(** ** The volume-pending ledger *)

Definition VOLUME_PENDING : Curve := mkCurve 500 122000.

Record PendingPod : Type := mkPending { pending_streak : Streak; missed_at : Instant; pending_owed : Duration }.

Definition VolumePendingLedger : Type := gmap string PendingPod.

Module VolumeRetry.
Inductive t : Type :=
  | Missed (consecutive : Z) (next_attempt_in : Duration)
  | Early (consecutive : Z) (remaining : Duration).

Definition next_attempt_in (self : t) : Duration :=
  match self with Missed _ n => n | Early _ r => r end.
End VolumeRetry.

Definition unresolved (self : VolumePendingLedger) (pod : string) (now : Instant)
  : VolumeRetry.t * VolumePendingLedger :=
  let entry := default (mkPending (streak_new VOLUME_PENDING) now 0) (self !! pod) in
  let elapsed := since now (missed_at entry) in
  match still_owed (pending_owed entry) elapsed with
  | Some remaining =>
      (VolumeRetry.Early (misses (pending_streak entry)) remaining, <[pod := entry]> self)
  | None =>
      let '(d, streak) := miss (pending_streak entry) in
      (VolumeRetry.Missed (misses streak) d, <[pod := mkPending streak now d]> self)
  end.

Definition resolved (self : VolumePendingLedger) (pod : string) : VolumePendingLedger := delete pod self.

Definition retain_pending (self : VolumePendingLedger) (keep : string -> bool) : VolumePendingLedger :=
  filter (fun e => keep e.1 = true) self.

(** ** Lemmas *)

Lemma still_owed_spec o e :
  still_owed o e = if e <? o then Some (o - e) else None.
Proof.
  unfold still_owed, checked_sub. destruct (e <=? o) eqn:E1, (e <? o) eqn:E2; simpl; try lia; try done.
  - by replace (o - e =? 0) with false by lia.
  - by replace (o - e =? 0) with true by lia.
Qed.

Lemma delay_spec c n : curve_ok c -> 0 <= n ->
  delay c n = from_millis (Z.min (cap_ms c) (base_ms c * 2 ^ n)).
Proof.
  intros [Hb Hc] Hn. unfold delay, checked_shl_1, checked_mul. f_equal.
  destruct (n <? 64) eqn:E1; [rewrite Z.shiftl_1_l |].
  - destruct (base_ms c * 2 ^ n <=? Word.u64_max) eqn:E2; [| lia].
    destruct (base_ms c * 2 ^ n <? cap_ms c) eqn:E3; lia.
  - assert (2 ^ 64 <= 2 ^ n) by (apply Z.pow_le_mono_r; lia).
    unfold Word.u64_max, Word.u64_modulus in Hc. nia.
Qed.

Lemma CRASH_ok : curve_ok CRASH.
Proof. unfold curve_ok. simpl. by vm_compute. Qed.

Lemma VOLUME_PENDING_ok : curve_ok VOLUME_PENDING.
Proof. unfold curve_ok. simpl. by vm_compute. Qed.

Lemma delay_range c n : curve_ok c -> 0 <= n -> curve_base c <= delay c n <= curve_cap c.
Proof.
  intros Hc Hn. rewrite delay_spec by done. unfold curve_base, curve_cap, from_millis.
  destruct Hc as [? ?]. assert (1 <= 2 ^ n) by (apply (Z.pow_le_mono_r 2 0 n); lia). nia.
Qed.

Lemma delay_mono c m n : curve_ok c -> 0 <= m <= n -> delay c m <= delay c n.
Proof.
  intros Hc Hm. rewrite !delay_spec by (done || lia). unfold from_millis.
  destruct Hc as [? ?]. assert (2 ^ m <= 2 ^ n) by (apply Z.pow_le_mono_r; lia). nia.
Qed.

Lemma crash_gate_spec entry f now :
  crash_gate entry f now =
    match live_entry entry f with
    | Some e => if since now f <? owed e then CrashGate.Hold (owed e - since now f)
                else CrashGate.Go (mkCrashBackoff (Word.u32_saturate (crash_step e + 1)) now)
    | None => CrashGate.Go (mkCrashBackoff 0 now)
    end.
Proof.
  unfold crash_gate. destruct (live_entry entry f) as [e |]; [| done].
  rewrite still_owed_spec. by destruct (_ <? _).
Qed.

(** ** A container that keeps crashing *)

(** Exits and restarts in turn: each round is an exit and the reading of the
    clock at which the gate let the container go. *)
Inductive crashes : option CrashBackoff -> list (Instant * Instant) -> option CrashBackoff -> Prop :=
  | crashes_none e : crashes e [] e
  | crashes_more e f now e' l e'' :
      crash_gate e f now = CrashGate.Go e' -> crashes (Some e') l e'' ->
      crashes e ((f, now) :: l) e''.

(** Every run between two restarts was short: at most [RESET_AFTER]. *)
Fixpoint short_runs (started : Instant) (l : list (Instant * Instant)) : Prop :=
  match l with
  | [] => True
  | (f, now) :: l => f - started <= RESET_AFTER /\ short_runs now l
  end.

(** What the curve owes before restart [i] of a run of crashes. *)
Definition schedule (i : Z) : Duration :=
  if i =? 0 then 0 else Z.min (from_secs 300) (from_secs 10 * 2 ^ (i - 1)).

Lemma delay_CRASH n : 0 <= n -> delay CRASH n = schedule (n + 1).
Proof.
  intros. rewrite delay_spec by (apply CRASH_ok || done). unfold schedule, from_millis, from_secs.
  replace (n + 1 =? 0) with false by lia. replace (n + 1 - 1) with n by lia. simpl. lia.
Qed.

Lemma schedule_pos i : 0 < i -> 0 < schedule i.
Proof.
  intros. unfold schedule, from_secs. replace (i =? 0) with false by lia.
  assert (0 < 2 ^ (i - 1)) by (apply Z.pow_pos_nonneg; lia). lia.
Qed.

Lemma crashes_spaced n started l e :
  0 <= n -> n + Z.of_nat (length l) <= Word.u32_max -> short_runs started l ->
  crashes (Some (mkCrashBackoff n started)) l e ->
  forall i f now, l !! i = Some (f, now) -> f + schedule (n + Z.of_nat i + 1) <= now.
Proof.
  intros Hn Hmax Hs Hc. remember (Some (mkCrashBackoff n started)) as en eqn:He.
  revert n started Hn Hmax Hs He.
  induction Hc as [|en f now e' l e'' Hg Hc IH]; intros n started Hn Hmax Hs He i f0 now0 Hi; [done |].
  subst en. rewrite crash_gate_spec in Hg. simpl in Hs, Hmax. destruct Hs as [Hshort Hs].
  unfold live_entry, forgiven_by in Hg. simpl in Hg.
  replace (RESET_AFTER <? since f started) with false in Hg.
  2: { symmetry. apply Z.ltb_ge. unfold since, RESET_AFTER, from_secs in *. lia. }
  unfold owed in Hg. cbn [crash_step] in Hg. rewrite delay_CRASH in Hg by done.
  destruct (_ <? _) eqn:E in Hg; [done |]. apply Z.ltb_ge in E. injection Hg as <-.
  unfold Word.u32_saturate in *. rewrite Word.saturate_small in * by lia.
  pose proof (schedule_pos (n + 1) ltac:(lia)).
  destruct i as [|i]; simpl in Hi.
  - injection Hi as <- <-. replace (n + Z.of_nat 0 + 1) with (n + 1) by lia. unfold since in E. lia.
  - replace (n + Z.of_nat (S i) + 1) with (n + 1 + Z.of_nat i + 1) by lia.
    eapply (IH (n + 1) now); eauto; lia.
Qed.

(** ** Any interleaving of starts *)

Module StartOp.
Inductive t : Type :=
  | Attempt (pod container : string) (now : Instant) (started : bool)
  | Retain (keep : string -> bool).
End StartOp.

(** What actually happened: an attempt the ledger permitted, and its outcome. *)
Module StartEvent.
Inductive t : Type :=
  | Attempted (pod container : string) (now : Instant) (started : bool)
  | Forgot (keep : string -> bool).
End StartEvent.

(** Every launch asks for a permit and reports its outcome. *)
Definition start_step (st : StartLedger * list StartEvent.t) (op : StartOp.t)
  : StartLedger * list StartEvent.t :=
  let '(ledger, log) := st in
  match op with
  | StartOp.Attempt pod container now started =>
      match permit ledger pod container now with
      | Ok p =>
          (if started then succeeded ledger p else (failed ledger p).2,
           (log ++ [StartEvent.Attempted pod container now started])%list)
      | Err _ => (ledger, log)
      end
  | StartOp.Retain keep => (retain_pods ledger keep, (log ++ [StartEvent.Forgot keep])%list)
  end.

Definition start_run (ops : list StartOp.t) : StartLedger * list StartEvent.t :=
  fold_left start_step ops (∅, []).

(** The specification: what one container's own history says. *)
Definition recent_step (pod container : string) (h : option (Z * Instant)) (e : StartEvent.t)
  : option (Z * Instant) :=
  match e with
  | StartEvent.Attempted p c now started =>
      if eqb p pod && eqb c container then
        (if started then None
         else Some (Word.u32_saturate (default 0 (option_map fst h) + 1), now))
      else h
  | StartEvent.Forgot keep => if keep pod then h else None
  end.

Definition recent (log : list StartEvent.t) (pod container : string) : option (Z * Instant) :=
  fold_left (recent_step pod container) log None.

Lemma failures_of_succeeded led p pod c :
  failures_of (succeeded led p) pod c =
    if eqb (permit_pod p) pod && eqb (permit_container p) c then None else failures_of led pod c.
Proof.
  unfold failures_of, succeeded, eqb, StartLedger in *. destruct p as [pp pc at_]. simpl.
  destruct (led !! pp) as [cs |] eqn:E; simpl.
  - destruct (decide (delete pc cs = ∅)) as [Hd | Hd].
    + case_bool_decide as Hp; simpl; subst; [| by rewrite lookup_delete_ne].
      rewrite lookup_delete_eq. simpl. case_bool_decide as Hc; [done |].
      rewrite E. simpl. rewrite <- (lookup_delete_ne cs pc) by done. by rewrite Hd, lookup_empty.
    + case_bool_decide as Hp; simpl; subst; [| by rewrite lookup_insert_ne].
      rewrite lookup_insert_eq. simpl. case_bool_decide as Hc; subst; [apply lookup_delete_eq |].
      rewrite E. simpl. by rewrite lookup_delete_ne.
  - case_bool_decide as Hp; simpl; [| done]. subst. case_bool_decide; [by rewrite E | done].
Qed.

Lemma failures_of_failed led p pod c :
  failures_of (failed led p).2 pod c =
    if eqb (permit_pod p) pod && eqb (permit_container p) c
    then Some (Word.u32_saturate (default 0 (option_map fst (failures_of led pod c)) + 1), permit_at p)
    else failures_of led pod c.
Proof.
  unfold failures_of, failed, eqb, StartLedger in *. destruct p as [pp pc at_]. simpl.
  case_bool_decide as Hp; simpl; subst; [| by rewrite lookup_insert_ne].
  rewrite lookup_insert_eq. simpl. case_bool_decide as Hc; subst.
  - rewrite lookup_insert_eq. destruct (led !! pod) as [cs |]; simpl; [| by rewrite lookup_empty].
    by destruct (cs !! c).
  - rewrite lookup_insert_ne by done. destruct (led !! pod); simpl; [done |]. apply lookup_empty.
Qed.

Lemma failures_of_retain led keep pod c :
  failures_of (retain_pods led keep) pod c = if keep pod then failures_of led pod c else None.
Proof.
  unfold failures_of, retain_pods, StartLedger in *. rewrite map_lookup_filter.
  destruct (led !! pod) as [cs |]; simpl; [| by destruct (keep pod)].
  case_guard as Hk; simpl in *; [by rewrite Hk | by destruct (keep pod)].
Qed.

(** The nested map holds, for each container, exactly what its history says. *)
Lemma start_run_recent ops pod c :
  failures_of (start_run ops).1 pod c = recent (start_run ops).2 pod c.
Proof.
  unfold start_run. assert (forall st, failures_of st.1 pod c = recent st.2 pod c ->
    failures_of (fold_left start_step ops st).1 pod c =
    recent (fold_left start_step ops st).2 pod c) as Hgen; [| by apply Hgen].
  induction ops as [|op ops IH]; intros [led log] Hst; [done |]. apply IH. simpl in Hst.
  unfold start_step. destruct op as [p k now started | keep]; simpl.
  - destruct (permit led p k now) as [pm | h] eqn:E; [| done]. simpl.
    assert (pm = mkPermit p k now) as ->.
    { unfold permit in E. destruct (failures_of led p k) as [[]|]; [| congruence].
      destruct (decide_start _ _); congruence. }
    unfold recent. rewrite fold_left_app. simpl. fold (recent log pod c). rewrite <- Hst.
    destruct started;
      [apply failures_of_succeeded | apply (failures_of_failed led (mkPermit p k now))].
  - unfold recent. rewrite fold_left_app. simpl. fold (recent log pod c). rewrite <- Hst.
    apply failures_of_retain.
Qed.

Lemma recent_positive log pod c n last : recent log pod c = Some (n, last) -> 1 <= n <= Word.u32_max.
Proof.
  unfold recent. assert (forall h, (forall n last, h = Some (n, last) -> 1 <= n <= Word.u32_max) ->
    forall n last, fold_left (recent_step pod c) log h = Some (n, last) -> 1 <= n <= Word.u32_max) as Hgen.
  { clear. induction log as [|e log IH]; intros h Hh n last; [apply Hh |]. simpl. apply IH. clear n last.
    intros n last. destruct e as [p k now started | keep]; simpl.
    - destruct (eqb p pod && eqb k c); [| apply Hh]. destruct started; [done |]. intros [= <- _].
      unfold Word.u32_saturate, Word.saturate. assert (1 <= Word.u32_max) by done.
      destruct h as [[m l] |]; simpl; [specialize (Hh m l eq_refl) |]; lia.
    - destruct (keep pod); [apply Hh | done]. }
  apply Hgen. done.
Qed.

(** A pod counted as missed is not counted again before the wait it owes. *)
Lemma unresolved_spaced led pod now n d led' now' n' d' :
  unresolved led pod now = (VolumeRetry.Missed n d, led') ->
  (unresolved led' pod now').1 = VolumeRetry.Missed n' d' -> 0 < d -> now + d <= now'.
Proof.
  unfold unresolved, VolumePendingLedger in *. set (entry := default _ (led !! pod)).
  destruct (still_owed (pending_owed entry) _); [done |]. simpl. intros [= <- <- <-].
  rewrite lookup_insert_eq. simpl. rewrite still_owed_spec.
  destruct (_ <? _) eqn:E; [done |]. unfold since in E. lia.
Qed.

(** ** Theorems *)

(** Every retry curve is exact at every step a [u32] can hold: step [n] is
    [base * 2^n] until that reaches the cap, and the cap from there on, with no
    wrap-around to a short delay however long the run of failures. *)
Theorem curve_exact c n :
  curve_ok c -> Word.is_u32 n ->
  delay c n = Z.min (curve_cap c) (curve_base c * 2 ^ n) /\
  delay c n <= delay c (Word.u32_saturate (n + 1)).
Proof.
  intros Hc [Hn Hm]. split.
  - rewrite delay_spec by (done || lia). unfold from_millis, curve_cap, curve_base, from_millis. lia.
  - apply delay_mono; [done |]. unfold Word.u32_saturate, Word.saturate. lia.
Qed.

Lemma curve_exact_witness :
  delay CRASH 40 = Z.min (curve_cap CRASH) (curve_base CRASH * 2 ^ 40) /\
  delay CRASH 40 = from_secs 300 /\ delay CRASH 2 = from_secs 40.
Proof.
  split; [apply (curve_exact CRASH 40); [apply CRASH_ok | split; vm_compute; discriminate] |].
  split; vm_compute; reflexivity.
Defined.

(** (C37) A crash loop is paced by the curve and never stopped by it: while no run
    outlives [RESET_AFTER], restart [i] comes at least the [i]-th wait of 0 s,
    10 s, 20 s ... 300 s after the exit it answers; and once an exit is five
    minutes old the gate lets the container go, whatever its entry. *)
Theorem crash_loop_paced started l e :
  short_runs started l -> Z.of_nat (length l) <= Word.u32_max -> crashes None l e ->
  (forall i f now, l !! i = Some (f, now) -> f <= now -> f + schedule (Z.of_nat i) <= now) /\
  (forall entry f now, 0 <= default 0 (option_map crash_step entry) -> f + from_secs 300 <= now ->
     exists e', crash_gate entry f now = CrashGate.Go e').
Proof.
  intros Hs Hmax Hc. split.
  - intros i f now Hi Hle. destruct i as [|i]; [unfold schedule; simpl; lia |].
    inversion Hc as [| en f1 now1 e' l' e'' Hg Hc']; subst; [done |].
    rewrite crash_gate_spec in Hg. simpl in Hg. injection Hg as <-.
    simpl in Hi, Hmax, Hs. destruct Hs as [_ Hs].
    rewrite Nat2Z.inj_succ, <- Z.add_1_r.
    refine (crashes_spaced 0 now1 l' e _ _ Hs Hc' i f now Hi); lia.
  - intros entry f now Hstep Hnow. rewrite crash_gate_spec.
    destruct (live_entry entry f) as [en |] eqn:El; [| eauto].
    assert (entry = Some en) as ->.
    { unfold live_entry in El. destruct entry as [e0 |]; [| done]. by destruct (forgiven_by e0 f). }
    simpl in Hstep. pose proof (delay_range CRASH (crash_step en) CRASH_ok Hstep) as [_ Hcap].
    change (curve_cap CRASH) with (from_secs 300) in Hcap. unfold owed, since.
    destruct (_ <? _) eqn:E; [| eauto]. lia.
Qed.

Lemma crash_loop_paced_witness :
  let s := from_secs 1 in
  2 * s + schedule 1 <= 12 * s.
Proof.
  pose (s := from_secs 1).
  refine (proj1 (crash_loop_paced 0 [(s, s); (2 * s, 12 * s)] (Some (mkCrashBackoff 1 (12 * s))) _ _ _)
    1%nat (2 * s) (12 * s) eq_refl _).
  - vm_compute. repeat split; discriminate.
  - vm_compute. discriminate.
  - eapply crashes_more; [vm_compute; reflexivity |].
    eapply crashes_more; [vm_compute; reflexivity | apply crashes_none].
  - vm_compute. discriminate.
Defined.

(** Over any interleaving of start attempts and forgotten pods, the start
    ledger permits an attempt of a container exactly when that container's own
    history since its last success allows it: no failure on record, or the wait
    of the curve for its consecutive failures has passed since the last one. *)
Theorem start_ledger_refines ops pod c now started :
  (start_run (ops ++ [StartOp.Attempt pod c now started])).2 =
    match recent (start_run ops).2 pod c with
    | Some (n, last) =>
        if last + delay_for n <=? now
        then ((start_run ops).2 ++ [StartEvent.Attempted pod c now started])%list
        else (start_run ops).2
    | None => ((start_run ops).2 ++ [StartEvent.Attempted pod c now started])%list
    end.
Proof.
  rewrite <- (start_run_recent ops pod c) at 1.
  pose proof (recent_positive (start_run ops).2 pod c) as Hpos. rewrite <- start_run_recent in Hpos.
  unfold start_run at 1. rewrite fold_left_app. fold (start_run ops). simpl.
  destruct (start_run ops) as [led log]. simpl in *. unfold permit.
  destruct (failures_of led pod c) as [[n last] |]; [| done].
  specialize (Hpos n last eq_refl). unfold decide_start, decision_after. rewrite still_owed_spec.
  assert (0 < delay_for n) as Hd.
  { unfold delay_for. replace (n =? 0) with false by lia.
    pose proof (delay_range CRASH (n - 1) CRASH_ok ltac:(lia)) as [Hlo _].
    change (curve_base CRASH) with (from_secs 10) in Hlo. unfold from_secs in Hlo. lia. }
  unfold since. destruct (Z.max 0 (now - last) <? delay_for n) eqn:E.
  - by replace (last + delay_for n <=? now) with false by lia.
  - by replace (last + delay_for n <=? now) with true by lia.
Qed.
