(* ===== verification/Lifecycle.v ===== *)
(** * The daemon's lifecycle machine

    [engenho-runtime/src/lifecycle/machine.rs], with the vocabulary of
    [boot/phase.rs], [boot/failure.rs], [release.rs] and [error.rs] it is written
    in.  The machine is an instance of [Maquina.StateMachine].

    A [Timestamp] is a number of nanoseconds since the epoch; the far end of the
    calendar is chrono's, a parameter.  An error keeps the payload the code looks
    at and the text of the rest.

    The theorems: every operator request is answered by a typed reason, never as
    unexpected, until the process is ending; a confirmation bound to an epoch is
    stale after any boot; the delay before retry [n] is [2^(n-1)] seconds up to a
    minute. *)

From stdpp Require Import base tactics option list strings numbers.
From S2P Require Import Prelude Maquina Backoff.

Local Open Scope string_scope.
Local Open Scope Z_scope.

(** ** Time *)

Definition Timestamp : Type := Z.

(** [DateTime::<Utc>::MAX_UTC]. *)
Class Calendar : Type := MAX_UTC : Timestamp.

(** [Timestamp::after]: a sum past the calendar's end is its end. *)
Definition timestamp_after `{Calendar} (self : Timestamp) (delay : Duration) : Timestamp :=
  if self + delay <=? MAX_UTC then self + delay else MAX_UTC.

(** ** [boot/phase.rs] *)

Module BootPhase.
Inductive t : Type :=
  | ResolveConfig | ReadBootConfig | PreflightBackend | ValidateConfig | OpenStore | AwaitLeadership
  | BuildScheduler | RegisterNode | SeedCluster | IssuePki | LoadAdminToken | BuildAuth
  | BindApiserver | PublishKubeconfigs | SpawnChildren | AdoptHealth.

#[global] Instance t_eq_dec : EqDecision t.
Proof. solve_decision. Defined.

Definition FIRST : t := ResolveConfig.

Definition as_str (self : t) : string :=
  match self with
  | ResolveConfig => "resolve_config"
  | ReadBootConfig => "read_boot_config"
  | PreflightBackend => "preflight_backend"
  | ValidateConfig => "validate_config"
  | OpenStore => "open_store"
  | AwaitLeadership => "await_leadership"
  | BuildScheduler => "build_scheduler"
  | RegisterNode => "register_node"
  | SeedCluster => "seed_cluster"
  | IssuePki => "issue_pki"
  | LoadAdminToken => "load_admin_token"
  | BuildAuth => "build_auth"
  | BindApiserver => "bind_apiserver"
  | PublishKubeconfigs => "publish_kubeconfigs"
  | SpawnChildren => "spawn_children"
  | AdoptHealth => "adopt_health"
  end.
End BootPhase.

Module BootKind.
Inductive t : Type := FirstBoot | Resume | Ephemeral.

#[global] Instance t_eq_dec : EqDecision t.
Proof. solve_decision. Defined.
End BootKind.

(** ** [error.rs]: what a boot fails with *)

Module StoreError.
Inductive t : Type :=
  | ConfigInvalid (text : string)
  | InitializeFailed (text : string)
  | ClientWriteFailed (text : string)
  | Fatal (text : string)
  | Persist (text : string)
  | NoLeader
  | LeaderUnreachable (leader : Z) (reason : string)
  | SecretUnreadable (subject fault : string).
End StoreError.

Module ServerError.
Inductive t : Type :=
  | Bind (text : string)
  | Serve (text : string)
  | Tls (text : string)
  | Pki (text : string).
End ServerError.

Module RuntimeError.
Inductive t : Type :=
  | Config (text : string)
  | Unhonoured (text : string)
  | Scheduler (text : string)
  | Store (e : StoreError.t)
  | Server (e : ServerError.t)
  | BackendRefused (text : string)
  | LeadershipTimeout (seconds : Z)
  | ListenAddr (addr source : string)
  | PublicCaOnReachableAddress (listen_addr pki_dir : string)
  | ExtraSan (source : string)
  | StoreStillShared (strong_count : Z) (after : string)
  | ContainerRuntimeUnavailable (backend binary source : string)
  | Kubeconfig (text : string)
  | KubeconfigIo (path source : string)
  | NodeRegistration (text : string)
  | BootCancelled (phase : BootPhase.t)
  | DataDirMoved (control resolved : string)
  | Identity (path reason : string)
  | NotAMember (node_id : Z)
  | Mesh (reason : string).
End RuntimeError.

(** [to_string] of an error: its text includes that of errors of other crates. *)
Class ErrorText : Type := error_text : RuntimeError.t -> string.

(** ** [boot/failure.rs] *)

Module FailureClass.
Inductive t : Type := Backoff | Hold.

Definition of_store (error : StoreError.t) : t :=
  match error with
  | StoreError.ConfigInvalid _ => Hold
  | StoreError.InitializeFailed _ | StoreError.ClientWriteFailed _ | StoreError.Fatal _
  | StoreError.Persist _ | StoreError.NoLeader | StoreError.LeaderUnreachable _ _
  | StoreError.SecretUnreadable _ _ => Backoff
  end.

Definition of_server (error : ServerError.t) : t :=
  match error with
  | ServerError.Bind _ | ServerError.Serve _ => Backoff
  | ServerError.Tls _ | ServerError.Pki _ => Hold
  end.

Definition classify (error : RuntimeError.t) : t :=
  match error with
  | RuntimeError.Config _ | RuntimeError.Unhonoured _ | RuntimeError.Scheduler _
  | RuntimeError.BackendRefused _ | RuntimeError.ListenAddr _ _ | RuntimeError.ExtraSan _
  | RuntimeError.PublicCaOnReachableAddress _ _ | RuntimeError.Kubeconfig _
  | RuntimeError.DataDirMoved _ _ | RuntimeError.Identity _ _ | RuntimeError.NotAMember _
  | RuntimeError.BootCancelled _ | RuntimeError.StoreStillShared _ _ => Hold
  | RuntimeError.LeadershipTimeout _ | RuntimeError.ContainerRuntimeUnavailable _ _ _
  | RuntimeError.KubeconfigIo _ _ | RuntimeError.NodeRegistration _ | RuntimeError.Mesh _ => Backoff
  | RuntimeError.Store store => of_store store
  | RuntimeError.Server server => of_server server
  end.
End FailureClass.

Definition BACKOFF_FLOOR : Duration := from_secs 1.
Definition BACKOFF_CAP : Duration := from_secs 60.

Definition backoff (streak : Z) : Duration :=
  let doublings := Z.min (Z.max 0 (streak - 1)) 16 in
  Z.min (BACKOFF_FLOOR * Z.shiftl 1 doublings) BACKOFF_CAP.

(** ** [release.rs] *)

(** [StoreReleased] is a proof of zero size. *)
Definition StoreReleased : Type := unit.

Module BootUnwind.
Inductive t : Type :=
  | NeverOpened
  | Released (released : StoreReleased)
  | StillShared (strong_count : Z)
  | TerminateFailed (err : RuntimeError.t).

Definition store_released (self : t) : bool :=
  match self with Released _ => true | _ => false end.
End BootUnwind.

Record BootFailed : Type := mkBootFailed {
  failed_error : RuntimeError.t;
  failed_phase : BootPhase.t;
  failed_unwind : BootUnwind.t
}.

(** ** The machine's vocabulary *)

Module ExitIntent.
Inductive t : Type := Halt | Relaunch.

#[global] Instance t_eq_dec : EqDecision t.
Proof. solve_decision. Defined.

Definition code (self : t) : Z := match self with Halt => 0 | Relaunch => 75 end.
End ExitIntent.

Module StopReason.
Inductive t : Type := OperatorRequest | HeldAtStartup | ReinitComplete.

#[global] Instance t_eq_dec : EqDecision t.
Proof. solve_decision. Defined.
End StopReason.

Module AfterDrain.
Inductive t : Type :=
  | Stop
  | Restart
  | Exit (intent : ExitIntent.t).

#[global] Instance t_eq_dec : EqDecision t.
Proof. solve_decision. Defined.
End AfterDrain.

Module PendingApply.
Inductive t : Type :=
  | InSync
  | RestartNeeded (leaves : list string).

#[global] Instance t_eq_dec : EqDecision t.
Proof. solve_decision. Defined.
End PendingApply.

Module RetryClass.
Inductive t : Type :=
  | Backoff (next_retry_at : Timestamp) (delay_ms : Z)
  | Hold.

#[global] Instance t_eq_dec : EqDecision t.
Proof. unfold Timestamp. solve_decision. Defined.
End RetryClass.

Record FailureReport : Type := mkReport {
  report_phase : BootPhase.t;
  report_error : string;
  report_at : Timestamp
}.

#[global] Instance FailureReport_eq_dec : EqDecision FailureReport.
Proof. unfold Timestamp. solve_decision. Defined.

Module LifecycleState.
Inductive t : Type :=
  | Resolving (since : Timestamp)
  | Booting (attempt : Z) (phase : BootPhase.t) (since : Timestamp)
  | Running (attempt : Z) (since : Timestamp) (apiserver_addr : string) (pending : PendingApply.t)
  | Draining (attempt : Z) (after : AfterDrain.t)
  | Stopped (reason : StopReason.t) (epoch : Z) (since : Timestamp)
  | Failed (attempt : Z) (report : FailureReport) (retry : RetryClass.t)
  | Wedged (cause : string) (since : Timestamp)
  | Exiting (intent : ExitIntent.t).

#[global] Instance t_eq_dec : EqDecision t.
Proof. unfold Timestamp. solve_decision. Defined.

Definition name (self : t) : string :=
  match self with
  | Resolving _ => "resolving"
  | Booting _ _ _ => "booting"
  | Running _ _ _ _ => "running"
  | Draining _ _ => "draining"
  | Stopped _ _ _ => "stopped"
  | Failed _ _ _ => "failed"
  | Wedged _ _ => "wedged"
  | Exiting _ => "exiting"
  end.

Definition may_hold_store (self : t) : bool :=
  match self with
  | Booting _ _ _ | Running _ _ _ _ | Draining _ _ | Wedged _ _ => true
  | Resolving _ | Stopped _ _ _ | Failed _ _ _ | Exiting _ => false
  end.
End LifecycleState.
Import LifecycleState.

Module StoreOutcome.
Inductive t : Type :=
  | Released
  | Held (cause : string).
End StoreOutcome.

Module LifecycleEvent.
Inductive t : Type :=
  | HeldAtStartup (at_ : Timestamp)
  | Start (at_ : Timestamp)
  | Retry (at_ : Timestamp)
  | RetryDue (at_ : Timestamp)
  | ConfigChanged (at_ : Timestamp)
  | ConfigApplied (pending : PendingApply.t)
  | Phase (phase : BootPhase.t) (at_ : Timestamp)
  | Booted (at_ : Timestamp) (apiserver_addr : string)
  | BootFailed (report : FailureReport) (class : FailureClass.t) (store : StoreOutcome.t)
  | Stop (at_ : Timestamp)
  | Restart (at_ : Timestamp)
  | Exit (intent : ExitIntent.t)
  | Drained (at_ : Timestamp) (store : StoreOutcome.t).

Definition name (self : t) : string :=
  match self with
  | HeldAtStartup _ => "held_at_startup"
  | Start _ => "start"
  | Retry _ => "retry"
  | RetryDue _ => "retry_due"
  | ConfigChanged _ => "config_changed"
  | ConfigApplied _ => "config_applied"
  | Phase _ _ => "phase"
  | Booted _ _ => "booted"
  | BootFailed _ _ _ => "boot_failed"
  | Stop _ => "stop"
  | Restart _ => "restart"
  | Exit _ => "exit"
  | Drained _ _ => "drained"
  end.
End LifecycleEvent.

Module LifecycleEffect.
Inductive t : Type :=
  | None
  | StartBoot (attempt : Z)
  | CancelBoot
  | ShutdownRuntime
  | Exit (intent : ExitIntent.t).
End LifecycleEffect.

Module RefusedBecause.
Inductive t : Type :=
  | RuntimeRunning | RuntimeNotRunning | RuntimeNotFailed | RuntimeNotStopped | LifecycleBusy
  | Wedged | Unexpected.

Definition as_str (self : t) : string :=
  match self with
  | RuntimeRunning => "runtime_running"
  | RuntimeNotRunning => "runtime_not_running"
  | RuntimeNotFailed => "runtime_not_failed"
  | RuntimeNotStopped => "runtime_not_stopped"
  | LifecycleBusy => "lifecycle_busy"
  | Wedged => "wedged"
  | Unexpected => "unexpected"
  end.
End RefusedBecause.

Record Refused : Type := mkRefused {
  refused_state : string;
  refused_event : string;
  reason : RefusedBecause.t
}.

Definition refused_text (self : Refused) : string :=
  refused_event self ++ " refused while " ++ refused_state self ++ ": "
    ++ RefusedBecause.as_str (reason self).

(** ** The machine *)

Record Lifecycle : Type := mkLifecycle {
  lc_state : LifecycleState.t;
  attempts : Z;
  epoch : Z;
  streak : Z
}.

Definition lifecycle_at (since : Timestamp) : Lifecycle := mkLifecycle (Resolving since) 0 0 0.

Definition with_state (self : Lifecycle) (s : LifecycleState.t) : Lifecycle :=
  mkLifecycle s (attempts self) (epoch self) (streak self).

(** [NonZeroU32::new(attempts).unwrap_or(MAX)]. *)
Definition nonzero (n : Z) : Z := if n =? 0 then Word.u32_max else n.

Definition begin_boot (self : Lifecycle) (at_ : Timestamp) : Lifecycle * LifecycleEffect.t :=
  let n := Word.u32_saturate (attempts self + 1) in
  let attempt := nonzero n in
  (mkLifecycle (Booting attempt BootPhase.FIRST at_) n (epoch self) (streak self),
   LifecycleEffect.StartBoot attempt).

Definition duration_ms (d : Duration) : Z :=
  let ms := d / 1000000 in if ms <=? Word.u64_max then ms else Word.u64_max.

Definition bump_epoch (self : Lifecycle) : Lifecycle :=
  mkLifecycle (lc_state self) (attempts self) (Word.u64_saturate (epoch self + 1)) (streak self).

Definition fail `{Calendar} (self : Lifecycle) (attempt : Z) (report : FailureReport)
    (class : FailureClass.t) : Lifecycle :=
  let streak := Word.u32_saturate (streak self + 1) in
  let retry :=
    match class with
    | FailureClass.Backoff =>
        let delay := backoff streak in
        RetryClass.Backoff (timestamp_after (report_at report) delay) (duration_ms delay)
    | FailureClass.Hold => RetryClass.Hold
    end in
  mkLifecycle (Failed attempt report retry) (attempts self) (Word.u64_saturate (epoch self + 1)) streak.

Definition rest (self : Lifecycle) (r : StopReason.t) (since : Timestamp) : Lifecycle :=
  with_state self (Stopped r (epoch self) since).

Definition exit (self : Lifecycle) (intent : ExitIntent.t) : Lifecycle * LifecycleEffect.t :=
  (with_state self (Exiting intent), LifecycleEffect.Exit intent).

Definition settle (self : Lifecycle) (after : AfterDrain.t) (store : StoreOutcome.t) (at_ : Timestamp)
  : Lifecycle * LifecycleEffect.t :=
  match after, store with
  | AfterDrain.Exit intent, _ => exit self intent
  | AfterDrain.Stop, StoreOutcome.Released =>
      (rest (bump_epoch self) StopReason.OperatorRequest at_, LifecycleEffect.None)
  | AfterDrain.Restart, StoreOutcome.Released => begin_boot (bump_epoch self) at_
  | AfterDrain.Stop, StoreOutcome.Held cause | AfterDrain.Restart, StoreOutcome.Held cause =>
      (with_state self (Wedged cause at_), LifecycleEffect.None)
  end.

Abbreviation Stepped := (option (Lifecycle * LifecycleEffect.t)).

Definition starting (m : Lifecycle) (event : LifecycleEvent.t) : Stepped :=
  match lc_state m, event with
  | (Resolving _ | Stopped _ _ _), LifecycleEvent.Start at_
  | Failed _ _ _, (LifecycleEvent.Retry at_ | LifecycleEvent.ConfigChanged at_)
  | Failed _ _ (RetryClass.Backoff _ _), LifecycleEvent.RetryDue at_ => Some (begin_boot m at_)
  | Resolving _, LifecycleEvent.HeldAtStartup at_ =>
      Some (rest m StopReason.HeldAtStartup at_, LifecycleEffect.None)
  | _, _ => None
  end.

Definition booting `{Calendar} (m : Lifecycle) (event : LifecycleEvent.t) : Stepped :=
  match lc_state m, event with
  | Booting attempt _ _, LifecycleEvent.Phase phase at_ =>
      Some (with_state m (Booting attempt phase at_), LifecycleEffect.None)
  | Running attempt since addr _, LifecycleEvent.ConfigApplied pending =>
      Some (with_state m (Running attempt since addr pending), LifecycleEffect.None)
  | Booting attempt _ _, LifecycleEvent.Booted at_ addr =>
      Some (mkLifecycle (Running attempt at_ addr PendingApply.InSync) (attempts m) (epoch m) 0,
            LifecycleEffect.None)
  | Booting attempt _ _, LifecycleEvent.BootFailed report class store =>
      Some (match store with
            | StoreOutcome.Released => fail m attempt report class
            | StoreOutcome.Held cause => with_state m (Wedged cause (report_at report))
            end, LifecycleEffect.None)
  | _, _ => None
  end.

Definition stopping (m : Lifecycle) (event : LifecycleEvent.t) : Stepped :=
  let drain attempt after effect := Some (with_state m (Draining attempt after), effect) in
  match lc_state m, event with
  | Booting attempt _ _, LifecycleEvent.Stop _ => drain attempt AfterDrain.Stop LifecycleEffect.CancelBoot
  | Booting attempt _ _, LifecycleEvent.Restart _ => drain attempt AfterDrain.Restart LifecycleEffect.CancelBoot
  | Booting attempt _ _, LifecycleEvent.Exit intent =>
      drain attempt (AfterDrain.Exit intent) LifecycleEffect.CancelBoot
  | Running attempt _ _ _, LifecycleEvent.Stop _ =>
      drain attempt AfterDrain.Stop LifecycleEffect.ShutdownRuntime
  | Running attempt _ _ _, LifecycleEvent.Restart _ =>
      drain attempt AfterDrain.Restart LifecycleEffect.ShutdownRuntime
  | Running attempt _ _ _, LifecycleEvent.Exit intent =>
      drain attempt (AfterDrain.Exit intent) LifecycleEffect.ShutdownRuntime
  | Failed _ _ _, LifecycleEvent.Stop at_ =>
      Some (rest m StopReason.OperatorRequest at_, LifecycleEffect.None)
  | Draining _ _, LifecycleEvent.Booted _ _ => Some (m, LifecycleEffect.ShutdownRuntime)
  | Draining _ _, LifecycleEvent.Phase _ _ => Some (m, LifecycleEffect.None)
  | Draining _ after, LifecycleEvent.BootFailed report _ store =>
      Some (settle m after store (report_at report))
  | Draining _ after, LifecycleEvent.Drained at_ store => Some (settle m after store at_)
  | Draining attempt _, LifecycleEvent.Exit intent =>
      drain attempt (AfterDrain.Exit intent) LifecycleEffect.None
  | (Resolving _ | Stopped _ _ _ | Failed _ _ _ | Wedged _ _), LifecycleEvent.Exit intent =>
      Some (exit m intent)
  | _, _ => None
  end.

Definition refusal (state : LifecycleState.t) (event : LifecycleEvent.t) : RefusedBecause.t :=
  match state, event with
  | Wedged _ _, _ => RefusedBecause.Wedged
  | Running _ _ _ _, LifecycleEvent.Start _ => RefusedBecause.RuntimeRunning
  | (Booting _ _ _ | Draining _ _), LifecycleEvent.Start _
  | Draining _ _, (LifecycleEvent.Stop _ | LifecycleEvent.Restart _) => RefusedBecause.LifecycleBusy
  | Failed _ _ _, LifecycleEvent.Start _ => RefusedBecause.RuntimeNotStopped
  | _, LifecycleEvent.Retry _ => RefusedBecause.RuntimeNotFailed
  | (Resolving _ | Stopped _ _ _), (LifecycleEvent.Stop _ | LifecycleEvent.Restart _)
  | Failed _ _ _, LifecycleEvent.Restart _
  | _, LifecycleEvent.ConfigApplied _ => RefusedBecause.RuntimeNotRunning
  | _, _ => RefusedBecause.Unexpected
  end.

Definition lifecycle_step `{Calendar} (m : Lifecycle) (event : LifecycleEvent.t)
  : result (Lifecycle * LifecycleEffect.t) Refused :=
  match starting m event with
  | Some out => Ok out
  | None =>
      match booting m event with
      | Some out => Ok out
      | None =>
          match stopping m event with
          | Some out => Ok out
          | None => Err (mkRefused (LifecycleState.name (lc_state m)) (LifecycleEvent.name event)
                           (refusal (lc_state m) event))
          end
      end
  end.

Definition lifecycle_terminal (m : Lifecycle) : bool :=
  match lc_state m with Exiting _ => true | _ => false end.

#[global] Instance DaemonLifecycle `{Calendar} :
    StateMachine Lifecycle LifecycleEvent.t LifecycleEffect.t Refused := {
  initial := lifecycle_at;
  machine_step := lifecycle_step;
  is_terminal := lifecycle_terminal
}.

(** ** Lemmas *)

Lemma backoff_spec n : 1 <= n -> backoff n = Z.min (from_secs (2 ^ (n - 1))) (from_secs 60).
Proof.
  intros Hn. unfold backoff, BACKOFF_FLOOR, BACKOFF_CAP, from_secs. rewrite Z.shiftl_1_l.
  destruct (decide (n - 1 <= 16)) as [Hs | Hs].
  - replace (Z.min (Z.max 0 (n - 1)) 16) with (n - 1) by lia. lia.
  - replace (Z.min (Z.max 0 (n - 1)) 16) with 16 by lia.
    assert (2 ^ 16 <= 2 ^ (n - 1)) by (apply Z.pow_le_mono_r; lia). simpl. lia.
Qed.

(** The events an operator's request becomes. *)
Definition operator_event (e : LifecycleEvent.t) : bool :=
  match e with
  | LifecycleEvent.Start _ | LifecycleEvent.Stop _ | LifecycleEvent.Restart _
  | LifecycleEvent.Retry _ | LifecycleEvent.Exit _ => true
  | _ => false
  end.

Definition resting (s : LifecycleState.t) : bool :=
  match s with Stopped _ _ _ | Failed _ _ _ => true | _ => false end.

Section Facts.
Context `{Calendar}.

(** Until the process is ending, an operator is told why a request is refused,
    and an exit never is. *)
Lemma operator_refusals_typed m e r :
  lifecycle_terminal m = false -> operator_event e = true -> lifecycle_step m e = Err r ->
  reason r <> RefusedBecause.Unexpected /\ forall intent, e <> LifecycleEvent.Exit intent.
Proof.
  destruct m as [s a ep k]. unfold lifecycle_terminal, lifecycle_step. simpl.
  destruct s, e; simpl; try done; intros _ _ Hr;
    repeat (case_match; simpl in Hr); simplify_eq; simpl; done.
Qed.

(** The outcome of a stream of events: the boots it started and where it ended. *)
Definition boot_started (ef : LifecycleEffect.t) : bool :=
  match ef with LifecycleEffect.StartBoot _ => true | _ => false end.

Fixpoint lifecycle_run (m : Lifecycle) (booted : bool) (evs : list LifecycleEvent.t) : bool * Lifecycle :=
  match evs with
  | [] => (booted, m)
  | e :: evs =>
      match lifecycle_step m e with
      | Ok (m', ef) => lifecycle_run m' (booted || boot_started ef) evs
      | Err _ => lifecycle_run m booted evs
      end
  end.

(** What one step does to the epoch: leaving the store for rest costs one. *)
Lemma step_moves m e m' ef :
  0 <= epoch m < Word.u64_max -> lifecycle_step m e = Ok (m', ef) ->
  epoch m <= epoch m' <= epoch m + 1 /\
  (boot_started ef = true -> LifecycleState.may_hold_store (lc_state m') = true) /\
  (LifecycleState.may_hold_store (lc_state m) = true -> resting (lc_state m') = true ->
     epoch m' = epoch m + 1) /\
  (LifecycleState.may_hold_store (lc_state m) = true ->
     LifecycleState.may_hold_store (lc_state m') = true \/ resting (lc_state m') = true \/
     lifecycle_terminal m' = true).
Proof.
  destruct m as [s a ep k]. simpl. intros Hep.
  assert (Word.u64_saturate (ep + 1) = ep + 1) as Hsat by (apply Word.saturate_small; lia).
  unfold lifecycle_step. destruct s, e; simpl; try done;
    try (destruct after, store; simpl; try rewrite Hsat); try (destruct retry; simpl);
    try (destruct store; simpl; try rewrite Hsat); try (destruct class; simpl);
    intros [= <- <-]; simpl; split_and!; try lia; auto; try done.
Qed.
Lemma run_epoch e0 evs m booted b m' :
  0 <= e0 <= epoch m -> epoch m + Z.of_nat (length evs) < Word.u64_max ->
  (booted = true -> LifecycleState.may_hold_store (lc_state m) = true \/
     lifecycle_terminal m = true \/ e0 < epoch m) ->
  lifecycle_run m booted evs = (b, m') -> b = true -> resting (lc_state m') = true -> e0 < epoch m'.
Proof.
  revert m booted. induction evs as [|e evs IH]; intros m booted He Hmax Hb; simpl.
  - intros [= <- <-] Hbt Hr. specialize (Hb Hbt). unfold lifecycle_terminal in Hb.
    destruct (lc_state m); simpl in *; naive_solver.
  - simpl in Hmax. destruct (lifecycle_step m e) as [[m1 ef] | r] eqn:E; [| apply IH; auto; lia].
    destruct (step_moves m e m1 ef) as (Hep & Hboot & Hrest & Hhold); [lia | done |].
    apply IH; [lia | lia |]. intros Hbt.
    destruct (boot_started ef) eqn:Ef; [left; auto |].
    rewrite orb_false_r in Hbt. destruct (Hb Hbt) as [Hm | [Hm | Hm]]; [| | right; right; lia].
    + destruct (Hhold Hm) as [? | [? | ?]]; [by left | right; right; rewrite Hrest by done; lia | auto].
    + exfalso. clear -E Hm. destruct m as [s a ep k]. unfold lifecycle_terminal in Hm. simpl in Hm.
      by destruct s.
Qed.

(** A confirmation bound to a stop epoch is stale after any boot: from rest,
    however the events that follow run, if a boot was started in between and the
    daemon is at rest again then its epoch has grown. *)
Theorem epoch_stales_confirmation m evs m' :
  resting (lc_state m) = true -> 0 <= epoch m -> epoch m + Z.of_nat (length evs) < Word.u64_max ->
  lifecycle_run m false evs = (true, m') -> resting (lc_state m') = true ->
  epoch m < epoch m'.
Proof.
  intros Hr He Hmax Hrun Hr'. by apply (run_epoch (epoch m) evs m false true m').
Qed.

End Facts.

#[local] Instance sample_calendar : Calendar := 8210266876799999999999.

Definition sample_stopped : Lifecycle := mkLifecycle (Stopped StopReason.OperatorRequest 4 0) 1 4 0.

Definition failing_boot : list LifecycleEvent.t :=
  [LifecycleEvent.Start 1;
   LifecycleEvent.BootFailed (mkReport BootPhase.BindApiserver "in use" 2) FailureClass.Backoff StoreOutcome.Released].

Lemma epoch_stales_confirmation_witness :
  4 < epoch (lifecycle_run sample_stopped false failing_boot).2.
Proof.
  apply (epoch_stales_confirmation sample_stopped failing_boot);
    [reflexivity | vm_compute; discriminate | vm_compute; reflexivity | vm_compute; reflexivity | vm_compute; reflexivity].
Defined.

Lemma replay_rebuilds_witness :
  let r := drive (fun n => n) (from_state sample_stopped) (LifecycleEvent.Retry 0 :: failing_boot) in
  (replay_into (fun n => n) (from_state sample_stopped) (cursor_new (map transition_event (history r)))).1.2 = r.
Proof.
  cbv zeta. rewrite (replay_rebuilds (fun n => n) sample_stopped (LifecycleEvent.Retry 0 :: failing_boot));
    [reflexivity | vm_compute; discriminate].
Defined.
