(* ===== verification/Journal.v ===== *)
(** * What the daemon remembers of its boots

    [engenho-runtime/src/lifecycle/journal.rs]: the boot journal, timed on the
    monotonic clock it is handed, the run marker and what the next process reads
    from it, and the identity recorded at first boot.  The file is what serde
    reads back: a version and the attempts. *)

From stdpp Require Import base tactics option list strings numbers.
From S2P Require Import Prelude Maquina Backoff Lifecycle.

Local Open Scope Z_scope.

Module PhaseResult.
Inductive t : Type :=
  | InProgress
  | Completed (elapsed_ms : Z)
  | Failed (elapsed_ms : Z) (error : string)
  | Cancelled (elapsed_ms : Z).

Definition in_progress (self : t) : bool := match self with InProgress => true | _ => false end.
End PhaseResult.

Record PhaseRecord : Type := mkPhaseRecord {
  record_phase : BootPhase.t;
  record_started_at : Timestamp;
  record_result : PhaseResult.t
}.

Module BootKindObservation.
Inductive t : Type :=
  | NotYetKnown
  | Known (kind : BootKind.t).
End BootKindObservation.

Module AttemptResult.
Inductive t : Type := InProgress | Succeeded | Failed | Cancelled.

#[global] Instance t_eq_dec : EqDecision t.
Proof. solve_decision. Defined.
End AttemptResult.

Record BootAttempt : Type := mkBootAttempt {
  attempt : Z;
  started_at : Timestamp;
  kind : BootKindObservation.t;
  attempt_result : AttemptResult.t;
  phases : list PhaseRecord
}.

Record BootJournal : Type := mkJournal {
  journal_attempts : list BootAttempt;
  phase_began : option Instant
}.

Record JournalFile : Type := mkJournalFile { version : Z; file_attempts : list BootAttempt }.

Definition JOURNAL_VERSION : Z := 1.
Definition CAP : nat := 16.

(** [None] where there is no file, or none that parses. *)
Definition from_bytes (file : option JournalFile) : BootJournal :=
  mkJournal
    match file with
    | Some file => if version file =? JOURNAL_VERSION then file_attempts file else []
    | None => []
    end None.

Definition to_bytes (self : BootJournal) : JournalFile :=
  mkJournalFile JOURNAL_VERSION (journal_attempts self).

Definition latest (self : BootJournal) : option BootAttempt := list.last (journal_attempts self).

(** [attempts.back_mut()]: change the last attempt, if there is one. *)
Definition on_back (f : BootAttempt -> BootAttempt) (l : list BootAttempt) : list BootAttempt :=
  match list.last l with
  | Some a => (removelast l ++ [f a])%list
  | None => l
  end.

(** [phases.last_mut()] when it is still in progress. *)
Definition close_last (r : PhaseResult.t) (l : list PhaseRecord) : list PhaseRecord :=
  match list.last l with
  | Some p =>
      if PhaseResult.in_progress (record_result p)
      then (removelast l ++ [mkPhaseRecord (record_phase p) (record_started_at p) r])%list else l
  | None => l
  end.

Definition with_phases (a : BootAttempt) (l : list PhaseRecord) : BootAttempt :=
  mkBootAttempt (attempt a) (started_at a) (kind a) (attempt_result a) l.

(** The lap: milliseconds since the phase began, and the clock restarted. *)
Definition lap (self : BootJournal) (now : Instant) : Z * BootJournal :=
  (match phase_began self with
   | Some began => duration_ms (since now began)
   | None => 0
   end, mkJournal (journal_attempts self) (Some now)).

Definition journal_begin (self : BootJournal) (n : Z) (at_ : Timestamp) : BootJournal :=
  let kept := if (length (journal_attempts self) =? CAP)%nat then tail (journal_attempts self)
              else journal_attempts self in
  mkJournal (kept ++ [mkBootAttempt n at_ BootKindObservation.NotYetKnown AttemptResult.InProgress []])%list
    None.

Definition entered (self : BootJournal) (now : Instant) (phase : BootPhase.t) (at_ : Timestamp)
  : BootJournal :=
  let '(elapsed, self) := lap self now in
  mkJournal (on_back (fun current =>
    with_phases current (close_last (PhaseResult.Completed elapsed) (phases current) ++
      [mkPhaseRecord phase at_ PhaseResult.InProgress])%list) (journal_attempts self)) (phase_began self).

Definition observed (self : BootJournal) (k : BootKind.t) : BootJournal :=
  mkJournal (on_back (fun a => mkBootAttempt (attempt a) (started_at a) (BootKindObservation.Known k)
    (attempt_result a) (phases a)) (journal_attempts self)) (phase_began self).

Definition close (self : BootJournal) (now : Instant) (r : AttemptResult.t)
    (last : Z -> PhaseResult.t) : BootJournal :=
  let '(elapsed, self) := lap self now in
  match latest self with
  | None => self
  | Some current =>
      if negb (eqb (attempt_result current) AttemptResult.InProgress) then self
      else mkJournal (on_back (fun a => mkBootAttempt (attempt a) (started_at a) (kind a) r
             (close_last (last elapsed) (phases a))) (journal_attempts self)) None
  end.

Definition journal_succeeded (self : BootJournal) (now : Instant) : BootJournal :=
  close self now AttemptResult.Succeeded PhaseResult.Completed.

Definition journal_failed (self : BootJournal) (now : Instant) (error : string) : BootJournal :=
  close self now AttemptResult.Failed (fun ms => PhaseResult.Failed ms error).

Definition journal_cancelled (self : BootJournal) (now : Instant) : BootJournal :=
  close self now AttemptResult.Cancelled PhaseResult.Cancelled.

Module LastSeen.
Inductive t : Type :=
  | Booting (phase : BootPhase.t)
  | Running
  | Draining.

#[global] Instance t_eq_dec : EqDecision t.
Proof. solve_decision. Defined.
End LastSeen.

Module RunMarker.
Inductive t : Type :=
  | Live (last_seen : LastSeen.t) (pid : Z)
  | Released (at_ : Timestamp).

#[global] Instance t_eq_dec : EqDecision t.
Proof. unfold Timestamp. solve_decision. Defined.
End RunMarker.

Module PreviousRun.
Inductive t : Type :=
  | FirstEver
  | CleanStop (at_ : Timestamp)
  | Unclean (last_seen : LastSeen.t).

Definition from_marker (marker : option RunMarker.t) : t :=
  match marker with
  | None => FirstEver
  | Some (RunMarker.Released at_) => CleanStop at_
  | Some (RunMarker.Live last_seen _) => Unclean last_seen
  end.
End PreviousRun.

Record IdentityRecord : Type := mkIdentity {
  cluster_name : string;
  node_name : string;
  recorded_at : Timestamp
}.

(** ** Lemmas *)

Lemma on_back_length f l : length (on_back f l) = length l.
Proof.
  unfold on_back. destruct (list.last l) as [a |] eqn:E; [| done].
  apply last_Some in E as [l' ->]. rewrite removelast_last, !length_app. done.
Qed.

Lemma on_back_app f l a : on_back f (l ++ [a])%list = (l ++ [f a])%list.
Proof. unfold on_back. by rewrite last_snoc, removelast_last. Qed.

(** A journal a daemon can hold: no more attempts than are kept, and in each every
    phase but the last has ended. *)
Definition attempt_ok (a : BootAttempt) : Prop :=
  forall l p, phases a = (l ++ [p])%list ->
    Forall (fun r => PhaseResult.in_progress (record_result r) = false) l.

Definition journal_ok (j : BootJournal) : Prop :=
  (length (journal_attempts j) <= CAP)%nat /\ Forall attempt_ok (journal_attempts j).

Lemma on_back_ok f l : (forall a, attempt_ok a -> attempt_ok (f a)) ->
  Forall attempt_ok l -> Forall attempt_ok (on_back f l).
Proof.
  intros Hf Hl. unfold on_back. destruct (list.last l) as [a |] eqn:E; [| done].
  apply last_Some in E as [l' ->]. rewrite removelast_last.
  apply Forall_app in Hl as [Hl Ha]. apply Forall_app. split; [done |].
  constructor; [| done]. apply Hf. by inversion Ha.
Qed.

Lemma close_last_ended r l :
  PhaseResult.in_progress r = false ->
  (forall k p, l = (k ++ [p])%list -> Forall (fun r => PhaseResult.in_progress (record_result r) = false) k) ->
  Forall (fun r => PhaseResult.in_progress (record_result r) = false) (close_last r l).
Proof.
  intros Hr Hl. unfold close_last. destruct (list.last l) as [p |] eqn:E.
  - apply last_Some in E as [k ->]. specialize (Hl k p eq_refl).
    destruct (PhaseResult.in_progress (record_result p)) eqn:Ep.
    + rewrite removelast_last. apply Forall_app. split; [done |]. by repeat constructor.
    + apply Forall_app. split; [done |]. by repeat constructor.
  - apply last_None in E. by subst.
Qed.

Lemma ended_ok a : Forall (fun r => PhaseResult.in_progress (record_result r) = false) (phases a) -> attempt_ok a.
Proof. intros HF l p Hp. rewrite Hp in HF. by apply Forall_app in HF as [? _]. Qed.

Lemma entered_ok j now p t : journal_ok j -> journal_ok (entered j now p t).
Proof.
  intros [Hlen Hok]. unfold entered, lap, journal_ok. simpl. rewrite on_back_length. split; [done |].
  apply on_back_ok; [| done]. intros a Ha l q Hq. simpl in Hq.
  apply app_inj_tail in Hq as [<- <-]. by apply close_last_ended.
Qed.

Lemma observed_ok j k : journal_ok j -> journal_ok (observed j k).
Proof.
  intros [Hlen Hok]. unfold observed, journal_ok. simpl. rewrite on_back_length. split; [done |].
  by apply on_back_ok.
Qed.

Lemma close_ok j now r last :
  (forall ms, PhaseResult.in_progress (last ms) = false) -> journal_ok j -> journal_ok (close j now r last).
Proof.
  intros Hlast [Hlen Hok]. unfold close, lap. simpl.
  destruct (latest _); [| done]. destruct (negb _); [done |]. unfold journal_ok. simpl.
  rewrite on_back_length. split; [done |]. apply on_back_ok; [| done].
  intros a Ha. apply ended_ok. simpl. by apply close_last_ended.
Qed.

Lemma journal_begin_ok j n t : journal_ok j -> journal_ok (journal_begin j n t).
Proof.
  intros [Hlen Hok]. unfold journal_begin, journal_ok. simpl. split.
  - rewrite length_app. simpl. destruct (_ =? _)%nat eqn:E.
    + apply Nat.eqb_eq in E. destruct (journal_attempts j); simpl in *; unfold CAP in *; lia.
    + apply Nat.eqb_neq in E. lia.
  - apply Forall_app. split; [| repeat constructor; intros l p Hp; by destruct l].
    destruct (_ =? _)%nat; [| done]. destruct (journal_attempts j); [done |]. by inversion Hok.
Qed.
