(* ===== verification/Supervisor.v ===== *)
(** * The supervisor: the daemon above the runtime

    [engenho-runtime/src/lifecycle/supervisor.rs]: one loop over requests, the
    slot's own events, the retry timer and the declared file, each of which
    becomes a lifecycle event; the machine decides and the supervisor performs
    the effect it returns.

    A task is what it can still report: a boot in flight is a slot that a
    [BootDone] ends, whose outcome is the input's; a runtime is what the
    supervisor reads of it.  The control directory is the four files it keeps
    ([control_dir.rs]); [io n] says whether the [n]-th write of the process reaches
    it.  An input carries the one clock reading its handler uses.  Replies are
    recorded in [answered]; the messages logged at ERROR for what cannot happen are
    recorded in [faults]. *)

From stdpp Require Import base tactics option list strings numbers pretty.
From S2P Require Import Prelude Maquina Ring Backoff Lifecycle Journal.

Local Open Scope string_scope.
Local Open Scope Z_scope.

Module Hold.
Inductive t : Type := None | AcrossRelaunch.
End Hold.

(** A runtime, as far as the supervisor reads it. *)
Record Runtime : Type := mkRuntime {
  local_addr : string;
  boot_kind : BootKind.t;
  config_cluster : string;
  config_node : string
}.

Record Running : Type := mkRunning { runtime : Runtime; declared_digest : option string }.

Module Slot.
Inductive t : Type :=
  | Idle (released : option StoreReleased)
  | Booting (cancelled : bool)
  | Up (running : Running)
  | Draining
  | Wedged.
End Slot.

(** [BootOutcome]; the provenance it carries is only shown. *)
Record BootOutcome : Type := mkOutcome {
  outcome_result : result Runtime BootFailed;
  outcome_digest : option string
}.

Module BootProgress.
Inductive t : Type :=
  | Entered (phase : BootPhase.t) (at_ : Timestamp)
  | Kind (kind : BootKind.t).
End BootProgress.

(** A task that ended abnormally is the text of its [JoinError]. *)
Module SlotEvent.
Inductive t : Type :=
  | Progress (progress : BootProgress.t)
  | BootDone (done : result BootOutcome string)
  | Drained (done : result (result StoreReleased RuntimeError.t) string)
  | ChildDied (child cause : string).
End SlotEvent.

Module DaemonEvent.
Inductive t : Type :=
  | Lifecycle (state : LifecycleState.t)
  | BootPhase (attempt : Z) (record : PhaseRecord)
  | ChildDied (child cause : string)
  | ChildRespawned (child : string) (generation : Z)
  | ReinitExecuted (operation : string)
  | ConfigApplied (generation : Z) (leaves : list string) (effect : string)
  | KubeconfigPublished (record : string).
End DaemonEvent.

Record DaemonInfo : Type := mkDaemon { daemon_version : string; pid : Z; daemon_started_at : Timestamp }.

Record Snapshot : Type := mkSnapshot {
  snap_lifecycle : LifecycleState.t;
  snap_epoch : Z;
  snap_attempts : list BootAttempt;
  snap_previous_run : PreviousRun.t;
  snap_identity : option IdentityRecord
}.

Record StopDone : Type := mkStopDone { stop_epoch : Z; stop_lifecycle : LifecycleState.t }.

(** [control_dir.rs]: the files of [data_dir/control]. *)
Record ControlDir : Type := mkControlDir {
  file_run : option RunMarker.t;
  file_journal : option JournalFile;
  file_identity : option IdentityRecord;
  file_hold : bool
}.

Definition set_run (c : ControlDir) (m : RunMarker.t) : ControlDir :=
  mkControlDir (Some m) (file_journal c) (file_identity c) (file_hold c).
Definition set_journal (c : ControlDir) (j : JournalFile) : ControlDir :=
  mkControlDir (file_run c) (Some j) (file_identity c) (file_hold c).
Definition set_identity (c : ControlDir) (i : IdentityRecord) : ControlDir :=
  mkControlDir (file_run c) (file_journal c) (Some i) (file_hold c).
Definition set_hold (c : ControlDir) (b : bool) : ControlDir :=
  mkControlDir (file_run c) (file_journal c) (file_identity c) b.

Record Supervisor : Type := mkSupervisor {
  machine : MachineRunner Lifecycle LifecycleEvent.t;
  slot : Slot.t;
  journal : BootJournal;
  marker : RunMarker.t;
  previous_run : PreviousRun.t;
  identity : option IdentityRecord;
  daemon : DaemonInfo;
  retry : option (Z * Z);
  pending_stops : list nat;
  snapshot : Snapshot;
  events : Ring DaemonEvent.t;
  declared_path : option string;
  control : ControlDir;
  writes : nat;
  answered : list (nat * StopDone);
  faults : list string
}.

Definition lifecycle (self : Supervisor) : LifecycleState.t := lc_state (state (machine self)).
Definition sup_epoch (self : Supervisor) : Z := epoch (state (machine self)).

(** ** Field updates *)

Definition set_machine (s : Supervisor) m := mkSupervisor m (slot s) (journal s) (marker s) (previous_run s) (identity s) (daemon s) (retry s) (pending_stops s) (snapshot s) (events s) (declared_path s) (control s) (writes s) (answered s) (faults s).
Definition set_slot (s : Supervisor) x := mkSupervisor (machine s) x (journal s) (marker s) (previous_run s) (identity s) (daemon s) (retry s) (pending_stops s) (snapshot s) (events s) (declared_path s) (control s) (writes s) (answered s) (faults s).
Definition with_journal (s : Supervisor) x := mkSupervisor (machine s) (slot s) x (marker s) (previous_run s) (identity s) (daemon s) (retry s) (pending_stops s) (snapshot s) (events s) (declared_path s) (control s) (writes s) (answered s) (faults s).
Definition set_marker (s : Supervisor) x := mkSupervisor (machine s) (slot s) (journal s) x (previous_run s) (identity s) (daemon s) (retry s) (pending_stops s) (snapshot s) (events s) (declared_path s) (control s) (writes s) (answered s) (faults s).
Definition with_identity (s : Supervisor) x := mkSupervisor (machine s) (slot s) (journal s) (marker s) (previous_run s) x (daemon s) (retry s) (pending_stops s) (snapshot s) (events s) (declared_path s) (control s) (writes s) (answered s) (faults s).
Definition set_retry (s : Supervisor) x := mkSupervisor (machine s) (slot s) (journal s) (marker s) (previous_run s) (identity s) (daemon s) x (pending_stops s) (snapshot s) (events s) (declared_path s) (control s) (writes s) (answered s) (faults s).
Definition set_stops (s : Supervisor) x a := mkSupervisor (machine s) (slot s) (journal s) (marker s) (previous_run s) (identity s) (daemon s) (retry s) x (snapshot s) (events s) (declared_path s) (control s) (writes s) a (faults s).
Definition set_snapshot (s : Supervisor) x e := mkSupervisor (machine s) (slot s) (journal s) (marker s) (previous_run s) (identity s) (daemon s) (retry s) (pending_stops s) x e (declared_path s) (control s) (writes s) (answered s) (faults s).
Definition set_control (s : Supervisor) c n := mkSupervisor (machine s) (slot s) (journal s) (marker s) (previous_run s) (identity s) (daemon s) (retry s) (pending_stops s) (snapshot s) (events s) (declared_path s) c n (answered s) (faults s).
Definition fault (s : Supervisor) (text : string) := mkSupervisor (machine s) (slot s) (journal s) (marker s) (previous_run s) (identity s) (daemon s) (retry s) (pending_stops s) (snapshot s) (events s) (declared_path s) (control s) (writes s) (answered s) (faults s ++ [text])%list.

(** [Reconfigure] carries what resolving the configuration and the running runtime's
    adoption of it gave: the events to publish and the leaves still pending, or
    why not.  [Inspect], [Republish], [RestartChild] and [Reinit] change nothing
    of the lifecycle. *)
Module Request.
Inductive t : Type :=
  | Start
  | Stop (hold : Hold.t) (reply : nat)
  | Restart
  | Retry
  | Exit (intent : ExitIntent.t)
  | Reconfigure (restart_now : bool) (adopted : result (list DaemonEvent.t * list string) string).
End Request.

Module ReinitRefused.
Inductive t : Type :=
  | NotStopped
  | EpochMoved (bound now : Z)
  | StoreHeld (text : string).
End ReinitRefused.

Module Input.
Inductive t : Type :=
  | Request (r : Request.t)
  | Slot (file : option string) (e : SlotEvent.t)
  | RetryDue
  | DeclaredChanged.
End Input.

Section Supervisor.
Context `{Calendar} `{ErrorText}.

(** Whether each write of the process reaches the disk. *)
Variable io : nat -> bool.

(** One write of a control file: a failed one is logged and the file stays. *)
Definition write (self : Supervisor) (f : ControlDir -> ControlDir) : Supervisor :=
  set_control self (if io (writes self) then f (control self) else control self) (S (writes self)).

Definition push_event (self : Supervisor) (now : Timestamp) (e : DaemonEvent.t) : Supervisor :=
  set_snapshot self (snapshot self) (push (events self) now e).2.

Definition persist_journal (self : Supervisor) : Supervisor :=
  write self (fun c => set_journal c (to_bytes (journal self))).

Definition publish_phases (self : Supervisor) (now : Timestamp) (n : nat) : Supervisor :=
  match latest (journal self) with
  | None => self
  | Some a =>
      fold_left (fun s r => push_event s now (DaemonEvent.BootPhase (attempt a) r))
        (drop (length (phases a) - n) (phases a)) self
  end.

(** ** After a transition *)

Definition sync_retry_timer (self : Supervisor) : Supervisor :=
  match lifecycle self with
  | LifecycleState.Failed attempt _ (RetryClass.Backoff _ delay_ms) =>
      if eqb (option_map fst (retry self)) (Some attempt) then self
      else set_retry self (Some (attempt, delay_ms))
  | _ => set_retry self None
  end.

Definition slot_wedged (s : Slot.t) : bool := match s with Slot.Wedged => true | _ => false end.

Definition marker_released (m : RunMarker.t) : bool :=
  match m with RunMarker.Released _ => true | _ => false end.

(** The marker the state asks for; [None] keeps the one there is. *)
Definition wanted_marker (self : Supervisor) (now : Timestamp) : option RunMarker.t :=
  let live seen := Some (RunMarker.Live seen (pid (daemon self))) in
  let released := if marker_released (marker self) then None else Some (RunMarker.Released now) in
  match lifecycle self with
  | LifecycleState.Booting _ phase _ => live (LastSeen.Booting phase)
  | LifecycleState.Running _ _ _ _ => live LastSeen.Running
  | LifecycleState.Draining _ _ => live LastSeen.Draining
  | LifecycleState.Wedged _ _ => None
  | LifecycleState.Exiting _ => if slot_wedged (slot self) then None else released
  | LifecycleState.Resolving _ | LifecycleState.Stopped _ _ _ | LifecycleState.Failed _ _ _ => released
  end.

Definition sync_run_marker (self : Supervisor) (now : Timestamp) : Supervisor :=
  match wanted_marker self now with
  | None => self
  | Some wanted =>
      if negb (eqb wanted (marker self))
      then set_marker (write self (fun c => set_run c wanted)) wanted
      else self
  end.

Definition answer_stops (self : Supervisor) : Supervisor :=
  match lifecycle self with
  | LifecycleState.Draining _ _ => self
  | s => set_stops self []
           (answered self ++ map (fun r => (r, mkStopDone (sup_epoch self) s)) (pending_stops self))%list
  end.

Definition publish (self : Supervisor) (now : Timestamp) : Supervisor :=
  let self :=
    if negb (eqb (snap_lifecycle (snapshot self)) (lifecycle self))
    then push_event self now (DaemonEvent.Lifecycle (lifecycle self)) else self in
  set_snapshot self (mkSnapshot (lifecycle self) (sup_epoch self) (journal_attempts (journal self))
    (previous_run self) (identity self)) (events self).

Definition after_transition (self : Supervisor) (now : Timestamp) : Supervisor :=
  publish (answer_stops (sync_run_marker (sync_retry_timer self) now)) now.

(** ** Performing an effect *)

Definition start_boot (self : Supervisor) (now : Timestamp) (n : Z) : Supervisor :=
  match slot self with
  | Slot.Idle _ =>
      let self := set_slot self (Slot.Booting false) in
      let since := match lifecycle self with LifecycleState.Booting _ _ since => since | _ => now end in
      persist_journal (with_journal self (journal_begin (journal self) n since))
  | _ => fault (set_slot self (Slot.Idle None)) "the lifecycle started a boot while the slot was not idle"
  end.

Definition perform (self : Supervisor) (now : Timestamp) (effect : LifecycleEffect.t) : Supervisor :=
  match effect with
  | LifecycleEffect.None | LifecycleEffect.Exit _ => self
  | LifecycleEffect.StartBoot attempt => start_boot self now attempt
  | LifecycleEffect.CancelBoot =>
      match slot self with Slot.Booting _ => set_slot self (Slot.Booting true) | _ => self end
  | LifecycleEffect.ShutdownRuntime =>
      match slot self with
      | Slot.Up _ => set_slot self Slot.Draining
      | _ => fault self "the lifecycle asked to stop a runtime that is not up"
      end
  end.

Definition apply (self : Supervisor) (now : Timestamp) (event : LifecycleEvent.t)
  : Supervisor * result unit Refused :=
  match runner_step (machine self) now event with
  | Ok (effect, m) => (after_transition (perform (set_machine self m) now effect) now, Ok tt)
  | Err (MachineError.Step refused) => (self, Err refused)
  | Err MachineError.Terminal =>
      (self, Err (mkRefused (LifecycleState.name (lifecycle self)) (LifecycleEvent.name event)
                    RefusedBecause.Unexpected))
  end.

Definition apply_logged (self : Supervisor) (now : Timestamp) (event : LifecycleEvent.t) : Supervisor :=
  (apply self now event).1.

(** ** What the slot reports *)

Definition record_identity (self : Supervisor) (rt : Runtime) (now : Timestamp) : Supervisor :=
  let i := mkIdentity (config_cluster rt) (config_node rt) now in
  with_identity (write self (fun c => set_identity c i)) (Some i).

(** What the unwind of a failed boot leaves in the slot and says of the store. *)
Definition unwound (u : BootUnwind.t) : Slot.t * StoreOutcome.t :=
  match u with
  | BootUnwind.NeverOpened => (Slot.Idle None, StoreOutcome.Released)
  | BootUnwind.Released released => (Slot.Idle (Some released), StoreOutcome.Released)
  | BootUnwind.StillShared strong_count =>
      (Slot.Wedged, StoreOutcome.Held (pretty strong_count ++
         " holders of the store remained after the failed boot unwound"))
  | BootUnwind.TerminateFailed err =>
      (Slot.Wedged, StoreOutcome.Held ("terminating the failed boot's store failed: " ++ error_text err))
  end.

Definition is_cancelled_error (e : RuntimeError.t) : bool :=
  match e with RuntimeError.BootCancelled _ => true | _ => false end.

Definition boot_done_event (self : Supervisor) (now : Timestamp) (done : result BootOutcome string)
  : Supervisor * LifecycleEvent.t :=
  match done with
  | Ok outcome =>
      match outcome_result outcome with
      | Ok rt =>
          let self := match boot_kind rt with
                      | BootKind.FirstBoot => record_identity self rt now
                      | _ => self
                      end in
          let self := with_journal self (journal_succeeded (journal self) now) in
          let self := publish_phases self now 1 in
          (set_slot self (Slot.Up (mkRunning rt (outcome_digest outcome))),
           LifecycleEvent.Booted now (local_addr rt))
      | Err failed =>
          let error := failed_error failed in
          let '(slot, store) := unwound (failed_unwind failed) in
          let self := set_slot self slot in
          let self := with_journal self
            (if is_cancelled_error error then journal_cancelled (journal self) now
             else journal_failed (journal self) now (error_text error)) in
          (publish_phases self now 1,
           LifecycleEvent.BootFailed (mkReport (failed_phase failed) (error_text error) now)
             (FailureClass.classify error) store)
      end
  | Err join =>
      let phase := match lifecycle self with
                   | LifecycleState.Booting _ phase _ => phase
                   | _ => BootPhase.FIRST
                   end in
      let rendered := "the boot task ended abnormally: " ++ join in
      let self := with_journal self (journal_failed (journal self) now rendered) in
      (set_slot self Slot.Wedged,
       LifecycleEvent.BootFailed (mkReport phase rendered now) FailureClass.Hold
         (StoreOutcome.Held "the boot task panicked"))
  end.

(** [file] is the digest of the declared file at this moment. *)
Definition resettle_declared (self : Supervisor) (now : Timestamp) (read_by_attempt file : option string)
  : Supervisor :=
  match declared_path self with
  | None => self
  | Some _ =>
      if negb (eqb file read_by_attempt) then apply_logged self now (LifecycleEvent.ConfigChanged now)
      else self
  end.

Definition on_boot_done (self : Supervisor) (now : Timestamp) (file : option string)
    (done : result BootOutcome string) : Supervisor :=
  let read_by_attempt := match done with Ok outcome => outcome_digest outcome | Err _ => None end in
  let '(self, event) := boot_done_event self now done in
  let self := apply_logged (persist_journal self) now event in
  match lifecycle self with
  | LifecycleState.Failed _ _ _ => resettle_declared self now read_by_attempt file
  | _ => self
  end.

Definition on_drained (self : Supervisor) (now : Timestamp)
    (done : result (result StoreReleased RuntimeError.t) string) : Supervisor :=
  let '(slot, store) :=
    match done with
    | Ok (Ok released) => (Slot.Idle (Some released), StoreOutcome.Released)
    | Ok (Err err) => (Slot.Wedged, StoreOutcome.Held (error_text err))
    | Err join => (Slot.Wedged, StoreOutcome.Held ("the runtime's stop ended abnormally: " ++ join))
    end in
  apply_logged (set_slot self slot) now (LifecycleEvent.Drained now store).

Definition on_slot_event (self : Supervisor) (now : Timestamp) (file : option string) (e : SlotEvent.t)
  : Supervisor :=
  match e with
  | SlotEvent.Progress (BootProgress.Entered phase at_) =>
      let self := persist_journal (with_journal self (entered (journal self) now phase at_)) in
      apply_logged (publish_phases self now 2) now (LifecycleEvent.Phase phase at_)
  | SlotEvent.Progress (BootProgress.Kind k) =>
      persist_journal (with_journal self (observed (journal self) k))
  | SlotEvent.BootDone done => on_boot_done self now file done
  | SlotEvent.Drained done => on_drained self now done
  | SlotEvent.ChildDied child cause => push_event self now (DaemonEvent.ChildDied child cause)
  end.

(** ** Requests *)

Definition write_hold (self : Supervisor) (hold : Hold.t) : Supervisor :=
  write self (fun c => set_hold c match hold with Hold.None => false | Hold.AcrossRelaunch => true end).

Definition reconfigure (self : Supervisor) (now : Timestamp) (restart_now : bool)
    (adopted : result (list DaemonEvent.t * list string) string) : Supervisor :=
  match lifecycle self with
  | LifecycleState.Running _ _ _ _ =>
      match adopted, slot self with
      | Ok (published, pending), Slot.Up _ =>
          let self := fold_left (fun s e => push_event s now e) published self in
          let self := apply_logged self now (LifecycleEvent.ConfigApplied
            match pending with [] => PendingApply.InSync | _ => PendingApply.RestartNeeded pending end) in
          if restart_now && negb match pending with [] => true | _ => false end
          then (apply self now (LifecycleEvent.Restart now)).1 else self
      | _, _ => self
      end
  | LifecycleState.Failed _ _ RetryClass.Hold => apply_logged self now (LifecycleEvent.ConfigChanged now)
  | _ => self
  end.

(** A request and what its caller is told now; a stop that is accepted is
    answered by [answer_stops]. *)
Definition on_request (self : Supervisor) (now : Timestamp) (r : Request.t)
  : Supervisor * option (result LifecycleState.t Refused) :=
  let reply (out : Supervisor * result unit Refused) :=
    (out.1, Some (match out.2 with Ok _ => Ok (lifecycle out.1) | Err e => Err e end)) in
  match r with
  | Request.Start =>
      match apply self now (LifecycleEvent.Start now) with
      | (self, Ok _) => let self := write_hold self Hold.None in (self, Some (Ok (lifecycle self)))
      | (self, Err e) => (self, Some (Err e))
      end
  | Request.Stop hold id =>
      match apply self now (LifecycleEvent.Stop now) with
      | (self, Ok _) =>
          let self := write_hold self hold in
          (answer_stops (set_stops self (pending_stops self ++ [id])%list (answered self)), None)
      | (self, Err e) => (self, Some (Err e))
      end
  | Request.Restart => reply (apply self now (LifecycleEvent.Restart now))
  | Request.Retry => reply (apply self now (LifecycleEvent.Retry now))
  | Request.Exit intent => reply (apply self now (LifecycleEvent.Exit intent))
  | Request.Reconfigure restart_now adopted => (reconfigure self now restart_now adopted, None)
  end.

(** The guard of a destructive re-initialisation.  [lock]: [None] where there is
    no store, otherwise whether its lock could be taken. *)
Definition resting_in (self : Supervisor) (bound : option Z) (lock : option (result unit string))
  : result bool ReinitRefused.t :=
  let at_rest :=
    match lifecycle self, slot self with
    | (LifecycleState.Stopped _ _ _ | LifecycleState.Failed _ _ _), Slot.Idle _ => true
    | _, _ => false
    end in
  if negb at_rest then Err ReinitRefused.NotStopped
  else
    match (match bound with Some b => if eqb b (sup_epoch self) then None else Some b | None => None end) with
    | Some b => Err (ReinitRefused.EpochMoved b (sup_epoch self))
    | None =>
        match lock with
        | None => Ok false
        | Some (Ok _) => Ok true
        | Some (Err text) => Err (ReinitRefused.StoreHeld text)
        end
    end.

(** ** Starting and running *)

Definition supervisor_new (now : Timestamp) (version : string) (process : Z) (dir : ControlDir)
    (declared : option string) : Supervisor :=
  let previous := PreviousRun.from_marker (file_run dir) in
  let released := RunMarker.Released now in
  let dir' := if io 0 then set_run dir released else dir in
  let m := with_history_cap (from_state (lifecycle_at now)) 64 in
  let j := from_bytes (file_journal dir) in
  mkSupervisor m (Slot.Idle None) j released previous (file_identity dir)
    (mkDaemon version process now) None []
    (mkSnapshot (lc_state (state m)) 0 (journal_attempts j) previous (file_identity dir))
    (ring_new 4096) declared dir' 1 [] [].

(** What each branch of the loop waits on. *)
Definition ready (self : Supervisor) (i : Input.t) : bool :=
  match i with
  | Input.Request _ | Input.DeclaredChanged => true
  | Input.RetryDue => match retry self with Some _ => true | None => false end
  | Input.Slot _ e =>
      match slot self, e with
      | Slot.Booting _, (SlotEvent.Progress _ | SlotEvent.BootDone _) => true
      | Slot.Up _, SlotEvent.ChildDied _ _ => true
      | Slot.Draining, SlotEvent.Drained _ => true
      | _, _ => false
      end
  end.

Definition on_input (self : Supervisor) (now : Timestamp) (i : Input.t) : Supervisor :=
  match i with
  | Input.Request r => (on_request self now r).1
  | Input.Slot file e => on_slot_event self now file e
  | Input.RetryDue => apply_logged (set_retry self None) now (LifecycleEvent.RetryDue now)
  | Input.DeclaredChanged => apply_logged self now (LifecycleEvent.ConfigChanged now)
  end.

(** The first event, before the loop. *)
Definition first_event (self : Supervisor) (now : Timestamp) : Supervisor :=
  apply_logged self now
    (if file_hold (control self) then LifecycleEvent.HeldAtStartup now else LifecycleEvent.Start now).

Definition finish (self : Supervisor) (now : Timestamp) : Supervisor :=
  publish (persist_journal (sync_run_marker self now)) now.

(** The loop ends at [Exiting], and only there. *)
Definition exit_intent (self : Supervisor) : option ExitIntent.t :=
  match lifecycle self with LifecycleState.Exiting intent => Some intent | _ => None end.

Inductive reachable (dir : ControlDir) : Supervisor -> Prop :=
  | reach_start now version process declared now' :
      reachable dir (first_event (supervisor_new now version process dir declared) now')
  | reach_input self now i :
      reachable dir self -> exit_intent self = None -> ready self i = true ->
      reachable dir (on_input self now i).

End Supervisor.
