(* ===== verification/SupervisorFacts.v ===== *)
(** * The supervisor keeps step with its lifecycle

    Over every input the loop can be handed: the slot is what the lifecycle says
    it is, so a boot starts only over a released store; the run marker says
    whether the store is open; the retry timer runs exactly while a failed boot
    waits for it; no stop is left unanswered. *)

From stdpp Require Import base tactics option list strings numbers pretty.
From S2P Require Import Prelude Maquina Ring Backoff Lifecycle Journal Supervisor.

Local Open Scope string_scope.
Local Open Scope Z_scope.

(** ** The parts of a supervisor the invariant is about *)

Record Core : Type := mkCore {
  core_machine : MachineRunner Lifecycle LifecycleEvent.t;
  core_slot : Slot.t;
  core_marker : RunMarker.t;
  core_retry : option (Z * Z);
  core_stops : list nat;
  core_answered : list (nat * StopDone);
  core_faults : list string;
  core_snapshot : Snapshot;
  core_run : option RunMarker.t
}.

Definition core (s : Supervisor) : Core :=
  mkCore (machine s) (slot s) (marker s) (retry s) (pending_stops s) (answered s) (faults s)
    (snapshot s) (file_run (control s)).

Definition core_state (c : Core) : LifecycleState.t := lc_state (state (core_machine c)).

(** What the slot holds in each state. *)
Definition slot_fits (st : LifecycleState.t) (sl : Slot.t) : bool :=
  match st, sl with
  | (LifecycleState.Resolving _ | LifecycleState.Stopped _ _ _ | LifecycleState.Failed _ _ _), Slot.Idle _ => true
  | LifecycleState.Booting _ _ _, Slot.Booting false => true
  | LifecycleState.Running _ _ _ _, Slot.Up _ => true
  | LifecycleState.Draining _ _, (Slot.Booting true | Slot.Draining) => true
  | LifecycleState.Wedged _ _, Slot.Wedged => true
  | LifecycleState.Exiting _, (Slot.Idle _ | Slot.Wedged) => true
  | _, _ => false
  end.

(** Whether the marker must say the store is released. *)
Definition rests (st : LifecycleState.t) (sl : Slot.t) : bool :=
  match st with
  | LifecycleState.Exiting _ => negb (slot_wedged sl)
  | _ => negb (LifecycleState.may_hold_store st)
  end.

Definition timer_for (st : LifecycleState.t) : option (Z * Z) :=
  match st with
  | LifecycleState.Failed a _ (RetryClass.Backoff _ d) => Some (a, d)
  | _ => None
  end.

Definition is_draining (st : LifecycleState.t) : bool :=
  match st with LifecycleState.Draining _ _ => true | _ => false end.

Record in_step (c : Core) : Prop := {
  step_slot : slot_fits (core_state c) (core_slot c) = true;
  step_marker : marker_released (core_marker c) = rests (core_state c) (core_slot c);
  step_retry : core_retry c = timer_for (core_state c);
  step_stops : core_stops c <> [] -> is_draining (core_state c) = true;
  step_faults : core_faults c = [];
  step_lifecycle : snap_lifecycle (core_snapshot c) = core_state c;
  step_epoch : snap_epoch (core_snapshot c) = epoch (state (core_machine c))
}.

Section Facts.
Context `{Calendar} `{ErrorText}.
Variable io : nat -> bool.
Implicit Types s : Supervisor.

(** ** What each helper leaves alone *)

Lemma core_write s f : (forall c, file_run (f c) = file_run c) -> core (write io s f) = core s.
Proof. intros Hf. unfold core, write. simpl. destruct (io (writes s)); simpl; [by rewrite Hf | done]. Qed.

Lemma core_persist s : core (persist_journal io s) = core s.
Proof. by apply core_write. Qed.

Lemma core_push_event s now e : core (push_event s now e) = core s.
Proof. done. Qed.

Lemma core_push_events s now l : core (fold_left (fun s e => push_event s now e) l s) = core s.
Proof. revert s. induction l as [|e l IH]; intros s; [done |]. simpl. by rewrite IH. Qed.

Lemma core_publish_phases s now n : core (publish_phases s now n) = core s.
Proof.
  unfold publish_phases. destruct (latest (journal s)) as [a |]; [| done].
  generalize (drop (length (phases a) - n) (phases a)). intros l. revert s.
  induction l as [|r l IH]; intros s; [done |]. simpl. by rewrite IH.
Qed.

Lemma core_write_hold s h : core (write_hold io s h) = core s.
Proof. by apply core_write. Qed.

Lemma core_record_identity s rt now : core (record_identity io s rt now) = core s.
Proof. exact (core_write s (fun c => set_identity c (mkIdentity (config_cluster rt) (config_node rt) now)) (fun _ => eq_refl)). Qed.

Lemma core_with_journal s j : core (with_journal s j) = core s.
Proof. done. Qed.

(** ** What a transition does *)

(** The slot after an effect, and whether the slot was ready for it. *)
Definition slot_after (sl : Slot.t) (ef : LifecycleEffect.t) : Slot.t :=
  match ef, sl with
  | LifecycleEffect.StartBoot _, _ => Slot.Booting false
  | LifecycleEffect.CancelBoot, Slot.Booting _ => Slot.Booting true
  | LifecycleEffect.ShutdownRuntime, _ => Slot.Draining
  | _, _ => sl
  end.

Definition slot_ready (sl : Slot.t) (ef : LifecycleEffect.t) : bool :=
  match ef, sl with
  | LifecycleEffect.StartBoot _, Slot.Idle _ => true
  | LifecycleEffect.StartBoot _, _ => false
  | LifecycleEffect.ShutdownRuntime, Slot.Up _ => true
  | LifecycleEffect.ShutdownRuntime, _ => false
  | _, _ => true
  end.

Lemma perform_core s now ef :
  slot_ready (slot s) ef = true ->
  core (perform io s now ef) = core (set_slot s (slot_after (slot s) ef)).
Proof.
  intros Hr. unfold perform. destruct s as [m sl]. destruct ef; simpl in *; [done | | by destruct sl | by destruct sl | done].
  unfold start_boot. simpl. destruct sl; try done. by rewrite core_persist.
Qed.

(** The bookkeeping after a transition, on the core. *)
Lemma after_core s now :
  let s' := after_transition io s now in
  machine s' = machine s /\ slot s' = slot s /\ faults s' = faults s /\
  retry s' = retry (sync_retry_timer s) /\
  marker s' = match wanted_marker s now with Some w => w | None => marker s end /\
  pending_stops s' = (if is_draining (lifecycle s) then pending_stops s else []) /\
  (map fst (answered s') ++ pending_stops s')%list = (map fst (answered s) ++ pending_stops s)%list /\
  snap_lifecycle (snapshot s') = lifecycle s /\ snap_epoch (snapshot s') = sup_epoch s /\
  ((forall n, io n = true) -> file_run (control s) = Some (marker s) ->
     file_run (control s') = Some (marker s')).
Proof.
  cbv zeta. unfold after_transition. set (s1 := sync_retry_timer s).
  assert (machine s1 = machine s /\ slot s1 = slot s /\ faults s1 = faults s /\ marker s1 = marker s /\
    pending_stops s1 = pending_stops s /\ answered s1 = answered s /\ daemon s1 = daemon s /\
    control s1 = control s) as (E1 & E2 & E3 & E4 & E5 & E6 & E7 & E8).
  { unfold s1, sync_retry_timer. repeat case_match; done. }
  assert (wanted_marker s1 now = wanted_marker s now) as Ew.
  { unfold wanted_marker, lifecycle. by rewrite E1, E2, E4, E7. }
  unfold sync_run_marker. rewrite Ew. set (s2 := match wanted_marker s now with Some _ => _ | None => _ end).
  assert (machine s2 = machine s /\ slot s2 = slot s /\ faults s2 = faults s /\ retry s2 = retry s1 /\
    pending_stops s2 = pending_stops s /\ answered s2 = answered s /\
    marker s2 = match wanted_marker s now with Some w => w | None => marker s end /\
    ((forall n, io n = true) -> file_run (control s) = Some (marker s) ->
       file_run (control s2) = Some (marker s2))) as (F1 & F2 & F3 & F4 & F5 & F6 & F7 & F8).
  { unfold s2. destruct (wanted_marker s now) as [w |].
    - unfold eqb. case_bool_decide as Hw; simpl.
      + rewrite E4 in Hw. subst w. split_and!; try done. by rewrite E4, E8.
      + split_and!; try done. intros Hio _. by rewrite Hio.
    - split_and!; try done. by rewrite E4, E8. }
  clearbody s2. unfold answer_stops. unfold lifecycle. rewrite F1.
  unfold publish, lifecycle, sup_epoch.
  destruct (lc_state (state (machine s))) eqn:Est; simpl; rewrite ?F1; simpl;
    try destruct (negb _); simpl; rewrite ?F1, ?Est, ?F2, ?F3, ?F4, ?F5, ?F6, ?app_nil_r, ?map_app, ?map_map, ?map_id;
    split_and!; auto; by rewrite <- F7.
Qed.
(** What the slot has just reported, or not. *)
Definition reported (st : LifecycleState.t) (sl : Slot.t) (ev : LifecycleEvent.t) : bool :=
  let ending := match st with LifecycleState.Booting _ _ _ | LifecycleState.Draining _ _ => true | _ => false end in
  match ev with
  | LifecycleEvent.Booted _ _ => ending && match sl with Slot.Up _ => true | _ => false end
  | LifecycleEvent.BootFailed _ _ StoreOutcome.Released =>
      ending && match sl with Slot.Idle _ => true | _ => false end
  | LifecycleEvent.BootFailed _ _ (StoreOutcome.Held _) => ending && slot_wedged sl
  | LifecycleEvent.Drained _ StoreOutcome.Released =>
      is_draining st && match sl with Slot.Idle _ => true | _ => false end
  | LifecycleEvent.Drained _ (StoreOutcome.Held _) => is_draining st && slot_wedged sl
  | _ => slot_fits st sl
  end.

Lemma step_fits m ev sl m' ef :
  reported (lc_state m) sl ev = true -> lifecycle_step m ev = Ok (m', ef) ->
  slot_ready sl ef = true /\ slot_fits (lc_state m') (slot_after sl ef) = true /\
  (slot_wedged (slot_after sl ef) = true -> LifecycleState.may_hold_store (lc_state m) = true) /\
  (timer_for (lc_state m') <> None -> timer_for (lc_state m) = None).
Proof.
  destruct m as [st a ep k]. intros Hr Hs.
  unfold lifecycle_step, starting, booting, stopping, settle, begin_boot, rest, exit, with_state in Hs.
  destruct st, ev; simpl in *; try done; repeat (case_match; simpl in *; try done); simplify_eq; simpl;
    repeat (case_match; simpl in *; try done); done.
Qed.

Lemma step_refused_fits m ev sl r :
  reported (lc_state m) sl ev = true -> lifecycle_step m ev = Err r -> slot_fits (lc_state m) sl = true.
Proof.
  destruct m as [st a ep k]. unfold lifecycle_step. intros Hr Hs.
  destruct st, ev; simpl in *; try done; repeat (case_match; simpl in *; try done).
Qed.

(** A core whose slot may just have reported. *)
Record before (c : Core) (ev : LifecycleEvent.t) : Prop := {
  before_slot : reported (core_state c) (core_slot c) ev = true;
  before_marker : LifecycleState.may_hold_store (core_state c) = true -> marker_released (core_marker c) = false;
  before_rest : slot_fits (core_state c) (core_slot c) = true ->
    marker_released (core_marker c) = rests (core_state c) (core_slot c);
  before_retry : core_retry c = timer_for (core_state c) \/
    (core_retry c = None /\ exists t, ev = LifecycleEvent.RetryDue t);
  before_stops : core_stops c <> [] -> is_draining (core_state c) = true;
  before_faults : core_faults c = [];
  before_lifecycle : snap_lifecycle (core_snapshot c) = core_state c;
  before_epoch : snap_epoch (core_snapshot c) = epoch (state (core_machine c))
}.

(** The next run marker, on states alone. *)
Lemma wanted_marker_rests s now :
  slot_fits (lifecycle s) (slot s) = true ->
  (slot_wedged (slot s) = true -> marker_released (marker s) = false) ->
  marker_released match wanted_marker s now with Some w => w | None => marker s end =
    rests (lifecycle s) (slot s).
Proof.
  intros Hf Hw. unfold wanted_marker, rests.
  destruct (lifecycle s), (slot s); simpl in *; try done;
    destruct (marker_released (marker s)) eqn:E; simpl; rewrite ?E; auto; by rewrite Hw in E.
Qed.

Lemma sync_retry_spec s :
  (timer_for (lifecycle s) <> None -> retry s = None) ->
  retry (sync_retry_timer s) = timer_for (lifecycle s).
Proof.
  intros Hr. unfold sync_retry_timer.
  destruct (lifecycle s) as [| | | | | a rep [t d|] | |]; simpl in *; try done. by rewrite Hr.
Qed.

Lemma apply_in_step s now ev :
  exit_intent s = None -> before (core s) ev ->
  let s' := (apply io s now ev).1 in
  in_step (core s') /\
  (map fst (answered s') ++ pending_stops s')%list = (map fst (answered s) ++ pending_stops s)%list /\
  ((forall n, io n = true) -> file_run (control s) = Some (marker s) ->
     file_run (control s') = Some (marker s')).
Proof.
  intros Hx Hb. cbv zeta. unfold apply, runner_step.
  assert (is_terminal (state (machine s)) = false) as Ht.
  { simpl. unfold lifecycle_terminal. unfold exit_intent, lifecycle in Hx. by destruct (lc_state _). }
  rewrite Ht. change (machine_step (state (machine s)) ev) with (lifecycle_step (state (machine s)) ev).
  destruct Hb as [Hslot Hmark Hrest Hretry Hstops Hfaults Hlc Hep].
  unfold core_state in *. simpl in *.
  destruct (lifecycle_step (state (machine s)) ev) as [[m' ef] | r] eqn:Es.
  - destruct (step_fits _ _ _ _ _ Hslot Es) as (Hready & Hfits & Hwedged & Htimer).
    set (m1 := mkRunner _ _ _ _). set (s1 := set_machine s m1).
    pose proof (perform_core s1 now ef Hready) as Hc. set (s2 := perform io s1 now ef) in *.
    assert (machine s2 = m1) as E1 by exact (f_equal core_machine Hc).
    assert (slot s2 = slot_after (slot s) ef) as E2 by exact (f_equal core_slot Hc).
    assert (marker s2 = marker s) as E3 by exact (f_equal core_marker Hc).
    assert (retry s2 = retry s) as E4 by exact (f_equal core_retry Hc).
    assert (pending_stops s2 = pending_stops s) as E5 by exact (f_equal core_stops Hc).
    assert (answered s2 = answered s) as E6 by exact (f_equal core_answered Hc).
    assert (faults s2 = faults s) as E7 by exact (f_equal core_faults Hc).
    assert (file_run (control s2) = file_run (control s)) as E8 by exact (f_equal core_run Hc).
    assert (lifecycle s2 = lc_state m') as E9 by (unfold lifecycle; by rewrite E1).
    destruct (after_core s2 now) as (A1 & A2 & A3 & A4 & A5 & A6 & A7 & A8 & A9 & A10).
    cbn [fst]. set (s3 := after_transition io s2 now) in *. clearbody s2 s3. split_and!.
    + split; unfold core_state; cbn [core core_machine core_slot core_marker core_retry core_stops
        core_faults core_snapshot]; rewrite ?A1, ?A2, ?A3, ?E1, ?E2, ?E7; cbn [m1 state].
      * done.
      * rewrite A5, wanted_marker_rests; rewrite ?E2, ?E9; [done | done |]. rewrite E3. auto.
      * rewrite A4, sync_retry_spec; rewrite E9; [done |]. rewrite E4. intros Hne.
        destruct Hretry as [-> | [-> _]]; [by apply Htimer | done].
      * rewrite A6, E9. by destruct (is_draining (lc_state m')).
      * done.
      * by rewrite A8.
      * rewrite A9. unfold sup_epoch. by rewrite E1.
    + rewrite A7. by rewrite E5, E6.
    + intros Hio Hrun. apply A10; [done |]. by rewrite E8, E3.
  - simpl. split; [| done]. pose proof (step_refused_fits _ _ _ _ Hslot Es) as Hfits.
    split; unfold core_state; simpl; auto.
    destruct Hretry as [-> | [-> [t ->]]]; [done |]. clear -Es.
    destruct (state (machine s)) as [st a ep k]. destruct st as [| | | | | ? ? [] | |]; simpl in *; done.
Qed.


(** ** Every input keeps the invariant *)

(** What an input may do: keep step, lose no reply but the one it brings, and keep
    the run file equal to the marker while the disk takes every write. *)
Definition good (c c' : Core) (asked : list nat) : Prop :=
  in_step c' /\
  (map fst (core_answered c') ++ core_stops c')%list =
    (map fst (core_answered c) ++ core_stops c ++ asked)%list /\
  ((forall n, io n = true) -> core_run c = Some (core_marker c) -> core_run c' = Some (core_marker c')).

Lemma good_trans c1 c2 c3 l : good c1 c2 [] -> good c2 c3 l -> good c1 c3 l.
Proof.
  intros (_ & Hc & Hd) (Hi & Hc' & Hd'). split; [done |]. split; [| auto].
  rewrite Hc', app_assoc, Hc, app_nil_r. by rewrite <- app_assoc.
Qed.

Lemma good_refl c : in_step c -> good c c [].
Proof. intros Hc. split; [done |]. by rewrite app_nil_r. Qed.

(** Events the slot does not report. *)
Definition plain (ev : LifecycleEvent.t) : bool :=
  match ev with
  | LifecycleEvent.Booted _ _ | LifecycleEvent.BootFailed _ _ _ | LifecycleEvent.Drained _ _ => false
  | _ => true
  end.

Lemma in_step_before c ev : in_step c -> plain ev = true -> before c ev.
Proof.
  intros [Hs Hm Hr Hst Hf Hl He] Hp. split; auto.
  - by destruct ev.
  - rewrite Hm. unfold rests. destruct (core_state c); done.
Qed.

Lemma apply_good s now ev :
  exit_intent s = None -> before (core s) ev -> good (core s) (core (apply io s now ev).1) [].
Proof.
  intros Hx Hb. destruct (apply_in_step s now ev Hx Hb) as (Hi & Hc & Hd).
  split; [done |]. split; [| done]. simpl in *. by rewrite app_nil_r.
Qed.

Lemma apply_plain s now ev :
  exit_intent s = None -> in_step (core s) -> plain ev = true ->
  good (core s) (core (apply io s now ev).1) [].
Proof. intros. by apply apply_good, in_step_before. Qed.

Lemma core_exit s t : core s = core t -> exit_intent s = exit_intent t.
Proof. intros Hc. unfold exit_intent, lifecycle. by rewrite (f_equal core_machine Hc : machine s = machine t). Qed.

Lemma core_set_slot s t x : core s = core t -> core (set_slot s x) = core (set_slot t x).
Proof. unfold core. simpl. injection 1 as E1 E2 E3 E4 E5 E6 E7 E8 E9. by rewrite E1, E3, E4, E5, E6, E7, E8, E9. Qed.

(** The caller of a stop is answered once nothing is draining. *)
Lemma answer_good s l :
  in_step (core s) -> good (core s) (core (answer_stops (set_stops s (pending_stops s ++ l)%list (answered s)))) l.
Proof.
  intros [Hs Hm Hr Hst Hf Hl He]. unfold answer_stops.
  change (lifecycle (set_stops s (pending_stops s ++ l)%list (answered s))) with (lifecycle s).
  destruct (is_draining (lifecycle s)) eqn:Ed.
  - destruct (lifecycle s) eqn:E; try done. split; [split; try done |]; [| done].
    intros _. unfold core_state. simpl. unfold lifecycle in E. by rewrite E.
  - assert (forall x, good (core s) (core (set_stops s [] (answered s ++
      map (fun r => (r, x)) (pending_stops s ++ l))%list)) l) as Hgood.
    { intros x. split; [by split |]. split; [| done]. simpl.
      rewrite map_app, map_map, app_nil_r. simpl. by rewrite map_id. }
    destruct (lifecycle s); try done; apply Hgood.
Qed.

Lemma unwound_reported st u r c :
  match st with LifecycleState.Booting _ _ _ | LifecycleState.Draining _ _ => true | _ => false end = true ->
  reported st (unwound u).1 (LifecycleEvent.BootFailed r c (unwound u).2) = true.
Proof. intros Hst. destruct u; simpl; by rewrite Hst. Qed.

Definition ending (st : LifecycleState.t) : bool :=
  match st with LifecycleState.Booting _ _ _ | LifecycleState.Draining _ _ => true | _ => false end.

Lemma boot_done_core s now done :
  ending (lifecycle s) = true ->
  core (boot_done_event io s now done).1 = core (set_slot s (slot (boot_done_event io s now done).1)) /\
  reported (lifecycle s) (slot (boot_done_event io s now done).1) (boot_done_event io s now done).2 = true.
Proof.
  intros He. unfold boot_done_event. destruct done as [o | join].
  - destruct (outcome_result o) as [rt | fl].
    + set (s1 := match boot_kind rt with BootKind.FirstBoot => _ | _ => _ end).
      assert (core s1 = core s) as Hc1. { unfold s1. destruct (boot_kind rt); [apply core_record_identity | done..]. }
      set (s2 := publish_phases _ now 1).
      assert (core s2 = core s) as Hc2 by (unfold s2; by rewrite core_publish_phases, core_with_journal).
      cbn [fst snd]. split.
      * by apply core_set_slot.
      * simpl. unfold ending in He. by rewrite He.
    + destruct (unwound (failed_unwind fl)) as [sl st] eqn:Eu. cbn [fst snd].
      set (s2 := publish_phases _ now 1).
      assert (core s2 = core (set_slot s sl)) as Hc2 by (unfold s2; by rewrite core_publish_phases, core_with_journal).
      assert (slot s2 = sl) as Hsl by exact (f_equal core_slot Hc2). rewrite Hsl. split; [done |].
      pose proof (unwound_reported (lifecycle s) (failed_unwind fl)
        (mkReport (failed_phase fl) (error_text (failed_error fl)) now)
        (FailureClass.classify (failed_error fl)) He) as Hrep. by rewrite Eu in Hrep.
  - cbn [fst snd]. split; [done |]. simpl. unfold ending in He. by rewrite He.
Qed.

(** A slot that has just reported, its bookkeeping otherwise in step. *)
Lemma reported_before c sl ev :
  in_step c -> LifecycleState.may_hold_store (core_state c) = true ->
  reported (core_state c) sl ev = true -> plain ev = false ->
  before (mkCore (core_machine c) sl (core_marker c) (core_retry c) (core_stops c) (core_answered c)
            (core_faults c) (core_snapshot c) (core_run c)) ev.
Proof.
  intros [Hs Hm Hr Hst Hf Hl He] Hh Hrep Hp. split; try done; unfold core_state in *; simpl in *.
  - intros _. rewrite Hm. unfold rests. by destruct (lc_state _).
  - intros _. rewrite Hm. unfold rests. by destruct (lc_state _).
  - by left.
Qed.


Lemma perform_machine s now ef : machine (perform io s now ef) = machine s.
Proof.
  destruct ef; simpl; try done; [| by destruct (slot s)..]. unfold start_boot. by destruct (slot s).
Qed.

(** Where an event leaves the machine. *)
Lemma apply_state s now ev :
  exit_intent s = None ->
  state (machine (apply io s now ev).1) =
    match lifecycle_step (state (machine s)) ev with Ok (m', _) => m' | Err _ => state (machine s) end.
Proof.
  intros Hx. unfold apply, runner_step.
  assert (is_terminal (state (machine s)) = false) as ->.
  { simpl. unfold lifecycle_terminal. unfold exit_intent, lifecycle in Hx. by destruct (lc_state _). }
  change (machine_step (state (machine s)) ev) with (lifecycle_step (state (machine s)) ev).
  destruct (lifecycle_step (state (machine s)) ev) as [[m' ef] | r]; [| done]. cbn [fst].
  destruct (after_core (perform io (set_machine s (mkRunner m'
    (trim_history (history_cap (machine s)) (history (machine s) ++ [mkTransition (state (machine s)) ev m' now])%list)
    (history_cap (machine s)) (Word.u64_add (steps (machine s)) 1))) now ef) now) as (A1 & _).
  rewrite A1, perform_machine. done.
Qed.

(** The replies an input brings: the stop it asks for, if that is accepted. *)
Definition asked (s : Supervisor) (now : Timestamp) (i : Input.t) : list nat :=
  match i with
  | Input.Request (Request.Stop _ id) =>
      match (apply io s now (LifecycleEvent.Stop now)).2 with Ok _ => [id] | Err _ => [] end
  | _ => []
  end.

Lemma slot_ending st c : slot_fits st (Slot.Booting c) = true -> ending st = true.
Proof. by destruct st. Qed.

Lemma on_boot_done_good s now file done c :
  exit_intent s = None -> in_step (core s) -> slot s = Slot.Booting c ->
  good (core s) (core (on_boot_done io s now file done)) [].
Proof.
  intros Hx Hi Hsl. pose proof (step_slot _ Hi) as Hf. simpl in Hf. unfold core_state in Hf. simpl in Hf.
  rewrite Hsl in Hf. apply slot_ending in Hf as He.
  destruct (boot_done_core s now done He) as [Hc Hrep]. unfold on_boot_done.
  assert (plain (boot_done_event io s now done).2 = false) as Hp.
  { unfold boot_done_event. repeat case_match; done. }
  destruct (boot_done_event io s now done) as [s1 ev]. simpl in *.
  assert (core (persist_journal io s1) = core (set_slot s (slot s1))) as Hc1 by by rewrite core_persist.
  assert (exit_intent (persist_journal io s1) = None) as Hx1 by (by rewrite (core_exit _ _ Hc1)).
  assert (good (core s) (core (apply io (persist_journal io s1) now ev).1) []) as Hg.
  { destruct (apply_good (persist_journal io s1) now ev Hx1) as (G1 & G2 & G3).
    - rewrite Hc1. apply (reported_before (core s)); auto.
      unfold core_state. simpl. unfold ending, lifecycle in He. by destruct (lc_state _).
    - rewrite Hc1 in G2, G3. by split. }
  set (s2 := apply_logged io (persist_journal io s1) now ev).
  change (good (core s) (core s2) []) in Hg.
  destruct (lifecycle s2) eqn:E2; try done. unfold resettle_declared.
  destruct (declared_path s2); [| done]. destruct (negb _); [| done].
  eapply good_trans; [exact Hg |]. apply apply_plain; [| apply Hg | done].
  unfold exit_intent. by rewrite E2.
Qed.

Lemma on_drained_good s now done :
  exit_intent s = None -> in_step (core s) -> slot s = Slot.Draining ->
  good (core s) (core (on_drained io s now done)) [].
Proof.
  intros Hx Hi Hsl. pose proof (step_slot _ Hi) as Hf. unfold core_state in Hf. simpl in Hf. rewrite Hsl in Hf.
  assert (is_draining (lifecycle s) = true) as Hd. { unfold lifecycle. by destruct (lc_state _). }
  unfold on_drained. set (out := match done with Ok _ => _ | Err _ => _ end).
  assert (reported (lifecycle s) out.1 (LifecycleEvent.Drained now out.2) = true) as Hrep.
  { unfold out. destruct done as [[|]|]; simpl; by rewrite Hd. }
  destruct out as [sl st]. simpl in Hrep.
  apply (apply_good (set_slot s sl) now (LifecycleEvent.Drained now st)); [done |].
  apply (reported_before (core s)); auto.
  unfold core_state. simpl. unfold lifecycle in Hd. by destruct (lc_state _).
Qed.

Lemma reconfigure_good s now restart_now adopted :
  exit_intent s = None -> in_step (core s) ->
  good (core s) (core (reconfigure io s now restart_now adopted)) [].
Proof.
  intros Hx Hi. unfold reconfigure.
  destruct (lifecycle s) as [| | | | | a rep [|] | |] eqn:El; try by apply good_refl.
  - destruct adopted as [[pub pend] |]; [| by apply good_refl].
    destruct (slot s); try by apply good_refl.
    set (s1 := fold_left _ pub s). assert (core s1 = core s) as Hc1 by apply core_push_events.
    assert (good (core s) (core (apply_logged io s1 now (LifecycleEvent.ConfigApplied
      match pend with [] => PendingApply.InSync | _ => PendingApply.RestartNeeded pend end))) []) as Hg.
    { rewrite <- Hc1. apply apply_plain; [| by rewrite Hc1 | done]. by rewrite (core_exit _ _ Hc1). }
    destruct (restart_now && _); [| done]. eapply good_trans; [exact Hg |].
    apply apply_plain; [| apply Hg | done].
    unfold exit_intent, lifecycle, apply_logged. rewrite apply_state by (by rewrite (core_exit _ _ Hc1)).
    rewrite (f_equal core_machine Hc1 : machine s1 = machine s). unfold lifecycle in El.
    destruct (state (machine s)) as [st ? ? ?]. simpl in El. by subst st.
  - apply apply_plain; auto.
Qed.

Lemma on_request_good s now r :
  exit_intent s = None -> in_step (core s) ->
  good (core s) (core (on_request io s now r).1) (asked s now (Input.Request r)).
Proof.
  intros Hx Hi. destruct r as [| hold id | | | intent | restart_now adopted]; simpl.
  - pose proof (apply_plain s now (LifecycleEvent.Start now) Hx Hi eq_refl) as Hg.
    destruct (apply io s now (LifecycleEvent.Start now)) as [s' [|]]; cbn [fst] in *; [| done].
    by rewrite core_write_hold.
  - pose proof (apply_plain s now (LifecycleEvent.Stop now) Hx Hi eq_refl) as Hg.
    destruct (apply io s now (LifecycleEvent.Stop now)) as [s' [|]]; cbn [fst snd] in *; [| done].
    eapply good_trans; [exact Hg |].
    assert (in_step (core (write_hold io s' hold))) as Hw by (rewrite core_write_hold; apply Hg).
    pose proof (answer_good _ [id] Hw) as Ha. rewrite core_write_hold in Ha. exact Ha.
  - by apply apply_plain.
  - by apply apply_plain.
  - by apply apply_plain.
  - by apply reconfigure_good.
Qed.

Lemma on_input_good s now i :
  exit_intent s = None -> ready s i = true -> in_step (core s) ->
  good (core s) (core (on_input io s now i)) (asked s now i).
Proof.
  intros Hx Hr Hi. destruct i as [r | file e | |]; simpl.
  - by apply on_request_good.
  - simpl in Hr. destruct e as [[phase at_ | k] | done | done | child cause]; simpl.
    + set (s1 := publish_phases _ now 2).
      assert (core s1 = core s) as Hc1 by (unfold s1; by rewrite core_publish_phases, core_persist).
      rewrite <- Hc1. apply apply_plain; [| by rewrite Hc1 | done]. by rewrite (core_exit _ _ Hc1).
    + rewrite core_persist. by apply good_refl.
    + destruct (slot s) eqn:Es; try done. by eapply on_boot_done_good.
    + destruct (slot s) eqn:Es; try done. by apply on_drained_good.
    + by apply good_refl.
  - simpl in Hr. destruct (retry s) as [[a d] |] eqn:Er; [| done].
    apply (apply_good (set_retry s None) now (LifecycleEvent.RetryDue now)); [done |].
    destruct (in_step_before (core s) (LifecycleEvent.RetryDue now) Hi eq_refl). split; auto.
    right. split; [done | by eexists].
  - by apply apply_plain.
Qed.

Lemma first_event_good now version process dir declared now' :
  let s := supervisor_new io now version process dir declared in
  good (core s) (core (first_event io s now')) [].
Proof.
  cbv zeta. apply apply_plain; [done | | by destruct (file_hold _)].
  split; try done. 
Qed.

(** Every state the loop can be in keeps step. *)
Lemma reachable_in_step dir s :
  reachable io dir s -> in_step (core s) /\
  ((forall n, io n = true) -> file_run (control s) = Some (marker s)).
Proof.
  induction 1 as [now v p d now' | s now i Hr [Hi Hd] Hx Hready].
  - destruct (first_event_good now v p dir d now') as (Hi & _ & Hd). split; [exact Hi |].
    intros Hio. apply Hd; [done |]. simpl. by rewrite Hio.
  - destruct (on_input_good s now i Hx Hready Hi) as (Hi' & _ & Hd'). split; [exact Hi' |].
    intros Hio. apply Hd'; auto.
Qed.


(** ** Theorems *)

Definition slot_idle (sl : Slot.t) : bool := match sl with Slot.Idle _ => true | _ => false end.

(** (C9) The supervisor keeps step with its machine over every sequence of
    requests, boot and drain outcomes, timers and file changes: the slot holds what
    the lifecycle state says, so a boot is only ever started over a released store
    and only a runtime that is up is shut down; the retry timer is set exactly
    while a failed boot waits for it; and what readers see is the current state
    and epoch. *)
Theorem supervisor_in_step dir s :
  reachable io dir s ->
  slot_fits (lifecycle s) (slot s) = true /\ faults s = [] /\
  retry s = timer_for (lifecycle s) /\
  snap_lifecycle (snapshot s) = lifecycle s /\ snap_epoch (snapshot s) = sup_epoch s.
Proof. intros Hr. destruct (reachable_in_step dir s Hr) as [[Hs Hm Ht _ Hf Hl He] _]. done. Qed.

(** The run marker tells the truth: while the disk takes every write, a
    process that dies at any point of the loop leaves a marker from which the next
    one concludes a clean stop exactly when this one held no store. *)
Theorem run_marker_truthful dir s :
  (forall n, io n = true) -> reachable io dir s ->
  match PreviousRun.from_marker (file_run (control s)) with
  | PreviousRun.FirstEver => False
  | PreviousRun.CleanStop _ => slot_idle (slot s) = true
  | PreviousRun.Unclean _ => slot_idle (slot s) = false
  end.
Proof.
  intros Hio Hr. destruct (reachable_in_step dir s Hr) as [[Hs Hm _ _ _ _ _] Hd]. rewrite Hd by done.
  unfold core_state, rests in *. simpl in *.
  destruct (marker s) as [seen p | t]; simpl in *;
    destruct (lc_state (state (machine s))), (slot s) as [|[]| | |]; simpl in *; done.
Qed.

(** No stop is lost or answered twice: every input leaves the replies sent
    and the replies owed, together, what they were plus the stop it brought if
    that was accepted; replies are owed only while a drain is running, so none is
    owed when the daemon rests or exits. *)
Theorem stops_answered_once dir s now i :
  reachable io dir s -> exit_intent s = None -> ready s i = true ->
  let s' := on_input io s now i in
  (map fst (answered s') ++ pending_stops s')%list =
    (map fst (answered s) ++ pending_stops s ++ asked s now i)%list /\
  (is_draining (lifecycle s') = false -> pending_stops s' = []).
Proof.
  intros Hr Hx Hready. destruct (reachable_in_step dir s Hr) as [Hi _].
  destruct (on_input_good s now i Hx Hready Hi) as ([_ _ _ Hst _ _ _] & Hc & _). split; [exact Hc |].
  intros Hd. destruct (pending_stops (on_input io s now i)) as [|x l] eqn:E; [done |].
  exfalso. unfold lifecycle in Hd. unfold core_state in Hst. cbn [core core_stops core_machine] in Hst.
  rewrite E, Hd in Hst. by discriminate Hst.
Qed.

End Facts.

(** ** Witnesses: a daemon over an empty directory *)

#[local] Instance far_future : Calendar := 8210266876799999999999.
#[local] Instance no_text : ErrorText := fun _ => "".

Definition empty_dir : ControlDir := mkControlDir None None None false.

Definition sample_supervisor : Supervisor :=
  first_event (fun _ => true) (supervisor_new (fun _ => true) 0 "1" 7 empty_dir None) 1.

Lemma sample_supervisor_reachable : reachable (fun _ => true) empty_dir sample_supervisor.
Proof. apply reach_start. Qed.

Lemma supervisor_in_step_witness : slot_fits (lifecycle sample_supervisor) (slot sample_supervisor) = true.
Proof. exact (proj1 (supervisor_in_step (fun _ => true) empty_dir sample_supervisor sample_supervisor_reachable)). Defined.

Lemma run_marker_truthful_witness : slot_idle (slot sample_supervisor) = false.
Proof. exact (run_marker_truthful (fun _ => true) empty_dir sample_supervisor (fun _ => eq_refl) sample_supervisor_reachable). Defined.

Lemma stops_answered_once_witness :
  let s' := on_input (fun _ => true) sample_supervisor 2 (Input.Request (Request.Stop Hold.None 9)) in
  (map fst (answered s') ++ pending_stops s')%list = [9%nat].
Proof.
  exact (proj1 (stops_answered_once (fun _ => true) empty_dir sample_supervisor 2
    (Input.Request (Request.Stop Hold.None 9)) sample_supervisor_reachable eq_refl eq_refl)).
Defined.
