(* ===== verification/IpamFacts.v ===== *)
(** * What address management promises

    Lemmas and theorems on [Ipam]: addresses and their names, one container's ADD
    and DEL, concurrent ADDs, and the plugin's answer. *)

From Stdlib Require Import Ascii String Sorted.
From stdpp Require Import base tactics option list strings numbers gmap pretty.
From S2P Require Import Prelude Text BTreeMap Json Ipam.

Local Open Scope string_scope.
Local Open Scope Z_scope.

(** ** Addresses and their names *)

Definition no_char (c x : ascii) : bool := negb (Ascii.eqb x c).

Lemma split_char_none c a : str_all (no_char c) a = true -> split_char c a = [a].
Proof.
  unfold no_char. induction a as [|x a IH]; intros Ha; [done |]. simpl in *. bool_to_prop. by rewrite H, IH.
Qed.

Lemma split_char_app c a b :
  str_all (no_char c) a = true -> split_char c (a ++ String c b) = a :: split_char c b.
Proof.
  unfold no_char. induction a as [|x a IH]; intros Ha.
  - change ("" ++ String c b) with (String c b). cbn [split_char]. by rewrite Ascii.eqb_refl.
  - change (String x a ++ String c b) with (String x (a ++ String c b)). cbn [split_char].
    simpl in Ha. bool_to_prop. by rewrite H, IH.
Qed.

Fixpoint join (c : ascii) (l : list string) : string :=
  match l with
  | [] => ""
  | [a] => a
  | a :: l => a ++ String c (join c l)
  end.

Lemma join_cons c a l : l <> [] -> join c (a :: l) = a ++ String c (join c l).
Proof. by destruct l. Qed.

Lemma join_split c s : join c (split_char c s) = s.
Proof.
  induction s as [|x s IH]; [done |]. cbn [split_char]. destruct (Ascii.eqb x c) eqn:E.
  - apply Ascii.eqb_eq in E. subst. rewrite join_cons by apply split_char_ne. by rewrite IH.
  - pose proof (split_char_ne c s). destruct (split_char c s) as [|t ts] eqn:Es; [done |].
    destruct ts as [|u ts]; simpl in *; [by subst |]. by rewrite <- IH.
Qed.

Lemma is_digit_no_char c x : is_ascii_digit c = false -> is_ascii_digit x = true -> no_char c x = true.
Proof. unfold no_char. intros Hc Hx. destruct (Ascii.eqb x c) eqn:E; [| done]. apply Ascii.eqb_eq in E. by subst; rewrite Hc in Hx. Qed.

Lemma pretty_no_char c n : 0 <= n -> is_ascii_digit c = false -> str_all (no_char c) (pretty n) = true.
Proof.
  intros Hn Hc. apply (str_all_weaken is_ascii_digit); [| by apply pretty_nonneg_digits].
  intros x. by apply is_digit_no_char.
Qed.

Lemma octet_range i a : 0 <= octet i a < 256.
Proof.
  unfold octet. change 255 with (Z.ones 8). rewrite Z.land_ones by lia.
  apply Z.mod_pos_bound. lia.
Qed.

Lemma parse_octet_spec s n : parse_octet s = Some n <-> 0 <= n < 256 /\ s = pretty n.
Proof.
  unfold parse_octet. split.
  - intros Hf. apply List.find_some in Hf as [Hin He]. apply list_elem_of_In, elem_of_seqZ in Hin.
    unfold eqb in He. apply bool_decide_eq_true in He. split; [lia | done].
  - intros [Hn ->]. destruct (List.find _ _) as [m |] eqn:E.
    + apply List.find_some in E as [Hin He]. apply list_elem_of_In, elem_of_seqZ in Hin.
      unfold eqb in He. apply bool_decide_eq_true in He.
      assert (parse_unsigned 255 (pretty m) = Some m) as Hm by (apply parse_unsigned_pretty; lia).
      rewrite He, parse_unsigned_pretty in Hm by lia. done.
    + assert (In n (seqZ 0 256)) as Hin by (apply list_elem_of_In, elem_of_seqZ; lia).
      pose proof (List.find_none _ _ E n Hin) as Hn'. simpl in Hn'. by rewrite eqb_refl in Hn'.
Qed.

Lemma octets_join a : Word.is_u32 a ->
  a = ((octet 3 a * 256 + octet 2 a) * 256 + octet 1 a) * 256 + octet 0 a.
Proof.
  unfold Word.is_u32, Word.u32_max, octet. intros Ha. change 255 with (Z.ones 8).
  rewrite !Z.land_ones, !Z.shiftr_div_pow2 by lia.
  change (2 ^ (8 * 3)) with 16777216. change (2 ^ (8 * 2)) with 65536. change (2 ^ (8 * 1)) with 256.
  change (2 ^ (8 * 0)) with 1. change (2 ^ 8) with 256. rewrite Z.div_1_r.
  Z.div_mod_to_equations. lia.
Qed.

Lemma octets_split a b c d :
  0 <= a < 256 -> 0 <= b < 256 -> 0 <= c < 256 -> 0 <= d < 256 ->
  let n := ((a * 256 + b) * 256 + c) * 256 + d in
  octet 3 n = a /\ octet 2 n = b /\ octet 1 n = c /\ octet 0 n = d.
Proof.
  intros Ha Hb Hc Hd n. unfold octet. change 255 with (Z.ones 8).
  rewrite !Z.land_ones, !Z.shiftr_div_pow2 by lia.
  change (2 ^ (8 * 3)) with 16777216. change (2 ^ (8 * 2)) with 65536. change (2 ^ (8 * 1)) with 256.
  change (2 ^ (8 * 0)) with 1. change (2 ^ 8) with 256. unfold n.
  split_and!; Z.div_mod_to_equations; lia.
Qed.

Lemma parse_print_ipv4 a : Word.is_u32 a -> parse_ipv4 (ipv4_to_string a) = Some a.
Proof.
  intros Ha. unfold parse_ipv4, ipv4_to_string.
  rewrite !split_char_app by (apply pretty_no_char; [apply octet_range | done]).
  rewrite split_char_none by (apply pretty_no_char; [apply octet_range | done]).
  rewrite !(proj2 (parse_octet_spec _ _) (conj (octet_range _ a) eq_refl)). simpl. f_equal.
  symmetry. by apply octets_join.
Qed.

Lemma ipv4_no_slash a : str_all (no_char "/") (ipv4_to_string a) = true.
Proof.
  assert (forall i, str_all (no_char "/") (pretty (octet i a)) = true) as Ho.
  { intros i. apply pretty_no_char; [apply octet_range | done]. }
  unfold ipv4_to_string. rewrite str_all_app, Ho. cbn [str_all andb].
  rewrite str_all_app, Ho. cbn [str_all andb]. rewrite str_all_app, Ho. cbn [str_all andb]. by rewrite Ho.
Qed.

Lemma print_parse_ipv4 s a : parse_ipv4 s = Some a -> s = ipv4_to_string a /\ Word.is_u32 a.
Proof.
  unfold parse_ipv4. destruct (split_char "." s) as [|x [|y [|z [|w [|? ?]]]]] eqn:E; try done.
  destruct (parse_octet x) as [a3|] eqn:E3; simpl; [| done].
  destruct (parse_octet y) as [a2|] eqn:E2; simpl; [| done].
  destruct (parse_octet z) as [a1|] eqn:E1; simpl; [| done].
  destruct (parse_octet w) as [a0|] eqn:E0; simpl; [| done]. intros [= <-].
  apply parse_octet_spec in E3 as [H3 ->], E2 as [H2 ->], E1 as [H1 ->], E0 as [H0 ->].
  destruct (octets_split a3 a2 a1 a0 H3 H2 H1 H0) as (O3 & O2 & O1 & O0).
  split; [| unfold Word.is_u32, Word.u32_max; lia].
  rewrite <- (join_split "." s), E. unfold ipv4_to_string. by rewrite O3, O2, O1, O0.
Qed.

Lemma lease_file_inj a b : Word.is_u32 a -> Word.is_u32 b -> lease_file a = lease_file b -> a = b.
Proof.
  unfold lease_file. intros Ha Hb E. pose proof (parse_print_ipv4 a Ha) as H1.
  rewrite E, parse_print_ipv4 in H1 by done. congruence.
Qed.

(** ** The range *)

Lemma land_le a b : 0 <= a -> 0 <= b -> Z.land a b <= a.
Proof.
  intros Ha Hb. rewrite <- (Z2N.id a), <- (Z2N.id b), <- N2Z.inj_land by done.
  apply N2Z.inj_le, N.land_le_l.
Qed.

Definition cidr_ok (c : Cidr) : Prop := Word.is_u32 (network c) /\ 0 <= prefix c <= 32.

Lemma assignable_u32 c a : cidr_ok c -> a ∈ assignable c -> Word.is_u32 a.
Proof.
  intros [Hn _] Ha%elem_of_seqZ. unfold first_host, last_host in Ha. unfold Word.is_u32, Word.u32_max in *. lia.
Qed.

Lemma assignable_lt c a b l1 l2 : assignable c = (l1 ++ a :: l2)%list -> b ∈ l1 -> b < a.
Proof.
  unfold assignable. intros E Hb. apply list_elem_of_lookup in Hb as [i Hi].
  assert (seqZ (first_host c) (last_host c - first_host c) !! i = Some b) as H1.
  { rewrite E. by apply lookup_app_l_Some. }
  assert (seqZ (first_host c) (last_host c - first_host c) !! length l1 = Some a) as H2.
  { rewrite E. by rewrite lookup_app_r, Nat.sub_diag by lia. }
  apply lookup_seqZ in H1 as [-> _]. apply lookup_seqZ in H2 as [-> _].
  apply lookup_lt_Some in Hi. lia.
Qed.

(** ** One operation *)

Section Fine.
Variable path : string.

Lemma read_lease_spec e a h :
  read_lease no_faults e = Some (a, h) <->
  e.1 = lease_file a /\ Word.is_u32 a /\ h = trim e.2.
Proof.
  unfold read_lease. simpl. destruct (parse_ipv4 e.1) as [b |] eqn:E; simpl.
  - apply print_parse_ipv4 in E as [E Hb]. split.
    + intros [= <- <-]. by split_and!.
    + intros (E' & Ha & ->). rewrite E in E'. apply lease_file_inj in E'; auto. by subst.
  - split; [done |]. intros (E' & Ha & _). rewrite E' in E. unfold lease_file in E.
    by rewrite parse_print_ipv4 in E.
Qed.

(** The leases of a directory are its files that are named by an address. *)
Lemma lease_list_spec m a h :
  In (a, h) (lease_list no_faults m) <->
  Word.is_u32 a /\ exists c, m !! lease_file a = Some c /\ h = trim c.
Proof.
  unfold lease_list. rewrite sort_by_In, <- list_elem_of_In, list_elem_of_omap. split.
  - intros ([f c] & Hin & He). apply elem_of_map_to_list in Hin.
    apply read_lease_spec in He as (Hf & Ha & ->). cbn [fst snd] in *. subst. eauto.
  - intros (Ha & c & Hc & ->). exists (lease_file a, c). split; [by apply elem_of_map_to_list |].
    by apply read_lease_spec.
Qed.

(** The lease a container already has, if any. *)
Definition holds (m : gmap string string) (a : Z) (id : string) : Prop :=
  Word.is_u32 a /\ exists c, m !! lease_file a = Some c /\ trim c = id.

Lemma find_by_container_spec m id :
  match find_by_container no_faults path (Some m) id with
  | Ok (Some a) => holds m a id
  | Ok None => forall a, ~ holds m a id
  | Err _ => False
  end.
Proof.
  unfold find_by_container, leases. cbn [read_dir_fails no_faults].
  pose proof (lease_list_spec m) as Hl. generalize dependent (lease_list no_faults m). intros l Hl.
  destruct (List.find _ l) as [[a h] |] eqn:E; simpl.
  - apply List.find_some in E as [Hin He]. apply Hl in Hin as (Ha & c & Hc & ->).
    apply eqb_sound in He. simpl in He. split; eauto.
  - intros a (Ha & c & Hc & <-). pose proof (List.find_none _ _ E (a, trim c)) as Hn. simpl in Hn.
    rewrite eqb_refl in Hn. discriminate Hn. apply Hl. eauto.
Qed.

Lemma claim_spec m c id l :
  match claim no_faults path m c id l with
  | (Ok a, m') => exists l1 l2, l = (l1 ++ a :: l2)%list /\ m !! lease_file a = None /\
      (forall b, b ∈ l1 -> m !! lease_file b <> None) /\ m' = <[lease_file a := id]> m
  | (Err e, m') => e = IpamError.Exhausted (cidr_to_string c) /\ m' = m /\
      forall b, b ∈ l -> m !! lease_file b <> None
  end.
Proof.
  induction l as [|a l IH]; cbn [claim].
  - split_and!; auto. intros b Hb. by apply not_elem_of_nil in Hb.
  - destruct (m !! lease_file a) as [h |] eqn:E; cbn [create_fails write_fails no_faults].
    + destruct (claim no_faults path m c id l) as [[b | e] m'].
      * destruct IH as (l1 & l2 & -> & Hb & Hall & ->). exists (a :: l1), l2. split_and!; auto.
        intros x [-> | Hx]%elem_of_cons; [by rewrite E | auto].
      * destruct IH as (-> & -> & Hall). split_and!; auto.
        intros x [-> | Hx]%elem_of_cons; [by rewrite E | auto].
    + exists [], l. split_and!; auto. intros b Hb. by apply not_elem_of_nil in Hb.
Qed.
End Fine.

(** A container's own addresses in a list of leases. *)
Definition mine (id : string) (l : list (Z * string)) : list Z :=
  map fst (List.filter (fun e => eqb e.2 id) l).

Definition delete_all (l : list Z) (m : gmap string string) : gmap string string :=
  fold_left (fun m a => delete (lease_file a) m) l m.

Lemma free_all_spec path m id freed l :
  NoDup (map fst l) -> Forall (fun e => Word.is_u32 e.1 /\ m !! lease_file e.1 <> None) l ->
  free_all no_faults path m id freed l =
    (Ok (sort_by Z.leb (freed ++ mine id l)%list), delete_all (mine id l) m).
Proof.
  unfold mine. revert m freed. induction l as [|[a h] l IH]; intros m freed Hn Hl; cbn [free_all].
  { simpl. by rewrite app_nil_r. }
  apply list_relations.list.NoDup_cons in Hn as [Ha Hn]. inversion Hl as [| ? ? [Hu Hp] Hl']. subst.
  cbn [List.filter snd]. destruct (eqb h id); [| by rewrite IH].
  cbn [fst] in Hp. destruct (m !! lease_file a) as [c |]; [| done]. cbn [remove_fails no_faults].
  rewrite IH; [| done |]; cbn [map fst delete_all fold_left].
  - by rewrite <- app_assoc.
  - rewrite List.Forall_forall in Hl' |- *. intros [b hb] Hb. destruct (Hl' _ Hb) as [Hub Hpb]. split; [done |].
    cbn [fst] in *. rewrite lookup_delete_ne; [done |]. intros E%lease_file_inj; [| done | done]. subst b.
    apply Ha, list_elem_of_In, in_map_iff. by exists (a, hb).
Qed.

Lemma delete_all_get l m f :
  delete_all l m !! f = if existsb (fun a => eqb (lease_file a) f) l then None else m !! f.
Proof.
  unfold delete_all. revert m. induction l as [|a l IH]; intros m; [done |]. cbn [fold_left existsb].
  rewrite IH. unfold eqb at 2. destruct (existsb _ l); [by rewrite orb_true_r |]. rewrite orb_false_r.
  case_bool_decide as E; [subst; apply lookup_delete_eq | by apply lookup_delete_ne].
Qed.

Lemma lease_list_NoDup m : NoDup (map fst (lease_list no_faults m)).
Proof.
  unfold lease_list. rewrite sort_by_perm. pose proof (NoDup_fst_map_to_list m) as Hn.
  induction (map_to_list m) as [|e l IH]; [constructor |]. csimpl.
  apply list_relations.list.NoDup_cons in Hn as [He Hn].
  destruct (read_lease no_faults e) as [[a h] |] eqn:E; [| by apply IH]. simpl.
  apply list_relations.list.NoDup_cons. split; [| by apply IH].
  intros Hin%list_elem_of_In%in_map_iff. destruct Hin as ([b hb] & Hb & Hin). simpl in Hb. subst b.
  apply list_elem_of_In, list_elem_of_omap in Hin as (e' & He' & E').
  apply read_lease_spec in E as (E & _ & _), E' as (E' & _ & _). apply He. rewrite E, <- E'.
  apply list_elem_of_fmap. eauto.
Qed.

(** ** Concurrent ADDs, at the grain of their system calls

    The directory exists and nothing else removes files from it.  Listing it is
    one step for each entry and may miss or repeat any of them; reading a lease
    and writing one move any number of bytes at a time; every call may fail. *)

(** How a system call ends. *)
Module Ev.
Inductive t : Type :=
  | Done
  | Entry (name : string)
  | Bytes (chunk : string)
  | End
  | Fault.
End Ev.

Module Pc.
Inductive t : Type :=
  | Start
  | OpenDir
  | Listing (out : list (Z * string))
  | OpenLease (out : list (Z * string)) (addr : Z)
  | ReadLease (out : list (Z * string)) (addr : Z) (got : string)
  | Try (rest : list Z)
  | Write (addr : Z) (written rest : string)
  | Done (r : result Z IpamError.t).
End Pc.

Record Proc : Type := mkProc { proc_id : string; proc_pc : Pc.t }.

(** The end of [find_by_container], and the loop it leads to. *)
Definition scan_end (c : Cidr) (id : string) (out : list (Z * string)) : Pc.t :=
  match List.find (fun e => eqb e.2 id) (sort_by lease_le out) with
  | Some (existing, _) => Pc.Done (Ok existing)
  | None => Pc.Try (assignable c)
  end.

(** Where [write_all] stands. *)
Definition write_rest (addr : Z) (written rest : string) : Pc.t :=
  match rest with "" => Pc.Done (Ok addr) | _ => Pc.Write addr written rest end.

(** One system call of [leases], which [allocate] starts with: an entry of the
    directory, the opening of a lease, a read of some of its bytes or of its end.
    What cannot be listed or read is skipped. *)
Definition list_step (c : Cidr) (m : gmap string string) (p : Proc) (e : Ev.t) : option Pc.t :=
  match proc_pc p, e with
  | Pc.Listing out, Ev.Entry name =>
      match m !! name, parse_ipv4 name with
      | None, _ => None
      | Some _, Some addr => Some (Pc.OpenLease out addr)
      | Some _, None => Some (Pc.Listing out)
      end
  | Pc.Listing out, Ev.Fault => Some (Pc.Listing out)
  | Pc.Listing out, Ev.End => Some (scan_end c (proc_id p) out)
  | Pc.OpenLease out addr, Ev.Done =>
      if is_some (m !! lease_file addr) then Some (Pc.ReadLease out addr "") else None
  | Pc.OpenLease out addr, Ev.Fault => Some (Pc.Listing out)
  | Pc.ReadLease out addr got, Ev.Bytes chunk =>
      match m !! lease_file addr >>? strip_prefix got >>? strip_prefix chunk with
      | Some _ => Some (Pc.ReadLease out addr (got ++ chunk))
      | None => None
      end
  | Pc.ReadLease out addr got, Ev.End =>
      if eqb (m !! lease_file addr) (Some got)
      then Some (Pc.Listing (out ++ [(addr, trim got)])%list) else None
  | Pc.ReadLease out addr got, Ev.Fault => Some (Pc.Listing out)
  | _, _ => None
  end.

(** One system call of [allocate]; [None] where it cannot end that way. *)
Definition proc_step (c : Cidr) (m : gmap string string) (p : Proc) (e : Ev.t)
  : option (gmap string string * Proc) :=
  let go pc := mkProc (proc_id p) pc in
  let failed := Some (m, go (Pc.Done (Err (IpamError.Store "")))) in
  match proc_pc p, e with
  | Pc.Start, Ev.Done => Some (m, go Pc.OpenDir)
  | Pc.Start, Ev.Fault => failed
  | Pc.OpenDir, Ev.Done => Some (m, go (Pc.Listing []))
  | Pc.OpenDir, Ev.Fault => failed
  | Pc.Try [], Ev.Done => Some (m, go (Pc.Done (Err (IpamError.Exhausted (cidr_to_string c)))))
  | Pc.Try (a :: rest), Ev.Done =>
      match m !! lease_file a with
      | Some _ => Some (m, go (Pc.Try rest))
      | None => Some (<[lease_file a := ""]> m, go (write_rest a "" (proc_id p)))
      end
  | Pc.Try (a :: rest), Ev.Fault => failed
  | Pc.Write a written rest, Ev.Bytes chunk =>
      match strip_prefix chunk rest with
      | Some rest =>
          Some (<[lease_file a := written ++ chunk]> m, go (write_rest a (written ++ chunk) rest))
      | None => None
      end
  | Pc.Write _ _ _, Ev.Fault => failed
  | _, _ => option_map (fun pc => (m, go pc)) (list_step c m p e)
  end.

Inductive adds (c : Cidr) : gmap string string -> list Proc -> gmap string string -> list Proc -> Prop :=
  | adds_none m ps : adds c m ps m ps
  | adds_more m ps m1 ps1 i p e m2 p2 :
      adds c m ps m1 ps1 -> ps1 !! i = Some p -> proc_step c m1 p e = Some (m2, p2) ->
      adds c m ps m2 (<[i := p2]> ps1).

(** Alone and without faults, listing each entry once and reading it whole, the
    steps are [allocate]. *)
Fixpoint run_alone (c : Cidr) (m : gmap string string) (p : Proc) (es : list Ev.t)
  : option (gmap string string * Proc) :=
  match es with
  | [] => Some (m, p)
  | e :: es => match proc_step c m p e with Some (m, p) => run_alone c m p es | None => None end
  end.

Lemma run_alone_app c m p es es' :
  run_alone c m p (es ++ es') =
    match run_alone c m p es with Some (m, p) => run_alone c m p es' | None => None end.
Proof.
  revert m p. induction es as [|e es IH]; intros m p; [done |]. cbn [app run_alone].
  destruct (proc_step c m p e) as [[m' p'] |]; [apply IH | done].
Qed.

(** The calls that list one entry. *)
Definition entry_events (e : string * string) : list Ev.t :=
  Ev.Entry e.1 :: match parse_ipv4 e.1 with
                  | Some _ => [Ev.Done; Ev.Bytes e.2; Ev.End]
                  | None => []
                  end.

Lemma run_entry c m id out e :
  m !! e.1 = Some e.2 ->
  run_alone c m (mkProc id (Pc.Listing out)) (entry_events e) =
    Some (m, mkProc id (Pc.Listing (out ++ match read_lease no_faults e with Some l => [l] | None => [] end)%list)).
Proof.
  destruct e as [f x]. cbn [fst snd]. intros He. unfold entry_events, read_lease. cbn [fst snd run_alone].
  unfold proc_step at 1, list_step. cbn [proc_pc proc_id]. rewrite He.
  destruct (parse_ipv4 f) as [a |] eqn:Ea; cbn [mbind option_bind option_map]; [| by rewrite app_nil_r].
  apply print_parse_ipv4 in Ea as [-> Hu]. change (ipv4_to_string a) with (lease_file a) in *.
  cbn [run_alone unreadable no_faults]. unfold proc_step at 1, list_step. cbn [proc_pc proc_id].
  rewrite He. cbn [is_some option_map]. unfold proc_step at 1, list_step. cbn [proc_pc proc_id].
  rewrite He. cbn [mbind option_bind strip_prefix]. rewrite strip_prefix_self. cbn [option_map].
  unfold proc_step, list_step. cbn [proc_pc proc_id]. rewrite He. change ("" ++ x) with x. by rewrite eqb_refl.
Qed.

Lemma run_entries c m id l out :
  Forall (fun e => m !! e.1 = Some e.2) l ->
  run_alone c m (mkProc id (Pc.Listing out)) (concat (map entry_events l)) =
    Some (m, mkProc id (Pc.Listing (out ++ omap (read_lease no_faults) l)%list)).
Proof.
  intros Hl. revert out. induction Hl as [|e l He _ IH]; intros out; [by rewrite app_nil_r |].
  cbn [map concat]. rewrite run_alone_app, run_entry, IH by done. csimpl.
  destruct (read_lease no_faults e); [by rewrite <- app_assoc | by rewrite app_nil_r].
Qed.

Definition write_events (id : string) : list Ev.t := match id with "" => [] | _ => [Ev.Bytes id] end.

(** One try for each address that is taken, then the create and the write. *)
Fixpoint try_events (m : gmap string string) (id : string) (l : list Z) : list Ev.t :=
  Ev.Done :: match l with
             | [] => []
             | a :: l => match m !! lease_file a with
                         | Some _ => try_events m id l
                         | None => write_events id
                         end
             end.

Lemma run_try c m id l :
  run_alone c m (mkProc id (Pc.Try l)) (try_events m id l) =
    (let '(r, m') := claim no_faults "" m c id l in Some (m', mkProc id (Pc.Done r))).
Proof.
  induction l as [|a l IH]; cbn [try_events run_alone]; unfold proc_step;
    cbn [proc_pc proc_id claim create_fails write_fails no_faults]; [done |].
  destruct (m !! lease_file a) eqn:E; [apply IH |]. destruct id as [|x id]; [done |].
  cbn [write_rest write_events run_alone]. unfold proc_step. cbn [proc_pc proc_id].
  rewrite strip_prefix_self.
  cbn [write_rest run_alone]. by rewrite insert_insert_eq.
Qed.

Lemma alone_is_allocate c m id :
  exists es, run_alone c m (mkProc id Pc.Start) es =
    (let '(r, d) := allocate no_faults "" (Some m) c id in Some (files d, mkProc id (Pc.Done r))).
Proof.
  unfold allocate, find_by_container, leases. cbn [create_dir_fails read_dir_fails no_faults].
  change (files (Some m)) with m.
  exists ([Ev.Done; Ev.Done] ++ (concat (map entry_events (map_to_list m)) ++
    (Ev.End :: match List.find (fun e => eqb e.2 id) (lease_list no_faults m) with
               | Some _ => []
               | None => try_events m id (assignable c)
               end)))%list.
  cbn [app run_alone]. unfold proc_step at 1 2. cbn [proc_pc proc_id].
  rewrite run_alone_app, run_entries.
  2: { apply Forall_forall. intros [f x] Hx. by apply elem_of_map_to_list in Hx. }
  cbn [app run_alone]. unfold proc_step at 1, list_step. cbn [proc_pc proc_id]. unfold scan_end.
  fold (lease_list no_faults m). destruct (List.find _ _) as [[a h] |]; cbn [option_map fst]; [done |].
  rewrite run_try. by destruct (claim _ _ _ _ _).
Qed.

(** ** What each process of a run is entitled to *)

Definition found_ok (m : gmap string string) (id : string) (out : list (Z * string)) : Prop :=
  forall a, In (a, id) out -> holds m a id.

Definition entitled (m : gmap string string) (p : Proc) : Prop :=
  match proc_pc p with
  | Pc.Start | Pc.OpenDir | Pc.Done (Err _) => True
  | Pc.Listing out => found_ok m (proc_id p) out
  | Pc.OpenLease out a => found_ok m (proc_id p) out /\ Word.is_u32 a
  | Pc.ReadLease out a got =>
      found_ok m (proc_id p) out /\ Word.is_u32 a /\ exists rest, m !! lease_file a = Some (got ++ rest)
  | Pc.Try l => Forall Word.is_u32 l
  | Pc.Write a written rest =>
      Word.is_u32 a /\ m !! lease_file a = Some written /\ proc_id p = written ++ rest /\ rest <> ""
  | Pc.Done (Ok a) => holds m a (proc_id p)
  end.

Definition writing (p : Proc) : option Z := match proc_pc p with Pc.Write a _ _ => Some a | _ => None end.

Definition adds_ok (m : gmap string string) (ps : list Proc) : Prop :=
  (forall i p, ps !! i = Some p -> entitled m p) /\
  forall i j p q a, i <> j -> ps !! i = Some p -> ps !! j = Some q ->
    writing p = Some a -> writing q <> Some a.

(** Container ids as a runtime gives them: not empty, not padded, and none of
    them what is there while another is being written. *)
Definition ids_ok (ids : list string) : Prop :=
  (forall x, In x ids -> x <> "" /\ trim x = x) /\
  forall x y written rest, In x ids -> In y ids -> y = written ++ rest -> trim written = x -> rest = "".

(** What one step may do to the directory: nothing, claim a file that was not
    there, or append to the file the process is writing. *)
Definition extends (p : Proc) (m m' : gmap string string) : Prop :=
  m' = m \/
  (exists a l, proc_pc p = Pc.Try (a :: l) /\ m !! lease_file a = None /\ m' = <[lease_file a := ""]> m) \/
  (exists a written chunk rest, proc_pc p = Pc.Write a written (chunk ++ rest) /\
     m' = <[lease_file a := written ++ chunk]> m).

Lemma proc_step_id c m p e m' p' : proc_step c m p e = Some (m', p') -> proc_id p' = proc_id p.
Proof. unfold proc_step, option_map. intros H. repeat case_match; simplify_eq; done. Qed.

Lemma proc_step_extends c m p e m' p' : proc_step c m p e = Some (m', p') -> extends p m m'.
Proof.
  unfold proc_step, extends, option_map. intros H. repeat case_match; simplify_eq; try (by left); right.
  - left. eauto.
  - right. apply strip_prefix_Some in H2 as ->. eauto 6.
Qed.

Section Extends.
Variable ids : list string.
Hypothesis Hids : ids_ok ids.
Context (p : Proc) (m m' : gmap string string).
Hypothesis Hp : In (proc_id p) ids.
Hypothesis He : entitled m p.
Hypothesis Hx : extends p m m'.

Lemma extends_content f x :
  m !! f = Some x -> exists y, m' !! f = Some (x ++ y) /\
    (y = "" \/ exists rest, proc_id p = x ++ y ++ rest).
Proof.
  intros Hf. destruct Hx as [-> | [(a & l & _ & Hn & ->) | (a & w & chunk & rest & Hpc & ->)]].
  - exists "". rewrite string_app_nil_r. auto.
  - exists "". rewrite string_app_nil_r, lookup_insert_ne by congruence. auto.
  - unfold entitled in He. rewrite Hpc in He. destruct He as (_ & Hw & Hid & _).
    destruct (decide (lease_file a = f)) as [<- | Hne].
    + assert (w = x) as -> by congruence. exists chunk. rewrite lookup_insert_eq. split; [done |]. right.
      by exists rest.
    + exists "". rewrite string_app_nil_r, lookup_insert_ne by done. auto.
Qed.

Lemma holds_extends a x : In x ids -> holds m a x -> holds m' a x.
Proof.
  intros Hin (Ha & c & Hc & Ht). destruct (extends_content _ _ Hc) as (y & Hy & [-> | [rest Hr]]).
  - rewrite string_app_nil_r in Hy. split; eauto.
  - pose proof (proj2 Hids x _ c (y ++ rest) Hin Hp Hr Ht) as Hn. destruct y; [| done]. rewrite string_app_nil_r in Hy. split; eauto.
Qed.

Lemma found_extends x out : In x ids -> found_ok m x out -> found_ok m' x out.
Proof. intros Hin Ho a Ha. apply holds_extends; auto. Qed.

Lemma reads_extends f got : (exists rest, m !! f = Some (got ++ rest)) -> exists rest, m' !! f = Some (got ++ rest).
Proof.
  intros [rest Hr]. destruct (extends_content _ _ Hr) as (y & Hy & _). exists (rest ++ y).
  by rewrite <- string_app_assoc.
Qed.

(** A step keeps what the others are entitled to. *)
Lemma entitled_extends q :
  In (proc_id q) ids -> (forall a, writing p = Some a -> writing q <> Some a) ->
  entitled m q -> entitled m' q.
Proof.
  unfold entitled. intros Hq Hw. destruct (proc_pc q) as [| | out | out a | out a got | l | a w rest | [a | e]] eqn:E;
    try done.
  - by apply found_extends.
  - intros [Ho Ha]. split; [by apply found_extends | done].
  - intros (Ho & Ha & Hr). split_and!; [by apply found_extends | done | by apply reads_extends].
  - intros (Ha & Hm & Hid & Hne). split_and!; try done.
    destruct Hx as [-> | [(b & l & _ & Hn & ->) | (b & w' & chunk & rest' & Hpc & ->)]]; [done | |].
    + rewrite lookup_insert_ne; [done | congruence].
    + rewrite lookup_insert_ne; [done |]. pose proof He as He'. unfold entitled in He'. rewrite Hpc in He'.
      intros Ef%lease_file_inj; [| apply He' | done]. subst b. apply (Hw a); unfold writing; [by rewrite Hpc | by rewrite E].
  - by apply holds_extends.
Qed.
End Extends.

Lemma scan_end_entitled c m id out :
  cidr_ok c -> found_ok m id out -> entitled m (mkProc id (scan_end c id out)).
Proof.
  intros Hc Ho. unfold entitled, scan_end. cbn [proc_pc proc_id].
  destruct (List.find _ _) as [[a h] |] eqn:E; cbn [proc_pc].
  - apply List.find_some in E as [Hin He]. apply eqb_sound in He. cbn [snd] in He. subst h.
    apply sort_by_In in Hin. by apply Ho.
  - apply Forall_forall. intros a Ha. by apply (assignable_u32 c).
Qed.

Lemma write_rest_entitled m id a written rest :
  Word.is_u32 a -> trim id = id -> id = written ++ rest -> m !! lease_file a = Some written ->
  entitled m (mkProc id (write_rest a written rest)).
Proof.
  intros Ha Ht Hid Hm. unfold entitled, write_rest. cbn [proc_pc proc_id]. destruct rest as [|x rest]; cbn [proc_pc].
  - rewrite string_app_nil_r in Hid. split; [done |]. exists written. by subst.
  - by split_and!.
Qed.

Lemma some_pair_eq {A B} (a a' : A) (b b' : B) : Some (a, b) = Some (a', b') -> a = a' /\ b = b'.
Proof. by intros [= -> ->]. Qed.

(** Listing leaves the process with what it is entitled to next, and writes
    nothing. *)
Lemma list_step_entitled c m p e pc :
  cidr_ok c -> list_step c m p e = Some pc -> entitled m p -> entitled m (mkProc (proc_id p) pc).
Proof.
  intros Hc Hs He. unfold list_step in Hs. unfold entitled in He.
  destruct (proc_pc p) as [| | out | out a | out a got | l | a w rest | r]; destruct e as [| name | chunk | |];
    try discriminate Hs; try (injection Hs as <-; first [exact He | apply He]).
  - destruct (m !! name) eqn:En; [| done]. destruct (parse_ipv4 name) as [a |] eqn:Ea; injection Hs as <-; [| done].
    apply print_parse_ipv4 in Ea as [_ Ha]. by split.
  - injection Hs as <-. by apply scan_end_entitled.
  - destruct (m !! lease_file a) as [x |] eqn:Em; [| done]. injection Hs as <-. destruct He as [Ho Ha].
    split_and!; try done. by exists x.
  - destruct (m !! lease_file a) as [x |] eqn:Em; [| done]. cbn [mbind option_bind] in Hs.
    destruct (strip_prefix got x) as [y |] eqn:Ey; [| done]. cbn [mbind option_bind] in Hs.
    destruct (strip_prefix chunk y) as [z |] eqn:Ez; [| done]. injection Hs as <-.
    apply strip_prefix_Some in Ey as ->, Ez as ->. destruct He as (Ho & Ha & _). split_and!; try done.
    exists z. by rewrite string_app_assoc.
  - destruct (eqb (m !! lease_file a) (Some got)) eqn:Eg; [| done]. injection Hs as <-.
    apply eqb_sound in Eg. destruct He as (Ho & Ha & _).
    change (found_ok m (proc_id p) (out ++ [(a, trim got)])%list). intros b Hb.
    apply in_app_iff in Hb as [Hb | [Hb | []]]; [exact (Ho b Hb) |].
    injection Hb as <- Hb. split; [exact Ha |]. exists got. split; [exact Eg | exact Hb].
Qed.

Lemma list_step_writing c m p e pc : list_step c m p e = Some pc -> writing (mkProc (proc_id p) pc) = None.
Proof. unfold list_step, scan_end. intros Hs. repeat case_match; simplify_eq; done. Qed.

(** A step leaves the process with what it is entitled to next. *)
Lemma proc_step_entitled ids c m p e m' p' :
  cidr_ok c -> ids_ok ids -> In (proc_id p) ids -> proc_step c m p e = Some (m', p') ->
  entitled m p -> entitled m' p'.
Proof.
  intros Hc Hids Hin Hs He. destruct (proj1 Hids _ Hin) as [_ Ht]. pose proof He as He'.
  pose proof (fun pc Hpc => list_step_entitled c m p e pc Hc Hpc He) as Hl.
  unfold proc_step in Hs. unfold entitled in He'. generalize dependent (list_step c m p e). intros step Hs Hl.
  assert (option_map (fun pc => (m, mkProc (proc_id p) pc)) step = Some (m', p') -> entitled m' p') as Hstep.
  { destruct step as [pc |]; cbn [option_map]; [| done]. intros Hq. apply some_pair_eq in Hq as [<- <-]. by apply Hl. }
  destruct (proc_pc p) as [| | out | out a | out a got | [|a l] | a w rest | r] eqn:E; destruct e as [| name | chunk | |];
    cbv zeta in Hs; try (exact (Hstep Hs)); try (apply some_pair_eq in Hs as [<- <-]; exact I).
  - apply some_pair_eq in Hs as [<- <-]. by intros a Ha.
  - apply List.Forall_cons_iff in He' as [Ha Hf].
    destruct (m !! lease_file a) eqn:Em; apply some_pair_eq in Hs as [<- <-]; [exact Hf |].
    apply write_rest_entitled; [exact Ha | exact Ht | reflexivity | apply lookup_insert_eq].
  - destruct (strip_prefix chunk rest) as [rest' |] eqn:Er; [| done]. apply some_pair_eq in Hs as [<- <-].
    apply strip_prefix_Some in Er as ->. destruct He' as (Ha & Hm & Hid & _).
    apply write_rest_entitled; [exact Ha | exact Ht | by rewrite string_app_assoc | apply lookup_insert_eq].
Qed.

(** What a process starts to write was not there before. *)
Lemma proc_step_writing c m p e m' p' a :
  proc_step c m p e = Some (m', p') -> writing p' = Some a ->
  writing p = Some a \/ m !! lease_file a = None.
Proof.
  pose proof (list_step_writing c m p e) as Hl. unfold proc_step. intros Hs Hw.
  generalize dependent (list_step c m p e). intros step Hl Hs.
  assert (option_map (fun pc => (m, mkProc (proc_id p) pc)) step = Some (m', p') -> False) as Hstep.
  { destruct step as [pc |]; cbn [option_map]; [| done]. intros Hq. apply some_pair_eq in Hq as [_ <-].
    by rewrite (Hl pc eq_refl) in Hw. }
  assert (forall b w rest, writing (mkProc (proc_id p) (write_rest b w rest)) = Some a -> b = a) as Hr.
  { intros b w [|x rest]; unfold writing, write_rest; cbn [proc_pc]; congruence. }
  destruct (proc_pc p) as [| | out | out b | out b got | [|b l] | b w rest | r] eqn:E; destruct e as [| name | chunk | |];
    cbv zeta in Hs; try (destruct (Hstep Hs)); repeat case_match; try discriminate Hs;
    apply some_pair_eq in Hs as [<- <-]; try discriminate Hw.
  - right. apply Hr in Hw as <-. assumption.
  - left. apply Hr in Hw as <-. unfold writing. by rewrite E.
Qed.

Lemma adds_step_ok ids c m ps i p e m' p' :
  cidr_ok c -> ids_ok ids -> map proc_id ps = ids -> adds_ok m ps ->
  ps !! i = Some p -> proc_step c m p e = Some (m', p') -> adds_ok m' (<[i := p']> ps).
Proof.
  intros Hc Hids Hmap [He Hw] Hi Hs.
  assert (forall j q, ps !! j = Some q -> In (proc_id q) ids) as Hin.
  { intros j q Hq. rewrite <- Hmap. apply in_map, list_elem_of_In. by eapply list_elem_of_lookup_2. }
  assert (forall j q a, i <> j -> ps !! j = Some q -> writing p' = Some a -> writing q <> Some a) as Hnew.
  { intros j q a Hij Hq Hp'. destruct (proc_step_writing _ _ _ _ _ _ _ Hs Hp') as [Hwp | Hn]; [by eapply Hw |].
    specialize (He j q Hq). unfold writing, entitled in *. destruct (proc_pc q); try done. intros [= ->].
    destruct He as (_ & He & _). congruence. }
  split.
  - intros j q Hq. apply list_lookup_insert_Some in Hq as [(<- & <- & _) | [Hij Hq]].
    + eapply proc_step_entitled; eauto.
    + eapply (entitled_extends ids Hids p m m'); eauto using proc_step_extends.
  - intros j k q r a Hjk Hq Hr.
    apply list_lookup_insert_Some in Hq as [(<- & <- & _) | [Hij Hq]];
      apply list_lookup_insert_Some in Hr as [(<- & <- & _) | [Hik Hr]]; eauto.
    intros Hqa Hpa. by eapply (Hnew j q a).
Qed.

Lemma adds_invariant c m0 ps0 m ps :
  cidr_ok c -> ids_ok (map proc_id ps0) -> adds_ok m0 ps0 -> adds c m0 ps0 m ps ->
  adds_ok m ps /\ map proc_id ps = map proc_id ps0.
Proof.
  intros Hc Hids Hok. induction 1 as [| m0 ps0 m ps i p e m' p' Hadds IH Hi Hs]; [done |].
  destruct (IH Hids Hok) as [Hinv Hid]. split; [by eapply adds_step_ok; eauto; rewrite Hid |].
  rewrite <- Hid. change (map proc_id) with (fmap (M := list) proc_id).
  rewrite list_fmap_insert, (proc_step_id _ _ _ _ _ _ Hs). apply list_insert_id. rewrite list_lookup_fmap. by rewrite Hi.
Qed.

(** ** Theorems *)

(** ADD is exact.  A container that has a lease is given it again, and
    nothing changes; otherwise it is given the lowest address of the range whose
    lease file does not exist, and that file is the only change; it fails only
    when every assignable address is leased, and then changes nothing.  Asking
    again gives the same address and changes nothing more. *)
Theorem allocate_exact path d c id :
  cidr_ok c -> trim id = id ->
  let out := allocate no_faults path d c id in
  match out.1 with
  | Ok a =>
      holds (files out.2) a id /\ allocate no_faults path out.2 c id = out /\
      (holds (files d) a id /\ out.2 = Some (files d) \/
       (forall b, ~ holds (files d) b id) /\ a ∈ assignable c /\ files d !! lease_file a = None /\
       (forall b, b ∈ assignable c -> b < a -> files d !! lease_file b <> None) /\
       out.2 = Some (<[lease_file a := id]> (files d)))
  | Err e =>
      e = IpamError.Exhausted (cidr_to_string c) /\ out.2 = Some (files d) /\
      (forall b, ~ holds (files d) b id) /\ forall b, b ∈ assignable c -> files d !! lease_file b <> None
  end.
Proof.
  intros Hc Ht out. unfold out, allocate. cbn [create_dir_fails no_faults].
  pose proof (find_by_container_spec path (files d) id) as Hf.
  destruct (find_by_container no_faults path (Some (files d)) id) as [[a |] | e] eqn:E; cbn [fst snd]; [| | done].
  { change (files (Some (files d))) with (files d). rewrite E. auto. }
  pose proof (claim_spec path (files d) c id (assignable c)) as Hs.
  destruct (claim no_faults path (files d) c id (assignable c)) as [[a | e] m']; cbn [fst snd].
  - destruct Hs as (l1 & l2 & Hl & Ha & Hlow & ->).
    assert (a ∈ assignable c) as Hin by (rewrite Hl; apply elem_of_app; right; apply elem_of_cons; by left).
    pose proof (assignable_u32 c a Hc Hin) as Hu.
    assert (holds (files (Some (<[lease_file a := id]> (files d)))) a id) as Hh.
    { split; [done |]. exists id. split; [apply lookup_insert_eq | done]. }
    split_and!; [exact Hh | | right; split_and!; auto].
    + pose proof (find_by_container_spec path (<[lease_file a := id]> (files d)) id) as Hf'.
      change (files (Some (<[lease_file a := id]> (files d)))) with (<[lease_file a := id]> (files d)) in *.
      destruct (find_by_container no_faults path (Some (<[lease_file a := id]> (files d))) id) as [[b |] | ?];
        [| by destruct (Hf' a) | done].
      destruct Hf' as (Hb & x & Hx & Htx). destruct (decide (lease_file a = lease_file b)) as [Ef | Ef].
      * apply lease_file_inj in Ef; [by subst | done | done].
      * rewrite lookup_insert_ne in Hx by done. destruct (Hf b). split; eauto.
    + intros b Hb Hlt. rewrite Hl in Hb. apply elem_of_app in Hb as [Hb | [-> | Hb]%elem_of_cons]; [auto | lia |].
      apply list_elem_of_split in Hb as (l3 & l4 & ->).
      pose proof (assignable_lt c b a (l1 ++ a :: l3) l4) as Hab. rewrite <- app_assoc in Hab.
      assert (a ∈ (l1 ++ a :: l3)%list) as Hmem by (apply elem_of_app; right; apply elem_of_cons; by left).
      specialize (Hab Hl Hmem). lia.
  - destruct Hs as (-> & -> & Hall). auto.
Qed.

(** DEL frees exactly the container's addresses: the ones it reports are those
    the container held, their lease files are gone, and every other file of the
    directory, other containers' leases among them, is as it was; a container
    that holds none is released of nothing. *)
Theorem release_exact path m id :
  exists freed m', release no_faults path (Some m) id = (Ok freed, Some m') /\
    (forall a, In a freed <-> holds m a id) /\
    (forall a, holds m a id -> m' !! lease_file a = None) /\
    (forall f, (forall a, holds m a id -> f <> lease_file a) -> m' !! f = m !! f).
Proof.
  unfold release, leases. cbn [read_dir_fails no_faults].
  rewrite free_all_spec; [| apply lease_list_NoDup |].
  2: { apply List.Forall_forall. intros [a h] (Ha & c & Hc & _)%lease_list_spec. cbn [fst]. by rewrite Hc. }
  assert (forall a, In a (mine id (lease_list no_faults m)) <-> holds m a id) as Hmine.
  { intros a. unfold mine. rewrite in_map_iff. split.
    - intros ([b h] & <- & [Hin Hh]%filter_In). apply lease_list_spec in Hin as (Hb & c & Hc & ->).
      apply eqb_sound in Hh. split; eauto.
    - intros (Ha & c & Hc & <-). exists (a, trim c). split; [done |]. apply filter_In.
      split; [apply lease_list_spec; eauto | apply eqb_refl]. }
  eexists _, _. split_and!; [reflexivity | | |].
  - intros a. rewrite sort_by_In. apply Hmine.
  - intros a Ha. rewrite delete_all_get. destruct (existsb _ _) eqn:E; [done |].
    assert (existsb (fun b => eqb (lease_file b) (lease_file a)) (mine id (lease_list no_faults m)) = true) as E'.
    { apply existsb_exists. exists a. split; [by apply Hmine | apply eqb_refl]. }
    congruence.
  - intros f Hf. rewrite delete_all_get. destruct (existsb _ _) eqn:E; [| done].
    apply existsb_exists in E as (a & Ha & He). apply eqb_sound in He. destruct (Hf a); [by apply Hmine | done].
Qed.

(** (C7) No two containers are given one address, whatever the interleaving: any
    number of ADDs of different containers, run concurrently over one directory,
    preempted between any two of their system calls (each entry listed, each read
    and each write of some bytes) and with any of these calls failing, end with
    different addresses, each leased to the container that got it.  The ids are
    such that none of them is what is there while another is being written, as
    ids of one length are ([one_length_ok]). *)
Theorem concurrent_adds_distinct c m0 ids m ps i j p q a b :
  cidr_ok c -> NoDup ids -> ids_ok ids ->
  adds c m0 (map (fun id => mkProc id Pc.Start) ids) m ps ->
  i <> j -> ps !! i = Some p -> ps !! j = Some q ->
  proc_pc p = Pc.Done (Ok a) -> proc_pc q = Pc.Done (Ok b) ->
  a <> b /\ holds m a (proc_id p) /\ holds m b (proc_id q).
Proof.
  intros Hc Hn Hids Hadds Hij Hp Hq Hpa Hqb.
  assert (map proc_id (map (fun id => mkProc id Pc.Start) ids) = ids) as Hid0 by (rewrite map_map; apply map_id).
  destruct (adds_invariant c _ _ _ _ Hc ltac:(by rewrite Hid0) ltac:(split;
    [intros k r Hr; apply list_elem_of_lookup_2, list_elem_of_In, in_map_iff in Hr as (x & <- & _); done
    | intros k l r s' x _ Hr _; apply list_elem_of_lookup_2, list_elem_of_In, in_map_iff in Hr as (y & <- & _); done])
    Hadds) as [[He _] Hid].
  pose proof (He i p Hp) as Hep. pose proof (He j q Hq) as Heq. unfold entitled in Hep, Heq.
  rewrite Hpa in Hep. rewrite Hqb in Heq. split; [| done]. intros ->.
  destruct Hep as (_ & x & Hx & Hpx), Heq as (_ & y & Hy & Hqy). assert (x = y) as -> by congruence.
  apply Hij. rewrite Hid0 in Hid. rewrite <- Hid in Hn.
  change (NoDup (proc_id <$> ps)) in Hn. eapply (NoDup_lookup _ i j (proc_id p) Hn).
  - by rewrite list_lookup_fmap, Hp.
  - rewrite list_lookup_fmap, Hq. simpl. congruence.
Qed.

(** The address a plugin answers is the pod's: when ADD succeeds, what a
    runtime reads from its result as the pod's IP is an address that parses, that
    the container now holds, and that a second ADD would answer again. *)
Theorem plugin_answers_pod_ip ipam path d id r d' :
  trim id = id -> plugin_add no_faults ipam path d id = (PluginExit.Added r, d') ->
  exists a, pod_ip r = Some (ipv4_to_string a) /\ parse_ipv4 (ipv4_to_string a) = Some a /\
    holds (files d') a id /\ plugin_add no_faults ipam path d' id = (PluginExit.Added r, d').
Proof.
  intros Ht. unfold plugin_add. destruct (jget "subnet" ipam >>? as_str) as [s |]; [| done].
  destruct (cidr_parse s) as [c |] eqn:Ec; [| done].
  assert (cidr_ok c) as Hc.
  { unfold cidr_parse in Ec. destruct (split_once "/" s) as [[x y] |]; [| done].
    destruct (parse_ipv4 x) as [a |] eqn:Ex; [| done].
    destruct (parse_unsigned 255 y) as [p |] eqn:Ep; [| done].
    destruct (32 <? p) eqn:E32; [done |]. injection Ec as <-. apply print_parse_ipv4 in Ex as [_ Ha].
    apply parse_unsigned_range in Ep; [| done]. apply Z.ltb_ge in E32. split; [| simpl; lia].
    cbn [network]. unfold Word.is_u32 in *.
    assert (0 <= mask p) as Hm.
    { unfold mask. destruct (p =? 0); [done |]. apply Z.land_nonneg. right. vm_compute. discriminate. }
    split; [apply Z.land_nonneg; left; lia |]. transitivity a; [| lia]. apply land_le; lia. }
  pose proof (allocate_exact path d c id Hc Ht) as Hal. cbv zeta in Hal.
  destruct (allocate no_faults path d c id) as [[a | e] d1] eqn:Ea; cbn [fst snd] in Hal.
  - destruct Hal as (Hh & Hagain & _). intros [= <- <-]. exists a.
    split_and!; [| apply parse_print_ipv4, Hh | done | by rewrite Hagain].
    unfold pod_ip, ip. cbn [ips List.find sandboxed interface option_map address].
    rewrite split_once_app; [done | apply ipv4_no_slash].
  - by destruct Hal as (-> & _).
Qed.

(** The plugin cannot be asked its versions without a configuration: with
    nothing readable on standard input, VERSION is answered by an error, whatever
    else it is given. *)
Theorem version_needs_config faults id e dir :
  (plugin_main faults "VERSION" id (Err e) dir).1 =
    PluginExit.Failed ERR_UNSUPPORTED_FIELD "config is not valid JSON" (Detail.Text e).
Proof. done. Qed.

(** ** Witnesses: a range of six addresses *)

Definition sample_cidr : Cidr := mkCidr 167772160 29.

Lemma sample_cidr_ok : cidr_ok sample_cidr.
Proof. repeat split; vm_compute; discriminate. Qed.

Lemma allocate_exact_witness :
  holds (files (allocate no_faults "" None sample_cidr "a").2) 167772161 "a".
Proof.
  pose proof (allocate_exact "" None sample_cidr "a" sample_cidr_ok eq_refl) as Ha. cbv zeta in Ha.
  assert ((allocate no_faults "" None sample_cidr "a").1 = Ok 167772161) as E by (vm_compute; reflexivity).
  rewrite E in Ha. exact (proj1 Ha).
Defined.

Lemma plugin_answers_pod_ip_witness :
  exists a, parse_ipv4 "10.0.0.1" = Some a /\
    holds (files (plugin_add no_faults (jobj [("subnet", JString "10.0.0.0/29")]) "" None "a").2) a "a".
Proof.
  destruct (plugin_answers_pod_ip (jobj [("subnet", JString "10.0.0.0/29")]) "" None "a"
    (mkCniResult "1.0.0" [] [mkIpConfig "10.0.0.1/29" "" None] [] (mkDns [] []))
    (plugin_add no_faults (jobj [("subnet", JString "10.0.0.0/29")]) "" None "a").2 eq_refl)
    as (a & Hp & Hq & Hh & _); [vm_compute; reflexivity |].
  exists a. split; [| exact Hh]. change (Some "10.0.0.1" = Some (ipv4_to_string a)) in Hp.
  injection Hp as ->. exact Hq.
Defined.

(** A schedule: which process runs next, and how its call ends. *)
Fixpoint run_schedule (c : Cidr) (m : gmap string string) (ps : list Proc) (sched : list (nat * Ev.t))
  : gmap string string * list Proc :=
  match sched with
  | [] => (m, ps)
  | (i, e) :: sched =>
      match ps !! i with
      | Some p =>
          match proc_step c m p e with
          | Some (m, p) => run_schedule c m (<[i := p]> ps) sched
          | None => run_schedule c m ps sched
          end
      | None => run_schedule c m ps sched
      end
  end.

Lemma run_schedule_adds c m0 ps0 m ps sched :
  adds c m0 ps0 m ps ->
  adds c m0 ps0 (run_schedule c m ps sched).1 (run_schedule c m ps sched).2.
Proof.
  revert m ps. induction sched as [|[i e] sched IH]; intros m ps Ha; [done |]. cbn [run_schedule].
  destruct (ps !! i) as [p |] eqn:E; [| by apply IH].
  destruct (proc_step c m p e) as [[m' p'] |] eqn:Es; [| by apply IH].
  apply IH. by eapply adds_more.
Qed.

(** Both race for the first address; the second lists the directory while the
    first is in the middle of writing its id. *)
Definition sample_race : gmap string string * list Proc :=
  run_schedule sample_cidr ∅ [mkProc "ax" Pc.Start; mkProc "by" Pc.Start]
    [(0, Ev.Done); (0, Ev.Done); (1, Ev.Done); (1, Ev.Done); (0, Ev.End); (0, Ev.Done); (0, Ev.Bytes "a");
     (1, Ev.Entry "10.0.0.1"); (1, Ev.Done); (1, Ev.Bytes "a"); (1, Ev.End); (1, Ev.End);
     (1, Ev.Done); (0, Ev.Bytes "x"); (1, Ev.Done); (1, Ev.Bytes "by")]%nat.

Lemma string_app_length a b : String.length (a ++ b) = (String.length a + String.length b)%nat.
Proof. induction a as [|x a IH]; [done |]. change (String x a ++ b) with (String x (a ++ b)). simpl. by rewrite IH. Qed.

Lemma trim_start_length s : (String.length (trim_start s) <= String.length s)%nat.
Proof.
  induction s as [s IH] using (induction_ltof1 _ String.length). unfold ltof in IH.
  destruct s as [|a [|b [|c v]]]; cbn [trim_start]; repeat case_match; simpl in *; try lia.
  all: match goal with |- context [trim_start ?t] => specialize (IH t); simpl in IH; lia end.
Qed.

Lemma trim_back_length s : (String.length (trim_back s) <= String.length s)%nat.
Proof.
  induction s as [s IH] using (induction_ltof1 _ String.length). unfold ltof in IH.
  destruct s as [|a [|b [|c v]]]; cbn [trim_back]; repeat case_match; simpl in *; try lia.
  all: match goal with |- context [trim_back ?t] => specialize (IH t); simpl in IH; lia end.
Qed.

Lemma string_rev_app_length s t : String.length (String.rev_app s t) = (String.length s + String.length t)%nat.
Proof. revert t. induction s as [|x s IH]; intros t; [done |]. cbn [String.rev_app]. rewrite IH. simpl. lia. Qed.

Lemma trim_length s : (String.length (trim s) <= String.length s)%nat.
Proof.
  unfold trim, trim_end, String.rev. rewrite string_rev_app_length.
  pose proof (trim_back_length (String.rev_app (trim_start s) "")) as Hb. rewrite string_rev_app_length in Hb.
  pose proof (trim_start_length s). simpl in *. lia.
Qed.

(** Ids of one length, as runtimes generate them, are safe. *)
Lemma one_length_ok n ids :
  (forall x, In x ids -> x <> "" /\ trim x = x /\ String.length x = n) -> ids_ok ids.
Proof.
  intros H. split; [intros x Hx; split; apply (H x Hx) |].
  intros x y w rest Hx Hy -> Ht. destruct (H _ Hx) as (_ & _ & Hlx), (H _ Hy) as (_ & _ & Hly).
  rewrite string_app_length in Hly. pose proof (trim_length w) as Hw. rewrite Ht in Hw.
  destruct rest; [done |]. simpl in Hly. lia.
Qed.

Lemma concurrent_adds_distinct_witness :
  holds sample_race.1 167772161 "ax" /\ holds sample_race.1 167772162 "by".
Proof.
  refine (proj2 (concurrent_adds_distinct sample_cidr ∅ ["ax"; "by"] sample_race.1 sample_race.2 0 1
    (mkProc "ax" (Pc.Done (Ok 167772161))) (mkProc "by" (Pc.Done (Ok 167772162))) 167772161 167772162
    sample_cidr_ok _ _ _ _ _ _ _ _)); try (vm_compute; reflexivity); try discriminate.
  - refine (bool_decide_unpack (NoDup _) _). vm_compute. exact I.
  - apply (one_length_ok 2). intros x [<- | [<- | []]]; split_and!; vm_compute; (reflexivity || discriminate).
  - apply run_schedule_adds, adds_none.
Defined.

(** The condition on the ids is needed: an id that is the beginning of another
    can be found while the other is half written, and both get one address. *)
Lemma half_written_id_found :
  map proc_pc (run_schedule sample_cidr ∅ [mkProc "a" Pc.Start; mkProc "ab" Pc.Start]
    [(1, Ev.Done); (1, Ev.Done); (1, Ev.End); (1, Ev.Done); (1, Ev.Bytes "a"); (0, Ev.Done); (0, Ev.Done);
     (0, Ev.Entry "10.0.0.1"); (0, Ev.Done); (0, Ev.Bytes "a"); (0, Ev.End); (0, Ev.End);
     (1, Ev.Bytes "b")]%nat).2 = [Pc.Done (Ok 167772161); Pc.Done (Ok 167772161)].
Proof. vm_compute. reflexivity. Qed.
