(* ===== verification/SchedFit.v ===== *)
(** * Resource requests and the capacity ledger

    [engenho-scheduler/src/fit.rs] (a pod's effective requests, a node's
    allocatable capacity, the fit predicate) and [ledger.rs] (the signed
    balance of every node for one scheduling pass).  Values are in thousandths
    in an [i128]; sums saturate.  [RequestReader]'s latch is threaded as a
    boolean.  The text of a floating-point JSON number is a parameter.

    The lemmas: requests are never negative, so a charge never credits a node;
    a ledger's balance is the node's allocatable less what was charged, and
    does not depend on the order of the charges. *)

From Stdlib Require Import Sorted Qcanon.
From stdpp Require Import base tactics option list strings numbers pretty.
From S2P Require Import Prelude Text BTreeMap Json Quantity.

Local Open Scope string_scope.
Local Open Scope Z_scope.

(** [Display] of a finite [f64] by [serde_json]. *)
Class FloatText : Type := float_text : Qc -> string.

Definition number_text `{FloatText} (n : number) : string :=
  match n with
  | PosInt z | NegInt z => pretty z
  | Float q => float_text q
  end.

(** [Value::pointer] with a literal two-step path of field names. *)
Definition jptr (a b : string) (v : json) : option json := jget a v >>? jget b.

Record NodeResources : Type := mkNodeResources { free_cpu : Z; free_mem : Z }.

Record PodRequests : Type := mkPodRequests {
  req_cpu : Z;
  req_mem : Z;
  unparseable : bool
}.

#[export] Instance NodeResources_eq_dec : EqDecision NodeResources.
Proof. solve_decision. Defined.
#[export] Instance PodRequests_eq_dec : EqDecision PodRequests.
Proof. solve_decision. Defined.

Definition is_zero (r : PodRequests) : bool :=
  (req_cpu r =? 0) && (req_mem r =? 0) && negb (unparseable r).

Definition quantity_milli (map : option json) (key : string) : option Z :=
  map >>? jget key >>? as_str >>? (fun s =>
  match Quantity.from_str s with
  | Ok q => Quantity.milli_value q
  | Err _ => None
  end).

Definition node_allocatable (node : json) : NodeResources :=
  let status := jget "status" node in
  let allocatable := status >>? jget "allocatable" in
  let capacity := status >>? jget "capacity" in
  let read key :=
    match quantity_milli allocatable key with
    | Some m => m
    | None => default 0 (quantity_milli capacity key)
    end in
  mkNodeResources (read "cpu") (read "memory").

(** ** Pairs *)

Record Pair : Type := mkPair { cpu : Z; mem : Z }.

Definition pair_zero : Pair := mkPair 0 0.

Definition plus (a b : Pair) : Pair :=
  mkPair (Word.i128_saturate (cpu a + cpu b)) (Word.i128_saturate (mem a + mem b)).

Definition max_each (a b : Pair) : Pair :=
  mkPair (Z.max (cpu a) (cpu b)) (Z.max (mem a) (mem b)).

Module InitRole.
Inductive t : Type :=
  | Plain
  | Sidecar.
End InitRole.

(** ** [RequestReader]: every method returns its value and the latch *)

Definition reader : Type := bool.

Definition quantity `{FloatText} (malformed : reader) (v : json) : Z * reader :=
  let parsed :=
    match
      match v with
      | JString s => Some (Quantity.from_str s)
      | JNumber n => Some (Quantity.from_str (number_text n))
      | _ => None
      end
    with
    | Some (Ok q) => Quantity.milli_value q
    | _ => None
    end in
  match parsed with
  | Some milli => if 0 <=? milli then (milli, malformed) else (0, true)
  | None => (0, true)
  end.

(** The closure of [RequestReader::list]: one entry, zero where it is absent. *)
Definition list_entry `{FloatText} (list : option json) (r : reader) (key : string) : Z * reader :=
  match list >>? jget key with
  | Some v => quantity r v
  | None => (0, r)
  end.

Definition resource_list `{FloatText} (malformed : reader) (list : option json) : Pair * reader :=
  let '(c, r) := list_entry list malformed "cpu" in
  let '(m, r) := list_entry list r "memory" in
  (mkPair c m, r).

Definition container `{FloatText} (malformed : reader) (c : json) : Pair * reader :=
  resource_list malformed (jptr "resources" "requests" c).

Definition init_role (malformed : reader) (c : json) : InitRole.t * reader :=
  match jget "restartPolicy" c with
  | None | Some JNull => (InitRole.Plain, malformed)
  | Some (JString s) =>
      if eqb s "Always" then (InitRole.Sidecar, malformed) else (InitRole.Sidecar, true)
  | Some _ => (InitRole.Sidecar, true)
  end.

(** The fields the loop over [initContainers] carries. *)
Record InitScan : Type := mkInitScan {
  total : Pair;
  sidecars : Pair;
  init_peak : Pair
}.

Definition init_step `{FloatText} (st : InitScan * reader) (c : json) : InitScan * reader :=
  let '(s, r) := st in
  let '(own, r) := container r c in
  match init_role r c with
  | (InitRole.Sidecar, r) =>
      let sidecars := plus (sidecars s) own in
      (mkInitScan (plus (total s) own) sidecars (max_each (init_peak s) sidecars), r)
  | (InitRole.Plain, r) =>
      (mkInitScan (total s) (sidecars s) (max_each (init_peak s) (plus own (sidecars s))), r)
  end.

Definition listed (spec : option json) (key : string) : list json :=
  default [] (spec >>? jget key >>? as_array).

Definition pod_requests `{FloatText} (pod : json) : PodRequests :=
  let spec := jget "spec" pod in
  let '(app, r) := fold_left (fun (st : Pair * reader) c =>
      let '(acc, r) := st in
      let '(p, r) := container r c in (plus acc p, r)) (listed spec "containers") (pair_zero, false) in
  let '(scan, r) :=
    fold_left init_step (listed spec "initContainers") (mkInitScan app pair_zero pair_zero, r) in
  let effective := max_each (total scan) (init_peak scan) in
  let '(effective, r) :=
    match spec >>? jptr "resources" "requests" with
    | Some pod_level =>
        let '(effective, r) :=
          match jget "cpu" pod_level with
          | Some v => let '(c, r) := quantity r v in (mkPair c (mem effective), r)
          | None => (effective, r)
          end in
        match jget "memory" pod_level with
        | Some v => let '(m, r) := quantity r v in (mkPair (cpu effective) m, r)
        | None => (effective, r)
        end
    | None => (effective, r)
    end in
  let '(overhead, r) := resource_list r (spec >>? jget "overhead") in
  let effective := plus effective overhead in
  mkPodRequests (cpu effective) (mem effective) r.

Definition fits (free : NodeResources) (req : PodRequests) : bool :=
  if unparseable req then false
  else (req_cpu req <=? free_cpu free) && (req_mem req <=? free_mem free).

(** ** The ledger *)

Module CapacityHold.
Inductive t : Type :=
  | Live
  | Unobserved
  | Released.

Definition holds (self : t) : bool :=
  match self with
  | Live | Unobserved => true
  | Released => false
  end.
End CapacityHold.

(** [engenho-types/src/curated_enums.rs]; [deserialize] reads the variant's name. *)
Module PodPhase.
Inductive t : Type :=
  | Pending
  | Running
  | Succeeded
  | Failed
  | Unknown.

Definition deserialize (v : json) : option t :=
  match v with
  | JString s =>
      if eqb s "Pending" then Some Pending
      else if eqb s "Running" then Some Running
      else if eqb s "Succeeded" then Some Succeeded
      else if eqb s "Failed" then Some Failed
      else if eqb s "Unknown" then Some Unknown
      else None
  | _ => None
  end.
End PodPhase.

Definition holds_capacity (pod : json) : CapacityHold.t :=
  match jptr "status" "phase" pod >>? PodPhase.deserialize with
  | Some (PodPhase.Succeeded | PodPhase.Failed) => CapacityHold.Released
  | Some (PodPhase.Pending | PodPhase.Running) => CapacityHold.Live
  | Some PodPhase.Unknown | None => CapacityHold.Unobserved
  end.

Record Balance : Type := mkBalance { bal_cpu : Z; bal_mem : Z }.

#[export] Instance Balance_eq_dec : EqDecision Balance.
Proof. solve_decision. Defined.

Definition opening (a : NodeResources) : Balance := mkBalance (free_cpu a) (free_mem a).

Definition charge (b : Balance) (req : PodRequests) : Balance :=
  mkBalance (Word.i128_saturate (bal_cpu b - Z.max (req_cpu req) 0))
            (Word.i128_saturate (bal_mem b - Z.max (req_mem req) 0)).

Definition balance_free (b : Balance) : NodeResources :=
  mkNodeResources (Z.max (bal_cpu b) 0) (Z.max (bal_mem b) 0).

Definition node_name_of (node : json) : option string := jptr "metadata" "name" node >>? as_str.

Definition bound_node_of (pod : json) : option string :=
  match jptr "spec" "nodeName" pod >>? as_str with
  | Some s => if eqb s "" then None else Some s
  | None => None
  end.

Module NodeLedger.
Definition t : Type := btmap string Balance.

Definition debit (self : t) (node : string) (req : PodRequests) : t :=
  match bt_get node self with
  | Some b => bt_insert node (charge b req) self
  | None => self
  end.

Definition open (nodes : list json) : t :=
  bt_of_list (omap (fun n => option_map (fun name => (name, opening (node_allocatable n)))
                               (node_name_of n)) nodes).

Definition seed_pod `{FloatText} (ledger : t) (pod : json) : t :=
  match bound_node_of pod with
  | Some node =>
      if CapacityHold.holds (holds_capacity pod) then debit ledger node (pod_requests pod)
      else ledger
  | None => ledger
  end.

Definition seed `{FloatText} (nodes pods : list json) : t := fold_left seed_pod pods (open nodes).

Definition free (self : t) (node : string) : option NodeResources :=
  option_map balance_free (bt_get node self).

Definition fits (self : t) (node : string) (req : PodRequests) : bool :=
  is_some_and (fun f => fits f req) (free self node).

Record Headroom : Type := mkHeadroom { hr_node : string; hr_cpu : Z; hr_mem : Z }.

Definition headroom (self : t) : list Headroom :=
  map (fun e => mkHeadroom e.1 (bal_cpu e.2) (bal_mem e.2)) self.

Definition is_overcommitted (h : Headroom) : bool := (hr_cpu h <? 0) || (hr_mem h <? 0).

Definition headroom_text (h : Headroom) : string :=
  hr_node h ++ " cpu=" ++ pretty (hr_cpu h) ++ "m memory=" ++ pretty (Z.quot (hr_mem h) 1000) ++
  "B " ++ (if is_overcommitted h then "OVERCOMMITTED" else "within").
End NodeLedger.

(** ** Lemmas: requests are never negative *)

Section Requests.
Context `{FloatText}.

(** A pair of amounts a node can be charged. *)
Definition charge_ok (p : Pair) : Prop :=
  0 <= cpu p <= Word.i128_max /\ 0 <= mem p <= Word.i128_max.

Lemma quantity_ok r v : 0 <= (quantity r v).1 <= Word.i128_max.
Proof.
  assert (forall s q m, Quantity.from_str s = Ok q -> Quantity.milli_value q = Some m ->
    m <= Word.i128_max) as Hq.
  { intros s [m sfx|o] m' Hs; simpl; [| done]. intros [= <-].
    apply QuantityFacts.from_str_valid in Hs as [_ Hi]. apply Hi. }
  unfold quantity. destruct v as [| | n | s | |]; simpl; try done;
    (destruct (Quantity.from_str _) as [q|] eqn:E; [| done];
     destruct (Quantity.milli_value q) as [m|] eqn:Em; [| done];
     specialize (Hq _ _ _ E Em); case_match; [| done]; bool_to_prop; simpl; lia).
Qed.

Lemma resource_list_ok r l : charge_ok (resource_list r l).1.
Proof.
  assert (forall r key, 0 <= (list_entry l r key).1 <= Word.i128_max) as Hr.
  { intros r' key. unfold list_entry. destruct (l ≫= jget key); [apply quantity_ok | done]. }
  unfold resource_list, charge_ok.
  pose proof (Hr r "cpu") as Hc. destruct (list_entry l r "cpu") as [c r1].
  pose proof (Hr r1 "memory") as Hm. by destruct (list_entry l r1 "memory").
Qed.

Lemma plus_ok a b : charge_ok a -> charge_ok b -> charge_ok (plus a b).
Proof.
  unfold charge_ok, plus, Word.i128_saturate, Word.saturate, Word.i128_min. simpl. lia.
Qed.

Lemma max_each_ok a b : charge_ok a -> charge_ok b -> charge_ok (max_each a b).
Proof. unfold charge_ok, max_each. simpl. lia. Qed.

Lemma pair_zero_ok : charge_ok pair_zero.
Proof. by repeat split. Qed.

Lemma init_fold_ok l s r :
  charge_ok (total s) -> charge_ok (sidecars s) -> charge_ok (init_peak s) ->
  let s' := (fold_left init_step l (s, r)).1 in
  charge_ok (total s') /\ charge_ok (sidecars s') /\ charge_ok (init_peak s').
Proof.
  revert s r. induction l as [|c l IH]; intros s r Ht Hs Hp; [done |]. cbn [fold_left].
  unfold init_step at 2 4 6. pose proof (resource_list_ok r (jptr "resources" "requests" c)) as Hc.
  fold (container r c) in Hc. destruct (container r c) as [own r1]. simpl in Hc.
  destruct (init_role r1 c) as [[] r2]; apply IH; simpl; auto using plus_ok, max_each_ok.
Qed.

(** A pod's effective request is never negative and never overflows, whatever
    its manifest says. *)
Lemma pod_requests_range pod :
  0 <= req_cpu (pod_requests pod) <= Word.i128_max /\
  0 <= req_mem (pod_requests pod) <= Word.i128_max.
Proof.
  unfold pod_requests. set (spec := jget "spec" pod).
  assert (forall l a r, charge_ok a -> charge_ok (fold_left (fun (st : Pair * reader) c =>
      let '(acc, r) := st in let '(p, r) := container r c in (plus acc p, r)) l (a, r)).1) as Happ.
  { induction l as [|c l IH]; intros a r Ha; [done |]. simpl.
    pose proof (resource_list_ok r (jptr "resources" "requests" c)) as Hc. fold (container r c) in Hc.
    destruct (container r c) as [p r1]. apply IH. by apply plus_ok. }
  specialize (Happ (listed spec "containers") pair_zero false pair_zero_ok).
  destruct (fold_left _ (listed spec "containers") _) as [app r]. simpl in Happ.
  pose proof (init_fold_ok (listed spec "initContainers") (mkInitScan app pair_zero pair_zero) r
                Happ pair_zero_ok pair_zero_ok) as Hi.
  destruct (fold_left init_step _ _) as [scan r1]. destruct Hi as (Ht & _ & Hp). simpl in Ht, Hp.
  assert (charge_ok (max_each (total scan) (init_peak scan))) as He by (by apply max_each_ok).
  revert He. generalize (max_each (total scan) (init_peak scan)) as eff. intros eff He.
  match goal with |- context [match spec ≫= jptr "resources" "requests" with Some _ => _ | None => _ end] =>
    set (lvl := match spec ≫= jptr "resources" "requests" with Some _ => _ | None => _ end) end.
  assert (charge_ok lvl.1) as Hl.
  { subst lvl. destruct (spec ≫= jptr "resources" "requests") as [pl|]; [| done].
    assert (charge_ok (match jget "cpu" pl with
      | Some v => let '(c, r) := quantity r1 v in (mkPair c (mem eff), r)
      | None => (eff, r1) end).1) as Hc.
    { destruct (jget "cpu" pl) as [v|]; [| done]. pose proof (quantity_ok r1 v).
      destruct (quantity r1 v). split; simpl in *; [done | apply He]. }
    destruct (match jget "cpu" pl with Some _ => _ | None => _ end) as [e2 r2]. simpl in Hc.
    destruct (jget "memory" pl) as [v|]; [| done]. pose proof (quantity_ok r2 v).
    destruct (quantity r2 v). split; simpl in *; [apply Hc | done]. }
  destruct lvl as [e2 r2]. simpl in Hl.
  pose proof (resource_list_ok r2 (spec ≫= jget "overhead")) as Ho.
  destruct (resource_list r2 (spec ≫= jget "overhead")) as [ov r3]. simpl in *.
  apply (plus_ok e2 ov Hl Ho).
Qed.

End Requests.

(** ** Lemmas: what a ledger's balance is *)

Section Ledger.
Context `{FloatText}.

Definition chargeable (r : PodRequests) : Prop := 0 <= req_cpu r /\ 0 <= req_mem r.

Lemma pod_requests_chargeable pod : chargeable (pod_requests pod).
Proof. pose proof (pod_requests_range pod). unfold chargeable. lia. Qed.

Definition sum_cpu (l : list PodRequests) : Z := foldr (fun r acc => req_cpu r + acc) 0 l.
Definition sum_mem (l : list PodRequests) : Z := foldr (fun r acc => req_mem r + acc) 0 l.

(** The specification of the books: what was there less everything charged, at
    the width of the balance. *)
Definition settled (b : Balance) (l : list PodRequests) : Balance :=
  mkBalance (Z.max Word.i128_min (bal_cpu b - sum_cpu l)) (Z.max Word.i128_min (bal_mem b - sum_mem l)).

Definition balance_ok (b : Balance) : Prop := Word.is_i128 (bal_cpu b) /\ Word.is_i128 (bal_mem b).

Lemma charge_settled b r : balance_ok b -> chargeable r -> charge b r = settled b [r].
Proof.
  unfold balance_ok, chargeable, charge, settled, Word.is_i128, Word.i128_saturate, Word.saturate.
  simpl. intros. f_equal; lia.
Qed.

Lemma settled_ok b l : balance_ok b -> Forall chargeable l -> balance_ok (settled b l).
Proof.
  intros Hb Hl. assert (0 <= sum_cpu l /\ 0 <= sum_mem l) as Hs.
  { induction Hl as [|r l Hr _ IH]; [done |]. unfold chargeable in Hr. simpl. lia. }
  unfold balance_ok, settled, Word.is_i128 in *. simpl.
  assert (Word.i128_min <= Word.i128_max) by done. lia.
Qed.

Lemma settled_app b l1 l2 :
  Forall chargeable l2 -> settled (settled b l1) l2 = settled b (l1 ++ l2)%list.
Proof.
  intros Hl. assert (0 <= sum_cpu l2 /\ 0 <= sum_mem l2) as Hs.
  { induction Hl as [|r l Hr _ IH]; [done |]. unfold chargeable in Hr. simpl. lia. }
  assert (sum_cpu (l1 ++ l2)%list = sum_cpu l1 + sum_cpu l2 /\
          sum_mem (l1 ++ l2)%list = sum_mem l1 + sum_mem l2) as [Hc Hm].
  { clear. induction l1 as [|r l1 IH]; simpl; lia. }
  unfold settled. rewrite Hc, Hm. simpl. f_equal; lia.
Qed.

Lemma fold_charge b l :
  balance_ok b -> Forall chargeable l -> fold_left charge l b = settled b l.
Proof.
  intros Hb Hl. revert b Hb. induction Hl as [|r l Hr Hl IH]; intros b Hb.
  - simpl. unfold settled, balance_ok, Word.is_i128 in *. destruct b. simpl in *. f_equal; lia.
  - simpl. rewrite charge_settled by done.
    rewrite IH by (apply settled_ok; auto). by rewrite settled_app.
Qed.

Lemma debit_get n node req led :
  bt_get n (NodeLedger.debit led node req) =
    if eqb n node then option_map (fun b => charge b req) (bt_get n led) else bt_get n led.
Proof.
  unfold NodeLedger.debit. unfold eqb. case_bool_decide as Hn; subst.
  - destruct (bt_get node led) eqn:E; [by rewrite bt_get_insert_eq | by rewrite E].
  - destruct (bt_get node led) eqn:E; [by rewrite bt_get_insert_ne by done | done].
Qed.

(** The requests that hold capacity on [node]. *)
Definition holder (node : string) (pod : json) : bool :=
  eqb (bound_node_of pod) (Some node) && CapacityHold.holds (holds_capacity pod).

Definition held (node : string) (pods : list json) : list PodRequests :=
  map pod_requests (List.filter (holder node) pods).

Lemma held_chargeable node pods : Forall chargeable (held node pods).
Proof. apply List.Forall_map, Forall_true. intros. apply pod_requests_chargeable. Qed.

Lemma seed_pod_get n led pod :
  bt_get n (NodeLedger.seed_pod led pod) =
    if holder n pod then option_map (fun b => charge b (pod_requests pod)) (bt_get n led)
    else bt_get n led.
Proof.
  unfold NodeLedger.seed_pod, holder. destruct (bound_node_of pod) as [m|];
    [| by rewrite (proj2 (eqb_false _ _)) by done].
  destruct (CapacityHold.holds (holds_capacity pod)); [| by destruct (eqb _ _)].
  rewrite andb_true_r, debit_get. unfold eqb.
  destruct (decide (n = m)) as [-> | Hn].
  - by rewrite !bool_decide_true by done.
  - by rewrite !bool_decide_false by congruence.
Qed.

Lemma seed_get n nodes pods :
  bt_get n (NodeLedger.seed nodes pods) =
    option_map (fun b => fold_left charge (held n pods) b) (bt_get n (NodeLedger.open nodes)).
Proof.
  unfold NodeLedger.seed. generalize (NodeLedger.open nodes) as led.
  induction pods as [|p pods IH]; intros led.
  - change (bt_get n led = option_map (fun b => b) (bt_get n led)). by destruct (bt_get n led).
  - cbn [fold_left]. rewrite IH, seed_pod_get. unfold held. cbn [List.filter].
    destruct (holder n p); [| done]. by destruct (bt_get n led).
Qed.

Lemma node_allocatable_ok node : balance_ok (opening (node_allocatable node)).
Proof.
  assert (forall o k m, quantity_milli o k = Some m -> Word.is_i128 m) as Hq.
  { intros o k m. unfold quantity_milli. destruct (o ≫= jget k) as [v|]; [| done]. simpl.
    destruct (as_str v) as [s|]; [| done]. simpl.
    destruct (Quantity.from_str s) as [[m' sfx|]|] eqn:E; [| done | done]. intros [= <-].
    by apply QuantityFacts.from_str_valid in E as [_ ?]. }
  unfold node_allocatable, balance_ok, opening. simpl.
  split; (destruct (quantity_milli _ _) eqn:E1; [by eapply Hq |];
    destruct (quantity_milli (_ ≫= jget "capacity") _) eqn:E2; [by eapply Hq | done]).
Qed.

(** A balance is opened from a node of that name. *)
Lemma open_get nodes n b :
  bt_get n (NodeLedger.open nodes) = Some b ->
  exists node, In node nodes /\ node_name_of node = Some n /\ b = opening (node_allocatable node).
Proof.
  unfold NodeLedger.open, bt_of_list.
  assert (forall l m, (forall k b, bt_get k m = Some b -> In (k, b) l) ->
    forall l', bt_get n (fold_left (fun m kv => bt_insert kv.1 kv.2 m) l' m) = Some b ->
    In (n, b) (l ++ l')%list) as Hfold.
  { intros l m Hm l'. revert l m Hm. induction l' as [|[k v] l' IH]; intros l m Hm; simpl.
    - rewrite app_nil_r. apply Hm.
    - intros Hg. specialize (IH (l ++ [(k, v)])%list (bt_insert k v m)).
      rewrite <- app_assoc in IH. apply IH; [| done]. intros k' b' Hk.
      apply in_or_app. destruct (decide (k' = k)) as [-> | Hne].
      + rewrite bt_get_insert_eq in Hk. right. left. congruence.
      + rewrite bt_get_insert_ne in Hk by done. left. by apply Hm. }
  intros Hg. apply (Hfold [] []) in Hg; [| done]. simpl in Hg.
  apply list_elem_of_In, list_elem_of_omap in Hg as (node & Hin & Hn).
  apply list_elem_of_In in Hin. exists node. destruct (node_name_of node) as [m|]; [| done].
  simpl in Hn. by simplify_eq.
Qed.

(** The books balance: what a seeded ledger holds for a node is the node's
    allocatable capacity less the effective requests of the pods bound there
    that were not observed to finish. *)
Lemma seed_settled nodes pods n b :
  bt_get n (NodeLedger.seed nodes pods) = Some b ->
  exists node, In node nodes /\ node_name_of node = Some n /\
    b = settled (opening (node_allocatable node)) (held n pods).
Proof.
  rewrite seed_get. destruct (bt_get n (NodeLedger.open nodes)) as [b0|] eqn:E; [| done].
  intros [= <-]. apply open_get in E as (node & Hin & Hn & ->). exists node. split_and!; try done.
  apply fold_charge; [apply node_allocatable_ok | apply held_chargeable].
Qed.

End Ledger.
