(* ===== verification/SchedFilter.v ===== *)
(** * The scheduler's Filter stage

    [engenho-scheduler/src/predicates.rs] (cordons, node selectors, names,
    taints and tolerations), [capability.rs] (what a node can run and what a pod
    needs), [observed.rs] with [engenho-controllers/src/node_lease.rs] (a node's
    readiness derived from its Lease), [filter.rs] (the closed list of plugins
    and the fold over the observed nodes), [strategy.rs] and [scope.rs].  The
    wall clock behind a Lease's age is a parameter of the projection. *)

From Stdlib Require Import Sorted.
From stdpp Require Import base tactics option list strings numbers pretty.
From S2P Require Import Prelude Text BTreeMap Json Resource Quantity SchedFit.

Local Open Scope string_scope.
Local Open Scope Z_scope.

Definition as_bool (v : json) : option bool := match v with JBool b => Some b | _ => None end.

(** ** [predicates.rs] *)

Module TaintEffect.
Inductive t : Type :=
  | NoSchedule
  | PreferNoSchedule
  | NoExecute.

#[global] Instance t_eq_dec : EqDecision t.
Proof. solve_decision. Defined.

Definition parse (s : string) : option t :=
  if eqb s "NoSchedule" then Some NoSchedule
  else if eqb s "PreferNoSchedule" then Some PreferNoSchedule
  else if eqb s "NoExecute" then Some NoExecute
  else None.

Definition blocks_scheduling (self : t) : bool :=
  match self with
  | NoSchedule | NoExecute => true
  | PreferNoSchedule => false
  end.
End TaintEffect.

Definition is_cordoned (node : json) : bool :=
  default false (jget "spec" node >>? jget "unschedulable" >>? as_bool).

Definition matches_node_selector (pod node : json) : bool :=
  match jget "spec" pod >>? jget "nodeSelector" >>? as_object with
  | None => true
  | Some sel =>
      let labels := jget "metadata" node >>? jget "labels" in
      forallb (fun e => is_some_and (fun have => eqb have e.2) (labels >>? jget e.1)) sel
  end.

Definition non_empty (s : string) : option string := if eqb s "" then None else Some s.

Definition node_name_matches (pod node : json) : bool :=
  match jget "spec" pod >>? jget "nodeName" >>? as_str >>? non_empty with
  | None => true
  | Some want => eqb (jget "metadata" node >>? jget "name" >>? as_str) (Some want)
  end.

Record Taint : Type := mkTaint {
  taint_key : string;
  taint_value : option string;
  taint_effect : TaintEffect.t
}.

#[export] Instance Taint_eq_dec : EqDecision Taint.
Proof. solve_decision. Defined.

Definition read_taint (t : json) : option Taint :=
  jget "key" t >>? as_str >>? (fun key =>
  let effect_str := default "" (jget "effect" t >>? as_str) in
  let effect := default TaintEffect.NoSchedule (TaintEffect.parse effect_str) in
  if negb (TaintEffect.blocks_scheduling effect) then None
  else Some (mkTaint key (jget "value" t >>? as_str) effect)).

Definition blocking_taints (node : json) : list Taint :=
  match jget "spec" node >>? jget "taints" >>? as_array with
  | Some ts => omap read_taint ts
  | None => []
  end.

(** One toleration against one taint: the closure of [tolerates]. *)
Definition tolerated_by (taint : Taint) (t : json) : bool :=
  let op := default "Equal" (jget "operator" t >>? as_str) in
  let key := default "" (jget "key" t >>? as_str) in
  let effect_ok :=
    match jget "effect" t >>? as_str >>? non_empty with
    | Some e => eqb (TaintEffect.parse e) (Some (taint_effect taint))
    | None => true
    end in
  effect_ok &&
  if eqb op "Exists" then eqb key "" || eqb key (taint_key taint)
  else eqb key (taint_key taint) && eqb (jget "value" t >>? as_str) (taint_value taint).

Definition tolerates (pod : json) (taint : Taint) : bool :=
  match jget "spec" pod >>? jget "tolerations" >>? as_array with
  | None => false
  | Some tols => existsb (tolerated_by taint) tols
  end.

Definition untolerated_taint (pod node : json) : option Taint :=
  List.find (fun taint => negb (tolerates pod taint)) (blocking_taints node).

(** ** [capability.rs] *)

Definition LABEL_PREFIX : string := "capability.engenho.pleme.io/".
Definition REQUIREMENT_PREFIX : string := "requirements.engenho.pleme.io/".
Definition NATIVE_LABEL : string := "capability.engenho.pleme.io/runtime.native".
Definition OCI_LABEL : string := "capability.engenho.pleme.io/runtime.oci".
Definition GPU_LABEL : string := "capability.engenho.pleme.io/gpu".
Definition HOUSE_LABEL : string := "capability.engenho.pleme.io/house".
Definition GPU_REQUIREMENT : string := "requirements.engenho.pleme.io/gpu".
Definition HOUSE_REQUIREMENT : string := "requirements.engenho.pleme.io/house".
Definition NIX_IMAGE_PREFIX : string := "nix:".

Module Runtime.
Inductive t : Type :=
  | Native
  | Oci.

#[global] Instance t_eq_dec : EqDecision t.
Proof. solve_decision. Defined.

#[global] Instance t_ord : Ord t := fun a b =>
  match a, b with
  | Native, Oci => Lt
  | Oci, Native => Gt
  | _, _ => Eq
  end.

Definition ALL : list t := [Native; Oci].

Definition label (self : t) : string :=
  match self with Native => NATIVE_LABEL | Oci => OCI_LABEL end.

Definition name (self : t) : string :=
  match self with Native => "runtime.native" | Oci => "runtime.oci" end.
End Runtime.

Record NodeCapabilities : Type := mkNodeCapabilities {
  runtimes : option (list Runtime.t);
  gpus : Z;
  house : bool
}.

Definition running (rs : list Runtime.t) : NodeCapabilities := mkNodeCapabilities (Some rs) 0 false.

Definition parse_u32 (s : string) : option Z := parse_unsigned Word.u32_max s.

(** [NodeCapabilities::observe]; a [BTreeSet<Runtime>] is its elements in order. *)
Definition observe_capabilities (node : json) : NodeCapabilities :=
  let labels := jptr "metadata" "labels" node >>? as_object in
  let label key := labels >>? bt_get key >>? as_str in
  let declared := existsb (fun r => is_some (label (Runtime.label r))) Runtime.ALL in
  mkNodeCapabilities
    (if declared
     then Some (List.filter (fun r => eqb (label (Runtime.label r)) (Some "true")) Runtime.ALL)
     else None)
    (default 0 (label GPU_LABEL >>? parse_u32))
    (eqb (label HOUSE_LABEL) (Some "true")).

Definition has_runtime (rs : list Runtime.t) (r : Runtime.t) : bool := existsb (eqb r) rs.

Definition runtime_labels (self : NodeCapabilities) : btmap string string :=
  match runtimes self with
  | None => []
  | Some rs =>
      bt_of_list (map (fun r => (Runtime.label r, if has_runtime rs r then "true" else "false"))
                    Runtime.ALL)
  end.

Module Requirement.
Inductive t : Type :=
  | OfRuntime (r : Runtime.t)
  | Gpus (n : Z)
  | House
  | Unreadable (key : string).

#[global] Instance t_eq_dec : EqDecision t.
Proof. solve_decision. Defined.

(** The derived order: variants in order, then their fields. *)
Definition rank (a : t) : Z :=
  match a with OfRuntime _ => 0 | Gpus _ => 1 | House => 2 | Unreadable _ => 3 end.

#[global] Instance t_ord : Ord t := fun a b =>
  match a, b with
  | OfRuntime x, OfRuntime y => cmp x y
  | Gpus x, Gpus y => Z.compare x y
  | Unreadable x, Unreadable y => cmp x y
  | _, _ => Z.compare (rank a) (rank b)
  end.

(** [Display]. *)
Definition to_string (self : t) : string :=
  match self with
  | OfRuntime r => Runtime.name r
  | Gpus _ => "gpu"
  | House => "house"
  | Unreadable key => key
  end.
End Requirement.

(** A [BTreeSet<Requirement>] as a map to [unit]. *)
Definition WorkloadRequirements : Type := btmap Requirement.t unit.

Definition need (r : Requirement.t) (ns : WorkloadRequirements) : WorkloadRequirements :=
  bt_insert r tt ns.

Definition images (pod : json) (field : string) : list string :=
  omap (fun c => jget "image" c >>? as_str >>? non_empty)
    (default [] (jptr "spec" field pod >>? as_array)).

Definition infer (pod : json) : WorkloadRequirements :=
  let runtime image :=
    if starts_with NIX_IMAGE_PREFIX image then Runtime.Native else Runtime.Oci in
  let ns := fold_left (fun ns image => need (Requirement.OfRuntime (runtime image)) ns)
      (images pod "initContainers" ++ images pod "containers")%list [] in
  let annotations := jptr "metadata" "annotations" pod >>? as_object in
  let annotation key := annotations >>? bt_get key >>? as_str in
  let ns :=
    match annotation GPU_REQUIREMENT with
    | Some raw =>
        match parse_u32 raw with
        | Some 0 => ns
        | Some n => need (Requirement.Gpus n) ns
        | None => need (Requirement.Unreadable GPU_REQUIREMENT) ns
        end
    | None => ns
    end in
  match annotation HOUSE_REQUIREMENT with
  | None => ns
  | Some v =>
      if eqb v "false" then ns
      else if eqb v "true" then need Requirement.House ns
      else need (Requirement.Unreadable HOUSE_REQUIREMENT) ns
  end.

Definition met (node : NodeCapabilities) (r : Requirement.t) : bool :=
  match r with
  | Requirement.OfRuntime r => is_none_or (fun rs => has_runtime rs r) (runtimes node)
  | Requirement.Gpus n => n <=? gpus node
  | Requirement.House => house node
  | Requirement.Unreadable _ => false
  end.

Definition unmet (needs : WorkloadRequirements) (node : NodeCapabilities) : option Requirement.t :=
  List.find (fun r => negb (met node r)) (map fst needs).

(** ** [node_lease.rs]: readiness derived from the Lease *)

(** Durations are in nanoseconds. *)
Definition SECOND : Z := 1000000000.
Definition RENEW_INTERVAL : Z := 10 * SECOND.
Definition GRACE_PERIOD : Z := 40 * SECOND.
Definition LEASE_NAMESPACE : string := "kube-node-lease".

Definition lease_value (node renew_time : string) (transitions : Z) : json :=
  jobj [("apiVersion", JString "coordination.k8s.io/v1");
        ("kind", JString "Lease");
        ("metadata", jobj [("name", JString node); ("namespace", JString LEASE_NAMESPACE)]);
        ("spec", jobj [("holderIdentity", JString node);
                       ("leaseDurationSeconds", JNumber (PosInt (GRACE_PERIOD / SECOND)));
                       ("renewTime", JString renew_time);
                       ("leaseTransitions", JNumber (PosInt transitions))])].

Definition lease_key (node : string) : ResourceKey :=
  namespaced "coordination.k8s.io" "v1" "Lease" LEASE_NAMESPACE node.

Module NodeReadiness.
Inductive t : Type :=
  | Ready
  | Stale
  | Unknown.

#[global] Instance t_eq_dec : EqDecision t.
Proof. solve_decision. Defined.

Definition condition_status (self : t) : string :=
  match self with Ready => "True" | Stale => "Unknown" | Unknown => "Unknown" end.

Definition reason (self : t) : string :=
  match self with
  | Ready => "KubeletReady"
  | Stale => "NodeStatusUnknown"
  | Unknown => "NodeStatusNeverUpdated"
  end.
End NodeReadiness.

Definition readiness (since_renew : option Z) : NodeReadiness.t :=
  match since_renew with
  | None => NodeReadiness.Unknown
  | Some age => if age <=? GRACE_PERIOD then NodeReadiness.Ready else NodeReadiness.Stale
  end.

Definition ready_condition (state : NodeReadiness.t) (now : string) (previous : option json) : json :=
  let status := NodeReadiness.condition_status state in
  let last_transition :=
    default now
      (previous >>? (fun p => if eqb (jget "status" p >>? as_str) (Some status) then Some p else None)
        >>? jget "lastTransitionTime" >>? as_str) in
  jobj [("type", JString "Ready");
        ("status", JString status);
        ("reason", JString (NodeReadiness.reason state));
        ("message", JString (match state with
           | NodeReadiness.Ready => "kubelet is posting ready status"
           | NodeReadiness.Stale => "Kubelet stopped posting node status"
           | NodeReadiness.Unknown => "Kubelet never posted node status"
           end));
        ("lastHeartbeatTime", JString now);
        ("lastTransitionTime", JString last_transition)].

Definition is_ready_type (c : json) : bool := eqb (jget "type" c >>? as_str) (Some "Ready").

Definition find_ready_condition (node : json) : option json :=
  jget "status" node >>? jget "conditions" >>? as_array >>? List.find is_ready_type.

(** [age] is [engenho_types::time::age_since_rfc3339]: how long ago a stamp was,
    by the wall clock; [None] for a stamp it cannot read or that lies ahead. *)
Definition project_ready_condition (age : string -> option Z) (node : json) (lease : option json)
    (now : string) : json :=
  let since_renew := lease >>? jget "spec" >>? jget "renewTime" >>? as_str >>? age in
  let state := readiness since_renew in
  let condition := ready_condition state now (find_ready_condition node) in
  let conditions :=
    (List.filter (fun c => negb (is_ready_type c))
       (default [] (jget "status" node >>? jget "conditions" >>? as_array)) ++ [condition])%list in
  match node with
  | JObject obj =>
      match default (jobj []) (bt_get "status" obj) with
      | JObject status_obj =>
          JObject (bt_insert "status" (JObject (bt_insert "conditions" (JArray conditions) status_obj)) obj)
      | other => JObject (bt_insert "status" other obj)
      end
  | _ => node
  end.

(** ** [observed.rs] *)

Record ObservedNode : Type := mkObserved { observed_value : json }.

Definition project (age : string -> option Z) (node : json) (lease : option json) (now : string)
  : ObservedNode := mkObserved (project_ready_condition age node lease now).

Definition observed_name (n : ObservedNode) : option string := node_name_of (observed_value n).

Definition is_ready (n : ObservedNode) : bool :=
  eqb (find_ready_condition (observed_value n) >>? jget "status" >>? as_str) (Some "True").

(** ** [filter.rs] *)

Module FilterPlugin.
Inductive t : Type :=
  | NodeReady
  | Cordon
  | NodeName
  | NodeSelector
  | Capability
  | TaintToleration
  | Resources.

#[global] Instance t_eq_dec : EqDecision t.
Proof. solve_decision. Defined.

Definition ALL : list t :=
  [NodeReady; Cordon; NodeName; NodeSelector; Capability; TaintToleration; Resources].

Definition name (self : t) : string :=
  match self with
  | NodeReady => "NodeReady"
  | Cordon => "Cordon"
  | NodeName => "NodeName"
  | NodeSelector => "NodeSelector"
  | Capability => "Capability"
  | TaintToleration => "TaintToleration"
  | Resources => "Resources"
  end.
End FilterPlugin.

Module Rejection.
Inductive t : Type :=
  | NotReady
  | Cordoned
  | NodeNameMismatch
  | NodeSelectorMismatch
  | MissingCapability (requirement : Requirement.t)
  | UntoleratedTaint (key : string)
  | InsufficientResources
  | UnreadableRequests.

#[global] Instance t_eq_dec : EqDecision t.
Proof. solve_decision. Defined.

Definition rank (a : t) : Z :=
  match a with
  | NotReady => 0
  | Cordoned => 1
  | NodeNameMismatch => 2
  | NodeSelectorMismatch => 3
  | MissingCapability _ => 4
  | UntoleratedTaint _ => 5
  | InsufficientResources => 6
  | UnreadableRequests => 7
  end.

#[global] Instance t_ord : Ord t := fun a b =>
  match a, b with
  | MissingCapability x, MissingCapability y => cmp x y
  | UntoleratedTaint x, UntoleratedTaint y => cmp x y
  | _, _ => Z.compare (rank a) (rank b)
  end.

Definition plugin (self : t) : FilterPlugin.t :=
  match self with
  | NotReady => FilterPlugin.NodeReady
  | Cordoned => FilterPlugin.Cordon
  | NodeNameMismatch => FilterPlugin.NodeName
  | NodeSelectorMismatch => FilterPlugin.NodeSelector
  | MissingCapability _ => FilterPlugin.Capability
  | UntoleratedTaint _ => FilterPlugin.TaintToleration
  | InsufficientResources | UnreadableRequests => FilterPlugin.Resources
  end.

(** [Display]. *)
Definition to_string (self : t) : string :=
  match self with
  | NotReady => "node(s) were not ready"
  | Cordoned => "node(s) were unschedulable"
  | NodeNameMismatch => "node(s) didn't match the requested node name"
  | NodeSelectorMismatch => "node(s) didn't match Pod's node selector"
  | MissingCapability (Requirement.Unreadable key) =>
      "node(s) could not satisfy the unreadable requirement " ++ key
  | MissingCapability requirement => "node(s) lacked capability " ++ Requirement.to_string requirement
  | UntoleratedTaint key => "node(s) had untolerated taint {" ++ key ++ "}"
  | InsufficientResources => "node(s) had insufficient cpu/memory"
  | UnreadableRequests => "node(s) could not fit the Pod's unreadable resource requests"
  end.
End Rejection.

Definition refuse_unless (admitted : bool) (rejection : Rejection.t) : result unit Rejection.t :=
  if admitted then Ok tt else Err rejection.

Definition bindable_name (pod : json) (node : ObservedNode) : result string Rejection.t :=
  ok_or
    (observed_name node >>? (fun name =>
       if negb (eqb name "") && node_name_matches pod (observed_value node) then Some name else None))
    Rejection.NodeNameMismatch.

Definition check (self : FilterPlugin.t) (pod : json) (req : PodRequests) (node : ObservedNode)
    (ledger : NodeLedger.t) : result unit Rejection.t :=
  match self with
  | FilterPlugin.NodeReady => refuse_unless (is_ready node) Rejection.NotReady
  | FilterPlugin.Cordon => refuse_unless (negb (is_cordoned (observed_value node))) Rejection.Cordoned
  | FilterPlugin.NodeName => result_map (fun _ => tt) (bindable_name pod node)
  | FilterPlugin.NodeSelector =>
      refuse_unless (matches_node_selector pod (observed_value node)) Rejection.NodeSelectorMismatch
  | FilterPlugin.Capability =>
      match unmet (infer pod) (observe_capabilities (observed_value node)) with
      | Some requirement => Err (Rejection.MissingCapability requirement)
      | None => Ok tt
      end
  | FilterPlugin.TaintToleration =>
      match untolerated_taint pod (observed_value node) with
      | Some taint => Err (Rejection.UntoleratedTaint (taint_key taint))
      | None => Ok tt
      end
  | FilterPlugin.Resources =>
      if unparseable req then Err Rejection.UnreadableRequests
      else refuse_unless (is_some_and (fun name => NodeLedger.fits ledger name req) (observed_name node))
             Rejection.InsufficientResources
  end.

Record Candidate : Type := mkCandidate { cand_name : string; cand_node : ObservedNode }.

(** [Feasible]: the head and the tail of the admitted nodes. *)
Record Feasible : Type := mkFeasible { head : Candidate; tail : list Candidate }.

Definition feasible_len (self : Feasible) : Z :=
  Word.u64_saturate (1 + Z.of_nat (length (tail self))).

Definition feasible_iter (self : Feasible) : list Candidate := head self :: tail self.

Definition nth_wrapping (self : Feasible) (index : Z) : Candidate :=
  let index := index mod feasible_len self in
  if 1 <=? index then default (head self) (tail self !! Z.to_nat (index - 1)) else head self.

Module Diagnosis.
(** Counts are [NonZeroUsize]. *)
Definition t : Type := btmap Rejection.t Z.

Definition sum (l : list Z) : Z := fold_left Word.u64_add l 0.

Definition nodes_observed (self : t) : Z := sum (map snd self).

Definition count (self : t) (rejection : Rejection.t) : Z := default 0 (bt_get rejection self).

Definition count_by (self : t) (plugin : FilterPlugin.t) : Z :=
  sum (map snd (List.filter (fun e => eqb (Rejection.plugin e.1) plugin) self)).

Definition clause (e : Rejection.t * Z) : string := pretty e.2 ++ " " ++ Rejection.to_string e.1.

(** [Display]. *)
Definition to_string (self : t) : string :=
  "0/" ++ pretty (nodes_observed self) ++ " nodes are available: " ++
  String.concat ", " (map clause self) ++ ".".

Definition add (rejection : Rejection.t) (self : t) : t :=
  match bt_get rejection self with
  | Some n => bt_insert rejection (Word.u64_saturate (n + 1)) self
  | None => bt_insert rejection 1 self
  end.
End Diagnosis.

Module Filtered.
Inductive t : Type :=
  | Feasible (feasible : Feasible)
  | Infeasible (diagnosis : Diagnosis.t)
  | NoNodesObserved.
End Filtered.

(** The plugins one after another, stopping at the first refusal. *)
Fixpoint run_plugins (ps : list FilterPlugin.t) (pod : json) (req : PodRequests)
    (node : ObservedNode) (ledger : NodeLedger.t) : result unit Rejection.t :=
  match ps with
  | [] => Ok tt
  | p :: ps => let? u := check p pod req node ledger in run_plugins ps pod req node ledger
  end.

Definition admit_node (pod : json) (req : PodRequests) (node : ObservedNode) (ledger : NodeLedger.t)
  : result Candidate Rejection.t :=
  let? u := run_plugins FilterPlugin.ALL pod req node ledger in
  let? name := bindable_name pod node in
  Ok (mkCandidate name node).

Definition filter_step (pod : json) (req : PodRequests) (ledger : NodeLedger.t)
    (st : list Candidate * Diagnosis.t) (node : ObservedNode) : list Candidate * Diagnosis.t :=
  match admit_node pod req node ledger with
  | Ok candidate => ((st.1 ++ [candidate])%list, st.2)
  | Err rejection => (st.1, Diagnosis.add rejection st.2)
  end.

Definition filter (pod : json) (req : PodRequests) (nodes : list ObservedNode)
    (ledger : NodeLedger.t) : Filtered.t :=
  let '(admitted, rejections) := fold_left (filter_step pod req ledger) nodes ([], []) in
  match admitted with
  | head :: tail => Filtered.Feasible (mkFeasible head tail)
  | [] =>
      match rejections with
      | [] => Filtered.NoNodesObserved
      | _ => Filtered.Infeasible rejections
      end
  end.

(** ** [strategy.rs]

    A strategy keeps state and picks from a non-empty set of admitted nodes. *)
Class SchedulingStrategy (S : Type) : Type := {
  strategy_name : string;
  pick : S -> json -> Feasible -> string * S
}.

(** What the scheduler relies on: the pick is the name of a candidate. *)
Class StrategyLaws (S : Type) `{SchedulingStrategy S} : Prop := {
  pick_feasible : forall s pod f,
    exists c, In c (feasible_iter f) /\ (pick s pod f).1 = cand_name c
}.

(** [RoundRobinStrategy]: the atomic cursor is a [usize] that wraps. *)
Record RoundRobin : Type := mkRoundRobin { cursor : Z }.

Definition round_robin_new : RoundRobin := mkRoundRobin 0.

Definition round_robin_pick (self : RoundRobin) (pod : json) (f : Feasible) : string * RoundRobin :=
  (cand_name (nth_wrapping f (cursor self)), mkRoundRobin (Word.u64_add (cursor self) 1)).

#[export] Instance round_robin : SchedulingStrategy RoundRobin := {|
  strategy_name := "round_robin";
  pick := round_robin_pick
|}.

(** ** [scope.rs] *)

Module NamespaceScope.
Inductive t : Type :=
  | All
  | Only (ns : string).

Definition from_name (name : string) : t := if eqb name "" then All else Only name.

Definition list_filter (self : t) : option string :=
  match self with All => None | Only ns => Some ns end.

Definition from_option (namespace : option string) : t :=
  match namespace with Some n => from_name n | None => All end.
End NamespaceScope.
