(* ===== verification/SchedFilterFacts.v ===== *)
(** * What the Filter stage guarantees

    Lemmas and theorems on [SchedFilter]: a node is feasible exactly when every
    plugin admits it, a rejected node is counted once under its first refusing
    plugin, readiness comes from a fresh Lease only, and round-robin picks visit
    every feasible node. *)

From Stdlib Require Import Sorted.
From stdpp Require Import base tactics option list strings numbers pretty.
From S2P Require Import Prelude Text BTreeMap Json Resource Quantity SchedFit SchedFilter.

Local Open Scope string_scope.
Local Open Scope Z_scope.

(** ** Orders of the rejection vocabulary *)

#[export] Instance runtime_ord_laws : OrdLaws Runtime.t.
Proof. split; unfold cmp, Runtime.t_ord; [intros [] [] | intros [] [] | intros [] [] []]; naive_solver. Qed.

#[export] Instance requirement_ord_laws : OrdLaws Requirement.t.
Proof.
  split; unfold cmp, Requirement.t_ord.
  - intros [] []; simpl; split; intros E; try done; try (apply cmp_eq in E); simplify_eq/=; try done;
      try apply cmp_refl; try (apply Z.compare_eq in E; congruence); apply Z.compare_refl.
  - intros [] []; simpl; try done; try apply cmp_sym. apply Z.compare_antisym.
  - intros [] [] []; simpl; try done; try apply cmp_trans. rewrite !Z.compare_lt_iff. lia.
Qed.

#[export] Instance rejection_ord_laws : OrdLaws Rejection.t.
Proof.
  split; unfold cmp, Rejection.t_ord.
  - intros [] []; simpl; split; intros E; try done; try (apply cmp_eq in E); simplify_eq/=; try done;
      apply cmp_refl.
  - intros [] []; simpl; try done; apply cmp_sym.
  - intros [] [] []; simpl; try done; apply cmp_trans.
Qed.

(** ** Plugins *)

(** A rejection names the plugin that produced it. *)
Lemma check_rejection p pod req node led r :
  check p pod req node led = Err r -> Rejection.plugin r = p.
Proof.
  unfold check, refuse_unless, bindable_name, result_map, ok_or.
  destruct p; intros E; repeat case_match; by simplify_eq.
Qed.

Lemma run_plugins_Ok ps pod req node led :
  run_plugins ps pod req node led = Ok tt <-> Forall (fun p => check p pod req node led = Ok tt) ps.
Proof.
  induction ps as [|p ps IH]; simpl; [split; auto |].
  destruct (check p pod req node led) as [[]|r] eqn:E; simpl.
  - rewrite IH. rewrite Forall_cons. naive_solver.
  - split; [done |]. intros Hf. apply Forall_cons in Hf as [Hp _]. congruence.
Qed.

(** The first refusal wins: the plugins before it admitted. *)
Lemma run_plugins_Err ps pod req node led r :
  run_plugins ps pod req node led = Err r ->
  exists before p after, ps = (before ++ p :: after)%list /\
    Forall (fun q => check q pod req node led = Ok tt) before /\
    check p pod req node led = Err r.
Proof.
  induction ps as [|p ps IH]; simpl; [done |].
  destruct (check p pod req node led) as [[]|r'] eqn:E; simpl; intros Hr.
  - destruct (IH Hr) as (before & q & after & -> & Hb & Hq).
    exists (p :: before), q, after. split_and!; auto.
  - simplify_eq. exists [], p, ps. auto.
Qed.

Definition admits (pod : json) (req : PodRequests) (led : NodeLedger.t) (node : ObservedNode) : bool :=
  is_ok (admit_node pod req node led).

Lemma admit_Ok pod req node led c :
  admit_node pod req node led = Ok c <->
  Forall (fun p => check p pod req node led = Ok tt) FilterPlugin.ALL /\
  cand_node c = node /\ bindable_name pod node = Ok (cand_name c).
Proof.
  unfold admit_node. rewrite <- run_plugins_Ok.
  destruct (run_plugins FilterPlugin.ALL pod req node led) as [[]|r]; simpl; [| naive_solver].
  destruct (bindable_name pod node) as [name|r]; simpl; [| naive_solver].
  destruct c. simpl. naive_solver.
Qed.

(** Where every plugin admits, there is a name to bind to. *)
Lemma plugins_candidate pod req node led :
  Forall (fun p => check p pod req node led = Ok tt) FilterPlugin.ALL ->
  exists c, admit_node pod req node led = Ok c.
Proof.
  intros Hf. pose proof Hf as Hn. rewrite List.Forall_forall in Hn.
  specialize (Hn FilterPlugin.NodeName ltac:(simpl; tauto)). simpl in Hn.
  destruct (bindable_name pod node) as [name|] eqn:E; [| done].
  exists (mkCandidate name node). by rewrite admit_Ok.
Qed.

Lemma bindable_name_spec pod node name :
  bindable_name pod node = Ok name ->
  observed_name node = Some name /\ name <> "" /\ node_name_matches pod (observed_value node) = true.
Proof.
  unfold bindable_name. destruct (observed_name node) as [n|]; [| done]. simpl.
  destruct (negb (eqb n "") && _) eqn:E; [| done]. simpl. intros [= <-]. bool_to_prop. done.
Qed.

(** An admitted node has room for the request in the ledger. *)
Lemma admit_fits pod req node led c :
  admit_node pod req node led = Ok c ->
  unparseable req = false /\ NodeLedger.fits led (cand_name c) req = true.
Proof.
  rewrite admit_Ok. intros (Hf & _ & Hn). apply bindable_name_spec in Hn as (Hn & _).
  rewrite List.Forall_forall in Hf. specialize (Hf FilterPlugin.Resources ltac:(simpl; tauto)).
  simpl in Hf. destruct (unparseable req); [done |]. rewrite Hn in Hf. simpl in Hf.
  unfold refuse_unless in Hf. by destruct (NodeLedger.fits led (cand_name c) req).
Qed.

(** ** The fold *)

(** What [filter] collects, as independent passes over the nodes. *)
Definition candidates (pod : json) (req : PodRequests) (led : NodeLedger.t) (nodes : list ObservedNode)
  : list Candidate :=
  omap (fun n => match admit_node pod req n led with Ok c => Some c | Err _ => None end) nodes.

Definition rejected_as (pod : json) (req : PodRequests) (led : NodeLedger.t) (r : Rejection.t)
    (nodes : list ObservedNode) : list ObservedNode :=
  List.filter (fun n => match admit_node pod req n led with Ok _ => false | Err r' => eqb r' r end) nodes.

Definition tally (l : list Rejection.t) (d : Diagnosis.t) : Diagnosis.t :=
  fold_left (fun d r => Diagnosis.add r d) l d.

Definition refusals (pod : json) (req : PodRequests) (led : NodeLedger.t) (nodes : list ObservedNode)
  : list Rejection.t :=
  omap (fun n => match admit_node pod req n led with Ok _ => None | Err r => Some r end) nodes.

Lemma filter_fold pod req led nodes cs d :
  fold_left (filter_step pod req led) nodes (cs, d) =
    ((cs ++ candidates pod req led nodes)%list, tally (refusals pod req led nodes) d).
Proof.
  revert cs d. induction nodes as [|n nodes IH]; intros cs d; simpl; [by rewrite app_nil_r |].
  unfold filter_step at 2. destruct (admit_node pod req n led) as [c|r]; simpl; rewrite IH; [| done].
  by rewrite <- app_assoc.
Qed.

(** Counting with room to spare. *)
Fixpoint occurrences (r : Rejection.t) (l : list Rejection.t) : Z :=
  match l with
  | [] => 0
  | x :: l => (if eqb x r then 1 else 0) + occurrences r l
  end.

Lemma occurrences_range r l : 0 <= occurrences r l <= Z.of_nat (length l).
Proof. induction l as [|x l IH]; simpl; [lia |]. case_match; lia. Qed.

Lemma add_count r x d :
  0 <= Diagnosis.count d x < Word.u64_max ->
  Diagnosis.count (Diagnosis.add x d) r = (if eqb x r then 1 else 0) + Diagnosis.count d r.
Proof.
  unfold Diagnosis.count, Diagnosis.add. intros Hd. unfold eqb. case_bool_decide as E; subst.
  - destruct (bt_get r d) as [n|]; rewrite bt_get_insert_eq; simpl in *; [| lia].
    unfold Word.u64_saturate. rewrite Word.saturate_small; lia.
  - destruct (bt_get x d) as [n|]; by rewrite bt_get_insert_ne.
Qed.

(** The counts' exact sum. *)
Definition total (d : Diagnosis.t) : Z := foldr (fun e acc => e.2 + acc) 0 d.

Lemma total_insert r n (d : Diagnosis.t) :
  total (bt_insert r n d) = total d - default 0 (bt_get r d) + n.
Proof.
  induction d as [|[k v] d IH]; simpl; [lia |].
  destruct (cmp r k); simpl; [lia | lia |]. rewrite IH. lia.
Qed.

Definition positive (d : Diagnosis.t) : Prop := Forall (fun e => 1 <= e.2) d.

Lemma count_le_total d r : positive d -> 0 <= Diagnosis.count d r <= total d.
Proof.
  unfold Diagnosis.count. induction 1 as [|[k v] d Hv Hd IH]; simpl; [lia |].
  assert (0 <= total d) by (clear -Hd; induction Hd; simpl; lia). simpl in Hv.
  destruct (cmp r k); simpl; lia.
Qed.

Lemma add_total r d :
  positive d -> total d < Word.u64_max ->
  positive (Diagnosis.add r d) /\ total (Diagnosis.add r d) = total d + 1.
Proof.
  intros Hp Ht. pose proof (count_le_total d r Hp) as Hc. unfold Diagnosis.count, Diagnosis.add in *.
  destruct (bt_get r d) as [n|] eqn:E; simpl in Hc.
  - unfold Word.u64_saturate. rewrite Word.saturate_small by lia.
    split; [apply bt_insert_Forall; [simpl; lia | done] |]. rewrite total_insert, E. simpl. lia.
  - split; [by apply bt_insert_Forall |]. rewrite total_insert, E. simpl. lia.
Qed.

Lemma tally_spec l d :
  positive d -> total d + Z.of_nat (length l) <= Word.u64_max ->
  positive (tally l d) /\ total (tally l d) = total d + Z.of_nat (length l) /\
  forall r, Diagnosis.count (tally l d) r = Diagnosis.count d r + occurrences r l.
Proof.
  revert d. induction l as [|x l IH]; intros d Hp Ht; simpl.
  - split_and!; [done | lia | intros; lia].
  - simpl in Ht. destruct (add_total x d Hp ltac:(lia)) as [Hp' Ht'].
    destruct (IH (Diagnosis.add x d) Hp' ltac:(lia)) as (Hq & Hr & Hs). split_and!; [done | lia |].
    intros r. rewrite Hs, add_count; [lia |]. pose proof (count_le_total d x Hp). lia.
Qed.

(** The wrapping sum of the counts is exact below the maximum. *)
Lemma nodes_observed_total d :
  positive d -> total d <= Word.u64_max -> Diagnosis.nodes_observed d = total d.
Proof.
  unfold Diagnosis.nodes_observed, Diagnosis.sum. intros Hp Ht.
  assert (forall a, 0 <= a -> a + total d <= Word.u64_max ->
    fold_left Word.u64_add (map snd d) a = a + total d) as Hf.
  { clear Ht. induction Hp as [|[k v] d Hv Hd IH]; intros a Ha Hs; simpl in *; [lia |].
    assert (0 <= total d) by (clear -Hd; induction Hd; simpl; lia).
    rewrite Word.u64_add_small by lia. rewrite IH; lia. }
  rewrite Hf; lia.
Qed.

Lemma occurrences_rejected pod req led r nodes :
  occurrences r (refusals pod req led nodes) = Z.of_nat (length (rejected_as pod req led r nodes)).
Proof.
  induction nodes as [|n nodes IH]; [done |]. unfold refusals, rejected_as in *. csimpl.
  destruct (admit_node pod req n led) as [c|r']; csimpl; [done |]. rewrite IH.
  destruct (eqb r' r); simpl; lia.
Qed.

Lemma refusals_all pod req led nodes :
  candidates pod req led nodes = [] -> length (refusals pod req led nodes) = length nodes.
Proof.
  induction nodes as [|n nodes IH]; [done |]. unfold candidates, refusals in *. csimpl.
  destruct (admit_node pod req n led) as [c|r']; csimpl; [done |]. intros Hc. by rewrite IH.
Qed.

(** The nodes every plugin admits. *)
Definition admitted_nodes (pod : json) (req : PodRequests) (led : NodeLedger.t)
    (nodes : list ObservedNode) : list ObservedNode :=
  List.filter (fun n => forallb (fun p => is_ok (check p pod req n led)) FilterPlugin.ALL) nodes.

Lemma all_plugins_admit pod req led n :
  forallb (fun p => is_ok (check p pod req n led)) FilterPlugin.ALL = is_ok (admit_node pod req n led).
Proof.
  apply Bool.eq_iff_eq_true. rewrite forallb_forall. split.
  - intros Hf. destruct (plugins_candidate pod req n led) as [c ->]; [| done].
    apply List.Forall_forall. intros p Hp. specialize (Hf p Hp).
    by destruct (check p pod req n led) as [[]|].
  - destruct (admit_node pod req n led) as [c|] eqn:E; [| done]. apply admit_Ok in E as (Hf & _).
    intros _ p Hp. rewrite List.Forall_forall in Hf. by rewrite (Hf p Hp).
Qed.

Lemma candidates_nodes pod req led nodes :
  map cand_node (candidates pod req led nodes) = admitted_nodes pod req led nodes.
Proof.
  unfold admitted_nodes. rewrite (List.filter_ext _ _ (all_plugins_admit pod req led)).
  unfold candidates. induction nodes as [|n nodes IH]; [done |]. csimpl.
  destruct (admit_node pod req n led) as [c|r] eqn:E; csimpl; [| done].
  apply admit_Ok in E as (_ & -> & _). by rewrite IH.
Qed.

Lemma candidates_admit pod req led nodes c :
  In c (candidates pod req led nodes) ->
  In (cand_node c) nodes /\ admit_node pod req (cand_node c) led = Ok c.
Proof.
  unfold candidates. intros Hc. apply list_elem_of_In, list_elem_of_omap in Hc as (n & Hn & Hc).
  apply list_elem_of_In in Hn. destruct (admit_node pod req n led) as [c'|] eqn:E; [| done].
  simplify_eq. pose proof (proj1 (admit_Ok _ _ _ _ _) E) as (_ & -> & _). done.
Qed.

Lemma filter_candidates pod req nodes led f :
  filter pod req nodes led = Filtered.Feasible f -> feasible_iter f = candidates pod req led nodes.
Proof.
  unfold filter. rewrite filter_fold. simpl. destruct (candidates pod req led nodes) as [|c cs].
  - by destruct (tally _ _).
  - intros [= <-]. done.
Qed.

(** ** Theorems *)

(** The Filter stage is exact.  The feasible set is, in order, the nodes
    every plugin admits; when there is none, each observed node was rejected and
    is counted exactly once, under the rejection of the first plugin that
    refused it; nothing is reported only when no node was observed. *)
Theorem filter_exact pod req nodes led :
  Z.of_nat (length nodes) <= Word.u64_max ->
  match filter pod req nodes led with
  | Filtered.Feasible f =>
      map cand_node (feasible_iter f) = admitted_nodes pod req led nodes
  | Filtered.Infeasible d =>
      nodes <> [] /\ admitted_nodes pod req led nodes = [] /\
      Diagnosis.nodes_observed d = Z.of_nat (length nodes) /\
      forall r, Diagnosis.count d r = Z.of_nat (length (rejected_as pod req led r nodes))
  | Filtered.NoNodesObserved => nodes = []
  end.
Proof.
  intros Hlen. destruct (filter pod req nodes led) as [f|d|] eqn:E.
  - by rewrite (filter_candidates _ _ _ _ _ E), candidates_nodes.
  - unfold filter in E. rewrite filter_fold in E. simpl in E.
    destruct (candidates pod req led nodes) as [|c cs] eqn:Ec; [| done].
    assert (d = tally (refusals pod req led nodes) []) as -> by (destruct (tally _ _); congruence).
    pose proof (refusals_all _ _ _ _ Ec) as Hr.
    destruct (tally_spec (refusals pod req led nodes) []) as (Hp & Ht & Hc);
      [constructor | rewrite Hr; simpl; lia |]. simpl in Ht. split_and!.
    + intros ->. done.
    + by rewrite <- candidates_nodes, Ec.
    + rewrite nodes_observed_total; [lia | done | lia].
    + intros r. rewrite Hc, occurrences_rejected. unfold Diagnosis.count. simpl. lia.
  - unfold filter in E. rewrite filter_fold in E. simpl in E.
    destruct (candidates pod req led nodes) as [|c cs] eqn:Ec; [| done].
    pose proof (refusals_all _ _ _ _ Ec) as Hr. destruct (refusals pod req led nodes) as [|r rs].
    + by destruct nodes.
    + destruct (tally_spec (r :: rs) []) as (_ & Ht & _); [constructor | rewrite Hr; simpl; lia |].
      destruct (tally (r :: rs) []); [simpl in Ht; lia | done].
Qed.

(** ** Readiness *)

Lemma find_projected cs c :
  is_ready_type c = true ->
  List.find is_ready_type (List.filter (fun c => negb (is_ready_type c)) cs ++ [c])%list = Some c.
Proof.
  intros Hc. induction cs as [|x cs IH]; simpl; [by rewrite Hc |].
  destruct (is_ready_type x) eqn:E; simpl; [done |]. by rewrite E.
Qed.

Lemma ready_condition_shape state now prev :
  is_ready_type (ready_condition state now prev) = true /\
  jget "status" (ready_condition state now prev) = Some (JString (NodeReadiness.condition_status state)).
Proof. by destruct state. Qed.

(** When the Lease proves the node alive. *)
Definition lease_fresh (age : string -> option Z) (lease : option json) : bool :=
  is_some_and (fun a => a <=? GRACE_PERIOD)
    (lease >>? jget "spec" >>? jget "renewTime" >>? as_str >>? age).

(** A node whose [status] can carry the projected condition. *)
Definition projectable (node : json) : bool :=
  match node with
  | JObject obj => match bt_get "status" obj with None | Some (JObject _) => true | _ => false end
  | _ => false
  end.

(** A node is ready for placement exactly when its Lease was renewed within
    the grace period, whatever [Ready] condition was stored on it; a node whose
    [status] cannot carry the condition is never ready. *)
Theorem node_ready_iff_lease_fresh age node lease now :
  is_ready (project age node lease now) = projectable node && lease_fresh age lease.
Proof.
  unfold is_ready, project, project_ready_condition, projectable, lease_fresh.
  cbn [observed_value]. match goal with |- context [readiness ?s] => generalize s as since end.
  intros since. match goal with |- context [ready_condition ?s ?n ?p] =>
    destruct (ready_condition_shape s n p) as [Ht Hs]; generalize dependent (ready_condition s n p) end.
  intros c Ht Hs. destruct node as [| | | | | obj]; try done.
  generalize (default [] (jget "status" (JObject obj) >>? jget "conditions" >>? as_array)) as cs.
  intros cs.
  assert (forall so, eqb (find_ready_condition (JObject (bt_insert "status"
      (JObject (bt_insert "conditions" (JArray (List.filter (fun c => negb (is_ready_type c)) cs ++ [c])) so))
      obj)) >>? jget "status" >>? as_str) (Some "True") =
      is_some_and (fun a => a <=? GRACE_PERIOD) since) as Hobj.
  { intros so. unfold find_ready_condition. simpl jget at 1 2. cbn [jget].
    rewrite !bt_get_insert_eq. cbn [mbind option_bind as_array jget]. rewrite !bt_get_insert_eq.
    cbn [mbind option_bind as_array]. rewrite find_projected by done. cbn [mbind option_bind].
    rewrite Hs. simpl. destruct since as [a|]; simpl; [| done]. by destruct (a <=? GRACE_PERIOD). }
  destruct (bt_get "status" obj) as [[]|] eqn:E; simpl default; try apply Hobj;
    unfold find_ready_condition; cbn [jget]; by rewrite bt_get_insert_eq.
Qed.

(** ** Round-robin *)

Lemma nth_wrapping_lookup f i :
  Z.of_nat (length (feasible_iter f)) <= Word.u64_max ->
  feasible_iter f !! Z.to_nat (i mod Z.of_nat (length (feasible_iter f))) = Some (nth_wrapping f i).
Proof.
  unfold nth_wrapping, feasible_len, feasible_iter, Word.u64_saturate. simpl length. intros Hl.
  rewrite Word.saturate_small by lia.
  replace (Z.of_nat (S (length (tail f)))) with (1 + Z.of_nat (length (tail f))) by lia.
  pose proof (Z.mod_pos_bound i (1 + Z.of_nat (length (tail f)))) as Hm.
  set (k := i mod (1 + Z.of_nat (length (tail f)))) in *. case_match; bool_to_prop.
  - replace (Z.to_nat k) with (S (Z.to_nat (k - 1))) by lia. simpl.
    destruct (lookup_lt_is_Some_2 (tail f) (Z.to_nat (k - 1))) as [c Hc]; [lia |]. by rewrite Hc.
  - by replace (Z.to_nat k) with 0%nat by lia.
Qed.

#[export] Instance round_robin_laws : StrategyLaws RoundRobin.
Proof.
  split. intros s pod f. exists (nth_wrapping f (cursor s)). split; [| done].
  unfold nth_wrapping. case_match; [| by left].
  destruct (tail f !! _) as [c|] eqn:E; simpl; [| by left].
  right. apply list_elem_of_In. by eapply list_elem_of_lookup_2.
Qed.

(** [n] consecutive picks over one feasible set. *)
Fixpoint picks (n : nat) (s : RoundRobin) (pod : json) (f : Feasible) : list string :=
  match n with
  | O => []
  | S n => let '(name, s') := pick s pod f in name :: picks n s' pod f
  end.

Lemma picks_lookup n s pod f j :
  0 <= cursor s -> cursor s + Z.of_nat n <= Word.u64_max -> (j < n)%nat ->
  picks n s pod f !! j = Some (cand_name (nth_wrapping f (cursor s + Z.of_nat j))).
Proof.
  revert s j. induction n as [|n IH]; intros s j Hs Hn Hj; [lia |]. simpl.
  destruct j as [|j]; simpl; [by rewrite Z.add_0_r |].
  rewrite IH; simpl; rewrite ?Word.u64_add_small by lia; [| lia | lia | lia].
  do 3 f_equal. lia.
Qed.

Lemma picks_length n s pod f : length (picks n s pod f) = n.
Proof. revert s. induction n as [|n IH]; intros s; [done |]. simpl. by rewrite IH. Qed.

(** Round-robin starves nobody: as many consecutive picks as there are
    feasible nodes are a rotation of the feasible set, so every node admitted for
    the pod is picked exactly once. *)
Theorem round_robin_visits_all s pod f :
  let names := map cand_name (feasible_iter f) in
  0 <= cursor s -> cursor s + Z.of_nat (length names) <= Word.u64_max ->
  let k := Z.to_nat (cursor s mod Z.of_nat (length names)) in
  picks (length names) s pod f = (drop k names ++ take k names)%list.
Proof.
  intros names Hs Hn k. assert (length names = length (feasible_iter f)) as Hl by apply length_map.
  assert (0 < Z.of_nat (length names)) as Hpos by (rewrite Hl; simpl; lia).
  pose proof (Z.mod_pos_bound (cursor s) _ Hpos) as Hk.
  apply list_eq. intros j. destruct (decide (j < length names)%nat) as [Hj | Hj].
  - rewrite picks_lookup by (lia || done).
    pose proof (nth_wrapping_lookup f (cursor s + Z.of_nat j)) as Hw. rewrite <- Hl in Hw.
    specialize (Hw ltac:(lia)).
    assert (names !! Z.to_nat ((cursor s + Z.of_nat j) mod Z.of_nat (length names)) =
      Some (cand_name (nth_wrapping f (cursor s + Z.of_nat j)))) as <-.
    { etrans; [exact (list_lookup_fmap cand_name (feasible_iter f) _) | by rewrite Hw]. }
    rewrite <- Z.add_mod_idemp_l by lia.
    destruct (decide (k + j < length names)%nat) as [Hkj | Hkj].
    + rewrite lookup_app_l by (rewrite length_drop; lia). rewrite lookup_drop.
      rewrite Z.mod_small by lia. f_equal. lia.
    + rewrite lookup_app_r by (rewrite length_drop; lia). rewrite length_drop.
      rewrite lookup_take_lt by lia.
      rewrite <- (Zmod_unique _ (Z.of_nat (length names)) 1 (cursor s mod Z.of_nat (length names) + Z.of_nat j - Z.of_nat (length names)))
        by lia. f_equal. lia.
  - rewrite !lookup_ge_None_2; [done | rewrite length_app, length_drop, length_take; lia |].
    rewrite picks_length. lia.
Qed.

(** ** What the rules say

    Stated on the objects themselves.  A rule counts where it can be read: a node
    selector that is an object, a taint that has a key. *)

(** How hard a taint is: one of no effect that is known is a [NoSchedule]. *)
Definition effect_of (taint : json) (e : TaintEffect.t) : Prop :=
  jget "effect" taint = Some (JString "NoExecute") /\ e = TaintEffect.NoExecute \/
  jget "effect" taint = Some (JString "PreferNoSchedule") /\ e = TaintEffect.PreferNoSchedule \/
  jget "effect" taint <> Some (JString "NoExecute") /\ jget "effect" taint <> Some (JString "PreferNoSchedule") /\
    e = TaintEffect.NoSchedule.

Definition effect_name (e : TaintEffect.t) : string :=
  match e with
  | TaintEffect.NoSchedule => "NoSchedule"
  | TaintEffect.PreferNoSchedule => "PreferNoSchedule"
  | TaintEffect.NoExecute => "NoExecute"
  end.

(** A toleration answers a taint: its effect, if it names one, is the taint's; and
    either it accepts the key whatever its value ([Exists], any key where it names
    none), or it names the key and the value. *)
Definition answers (tol taint : json) (key : string) (e : TaintEffect.t) : Prop :=
  (forall s, jget "effect" tol = Some (JString s) -> s = "" \/ s = effect_name e) /\
  (jget "operator" tol = Some (JString "Exists") /\
     (forall k, jget "key" tol = Some (JString k) -> k = "" \/ k = key) \/
   jget "operator" tol <> Some (JString "Exists") /\
     (forall k, jget "key" tol = Some (JString k) -> k = key) /\
     (key <> "" -> jget "key" tol = Some (JString key)) /\
     forall v, jget "value" tol = Some (JString v) <-> jget "value" taint = Some (JString v)).

(** A pod may go to a node. *)
Record permitted (pod node : json) : Prop := {
  not_cordoned : (jget "spec" node >>? jget "unschedulable") <> Some (JBool true);
  pinned_here : forall want,
    (jget "spec" pod >>? jget "nodeName") = Some (JString want) -> want <> "" ->
    (jget "metadata" node >>? jget "name") = Some (JString want);
  selected : forall sel k v,
    (jget "spec" pod >>? jget "nodeSelector") = Some (JObject sel) -> In (k, v) sel ->
    (jget "metadata" node >>? jget "labels" >>? jget k) = Some v;
  tolerated : forall taints taint key e,
    (jget "spec" node >>? jget "taints") = Some (JArray taints) -> In taint taints ->
    jget "key" taint = Some (JString key) -> effect_of taint e -> e <> TaintEffect.PreferNoSchedule ->
    exists tols tol, (jget "spec" pod >>? jget "tolerations") = Some (JArray tols) /\ In tol tols /\
      answers tol taint key e
}.

Lemma bind_str o s : (o >>? as_str) = Some s <-> o = Some (JString s).
Proof. destruct o as [[]|]; cbn; naive_solver. Qed.

Lemma parse_effect s e : TaintEffect.parse s = Some e -> s = effect_name e.
Proof. unfold TaintEffect.parse. intros H. repeat case_match; simplify_eq; bool_to_prop; done. Qed.

Lemma read_effect taint e :
  effect_of taint e ->
  default TaintEffect.NoSchedule (TaintEffect.parse (default "" (jget "effect" taint >>? as_str))) = e.
Proof.
  intros [[-> ->] | [[-> ->] | (Hx & Hp & ->)]]; [done | done |].
  destruct (jget "effect" taint >>? as_str) as [s |] eqn:E; [| done]. apply bind_str in E.
  cbn [default from_option id]. destruct (TaintEffect.parse s) as [e |] eqn:Ep; [| done]. apply parse_effect in Ep as ->.
  cbn. destruct e; done.
Qed.

Lemma equal_answers tol taint key :
  eqb (default "" (jget "key" tol >>? as_str)) key && eqb (jget "value" tol >>? as_str) (jget "value" taint >>? as_str) = true ->
  (forall k, jget "key" tol = Some (JString k) -> k = key) /\
  (key <> "" -> jget "key" tol = Some (JString key)) /\
  forall v, jget "value" tol = Some (JString v) <-> jget "value" taint = Some (JString v).
Proof.
  intros [Hk Hv]%andb_true_iff. apply eqb_sound in Hk, Hv. setoid_rewrite <- bind_str. rewrite Hv. split_and!; [| | done].
  - intros k Hkey. rewrite Hkey in Hk. done.
  - intros Hne. destruct (jget "key" tol >>? as_str); cbn in Hk; congruence.
Qed.

Lemma tolerated_answers tol taint key e :
  tolerated_by (mkTaint key (jget "value" taint >>? as_str) e) tol = true -> answers tol taint key e.
Proof.
  unfold tolerated_by, answers. cbn [taint_key taint_value taint_effect]. intros [Heff Hk]%andb_true_iff. split.
  - intros s Hs. apply bind_str in Hs. rewrite Hs in Heff. cbn [mbind option_bind] in Heff. unfold non_empty in Heff.
    destruct (eqb s "") eqn:E; [left; by apply eqb_sound in E |]. right. apply eqb_sound in Heff. by apply parse_effect.
  - destruct (jget "operator" tol >>? as_str) as [o |] eqn:Eo; cbn [default from_option id] in Hk.
    + apply bind_str in Eo. destruct (eqb o "Exists") eqn:Ex.
      * apply eqb_sound in Ex as ->. left. split; [done |]. intros k Hkey. apply bind_str in Hkey. rewrite Hkey in Hk.
        cbn [default from_option id] in Hk. apply orb_true_iff in Hk as [Hk | Hk]; apply eqb_sound in Hk; auto.
      * right. apply eqb_false in Ex. split; [congruence |]. by apply equal_answers.
    + right. split; [intros Hx; apply bind_str in Hx; congruence |]. cbn in Hk. by apply equal_answers.
Qed.

(** What the plugins admit is permitted. *)
Lemma admit_permitted pod req node led c :
  admit_node pod req node led = Ok c -> permitted pod (observed_value node).
Proof.
  intros Ha. apply admit_Ok in Ha as (Hf & _ & Hn). apply bindable_name_spec in Hn as (_ & _ & Hname).
  rewrite List.Forall_forall in Hf.
  pose proof (Hf FilterPlugin.Cordon ltac:(simpl; tauto)) as Hc. pose proof (Hf FilterPlugin.NodeSelector ltac:(simpl; tauto)) as Hs.
  pose proof (Hf FilterPlugin.TaintToleration ltac:(simpl; tauto)) as Ht. cbn [check] in Hc, Hs, Ht. unfold refuse_unless in Hc, Hs.
  split.
  - intros E. unfold is_cordoned in Hc. rewrite E in Hc. done.
  - intros want Hw Hne. unfold node_name_matches in Hname. rewrite Hw in Hname. cbn [mbind option_bind as_str] in Hname.
    unfold non_empty in Hname. rewrite (proj2 (eqb_false want "") Hne) in Hname.
    apply eqb_sound in Hname. by apply bind_str in Hname.
  - intros sel k v Hsel Hin. unfold matches_node_selector in Hs. rewrite Hsel in Hs. cbn [mbind option_bind as_object] in Hs.
    destruct (forallb _ sel) eqn:E; [| done]. rewrite forallb_forall in E. specialize (E (k, v) Hin). cbn [fst snd] in E.
    destruct (_ >>? jget k) as [w |]; [| done]. cbn [is_some_and] in E. by apply eqb_sound in E as ->.
  - intros taints taint key e Htaints Hin Hkey He Hsoft. unfold untolerated_taint, blocking_taints in Ht.
    rewrite Htaints in Ht. cbn [mbind option_bind as_array] in Ht.
    destruct (List.find _ (omap read_taint taints)) as [x |] eqn:E; [done |].
    assert (read_taint taint = Some (mkTaint key (jget "value" taint >>? as_str) e)) as Hr.
    { unfold read_taint. rewrite Hkey. cbn [mbind option_bind as_str]. cbv zeta. rewrite (read_effect taint e He). by destruct e. }
    pose proof (List.find_none _ _ E (mkTaint key (jget "value" taint >>? as_str) e)) as Hx.
    rewrite negb_false_iff in Hx. unfold tolerates in Hx.
    assert (In (mkTaint key (jget "value" taint >>? as_str) e) (omap read_taint taints)) as Hm.
    { apply list_elem_of_In, list_elem_of_omap. exists taint. split; [by apply list_elem_of_In | done]. }
    specialize (Hx Hm). destruct (jget "spec" pod >>? jget "tolerations") as [v |] eqn:Etol; cbn [mbind option_bind] in Hx; [| done].
    destruct v as [| | | | tols |]; try done. cbn [as_array] in Hx. apply existsb_exists in Hx as (tol & Htol & Hby).
    exists tols, tol. split_and!; [done | done |]. by apply tolerated_answers.
Qed.

(** ** Rules that cannot be evaluated *)

(** Where the rules cannot be evaluated the node stays a candidate: a
    [nodeSelector] that is not an object matches every node, and taints without
    a key (or whose key is not a string) block nobody. *)
Theorem malformed_rules_admit pod node sel ts :
  (jget "spec" pod >>? jget "nodeSelector" = Some sel -> as_object sel = None ->
     matches_node_selector pod node = true) /\
  (jget "spec" node >>? jget "taints" >>? as_array = Some ts ->
     Forall (fun t => jget "key" t >>? as_str = None) ts ->
     untolerated_taint pod node = None).
Proof.
  split.
  - intros Hs Ho. unfold matches_node_selector. rewrite Hs. simpl. by rewrite Ho.
  - intros Ht Hk. unfold untolerated_taint, blocking_taints. rewrite Ht.
    replace (omap read_taint ts) with (@nil Taint); [done |].
    symmetry. clear Ht. induction Hk as [|t ts Ht' _ IH]; [done |]. csimpl. unfold read_taint at 1.
    by rewrite Ht', IH.
Qed.

(** ** Witnesses *)

Definition bare_node (name : string) : ObservedNode :=
  mkObserved (jobj [("metadata", jobj [("name", JString name)])]).

Lemma filter_exact_witness :
  match filter JNull (mkPodRequests 0 0 false) [bare_node "a"; bare_node "b"] [] with
  | Filtered.Infeasible d => Diagnosis.nodes_observed d = 2
  | _ => False
  end.
Proof.
  pose proof (filter_exact JNull (mkPodRequests 0 0 false) [bare_node "a"; bare_node "b"] []
    ltac:(vm_compute; discriminate)) as Hf.
  assert (filter JNull (mkPodRequests 0 0 false) [bare_node "a"; bare_node "b"] [] =
    Filtered.Infeasible [(Rejection.NotReady, 2)]) as E by (vm_compute; reflexivity).
  rewrite E in *. apply Hf.
Defined.

Definition two_candidates : Feasible :=
  mkFeasible (mkCandidate "a" (bare_node "a")) [mkCandidate "b" (bare_node "b")].

Lemma round_robin_visits_all_witness :
  picks 2 (mkRoundRobin 1) JNull two_candidates = ["b"; "a"].
Proof. exact (round_robin_visits_all (mkRoundRobin 1) JNull two_candidates ltac:(vm_compute; discriminate) ltac:(vm_compute; discriminate)). Defined.

(** A selector that is an array, and a taint without a key. *)
Lemma malformed_rules_admit_witness :
  matches_node_selector (jobj [("spec", jobj [("nodeSelector", JArray [])])]) JNull = true /\
  untolerated_taint JNull (jobj [("spec", jobj [("taints", JArray [jobj [("effect", JString "NoSchedule")]])])]) = None.
Proof.
  split.
  - by apply (malformed_rules_admit _ JNull (JArray []) []).
  - apply (malformed_rules_admit JNull _ JNull [jobj [("effect", JString "NoSchedule")]]);
      [reflexivity | repeat constructor].
Defined.
