(* ===== verification/SchedPolicy.v ===== *)
(** * Affinity, topology spread and preemption

    [engenho-scheduler/src/affinity.rs] and [preemption.rs].  Both are pure
    functions of JSON objects; the source says they are not wired into the tick.

    The theorems characterise each verdict exactly: when affinity admits a node,
    that an admitted placement keeps every domain's skew within its bound, which
    pods a preemption plan evicts, that it suffices and that no shorter prefix of
    the eviction order does. *)

From Stdlib Require Import Sorted.
From stdpp Require Import base tactics option list strings numbers.
From S2P Require Import Prelude Text BTreeMap Json Resource Command PatchApply Ssa Quantity SchedFit SchedFilter.

Local Open Scope string_scope.
Local Open Scope Z_scope.

(** ** [affinity.rs] *)

Record PlacedPod : Type := mkPlacedPod { placed_labels : json; placed_node : string }.

Definition topology_domain (node : json) (topology_key : string) : option string :=
  jget "metadata" node >>? jget "labels" >>? jget topology_key >>? as_str.

Definition matches_match_labels (selector labels : json) : bool :=
  match jget "matchLabels" selector >>? as_object with
  | None => true
  | Some ml => forallb (fun e => is_some_and (fun have => eqb have e.2) (jget e.1 labels)) ml
  end.

Definition selector_is_supported (selector : json) : bool :=
  is_none_or (fun e : list json => match e with [] => true | _ => false end)
    (jget "matchExpressions" selector >>? as_array).

Record Term : Type := mkTerm { term_selector : json; term_key : string }.

Definition read_term (t : json) : option Term :=
  jget "labelSelector" t >>? (fun selector =>
  jget "topologyKey" t >>? as_str >>? (fun key => Some (mkTerm selector key))).

Definition required_terms (pod : json) (kind : string) : list Term :=
  match jget "spec" pod >>? jget "affinity" >>? jget kind
          >>? jget "requiredDuringSchedulingIgnoredDuringExecution" >>? as_array with
  | Some terms => omap read_term terms
  | None => []
  end.

Module AffinityRejection.
Inductive t : Type :=
  | AffinityUnsatisfied (topology_key : string)
  | AntiAffinityViolated (topology_key : string)
  | UnsupportedSelector
  | NoTopologyDomain (topology_key : string).
End AffinityRejection.

(** The domain of the node a placed pod sits on: the first node of that name. *)
Definition domain_of_placed (nodes : list (string * json)) (topology_key : string) (p : PlacedPod)
  : option string :=
  List.find (fun e => eqb e.1 (placed_node p)) nodes >>? (fun e => topology_domain e.2 topology_key).

Definition found_in (placed : list PlacedPod) (nodes : list (string * json)) (term : Term)
    (domain : string) : bool :=
  existsb (fun p =>
    is_some_and (fun d => eqb d domain) (domain_of_placed nodes (term_key term) p) &&
    matches_match_labels (term_selector term) (placed_labels p)) placed.

Definition check_term (node : json) (placed : list PlacedPod) (nodes : list (string * json))
    (violated_when_found : bool) (term : Term) : option AffinityRejection.t :=
  if negb (selector_is_supported (term_selector term)) then Some AffinityRejection.UnsupportedSelector
  else
    match topology_domain node (term_key term) with
    | None => Some (AffinityRejection.NoTopologyDomain (term_key term))
    | Some domain =>
        if Bool.eqb (found_in placed nodes term domain) violated_when_found then
          Some (if violated_when_found
                then AffinityRejection.AntiAffinityViolated (term_key term)
                else AffinityRejection.AffinityUnsatisfied (term_key term))
        else None
    end.

(** The first refusal of a list. *)
Fixpoint first_refusal {A} (f : A -> option AffinityRejection.t) (l : list A)
  : option AffinityRejection.t :=
  match l with
  | [] => None
  | x :: l => match f x with Some r => Some r | None => first_refusal f l end
  end.

Definition check_affinity (pod node : json) (placed : list PlacedPod) (nodes : list (string * json))
  : option AffinityRejection.t :=
  first_refusal (fun kv : string * bool =>
    first_refusal (check_term node placed nodes kv.2) (required_terms pod kv.1))
    [("podAffinity", false); ("podAntiAffinity", true)].

Record SpreadConstraint : Type := mkSpread {
  max_skew : Z;
  spread_key : string;
  when_unsatisfiable : string;
  spread_selector : json
}.

Definition read_spread (c : json) : option SpreadConstraint :=
  jget "maxSkew" c >>? as_i64 >>? (fun n => if 1 <=? n then Some n else None) >>? (fun max_skew =>
  jget "topologyKey" c >>? as_str >>? (fun key =>
  Some (mkSpread max_skew key (default "DoNotSchedule" (jget "whenUnsatisfiable" c >>? as_str))
          (default JNull (jget "labelSelector" c))))).

Definition spread_constraints (pod : json) : list SpreadConstraint :=
  match jget "spec" pod >>? jget "topologySpreadConstraints" >>? as_array with
  | Some cs => omap read_spread cs
  | None => []
  end.

(** [*counts.entry(d).or_insert(0) += n]. *)
Definition bump (d : string) (n : Z) (counts : btmap string Z) : btmap string Z :=
  bt_insert d (Word.i64_add (default 0 (bt_get d counts)) n) counts.

Definition open_domains (nodes : list (string * json)) (key : string) : btmap string Z :=
  fold_left (fun counts e =>
    match topology_domain e.2 key with
    | Some d => match bt_get d counts with None => bt_insert d 0 counts | Some _ => counts end
    | None => counts
    end) nodes [].

Definition count_placed (nodes : list (string * json)) (c : SpreadConstraint)
    (counts : btmap string Z) (p : PlacedPod) : btmap string Z :=
  if negb (matches_match_labels (spread_selector c) (placed_labels p)) then counts
  else
    match domain_of_placed nodes (spread_key c) p with
    | Some d => bump d 1 counts
    | None => counts
    end.

Definition domain_counts (placed : list PlacedPod) (nodes : list (string * json))
    (c : SpreadConstraint) : btmap string Z :=
  fold_left (count_placed nodes c) placed (open_domains nodes (spread_key c)).

(** [counts.values().min().unwrap_or(0)]. *)
Definition least (counts : btmap string Z) : Z :=
  match map snd counts with
  | [] => 0
  | x :: xs => fold_left Z.min xs x
  end.

Definition check_constraint (node : json) (placed : list PlacedPod) (nodes : list (string * json))
    (c : SpreadConstraint) : option AffinityRejection.t :=
  if negb (eqb (when_unsatisfiable c) "DoNotSchedule") then None
  else if negb (selector_is_supported (spread_selector c)) then
    Some AffinityRejection.UnsupportedSelector
  else
    match topology_domain node (spread_key c) with
    | None => Some (AffinityRejection.NoTopologyDomain (spread_key c))
    | Some target =>
        let counts := domain_counts placed nodes c in
        let after := Word.i64_add (default 0 (bt_get target counts)) 1 in
        if max_skew c <? Word.i64_add after (- least counts)
        then Some (AffinityRejection.AntiAffinityViolated (spread_key c)) else None
    end.

Definition check_spread (pod node : json) (placed : list PlacedPod) (nodes : list (string * json))
  : option AffinityRejection.t :=
  first_refusal (check_constraint node placed nodes) (spread_constraints pod).

(** ** [preemption.rs] *)

Record Victim : Type := mkVictim {
  victim_pod : json;
  victim_priority : Z;
  victim_requests : PodRequests
}.

Definition priority_of (pod : json) : Z :=
  default 0 (jget "spec" pod >>? jget "priority" >>? as_i64).

Definition is_preemption_exempt (pod : json) : bool :=
  is_some (jget "metadata" pod >>? jget "deletionTimestamp").

Definition may_preempt (pod : json) : bool :=
  negb (eqb (jget "spec" pod >>? jget "preemptionPolicy" >>? as_str) (Some "Never")).

Module PreemptionPlan.
Inductive t : Type :=
  | Evict (pods : list string)
  | Infeasible.
End PreemptionPlan.

Definition pod_name (pod : json) : string :=
  default "" (jget "metadata" pod >>? jget "name" >>? as_str).

(** The order victims are taken in: by priority, then by name. *)
Definition victim_cmp (a b : Victim) : comparison :=
  lex (Z.compare (victim_priority a) (victim_priority b))
      (cmp (pod_name (victim_pod a)) (pod_name (victim_pod b))).

Definition victim_le (a b : Victim) : bool :=
  match victim_cmp a b with Gt => false | _ => true end.

Definition eligible (my_priority : Z) (v : Victim) : bool :=
  (victim_priority v <? my_priority) && negb (is_preemption_exempt (victim_pod v)).

Definition candidates_of (my_priority : Z) (running : list Victim) : list Victim :=
  sort_by victim_le (List.filter (eligible my_priority) running).

Definition enough (need : PodRequests) (cpu mem : Z) : bool :=
  (req_cpu need <=? cpu) && (req_mem need <=? mem).

(** The loop: the freed amounts and the names evicted so far. *)
Fixpoint evict (need : PodRequests) (cpu mem : Z) (evicted : list string) (l : list Victim)
  : Z * Z * list string :=
  match l with
  | [] => (cpu, mem, evicted)
  | v :: l =>
      if enough need cpu mem then (cpu, mem, evicted)
      else evict need (Word.i128_wrap (cpu + req_cpu (victim_requests v)))
                      (Word.i128_wrap (mem + req_mem (victim_requests v)))
                      (evicted ++ [pod_name (victim_pod v)])%list l
  end.

Definition plan `{FloatText} (incoming : json) (free : NodeResources) (running : list Victim)
  : PreemptionPlan.t :=
  if negb (may_preempt incoming) then PreemptionPlan.Infeasible
  else
    let need := pod_requests incoming in
    if unparseable need then PreemptionPlan.Infeasible
    else
      let my_priority := priority_of incoming in
      let '(cpu, mem, evicted) :=
        evict need (free_cpu free) (free_mem free) [] (candidates_of my_priority running) in
      if enough need cpu mem then PreemptionPlan.Evict evicted else PreemptionPlan.Infeasible.

(** ** The verdicts of affinity, topology spread and preemption

    Lemmas and theorems on [SchedPolicy]: affinity admits a node exactly when
    every required term is met in the node's domain; a spread constraint admits
    it exactly when the placement keeps the skew over every domain; a
    preemption plan is the shortest sufficient prefix of the eviction order, and
    is refused only when no choice of victims would do. *)

(** ** Affinity *)

Lemma first_refusal_None {A} (f : A -> option AffinityRejection.t) l :
  first_refusal f l = None <-> Forall (fun x => f x = None) l.
Proof.
  induction l as [|x l IH]; simpl; [by split |]. rewrite Forall_cons_iff.
  destruct (f x); [naive_solver |]. rewrite IH. naive_solver.
Qed.

(** A placed pod the selector matches, on a node of the domain. *)
Definition sits (nodes : list (string * json)) (key : string) (selector : json) (domain : string)
    (p : PlacedPod) : bool :=
  matches_match_labels selector (placed_labels p) &&
  eqb (domain_of_placed nodes key p) (Some domain).

Lemma found_in_spec placed nodes t domain :
  found_in placed nodes t domain = existsb (sits nodes (term_key t) (term_selector t) domain) placed.
Proof.
  unfold found_in. induction placed as [|p l IH]; simpl; [done |]. rewrite IH. f_equal.
  unfold sits. rewrite andb_comm. f_equal. unfold eqb.
  destruct (domain_of_placed _ _ _) as [d |]; simpl; [| done].
  repeat case_bool_decide; naive_solver.
Qed.

(** What a required term asks of a candidate node. *)
Definition term_met (node : json) (placed : list PlacedPod) (nodes : list (string * json))
    (wanted : bool) (t : Term) : Prop :=
  selector_is_supported (term_selector t) = true /\
  exists domain, topology_domain node (term_key t) = Some domain /\
    existsb (sits nodes (term_key t) (term_selector t) domain) placed = wanted.

Lemma check_term_None node placed nodes violated t :
  check_term node placed nodes violated t = None <-> term_met node placed nodes (negb violated) t.
Proof.
  unfold check_term, term_met. destruct (selector_is_supported _); simpl; [| naive_solver].
  destruct (topology_domain node (term_key t)) as [d |]; [| naive_solver].
  rewrite found_in_spec. set (b := existsb _ _). destruct (Bool.eqb b violated) eqn:E.
  - apply Bool.eqb_prop in E. split; [done |]. intros (_ & d' & [= <-] & Hb). subst violated.
    fold b in Hb. by destruct b.
  - split; [| done]. intros _. split; [done |]. exists d. split; [done |]. fold b. clearbody b.
    by destruct b, violated.
Qed.

(** ** Topology spread *)

(** The number of placed pods a constraint counts in a domain. *)
Definition placed_in (nodes : list (string * json)) (c : SpreadConstraint) (placed : list PlacedPod)
    (domain : string) : Z :=
  Z.of_nat (length (List.filter (sits nodes (spread_key c) (spread_selector c) domain) placed)).

Definition is_domain (nodes : list (string * json)) (key domain : string) : bool :=
  existsb (fun e => eqb (topology_domain e.2 key) (Some domain)) nodes.

Lemma open_domains_get nodes key d :
  bt_get d (open_domains nodes key) = if is_domain nodes key d then Some 0 else None.
Proof.
  unfold open_domains. set (step := fun counts e => _).
  assert (forall m, bt_get d (fold_left step nodes m) =
    match bt_get d m with Some n => Some n
    | None => if is_domain nodes key d then Some 0 else None end) as Hgen; [| by rewrite (Hgen [])].
  induction nodes as [|e l IH]; intros m; simpl; [by destruct (bt_get d m) |].
  rewrite IH. unfold step. unfold eqb.
  destruct (topology_domain e.2 key) as [k |]; [| by rewrite bool_decide_false by done].
  destruct (bt_get k m) as [n |] eqn:Ek.
  - destruct (bt_get d m) eqn:Ed; [done |]. rewrite bool_decide_false; [done |]. congruence.
  - destruct (decide (k = d)) as [-> |]; [rewrite bt_get_insert_eq, Ek, bool_decide_true; done |].
    rewrite bt_get_insert_ne by done. destruct (bt_get d m); [done |].
    rewrite bool_decide_false; [done | congruence].
Qed.

Lemma open_domains_sorted nodes key : bt_sorted (open_domains nodes key).
Proof.
  unfold open_domains. set (step := fun counts e => _).
  assert (forall m, bt_sorted m -> bt_sorted (fold_left step nodes m)) as Hgen;
    [| apply Hgen, bt_sorted_nil].
  induction nodes as [|e l IH]; intros m Hm; [done |]. apply IH. unfold step.
  repeat case_match; try done; by apply bt_insert_sorted.
Qed.

Lemma domain_of_placed_domain nodes key p d :
  domain_of_placed nodes key p = Some d -> is_domain nodes key d = true.
Proof.
  unfold domain_of_placed. destruct (List.find _ nodes) as [e |] eqn:E; simpl; [| done].
  intros He. apply existsb_exists. exists e. split; [eapply List.find_some, E |].
  rewrite He. apply eqb_refl.
Qed.

Lemma count_placed_get nodes c placed d m :
  0 <= default 0 (bt_get d m) -> default 0 (bt_get d m) + Z.of_nat (length placed) <= Word.i64_max ->
  (is_domain nodes (spread_key c) d = true -> is_Some (bt_get d m)) ->
  bt_get d (fold_left (count_placed nodes c) placed m) =
    option_map (fun n => n + placed_in nodes c placed d) (bt_get d m).
Proof.
  unfold placed_in. revert m. induction placed as [|p l IH]; intros m H0 Hmax Hdom; simpl.
  { destruct (bt_get d m); simpl; [f_equal; lia | done]. }
  simpl in Hmax. unfold count_placed at 2. unfold sits at 1.
  destruct (matches_match_labels _ _); simpl; [| apply IH; auto; lia].
  destruct (domain_of_placed nodes (spread_key c) p) as [k |] eqn:Ek;
    [| unfold eqb; rewrite bool_decide_false by done; apply IH; auto; lia].
  apply domain_of_placed_domain in Ek as Hk. unfold bump.
  destruct (decide (k = d)) as [-> |].
  - rewrite eqb_refl. destruct (Hdom Hk) as [n Hn]. rewrite Hn in *. simpl in *.
    assert (Word.i64_add n 1 = n + 1) as Hadd.
    { apply Word.i64_add_small. unfold Word.is_i64, Word.i64_min in *. lia. }
    rewrite IH; rewrite !bt_get_insert_eq, Hadd; simpl;
      [f_equal; rewrite Nat2Z.inj_succ; lia | lia | lia | eauto].
  - unfold eqb. rewrite bool_decide_false by congruence.
    rewrite IH; rewrite !bt_get_insert_ne by done; auto; lia.
Qed.

Lemma domain_counts_get placed nodes c d :
  Z.of_nat (length placed) <= Word.i64_max ->
  bt_get d (domain_counts placed nodes c) =
    if is_domain nodes (spread_key c) d then Some (placed_in nodes c placed d) else None.
Proof.
  intros. unfold domain_counts. rewrite count_placed_get; rewrite open_domains_get.
  - by destruct (is_domain nodes (spread_key c) d).
  - by destruct (is_domain nodes (spread_key c) d).
  - destruct (is_domain nodes (spread_key c) d); simpl; lia.
  - intros ->. eauto.
Qed.

Lemma domain_counts_sorted placed nodes c : bt_sorted (domain_counts placed nodes c).
Proof.
  unfold domain_counts. generalize (open_domains_sorted nodes (spread_key c)).
  generalize (open_domains nodes (spread_key c)). induction placed as [|p l IH]; intros m Hm; [done |].
  apply IH. unfold count_placed, bump. repeat case_match; try done; by apply bt_insert_sorted.
Qed.

Lemma least_spec (m : btmap string Z) :
  m <> [] -> (exists k, In (k, least m) m) /\ forall e, In e m -> least m <= e.2.
Proof.
  destruct m as [|[k0 n0] m]; [done |]. intros _. unfold least. simpl.
  assert (forall l n, (fold_left Z.min (map snd l) n = n \/
      exists k : string, In (k, fold_left Z.min (map snd l) n) l) /\
      fold_left Z.min (map snd l) n <= n /\
      forall e, In e l -> fold_left Z.min (map snd l) n <= e.2) as Hgen.
  { clear. induction l as [|[k x] l IH]; intros n; simpl; [naive_solver lia |].
    destruct (IH (n `min` x)) as (Hin & Hle & Hall). split_and!.
    - destruct Hin as [-> | [k' Hk']]; [| eauto].
      destruct (Z.min_spec n x) as [[_ ->] | [_ ->]]; [by left | right; eauto].
    - lia.
    - intros e [<- | He]; simpl; [lia | auto]. }
  destruct (Hgen m n0) as (Hin & Hle & Hall). split.
  - destruct Hin as [-> | [k Hk]]; [eauto | eauto].
  - intros e [<- | He]; simpl; [lia | auto].
Qed.

(** What a constraint that filters asks of a candidate node: placing one more pod
    in its domain keeps it within [max_skew] of every domain. *)
Definition skew_kept (node : json) (placed : list PlacedPod) (nodes : list (string * json))
    (c : SpreadConstraint) : Prop :=
  selector_is_supported (spread_selector c) = true /\
  exists target, topology_domain node (spread_key c) = Some target /\
    forall d, is_domain nodes (spread_key c) d = true ->
      placed_in nodes c placed target + 1 - placed_in nodes c placed d <= max_skew c.

Lemma placed_in_range nodes c placed d : 0 <= placed_in nodes c placed d <= Z.of_nat (length placed).
Proof. unfold placed_in. pose proof (List.filter_length_le (sits nodes (spread_key c) (spread_selector c) d) placed). lia. Qed.

Lemma least_counts node name placed nodes c target :
  Z.of_nat (length placed) < Word.i64_max -> In (name, node) nodes ->
  topology_domain node (spread_key c) = Some target ->
  (exists k, is_domain nodes (spread_key c) k = true /\
     least (domain_counts placed nodes c) = placed_in nodes c placed k) /\
  forall k, is_domain nodes (spread_key c) k = true ->
    least (domain_counts placed nodes c) <= placed_in nodes c placed k.
Proof.
  intros Hlen Hin Ht. pose proof (domain_counts_sorted placed nodes c) as Hs.
  assert (forall k n, In (k, n) (domain_counts placed nodes c) <->
    is_domain nodes (spread_key c) k = true /\ n = placed_in nodes c placed k) as Hmem.
  { intros k n. rewrite <- (bt_get_In k n _ Hs), domain_counts_get by lia.
    destruct (is_domain _ _ _); naive_solver. }
  assert (is_domain nodes (spread_key c) target = true) as Hd.
  { apply existsb_exists. exists (name, node). split; [done |]. simpl. rewrite Ht. apply eqb_refl. }
  destruct (least_spec (domain_counts placed nodes c)) as [[k Hk] Hall].
  { intros E. assert (In (target, placed_in nodes c placed target) []) as []. rewrite <- E. by apply Hmem. }
  split; [exists k; by apply Hmem |].
  intros d Hd'. by apply (Hall (d, placed_in nodes c placed d)), Hmem.
Qed.

Lemma check_constraint_None node name placed nodes c :
  Z.of_nat (length placed) < Word.i64_max -> In (name, node) nodes ->
  check_constraint node placed nodes c = None <->
  (when_unsatisfiable c = "DoNotSchedule" -> skew_kept node placed nodes c).
Proof.
  intros Hlen Hin. unfold check_constraint, skew_kept. unfold eqb at 1.
  case_bool_decide as Hw; simpl; [| naive_solver].
  destruct (selector_is_supported _); simpl; [| naive_solver].
  destruct (topology_domain node (spread_key c)) as [target |] eqn:Ht; [| naive_solver].
  destruct (least_counts node name placed nodes c target) as [(k & Hk & Hl) Hmin]; auto.
  assert (is_domain nodes (spread_key c) target = true) as Hd.
  { apply existsb_exists. exists (name, node). split; [done |]. simpl. rewrite Ht. apply eqb_refl. }
  rewrite domain_counts_get by lia. rewrite Hd. simpl.
  pose proof (placed_in_range nodes c placed target). pose proof (placed_in_range nodes c placed k).
  rewrite (Word.i64_add_small (placed_in _ _ _ _) 1) by (unfold Word.is_i64, Word.i64_min, Word.i64_max in *; lia).
  rewrite Word.i64_add_small by (unfold Word.is_i64, Word.i64_min, Word.i64_max in *; lia).
  case_match eqn:E; [apply Z.ltb_lt in E | apply Z.ltb_ge in E]; split; try done.
  - intros (_ & t & [= <-] & Hall)%(fun f => f Hw). specialize (Hall k Hk). lia.
  - intros _ _. split; [done |]. exists target. split; [done |]. intros d Hd'. specialize (Hmin d Hd'). lia.
Qed.

(** ** Preemption *)

Lemma victim_le_total a b : victim_le a b = false -> victim_le b a = true.
Proof.
  unfold victim_le, victim_cmp. rewrite (Z.compare_antisym (victim_priority b)), (cmp_sym (pod_name (victim_pod b))).
  rewrite lex_opp. by destruct (lex _ _).
Qed.

(** Capacity once a list of victims is gone. *)
Definition freed (free : NodeResources) (l : list Victim) : NodeResources :=
  mkNodeResources (free_cpu free + sum_cpu (map victim_requests l))
                  (free_mem free + sum_mem (map victim_requests l)).

Definition suffices (need : PodRequests) (free : NodeResources) (l : list Victim) : bool :=
  enough need (free_cpu (freed free l)) (free_mem (freed free l)).

(** No partial sum of the freed capacity leaves the range of [i128]. *)
Definition representable (free : NodeResources) (l : list Victim) : Prop :=
  forall k, Word.is_i128 (free_cpu (freed free (take k l))) /\
            Word.is_i128 (free_mem (freed free (take k l))).

Definition after (free : NodeResources) (v : Victim) : NodeResources := freed free [v].

Lemma freed_cons free v l : freed free (v :: l) = freed (after free v) l.
Proof. unfold freed, after, freed. simpl. f_equal; lia. Qed.

Lemma representable_cons free v l :
  representable free (v :: l) ->
  representable (after free v) l /\
  Word.i128_wrap (free_cpu free + req_cpu (victim_requests v)) = free_cpu (after free v) /\
  Word.i128_wrap (free_mem free + req_mem (victim_requests v)) = free_mem (after free v).
Proof.
  intros Hr. split; [intros k; specialize (Hr (S k)); rewrite firstn_cons, freed_cons in Hr; exact Hr |].
  specialize (Hr 1%nat). rewrite firstn_cons, take_0 in Hr. unfold freed in Hr. simpl in Hr.
  unfold after, freed. simpl. rewrite !Z.add_0_r in *.
  split; apply Word.i128_wrap_small, Hr.
Qed.

Lemma evict_spec need free evicted l :
  representable free l ->
  exists k, (k <= length l)%nat /\
    evict need (free_cpu free) (free_mem free) evicted l =
      (free_cpu (freed free (take k l)), free_mem (freed free (take k l)),
       (evicted ++ map (fun v => pod_name (victim_pod v)) (take k l))%list) /\
    (suffices need free (take k l) = true \/ k = length l) /\
    forall j, (j < k)%nat -> suffices need free (take j l) = false.
Proof.
  revert free evicted. induction l as [|v l IH]; intros free evicted Hr.
  { exists 0%nat. simpl. rewrite app_nil_r. unfold freed. simpl. rewrite !Z.add_0_r.
    split_and!; auto; lia. }
  assert (suffices need free [] = enough need (free_cpu free) (free_mem free)) as H0.
  { unfold suffices, freed. simpl. by rewrite !Z.add_0_r. }
  cbn [evict]. destruct (enough need (free_cpu free) (free_mem free)) eqn:E.
  { exists 0%nat. simpl. rewrite app_nil_r. unfold freed. simpl. rewrite !Z.add_0_r.
    split_and!; auto; lia. }
  apply representable_cons in Hr as (Hr & Hc & Hm). rewrite Hc, Hm.
  destruct (IH (after free v) (evicted ++ [pod_name (victim_pod v)])%list Hr)
    as (k & Hk & He & Hs & Hmin).
  exists (S k). rewrite He, firstn_cons. unfold suffices. rewrite !freed_cons, <- app_assoc.
  split_and!; [simpl; lia | done | |].
  - destruct Hs as [Hs | ->]; [left; exact Hs | by right].
  - intros [|j] Hj; [exact H0 |]. rewrite firstn_cons, !freed_cons. apply Hmin. lia.
Qed.

Lemma candidates_perm p running :
  candidates_of p running ≡ₚ List.filter (eligible p) running.
Proof. apply sort_by_perm. Qed.

(** Victims whose requests are amounts. *)
Definition amounts (l : list Victim) : Prop := Forall (fun v => chargeable (victim_requests v)) l.

Lemma sums_submseteq (l1 l2 : list Victim) :
  amounts l2 -> l1 ⊆+ l2 ->
  sum_cpu (map victim_requests l1) <= sum_cpu (map victim_requests l2) /\
  sum_mem (map victim_requests l1) <= sum_mem (map victim_requests l2).
Proof.
  intros Ha Hs. induction Hs as [|v l1 l2 _ IH|v w l|v l1 l2 Hs IH|l1 l2 l3 Hs1 IH1 Hs2 IH2];
    simpl in *; try lia.
  - apply Forall_cons_iff in Ha as [_ Ha]. specialize (IH Ha). lia.
  - apply Forall_cons_iff in Ha as [[? ?] Ha]. specialize (IH Ha). lia.
  - specialize (IH2 Ha). assert (amounts l2) as Ha2; [| specialize (IH1 Ha2); lia].
    unfold amounts in *. rewrite Forall_forall in *. intros x Hx%list_elem_of_In.
    apply Ha, list_elem_of_In. by eapply elem_of_submseteq.
Qed.

Lemma suffices_mono need free l1 l2 :
  amounts l2 -> l1 ⊆+ l2 -> suffices need free l1 = true -> suffices need free l2 = true.
Proof.
  intros Ha Hs. destruct (sums_submseteq l1 l2 Ha Hs). unfold suffices, enough, freed. simpl.
  rewrite !andb_true_iff, !Z.leb_le. lia.
Qed.

(** ** Theorems *)

(** Required pod affinity admits a node exactly when every [podAffinity] term
    has a matching pod already placed in the node's domain, no [podAntiAffinity]
    term has one, every selector is one the code can evaluate and the node
    carries every topology label; anything else is a refusal. *)
Theorem affinity_exact pod node placed nodes :
  check_affinity pod node placed nodes = None <->
  Forall (term_met node placed nodes true) (required_terms pod "podAffinity") /\
  Forall (term_met node placed nodes false) (required_terms pod "podAntiAffinity").
Proof.
  unfold check_affinity. rewrite first_refusal_None, !Forall_cons_iff. simpl.
  rewrite !first_refusal_None.
  rewrite (Forall_iff _ _ _ (check_term_None node placed nodes false)),
          (Forall_iff _ _ _ (check_term_None node placed nodes true)). naive_solver.
Qed.

(** (C36) The topology-spread check admits a listed node exactly when, for every
    [DoNotSchedule] constraint of the pod, putting one more pod in the node's
    domain leaves it at most [maxSkew] above every domain that exists, counting
    the placed pods the selector matches; the [i64] counters do not wrap. *)
Theorem spread_exact pod node name placed nodes :
  Z.of_nat (length placed) < Word.i64_max -> In (name, node) nodes ->
  check_spread pod node placed nodes = None <->
  Forall (fun c => when_unsatisfiable c = "DoNotSchedule" -> skew_kept node placed nodes c)
         (spread_constraints pod).
Proof.
  intros Hlen Hin. unfold check_spread. rewrite first_refusal_None.
  apply Forall_iff. intros c. by eapply check_constraint_None.
Qed.

Section Preemption.
Context `{FloatText}.

(** A preemption plan evicts the pods of the shortest prefix of the eviction
    order that makes room, where the order holds exactly the running pods of
    strictly lower priority that are not terminating, lowest priority first and
    by name within one; it is [Infeasible] only when no set of such pods would
    make room. *)
Theorem preemption_plan_exact incoming free running :
  may_preempt incoming = true -> unparseable (pod_requests incoming) = false ->
  amounts running -> representable free (candidates_of (priority_of incoming) running) ->
  let need := pod_requests incoming in
  let order := candidates_of (priority_of incoming) running in
  order ≡ₚ List.filter (fun v => (victim_priority v <? priority_of incoming)
                              && negb (is_preemption_exempt (victim_pod v))) running /\
  Sorted victim_le order /\
  match plan incoming free running with
  | PreemptionPlan.Evict names =>
      exists k, names = map (fun v => pod_name (victim_pod v)) (take k order) /\
        suffices need free (take k order) = true /\
        forall j, (j < k)%nat -> suffices need free (take j order) = false
  | PreemptionPlan.Infeasible =>
      forall l, l ⊆+ List.filter (eligible (priority_of incoming)) running ->
        suffices need free l = false
  end.
Proof.
  intros Hmay Hread Ha Hr need order. split; [apply candidates_perm |].
  split; [apply sort_by_sorted, victim_le_total |].
  unfold plan. rewrite Hmay, Hread. cbn [negb]. fold need.
  destruct (evict_spec need free [] _ Hr) as (k & Hk & He & Hs & Hmin). rewrite He.
  destruct (enough _ _ _) eqn:E; [by exists k |]. destruct Hs as [Hs | ->]; [unfold suffices in Hs; congruence |].
  intros l Hl. apply not_true_is_false. intros Hsuff.
  rewrite firstn_all in E. fold order in E. change (suffices need free order = false) in E.
  rewrite (suffices_mono need free l order) in E; [done | | | done].
  - unfold amounts, order. rewrite candidates_perm. apply Forall_forall. intros v (Hv & _)%filter_In. by eapply Forall_forall in Ha.
  - unfold order. by rewrite candidates_perm.
Qed.

End Preemption.

(** ** Witnesses *)

#[local] Instance no_floats : FloatText := fun _ => "".

Definition rack : json := jobj [("metadata", jobj [("labels", jobj [("zone", JString "z1")])])].

Definition spreading : json :=
  jobj [("spec", jobj [("topologySpreadConstraints",
    JArray [jobj [("maxSkew", JNumber (PosInt 1)); ("topologyKey", JString "zone")]])])].

Lemma spread_exact_witness : check_spread spreading rack [] [("n1", rack)] = None.
Proof.
  apply (spread_exact spreading rack "n1" [] [("n1", rack)]); [done | by left |].
  constructor; [| constructor]. intros _. split; [done |]. exists "z1". split; [done |].
  intros d _. vm_compute. discriminate.
Defined.

Definition asking (name cpu : string) (priority : Z) : json :=
  jobj [("metadata", jobj [("name", JString name)]);
        ("spec", jobj [("priority", JNumber (PosInt priority));
           ("containers", JArray [jobj [("resources",
              jobj [("requests", jobj [("cpu", JString cpu)])])]])])].

Definition victim_of (pod : json) : Victim := mkVictim pod (priority_of pod) (pod_requests pod).

(** Two pods on a full node: one that asks for nothing, one that holds a core. *)
Definition idle_and_busy : list Victim := [victim_of (asking "busy" "1" 2); victim_of (asking "idle" "0" 1)].

Lemma representable_two free a b :
  Word.is_i128 (free_cpu free) -> Word.is_i128 (free_mem free) ->
  Word.is_i128 (free_cpu (freed free [a])) -> Word.is_i128 (free_mem (freed free [a])) ->
  Word.is_i128 (free_cpu (freed free [a; b])) -> Word.is_i128 (free_mem (freed free [a; b])) ->
  representable free [a; b].
Proof.
  intros ?????? [|[|k]]; simpl; rewrite ?take_nil; [| done | done].
  unfold freed. simpl. by rewrite !Z.add_0_r.
Qed.

Lemma preemption_plan_exact_witness :
  exists k, ["idle"; "busy"] =
    map (fun v => pod_name (victim_pod v)) (take k (candidates_of 9 idle_and_busy)).
Proof.
  pose proof (preemption_plan_exact (asking "new" "1" 9) (mkNodeResources 0 0) idle_and_busy eq_refl eq_refl)
    as Hp. cbv zeta in Hp.
  assert (plan (asking "new" "1" 9) (mkNodeResources 0 0) idle_and_busy =
    PreemptionPlan.Evict ["idle"; "busy"]) as E by (vm_compute; reflexivity). rewrite E in Hp.
  destruct Hp as (_ & _ & k & Hk & _).
  - repeat constructor; vm_compute; discriminate.
  - change (candidates_of (priority_of (asking "new" "1" 9)) idle_and_busy)
      with [victim_of (asking "idle" "0" 1); victim_of (asking "busy" "1" 2)].
    apply representable_two; split; vm_compute; discriminate.
  - exists k. exact Hk.
Defined.

(** A victim set is not minimal: on a full node that runs a pod which asks
    for nothing and a pod of higher priority that holds a core, the plan for a pod
    that wants one core evicts both, although evicting the second alone makes
    room. *)
Theorem preemption_not_minimal :
  plan (asking "new" "1" 9) (mkNodeResources 0 0) idle_and_busy = PreemptionPlan.Evict ["idle"; "busy"] /\
  suffices (pod_requests (asking "new" "1" 9)) (mkNodeResources 0 0)
    (List.filter (fun v => eqb (pod_name (victim_pod v)) "busy") idle_and_busy) = true.
Proof. split; vm_compute; reflexivity. Qed.
