(* ===== verification/Birth.v ===== *)
(** * What a new object is born with

    [engenho-types/src/birth.rs] and [pod.rs]: the fields a created object gets
    once, before its command is replicated (name, namespace, creation timestamp,
    and the defaults of Pods, Namespaces and PersistentVolumeClaims), and the
    quality-of-service class of a pod.  Objects are ordered maps; [entry] with
    [or_insert_with] is [or_insert]. *)

From Stdlib Require Import Sorted.
From stdpp Require Import base tactics option list strings numbers.
From S2P Require Import Prelude BTreeMap Json.

Local Open Scope string_scope.
Local Open Scope Z_scope.

(** [obj.entry(k).or_insert_with(|| v)]. *)
Definition or_insert (k : string) (v : json) (m : btmap string json) : btmap string json :=
  if bt_contains k m then m else bt_insert k v m.

(** The entry made an object where it is missing or something else. *)
Definition object_at (k : string) (m : btmap string json) : btmap string json :=
  default [] (bt_get k m >>? as_object).

Definition with_object (k : string) (f : btmap string json -> btmap string json)
    (m : btmap string json) : btmap string json :=
  bt_insert k (JObject (f (object_at k m))) m.

(** The entry made an object only where it is missing; something else stays. *)
Definition with_object_entry (k : string) (f : btmap string json -> btmap string json)
    (m : btmap string json) : btmap string json :=
  match bt_get k m with
  | None => bt_insert k (JObject (f [])) m
  | Some (JObject o) => bt_insert k (JObject (f o)) m
  | Some _ => m
  end.

(** [body.as_object_mut()], and nothing done to what is not an object. *)
Definition on_object (f : btmap string json -> btmap string json) (body : json) : json :=
  match body with JObject m => JObject (f m) | _ => body end.

(** ** [birth.rs] *)

Definition creation_timestamp_is_unset (slot : option json) : bool :=
  match slot with
  | None | Some JNull => true
  | Some (JString s) => eqb s ""
  | Some (JObject m) => match m with [] => true | _ => false end
  | _ => false
  end.

(** [metadata_mut(body)] with what is done to it: a [metadata] that is not an
    object is replaced. *)
Definition on_metadata (f : btmap string json -> btmap string json) (body : json) : json :=
  on_object (with_object "metadata" f) body.

Definition field_unset (slot : option json) : bool :=
  match slot with
  | None | Some JNull => true
  | Some (JString s) => eqb s ""
  | Some _ => false
  end.

Definition fill_if_unset (field value : string) (meta : btmap string json) : btmap string json :=
  if field_unset (bt_get field meta) && negb (eqb value "")
  then bt_insert field (JString value) meta else meta.

Definition stamp_creation (now : string) (meta : btmap string json) : btmap string json :=
  if creation_timestamp_is_unset (bt_get "creationTimestamp" meta)
  then bt_insert "creationTimestamp" (JString now) meta else meta.

(** The stamped body, and whether it stamped. *)
Definition stamp_creation_timestamp (body : json) (now : string) : json * bool :=
  (on_metadata (stamp_creation now) body,
   match body with
   | JObject m => creation_timestamp_is_unset (bt_get "creationTimestamp" (object_at "metadata" m))
   | _ => false
   end).

Definition claim_phase (status : btmap string json) : btmap string json :=
  if is_none_or (fun p => is_null p || eqb (as_str p) (Some "")) (bt_get "phase" status)
  then bt_insert "phase" (JString "Pending") status else status.

Definition stamp_claim_phase (body : json) : json := on_object (with_object "status" claim_phase) body.

Definition KUBERNETES_FINALIZER : string := "kubernetes".
Definition NAME_LABEL : string := "kubernetes.io/metadata.name".

Definition add_finalizer (spec : btmap string json) : btmap string json :=
  let spec := or_insert "finalizers" (JArray []) spec in
  match bt_get "finalizers" spec with
  | Some (JArray fs) =>
      if existsb (fun v => eqb (as_str v) (Some KUBERNETES_FINALIZER)) fs then spec
      else bt_insert "finalizers" (JArray (fs ++ [JString KUBERNETES_FINALIZER])) spec
  | _ => spec
  end.

Definition name_label (name : string) (meta : btmap string json) : btmap string json :=
  with_object_entry "labels" (or_insert NAME_LABEL (JString name)) meta.

Definition stamp_namespace_defaults (body : json) : json :=
  let name := jget "metadata" body >>? jget "name" >>? as_str in
  on_object (fun obj =>
    let obj := with_object_entry "status" (or_insert "phase" (JString "Active")) obj in
    let obj := with_object_entry "spec" add_finalizer obj in
    match name with
    | Some name => with_object_entry "metadata" (name_label name) obj
    | None => obj
    end) body.

(** ** [pod.rs] *)

(** [resources.<kind>.<res>] of a container. *)
Definition container_quantity (c : json) (kind res : string) : option json :=
  jget "resources" c >>? jget kind >>? jget res.

(** The loop of [qos_class]: whether anything was set, and whether every pair is
    guaranteed. *)
Definition qos_step (c : json) (acc : bool * bool) (res : string) : bool * bool :=
  let request := container_quantity c "requests" res in
  let limit := container_quantity c "limits" res in
  let any := acc.1 || is_some request || is_some limit in
  let effective_request := match request with Some r => Some r | None => limit end in
  (any, acc.2 && negb (is_none limit || negb (eqb effective_request limit))).

Definition qos_scan (acc : bool * bool) (c : json) : bool * bool :=
  fold_left (qos_step c) ["cpu"; "memory"] acc.

Definition spec_array (spec : option json) (field : string) : list json :=
  default [] (spec >>? jget field >>? as_array).

Definition qos_class (spec : option json) : string :=
  let containers := (spec_array spec "containers" ++ spec_array spec "initContainers")%list in
  let '(any, guaranteed) :=
    fold_left qos_scan containers (false, match containers with [] => false | _ => true end) in
  if negb any then "BestEffort" else if guaranteed then "Guaranteed" else "Burstable".

Definition stamp_birth_status (body : json) : json :=
  let qos := qos_class (jget "spec" body) in
  on_object (with_object "status" (fun status =>
    or_insert "qosClass" (JString qos) (or_insert "phase" (JString "Pending") status))) body.

Definition DEFAULT_CONTAINER_ANNOTATION : string := "kubectl.kubernetes.io/default-container".

Definition default_container (pod : json) : option string :=
  let names := omap (fun c => jget "name" c >>? as_str)
    (default [] (jget "spec" pod >>? jget "containers" >>? as_array)) in
  let annotated :=
    jget "metadata" pod >>? jget "annotations" >>? jget DEFAULT_CONTAINER_ANNOTATION >>? as_str
    >>? (fun d => if existsb (fun n => eqb n d) names then Some d else None) in
  match annotated with Some d => Some d | None => head names end.

(** ** A birth *)

Definition stamp_born (group kind name : string) (namespace : option string) (body : json)
    (now : string) : json :=
  match body with
  | JObject _ =>
      let body := on_metadata (fun meta =>
        let meta := fill_if_unset "name" name meta in
        match namespace with
        | Some ns => fill_if_unset "namespace" ns meta
        | None => meta
        end) body in
      let body := (stamp_creation_timestamp body now).1 in
      if eqb group "" then
        if eqb kind "Pod" then stamp_birth_status body
        else if eqb kind "Namespace" then stamp_namespace_defaults body
        else if eqb kind "PersistentVolumeClaim" then stamp_claim_phase body
        else body
      else body
  | _ => body
  end.
