(* ===== verification/Mesh.v ===== *)
(** * Proposing a command

    [engenho-store/src/mesh.rs], [StoreMesh::propose] on the leader, over
    [fjall_store.rs]'s [write_refusal]: a command that touches a sealed value
    this node cannot read or write is refused; the objects a command creates are
    given their birth fields once, before replication; the replicated command is
    applied by the catalog.  Consensus itself (ordering, forwarding, elections)
    is outside: the command is applied at the next index of the current term. *)

From Stdlib Require Import Sorted.
From stdpp Require Import base tactics option list strings numbers.
From S2P Require Import Prelude Text BTreeMap Json Resource WatchHistory Command Read.
From S2P Require Import PatchApply PatchFacts Ssa SsaFacts Pagination Catalog CatalogMeta CatalogFacts CatalogReads.
From S2P Require Import Birth.

Local Open Scope string_scope.
Local Open Scope Z_scope.

(** [sealer_fault] is [sealer.write_fault()]. *)
Definition write_refusal (sealer_fault : option SealFault.t) (c : ResourceCatalog)
    (cmd : ResourceCommand.t) : option (string * SealFault.t) :=
  match sealer_fault >>? (fun fault =>
          option_map (fun k => (label k, fault)) (List.find is_sealed_kind (ResourceCommand.keys cmd))) with
  | Some refusal => Some refusal
  | None => option_map (fun e => (label e.1, e.2)) (unreadable_touched_by c cmd)
  end.

Definition stamp_birth (c : ResourceCatalog) (k : ResourceKey) (v : json) (now : string) : json :=
  if is_none (get c k) then stamp_born (group k) (kind k) (name k) (namespace k) v now else v.

Definition stamp_birth_op (c : ResourceCatalog) (now : string) (o : TxnOp.t) : TxnOp.t :=
  match o with
  | TxnOp.Put k v => TxnOp.Put k (stamp_birth c k v now)
  | TxnOp.Delete k ts => TxnOp.Delete k ts
  end.

Definition stamp_births (c : ResourceCatalog) (cmd : ResourceCommand.t) (now : string)
  : ResourceCommand.t :=
  match cmd with
  | ResourceCommand.Put k v expected reason =>
      ResourceCommand.Put k (stamp_birth c k v now) expected reason
  | ResourceCommand.Txn compares success failure reason =>
      ResourceCommand.Txn compares (map (stamp_birth_op c now) success)
        (map (stamp_birth_op c now) failure) reason
  | ResourceCommand.Patch _ _ _ _ _ _ | ResourceCommand.Delete _ _ _ _ => cmd
  end.

Section Propose.
Context `{SerdeJson} `{PatchSchemaEnv} `{OpDecoder} `{Blake3} `{ErrorText}.

Definition propose (sealer_fault : option SealFault.t) (now : string) (c : ResourceCatalog)
    (cmd : ResourceCommand.t) : result (ApplyOutcome * ResourceCatalog) (string * SealFault.t) :=
  match write_refusal sealer_fault c cmd with
  | Some refusal => Err refusal
  | None =>
      Ok (apply_logged c (proposed (stamp_births c cmd now)) (last_applied_term c)
            (Word.u64_add (last_applied_index c) 1))
  end.

End Propose.

(** ** Lemmas: an unchanged object keeps every field *)

Lemma unchanged_fields v w f :
  wf_json v = true -> wf_json w = true -> unchanged v w None = true -> f <> "metadata" ->
  jget f w = jget f v.
Proof.
  intros Hv Hw Hu Hf. unfold unchanged, objects_equal_except in Hu.
  destruct v as [| | | | | before], w as [| | | | | after]; simpl in Hu;
    try (apply eqb_sound in Hu; congruence).
  apply andb_true_iff in Hu as [Hl Hu]. rewrite forallb_forall in Hu.
  apply wf_json_object in Hv as [Hb _]. apply wf_json_object in Hw as [Ha _].
  assert (forall l : list (string * json), List.filter (fun _ => true) l = l) as Hid.
  { induction l as [|e l IH]; simpl; congruence. }
  rewrite !Hid in *. apply Nat.eqb_eq in Hl. cbn [jget].
  assert (forall e, In e before -> In e.1 (map fst after) /\
            (e.1 <> "metadata" -> bt_get e.1 after = Some e.2)) as Hsub.
  { intros e He. specialize (Hu e He). destruct (bt_get e.1 after) as [a|] eqn:E; [| done]. simpl in Hu.
    split; [apply bt_get_In in E; [by apply (in_map fst) in E | done] |]. intros Hne.
    rewrite (proj2 (eqb_false e.1 "metadata")) in Hu by done. apply eqb_sound in Hu. congruence. }
  destruct (bt_get f before) as [x|] eqn:E.
  - apply bt_get_In in E; [| done]. destruct (Hsub _ E) as [_ Hx]. by apply Hx.
  - destruct (bt_get f after) as [a|] eqn:Ea; [| done]. exfalso.
    apply bt_get_In in Ea; [| done].
    assert (incl (map fst after) (map fst before)) as Hincl.
    { apply List.NoDup_length_incl.
      - apply NoDup_ListNoDup. by apply bt_keys_NoDup.
      - rewrite !length_map. lia.
      - intros k Hk. apply in_map_iff in Hk as (e & <- & He). by apply Hsub. }
    apply (in_map fst) in Ea. apply Hincl, in_map_iff in Ea as ([k x] & Hk & Hin). simpl in Hk. subst.
    apply bt_get_In in Hin; [congruence | done].
Qed.

(** ** Lemmas: a patch of a stored object *)

Lemma stamp_revision_meta_field v rev gen k :
  k <> "resourceVersion" -> k <> "generation" -> 
  meta_field k (stamp_revision v rev gen) = meta_field k v.
Proof.
  intros Hr Hg. rewrite stamp_revision_spec, !meta_field_meta_of, meta_of_with_metadata.
  destruct (meta_of v) as [meta|]; [| done]. simpl. unfold revision_stamp.
  by rewrite !bt_get_insert_ne.
Qed.

(** A merge patch without [metadata] leaves it alone. *)
Definition plain_patch (p : json) : bool :=
  match p with
  | JObject m => wf_json p && is_none (bt_get "metadata" m)
  | _ => false
  end.

Lemma merge_jget k t p :
  wf_json t = true -> bt_sorted p ->
  jget k (merge_rfc7396 t (JObject p)) =
    match bt_get k p with
    | None => jget k t
    | Some JNull => None
    | Some v => Some (merge_rfc7396 (default JNull (jget k t)) v)
    end.
Proof.
  intros Ht Hp. rewrite merge_object. cbn [jget].
  rewrite merge_fields_get by (try done; by apply wf_sorted, wf_as_object).
  assert (bt_get k (default [] (as_object t)) = jget k t) as -> by (by destruct t). done.
Qed.

Lemma plain_patch_spec v p :
  wf_json v = true -> plain_patch p = true ->
  wf_json (merge_rfc7396 v p) = true /\ jget "metadata" (merge_rfc7396 v p) = jget "metadata" v.
Proof.
  intros Hv Hp. unfold plain_patch in Hp. destruct p as [| | | | | m]; try done.
  apply andb_true_iff in Hp as [Hw Hm]. split; [by apply merge_wf |].
  rewrite merge_jget by (done || by apply wf_sorted). by destruct (bt_get "metadata" m).
Qed.

Section Patch.
Context `{SerdeJson} `{PatchSchemaEnv} `{OpDecoder} `{Blake3} `{ErrorText}.

Lemma propose_patch_full sf now c k p reason v meta o c' :
  bt_sorted (resources c) -> values_wf (resources c) ->
  bt_get k (resources c) = Some (v, meta) -> plain_patch p = true ->
  finalizers_released v = false ->
  propose sf now c (ResourceCommand.patch k p reason) = Ok (o, c') ->
  exists v' meta', resources c' = bt_insert k (v', meta') (resources c) /\
    (forall f, f <> "metadata" -> jget f v' = jget f (merge_rfc7396 v p)) /\
    finalizers_released v' = false /\ wf_json v' = true /\
    (forall f, f <> "resourceVersion" -> f <> "generation" -> meta_field f v' = meta_field f v).
Proof.
  intros Hs Hvw Hg Hp Hr Hpr. pose proof (values_wf_get _ _ _ Hs Hvw Hg) as Hv. simpl in Hv.
  destruct (plain_patch_spec v p Hv Hp) as [Hmw Hmm].
  unfold propose in Hpr. case_match; [done |]. injection Hpr as Ho.
  unfold apply_logged, apply_under in Ho. simpl command in Ho.
  destruct (unreadable_touched_by c _) as [[k' f']|] eqn:U.
  { exfalso. unfold write_refusal in H4. rewrite U in H4. by case_match. }
  unfold apply_command, ResourceCommand.patch, ResourceCommand.patch_typed, stamp_births, apply_patch in Ho.
  rewrite (proj2 (eqb_false PatchType.Merge PatchType.Apply)) in Ho by done.
  rewrite Hg in Ho. cbn -[OnIdentical.skips stamp_revision finalizer_release_removal commit] in Ho.
  destruct (OnIdentical.skips _ (Some v) (merge_rfc7396 v p) None) eqn:Sk.
  - injection Ho as <- <-. exists v, meta. simpl. split_and!; try done.
    + by rewrite bt_insert_get_id.
    + intros f Hf. symmetry. apply unchanged_fields; try done. simpl in Sk. by bool_to_prop.
  - set (post := stamp_revision (merge_rfc7396 v p) _ _) in Ho.
    assert (finalizers_released post = false) as Hpost.
    { rewrite <- Hr. unfold post. apply finalizers_released_ext;
        rewrite stamp_revision_meta_field by done; unfold meta_field; by rewrite Hmm. }
    unfold finalizer_release_removal in Ho. rewrite Hpost in Ho. simpl in Ho.
    injection Ho as <- <-. exists post. eexists. split_and!; [reflexivity | | done | |].
    + intros f Hf. unfold post. rewrite stamp_revision_spec. by apply jget_with_metadata.
    + apply stamp_revision_wf; [| done].
      exact (compute_generation_range (Some v) _ ltac:(by intros ? [= <-])).
    + intros f Hrv Hgen. unfold post. rewrite stamp_revision_meta_field by done. unfold meta_field. by rewrite Hmm.
Qed.

Lemma propose_patch sf now c k p reason v meta o c' :
  bt_sorted (resources c) -> values_wf (resources c) ->
  bt_get k (resources c) = Some (v, meta) -> plain_patch p = true ->
  finalizers_released v = false ->
  propose sf now c (ResourceCommand.patch k p reason) = Ok (o, c') ->
  exists v' meta', resources c' = bt_insert k (v', meta') (resources c) /\
    (forall f, f <> "metadata" -> jget f v' = jget f (merge_rfc7396 v p)) /\
    finalizers_released v' = false /\ wf_json v' = true.
Proof.
  intros Hs Hvw Hg Hp Hr Hpr.
  destruct (propose_patch_full _ _ _ _ _ _ _ _ _ _ Hs Hvw Hg Hp Hr Hpr) as (v' & meta' & ? & ? & ? & ? & _).
  by exists v', meta'.
Qed.

End Patch.
