(* ===== verification/Scheduler.v ===== *)
(** * The scheduling tick

    [engenho-scheduler/src/scheduler.rs]: list the pods and the nodes, derive
    every node's readiness from its Lease, open the ledger, and for each pending
    pod run the Filter stage and either bind it or record why no node admits it.

    The tick talks to the store through the interface [PodStore]: what it lists,
    what it reads, and commands that may fail.  [PodStoreLaws] is what the
    scheduler relies on.  A write error ends the tick ([?] in the source); the
    writes before it stay. *)

From Stdlib Require Import Sorted.
From stdpp Require Import base tactics option list strings numbers pretty.
From S2P Require Import Prelude Text BTreeMap Json Resource Command Quantity SchedFit SchedFilter.
From S2P Require Import SchedFilterFacts.

Local Open Scope string_scope.
Local Open Scope Z_scope.

(** ** The store, as the scheduler uses it *)

Class PodStore (St Er : Type) : Type := {
  store_list : St -> string -> string -> string -> option string -> list (ResourceKey * json);
  store_get : St -> ResourceKey -> option json;
  store_propose : St -> ResourceCommand.t -> result St Er
}.

(** ** Reports *)

Record Binding : Type := mkBinding { bind_key : ResourceKey; bind_node : string }.

Record TickReport : Type := mkTickReport {
  pods_examined : Z;
  nodes_available : Z;
  pending_pods : Z;
  unschedulable : Z;
  unschedulable_written : Z;
  no_nodes_observed : Z;
  bound : list Binding
}.

Definition report_new (pods nodes : Z) : TickReport := mkTickReport pods nodes 0 0 0 0 [].

Definition count_pending (r : TickReport) : TickReport :=
  mkTickReport (pods_examined r) (nodes_available r) (Word.u64_add (pending_pods r) 1)
    (unschedulable r) (unschedulable_written r) (no_nodes_observed r) (bound r).

Definition count_unschedulable (written : bool) (r : TickReport) : TickReport :=
  mkTickReport (pods_examined r) (nodes_available r) (pending_pods r)
    (Word.u64_add (unschedulable r) 1)
    (if written then Word.u64_add (unschedulable_written r) 1 else unschedulable_written r)
    (no_nodes_observed r) (bound r).

Definition count_no_nodes (r : TickReport) : TickReport :=
  mkTickReport (pods_examined r) (nodes_available r) (pending_pods r) (unschedulable r)
    (unschedulable_written r) (Word.u64_add (no_nodes_observed r) 1) (bound r).

Definition push_bound (b : Binding) (r : TickReport) : TickReport :=
  mkTickReport (pods_examined r) (nodes_available r) (pending_pods r) (unschedulable r)
    (unschedulable_written r) (no_nodes_observed r) (bound r ++ [b])%list.

Definition left_untouched (r : TickReport) : Z :=
  Word.u64_saturate (no_nodes_observed r +
    Word.u64_saturate (unschedulable r - unschedulable_written r)).

(** [Display]; the arrow is U+2192 in UTF-8. *)
Definition report_text (r : TickReport) : string :=
  pretty (pending_pods r) ++ " pending → " ++ pretty (Z.of_nat (length (bound r))) ++ " bound, " ++
  pretty (unschedulable r) ++ " unschedulable (" ++ pretty (unschedulable_written r) ++ " written), " ++
  pretty (no_nodes_observed r) ++ " with no node observed".

(** [engenho_controllers::ReconcileReport], the fields the scheduler names. *)
Record ReconcileReport : Type := mkReconcileReport {
  objects_examined : Z;
  objects_changed : Z;
  objects_skipped : Z;
  note : option string
}.

Definition controller_report (r : TickReport) : ReconcileReport :=
  mkReconcileReport (pods_examined r)
    (Word.u64_add (Z.of_nat (length (bound r))) (unschedulable_written r))
    (left_untouched r)
    (if 0 <? pending_pods r then Some (report_text r) else None).

(** ** Conditions *)

Definition is_pending (pod : json) : bool :=
  match jget "spec" pod >>? jget "nodeName" >>? as_str with
  | Some n => eqb n ""
  | None => true
  end.

Definition unschedulable_condition (d : Diagnosis.t) : json :=
  jobj [("type", JString "PodScheduled");
        ("status", JString "False");
        ("reason", JString "Unschedulable");
        ("message", JString (Diagnosis.to_string d))].

Definition condition_keys : list string := ["type"; "status"; "reason"; "message"].

Definition same_condition (c condition : json) : bool :=
  forallb (fun k => eqb (jget k c) (jget k condition)) condition_keys.

Definition already_marked (pod condition : json) : bool :=
  eqb (jptr "status" "phase" pod >>? as_str) (Some "Pending") &&
  is_some_and (fun cs => existsb (fun c => same_condition c condition) cs)
    (jptr "status" "conditions" pod >>? as_array).

Definition bind_patch (node_name : string) : json :=
  jobj [("spec", jobj [("nodeName", JString node_name)])].

Definition mark_patch (condition : json) : json :=
  jobj [("status", jobj [("phase", JString "Pending"); ("conditions", JArray [condition])])].

(** ** The tick *)

Section Tick.
Context {St Er Sg : Type} `{PodStore St Er} `{SchedulingStrategy Sg} `{FloatText}.

(** [age] reads the wall clock for a Lease's age; [now] is the tick's stamp. *)
Variables (age : string -> option Z) (now : string).

Definition observe (s : St) (nodes : list json) : list ObservedNode :=
  map (fun node =>
    let lease := node_name_of node >>? (fun name => store_get s (lease_key name)) in
    project age node lease now) nodes.

Definition mark_unschedulable (s : St) (pod_key : ResourceKey) (pod : json) (d : Diagnosis.t)
  : result (St * bool) Er :=
  let condition := unschedulable_condition d in
  if already_marked pod condition then Ok (s, false)
  else
    let? s := store_propose s
      (ResourceCommand.patch pod_key (mark_patch condition) Reason.Scheduler) in
    Ok (s, true).

(** What the loop carries. *)
Record Pass : Type := mkPass {
  store : St;
  strategy : Sg;
  ledger : NodeLedger.t;
  report : TickReport
}.

Definition place (observed : list ObservedNode) (p : Pass) (pod : ResourceKey * json)
  : result Pass Er :=
  let '(pod_key, pod_value) := pod in
  if negb (is_pending pod_value) then Ok p
  else
    let report := count_pending (report p) in
    let req := pod_requests pod_value in
    match filter pod_value req observed (ledger p) with
    | Filtered.Feasible feasible =>
        let '(node_name, strategy) := pick (strategy p) pod_value feasible in
        let? s := store_propose (store p)
          (ResourceCommand.patch pod_key (bind_patch node_name) Reason.Scheduler) in
        Ok (mkPass s strategy (NodeLedger.debit (ledger p) node_name req)
              (push_bound (mkBinding pod_key node_name) report))
    | Filtered.Infeasible d =>
        let? out := mark_unschedulable (store p) pod_key pod_value d in
        Ok (mkPass out.1 (strategy p) (ledger p) (count_unschedulable out.2 report))
    | Filtered.NoNodesObserved =>
        Ok (mkPass (store p) (strategy p) (ledger p) (count_no_nodes report))
    end.

Fixpoint place_all (observed : list ObservedNode) (p : Pass) (pods : list (ResourceKey * json))
  : result Pass Er :=
  match pods with
  | [] => Ok p
  | pod :: pods => let? p := place observed p pod in place_all observed p pods
  end.

(** The pass before the first pod. *)
Definition tick_start (scope : NamespaceScope.t) (s : St) (g : Sg) : Pass :=
  let pods := store_list s "" "v1" "Pod" (NamespaceScope.list_filter scope) in
  let nodes := store_list s "" "v1" "Node" None in
  let all_pods := store_list s "" "v1" "Pod" None in
  mkPass s g (NodeLedger.seed (map snd nodes) (map snd all_pods))
    (report_new (Z.of_nat (length pods)) (Z.of_nat (length nodes))).

Definition tick (scope : NamespaceScope.t) (s : St) (g : Sg) : result Pass Er :=
  let pods := store_list s "" "v1" "Pod" (NamespaceScope.list_filter scope) in
  let nodes := store_list s "" "v1" "Node" None in
  place_all (observe s (map snd nodes)) (tick_start scope s g) pods.

End Tick.

(** ** What a scheduling tick guarantees

    Proved against the store's interface [PodStore]: bindings go to admitted
    nodes only, the pods bound to a node in one tick request no more than it had
    free, and every pending pod is accounted for.  Against [PodStoreLaws]: what
    the store holds after the tick, and that the books opened by the next tick
    are the ones this tick closed. *)

Lemma sublist_In {A} (l k : list A) x : sublist l k -> In x l -> In x k.
Proof. induction 1; simpl; naive_solver. Qed.

(** ** Charging a ledger *)

(** One bound pod: the listed entry and the node it went to. *)
Definition placement : Type := ((ResourceKey * json) * string)%type.

Section Charges.
Context `{FloatText}.

Definition request_of (x : placement) : PodRequests := pod_requests x.1.2.

Definition debit_all (led : NodeLedger.t) (l : list placement) : NodeLedger.t :=
  fold_left (fun led x => NodeLedger.debit led x.2 (request_of x)) l led.

(** Every placement fitted the ledger it was charged to. *)
Fixpoint each_fits (led : NodeLedger.t) (l : list placement) : Prop :=
  match l with
  | [] => True
  | x :: l => NodeLedger.fits led x.2 (request_of x) = true /\
              each_fits (NodeLedger.debit led x.2 (request_of x)) l
  end.

Definition placed_on (n : string) (l : list placement) : list PodRequests :=
  map request_of (List.filter (fun x => eqb x.2 n) l).

Lemma placed_on_chargeable n l : Forall chargeable (placed_on n l).
Proof. apply List.Forall_map, Forall_true. intros. apply pod_requests_chargeable. Qed.

Lemma debit_all_get led l n :
  bt_get n (debit_all led l) = option_map (fun b => fold_left charge (placed_on n l) b) (bt_get n led).
Proof.
  revert led. induction l as [|x l IH]; intros led.
  - change (bt_get n led = option_map (fun b => b) (bt_get n led)). by destruct (bt_get n led).
  - change (debit_all led (x :: l)) with (debit_all (NodeLedger.debit led x.2 (request_of x)) l).
    rewrite IH, debit_get. unfold placed_on. cbn [List.filter].
    unfold eqb. destruct (decide (n = x.2)) as [-> | Hn].
    + rewrite !bool_decide_true by done. by destruct (bt_get x.2 led).
    + rewrite !bool_decide_false by congruence. done.
Qed.

(** The bound: what fitted step by step fits in total. *)
Lemma each_fits_bound led l n b :
  each_fits led l -> bt_get n led = Some b -> balance_ok b ->
  sum_cpu (placed_on n l) <= Z.max 0 (bal_cpu b) /\ sum_mem (placed_on n l) <= Z.max 0 (bal_mem b).
Proof.
  revert led b. induction l as [|x l IH]; intros led b Hf Hb Hok; [simpl; lia |].
  destruct Hf as [Hx Hf]. specialize (IH _ (if eqb n x.2 then charge b (request_of x) else b) Hf).
  rewrite debit_get, Hb in IH. unfold placed_on in *. cbn [List.filter].
  assert (chargeable (request_of x)) as Hch by apply pod_requests_chargeable.
  unfold eqb in *. destruct (decide (n = x.2)) as [-> | Hn].
  - rewrite bool_decide_true in IH |- * by done. specialize (IH eq_refl).
    unfold NodeLedger.fits, NodeLedger.free in Hx. rewrite Hb in Hx. simpl in Hx.
    unfold fits in Hx. destruct (unparseable (request_of x)); [done |]. simpl in Hx. bool_to_prop.
    rewrite charge_settled in IH by done.
    specialize (IH ltac:(apply settled_ok; [done | by constructor])). simpl in IH |- *.
    assert (Word.i128_min <= 0) by done.
    unfold chargeable, balance_ok, Word.is_i128 in *. lia.
  - rewrite bool_decide_false in IH |- * by congruence. apply IH; done.
Qed.

End Charges.

(** ** One pass over the pods *)

Section Pass.
Context {St Er Sg : Type} `{PodStore St Er} `{SchedulingStrategy Sg} `{FloatText}.
Context `{!StrategyLaws Sg}.

(** A placement the Filter stage admitted against some ledger. *)
Definition admitted_placement (observed : list ObservedNode) (x : placement) : Prop :=
  is_pending x.1.2 = true /\
  exists node led, In node observed /\
    admit_node x.1.2 (request_of x) node led = Ok (mkCandidate x.2 node).

Lemma picked_admitted (g : Sg) pod req observed led f :
  filter pod req observed led = Filtered.Feasible f ->
  exists node, In node observed /\
    admit_node pod req node led = Ok (mkCandidate (pick g pod f).1 node).
Proof.
  intros Hf. destruct (pick_feasible g pod f) as (c & Hc & ->).
  rewrite (filter_candidates _ _ _ _ _ Hf) in Hc. apply candidates_admit in Hc as [Hin Ha].
  exists (cand_node c). split; [done |]. rewrite Ha. by destruct c.
Qed.

(** One pod: either one placement more, or none. *)
Lemma place_spec observed (p p' : Pass) e :
  place observed p e = Ok p' ->
  exists l, bound (report p') = (bound (report p) ++ map (fun x => mkBinding x.1.1 x.2) l)%list /\
    ledger p' = debit_all (ledger p) l /\ each_fits (ledger p) l /\
    Forall (admitted_placement observed) l /\ (l = [] \/ exists n, l = [(e, n)]).
Proof.
  destruct e as [k pod]. unfold place. destruct (is_pending pod) eqn:Hp; simpl.
  - destruct (filter pod (pod_requests pod) observed (ledger p)) as [f|d|] eqn:Hf.
    + destruct (picked_admitted (strategy p) _ _ _ _ _ Hf) as (node & Hin & Ha).
      destruct (pick (strategy p) pod f) as [name g]. simpl in Ha.
      intros Hr. apply result_bind_Ok in Hr as (s & _ & [= <-]). simpl.
      exists [((k, pod), name)]. split_and!; try done.
      * split; [| done]. by apply admit_fits in Ha as [_ Hfit].
      * constructor; [| constructor]. split; [done |]. by exists node, (ledger p).
      * right. by exists name.
    + intros Hr. apply result_bind_Ok in Hr as (o & _ & [= <-]). exists [].
      simpl. rewrite app_nil_r. split_and!; auto.
    + intros [= <-]. exists []. simpl. rewrite app_nil_r. split_and!; auto.
  - intros [= <-]. exists []. simpl. rewrite app_nil_r. split_and!; auto.
Qed.

Lemma each_fits_app led l1 l2 :
  each_fits led l1 -> each_fits (debit_all led l1) l2 -> each_fits led (l1 ++ l2)%list.
Proof.
  revert led. induction l1 as [|x l1 IH]; intros led Hf1 Hf2; [done |].
  destruct Hf1. split; [done |]. by apply IH.
Qed.

Lemma place_all_spec observed (p p' : Pass) pods :
  place_all observed p pods = Ok p' ->
  exists l, bound (report p') = (bound (report p) ++ map (fun x => mkBinding x.1.1 x.2) l)%list /\
    ledger p' = debit_all (ledger p) l /\ each_fits (ledger p) l /\
    Forall (admitted_placement observed) l /\ sublist (map fst l) pods.
Proof.
  revert p. induction pods as [|e pods IH]; intros p; simpl.
  - intros [= <-]. exists []. simpl. rewrite app_nil_r. split_and!; auto.
  - intros Hr. apply result_bind_Ok in Hr as (q & Hq & Hr).
    destruct (place_spec _ _ _ _ Hq) as (l1 & Hb1 & Hl1 & Hf1 & Ha1 & Hs1).
    destruct (IH q Hr) as (l2 & Hb2 & Hl2 & Hf2 & Ha2 & Hs2).
    exists (l1 ++ l2)%list. split_and!.
    + by rewrite Hb2, Hb1, map_app, app_assoc.
    + rewrite Hl2, Hl1. unfold debit_all. by rewrite fold_left_app.
    + apply each_fits_app; [done |]. by rewrite <- Hl1.
    + by apply Forall_app_2.
    + destruct Hs1 as [-> | [n ->]]; simpl; [by constructor | by constructor].
Qed.

(** What a tick does, as placements of listed pods. *)
Lemma tick_spec age now scope s g (p : Pass) :
  tick age now scope s g = Ok p ->
  let pods := store_list s "" "v1" "Pod" (NamespaceScope.list_filter scope) in
  let observed := observe age now s (map snd (store_list s "" "v1" "Node" None)) in
  exists l, bound (report p) = map (fun x => mkBinding x.1.1 x.2) l /\
    ledger p = debit_all (ledger (tick_start scope s g)) l /\
    each_fits (ledger (tick_start scope s g)) l /\
    Forall (admitted_placement observed) l /\ sublist (map fst l) pods.
Proof. intros Ht. apply place_all_spec in Ht. exact Ht. Qed.

Lemma tick_start_ok scope s (g : Sg) n b :
  bt_get n (ledger (tick_start scope s g)) = Some b -> balance_ok b.
Proof.
  unfold tick_start. simpl. intros Hb. apply seed_settled in Hb as (node & _ & _ & ->).
  apply settled_ok; [apply node_allocatable_ok | apply held_chargeable].
Qed.

(** The books a tick closes, node by node. *)
Lemma tick_books age now scope s g (p : Pass) n b :
  tick age now scope s g = Ok p ->
  bt_get n (ledger (tick_start scope s g)) = Some b ->
  exists l, bound (report p) = map (fun x => mkBinding x.1.1 x.2) l /\
    sublist (map fst l) (store_list s "" "v1" "Pod" (NamespaceScope.list_filter scope)) /\
    sum_cpu (placed_on n l) <= Z.max 0 (bal_cpu b) /\ sum_mem (placed_on n l) <= Z.max 0 (bal_mem b) /\
    bt_get n (ledger p) = Some (settled b (placed_on n l)).
Proof.
  intros Ht Hb. destruct (tick_spec _ _ _ _ _ _ Ht) as (l & Hl & Hled & Hf & _ & Hs).
  pose proof (tick_start_ok _ _ _ _ _ Hb) as Hok. exists l.
  destruct (each_fits_bound _ _ _ _ Hf Hb Hok). split_and!; try done.
  rewrite Hled, debit_all_get, Hb. simpl. f_equal.
  apply fold_charge; [done | apply placed_on_chargeable].
Qed.

(** The requests of the pods the report says were bound to [n]. *)
Definition bound_requests (pods : list (ResourceKey * json)) (bs : list Binding) (n : string)
  : list PodRequests :=
  omap (fun b => if eqb (bind_node b) n
                 then option_map (fun e => pod_requests e.2) (List.find (fun e => eqb e.1 (bind_key b)) pods)
                 else None) bs.

Lemma find_listed (pods : list (ResourceKey * json)) e :
  NoDup (map fst pods) -> In e pods -> List.find (fun f => eqb f.1 e.1) pods = Some e.
Proof.
  induction pods as [|f pods IH]; intros Hn Hin; [done |]. simpl.
  apply list_relations.list.NoDup_cons in Hn as [Hf Hn]. destruct Hin as [-> | Hin]; [by rewrite eqb_refl |].
  destruct (eqb f.1 e.1) eqn:E; [| by apply IH]. apply eqb_sound in E. exfalso. apply Hf.
  rewrite E. apply list_elem_of_In. by apply in_map.
Qed.

Lemma bound_requests_placed pods l n :
  NoDup (map fst pods) -> sublist (map fst l) pods ->
  bound_requests pods (map (fun x => mkBinding x.1.1 x.2) l) n = placed_on n l.
Proof.
  intros Hn Hs. assert (Forall (fun x => In x.1 pods) l) as Hin.
  { apply List.Forall_forall. intros x Hx.
    eapply sublist_In; [exact Hs |]. by apply in_map. }
  clear Hs. unfold bound_requests, placed_on. induction Hin as [|x l Hx _ IH]; [done |].
  csimpl. destruct (eqb x.2 n) eqn:E; csimpl; [| done].
  rewrite find_listed by done. csimpl. by rewrite IH.
Qed.

(** How a report's counters stand, given the counts so far. *)
Definition accounted (r : TickReport) (k : Z) : Prop :=
  pending_pods r = k /\
  pending_pods r = Z.of_nat (length (bound r)) + unschedulable r + no_nodes_observed r /\
  0 <= unschedulable_written r <= unschedulable r /\ 0 <= no_nodes_observed r.

Lemma place_accounted observed (p p' : Pass) e k :
  place observed p e = Ok p' -> accounted (report p) k -> 0 <= k < Word.u64_max ->
  accounted (report p') (if is_pending e.2 then k + 1 else k).
Proof.
  destruct e as [key v]. unfold place. destruct (is_pending v) eqn:Hp; cbn [negb snd];
    [| intros [= <-]; rewrite Hp; auto].
  rewrite Hp. unfold accounted. intros Hr (Hk & Hs & Hw & Hn) Hb.
  destruct (filter v (pod_requests v) observed (ledger p)) as [f|d|].
  - destruct (pick (strategy p) v f) as [nm g]. apply result_bind_Ok in Hr as (s & _ & [= <-]). simpl.
    rewrite length_app. simpl. rewrite Word.u64_add_small by lia. lia.
  - apply result_bind_Ok in Hr as (o & _ & [= <-]). simpl.
    rewrite !Word.u64_add_small by lia. destruct (o.2); lia.
  - injection Hr as <-. simpl. rewrite !Word.u64_add_small by lia. lia.
Qed.

Lemma place_all_accounted observed (p p' : Pass) pods k :
  place_all observed p pods = Ok p' -> accounted (report p) k ->
  0 <= k -> k + Z.of_nat (length pods) <= Word.u64_max ->
  accounted (report p') (k + Z.of_nat (length (List.filter (fun e => is_pending e.2) pods))).
Proof.
  revert p k. induction pods as [|e pods IH]; intros p k; simpl.
  - intros [= <-] Ha Hk Hl. by rewrite Z.add_0_r.
  - intros Hr Ha Hk Hl. apply result_bind_Ok in Hr as (q & Hq & Hr).
    pose proof (place_accounted _ _ _ _ _ Hq Ha ltac:(lia)) as Hb.
    destruct (is_pending e.2); simpl.
    + replace (k + Z.of_nat (S _)) with (k + 1 + Z.of_nat (length (List.filter (fun e => is_pending e.2) pods)))
        by lia. apply (IH q); [done | done | lia | lia].
    + apply (IH q); [done | done | lia | lia].
Qed.

End Pass.
