(* ===== verification/SchedulerStore.v ===== *)
(** * The scheduler over the store

    [PodStoreLaws] states what the store promises the scheduler: its lists have
    one entry per key, and a merge patch of a listed object changes that entry
    alone, as RFC 7396 says, up to the metadata the store stamps.  Against these
    laws: a pod the tick marks is recognised as marked, and no sequence of ticks
    drives a node's headroom below zero.  The catalog of [Catalog], reached
    through [StoreMesh::propose], satisfies the laws. *)

From Stdlib Require Import Sorted.
From stdpp Require Import base tactics option list strings numbers pretty.
From S2P Require Import Prelude Text BTreeMap Json Resource WatchHistory Command Read.
From S2P Require Import PatchApply PatchFacts Ssa SsaFacts Pagination Catalog CatalogMeta CatalogFacts CatalogReads.
From S2P Require Import Birth Mesh.
From S2P Require Import Quantity SchedFit SchedFilter SchedFilterFacts Scheduler.

Local Open Scope string_scope.
Local Open Scope Z_scope.

(** ** The contract *)

(** The entry of [k] replaced by [v], wherever it is listed. *)
Definition replaced (k : ResourceKey) (v : json) (l : list (ResourceKey * json))
  : list (ResourceKey * json) :=
  map (fun e => if eqb e.1 k then (k, v) else e) l.

Class PodStoreLaws (St Er : Type) `{PodStore St Er} : Type := {
  store_ok : St -> Prop;
  list_nodup : forall s g v k ns, store_ok s -> NoDup (map fst (store_list s g v k ns));
  list_wf : forall s g v k ns key val,
    store_ok s -> In (key, val) (store_list s g v k ns) -> wf_json val = true;
  list_kind : forall s g v k ns key val,
    store_ok s -> In (key, val) (store_list s g v k ns) -> kind key = k;
  list_sub : forall s g v k ns,
    store_ok s -> sublist (store_list s g v k ns) (store_list s g v k None);
  patch_listed : forall s s' g v k ns key val p reason,
    store_ok s -> In (key, val) (store_list s g v k ns) ->
    plain_patch p = true -> finalizers_released val = false ->
    store_propose s (ResourceCommand.patch key p reason) = Ok s' ->
    store_ok s' /\
    exists val',
      (forall f, f <> "metadata" -> jget f val' = jget f (merge_rfc7396 val p)) /\
      finalizers_released val' = false /\
      forall g v k ns, store_list s' g v k ns = replaced key val' (store_list s g v k ns)
}.

(** ** What the scheduler's two patches do to a pod *)

(** A patch of one field. *)
Lemma merge_one k w t f :
  wf_json t = true -> is_null w = false ->
  jget f (merge_rfc7396 t (JObject [(k, w)])) =
    if eqb f k then Some (merge_rfc7396 (default JNull (jget k t)) w) else jget f t.
Proof.
  intros Ht Hw. rewrite merge_jget by (done || by apply bt_sortedb_spec). cbn [bt_get].
  destruct (cmp f k) eqn:E.
  - apply cmp_eq in E. subst. rewrite eqb_refl. by destruct w.
  - by rewrite (proj2 (eqb_false f k)) by (by apply lt_ne).
  - rewrite (proj2 (eqb_false f k)); [done |]. apply cmp_gt, lt_ne in E. congruence.
Qed.

(** A patch of two fields. *)
Lemma merge_two k1 w1 k2 w2 t f :
  wf_json t = true -> is_null w1 = false -> is_null w2 = false -> k1 ≺ k2 ->
  jget f (merge_rfc7396 t (JObject [(k1, w1); (k2, w2)])) =
    if eqb f k1 then Some (merge_rfc7396 (default JNull (jget k1 t)) w1)
    else if eqb f k2 then Some (merge_rfc7396 (default JNull (jget k2 t)) w2)
    else jget f t.
Proof.
  intros Ht Hw1 Hw2 Hk. rewrite merge_jget; [| done |].
  2: { apply bt_sortedb_spec. simpl. unfold ltb. by rewrite Hk. }
  cbn [bt_get]. destruct (cmp f k1) eqn:E.
  - apply cmp_eq in E. subst. rewrite eqb_refl. by destruct w1.
  - rewrite (proj2 (eqb_false f k1)) by (by apply lt_ne).
    by rewrite (proj2 (eqb_false f k2)) by (apply lt_ne; by eapply cmp_trans).
  - rewrite (proj2 (eqb_false f k1)) by (apply cmp_gt, lt_ne in E; congruence).
    destruct (cmp f k2) eqn:E2.
    + apply cmp_eq in E2. subst. rewrite eqb_refl. by destruct w2.
    + by rewrite (proj2 (eqb_false f k2)) by (by apply lt_ne).
    + rewrite (proj2 (eqb_false f k2)); [done |]. apply cmp_gt, lt_ne in E2. congruence.
Qed.

Lemma default_null_wf k v : wf_json v = true -> wf_json (default JNull (jget k v)) = true.
Proof. intros Hv. destruct (jget k v) as [w|] eqn:E; [| done]. by eapply wf_json_get. Qed.

Lemma default_null_get k f v : jget f (default JNull (jget k v)) = (jget k v >>? jget f).
Proof. by destruct (jget k v). Qed.

Section Pods.
Context `{FloatText}.

(** A pod's requests read only four fields of its [spec]. *)
Lemma pod_requests_ext a b :
  (forall f, f <> "nodeName" -> (jget "spec" a >>? jget f) = (jget "spec" b >>? jget f)) ->
  pod_requests a = pod_requests b.
Proof.
  intros Hs. unfold pod_requests, listed.
  rewrite (Hs "containers"), (Hs "initContainers"), (Hs "overhead") by done.
  assert (forall v, (jget "spec" v >>? jptr "resources" "requests") =
    (jget "spec" v >>? jget "resources" >>? jget "requests")) as Hp.
  { intros v. by destruct (jget "spec" v). }
  by rewrite !Hp, (Hs "resources").
Qed.

Lemma bind_patch_plain n : plain_patch (bind_patch n) = true.
Proof. done. Qed.

Lemma mark_patch_plain d : plain_patch (mark_patch (unschedulable_condition d)) = true.
Proof. done. Qed.

Lemma bind_patch_spec v n f : wf_json v = true ->
  (jget "spec" (merge_rfc7396 v (bind_patch n)) >>? jget f) =
    if eqb f "nodeName" then Some (JString n) else (jget "spec" v >>? jget f).
Proof.
  intros Hv. change (bind_patch n) with (JObject [("spec", JObject [("nodeName", JString n)])]).
  rewrite merge_one, eqb_refl by done. cbn [mbind option_bind].
  rewrite merge_one; [by rewrite !default_null_get | by apply default_null_wf | done].
Qed.

Lemma bind_patch_other v n f : wf_json v = true -> f <> "spec" ->
  jget f (merge_rfc7396 v (bind_patch n)) = jget f v.
Proof.
  intros Hv Hf. change (bind_patch n) with (JObject [("spec", JObject [("nodeName", JString n)])]).
  by rewrite merge_one, (proj2 (eqb_false f "spec")) by done.
Qed.

Lemma mark_patch_other v c f : wf_json v = true -> f <> "status" ->
  jget f (merge_rfc7396 v (mark_patch c)) = jget f v.
Proof.
  intros Hv Hf.
  change (mark_patch c) with (JObject [("status", JObject [("conditions", JArray [c]); ("phase", JString "Pending")])]).
  by rewrite merge_one, (proj2 (eqb_false f "status")) by done.
Qed.

Lemma mark_patch_status v c f : wf_json v = true ->
  (jget "status" (merge_rfc7396 v (mark_patch c)) >>? jget f) =
    if eqb f "conditions" then Some (JArray [c])
    else if eqb f "phase" then Some (JString "Pending")
    else (jget "status" v >>? jget f).
Proof.
  intros Hv.
  change (mark_patch c) with (JObject [("status", JObject [("conditions", JArray [c]); ("phase", JString "Pending")])]).
  rewrite merge_one, eqb_refl by done. cbn [mbind option_bind].
  rewrite merge_two; [by rewrite !default_null_get | by apply default_null_wf | done | done | reflexivity].
Qed.

(** *** Consequences for the value the store then holds *)

Section Patched.
Variables (v v' : json) (Hv : wf_json v = true).

Section Bound.
Variables (n : string).
Hypothesis Hp : forall f, f <> "metadata" -> jget f v' = jget f (merge_rfc7396 v (bind_patch n)).

Lemma bound_requests_same : pod_requests v' = pod_requests v.
Proof.
  apply pod_requests_ext. intros f Hf. rewrite (Hp "spec") by done.
  rewrite bind_patch_spec by done. by rewrite (proj2 (eqb_false f "nodeName")).
Qed.

Lemma bound_node_set : n <> "" -> bound_node_of v' = Some n.
Proof.
  intros Hn. unfold bound_node_of, jptr. rewrite (Hp "spec") by done.
  rewrite bind_patch_spec, eqb_refl by done. simpl. by rewrite (proj2 (eqb_false n "")).
Qed.

Lemma bound_holds_same : holds_capacity v' = holds_capacity v.
Proof.
  unfold holds_capacity, jptr. rewrite (Hp "status") by done. by rewrite bind_patch_other.
Qed.

End Bound.

Section Marked.
Variable c : json.
Hypothesis Hp : forall f, f <> "metadata" -> jget f v' = jget f (merge_rfc7396 v (mark_patch c)).

Lemma marked_spec_same : jget "spec" v' = jget "spec" v.
Proof. rewrite (Hp "spec") by done. by apply mark_patch_other. Qed.

Lemma marked_is_marked : already_marked v' c = true.
Proof.
  unfold already_marked, jptr. rewrite (Hp "status") by done.
  rewrite !mark_patch_status by done. simpl. unfold same_condition, condition_keys. simpl.
  by rewrite !eqb_refl.
Qed.

End Marked.
End Patched.
End Pods.

(** ** What the store's pods hold on a node *)

Section Used.
Context `{FloatText}.
Variables (m : PodRequests -> Z) (n : string).

Definition use (v : json) : Z := if holder n v then m (pod_requests v) else 0.

Definition used (l : list (ResourceKey * json)) : Z := foldr (fun e acc => use e.2 + acc) 0 l.

Lemma used_replaced k v v' l :
  NoDup (map fst l) -> In (k, v) l -> used (replaced k v' l) = used l - use v + use v'.
Proof.
  induction l as [|[k0 v0] l IH]; intros Hn Hin; [done |]. simpl in *.
  apply list_relations.list.NoDup_cons in Hn as [Hk Hn].
  destruct Hin as [[= -> ->] | Hin].
  - rewrite eqb_refl. simpl.
    assert (replaced k v' l = l) as ->; [| lia].
    unfold replaced. rewrite <- (map_id l) at 2. apply map_ext_in. intros e He.
    rewrite (proj2 (eqb_false e.1 k)); [done |]. intros <-. apply Hk.
    apply list_elem_of_In. by apply in_map.
  - rewrite (proj2 (eqb_false k0 k)); [simpl; rewrite IH by done; lia |]. intros ->.
    apply Hk. apply list_elem_of_In. by apply (in_map fst) in Hin.
Qed.

End Used.

Lemma sum_cpu_held `{FloatText} n l : sum_cpu (held n (map snd l)) = used req_cpu n l.
Proof.
  unfold held, used, use. induction l as [|e l IH]; [done |]. simpl. destruct (holder n e.2); simpl; lia.
Qed.

Lemma sum_mem_held `{FloatText} n l : sum_mem (held n (map snd l)) = used req_mem n l.
Proof.
  unfold held, used, use. induction l as [|e l IH]; [done |]. simpl. destruct (holder n e.2); simpl; lia.
Qed.

Lemma replaced_absent k v l : ~ In k (map fst l) -> replaced k v l = l.
Proof.
  intros Hk. unfold replaced. rewrite <- (map_id l) at 2. apply map_ext_in. intros e He.
  rewrite (proj2 (eqb_false e.1 k)); [done |]. intros <-. apply Hk. by apply in_map.
Qed.

Lemma replaced_other k v k' w l : k' <> k -> In (k', w) l -> In (k', w) (replaced k v l).
Proof.
  intros Hk Hin. unfold replaced. apply in_map_iff. exists (k', w). split; [| done]. simpl.
  by rewrite (proj2 (eqb_false k' k)).
Qed.

Lemma pending_not_holder `{FloatText} n v : is_pending v = true -> holder n v = false.
Proof.
  unfold is_pending, holder, bound_node_of, jptr. intros Hp.
  destruct (jget "spec" v >>? jget "nodeName" >>? as_str) as [s|]; [rewrite Hp |];
    by rewrite (proj2 (eqb_false _ _)).
Qed.

(** ** One tick against the laws *)

Section Ticks.
Context {St Er Sg : Type} `{PodStoreLaws St Er} `{SchedulingStrategy Sg} `{FloatText}.
Context `{!StrategyLaws Sg}.

Definition pods_of (s : St) : list (ResourceKey * json) := store_list s "" "v1" "Pod" None.
Definition nodes_of (s : St) : list (ResourceKey * json) := store_list s "" "v1" "Node" None.

(** Free capacity by the store's own content, before clamping at the width. *)
Definition free_cpu_of (s : St) (n : string) (o : Balance) : Z := bal_cpu o - used req_cpu n (pods_of s).
Definition free_mem_of (s : St) (n : string) (o : Balance) : Z := bal_mem o - used req_mem n (pods_of s).

(** No stored pod is a finished deletion. *)
Definition clean (s : St) : Prop := Forall (fun e => finalizers_released e.2 = false) (pods_of s).

(** The ledger never shows more than the store has free. *)
Definition books_agree (nodes : list (ResourceKey * json)) (p : Pass (St := St) (Sg := Sg)) : Prop :=
  store_ok (store p) /\ clean (store p) /\ nodes_of (store p) = nodes /\
  forall n b o, bt_get n (ledger p) = Some b ->
    bt_get n (NodeLedger.open (map snd nodes)) = Some o ->
    bal_cpu b <= Z.max Word.i128_min (free_cpu_of (store p) n o) /\
    bal_mem b <= Z.max Word.i128_min (free_mem_of (store p) n o).

(** A listed pod not yet visited is still stored as it was listed. *)
Definition waiting (s : St) (pods : list (ResourceKey * json)) : Prop :=
  NoDup (map fst pods) /\ Forall (fun e => In e (pods_of s)) pods.

(** One patch of a waiting pod. *)
Lemma patch_waiting s s' k v pods p reason :
  store_ok s -> clean s -> waiting s ((k, v) :: pods) -> plain_patch p = true ->
  store_propose s (ResourceCommand.patch k p reason) = Ok s' ->
  exists v', (forall f, f <> "metadata" -> jget f v' = jget f (merge_rfc7396 v p)) /\
    wf_json v = true /\ store_ok s' /\ clean s' /\ nodes_of s' = nodes_of s /\ waiting s' pods /\
    forall m n, used m n (pods_of s') = used m n (pods_of s) - use m n v + use m n v'.
Proof.
  intros Hok Hcl [Hn Hw] Hp Hs. simpl in Hn.
  apply list_relations.list.NoDup_cons in Hn as [Hk Hn].
  apply Forall_cons in Hw as [Hin Hw].
  assert (finalizers_released v = false) as Hf.
  { unfold clean in Hcl. rewrite List.Forall_forall in Hcl. exact (Hcl _ Hin). }
  destruct (patch_listed _ _ _ _ _ _ _ _ _ _ Hok Hin Hp Hf Hs) as (Hok' & v' & Hv' & Hf' & Hl).
  exists v'. split_and!; try done.
  - exact (list_wf _ _ _ _ _ _ _ Hok Hin).
  - unfold clean, pods_of in *. rewrite Hl. unfold replaced. apply List.Forall_map.
    eapply Forall_weaken; [exact Hcl |]. intros e He. by destruct (eqb e.1 k).
  - unfold nodes_of. rewrite Hl. apply replaced_absent. intros Hin'.
    apply in_map_iff in Hin' as ([k' w] & Heq & Hin'). simpl in Heq. subst.
    apply list_kind in Hin'; [| done]. apply list_kind in Hin; [| done]. congruence.
  - split; [done |]. apply List.Forall_forall. intros [k' w] He.
    rewrite List.Forall_forall in Hw. specialize (Hw _ He).
    unfold pods_of. rewrite Hl. apply replaced_other; [| done]. intros ->. apply Hk.
    apply list_elem_of_In. by apply (in_map fst) in He.
  - intros m n. unfold pods_of. rewrite Hl. apply used_replaced; [by apply list_nodup | done].
Qed.

Lemma place_books observed nodes (p p' : Pass) k v pods :
  place observed p (k, v) = Ok p' -> books_agree nodes p -> waiting (store p) ((k, v) :: pods) ->
  books_agree nodes p' /\ waiting (store p') pods.
Proof.
  intros Hp (Hok & Hcl & Hnodes & Hb) Hw. unfold place in Hp.
  assert (waiting (store p) pods) as Hw'.
  { destruct Hw as [Hn Hf]. apply list_relations.list.NoDup_cons in Hn as [_ Hn].
    by apply Forall_cons in Hf as [_ Hf]. }
  destruct (is_pending v) eqn:Hpend; simpl in Hp; [| by simplify_eq].
  assert (forall m n, use m n v = 0) as Hz.
  { intros m n. unfold use. by rewrite pending_not_holder. }
  destruct (filter v (pod_requests v) observed (ledger p)) as [f|d|] eqn:Hf.
  - destruct (picked_admitted (strategy p) _ _ _ _ _ Hf) as (node & _ & Ha).
    destruct (pick (strategy p) v f) as [name g]. simpl in Ha.
    apply admit_Ok in Ha as (_ & _ & Hn). apply bindable_name_spec in Hn as (_ & Hne & _). simpl in Hne.
    apply result_bind_Ok in Hp as (s & Hs & [= <-]). simpl.
    destruct (patch_waiting _ _ _ _ _ _ _ Hok Hcl Hw (bind_patch_plain name) Hs)
      as (v' & Hv' & Hwf & Hok' & Hcl' & Hno & Hw2 & Hu).
    split; [| done]. split_and!; simpl; [done | done | congruence |].
    intros n b o Hg Ho. rewrite debit_get in Hg. unfold free_cpu_of, free_mem_of. simpl.
    rewrite !Hu, !Hz. unfold use, holder. rewrite (bound_node_set v v' Hwf name Hv' Hne).
    rewrite (bound_requests_same v v' Hwf name Hv').
    pose proof (pod_requests_chargeable v) as [Hc1 Hc2].
    unfold eqb in *. destruct (decide (n = name)) as [-> | Hnn].
    + rewrite bool_decide_true in Hg by done.
      destruct (bt_get name (ledger p)) as [b0|] eqn:E; [| done]. simpl in Hg. simplify_eq.
      destruct (Hb _ _ _ E Ho) as [H1b H2b]. unfold free_cpu_of, free_mem_of in *.
      unfold charge, Word.i128_saturate, Word.saturate. simpl.
      assert (Word.i128_min <= Word.i128_max) by done. case_match; lia.
    + rewrite bool_decide_false in Hg by congruence.
      rewrite bool_decide_false by congruence. simpl.
      destruct (Hb _ _ _ Hg Ho) as [H1b H2b]. unfold free_cpu_of, free_mem_of in *. lia.
  - unfold mark_unschedulable in Hp. case_match; [by simplify_eq/= |].
    apply result_bind_Ok in Hp as (o & Ho & [= <-]). apply result_bind_Ok in Ho as (s & Hs & [= <-]).
    simpl. destruct (patch_waiting _ _ _ _ _ _ _ Hok Hcl Hw (mark_patch_plain d) Hs)
      as (v' & Hv' & Hwf & Hok' & Hcl' & Hno & Hw2 & Hu).
    split; [| done]. split_and!; simpl; [done | done | congruence |].
    intros n b o Hg Ho. destruct (Hb _ _ _ Hg Ho) as [H1b H2b].
    unfold free_cpu_of, free_mem_of in *. rewrite !Hu, !Hz. unfold use.
    rewrite pending_not_holder; [lia |]. unfold is_pending.
    by rewrite (marked_spec_same v v' Hwf _ Hv').
  - by simplify_eq/=.
Qed.

Lemma place_all_books observed nodes (p p' : Pass) pods :
  place_all observed p pods = Ok p' -> books_agree nodes p -> waiting (store p) pods ->
  books_agree nodes p'.
Proof.
  revert p. induction pods as [|[k v] pods IH]; intros p; simpl; [by intros [= <-] |].
  intros Hr Hb Hw. apply result_bind_Ok in Hr as (q & Hq & Hr).
  destruct (place_books _ _ _ _ _ _ _ Hq Hb Hw) as [Hb' Hw']. by apply (IH q).
Qed.

Lemma tick_start_books scope s g :
  store_ok s -> clean s -> books_agree (nodes_of s) (tick_start scope s g).
Proof.
  intros Hok Hcl. split_and!; [done | done | done |].
  intros n b o Hg Ho. unfold tick_start in Hg. simpl in Hg. fold (nodes_of s) (pods_of s) in Hg.
  rewrite seed_get, Ho in Hg. simpl in Hg. injection Hg as <-.
  apply open_get in Ho as (node & _ & _ & ->).
  rewrite fold_charge by (apply node_allocatable_ok || apply held_chargeable).
  change (store (tick_start scope s g)) with s.
  unfold settled, free_cpu_of, free_mem_of. cbn [bal_cpu bal_mem].
  rewrite sum_cpu_held, sum_mem_held. lia.
Qed.

Lemma tick_waiting scope s :
  store_ok s -> waiting s (store_list s "" "v1" "Pod" (NamespaceScope.list_filter scope)).
Proof.
  intros Hok. split; [by apply list_nodup |]. apply List.Forall_forall. intros e He.
  eapply sublist_In; [by apply list_sub | exact He].
Qed.

(** The capacity books a tick would open over [s]. *)
Definition ledger_of (s : St) : NodeLedger.t :=
  NodeLedger.seed (map snd (nodes_of s)) (map snd (pods_of s)).

Lemma tick_headroom age now scope s g (p : Pass) n b :
  store_ok s -> clean s -> tick age now scope s g = Ok p ->
  bt_get n (ledger_of s) = Some b ->
  store_ok (store p) /\ clean (store p) /\
  exists b', bt_get n (ledger_of (store p)) = Some b' /\
    Z.min 0 (bal_cpu b) <= bal_cpu b' /\ Z.min 0 (bal_mem b) <= bal_mem b'.
Proof.
  intros Hok Hcl Ht Hb.
  destruct (tick_books _ _ _ _ _ _ _ _ Ht Hb) as (l & _ & _ & Hc & Hm & Hled).
  pose proof (tick_start_ok scope s g _ _ Hb) as Hbok.
  pose proof (place_all_books _ _ _ _ _ Ht (tick_start_books scope s g Hok Hcl) (tick_waiting scope s Hok))
    as (Hok' & Hcl' & Hno & Hag).
  split_and!; [done | done |]. unfold ledger_of in *. rewrite Hno. rewrite seed_get in *.
  destruct (bt_get n (NodeLedger.open (map snd (nodes_of s)))) as [o|] eqn:Ho; [| done].
  exists (fold_left charge (held n (map snd (pods_of (store p)))) o). split; [done |].
  destruct (Hag _ _ _ Hled Ho) as [Ha1 Ha2]. apply open_get in Ho as (node & _ & _ & ->).
  rewrite fold_charge by (apply node_allocatable_ok || apply held_chargeable).
  unfold settled, free_cpu_of, free_mem_of in *. cbn [bal_cpu bal_mem] in *.
  rewrite sum_cpu_held, sum_mem_held. unfold balance_ok, Word.is_i128 in Hbok. lia.
Qed.

(** Any number of ticks, each with its own clock, scope and strategy state. *)
Inductive ticks : St -> St -> Prop :=
  | ticks_none s : ticks s s
  | ticks_more s s1 age now scope g p :
      ticks s s1 -> tick age now scope s1 g = Ok p -> ticks s (store p).

End Ticks.

(** ** The catalog keeps the contract *)

Lemma bt_insert_present {K V} `{OrdLaws K} `{EqDecision K} k (x y : V) (m : btmap K V) :
  bt_sorted m -> bt_get k m = Some y ->
  bt_insert k x m = map (fun e => if eqb e.1 k then (k, x) else e) m.
Proof.
  intros Hs. induction m as [|[k' v] m IH]; [done |]. apply bt_sorted_cons in Hs as [Hs Hf]. simpl.
  destruct (cmp k k') eqn:E; [| done |]; intros Hg.
  - apply cmp_eq in E. subst. rewrite eqb_refl. f_equal. rewrite <- (map_id m) at 1.
    apply map_ext_in. intros e He. rewrite (proj2 (eqb_false e.1 k')); [done |]. intros <-.
    rewrite List.Forall_forall in Hf. specialize (Hf e He). by apply lt_irrefl in Hf.
  - rewrite (proj2 (eqb_false k' k)); [f_equal; by apply IH |]. apply cmp_gt, lt_ne in E. congruence.
Qed.

Section CatalogStore.
Context `{SerdeJson} `{PatchSchemaEnv} `{OpDecoder} `{Blake3} `{ErrorText}.
Variables (sealer_fault : option SealFault.t) (now : string).

#[export] Instance catalog_store : PodStore ResourceCatalog (string * SealFault.t) := {|
  store_list := list_;
  store_get := get;
  store_propose c cmd := result_map snd (propose sealer_fault now c cmd)
|}.

Lemma list_filter c g v k ns :
  list_ c g v k ns = values_of (List.filter (fun e => contains (mkListScope g v k ns) e.1) (resources c)).
Proof. unfold list_. by rewrite run_of_scope. Qed.

Lemma list_In c g v k ns key val :
  bt_sorted (resources c) -> In (key, val) (list_ c g v k ns) ->
  contains (mkListScope g v k ns) key = true /\ exists meta, bt_get key (resources c) = Some (val, meta).
Proof.
  intros Hs. rewrite list_filter. unfold values_of. intros Hin.
  apply in_map_iff in Hin as ([k0 [v0 m0]] & [= -> ->] & Hin). apply filter_In in Hin as [Hin Hc].
  split; [done |]. exists m0. by apply bt_get_In.
Qed.

Lemma values_replaced (p : ResourceKey -> bool) key val x (m : resource_map) :
  values_of (List.filter (fun e => p e.1) (map (fun e => if eqb e.1 key then (key, (val, x)) else e) m)) =
  replaced key val (values_of (List.filter (fun e => p e.1) m)).
Proof.
  unfold values_of, replaced. induction m as [|[k [w y]] m IH]; [done |]. simpl.
  destruct (eqb k key) eqn:E; simpl.
  - apply eqb_sound in E. subst. destruct (p key); simpl; [| done]. by rewrite eqb_refl, IH.
  - destruct (p k); simpl; [| done]. by rewrite E, IH.
Qed.

Lemma sublist_map_filter {A B} (f : A -> B) (p q : A -> bool) l :
  (forall x, p x = true -> q x = true) ->
  sublist (map f (List.filter p l)) (map f (List.filter q l)).
Proof.
  intros Hpq. induction l as [|x l IH]; [done |]. simpl. destruct (p x) eqn:E.
  - rewrite (Hpq x E). simpl. by constructor.
  - destruct (q x); simpl; by try constructor.
Qed.

(** The catalog's invariant the scheduler needs: keys in order, values well formed. *)
Definition catalog_store_ok (c : ResourceCatalog) : Prop :=
  bt_sorted (resources c) /\ values_wf (resources c).

Lemma catalog_patch_listed c c' g v k ns key val p reason :
  catalog_store_ok c -> In (key, val) (list_ c g v k ns) ->
  plain_patch p = true -> finalizers_released val = false ->
  result_map snd (propose sealer_fault now c (ResourceCommand.patch key p reason)) = Ok c' ->
  catalog_store_ok c' /\
  exists val',
    (forall f, f <> "metadata" -> jget f val' = jget f (merge_rfc7396 val p)) /\
    finalizers_released val' = false /\
    forall g v k ns, list_ c' g v k ns = replaced key val' (list_ c g v k ns).
Proof.
  intros [Hs Hw] Hin Hp Hr Hpr. destruct (list_In _ _ _ _ _ _ _ Hs Hin) as [_ [meta Hg]].
  destruct (propose sealer_fault now c _) as [[o c1]|] eqn:E; [| done]. simpl in Hpr. injection Hpr as <-.
  destruct (propose_patch _ _ _ _ _ _ _ _ _ _ Hs Hw Hg Hp Hr E) as (v' & meta' & Hres & Hf & Hr' & Hw').
  split.
  - unfold catalog_store_ok. rewrite Hres. split; [by apply bt_insert_sorted |].
    by apply bt_insert_Forall.
  - exists v'. split_and!; [done | done |]. intros g0 v0 k0 ns0. rewrite !list_filter, Hres.
    rewrite (bt_insert_present key _ (val, meta)) by done. apply values_replaced.
Qed.

#[export] Instance catalog_store_laws : PodStoreLaws ResourceCatalog (string * SealFault.t).
Proof.
  refine {| store_ok := catalog_store_ok |}.
  - intros c g v k ns [Hs _]. simpl. rewrite list_filter. unfold values_of. rewrite map_map. simpl.
    apply bt_keys_NoDup. by apply bt_filter_sorted.
  - intros c g v k ns key val [Hs Hw] Hin. destruct (list_In _ _ _ _ _ _ _ Hs Hin) as [_ [meta Hg]].
    by apply (values_wf_get _ _ _ Hs Hw) in Hg.
  - intros c g v k ns key val [Hs Hw] Hin. destruct (list_In _ _ _ _ _ _ _ Hs Hin) as [Hc _].
    unfold contains in Hc. simpl in Hc. by bool_to_prop.
  - intros c g v k ns _. simpl. rewrite !list_filter. unfold values_of. apply sublist_map_filter.
    intros e Hc. unfold contains in *. simpl in *. by bool_to_prop; rewrite andb_true_r; subst; rewrite !eqb_refl.
  - intros c c' g v k ns key val p reason. apply catalog_patch_listed.
Defined.

End CatalogStore.
