(* ===== verification/SchedulerTheorems.v ===== *)
(** * The scheduler's promises

    The theorems on [tick]: over any store and any strategy that picks from the
    feasible set, and over any store that keeps [PodStoreLaws].  The witnesses run
    a tick on the catalog: a node with one core, its fresh Lease, and two pods
    that ask for 600m each, of which one is bound and the other marked. *)

From Stdlib Require Import Sorted Qcanon.
From stdpp Require Import base tactics option list strings numbers pretty.
From S2P Require Import Prelude Text BTreeMap Json Resource WatchHistory Command Read.
From S2P Require Import PatchApply PatchFacts Ssa SsaFacts Pagination Catalog CatalogMeta CatalogFacts CatalogTheorems.
From S2P Require Import Birth Mesh.
From S2P Require Import Quantity SchedFit SchedFilter SchedFilterFacts Scheduler SchedulerStore.

Local Open Scope string_scope.
Local Open Scope Z_scope.

(** ** Theorems over any store *)

Section Theorems.
Context {St Er Sg : Type} `{PodStore St Er} `{SchedulingStrategy Sg} `{FloatText}.
Context `{!StrategyLaws Sg}.

(** A tick never overcommits a node: together the pods it binds to a node
    request no more cpu and no more memory than the node had free when the tick
    opened its books, and the ledger it ends with is the opening balance less
    exactly those requests. *)
Theorem tick_never_overcommits age now scope s g (p : Pass) n b :
  let pods := store_list s "" "v1" "Pod" (NamespaceScope.list_filter scope) in
  tick age now scope s g = Ok p -> NoDup (map fst pods) ->
  bt_get n (ledger (tick_start scope s g)) = Some b ->
  let reqs := bound_requests pods (bound (report p)) n in
  sum_cpu reqs <= Z.max 0 (bal_cpu b) /\ sum_mem reqs <= Z.max 0 (bal_mem b) /\
  bt_get n (ledger p) = Some (settled b reqs).
Proof.
  intros pods Ht Hn Hb reqs.
  destruct (tick_books _ _ _ _ _ _ _ _ Ht Hb) as (l & Hl & Hs & Hc & Hm & Hled).
  subst reqs. by rewrite Hl, bound_requests_placed.
Qed.

(** (C35) Placement is sound: every pod a tick reports bound was pending, its requests
    can be read, and it went to an observed node that carries that non-empty name,
    is ready by its Lease, has every capability it needs, is not cordoned, is the
    node the pod is pinned to if any, has every label of its node selector, and has
    no taint that blocks scheduling without a toleration of the pod that answers it.
    A selector that is no object and a taint without a key are no rule here. *)
Theorem tick_binds_admitted age now scope s g (p : Pass) b :
  tick age now scope s g = Ok p -> In b (bound (report p)) ->
  exists pod node,
    In (bind_key b, pod) (store_list s "" "v1" "Pod" (NamespaceScope.list_filter scope)) /\
    In node (observe age now s (map snd (store_list s "" "v1" "Node" None))) /\
    observed_name node = Some (bind_node b) /\ bind_node b <> "" /\
    is_pending pod = true /\ is_ready node = true /\
    permitted pod (observed_value node) /\
    unmet (infer pod) (observe_capabilities (observed_value node)) = None /\
    unparseable (pod_requests pod) = false.
Proof.
  intros Ht Hb. destruct (tick_spec _ _ _ _ _ _ Ht) as (l & Hl & _ & _ & Ha & Hs).
  rewrite Hl in Hb. apply in_map_iff in Hb as (x & <- & Hx). simpl.
  rewrite List.Forall_forall in Ha. destruct (Ha x Hx) as (Hp & node & led & Hin & Had).
  exists x.1.2, node. pose proof (admit_fits _ _ _ _ _ Had) as [Hu _]. pose proof (admit_permitted _ _ _ _ _ Had) as Hperm.
  apply admit_Ok in Had as (Hf & _ & Hn). apply bindable_name_spec in Hn as (Hn & Hne & _).
  rewrite List.Forall_forall in Hf. split_and!; try done.
  - eapply sublist_In; [exact Hs |]. apply in_map_iff. exists x. destruct x as [[] ?]. done.
  - specialize (Hf FilterPlugin.NodeReady ltac:(simpl; tauto)). simpl in Hf. unfold refuse_unless in Hf.
    by destruct (is_ready node).
  - specialize (Hf FilterPlugin.Capability ltac:(simpl; tauto)). simpl in Hf.
    by destruct (unmet (infer x.1.2) (observe_capabilities (observed_value node))).
Qed.

(** Every pending pod is accounted for: a completed tick counts the listed
    pods that are pending, each of them bound, reported unschedulable or left for
    want of any node; the pods left untouched are exactly those neither bound nor
    written to, and the changes reported to the controller runtime are the binds
    and the conditions written. *)
Theorem tick_accounts_for_all age now scope s g (p : Pass) :
  let pods := store_list s "" "v1" "Pod" (NamespaceScope.list_filter scope) in
  tick age now scope s g = Ok p -> Z.of_nat (length pods) <= Word.u64_max ->
  let r := report p in
  pending_pods r = Z.of_nat (length (List.filter (fun e => is_pending e.2) pods)) /\
  pending_pods r = Z.of_nat (length (bound r)) + unschedulable r + no_nodes_observed r /\
  objects_changed (controller_report r) + objects_skipped (controller_report r) = pending_pods r.
Proof.
  intros pods Ht Hl r. unfold tick in Ht.
  pose proof (place_all_accounted _ _ _ _ 0 Ht) as Ha. fold pods r in Ha.
  specialize (Ha ltac:(by repeat split) ltac:(lia) ltac:(lia)). destruct Ha as (Hk & Hs & Hw & Hn). split; [done |]. split; [done |].
  pose proof (List.filter_length_le (fun e : ResourceKey * json => is_pending e.2) pods) as Hle.
  fold pods in Hk. unfold controller_report, left_untouched, Word.u64_saturate. simpl.
  rewrite !Word.saturate_small by (rewrite ?Word.saturate_small; lia).
  rewrite Word.u64_add_small by lia. lia.
Qed.

End Theorems.

(** ** Theorems over a store that keeps the contract *)

Section Ticks.
Context {St Er Sg : Type} `{PodStoreLaws St Er} `{SchedulingStrategy Sg} `{FloatText}.
Context `{!StrategyLaws Sg}.

(** (C3) No sequence of ticks overcommits a node by what the store itself says:
    the headroom a node has after any number of ticks, recomputed from the stored
    pods and nodes, is at least zero wherever it was, and never lower than it was
    on a node that was already overcommitted. *)
Theorem ticks_never_overcommit s s' n b :
  store_ok s -> clean s -> ticks s s' ->
  bt_get n (ledger_of s) = Some b ->
  exists b', bt_get n (ledger_of s') = Some b' /\
    Z.min 0 (bal_cpu b) <= bal_cpu b' /\ Z.min 0 (bal_mem b) <= bal_mem b'.
Proof.
  intros Hok Hcl Ht Hb. enough (store_ok s' /\ clean s' /\ exists b',
    bt_get n (ledger_of s') = Some b' /\
    Z.min 0 (bal_cpu b) <= bal_cpu b' /\ Z.min 0 (bal_mem b) <= bal_mem b') by tauto.
  induction Ht as [s | s s1 age now scope g p _ IH Htick].
  - split_and!; [done | done |]. exists b. split_and!; [done | lia | lia].
  - destruct (IH Hok Hcl Hb) as (Hok1 & Hcl1 & b1 & Hb1 & Hc1 & Hm1).
    destruct (tick_headroom _ _ _ _ _ _ _ _ Hok1 Hcl1 Htick Hb1) as (Hok2 & Hcl2 & b2 & Hb2 & Hc2 & Hm2).
    split_and!; [done | done |]. exists b2. split_and!; [done | lia | lia].
Qed.

(** Marking is settled after one write: a pod the tick marks unschedulable
    stays unbound and unclaimed, and the value the store then holds is recognised
    as already marked, so the same diagnosis writes nothing again. *)
Theorem mark_is_idempotent s s' k v d :
  store_ok s -> clean s -> In (k, v) (pods_of s) -> is_pending v = true ->
  mark_unschedulable s k v d = Ok (s', true) ->
  exists v', In (k, v') (pods_of s') /\ is_pending v' = true /\
    pod_requests v' = pod_requests v /\
    mark_unschedulable s' k v' d = Ok (s', false).
Proof.
  intros Hok Hcl Hin Hp. unfold mark_unschedulable.
  destruct (already_marked v (unschedulable_condition d)); [done |]. intros Hr.
  apply result_bind_Ok in Hr as (s1 & Hs & [= <-]).
  assert (finalizers_released v = false) as Hf.
  { unfold clean in Hcl. rewrite List.Forall_forall in Hcl. exact (Hcl _ Hin). }
  pose proof (list_wf _ _ _ _ _ _ _ Hok Hin) as Hwf.
  destruct (patch_listed _ _ _ _ _ _ _ _ _ _ Hok Hin (mark_patch_plain d) Hf Hs)
    as (_ & v' & Hv' & _ & Hl).
  exists v'. split_and!.
  - unfold pods_of. rewrite Hl. unfold replaced. apply in_map_iff. exists (k, v).
    split; [simpl; by rewrite eqb_refl | done].
  - unfold is_pending. by rewrite (marked_spec_same v v' Hwf _ Hv').
  - apply pod_requests_ext. intros f _. by rewrite (marked_spec_same v v' Hwf _ Hv').
  - by rewrite (marked_is_marked v v' Hwf _ Hv').
Qed.

End Ticks.

(** ** Witnesses *)

#[local] Existing Instance numbered.
#[local] Existing Instance sample_env.
#[local] Existing Instance sample_ops.
#[local] Existing Instance zero_blake3.
#[local] Existing Instance sample_text.

(** No pod of the samples asks in floating point. *)
#[local] Instance no_floats : FloatText := fun _ => "".

#[local] Instance sample_store : PodStore ResourceCatalog (string * SealFault.t) :=
  catalog_store None "2026-01-01T00:00:00Z".

Definition sample_node : json :=
  jobj [("metadata", jobj [("name", JString "n1")]);
        ("status", jobj [("allocatable", jobj [("cpu", JString "1"); ("memory", JString "1Gi")])])].

Definition sample_pod (name : string) : json :=
  jobj [("metadata", jobj [("name", JString name)]);
        ("spec", jobj [("containers", JArray [jobj [("resources",
           jobj [("requests", jobj [("cpu", JString "600m")])])]])])].

Definition sample_puts : list ResourceCommand.t :=
  [ResourceCommand.put (cluster_scoped "" "v1" "Node" "n1") sample_node Reason.Operator;
   ResourceCommand.put (lease_key "n1") (lease_value "n1" "t0" 0) Reason.Operator;
   ResourceCommand.put (namespaced "" "v1" "Pod" "default" "a") (sample_pod "a") Reason.Operator;
   ResourceCommand.put (namespaced "" "v1" "Pod" "default" "b") (sample_pod "b") Reason.Operator].

Definition sample_catalog : ResourceCatalog :=
  fold_left (fun c cmd => match propose None "2026-01-01T00:00:00Z" c cmd with
                          | Ok oc => oc.2 | Err _ => c end) sample_puts empty.

(** Every stamp is ten seconds old. *)
Definition sample_age (stamp : string) : option Z := Some (10 * SECOND).

Definition sample_tick := tick sample_age "t1" NamespaceScope.All sample_catalog round_robin_new.

Definition sample_start : Pass := tick_start NamespaceScope.All sample_catalog round_robin_new.

Definition sample_pass : Pass := match sample_tick with Ok p => p | Err _ => sample_start end.

Definition sample_pods : list (ResourceKey * json) := store_list sample_catalog "" "v1" "Pod" None.

Definition n1_free : Balance := mkBalance 1000 (1024 * 1024 * 1024 * 1000).

Lemma tick_never_overcommits_witness :
  let reqs := bound_requests sample_pods (bound (report sample_pass)) "n1" in
  sum_cpu reqs <= Z.max 0 (bal_cpu n1_free) /\ sum_mem reqs <= Z.max 0 (bal_mem n1_free) /\
  bt_get "n1" (ledger sample_pass) = Some (settled n1_free reqs).
Proof.
  apply (tick_never_overcommits sample_age "t1" NamespaceScope.All sample_catalog round_robin_new).
  - vm_compute. reflexivity.
  - vm_compute. refine (bool_decide_unpack (NoDup _) _). vm_compute. exact I.
  - vm_compute. reflexivity.
Defined.

Lemma tick_binds_admitted_witness :
  exists pod node,
    In (namespaced "" "v1" "Pod" "default" "a", pod) sample_pods /\
    observed_name node = Some "n1" /\ is_ready node = true /\ is_pending pod = true.
Proof.
  destruct (tick_binds_admitted sample_age "t1" NamespaceScope.All sample_catalog round_robin_new
    sample_pass (mkBinding (namespaced "" "v1" "Pod" "default" "a") "n1"))
    as (pod & node & Hp & _ & Hn & _ & Hpend & Hr & _); [vm_compute; reflexivity | vm_compute; by left |].
  exists pod, node. exact (conj Hp (conj Hn (conj Hr Hpend))).
Defined.

Lemma tick_accounts_for_all_witness :
  objects_changed (controller_report (report sample_pass)) +
  objects_skipped (controller_report (report sample_pass)) = pending_pods (report sample_pass).
Proof.
  apply (tick_accounts_for_all sample_age "t1" NamespaceScope.All sample_catalog round_robin_new
    sample_pass); [vm_compute; reflexivity | vm_compute; discriminate].
Defined.

#[local] Instance sample_store_laws : PodStoreLaws ResourceCatalog (string * SealFault.t) :=
  catalog_store_laws None "2026-01-01T00:00:00Z".

Lemma sample_sorted : bt_sortedb (resources sample_catalog) = true.
Proof. vm_compute. reflexivity. Qed.

Lemma sample_values : forallb (fun e => wf_json e.2.1) (resources sample_catalog) = true.
Proof. vm_compute. reflexivity. Qed.

Lemma sample_catalog_ok : store_ok sample_catalog.
Proof.
  split; [apply bt_sortedb_spec, sample_sorted |].
  apply List.Forall_forall, forallb_forall, sample_values.
Qed.

Lemma sample_clean : clean sample_catalog.
Proof. unfold clean. vm_compute. repeat constructor. Qed.

Lemma ticks_never_overcommit_witness :
  exists b', bt_get "n1" (ledger_of (store sample_pass)) = Some b' /\
    Z.min 0 (bal_cpu n1_free) <= bal_cpu b' /\ Z.min 0 (bal_mem n1_free) <= bal_mem b'.
Proof.
  apply (ticks_never_overcommit sample_catalog (store sample_pass) "n1" n1_free
    sample_catalog_ok sample_clean).
  - apply (ticks_more sample_catalog sample_catalog sample_age "t1" NamespaceScope.All
      round_robin_new sample_pass); [apply ticks_none | vm_compute; reflexivity].
  - vm_compute. reflexivity.
Defined.

(** The second pod, and why no node admits it once the first is bound. *)
Definition sample_diagnosis : Diagnosis.t := [(Rejection.InsufficientResources, 1)].

Definition sample_marked : ResourceCatalog :=
  match mark_unschedulable sample_catalog (namespaced "" "v1" "Pod" "default" "b")
          (default JNull (get sample_catalog (namespaced "" "v1" "Pod" "default" "b"))) sample_diagnosis with
  | Ok out => out.1
  | Err _ => sample_catalog
  end.

Lemma mark_is_idempotent_witness :
  exists v', In (namespaced "" "v1" "Pod" "default" "b", v') (pods_of sample_marked) /\
    is_pending v' = true /\
    mark_unschedulable sample_marked (namespaced "" "v1" "Pod" "default" "b") v' sample_diagnosis =
      Ok (sample_marked, false).
Proof.
  destruct (mark_is_idempotent sample_catalog sample_marked (namespaced "" "v1" "Pod" "default" "b")
    (default JNull (get sample_catalog (namespaced "" "v1" "Pod" "default" "b"))) sample_diagnosis
    sample_catalog_ok sample_clean) as (v' & Hin & Hp & _ & Hm).
  - vm_compute. right. left. reflexivity.
  - vm_compute. reflexivity.
  - vm_compute. reflexivity.
  - exists v'. exact (conj Hin (conj Hp Hm)).
Defined.
