(* ===== verification/ApiErrors.v ===== *)
(** * The errors of the API server

    [engenho-apiserver/src/error.rs]: every [ApiError] with its HTTP status, its
    [Status] reason and message, and the [Status] body both an HTTP error and an
    in-band watch error carry; [TooLargeResourceVersion] of [params.rs] and its
    retry interval of [list_floor.rs]. *)

From Stdlib Require Import Ascii String.
From stdpp Require Import base tactics option list strings numbers pretty.
From S2P Require Import Prelude Text BTreeMap Json.

Local Open Scope string_scope.
Local Open Scope Z_scope.

(** A text between double quotes. *)
Definition quoted (s : string) : string :=
  let q := String (Ascii.ascii_of_nat 34) "" in q +:+ s +:+ q.

Record TooLargeResourceVersion : Type := mkTooLarge { requested : Z; current : Z }.

#[export] Instance TooLarge_eq_dec : EqDecision TooLargeResourceVersion.
Proof. solve_decision. Defined.

Definition too_large_text (e : TooLargeResourceVersion) : string :=
  "Too large resource version: " +:+ pretty (requested e) +:+ ", current: " +:+ pretty (current e).

Definition TOO_LARGE_RETRY_AFTER_SECONDS : Z := 1.

Module ApiError.

Inductive t : Type :=
  | NotFound (what : string)
  | Conflict (resource why : string)
  | ResourceVersionConflict (message : string)
  | BadRequest (message : string)
  | Invalid (message : string)
  | NotAcceptable (message : string)
  | Unauthorized (message : string)
  | UnsupportedMediaType (message : string)
  | Forbidden (message : string)
  | AuthzForbidden (message : string)
  | Gone (message : string)
  | ApplyConflict (causes : json)
  | TooLarge (e : TooLargeResourceVersion)
  | Internal (message : string)
  | StorageError (message : string)
  | ServiceUnavailable (message : string)
  | DisruptionBudget (cause : string)
  | MethodNotAllowed (message : string).

#[global] Instance t_eq_dec : EqDecision t.
Proof. solve_decision. Defined.

(** [status_code]. *)
Definition code (e : t) : Z :=
  match e with
  | NotFound _ => 404
  | Conflict _ _ | ResourceVersionConflict _ | ApplyConflict _ => 409
  | BadRequest _ => 400
  | Invalid _ => 422
  | NotAcceptable _ => 406
  | Unauthorized _ => 401
  | UnsupportedMediaType _ => 415
  | Forbidden _ | AuthzForbidden _ => 403
  | Gone _ => 410
  | TooLarge _ => 504
  | Internal _ | StorageError _ => 500
  | ServiceUnavailable _ => 503
  | DisruptionBudget _ => 429
  | MethodNotAllowed _ => 405
  end.

Definition reason (e : t) : string :=
  match e with
  | NotFound _ => "NotFound"
  | Conflict _ _ => "AlreadyExists"
  | ResourceVersionConflict _ | ApplyConflict _ => "Conflict"
  | BadRequest _ => "BadRequest"
  | Invalid _ => "Invalid"
  | NotAcceptable _ => "NotAcceptable"
  | Unauthorized _ => "Unauthorized"
  | UnsupportedMediaType _ => "UnsupportedMediaType"
  | Forbidden _ | AuthzForbidden _ => "Forbidden"
  | Gone _ => "Expired"
  | TooLarge _ => "Timeout"
  | Internal _ => "InternalError"
  | StorageError _ | ServiceUnavailable _ => "ServiceUnavailable"
  | DisruptionBudget _ => "TooManyRequests"
  | MethodNotAllowed _ => "MethodNotAllowed"
  end.

(** [Display]. *)
Definition to_string (e : t) : string :=
  match e with
  | NotFound m => "resource not found: " +:+ m
  | Conflict r w => "conflict on resource " +:+ r +:+ ": " +:+ w
  | BadRequest m => "invalid request: " +:+ m
  | Forbidden m => "admission denied: " +:+ m
  | ApplyConflict _ => "Apply failed with conflicts"
  | TooLarge e => "Timeout: " +:+ too_large_text e
  | Internal m => "internal error: " +:+ m
  | StorageError m => "storage error: " +:+ m
  | DisruptionBudget _ => "Cannot evict pod as it would violate the pod's disruption budget."
  | ResourceVersionConflict m | Invalid m | NotAcceptable m | Unauthorized m | UnsupportedMediaType m
  | AuthzForbidden m | Gone m | ServiceUnavailable m | MethodNotAllowed m => m
  end.

End ApiError.

(** [K8sStatus::failure] as a value; an absent details block is skipped. *)
Definition status_failure (code : Z) (reason message : string) (details : option json) : json :=
  jobj ([("kind", JString "Status"); ("apiVersion", JString "v1"); ("status", JString "Failure");
         ("code", JNumber (PosInt code)); ("reason", JString reason); ("message", JString message)] ++
        match details with Some d => [("details", d)] | None => [] end)%list.

(** [ApiError::status], and [to_status_object]. *)
Definition api_status (e : ApiError.t) : json :=
  let fail := status_failure (ApiError.code e) (ApiError.reason e) in
  match e with
  | ApiError.ApplyConflict causes =>
      let n := match as_array causes with Some l => length l | None => O end in
      let message :=
        if Nat.eqb n 1 then "Apply failed with 1 conflict"
        else "Apply failed with " +:+ pretty (Z.of_nat n) +:+ " conflicts" in
      fail message (Some (jobj [("causes", causes)]))
  | ApiError.TooLarge _ =>
      fail (ApiError.to_string e)
        (Some (jobj [("causes", JArray [jobj [("reason", JString "ResourceVersionTooLarge");
                                             ("message", JString "Too large resource version")]]);
                     ("retryAfterSeconds", JNumber (PosInt TOO_LARGE_RETRY_AFTER_SECONDS))]))
  | ApiError.DisruptionBudget cause =>
      fail (ApiError.to_string e)
        (Some (jobj [("causes", JArray [jobj [("reason", JString "DisruptionBudget"); ("message", JString cause)]])]))
  | _ => fail (ApiError.to_string e) None
  end.

Definition retry_after_seconds (e : ApiError.t) : option Z :=
  match e with ApiError.TooLarge _ => Some TOO_LARGE_RETRY_AFTER_SECONDS | _ => None end.

Definition delete_status_success (name kind : string) : json :=
  jobj [("kind", JString "Status"); ("apiVersion", JString "v1"); ("status", JString "Success");
        ("details", jobj [("name", JString name); ("kind", JString kind)])].

Definition status_object (message : string) (code : Z) (reason : string) : json :=
  status_failure code reason message None.

Definition too_many_requests_object (message : string) (retry_after_seconds : Z) : json :=
  status_failure 429 "TooManyRequests" message
    (Some (jobj [("retryAfterSeconds", JNumber (PosInt retry_after_seconds))])).
