(* ===== verification/Coords.v ===== *)
(** * What a request names

    [engenho-apiserver/src/coords.rs]: the one classification of a request, from
    its method, its decoded path and the [watch] flag, with [query_flag] of
    [params.rs] and the streaming subresources of [pod_stream.rs].  Percent
    decoding and the query string's decoding are the HTTP stack's. *)

From Stdlib Require Import Ascii String.
From stdpp Require Import base tactics option list strings numbers.
From S2P Require Import Prelude Text BTreeMap Json ApiErrors.

Local Open Scope string_scope.
Local Open Scope Z_scope.

(** ** Errors *)

Module RequestInfoError.

Inductive t : Type := Missing | PathNotUtf8 | MalformedQuery.

Definition to_string (e : t) : string :=
  match e with
  | Missing =>
      "the request reached a consumer unclassified: no RequestInfo in the request extensions (the request-info layer does not wrap this route)"
  | PathNotUtf8 => "the request path is not valid UTF-8 once percent-decoded"
  | MalformedQuery => "the request query string could not be decoded"
  end.

Definition into_api_error (e : t) : ApiError.t :=
  match e with
  | Missing => ApiError.Internal (to_string e)
  | PathNotUtf8 | MalformedQuery => ApiError.BadRequest (to_string e)
  end.

End RequestInfoError.

(** ** Coordinates of a path *)

(** [split('/')] without its empty pieces. *)
Definition segments (s : string) : list string :=
  List.filter (fun x => negb (eqb x "")) (split_char "/"%char s).

(** ** Coordinates *)

Record ResourceCoords : Type := mkCoords {
  coords_group : option string;
  coords_version : option string;
  coords_namespace : option string;
  plural : string;
  coords_name : option string;
  coords_subresource : option string
}.

#[export] Instance ResourceCoords_eq_dec : EqDecision ResourceCoords.
Proof. solve_decision. Defined.

Definition group_key (c : ResourceCoords) : string := default "" (coords_group c).
Definition version_key (c : ResourceCoords) : string := default "v1" (coords_version c).

Section Parse.
(** [{:?}] of a string. *)
Context (debug : string -> string).

Definition coords_parse (group version : option string) (rest : string) : result ResourceCoords ApiError.t :=
  let segs := segments rest in
  let namespaced := eqb (head segs) (Some "namespaces") && (3 <=? Z.of_nat (length segs)) in
  let '(namespace, rest_segs) :=
    if namespaced then (segs !! 1%nat, drop 2 segs) else (None, segs) in
  let refused := Err (ApiError.NotFound ("unrecognized resource URL shape: " +:+ debug rest)) in
  let parsed :=
    match rest_segs with
    | [plural] => Some (plural, None, None)
    | [plural; name] => Some (plural, Some name, None)
    | [plural; name; sub] => Some (plural, Some name, Some sub)
    | _ => None
    end in
  match parsed with
  | None => refused
  | Some (plural, name, subresource) =>
      if eqb plural "" then refused
      else Ok (mkCoords group version namespace plural name subresource)
  end.

Definition result_ok {A E} (r : result A E) : option A := match r with Ok a => Some a | Err _ => None end.

Definition parse_resource_path (path : string) : option ResourceCoords :=
  let segs := segments path in
  if eqb (head segs) (Some "api") then
    if (Z.of_nat (length segs) <=? 2) then None
    else result_ok (coords_parse None (segs !! 1%nat) (String.concat "/" (drop 2 segs)))
  else if eqb (head segs) (Some "apis") then
    if (Z.of_nat (length segs) <=? 3) then None
    else result_ok (coords_parse (segs !! 1%nat) (segs !! 2%nat) (String.concat "/" (drop 3 segs)))
  else None.

(** ** The classification *)

Inductive RequestTarget : Type := Resource (c : ResourceCoords) | NonResource (path : string).

Definition of_path (path : string) : RequestTarget :=
  match parse_resource_path path with Some c => Resource c | None => NonResource path end.

End Parse.

#[export] Instance RequestTarget_eq_dec : EqDecision RequestTarget.
Proof. solve_decision. Defined.

Record RequestInfo : Type := mkRequestInfo { verb : string; target : RequestTarget }.

Definition is_streaming_subresource (segment : string) : bool :=
  eqb segment "exec" || eqb segment "attach" || eqb segment "portforward".

Definition query_flag (value : string) : bool :=
  eqb value "true" || eqb value "1" || eqb value "yes".

Definition resource_verb (method : string) (has_name is_watch : bool) : string :=
  let m := to_ascii_uppercase method in
  if eqb m "GET" || eqb m "HEAD" then
    if has_name then "get" else if is_watch then "watch" else "list"
  else if eqb m "POST" then "create"
  else if eqb m "PUT" then "update"
  else if eqb m "PATCH" then "patch"
  else if eqb m "DELETE" then (if has_name then "delete" else "deletecollection")
  else to_ascii_lowercase m.

Definition classify (method : string) (target : RequestTarget) (is_watch : bool) : RequestInfo :=
  let verb :=
    match target with
    | Resource c =>
        if is_some (coords_name c) && is_some_and is_streaming_subresource (coords_subresource c)
        then "create"
        else resource_verb method (is_some (coords_name c)) is_watch
    | NonResource _ => to_ascii_lowercase method
    end in
  mkRequestInfo verb target.

Definition from_method_path (debug : string -> string) (method path : string) (is_watch : bool)
  : RequestInfo := classify method (of_path debug path) is_watch.

Definition is_watch (i : RequestInfo) : bool := eqb (verb i) "watch".

Definition non_resource_url (i : RequestInfo) : option string :=
  match target i with NonResource path => Some path | Resource _ => None end.

Definition resource_coords (i : RequestInfo) : result ResourceCoords ApiError.t :=
  match target i with Resource c => Ok c | NonResource path => Err (ApiError.NotFound path) end.

(** The request line: the raw path and query. *)
Record Uri : Type := mkUri { uri_path : string; uri_query : string }.

(** Percent decoding with its UTF-8 check, and the decoded pairs of a query. *)
Class HttpDecode : Type := {
  percent_decode_path : string -> option string;
  query_pairs : string -> option (list (string * string));
  debug_str : string -> string
}.

Section Request.
Context `{HttpDecode}.

Definition watch_requested (uri : Uri) : result bool RequestInfoError.t :=
  match query_pairs (uri_query uri) with
  | None => Err RequestInfoError.MalformedQuery
  | Some pairs =>
      Ok (is_some_and (fun p => query_flag p.2) (List.find (fun p => eqb p.1 "watch") pairs))
  end.

Definition request_info_parse (method : string) (uri : Uri) : result RequestInfo RequestInfoError.t :=
  match percent_decode_path (uri_path uri) with
  | None => Err RequestInfoError.PathNotUtf8
  | Some path =>
      let target := of_path debug_str path in
      let? is_watch :=
        match target with Resource _ => watch_requested uri | NonResource _ => Ok false end in
      Ok (classify method target is_watch)
  end.

End Request.

(** ** What a path names, exactly

    The parser of [Coords] against the list of path segments: a path is a resource
    with given coordinates exactly when its non-empty segments are those the
    coordinates spell. *)

(** ** Splitting and joining *)

(** A segment of a path: not empty, no slash. *)
Definition segment (s : string) : bool := negb (eqb s "") && free_of "/"%char s.

Lemma segments_good s : Forall (fun p => segment p = true) (segments s).
Proof.
  unfold segments, segment. pose proof (split_char_pieces "/"%char s) as Hp.
  induction Hp as [|p ps Hp _ IH]; simpl; [done |]. destruct (eqb p "") eqn:E; simpl; [done |].
  constructor; [by rewrite E |]. done.
Qed.

Lemma segments_join l : Forall (fun p => segment p = true) l -> segments (String.concat "/" l) = l.
Proof.
  unfold segments. induction 1 as [|p l Hp Hl IH]; [done |].
  apply andb_true_iff in Hp as [Hne Hf]. destruct l as [|q l].
  - simpl. rewrite split_char_free by done. simpl. by rewrite Hne.
  - change (String.concat "/" (p :: q :: l)) with (p +:+ String "/" (String.concat "/" (q :: l))).
    rewrite split_char_cut by done. cbn [List.filter]. by rewrite Hne, IH.
Qed.

(** ** The shapes *)

(** Namespace, plural, name and subresource of a tail. *)
Definition shape (l : list string) : option (option string * string * option string * option string) :=
  match l with
  | [p] => Some (None, p, None, None)
  | [p; n] => Some (None, p, Some n, None)
  | [p; n; s] => if eqb p "namespaces" then Some (Some n, s, None, None) else Some (None, p, Some n, Some s)
  | [k; ns; p; n] => if eqb k "namespaces" then Some (Some ns, p, Some n, None) else None
  | [k; ns; p; n; s] => if eqb k "namespaces" then Some (Some ns, p, Some n, Some s) else None
  | _ => None
  end.

Section Parse.
Context (debug : string -> string).

Lemma coords_parse_shape g v l :
  Forall (fun p => segment p = true) l ->
  result_ok (coords_parse debug g v (String.concat "/" l)) =
    option_map (fun '(ns, p, n, s) => mkCoords g v ns p n s) (shape l).
Proof.
  intros Hl. unfold coords_parse. rewrite segments_join by done.
  destruct l as [|a [|b [|c [|d [|e [|f l]]]]]]; cbn -[eqb Z.leb]; try done.
  all: repeat (apply Forall_cons_iff in Hl as [?%andb_true_iff Hl]); destruct_and?; bool_to_prop.
  all: rewrite ?andb_false_r; cbn -[eqb].
  all: try (destruct (decide (a = "namespaces")) as [-> | Hne];
    [rewrite !eqb_refl | rewrite (proj2 (eqb_false (Some a) (Some "namespaces"))) by congruence;
                         rewrite (proj2 (eqb_false a "namespaces")) by done]; cbn -[eqb Z.leb Z.of_nat]).
  all: try match goal with |- context [3 <=? ?n] =>
    replace (3 <=? n) with true by (symmetry; apply Z.leb_le; lia) end; cbn -[eqb].
  all: repeat match goal with |- context [eqb ?x ""] => rewrite (proj2 (eqb_false x "")) by done end; try done.
  by destruct (eqb (Some a) (Some "namespaces")).
Qed.

(** The segments that spell coordinates. *)
Definition prefix_of (c : ResourceCoords) : list string :=
  match coords_group c with
  | None => ["api"; default "" (coords_version c)]
  | Some g => ["apis"; g; default "" (coords_version c)]
  end.

Definition opt_list (o : option string) : list string := match o with Some s => [s] | None => [] end.

Definition tail_of (c : ResourceCoords) : list string :=
  (match coords_namespace c with Some ns => ["namespaces"; ns] | None => [] end ++
   plural c :: opt_list (coords_name c) ++ opt_list (coords_subresource c))%list.

Definition path_segments (c : ResourceCoords) : list string := (prefix_of c ++ tail_of c)%list.

(** Coordinates a path can spell: whole segments, a subresource only of a named
    object, and no subresource of a namespace. *)
Definition coords_ok (c : ResourceCoords) : bool :=
  is_some (coords_version c) && forallb segment (path_segments c) &&
  (is_some (coords_name c) || negb (is_some (coords_subresource c))) &&
  negb (eqb (plural c) "namespaces" && negb (is_some (coords_namespace c)) && is_some (coords_subresource c)).

Lemma shape_tail l g v ns p n s :
  shape l = Some (ns, p, n, s) <->
  l = tail_of (mkCoords g v ns p n s) /\ (is_some n || negb (is_some s)) = true /\
  negb (eqb p "namespaces" && negb (is_some ns) && is_some s) = true.
Proof.
  unfold tail_of. simpl. split.
  - destruct l as [|a [|b [|c [|d [|e [|f l]]]]]]; simpl; try done.
    1,2: intros [= <- <- <- <-]; by rewrite ?andb_false_r.
    all: destruct (eqb a "namespaces") eqn:E; [apply eqb_sound in E as -> |]; intros Hs; try discriminate Hs;
      injection Hs as <- <- <- <-; simpl; rewrite ?E, ?andb_false_r; done.
  - intros (-> & Hn & Hp). destruct ns, n, s; simpl in *; try done.
    rewrite andb_true_r in Hp. apply negb_true_iff in Hp. rewrite andb_true_r in Hp. by rewrite Hp.
Qed.

Definition coords_of (g v : option string) (t : option string * string * option string * option string)
  : ResourceCoords := let '(ns, p, n, s) := t in mkCoords g v ns p n s.

Definition parse_list (l : list string) : option ResourceCoords :=
  match l with
  | a :: b :: rest =>
      if eqb a "api" then option_map (coords_of None (Some b)) (shape rest)
      else if eqb a "apis" then
        match rest with v :: tail => option_map (coords_of (Some b) (Some v)) (shape tail) | [] => None end
      else None
  | _ => None
  end.

Lemma parse_path_list p : parse_resource_path debug p = parse_list (segments p).
Proof.
  unfold parse_resource_path. pose proof (segments_good p) as Hg.
  assert (forall a s : string, eqb (Some a) (Some s) = eqb a s) as Hs.
  { intros a s. destruct (eqb a s) eqn:E; [apply eqb_sound in E as ->; apply eqb_refl |].
    apply eqb_false in E. apply eqb_false. congruence. }
  destruct (segments p) as [|a [|b l]]; simpl in *; [done | by repeat case_match |].
  rewrite !Hs. apply Forall_cons_iff in Hg as [_ Hg]. apply Forall_cons_iff in Hg as [_ Hg].
  destruct (eqb a "api"); [| destruct (eqb a "apis"); [| done]].
  - destruct l as [|d l]; [done |]. rewrite (proj2 (Z.leb_gt _ 2)) by (simpl length; lia).
    by rewrite coords_parse_shape.
  - destruct l as [|d [|e l]]; [done | done |]. rewrite (proj2 (Z.leb_gt _ 3)) by (simpl length; lia).
    apply Forall_cons_iff in Hg as [_ Hg]. by rewrite coords_parse_shape.
Qed.

Lemma coords_of_inv g v t c :
  coords_of g v t = c <->
  coords_group c = g /\ coords_version c = v /\
  t = (coords_namespace c, plural c, coords_name c, coords_subresource c).
Proof. destruct t as [[[ns p] n] s], c. simpl. naive_solver. Qed.

Lemma parse_list_spec l c :
  parse_list l = Some c <->
  is_some (coords_version c) = true /\
  exists tail, l = (prefix_of c ++ tail)%list /\
    shape tail = Some (coords_namespace c, plural c, coords_name c, coords_subresource c).
Proof.
  unfold prefix_of. split.
  - destruct l as [|a [|b l]]; try done. simpl. destruct (eqb a "api") eqn:Ea; [| destruct (eqb a "apis") eqn:Es; [| done]].
    + apply eqb_sound in Ea as ->. destruct (shape l) as [t|] eqn:E; [| done]. simpl. intros [= Hc].
      apply coords_of_inv in Hc as (-> & -> & ->). split; [done |]. by exists l.
    + apply eqb_sound in Es as ->. destruct l as [|v l]; [done |]. destruct (shape l) as [t|] eqn:E; [| done]. simpl.
      intros [= Hc]. apply coords_of_inv in Hc as (-> & -> & ->). split; [done |]. by exists l.
  - intros (Hv & tail & -> & Hs). destruct c as [g [v|] ns p n s]; [| done]. simpl in *.
    destruct g as [g|]; simpl; by rewrite Hs.
Qed.

Lemma path_names p c :
  parse_resource_path debug p = Some c <-> coords_ok c = true /\ segments p = path_segments c.
Proof.
  rewrite parse_path_list, parse_list_spec. unfold coords_ok, path_segments.
  rewrite !andb_true_iff. split.
  - intros (Hv & tail & Hl & Hs). apply (shape_tail _ (coords_group c) (coords_version c)) in Hs as (Ht & Hn & Hp).
    assert (tail = tail_of c) as -> by (by destruct c). rewrite <- Hl. split_and!; try done.
    apply forallb_forall. pose proof (segments_good p) as Hg. by rewrite List.Forall_forall in Hg.
  - intros ([[[Hv _] Hn] Hp] & Hl). split; [done |]. exists (tail_of c). split; [done |].
    apply (shape_tail _ (coords_group c) (coords_version c)). split_and!; [by destruct c | done | done].
Qed.

(** (C11) A path names what its segments spell, with one exception.  The request is a
    resource with coordinates [c] if and only if [c] has a version, a subresource
    only of a named object and none of a namespace, and the non-empty segments of
    the decoded path are those of [c], whole and in order, so that no path has two
    readings.  The exception is the subresource of a namespace: the segments that
    spell it are read as a collection inside the namespace. *)
Theorem path_names_exactly p :
  (forall c, parse_resource_path debug p = Some c <-> coords_ok c = true /\ segments p = path_segments c) /\
  (forall g v ns sub,
     segments p = path_segments (mkCoords g (Some v) None "namespaces" (Some ns) (Some sub)) ->
     parse_resource_path debug p = Some (mkCoords g (Some v) (Some ns) sub None None)).
Proof.
  split; [apply path_names |]. intros g v ns sub Hp. apply path_names. split; [| exact Hp].
  pose proof (segments_good p) as Hg. rewrite Hp in Hg. unfold coords_ok. cbn [coords_version is_some].
  rewrite !andb_true_iff. split_and!; try done; [| by rewrite andb_false_r].
  apply forallb_forall. by rewrite List.Forall_forall in Hg.
Qed.

(** The status of a namespace has no path, although the resource is listed with
    that subresource: the path that spells it names a collection inside the
    namespace. *)
Theorem namespace_status_unreachable :
  (forall p c, parse_resource_path debug p = Some c -> plural c = "namespaces" ->
     coords_namespace c = None -> coords_subresource c = None) /\
  parse_resource_path debug "/api/v1/namespaces/prod/status" =
    Some (mkCoords None (Some "v1") (Some "prod") "status" None None).
Proof.
  split; [| by rewrite parse_path_list].
  intros p c Hp Hpl Hns. rewrite parse_path_list, parse_list_spec in Hp. destruct Hp as (_ & tail & _ & Hs).
  apply (shape_tail _ None None) in Hs as (_ & _ & Hx). rewrite Hpl, Hns in Hx. simpl in Hx.
  by destruct (coords_subresource c).
Qed.

End Parse.

Lemma path_names_exactly_witness :
  parse_resource_path (fun s => s) "/apis/apps/v1/namespaces/prod//deployments/web" =
    Some (mkCoords (Some "apps") (Some "v1") (Some "prod") "deployments" (Some "web") None) /\
  parse_resource_path (fun s => s) "/api/v1/namespaces/prod/status" =
    Some (mkCoords None (Some "v1") (Some "prod") "status" None None).
Proof.
  split.
  - apply (proj1 (path_names_exactly (fun s => s) "/apis/apps/v1/namespaces/prod//deployments/web")).
    vm_compute. by split.
  - apply (proj2 (path_names_exactly (fun s => s) "/api/v1/namespaces/prod/status")). vm_compute. reflexivity.
Defined.
