(* ===== verification/Auth.v ===== *)
(** * Who is asking

    The identities of [engenho-types/src/auth.rs], the ServiceAccount tokens of
    [engenho-apiserver/src/sa_token.rs] and the authenticator chain of
    [authn.rs].  The signature scheme, the base64 engine and the JSON form of the
    claims are other crates': classes with their documented laws.  The clock and
    the texts of foreign errors are arguments. *)

From Stdlib Require Import Ascii String.
From stdpp Require Import base tactics option list strings numbers pretty.
From S2P Require Import Prelude Text BTreeMap Json Resource Command Read Pagination AtRest AtRestFacts.
From S2P Require Import PatchFacts Ssa SsaFacts Coords.

Local Open Scope string_scope.
Local Open Scope Z_scope.

(** ** Identities *)

Record UserInfo : Type := mkUserInfo {
  username : string;
  uid : string;
  groups : list string;
  extra : btmap string (list string)
}.

#[export] Instance UserInfo_eq_dec : EqDecision UserInfo.
Proof. solve_decision. Defined.

Definition GROUP_AUTHENTICATED : string := "system:authenticated".
Definition GROUP_UNAUTHENTICATED : string := "system:unauthenticated".
Definition GROUP_MASTERS : string := "system:masters".

Definition anonymous : UserInfo := mkUserInfo "system:anonymous" "" [GROUP_UNAUTHENTICATED] [].

Definition admin : UserInfo := mkUserInfo "engenho-admin" "" [GROUP_MASTERS; GROUP_AUTHENTICATED] [].

Definition from_client_cert (common_name : string) (organizations : list string) : UserInfo :=
  mkUserInfo common_name "" (organizations ++ [GROUP_AUTHENTICATED]) [].

(** ** Tokens *)

Record NamedUid : Type := mkNamedUid { nu_name : string; nu_uid : string }.

Record KubeClaims : Type := mkKubeClaims {
  claim_namespace : string;
  serviceaccount : NamedUid;
  claim_pod : option NamedUid
}.

Record Claims : Type := mkClaims {
  iss : string;
  sub : string;
  aud : list string;
  exp : Z;
  iat : Z;
  kubernetes : option KubeClaims
}.

Module TokenError.

Inductive t : Type :=
  | Malformed (why : string)
  | BadSignature
  | Expired (exp now : Z)
  | WrongIssuer (got want : string)
  | WrongAudience (got : list string) (want : string).

#[global] Instance t_eq_dec : EqDecision t.
Proof. solve_decision. Defined.

End TokenError.

Definition subject_for (namespace name : string) : string :=
  "system:serviceaccount:" +:+ namespace +:+ ":" +:+ name.

Definition groups_for (namespace : string) : list string :=
  [GROUP_AUTHENTICATED; "system:serviceaccounts"; "system:serviceaccounts:" +:+ namespace].

(** [Serialize] of the claims. *)
Definition named_uid_json (n : NamedUid) : json :=
  jobj [("name", JString (nu_name n)); ("uid", JString (nu_uid n))].

Definition kube_claims_json (k : KubeClaims) : json :=
  jobj ([("namespace", JString (claim_namespace k));
         ("serviceaccount", named_uid_json (serviceaccount k))] ++
        match claim_pod k with Some p => [("pod", named_uid_json p)] | None => [] end)%list.

Definition claims_json (c : Claims) : json :=
  jobj ([("iss", JString (iss c)); ("sub", JString (sub c));
         ("aud", JArray (map JString (aud c)));
         ("exp", JNumber (number_of_i64 (exp c))); ("iat", JNumber (number_of_i64 (iat c)))] ++
        match kubernetes c with Some k => [("kubernetes.io", kube_claims_json k)] | None => [] end)%list.

(** The JSON text of claims, and its reading. *)
Class ClaimsSerde : Type := {
  claims_text : Claims -> string;
  parse_claims : string -> option Claims
}.

Class ClaimsSerdeLaws `{ClaimsSerde} `{SerdeJson} : Prop := {
  parse_claims_text : forall c,
    Word.is_i64 (exp c) -> Word.is_i64 (iat c) -> parse_claims (claims_text c) = Some c;
  claims_text_json : forall c,
    Word.is_i64 (exp c) -> Word.is_i64 (iat c) -> parse_json (claims_text c) = Some (claims_json c)
}.

(** Ed25519: a signature is 64 bytes. *)
Class Ed25519 : Type := {
  SigningKey : Type;
  VerifyingKey : Type;
  verifying_key : SigningKey -> VerifyingKey;
  sign : SigningKey -> list Z -> list Z;
  verifies : VerifyingKey -> list Z -> list Z -> bool
}.

Class Ed25519Laws `{Ed25519} : Prop := {
  sign_verifies : forall k m, verifies (verifying_key k) m (sign k m) = true;
  sign_length : forall k m, length (sign k m) = 64%nat;
  sign_bytes : forall k m, Forall (fun b => is_byte b = true) (sign k m)
}.

(** Base64, the URL-safe alphabet without padding. *)
Class Base64Url : Type := {
  b64url_encode : list Z -> string;
  b64url_decode : string -> option (list Z)
}.

Definition b64url_char (c : Ascii.ascii) : bool :=
  let c := code c in
  ((65 <=? c) && (c <=? 90)) || ((97 <=? c) && (c <=? 122)) || ((48 <=? c) && (c <=? 57)) ||
  (c =? 45) || (c =? 95).

Class Base64UrlLaws `{Base64Url} : Prop := {
  b64url_decode_encode : forall l,
    Forall (fun b => is_byte b = true) l -> b64url_decode (b64url_encode l) = Some l;
  b64url_alphabet : forall l,
    Forall (fun b => is_byte b = true) l -> str_all b64url_char (b64url_encode l) = true
}.

(** The texts of a decoder's failures. *)
Class TokenText : Type := {
  base64_error : string -> string;
  claims_error : string -> string
}.

Section Tokens.
Context `{SerdeJson} `{ClaimsSerde} `{Ed25519} `{Base64Url} `{TokenText}.

Definition jwt_header : string :=
  b64url_encode (as_bytes (json_text (jobj [("alg", JString "EdDSA"); ("typ", JString "JWT")]))).

Definition claims_for (issuer namespace name uid : string) (audiences : list string)
    (pod : option NamedUid) (now lifetime_secs : Z) : Claims :=
  mkClaims issuer (subject_for namespace name) audiences (Word.i64_add now lifetime_secs) now
    (Some (mkKubeClaims namespace (mkNamedUid name uid) pod)).

Definition issue (key : SigningKey) (issuer namespace name uid : string) (audiences : list string)
    (pod : option NamedUid) (now lifetime_secs : Z) : string :=
  let claims := claims_for issuer namespace name uid audiences pod now lifetime_secs in
  let c := b64url_encode (as_bytes (claims_text claims)) in
  let signing_input := jwt_header +:+ "." +:+ c in
  let sig := sign key (as_bytes signing_input) in
  signing_input +:+ "." +:+ b64url_encode sig.

Definition verify (key : VerifyingKey) (token issuer audience : string) (now : Z)
  : result Claims TokenError.t :=
  match split_char "."%char token with
  | [h; c; s] =>
      let signing_input := h +:+ "." +:+ c in
      let? sig_bytes := ok_or (b64url_decode s) (TokenError.Malformed (base64_error s)) in
      if negb (Nat.eqb (length sig_bytes) 64) then Err TokenError.BadSignature
      else if negb (verifies key (as_bytes signing_input) sig_bytes) then Err TokenError.BadSignature
      else
        let? payload := ok_or (b64url_decode c) (TokenError.Malformed (base64_error c)) in
        let? claims :=
          ok_or (parse_claims (of_bytes payload)) (TokenError.Malformed (claims_error (of_bytes payload))) in
        if exp claims <=? now then Err (TokenError.Expired (exp claims) now)
        else if negb (eqb (iss claims) issuer) then Err (TokenError.WrongIssuer (iss claims) issuer)
        else if negb (existsb (fun a => eqb a audience) (aud claims))
        then Err (TokenError.WrongAudience (aud claims) audience)
        else Ok claims
  | parts =>
      Err (TokenError.Malformed
             ("expected 3 dot-separated segments, got " +:+ pretty (Z.of_nat (length parts))))
  end.

(** ** The chain *)

Record VerifiedClientCert : Type := mkCert { common_name : string; organizations : list string }.

Record RequestCreds : Type := mkCreds {
  client_cert : option VerifiedClientCert;
  bearer : option string
}.

Inductive AuthnError : Type :=
  | ServiceAccountUnsupported
  | ServiceAccountRejected (why : TokenError.t)
  | ServiceAccountClaimsMissing.

(** The trait [Authenticator]. *)
Definition Authenticator : Type := RequestCreds -> result (option UserInfo) AuthnError.

Definition x509 : Authenticator := fun creds =>
  match client_cert creds with
  | Some cert => Ok (Some (from_client_cert (common_name cert) (organizations cert)))
  | None => Ok None
  end.

Definition decode_jwt_payload (payload : string) : option (btmap string json) :=
  b64url_decode payload ≫= fun bytes => parse_json (of_bytes bytes) ≫= as_object.

Definition is_service_account_token (token : string) : bool :=
  match split_char "."%char token with
  | [_; payload; _] =>
      match decode_jwt_payload payload with
      | None => false
      | Some claims =>
          let claim k := bt_get k claims ≫= as_str in
          let sub_is_sa := is_some_and (starts_with "system:serviceaccount:") (claim "sub") in
          let iss_is_k8s := is_some_and (str_contains "kubernetes") (claim "iss") in
          sub_is_sa || iss_is_k8s || is_some (bt_get "kubernetes.io" claims)
      end
  | _ => false
  end.

Record SaVerifier : Type := mkVerifier { verifying : VerifyingKey; issuer : string; audience : string }.

Definition service_account_user (k : KubeClaims) : UserInfo :=
  mkUserInfo (subject_for (claim_namespace k) (nu_name (serviceaccount k))) (nu_uid (serviceaccount k))
    (groups_for (claim_namespace k)) [].

Definition service_account_token (key : option SaVerifier) (now : Z) : Authenticator := fun creds =>
  match bearer creds with
  | None => Ok None
  | Some bearer =>
      if negb (is_service_account_token bearer) then Ok None
      else
        match key with
        | None => Err ServiceAccountUnsupported
        | Some v =>
            let? claims :=
              result_map_err ServiceAccountRejected
                (verify (verifying v) bearer (issuer v) (audience v) now) in
            match kubernetes claims with
            | None => Err ServiceAccountClaimsMissing
            | Some k => Ok (Some (service_account_user k))
            end
        end
  end.

Definition bootstrap_admin_token (token : option string) : Authenticator := fun creds =>
  match token, bearer creds with
  | Some configured, Some presented => Ok (if eqb configured presented then Some admin else None)
  | _, _ => Ok None
  end.

Definition anonymous_stage : Authenticator := fun _ => Ok (Some anonymous).

Fixpoint authenticate (stages : list Authenticator) (creds : RequestCreds) : result UserInfo AuthnError :=
  match stages with
  | [] => Ok anonymous
  | stage :: stages =>
      let? claimed := stage creds in
      match claimed with Some user => Ok user | None => authenticate stages creds end
  end.

(** [bootstrap] without a key, [bootstrap_with_sa] with one. *)
Definition bootstrap (admin_token : option string) (key : option SaVerifier) (now : Z)
  : list Authenticator :=
  [x509; service_account_token key now; bootstrap_admin_token admin_token; anonymous_stage].

(** [bearer_from_headers]: the [Authorization] header, when its value is text. *)
Definition bearer_from_headers (authorization : option string) : option string :=
  authorization ≫= fun value =>
  (match strip_prefix "Bearer " value with
   | Some rest => Some rest
   | None =>
       match split_once " "%char value with
       | Some (scheme, tok) => if eqb (to_ascii_lowercase scheme) "bearer" then Some tok else None
       | None => None
       end
   end) ≫= fun rest =>
  let token := trim rest in
  if eqb token "" then None else Some token.

End Tokens.

(** ** Who a request comes from, exactly

    The authenticator chain against a relation between credentials and
    identities, and that a token of the issuer comes back, through the
    [Authorization] header, as the ServiceAccount it was issued for. *)

(** ** Text *)

Lemma b64url_free `{Base64UrlLaws} l : bytes l -> free_of "."%char (b64url_encode l) = true.
Proof.
  intros Hl. eapply str_all_weaken; [| by apply b64url_alphabet]. intros c Hc. apply negb_true_iff, Ascii.eqb_neq.
  intros ->. done.
Qed.

Lemma b64url_graphic `{Base64UrlLaws} l : bytes l -> str_all graphic (b64url_encode l) = true.
Proof.
  intros Hl. eapply str_all_weaken; [| by apply b64url_alphabet]. intros c. unfold b64url_char, graphic, code. lia.
Qed.

Lemma split_char_concat c s : String.concat (String c "") (split_char c s) = s.
Proof.
  induction s as [|x s IH]; [done |]. cbn [split_char]. destruct (Ascii.eqb x c) eqn:E.
  - apply Ascii.eqb_eq in E as ->. rewrite <- IH at 2. by destruct (split_char c s) eqn:E; [destruct s; simpl in E; repeat case_match |].
  - rewrite <- IH at 2. destruct (split_char c s) as [|p [|q ps]] eqn:Es; [by destruct s; simpl in Es; repeat case_match | done | done].
Qed.

Lemma split_three c s x y z :
  split_char c s = [x; y; z] <->
  s = x +:+ String c (y +:+ String c z) /\ free_of c x = true /\ free_of c y = true /\ free_of c z = true.
Proof.
  split.
  - intros Hs. pose proof (split_char_concat c s) as Hc. pose proof (split_char_pieces c s) as Hp.
    rewrite Hs in Hc, Hp. rewrite !Forall_cons_iff in Hp. split; [by rewrite <- Hc | tauto].
  - intros (-> & Hx & Hy & Hz). by rewrite split_char_cut, split_char_cut, split_char_free.
Qed.

Section Chain.
Context `{SerdeJson} `{ClaimsSerde} `{Ed25519} `{Base64Url} `{TokenText}.

(** ** Tokens *)

(** A token carries claims its verifier vouches for, at a time. *)
Record genuine_parts (v : SaVerifier) (token : string) (now : Z) (claims : Claims)
    (h c s : string) (sig payload : list Z) : Prop := {
  gen_split : split_char "."%char token = [h; c; s];
  gen_sig : b64url_decode s = Some sig;
  gen_length : length sig = 64%nat;
  gen_signed : verifies (verifying v) (as_bytes (h +:+ "." +:+ c)) sig = true;
  gen_payload : b64url_decode c = Some payload;
  gen_claims : parse_claims (of_bytes payload) = Some claims;
  gen_alive : now < exp claims;
  gen_issuer : iss claims = issuer v;
  gen_audience : In (audience v) (aud claims)
}.

Definition genuine (v : SaVerifier) (token : string) (now : Z) (claims : Claims) : Prop :=
  exists h c s sig payload, genuine_parts v token now claims h c s sig payload.

Lemma existsb_eqb (x : string) l : existsb (fun y => eqb y x) l = true <-> In x l.
Proof. rewrite existsb_exists. setoid_rewrite eqb_true. split; [by intros (y & ? & ->) | eauto]. Qed.

Lemma verify_genuine v token now claims :
  verify (verifying v) token (issuer v) (audience v) now = Ok claims <-> genuine v token now claims.
Proof.
  unfold verify. split.
  - intros Hv. destruct (split_char "."%char token) as [|h [|c [|s [|]]]] eqn:Hs; try done.
    destruct (b64url_decode s) as [sig|] eqn:Hsig; [cbn in Hv | done].
    destruct (Nat.eqb (length sig) 64) eqn:Hl; [cbn in Hv | done].
    destruct (verifies _ _ sig) eqn:Hver; [cbn in Hv | done].
    destruct (b64url_decode c) as [payload|] eqn:Hc; [cbn in Hv | done].
    destruct (parse_claims _) as [cl|] eqn:Hp; [cbn in Hv | done].
    destruct (exp cl <=? now) eqn:He; [done |]. destruct (eqb (iss cl) _) eqn:Hi; [cbn in Hv | done].
    destruct (existsb _ _) eqn:Ha; [cbn in Hv | done]. injection Hv as ->.
    exists h, c, s, sig, payload. split; try done; [by apply Nat.eqb_eq | lia | by apply (proj1 (eqb_true _ _)) in Hi |].
    by apply existsb_eqb.
  - intros (h & c & s & sig & payload & [Hs Hsig Hl Hver Hc Hp He Hi Ha]).
    rewrite Hs, Hsig. cbn. rewrite Hl. cbn. rewrite Hver. cbn. rewrite Hc. cbn. rewrite Hp. cbn.
    rewrite (proj2 (Z.leb_gt _ _)) by done. rewrite (proj2 (eqb_true _ _) Hi). cbn.
    by rewrite (proj2 (existsb_eqb _ _) Ha).
Qed.

(** ** Credentials and identities *)

(** Who presents a set of credentials, at a time. *)
Inductive identified (admin_token : option string) (key : option SaVerifier) (now : Z)
    (creds : RequestCreds) : UserInfo -> Prop :=
  | ByCertificate cert :
      client_cert creds = Some cert ->
      identified admin_token key now creds (from_client_cert (common_name cert) (organizations cert))
  | ByServiceAccount token v claims k :
      client_cert creds = None -> bearer creds = Some token -> is_service_account_token token = true ->
      key = Some v -> genuine v token now claims -> kubernetes claims = Some k ->
      identified admin_token key now creds (service_account_user k)
  | ByAdminToken token :
      client_cert creds = None -> bearer creds = Some token -> is_service_account_token token = false ->
      admin_token = Some token -> identified admin_token key now creds admin
  | AsAnonymous :
      client_cert creds = None ->
      (forall token, bearer creds = Some token ->
         is_service_account_token token = false /\ admin_token <> Some token) ->
      identified admin_token key now creds anonymous.

(** Why a token shaped like a ServiceAccount's identifies nobody. *)
Definition unidentified (key : option SaVerifier) (token : string) (now : Z) (e : AuthnError) : Prop :=
  match key with
  | None => e = ServiceAccountUnsupported
  | Some v =>
      (exists reason, e = ServiceAccountRejected reason) /\ (forall claims, ~ genuine v token now claims) \/
      e = ServiceAccountClaimsMissing /\ exists claims, genuine v token now claims /\ kubernetes claims = None
  end.

Lemma authenticate_refusal admin_token key now creds token e :
  client_cert creds = None -> bearer creds = Some token -> is_service_account_token token = true ->
  authenticate (bootstrap admin_token key now) creds = Err e -> unidentified key token now e.
Proof.
  intros Hc Hb Hsa. unfold bootstrap. cbn [authenticate]. unfold x509, service_account_token, unidentified.
  rewrite Hc, Hb, Hsa. cbn [negb]. destruct key as [v |]; [| by intros [= <-]].
  pose proof (verify_genuine v token now) as Hg.
  destruct (verify (verifying v) token (issuer v) (audience v) now) as [claims | r]; cbn.
  - destruct (kubernetes claims) as [k |] eqn:Hk; [done |]. intros [= <-]. right. split; [done |].
    exists claims. split; [by apply Hg | done].
  - intros [= <-]. left. split; [by exists r |]. intros claims Hcl%Hg. done.
Qed.

Lemma authenticate_identified admin_token key now creds user :
  authenticate (bootstrap admin_token key now) creds = Ok user <-> identified admin_token key now creds user.
Proof.
  unfold bootstrap. cbn [authenticate]. unfold x509, service_account_token, bootstrap_admin_token, anonymous_stage.
  destruct (client_cert creds) as [cert|] eqn:Hcert.
  { cbn. split; [intros [= <-]; by apply ByCertificate |]. intros []; congruence. }
  cbn [result_bind]. destruct (bearer creds) as [token|] eqn:Hb.
  2: { cbn. assert (match admin_token with Some _ => Ok None | None => Ok None end = (Ok None : result (option UserInfo) AuthnError))
         as Hd by (by destruct admin_token).
       rewrite Hd. cbn. split; [intros [= <-]; apply AsAnonymous; [done | congruence] |]. intros []; congruence. }
  destruct (is_service_account_token token) eqn:Hsa.
  - cbn [negb]. destruct key as [v|]; [| split; [done |]; intros [| | |? Hn]; try congruence;
      destruct (Hn token Hb); congruence].
    destruct (verify _ _ _ _ _) as [claims|e] eqn:Hv; cbn.
    + apply verify_genuine in Hv as Hg. destruct (kubernetes claims) as [k|] eqn:Hk; cbn; split.
      * intros [= <-]. by eapply ByServiceAccount.
      * intros [| token' v' claims' k' ? ? ? ? Hg'%verify_genuine | |? Hn]; [congruence | | congruence |
          destruct (Hn token Hb); congruence]. simplify_eq. congruence.
      * done.
      * intros [| token' v' claims' k' ? ? ? ? Hg'%verify_genuine | |? Hn]; [congruence | | congruence |
          destruct (Hn token Hb); congruence]. simplify_eq. congruence.
    + split; [done |].
      intros [| token' v' claims' k' ? ? ? ? Hg'%verify_genuine | |? Hn]; [congruence | | congruence |
        destruct (Hn token Hb); congruence]. simplify_eq. congruence.
  - cbn [negb result_bind]. destruct admin_token as [t|]; [destruct (eqb t token) eqn:Et |]; cbn.
    + apply eqb_true in Et as ->. split; [intros [= <-]; by apply (ByAdminToken _ _ _ _ token) |].
      intros [| | |? Hn]; try congruence. by destruct (Hn token Hb) as [_ []].
    + split; [intros [= <-]; apply AsAnonymous; [done |] |].
      * intros token' Ht. split; [congruence |]. intros [= ->]. simplify_eq. by rewrite eqb_refl in Et.
      * intros []; try congruence. simplify_eq. by rewrite eqb_refl in Et.
    + split; [intros [= <-]; apply AsAnonymous; [done | split; congruence] |]. intros []; congruence.
Qed.

End Chain.

(** (C12) Who a request comes from is exactly what its credentials show: a verified
    client certificate is its subject and decides alone; failing that, a bearer
    shaped like a ServiceAccount token is that account if its signature, issuer,
    audience and expiry hold against the configured key, and otherwise nobody
    (never the administrator, never anonymous): unsupported exactly where no key is
    configured, rejected where it does not verify, and without claims where it
    verifies and names no account; failing that, the configured bootstrap token is
    the administrator; and only then is the caller anonymous. *)
Theorem authenticate_exact `{SerdeJson} `{ClaimsSerde} `{Ed25519} `{Base64Url} `{TokenText}
    (admin_token : option string) (key : option SaVerifier) (now : Z) (creds : RequestCreds) :
  (forall user, authenticate (bootstrap admin_token key now) creds = Ok user <->
                identified admin_token key now creds user) /\
  (forall e, authenticate (bootstrap admin_token key now) creds = Err e ->
     client_cert creds = None /\
     exists token, bearer creds = Some token /\ is_service_account_token token = true /\
       (forall v claims k, key = Some v -> genuine v token now claims -> kubernetes claims <> Some k) /\
       unidentified key token now e).
Proof.
  split; [intros user; apply authenticate_identified |]. intros e He.
  assert (forall u, ~ identified admin_token key now creds u) as Hno.
  { intros u Hu%authenticate_identified. congruence. }
  destruct (client_cert creds) as [cert|] eqn:Hc; [by destruct (Hno _ (ByCertificate _ _ _ _ cert Hc)) |].
  split; [done |]. destruct (bearer creds) as [token|] eqn:Hb.
  2: { destruct (Hno anonymous). apply AsAnonymous; [done | congruence]. }
  exists token. split; [done |]. destruct (is_service_account_token token) eqn:Hsa.
  - split_and!; [done | | by eapply authenticate_refusal].
    intros v claims k Hk Hg Hkube. by destruct (Hno _ (ByServiceAccount _ _ _ _ _ _ _ _ Hc Hb Hsa Hk Hg Hkube)).
  - destruct (decide (admin_token = Some token)) as [Ha | Ha].
    + by destruct (Hno _ (ByAdminToken _ _ _ _ _ Hc Hb Hsa Ha)).
    + destruct (Hno anonymous). apply AsAnonymous; [done |]. intros t Ht. split; congruence.
Qed.

(** ** Issued tokens *)

Section Issued.
Context `{SerdeJson} `{ClaimsSerde} `{Ed25519} `{Base64Url} `{TokenText}.
Context {CL : ClaimsSerdeLaws} {EL : Ed25519Laws} {BL : Base64UrlLaws}.
Context (key : SigningKey) (iss ns name uid : string) (auds : list string) (pod : option NamedUid) (now life : Z).
Hypothesis Hnow : Word.is_i64 now.

Let claims : Claims := claims_for iss ns name uid auds pod now life.
Let body : string := b64url_encode (as_bytes (claims_text claims)).
Let token : string := issue key iss ns name uid auds pod now life.

Lemma issued_split :
  split_char "."%char token =
  [jwt_header; body; b64url_encode (sign key (as_bytes (jwt_header +:+ "." +:+ body)))].
Proof using BL EL.
  apply split_three. split_and!; [| apply b64url_free, as_bytes_bytes | apply b64url_free, as_bytes_bytes |].
  - unfold token, issue. fold claims. fold body. by rewrite !string_app_assoc.
  - apply b64url_free, sign_bytes.
Qed.

Lemma claims_exp : Word.is_i64 (exp claims).
Proof using. apply Word.i64_add_range. Qed.

Lemma issued_genuine audience now' :
  In audience auds -> now' < Word.i64_add now life ->
  genuine (mkVerifier (verifying_key key) iss audience) token now' claims.
Proof using Hnow CL EL BL.
  intros Ha He. eexists _, _, _, _, _. split.
  - apply issued_split.
  - apply b64url_decode_encode, sign_bytes.
  - apply sign_length.
  - apply sign_verifies.
  - apply b64url_decode_encode, as_bytes_bytes.
  - rewrite of_as_bytes. by apply parse_claims_text; [apply claims_exp |].
  - done.
  - done.
  - done.
Qed.

Lemma issued_shaped : is_service_account_token token = true.
Proof using Hnow CL BL EL.
  unfold is_service_account_token. rewrite issued_split. unfold decode_jwt_payload, body.
  rewrite b64url_decode_encode by apply as_bytes_bytes. cbn [mbind option_bind].
  rewrite of_as_bytes, claims_text_json by (done || apply claims_exp). reflexivity.
Qed.

Lemma issued_graphic : str_all graphic token = true.
Proof using BL EL.
  unfold token, issue. rewrite !str_all_app. unfold jwt_header.
  by rewrite !b64url_graphic by (apply as_bytes_bytes || apply sign_bytes).
Qed.

End Issued.

Lemma bearer_of_header token : str_all graphic token = true -> token <> "" ->
  bearer_from_headers (Some ("Bearer " +:+ token)) = Some token.
Proof.
  intros Hg Hne. unfold bearer_from_headers. cbn [mbind option_bind]. rewrite strip_prefix_app. cbn [mbind option_bind].
  rewrite trim_graphic by done. destruct (eqb token "") eqn:E; [| done]. by apply (proj1 (eqb_true _ _)) in E.
Qed.

(** A token comes back as the account it was issued for. *)
Lemma issued_authenticates `{SerdeJson} `{ClaimsSerde} `{Ed25519} `{Base64Url} `{TokenText}
    {CL : ClaimsSerdeLaws} {EL : Ed25519Laws} {BL : Base64UrlLaws}
    (key : SigningKey) (iss ns name uid : string) (auds : list string) (pod : option NamedUid)
    (now life : Z) (audience : string) (now' : Z) (admin_token : option string) :
  Word.is_i64 now -> In audience auds -> now' < Word.i64_add now life ->
  authenticate (bootstrap admin_token (Some (mkVerifier (verifying_key key) iss audience)) now')
    (mkCreds None (bearer_from_headers (Some ("Bearer " +:+ issue key iss ns name uid auds pod now life)))) =
  Ok (mkUserInfo (subject_for ns name) uid (groups_for ns) []).
Proof.
  intros Hnow Ha He. rewrite bearer_of_header.
  - apply authenticate_identified. eapply (ByServiceAccount _ _ _ _ _ _ (claims_for iss ns name uid auds pod now life)
      (mkKubeClaims ns (mkNamedUid name uid) pod)); [done | done | by apply issued_shaped | done | | done].
    by apply issued_genuine.
  - by apply issued_graphic.
  - unfold issue. by destruct jwt_header.
Qed.

(** A token comes back as the account it was issued for: sent as a bearer in
    the [Authorization] header without a client certificate, before its expiry
    and to a server that verifies with the issuer's key, issuer name and one of
    the token's audiences, it authenticates as that namespace's account, with
    its uid and groups, whatever the bootstrap token is. *)
Theorem issued_token_authenticates `{SerdeJson} `{ClaimsSerde} `{Ed25519} `{Base64Url} `{TokenText}
    {CL : ClaimsSerdeLaws} {EL : Ed25519Laws} {BL : Base64UrlLaws}
    (key : SigningKey) (iss ns name uid : string) (auds : list string) (pod : option NamedUid)
    (now life : Z) (audience : string) (now' : Z) (admin_token : option string) :
  Word.is_i64 now -> In audience auds -> now' < Word.i64_add now life ->
  authenticate (bootstrap admin_token (Some (mkVerifier (verifying_key key) iss audience)) now')
    (mkCreds None (bearer_from_headers (Some ("Bearer " +:+ issue key iss ns name uid auds pod now life)))) =
  Ok (mkUserInfo (subject_for ns name) uid (groups_for ns) []).
Proof. intros. by apply issued_authenticates. Qed.

(** ** Samples *)

Definition hex_base64 : Base64Url := {|
  b64url_encode l := to_hex l;
  b64url_decode s := KeyId.parse_pairs (as_bytes s)
|}.

Definition hex_pair_plain (b : Z) : bool :=
  b64url_char (hex_digit (Z.shiftr b 4)) && b64url_char (hex_digit (Z.land b 15)).

Lemma hex_pairs_plain b : is_byte b = true -> hex_pair_plain b = true.
Proof. revert b. apply byte_enum. vm_compute. reflexivity. Qed.

Lemma hex_base64_laws : @Base64UrlLaws hex_base64.
Proof.
  split; cbn [b64url_encode b64url_decode hex_base64].
  - intros l Hl. by apply hex_facts.
  - induction 1 as [|b l Hb _ IH]; [done |]. cbn [to_hex str_all]. apply hex_pairs_plain, andb_true_iff in Hb as [-> ->].
    by rewrite IH.
Qed.

Definition toy_ed25519 : Ed25519 := {|
  SigningKey := unit;
  VerifyingKey := unit;
  verifying_key k := k;
  sign _ _ := replicate 64 0;
  verifies _ _ sig := eqb sig (replicate 64 0)
|}.

Lemma toy_ed25519_laws : @Ed25519Laws toy_ed25519.
Proof. split; [intros; apply eqb_refl | done |]. intros k m. vm_compute. by repeat constructor. Qed.

(** Reading claims back, field by field. *)
Definition field {A} (k : string) (f : json -> option A) (j : json) : option A :=
  match as_object j with Some m => match bt_get k m with Some v => f v | None => None end | None => None end.
Definition optional {A} (k : string) (f : json -> option A) (j : json) : option (option A) :=
  match as_object j with
  | Some m => match bt_get k m with Some v => Some <$> f v | None => Some None end
  | None => None
  end.

Definition named_uid_of (j : json) : option NamedUid :=
  match field "name" as_str j, field "uid" as_str j with
  | Some n, Some u => Some (mkNamedUid n u)
  | _, _ => None
  end.

Definition kube_claims_of (j : json) : option KubeClaims :=
  match field "namespace" as_str j, field "serviceaccount" named_uid_of j, optional "pod" named_uid_of j with
  | Some ns, Some sa, Some p => Some (mkKubeClaims ns sa p)
  | _, _, _ => None
  end.

Definition int_of (j : json) : option Z :=
  match j with JNumber (PosInt z) | JNumber (NegInt z) => Some z | _ => None end.

Definition strings_of (j : json) : option (list string) := 
  match as_array j with Some l => Some (omap as_str l) | None => None end.

Definition claims_of (j : json) : option Claims :=
  match field "iss" as_str j, field "sub" as_str j, field "aud" strings_of j,
        field "exp" int_of j, field "iat" int_of j, optional "kubernetes.io" kube_claims_of j with
  | Some i, Some s, Some a, Some e, Some t, Some k => Some (mkClaims i s a e t k)
  | _, _, _, _, _, _ => None
  end.

Lemma claims_of_json c : claims_of (claims_json c) = Some c.
Proof.
  assert (forall l, omap as_str (map JString l) = l) as Hstr by (induction l as [|x l IH]; cbn; [done | by f_equal]).
  assert (forall z, int_of (JNumber (number_of_i64 z)) = Some z) as Hint by (intros z; unfold number_of_i64; by case_match).
  assert (forall l, strings_of (JArray (map JString l)) = Some l) as Harr by (intros l; unfold strings_of; cbn; by rewrite Hstr).
  unfold claims_of. generalize strings_of, int_of, Harr, Hint. clear. intros so io Harr Hint.
  destruct c as [i s a e t k]. unfold claims_json. cbn [iss sub aud exp iat kubernetes].
  specialize (Harr a). pose proof (Hint t) as Ht. specialize (Hint e).
  generalize dependent (map JString a). generalize dependent (number_of_i64 e). generalize dependent (number_of_i64 t).
  intros nt Ht ne He l Ha. destruct k as [[ns [n u] [[pn pu]|]]|]; vm_compute; by rewrite Ha, He, Ht.
Qed.

Definition sample_claims `{SerdeJson} : ClaimsSerde := {|
  claims_text c := json_text (claims_json c);
  parse_claims s := parse_json s ≫= claims_of
|}.

Lemma claims_json_wf c : Word.is_i64 (exp c) -> Word.is_i64 (iat c) -> wf_json (claims_json c) = true.
Proof.
  intros He Ht.
  assert (forall z, Word.is_i64 z -> number_ok (number_of_i64 z) = true) as Hn.
  { intros z Hz. unfold Word.is_i64, Word.i64_min, Word.i64_max, number_of_i64 in *.
    case_match; cbn [number_ok]; unfold Word.u64_max, Word.u64_modulus, Word.i64_min; lia. }
  assert (forall l, forallb wf_json (map JString l) = true) as Hl by (by induction l).
  assert (forall nu, wf_json (named_uid_json nu) = true) as Hu by (intros; by apply jobj_wf; repeat constructor).
  apply jobj_wf, Forall_app. split; [repeat constructor; cbn; auto |].
  destruct (kubernetes c) as [k|]; [| done]. repeat constructor. apply jobj_wf, Forall_app.
  split; [by repeat constructor; cbn | by destruct (claim_pod k); repeat constructor; cbn].
Qed.

Lemma sample_claims_laws `{SerdeJsonLaws} : @ClaimsSerdeLaws sample_claims _.
Proof.
  split; intros c He Ht; cbn [claims_text parse_claims sample_claims].
  - rewrite parse_json_text by (by apply claims_json_wf). cbn. apply claims_of_json.
  - apply parse_json_text. by apply claims_json_wf.
Qed.

#[local] Existing Instance numbered.
#[local] Existing Instance numbered_laws.
#[local] Existing Instance hex_base64.
#[local] Existing Instance hex_base64_laws.
#[local] Existing Instance toy_ed25519.
#[local] Existing Instance toy_ed25519_laws.
#[local] Existing Instance sample_claims.
#[local] Existing Instance sample_claims_laws.

Definition sample_token_text : TokenText := {|
  base64_error _ := "invalid base64";
  claims_error _ := "invalid claims"
|}.
#[local] Existing Instance sample_token_text.

Lemma issued_token_authenticates_witness :
  authenticate (bootstrap (Some "secret") (Some (mkVerifier tt "https://kubernetes.default.svc" "api")) 3599)
    (mkCreds None (bearer_from_headers (Some ("Bearer " +:+
       issue (tt : @SigningKey toy_ed25519) "https://kubernetes.default.svc" "dev" "builder" "u-1" ["api"] None 0 3600)))) =
  Ok (mkUserInfo "system:serviceaccount:dev:builder" "u-1"
        ["system:authenticated"; "system:serviceaccounts"; "system:serviceaccounts:dev"] []).
Proof.
  apply (issued_token_authenticates (tt : @SigningKey toy_ed25519) "https://kubernetes.default.svc" "dev" "builder" "u-1" ["api"]
    None 0 3600 "api" 3599 (Some "secret")); [done | by left | done].
Defined.
