(* ===== verification/Authz.v ===== *)
(** * What an identity may do

    [engenho-apiserver/src/authz]: the RBAC authoriser ([mod.rs]) over an
    interface to the stored roles and bindings, its instance over the catalog
    ([store_env.rs]), the access reviews ([sar.rs]); and from [router.rs] the
    three layers every request passes: classification, authentication,
    authorisation.

    The generated RBAC types are records of the fields the authoriser reads;
    reading them from a stored object is [serde]'s, a class.  Warnings are not
    modelled. *)

From Stdlib Require Import Ascii String.
From stdpp Require Import base tactics option list strings numbers.
From S2P Require Import Prelude Text BTreeMap Json Resource WatchHistory Command Read.
From S2P Require Import Ssa Pagination Catalog AtRest Coords Auth.

Local Open Scope string_scope.
Local Open Scope Z_scope.

(** ** Stored roles and bindings *)

Record PolicyRule : Type := mkPolicyRule {
  api_groups : list string;
  non_resource_urls : list string;
  resource_names : list string;
  rule_resources : list string;
  rule_verbs : list string
}.

Record RoleRef : Type := mkRoleRef { ref_api_group : string; ref_kind : string; ref_name : string }.

Record Subject : Type := mkSubject {
  subject_api_group : option string;
  subject_kind : string;
  subject_name : string;
  subject_namespace : option string
}.

(** A [Role] and a [ClusterRole], and their bindings. *)
Record Role : Type := mkRole { rules : list PolicyRule }.
Record ClusterRole : Type := mkClusterRole { cluster_rules : list PolicyRule }.
Record RoleBinding : Type := mkRoleBinding { role_ref : RoleRef; subjects : list Subject }.
Record ClusterRoleBinding : Type := mkClusterRoleBinding {
  cluster_role_ref : RoleRef;
  cluster_subjects : list Subject
}.

Class RbacStoreEnv (E : Type) : Type := {
  list_cluster_role_bindings : E -> list ClusterRoleBinding;
  list_role_bindings : E -> string -> list RoleBinding;
  get_cluster_role : E -> string -> option ClusterRole;
  get_role : E -> string -> string -> option Role
}.

(** ** Requests and verdicts *)

Record Attributes : Type := mkAttributes {
  attr_user : UserInfo;
  attr_verb : string;
  attr_group : string;
  attr_version : string;
  attr_resource : string;
  attr_subresource : option string;
  attr_namespace : option string;
  attr_name : option string;
  attr_url : option string
}.

Definition for_request (user : UserInfo) (info : RequestInfo) : Attributes :=
  match target info with
  | Coords.Resource c =>
      mkAttributes user (Coords.verb info) (group_key c) (version_key c) (plural c)
        (coords_subresource c) (coords_namespace c) (coords_name c) None
  | NonResource path => mkAttributes user (Coords.verb info) "" "" "" None None None (Some path)
  end.

Definition is_non_resource (a : Attributes) : bool := is_some (attr_url a).

Definition non_empty (subresource : option string) : option string :=
  match subresource with Some sub => if eqb sub "" then None else Some sub | None => None end.

Definition requested_subresource (a : Attributes) : option string := non_empty (attr_subresource a).

Definition resource_key (a : Attributes) : string :=
  match requested_subresource a with
  | Some sub => attr_resource a +:+ "/" +:+ sub
  | None => attr_resource a
  end.

Module Decision.

Inductive t : Type := Allow | Deny | NoOpinion.

#[global] Instance t_eq_dec : EqDecision t.
Proof. solve_decision. Defined.

Definition is_allow (d : t) : bool := match d with Allow => true | _ => false end.

End Decision.

Record EffectiveRules : Type := mkEffectiveRules {
  resource_rules : list PolicyRule;
  non_resource_rules : list PolicyRule;
  incomplete : bool
}.

Class Authorizer (A : Type) : Type := {
  authorize : A -> Attributes -> Decision.t;
  rules_for : A -> UserInfo -> option string -> EffectiveRules
}.

(** ** Matching *)

Definition subject_matches (user : UserInfo) (default_sa_ns : option string) (s : Subject) : bool :=
  if eqb (subject_kind s) "User" then eqb (subject_name s) (username user)
  else if eqb (subject_kind s) "Group" then existsb (fun g => eqb g (subject_name s)) (groups user)
  else if eqb (subject_kind s) "ServiceAccount" then
    let ns := default "" (match subject_namespace s with Some ns => Some ns | None => default_sa_ns end) in
    eqb ("system:serviceaccount:" +:+ ns +:+ ":" +:+ subject_name s) (username user)
  else false.

Definition subjects_match (l : list Subject) (user : UserInfo) (default_sa_ns : option string) : bool :=
  existsb (subject_matches user default_sa_ns) l.

Definition verb_matches (verbs : list string) (verb : string) : bool :=
  existsb (fun v => eqb v "*" || eqb v verb) verbs.

Definition api_group_matches (groups : list string) (group : string) : bool :=
  existsb (fun g => eqb g "*" || eqb g group) groups.

Definition is_combined_key (granted resource : string) (subresource : option string) : bool :=
  match subresource with
  | None => eqb granted resource
  | Some sub => eqb (strip_prefix resource granted ≫= strip_prefix "/") (Some sub)
  end.

Definition resource_matches (granted : list string) (resource : string) (subresource : option string)
  : bool :=
  let subresource := non_empty subresource in
  existsb (fun g =>
    eqb g "*" || is_combined_key g resource subresource ||
    is_some_and (fun sub => eqb (strip_prefix "*/" g) (Some sub)) subresource) granted.

Definition resource_name_matches (names : list string) (name : option string) : bool :=
  match names with
  | [] => true
  | _ => match name with Some n => existsb (fun rn => eqb rn n) names | None => false end
  end.

(** [trim_end_matches('*')]. *)
Fixpoint trim_stars_back (s : string) : string :=
  match s with String c t => if Ascii.eqb c "*"%char then trim_stars_back t else s | EmptyString => "" end.
Definition trim_stars (s : string) : string := String.rev (trim_stars_back (String.rev s)).

Definition ends_with_star (s : string) : bool := is_some (strip_suffix "*" s).

Definition non_resource_url_matches (pat url : string) : bool :=
  eqb pat "*" || eqb pat url || (ends_with_star pat && starts_with (trim_stars pat) url).

Definition rule_grants (rule : PolicyRule) (a : Attributes) : bool :=
  match attr_url a with
  | Some url =>
      verb_matches (rule_verbs rule) (attr_verb a) &&
      existsb (fun pat => non_resource_url_matches pat url) (non_resource_urls rule)
  | None =>
      verb_matches (rule_verbs rule) (attr_verb a) &&
      api_group_matches (api_groups rule) (attr_group a) &&
      resource_matches (rule_resources rule) (attr_resource a) (requested_subresource a) &&
      resource_name_matches (resource_names rule) (attr_name a)
  end.

(** ** The authoriser *)

Definition is_master (user : UserInfo) : bool := existsb (fun g => eqb g GROUP_MASTERS) (groups user).

Definition wildcard_rules : EffectiveRules :=
  mkEffectiveRules [mkPolicyRule ["*"] [] [] ["*"] ["*"]] [mkPolicyRule [] ["*"] [] [] ["*"]] false.

Section Rbac.
Context {E : Type} `{RbacStoreEnv E} (env : E).

Definition resolve_rules (ref : RoleRef) (binding_ns : option string) : list PolicyRule :=
  if eqb (ref_kind ref) "ClusterRole" then
    match get_cluster_role env (ref_name ref) with Some cr => cluster_rules cr | None => [] end
  else if eqb (ref_kind ref) "Role" then
    match binding_ns with
    | None => []
    | Some ns => match get_role env ns (ref_name ref) with Some r => rules r | None => [] end
    end
  else [].

(** The bindings of an identity, with the namespace of those that have one. *)
Definition matched_refs (user : UserInfo) (namespace : option string) : list (RoleRef * option string) :=
  let cluster :=
    map (fun crb => (cluster_role_ref crb, None))
      (List.filter (fun crb => subjects_match (cluster_subjects crb) user None)
         (list_cluster_role_bindings env)) in
  match namespace with
  | None => cluster
  | Some ns =>
      (cluster ++
       map (fun rb => (role_ref rb, Some ns))
         (List.filter (fun rb => subjects_match (subjects rb) user (Some ns)) (list_role_bindings env ns)))%list
  end.

Definition rbac_authorize (a : Attributes) : Decision.t :=
  if is_master (attr_user a) then Decision.Allow
  else if existsb (fun r => existsb (fun rule => rule_grants rule a) (resolve_rules r.1 r.2))
            (matched_refs (attr_user a) (attr_namespace a))
  then Decision.Allow
  else Decision.NoOpinion.

Definition add_rule (out : EffectiveRules) (rule : PolicyRule) : EffectiveRules :=
  match non_resource_urls rule with
  | [] => mkEffectiveRules (resource_rules out ++ [rule]) (non_resource_rules out) (incomplete out)
  | _ => mkEffectiveRules (resource_rules out) (non_resource_rules out ++ [rule]) (incomplete out)
  end.

Definition add_ref (out : EffectiveRules) (r : RoleRef * option string) : EffectiveRules :=
  match resolve_rules r.1 r.2 with
  | [] => mkEffectiveRules (resource_rules out) (non_resource_rules out) true
  | l => fold_left add_rule l out
  end.

Definition rbac_rules_for (user : UserInfo) (namespace : option string) : EffectiveRules :=
  if is_master user then wildcard_rules
  else fold_left add_ref (matched_refs user namespace) (mkEffectiveRules [] [] false).

End Rbac.

(** [RbacAuthorizer] and [AllowAllAuthorizer]. *)
Record RbacAuthorizer (E : Type) : Type := mkRbac { rbac_env : E }.
Arguments mkRbac {E} rbac_env.
Arguments rbac_env {E} r.

#[export] Instance rbac_authorizer {E} `{RbacStoreEnv E} : Authorizer (RbacAuthorizer E) := {
  authorize r a := rbac_authorize (rbac_env r) a;
  rules_for r user ns := rbac_rules_for (rbac_env r) user ns
}.

Inductive AllowAllAuthorizer : Type := AllowAll.

#[export] Instance allow_all_authorizer : Authorizer AllowAllAuthorizer := {
  authorize _ _ := Decision.Allow;
  rules_for _ _ _ := wildcard_rules
}.

(** ** The store behind it *)

Definition RBAC_GROUP : string := "rbac.authorization.k8s.io".
Definition RBAC_VERSION : string := "v1".

(** [serde_json::from_value] of the generated types. *)
Class RbacSerde : Type := {
  role_of : json -> option Role;
  cluster_role_of : json -> option ClusterRole;
  role_binding_of : json -> option RoleBinding;
  cluster_role_binding_of : json -> option ClusterRoleBinding
}.

Definition store_list (c : ResourceCatalog) (kind : string) (namespace : option string)
  : list (ResourceKey * json) :=
  (list_at_revision c (mkListScope RBAC_GROUP RBAC_VERSION kind namespace)).1.

#[export] Instance store_rbac_env `{RbacSerde} : RbacStoreEnv ResourceCatalog := {
  list_cluster_role_bindings c :=
    omap (fun e => cluster_role_binding_of e.2) (store_list c "ClusterRoleBinding" None);
  list_role_bindings c ns := omap (fun e => role_binding_of e.2) (store_list c "RoleBinding" (Some ns));
  get_cluster_role c name :=
    get c (cluster_scoped RBAC_GROUP RBAC_VERSION "ClusterRole" name) ≫= cluster_role_of;
  get_role c ns name := get c (namespaced RBAC_GROUP RBAC_VERSION "Role" ns name) ≫= role_of
}.
