(* ===== verification/FrontDoor.v ===== *)
(** * The front of the API server

    The access reviews of [engenho-apiserver/src/authz/sar.rs] and the layers of
    [router.rs] that every request passes: the classification, the authenticator
    chain, the authoriser, and the audit layer around them with the record of
    [audit.rs].  A layer is a function of the request and of what is inside it
    ([next]); the extensions of a request and of a response are fields.  The body
    of a response is a parameter, with its status. *)

From Stdlib Require Import Ascii String.
From stdpp Require Import base tactics option list strings numbers.
From S2P Require Import Prelude Text BTreeMap Json Resource Command Read.
From S2P Require Import Pagination AtRest ApiErrors Coords Auth Authz.

Local Open Scope string_scope.
Local Open Scope Z_scope.

(** ** Access reviews *)

Record ResourceAttributes : Type := mkResourceAttributes {
  ra_namespace : option string;
  ra_verb : option string;
  ra_group : option string;
  ra_version : option string;
  ra_resource : option string;
  ra_subresource : option string;
  ra_name : option string
}.

Definition no_resource : ResourceAttributes := mkResourceAttributes None None None None None None None.

Record NonResourceAttributes : Type := mkNonResourceAttributes {
  nra_path : option string;
  nra_verb : option string
}.

Record SubjectAccessReviewSpec : Type := mkSarSpec {
  sar_resource : option ResourceAttributes;
  sar_non_resource : option NonResourceAttributes;
  sar_user : option string;
  sar_groups : option (list string);
  sar_uid : option string;
  sar_extra : btmap string (list string)
}.

Record SelfSubjectAccessReviewSpec : Type := mkSelfSarSpec {
  self_resource : option ResourceAttributes;
  self_non_resource : option NonResourceAttributes
}.

Record SubjectAccessReviewStatus : Type := mkSarStatus {
  allowed : bool;
  denied : bool;
  reason : string;
  evaluation_error : string
}.

Definition attributes_from_spec (user : UserInfo) (resource : option ResourceAttributes)
    (non_resource : option NonResourceAttributes) : Attributes :=
  match non_resource with
  | Some nr =>
      mkAttributes user (default "" (nra_verb nr)) "" "" "" None None None
        (Some (default "" (nra_path nr)))
  | None =>
      let r := default no_resource resource in
      mkAttributes user (default "" (ra_verb r)) (default "" (ra_group r)) (default "" (ra_version r))
        (default "" (ra_resource r)) (ra_subresource r) (ra_namespace r) (ra_name r) None
  end.

Definition subject_user (spec : SubjectAccessReviewSpec) : UserInfo :=
  let username := default "" (sar_user spec) in
  let no_groups := match sar_groups spec with None | Some [] => true | Some _ => false end in
  if eqb username "" && no_groups then anonymous
  else mkUserInfo username (default "" (sar_uid spec)) (default [] (sar_groups spec)) (sar_extra spec).

Definition status_for (d : Decision.t) : SubjectAccessReviewStatus :=
  match d with
  | Decision.Allow => mkSarStatus true false "RBAC: allowed by a matching rule" ""
  | Decision.Deny => mkSarStatus false true "RBAC: explicitly denied" ""
  | Decision.NoOpinion => mkSarStatus false false "RBAC: no rule grants this request" ""
  end.

Record ResourceRule : Type := mkResourceRule {
  rr_verbs : list string;
  rr_api_groups : list string;
  rr_resources : list string;
  rr_resource_names : list string
}.

Record NonResourceRule : Type := mkNonResourceRule {
  nrr_verbs : list string;
  nrr_urls : list string
}.

Record SubjectRulesReviewStatus : Type := mkRulesStatus {
  status_resource_rules : list ResourceRule;
  status_non_resource_rules : list NonResourceRule;
  status_incomplete : bool
}.

Definition rules_status (r : EffectiveRules) : SubjectRulesReviewStatus :=
  mkRulesStatus
    (map (fun r => mkResourceRule (rule_verbs r) (api_groups r) (rule_resources r) (resource_names r))
       (resource_rules r))
    (map (fun r => mkNonResourceRule (rule_verbs r) (non_resource_urls r)) (non_resource_rules r))
    (incomplete r).

(** The verdicts of the three review handlers, once their body is decoded; the
    envelope echoes the spec. *)
Definition subject_access_review {A} `{Authorizer A} (authorizer : A) (spec : SubjectAccessReviewSpec)
  : SubjectAccessReviewStatus :=
  status_for (authorize authorizer
    (attributes_from_spec (subject_user spec) (sar_resource spec) (sar_non_resource spec))).

Definition self_subject_access_review {A} `{Authorizer A} (authorizer : A) (caller : UserInfo)
    (spec : SelfSubjectAccessReviewSpec) : SubjectAccessReviewStatus :=
  status_for (authorize authorizer
    (attributes_from_spec caller (self_resource spec) (self_non_resource spec))).

Definition self_subject_rules_review {A} `{Authorizer A} (authorizer : A) (caller : UserInfo)
    (namespace : option string) : SubjectRulesReviewStatus :=
  rules_status (rules_for authorizer caller namespace).

(** ** Refusals *)

Definition forbidden_message (a : Attributes) : string :=
  let user := username (attr_user a) in
  match attr_url a with
  | Some path => "forbidden: User " +:+ quoted user +:+ " cannot " +:+ attr_verb a +:+ " path " +:+ quoted path
  | None =>
      let ns_clause :=
        match attr_namespace a with
        | Some ns => " in the namespace " +:+ quoted ns
        | None => ""
        end in
      "forbidden: User " +:+ quoted user +:+ " cannot " +:+ attr_verb a +:+ " resource " +:+
      quoted (resource_key a) +:+ " in API group " +:+ quoted (attr_group a) +:+ ns_clause
  end.

(** ** The layers *)

Inductive Authorization : Type := AuthAllow | AuthForbid.

#[export] Instance Authorization_eq_dec : EqDecision Authorization.
Proof. solve_decision. Defined.

Record HttpRequest : Type := mkHttpRequest {
  method : string;
  req_uri : Uri;
  authorization_header : option string;
  peer_cert : option VerifiedClientCert;
  ext_info : option RequestInfo;
  ext_user : option UserInfo
}.

Definition with_info (r : HttpRequest) (i : RequestInfo) : HttpRequest :=
  mkHttpRequest (method r) (req_uri r) (authorization_header r) (peer_cert r) (Some i) (ext_user r).
Definition with_user (r : HttpRequest) (u : UserInfo) : HttpRequest :=
  mkHttpRequest (method r) (req_uri r) (authorization_header r) (peer_cert r) (ext_info r) (Some u).

Section Layers.
Context {Body : Type} (status : Body -> Z).

Record Response : Type := mkResponse {
  answer : result Body ApiError.t;
  resp_info : option RequestInfo;
  resp_user : option UserInfo;
  resp_authorization : option Authorization
}.

Definition refuse (e : ApiError.t) : Response := mkResponse (Err e) None None None.

Definition response_code (r : Response) : Z :=
  match answer r with Ok b => status b | Err e => ApiError.code e end.

Abbreviation Next := (HttpRequest -> Response).

Definition is_always_allowed (path : string) : bool :=
  eqb path "/healthz" || eqb path "/livez" || eqb path "/readyz" || eqb path "/version" ||
  starts_with "/version/" path.

Definition request_info_middleware `{HttpDecode} (req : HttpRequest) (next : Next) : Response :=
  match request_info_parse (method req) (req_uri req) with
  | Ok info =>
      let r := next (with_info req info) in
      mkResponse (answer r) (Some info) (resp_user r) (resp_authorization r)
  | Err e => refuse (RequestInfoError.into_api_error e)
  end.

(** [error_text] is the [Display] of an [AuthnError]. *)
Definition authn_middleware (error_text : AuthnError -> string) (stages : list Authenticator)
    (req : HttpRequest) (next : Next) : Response :=
  let creds := mkCreds (peer_cert req) (bearer_from_headers (authorization_header req)) in
  match authenticate stages creds with
  | Ok user =>
      let r := next (with_user req user) in
      mkResponse (answer r) (resp_info r) (Some user) (resp_authorization r)
  | Err e => refuse (ApiError.Unauthorized (error_text e))
  end.

Definition authorized (r : Response) (a : Authorization) : Response :=
  mkResponse (answer r) (resp_info r) (resp_user r) (Some a).

Definition authz_middleware {A} `{Authorizer A} (authorizer : A) (req : HttpRequest) (next : Next)
  : Response :=
  match ext_info req with
  | None => refuse (RequestInfoError.into_api_error RequestInfoError.Missing)
  | Some info =>
      if is_some_and is_always_allowed (non_resource_url info) then authorized (next req) AuthAllow
      else
        let attrs := for_request (default anonymous (ext_user req)) info in
        match authorize authorizer attrs with
        | Decision.Allow => authorized (next req) AuthAllow
        | Decision.Deny | Decision.NoOpinion =>
            authorized (refuse (ApiError.AuthzForbidden (forbidden_message attrs))) AuthForbid
        end
  end.

(** [build], around the routes. *)
Definition build {A} `{Authorizer A} `{HttpDecode} (error_text : AuthnError -> string) (authorizer : A)
    (stages : list Authenticator) (routes : Next) (req : HttpRequest) : Response :=
  request_info_middleware req (fun req =>
    authn_middleware error_text stages req (fun req => authz_middleware authorizer req routes)).

(** ** The audit layer *)

Record ObjectRef : Type := mkObjectRef {
  or_resource : string;
  or_subresource : option string;
  or_namespace : option string;
  or_name : option string;
  or_api_group : string;
  or_api_version : string
}.

Inductive Stage : Type := ResponseStarted | ResponseComplete.

Record AuditRequest : Type := mkAuditRequest {
  audit_verb : string;
  audit_path : string;
  audit_object : option ObjectRef;
  audit_user : option UserInfo;
  audit_authorization : option Authorization;
  classified : bool;
  audit_code : Z;
  audit_stage : Stage
}.

Definition object_ref (info : RequestInfo) : option ObjectRef :=
  match target info with
  | Coords.Resource c =>
      Some (mkObjectRef (plural c) (coords_subresource c) (coords_namespace c) (coords_name c)
              (group_key c) (version_key c))
  | NonResource _ => None
  end.

(** The response, and the record handed to the log. *)
Definition audit_middleware (req : HttpRequest) (next : Next) : Response * AuditRequest :=
  let response := next req in
  let code := response_code response in
  let info := resp_info response in
  let long_running := (code =? 101) || is_some_and is_watch info in
  (response,
   mkAuditRequest
     (match info with Some i => Coords.verb i | None => to_ascii_lowercase (method req) end)
     (uri_path (req_uri req)) (info ≫= object_ref) (resp_user response) (resp_authorization response)
     (is_some info) code (if long_running then ResponseStarted else ResponseComplete)).

Definition refused (r : AuditRequest) : bool :=
  negb (classified r) || eqb (audit_authorization r) (Some AuthForbid) ||
  (audit_code r =? 401) || (audit_code r =? 403).

End Layers.
