(* ===== verification/AuthzFacts.v ===== *)
(** * What RBAC grants

    A declarative reading of roles and bindings, that the authoriser decides
    exactly it, that a rules review lists exactly what an access review allows,
    and that over the store only writes of the roles and bindings a request
    depends on can change its verdict. *)

From Stdlib Require Import Ascii String.
From stdpp Require Import base tactics option list strings numbers pretty.
From S2P Require Import Prelude Text BTreeMap Json Resource WatchHistory Command Read.
From S2P Require Import PatchApply PatchFacts Ssa SsaFacts Pagination Catalog CatalogMeta CatalogFacts CatalogTheorems.
From S2P Require Import CatalogReads AtRest Coords Auth Authz FrontDoor.

Local Open Scope string_scope.
Local Open Scope Z_scope.

(** ** Strings *)

Lemma eqb_reflect {A} `{EqDecision A} (x y : A) : Bool.reflect (x = y) (eqb x y).
Proof. apply bool_decide_reflect. Qed.

Lemma starts_with_spec p s : starts_with p s = true <-> exists r, s = p +:+ r.
Proof.
  unfold starts_with. destruct (strip_prefix p s) as [r|] eqn:E; simpl.
  - apply strip_prefix_Some in E as ->. split; [by exists r | done].
  - split; [done |]. intros [r Hr]. apply strip_prefix_Some in Hr. congruence.
Qed.

Fixpoint stars (n : nat) : string := match n with O => "" | S n => String "*"%char (stars n) end.

Lemma trim_stars_back_spec s : exists n, s = stars n +:+ trim_stars_back s.
Proof.
  induction s as [|c s IH]; simpl; [by exists O |]. destruct (Ascii.eqb c "*") eqn:E; [| by exists O].
  apply Ascii.eqb_eq in E as ->. destruct IH as [n Hn]. exists (S n). cbn. by rewrite string_app_cons, <- Hn.
Qed.

Lemma string_rev_app s t : String.rev (s +:+ t) = String.rev t +:+ String.rev s.
Proof.
  unfold String.rev. rewrite rev_app_app.
  assert (forall a b, String.rev_app a b = String.rev_app a "" +:+ b) as Hr.
  { induction a as [|c a IH]; intros b; simpl; [done |]. rewrite (IH (String c b)), (IH (String c "")).
    by rewrite string_app_assoc. }
  apply Hr.
Qed.

Lemma stars_snoc n : stars n +:+ "*" = stars (S n).
Proof. induction n as [|n IH]; [done |]. cbn [stars]. by rewrite string_app_cons, IH. Qed.

Lemma rev_stars n : String.rev (stars n) = stars n.
Proof.
  induction n as [|n IH]; [done |]. change (stars (S n)) with ("*" +:+ stars n).
  rewrite string_rev_app, IH. apply stars_snoc.
Qed.

(** A string is its trimmed part and stars. *)
Lemma trim_stars_spec s : exists n, s = trim_stars s +:+ stars n.
Proof.
  destruct (trim_stars_back_spec (String.rev s)) as [n Hn]. exists n. unfold trim_stars.
  apply (f_equal String.rev) in Hn. by rewrite string_rev_rev, string_rev_app, rev_stars in Hn.
Qed.

Lemma trim_stars_back_stars n s : trim_stars_back (stars n +:+ s) = trim_stars_back s.
Proof. by induction n. Qed.

Lemma trim_stars_app s n : trim_stars (s +:+ stars n) = trim_stars s.
Proof. unfold trim_stars. by rewrite string_rev_app, rev_stars, trim_stars_back_stars. Qed.

Lemma ends_with_star_spec s : ends_with_star s = true <-> exists r, s = r +:+ "*".
Proof.
  unfold ends_with_star, strip_suffix. change (String.rev "*") with "*".
  destruct (strip_prefix "*" (String.rev s)) as [r|] eqn:E; simpl.
  - split; [| done]. intros _. apply strip_prefix_Some in E. exists (String.rev r).
    apply (f_equal String.rev) in E. by rewrite string_rev_rev, string_rev_app in E.
  - split; [done |]. intros [r Hr]. subst s. rewrite string_rev_app in E. done.
Qed.

(** ** Patterns *)

(** A pattern of a non-resource rule reaches [url]. *)
Definition url_in (pat url : string) : Prop :=
  pat = "*" \/ pat = url \/ exists pre n rest, pat = pre +:+ stars (S n) /\ url = pre +:+ rest.

Lemma url_matches_spec pat url : non_resource_url_matches pat url = true <-> url_in pat url.
Proof.
  unfold non_resource_url_matches, url_in. rewrite !orb_true_iff, andb_true_iff, !eqb_true, ends_with_star_spec, starts_with_spec.
  split.
  - intros [[? | ?] | [[r ->] [rest ->]]]; [by left | by right; left |]. right. right.
    change "*" with (stars 1). rewrite trim_stars_app.
    destruct (trim_stars_spec r) as [n Hn]. exists (trim_stars r), n, rest. split; [| done].
    rewrite Hn at 1. rewrite string_app_assoc. change (stars 1) with "*". by rewrite stars_snoc.
  - intros [? | [? | (pre & n & rest & -> & ->)]]; [by left; left | by left; right |]. right. split.
    + exists (pre +:+ stars n). by rewrite string_app_assoc, stars_snoc.
    + rewrite trim_stars_app. destruct (trim_stars_spec pre) as [m Hm]. exists (stars m +:+ rest).
      rewrite <- string_app_assoc, <- Hm. done.
Qed.

(** An entry of a rule's resources reaches a resource, or one of its subresources. *)
Definition resource_in (granted resource : string) (sub : option string) : Prop :=
  granted = "*" \/
  match sub with
  | None => granted = resource
  | Some sub => granted = resource +:+ "/" +:+ sub \/ granted = "*/" +:+ sub
  end.

Lemma resource_matches_spec l resource sub :
  resource_matches l resource sub = true <->
  exists g, In g l /\ resource_in g resource (non_empty sub).
Proof.
  unfold resource_matches. rewrite existsb_exists. apply exist_proper. intros g. apply and_iff_compat_l.
  rewrite !orb_true_iff, eqb_true. unfold resource_in, is_combined_key. destruct (non_empty sub) as [s|]; cbn [is_some_and].
  - rewrite !eqb_true, strip_prefix_Some, bind_Some. split.
    + intros [[? | (r & Hr & Hs)] | ?]; [by left | | by right; right]. right. left.
      apply strip_prefix_Some in Hr as ->. apply strip_prefix_Some in Hs as ->. done.
    + intros [? | [-> | ?]]; [by left; left | | by right]. left. right. exists ("/" +:+ s).
      split; by apply strip_prefix_Some.
  - rewrite eqb_true. split; [intros [[|]|]; auto; done | intros [|]; auto].
Qed.

(** ** What roles and bindings mean *)

Definition listed (l : list string) (x : string) : Prop := In "*" l \/ In x l.

Lemma existsb_star l x : existsb (fun v => eqb v "*" || eqb v x) l = true <-> listed l x.
Proof.
  rewrite existsb_exists. unfold listed. setoid_rewrite orb_true_iff. setoid_rewrite eqb_true.
  split; [intros (y & Hy & [-> | ->]); auto | intros [? | ?]; eauto].
Qed.

(** A rule permits a request. *)
Definition permits (rule : PolicyRule) (a : Attributes) : Prop :=
  listed (rule_verbs rule) (attr_verb a) /\
  match attr_url a with
  | Some url => exists pat, In pat (non_resource_urls rule) /\ url_in pat url
  | None =>
      listed (api_groups rule) (attr_group a) /\
      (exists g, In g (rule_resources rule) /\ resource_in g (attr_resource a) (requested_subresource a)) /\
      (resource_names rule = [] \/ exists n, attr_name a = Some n /\ In n (resource_names rule))
  end.

Lemma non_empty_idem sub : non_empty (non_empty sub) = non_empty sub.
Proof. destruct sub as [s|]; simpl; [| done]. destruct (eqb s "") eqn:E; [done |]. simpl. by rewrite E. Qed.

Lemma resource_name_matches_spec l name :
  resource_name_matches l name = true <-> l = [] \/ exists n, name = Some n /\ In n l.
Proof.
  destruct l as [|x l]; [simpl; tauto |]. unfold resource_name_matches. destruct name as [n|].
  - rewrite existsb_exists. setoid_rewrite eqb_true. split.
    + intros (y & Hy & ->). right. eauto.
    + intros [? | (m & [= ->] & Hm)]; [done | eauto].
  - split; [done |]. intros [? | (m & ? & _)]; done.
Qed.

Lemma rule_grants_spec rule a : rule_grants rule a = true <-> permits rule a.
Proof.
  unfold rule_grants, permits, verb_matches, api_group_matches. destruct (attr_url a) as [url|].
  - rewrite andb_true_iff, existsb_star, existsb_exists. by setoid_rewrite url_matches_spec.
  - rewrite !andb_true_iff, !existsb_star, resource_matches_spec, resource_name_matches_spec.
    unfold requested_subresource. rewrite non_empty_idem. tauto.
Qed.

(** A subject of a binding, in namespace [home] if it has one, names a user. *)
Inductive names (user : UserInfo) (home : option string) (s : Subject) : Prop :=
  | NamesUser : subject_kind s = "User" -> subject_name s = username user -> names user home s
  | NamesGroup : subject_kind s = "Group" -> In (subject_name s) (groups user) -> names user home s
  | NamesServiceAccount ns :
      subject_kind s = "ServiceAccount" ->
      default (default "" home) (subject_namespace s) = ns ->
      username user = subject_for ns (subject_name s) -> names user home s.

Lemma subject_matches_spec user home s : subject_matches user home s = true <-> names user home s.
Proof.
  unfold subject_matches.
  destruct (eqb_reflect (subject_kind s) "User") as [Hu|Hu]; [| destruct (eqb_reflect (subject_kind s) "Group") as [Hg|Hg];
    [| destruct (eqb_reflect (subject_kind s) "ServiceAccount") as [Ha|Ha]]].
  - rewrite eqb_true. split; [by apply NamesUser |]. intros []; congruence.
  - rewrite existsb_exists. setoid_rewrite eqb_true. split.
    + intros (g & Hin & ->). by apply NamesGroup.
    + intros []; try congruence. eauto.
  - rewrite eqb_true. split.
    + intros Hn. eapply NamesServiceAccount; [done | done |]. rewrite <- Hn. unfold subject_for.
      by destruct (subject_namespace s).
    + intros [ | | ns _ Hns Hn]; [congruence | congruence |]. rewrite Hn, <- Hns. unfold subject_for.
      by destruct (subject_namespace s).
  - split; [done |]. intros []; congruence.
Qed.

Definition binds (l : list Subject) (user : UserInfo) (home : option string) : Prop :=
  exists s, In s l /\ names user home s.

Lemma subjects_match_spec l user home : subjects_match l user home = true <-> binds l user home.
Proof. unfold subjects_match, binds. rewrite existsb_exists. by setoid_rewrite subject_matches_spec. Qed.

Section Semantics.
Context {E : Type} `{RbacStoreEnv E} (env : E).

(** A reference carries a rule: a cluster role anywhere, a role in the namespace of the binding. *)
Inductive carries (ref : RoleRef) (home : option string) (rule : PolicyRule) : Prop :=
  | CarriesClusterRole cr :
      ref_kind ref = "ClusterRole" -> get_cluster_role env (ref_name ref) = Some cr ->
      In rule (cluster_rules cr) -> carries ref home rule
  | CarriesRole ns r :
      ref_kind ref = "Role" -> home = Some ns -> get_role env ns (ref_name ref) = Some r ->
      In rule (rules r) -> carries ref home rule.

Lemma resolve_rules_spec ref home rule : In rule (resolve_rules env ref home) <-> carries ref home rule.
Proof.
  unfold resolve_rules.
  destruct (eqb_reflect (ref_kind ref) "ClusterRole") as [Hc|Hc];
    [| destruct (eqb_reflect (ref_kind ref) "Role") as [Hr|Hr]].
  - destruct (get_cluster_role env (ref_name ref)) as [cr|] eqn:G; split.
    + by apply CarriesClusterRole.
    + intros []; congruence.
    + done.
    + intros []; congruence.
  - destruct home as [ns|]; [destruct (get_role env ns (ref_name ref)) as [r|] eqn:G |]; split; try done.
    + by apply (CarriesRole _ _ _ ns r).
    + intros []; congruence.
    + intros []; congruence.
    + intros []; congruence.
  - split; [done |]. intros []; congruence.
Qed.

(** An identity holds a rule in a namespace, or cluster-wide. *)
Inductive holds (user : UserInfo) (namespace : option string) (rule : PolicyRule) : Prop :=
  | HoldsClusterWide crb :
      In crb (list_cluster_role_bindings env) -> binds (cluster_subjects crb) user None ->
      carries (cluster_role_ref crb) None rule -> holds user namespace rule
  | HoldsInNamespace ns rb :
      namespace = Some ns -> In rb (list_role_bindings env ns) -> binds (subjects rb) user (Some ns) ->
      carries (role_ref rb) (Some ns) rule -> holds user namespace rule.

Lemma matched_refs_spec user namespace rule :
  (exists r, In r (matched_refs env user namespace) /\ In rule (resolve_rules env r.1 r.2)) <->
  holds user namespace rule.
Proof.
  unfold matched_refs. setoid_rewrite resolve_rules_spec. split.
  - intros (r & Hin & Hc).
    assert (In r (map (fun crb => (cluster_role_ref crb, None))
              (List.filter (fun crb => subjects_match (cluster_subjects crb) user None)
                 (list_cluster_role_bindings env))) \/
            exists ns, namespace = Some ns /\
              In r (map (fun rb => (role_ref rb, Some ns))
                (List.filter (fun rb => subjects_match (subjects rb) user (Some ns)) (list_role_bindings env ns))))
      as [Hr | (ns & Hns & Hr)].
    { destruct namespace as [ns|]; [| by left]. apply in_app_iff in Hin as [? | ?]; [by left | right; eauto]. }
    + apply in_map_iff in Hr as (crb & <- & Hf). apply filter_In in Hf as [? ?%subjects_match_spec].
      by eapply HoldsClusterWide.
    + apply in_map_iff in Hr as (rb & <- & Hf). apply filter_In in Hf as [? ?%subjects_match_spec].
      by eapply HoldsInNamespace.
  - intros [crb Hin Hb%subjects_match_spec Hc | ns rb -> Hin Hb%subjects_match_spec Hc].
    + exists (cluster_role_ref crb, None). split; [| done].
      assert (In (cluster_role_ref crb, @None string) (map (fun crb => (cluster_role_ref crb, None))
        (List.filter (fun crb => subjects_match (cluster_subjects crb) user None) (list_cluster_role_bindings env)))).
      { apply in_map_iff. exists crb. split; [done |]. by apply filter_In. }
      destruct namespace; [apply in_app_iff; by left | done].
    + exists (role_ref rb, Some ns). split; [| done]. apply in_app_iff. right.
      apply in_map_iff. exists rb. split; [done |]. by apply filter_In.
Qed.

(** A request is granted. *)
Inductive granted (a : Attributes) : Prop :=
  | GrantedMaster : In GROUP_MASTERS (groups (attr_user a)) -> granted a
  | GrantedRule rule : holds (attr_user a) (attr_namespace a) rule -> permits rule a -> granted a.

Lemma is_master_spec user : is_master user = true <-> In GROUP_MASTERS (groups user).
Proof.
  unfold is_master. rewrite existsb_exists. setoid_rewrite eqb_true.
  split; [by intros (g & ? & ->) | eauto].
Qed.

Lemma authorize_granted a : rbac_authorize env a = Decision.Allow <-> granted a.
Proof.
  unfold rbac_authorize. destruct (is_master (attr_user a)) eqn:Hm.
  - split; [| done]. intros _. by apply GrantedMaster, is_master_spec.
  - destruct (existsb _ _) eqn:He.
    + split; [| done]. intros _. apply existsb_exists in He as (r & Hr & He).
      apply existsb_exists in He as (rule & Hin & Hg%rule_grants_spec).
      apply (GrantedRule _ rule); [| done]. apply matched_refs_spec. eauto.
    + split; [done |]. intros [Hin | rule Hh Hp].
      * apply is_master_spec in Hin. congruence.
      * apply matched_refs_spec in Hh as (r & Hr & Hin). apply not_true_iff_false in He as [].
        apply existsb_exists. exists r. split; [done |]. apply existsb_exists. exists rule.
        split; [done |]. by apply rule_grants_spec.
Qed.

Lemma authorize_never_denies a : rbac_authorize env a <> Decision.Deny.
Proof. unfold rbac_authorize. by repeat case_match. Qed.

End Semantics.

(** (C14) RBAC decides exactly what roles and bindings mean: a request is allowed
    when its user is a master, or holds, by a binding that names them, a rule
    that permits the request — cluster-wide bindings for any request,
    namespaced ones for requests of their namespace only, a [Role] only from
    the namespace of its binding.  There are no other grounds, and RBAC never
    denies outright. *)
Theorem authorize_exact {E : Type} `{RbacStoreEnv E} (env : E) (a : Attributes) :
  (rbac_authorize env a = Decision.Allow <-> granted env a) /\ rbac_authorize env a <> Decision.Deny.
Proof. split; [apply authorize_granted | apply authorize_never_denies]. Qed.

(** ** What a rules review lists

    [SelfSubjectRulesReview] lists the rules an identity holds in a namespace;
    [SelfSubjectAccessReview] decides one request.  Read by a client the way RBAC
    reads rules, the list grants what the decision allows, for rules that target
    resources or URLs but not both; the resources of a rule that targets both are
    left out. *)

(** ** Reading the lists *)

Definition as_rule (r : ResourceRule) : PolicyRule :=
  mkPolicyRule (rr_api_groups r) [] (rr_resource_names r) (rr_resources r) (rr_verbs r).
Definition as_url_rule (r : NonResourceRule) : PolicyRule := mkPolicyRule [] (nrr_urls r) [] [] (nrr_verbs r).

(** The list, to a client, grants a request. *)
Definition lists (st : SubjectRulesReviewStatus) (a : Attributes) : Prop :=
  (exists r, In r (status_resource_rules st) /\ permits (as_rule r) a) \/
  (exists r, In r (status_non_resource_rules st) /\ permits (as_url_rule r) a).

Definition targets_resources (rule : PolicyRule) : bool :=
  match non_resource_urls rule with [] => true | _ => false end.

Lemma targets_spec rule : targets_resources rule = true <-> non_resource_urls rule = [].
Proof. unfold targets_resources. by destruct (non_resource_urls rule). Qed.

(** A rule over resources or over URLs, not both. *)
Definition pure_rule (rule : PolicyRule) : Prop := non_resource_urls rule = [] \/ rule_resources rule = [].

(** ** The enumeration *)

Lemma add_rules_spec l out :
  fold_left add_rule l out =
  mkEffectiveRules (resource_rules out ++ List.filter targets_resources l)%list
    (non_resource_rules out ++ List.filter (fun r => negb (targets_resources r)) l)%list (incomplete out).
Proof.
  revert out. induction l as [|rule l IH]; intros out; simpl.
  - rewrite !app_nil_r. by destruct out.
  - rewrite IH. unfold add_rule. destruct (targets_resources rule) eqn:Ht; unfold targets_resources in Ht;
      destruct (non_resource_urls rule); try done; simpl; by rewrite <- app_assoc.
Qed.

Section Enumeration.
Context {E : Type} `{RbacStoreEnv E} (env : E).

Abbreviation resolved := (fun r : RoleRef * option string => resolve_rules env r.1 r.2).

Lemma add_ref_spec out r :
  add_ref env out r =
  mkEffectiveRules (resource_rules out ++ List.filter targets_resources (resolved r))%list
    (non_resource_rules out ++ List.filter (fun r => negb (targets_resources r)) (resolved r))%list
    (incomplete out || match resolved r with [] => true | _ => false end).
Proof.
  unfold add_ref. destruct (resolve_rules env r.1 r.2) as [|rule l] eqn:Er.
  - simpl. by rewrite !app_nil_r, orb_true_r.
  - rewrite add_rules_spec. by rewrite orb_false_r.
Qed.

Lemma add_refs_spec refs out :
  fold_left (add_ref env) refs out =
  mkEffectiveRules (resource_rules out ++ List.filter targets_resources (flat_map resolved refs))%list
    (non_resource_rules out ++ List.filter (fun r => negb (targets_resources r)) (flat_map resolved refs))%list
    (incomplete out || existsb (fun r => match resolved r with [] => true | _ => false end) refs).
Proof.
  revert out. induction refs as [|r refs IH]; intros out.
  - simpl. rewrite !app_nil_r, orb_false_r. by destruct out.
  - cbn [fold_left flat_map existsb]. rewrite IH, add_ref_spec. simpl.
    by rewrite !List.filter_app, <- !app_assoc, orb_assoc.
Qed.

Lemma rules_for_spec user ns rule :
  is_master user = false ->
  (In rule (resource_rules (rbac_rules_for env user ns)) <->
   holds env user ns rule /\ non_resource_urls rule = []) /\
  (In rule (non_resource_rules (rbac_rules_for env user ns)) <->
   holds env user ns rule /\ non_resource_urls rule <> []).
Proof.
  intros Hm. unfold rbac_rules_for. rewrite Hm, add_refs_spec. simpl.
  rewrite !filter_In, in_flat_map, matched_refs_spec, negb_true_iff, <- not_true_iff_false, targets_spec. tauto.
Qed.

Lemma master_lists ns a user :
  is_master user = true -> lists (self_subject_rules_review (mkRbac env) user ns) a.
Proof.
  intros Hm. unfold self_subject_rules_review. cbn [rules_for rbac_authorizer rbac_env].
  unfold rbac_rules_for. rewrite Hm. unfold lists. simpl. destruct (attr_url a) as [url|] eqn:Hu.
  - right. exists (mkNonResourceRule ["*"] ["*"]). split; [by left |]. unfold permits. rewrite Hu.
    split; [by left; left |]. exists "*". split; [by left | by left].
  - left. exists (mkResourceRule ["*"] ["*"] ["*"] []). split; [by left |]. unfold permits. rewrite Hu.
    split; [by left; left |]. split; [by left; left |]. split; [| by left].
    exists "*". split; [by left | by left].
Qed.

Lemma permits_resources rule a :
  non_resource_urls rule = [] ->
  permits (as_rule (mkResourceRule (rule_verbs rule) (api_groups rule) (rule_resources rule) (resource_names rule))) a
  <-> permits rule a.
Proof. destruct rule. simpl. by intros ->. Qed.

Lemma permits_urls rule a :
  rule_resources rule = [] ->
  permits (as_url_rule (mkNonResourceRule (rule_verbs rule) (non_resource_urls rule))) a <-> permits rule a.
Proof.
  destruct rule as [gs us ns rs vs]. simpl. intros ->. unfold permits, as_url_rule. simpl.
  destruct (attr_url a); [done |]. split.
  - intros (_ & _ & (g & [] & _) & _).
  - intros (_ & _ & (g & [] & _) & _).
Qed.

(** Without masters, a list grants what a held rule permits. *)
Lemma lists_held user ns a :
  is_master user = false -> (forall rule, holds env user ns rule -> pure_rule rule) ->
  lists (self_subject_rules_review (mkRbac env) user ns) a <->
  exists rule, holds env user ns rule /\ permits rule a.
Proof.
  intros Hm Hpure. unfold lists, self_subject_rules_review. cbn [rules_for rbac_authorizer rbac_env].
  cbn [rules_status status_resource_rules status_non_resource_rules]. split.
  - intros [(r & Hr & Hp) | (r & Hr & Hp)]; apply in_map_iff in Hr as (rule & <- & Hin); exists rule.
    + apply (proj1 (rules_for_spec _ _ _ Hm)) in Hin as [Hh Hu]. split; [done |].
      by apply (permits_resources _ _ Hu).
    + apply (proj2 (rules_for_spec _ _ _ Hm)) in Hin as [Hh Hu]. split; [done |].
      apply permits_urls; [| done]. by destruct (Hpure _ Hh).
  - intros (rule & Hh & Hp). destruct (targets_resources rule) eqn:Ht.
    + apply targets_spec in Ht. left. eexists. split; [| by apply (permits_resources _ _ Ht), Hp].
      apply in_map_iff. exists rule. split; [done |]. by apply rules_for_spec.
    + assert (non_resource_urls rule <> []) as Hu by (rewrite <- targets_spec; congruence).
      right. eexists. split.
      * apply in_map_iff. exists rule. split; [done |]. by apply rules_for_spec.
      * apply permits_urls; [| done]. by destruct (Hpure _ Hh).
Qed.

End Enumeration.

(** The two self-reviews agree: when every rule a caller holds in a namespace
    targets resources or URLs but not both, the rules review lists a rule that
    grants a request exactly when the access review says the request is
    allowed. *)
Theorem rules_review_exact {E : Type} `{RbacStoreEnv E} (env : E) (caller : UserInfo)
    (spec : SelfSubjectAccessReviewSpec) :
  let a := attributes_from_spec caller (self_resource spec) (self_non_resource spec) in
  (forall rule, holds env caller (attr_namespace a) rule -> pure_rule rule) ->
  allowed (self_subject_access_review (mkRbac env) caller spec) = true <->
  lists (self_subject_rules_review (mkRbac env) caller (attr_namespace a)) a.
Proof.
  intros a Hpure. unfold self_subject_access_review. fold a.
  assert (attr_user a = caller) as Hu by (unfold a, attributes_from_spec; by repeat case_match).
  trans (granted env a).
  { rewrite <- authorize_granted. cbn [authorize rbac_authorizer rbac_env].
    by destruct (rbac_authorize env a). }
  destruct (is_master caller) eqn:Hm.
  - split; intros _; [by apply master_lists |]. apply GrantedMaster. rewrite Hu. by apply is_master_spec.
  - rewrite lists_held by done. split.
    + intros [Hin | rule Hh Hp]; [| rewrite Hu in Hh; eauto]. rewrite Hu in Hin. apply is_master_spec in Hin. congruence.
    + intros (rule & Hh & Hp). apply (GrantedRule _ _ rule); [by rewrite Hu | done].
Qed.

(** A rule over both has its resources left out of the list, which does not
    say it is incomplete, though requests for them are allowed. *)
Theorem mixed_rule_hidden {E : Type} `{RbacStoreEnv E} (env : E) (caller : UserInfo) (ns : option string)
    (rule : PolicyRule) (crb : ClusterRoleBinding) (cr : ClusterRole) (a : Attributes) :
  is_master caller = false ->
  list_cluster_role_bindings env = [crb] -> (forall ns, list_role_bindings env ns = []) ->
  binds (cluster_subjects crb) caller None -> ref_kind (cluster_role_ref crb) = "ClusterRole" ->
  get_cluster_role env (ref_name (cluster_role_ref crb)) = Some cr -> cluster_rules cr = [rule] ->
  non_resource_urls rule <> [] -> attr_url a = None -> attr_user a = caller -> permits rule a ->
  rbac_authorize env a = Decision.Allow /\
  ~ lists (self_subject_rules_review (mkRbac env) caller ns) a /\
  status_incomplete (self_subject_rules_review (mkRbac env) caller ns) = false.
Proof.
  intros Hm Hcrb Hrb Hb Hk Hcr Hrules Hurls Hurl Hu Hp.
  assert (matched_refs env caller ns = [(cluster_role_ref crb, None)]) as Hrefs.
  { unfold matched_refs. rewrite Hcrb. simpl. rewrite (proj2 (subjects_match_spec _ _ _) Hb). simpl.
    destruct ns as [ns|]; [| done]. by rewrite Hrb. }
  assert (resolve_rules env (cluster_role_ref crb) None = [rule]) as Hres.
  { unfold resolve_rules. rewrite (proj2 (eqb_true _ _) Hk), Hcr. done. }
  split; [| split].
  - apply authorize_granted. apply (GrantedRule _ _ rule); [| done]. rewrite Hu.
    apply (HoldsClusterWide _ _ _ _ crb); [rewrite Hcrb; by left | done |].
    apply resolve_rules_spec. rewrite Hres. by left.
  - unfold lists, self_subject_rules_review. cbn [rules_for rbac_authorizer rbac_env].
    unfold rbac_rules_for. rewrite Hm, Hrefs, add_refs_spec. simpl. rewrite Hres. simpl.
    assert (targets_resources rule = false) as -> by (apply not_true_iff_false; by rewrite targets_spec).
    simpl. intros [(r & [] & _) | (r & [<- | []] & Hr)]. unfold permits in Hr. rewrite Hurl in Hr.
    by destruct Hr as (_ & _ & (g & [] & _) & _).
  - unfold self_subject_rules_review. cbn [rules_for rbac_authorizer rbac_env].
    unfold rbac_rules_for. rewrite Hm, Hrefs, add_refs_spec. simpl. by rewrite Hres.
Qed.

(** ** Samples *)

(** An environment in memory. *)
Record MemRbac : Type := mkMemRbac {
  mem_cluster_bindings : list ClusterRoleBinding;
  mem_bindings : list (string * RoleBinding);
  mem_cluster_roles : list (string * ClusterRole);
  mem_roles : list ((string * string) * Role)
}.

#[export] Instance mem_rbac : RbacStoreEnv MemRbac := {
  list_cluster_role_bindings e := mem_cluster_bindings e;
  list_role_bindings e ns := map snd (List.filter (fun b => eqb b.1 ns) (mem_bindings e));
  get_cluster_role e name := snd <$> List.find (fun r => eqb r.1 name) (mem_cluster_roles e);
  get_role e ns name := snd <$> List.find (fun r => eqb r.1 (ns, name)) (mem_roles e)
}.

Definition alice : UserInfo := mkUserInfo "alice" "" [GROUP_AUTHENTICATED] [].

Definition discovery : PolicyRule := mkPolicyRule [] ["/healthz"; "/version"; "/api*"] [] [] ["get"].
Definition edit_pods : PolicyRule := mkPolicyRule [""] [] [] ["pods"; "pods/log"] ["get"; "list"; "delete"].
Definition mixed : PolicyRule := mkPolicyRule [""] ["/metrics"] [] ["nodes"] ["get"].

(** Discovery for every authenticated user, pods of [dev] for [alice]. *)
Definition small_cluster : MemRbac :=
  mkMemRbac
    [mkClusterRoleBinding (mkRoleRef RBAC_GROUP "ClusterRole" "discovery")
       [mkSubject None "Group" GROUP_AUTHENTICATED None]]
    [("dev", mkRoleBinding (mkRoleRef RBAC_GROUP "Role" "editor") [mkSubject None "User" "alice" None])]
    [("discovery", mkClusterRole [discovery])]
    [(("dev", "editor"), mkRole [edit_pods])].

Definition mixed_binding : ClusterRoleBinding :=
  mkClusterRoleBinding (mkRoleRef RBAC_GROUP "ClusterRole" "mixed")
    [mkSubject None "Group" GROUP_AUTHENTICATED None].
Definition mixed_cluster : MemRbac :=
  mkMemRbac [mixed_binding] [] [("mixed", mkClusterRole [mixed])] [].

Definition get_node : Attributes := mkAttributes alice "get" "" "v1" "nodes" None None (Some "n0") None.
Definition delete_dev_pod : SelfSubjectAccessReviewSpec :=
  mkSelfSarSpec (Some (mkResourceAttributes (Some "dev") (Some "delete") (Some "") (Some "v1") (Some "pods") None
                         (Some "web"))) None.

Definition pure_ruleb (rule : PolicyRule) : bool :=
  match non_resource_urls rule, rule_resources rule with _ :: _, _ :: _ => false | _, _ => true end.

Lemma pure_holds {E : Type} `{RbacStoreEnv E} (env : E) user ns rule :
  forallb (fun r => forallb pure_ruleb (resolve_rules env r.1 r.2)) (matched_refs env user ns) = true ->
  holds env user ns rule -> pure_rule rule.
Proof.
  intros Hb (r & Hr & Hin)%matched_refs_spec. rewrite forallb_forall in Hb. specialize (Hb _ Hr).
  rewrite forallb_forall in Hb. specialize (Hb _ Hin). unfold pure_ruleb in Hb. unfold pure_rule.
  destruct (non_resource_urls rule), (rule_resources rule); auto; done.
Qed.

Lemma rules_review_exact_witness :
  lists (self_subject_rules_review (mkRbac small_cluster) alice (Some "dev"))
    (attributes_from_spec alice (self_resource delete_dev_pod) None).
Proof.
  apply (rules_review_exact small_cluster alice delete_dev_pod).
  - intros rule. apply pure_holds. vm_compute. reflexivity.
  - vm_compute. reflexivity.
Defined.

Lemma mixed_rule_hidden_witness :
  rbac_authorize mixed_cluster get_node = Decision.Allow /\
  ~ lists (self_subject_rules_review (mkRbac mixed_cluster) alice None) get_node /\
  status_incomplete (self_subject_rules_review (mkRbac mixed_cluster) alice None) = false.
Proof.
  apply (mixed_rule_hidden mixed_cluster alice None mixed mixed_binding (mkClusterRole [mixed]));
    try (vm_compute; reflexivity); try done.
  - apply subjects_match_spec. vm_compute. reflexivity.
  - apply rule_grants_spec. vm_compute. reflexivity.
Defined.

(** ** Permissions over the replicated store

    The authoriser reads the roles and bindings of the catalog.  Which keys a
    verdict depends on, and that a run of the log over other keys leaves it as
    it was. *)

(** The keys that decide requests of a namespace, or cluster-wide ones. *)
Definition rbac_key (ns : option string) (k : ResourceKey) : bool :=
  eqb (group k) RBAC_GROUP && eqb (version k) RBAC_VERSION &&
  (eqb (kind k) "ClusterRole" || eqb (kind k) "ClusterRoleBinding" ||
   ((eqb (kind k) "Role" || eqb (kind k) "RoleBinding") &&
    is_some_and (fun n => eqb (namespace k) (Some n)) ns)).

Lemma existsb_ext_in {A} (f g : A -> bool) l : (forall x, In x l -> f x = g x) -> existsb f l = existsb g l.
Proof.
  induction l as [|x l IH]; intros Hfg; simpl; [done |]. rewrite Hfg by (by left). f_equal.
  apply IH. intros y Hy. apply Hfg. by right.
Qed.

(** Two catalogs hold the same objects at the keys selected. *)
Definition agree_on (p : ResourceKey -> bool) (c d : ResourceCatalog) : Prop :=
  forall k, p k = true -> bt_get k (resources c) = bt_get k (resources d).

#[export] Instance agree_on_equiv p : Equivalence (agree_on p).
Proof. split; [by intros c | by intros c d Hcd k Hk; symmetry; apply Hcd |].
  intros c d e Hcd Hde k Hk. by rewrite Hcd, Hde. Qed.

Lemma agree_on_scope p c d s :
  bt_sorted (resources c) -> bt_sorted (resources d) -> agree_on p c d ->
  (forall k, contains s k = true -> p k = true) ->
  (list_at_revision c s).1 = (list_at_revision d s).1.
Proof.
  intros Hc Hd Ha Hp. unfold list_at_revision. simpl. f_equal. rewrite !run_of_scope.
  apply bt_ext; [by apply bt_filter_sorted | by apply bt_filter_sorted |].
  intros k. rewrite !(bt_get_filter (contains s)) by done. destruct (contains s k) eqn:E; auto.
Qed.

Section Frame.
Context `{RbacSerde}.

Lemma contains_rbac kind ns k :
  contains (mkListScope RBAC_GROUP RBAC_VERSION kind ns) k = true ->
  group k = RBAC_GROUP /\ version k = RBAC_VERSION /\ Resource.kind k = kind /\
  (forall n, ns = Some n -> namespace k = Some n).
Proof.
  unfold contains. simpl. rewrite !andb_true_iff, !eqb_true. intros (((? & ?) & ?) & Hn).
  repeat split; try done. intros n ->. cbn [is_none_or] in Hn. by apply (proj1 (eqb_true _ _)) in Hn.
Qed.

(** The instance over the store reads only those keys. *)
Lemma matched_refs_frame c d user ns :
  bt_sorted (resources c) -> bt_sorted (resources d) -> agree_on (rbac_key ns) c d ->
  matched_refs c user ns = matched_refs d user ns.
Proof.
  intros Hc Hd Ha. unfold matched_refs, list_cluster_role_bindings, list_role_bindings, store_rbac_env, store_list.
  assert (forall n, ns = Some n ->
    (list_at_revision c (mkListScope RBAC_GROUP RBAC_VERSION "RoleBinding" (Some n))).1 =
    (list_at_revision d (mkListScope RBAC_GROUP RBAC_VERSION "RoleBinding" (Some n))).1) as Hrb.
  { intros n ->. eapply agree_on_scope; [done | done | exact Ha |]. intros k Hk.
    apply contains_rbac in Hk as (Hg & Hv & Hki & Hn). specialize (Hn n eq_refl).
    unfold rbac_key. rewrite Hg, Hv, Hki, Hn. simpl. by rewrite eqb_refl. }
  rewrite (agree_on_scope (rbac_key ns) c d _ Hc Hd Ha); [destruct ns as [n|]; [by rewrite (Hrb n) | done] |].
  intros k Hk. apply contains_rbac in Hk as (Hg & Hv & Hki & _). unfold rbac_key. by rewrite Hg, Hv, Hki.
Qed.

Lemma resolve_rules_frame c d ref home ns :
  agree_on (rbac_key ns) c d -> (forall n, home = Some n -> ns = Some n) ->
  resolve_rules c ref home = resolve_rules d ref home.
Proof.
  intros Ha Hh. unfold resolve_rules, get_cluster_role, get_role, store_rbac_env, get.
  destruct (eqb (ref_kind ref) "ClusterRole"); [by rewrite Ha |].
  destruct (eqb (ref_kind ref) "Role"); [| done]. destruct home as [n|]; [| done].
  rewrite (Hh n eq_refl) in Ha. rewrite Ha; [done |]. unfold rbac_key, namespaced. simpl. by rewrite eqb_refl.
Qed.

Lemma matched_refs_home {E} `{RbacStoreEnv E} (env : E) user ns r n :
  In r (matched_refs env user ns) -> r.2 = Some n -> ns = Some n.
Proof.
  unfold matched_refs. intros Hin Hn. destruct ns as [m|]; [apply in_app_iff in Hin as [Hin | Hin] |];
    apply in_map_iff in Hin as (b & <- & _); simpl in Hn; congruence.
Qed.

Lemma authorize_frame c d a :
  bt_sorted (resources c) -> bt_sorted (resources d) -> agree_on (rbac_key (attr_namespace a)) c d ->
  rbac_authorize c a = rbac_authorize d a.
Proof.
  intros Hc Hd Ha. unfold rbac_authorize. rewrite (matched_refs_frame c d) by done.
  destruct (is_master _); [done |]. erewrite existsb_ext_in; [reflexivity |]. intros r Hr. simpl.
  by rewrite (resolve_rules_frame c d r.1 r.2 (attr_namespace a) Ha) 
    by (intros n; by apply (matched_refs_home d (attr_user a))).
Qed.

End Frame.

(** ** Runs of the log *)

(** The entries name no key selected. *)
Definition spares (p : ResourceKey -> bool) (entries : list LogEntry) : bool :=
  forallb (fun e : LogEntry => forallb (fun k => negb (p k)) (ResourceCommand.keys (command e.1.1))) entries.

Section RunFrame.
Context `{SerdeJsonLaws} `{PatchSchemaEnv} `{OpDecoderLaws} `{Blake3} `{ErrorText}.

Lemma apply_logged_keys c log e term index :
  catalog_ok c log -> wf_command (command e) = true ->
  Forall (fun ch => In (key ch) (ResourceCommand.keys (command e))) (changes (apply_logged c e term index).1).
Proof.
  intros Hok Hw. unfold apply_logged, apply_under.
  destruct (unreadable_touched_by c (command e)) as [[k f]|]; [constructor |].
  pose proof (apply_command_performs c (command e) (OnIdentical.under (semantics e)) (next_revision (history c))
    (ok_sorted _ _ Hok) (ok_values _ _ Hok) Hw) as Hp.
  destruct (apply_command _ _ _ _) as [o c1]. by destruct Hp as [[_ _ Hks] _].
Qed.

Lemma run_spares p entries c log :
  catalog_ok c log -> wf_entries entries = true ->
  revision_of c + Z.of_nat (length entries) <= Word.u64_max -> spares p entries = true ->
  Forall (fun ch => p (key ch) = false) (run c entries).1.
Proof.
  revert c log. induction entries as [|[[e t] i] entries IH]; intros c log Hok Hw Hroom Hs; [constructor |].
  cbn [run]. cbn [wf_entries spares forallb fst] in Hw, Hs.
  apply andb_true_iff in Hw as [He Hw], Hs as [Hk Hs]. cbn [length] in Hroom.
  pose proof (apply_logged_keys c log e t i Hok He) as Hkeys.
  pose proof (apply_logged_advances c log e t i Hok He) as Ha.
  destruct (apply_logged c e t i) as [o c1]. cbn [fst snd] in *.
  destruct (advances_head _ _ _ _ Hok Ha ltac:(lia)) as [Hh1 _].
  assert (revision_of c1 <= revision_of c + 1) as Hle by (case_match; lia).
  specialize (IH c1 _ (advances_ok _ _ _ _ Hok Ha ltac:(lia)) Hw ltac:(lia) Hs).
  destruct (run c1 entries) as [chs c2]. apply Forall_app. split; [| done].
  rewrite forallb_forall in Hk. eapply Forall_weaken; [exact Hkeys |]. intros ch Hin. by apply negb_true_iff, Hk.
Qed.

Lemma run_agrees p entries c log :
  catalog_ok c log -> wf_entries entries = true ->
  revision_of c + Z.of_nat (length entries) <= Word.u64_max -> spares p entries = true ->
  agree_on p c (run c entries).2.
Proof.
  intros Hok Hw Hroom Hs k Hk. pose proof (run_spares p entries c log Hok Hw Hroom Hs) as Hsp.
  destruct (run_correct entries c log Hok Hw Hroom) as [_ Hres _ _ _ _ _].
  rewrite Hres, replay_get by apply Hok. destruct (last (on_key k _)) as [ch|] eqn:El; [| done].
  destruct (last_on_key_In _ _ _ El) as [Hin Hkey]. rewrite List.Forall_forall in Hsp.
  specialize (Hsp _ Hin). congruence.
Qed.

(** Nothing changes who may do what except writes of roles and bindings: a run
    of the log, however long, whose commands name no cluster role, no cluster
    binding and no role or binding of a request's namespace leaves the verdict
    of that request as it was, whoever asks. *)
Theorem permissions_framed `{RbacSerde} (c : ResourceCatalog) (log : list Change) (entries : list LogEntry)
    (a : Attributes) :
  catalog_ok c log -> wf_entries entries = true ->
  revision_of c + Z.of_nat (length entries) <= Word.u64_max ->
  spares (rbac_key (attr_namespace a)) entries = true ->
  rbac_authorize (run c entries).2 a = rbac_authorize c a.
Proof.
  intros Hok Hw Hroom Hs. symmetry. apply authorize_frame.
  - apply Hok.
  - apply (run_correct entries c log Hok Hw Hroom).
  - by eapply run_agrees.
Qed.

End RunFrame.

(** ** Samples *)

(** A decoder that reads every role as [edit_pods] and every binding as [alice]'s. *)
Definition sample_rbac : RbacSerde := {|
  role_of _ := Some (mkRole [edit_pods]);
  cluster_role_of _ := None;
  role_binding_of _ :=
    Some (mkRoleBinding (mkRoleRef RBAC_GROUP "Role" "editor") [mkSubject None "User" "alice" None]);
  cluster_role_binding_of _ := None
|}.

#[local] Existing Instance numbered.
#[local] Existing Instance numbered_laws.
#[local] Existing Instance sample_env.
#[local] Existing Instance sample_ops.
#[local] Existing Instance sample_ops_laws.
#[local] Existing Instance zero_blake3.
#[local] Existing Instance zero_blake3_laws.
#[local] Existing Instance sample_text.
#[local] Existing Instance sample_rbac.

Definition grant_alice : list LogEntry :=
  [entry (ResourceCommand.put (namespaced RBAC_GROUP RBAC_VERSION "Role" "dev" "editor") (jobj []) Reason.Operator) 2;
   entry (ResourceCommand.put (namespaced RBAC_GROUP RBAC_VERSION "RoleBinding" "dev" "alice") (jobj [])
            Reason.Operator) 3].

(** The catalog of a cluster that granted it. *)
Definition granting : ResourceCatalog := (run stored grant_alice).2.

Definition delete_web : Attributes :=
  mkAttributes alice "delete" "" "v1" "pods" None (Some "dev") (Some "web") None.

Lemma permissions_framed_witness :
  rbac_authorize (run granting later).2 delete_web = Decision.Allow /\
  rbac_authorize stored delete_web = Decision.NoOpinion.
Proof.
  split; [| vm_compute; reflexivity].
  rewrite (permissions_framed granting _ later delete_web
    (run_ok _ _ _ _ (run_correct grant_alice stored _ stored_ok eq_refl ltac:(vm_compute; discriminate)))
    eq_refl ltac:(vm_compute; discriminate) eq_refl).
  vm_compute. reflexivity.
Defined.
