(* ===== verification/FrontDoorFacts.v ===== *)
(** * Which requests reach a handler

    The layers of [FrontDoor] composed: the routes are called on exactly the
    requests that are classified, identified and permitted, with exactly the
    classification and identity that were decided; every other request is
    refused without them; and the audit record says which. *)

From Stdlib Require Import Ascii String.
From stdpp Require Import base tactics option list strings numbers pretty.
From S2P Require Import Prelude Text BTreeMap Json Resource WatchHistory Command Read.
From S2P Require Import Pagination Catalog AtRest ApiErrors Coords Auth Authz FrontDoor AuthzFacts.

Local Open Scope string_scope.
Local Open Scope Z_scope.

(** A health or version path, open to everyone. *)
Definition probe (info : RequestInfo) : Prop :=
  exists path, target info = NonResource path /\
    (In path ["/healthz"; "/livez"; "/readyz"; "/version"] \/ exists rest, path = "/version/" +:+ rest).

Lemma always_allowed_probe info : is_some_and is_always_allowed (non_resource_url info) = true <-> probe info.
Proof.
  unfold probe, non_resource_url. destruct (target info) as [c|path]; cbn [is_some_and].
  - split; [done |]. by intros (path & ? & _).
  - unfold is_always_allowed. rewrite !orb_true_iff, !eqb_true, starts_with_spec. split.
    + intros Hp. exists path. split; [done |]. simpl. intuition.
    + intros (path' & [= <-] & Hp). simpl in Hp. intuition.
Qed.

(** The credentials of a request. *)
Definition creds_of (req : HttpRequest) : RequestCreds :=
  mkCreds (peer_cert req) (bearer_from_headers (authorization_header req)).

Section Door.
Context `{SerdeJson} `{ClaimsSerde} `{Ed25519} `{Base64Url} `{TokenText} `{HttpDecode}.
Context {E : Type} `{RbacStoreEnv E} {Body : Type} (status : Body -> Z).
Context (env : E) (error_text : AuthnError -> string).
Context (admin_token : option string) (key : option SaVerifier) (now : Z).

(** The server, around its routes. *)
Definition door (routes : HttpRequest -> Response) (req : HttpRequest) : Response (Body := Body) :=
  build error_text (mkRbac env) (bootstrap admin_token key now) routes req.

(** A request is let in, as [info] and [user]. *)
Record let_in (req : HttpRequest) (info : RequestInfo) (user : UserInfo) : Prop := {
  in_info : request_info_parse (method req) (req_uri req) = Ok info;
  in_user : identified admin_token key now (creds_of req) user;
  in_right : probe info \/ granted env (for_request user info)
}.

Definition turned_away (req : HttpRequest) : Prop := forall info user, ~ let_in req info user.

(** What a response to a request that is let in is. *)
Definition passed (req : HttpRequest) (info : RequestInfo) (user : UserInfo) (r routed : Response (Body := Body))
  : Prop :=
  r = mkResponse (answer routed) (Some info) (Some user) (Some AuthAllow).

Lemma authz_open routes req info user :
  authz_middleware (mkRbac env) (with_user (with_info req info) user) routes =
  if is_some_and is_always_allowed (non_resource_url info)
  then authorized (routes (with_user (with_info req info) user)) AuthAllow
  else
    match rbac_authorize env (for_request user info) with
    | Decision.Allow => authorized (routes (with_user (with_info req info) user)) AuthAllow
    | _ => authorized (refuse (ApiError.AuthzForbidden (forbidden_message (for_request user info)))) AuthForbid
           : Response (Body := Body)
    end.
Proof. unfold authz_middleware. simpl. case_match; [done |]. by destruct (rbac_authorize env _). Qed.

Lemma door_passes routes req info user :
  let_in req info user -> passed req info user (door routes req) (routes (with_user (with_info req info) user)).
Proof.
  intros [Hi Hu Hr]. unfold passed, door, build, request_info_middleware. rewrite Hi. unfold authn_middleware.
  cbn [peer_cert authorization_header with_info]. apply authenticate_identified in Hu. unfold creds_of in Hu.
  rewrite Hu, authz_open.
  destruct (is_some_and is_always_allowed (non_resource_url info)) eqn:Ha; [done |].
  destruct Hr as [Hp%always_allowed_probe | Hg]; [congruence |].
  apply authorize_granted in Hg. by rewrite Hg.
Qed.

(** The refusal a request meets. *)
Inductive meets (req : HttpRequest) : Response (Body := Body) -> Prop :=
  | MeetsParser e why :
      request_info_parse (method req) (req_uri req) = Err e -> RequestInfoError.into_api_error e = ApiError.BadRequest why ->
      meets req (refuse (ApiError.BadRequest why))
  | MeetsAuthn info e :
      request_info_parse (method req) (req_uri req) = Ok info ->
      authenticate (bootstrap admin_token key now) (creds_of req) = Err e ->
      meets req (mkResponse (Err (ApiError.Unauthorized (error_text e))) (Some info) None None)
  | MeetsAuthz info user :
      request_info_parse (method req) (req_uri req) = Ok info -> identified admin_token key now (creds_of req) user ->
      ~ probe info -> ~ granted env (for_request user info) ->
      meets req (mkResponse (Err (ApiError.AuthzForbidden (forbidden_message (for_request user info))))
                   (Some info) (Some user) (Some AuthForbid)).

Lemma parse_never_missing m u e :
  request_info_parse m u = Err e -> exists why, RequestInfoError.into_api_error e = ApiError.BadRequest why.
Proof.
  unfold request_info_parse, watch_requested. intros He.
  assert (e <> RequestInfoError.Missing) as Hne.
  { intros ->. repeat case_match; cbn in *; simplify_eq; try done. }
  destruct e; [done | by eexists | by eexists].
Qed.

Lemma door_cases req :
  (exists info user, let_in req info user) \/ exists r, meets req r /\ forall routes, door routes req = r.
Proof.
  destruct (request_info_parse (method req) (req_uri req)) as [info|e] eqn:Hi.
  2: { right. destruct (parse_never_missing _ _ _ Hi) as [why Hw]. eexists. split; [by eapply MeetsParser |].
       intros routes. unfold door, build, request_info_middleware. by rewrite Hi, Hw. }
  destruct (authenticate (bootstrap admin_token key now) (creds_of req)) as [user|e] eqn:Hu.
  2: { right. eexists. split; [by eapply MeetsAuthn |]. intros routes. unfold door, build, request_info_middleware.
       rewrite Hi. unfold authn_middleware. cbn [peer_cert authorization_header with_info]. unfold creds_of in Hu.
       by rewrite Hu. }
  pose proof Hu as Hid. apply authenticate_identified in Hid.
  destruct (is_some_and is_always_allowed (non_resource_url info)) eqn:Ha.
  { left. exists info, user. split; [done | done |]. left. by apply always_allowed_probe. }
  destruct (decide (rbac_authorize env (for_request user info) = Decision.Allow)) as [Hg | Hg].
  { left. exists info, user. split; [done | done |]. right. by apply authorize_granted. }
  right. eexists. split.
  { eapply MeetsAuthz; [done | done | |]; [rewrite <- always_allowed_probe; congruence | by rewrite <- authorize_granted]. }
  intros routes. unfold door, build, request_info_middleware. rewrite Hi. unfold authn_middleware.
  cbn [peer_cert authorization_header with_info]. unfold creds_of in Hu. rewrite Hu, authz_open, Ha.
  by destruct (rbac_authorize env (for_request user info)).
Qed.

Lemma identified_unique creds u v :
  identified admin_token key now creds u -> identified admin_token key now creds v -> u = v.
Proof. intros Hu%authenticate_identified Hv%authenticate_identified. congruence. Qed.

Lemma meets_not_in req r info user : meets req r -> ~ let_in req info user.
Proof.
  intros Hm [Hi Hu Hr]. destruct Hm as [e why He _ | info' e Hi' He | info' user' Hi' Hu' Hp Hg].
  - congruence.
  - apply authenticate_identified in Hu. congruence.
  - rewrite Hi in Hi'. injection Hi' as <-. pose proof (identified_unique _ _ _ Hu Hu') as <-. by destruct Hr.
Qed.

Lemma meets_code req r : meets req r -> In (response_code status r) [400; 401; 403].
Proof. intros []; cbn; auto. Qed.

(** A request is answered with a status code that does not depend on the routes. *)
Definition refused_with (code : Z) (req : HttpRequest) : Prop :=
  exists r, response_code status r = code /\ forall routes, door routes req = r.

(** Which layer a refused request got to decides its code. *)
Lemma refused_by_layer req :
  turned_away req ->
  match request_info_parse (method req) (req_uri req) with
  | Err _ => refused_with 400 req
  | Ok _ =>
      match authenticate (bootstrap admin_token key now) (creds_of req) with
      | Err _ => refused_with 401 req
      | Ok _ => refused_with 403 req
      end
  end.
Proof.
  intros Hno. destruct (door_cases req) as [(i & u & Hin) | (r & Hm & Hr)]; [by destruct (Hno i u) |].
  destruct Hm as [e why He Hw | info e Hi He | info user Hi Hu Hp Hg].
  - rewrite He. eexists. split; [| exact Hr]. reflexivity.
  - rewrite Hi, He. eexists. split; [| exact Hr]. reflexivity.
  - apply authenticate_identified in Hu. rewrite Hi, Hu. eexists. split; [| exact Hr]. reflexivity.
Qed.

(** ** The audit record *)

(** The record of a request that is let in, and of one that is not. *)
Lemma audit_record routes req :
  let '(r, a) := audit_middleware status req (door routes) in
  r = door routes req /\ audit_code a = response_code status r /\ audit_user a = resp_user r /\
  audit_authorization a = resp_authorization r /\ classified a = is_some (resp_info r).
Proof. done. Qed.

Lemma refused_let_in routes req info user :
  let_in req info user ->
  let a := (audit_middleware status req (door routes)).2 in
  let code := response_code status (routes (with_user (with_info req info) user)) in
  refused a = (code =? 401) || (code =? 403).
Proof.
  intros Hin. cbv zeta. unfold audit_middleware, refused. cbn [snd classified audit_authorization audit_code].
  pose proof (door_passes routes req info user Hin) as Hp. unfold passed in Hp. rewrite Hp. cbn.
  unfold response_code. done.
Qed.

Lemma refused_meets routes req r :
  meets req r -> door routes req = r -> refused (audit_middleware status req (door routes)).2 = true.
Proof.
  intros Hm Hr. unfold audit_middleware, refused. cbn [snd classified audit_authorization audit_code]. rewrite Hr.
  destruct Hm; cbn; by rewrite ?orb_true_r.
Qed.

End Door.

(** (C16) The front door lets in exactly the requests it should.  Whatever a client
    put in the request, a handler runs only when the request line parses, the
    credentials identify someone, and either the path is a health or version
    probe or RBAC grants that identity exactly the verb and coordinates that
    were parsed; it then sees those, and its answer is the answer.  Any other
    request is answered by the first layer that refuses it and the handlers cannot
    tell it was made: 400 where the request line does not parse, 401 where it does
    and the credentials identify nobody, 403 where they identify someone who has no
    right to it. *)
Theorem front_door_exact `{SerdeJson} `{ClaimsSerde} `{Ed25519} `{Base64Url} `{TokenText} `{HttpDecode}
    {E : Type} `{RbacStoreEnv E} {Body : Type} (status : Body -> Z) (env : E) (error_text : AuthnError -> string)
    (admin_token : option string) (key : option SaVerifier) (now : Z) (req : HttpRequest) :
  (forall info user (routes : HttpRequest -> Response (Body := Body)),
     let_in env admin_token key now req info user ->
     answer (door env error_text admin_token key now routes req) =
     answer (routes (with_user (with_info req info) user))) /\
  ((forall info, request_info_parse (method req) (req_uri req) <> Ok info) ->
     refused_with status env error_text admin_token key now 400 req) /\
  (forall info,
     request_info_parse (method req) (req_uri req) = Ok info ->
     (forall user, ~ identified admin_token key now (creds_of req) user) ->
     refused_with status env error_text admin_token key now 401 req) /\
  (forall info user,
     request_info_parse (method req) (req_uri req) = Ok info ->
     identified admin_token key now (creds_of req) user ->
     ~ probe info -> ~ granted env (for_request user info) ->
     refused_with status env error_text admin_token key now 403 req).
Proof.
  pose proof (refused_by_layer status env error_text admin_token key now req) as Hlayer. split_and!.
  - intros info user routes Hin. by rewrite (door_passes env error_text _ _ _ routes _ _ _ Hin).
  - intros Hp. destruct (request_info_parse _ _) as [info | e] eqn:Hi; [by destruct (Hp info) |].
    apply Hlayer. intros info user []. congruence.
  - intros info Hi Hn. rewrite Hi in Hlayer.
    destruct (authenticate _ _) as [user | e] eqn:Hu; [by destruct (Hn user); apply authenticate_identified |].
    apply Hlayer. intros info' user [_ Hu' _]. by destruct (Hn user).
  - intros info user Hi Hu Hp Hg. rewrite Hi, (proj2 (authenticate_identified _ _ _ _ _) Hu) in Hlayer.
    apply Hlayer. intros info' user' [Hi' Hu' Hr]. rewrite Hi in Hi'. injection Hi' as <-.
    pose proof (identified_unique admin_token key now _ _ _ Hu Hu') as <-. by destruct Hr.
Qed.

(** The audit record is true: it names the identity the handlers saw and
    [allow] when the request was let in, and is marked refused exactly when it
    was turned away or a handler itself answered 401 or 403. *)
Theorem audit_truthful `{SerdeJson} `{ClaimsSerde} `{Ed25519} `{Base64Url} `{TokenText} `{HttpDecode}
    {E : Type} `{RbacStoreEnv E} {Body : Type} (status : Body -> Z) (env : E) (error_text : AuthnError -> string)
    (admin_token : option string) (key : option SaVerifier) (now : Z) (req : HttpRequest)
    (routes : HttpRequest -> Response (Body := Body)) :
  let a := (audit_middleware status req (door env error_text admin_token key now routes)).2 in
  (forall info user, let_in env admin_token key now req info user ->
     audit_verb a = Coords.verb info /\ audit_object a = object_ref info /\ audit_user a = Some user /\
     audit_authorization a = Some AuthAllow /\
     (refused a = true <->
      In (response_code status (routes (with_user (with_info req info) user))) [401; 403])) /\
  (turned_away env admin_token key now req ->
     refused a = true /\ audit_authorization a <> Some AuthAllow /\ In (audit_code a) [400; 401; 403]).
Proof.
  intros a. split.
  - intros info user Hin. unfold a. rewrite (refused_let_in status env error_text _ _ _ routes _ _ _ Hin).
    unfold audit_middleware. cbn [snd audit_verb audit_object audit_user audit_authorization].
    rewrite (door_passes env error_text _ _ _ routes _ _ _ Hin). cbn [resp_info resp_user resp_authorization].
    repeat split; try done.
    + rewrite orb_true_iff, !Z.eqb_eq. simpl. intuition lia.
    + rewrite orb_true_iff, !Z.eqb_eq. simpl. intuition lia.
  - intros Hno. destruct (door_cases (Body := Body) env error_text admin_token key now req) as [(i & u & Hin) | (r & Hm & Hr)].
    { by destruct (Hno i u). }
    split; [by eapply refused_meets |].
    unfold a, audit_middleware. cbn [snd audit_authorization audit_code]. rewrite (Hr routes).
    split; [by destruct Hm | by eapply meets_code].
Qed.

(** ** Samples *)

Definition plain_decode : HttpDecode := {|
  percent_decode_path s := Some s;
  query_pairs _ := Some [];
  debug_str := quoted
|}.

#[local] Existing Instance numbered.
#[local] Existing Instance hex_base64.
#[local] Existing Instance toy_ed25519.
#[local] Existing Instance sample_claims.
#[local] Existing Instance sample_token_text.
#[local] Existing Instance plain_decode.

Definition delete_request (cert : option VerifiedClientCert) (header : option string) : HttpRequest :=
  mkHttpRequest "DELETE" (mkUri "/api/v1/namespaces/dev/pods/web" "") header cert None None.

Definition always_ok (_ : HttpRequest) : Response (Body := unit) := mkResponse (Ok tt) None None None.

Definition code_of (req : HttpRequest) : Z :=
  response_code (fun _ : unit => 200)
    (door small_cluster (fun _ => "rejected") (Some "secret") (Some (mkVerifier tt "iss" "api")) 10 always_ok req).

(** A forged token of [dev]'s builder: its signature is not the issuer's. *)
Definition forged : string :=
  let claims := claims_for "iss" "dev" "builder" "u-1" ["api"] None 0 3600 in
  to_hex (as_bytes "{}") +:+ "." +:+ to_hex (as_bytes (@claims_text sample_claims claims)) +:+ "." +:+ to_hex [1].

Example front_door_codes :
  code_of (delete_request (Some (mkCert "alice" [])) None) = 200 /\
  code_of (delete_request (Some (mkCert "bob" [])) None) = 403 /\
  code_of (delete_request None None) = 403 /\
  code_of (delete_request None (Some "Bearer secret")) = 200 /\
  code_of (delete_request None (Some ("Bearer " +:+ forged))) = 401.
Proof. vm_compute. by repeat split. Qed.

Lemma front_door_exact_witness :
  answer (door small_cluster (fun _ => "rejected") None None 0 always_ok
            (delete_request (Some (mkCert "alice" [])) None)) = Ok tt.
Proof.
  refine (proj1 (front_door_exact (fun _ : unit => 200) small_cluster (fun _ => "rejected") None None 0
    (delete_request (Some (mkCert "alice" [])) None))
    (mkRequestInfo "delete" (Coords.Resource (mkCoords None (Some "v1") (Some "dev") "pods" (Some "web") None)))
    (from_client_cert "alice" []) always_ok _).
  split; [vm_compute; reflexivity | by apply (ByCertificate _ _ _ _ (mkCert "alice" [])) |].
  right. apply authorize_granted. vm_compute. reflexivity.
Defined.
