(* ===== verification/Params.v ===== *)
(** * What a client asks of a list, a watch or a write

    [engenho-apiserver/src/params.rs] and [list_floor.rs]: the interpretation of
    the query parameters, the validation of list and watch options, label and
    field selectors with their grammar, dry runs, preconditions, and the lines of
    a watch.  The decoding of the query string into raw values is the HTTP
    stack's; [debug] is the [Debug] text of a string and instants are numbers. *)

From Stdlib Require Import Ascii String.
From stdpp Require Import base tactics option list strings numbers pretty.
From S2P Require Import Prelude Text BTreeMap Json Resource Command Read Pagination.
From S2P Require Import WatchBackend ApiErrors Coords.

Local Open Scope string_scope.
Local Open Scope Z_scope.

(** ** Strings *)

(** [str::split_once] on a text. *)
Fixpoint split_once_str (p s : string) : option (string * string) :=
  match strip_prefix p s with
  | Some r => Some ("", r)
  | None =>
      match s with
      | EmptyString => None
      | String c t => match split_once_str p t with Some (a, b) => Some (String c a, b) | None => None end
      end
  end.

(** The text before and after the last [c]: what [rfind] cuts. *)
Definition rsplit_once (c : Ascii.ascii) (s : string) : option (string * string) :=
  match split_once c (String.rev s) with Some (a, b) => Some (String.rev b, String.rev a) | None => None end.

(** [str::split_whitespace]; [cur] is the word being read. *)
Fixpoint words (cur s : string) : list string :=
  let flush := if eqb cur "" then [] else [cur] in
  match s with
  | EmptyString => flush
  | String a t =>
      if ws1 (code a) then (flush ++ words "" t)%list
      else
        let step := words (cur +:+ String a "") t in
        match t with
        | String b u =>
            if ws2 (code a) (code b) then (flush ++ words "" u)%list
            else match u with
                 | String c v => if ws3 (code a) (code b) (code c) then (flush ++ words "" v)%list else step
                 | EmptyString => step
                 end
        | EmptyString => step
        end
  end.
Definition split_whitespace (s : string) : list string := words "" s.

(** ** Flags *)

(** The values of the flags, given what the query carries. *)
Definition de_bool (raw : option string) : bool :=
  match raw with
  | Some s => query_flag s
  | None => false
  end.
Definition de_present_bool (raw : option string) : option bool :=
  match raw with Some s => Some (query_flag s) | None => None end.
Definition de_bool_default_true (raw : option string) : bool :=
  match raw with Some s => negb (eqb s "false" || eqb s "0" || eqb s "no") | None => false end.

Record ListWatchParams : Type := mkParams {
  p_resource_version : option string;
  label_selector : option string;
  include_object : option string;
  field_selector : option string;
  allow_watch_bookmarks : bool;
  send_initial_events : option bool;
  resource_version_match : option string;
  timeout_seconds : option string;
  limit_text : option string;
  continue_text : option string
}.

(** ** Resume points *)

Inductive ResumePoint : Type := MostRecent | At (rev : Revision).

Definition ahead_of (p : ResumePoint) (current : Revision) : option TooLargeResourceVersion :=
  match p with
  | At requested => if current <? requested then Some (mkTooLarge requested current) else None
  | MostRecent => None
  end.

Definition unset (raw : option string) : bool :=
  match raw with None => true | Some s => eqb s "" || eqb s "0" end.

(** [debug] is the [Debug] text of a string. *)
Section Params.
Context (debug : string -> string).

Definition resume_point (p : ListWatchParams) : result ResumePoint ApiError.t :=
  if unset (p_resource_version p) then Ok MostRecent
  else
    let s := default "" (p_resource_version p) in
    match parse_unsigned Word.u64_max s with
    | Some n => Ok (At n)
    | None =>
        Err (ApiError.BadRequest ("invalid resourceVersion: " +:+ debug s +:+ " (must be a non-negative integer)"))
    end.

Definition limit (p : ListWatchParams) : result Z ApiError.t :=
  if unset (limit_text p) then Ok 0
  else
    let s := default "" (limit_text p) in
    match parse_unsigned Word.u64_max s with
    | Some n => Ok n
    | None => Err (ApiError.BadRequest ("invalid limit: " +:+ debug s +:+ " (must be a non-negative integer)"))
    end.

(** The duration in seconds. *)
Definition timeout (p : ListWatchParams) : result (option Z) ApiError.t :=
  if unset (timeout_seconds p) then Ok None
  else
    let s := default "" (timeout_seconds p) in
    match parse_unsigned Word.u64_max s with
    | Some n => Ok (Some n)
    | None =>
        Err (ApiError.BadRequest ("invalid timeoutSeconds: " +:+ debug s +:+ " (must be a non-negative integer)"))
    end.

Definition precondition (p : ListWatchParams) : result (option Revision) ApiError.t :=
  if unset (p_resource_version p) then Ok None
  else
    let s := default "" (p_resource_version p) in
    match parse_unsigned Word.u64_max s with
    | Some n => Ok (Some n)
    | None =>
        Err (ApiError.BadRequest
               ("invalid resourceVersion precondition: " +:+ debug s +:+ " (must be a non-negative integer)"))
    end.

Definition continue_token `{Blake3} `{TokenSerde} (reason_text : ContinueInvalid.t -> string) (p : ListWatchParams)
  : result (option ContinueToken) ApiError.t :=
  match continue_text p with
  | None => Ok None
  | Some s =>
      if eqb s "" then Ok None
      else
        match decode s with
        | Ok t => Ok (Some t)
        | Err e => Err (ApiError.Gone ("invalid or expired continue token: " +:+ reason_text e))
        end
  end.

(** [value_text] is the JSON text of a value. *)
Definition body_precondition (value_text : json -> string) (body : json) : result (option Revision) ApiError.t :=
  match jget "metadata" body ≫= jget "resourceVersion" with
  | None | Some JNull => Ok None
  | Some (JString s) =>
      if eqb s "" then Ok None
      else
        match parse_unsigned Word.u64_max s with
        | Some n => Ok (Some n)
        | None =>
            Err (ApiError.BadRequest
                   ("invalid metadata.resourceVersion: " +:+ debug s +:+ " (must be a non-negative integer)"))
        end
  | Some other => Err (ApiError.BadRequest ("metadata.resourceVersion must be a string, got " +:+ value_text other))
  end.

(** ** List and watch options *)

Definition NOT_OLDER_THAN : string := "NotOlderThan".
Definition EXACT : string := "Exact".

Inductive InitialEvents : Type := NoEvents | Snapshot (end_bookmark : bool).

Inductive OptionViolation : Type :=
  | InitialEventsNeedNotOlderThan
  | MatchNeedsInitialEvents
  | WatchMatchNotSupported (value : string)
  | MatchWithContinue
  | MatchNeedsResourceVersion
  | ListMatchNotSupported (value : string)
  | ExactAtZero
  | InitialEventsOnList.

#[export] Instance OptionViolation_eq_dec : EqDecision OptionViolation.
Proof using. solve_decision. Defined.

Definition violation_field (v : OptionViolation) : string :=
  match v with InitialEventsOnList => "sendInitialEvents" | _ => "resourceVersionMatch" end.

Definition supported_values (v : OptionViolation) : list string :=
  match v with
  | WatchMatchNotSupported _ => [NOT_OLDER_THAN]
  | ListMatchNotSupported _ => [EXACT; NOT_OLDER_THAN; ""]
  | _ => []
  end.

Definition forbidden_detail (v : OptionViolation) : option string :=
  match v with
  | InitialEventsNeedNotOlderThan =>
      Some "sendInitialEvents requires setting resourceVersionMatch to NotOlderThan"
  | MatchNeedsInitialEvents =>
      Some "resourceVersionMatch is forbidden for watch unless sendInitialEvents is provided"
  | MatchWithContinue => Some "resourceVersionMatch is forbidden when continue is provided"
  | MatchNeedsResourceVersion =>
      Some "resourceVersionMatch is forbidden unless resourceVersion is provided"
  | ExactAtZero =>
      Some ("resourceVersionMatch " +:+ quoted "exact" +:+ " is forbidden for resourceVersion " +:+ quoted "0")
  | InitialEventsOnList => Some "sendInitialEvents is forbidden for list"
  | WatchMatchNotSupported _ | ListMatchNotSupported _ => None
  end.

Definition violation_text (v : OptionViolation) : string :=
  match v with
  | WatchMatchNotSupported value | ListMatchNotSupported value =>
      violation_field v +:+ ": Unsupported value: " +:+ debug value +:+ ": supported values: " +:+
      String.concat ", " (map debug (supported_values v))
  | _ => violation_field v +:+ ": Forbidden: " +:+ default "" (forbidden_detail v)
  end.

(** [InvalidListOptions::check]: never an empty list of violations. *)
Definition check (violations : list OptionViolation) : result unit (list OptionViolation) :=
  match violations with [] => Ok tt | _ => Err violations end.

Definition invalid_text (violations : list OptionViolation) : string :=
  "ListOptions.meta.k8s.io " +:+ quoted "" +:+ " is invalid: " +:+
  match violations with
  | [one] => violation_text one
  | many => "[" +:+ String.concat ", " (map violation_text many) +:+ "]"
  end.

Definition invalid_options (violations : list OptionViolation) : ApiError.t :=
  ApiError.Invalid (invalid_text violations).

Definition version_match (p : ListWatchParams) : option string :=
  match resource_version_match p with Some m => if eqb m "" then None else Some m | None => None end.

Definition has_continue (p : ListWatchParams) : bool :=
  is_some_and (fun c => negb (eqb c "")) (continue_text p).

Definition push_if (b : bool) (v : OptionViolation) : list OptionViolation := if b then [v] else [].

Definition watch_initial_events (p : ListWatchParams) : result InitialEvents (list OptionViolation) :=
  let '(send, vmatch) :=
    match send_initial_events p, version_match p with
    | None, None => if unset (p_resource_version p) then (Some true, Some NOT_OLDER_THAN) else (None, None)
    | send, vmatch => (send, vmatch)
    end in
  let violations :=
    (push_if (is_some send && negb (eqb vmatch (Some NOT_OLDER_THAN))) InitialEventsNeedNotOlderThan ++
     match vmatch with
     | Some m =>
         push_if (negb (is_some send)) MatchNeedsInitialEvents ++
         push_if (negb (eqb m NOT_OLDER_THAN)) (WatchMatchNotSupported m) ++
         push_if (has_continue p) MatchWithContinue
     | None => []
     end)%list in
  let? _ := check violations in
  Ok (match send with
      | Some true => Snapshot (allow_watch_bookmarks p)
      | _ => NoEvents
      end).

Definition validate_list (p : ListWatchParams) : result unit (list OptionViolation) :=
  check
    (match version_match p with
     | Some m =>
         push_if (is_none_or (fun s => eqb s "") (p_resource_version p)) MatchNeedsResourceVersion ++
         push_if (has_continue p) MatchWithContinue ++
         push_if (negb (eqb m EXACT) && negb (eqb m NOT_OLDER_THAN)) (ListMatchNotSupported m) ++
         push_if (eqb m EXACT && eqb (p_resource_version p) (Some "0")) ExactAtZero
     | None => []
     end ++ push_if (is_some (send_initial_events p)) InitialEventsOnList)%list.

(** ** Dry runs and apply options *)

Inductive DryRun : Type := Off | All.

Definition is_dry (d : DryRun) : bool := match d with All => true | Off => false end.

Definition dry_run_parse (raw : option string) : result DryRun ApiError.t :=
  match raw with
  | None => Ok Off
  | Some s =>
      if eqb s "" then Ok Off
      else if eqb s "All" then Ok All
      else Err (ApiError.BadRequest
                  ("invalid dryRun value " +:+ debug s +:+ ": the only supported value is " +:+ quoted "All"))
  end.

Fixpoint dry_run_entries (out : DryRun) (entries : list json) : result DryRun ApiError.t :=
  match entries with
  | [] => Ok out
  | e :: entries =>
      let? d := dry_run_parse (Some (default "" (as_str e))) in
      dry_run_entries (if is_dry d then All else out) entries
  end.

(** [body] is the request's body as JSON, when it is one. *)
Definition for_delete (query : option string) (body : option json) : result DryRun ApiError.t :=
  let? d := dry_run_parse query in
  if is_dry d then Ok All
  else
    match (body ≫= jget "dryRun") ≫= as_array with
    | Some entries => dry_run_entries Off entries
    | None => Ok Off
    end.

Record ApplyOptions : Type := mkApplyOptions { manager : string; force : bool }.

Definition from_params (field_manager : option string) (force : bool) : result ApplyOptions ApiError.t :=
  match field_manager with
  | Some m =>
      if eqb (trim m) ""
      then Err (ApiError.BadRequest
             "fieldManager is required for an apply patch (Content-Type application/apply-patch+yaml)")
      else Ok (mkApplyOptions (trim m) force)
  | None =>
      Err (ApiError.BadRequest
             "fieldManager is required for an apply patch (Content-Type application/apply-patch+yaml)")
  end.

End Params.

(** ** Selectors *)

Module LabelRequirement.

Inductive t : Type :=
  | Equals (k v : string)
  | NotEquals (k v : string)
  | InSet (k : string) (set : list string)
  | NotIn (k : string) (set : list string)
  | Exists (k : string)
  | NotExists (k : string).

#[global] Instance t_eq_dec : EqDecision t.
Proof. solve_decision. Defined.

Definition have (labels : option json) (k : string) : option string := (labels ≫= jget k) ≫= as_str.

Definition satisfied_by (labels : option json) (r : t) : bool :=
  match r with
  | Equals k v => eqb (have labels k) (Some v)
  | NotEquals k v => negb (eqb (have labels k) (Some v))
  | InSet k set => is_some_and (fun h => existsb (fun s => eqb s h) set) (have labels k)
  | NotIn k set => is_none_or (fun h => negb (existsb (fun s => eqb s h) set)) (have labels k)
  | Exists k => is_some (have labels k)
  | NotExists k => negb (is_some (have labels k))
  end.

End LabelRequirement.

Definition SUPPORTED_FIELD_SELECTORS : list string :=
  ["metadata.name"; "metadata.namespace"; "spec.nodeName"; "status.phase"; "spec.restartPolicy";
   "spec.schedulerName"; "spec.serviceAccountName"; "status.podIP"; "status.nominatedNodeName";
   "spec.unschedulable"; "type"; "involvedObject.kind"; "involvedObject.name"; "involvedObject.namespace";
   "involvedObject.uid"; "reason"].

Fixpoint walk (obj : json) (path : list string) : option json :=
  match path with
  | [] => Some obj
  | seg :: path => match jget seg obj with Some v => walk v path | None => None end
  end.

(** [number_text] is [Number::to_string]. *)
Definition resolve_path (number_text : number -> string) (obj : json) (path : string) : option string :=
  match walk obj (split_char "."%char path) with
  | Some (JString s) => Some s
  | Some (JBool b) => Some (if b then "true" else "false")
  | Some (JNumber n) => Some (number_text n)
  | _ => None
  end.

Module FieldRequirement.

Inductive t : Type := Equals (k v : string) | NotEquals (k v : string).

#[global] Instance t_eq_dec : EqDecision t.
Proof. solve_decision. Defined.

Definition key (r : t) : string := match r with Equals k _ | NotEquals k _ => k end.

Definition satisfied_by (number_text : number -> string) (obj : json) (r : t) : bool :=
  if negb (existsb (fun k => eqb k (key r)) SUPPORTED_FIELD_SELECTORS) then false
  else
    let have := resolve_path number_text obj (key r) in
    match r with
    | Equals _ v => eqb have (Some v)
    | NotEquals _ v => negb (eqb have (Some v))
    end.

End FieldRequirement.

Record Selectors : Type := mkSelectors {
  labels : list LabelRequirement.t;
  fields : list FieldRequirement.t
}.

Definition no_selectors : Selectors := mkSelectors [] [].

Definition selectors_match (number_text : number -> string) (sel : Selectors) (obj : json) : bool :=
  let have := jget "metadata" obj ≫= jget "labels" in
  forallb (LabelRequirement.satisfied_by have) (labels sel) &&
  forallb (FieldRequirement.satisfied_by number_text obj) (fields sel).

Definition selectors_empty (sel : Selectors) : bool :=
  match labels sel, fields sel with [], [] => true | _, _ => false end.

Definition gvk_ns_matches (key : ResourceKey) (group version kind : string) (namespace : option string) : bool :=
  if negb (eqb (Resource.group key) group) || negb (eqb (Resource.version key) version) ||
     negb (eqb (Resource.kind key) kind)
  then false
  else
    match namespace, Resource.namespace key with
    | None, _ => true
    | Some want, Some have => eqb want have
    | Some _, None => false
    end.

(** ** The grammar *)

(** The clauses between top-level commas; [depth] is an [i32], and a selector of
    2{^31} parentheses does not fit a request. *)
Fixpoint clauses (depth : Z) (cur s : string) : list string :=
  match s with
  | EmptyString => [cur]
  | String c s =>
      let next := cur +:+ String c "" in
      if Ascii.eqb c "("%char then clauses (depth + 1) next s
      else if Ascii.eqb c ")"%char then clauses (depth - 1) next s
      else if Ascii.eqb c ","%char && (depth =? 0) then cur :: clauses depth "" s
      else clauses depth next s
  end.
Definition split_top_level (s : string) : list string := clauses 0 "" s.

Section Grammar.
Context (debug : string -> string).

Definition bad_selector (what clause why : string) : ApiError.t :=
  ApiError.BadRequest ("invalid " +:+ what +:+ " clause " +:+ debug clause +:+ ": " +:+ why).

Definition trim_key (k clause what : string) : result string ApiError.t :=
  let k := trim k in if eqb k "" then Err (bad_selector what clause "empty key") else Ok k.

(** The values of a set. *)
Definition set_values (inner : string) : list string :=
  List.filter (fun v => negb (eqb v "")) (map trim (split_char ","%char inner)).

Definition parse_set_clause (c head rest : string) : result (option LabelRequirement.t) ApiError.t :=
  match rsplit_once ")"%char rest with
  | None => Err (bad_selector "labelSelector" c "unterminated '(' set")
  | Some (inner, _) =>
      let values := set_values inner in
      match split_whitespace (trim head) with
      | [] => Err (bad_selector "labelSelector" c "empty key before set")
      | key :: toks =>
          match toks with
          | _ :: _ :: _ => Err (bad_selector "labelSelector" c "extra tokens before set")
          | _ =>
              let op := default "" (List.head toks) in
              if eqb op "in" then Ok (Some (LabelRequirement.InSet key values))
              else if eqb op "notin" then Ok (Some (LabelRequirement.NotIn key values))
              else Err (bad_selector "labelSelector" c "set requires 'in' or 'notin'")
          end
      end
  end.

Definition parse_label_clause (c : string) : result (option LabelRequirement.t) ApiError.t :=
  if eqb c "" then Ok None
  else
    match strip_prefix "!" c with
    | Some key =>
        let key := trim key in
        if eqb key "" then Err (bad_selector "labelSelector" c "empty key after '!'")
        else Ok (Some (LabelRequirement.NotExists key))
    | None =>
        match split_once "("%char c with
        | Some (head, rest) => parse_set_clause c head rest
        | None =>
            match split_once_str "!=" c with
            | Some (k, v) =>
                let? k := trim_key k c "labelSelector" in Ok (Some (LabelRequirement.NotEquals k (trim v)))
            | None =>
                match split_once_str "==" c with
                | Some (k, v) =>
                    let? k := trim_key k c "labelSelector" in Ok (Some (LabelRequirement.Equals k (trim v)))
                | None =>
                    match split_once "="%char c with
                    | Some (k, v) =>
                        let? k := trim_key k c "labelSelector" in Ok (Some (LabelRequirement.Equals k (trim v)))
                    | None => Ok (Some (LabelRequirement.Exists c))
                    end
                end
            end
        end
    end.

Fixpoint parse_clauses {R} (parse : string -> result (option R) ApiError.t) (l : list string)
  : result (list R) ApiError.t :=
  match l with
  | [] => Ok []
  | clause :: l =>
      let? req := parse (trim clause) in
      let? rest := parse_clauses parse l in
      Ok (match req with Some r => r :: rest | None => rest end)
  end.

Definition parse_label_selector (s : option string) : result (list LabelRequirement.t) ApiError.t :=
  match s with
  | None => Ok []
  | Some s => if eqb s "" then Ok [] else parse_clauses parse_label_clause (split_top_level s)
  end.

Definition parse_field_clause (c : string) : result (option FieldRequirement.t) ApiError.t :=
  if eqb c "" then Ok None
  else
    match split_once_str "!=" c with
    | Some (k, v) =>
        let? k := trim_key k c "fieldSelector" in Ok (Some (FieldRequirement.NotEquals k (trim v)))
    | None =>
        match split_once_str "==" c with
        | Some (k, v) =>
            let? k := trim_key k c "fieldSelector" in Ok (Some (FieldRequirement.Equals k (trim v)))
        | None =>
            match split_once "="%char c with
            | Some (k, v) =>
                let? k := trim_key k c "fieldSelector" in Ok (Some (FieldRequirement.Equals k (trim v)))
            | None => Err (bad_selector "fieldSelector" c "expected k=v / k!=v")
            end
        end
    end.

Definition parse_field_selector (s : option string) : result (list FieldRequirement.t) ApiError.t :=
  match s with
  | None => Ok []
  | Some s => if eqb s "" then Ok [] else parse_clauses parse_field_clause (split_top_level s)
  end.

Definition selectors (p : ListWatchParams) : result Selectors ApiError.t :=
  let? l := parse_label_selector (label_selector p) in
  let? f := parse_field_selector (field_selector p) in
  Ok (mkSelectors l f).

End Grammar.

(** ** The lines of a watch *)

Record WatchGvk : Type := mkWatchGvk { gvk_api_version : string; gvk_kind : string }.

Definition INITIAL_EVENTS_END_ANNOTATION : string := "k8s.io/initial-events-end".

(** The serialised name of an event's kind. *)
Definition event_type (k : WatchEventKind.t) : string :=
  match k with
  | WatchEventKind.Added => "ADDED"
  | WatchEventKind.Modified => "MODIFIED"
  | WatchEventKind.Deleted => "DELETED"
  | WatchEventKind.Bookmark => "BOOKMARK"
  end.

(** [entry(k).or_insert(v)]. *)
Definition or_insert (k : string) (v : json) (m : btmap string json) : btmap string json :=
  match bt_get k m with Some _ => m | None => bt_insert k v m end.

Definition stamp_type_meta (v : json) (gvk : WatchGvk) : json :=
  match v with
  | JObject m =>
      JObject (or_insert "apiVersion" (JString (gvk_api_version gvk)) (or_insert "kind" (JString (gvk_kind gvk)) m))
  | _ => v
  end.

(** A line before it is encoded. *)
Definition watch_line (type : string) (object : json) : json :=
  jobj [("type", JString type); ("object", object)].

Definition event_line (kind : WatchEventKind.t) (object : json) (gvk : WatchGvk) : json :=
  watch_line (event_type kind) (stamp_type_meta object gvk).

Definition to_k8s_watch_line (ev : WatchEvent) (gvk : WatchGvk) : json :=
  event_line (WatchBackend.event_kind ev) (event_object ev) gvk.

Definition bookmark_line (rev : Revision) (gvk : WatchGvk) (initial_events_end : bool) : json :=
  watch_line "BOOKMARK"
    (jobj [("kind", JString (gvk_kind gvk)); ("apiVersion", JString (gvk_api_version gvk));
           ("metadata",
            jobj (("resourceVersion", JString (pretty rev)) ::
                  if initial_events_end
                  then [("annotations", jobj [(INITIAL_EVENTS_END_ANNOTATION, JString "true")])]
                  else []))]).

Definition error_line (status : json) : json := watch_line "ERROR" status.

(** [encode_ndjson]. *)
Definition encode_ndjson `{SerdeJson} (line : json) : string := json_text line +:+ String (ascii_of_nat 10) "".
