(* ===== verification/ParamsFacts.v ===== *)
(** * Selectors, read and written

    The selector grammar of [Params]: every list of requirements over label keys
    and values is read back from its text; list and watch select the same keys;
    and what the parser lets through that the grammar does not have. *)

From Stdlib Require Import Ascii String.
From stdpp Require Import base tactics option list strings numbers pretty.
From S2P Require Import Prelude Text BTreeMap Json Resource Command Read Pagination.
From S2P Require Import PatchFacts Ssa SsaFacts WatchBackend ApiErrors Coords Params.

Local Open Scope string_scope.
Local Open Scope Z_scope.

Import LabelRequirement.

(** ** Writing selectors *)

Definition render_set (set : list string) : string := "(" +:+ String.concat "," set +:+ ")".

Definition render_clause (r : LabelRequirement.t) : string :=
  match r with
  | Equals k v => k +:+ "=" +:+ v
  | NotEquals k v => k +:+ "!=" +:+ v
  | InSet k set => k +:+ " in " +:+ render_set set
  | NotIn k set => k +:+ " notin " +:+ render_set set
  | Exists k => k
  | NotExists k => "!" +:+ k
  end.

Definition render (l : list LabelRequirement.t) : string := String.concat "," (map render_clause l).

(** The characters of label keys and values. *)
Definition label_char (c : Ascii.ascii) : bool :=
  let c := code c in
  ((65 <=? c) && (c <=? 90)) || ((97 <=? c) && (c <=? 122)) || ((45 <=? c) && (c <=? 57)) || (c =? 95).

Definition label_value (s : string) : bool := str_all label_char s.
Definition label_key (s : string) : bool := negb (eqb s "") && str_all label_char s.

Definition wf_requirement (r : LabelRequirement.t) : bool :=
  match r with
  | Equals k v | NotEquals k v => label_key k && label_value v
  | InSet k set | NotIn k set => label_key k && forallb label_key set
  | Exists k | NotExists k => label_key k
  end.

(** ** Characters *)

Lemma label_char_graphic c : label_char c = true -> graphic c = true.
Proof. unfold label_char, graphic, code. lia. Qed.

Lemma label_char_not c d : label_char c = true -> label_char d = false -> Ascii.eqb c d = false.
Proof. intros Hc Hd. apply Ascii.eqb_neq. intros ->. congruence. Qed.

Lemma label_free d s : label_char d = false -> label_value s = true -> free_of d s = true.
Proof.
  intros Hd. unfold label_value, free_of. induction s as [|c s IH]; simpl; [done |]. intros Hs.
  apply andb_true_iff in Hs as [Hc Hs]. rewrite (label_char_not _ _ Hc Hd), IH by done. done.
Qed.

Lemma label_graphic s : label_value s = true -> str_all graphic s = true.
Proof.
  unfold label_value. induction s as [|c s IH]; simpl; [done |]. intros Hs. apply andb_true_iff in Hs as [Hc Hs].
  by rewrite label_char_graphic, IH.
Qed.

Lemma label_key_value k : label_key k = true -> label_value k = true.
Proof. unfold label_key. intros Hk. by apply andb_true_iff in Hk as [_ ?]. Qed.

Lemma label_key_nonempty k : label_key k = true -> eqb k "" = false.
Proof. unfold label_key. intros Hk. apply andb_true_iff in Hk as [Hk _]. by apply negb_true_iff in Hk. Qed.

Lemma free_app c s t : free_of c (s +:+ t) = free_of c s && free_of c t.
Proof. unfold free_of. apply str_all_app. Qed.

(** ** Cutting *)

Lemma split_once_absent c s : free_of c s = true -> split_once c s = None.
Proof. apply split_once_none. Qed.

Lemma split_once_free c a b : free_of c a = true -> split_once c (a +:+ String c b) = Some (a, b).
Proof.
  unfold free_of. induction a as [|x a IH]; simpl.
  - intros _. by rewrite Ascii.eqb_refl.
  - intros Ha. apply andb_true_iff in Ha as [Hx Ha]. apply negb_true_iff in Hx. by rewrite Hx, IH.
Qed.

Lemma split_once_str_none c p s : free_of c s = true -> split_once_str (String c p) s = None.
Proof.
  unfold free_of. induction s as [|x s IH]; simpl; [done |]. intros Hs. apply andb_true_iff in Hs as [Hx Hs].
  apply negb_true_iff in Hx. rewrite Ascii.eqb_sym in Hx. by rewrite Hx, IH.
Qed.

Lemma split_once_str_free c p a b :
  free_of c a = true -> split_once_str (String c p) (a +:+ String c p +:+ b) = Some (a, b).
Proof.
  unfold free_of. induction a as [|x a IH].
  - intros _. change ("" +:+ String c p +:+ b) with (String c (p +:+ b)). cbn [split_once_str strip_prefix].
    by rewrite Ascii.eqb_refl, strip_prefix_app.
  - cbn [str_all]. intros Ha. apply andb_true_iff in Ha as [Hx Ha]. apply negb_true_iff in Hx.
    rewrite Ascii.eqb_sym in Hx. rewrite (string_app_cons x a). cbn [split_once_str strip_prefix]. by rewrite Hx, IH.
Qed.

Lemma strip_free c p s : free_of c s = true -> strip_prefix (String c p) s = None.
Proof.
  unfold free_of. destruct s as [|x s]; [done |]. cbn [str_all strip_prefix]. intros Hs.
  apply andb_true_iff in Hs as [Hx _]. apply negb_true_iff in Hx. rewrite Ascii.eqb_sym in Hx. by rewrite Hx.
Qed.

(** An equality sign not followed by another. *)
Lemma no_double_equals a b :
  free_of "="%char a = true -> free_of "="%char b = true -> split_once_str "==" (a +:+ "=" +:+ b) = None.
Proof.
  intros Ha Hb. unfold free_of in Ha. induction a as [|x a IH].
  - change ("" +:+ "=" +:+ b) with (String "=" b).
    assert (strip_prefix "==" (String "=" b) = strip_prefix "=" b) as Hs by done. cbn [split_once_str].
    by rewrite Hs, strip_free, split_once_str_none.
  - simpl in Ha. apply andb_true_iff in Ha as [Hx Ha]. apply negb_true_iff in Hx. rewrite Ascii.eqb_sym in Hx.
    rewrite (string_app_cons x a). cbn [split_once_str strip_prefix]. by rewrite Hx, IH.
Qed.

Lemma rsplit_once_last c a : rsplit_once c (a +:+ String c "") = Some (a, "").
Proof.
  unfold rsplit_once. assert (String.rev (a +:+ String c "") = String c (String.rev a)) as ->.
  { unfold String.rev. rewrite rev_app_app. done. }
  cbn [split_once]. rewrite Ascii.eqb_refl. by rewrite string_rev_rev.
Qed.

(** ** Trimming and words *)

Lemma trim_start_first c t : graphic c = true -> trim_start (String c t) = String c t.
Proof.
  intros Hc. cbn [trim_start]. destruct (graphic_not_ws c 0 0 Hc) as (-> & _). destruct t as [|b u]; [done |].
  destruct (graphic_not_ws c (code b) 0 Hc) as (_ & -> & _). destruct u as [|d v]; [done |].
  by destruct (graphic_not_ws c (code b) (code d) Hc) as (_ & _ & _ & -> & _).
Qed.

Lemma trim_back_first c t : graphic c = true -> trim_back (String c t) = String c t.
Proof.
  intros Hc. cbn [trim_back]. destruct (graphic_not_ws c 0 0 Hc) as (-> & _). destruct t as [|b u]; [done |].
  destruct (graphic_not_ws c (code b) 0 Hc) as (_ & _ & -> & _). destruct u as [|d v]; [done |].
  by destruct (graphic_not_ws c (code d) (code b) Hc) as (_ & _ & _ & _ & ->).
Qed.

Lemma rev_snoc s c : String.rev (s +:+ String c "") = String c (String.rev s).
Proof. unfold String.rev. by rewrite rev_app_app. Qed.

(** A text whose ends are graphic is already trimmed. *)
Lemma trim_edges a m z : graphic a = true -> graphic z = true ->
  trim (String a m +:+ String z "") = String a m +:+ String z "".
Proof.
  intros Ha Hz. unfold trim, trim_end. rewrite (string_app_cons a m), trim_start_first by done.
  rewrite <- (string_app_cons a m), rev_snoc, trim_back_first by done.
  rewrite <- rev_snoc. apply string_rev_rev.
Qed.

Lemma words_graphic cur t rest : str_all graphic t = true -> words cur (t +:+ rest) = words (cur +:+ t) rest.
Proof.
  revert cur. induction t as [|c t IH]; intros cur Ht; [by rewrite string_app_nil_r |].
  cbn [str_all] in Ht. apply andb_true_iff in Ht as [Hc Ht].
  assert (words cur (String c (t +:+ rest)) = words (cur +:+ String c "") (t +:+ rest)) as Hw.
  { cbn [words]. destruct (graphic_not_ws c 0 0 Hc) as (-> & _). destruct (t +:+ rest) as [|b u]; [done |].
    destruct (graphic_not_ws c (code b) 0 Hc) as (_ & -> & _). destruct u as [|d v]; [done |].
    by destruct (graphic_not_ws c (code b) (code d) Hc) as (_ & _ & _ & -> & _). }
  rewrite (string_app_cons c t), Hw, IH by done. by rewrite string_app_assoc.
Qed.

Lemma words_space cur rest : eqb cur "" = false -> words cur (String " " rest) = cur :: words "" rest.
Proof. intros Hc. change (words cur (String " " rest)) with ((if eqb cur "" then [] else [cur]) ++ words "" rest)%list. by rewrite Hc. Qed.

(** The head of a set clause. *)
Lemma set_head k op :
  label_key k = true -> label_key op = true ->
  split_whitespace (trim (k +:+ " " +:+ op +:+ " ")) = [k; op].
Proof.
  intros Hk Ho. pose proof (label_graphic _ (label_key_value _ Hk)) as Gk.
  pose proof (label_graphic _ (label_key_value _ Ho)) as Go.
  assert (trim (k +:+ " " +:+ op +:+ " ") = k +:+ " " +:+ op) as ->.
  { destruct k as [|a m]; [done |]. cbn [str_all] in Gk. apply andb_true_iff in Gk as [Ga _].
    unfold trim, trim_end. rewrite (string_app_cons a m), trim_start_first by done.
    rewrite <- (string_app_cons a m), <- !string_app_assoc, rev_snoc.
    change (trim_back (String " " ?x)) with (trim_back x).
    rewrite string_app_assoc.
    assert (exists o z, op = o +:+ String z "" /\ graphic z = true) as (o & z & -> & Gz).
    { clear -Ho Go. destruct (String.rev op) as [|z o] eqn:Er.
      - apply (f_equal String.rev) in Er. rewrite string_rev_rev in Er. by subst op.
      - exists (String.rev o), z. apply (f_equal String.rev) in Er. rewrite string_rev_rev in Er.
        assert (op = String.rev o +:+ String z "") as Hop.
        { rewrite Er. rewrite <- (string_rev_rev (String.rev o +:+ String z "")), rev_snoc, string_rev_rev. done. }
        split; [done |]. rewrite Hop, str_all_app in Go. cbn [str_all] in Go.
        apply andb_true_iff in Go as [_ Go]. by rewrite andb_true_r in Go. }
    rewrite <- !string_app_assoc, rev_snoc, trim_back_first by done. rewrite <- rev_snoc. apply string_rev_rev. }
  unfold split_whitespace. rewrite words_graphic by done. change ("" +:+ k) with k.
  change (" " +:+ op) with (String " " op). rewrite words_space by (by apply label_key_nonempty).
  rewrite <- (string_app_nil_r op), words_graphic by done. change ("" +:+ op) with op. cbn [words].
  by rewrite label_key_nonempty, string_app_nil_r.
Qed.

Lemma set_values_concat set : forallb label_key set = true -> set_values (String.concat "," set) = set.
Proof.
  intros Hs. unfold set_values. induction set as [|x set IH]; [done |].
  cbn [forallb] in Hs. apply andb_true_iff in Hs as [Hx Hs].
  pose proof (label_free ","%char x ltac:(done) (label_key_value _ Hx)) as Fx.
  pose proof (trim_graphic _ (label_graphic _ (label_key_value _ Hx))) as Tx.
  pose proof (label_key_nonempty _ Hx) as Nx.
  destruct set as [|y set].
  - cbn [String.concat]. rewrite split_char_free by done. cbn. by rewrite Tx, Nx.
  - change (String.concat "," (x :: y :: set)) with (x +:+ String "," (String.concat "," (y :: set))).
    rewrite split_char_cut by done. cbn [map List.filter]. rewrite Tx, Nx. cbn [negb]. f_equal. by apply IH.
Qed.

(** ** Scanning clauses *)

Lemma clauses_flat d cur t rest :
  free_of "("%char t = true -> free_of ")"%char t = true -> (d <> 0 \/ free_of ","%char t = true) ->
  clauses d cur (t +:+ rest) = clauses d (cur +:+ t) rest.
Proof.
  revert cur. induction t as [|c t IH]; intros cur Ho Hc Hd; [by rewrite string_app_nil_r |].
  unfold free_of in Ho, Hc. cbn [str_all] in Ho, Hc.
  apply andb_true_iff in Ho as [Ho1 Ho], Hc as [Hc1 Hc]. apply negb_true_iff in Ho1, Hc1.
  rewrite (string_app_cons c t). cbn [clauses]. rewrite Ho1, Hc1.
  assert (Ascii.eqb c ","%char && (d =? 0) = false) as ->.
  { destruct Hd as [Hd | Hd]; [by rewrite (proj2 (Z.eqb_neq d 0) Hd), andb_false_r |].
    unfold free_of in Hd. cbn [str_all] in Hd. apply andb_true_iff in Hd as [Hd _]. apply negb_true_iff in Hd.
    by rewrite Hd. }
  rewrite IH; [by rewrite string_app_assoc | done | done |].
  destruct Hd as [Hd | Hd]; [by left | right]. unfold free_of in *. cbn [str_all] in Hd. by apply andb_true_iff in Hd as [_ ?].
Qed.

Lemma set_text_free d set : label_char d = false -> Ascii.eqb ","%char d = false ->
  forallb label_key set = true -> free_of d (String.concat "," set) = true.
Proof.
  intros Hd Hc Hs. induction set as [|x set IH]; [done |]. cbn [forallb] in Hs. apply andb_true_iff in Hs as [Hx Hs].
  pose proof (label_free d x Hd (label_key_value _ Hx)) as Fx. destruct set as [|y set]; [done |].
  change (String.concat "," (x :: y :: set)) with (x +:+ "," +:+ String.concat "," (y :: set)).
  rewrite !free_app, Fx, IH by done. unfold free_of. cbn [str_all]. by rewrite Hc.
Qed.

Lemma clauses_set cur set rest :
  forallb label_key set = true -> clauses 0 cur (render_set set +:+ rest) = clauses 0 (cur +:+ render_set set) rest.
Proof.
  intros Hs. unfold render_set. rewrite !string_app_assoc.
  change ("(" +:+ String.concat "," set +:+ ")" +:+ rest) with (String "(" (String.concat "," set +:+ ")" +:+ rest)).
  change (clauses 0 cur (String "(" ?x)) with (clauses 1 (cur +:+ "(") x).
  rewrite clauses_flat by (by (apply set_text_free || left)).
  change (")" +:+ rest) with (String ")" rest).
  change (clauses 1 ?c (String ")" rest)) with (clauses 0 (c +:+ ")") rest).
  by rewrite !string_app_assoc.
Qed.

Lemma clauses_flat_label cur t rest : label_value t = true ->
  clauses 0 cur (t +:+ rest) = clauses 0 (cur +:+ t) rest.
Proof. intros Ht. apply clauses_flat; [| | right]; by apply label_free. Qed.

Lemma clause_scan r cur rest : wf_requirement r = true ->
  clauses 0 cur (render_clause r +:+ rest) = clauses 0 (cur +:+ render_clause r) rest.
Proof.
  destruct r as [k v | k v | k set | k set | k | k]; cbn [wf_requirement render_clause]; intros Hr;
    try apply andb_true_iff in Hr as [Hk Hv]; try apply label_key_value in Hk; try apply label_key_value in Hr;
    rewrite ?string_app_assoc.
  - rewrite clauses_flat_label by done. rewrite (clauses_flat 0 _ "=") by (done || by right).
    rewrite clauses_flat_label by done. by rewrite !string_app_assoc.
  - rewrite clauses_flat_label by done. rewrite (clauses_flat 0 _ "!=") by (done || by right).
    rewrite clauses_flat_label by done. by rewrite !string_app_assoc.
  - rewrite clauses_flat_label by done. rewrite (clauses_flat 0 _ " in ") by (done || by right).
    rewrite clauses_set by done. by rewrite !string_app_assoc.
  - rewrite clauses_flat_label by done. rewrite (clauses_flat 0 _ " notin ") by (done || by right).
    rewrite clauses_set by done. by rewrite !string_app_assoc.
  - by apply clauses_flat_label.
  - rewrite (clauses_flat 0 _ "!") by (done || by right). rewrite clauses_flat_label by done.
    by rewrite !string_app_assoc.
Qed.

Lemma split_render r l : forallb wf_requirement (r :: l) = true ->
  split_top_level (render (r :: l)) = map render_clause (r :: l).
Proof.
  unfold split_top_level, render. revert r. induction l as [|q l IH]; intros r Hl;
    cbn [forallb] in Hl; apply andb_true_iff in Hl as [Hr Hl].
  - cbn [map String.concat]. rewrite <- (string_app_nil_r (render_clause r)), clause_scan by done. cbn [clauses].
    by rewrite string_app_nil_r.
  - change (String.concat "," (map render_clause (r :: q :: l)))
      with (render_clause r +:+ String "," (String.concat "," (map render_clause (q :: l)))).
    rewrite clause_scan by done. change ("" +:+ render_clause r) with (render_clause r).
    change (clauses 0 ?c (String "," ?x)) with (c :: clauses 0 "" x). by rewrite IH.
Qed.

(** ** Reading one clause *)

Lemma render_trim r : wf_requirement r = true -> trim (render_clause r) = render_clause r.
Proof.
  destruct r as [k v | k v | k set | k set | k | k]; cbn [wf_requirement render_clause]; intros Hr;
    [apply andb_true_iff in Hr as [Hk Hv] | apply andb_true_iff in Hr as [Hk Hv] |
     apply andb_true_iff in Hr as [Hk Hv] | apply andb_true_iff in Hr as [Hk Hv] | |].
  1, 2: apply trim_graphic; rewrite !str_all_app, (label_graphic k), (label_graphic v) by (done || by apply label_key_value); done.
  3, 4: apply trim_graphic; rewrite ?str_all_app, (label_graphic k) by (by apply label_key_value); done.
  all: destruct k as [|a m]; [done |]; apply label_key_value in Hk; unfold label_value in Hk; cbn [str_all] in Hk;
    apply andb_true_iff in Hk as [Ha _]; unfold render_set; rewrite <- !string_app_assoc, !(string_app_cons a);
    apply trim_edges; [by apply label_char_graphic | done].
Qed.

Lemma no_bang k rest : label_key k = true -> strip_prefix "!" (k +:+ rest) = None.
Proof.
  intros Hk. destruct k as [|a m]; [done |]. apply label_key_value in Hk. unfold label_value in Hk. cbn [str_all] in Hk.
  apply andb_true_iff in Hk as [Ha _]. rewrite (string_app_cons a). cbn [strip_prefix].
  by rewrite Ascii.eqb_sym, (label_char_not a "!"%char).
Qed.

Lemma nonempty_app k rest : label_key k = true -> eqb (k +:+ rest) "" = false.
Proof.
  intros Hk. apply label_key_nonempty in Hk. destruct k; [done |]. rewrite string_app_cons. by apply eqb_false.
Qed.

Lemma trim_key_ok debug k c what : label_key k = true -> trim_key debug k c what = Ok k.
Proof.
  intros Hk. unfold trim_key. rewrite trim_graphic by (by apply label_graphic, label_key_value).
  by rewrite label_key_nonempty.
Qed.

Section Reading.
Context (debug : string -> string).

Lemma parse_set k op set :
  label_key k = true -> label_key op = true -> forallb label_key set = true ->
  parse_label_clause debug (k +:+ (" " +:+ op +:+ " ") +:+ render_set set) =
  parse_set_clause debug (k +:+ (" " +:+ op +:+ " ") +:+ render_set set) (k +:+ " " +:+ op +:+ " ")
    (String.concat "," set +:+ ")").
Proof.
  intros Hk Ho Hs. unfold parse_label_clause. rewrite nonempty_app, no_bang by done.
  assert (split_once "("%char (k +:+ (" " +:+ op +:+ " ") +:+ render_set set) =
    Some (k +:+ " " +:+ op +:+ " ", String.concat "," set +:+ ")")) as ->; [| done].
  unfold render_set. rewrite <- string_app_assoc.
  change ("(" +:+ String.concat "," set +:+ ")") with (String "(" (String.concat "," set +:+ ")")).
  apply split_once_free. rewrite !free_app, (label_free _ k), (label_free _ op) by (done || by apply label_key_value). done.
Qed.

Lemma parse_set_values c k op set :
  label_key k = true -> label_key op = true -> forallb label_key set = true ->
  parse_set_clause debug c (k +:+ " " +:+ op +:+ " ") (String.concat "," set +:+ ")") =
  if eqb op "in" then Ok (Some (InSet k set))
  else if eqb op "notin" then Ok (Some (NotIn k set))
  else Err (bad_selector debug "labelSelector" c "set requires 'in' or 'notin'").
Proof.
  intros Hk Ho Hs. unfold parse_set_clause. rewrite rsplit_once_last, set_head, set_values_concat by done. done.
Qed.

Lemma read_clause r : wf_requirement r = true -> parse_label_clause debug (render_clause r) = Ok (Some r).
Proof.
  destruct r as [k v | k v | k set | k set | k | k]; cbn [wf_requirement render_clause]; intros Hr;
    [apply andb_true_iff in Hr as [Hk Hv] | apply andb_true_iff in Hr as [Hk Hv] |
     apply andb_true_iff in Hr as [Hk Hv] | apply andb_true_iff in Hr as [Hk Hv] | |].
  - unfold parse_label_clause. rewrite nonempty_app, no_bang by done.
    pose proof (label_free "="%char _ ltac:(done) (label_key_value _ Hk)) as Fk.
    pose proof (label_free "="%char _ ltac:(done) Hv) as Fv.
    assert (forall c, label_char c = false -> Ascii.eqb "="%char c = false -> free_of c (k +:+ "=" +:+ v) = true) as Fr.
    { intros c Hc He. rewrite !free_app, (label_free _ k), (label_free _ v) by (done || by apply label_key_value). unfold free_of. cbn [str_all]. by rewrite He. }
    rewrite split_once_absent by (by apply Fr). rewrite split_once_str_none by (by apply Fr).
    rewrite no_double_equals by done. change ("=" +:+ v) with (String "=" v). rewrite split_once_free by done.
    rewrite trim_key_ok by done. cbn [result_bind]. by rewrite trim_graphic by (by apply label_graphic).
  - unfold parse_label_clause. rewrite nonempty_app, no_bang by done.
    rewrite split_once_absent by (rewrite !free_app, (label_free _ k), (label_free _ v) by (done || by apply label_key_value); done).
    rewrite split_once_str_free by (by apply label_free, label_key_value).
    rewrite trim_key_ok by done. cbn [result_bind]. by rewrite trim_graphic by (by apply label_graphic).
  - change " in " with (" " +:+ "in" +:+ " "). by rewrite parse_set, parse_set_values.
  - change " notin " with (" " +:+ "notin" +:+ " "). by rewrite parse_set, parse_set_values.
  - unfold parse_label_clause. rewrite label_key_nonempty by done.
    pose proof (no_bang k "" Hr) as Hb. rewrite string_app_nil_r in Hb. rewrite Hb. apply label_key_value in Hr. rewrite split_once_absent, split_once_str_none, split_once_str_none, split_once_absent
      by (by apply label_free). done.
  - unfold parse_label_clause. rewrite strip_prefix_app.
    rewrite (proj2 (eqb_false _ _)) by (by change ("!" +:+ k) with (String "!" k)).
    rewrite trim_graphic by (by apply label_graphic, label_key_value). by rewrite label_key_nonempty.
Qed.

Lemma read_clauses l : forallb wf_requirement l = true ->
  parse_clauses (parse_label_clause debug) (map render_clause l) = Ok l.
Proof.
  induction l as [|r l IH]; [done |]. cbn [forallb map parse_clauses]. intros Hl.
  apply andb_true_iff in Hl as [Hr Hl]. rewrite render_trim, read_clause by done. cbn [result_bind].
  by rewrite IH.
Qed.

End Reading.

(** (C31) A label selector is read as written: the text of any list of equality, set
    and existence requirements over label keys and values parses back to exactly
    that list. *)
Theorem selector_round_trip (debug : string -> string) (l : list LabelRequirement.t) :
  forallb wf_requirement l = true -> parse_label_selector debug (Some (render l)) = Ok l.
Proof.
  intros Hl. unfold parse_label_selector. destruct l as [|r l]; [done |].
  assert (eqb (render (r :: l)) "" = false) as ->.
  { apply eqb_false. intros He. pose proof (split_render r l Hl) as Hs. rewrite He in Hs. cbn in Hs.
    injection Hs as Hr _. cbn [forallb] in Hl. apply andb_true_iff in Hl as [Hw _].
    pose proof (read_clause debug r Hw) as Hc. by rewrite <- Hr in Hc. }
  rewrite split_render by done. by apply read_clauses.
Qed.

(** A list and a watch select the same keys. *)
Lemma watch_scope_is_list_scope key group version kind namespace :
  gvk_ns_matches key group version kind namespace = contains (mkListScope group version kind namespace) key.
Proof.
  unfold gvk_ns_matches, contains. cbn [sc_group sc_version sc_kind sc_namespace].
  destruct (eqb (Resource.group key) group), (eqb (Resource.version key) version), (eqb (Resource.kind key) kind);
    cbn [negb orb andb]; try done.
  destruct namespace as [want|], (Resource.namespace key) as [have|] eqn:E; cbn [is_none_or]; try done.
  destruct (eqb want have) eqn:Ew.
  - apply eqb_true in Ew as ->. symmetry. by apply eqb_true.
  - symmetry. apply eqb_false. intros [= ->]. by rewrite eqb_refl in Ew.
Qed.

Lemma selector_round_trip_witness :
  parse_label_selector (fun s => s) (Some "app=web,tier in (front,edge),!canary") =
  Ok [Equals "app" "web"; InSet "tier" ["front"; "edge"]; NotExists "canary"].
Proof.
  exact (selector_round_trip (fun s => s) [Equals "app" "web"; InSet "tier" ["front"; "edge"]; NotExists "canary"] eq_refl).
Defined.

(** ** What else is let through *)

(** Text after the closing parenthesis of a set is dropped, though a malformed
    clause is documented as an error. *)
Lemma set_tail_dropped :
  parse_label_clause (fun s => s) "env in (a,b) and more" = Ok (Some (InSet "env" ["a"; "b"])).
Proof. vm_compute. reflexivity. Qed.

(** After an unmatched closing parenthesis, commas no longer separate clauses:
    the second requirement becomes part of the first one's value. *)
Lemma unmatched_close_joins :
  parse_label_selector (fun s => s) (Some "env=a),tier=web") = Ok [Equals "env" "a),tier=web"].
Proof. vm_compute. reflexivity. Qed.

(** A resume point of zero, which the code reads as unset, is an explicit
    revision when written otherwise. *)
Lemma zero_written_twice p : p_resource_version p = Some "00" -> resume_point (fun s => s) p = Ok (At 0).
Proof. unfold resume_point. by intros ->. Qed.
