(* ===== verification/Names.v ===== *)
(** * Object names

    [engenho-types/src/name.rs]: the naming rule of a kind, the check of a name
    against it and the reasons it is refused.  A string is its UTF-8 bytes; the
    character a refusal names is the whole sequence that starts there. *)

From Stdlib Require Import Ascii String.
From stdpp Require Import base tactics option list strings numbers pretty.
From S2P Require Import Prelude Text.

Local Open Scope string_scope.
Local Open Scope Z_scope.

Module NameRule.

Inductive t : Type := Label | Subdomain | PathSegment.

#[global] Instance t_eq_dec : EqDecision t.
Proof. solve_decision. Defined.

Definition for_kind (group kind : string) : t :=
  if eqb group "" && (eqb kind "Namespace" || eqb kind "Service") then Label
  else if eqb group "rbac.authorization.k8s.io" &&
          (eqb kind "Role" || eqb kind "ClusterRole" || eqb kind "RoleBinding" || eqb kind "ClusterRoleBinding")
  then PathSegment
  else Subdomain.

Definition max_len (r : t) : option Z :=
  match r with Label => Some 63 | Subdomain => Some 253 | PathSegment => None end.

End NameRule.

Module NameError.

Inductive t : Type :=
| Empty
| TooLong (len max : Z)
| IllegalCharacter (ch : string)
| BadBoundary
| BadDotting
| Reserved (name : string)
| IllegalSubstring (part : string).

#[global] Instance t_eq_dec : EqDecision t.
Proof. solve_decision. Defined.

(** [debug_char] is the [Debug] text of a character. *)
Definition to_string (debug_char : string -> string) (e : t) : string :=
  match e with
  | Empty => "name must not be empty"
  | TooLong len max => "name is " +:+ pretty len +:+ " characters; must be at most " +:+ pretty max
  | IllegalCharacter ch =>
      "name contains " +:+ debug_char ch +:+
      "; must consist of lowercase alphanumeric characters, '-', and (for subdomains) '.'"
  | BadBoundary => "name must start and end with a lowercase alphanumeric character"
  | BadDotting => "name has an empty or misplaced '.' separated part"
  | Reserved name => "may not be '" +:+ name +:+ "'"
  | IllegalSubstring part => "may not contain '" +:+ part +:+ "'"
  end.

End NameError.

Definition is_ascii_lowercase (c : ascii) : bool := (97 <=? code c) && (code c <=? 122).
Definition is_ascii_uppercase (c : ascii) : bool := (65 <=? code c) && (code c <=? 90).
Definition is_ascii_alphanumeric (c : ascii) : bool :=
  is_ascii_lowercase c || is_ascii_uppercase c || is_ascii_digit c.

(** The bytes of the character whose first byte is given. *)
Definition utf8_len (c : ascii) : nat :=
  if code c <? 192 then 1%nat else if code c <? 224 then 2%nat else if code c <? 240 then 3%nat else 4%nat.

Definition name_char (rule : NameRule.t) (c : ascii) : bool :=
  is_ascii_lowercase c || is_ascii_digit c || Ascii.eqb c "-" ||
  (Ascii.eqb c "." && eqb rule NameRule.Subdomain).

(** The first character of a name that is not of the alphabet. *)
Fixpoint illegal (rule : NameRule.t) (s : string) : option string :=
  match s with
  | EmptyString => None
  | String c rest => if name_char rule c then illegal rule rest else Some (substring 0 (utf8_len c) s)
  end.

Definition first_char (s : string) : ascii := match s with String c _ => c | EmptyString => "-"%char end.
Definition last_char (s : string) : ascii := first_char (String.rev s).

Fixpoint check_parts (parts : list string) : result unit NameError.t :=
  match parts with
  | [] => Ok tt
  | part :: parts =>
      if eqb part "" then Err NameError.BadDotting
      else if negb (is_ascii_alphanumeric (first_char part)) || negb (is_ascii_alphanumeric (last_char part))
      then Err NameError.BadBoundary
      else check_parts parts
  end.

Definition parse_path_segment (name : string) : result string NameError.t :=
  if eqb name "." then Err (NameError.Reserved ".")
  else if eqb name ".." then Err (NameError.Reserved "..")
  else if str_contains "/" name then Err (NameError.IllegalSubstring "/")
  else if str_contains "%" name then Err (NameError.IllegalSubstring "%")
  else Ok name.

Definition name_parse (name : string) (rule : NameRule.t) : result string NameError.t :=
  if eqb name "" then Err NameError.Empty
  else if eqb rule NameRule.PathSegment then parse_path_segment name
  else
    let len := Z.of_nat (String.length name) in
    match NameRule.max_len rule with
    | Some max =>
        if max <? len then Err (NameError.TooLong len max)
        else
          match illegal rule name with
          | Some ch => Err (NameError.IllegalCharacter ch)
          | None => let? _ := check_parts (split_char "." name) in Ok name
          end
    | None =>
        match illegal rule name with
        | Some ch => Err (NameError.IllegalCharacter ch)
        | None => let? _ := check_parts (split_char "." name) in Ok name
        end
    end.

Definition parse_for_kind (name group kind : string) : result string NameError.t :=
  name_parse name (NameRule.for_kind group kind).

(** ** The grammar *)

(** A DNS-1123 label: lowercase letters, digits and dashes, no dash at either
    end. *)
Definition label_body (c : ascii) : bool := is_ascii_lowercase c || is_ascii_digit c || Ascii.eqb c "-".
Definition dns_label (s : string) : Prop :=
  s <> "" /\ str_all label_body s = true /\ first_char s <> "-"%char /\ last_char s <> "-"%char.

(** What each rule means. *)
Definition lawful (rule : NameRule.t) (name : string) : Prop :=
  match rule with
  | NameRule.Label => dns_label name /\ Z.of_nat (String.length name) <= 63
  | NameRule.Subdomain =>
      (exists parts, parts <> [] /\ Forall dns_label parts /\ name = String.concat "." parts) /\
      Z.of_nat (String.length name) <= 253
  | NameRule.PathSegment =>
      name <> "" /\ name <> "." /\ name <> ".." /\
      str_all (fun c => negb (Ascii.eqb c "/" || Ascii.eqb c "%")) name = true
  end.

(** ** The check is the grammar *)

Lemma label_not_dot c : label_body c = true -> Ascii.eqb c "."%char = false.
Proof. destruct (Ascii.eqb c "."%char) eqn:E; [| done]. apply Ascii.eqb_eq in E. by subst c. Qed.

(** Within the alphabet, an alphanumeric is anything but a dash. *)
Lemma boundary c : label_body c = true -> is_ascii_alphanumeric c = true <-> c <> "-"%char.
Proof.
  unfold label_body, is_ascii_alphanumeric. intros Hc. split.
  - intros Ha ->. done.
  - intros Hne. apply orb_true_iff in Hc as [Hc | Hc]; [| by apply Ascii.eqb_eq in Hc].
    apply orb_true_iff in Hc as [-> | ->]; [done |]. by rewrite orb_true_r.
Qed.

Lemma str_all_first p s : str_all p s = true -> s <> "" -> p (first_char s) = true.
Proof. destruct s as [|c s]; [done |]. simpl. intros H _. by apply andb_true_iff in H as [? _]. Qed.

Lemma rev_nonempty s : s <> "" -> String.rev s <> "".
Proof. intros Hs He. apply Hs. rewrite <- (string_rev_rev s). by rewrite He. Qed.

Lemma str_all_last p s : str_all p s = true -> s <> "" -> p (last_char s) = true.
Proof. intros Hp Hs. apply str_all_first; [by rewrite str_all_rev | by apply rev_nonempty]. Qed.

Lemma check_parts_labels parts :
  Forall (fun p => str_all label_body p = true) parts ->
  check_parts parts = Ok tt <-> Forall dns_label parts.
Proof.
  induction 1 as [|p parts Hp _ IH]; [done |]. cbn [check_parts]. rewrite Forall_cons, <- IH. unfold dns_label.
  destruct (eqb p "") eqn:E; [apply (proj1 (eqb_true _ _)) in E; split; [done | by intros [[? _] _]] |].
  apply (proj1 (eqb_false _ _)) in E.
  pose proof (boundary _ (str_all_first _ _ Hp E)) as Hf. pose proof (boundary _ (str_all_last _ _ Hp E)) as Hl.
  destruct (is_ascii_alphanumeric (first_char p)), (is_ascii_alphanumeric (last_char p)); simpl;
    naive_solver.
Qed.

(** The alphabet check passes exactly the names of the alphabet. *)
Lemma illegal_none rule s : illegal rule s = None <-> str_all (name_char rule) s = true.
Proof.
  induction s as [|c s IH]; [done |]. cbn [illegal str_all]. destruct (name_char rule c); [done |]. done.
Qed.

Lemma free_label s : str_all label_body s = true -> free_of "." s = true.
Proof. apply str_all_weaken. intros c Hc. by rewrite label_not_dot. Qed.

Lemma label_chars s : str_all (name_char NameRule.Label) s = str_all label_body s.
Proof.
  induction s as [|c s IH]; [done |]. cbn [str_all]. rewrite IH. unfold name_char, label_body.
  by rewrite andb_false_r, orb_false_r.
Qed.

Lemma concat_chars p l :
  str_all p (String.concat "." l) = true -> Forall (fun x => str_all p x = true) l.
Proof.
  induction l as [|x l IH]; [by constructor |]. destruct l as [|y l].
  - simpl. by repeat constructor.
  - change (String.concat "." (x :: y :: l)) with (x +:+ "." +:+ String.concat "." (y :: l)).
    rewrite str_all_app. intros H. apply andb_true_iff in H as [Hx H]. constructor; [done |]. apply IH.
    rewrite str_all_app in H. by apply andb_true_iff in H as [_ ?].
Qed.

Lemma chars_concat p l :
  p "."%char = true -> Forall (fun x => str_all p x = true) l -> str_all p (String.concat "." l) = true.
Proof.
  intros Hd. induction 1 as [|x l Hx Hl IH]; [done |]. destruct l as [|y l]; [done |].
  change (String.concat "." (x :: y :: l)) with (x +:+ "." +:+ String.concat "." (y :: l)).
  rewrite !str_all_app, Hx, IH. cbn [str_all]. by rewrite Hd.
Qed.

(** The dot-separated parts of a name of the subdomain alphabet. *)
Lemma subdomain_parts s :
  str_all (name_char NameRule.Subdomain) s = true ->
  Forall (fun p => str_all label_body p = true) (split_char "." s).
Proof.
  intros Hs. rewrite <- (concat_split "." s) in Hs. apply concat_chars in Hs.
  pose proof (split_char_pieces "." s) as Hf. induction Hs as [|p l Hp Hl IH]; [by constructor |].
  inversion Hf as [|? ? Hfp Hfl]; subst. constructor; [| by apply IH]. clear - Hp Hfp.
  unfold free_of in Hfp. induction p as [|c p IH]; [done |]. cbn [str_all] in *.
  apply andb_true_iff in Hp as [Hc Hp]. apply andb_true_iff in Hfp as [Hn Hfp]. rewrite IH by done.
  unfold name_char in Hc. apply negb_true_iff in Hn. rewrite Hn, orb_false_r in Hc. unfold label_body. by rewrite Hc.
Qed.

Lemma contains_char c s : str_contains (String c "") s = negb (str_all (fun x => negb (Ascii.eqb x c)) s).
Proof.
  induction s as [|x s IH]; [done |]. cbn [str_contains str_all]. rewrite IH.
  unfold starts_with. cbn [strip_prefix]. rewrite (Ascii.eqb_sym x c). by destruct (Ascii.eqb c x), (str_all _ s).
Qed.

Lemma str_all_and (p q : ascii -> bool) s : str_all (fun c => p c && q c) s = str_all p s && str_all q s.
Proof. induction s as [|c s IH]; [done |]. cbn [str_all]. rewrite IH. by destruct (p c), (q c), (str_all p s). Qed.

Lemma path_segment_lawful name :
  name <> "" -> parse_path_segment name = Ok name <-> lawful NameRule.PathSegment name.
Proof.
  intros Hne. unfold parse_path_segment, lawful. rewrite !contains_char.
  assert (str_all (fun c => negb (Ascii.eqb c "/" || Ascii.eqb c "%")) name =
          str_all (fun x => negb (Ascii.eqb x "/")) name && str_all (fun x => negb (Ascii.eqb x "%")) name) as ->.
  { rewrite <- str_all_and. clear Hne. induction name as [|c s IH]; [done |]. cbn [str_all].
    by rewrite IH, negb_orb. }
  destruct (eqb name ".") eqn:E1; [apply (proj1 (eqb_true _ _)) in E1; split; [done | tauto] |].
  destruct (eqb name "..") eqn:E2; [apply (proj1 (eqb_true _ _)) in E2; split; [done | tauto] |].
  apply (proj1 (eqb_false _ _)) in E1, E2.
  destruct (str_all (fun x => negb (Ascii.eqb x "/")) name), (str_all (fun x => negb (Ascii.eqb x "%")) name);
    simpl; naive_solver.
Qed.

(** Within the length and the alphabet, the parts decide. *)
Lemma parts_lawful rule name :
  rule <> NameRule.PathSegment -> name <> "" -> str_all (name_char rule) name = true ->
  check_parts (split_char "." name) = Ok tt <->
  (exists parts, parts <> [] /\ Forall dns_label parts /\ name = String.concat "." parts) /\
  (rule = NameRule.Label -> dns_label name).
Proof.
  intros Hr Hne Hs.
  assert (Forall (fun p => str_all label_body p = true) (split_char "." name)) as Hp.
  { destruct rule; [| by apply subdomain_parts | done]. rewrite label_chars in Hs.
    rewrite split_char_free by (by apply free_label). by repeat constructor. }
  rewrite check_parts_labels by done. split.
  - intros Hl. split.
    + exists (split_char "." name). split_and!; [apply split_char_ne | done | by rewrite concat_split].
    + intros ->. rewrite label_chars in Hs. rewrite split_char_free in Hl by (by apply free_label).
      by inversion Hl.
  - intros [(parts & Hn & Hl & ->) _]. rewrite split_concat; [done | done |].
    eapply Forall_impl; [done |]. intros p (_ & Hb & _). by apply free_label.
Qed.

Lemma name_parse_same name rule out : name_parse name rule = Ok out -> out = name.
Proof.
  unfold name_parse, parse_path_segment. repeat case_match; try done; try (by intros [= <-]).
  all: destruct (check_parts _); [by intros [= <-] | done].
Qed.

(** The two rules with an alphabet. *)
Lemma dns_exact name rule max :
  NameRule.max_len rule = Some max -> name <> "" ->
  name_parse name rule = Ok name <->
  Z.of_nat (String.length name) <= max /\
  (exists parts, parts <> [] /\ Forall dns_label parts /\ name = String.concat "." parts) /\
  (rule = NameRule.Label -> dns_label name).
Proof.
  intros Hm Hne. unfold name_parse. rewrite (proj2 (eqb_false name "")) by done.
  assert (rule <> NameRule.PathSegment) as Hr by (by destruct rule).
  rewrite (proj2 (eqb_false rule NameRule.PathSegment)), Hm by done.
  destruct (Z.ltb_spec max (Z.of_nat (String.length name))) as [Hlt | Hge]; [split; [done | lia] |].
  destruct (illegal rule name) as [ch|] eqn:Ei.
  - split; [done |]. intros (_ & (parts & _ & Hl & He) & Hlab). exfalso.
    assert (str_all (name_char rule) name = true) as Hs; [| apply illegal_none in Hs; congruence].
    destruct rule; [rewrite label_chars; apply Hlab; done | | done]. rewrite He. apply chars_concat; [done |].
    eapply Forall_impl; [exact Hl |]. intros p (_ & Hb & _). revert Hb. apply str_all_weaken.
    intros c Hc. unfold name_char. unfold label_body in Hc. by rewrite Hc.
  - apply illegal_none in Ei. rewrite <- (parts_lawful rule name) by done.
    destruct (check_parts _) as [[]|]; simpl; naive_solver.
Qed.

Lemma label_parts name : dns_label name -> exists parts, parts <> [] /\ Forall dns_label parts /\ name = String.concat "." parts.
Proof. intros Hl. exists [name]. split_and!; [done | by apply Forall_singleton | done]. Qed.

Lemma name_parse_lawful name rule : name_parse name rule = Ok name <-> lawful rule name.
Proof.
  destruct (decide (name = "")) as [-> | Hne].
  { split; [done |]. intros Hl. exfalso. destruct rule; simpl in Hl.
    - by destruct Hl as [[? _] _].
    - destruct Hl as [([|p l] & ? & Hl & He) _]; [done |]. apply Forall_cons in Hl as [(Hp & _) _].
      destruct p as [|c p]; [done |]. by destruct l.
    - tauto. }
  destruct rule.
  - rewrite (dns_exact _ _ 63) by done. simpl. pose proof (label_parts name). naive_solver.
  - rewrite (dns_exact _ _ 253) by done. simpl. naive_solver.
  - unfold name_parse. rewrite (proj2 (eqb_false name "")) by done. by apply path_segment_lawful.
Qed.

(** Names are checked exactly: a name passes the rule of its kind, unchanged, if
    and only if it is a word of the rule's grammar: a DNS-1123 label of at most
    63 bytes, dot-separated labels of at most 253, or a path segment. *)
Theorem name_exact (name group kind out : string) :
  parse_for_kind name group kind = Ok out <-> out = name /\ lawful (NameRule.for_kind group kind) name.
Proof.
  unfold parse_for_kind. rewrite <- name_parse_lawful. split; [| by intros [-> ?]].
  intros Ho. by rewrite (name_parse_same _ _ _ Ho) in Ho |- *.
Qed.
