(* ===== verification/ObjectBody.v ===== *)
(** * The body of a write that is the stored object

    [engenho-apiserver/src/object_body.rs]: the normalisation of a POST or PUT
    body, or of a patched object, before it is stored: null metadata maps and
    lists are dropped, null label values become empty, and metadata of the wrong
    shape is refused, at the root and in the templates built-in kinds embed.
    Facts: normalising twice is normalising once, and what is stored has
    metadata of the right shape. *)

From Stdlib Require Import Ascii String.
From stdpp Require Import base tactics option list strings numbers pretty.
From S2P Require Import Prelude Text BTreeMap Json ApiErrors.

Local Open Scope string_scope.
Local Open Scope Z_scope.

Module JsonKind.

Inductive t : Type := Null | Boolean | Number | Str | Array | Object.

#[global] Instance t_eq_dec : EqDecision t.
Proof. solve_decision. Defined.

Definition kind_of (v : json) : t :=
  match v with
  | JNull => Null
  | JBool _ => Boolean
  | JNumber _ => Number
  | JString _ => Str
  | JArray _ => Array
  | JObject _ => Object
  end.

(** [admits]. *)
Definition fits (k : t) (v : json) : bool := eqb (kind_of v) k.

Definition to_string (k : t) : string :=
  match k with
  | Null => "null"
  | Boolean => "boolean"
  | Number => "number"
  | Str => "string"
  | Array => "array"
  | Object => "object"
  end.

End JsonKind.

(** ** Paths *)

Inductive Segment : Type := Field (name : string) | Key (key : string) | Index (index : nat).

Definition FieldPath : Type := list Segment.

Definition segment_text (first : bool) (s : Segment) : string :=
  match s with
  | Field name => if first then name else "." +:+ name
  | Key key => "[" +:+ key +:+ "]"
  | Index index => "[" +:+ pretty (Z.of_nat index) +:+ "]"
  end.

Definition path_text (p : FieldPath) : string :=
  match p with
  | [] => "(root)"
  | s :: p => segment_text true s +:+ String.concat "" (map (segment_text false) p)
  end.

Record MetaShapeError : Type := mkShapeError {
  shape_path : FieldPath;
  expected : JsonKind.t;
  found : JsonKind.t
}.

Definition shape_text (e : MetaShapeError) : string :=
  path_text (shape_path e) +:+ ": expected " +:+ JsonKind.to_string (expected e) +:+ ", got " +:+
  JsonKind.to_string (found e).

(** [Undecodable]. *)
Definition undecodable (version kind error : string) : string :=
  kind +:+ " in version " +:+ quoted version +:+ " cannot be handled as a " +:+ kind +:+ ": " +:+ error.

Definition request_error (e : MetaShapeError) (version kind : string) : ApiError.t :=
  ApiError.BadRequest (undecodable version kind (shape_text e)).

Definition admission_error (e : MetaShapeError) (version kind : string) : ApiError.t :=
  ApiError.Internal (undecodable version kind (shape_text e)).

(** ** Metadata *)

Definition STRING_MAP_FIELDS : list string := ["labels"; "annotations"].
Definition ARRAY_FIELDS : list (string * JsonKind.t) :=
  [("ownerReferences", JsonKind.Object); ("finalizers", JsonKind.Str)].

Definition embedded_meta_parents (group kind : string) : list (list string) :=
  if (eqb group "apps" && existsb (eqb kind) ["Deployment"; "ReplicaSet"; "DaemonSet"; "StatefulSet"]) ||
     (eqb group "batch" && eqb kind "Job") || (eqb group "" && eqb kind "ReplicationController")
  then [["spec"; "template"]]
  else if eqb group "" && eqb kind "PodTemplate" then [["template"]]
  else if eqb group "batch" && eqb kind "CronJob"
  then [["spec"; "jobTemplate"]; ["spec"; "jobTemplate"; "spec"; "template"]]
  else [].

(** The entries of a label map, in order. *)
Fixpoint normalize_entries (path : FieldPath) (m : btmap string json)
  : result (btmap string json) MetaShapeError :=
  match m with
  | [] => Ok []
  | (k, v) :: m =>
      let? v :=
        match v with
        | JString _ => Ok v
        | JNull => Ok (JString "")
        | other => Err (mkShapeError (path ++ [Key k])%list JsonKind.Str (JsonKind.kind_of other))
        end in
      let? m := normalize_entries path m in
      Ok ((k, v) :: m)
  end.

Definition normalize_map_field (path : string -> FieldPath) (meta : btmap string json) (field : string)
  : result (btmap string json) MetaShapeError :=
  match bt_get field meta with
  | None => Ok meta
  | Some JNull => Ok (bt_remove field meta)
  | Some (JObject m) =>
      let? m := normalize_entries (path field) m in
      Ok (bt_insert field (JObject m) meta)
  | Some other => Err (mkShapeError (path field) JsonKind.Object (JsonKind.kind_of other))
  end.

(** The first item of the wrong kind. *)
Fixpoint misfit (k : JsonKind.t) (index : nat) (items : list json) : option (nat * json) :=
  match items with
  | [] => None
  | item :: items => if JsonKind.fits k item then misfit k (S index) items else Some (index, item)
  end.

Definition normalize_array_field (path : string -> FieldPath) (meta : btmap string json)
    (field : string * JsonKind.t) : result (btmap string json) MetaShapeError :=
  let '(field, item_kind) := field in
  match bt_get field meta with
  | None => Ok meta
  | Some JNull => Ok (bt_remove field meta)
  | Some (JArray items) =>
      match misfit item_kind 0 items with
      | None => Ok meta
      | Some (index, item) =>
          Err (mkShapeError (path field ++ [Index index])%list item_kind (JsonKind.kind_of item))
      end
  | Some other => Err (mkShapeError (path field) JsonKind.Array (JsonKind.kind_of other))
  end.

(** Run each step of a loop on what the one before left. *)
Fixpoint each {A S E} (f : S -> A -> result S E) (l : list A) (s : S) : result S E :=
  match l with [] => Ok s | x :: l => let? s := f s x in each f l s end.

Definition normalize_object_meta (meta : btmap string json) (at_ : list string)
  : result (btmap string json) MetaShapeError :=
  let path field := (map Field at_ ++ [Field "metadata"; Field field])%list in
  let? meta := each (normalize_map_field path) STRING_MAP_FIELDS meta in
  each (normalize_array_field path) ARRAY_FIELDS meta.

Definition normalize_meta_slot (container : btmap string json) (at_ : list string)
  : result (btmap string json) MetaShapeError :=
  match bt_get "metadata" container with
  | None => Ok container
  | Some (JObject meta) =>
      let? meta := normalize_object_meta meta at_ in
      Ok (bt_insert "metadata" (JObject meta) container)
  | Some JNull => Ok (bt_remove "metadata" container)
  | Some other =>
      Err (mkShapeError (map Field at_ ++ [Field "metadata"])%list JsonKind.Object (JsonKind.kind_of other))
  end.

(** [f] on the object at [path] under [root], when every step is an object. *)
Fixpoint on_object_at {E} (path : list string) (f : btmap string json -> result (btmap string json) E)
    (root : btmap string json) : result (btmap string json) E :=
  match path with
  | [] => f root
  | step :: path =>
      match bt_get step root with
      | Some (JObject node) =>
          let? node := on_object_at path f node in
          Ok (bt_insert step (JObject node) root)
      | _ => Ok root
      end
  end.

Definition normalize_at (root : btmap string json) (parent : list string)
  : result (btmap string json) MetaShapeError :=
  on_object_at parent (fun container => normalize_meta_slot container parent) root.

(** [ObjectBody::normalize]; an [ObjectBody] is a value it returned. *)
Definition normalize (group kind : string) (body : json) : result json MetaShapeError :=
  match body with
  | JObject root =>
      let? root := normalize_meta_slot root [] in
      let? root := each normalize_at (embedded_meta_parents group kind) root in
      Ok (JObject root)
  | _ => Err (mkShapeError [] JsonKind.Object (JsonKind.kind_of body))
  end.

(** ** The shape of what is stored *)

Definition string_map (v : json) : bool :=
  match v with JObject m => forallb (fun e => JsonKind.fits JsonKind.Str e.2) m | _ => false end.
Definition array_of (k : JsonKind.t) (v : json) : bool :=
  match v with JArray l => forallb (JsonKind.fits k) l | _ => false end.

(** An [ObjectMeta] a controller can read without looking at kinds. *)
Record meta_shape (meta : btmap string json) : Prop := {
  shape_maps : forall f v, In f STRING_MAP_FIELDS -> bt_get f meta = Some v -> string_map v = true;
  shape_arrays : forall f k v, In (f, k) ARRAY_FIELDS -> bt_get f meta = Some v -> array_of k v = true
}.

Definition slot_shape (v : option json) : Prop :=
  match v with None => True | Some (JObject meta) => meta_shape meta | Some _ => False end.

(** The metadata held at a path. *)
Fixpoint slot (path : list string) (root : btmap string json) : option json :=
  match path with
  | [] => bt_get "metadata" root
  | step :: path => match bt_get step root with Some (JObject node) => slot path node | _ => None end
  end.

Lemma entries_shape path m m' : normalize_entries path m = Ok m' ->
  forallb (fun e => JsonKind.fits JsonKind.Str e.2) m' = true /\ map fst m' = map fst m.
Proof.
  revert m'. induction m as [|[k v] m IH]; intros m'; cbn [normalize_entries]; [by intros [= <-] |].
  destruct v; cbn [result_bind]; try done; destruct (normalize_entries path m) as [m1|] eqn:E; try done;
    cbn [result_bind]; intros [= <-]; destruct (IH _ eq_refl) as [Hf Hk]; cbn; by rewrite Hf, Hk.
Qed.

Lemma entries_id path m : forallb (fun e => JsonKind.fits JsonKind.Str e.2) m = true -> normalize_entries path m = Ok m.
Proof.
  induction m as [|[k v] m IH]; [done |]. cbn [forallb normalize_entries]. intros Hm.
  apply andb_true_iff in Hm as [Hv Hm]. rewrite IH by done. by destruct v.
Qed.

Lemma misfit_None k n l : misfit k n l = None <-> forallb (JsonKind.fits k) l = true.
Proof.
  revert n. induction l as [|x l IH]; intros n; [done |]. cbn [misfit forallb].
  by destruct (JsonKind.fits k x).
Qed.

(** What a step does to a map: one key is put right, the others are kept. *)
Record settles (f : string) (good : json -> Prop) (m m' : btmap string json) : Prop := {
  settled : forall v, bt_get f m' = Some v -> good v;
  others_kept : forall g, g <> f -> bt_get g m' = bt_get g m;
  still_sorted : bt_sorted m'
}.

Lemma map_field_settles path f meta meta' :
  bt_sorted meta -> normalize_map_field path meta f = Ok meta' ->
  settles f (fun v => string_map v = true) meta meta'.
Proof.
  intros Hs. unfold normalize_map_field. destruct (bt_get f meta) as [v|] eqn:G.
  - destruct v; try done.
    + intros [= <-]. split; [by rewrite bt_get_remove_eq | | by apply bt_remove_sorted].
      intros g Hg. by apply bt_get_remove_ne.
    + destruct (normalize_entries (path f) m) as [m1|] eqn:E; cbn [result_bind]; [| done]. intros [= <-].
      split; [| intros g Hg; by apply bt_get_insert_ne | by apply bt_insert_sorted].
      intros v. rewrite bt_get_insert_eq. intros [= <-]. by apply (entries_shape _ _ _ E).
  - intros [= <-]. split; [by rewrite G | done | done].
Qed.

Lemma array_field_settles path f k meta meta' :
  bt_sorted meta -> normalize_array_field path meta (f, k) = Ok meta' ->
  settles f (fun v => array_of k v = true) meta meta'.
Proof.
  intros Hs. unfold normalize_array_field. destruct (bt_get f meta) as [v|] eqn:G.
  - destruct v; try done.
    + intros [= <-]. split; [by rewrite bt_get_remove_eq | | by apply bt_remove_sorted].
      intros g Hg. by apply bt_get_remove_ne.
    + destruct (misfit k 0 l) as [[i x]|] eqn:E; [done |]. intros [= <-].
      split; [| done | done]. rewrite G. intros v [= <-]. by apply misfit_None in E.
  - intros [= <-]. split; [by rewrite G | done | done].
Qed.

Lemma map_field_id path f meta :
  bt_sorted meta -> (forall v, bt_get f meta = Some v -> string_map v = true) ->
  normalize_map_field path meta f = Ok meta.
Proof.
  intros Hs Hg. unfold normalize_map_field. destruct (bt_get f meta) as [v|] eqn:G; [| done].
  specialize (Hg _ eq_refl). destruct v; try done. cbn in Hg. rewrite entries_id by done. cbn [result_bind].
  by rewrite bt_insert_get_id.
Qed.

Lemma array_field_id path f k meta :
  (forall v, bt_get f meta = Some v -> array_of k v = true) -> normalize_array_field path meta (f, k) = Ok meta.
Proof.
  intros Hg. unfold normalize_array_field. destruct (bt_get f meta) as [v|] eqn:G; [| done].
  specialize (Hg _ eq_refl). destruct v; try done. cbn in Hg. by apply (misfit_None k 0) in Hg as ->.
Qed.

Lemma object_meta_shape meta at_ meta' :
  bt_sorted meta -> normalize_object_meta meta at_ = Ok meta' -> meta_shape meta' /\ bt_sorted meta'.
Proof.
  intros Hs. unfold normalize_object_meta, STRING_MAP_FIELDS, ARRAY_FIELDS. cbn [each].
  set (path := fun field => _).
  destruct (normalize_map_field path meta "labels") as [m1|] eqn:E1; cbn [result_bind]; [| done].
  apply map_field_settles in E1 as [G1 _ S1]; [| done].
  destruct (normalize_map_field path m1 "annotations") as [m2|] eqn:E2; cbn [result_bind]; [| done].
  apply map_field_settles in E2 as [G2 K2 S2]; [| done].
  destruct (normalize_array_field path m2 _) as [m3|] eqn:E3; cbn [result_bind]; [| done].
  apply array_field_settles in E3 as [G3 K3 S3]; [| done].
  destruct (normalize_array_field path m3 _) as [m4|] eqn:E4; cbn [result_bind]; [| done].
  apply array_field_settles in E4 as [G4 K4 S4]; [| done]. intros [= <-]. split; [| done]. split.
  - intros f v [<- | [<- | []]]; rewrite K4, K3 by done; [rewrite K2 by done; apply G1 | apply G2].
  - intros f k v [[= <- <-] | [[= <- <-] | []]]; [rewrite K4 by done; apply G3 | apply G4].
Qed.

Lemma object_meta_id meta at_ : bt_sorted meta -> meta_shape meta -> normalize_object_meta meta at_ = Ok meta.
Proof.
  intros Hs [Hm Ha]. unfold normalize_object_meta, STRING_MAP_FIELDS, ARRAY_FIELDS. cbn [each].
  rewrite map_field_id by (done || intros v; apply Hm; simpl; auto). cbn [result_bind].
  rewrite map_field_id by (done || intros v; apply Hm; simpl; auto). cbn [result_bind].
  rewrite array_field_id by (intros v; apply Ha; simpl; auto). cbn [result_bind].
  by rewrite array_field_id by (intros v; apply Ha; simpl; auto).
Qed.

(** ** Well-formed values stay so *)

Lemma entries_wf path m m' : normalize_entries path m = Ok m' -> wf_json (JObject m) = true -> wf_json (JObject m') = true.
Proof.
  rewrite !wf_json_object. revert m'. induction m as [|[k v] m IH]; intros m'; cbn [normalize_entries]; [by intros [= <-] |].
  destruct (match v with JString _ => Ok v | JNull => Ok (JString "") | _ => Err _ end) as [v1|] eqn:Ev;
    cbn [result_bind]; [| done].
  destruct (normalize_entries path m) as [m1|] eqn:E; cbn [result_bind]; [| done]. intros [= <-] [Hs Hf].
  rewrite bt_sorted_cons in Hs |- *. destruct Hs as [Hs Hlt]. rewrite Forall_cons_iff in Hf |- *.
  destruct Hf as [Hv Hf]. destruct (IH _ eq_refl (conj Hs Hf)) as [Hs1 Hf1].
  pose proof (proj2 (entries_shape _ _ _ E)) as Hk. split; [split; [done |] | split; [| done]].
  - rewrite List.Forall_forall in Hlt |- *. intros [k1 w1] Hin. apply (in_map fst) in Hin. rewrite Hk in Hin.
    apply in_map_iff in Hin as ([k2 w2] & Heq & Hin). simpl in Heq. subst k2. apply (Hlt _ Hin).
  - cbn. destruct v; try done; simplify_eq; done.
Qed.

Lemma map_field_wf path f meta meta' : normalize_map_field path meta f = Ok meta' ->
  wf_json (JObject meta) = true -> wf_json (JObject meta') = true.
Proof.
  unfold normalize_map_field. intros Hn Hw. destruct (bt_get f meta) as [v|] eqn:G; [| by simplify_eq].
  destruct v; try done; [simplify_eq; by apply wf_json_remove |].
  destruct (normalize_entries (path f) m) as [m1|] eqn:E; cbn [result_bind] in Hn; [| done]. simplify_eq.
  apply wf_json_insert; [| done]. eapply entries_wf; [exact E |]. by apply (wf_json_get f (JObject meta)).
Qed.

Lemma array_field_wf path f meta meta' : normalize_array_field path meta f = Ok meta' ->
  wf_json (JObject meta) = true -> wf_json (JObject meta') = true.
Proof.
  destruct f as [f k]. unfold normalize_array_field. intros Hn Hw. destruct (bt_get f meta) as [v|]; [| by simplify_eq].
  destruct v; try done; [simplify_eq; by apply wf_json_remove |].
  destruct (misfit k 0 l) as [[]|]; [done | by simplify_eq].
Qed.

Lemma each_wf {A} (f : btmap string json -> A -> result (btmap string json) MetaShapeError) l m m' :
  (forall m x m', f m x = Ok m' -> wf_json (JObject m) = true -> wf_json (JObject m') = true) ->
  each f l m = Ok m' -> wf_json (JObject m) = true -> wf_json (JObject m') = true.
Proof.
  intros Hf. revert m. induction l as [|x l IH]; intros m; cbn [each]; [by intros [= <-] |].
  destruct (f m x) as [m1|] eqn:E; cbn [result_bind]; [| done]. intros He Hw. eapply IH; [exact He |]. by eapply Hf.
Qed.

Lemma object_meta_wf meta at_ meta' : normalize_object_meta meta at_ = Ok meta' ->
  wf_json (JObject meta) = true -> wf_json (JObject meta') = true.
Proof.
  unfold normalize_object_meta. cbv zeta. destruct (each _ _ meta) as [m1|] eqn:E; cbn [result_bind]; [| done].
  intros He Hw. eapply each_wf; [| exact He |]; [intros; by eapply array_field_wf |].
  eapply each_wf; [| exact E | done]. intros; by eapply map_field_wf.
Qed.

Lemma meta_slot_wf c at_ c' : normalize_meta_slot c at_ = Ok c' ->
  wf_json (JObject c) = true -> wf_json (JObject c') = true.
Proof.
  unfold normalize_meta_slot. intros Hn Hw. destruct (bt_get "metadata" c) as [v|] eqn:G; [| by simplify_eq].
  destruct v; try done; [simplify_eq; by apply wf_json_remove |].
  destruct (normalize_object_meta m at_) as [m1|] eqn:E; cbn [result_bind] in Hn; [| done]. simplify_eq.
  apply wf_json_insert; [| done]. eapply object_meta_wf; [exact E |]. by apply (wf_json_get "metadata" (JObject c)).
Qed.

Lemma on_object_at_wf {E} path (f : btmap string json -> result (btmap string json) E) root root' :
  (forall m m', f m = Ok m' -> wf_json (JObject m) = true -> wf_json (JObject m') = true) ->
  on_object_at path f root = Ok root' -> wf_json (JObject root) = true -> wf_json (JObject root') = true.
Proof.
  intros Hf. revert root root'. induction path as [|s path IH]; intros root root'; cbn [on_object_at]; [apply Hf |].
  destruct (bt_get s root) as [v|] eqn:G; [| by intros [= <-]].
  destruct v; try by intros [= <-]. destruct (on_object_at path f m) as [m1|] eqn:E'; cbn [result_bind]; [| done].
  intros [= <-] Hw. apply wf_json_insert; [| done]. eapply IH; [exact E' |]. by apply (wf_json_get s (JObject root)).
Qed.

(** ** Slots *)

Lemma meta_slot_settles c at_ c' : bt_sorted c -> wf_json (JObject c) = true -> normalize_meta_slot c at_ = Ok c' ->
  slot_shape (bt_get "metadata" c') /\ forall g, g <> "metadata" -> bt_get g c' = bt_get g c.
Proof.
  intros Hs Hw. unfold normalize_meta_slot. destruct (bt_get "metadata" c) as [v|] eqn:G.
  - destruct v; try done.
    + intros [= <-]. rewrite bt_get_remove_eq by done. split; [done |]. intros g Hg. by apply bt_get_remove_ne.
    + destruct (normalize_object_meta m at_) as [m1|] eqn:E; cbn [result_bind]; [| done]. intros [= <-].
      rewrite bt_get_insert_eq. split; [| intros g Hg; by apply bt_get_insert_ne].
      apply (object_meta_shape m at_); [| done]. apply (wf_json_get "metadata" (JObject c)) in G; [| done].
      by apply wf_json_object in G as [? _].
  - intros [= <-]. by rewrite G.
Qed.

Lemma meta_slot_id c at_ : bt_sorted c -> wf_json (JObject c) = true -> slot_shape (bt_get "metadata" c) ->
  normalize_meta_slot c at_ = Ok c.
Proof.
  intros Hs Hw Hg. unfold normalize_meta_slot. destruct (bt_get "metadata" c) as [v|] eqn:G; [| done].
  destruct v; try done. cbn in Hg. apply (wf_json_get "metadata" (JObject c)) in G as Hm; [| done].
  apply wf_json_object in Hm as [Hm _]. rewrite object_meta_id by done. cbn [result_bind]. by rewrite bt_insert_get_id.
Qed.

(** Putting the metadata at one path right keeps the metadata at another. *)
Lemma normalize_at_slots path at_ root root' :
  wf_json (JObject root) = true -> on_object_at path (fun c => normalize_meta_slot c at_) root = Ok root' ->
  ~ In "metadata" path ->
  slot_shape (slot path root') /\
  forall q, q <> path -> ~ In "metadata" q -> slot q root' = slot q root.
Proof.
  revert root root'. induction path as [|s path IH]; intros root root' Hw Ho Hp; cbn [on_object_at] in Ho.
  - apply meta_slot_settles in Ho as [Hg Hk]; [| by apply wf_sorted | done]. split; [done |].
    intros [|t q] Hq Hnm; [done |]. cbn [slot]. rewrite Hk; [done |]. intros ->. apply Hnm. by left.
  - destruct (bt_get s root) as [v|] eqn:G; [| injection Ho as <-; split; [cbn [slot]; by rewrite G | done]].
    destruct v; try (injection Ho as <-; split; [cbn [slot]; by rewrite G | done]).
    destruct (on_object_at path _ m) as [m1|] eqn:E; cbn [result_bind] in Ho; [| done]. injection Ho as <-.
    assert (wf_json (JObject m) = true) as Hm by (by apply (wf_json_get s (JObject root))).
    destruct (IH _ _ Hm E ltac:(intros Hin; apply Hp; by right)) as [Hg Hk]. split.
    + cbn [slot]. by rewrite bt_get_insert_eq.
    + intros [|t q] Hq Hnm; cbn [slot].
      * apply bt_get_insert_ne. intros <-. apply Hp. by left.
      * destruct (decide (t = s)) as [-> | Hts]; [| by rewrite bt_get_insert_ne].
        rewrite bt_get_insert_eq, G. apply Hk; [congruence |]. intros Hin. apply Hnm. by right.
Qed.

Lemma normalize_at_id path at_ root :
  wf_json (JObject root) = true -> slot_shape (slot path root) ->
  on_object_at path (fun c => normalize_meta_slot c at_) root = Ok root.
Proof.
  revert root. induction path as [|s path IH]; intros root Hw Hg; cbn [on_object_at].
  - by apply meta_slot_id; [apply wf_sorted | |].
  - cbn [slot] in Hg. destruct (bt_get s root) as [v|] eqn:G; [| done]. destruct v; try done.
    assert (wf_json (JObject m) = true) as Hm by (by apply (wf_json_get s (JObject root))).
    rewrite IH by done. cbn [result_bind]. by rewrite bt_insert_get_id by (done || by apply wf_sorted).
Qed.

Lemma each_slots l root root' :
  List.NoDup l -> (forall p, In p l -> ~ In "metadata" p) -> wf_json (JObject root) = true ->
  each normalize_at l root = Ok root' ->
  wf_json (JObject root') = true /\ (forall p, In p l -> slot_shape (slot p root')) /\
  (forall q, ~ In q l -> ~ In "metadata" q -> slot q root' = slot q root).
Proof.
  revert root. induction l as [|p l IH]; intros root Hnd Hm Hw; cbn [each]; [by intros [= <-] |].
  destruct (normalize_at root p) as [r1|] eqn:E; cbn [result_bind]; [| done]. intros He.
  apply NoDup_cons_iff in Hnd as [Hp Hnd]. unfold normalize_at in E.
  assert (wf_json (JObject r1) = true) as Hw1.
  { refine (on_object_at_wf p _ _ _ _ E Hw). intros m m'. apply meta_slot_wf. }
  destruct (normalize_at_slots _ _ _ _ Hw E ltac:(apply Hm; by left)) as [Hg Hk].
  destruct (IH r1 Hnd ltac:(intros q Hq; apply Hm; by right) Hw1 He) as (Hw' & Hgs & Hks).
  split; [done |]. split.
  - intros q [<- | Hq]; [| by apply Hgs]. rewrite Hks; [done | done |]. apply Hm. by left.
  - intros q Hq Hnm. rewrite Hks by (done || intros Hin; apply Hq; by right). apply Hk; [| done].
    intros ->. apply Hq. by left.
Qed.

Lemma each_id l root : wf_json (JObject root) = true -> (forall p, In p l -> slot_shape (slot p root)) ->
  each normalize_at l root = Ok root.
Proof.
  intros Hw. induction l as [|p l IH]; intros Hg; [done |]. cbn [each]. unfold normalize_at at 1.
  rewrite normalize_at_id by (done || apply Hg; by left). cbn [result_bind]. apply IH. intros q Hq. apply Hg. by right.
Qed.

Lemma parents_ok group kind :
  List.NoDup ([] :: embedded_meta_parents group kind) /\
  forall p, In p ([] :: embedded_meta_parents group kind) -> ~ In "metadata" p.
Proof.
  unfold embedded_meta_parents. repeat case_match; split;
    try (repeat (apply List.NoDup_cons; [simpl; intuition discriminate |]); apply List.NoDup_nil);
    intros p Hp; simpl in Hp; intuition (subst; simpl in *; intuition discriminate).
Qed.

(** (C32) What is stored has readable metadata: normalising an object leaves
    [labels] and [annotations] maps of strings, [ownerReferences] objects and
    [finalizers] strings, at the root and in every template its kind embeds, and
    normalising the result again changes nothing. *)
Theorem normalize_shape (group kind : string) (body body' : json) :
  wf_json body = true -> normalize group kind body = Ok body' ->
  (exists root, body' = JObject root /\
     forall p, In p ([] :: embedded_meta_parents group kind) -> slot_shape (slot p root)) /\
  wf_json body' = true /\ normalize group kind body' = Ok body'.
Proof.
  intros Hw. unfold normalize. destruct body as [| | | | | root]; try done.
  destruct (normalize_meta_slot root []) as [r1|] eqn:E1; cbn [result_bind]; [| done].
  destruct (each normalize_at _ r1) as [r2|] eqn:E2; cbn [result_bind]; [| done]. intros [= <-].
  destruct (parents_ok group kind) as [Hnd Hm].
  destruct (each_slots ([] :: embedded_meta_parents group kind) root r2 Hnd Hm Hw) as (Hw2 & Hg & _).
  { cbn [each]. unfold normalize_at at 1. cbn [on_object_at]. by rewrite E1. }
  split; [by exists r2 |]. split; [done |].
  rewrite meta_slot_id by (done || (by apply wf_sorted) || (apply (Hg []); by left)). cbn [result_bind].
  rewrite each_id; [done | done |]. intros p Hp. apply Hg. by right.
Qed.

Definition sample_deployment : json :=
  jobj [("metadata", jobj [("name", JString "web"); ("labels", JNull); ("annotations", jobj [("note", JNull)])]);
        ("spec", jobj [("template", jobj [("metadata", jobj [("finalizers", JNull)])])])].

Lemma normalize_shape_witness :
  normalize "apps" "Deployment" sample_deployment =
    Ok (jobj [("metadata", jobj [("name", JString "web"); ("annotations", jobj [("note", JString "")])]);
              ("spec", jobj [("template", jobj [("metadata", jobj [])])])]) /\
  exists b, normalize "apps" "Deployment" sample_deployment = Ok b /\ normalize "apps" "Deployment" b = Ok b.
Proof.
  split; [vm_compute; reflexivity |].
  destruct (normalize "apps" "Deployment" sample_deployment) as [b|] eqn:E; [| vm_compute in E; discriminate].
  exists b. split; [reflexivity |]. exact (proj2 (proj2 (normalize_shape "apps" "Deployment" sample_deployment b eq_refl E))).
Defined.
