(* ===== verification/Defaulting.v ===== *)
(** * Defaults of the built-in kinds

    [engenho-apiserver/src/defaulting.rs]: the fields a pod, a secret and a
    service are given when a write leaves them out. *)

From Stdlib Require Import Ascii String.
From stdpp Require Import base tactics option list strings numbers.
From S2P Require Import Prelude Text BTreeMap Json Resource Command Read Pagination WatchBackend.
From S2P Require Import ApiErrors Coords Params.

Local Open Scope string_scope.
Local Open Scope Z_scope.

(** [get_mut] of a field, then a change in place. *)
Definition at_field (k : string) (f : json -> json) (m : btmap string json) : btmap string json :=
  match bt_get k m with Some v => bt_insert k (f v) m | None => m end.

(** [as_object_mut] and [as_array_mut]. *)
Definition on_object (f : btmap string json -> btmap string json) (v : json) : json :=
  match v with JObject m => JObject (f m) | _ => v end.
Definition on_items (f : json -> json) (v : json) : json :=
  match v with JArray l => JArray (map f l) | _ => v end.

Definition fill_str (key value : string) (m : btmap string json) : btmap string json :=
  or_insert key (JString value) m.

Definition default_port : json -> json := on_object (fill_str "protocol" "TCP").

Definition pulls_always (image : string) : bool :=
  match rsplit_once ":"%char image with
  | Some (_, tag) => if negb (str_contains "/" tag) then eqb tag "latest" else true
  | None => true
  end.

Definition default_pull_policy (c : btmap string json) : btmap string json :=
  if bt_contains "imagePullPolicy" c then c
  else
    let image := default "" (bt_get "image" c ≫= as_str) in
    bt_insert "imagePullPolicy" (JString (if pulls_always image then "Always" else "IfNotPresent")) c.

Definition default_container (c : btmap string json) : btmap string json :=
  at_field "ports" (on_items default_port)
    (default_pull_policy
       (fill_str "terminationMessagePolicy" "File"
          (fill_str "terminationMessagePath" "/dev/termination-log" c))).

Definition default_containers (spec : btmap string json) (field : string) : btmap string json :=
  at_field field (on_items (on_object default_container)) spec.

Definition default_pod_spec (spec : btmap string json) : btmap string json :=
  let spec := fill_str "restartPolicy" "Always" spec in
  let spec := fill_str "dnsPolicy" "ClusterFirst" spec in
  let spec := fill_str "schedulerName" "default-scheduler" spec in
  let spec := or_insert "terminationGracePeriodSeconds" (JNumber (PosInt 30)) spec in
  let spec := or_insert "securityContext" (JObject []) spec in
  fold_left default_containers ["containers"; "initContainers"] spec.

Definition default_service_spec (spec : btmap string json) : btmap string json :=
  let spec := fill_str "type" "ClusterIP" spec in
  let spec := fill_str "sessionAffinity" "None" spec in
  at_field "ports" (on_items default_port) spec.

Definition default_secret : json -> json := on_object (fill_str "type" "Opaque").

Definition default_apply (group version kind : string) (body : json) : json :=
  if negb (eqb group "" && eqb version "v1") then body
  else if eqb kind "Pod" then on_object (at_field "spec" (on_object default_pod_spec)) body
  else if eqb kind "Secret" then default_secret body
  else if eqb kind "Service" then on_object (at_field "spec" (on_object default_service_spec)) body
  else body.

(** ** Filling *)

(** [extends v w]: [w] holds everything [v] holds, where [v] holds it; what it
    adds are fields [v] has not got. *)
#[warnings="-register-all"]
Inductive extends : json -> json -> Prop :=
| ExtSame v : extends v v
| ExtObject m n :
    (forall k x, bt_get k m = Some x -> exists y, bt_get k n = Some y /\ extends x y) ->
    extends (JObject m) (JObject n)
| ExtArray l l' : Forall2 extends l l' -> extends (JArray l) (JArray l').

#[local] Hint Constructors extends : core.

Definition fills (f : btmap string json -> btmap string json) : Prop :=
  forall m k x, bt_get k m = Some x -> exists y, bt_get k (f m) = Some y /\ extends x y.

Lemma extends_trans u v w : extends u v -> extends v w -> extends u w.
Proof.
  revert v w. induction u as [| | | | l IH | m IH] using json_nested_ind; intros v w Huv Hvw;
    inversion Huv as [| ? n' Hmn | ? l' Hl]; subst; try done.
  - inversion Hvw as [| | ? l'' Hl']; subst; [done |]. constructor. clear Huv Hvw. revert l' l'' Hl Hl'.
    induction IH as [|x l Hx _ IHl]; intros l' l'' Hl Hl'; inversion Hl; subst; inversion Hl'; subst; constructor; eauto.
  - inversion Hvw as [| ? n'' Hnn |]; subst; [done |]. constructor. intros k x Hk.
    destruct (Hmn k x Hk) as (y & Hy & Hxy). destruct (Hnn k y Hy) as (z & Hz & Hyz).
    exists z. split; [done |]. assert (exists e, In e m /\ e.2 = x) as (e & He & <-).
    { exists (k, x). split; [by apply bt_get_mem | done]. }
    rewrite List.Forall_forall in IH. eauto.
Qed.

Lemma fills_comp f g : fills f -> fills g -> fills (fun m => g (f m)).
Proof.
  intros Hf Hg m k x Hk. destruct (Hf m k x Hk) as (y & Hy & Hxy). destruct (Hg _ k y Hy) as (z & Hz & Hyz).
  exists z. eauto using extends_trans.
Qed.

Lemma fills_or_insert k v : fills (or_insert k v).
Proof.
  intros m k' x Hk. exists x. split; [| done]. unfold or_insert. destruct (bt_get k m) eqn:E; [done |].
  rewrite bt_get_insert_ne; [done |]. intros ->. congruence.
Qed.

Lemma fills_at_field k f : (forall v, extends v (f v)) -> fills (at_field k f).
Proof.
  intros Hf m k' x Hk. unfold at_field. destruct (bt_get k m) as [v|] eqn:E; [| by eauto].
  destruct (decide (k' = k)) as [-> | Hne].
  - rewrite bt_get_insert_eq. assert (x = v) as -> by congruence. eauto.
  - rewrite bt_get_insert_ne by done. eauto.
Qed.

Lemma extends_on_object f v : fills f -> extends v (on_object f v).
Proof. intros Hf. destruct v; simpl; eauto. Qed.

Lemma extends_on_items f v : (forall x, extends x (f x)) -> extends v (on_items f v).
Proof.
  intros Hf. destruct v; simpl; eauto. constructor. induction l; simpl; constructor; eauto.
Qed.

(** ** Settling *)

(** What a step leaves is what the step would do again. *)
Definition has (k : string) (m : btmap string json) : Prop := bt_get k m <> None.
Definition fixes (k : string) (f : json -> json) (m : btmap string json) : Prop :=
  forall v, bt_get k m = Some v -> f v = v.

Lemma or_insert_has k v m : has k (or_insert k v m).
Proof. unfold has, or_insert. destruct (bt_get k m) eqn:E; [congruence |]. by rewrite bt_get_insert_eq. Qed.

Lemma or_insert_keeps k v m k' : has k' m -> has k' (or_insert k v m).
Proof.
  unfold has, or_insert. intros Hk. destruct (bt_get k m) eqn:E; [done |].
  destruct (decide (k' = k)) as [-> | Hne]; [by rewrite bt_get_insert_eq | by rewrite bt_get_insert_ne].
Qed.

Lemma or_insert_id k v m : has k m -> or_insert k v m = m.
Proof. unfold has, or_insert. by destruct (bt_get k m). Qed.

Lemma at_field_keeps k f m k' : has k' m -> has k' (at_field k f m).
Proof.
  unfold has, at_field. intros Hk. destruct (bt_get k m) eqn:E; [| done].
  destruct (decide (k' = k)) as [-> | Hne]; [by rewrite bt_get_insert_eq | by rewrite bt_get_insert_ne].
Qed.

Lemma at_field_fixes k f m : (forall v, bt_get k m = Some v -> f (f v) = f v) -> fixes k f (at_field k f m).
Proof.
  intros Hf v. unfold at_field. destruct (bt_get k m) eqn:E; [| congruence].
  rewrite bt_get_insert_eq. intros [= <-]. by apply Hf.
Qed.

Lemma at_field_keeps_fixes k f m k' f' : k' <> k -> fixes k' f' m -> fixes k' f' (at_field k f m).
Proof.
  intros Hne Hf v. unfold at_field. destruct (bt_get k m) eqn:E; [| apply Hf].
  rewrite bt_get_insert_ne by done. apply Hf.
Qed.

Lemma at_field_id k f m : bt_sorted m -> fixes k f m -> at_field k f m = m.
Proof.
  intros Hs Hf. unfold at_field. destruct (bt_get k m) eqn:E; [| done].
  rewrite (Hf _ E). by apply bt_insert_get_id.
Qed.

Lemma on_items_idem f v :
  wf_json v = true -> (forall x, wf_json x = true -> f (f x) = f x) -> on_items f (on_items f v) = on_items f v.
Proof.
  intros Hw Hf. destruct v; simpl; [done .. | | done]. f_equal. rewrite map_map.
  apply wf_json_array in Hw. induction Hw; simpl; [done |]. f_equal; auto.
Qed.

(** ** The kinds *)

Lemma fills_fill_str k v : fills (fill_str k v).
Proof. apply fills_or_insert. Qed.

Lemma fills_pull_policy : fills default_pull_policy.
Proof.
  intros m k x Hk. unfold default_pull_policy. destruct (bt_contains "imagePullPolicy" m) eqn:E; [by eauto |].
  exists x. split; [| done]. rewrite bt_get_insert_ne; [done |]. intros ->. unfold bt_contains in E. by rewrite Hk in E.
Qed.

Lemma extends_port v : extends v (default_port v).
Proof. apply extends_on_object, fills_fill_str. Qed.

#[local] Hint Resolve fills_fill_str fills_pull_policy fills_or_insert fills_at_field fills_comp
  extends_port extends_on_object extends_on_items : core.

Lemma fills_container : fills default_container.
Proof.
  apply (fills_comp (fun c => default_pull_policy _)); [| by apply fills_at_field; eauto].
  apply (fills_comp (fun c => fill_str _ _ _)); [| done].
  by apply (fills_comp (fill_str "terminationMessagePath" "/dev/termination-log")).
Qed.

Lemma fills_containers k : fills (fun m => default_containers m k).
Proof. apply fills_at_field. intros v. apply extends_on_items. intros x. apply extends_on_object, fills_container. Qed.

Lemma fills_pod : fills default_pod_spec.
Proof.
  unfold default_pod_spec. cbn [fold_left].
  apply (fills_comp (fun m => default_containers _ "containers")); [| apply fills_containers].
  apply (fills_comp (fun m => or_insert "securityContext" _ _)); [| apply fills_containers].
  apply (fills_comp (fun m => or_insert "terminationGracePeriodSeconds" _ _)); [| done].
  apply (fills_comp (fun m => fill_str "schedulerName" _ _)); [| done].
  apply (fills_comp (fun m => fill_str "dnsPolicy" _ _)); [| done].
  by apply (fills_comp (fill_str "restartPolicy" "Always")).
Qed.

Lemma fills_service : fills default_service_spec.
Proof.
  unfold default_service_spec. apply (fills_comp (fun m => fill_str "sessionAffinity" _ _)); [| by apply fills_at_field; eauto].
  by apply (fills_comp (fill_str "type" "ClusterIP")).
Qed.

Lemma defaults_extend group version kind body : extends body (default_apply group version kind body).
Proof.
  unfold default_apply. repeat case_match; try done.
  - apply extends_on_object, fills_at_field. intros v. apply extends_on_object, fills_pod.
  - by apply extends_on_object.
  - apply extends_on_object, fills_at_field. intros v. apply extends_on_object, fills_service.
Qed.

(** *** Settled objects *)

Lemma port_idem v : default_port (default_port v) = default_port v.
Proof. destruct v as [| | | | |m]; simpl; [done .. |]. f_equal. apply or_insert_id, or_insert_has. Qed.

Lemma pull_policy_keeps k m : has k m -> has k (default_pull_policy m).
Proof.
  intros Hk. unfold default_pull_policy. case_match; [done |]. unfold has.
  destruct (decide (k = "imagePullPolicy")) as [-> | Hne]; [by rewrite bt_get_insert_eq | by rewrite bt_get_insert_ne].
Qed.

Lemma pull_policy_has m : has "imagePullPolicy" (default_pull_policy m).
Proof.
  unfold default_pull_policy, has. destruct (bt_contains "imagePullPolicy" m) eqn:E; [| by rewrite bt_get_insert_eq].
  unfold bt_contains in E. by destruct (bt_get "imagePullPolicy" m).
Qed.

Lemma pull_policy_id m : has "imagePullPolicy" m -> default_pull_policy m = m.
Proof. unfold default_pull_policy, has, bt_contains. by destruct (bt_get "imagePullPolicy" m). Qed.

Lemma sorted_or_insert k v m : bt_sorted m -> bt_sorted (or_insert k v m).
Proof. intros Hm. unfold or_insert. case_match; [done | by apply bt_insert_sorted]. Qed.

Lemma sorted_at_field k f m : bt_sorted m -> bt_sorted (at_field k f m).
Proof. intros Hm. unfold at_field. case_match; [by apply bt_insert_sorted | done]. Qed.

Lemma sorted_pull_policy m : bt_sorted m -> bt_sorted (default_pull_policy m).
Proof. intros Hm. unfold default_pull_policy. case_match; [done | by apply bt_insert_sorted]. Qed.

#[local] Hint Resolve sorted_or_insert sorted_at_field sorted_pull_policy : core.
#[local] Hint Resolve or_insert_has or_insert_keeps at_field_keeps pull_policy_keeps pull_policy_has port_idem : core.

Lemma wf_or_insert k v m :
  wf_json (JObject m) = true -> wf_json v = true -> wf_json (JObject (or_insert k v m)) = true.
Proof. intros Hm Hv. unfold or_insert. case_match; [done | by apply wf_json_insert]. Qed.

Lemma wf_pull_policy m : wf_json (JObject m) = true -> wf_json (JObject (default_pull_policy m)) = true.
Proof. intros Hm. unfold default_pull_policy. case_match; [done | by apply wf_json_insert]. Qed.

Lemma sorted_container m : bt_sorted m -> bt_sorted (default_container m).
Proof. unfold default_container, fill_str. auto. Qed.

Lemma container_idem m : wf_json (JObject m) = true -> default_container (default_container m) = default_container m.
Proof.
  intros Hw. pose proof (wf_sorted _ Hw) as Hs. unfold default_container at 1, fill_str. set (c := default_container m).
  rewrite (or_insert_id "terminationMessagePath") by (unfold c, default_container, fill_str; auto 8).
  rewrite (or_insert_id "terminationMessagePolicy") by (unfold c, default_container, fill_str; auto 8).
  rewrite pull_policy_id by (unfold c, default_container, fill_str; auto 8).
  apply at_field_id; [by apply sorted_container |]. apply at_field_fixes. intros v Hv.
  apply on_items_idem; [| by intros]. apply (wf_json_get "ports" (JObject (default_pull_policy
    (fill_str "terminationMessagePolicy" "File" (fill_str "terminationMessagePath" "/dev/termination-log" m))))); [| done].
  by apply wf_pull_policy, wf_or_insert; [apply wf_or_insert |].
Qed.

Lemma wf_at_field k f m :
  wf_json (JObject m) = true -> (forall v, wf_json v = true -> wf_json (f v) = true) ->
  wf_json (JObject (at_field k f m)) = true.
Proof.
  intros Hm Hf. unfold at_field. destruct (bt_get k m) eqn:E; [| done]. apply wf_json_insert; [| done].
  apply Hf. by apply (wf_json_get k (JObject m)).
Qed.

Lemma wf_on_items f v :
  wf_json v = true -> (forall x, wf_json x = true -> wf_json (f x) = true) -> wf_json (on_items f v) = true.
Proof.
  intros Hw Hf. destruct v; try done. apply wf_json_array in Hw. apply wf_json_array.
  induction Hw; simpl; constructor; auto.
Qed.

Lemma wf_port v : wf_json v = true -> wf_json (default_port v) = true.
Proof. destruct v; try done. intros Hw. by apply wf_or_insert. Qed.

Lemma wf_container m : wf_json (JObject m) = true -> wf_json (JObject (default_container m)) = true.
Proof.
  intros Hw. apply wf_at_field.
  - by apply wf_pull_policy, wf_or_insert; [apply wf_or_insert |].
  - intros v Hv. apply wf_on_items; [done |]. apply wf_port.
Qed.

Lemma wf_containers m k : wf_json (JObject m) = true -> wf_json (JObject (default_containers m k)) = true.
Proof.
  intros Hw. apply wf_at_field; [done |]. intros v Hv. apply wf_on_items; [done |].
  intros x Hx. destruct x; try done. by apply wf_container.
Qed.

(** The containers of a list settle. *)
Lemma containers_fixes k m :
  wf_json (JObject m) = true -> fixes k (on_items (on_object default_container)) (default_containers m k).
Proof.
  intros Hw. apply at_field_fixes. intros v Hv. apply on_items_idem; [by apply (wf_json_get k (JObject m)) |].
  intros x Hx. destruct x; try done. simpl. by rewrite container_idem.
Qed.

Lemma pod_idem m : wf_json (JObject m) = true -> default_pod_spec (default_pod_spec m) = default_pod_spec m.
Proof.
  intros Hw. unfold default_pod_spec at 2 3. cbn [fold_left].
  set (base := or_insert "securityContext" _ _).
  assert (wf_json (JObject base) = true) as Hb by (by repeat apply wf_or_insert).
  set (one := default_containers base "containers").
  assert (wf_json (JObject one) = true) as Ho by (by apply wf_containers).
  set (two := default_containers one "initContainers").
  assert (forall k, has k base -> has k two) as Hk by (intros k; unfold two, one, default_containers; auto).
  unfold default_pod_spec, fill_str. cbn [fold_left].
  rewrite (or_insert_id "restartPolicy") by (apply Hk; unfold base, fill_str; auto 8).
  rewrite (or_insert_id "dnsPolicy") by (apply Hk; unfold base, fill_str; auto 8).
  rewrite (or_insert_id "schedulerName") by (apply Hk; unfold base, fill_str; auto 8).
  rewrite (or_insert_id "terminationGracePeriodSeconds") by (apply Hk; unfold base, fill_str; auto 8).
  rewrite (or_insert_id "securityContext") by (apply Hk; unfold base, fill_str; auto 8).
  assert (bt_sorted two) as Hs by (by apply wf_sorted, wf_containers).
  unfold default_containers at 2. rewrite (at_field_id "containers"); [| done |].
  - apply at_field_id; [done |]. by apply containers_fixes.
  - unfold two. apply at_field_keeps_fixes; [done |]. by apply containers_fixes.
Qed.

Lemma service_idem m :
  wf_json (JObject m) = true -> default_service_spec (default_service_spec m) = default_service_spec m.
Proof.
  intros Hw. unfold default_service_spec at 1, fill_str. set (s := default_service_spec m).
  rewrite (or_insert_id "type") by (unfold s, default_service_spec, fill_str; auto 8).
  rewrite (or_insert_id "sessionAffinity") by (unfold s, default_service_spec, fill_str; auto 8).
  assert (wf_json (JObject (fill_str "sessionAffinity" "None" (fill_str "type" "ClusterIP" m))) = true) as Hb
    by (by repeat apply wf_or_insert).
  apply at_field_id; [by apply sorted_at_field, wf_sorted |]. apply at_field_fixes. intros v Hv.
  apply on_items_idem; [by apply (wf_json_get "ports" (JObject _) _ Hb) | auto].
Qed.

Lemma spec_idem f body :
  wf_json body = true -> (forall m, wf_json (JObject m) = true -> f (f m) = f m) ->
  on_object (at_field "spec" (on_object f)) (on_object (at_field "spec" (on_object f)) body) =
  on_object (at_field "spec" (on_object f)) body.
Proof.
  intros Hw Hf. destruct body as [| | | | |m]; try done. simpl. f_equal.
  apply at_field_id; [by apply sorted_at_field, wf_sorted |]. apply at_field_fixes. intros v Hv.
  pose proof (wf_json_get "spec" (JObject m) _ Hw Hv) as Hwv. destruct v; try done. simpl. by rewrite Hf.
Qed.

(** Defaulting only fills in: whatever a client wrote is still there, at its
    place and with its value, and nothing is left to fill, so an object read back
    and written again is not changed by it. *)
Theorem defaults_fill_only (group version kind : string) (body : json) :
  wf_json body = true ->
  extends body (default_apply group version kind body) /\
  default_apply group version kind (default_apply group version kind body) = default_apply group version kind body.
Proof.
  intros Hw. split; [apply defaults_extend |]. unfold default_apply. repeat case_match; try done.
  - apply spec_idem; [done | apply pod_idem].
  - destruct body; try done. simpl. f_equal. apply or_insert_id, or_insert_has.
  - apply spec_idem; [done | apply service_idem].
Qed.

Definition bare_pod : json :=
  jobj [("spec", jobj [("containers", JArray [jobj [("name", JString "c"); ("image", JString "registry:5000/app")]]);
                       ("restartPolicy", JString "Never")])].

Lemma defaults_fill_only_witness :
  extends bare_pod (default_apply "" "v1" "Pod" bare_pod) /\
  default_apply "" "v1" "Pod" (default_apply "" "v1" "Pod" bare_pod) = default_apply "" "v1" "Pod" bare_pod.
Proof. apply (defaults_fill_only "" "v1" "Pod" bare_pod). reflexivity. Defined.

(** The image pull policy of an image whose only colon is a registry's port. *)
Example bare_pod_pull :
  ((((jget "spec" (default_apply "" "v1" "Pod" bare_pod) ≫= jget "containers") ≫= as_array) ≫= head)
     ≫= jget "imagePullPolicy") =
  Some (JString "Always").
Proof. vm_compute. reflexivity. Qed.

Lemma wf_pod_spec m : wf_json (JObject m) = true -> wf_json (JObject (default_pod_spec m)) = true.
Proof. intros Hw. unfold default_pod_spec. cbn [fold_left]. do 2 apply wf_containers. by repeat apply wf_or_insert. Qed.

Lemma wf_service_spec m : wf_json (JObject m) = true -> wf_json (JObject (default_service_spec m)) = true.
Proof.
  intros Hw. apply wf_at_field; [by repeat apply wf_or_insert |]. intros v Hv. apply wf_on_items; [done | apply wf_port].
Qed.

Lemma wf_at_spec f body :
  wf_json body = true -> (forall m, wf_json (JObject m) = true -> wf_json (JObject (f m)) = true) ->
  wf_json (on_object (at_field "spec" (on_object f)) body) = true.
Proof.
  intros Hw Hf. destruct body; try done. apply wf_at_field; [done |]. intros v Hv. destruct v; try done. by apply Hf.
Qed.

Lemma default_apply_wf group version kind body :
  wf_json body = true -> wf_json (default_apply group version kind body) = true.
Proof.
  intros Hw. unfold default_apply. repeat case_match; try done.
  - apply wf_at_spec; [done | apply wf_pod_spec].
  - destruct body; try done. by apply wf_or_insert.
  - apply wf_at_spec; [done | apply wf_service_spec].
Qed.
