(* ===== verification/Validation.v ===== *)
(** * Validation of the built-in kinds

    [engenho-apiserver/src/validation.rs]: every violation of a pod or a service,
    in the order of the checks, and what an object without one looks like. *)

From Stdlib Require Import Ascii String.
From stdpp Require Import base tactics option list strings numbers pretty.
From S2P Require Import Prelude Text BTreeMap Json ApiErrors.

Local Open Scope string_scope.
Local Open Scope Z_scope.

Record Violation : Type := mkViolation { v_field : string; v_message : string }.

Definition violation_display (v : Violation) : string := v_field v +:+ ": " +:+ v_message v.

Definition RESTART_POLICIES : list string := ["Always"; "OnFailure"; "Never"].
Definition DNS_POLICIES : list string := ["ClusterFirst"; "ClusterFirstWithHostNet"; "Default"; "None"].
Definition PULL_POLICIES : list string := ["Always"; "IfNotPresent"; "Never"].
Definition PROTOCOLS : list string := ["TCP"; "UDP"; "SCTP"].
Definition SERVICE_TYPES : list string := ["ClusterIP"; "NodePort"; "LoadBalancer"; "ExternalName"].

Definition enum_field (obj : json) (path key : string) (allowed : list string) : list Violation :=
  match jget key obj with
  | None => []
  | Some v =>
      match as_str v with
      | None => [mkViolation (path +:+ "." +:+ key) "must be a string"]
      | Some s =>
          if existsb (eqb s) allowed then []
          else [mkViolation (path +:+ "." +:+ key)
                  ("unsupported value " +:+ quoted s +:+ ": supported values: " +:+ String.concat ", " allowed)]
      end
  end.

(** The checks of a list, each with its index. *)
Definition indexed {A} (path : string) (f : string -> A -> list Violation) (l : list A) : list Violation :=
  concat (imap (fun i x => f (path +:+ "[" +:+ pretty (Z.of_nat i) +:+ "]") x) l).

Definition port_number (path key : string) (n : Z) : list Violation :=
  if (1 <=? n) && (n <=? 65535) then []
  else [mkViolation (path +:+ "." +:+ key) ("must be between 1 and 65535, inclusive (got " +:+ pretty n +:+ ")")].

Definition validate_container_port (ppath : string) (p : json) : list Violation :=
  enum_field p ppath "protocol" PROTOCOLS ++
  match jget "containerPort" p ≫= as_i64 with
  | Some n => port_number ppath "containerPort" n
  | None => [mkViolation (ppath +:+ ".containerPort") "is required"]
  end.

(** The name of a container, and the names seen after it. *)
Definition validate_name (c : json) (path : string) (seen : list string) : list Violation * list string :=
  match jget "name" c ≫= as_str with
  | None | Some "" => ([mkViolation (path +:+ ".name") "is required"], seen)
  | Some name =>
      if existsb (eqb name) seen
      then ([mkViolation (path +:+ ".name") ("duplicate container name " +:+ quoted name)], seen)
      else ([], seen ++ [name])%list
  end.

Definition validate_container (c : json) (path : string) (seen : list string) : list Violation * list string :=
  let '(named, seen) := validate_name c path seen in
  let imaged :=
    if eqb (default "" (jget "image" c ≫= as_str)) "" then [mkViolation (path +:+ ".image") "is required"] else [] in
  let ports :=
    match jget "ports" c ≫= as_array with
    | Some ports => indexed (path +:+ ".ports") validate_container_port ports
    | None => []
    end in
  (named ++ imaged ++ enum_field c path "imagePullPolicy" PULL_POLICIES ++ ports, seen)%list.

Fixpoint validate_containers (i : nat) (path : string) (seen : list string) (l : list json) : list Violation :=
  match l with
  | [] => []
  | c :: l =>
      let '(out, seen) := validate_container c (path +:+ "[" +:+ pretty (Z.of_nat i) +:+ "]") seen in
      out ++ validate_containers (S i) path seen l
  end.

Definition validate_pod (body : json) : list Violation :=
  match jget "spec" body with
  | None => [mkViolation "spec" "is required"]
  | Some spec =>
      enum_field spec "spec" "restartPolicy" RESTART_POLICIES ++
      enum_field spec "spec" "dnsPolicy" DNS_POLICIES ++
      match jget "containers" spec ≫= as_array with
      | None | Some [] => [mkViolation "spec.containers" "must have at least one container"]
      | Some list => validate_containers 0 "spec.containers" [] list
      end ++
      match jget "initContainers" spec ≫= as_array with
      | None => []
      | Some list => validate_containers 0 "spec.initContainers" [] list
      end
  end.

Definition validate_service_port (ppath : string) (p : json) : list Violation :=
  enum_field p ppath "protocol" PROTOCOLS ++
  match jget "port" p ≫= as_i64 with Some n => port_number ppath "port" n | None => [] end.

Definition validate_service (body : json) : list Violation :=
  match jget "spec" body with
  | None => []
  | Some spec =>
      enum_field spec "spec" "type" SERVICE_TYPES ++
      (if eqb (jget "type" spec ≫= as_str) (Some "ExternalName") &&
          eqb (default "" (jget "externalName" spec ≫= as_str)) ""
       then [mkViolation "spec.externalName" "is required for type ExternalName"] else []) ++
      match jget "ports" spec ≫= as_array with
      | Some ports => indexed "spec.ports" validate_service_port ports
      | None => []
      end
  end.

Definition validate (group version kind : string) (body : json) : list Violation :=
  if negb (eqb group "" && eqb version "v1") then []
  else if eqb kind "Pod" then validate_pod body
  else if eqb kind "Service" then validate_service body
  else [].

(** ** What passes *)

Definition one_of (allowed : list string) (v : option json) : Prop :=
  forall w, v = Some w -> exists s, w = JString s /\ In s allowed.

Definition port_ok (v : option json) : Prop := exists n, (v ≫= as_i64) = Some n /\ 1 <= n <= 65535.

Definition container_port_ok (p : json) : Prop := one_of PROTOCOLS (jget "protocol" p) /\ port_ok (jget "containerPort" p).

(** A container: a name and an image, a known pull policy, ports in range. *)
Definition container_ok (c : json) : Prop :=
  (exists image, jget "image" c = Some (JString image) /\ image <> "") /\
  one_of PULL_POLICIES (jget "imagePullPolicy" c) /\
  forall ports, jget "ports" c = Some (JArray ports) -> Forall container_port_ok ports.

(** The names of containers, when each has one. *)
Definition names_of (l : list json) (names : list string) : Prop :=
  Forall2 (fun c name => jget "name" c = Some (JString name) /\ name <> "") l names.

Definition containers_ok (l : list json) : Prop :=
  (exists names, names_of l names /\ List.NoDup names) /\ Forall container_ok l.

(** A pod that can run. *)
Definition pod_ok (body : json) : Prop :=
  exists spec, jget "spec" body = Some spec /\
    one_of RESTART_POLICIES (jget "restartPolicy" spec) /\ one_of DNS_POLICIES (jget "dnsPolicy" spec) /\
    (exists l, jget "containers" spec = Some (JArray l) /\ l <> [] /\ containers_ok l) /\
    (forall l, jget "initContainers" spec = Some (JArray l) -> containers_ok l).

Definition service_ok (body : json) : Prop :=
  forall spec, jget "spec" body = Some spec ->
    one_of SERVICE_TYPES (jget "type" spec) /\
    (jget "type" spec = Some (JString "ExternalName") ->
       exists name, jget "externalName" spec = Some (JString name) /\ name <> "") /\
    (forall ports p n, jget "ports" spec = Some (JArray ports) -> In p ports ->
       one_of PROTOCOLS (jget "protocol" p) /\
       ((jget "port" p ≫= as_i64) = Some n -> 1 <= n <= 65535)).

(** ** Exactly *)

Lemma app_empty {A} (l l' : list A) : (l ++ l')%list = [] <-> l = [] /\ l' = [].
Proof. split; [apply app_nil | by intros [-> ->]]. Qed.

Lemma as_str_some v s : as_str v = Some s <-> v = JString s.
Proof. destruct v; simpl; naive_solver. Qed.

Lemma as_array_some v l : as_array v = Some l <-> v = JArray l.
Proof. destruct v; simpl; naive_solver. Qed.

Lemma get_str k v s : (jget k v ≫= as_str) = Some s <-> jget k v = Some (JString s).
Proof. destruct (jget k v); simpl; [rewrite as_str_some |]; naive_solver. Qed.

Lemma get_array k v l : (jget k v ≫= as_array) = Some l <-> jget k v = Some (JArray l).
Proof. destruct (jget k v); simpl; [rewrite as_array_some |]; naive_solver. Qed.

Lemma enum_exact obj path key allowed : enum_field obj path key allowed = [] <-> one_of allowed (jget key obj).
Proof.
  unfold enum_field, one_of. destruct (jget key obj) as [v|]; [| naive_solver].
  destruct (as_str v) as [s|] eqn:E.
  - apply as_str_some in E. subst v. destruct (existsb (eqb s) allowed) eqn:Ex.
    + split; [| done]. intros _ w [= <-]. exists s. split; [done |]. apply existsb_exists in Ex as (x & Hx & Hs).
      by apply (proj1 (eqb_true _ _)) in Hs as ->.
    + split; [done |]. intros H. destruct (H _ eq_refl) as (s' & [= <-] & Hin). exfalso.
      assert (existsb (eqb s) allowed = true); [| congruence]. apply existsb_exists. exists s. by rewrite eqb_refl.
  - split; [done |]. intros H. destruct (H _ eq_refl) as (s & -> & _). done.
Qed.

Lemma port_number_exact path key n : port_number path key n = [] <-> 1 <= n <= 65535.
Proof.
  unfold port_number. destruct (Z.leb_spec 1 n), (Z.leb_spec n 65535); simpl; split; try done; lia.
Qed.

Lemma concat_empty {A} (ll : list (list A)) : concat ll = [] <-> Forall (fun l => l = []) ll.
Proof.
  induction ll as [|l ll IH]; simpl; [split; [constructor | done] |]. rewrite app_empty, Forall_cons, IH. done.
Qed.

Lemma imap_Forall {A B} (f : nat -> A -> B) (P : B -> Prop) (Q : A -> Prop) l :
  (forall i x, P (f i x) <-> Q x) -> Forall P (imap f l) <-> Forall Q l.
Proof.
  revert f. induction l as [|x l IH]; intros f H; simpl; [split; constructor |].
  rewrite !Forall_cons, H. by rewrite (IH (f ∘ S)) by (intros; apply H).
Qed.

Lemma indexed_exact {A} path (f : string -> A -> list Violation) (Q : A -> Prop) l :
  (forall p x, f p x = [] <-> Q x) -> indexed path f l = [] <-> Forall Q l.
Proof. intros H. unfold indexed. rewrite concat_empty. apply imap_Forall. intros. apply H. Qed.

Lemma container_port_exact path p : validate_container_port path p = [] <-> container_port_ok p.
Proof.
  unfold validate_container_port, container_port_ok, port_ok. rewrite app_empty, enum_exact.
  destruct (jget "containerPort" p ≫= as_i64) as [n|].
  - rewrite port_number_exact. naive_solver.
  - naive_solver.
Qed.

(** The name check passes with a fresh name, and remembers it. *)
Lemma validate_name_exact c path seen seen' :
  validate_name c path seen = ([], seen') <->
  exists name, jget "name" c = Some (JString name) /\ name <> "" /\ ~ In name seen /\ seen' = (seen ++ [name])%list.
Proof.
  unfold validate_name. destruct (jget "name" c ≫= as_str) as [name|] eqn:E.
  - apply get_str in E. rewrite E. destruct name as [|a name]; [naive_solver |].
    destruct (existsb (eqb (String a name)) seen) eqn:Ex.
    + split; [done |]. intros (n & [= <-] & _ & Hn & _). destruct Hn. apply existsb_exists in Ex as (x & Hx & Hs).
      by apply (proj1 (eqb_true _ _)) in Hs as ->.
    + assert (~ In (String a name) seen).
      { intros Hin. assert (existsb (eqb (String a name)) seen = true); [| congruence].
        apply existsb_exists. eexists. by rewrite eqb_refl. }
      split; [intros [= <-]; by exists (String a name) | intros (n & [= <-] & _ & _ & ->); done].
  - split; [done |]. intros (n & Hn & _). apply get_str in Hn. congruence.
Qed.

Lemma image_exact c path :
  (if eqb (default "" (jget "image" c ≫= as_str)) "" then [mkViolation (path +:+ ".image") "is required"] else []) = [] <->
  exists image, jget "image" c = Some (JString image) /\ image <> "".
Proof.
  destruct (jget "image" c ≫= as_str) as [image|] eqn:E; simpl.
  - apply get_str in E. rewrite E. destruct (eqb image "") eqn:Ei.
    + apply (proj1 (eqb_true _ _)) in Ei. naive_solver.
    + apply (proj1 (eqb_false _ _)) in Ei. naive_solver.
  - split; [done |]. intros (n & Hn & _). apply get_str in Hn. congruence.
Qed.

Lemma validate_container_exact c path seen seen' :
  validate_container c path seen = ([], seen') <->
  (exists name, jget "name" c = Some (JString name) /\ name <> "" /\ ~ In name seen /\ seen' = (seen ++ [name])%list) /\
  container_ok c.
Proof.
  rewrite <- (validate_name_exact c path). unfold validate_container. destruct (validate_name c path seen) as [out s].
  unfold container_ok. rewrite <- (image_exact c path), <- (enum_exact c path).
  assert ((match jget "ports" c ≫= as_array with
           | Some ports => indexed (path +:+ ".ports") validate_container_port ports
           | None => []
           end) = [] <-> (forall ports, jget "ports" c = Some (JArray ports) -> Forall container_port_ok ports)) as <-.
  { destruct (jget "ports" c ≫= as_array) as [ports|] eqn:E.
    - apply get_array in E. rewrite E, (indexed_exact _ _ container_port_ok) by apply container_port_exact. naive_solver.
    - split; [| done]. intros _ ports Hp. apply get_array in Hp. congruence. }
  rewrite !pair_equal_spec, !app_empty. tauto.
Qed.

Lemma snoc_NoDup {A} (l : list A) x : List.NoDup l -> ~ In x l -> List.NoDup (l ++ [x]).
Proof.
  intros Hl Hx. apply List.NoDup_app; [done | |].
  - constructor; [simpl; tauto | constructor].
  - intros y Hy [-> | []]. done.
Qed.

Lemma validate_containers_exact i path seen l :
  List.NoDup seen ->
  validate_containers i path seen l = [] <->
  (exists names, names_of l names /\ List.NoDup (seen ++ names)) /\ Forall container_ok l.
Proof.
  revert i seen. induction l as [|c l IH]; intros i seen Hs; cbn [validate_containers].
  - split; [| done]. intros _. split; [| done]. exists []. split; [constructor | by rewrite app_nil_r].
  - destruct (validate_container c _ seen) as [out seen'] eqn:E. rewrite app_empty, Forall_cons. split.
    + intros [-> Hr]. apply validate_container_exact in E as [(name & Hn & Hne & Hin & ->) Hc].
      apply IH in Hr as [(names & Hns & Hnd) Hl].
      * split; [| done]. exists (name :: names). split; [by constructor |]. by rewrite <- app_assoc in Hnd.
      * by apply snoc_NoDup.
    + intros [(names & Hns & Hnd) [Hc Hl]]. inversion Hns as [|? name ? names' [Hn Hne] Hns']; subst.
      assert (~ In name seen) as Hin.
      { apply List.NoDup_remove_2 in Hnd. intros Hin. apply Hnd. apply in_or_app. by left. }
      assert (validate_container c (path +:+ "[" +:+ pretty (Z.of_nat i) +:+ "]") seen = ([], (seen ++ [name])%list)) as E'.
      { apply validate_container_exact. split; [by exists name | done]. }
      rewrite E in E'. injection E' as -> ->. split; [done |]. apply IH.
      * by apply snoc_NoDup.
      * split; [| done]. exists names'. by rewrite <- app_assoc.
Qed.

Lemma containers_exact path l : validate_containers 0 path [] l = [] <-> containers_ok l.
Proof. apply validate_containers_exact. constructor. Qed.

Lemma pod_exact body : validate_pod body = [] <-> pod_ok body.
Proof.
  unfold validate_pod, pod_ok. destruct (jget "spec" body) as [spec|]; [| naive_solver].
  rewrite !app_empty, !enum_exact.
  assert ((match jget "containers" spec ≫= as_array with
           | None | Some [] => [mkViolation "spec.containers" "must have at least one container"]
           | Some list => validate_containers 0 "spec.containers" [] list
           end) = [] <-> exists l, jget "containers" spec = Some (JArray l) /\ l <> [] /\ containers_ok l) as ->.
  { destruct (jget "containers" spec ≫= as_array) as [[|c l]|] eqn:E; try apply get_array in E.
    - rewrite E. naive_solver.
    - rewrite E, containers_exact. naive_solver.
    - split; [done |]. intros (l & Hl & _). apply get_array in Hl. congruence. }
  assert ((match jget "initContainers" spec ≫= as_array with
           | None => []
           | Some list => validate_containers 0 "spec.initContainers" [] list
           end) = [] <-> forall l, jget "initContainers" spec = Some (JArray l) -> containers_ok l) as ->.
  { destruct (jget "initContainers" spec ≫= as_array) as [l|] eqn:E.
    - apply get_array in E. rewrite E, containers_exact. naive_solver.
    - split; [| done]. intros _ l Hl. apply get_array in Hl. congruence. }
  naive_solver.
Qed.

Lemma service_exact body : validate_service body = [] <-> service_ok body.
Proof.
  unfold validate_service, service_ok. destruct (jget "spec" body) as [spec|]; [| naive_solver].
  rewrite !app_empty, enum_exact.
  assert ((if eqb (jget "type" spec ≫= as_str) (Some "ExternalName") &&
              eqb (default "" (jget "externalName" spec ≫= as_str)) ""
           then [mkViolation "spec.externalName" "is required for type ExternalName"] else []) = [] <->
          (jget "type" spec = Some (JString "ExternalName") ->
             exists name, jget "externalName" spec = Some (JString name) /\ name <> "")) as ->.
  { rewrite <- get_str. destruct (eqb (jget "type" spec ≫= as_str) _) eqn:E; simpl.
    - apply (proj1 (eqb_true _ _)) in E. destruct (jget "externalName" spec ≫= as_str) as [n|] eqn:En; simpl.
      + apply get_str in En. rewrite En. destruct (eqb n "") eqn:Ee; [apply (proj1 (eqb_true _ _)) in Ee |
          apply (proj1 (eqb_false _ _)) in Ee]; naive_solver.
      + split; [done |]. intros H. destruct (H E) as (n & Hn & _). apply get_str in Hn. congruence.
    - apply (proj1 (eqb_false _ _)) in E. naive_solver. }
  assert ((match jget "ports" spec ≫= as_array with
           | Some ports => indexed "spec.ports" validate_service_port ports
           | None => []
           end) = [] <-> forall ports p n, jget "ports" spec = Some (JArray ports) -> In p ports ->
       one_of PROTOCOLS (jget "protocol" p) /\ ((jget "port" p ≫= as_i64) = Some n -> 1 <= n <= 65535)) as ->.
  { destruct (jget "ports" spec ≫= as_array) as [ports|] eqn:E.
    - apply get_array in E. rewrite E, (indexed_exact _ _ (fun p => one_of PROTOCOLS (jget "protocol" p) /\
        forall n, (jget "port" p ≫= as_i64) = Some n -> 1 <= n <= 65535)).
      + rewrite List.Forall_forall. split; [naive_solver |]. intros H p Hp. split; [by apply (H _ p 0 eq_refl) | intros n; by apply (H _ p n eq_refl)].
      + intros path p. unfold validate_service_port. rewrite app_empty, enum_exact.
        destruct (jget "port" p ≫= as_i64); [rewrite port_number_exact |]; naive_solver.
    - split; [| done]. intros _ l p n Hl. apply get_array in Hl. congruence. }
  naive_solver.
Qed.

(** Validation is exact: an object without violations is one that can run, and
    one that can run has none.  For a pod: known restart and DNS policies, at
    least one container, every container with a name of its own in its list, an
    image, a known pull policy and ports from 1 to 65535; for a service, a known
    type, an external name where the type needs one, and ports in range. *)
Theorem validate_exact (body : json) :
  (validate "" "v1" "Pod" body = [] <-> pod_ok body) /\ (validate "" "v1" "Service" body = [] <-> service_ok body).
Proof. split; [apply pod_exact | apply service_exact]. Qed.

(** A container and an init container may share a name, although the name is
    what a status or a log is addressed by. *)
Lemma init_container_shadows :
  let c := jobj [("name", JString "app"); ("image", JString "img:1")] in
  validate "" "v1" "Pod"
    (jobj [("spec", jobj [("containers", JArray [c]); ("initContainers", JArray [c])])]) = [].
Proof. vm_compute. reflexivity. Qed.
