(* ===== verification/SchemaValidation.v ===== *)
(** * Structural schemas of custom resources

    [engenho-apiserver/src/schema_validation.rs]: defaults and type checks of an
    [openAPIV3Schema].  Both walk down the schema; the depth of the schema is
    fuel enough ([walk_fuel], [defaults_fuel]). *)

From Stdlib Require Import Ascii String.
From stdpp Require Import base tactics option list strings numbers pretty.
From S2P Require Import Prelude Text BTreeMap Json ApiErrors Validation.

Local Open Scope string_scope.
Local Open Scope Z_scope.

Record SchemaViolation : Type := mkSchemaViolation { sv_path : string; sv_expected : string; sv_found : string }.

Definition schema_violation_text (v : SchemaViolation) : string :=
  sv_path v +:+ ": expected " +:+ sv_expected v +:+ ", found " +:+ sv_found v.

Definition type_name (v : json) : string :=
  match v with
  | JNull => "null"
  | JBool _ => "boolean"
  | JNumber (PosInt _) | JNumber (NegInt _) => "integer"
  | JNumber (Float _) => "number"
  | JString _ => "string"
  | JArray _ => "array"
  | JObject _ => "object"
  end.

Definition is_number (v : json) : bool := match v with JNumber _ => true | _ => false end.
Definition is_integer (v : json) : bool := match v with JNumber (PosInt _) | JNumber (NegInt _) => true | _ => false end.

Definition type_matches (schema_type : string) (v : json) : bool :=
  if eqb schema_type "number" then is_number v
  else if eqb schema_type "integer" then is_integer v
  else eqb schema_type (type_name v).

Definition child_path (parent key : string) : string :=
  if eqb parent "" then key else parent +:+ "." +:+ key.

(** [itoa] is the decimal text. *)
Definition index_path (parent : string) (i : nat) : string := parent +:+ "[" +:+ pretty (Z.of_nat i) +:+ "]".

Definition flag (k : string) (obj : btmap string json) : bool :=
  match bt_get k obj with Some (JBool true) => true | _ => false end.

(** The two marks that leave a subtree alone. *)
Definition free_form (obj : btmap string json) : bool :=
  flag "x-kubernetes-preserve-unknown-fields" obj || flag "x-kubernetes-int-or-string" obj.

Definition properties_of (obj : btmap string json) : option (btmap string json) :=
  bt_get "properties" obj ≫= as_object.

(** ** Defaults *)

(** One property of the schema, over the object's fields. *)
Definition default_property (descend : json -> json -> json) (m : btmap string json) (p : string * json)
  : btmap string json :=
  match bt_get p.1 m with
  | None | Some JNull => match jget "default" p.2 with Some d => bt_insert p.1 d m | None => m end
  | Some v => bt_insert p.1 (descend p.2 v) m
  end.

Fixpoint defaults_walk (fuel : nat) (schema v : json) : json :=
  match fuel, schema with
  | S fuel, JObject obj =>
      if free_form obj then v
      else
        let v :=
          match properties_of obj, v with
          | Some props, JObject m => JObject (fold_left (default_property (defaults_walk fuel)) props m)
          | _, _ => v
          end in
        match bt_get "items" obj, v with
        | Some items, JArray l => JArray (map (defaults_walk fuel items) l)
        | _, _ => v
        end
  | _, _ => v
  end.

(** The depth of a value. *)
Fixpoint depth (v : json) : nat :=
  match v with
  | JArray l => S ((fix go l := match l with [] => O | x :: l => Nat.max (depth x) (go l) end) l)
  | JObject m => S ((fix go m := match m with [] => O | e :: m => Nat.max (depth e.2) (go m) end) m)
  | _ => 1%nat
  end.

Definition apply_defaults (schema v : json) : json := defaults_walk (depth schema) schema v.

(** ** Checks *)

Definition required_of (obj : btmap string json) : list string :=
  omap as_str (default [] (bt_get "required" obj ≫= as_array)).

Definition missing (path : string) (m : btmap string json) (r : string) : list SchemaViolation :=
  if bt_contains r m then [] else [mkSchemaViolation (child_path path r) "required field" "absent"].

Fixpoint walk (fuel : nat) (schema v : json) (path : string) : list SchemaViolation :=
  match fuel, schema with
  | S fuel, JObject obj =>
      if free_form obj then []
      else if is_null v then []
      else if is_some_and (fun t => negb (type_matches t v)) (bt_get "type" obj ≫= as_str)
      then [mkSchemaViolation (if eqb path "" then "<root>" else path)
              (default "" (bt_get "type" obj ≫= as_str)) (type_name v)]
      else
        (match v with JObject m => concat (map (missing path m) (required_of obj)) | _ => [] end ++
         match properties_of obj, v with
         | Some props, JObject m =>
             concat (map (fun p => match bt_get p.1 m with
                                   | Some x => walk fuel p.2 x (child_path path p.1)
                                   | None => []
                                   end) props)
         | _, _ => []
         end ++
         match bt_get "items" obj, v with
         | Some items, JArray l => concat (imap (fun i x => walk fuel items x (index_path path i)) l)
         | _, _ => []
         end)%list
  | _, _ => []
  end.

Definition schema_validate (schema v : json) : list SchemaViolation := walk (depth schema) schema v "".

(** ** Conformance *)

(** The types a schema can name. *)
Inductive has_type : string -> json -> Prop :=
| TypeBoolean b : has_type "boolean" (JBool b)
| TypePositive n : has_type "integer" (JNumber (PosInt n))
| TypeNegative n : has_type "integer" (JNumber (NegInt n))
| TypeNumber n : has_type "number" (JNumber n)
| TypeString s : has_type "string" (JString s)
| TypeArray l : has_type "array" (JArray l)
| TypeObject m : has_type "object" (JObject m).

(** [conforms s v]: every value reached through the schema has the type its
    schema names and the fields it requires; [null] conforms to anything, also as
    the value of a required field. *)
#[warnings="-register-all"]
Inductive conforms : json -> json -> Prop :=
| ConformsAny s v : (forall obj, s <> JObject obj) -> conforms s v
| ConformsPreserved obj v :
    bt_get "x-kubernetes-preserve-unknown-fields" obj = Some (JBool true) -> conforms (JObject obj) v
| ConformsIntOrString obj v :
    bt_get "x-kubernetes-int-or-string" obj = Some (JBool true) -> conforms (JObject obj) v
| ConformsNull obj : conforms (JObject obj) JNull
| ConformsShape obj v :
    (forall t, bt_get "type" obj = Some (JString t) -> has_type t v) ->
    (forall m names r, v = JObject m -> bt_get "required" obj = Some (JArray names) -> In (JString r) names ->
       exists x, bt_get r m = Some x) ->
    (forall props m k sub x, bt_get "properties" obj = Some (JObject props) -> v = JObject m ->
       In (k, sub) props -> bt_get k m = Some x -> conforms sub x) ->
    (forall items l x, bt_get "items" obj = Some items -> v = JArray l -> In x l -> conforms items x) ->
    conforms (JObject obj) v.

Lemma has_type_exact t v : v <> JNull -> type_matches t v = true <-> has_type t v.
Proof.
  intros Hv. unfold type_matches. split.
  - destruct (eqb t "number") eqn:En; [apply (proj1 (eqb_true _ _)) in En as ->; destruct v; try done; constructor |].
    destruct (eqb t "integer") eqn:Ei.
    + apply (proj1 (eqb_true _ _)) in Ei as ->. destruct v as [| | [] | | |]; try done; constructor.
    + intros Ht. apply (proj1 (eqb_true _ _)) in Ht as ->. destruct v as [| | [] | | |]; try done; constructor.
  - by destruct 1.
Qed.

Lemma free_form_exact obj :
  free_form obj = true <->
  bt_get "x-kubernetes-preserve-unknown-fields" obj = Some (JBool true) \/
  bt_get "x-kubernetes-int-or-string" obj = Some (JBool true).
Proof.
  unfold free_form, flag. rewrite orb_true_iff.
  repeat match goal with |- context [match ?x with _ => _ end] => destruct x as [[|[]| | | |]|] end; naive_solver.
Qed.

Lemma required_exact obj r :
  In r (required_of obj) <-> exists names, bt_get "required" obj = Some (JArray names) /\ In (JString r) names.
Proof.
  unfold required_of. rewrite <- list_elem_of_In, list_elem_of_omap. setoid_rewrite list_elem_of_In.
  destruct (bt_get "required" obj) as [v |] eqn:E; cbn [mbind option_bind]; [| cbn; split; [by intros (? & [] & _) | by intros (? & ? & _)]].
  split.
  - intros (x & Hx & Hr). destruct v; try done. apply as_str_some in Hr as ->. cbn in Hx. eauto.
  - intros (names & [= ->] & Hin). exists (JString r). by split.
Qed.

(** ** The fuel is enough *)

Lemma depth_item l x : In x l -> (depth x < depth (JArray l))%nat.
Proof.
  intros Hx. cbn [depth]. apply le_n_S. induction l as [|y l IH]; [done |]. destruct Hx as [-> | Hx]; [lia |].
  specialize (IH Hx). lia.
Qed.

Lemma depth_entry m e : In e m -> (depth e.2 < depth (JObject m))%nat.
Proof.
  intros Hx. cbn [depth]. apply le_n_S. induction m as [|y m IH]; [done |]. destruct Hx as [-> | Hx]; [lia |].
  specialize (IH Hx). lia.
Qed.

Lemma depth_get k m x : bt_get k m = Some x -> (depth x < depth (JObject m))%nat.
Proof. intros Hk. apply (depth_entry m (k, x)). by apply bt_get_mem. Qed.

Lemma depth_property obj props k sub fuel :
  (depth (JObject obj) <= S fuel)%nat -> bt_get "properties" obj = Some (JObject props) -> In (k, sub) props ->
  (depth sub <= fuel)%nat.
Proof. intros Hd Hp Hk. apply depth_get in Hp. apply depth_entry in Hk. simpl in *. lia. Qed.

Lemma depth_items obj items fuel :
  (depth (JObject obj) <= S fuel)%nat -> bt_get "items" obj = Some items -> (depth items <= fuel)%nat.
Proof. intros Hd Hp. apply depth_get in Hp. lia. Qed.

Lemma as_object_some v m : as_object v = Some m <-> v = JObject m.
Proof. destruct v; simpl; naive_solver. Qed.

Lemma properties_of_some obj props : properties_of obj = Some props <-> bt_get "properties" obj = Some (JObject props).
Proof. unfold properties_of. destruct (bt_get "properties" obj); simpl; [rewrite as_object_some |]; naive_solver. Qed.

Lemma bt_get_str (k : string) m s : (bt_get k m ≫= as_str) = Some s <-> bt_get k m = Some (JString s).
Proof. destruct (bt_get k m); simpl; [rewrite as_str_some |]; naive_solver. Qed.

Lemma missing_exact path m r : missing path m r = [] <-> is_some (bt_get r m) = true.
Proof. unfold missing, bt_contains. by destruct (is_some (bt_get r m)). Qed.

Lemma map_empty {A B} (f : A -> list B) (P : A -> Prop) l :
  (forall x, In x l -> f x = [] <-> P x) -> concat (map f l) = [] <-> forall x, In x l -> P x.
Proof.
  intros H. rewrite concat_empty, List.Forall_forall. split.
  - intros Hf x Hx. apply H, Hf, in_map_iff; [done |]. by exists x.
  - intros Hp y Hy. apply in_map_iff in Hy as (x & <- & Hx). by apply H, Hp.
Qed.

Lemma imap_empty {A B} (f : nat -> A -> list B) (P : A -> Prop) l :
  (forall i x, In x l -> f i x = [] <-> P x) -> concat (imap f l) = [] <-> forall x, In x l -> P x.
Proof.
  revert f. induction l as [|x l IH]; intros f H; simpl; [split; [done | done] |].
  rewrite app_empty, (H 0%nat) by (by left). rewrite (IH (f ∘ S)) by (intros; apply H; by right).
  split; [intros [? ?] y [<- | ?]; auto | intros Hp; split; [apply Hp; by left | intros; apply Hp; by right]].
Qed.

(** The three groups of checks, for any check of the parts. *)
Lemma required_checks path v obj :
  match v with JObject m => concat (map (missing path m) (required_of obj)) | _ => [] end = [] <->
  forall m names r, v = JObject m -> bt_get "required" obj = Some (JArray names) -> In (JString r) names ->
    exists x, bt_get r m = Some x.
Proof.
  destruct v as [| | | | |m]; try naive_solver.
  rewrite (map_empty _ (fun r => exists x, bt_get r m = Some x)).
  - setoid_rewrite required_exact. naive_solver.
  - intros r _. rewrite missing_exact. destruct (bt_get r m); cbn; naive_solver.
Qed.

Lemma property_checks (check : json -> json -> string -> list SchemaViolation) path v obj :
  (forall props k sub x, bt_get "properties" obj = Some (JObject props) -> In (k, sub) props ->
     check sub x (child_path path k) = [] <-> conforms sub x) ->
  match properties_of obj, v with
  | Some props, JObject m =>
      concat (map (fun p => match bt_get p.1 m with
                            | Some x => check p.2 x (child_path path p.1)
                            | None => []
                            end) props)
  | _, _ => []
  end = [] <->
  forall props m k sub x, bt_get "properties" obj = Some (JObject props) -> v = JObject m ->
    In (k, sub) props -> bt_get k m = Some x -> conforms sub x.
Proof.
  intros Hc. destruct (properties_of obj) as [props|] eqn:Ep.
  - apply properties_of_some in Ep. rewrite Ep. destruct v as [| | | | |m]; try naive_solver.
    rewrite (map_empty _ (fun p => forall x, bt_get p.1 m = Some x -> conforms p.2 x)).
    + split; [intros H props' m' k sub x [= <-] [= <-] Hin; exact (H (k, sub) Hin x) |].
      intros H [k sub] Hin x. by apply (H props m k sub).
    + intros [k sub] Hk. simpl. destruct (bt_get k m) as [x|]; [| naive_solver].
      rewrite (Hc props k sub x) by done. naive_solver.
  - split; [| by destruct v]. intros _ props m k sub x Hp%properties_of_some. congruence.
Qed.

Lemma item_checks (check : json -> json -> string -> list SchemaViolation) path v obj :
  (forall items x p, bt_get "items" obj = Some items -> check items x p = [] <-> conforms items x) ->
  match bt_get "items" obj, v with
  | Some items, JArray l => concat (imap (fun i x => check items x (index_path path i)) l)
  | _, _ => []
  end = [] <->
  forall items l x, bt_get "items" obj = Some items -> v = JArray l -> In x l -> conforms items x.
Proof.
  intros Hc. destruct (bt_get "items" obj) as [items|] eqn:Ei; [| naive_solver].
  destruct v as [| | | |l |]; try naive_solver.
  rewrite (imap_empty _ (conforms items)); [naive_solver |]. intros i x Hx. by apply Hc.
Qed.

(** Every check of a value, in any order, is conformance. *)
Lemma walk_exact fuel s v path : (depth s <= fuel)%nat -> walk fuel s v path = [] <-> conforms s v.
Proof.
  revert s v path. induction fuel as [|fuel IH]; intros s v path Hd; [destruct s; simpl in Hd; lia |].
  destruct s as [| | | | | obj]; try (split; [intros _; by apply ConformsAny | done]).
  cbn [walk]. destruct (free_form obj) eqn:Ef.
  { split; [| done]. intros _. by apply free_form_exact in Ef as [Ef | Ef]; [apply ConformsPreserved | apply ConformsIntOrString]. }
  destruct (is_null v) eqn:En; [destruct v; try done; split; [intros _; apply ConformsNull | done] |].
  assert (v <> JNull) as Hv by (by intros ->).
  assert (conforms (JObject obj) v -> free_form obj = false ->
    (forall t, bt_get "type" obj = Some (JString t) -> has_type t v) /\
    (forall m names r, v = JObject m -> bt_get "required" obj = Some (JArray names) -> In (JString r) names ->
       exists x, bt_get r m = Some x) /\
    (forall props m k sub x, bt_get "properties" obj = Some (JObject props) -> v = JObject m ->
       In (k, sub) props -> bt_get k m = Some x -> conforms sub x) /\
    (forall items l x, bt_get "items" obj = Some items -> v = JArray l -> In x l -> conforms items x)) as Hshape.
  { intros Hc Hff. assert (free_form obj <> true) as Hff' by congruence. rewrite free_form_exact in Hff'.
    inversion Hc as [? ? Hn | ? ? Hn | ? ? Hn | | ? ? H1 H2 H3 H4]; subst; [by destruct (Hn obj) | naive_solver | naive_solver | done |].
    by split_and!. }
  destruct (is_some_and _ _) eqn:Et.
  - split; [done |]. intros Hc. exfalso. destruct (bt_get "type" obj ≫= as_str) as [t|] eqn:E; [| done].
    apply bt_get_str in E. destruct (Hshape Hc Ef) as [Ht _]. specialize (Ht t E). apply has_type_exact in Ht; [| done].
    cbn [is_some_and] in Et. by rewrite Ht in Et.
  - assert (forall t, bt_get "type" obj = Some (JString t) -> has_type t v) as Ht.
    { intros t Hb. apply bt_get_str in Hb. rewrite Hb in Et. cbn [is_some_and] in Et. apply has_type_exact; [done |].
      by destruct (type_matches t v). }
    rewrite !app_empty, required_checks, (property_checks (walk fuel)), (item_checks (walk fuel)).
    + split; [intros (H1 & H2 & H3); by apply ConformsShape |]. intros Hc. by apply Hshape.
    + intros items x p Hi. apply IH. by eapply depth_items.
    + intros props k sub x Hp Hin. apply IH. by eapply depth_property.
Qed.

(** (C30) A schema is enforced exactly: an object has no violation if and only if every
    value the schema reaches has the type its schema names and, where it is an
    object, every field its schema requires.  Two things are let through: a [null]
    anywhere, also as the value of a required field, and whatever is below a
    free-form mark. *)
Theorem schema_exact (schema v : json) : schema_validate schema v = [] <-> conforms schema v.
Proof. by apply walk_exact. Qed.

(** ** Defaults, field by field *)

Definition property_value (descend : json -> json -> json) (sub : json) (o : option json) : option json :=
  match o with
  | None | Some JNull => match jget "default" sub with Some d => Some d | None => o end
  | Some v => Some (descend sub v)
  end.

Lemma default_property_get f m p k :
  bt_get k (default_property f m p) = if eqb k p.1 then property_value f p.2 (bt_get k m) else bt_get k m.
Proof.
  unfold default_property. destruct (eqb k p.1) eqn:E.
  - apply (proj1 (eqb_true _ _)) in E. subst k.
    destruct (bt_get p.1 m) as [[]|] eqn:Eg; simpl; try (by rewrite bt_get_insert_eq);
      (destruct (jget "default" p.2); [by rewrite bt_get_insert_eq | done]).
  - apply (proj1 (eqb_false _ _)) in E.
    destruct (bt_get p.1 m) as [[]|]; try (by rewrite bt_get_insert_ne);
      (destruct (jget "default" p.2); [by rewrite bt_get_insert_ne | done]).
Qed.

Lemma default_property_sorted f m p : bt_sorted m -> bt_sorted (default_property f m p).
Proof. intros Hm. unfold default_property. repeat case_match; try done; by apply bt_insert_sorted. Qed.

Lemma properties_sorted f props m : bt_sorted m -> bt_sorted (fold_left (default_property f) props m).
Proof. revert m. induction props as [|p props IH]; intros m Hm; [done |]. by apply IH, default_property_sorted. Qed.

Lemma properties_get f (props : btmap string json) m k :
  bt_sorted props ->
  bt_get k (fold_left (default_property f) props m) =
  match bt_get k props with Some sub => property_value f sub (bt_get k m) | None => bt_get k m end.
Proof.
  revert m. induction props as [|[k0 sub0] props IH]; intros m Hs; [done |].
  apply bt_sorted_cons in Hs as [Hs Hlt]. cbn [fold_left]. rewrite IH, default_property_get by done. cbn [fst snd bt_get].
  destruct (eqb k k0) eqn:E.
  - apply (proj1 (eqb_true _ _)) in E. subst k0. rewrite cmp_refl.
    by rewrite bt_get_below by (eapply Forall_impl; [exact Hlt | intros e He; exact He]).
  - apply (proj1 (eqb_false _ _)) in E. destruct (cmp k k0) eqn:Ec; [by apply cmp_eq in Ec | | done].
    rewrite bt_get_below; [done |]. eapply Forall_impl; [exact Hlt |]. intros e He. by eapply cmp_trans.
Qed.

(** *** Fuel *)

Lemma default_property_ext f g m p :
  (forall v, f p.2 v = g p.2 v) -> default_property f m p = default_property g m p.
Proof. intros H. unfold default_property. repeat case_match; by rewrite ?H. Qed.

Lemma properties_ext f g props m :
  (forall p v, In p props -> f p.2 v = g p.2 v) ->
  fold_left (default_property f) props m = fold_left (default_property g) props m.
Proof.
  revert m. induction props as [|p props IH]; intros m H; [done |]. cbn [fold_left].
  rewrite (default_property_ext f g) by (intros; apply H; by left). apply IH. intros q v Hq. apply H. by right.
Qed.

Lemma defaults_fuel fuel fuel' s v :
  (depth s <= fuel)%nat -> (depth s <= fuel')%nat -> defaults_walk fuel s v = defaults_walk fuel' s v.
Proof.
  revert fuel' s v. induction fuel as [|fuel IH]; intros fuel' s v Hd Hd'; [destruct s; simpl in Hd; lia |].
  destruct fuel' as [|fuel']; [destruct s; simpl in Hd'; lia |]. destruct s as [| | | | | obj]; try done.
  cbn [defaults_walk]. destruct (free_form obj); [done |].
  assert (forall v, match properties_of obj, v with
          | Some props, JObject m => JObject (fold_left (default_property (defaults_walk fuel)) props m)
          | _, _ => v
          end = match properties_of obj, v with
          | Some props, JObject m => JObject (fold_left (default_property (defaults_walk fuel')) props m)
          | _, _ => v
          end) as ->.
  { intros w. destruct (properties_of obj) as [props|] eqn:Ep; [| done].
    destruct w as [| | | | |m]; try done. f_equal. apply properties_ext. intros [k sub] x Hin. apply properties_of_some in Ep.
    apply IH; by eapply depth_property. }
  destruct (bt_get "items" obj) as [items|] eqn:Ei; [| done]. case_match; try done. f_equal. apply map_ext. intros x.
  apply IH; by eapply depth_items.
Qed.

(** The equation of the source. *)
Lemma apply_defaults_eq obj v :
  apply_defaults (JObject obj) v =
  if free_form obj then v
  else
    let v :=
      match properties_of obj, v with
      | Some props, JObject m => JObject (fold_left (default_property apply_defaults) props m)
      | _, _ => v
      end in
    match bt_get "items" obj, v with
    | Some items, JArray l => JArray (map (apply_defaults items) l)
    | _, _ => v
    end.
Proof.
  unfold apply_defaults at 1. rewrite (defaults_fuel _ (S (depth (JObject obj)))) by lia. cbn [defaults_walk].
  destruct (free_form obj); [done |].
  assert (forall w, match properties_of obj, w with
          | Some props, JObject m => JObject (fold_left (default_property (defaults_walk (depth (JObject obj)))) props m)
          | _, _ => w
          end = match properties_of obj, w with
          | Some props, JObject m => JObject (fold_left (default_property apply_defaults) props m)
          | _, _ => w
          end) as ->.
  { intros w. destruct (properties_of obj) as [props|] eqn:Ep; [| done].
    destruct w as [| | | | |m]; try done. f_equal. apply properties_ext. intros [k sub] x Hin. apply properties_of_some in Ep.
    apply defaults_fuel; [| done]. eapply depth_property; [| done | done]. lia. }
  destruct (bt_get "items" obj) as [items|] eqn:Ei; [| done]. cbn zeta. case_match; try done. f_equal. apply map_ext. intros x.
  apply defaults_fuel; [| done]. eapply depth_items; [| done]. lia.
Qed.

(** *** Settling *)

(** A schema whose defaults need no defaults themselves. *)
#[warnings="-register-all"]
Inductive complete : json -> Prop :=
| CompleteLeaf s : as_object s = None -> complete s
| CompleteNode obj :
    (forall props k sub, bt_get "properties" obj = Some (JObject props) -> In (k, sub) props ->
       complete sub /\ forall d, jget "default" sub = Some d -> apply_defaults sub d = d) ->
    (forall items, bt_get "items" obj = Some items -> complete items) ->
    complete (JObject obj).

Lemma not_null_kept s v : v <> JNull -> apply_defaults s v <> JNull.
Proof.
  intros Hv. destruct s as [| | | | | obj]; try done. rewrite apply_defaults_eq. destruct (free_form obj); [done |].
  destruct v; try done; repeat case_match; done.
Qed.

Lemma property_value_some f sub v : v <> JNull -> property_value f sub (Some v) = Some (f sub v).
Proof. by destruct v. Qed.

Lemma property_value_absent f sub o :
  o = None \/ o = Some JNull -> property_value f sub o = match jget "default" sub with Some d => Some d | None => o end.
Proof. by intros [-> | ->]. Qed.

Lemma json_null v : v = JNull \/ v <> JNull.
Proof. destruct v; by auto. Qed.

Lemma property_value_idem f sub o :
  (forall v, o = Some v -> f sub (f sub v) = f sub v) -> (forall v, v <> JNull -> f sub v <> JNull) ->
  (forall d, jget "default" sub = Some d -> f sub d = d) ->
  property_value f sub (property_value f sub o) = property_value f sub o.
Proof.
  intros Hi Hn Hd. assert ((o = None \/ o = Some JNull) \/ exists v, o = Some v /\ v <> JNull) as [Ho | (v & -> & Hv)].
  { destruct o as [v|]; [| by left; left]. destruct (json_null v) as [-> | Hv]; [by left; right | right; by exists v]. }
  - rewrite (property_value_absent f sub o Ho). destruct (jget "default" sub) as [d|] eqn:E.
    + destruct (json_null d) as [-> | Hnd]; [by rewrite property_value_absent, E by (by right) |].
      by rewrite property_value_some, Hd.
    + by rewrite property_value_absent, E.
  - rewrite !property_value_some by auto. by rewrite Hi.
Qed.

(** Where the schema's defaults are complete, one application is enough. *)
Lemma defaults_idem n s v :
  (depth s <= n)%nat -> wf_json s = true -> wf_json v = true -> complete s ->
  apply_defaults s (apply_defaults s v) = apply_defaults s v.
Proof.
  revert s v. induction n as [|n IH]; intros s v Hn Hs Hv Hc; [destruct s; simpl in Hn; lia |].
  destruct s as [| | | | | obj]; try done. inversion Hc as [? H | ? Hp Hit]; subst; [done |].
  rewrite (apply_defaults_eq obj v), (apply_defaults_eq obj). destruct (free_form obj) eqn:Ef; [done |]. cbn zeta.
  destruct v as [| | | | l | m].
  1-4: by destruct (properties_of obj), (bt_get "items" obj).
  - destruct (properties_of obj); (destruct (bt_get "items" obj) as [items|] eqn:Ei; [| done]); f_equal; rewrite map_map;
      apply wf_json_array in Hv; (induction Hv as [|x l Hx Hl IHl]; [done |]); cbn [map]; f_equal; try done;
      (apply IH; [by eapply depth_items | by apply (wf_json_get "items" (JObject obj)) | done | by apply Hit]).
  - destruct (properties_of obj) as [props|] eqn:Ep; [| by destruct (bt_get "items" obj)].
    apply properties_of_some in Ep.
    assert (JObject (fold_left (default_property apply_defaults) props
                       (fold_left (default_property apply_defaults) props m)) =
            JObject (fold_left (default_property apply_defaults) props m)) as Hm;
      [| by destruct (bt_get "items" obj)].
    pose proof (wf_json_get "properties" (JObject obj) _ Hs Ep) as Hwp.
    f_equal. apply bt_ext; [by repeat apply properties_sorted; apply wf_sorted .. |]. intros k.
    rewrite !properties_get by (by apply wf_sorted). destruct (bt_get k props) as [sub|] eqn:Ek; [| done].
    pose proof (bt_get_mem _ _ _ Ek) as Hin. destruct (Hp _ _ _ Ep Hin) as [Hcs Hcd].
    apply property_value_idem; [| by intros; apply not_null_kept | done].
    intros x Hx. apply IH; [by eapply depth_property | | by apply (wf_json_get k (JObject m)) | done].
    by apply (wf_json_get k (JObject props)).
Qed.

(** What the client wrote stays, [null] excepted. *)
#[warnings="-register-all"]
Inductive keeps : json -> json -> Prop :=
| KeepSame v : keeps v v
| KeepObject m n :
    (forall k x, bt_get k m = Some x -> x = JNull \/ exists y, bt_get k n = Some y /\ keeps x y) ->
    keeps (JObject m) (JObject n)
| KeepArray l l' : Forall2 keeps l l' -> keeps (JArray l) (JArray l').

Lemma defaults_keep n s v : (depth s <= n)%nat -> wf_json s = true -> keeps v (apply_defaults s v).
Proof.
  revert s v. induction n as [|n IH]; intros s v Hn Hs; [destruct s; simpl in Hn; lia |].
  destruct s as [| | | | | obj]; try (by constructor). rewrite apply_defaults_eq.
  destruct (free_form obj); [constructor |]. cbn zeta. destruct v as [| | | | l | m].
  1-4: destruct (properties_of obj), (bt_get "items" obj); constructor.
  - destruct (properties_of obj); (destruct (bt_get "items" obj) as [items|] eqn:Ei; [| constructor]);
      apply KeepArray; (induction l as [|x l IHl]; cbn [map]; constructor; [| done]);
      (apply IH; [by eapply depth_items | by apply (wf_json_get "items" (JObject obj))]).
  - destruct (properties_of obj) as [props|] eqn:Ep; [| destruct (bt_get "items" obj); constructor].
    apply properties_of_some in Ep. pose proof (wf_json_get "properties" (JObject obj) _ Hs Ep) as Hwp.
    assert (keeps (JObject m) (JObject (fold_left (default_property apply_defaults) props m))) as Hm;
      [| by destruct (bt_get "items" obj)].
    apply KeepObject. intros k x Hk. destruct (json_null x) as [-> | Hx]; [by left | right].
    rewrite properties_get, Hk by (by apply wf_sorted). destruct (bt_get k props) as [sub|] eqn:Ek.
    + rewrite property_value_some by done. eexists. split; [done |].
      apply IH; [by eapply depth_property; [| | apply bt_get_mem] | by apply (wf_json_get k (JObject props))].
    + exists x. split; [done | constructor].
Qed.

Lemma default_lands obj props k sub d m :
  wf_json (JObject obj) = true -> free_form obj = false -> bt_get "properties" obj = Some (JObject props) ->
  bt_get k props = Some sub -> jget "default" sub = Some d ->
  exists n, apply_defaults (JObject obj) (JObject m) = JObject n /\ is_some (bt_get k n) = true.
Proof.
  intros Hs Hf Hp Hk Hd. rewrite apply_defaults_eq, Hf. cbn zeta.
  rewrite (proj2 (properties_of_some obj props)) by done.
  exists (fold_left (default_property apply_defaults) props m). split; [by destruct (bt_get "items" obj) |].
  rewrite properties_get, Hk by (apply wf_sorted; by apply (wf_json_get "properties" (JObject obj))).
  unfold property_value. destruct (bt_get k m) as [[]|]; rewrite ?Hd; done.
Qed.

(** The defaults of a schema: what a client wrote is kept, [null] excepted; a
    field with a default is present afterwards, so a default can satisfy
    [required]; and where the defaults are themselves complete, applying them
    again, as every later write does, changes nothing. *)
Theorem schema_defaults (obj m : btmap string json) :
  wf_json (JObject obj) = true -> wf_json (JObject m) = true -> free_form obj = false ->
  keeps (JObject m) (apply_defaults (JObject obj) (JObject m)) /\
  (forall props k sub d, bt_get "properties" obj = Some (JObject props) -> bt_get k props = Some sub ->
     jget "default" sub = Some d ->
     exists n, apply_defaults (JObject obj) (JObject m) = JObject n /\ is_some (bt_get k n) = true) /\
  (complete (JObject obj) ->
     apply_defaults (JObject obj) (apply_defaults (JObject obj) (JObject m)) = apply_defaults (JObject obj) (JObject m)).
Proof.
  intros Hs Hm Hf. split_and!.
  - by apply (defaults_keep (depth (JObject obj))).
  - intros props k sub d Hp Hk Hd. by eapply default_lands.
  - intros Hc. by apply (defaults_idem (depth (JObject obj))).
Qed.

Definition sized_schema : btmap string json :=
  bt_of_list [("properties", jobj [("size", jobj [("default", JNumber (PosInt 1)); ("type", JString "integer")])]);
              ("required", JArray [JString "size"])].

Lemma schema_defaults_witness :
  exists n, apply_defaults (JObject sized_schema) (JObject []) = JObject n /\ is_some (bt_get "size" n) = true.
Proof.
  destruct (schema_defaults sized_schema [] eq_refl eq_refl eq_refl) as (_ & H & _).
  eapply H; vm_compute; reflexivity.
Defined.

(** A default inside a defaulted object is missed by the first write and added by
    the next one. *)
Lemma nested_default_missed :
  let schema := jobj [("properties", jobj [("spec", jobj [("default", jobj []);
                  ("properties", jobj [("timeout", jobj [("default", JString "60s")])])])])] in
  apply_defaults schema (jobj []) = jobj [("spec", jobj [])] /\
  apply_defaults schema (apply_defaults schema (jobj [])) = jobj [("spec", jobj [("timeout", JString "60s")])].
Proof. vm_compute. done. Qed.

(** A required field given as [null] passes the check, whatever its type. *)
Lemma required_null_passes :
  schema_validate (jobj [("properties", jobj [("size", jobj [("type", JString "integer")])]);
                         ("required", JArray [JString "size"])]) (jobj [("size", JNull)]) = [].
Proof. vm_compute. reflexivity. Qed.

Lemma defaults_wf n s v :
  (depth s <= n)%nat -> wf_json s = true -> wf_json v = true -> wf_json (apply_defaults s v) = true.
Proof.
  revert s v. induction n as [|n IH]; intros s v Hn Hs Hv; [destruct s; simpl in Hn; lia |].
  destruct s as [| | | | | obj]; try done. rewrite apply_defaults_eq. destruct (free_form obj); [done |]. cbn zeta.
  assert (forall w, wf_json w = true ->
    wf_json match properties_of obj, w with
            | Some props, JObject m => JObject (fold_left (default_property apply_defaults) props m)
            | _, _ => w
            end = true) as Hprops.
  { intros w Hw. destruct (properties_of obj) as [props|] eqn:Ep; [| done]. destruct w as [| | | | |m]; try done.
    apply properties_of_some in Ep. pose proof (wf_json_get "properties" (JObject obj) _ Hs Ep) as Hwp.
    assert (forall p, In p props -> (depth p.2 <= n)%nat /\ wf_json p.2 = true) as Hin.
    { intros [k sub] Hk. split; [by eapply depth_property |]. apply wf_json_object in Hwp as [_ Hf].
      rewrite List.Forall_forall in Hf. by apply (Hf (k, sub)). }
    clear Ep Hwp. revert m Hw. induction props as [|[k sub] props IHp]; intros m Hw; [done |]. cbn [fold_left].
    apply IHp; [intros p Hp; apply Hin; by right |]. destruct (Hin (k, sub)) as [Hd Hsub]; [by left |].
    unfold default_property. cbn [fst snd] in *.
    assert (wf_json (JObject match jget "default" sub with Some d => bt_insert k d m | None => m end) = true) as Hdef.
    { destruct (jget "default" sub) eqn:Ed; [| done]. apply wf_json_insert; [by eapply wf_json_get | done]. }
    destruct (bt_get k m) as [x|] eqn:Ek; [| done].
    destruct x; try done; (apply wf_json_insert; [| done]); (apply IH; [done | done |]); exact (wf_json_get k (JObject m) _ Hw Ek). }
  specialize (Hprops v Hv). revert Hprops. generalize (match properties_of obj, v with
    | Some props, JObject m => JObject (fold_left (default_property apply_defaults) props m) | _, _ => v end) as w.
  intros w Hw. destruct (bt_get "items" obj) as [items|] eqn:Ei; [| done]. destruct w as [| | | | l |]; try done.
  apply wf_json_array in Hw as Hprops. apply wf_json_array. clear Hw. induction Hprops as [|x l Hx Hl IHl]; constructor; [| by apply IHl].
  apply IH; [by eapply depth_items | exact (wf_json_get "items" (JObject obj) _ Hs Ei) | done].
Qed.
