(* ===== verification/FieldShapes.v ===== *)
(** * The fields a kind has

    [engenho-apiserver/src/field_validation/schema.rs]: the shapes lowered from
    the vendored OpenAPI documents, and the walk of a value against them
    ([field_validation/scan.rs]: [unknown_paths], [StrictPath]).  The documents
    are data of the build: an argument.

    The lowering follows references between components, so it takes fuel;
    [lowering_terminates] shows how much is enough.  Dropping the unknown fields
    of a value is compared with [prune], a definition by recursion on the value. *)

From Stdlib Require Import Ascii String.
From stdpp Require Import base tactics option list strings numbers pretty.
From S2P Require Import Prelude Text BTreeMap Json ApiErrors.
From S2P Require Import SchemaValidation.

Local Open Scope string_scope.
Local Open Scope Z_scope.
Local Open Scope nat_scope.

(** ** Shapes *)

Definition ShapeId : Type := nat.

Inductive Shape : Type :=
  | Struct (fields : btmap string ShapeId)
  | MapOf (values : ShapeId)
  | ListOf (items : ShapeId)
  | Leaf
  | Raw.

Definition gvk_key : Type := string * string * string.

Record Schemas : Type := mkSchemas {
  shapes : list Shape;
  lowered : btmap string ShapeId;
  roots : list (gvk_key * ShapeId)
}.

Definition no_schemas : Schemas := mkSchemas [] [] [].

Record Row : Type := mkRow { row_schemas : Schemas; row_root : ShapeId }.

Definition shape_at (s : Schemas) (id : ShapeId) : Shape := default Raw (shapes s !! id).
Definition row_shape (r : Row) (id : ShapeId) : Shape := shape_at (row_schemas r) id.

Fixpoint root_of (k : gvk_key) (l : list (gvk_key * ShapeId)) : option ShapeId :=
  match l with
  | [] => None
  | (k', id) :: l => if eqb k k' then Some id else root_of k l
  end.

Definition schemas_row (s : Schemas) (group version kind : string) : option Row :=
  mkRow s <$> root_of (group, version, kind) (roots s).

(** ** Lowering *)

Definition push (shape : Shape) (s : Schemas) : ShapeId * Schemas :=
  (length (shapes s), mkSchemas (shapes s ++ [shape])%list (lowered s) (roots s)).

Definition register (name : string) (id : ShapeId) (s : Schemas) : Schemas :=
  mkSchemas (shapes s) (bt_insert name id (lowered s)) (roots s).

Definition set_shape (id : ShapeId) (shape : Shape) (s : Schemas) : Schemas :=
  mkSchemas (<[id := shape]> (shapes s)) (lowered s) (roots s).

Definition reference (schema : json) : option string :=
  (match jget "$ref" schema with
   | Some r => Some r
   | None =>
       match jget "allOf" schema ≫= as_array with
       | Some [only] => jget "$ref" only
       | _ => None
       end
   end ≫= as_str) ≫= strip_prefix "#/components/schemas/".

Definition flagged (f : string) (schema : json) : bool := eqb (jget f schema) (Some (JBool true)).

Definition is_scalar (t : string) : bool := existsb (eqb t) ["string"; "integer"; "number"; "boolean"].

Definition scalar_branch (b : json) : bool := is_some_and is_scalar (jget "type" b ≫= as_str).

(** A stateful step that may run out of fuel. *)
Definition L (A : Type) : Type := Schemas -> option (A * Schemas).

(** The fields of a struct, in the order of the document. *)
Fixpoint lower_fields (node : json -> L ShapeId) (properties : list (string * json)) (fields : btmap string ShapeId)
  : L (btmap string ShapeId) := fun s =>
  match properties with
  | [] => Some (fields, s)
  | (field, schema) :: properties =>
      match node schema s with
      | None => None
      | Some (id, s) => lower_fields node properties (bt_insert field id fields) s
      end
  end.

Definition lower_with (node : json -> L ShapeId) (schema : json) : L Shape := fun s =>
  if flagged "x-kubernetes-preserve-unknown-fields" schema then Some (Raw, s)
  else if flagged "x-kubernetes-int-or-string" schema then Some (Leaf, s)
  else
    match (match jget "oneOf" schema with Some b => Some b | None => jget "anyOf" schema end) ≫= as_array with
    | Some branches => Some (if forallb scalar_branch branches then Leaf else Raw, s)
    | None =>
        let type := jget "type" schema ≫= as_str in
        let properties := jget "properties" schema ≫= as_object in
        let values := jget "additionalProperties" schema in
        if eqb type (Some "array") then
          match jget "items" schema with
          | Some items => match node items s with Some (id, s) => Some (ListOf id, s) | None => None end
          | None => let '(id, s) := push Raw s in Some (ListOf id, s)
          end
        else if is_some_and is_scalar type then Some (Leaf, s)
        else if eqb type (Some "object") || is_none type then
          match properties, values with
          | Some properties, None =>
              match lower_fields node properties [] s with
              | Some (fields, s) => Some (Struct fields, s)
              | None => None
              end
          | None, Some values =>
              match values with
              | JObject _ => match node values s with Some (id, s) => Some (MapOf id, s) | None => None end
              | _ => let '(id, s) := push Raw s in Some (MapOf id, s)
              end
          | _, _ => Some (Raw, s)
          end
        else Some (Raw, s)
    end.

(** [node] and [component], the references followed with [fuel]. *)
Fixpoint component (fuel : nat) (comps : btmap string json) (name : string) {struct fuel} : L ShapeId := fun s =>
  match fuel with
  | O => None
  | S fuel =>
      match bt_get name (lowered s) with
      | Some id => Some (id, s)
      | None =>
          let '(id, s) := push Raw s in
          let s := register name id s in
          match
            match bt_get name comps with
            | Some schema =>
                match reference schema with
                | Some target =>
                    match component fuel comps target s with
                    | Some (t, s) => Some (shape_at s t, s)
                    | None => None
                    end
                | None => lower_with (node fuel comps) schema s
                end
            | None => Some (Raw, s)
            end
          with
          | Some (shape, s) => Some (id, set_shape id shape s)
          | None => None
          end
      end
  end
with node (fuel : nat) (comps : btmap string json) (schema : json) {struct fuel} : L ShapeId := fun s =>
  match fuel with
  | O => None
  | S fuel =>
      match reference schema with
      | Some name => component fuel comps name s
      | None =>
          match lower_with (node fuel comps) schema s with
          | Some (shape, s) => Some (push shape s)
          | None => None
          end
      end
  end.

Definition root_key (gvk : json) : gvk_key :=
  let field f := default "" (jget f gvk ≫= as_str) in (field "group", field "version", field "kind").

Definition add_root (root : ShapeId) (s : Schemas) (gvk : json) : Schemas :=
  match root_of (root_key gvk) (roots s) with
  | Some _ => s
  | None => mkSchemas (shapes s) (lowered s) (roots s ++ [(root_key gvk, root)])%list
  end.

Fixpoint add_components (fuel : nat) (comps : btmap string json) (l : list (string * json)) : L unit := fun s =>
  match l with
  | [] => Some (tt, s)
  | (name, schema) :: l =>
      match jget "x-kubernetes-group-version-kind" schema ≫= as_array with
      | None => add_components fuel comps l s
      | Some gvks =>
          match component fuel comps name s with
          | Some (root, s) => add_components fuel comps l (fold_left (add_root root) gvks s)
          | None => None
          end
      end
  end.

Definition doc_components (doc : json) : option (btmap string json) :=
  (jget "components" doc ≫= jget "schemas") ≫= as_object.

Definition add_document (fuel : nat) (doc : json) : L unit := fun s =>
  match doc_components doc with
  | Some comps => add_components fuel comps comps s
  | None => Some (tt, s)
  end.

(** [Schemas::vendored]: the documents that parse, in order. *)
Fixpoint vendored (fuel : nat) (docs : list (option json)) : L unit := fun s =>
  match docs with
  | [] => Some (tt, s)
  | None :: docs => vendored fuel docs s
  | Some doc :: docs =>
      match add_document fuel doc s with
      | Some (_, s) => vendored fuel docs s
      | None => None
      end
  end.

(** ** Paths *)

Inductive Step : Type := SKey (key : string) | SIndex (index : nat).

#[export] Instance step_eq_dec : EqDecision Step.
Proof. solve_decision. Defined.

Definition StrictPath : Type := list Step.

Definition step_text (first : bool) (s : Step) : string :=
  match s with
  | SKey key => if first then key else "." +:+ key
  | SIndex index => "[" +:+ pretty (Z.of_nat index) +:+ "]"
  end.

Definition strict_path_text (p : StrictPath) : string :=
  match p with
  | [] => ""
  | s :: p => step_text true s +:+ String.concat "" (map (step_text false) p)
  end.

Definition names_merge_directive (p : StrictPath) : bool :=
  match last p with
  | Some (SKey key) =>
      eqb key "$patch" || eqb key "$retainKeys" || starts_with "$setElementOrder/" key ||
      starts_with "$deleteFromPrimitiveList/" key
  | _ => false
  end.

Fixpoint remove_from (p : StrictPath) (v : json) : json :=
  match p, v with
  | [SKey key], JObject m => JObject (bt_remove key m)
  | SKey key :: p, JObject m =>
      match bt_get key m with
      | Some x => JObject (bt_insert key (remove_from p x) m)
      | None => v
      end
  | SIndex index :: p, JArray l =>
      match l !! index with
      | Some x => JArray (<[index := remove_from p x]> l)
      | None => v
      end
  | _, _ => v
  end.

Definition remove_all (paths : list StrictPath) (v : json) : json :=
  fold_left (fun v p => remove_from p v) paths v.

(** [walk]: the unknown fields of a value, the path walked so far before each. *)
Fixpoint walk_unknown (row : Row) (id : ShapeId) (v : json) (path : StrictPath) : list StrictPath :=
  match row_shape row id, v with
  | Struct fields, JObject m =>
      concat (map (fun e => match bt_get e.1 fields with
                            | Some field => walk_unknown row field e.2 (path ++ [SKey e.1])%list
                            | None => [(path ++ [SKey e.1])%list]
                            end) m)
  | MapOf values, JObject m => concat (map (fun e => walk_unknown row values e.2 (path ++ [SKey e.1])%list) m)
  | ListOf items, JArray l =>
      (fix go index l :=
         match l with
         | [] => []
         | x :: l => (walk_unknown row items x (path ++ [SIndex index]) ++ go (S index) l)%list
         end) 0 l
  | _, _ => []
  end.

Definition unknown_paths (row : Row) (v : json) : list StrictPath := walk_unknown row (row_root row) v [].

(** ** The object without its unknown fields *)

(** The value without the unknown fields whose paths [drop] holds of. *)
Fixpoint prune (drop : StrictPath -> bool) (row : Row) (id : ShapeId) (v : json) : json :=
  match row_shape row id, v with
  | Struct fields, JObject m =>
      JObject (concat (map (fun e => match bt_get e.1 fields with
                                     | Some field => [(e.1, prune (fun p => drop (SKey e.1 :: p)) row field e.2)]
                                     | None => if drop [SKey e.1] then [] else [e]
                                     end) m))
  | MapOf values, JObject m => JObject (map (fun e => (e.1, prune (fun p => drop (SKey e.1 :: p)) row values e.2)) m)
  | ListOf items, JArray l =>
      JArray ((fix go index l :=
                 match l with
                 | [] => []
                 | x :: l => prune (fun p => drop (SIndex index :: p)) row items x :: go (S index) l
                 end) 0 l)
  | _, _ => v
  end.

(** What the kind declares of a value. *)
Definition declared (row : Row) (v : json) : json := prune (fun _ => true) row (row_root row) v.

(** ** Facts on paths *)

(** A walk from a path is a walk from the root, moved there. *)
Lemma walk_prefix row id v path :
  walk_unknown row id v path = map (app path) (walk_unknown row id v []).
Proof.
  revert id path. induction v as [| | | | l IH | m IH] using json_nested_ind; intros id path; simpl;
    try (by destruct (row_shape row id)).
  - destruct (row_shape row id) as [| |items | |]; try done.
    generalize 0. induction IH as [|x l Hx _ IHl]; intros i; simpl; [done |].
    rewrite (Hx items (path ++ [SIndex i])%list), (Hx items [SIndex i]), IHl, map_app, map_map. f_equal.
    apply map_ext. intros p. by rewrite <- app_assoc.
  - destruct (row_shape row id) as [fields | values | | |]; try done; rewrite concat_map, map_map; f_equal;
      (induction IH as [|[k x] m Hx _ IHm]; simpl; [done |]; rewrite IHm; f_equal); simpl in Hx.
    + destruct (bt_get k fields) as [f|]; [| done].
      rewrite (Hx f (path ++ [SKey k])%list), (Hx f [SKey k]), map_map. apply map_ext. intros p. by rewrite <- app_assoc.
    + rewrite (Hx values (path ++ [SKey k])%list), (Hx values [SKey k]), map_map. apply map_ext. intros p.
      by rewrite <- app_assoc.
Qed.

(** The walk of a field, below its key. *)
Lemma walk_key row id v k : walk_unknown row id v [SKey k] = map (cons (SKey k)) (walk_unknown row id v []).
Proof. apply (walk_prefix row id v [SKey k]). Qed.

Lemma walk_index row id v i : walk_unknown row id v [SIndex i] = map (cons (SIndex i)) (walk_unknown row id v []).
Proof. apply (walk_prefix row id v [SIndex i]). Qed.

(** An unknown field is below the root. *)
Lemma walk_nonempty row id v : Forall (fun p => p <> []) (walk_unknown row id v []).
Proof.
  destruct v as [| | | | l | m]; simpl; try (by destruct (row_shape row id)).
  - destruct (row_shape row id); try done. generalize 0. induction l as [|x l IH]; intros i; simpl; [done |].
    rewrite walk_index. apply Forall_app. split; [| by apply IH]. by apply Forall_map, List.Forall_forall.
  - destruct (row_shape row id) as [fields | values | | |]; try done;
      (induction m as [|[k x] m IH]; simpl; [done |]; apply Forall_app; split; [| done]).
    + destruct (bt_get k fields); [| by repeat constructor]. rewrite walk_key. by apply Forall_map, List.Forall_forall.
    + rewrite walk_key. by apply Forall_map, List.Forall_forall.
Qed.

(** *** A field in the middle of a sorted map *)

Lemma bt_get_mid {V} (d t : btmap string V) k x : bt_sorted (d ++ (k, x) :: t)%list ->
  bt_get k (d ++ (k, x) :: t)%list = Some x.
Proof. intros Hs. apply bt_get_In; [done |]. apply in_or_app. right. by left. Qed.

Lemma bt_insert_mid {V} (d t : btmap string V) k x y : bt_sorted (d ++ (k, x) :: t)%list ->
  bt_insert k y (d ++ (k, x) :: t)%list = (d ++ (k, y) :: t)%list.
Proof.
  induction d as [|[k' z] d IH]; simpl; intros Hs; [by rewrite cmp_refl |].
  apply bt_sorted_cons in Hs as [Hs Hlt]. rewrite Forall_app, Forall_cons in Hlt. destruct Hlt as (_ & Hk & _).
  unfold entry_lt in Hk. simpl in Hk. rewrite (proj2 (cmp_gt k k') Hk). by rewrite IH.
Qed.

Lemma bt_remove_mid {V} (d t : btmap string V) k x : bt_sorted (d ++ (k, x) :: t)%list ->
  bt_remove k (d ++ (k, x) :: t)%list = (d ++ t)%list.
Proof.
  induction d as [|[k' z] d IH]; simpl; intros Hs; [by rewrite cmp_refl |].
  apply bt_sorted_cons in Hs as [Hs Hlt]. rewrite Forall_app, Forall_cons in Hlt. destruct Hlt as (_ & Hk & _).
  unfold entry_lt in Hk. simpl in Hk. rewrite (proj2 (cmp_gt k k') Hk). by rewrite IH.
Qed.

Lemma bt_sorted_mid {V} (d t : btmap string V) k x y :
  bt_sorted (d ++ (k, x) :: t)%list -> bt_sorted (d ++ (k, y) :: t)%list.
Proof. intros Hs. rewrite <- (bt_insert_mid d t k x y Hs). by apply bt_insert_sorted. Qed.

Lemma bt_sorted_cut {V} (d t : btmap string V) k x :
  bt_sorted (d ++ (k, x) :: t)%list -> bt_sorted (d ++ t)%list.
Proof. intros Hs. rewrite <- (bt_remove_mid d t k x Hs). by apply bt_remove_sorted. Qed.

(** *** Removing paths one at a time *)

Lemma remove_all_app ps qs v : remove_all (ps ++ qs) v = remove_all qs (remove_all ps v).
Proof. apply fold_left_app. Qed.

Lemma remove_key_step k p x (d t : btmap string json) : p <> [] -> bt_sorted (d ++ (k, x) :: t)%list ->
  remove_from (SKey k :: p) (JObject (d ++ (k, x) :: t)) = JObject (d ++ (k, remove_from p x) :: t).
Proof.
  intros Hp Hs. destruct p as [|s p]; [done |]. cbn [remove_from].
  rewrite (bt_get_mid d t k x Hs). f_equal. by apply bt_insert_mid.
Qed.

Lemma remove_all_key k ps x (d t : btmap string json) :
  Forall (fun p => p <> []) ps -> bt_sorted (d ++ (k, x) :: t)%list ->
  remove_all (map (cons (SKey k)) ps) (JObject (d ++ (k, x) :: t)) = JObject (d ++ (k, remove_all ps x) :: t).
Proof.
  intros Hps. revert x. induction Hps as [|p ps Hp _ IH]; intros x Hs; [done |].
  unfold remove_all in *. cbn [map fold_left]. rewrite remove_key_step by done. rewrite IH; [done |].
  by apply (bt_sorted_mid _ _ _ x).
Qed.

Lemma remove_all_index ps x (d t : list json) :
  remove_all (map (cons (SIndex (length d))) ps) (JArray (d ++ x :: t)) = JArray (d ++ remove_all ps x :: t).
Proof.
  revert x. induction ps as [|p ps IH]; intros x; [done |]. unfold remove_all in *. cbn [map fold_left remove_from].
  rewrite list_lookup_middle by done. rewrite insert_app_r_alt, Nat.sub_diag by done. apply IH.
Qed.

Lemma filter_map {A B} (f : B -> bool) (g : A -> B) l : List.filter f (map g l) = map g (List.filter (fun x => f (g x)) l).
Proof. induction l as [|x l IH]; simpl; [done |]. destruct (f (g x)); simpl; by rewrite IH. Qed.

Lemma filter_nonempty (f : StrictPath -> bool) ps :
  Forall (fun p => p <> []) ps -> Forall (fun p => p <> []) (List.filter f ps).
Proof.
  intros H. apply List.Forall_forall. intros p [Hp _]%filter_In. by apply (proj1 (List.Forall_forall _ _) H).
Qed.

(** The two loops of the walk, over values for which the claim holds. *)
Definition prunes (row : Row) (v : json) : Prop := forall drop id, wf_json v = true ->
  remove_all (List.filter drop (walk_unknown row id v [])) v = prune drop row id v.

Lemma prunes_items row items drop l : Forall (prunes row) l -> Forall (fun v => wf_json v = true) l ->
  forall d, remove_all (List.filter drop
    ((fix go index l := match l with
      | [] => []
      | x :: l => (walk_unknown row items x [SIndex index] ++ go (S index) l)%list end) (length d) l)) (JArray (d ++ l)) =
    JArray (d ++ (fix go index l := match l with
      | [] => []
      | x :: l => prune (fun p => drop (SIndex index :: p)) row items x :: go (S index) l end) (length d) l).
Proof.
  induction 1 as [|x l Hx _ IHl]; intros Hw d; [done |]. apply Forall_cons in Hw as [Hwx Hwl].
  rewrite List.filter_app, remove_all_app, walk_index, filter_map, remove_all_index, Hx by done.
  specialize (IHl Hwl (d ++ [prune (fun p => drop (SIndex (length d) :: p)) row items x])%list).
  rewrite length_app, Nat.add_1_r, <- !app_assoc in IHl. exact IHl.
Qed.

Lemma prunes_entries row (field : string -> option ShapeId) drop (m : btmap string json) :
  Forall (fun e => prunes row e.2) m -> Forall (fun e => wf_json e.2 = true) m ->
  forall d, bt_sorted (d ++ m)%list ->
  remove_all (List.filter drop (concat (map (fun e => match field e.1 with
    | Some f => walk_unknown row f e.2 [SKey e.1] | None => [[SKey e.1]] end) m))) (JObject (d ++ m)) =
  JObject (d ++ concat (map (fun e => match field e.1 with
    | Some f => [(e.1, prune (fun p => drop (SKey e.1 :: p)) row f e.2)]
    | None => if drop [SKey e.1] then [] else [e] end) m)).
Proof.
  induction 1 as [|[k x] m Hx _ IHm]; intros Hw d Hs; [done |].
  apply Forall_cons in Hw as [Hwx Hwm]. simpl in Hwx, Hx. cbn [map concat fst snd].
  rewrite List.filter_app, remove_all_app. destruct (field k) as [f|].
  - rewrite walk_key, filter_map, remove_all_key, Hx by (done || apply filter_nonempty, walk_nonempty).
    specialize (IHm Hwm (d ++ [(k, prune (fun p => drop (SKey k :: p)) row f x)])%list).
    rewrite <- !app_assoc in IHm. apply IHm. by apply (bt_sorted_mid _ _ _ x).
  - cbn [List.filter]. destruct (drop [SKey k]).
    + unfold remove_all at 2. cbn [fold_left remove_from app]. rewrite bt_remove_mid by done. apply IHm; [done |].
      by apply (bt_sorted_cut _ _ k x).
    + unfold remove_all at 2. cbn [fold_left app]. specialize (IHm Hwm (d ++ [(k, x)])%list).
      rewrite <- !app_assoc in IHm. by apply IHm.
Qed.

Lemma concat_singletons {A B} (f : A -> B) l : concat (map (fun x => [f x]) l) = map f l.
Proof. induction l as [|x l IH]; simpl; [done | by rewrite IH]. Qed.

(** Removing the chosen unknown fields one path at a time is one pass over the
    value. *)
Lemma remove_all_prune row v : prunes row v.
Proof.
  induction v as [| | | | l IH | m IH] using json_nested_ind; intros drop id Hw; simpl;
    try (by destruct (row_shape row id)).
  - apply wf_json_array in Hw. destruct (row_shape row id) as [| |items | |]; try done.
    by apply (prunes_items row items drop l IH Hw []).
  - assert (bt_sorted m) as Hs by (by apply wf_sorted). apply wf_json_object in Hw as [_ Hw].
    destruct (row_shape row id) as [fields | values | | |]; try done.
    + by apply (prunes_entries row (fun k => bt_get k fields) drop m IH Hw []).
    + pose proof (prunes_entries row (fun _ => Some values) drop m IH Hw [] Hs) as E.
      cbv beta iota in E. by rewrite concat_singletons in E.
Qed.

(** What is left unknown is what was not chosen. *)
Lemma walk_prune drop row id v : wf_json v = true ->
  walk_unknown row id (prune drop row id v) [] = List.filter (fun p => negb (drop p)) (walk_unknown row id v []).
Proof.
  revert drop id. induction v as [| | | | l IH | m IH] using json_nested_ind; intros drop id Hw; simpl;
    try (by destruct (row_shape row id) eqn:E; simpl; rewrite ?E).
  - apply wf_json_array in Hw. destruct (row_shape row id) as [| |items | |] eqn:E; simpl; rewrite ?E; try done.
    generalize 0. induction IH as [|x l Hx _ IHl]; intros i; [done |]. apply Forall_cons in Hw as [Hwx Hwl].
    rewrite List.filter_app, IHl, !walk_index, Hx, filter_map by done. done.
  - apply wf_json_object in Hw as [_ Hw].
    destruct (row_shape row id) as [fields | values | | |] eqn:E; simpl; rewrite ?E; try done.
    + induction IH as [|[k x] m Hx _ IHm]; [done |]. apply Forall_cons in Hw as [Hwx Hwm]. simpl in Hwx, Hx.
      cbn [map concat fst snd]. rewrite map_app, concat_app, List.filter_app, IHm by done. f_equal.
      destruct (bt_get k fields) as [f|] eqn:Ef.
      * cbn [map concat fst snd]. rewrite Ef, app_nil_r, !walk_key, Hx, filter_map by done. done.
      * cbn [List.filter]. destruct (drop [SKey k]); [done |]. cbn [map concat fst snd negb]. by rewrite Ef.
    + induction IH as [|[k x] m Hx _ IHm]; [done |]. apply Forall_cons in Hw as [Hwx Hwm]. simpl in Hwx, Hx.
      cbn [map concat fst snd]. by rewrite List.filter_app, IHm, !walk_key, Hx, filter_map by done.
Qed.

(** What the kind declares is untouched. *)
Lemma prune_prune drop row id v :
  prune (fun _ => true) row id (prune drop row id v) = prune (fun _ => true) row id v.
Proof.
  revert drop id. induction v as [| | | | l IH | m IH] using json_nested_ind; intros drop id; simpl;
    try (by destruct (row_shape row id) eqn:E; simpl; rewrite ?E).
  - destruct (row_shape row id) as [| |items | |] eqn:E; simpl; rewrite ?E; try done. f_equal.
    generalize 0. induction IH as [|x l Hx _ IHl]; intros i; [done |]. by rewrite Hx, IHl.
  - destruct (row_shape row id) as [fields | values | | |] eqn:E; simpl; rewrite ?E; try done; f_equal.
    + induction IH as [|[k x] m Hx _ IHm]; [done |]. simpl in Hx. cbn [map concat fst snd].
      rewrite map_app, concat_app, IHm. f_equal. destruct (bt_get k fields) as [f|] eqn:Ef.
      * cbn [map concat fst snd]. by rewrite Ef, Hx.
      * destruct (drop [SKey k]); cbn [map concat fst snd]; by rewrite ?Ef.
    + induction IH as [|[k x] m Hx _ IHm]; [done |]. simpl in Hx. cbn [map fst snd]. by rewrite Hx, IHm.
Qed.

Lemma remove_from_wf p v : wf_json v = true -> wf_json (remove_from p v) = true.
Proof.
  revert v. induction p as [|[k|i] p IH]; intros [| | | | l | m] Hw; try done; try (by destruct p).
  - destruct p as [|s p]; [by apply wf_json_remove |]. cbn [remove_from]. destruct (bt_get k m) as [x|] eqn:Ex; [| done].
    apply wf_json_insert; [| done]. apply IH. exact (wf_json_get k (JObject m) _ Hw Ex).
  - cbn [remove_from]. destruct (l !! i) as [x|] eqn:Ex; [| done]. rewrite wf_json_array in *. apply Forall_insert; [done |].
    apply IH. exact (Forall_lookup_1 _ _ _ _ Hw Ex).
Qed.

Lemma remove_all_wf ps v : wf_json v = true -> wf_json (remove_all ps v) = true.
Proof. revert v. induction ps as [|p ps IH]; intros v Hw; [done |]. by apply IH, remove_from_wf. Qed.

Lemma prune_wf drop row id v : wf_json v = true -> wf_json (prune drop row id v) = true.
Proof. intros Hw. rewrite <- remove_all_prune by done. by apply remove_all_wf. Qed.

(** ** The lowering of the vendored schemas terminates

    [field_validation/schema.rs]: a component is registered before it is
    lowered, so references that lead back to it stop there; and every shape id
    handed out indexes the table of shapes. *)

(** ** What holds of the table *)

Definition shape_in (n : nat) (shape : Shape) : Prop :=
  match shape with
  | Struct fields => Forall (fun e => e.2 < n) fields
  | MapOf id | ListOf id => id < n
  | Leaf | Raw => True
  end.

(** Every id the table holds indexes its shapes. *)
Definition in_range (s : Schemas) : Prop :=
  let n := length (shapes s) in
  Forall (shape_in n) (shapes s) /\ Forall (fun e => e.2 < n) (lowered s) /\ Forall (fun e => e.2 < n) (roots s).

Definition registered (s : Schemas) (name : string) : bool := is_some (bt_get name (lowered s)).

Definition grows (s t : Schemas) : Prop :=
  length (shapes s) <= length (shapes t) /\ (forall name, registered s name = true -> registered t name = true).

(** The components of a document that are still to be lowered. *)
Definition pending (comps : btmap string json) (s : Schemas) : nat :=
  length (List.filter (fun e => negb (registered s e.1)) comps).

Definition comps_depth (comps : btmap string json) : nat := foldr (fun e d => Nat.max (depth e.2) d) 0 comps.

(** A step that answers, keeps the table in range and only adds to it. *)
Definition answers {A} (comps : btmap string json) (bound : nat) (m : L A) (Q : nat -> A -> Prop) : Prop :=
  forall s, in_range s -> pending comps s <= bound ->
    exists a t, m s = Some (a, t) /\ in_range t /\ grows s t /\ Q (length (shapes t)) a.

Lemma grows_refl s : grows s s.
Proof. split; [lia | done]. Qed.

Lemma grows_trans s t u : grows s t -> grows t u -> grows s u.
Proof. intros [Hl Hn] [Hl' Hn']. split; [lia | auto]. Qed.

Lemma pending_grows comps s t : grows s t -> pending comps t <= pending comps s.
Proof.
  intros [_ Hn]. unfold pending. induction comps as [|[k x] m IH]; [done |]. simpl.
  destruct (registered s k) eqn:Es; [rewrite (Hn _ Es); done |]. simpl. destruct (registered t k); simpl; lia.
Qed.

Lemma shape_in_mono n m shape : n <= m -> shape_in n shape -> shape_in m shape.
Proof.
  intros Hnm. destruct shape; simpl; [| lia | lia | done | done]. intros H. eapply List.Forall_impl; [| exact H]. simpl. lia.
Qed.

Lemma below_mono {A} n m (l : list (A * nat)) :
  n <= m -> Forall (fun e => e.2 < n) l -> Forall (fun e => e.2 < m) l.
Proof. intros Hnm H. eapply List.Forall_impl; [| exact H]. simpl. lia. Qed.

(** ** One operation at a time *)

Lemma push_spec shape s : in_range s -> shape_in (length (shapes s)) shape ->
  exists t, push shape s = (length (shapes s), t) /\ in_range t /\ grows s t /\ length (shapes t) = S (length (shapes s)) /\
    lowered t = lowered s.
Proof.
  intros (Hs & Hl & Hr) Hin. eexists. split; [done |].
  unfold in_range, grows, registered. simpl. rewrite length_app, Nat.add_1_r.
  split_and!; [| | | lia | done | done | done].
  - apply Forall_app. split; [| constructor; [| constructor]].
    + eapply List.Forall_impl; [| exact Hs]. intros x. apply shape_in_mono. lia.
    + by apply (shape_in_mono (length (shapes s))); [lia |].
  - by eapply below_mono; [| exact Hl]; lia.
  - by eapply below_mono; [| exact Hr]; lia.
Qed.

Lemma register_spec name id s : in_range s -> id < length (shapes s) ->
  in_range (register name id s) /\ grows s (register name id s) /\ registered (register name id s) name = true.
Proof.
  intros (Hs & Hl & Hr) Hid. split; [| split].
  - split_and!; simpl; [done | | done]. by apply bt_insert_Forall.
  - split; [done |]. intros k. unfold registered. simpl. destruct (decide (k = name)) as [-> | Hk];
      [by rewrite bt_get_insert_eq | by rewrite bt_get_insert_ne].
  - unfold registered. simpl. by rewrite bt_get_insert_eq.
Qed.

Lemma set_shape_spec id shape s : in_range s -> shape_in (length (shapes s)) shape ->
  in_range (set_shape id shape s) /\ grows s (set_shape id shape s) /\
  length (shapes (set_shape id shape s)) = length (shapes s).
Proof.
  intros (Hs & Hl & Hr) Hin. unfold in_range, grows, registered. simpl. rewrite length_insert.
  split_and!; try done. by apply Forall_insert.
Qed.

Lemma pending_register comps name id s schema :
  bt_get name comps = Some schema -> registered s name = false ->
  pending comps (register name id s) < pending comps s.
Proof.
  intros Hc Hn. apply bt_get_mem in Hc.
  assert (forall k, registered (register name id s) k = eqb k name || registered s k) as Hreg.
  { intros k. unfold registered. simpl. destruct (eqb k name) eqn:E.
    - apply (proj1 (eqb_true _ _)) in E as ->. by rewrite bt_get_insert_eq.
    - apply (proj1 (eqb_false _ _)) in E. by rewrite bt_get_insert_ne. }
  assert (forall l : btmap string json, length (List.filter (fun e => negb (registered (register name id s) e.1)) l) <=
    length (List.filter (fun e => negb (registered s e.1)) l)) as Hle.
  { induction l as [|[k x] l IH]; [done |]. simpl. rewrite Hreg. destruct (eqb k name), (registered s k); simpl; lia. }
  unfold pending. induction comps as [|[k x] l IH]; [done |]. simpl. rewrite Hreg. destruct Hc as [[= -> ->] | Hc].
  - rewrite eqb_refl, Hn. simpl. specialize (Hle l). lia.
  - specialize (IH Hc). destruct (eqb k name), (registered s k); simpl; lia.
Qed.

Lemma depth_below comps name schema : bt_get name comps = Some schema -> depth schema <= comps_depth comps.
Proof.
  intros H. apply bt_get_mem in H. induction comps as [|[k x] l IH]; [done |]. simpl.
  destruct H as [[= -> ->] | H]; [lia |]. specialize (IH H). lia.
Qed.

Lemma jget_depth k v x : jget k v = Some x -> depth x < depth v.
Proof. destruct v; try done. apply depth_get. Qed.

(** ** Lowering a node *)

Section Lower.
Context (comps : btmap string json) (bound : nat) (node : json -> L ShapeId).

Definition id_ok (n : nat) (id : ShapeId) : Prop := id < n.

Lemma lower_fields_answers properties fields :
  (forall e, In e properties -> answers comps bound (node e.2) id_ok) ->
  forall s, in_range s -> pending comps s <= bound -> Forall (fun e => e.2 < length (shapes s)) fields ->
  exists out t, lower_fields node properties fields s = Some (out, t) /\ in_range t /\ grows s t /\
    Forall (fun e => e.2 < length (shapes t)) out.
Proof.
  revert fields. induction properties as [|[field schema] properties IH]; intros fields Hn s Hs Hp Hf.
  { eexists _, _. split; [done |]. split_and!; [done | apply grows_refl | done]. }
  cbn [lower_fields]. destruct (Hn _ (or_introl eq_refl) s Hs Hp) as (id & t & Et & Ht & Hg & Hid). simpl in Et. rewrite Et.
  destruct (IH (bt_insert field id fields)) with (s := t) as (out & u & Eu & Hu & Hgu & Ho).
  - intros e He. apply Hn. by right.
  - done.
  - pose proof (pending_grows comps _ _ Hg). lia.
  - apply bt_insert_Forall; [done |]. by eapply below_mono; [apply Hg | done].
  - eexists _, _. split; [done |]. split_and!; [done | by eapply grows_trans | done].
Qed.

Lemma lower_answers schema :
  (forall sub, depth sub < depth schema -> answers comps bound (node sub) id_ok) ->
  answers comps bound (lower_with node schema) shape_in.
Proof.
  intros Hn s Hs Hp. unfold lower_with.
  assert (forall sh, shape_in (length (shapes s)) sh ->
    exists a t, Some (sh, s) = Some (a, t) /\ in_range t /\ grows s t /\ shape_in (length (shapes t)) a) as Hdone.
  { intros sh Hsh. eexists _, _. split; [done |]. split_and!; [done | apply grows_refl | done]. }
  assert (forall wrap : ShapeId -> Shape, (forall n id, id < n -> shape_in n (wrap id)) ->
    (exists a t, (let '(id, u) := push Raw s in Some (wrap id, u)) = Some (a, t) /\ in_range t /\ grows s t /\
      shape_in (length (shapes t)) a) /\
    (forall sub, depth sub < depth schema ->
      exists a t, match node sub s with Some (id, u) => Some (wrap id, u) | None => None end = Some (a, t) /\
        in_range t /\ grows s t /\ shape_in (length (shapes t)) a)) as Hwrap.
  { intros wrap Hw. split.
    - destruct (push_spec Raw s Hs I) as (t & -> & Ht & Hg & Hl & _). eexists _, _. split; [done |].
      split_and!; [done | done |]. apply Hw. lia.
    - intros sub Hsub. destruct (Hn sub Hsub s Hs Hp) as (id & t & -> & Ht & Hg & Hid). eexists _, _. split; [done |].
      split_and!; [done | done |]. by apply Hw. }
  destruct (flagged _ schema); [by apply Hdone |]. destruct (flagged _ schema); [by apply Hdone |].
  destruct (_ ≫= as_array) as [branches|]; [apply Hdone; by destruct (forallb _ _) |].
  destruct (eqb _ (Some "array")).
  { destruct (Hwrap ListOf) as [H1 H2]; [done |]. destruct (jget "items" schema) as [items|] eqn:Ei; [| done].
    apply H2. by apply jget_depth in Ei. }
  destruct (is_some_and _ _); [by apply Hdone |]. destruct (_ || _); [| by apply Hdone].
  destruct (jget "properties" schema ≫= as_object) as [properties|] eqn:Ep;
    destruct (jget "additionalProperties" schema) as [values|] eqn:Ev; try (by apply Hdone).
  - destruct (jget "properties" schema) as [[]|] eqn:Eo; try done. injection Ep as ->.
    destruct (lower_fields_answers properties []) with (s := s) as (out & t & El & Ht & Hg & Ho); try done.
    { intros e He. apply Hn. apply jget_depth in Eo. pose proof (depth_entry _ _ He). lia. }
    exists (Struct out), t. split; [by setoid_rewrite El |]. by split_and!.
  - destruct (Hwrap MapOf) as [H1 H2]; [done |]. destruct values; try done. apply H2. by apply jget_depth in Ev.
Qed.

End Lower.

(** ** The fuel is enough *)

Lemma reference_object schema name : reference schema = Some name -> 1 <= depth schema.
Proof. by destruct schema; simpl; lia. Qed.

(** The two claims the induction on fuel carries. *)
Definition component_answers (fuel : nat) (comps : btmap string json) : Prop :=
  forall name bound, bound * (comps_depth comps + 2) + 1 <= fuel -> answers comps bound (component fuel comps name) id_ok.

Definition node_answers (fuel : nat) (comps : btmap string json) : Prop :=
  forall schema bound, bound * (comps_depth comps + 2) + depth schema + 1 <= fuel ->
    answers comps bound (node fuel comps schema) id_ok.

(** The shape of a component just registered. *)
Lemma body_answers comps fuel name bound :
  component_answers fuel comps -> node_answers fuel comps -> bound * (comps_depth comps + 2) <= fuel ->
  forall s, in_range s -> (is_some (bt_get name comps) = true -> pending comps s < bound) ->
  exists shape t, match bt_get name comps with
      | Some schema => match reference schema with
          | Some target => match component fuel comps target s with Some (i, t) => Some (shape_at t i, t) | None => None end
          | None => lower_with (node fuel comps) schema s end
      | None => Some (Raw, s) end = Some (shape, t) /\ in_range t /\ grows s t /\ shape_in (length (shapes t)) shape.
Proof.
  intros IHc IHn Hb s Hs Hp. destruct (bt_get name comps) as [schema|] eqn:Ec.
  2: { eexists _, _. split; [done |]. split_and!; [done | apply grows_refl | done]. }
  specialize (Hp eq_refl). pose proof (depth_below _ _ _ Ec) as Hd.
  assert (pending comps s * (comps_depth comps + 2) + comps_depth comps + 1 <= fuel) as Hfuel by nia.
  destruct (reference schema) as [target|].
  - destruct (IHc target (pending comps s) ltac:(lia) s Hs (le_n _)) as (i & t & -> & Ht & Hg & Hi).
    eexists _, _. split; [done |]. split_and!; [done | done |]. unfold shape_at.
    destruct Ht as (Ht & _). unfold id_ok in Hi. destruct (shapes t !! i) as [sh|] eqn:E; [| done].
    exact (Forall_lookup_1 _ _ _ _ Ht E).
  - apply (lower_answers comps (pending comps s)); [| done | done]. intros sub Hsub. apply IHn. lia.
Qed.

Lemma lowers comps fuel : component_answers fuel comps /\ node_answers fuel comps.
Proof.
  induction fuel as [|fuel [IHc IHn]]; [split; intros ???; lia |]. split.
  - intros name bound Hb s Hs Hp. cbn [component]. destruct (bt_get name (lowered s)) as [id|] eqn:El.
    { exists id, s. split; [done |]. split_and!; [done | apply grows_refl |]. destruct Hs as (_ & Hl & _).
      apply bt_get_mem in El. by apply (proj1 (List.Forall_forall _ _) Hl) in El. }
    destruct (push_spec Raw s Hs I) as (t & -> & Ht & Hg & Hlen & Hlow).
    destruct (register_spec name (length (shapes s)) t Ht ltac:(lia)) as (Hu & Hgu & _).
    destruct (body_answers comps fuel name bound IHc IHn ltac:(lia) _ Hu) as (shape & v & -> & Hv & Hgv & Hsh).
    { intros Hc. destruct (bt_get name comps) as [schema|] eqn:Ec; [| done].
      assert (registered t name = false) as Hn by (unfold registered; by rewrite Hlow, El).
      pose proof (pending_register comps name (length (shapes s)) t schema Ec Hn).
      pose proof (pending_grows comps _ _ Hg). lia. }
    destruct (set_shape_spec (length (shapes s)) shape v Hv Hsh) as (Hw & Hgw & Hlw).
    eexists _, _. split; [done |]. split_and!; [done | by repeat (eapply grows_trans; [done |]) |].
    unfold id_ok. rewrite Hlw. destruct Hgu as [Hgu _], Hgv as [Hgv _]. lia.
  - intros schema bound Hb s Hs Hp. cbn [node]. destruct (reference schema) as [name|] eqn:Er.
    { apply (IHc name bound); [| done | done]. apply reference_object in Er. lia. }
    destruct (lower_answers comps bound (node fuel comps) schema) with (s := s) as (shape & t & -> & Ht & Hg & Hsh);
      [intros sub Hsub; apply IHn; lia | done | done |].
    destruct (push_spec shape t Ht Hsh) as (u & Eu & Hu & Hgu & Hlen & _).
    exists (length (shapes t)), u. rewrite Eu. split; [done |].
    split_and!; [done | by eapply grows_trans | unfold id_ok; lia].
Qed.

(** ** Documents *)

(** Fuel that is enough for a document. *)
Definition document_fuel (doc : json) : nat :=
  match doc_components doc with
  | Some comps => length comps * (comps_depth comps + 2) + 1
  | None => 0
  end.

Lemma add_root_spec root s gvk : in_range s -> root < length (shapes s) ->
  in_range (add_root root s gvk) /\ shapes (add_root root s gvk) = shapes s.
Proof.
  intros Hs Hr. unfold add_root. destruct (root_of _ _); [done |]. split; [| done].
  destruct Hs as (H1 & H2 & H3). split_and!; try done. simpl. apply Forall_app. split; [done |]. by repeat constructor.
Qed.

Lemma add_roots_spec root gvks s : in_range s -> root < length (shapes s) -> in_range (fold_left (add_root root) gvks s).
Proof.
  revert s. induction gvks as [|gvk gvks IH]; intros s Hs Hr; [done |]. simpl.
  destruct (add_root_spec root s gvk Hs Hr) as [Hs' El]. apply IH; [done | by rewrite El].
Qed.

Lemma pending_all comps s : pending comps s <= length comps.
Proof. unfold pending. induction comps as [|e l IH]; simpl; [lia |]. destruct (negb _); simpl; lia. Qed.

Lemma add_components_spec fuel comps l s : length comps * (comps_depth comps + 2) + 1 <= fuel -> in_range s ->
  exists t, add_components fuel comps l s = Some (tt, t) /\ in_range t.
Proof.
  intros Hf. revert s. induction l as [|[name schema] l IH]; intros s Hs; [by exists s |]. cbn [add_components].
  destruct (_ ≫= as_array) as [gvks|]; [| by apply IH].
  destruct (proj1 (lowers comps fuel) name (length comps) Hf s Hs (pending_all comps s)) as (root & t & -> & Ht & _ & Hr).
  apply IH. by apply add_roots_spec.
Qed.

(** (C27) The table of shapes is built whatever the documents refer to, with fuel for
    the deepest chain of references their components can make; and every id in it
    names a shape of it, so that no lookup of a shape falls back. *)
Theorem lowering_terminates fuel docs :
  (forall doc, In (Some doc) docs -> document_fuel doc <= fuel) ->
  exists s, vendored fuel docs no_schemas = Some (tt, s) /\ in_range s /\
    forall group version kind row, schemas_row s group version kind = Some row ->
      is_some (shapes s !! row_root row) = true.
Proof.
  intros Hf. assert (exists s, vendored fuel docs no_schemas = Some (tt, s) /\ in_range s) as (s & Es & Hs).
  { assert (in_range no_schemas) as H0 by (by split_and!). revert H0. generalize no_schemas.
    induction docs as [|[doc|] docs IH]; intros s Hs; [by exists s | | apply IH; [intros; apply Hf; by right | done]].
    assert (exists t, add_document fuel doc s = Some (tt, t) /\ in_range t) as (t & Et & Ht).
    { specialize (Hf doc (or_introl eq_refl)). unfold add_document, document_fuel in *.
      destruct (doc_components doc) as [comps|]; [by apply add_components_spec | by exists s]. }
    cbn [vendored]. rewrite Et. apply IH; [intros; apply Hf; by right | done]. }
  exists s. split_and!; [done | done |]. intros group version kind row Hrow. unfold schemas_row in Hrow.
  destruct (root_of _ (roots s)) as [id|] eqn:Er; [| done]. injection Hrow as <-. simpl.
  destruct Hs as (_ & _ & Hr). clear -Er Hr. induction Hr as [|[k i] l Hi _ IH]; [done |]. simpl in Er.
  destruct (eqb _ k); [| by apply IH]. injection Er as ->. simpl in Hi.
  assert (is_Some (shapes s !! id)) as [sh E] by (by apply lookup_lt_is_Some_2). by setoid_rewrite E.
Qed.

(** A document of two components that refer to each other. *)
Definition sample_doc : json :=
  let meta := jobj [("type", JString "object");
                    ("properties", jobj [("name", jobj [("type", JString "string")]);
                                         ("labels", jobj [("type", JString "object");
                                                          ("additionalProperties", jobj [("type", JString "string")])])])] in
  let pod := jobj [("type", JString "object");
                   ("properties", jobj [("metadata", jobj [("allOf", JArray [jobj [("$ref", JString "#/components/schemas/Meta")]])]);
                                        ("parts", jobj [("type", JString "array");
                                                        ("items", jobj [("$ref", JString "#/components/schemas/Pod")])])]);
                   ("x-kubernetes-group-version-kind",
                    JArray [jobj [("group", JString ""); ("version", JString "v1"); ("kind", JString "Pod")]])] in
  jobj [("components", jobj [("schemas", jobj [("Meta", meta); ("Pod", pod)])])].

Lemma lowering_terminates_witness :
  document_fuel sample_doc <= 20 /\
  exists s, vendored 20 [None; Some sample_doc] no_schemas = Some (tt, s) /\ in_range s /\
    forall group version kind row, schemas_row s group version kind = Some row ->
      is_some (shapes s !! row_root row) = true.
Proof.
  split; [by vm_compute; repeat constructor |]. apply lowering_terminates.
  intros doc [E | [E | []]]; [done |]. injection E as <-. vm_compute. repeat constructor.
Defined.
