(* ===== verification/FieldValidation.v ===== *)
(** * Unknown and duplicate fields of a write

    [engenho-apiserver/src/field_validation]: the scan of a request's own bytes
    ([scan.rs]), the directive, the warnings, the check of a body that is an
    object and the judgement of a patched one ([mod.rs]).

    [serde_json]'s reader is a parameter ([JsonReader]): a document is a value
    whose objects list their members as they are written, repeated keys included;
    decoding it keeps the last member of each name ([value_of]). *)

From Stdlib Require Import Ascii String.
From stdpp Require Import base tactics option list strings numbers pretty.
From S2P Require Import Prelude Text BTreeMap Json ApiErrors ObjectBody FieldShapes.

Local Open Scope string_scope.
Local Open Scope Z_scope.

(** ** Documents *)

(** A document as it is written: its text read, or the error of the reader. *)
Class JsonReader : Type := { read_document : string -> result json string }.

Fixpoint value_of (d : json) : json :=
  match d with
  | JArray l => JArray (map value_of l)
  | JObject m => JObject (bt_of_list (map (fun e => (e.1, value_of e.2)) m))
  | _ => d
  end.

(** [serde_json::from_slice::<Value>]. *)
Definition from_slice `{JsonReader} (raw : string) : result json string := result_map value_of (read_document raw).

(** ** Findings *)

Definition MAX_FINDINGS : nat := 100.

Inductive FindingKind : Type := Unknown | Duplicate.
Inductive Origin : Type := OfObject | OfJsonPatch.

#[export] Instance finding_kind_eq_dec : EqDecision FindingKind.
Proof. solve_decision. Defined.
#[export] Instance origin_eq_dec : EqDecision Origin.
Proof. solve_decision. Defined.

Record Finding : Type := mkFinding { f_kind : FindingKind; f_path : StrictPath; f_origin : Origin }.

#[export] Instance finding_eq_dec : EqDecision Finding.
Proof. solve_decision. Defined.

Definition Findings : Type := list Finding.

Definition record (found : Findings) (f : Finding) : Findings :=
  if (length found <? MAX_FINDINGS)%nat && negb (existsb (eqb f) found) then (found ++ [f])%list else found.

Definition extend (found others : Findings) : Findings := fold_left record others found.

(** *** Texts *)

Definition dquote : string := String (ascii_of_nat 34) "".

Definition hex_digit (n : Z) : ascii := ascii_of_N (Z.to_N (if n <? 10 then 48 + n else 87 + n)).
Definition hex2 (n : Z) : string := String (hex_digit (n / 16)) (String (hex_digit (n mod 16)) "").

(** A control character of one byte; the lead and second byte of one of two. *)
Definition control1 (c : ascii) : bool := (code c <? 32) || (code c =? 127).
Definition control2 (c d : ascii) : bool := (code c =? 194) && (128 <=? code d) && (code d <=? 159).

(** [GoQuoted], without its quotes. *)
Fixpoint go_escape (s : string) : string :=
  match s with
  | EmptyString => ""
  | String c rest =>
      if Ascii.eqb c (ascii_of_nat 34) then "\" +:+ dquote +:+ go_escape rest
      else if Ascii.eqb c "\" then "\\" +:+ go_escape rest
      else if code c =? 10 then "\n" +:+ go_escape rest
      else if code c =? 13 then "\r" +:+ go_escape rest
      else if code c =? 9 then "\t" +:+ go_escape rest
      else if control1 c then "\x" +:+ hex2 (code c) +:+ go_escape rest
      else
        match rest with
        | String d rest' => if control2 c d then "\x" +:+ hex2 (code d) +:+ go_escape rest' else String c (go_escape rest)
        | EmptyString => String c ""
        end
  end.

Definition go_quoted (s : string) : string := dquote +:+ go_escape s +:+ dquote.

Definition finding_text (f : Finding) : string :=
  (if eqb (f_origin f) OfJsonPatch then "json patch " else "") +:+
  match f_kind f with Unknown => "unknown field " | Duplicate => "duplicate field " end +:+
  go_quoted (strict_path_text (f_path f)).

(** [StrictDecodingError]. *)
Definition strict_error (found : Findings) : string :=
  "strict decoding error: " +:+ String.concat ", " (map finding_text found).

(** ** The scan *)

Inductive Target : Type := TKind (row : Row) | TUntyped | TJsonPatch.

Inductive At : Type := Typed (id : ShapeId) | Untyped | AtRaw | JsonPatchOps | JsonPatchOp.

Record Scanner : Type := mkScanner { sc_row : option Row; sc_origin : Origin }.

Definition scanner_shape (sc : Scanner) (id : ShapeId) : Shape :=
  match sc_row sc with Some row => row_shape row id | None => Raw end.

Definition found_at (sc : Scanner) (kind : FindingKind) (path : StrictPath) (key : string) (found : Findings) : Findings :=
  record found (mkFinding kind (path ++ [SKey key])%list (sc_origin sc)).

(** [duplicate_check]. *)
Definition check_seen (sc : Scanner) (path : StrictPath) (key : string) (seen : list string) (found : Findings)
  : list string * Findings :=
  if existsb (eqb key) seen then (seen, found_at sc Duplicate path key found) else (key :: seen, found).

Definition enter (sc : Scanner) (at_ : At) (path : StrictPath) (key : string) (seen : list string) (found : Findings)
  : At * (list string * Findings) :=
  let checked := check_seen sc path key seen found in
  let unknown := (seen, found_at sc Unknown path key found) in
  match at_ with
  | AtRaw | JsonPatchOps => (AtRaw, (seen, found))
  | Untyped => (Untyped, checked)
  | JsonPatchOp =>
      if existsb (eqb key) ["op"; "path"; "from"] then (AtRaw, checked)
      else if eqb key "value" then (Untyped, checked)
      else (AtRaw, unknown)
  | Typed id =>
      match scanner_shape sc id with
      | Struct fields =>
          match bt_get key fields with
          | Some field => (Typed field, checked)
          | None => (AtRaw, unknown)
          end
      | MapOf values => (Typed values, checked)
      | ListOf _ | Leaf | Raw => (AtRaw, (seen, found))
      end
  end.

Definition element (sc : Scanner) (at_ : At) : At :=
  match at_ with
  | Untyped => Untyped
  | JsonPatchOps => JsonPatchOp
  | Typed id => match scanner_shape sc id with ListOf items => Typed items | _ => AtRaw end
  | AtRaw | JsonPatchOp => AtRaw
  end.

(** The two loops of the visitor, over the elements of a list and the members of
    an object, given the visit of a value. *)
Section Loops.
Context (visit_value : At -> json -> StrictPath -> Findings -> Findings) (sc : Scanner) (at_ : At) (path : StrictPath).

Fixpoint visit_seq (index : nat) (l : list json) (found : Findings) : Findings :=
  match l with
  | [] => found
  | x :: l => visit_seq (S index) l (visit_value (element sc at_) x (path ++ [SIndex index])%list found)
  end.

Fixpoint visit_map (m : list (string * json)) (seen : list string) (found : Findings) : Findings :=
  match m with
  | [] => found
  | e :: m =>
      let '(value_at, (seen, found)) := enter sc at_ path e.1 seen found in
      visit_map m seen (visit_value value_at e.2 (path ++ [SKey e.1])%list found)
  end.
End Loops.

(** The visitor. *)
Fixpoint visit (sc : Scanner) (at_ : At) (d : json) (path : StrictPath) (found : Findings) {struct d} : Findings :=
  match d with
  | JArray l => visit_seq (visit sc) sc at_ path 0 l found
  | JObject m => visit_map (visit sc) sc at_ path m [] found
  | _ => found
  end.

Definition scan_document (target : Target) (d : json) : Findings :=
  match target with
  | TKind row => visit (mkScanner (Some row) OfObject) (Typed (row_root row)) d [] []
  | TUntyped => visit (mkScanner None OfObject) Untyped d [] []
  | TJsonPatch => visit (mkScanner None OfJsonPatch) JsonPatchOps d [] []
  end.

Definition scan_fields `{JsonReader} (raw : string) (target : Target) : result Findings string :=
  result_map (scan_document target) (read_document raw).

Definition unknown_findings (paths : list StrictPath) : Findings :=
  fold_left (fun found p => record found (mkFinding Unknown p OfObject)) paths [].

(** ** The directive *)

Inductive FieldMode : Type := Ignore | Warn | Strict.

#[export] Instance field_mode_eq_dec : EqDecision FieldMode.
Proof. solve_decision. Defined.

Inductive WriteOptions : Type := CreateOptions | UpdateOptions | PatchOptions.

Definition options_kind (o : WriteOptions) : string :=
  match o with CreateOptions => "CreateOptions" | UpdateOptions => "UpdateOptions" | PatchOptions => "PatchOptions" end.

Record Directive : Type := mkDirective { d_mode : FieldMode; d_asked : bool }.

Definition default_directive : Directive := mkDirective Warn false.

(** [UnsupportedDirective], as the error it becomes. *)
Definition unsupported_directive (options : WriteOptions) (v : string) : ApiError.t :=
  ApiError.Invalid
    (options_kind options +:+ ".meta.k8s.io " +:+ dquote +:+ dquote +:+
     " is invalid: fieldValidation: Unsupported value: " +:+ go_quoted v +:+ ": supported values: " +:+
     String.concat ", " (map go_quoted [""; "Ignore"; "Strict"; "Warn"])).

Definition directive_parse (raw : option string) (options : WriteOptions) : result Directive ApiError.t :=
  match raw with
  | None => Ok default_directive
  | Some s =>
      if eqb s "" then Ok default_directive
      else if eqb s "Ignore" then Ok (mkDirective Ignore true)
      else if eqb s "Warn" then Ok (mkDirective Warn true)
      else if eqb s "Strict" then Ok (mkDirective Strict true)
      else Err (unsupported_directive options s)
  end.

Definition wants_to_know (d : Directive) : bool := d_asked d && negb (eqb (d_mode d) Ignore).

(** ** Warnings *)

Definition Warnings : Type := list string.

Definition TOTAL_RUNES : nat := 4 * 1024.
Definition ITEM_RUNES : nat := 256.

Definition add_warning (w : Warnings) (text : string) : Warnings :=
  if negb (eqb text "") && negb (existsb (eqb text) w) then (w ++ [text])%list else w.

(** A byte that continues a character. *)
Definition continuation (c : ascii) : bool := (128 <=? code c) && (code c <? 192).

(** [chars().count()]. *)
Fixpoint runes (s : string) : nat :=
  match s with
  | EmptyString => 0
  | String c s => if continuation c then runes s else S (runes s)
  end.

(** The first [n] characters. *)
Fixpoint cut_runes (n : nat) (s : string) : string :=
  match s with
  | EmptyString => ""
  | String c s =>
      if continuation c then String c (cut_runes n s)
      else match n with O => "" | S n => String c (cut_runes n s) end
  end.

Definition cut (s : string) : string := cut_runes ITEM_RUNES s.

(** The state of the loop of [budgeted]: [before] is what it has passed. *)
Fixpoint budget (before rest : list string) (written : nat) (truncating : bool) (out : list string) : list string :=
  match rest with
  | [] => out
  | text :: rest =>
      if truncating && (TOTAL_RUNES <=? written)%nat then out
      else
        let item := if truncating then cut text else text in
        if truncating || (written + runes item <=? TOTAL_RUNES)%nat
        then budget (before ++ [text])%list rest (written + runes item)%nat truncating (out ++ [item])%list
        else
          let out := map cut (before ++ [text])%list in
          budget (before ++ [text])%list rest (list_sum (map runes out)) true out
  end.

Definition budgeted (w : Warnings) : list string := budget [] w 0 false [].

(** [WarningHeader]. *)
Fixpoint header_escape (s : string) : string :=
  match s with
  | EmptyString => ""
  | String c rest =>
      if Ascii.eqb c (ascii_of_nat 34) then "\" +:+ dquote +:+ header_escape rest
      else if Ascii.eqb c "\" then "\\" +:+ header_escape rest
      else if control1 c then " " +:+ header_escape rest
      else
        match rest with
        | String d rest' => if control2 c d then " " +:+ header_escape rest' else String c (header_escape rest)
        | EmptyString => String c ""
        end
  end.

Definition warning_header (text : string) : string := "299 - " +:+ dquote +:+ header_escape text +:+ dquote.

(** The warnings of a response, as headers. *)
Definition warning_headers (w : Warnings) : list string := map warning_header (budgeted w).

Definition unknown_not_checked (kind api_version : string) : string :=
  "fieldValidation: unknown fields are not detected for " +:+ kind +:+ " in " +:+ api_version +:+
  "; only duplicate fields were checked".

Definition subresource_not_checked (name : string) : string :=
  "fieldValidation: the " +:+ name +:+ " subresource is not checked for unknown or duplicate fields".

Definition subresource_directive (raw : option string) (options : WriteOptions) (name : string) (w : Warnings)
  : result Warnings ApiError.t :=
  let? d := directive_parse raw options in
  Ok (if wants_to_know d then add_warning w (subresource_not_checked name) else w).

(** [Directive::judge]. *)
Definition judge (d : Directive) (found : Findings) (w : Warnings) (refusal : string -> ApiError.t)
  : result Warnings ApiError.t :=
  match found with
  | [] => Ok w
  | _ =>
      match d_mode d with
      | Strict => Err (refusal (strict_error found))
      | Warn => Ok (fold_left add_warning (map finding_text found) w)
      | Ignore => Ok w
      end
  end.

(** ** Bodies *)

Record KindRef : Type := mkKindRef { k_group : string; k_version : string; k_kind : string; k_api_version : string }.

Section Kinds.
Context (vendored_schemas : Schemas).

Definition row_of (kind : KindRef) : option Row :=
  schemas_row vendored_schemas (k_group kind) (k_version kind) (k_kind kind).

(** [check_object]: the object without its unknown fields, and the warnings. *)
Definition check_object `{JsonReader} (d : Directive) (kind : KindRef) (raw : option string) (v : json) (w : Warnings)
  : result (json * Warnings) ApiError.t :=
  let schema := row_of kind in
  let refusal error := ApiError.BadRequest (undecodable (k_version kind) (k_kind kind) error) in
  let? found :=
    match raw with
    | Some raw => result_map_err refusal (scan_fields raw (match schema with Some row => TKind row | None => TUntyped end))
    | None => Ok []
    end in
  let? w := judge d found w refusal in
  Ok (match schema with
      | Some row => (remove_all (unknown_paths row v) v, w)
      | None => (v, if wants_to_know d then add_warning w (unknown_not_checked (k_kind kind) (k_api_version kind)) else w)
      end).

(** ** Patches *)

Record PatchFields : Type := mkPatchFields { pf_directive : Directive; pf_border : Findings; pf_warnings : Warnings }.

Inductive PatchBytes : Type := BMerge | BJson | BOpaque.

Definition scan_patch `{JsonReader} (d : Directive) (raw : string) (bytes : PatchBytes) : result PatchFields ApiError.t :=
  match bytes with
  | BOpaque => Ok (mkPatchFields d [] [])
  | BMerge | BJson =>
      let? border :=
        result_map_err (fun e => ApiError.BadRequest ("error decoding patch: " +:+ e))
          (scan_fields raw (match bytes with BJson => TJsonPatch | _ => TUntyped end)) in
      Ok (mkPatchFields d border [])
  end.

Definition unasked : PatchFields := mkPatchFields default_directive [] [].

(** [PatchInvalid]. *)
Definition patch_invalid (v error : string) : string :=
  " " +:+ dquote +:+ dquote +:+ " is invalid: patch: Invalid value: " +:+ go_quoted v +:+ ": " +:+ error.

(** The loop of [judge_patched]: the patched object without the merge's own
    directives, and what the patch introduced. *)
Fixpoint introduce (strategic : bool) (before paths : list StrictPath) (patched : json) (introduced : list StrictPath)
  : json * list StrictPath :=
  match paths with
  | [] => (patched, introduced)
  | p :: paths =>
      if strategic && names_merge_directive p then introduce strategic before paths (remove_from p patched) introduced
      else if negb (existsb (eqb p) before) then introduce strategic before paths patched (introduced ++ [p])%list
      else introduce strategic before paths patched introduced
  end.

(** The judged object, and the fields with this attempt's warnings. *)
Definition judge_patched `{SerdeJson} (fields : PatchFields) (kind : KindRef) (prior patched : json) (strategic : bool)
  : result (json * PatchFields) ApiError.t :=
  let schema := row_of kind in
  let '(patched, introduced) :=
    match schema with
    | Some row => introduce strategic (unknown_paths row prior) (unknown_paths row patched) patched []
    | None => (patched, [])
    end in
  let found := extend (pf_border fields) (unknown_findings introduced) in
  let? w := judge (pf_directive fields) found []
              (fun error => ApiError.Invalid (patch_invalid (json_text patched) error)) in
  let patched := remove_all introduced patched in
  let w :=
    if is_none schema && wants_to_know (pf_directive fields)
    then add_warning w (unknown_not_checked (k_kind kind) (k_api_version kind)) else w in
  Ok (patched, mkPatchFields (pf_directive fields) (pf_border fields) w).

End Kinds.
