(* ===== verification/FieldFacts.v ===== *)
(** * What the field checks find and drop

    A body is refused under [Strict] exactly when some object in it has a field
    its kind lacks or repeats one; what passes loses nothing.  A patch is
    answerable for the unknown fields it introduced and for nothing else, and
    what the kind declares is never touched.  The warning headers stay within
    their budget. *)

From Stdlib Require Import Ascii String.
From stdpp Require Import base tactics option list strings numbers pretty countable.
From S2P Require Import Prelude Text BTreeMap Json ApiErrors ObjectBody FieldShapes FieldValidation.

Local Open Scope string_scope.
Local Open Scope Z_scope.

(** ** A strict document *)

(** What the decoder makes of a key of an object at [at_]: nothing, a field it
    has, or a place it does not look into. *)
Inductive KeyClass : Type := NoField | Checked (at_ : At) | Unseen.

Definition key_class (sc : Scanner) (at_ : At) (key : string) : KeyClass :=
  match at_ with
  | AtRaw | JsonPatchOps => Unseen
  | Untyped => Checked Untyped
  | JsonPatchOp =>
      if existsb (eqb key) ["op"; "path"; "from"] then Checked AtRaw
      else if eqb key "value" then Checked Untyped else NoField
  | Typed id =>
      match scanner_shape sc id with
      | Struct fields => match bt_get key fields with Some f => Checked (Typed f) | None => NoField end
      | MapOf values => Checked (Typed values)
      | ListOf _ | Leaf | Raw => Unseen
      end
  end.

Definition class_at (c : KeyClass) : At := match c with Checked a => a | NoField | Unseen => AtRaw end.
Definition is_checked (c : KeyClass) : bool := match c with Checked _ => true | _ => false end.
Definition is_field (c : KeyClass) : bool := match c with NoField => false | _ => true end.

(** No key twice. *)
Fixpoint distinct (l : list string) : bool :=
  match l with [] => true | k :: l => negb (existsb (eqb k) l) && distinct l end.

(** Every key of every object is a field, and no checked key is repeated. *)
Fixpoint strictly_decodes (sc : Scanner) (at_ : At) (d : json) : bool :=
  match d with
  | JArray l => forallb (strictly_decodes sc (element sc at_)) l
  | JObject m =>
      forallb (fun e => is_field (key_class sc at_ e.1)) m &&
      distinct (List.filter (fun k => is_checked (key_class sc at_ k)) (map fst m)) &&
      forallb (fun e => strictly_decodes sc (class_at (key_class sc at_ e.1)) e.2) m
  | _ => true
  end.

Lemma record_ne found f : record found f <> [].
Proof.
  unfold record. destruct found as [|g found]; [done |]. by destruct (_ && _).
Qed.

Lemma enter_class sc at_ path key seen found :
  enter sc at_ path key seen found =
  (class_at (key_class sc at_ key),
   match key_class sc at_ key with
   | NoField => (seen, found_at sc Unknown path key found)
   | Checked _ => check_seen sc path key seen found
   | Unseen => (seen, found)
   end).
Proof. unfold enter, key_class. repeat case_match; done. Qed.

(** What was found stays found. *)
Definition keeps_found (sc : Scanner) (d : json) : Prop :=
  forall at_ path found, found <> [] -> visit sc at_ d path found <> [].

Lemma visit_seq_keeps sc at_ path l index found :
  Forall (keeps_found sc) l -> found <> [] -> visit_seq (visit sc) sc at_ path index l found <> [].
Proof.
  intros H. revert index found. induction H as [|x l Hx _ IH]; intros index found Hf; [done |]. by apply IH, Hx.
Qed.

Lemma visit_map_keeps sc at_ path m seen found :
  Forall (fun e => keeps_found sc e.2) m -> found <> [] -> visit_map (visit sc) sc at_ path m seen found <> [].
Proof.
  intros H. revert seen found. induction H as [|e m He _ IH]; intros seen found Hf; [done |]. cbn [visit_map].
  rewrite enter_class. destruct (key_class sc at_ e.1); cbn.
  - apply IH, He, record_ne.
  - unfold check_seen. destruct (existsb _ seen); apply IH, He; [apply record_ne | done].
  - by apply IH, He.
Qed.

Lemma visit_keeps sc d : keeps_found sc d.
Proof.
  induction d as [| | | | l IH | m IH] using json_nested_ind; intros at_ path found Hf; try done.
  - by apply visit_seq_keeps.
  - by apply visit_map_keeps.
Qed.

Lemma keeps_all sc l : Forall (keeps_found sc) l.
Proof. apply List.Forall_forall. intros. apply visit_keeps. Qed.

Lemma keeps_entries sc (m : list (string * json)) : Forall (fun e => keeps_found sc e.2) m.
Proof. apply List.Forall_forall. intros. apply visit_keeps. Qed.

(** Nothing is found exactly in a document that decodes strictly. *)
Definition finds_exactly (sc : Scanner) (d : json) : Prop :=
  forall at_ path, visit sc at_ d path [] = [] <-> strictly_decodes sc at_ d = true.

Lemma visit_seq_exact sc at_ path l index : Forall (finds_exactly sc) l ->
  visit_seq (visit sc) sc at_ path index l [] = [] <-> forallb (strictly_decodes sc (element sc at_)) l = true.
Proof.
  intros H. revert index. induction H as [|x l Hx _ IH]; intros index; [done |]. cbn [visit_seq forallb].
  rewrite andb_true_iff, <- (Hx _ (path ++ [SIndex index])%list).
  destruct (visit sc _ x _ []) as [|f found]; [rewrite IH; naive_solver |].
  pose proof (visit_seq_keeps sc at_ path l (S index) (f :: found) (keeps_all sc l) ltac:(done)). naive_solver.
Qed.

(** The keys already seen weigh on the rest of the object. *)
Definition fresh (sc : Scanner) (at_ : At) (seen : list string) (m : list (string * json)) : bool :=
  forallb (fun e => is_field (key_class sc at_ e.1)) m &&
  forallb (fun k => negb (existsb (eqb k) seen)) (List.filter (fun k => is_checked (key_class sc at_ k)) (map fst m)) &&
  distinct (List.filter (fun k => is_checked (key_class sc at_ k)) (map fst m)) &&
  forallb (fun e => strictly_decodes sc (class_at (key_class sc at_ e.1)) e.2) m.

Lemma fresh_cons (seen : list string) (k : string) (l : list string) :
  forallb (fun x => negb (existsb (eqb x) (k :: seen))) l =
  forallb (fun x => negb (existsb (eqb x) seen)) l && negb (existsb (eqb k) l).
Proof.
  induction l as [|x l IH]; [done |]. cbn [forallb]. rewrite IH. cbn [existsb].
  replace (eqb x k) with (eqb k x).
  2: { destruct (eqb k x) eqn:E; symmetry; [apply (proj1 (eqb_true _ _)) in E as ->; apply eqb_refl |].
       apply eqb_false. apply (proj1 (eqb_false _ _)) in E. done. }
  destruct (eqb k x); cbn [orb negb andb]; [by rewrite andb_false_r | by rewrite andb_assoc].
Qed.

Lemma visit_map_exact sc at_ path m seen : Forall (fun e => finds_exactly sc e.2) m ->
  visit_map (visit sc) sc at_ path m seen [] = [] <-> fresh sc at_ seen m = true.
Proof.
  intros H. revert seen. induction H as [|[k x] m Hx _ IH]; intros seen; [done |]. cbn [visit_map fst snd]. simpl in Hx.
  assert (forall seen found, found <> [] -> visit_map (visit sc) sc at_ path m seen found <> []) as Hkeep.
  { intros. apply visit_map_keeps; [apply keeps_entries | done]. }
  assert (forall seen at', visit_map (visit sc) sc at_ path m seen (visit sc at' x (path ++ [SKey k])%list []) = [] <->
            strictly_decodes sc at' x = true /\ fresh sc at_ seen m = true) as Hrest.
  { intros s a. rewrite <- (Hx a (path ++ [SKey k])%list), <- IH.
    destruct (visit sc a x _ []) as [|f found]; [naive_solver |]. specialize (Hkeep s (f :: found)). naive_solver. }
  rewrite enter_class. unfold fresh. cbn [forallb map fst snd List.filter].
  destruct (key_class sc at_ k) as [|a|] eqn:Ek; cbn [is_field is_checked class_at andb].
  - split; [| done]. intros Hn. exfalso. revert Hn. apply Hkeep, visit_keeps, record_ne.
  - unfold check_seen. cbn [forallb distinct]. destruct (existsb (eqb k) seen) eqn:Es; cbn [negb andb].
    + rewrite andb_false_r. split; [| done]. intros Hn. exfalso. revert Hn. apply Hkeep, visit_keeps, record_ne.
    + rewrite Hrest. unfold fresh. rewrite fresh_cons, !andb_true_iff. tauto.
  - rewrite Hrest. unfold fresh. rewrite !andb_true_iff. tauto.
Qed.

Lemma visit_exact sc d : finds_exactly sc d.
Proof.
  induction d as [| | | | l IH | m IH] using json_nested_ind; intros at_ path; try done.
  - by apply visit_seq_exact.
  - cbn [visit strictly_decodes]. rewrite (visit_map_exact sc at_ path m [] IH). unfold fresh.
    replace (forallb (fun k => negb (existsb (eqb k) [])) _) with true; [by rewrite andb_true_r |].
    symmetry. by apply forallb_forall.
Qed.

(** ** What passes loses nothing *)

Lemma bt_of_list_Forall {V} (P : string * V -> Prop) (l : list (string * V)) : Forall P l -> Forall P (bt_of_list l).
Proof.
  unfold bt_of_list. assert (Forall P (@nil (string * V))) as H0 by constructor. revert H0.
  generalize (@nil (string * V)). induction l as [|[k x] l IH]; intros m Hm Hl; [done |].
  apply List.Forall_cons_iff in Hl as [Hx Hl]. apply IH; [| done]. by apply bt_insert_Forall.
Qed.

Lemma concat_nil_Forall {A B} (f : A -> list B) l : Forall (fun x => f x = []) l -> concat (map f l) = [].
Proof. induction 1 as [|x l Hx _ IH]; [done |]. simpl. by rewrite Hx, IH. Qed.

Lemma strict_value row o d id :
  strictly_decodes (mkScanner (Some row) o) (Typed id) d = true -> walk_unknown row id (value_of d) [] = [].
Proof.
  revert id. induction d as [| | | | l IH | m IH] using json_nested_ind; intros id;
    try (by cbn; destruct (row_shape row id)); cbn [value_of walk_unknown strictly_decodes key_class element scanner_shape sc_row app].
  - destruct (row_shape row id) as [| |items | |] eqn:Es; try done. intros Hl. generalize 0%nat.
    induction IH as [|x l Hx _ IHl]; intros i; [done |]. cbn [forallb map] in *. apply andb_true_iff in Hl as [H1 H2].
    rewrite walk_index, (Hx items) by done. cbn [map app]. by apply IHl.
  - rewrite !andb_true_iff. intros [[Hk _] Hc].
    destruct (row_shape row id) as [fields | values | | |] eqn:Es; try done; apply concat_nil_Forall, bt_of_list_Forall, Forall_map;
      apply List.Forall_forall; intros [k x] Hin; cbn [fst snd];
      apply (proj1 (forallb_forall _ _)) with (x := (k, x)) in Hc; try done;
      apply (proj1 (forallb_forall _ _)) with (x := (k, x)) in Hk; try done; cbn [fst snd] in *;
      apply (proj1 (List.Forall_forall _ _)) with (x := (k, x)) in IH; try done; simpl in IH.
    + destruct (bt_get k fields) as [f|]; [| done]. by rewrite walk_key, IH.
    + by rewrite walk_key, IH.
Qed.

(** Nothing unknown, nothing dropped. *)
Lemma declared_id row v : wf_json v = true -> unknown_paths row v = [] -> declared row v = v.
Proof. intros Hw Hu. unfold declared. rewrite <- remove_all_prune by done. unfold unknown_paths in Hu. by rewrite Hu. Qed.

Fixpoint numbers_ok (d : json) : bool :=
  match d with
  | JNumber n => number_ok n
  | JArray l => forallb numbers_ok l
  | JObject m => forallb (fun e => numbers_ok e.2) m
  | _ => true
  end.

Lemma value_of_wf d : numbers_ok d = true -> wf_json (value_of d) = true.
Proof.
  induction d as [| | | | l IH | m IH] using json_nested_ind; try done; cbn [value_of numbers_ok]; rewrite forallb_forall; intros H.
  - apply wf_json_array, Forall_map, List.Forall_forall. intros x Hx.
    apply (proj1 (List.Forall_forall _ _) IH); [done |]. by apply H.
  - apply wf_json_object. split; [apply bt_of_list_sorted, bt_sorted_nil |].
    apply bt_of_list_Forall, Forall_map, List.Forall_forall. intros e He. simpl.
    apply (proj1 (List.Forall_forall _ _) IH e He). by apply H.
Qed.

(** [serde_json] reads numbers it can hold. *)
Class JsonReaderLaws `{JsonReader} : Prop := { read_numbers : forall raw d, read_document raw = Ok d -> numbers_ok d = true }.

(** ** Bodies *)

Lemma judge_ok d found w refusal w' :
  judge d found w refusal = Ok w' <->
  (d_mode d = Strict -> found = []) /\
  w' = if eqb (d_mode d) Warn then fold_left add_warning (map finding_text found) w else w.
Proof.
  unfold judge. destruct found as [|f found]; [| destruct (d_mode d)]; simpl.
  - destruct (eqb (d_mode d) Warn); naive_solver.
  - naive_solver.
  - naive_solver.
  - split; [done |]. intros [H _]. by specialize (H eq_refl).
Qed.

Section Bodies.
Context `{JsonReaderLaws} (schemas : Schemas).

(** (C24) The body of a write, a JSON object of a kind with a schema: it is refused
    exactly when its text is not JSON, or under [Strict] when it does not decode
    strictly; what goes on is what the kind declares of it, and under [Strict]
    that is the whole of it.  [Warn] adds a warning for each thing found, and
    the other directives none. *)
Theorem check_object_exact d kind row raw w :
  row_of schemas kind = Some row ->
  let sc := mkScanner (Some row) OfObject in
  match read_document raw with
  | Err e =>
      forall v, check_object schemas d kind (Some raw) v w =
        Err (ApiError.BadRequest (undecodable (k_version kind) (k_kind kind) e))
  | Ok doc =>
      let strict := strictly_decodes sc (Typed (row_root row)) doc in
      match check_object schemas d kind (Some raw) (value_of doc) w with
      | Ok (v, w') =>
          v = declared row (value_of doc) /\ (d_mode d = Strict -> strict = true /\ v = value_of doc) /\
          w' = if eqb (d_mode d) Warn then fold_left add_warning (map finding_text (scan_document (TKind row) doc)) w else w
      | Err _ => d_mode d = Strict /\ strict = false
      end
  end.
Proof.
  intros Hrow sc. unfold check_object, scan_fields. rewrite Hrow. destruct (read_document raw) as [doc|e] eqn:Er; [| done].
  cbn [result_map result_map_err result_bind scan_document]. cbv zeta.
  pose proof (value_of_wf doc (read_numbers raw doc Er)) as Hw.
  pose proof (visit_exact sc doc (Typed (row_root row)) []) as Hv. fold sc.
  destruct (judge d _ w _) as [w'|e] eqn:Ej; cbn [result_bind].
  - apply judge_ok in Ej as [Hs ->].
    assert (remove_all (unknown_paths row (value_of doc)) (value_of doc) = declared row (value_of doc)) as ->.
    { unfold declared. rewrite <- remove_all_prune by done. f_equal. unfold unknown_paths. symmetry.
      induction (walk_unknown row (row_root row) (value_of doc) []) as [|p l IH]; simpl; [done | by rewrite IH]. }
    split_and!; [done | | done]. intros Hm. specialize (Hs Hm). apply Hv in Hs. split; [done |].
    apply declared_id; [done |]. by eapply strict_value.
  - unfold judge in Ej. destruct (visit sc (Typed (row_root row)) doc [] []) eqn:Ef; [done |].
    destruct (d_mode d); try done. split; [done |].
    destruct (strictly_decodes sc (Typed (row_root row)) doc); [| done]. by pose proof (proj2 Hv eq_refl).
Qed.

End Bodies.

(** ** Patches *)

Lemma introduce_split strategic before paths patched acc :
  introduce strategic before paths patched acc =
  (remove_all (List.filter (fun p => strategic && names_merge_directive p) paths) patched,
   (acc ++ List.filter (fun p => negb (strategic && names_merge_directive p) && negb (existsb (eqb p) before)) paths)%list).
Proof.
  revert patched acc. induction paths as [|p paths IH]; intros patched acc; simpl; [by rewrite app_nil_r |].
  destruct (strategic && names_merge_directive p); [by rewrite IH |].
  destruct (existsb (eqb p) before); simpl; [by rewrite IH |]. rewrite IH. by rewrite <- app_assoc.
Qed.

Lemma filter_filter {A} (f g : A -> bool) l : List.filter g (List.filter f l) = List.filter (fun x => f x && g x) l.
Proof. induction l as [|x l IH]; simpl; [done |]. destruct (f x); simpl; [destruct (g x) |]; by rewrite IH. Qed.

Lemma record_all_ne {A} (f : A -> Finding) l found :
  fold_left (fun found a => record found (f a)) l found = [] -> found = [] /\ l = [].
Proof.
  revert found. induction l as [|a l IH]; intros found; simpl; [done |]. intros [E _]%IH. by destruct (record_ne found (f a)).
Qed.

Lemma extend_nil border introduced : extend border (unknown_findings introduced) = [] -> border = [] /\ introduced = [].
Proof.
  unfold extend, unknown_findings. intros [-> E]%(record_all_ne (fun f => f)). by apply record_all_ne in E as [_ ->].
Qed.

Section Patches.
Context `{SerdeJson} (schemas : Schemas).

Lemma judge_patched_keeps fields kind row prior patched strategic :
  row_of schemas kind = Some row -> wf_json patched = true ->
  match judge_patched schemas fields kind prior patched strategic with Ok (out, _) => wf_json out = true | Err _ => True end.
Proof.
  intros Hrow Hw. unfold judge_patched. rewrite Hrow, introduce_split. destruct (judge _ _ _ _); cbn [result_bind]; [| done].
  by apply remove_all_wf, remove_all_wf.
Qed.

(** A patched object of a kind with a schema: the judgement refuses it only under
    [Strict], for something the scan of the patch found or the patch introduced;
    what it lets through has kept everything the kind declares, and of the
    unknown fields exactly those the stored object had before, the instructions
    of a strategic merge excepted. *)
Theorem judge_patched_exact fields kind row prior patched strategic :
  row_of schemas kind = Some row -> wf_json patched = true ->
  let before := unknown_paths row prior in
  let directive p := strategic && names_merge_directive p in
  let introduced := List.filter (fun p => negb (directive p) && negb (existsb (eqb p) before)) (unknown_paths row patched) in
  match judge_patched schemas fields kind prior patched strategic with
  | Ok (out, _) =>
      declared row out = declared row patched /\
      unknown_paths row out =
        List.filter (fun p => negb (directive p) && existsb (eqb p) before) (unknown_paths row patched) /\
      wf_json out = true /\
      (d_mode (pf_directive fields) = Strict -> pf_border fields = [] /\ introduced = [])
  | Err _ => d_mode (pf_directive fields) = Strict /\ (pf_border fields <> [] \/ introduced <> [])
  end.
Proof.
  intros Hrow Hw before directive introduced. unfold judge_patched. rewrite Hrow, introduce_split. fold before. cbn [app].
  change (List.filter (fun p => strategic && names_merge_directive p)) with (List.filter directive).
  change (List.filter (fun p => negb (strategic && names_merge_directive p) && negb (existsb (eqb p) before))) with
    (List.filter (fun p => negb (directive p) && negb (existsb (eqb p) before))). fold introduced.
  assert (remove_all (List.filter directive (unknown_paths row patched)) patched =
          prune directive row (row_root row) patched) as -> by (by apply remove_all_prune).
  set (kept := prune directive row (row_root row) patched).
  assert (wf_json kept = true) as Hk by (by apply prune_wf).
  assert (introduced = List.filter (fun p => negb (existsb (eqb p) before)) (walk_unknown row (row_root row) kept [])) as Ei.
  { unfold kept. by rewrite walk_prune, filter_filter. }
  destruct (judge _ _ _ _) as [w|e] eqn:Ej; cbn [result_bind].
  - apply judge_ok in Ej as [Hs _].
    assert (remove_all introduced kept = prune (fun p => negb (existsb (eqb p) before)) row (row_root row) kept) as ->.
    { rewrite Ei. by apply remove_all_prune. }
    split_and!.
    + unfold declared. rewrite prune_prune. apply prune_prune.
    + unfold unknown_paths. rewrite walk_prune by done. unfold kept. rewrite walk_prune, filter_filter by done.
      apply filter_ext. intros p. by rewrite negb_involutive.
    + by apply prune_wf.
    + intros Hm. specialize (Hs Hm). by apply extend_nil.
  - unfold judge in Ej. destruct (extend _ _) eqn:Ee; [done |]. destruct (d_mode _); try done. split; [done |].
    destruct (pf_border fields); [| by left]. right. by intros ->.
Qed.

End Patches.

(** ** The budget of the warning headers *)

Lemma runes_cut n s : (runes (cut_runes n s) <= n)%nat /\ (runes (cut_runes n s) <= runes s)%nat.
Proof.
  revert n. induction s as [|c s IH]; intros n; simpl; [lia |]. destruct (continuation c) eqn:E; simpl; [rewrite E; apply IH |].
  destruct n as [|n]; simpl; [lia |]. rewrite E. specialize (IH n). lia.
Qed.

Definition total_runes (l : list string) : nat := list_sum (map runes l).

Lemma total_runes_app l k : total_runes (l ++ k) = (total_runes l + total_runes k)%nat.
Proof. unfold total_runes. by rewrite map_app, list_sum_app. Qed.

Lemma total_runes_cut l : (total_runes (map cut l) <= total_runes l)%nat.
Proof.
  induction l as [|s l IH]; [done |]. unfold total_runes in *. simpl. destruct (runes_cut ITEM_RUNES s) as [_ H].
  unfold cut at 1. lia.
Qed.

(** What the loop has put out of the warnings it has passed. *)
Definition settled (truncating : bool) (l : list string) : list string := if truncating then map cut l else l.
Definition allowed (truncating : bool) : nat := (TOTAL_RUNES + if truncating then ITEM_RUNES else 0)%nat.

Lemma settled_snoc t l text :
  settled t (l ++ [text]) = (settled t l ++ [if t then cut text else text])%list.
Proof. destruct t; simpl; [by rewrite map_app | done]. Qed.

Lemma total_runes_one text : total_runes [text] = runes text.
Proof. unfold total_runes. simpl. lia. Qed.

Lemma budget_spec before rest t :
  (total_runes (settled t before) <= allowed t)%nat ->
  exists n truncated,
    budget before rest (total_runes (settled t before)) t (settled t before) = settled truncated (before ++ take n rest) /\
    (total_runes (settled truncated (before ++ take n rest)) <= allowed truncated)%nat /\
    (truncated = false -> t = false /\ n = length rest) /\
    (t = false -> (total_runes (before ++ rest) <= TOTAL_RUNES)%nat -> truncated = false).
Proof.
  revert before t. induction rest as [|text rest IH]; intros before t Hout.
  { exists 0%nat, t. cbn [budget take]. rewrite app_nil_r. by split_and!. }
  assert (forall t', (total_runes (settled t' (before ++ [text])) <= allowed t')%nat -> (t' = false -> t = false) ->
    (t = false -> (total_runes (before ++ text :: rest) <= TOTAL_RUNES)%nat -> t' = false) ->
    exists n truncated,
      budget (before ++ [text]) rest (total_runes (settled t' (before ++ [text]))) t' (settled t' (before ++ [text])) =
        settled truncated (before ++ take n (text :: rest)) /\
      (total_runes (settled truncated (before ++ take n (text :: rest))) <= allowed truncated)%nat /\
      (truncated = false -> t = false /\ n = length (text :: rest)) /\
      (t = false -> (total_runes (before ++ text :: rest) <= TOTAL_RUNES)%nat -> truncated = false)) as Hnext.
  { intros t' Ht Hf Hw. destruct (IH (before ++ [text])%list t' Ht) as (n & tr & E & Hb & Hn & Hx).
    exists (S n), tr. cbn [take]. rewrite <- !app_assoc in *. cbn [app] in *. split_and!; [done | done | |].
    - intros Htr. destruct (Hn Htr) as [Ht' ->]. split; [by apply Hf | done].
    - intros Ht0 Hle. apply Hx; [by apply Hw | done]. }
  destruct (runes_cut ITEM_RUNES text) as [Hc _]. fold (cut text) in Hc. unfold allowed in Hout.
  cbn [budget]. destruct t; cbn [andb orb] in *.
  - destruct (TOTAL_RUNES <=? _)%nat eqn:Et.
    { exists 0%nat, true. cbn [take]. rewrite app_nil_r. by split_and!. }
    apply Nat.leb_gt in Et. specialize (Hnext true). rewrite settled_snoc, total_runes_app, total_runes_one in Hnext.
    apply Hnext; [unfold allowed; lia | done | done].
  - destruct (_ <=? TOTAL_RUNES)%nat eqn:Et.
    + apply Nat.leb_le in Et. specialize (Hnext false). rewrite settled_snoc, total_runes_app, total_runes_one in Hnext.
      apply Hnext; [unfold allowed; lia | done | done].
    + apply Nat.leb_gt in Et. pose proof (total_runes_cut before). apply (Hnext true); [| done |].
      * rewrite settled_snoc, total_runes_app, total_runes_one. unfold allowed. simpl in *. lia.
      * intros _ Hle. cbn [settled] in *.
        assert (total_runes (before ++ text :: rest) = (total_runes before + runes text + total_runes rest)%nat) as E.
        { change (before ++ text :: rest)%list with (before ++ ([text] ++ rest))%list.
          rewrite !total_runes_app, total_runes_one. lia. }
        lia.
Qed.

(** The headers carry the warnings in order: all of them whole when together they
    are within the budget, else the first of them, each cut to its own limit; and
    never more than the budget and one warning's limit. *)
Theorem budgeted_bounds w :
  (total_runes (budgeted w) <= TOTAL_RUNES + ITEM_RUNES)%nat /\
  ((total_runes w <= TOTAL_RUNES)%nat -> budgeted w = w) /\
  ((TOTAL_RUNES < total_runes w)%nat -> exists n, budgeted w = map cut (take n w)).
Proof.
  destruct (budget_spec [] w false) as (n & t & E & Hb & Hn & Hx); [unfold allowed, total_runes; simpl; lia |].
  cbn [app settled] in *. change (budget [] w (total_runes []) false []) with (budgeted w) in E. rewrite E.
  split_and!.
  - unfold allowed in Hb. destruct t; lia.
  - intros Hle. rewrite (Hx eq_refl Hle) in *. destruct (Hn eq_refl) as [_ ->]. cbn [settled]. by rewrite firstn_all.
  - intros Hgt. exists n. destruct t; [done |]. destruct (Hn eq_refl) as [_ ->]. rewrite firstn_all in Hb.
    unfold allowed in Hb. cbn [settled] in Hb. lia.
Qed.

(** ** Witnesses *)

(** A reader of documents printed as numbers. *)
Definition numbered_reader : JsonReader := {|
  read_document raw :=
    match decode (unbits raw) with
    | Some d => if numbers_ok d then Ok d else Err "number out of range"
    | None => Err "expected value"
    end
|}.

Lemma numbered_reader_laws : @JsonReaderLaws numbered_reader.
Proof. split. intros raw d. simpl. destruct (decode (unbits raw)) as [v|]; [| done]. destruct (numbers_ok v) eqn:E; [| done]. by intros [= <-]. Qed.

#[local] Existing Instance numbered_reader.
#[local] Existing Instance numbered_reader_laws.

Definition sample_schemas : Schemas :=
  match vendored 20 [Some sample_doc] no_schemas with Some (_, s) => s | None => no_schemas end.

Definition pod_kind : KindRef := mkKindRef "" "v1" "Pod" "v1".
Definition pod_row : Row := default (mkRow no_schemas 0%nat) (row_of sample_schemas pod_kind).

(** A pod with a repeated label and an unknown field. *)
Definition untidy_pod : json :=
  JObject [("metadata", JObject [("name", JString "p");
                                 ("labels", JObject [("a", JString "1"); ("a", JString "2")])]);
           ("bogus", JNull)].

Definition tidy_pod : json := jobj [("metadata", jobj [("name", JString "p"); ("labels", jobj [("a", JString "2")])])].

Lemma check_object_exact_witness :
  row_of sample_schemas pod_kind = Some pod_row /\
  check_object sample_schemas (mkDirective Warn true) pod_kind (Some (bits (encode untidy_pod))) (value_of untidy_pod) [] =
    Ok (tidy_pod, [finding_text (mkFinding Duplicate [SKey "metadata"; SKey "labels"; SKey "a"] OfObject);
                   finding_text (mkFinding Unknown [SKey "bogus"] OfObject)]) /\
  match read_document (bits (encode tidy_pod)) with
  | Ok doc =>
      match check_object sample_schemas (mkDirective Strict true) pod_kind (Some (bits (encode tidy_pod))) (value_of doc) [] with
      | Ok (v, _) => v = declared pod_row (value_of doc)
      | Err _ => False
      end
  | Err _ => False
  end.
Proof.
  assert (row_of sample_schemas pod_kind = Some pod_row) as Hrow by (by vm_compute).
  split; [done |]. split; [by vm_compute |].
  pose proof (check_object_exact sample_schemas (mkDirective Strict true) pod_kind pod_row (bits (encode tidy_pod)) [] Hrow) as H.
  assert (read_document (bits (encode tidy_pod)) = Ok tidy_pod) as Er by (by vm_compute).
  rewrite Er. rewrite Er in H. cbv zeta in H.
  assert (is_ok (check_object sample_schemas (mkDirective Strict true) pod_kind (Some (bits (encode tidy_pod)))
    (value_of tidy_pod) []) = true) as Hok by (by vm_compute).
  destruct (check_object _ _ _ _ _ _) as [[v w]|] in H, Hok |- *; [exact (proj1 H) | done].
Defined.

#[local] Existing Instance numbered.

(** A merge patch that brings an unknown field, onto an object that had another. *)
Lemma judge_patched_exact_witness :
  let prior := jobj [("metadata", jobj [("name", JString "p")]); ("old", JNull)] in
  let patched := jobj [("metadata", jobj [("name", JString "p")]); ("new", JNull); ("old", JNull)] in
  row_of sample_schemas pod_kind = Some pod_row /\ wf_json patched = true /\
  match judge_patched sample_schemas unasked pod_kind prior patched false with
  | Ok (out, _) => out = prior /\ declared pod_row out = declared pod_row patched
  | Err _ => False
  end.
Proof.
  intros prior patched. assert (row_of sample_schemas pod_kind = Some pod_row) as Hrow by (by vm_compute).
  split; [done |]. split; [done |].
  pose proof (judge_patched_exact sample_schemas unasked pod_kind pod_row prior patched false Hrow eq_refl) as H. cbv zeta in H.
  destruct (judge_patched _ _ _ _ _ _) as [[out f]|] eqn:Ej; [| by vm_compute in Ej].
  split; [| apply H]. vm_compute in Ej. by injection Ej as <- _.
Defined.
