(* ===== verification/Handler.v ===== *)
(** * The handler of a kind

    [engenho-apiserver/src/handler.rs], [StoreBackedHandler]: reads, paged lists,
    deletes, the status subresource and evictions ([eviction.rs]), over the store;
    the admission chain of [engenho-controllers/src/admission.rs].

    A handler reaches the store several times while it answers one request, and
    others write in between.  A [World] is the catalog and what the others will
    commit before each of the handler's next accesses; an operation is a function
    of worlds ([M]).  Webhooks are parameters of the chain, clocks are arguments. *)

From Stdlib Require Import Ascii String.
From stdpp Require Import base tactics option list strings numbers pretty.
From S2P Require Import Prelude Text BTreeMap Json Resource WatchHistory Command Read.
From S2P Require Import PatchApply Ssa Pagination Catalog CatalogTheorems Birth Mesh WatchBackend.
From S2P Require Import ApiErrors Coords Auth Params.

Local Open Scope string_scope.
Local Open Scope Z_scope.

(** ** Interleaved accesses *)

Record World : Type := mkWorld {
  stored_catalog : ResourceCatalog;
  others : list (list LogEntry)
}.

Definition M (A : Type) : Type := World -> A * World.
Definition ret {A} (a : A) : M A := fun w => (a, w).
Definition bind {A B} (m : M A) (f : A -> M B) : M B := fun w => let '(a, w) := m w in f a w.

(** Sequencing, and sequencing that stops at an error. *)
Definition bind_ok {A B E} (m : M (result A E)) (f : A -> M (result B E)) : M (result B E) :=
  bind m (fun r => match r with Ok a => f a | Err e => ret (Err e) end).

Declare Scope handler_scope.
Delimit Scope handler_scope with handler.
Notation "'let!' x ':=' m 'in' k" := (bind m (fun x => k))
  (at level 10, x pattern, m at level 100, k at level 200) : handler_scope.
Notation "'let!?' x ':=' m 'in' k" := (bind_ok m (fun x => k))
  (at level 10, x pattern, m at level 100, k at level 200) : handler_scope.
Local Open Scope handler_scope.

(** ** Admission *)

Inductive AdmissionAction : Type := APut | APatch | ADelete.

Inductive AdmissionDecision : Type := AAllow | AMutate (v : json) | ADeny (reason : string).

Record AdmissionRequest : Type := mkAdmission {
  adm_action : AdmissionAction;
  adm_key : ResourceKey;
  adm_value : option json;
  adm_current : option json;
  adm_user : UserInfo
}.

(** A webhook: its name and its review, which may fail. *)
Record AdmissionWebhook : Type := mkWebhook {
  hook_name : string;
  hook_review : AdmissionRequest -> result AdmissionDecision string
}.

Inductive AdmissionMode : Type := FailOpen | FailClosed.

Record AdmissionChain : Type := mkChain { hooks : list AdmissionWebhook; chain_mode : AdmissionMode }.

Definition with_value (r : AdmissionRequest) (v : json) : AdmissionRequest :=
  mkAdmission (adm_action r) (adm_key r) (Some v) (adm_current r) (adm_user r).

Fixpoint review_hooks (mode : AdmissionMode) (l : list AdmissionWebhook) (request : AdmissionRequest)
  : AdmissionDecision :=
  match l with
  | [] => match adm_value request with Some v => AMutate v | None => AAllow end
  | hook :: l =>
      match hook_review hook request, mode with
      | Err _, FailClosed => ADeny (hook_name hook +:+ ": backend failure (fail-closed)")
      | Err _, FailOpen | Ok AAllow, _ => review_hooks mode l request
      | Ok (AMutate v), _ => review_hooks mode l (with_value request v)
      | Ok (ADeny reason), _ => ADeny (hook_name hook +:+ ": " +:+ reason)
      end
  end.

Definition review (chain : AdmissionChain) (request : AdmissionRequest) : AdmissionDecision :=
  review_hooks (chain_mode chain) (hooks chain) request.

(** ** The handler *)

Module Subresource.

Inductive t : Type := Status | Scale | Log | Token | Exec | Attach | PortForward | Eviction.

#[global] Instance t_eq_dec : EqDecision t.
Proof. solve_decision. Defined.

End Subresource.

Record StoreBackedHandler : Type := mkHandler {
  h_group : string;
  h_version : string;
  h_kind : string;
  h_plural : string;
  h_namespaced : bool;
  h_subresources : list Subresource.t;
  h_admission : option AdmissionChain;
  h_namespace_lifecycle : bool;
  h_crd_schema : option json
}.

Definition serves (h : StoreBackedHandler) (s : Subresource.t) : bool := existsb (eqb s) (h_subresources h).

Definition api_version (h : StoreBackedHandler) : string :=
  if eqb (h_group h) "" then h_version h else h_group h +:+ "/" +:+ h_version h.

Definition inject_type_meta (v : json) (api_version kind : string) : json :=
  match v with
  | JObject m => JObject (or_insert "apiVersion" (JString api_version) (or_insert "kind" (JString kind) m))
  | _ => v
  end.

Definition strip_type_meta (v : json) : json :=
  match v with
  | JObject m => JObject (bt_remove "apiVersion" (bt_remove "kind" m))
  | _ => v
  end.

Definition typed (h : StoreBackedHandler) (v : json) : json := inject_type_meta v (api_version h) (h_kind h).

(** [<Kind>List]. *)
Definition list_response (h : StoreBackedHandler) (items : list json) (rv : Revision)
    (continue_ : option string) (remaining : option Z) : json :=
  jobj [("kind", JString (h_kind h +:+ "List")); ("apiVersion", JString (api_version h)); ("items", JArray items);
        ("metadata",
         jobj (("resourceVersion", JString (pretty rv)) ::
               (match continue_ with Some t => [("continue", JString t)] | None => [] end ++
                match remaining with
                | Some r => [("remainingItemCount", JNumber (number_of_i64 r))]
                | None => []
                end)%list))].

Definition revision_of_value (v : json) : option Revision :=
  ((jget "metadata" v ≫= jget "resourceVersion") ≫= as_str) ≫= parse_unsigned Word.u64_max.

Definition rv_conflict (h : StoreBackedHandler) (name : string) (expected : option Revision) : ApiError.t :=
  ApiError.ResourceVersionConflict
    ("Operation cannot be fulfilled on " +:+ h_plural h +:+ " " +:+ quoted name +:+
     ": the object has been modified; expected resourceVersion " +:+
     match expected with Some r => pretty r | None => "<none>" end +:+ " did not match the live object").

Section Store.
Context `{SerdeJson} `{PatchSchemaEnv} `{OpDecoder} `{Blake3} `{ErrorText}.

(** [debug] is the [Debug] text of a string; [sealer] the store's write fault;
    [refusal_text] the text of a refused proposal; [births] the clock the store
    reads when it stamps what a command creates. *)
Context (debug : string -> string) (sealer : option SealFault.t) (refusal_text : string * SealFault.t -> string).
Context (births : string).

(** The others' next writes. *)
Definition step_others (w : World) : World :=
  match others w with
  | [] => w
  | l :: rest => mkWorld (run (stored_catalog w) l).2 rest
  end.

Definition read {A} (f : ResourceCatalog -> A) : M A := fun w =>
  let w := step_others w in (f (stored_catalog w), w).

(** [StoreMesh::propose], its error as the handlers render it. *)
Definition propose_cmd (cmd : ResourceCommand.t) : M (result ApplyOutcome ApiError.t) := fun w =>
  let w := step_others w in
  match propose sealer births (stored_catalog w) cmd with
  | Ok (o, c) => (Ok o, mkWorld c (others w))
  | Err e => (Err (ApiError.StorageError (refusal_text e)), w)
  end.

Definition handler_key (h : StoreBackedHandler) (namespace : option string) (name : string)
  : result ResourceKey ApiError.t :=
  if negb (eqb (h_namespaced h) (is_some namespace)) then
    Err (ApiError.BadRequest
           (h_kind h +:+ "/" +:+ name +:+ " is " +:+
            (if h_namespaced h then "namespaced" else "cluster-scoped") +:+ "; got namespace=" +:+
            match namespace with Some ns => "Some(" +:+ debug ns +:+ ")" | None => "None" end))
  else
    Ok (match namespace with
        | Some ns => namespaced (h_group h) (h_version h) (h_kind h) ns name
        | None => cluster_scoped (h_group h) (h_version h) (h_kind h) name
        end).

Definition unreadable_secret (k : ResourceKey) (fault : SealFault.t) (count : nat) : ApiError.t :=
  ApiError.StorageError
    (pretty (Z.of_nat count) +:+ " stored object(s) cannot be read, first " +:+ label k +:+ ": " +:+
     seal_fault_text fault).

Definition handler_scope (h : StoreBackedHandler) (namespace : option string) : ListScope :=
  mkListScope (h_group h) (h_version h) (h_kind h) namespace.

Definition not_found (h : StoreBackedHandler) (name : string) : ApiError.t :=
  ApiError.NotFound (h_kind h +:+ "/" +:+ name).

(** ** Reads *)

Definition handler_get (h : StoreBackedHandler) (namespace : option string) (name : string)
  : M (result json ApiError.t) :=
  let!? k := ret (handler_key h namespace name) in
  let! fault := read (fun c => secret_fault c k) in
  match fault with
  | Some f => ret (Err (unreadable_secret k f 1))
  | None =>
      let! v := read (fun c => get c k) in
      ret (match v with Some v => Ok (typed h v) | None => Err (not_found h name) end)
  end.

Definition refuse_unreadable_secrets (h : StoreBackedHandler) (namespace : option string)
  : M (result unit ApiError.t) :=
  let! faults := read (fun c => secret_faults c (handler_scope h namespace)) in
  ret (match faults with
       | (k, f) :: _ => Err (unreadable_secret k f (length faults))
       | [] => Ok tt
       end).

(** [number_text] is the text of a JSON number. *)
Context (number_text : number -> string).

Definition matching (sel : Selectors) (l : list (ResourceKey * json)) : list (ResourceKey * json) :=
  List.filter (fun e => selectors_match number_text sel e.2) l.

Definition list_at (h : StoreBackedHandler) (namespace : option string) (sel : Selectors)
  : M (result (list json * Revision) ApiError.t) :=
  let!? _ := refuse_unreadable_secrets h namespace in
  let! out := read (fun c => list_at_revision c (handler_scope h namespace)) in
  ret (Ok (map (fun e => strip_type_meta e.2) (matching sel out.1), out.2)).

(** ** Paged lists *)

Record Page : Type := mkPage {
  pg_items : list json;
  pg_revision : Revision;
  pg_continue : option string;
  pg_remaining : option Z
}.

(** The scan of one store page: what is accepted, the last key emitted. *)
Fixpoint accept (sel : Selectors) (limit : Z) (entries : list (ResourceKey * json))
    (accepted : list json) (last : option ResourceKey) : list json * option ResourceKey :=
  match entries with
  | [] => (accepted, last)
  | (k, v) :: entries =>
      if selectors_match number_text sel v then
        let accepted := (accepted ++ [strip_type_meta v])%list in
        if Z.of_nat (length accepted) =? limit then (accepted, Some k)
        else accept sel limit entries accepted (Some k)
      else accept sel limit entries accepted last
  end.

(** What the loop leaves. *)
Record Scan : Type := mkScan {
  sc_accepted : list json;
  sc_last : option ResourceKey;
  sc_tail : Z;
  sc_snapshot : option Revision
}.

Fixpoint scan (fuel : nat) (scope : ListScope) (sel : Selectors) (limit : Z) (cursor : option ResourceKey)
    (st : Scan) : M (option Scan) :=
  match fuel with
  | O => ret None
  | S fuel =>
      let! page := read (fun c => list_page_at_revision c scope cursor (Z.max limit 1)) in
      let snapshot := match sc_snapshot st with Some r => Some r | None => Some (page_revision page) end in
      let '(accepted, last) := accept sel limit (page_items page) (sc_accepted st) (sc_last st) in
      let st := mkScan accepted last (page_remaining page) snapshot in
      if (Z.of_nat (length accepted) =? limit) || is_none (page_next page) ||
         match page_items page with [] => true | _ => false end
      then ret (Some st)
      else scan fuel scope sel limit (page_next page) st
  end.

(** [list_page]; [None] when the fuel of the scan runs out. *)
Definition handler_list_page `{TokenSerde} (fuel : nat) (h : StoreBackedHandler) (namespace : option string)
    (sel : Selectors) (limit : Z) (token : option ContinueToken) : M (option (result Page ApiError.t)) :=
  let! refused := refuse_unreadable_secrets h namespace in
  match refused with
  | Err e => ret (Some (Err e))
  | Ok _ =>
      let series := snapshot_rev <$> token in
      let cursor := last_key <$> token in
      let scope := handler_scope h namespace in
      if limit =? 0 then
        let! page := read (fun c => list_page_at_revision c scope cursor 0) in
        ret (Some (Ok (mkPage (map (fun e => strip_type_meta e.2) (matching sel (page_items page)))
                         (default (page_revision page) series) None None)))
      else
        let! out := scan fuel scope sel limit cursor (mkScan [] None 0 series) in
        ret (match out with
             | None => None
             | Some st =>
                 let rv := default 0 (sc_snapshot st) in
                 let full := Z.of_nat (length (sc_accepted st)) =? limit in
                 Some (Ok (if full && (0 <? sc_tail st)
                           then mkPage (sc_accepted st) rv
                                  ((fun k => encode (mkContinueToken rv k)) <$> sc_last st) (Some (sc_tail st))
                           else mkPage (sc_accepted st) rv None None))
             end)
  end.

(** ** Deletes *)

Definition deny_error (d : AdmissionDecision) : result unit ApiError.t :=
  match d with ADeny reason => Err (ApiError.Forbidden reason) | AAllow | AMutate _ => Ok tt end.

(** [admit_delete]. *)
Definition review_delete (h : StoreBackedHandler) (k : ResourceKey) (user : UserInfo) : M (result unit ApiError.t) :=
  match h_admission h with
  | None => ret (Ok tt)
  | Some chain =>
      let! current := read (fun c => get c k) in
      ret (deny_error (review chain (mkAdmission ADelete k None current user)))
  end.

Definition delete_with_precondition (h : StoreBackedHandler) (namespace : option string) (name : string)
    (expected : option Revision) (user : UserInfo) (dry_run : DryRun) (now : string) : M (result json ApiError.t) :=
  let!? k := ret (handler_key h namespace name) in
  let!? _ := review_delete h k user in
  let! prior := read (fun c => get c k) in
  let answer := match prior with Some v => typed h v | None => delete_status_success name (h_kind h) end in
  if is_dry dry_run then ret (Ok answer)
  else
    let!? o := propose_cmd (ResourceCommand.delete_at k expected Reason.Operator (Some now)) in
    if eqb (op o) ResourceOp.Conflict then ret (Err (rv_conflict h name expected))
    else if eqb (op o) ResourceOp.DeletionPending then
      let! live := read (fun c => get c k) in
      ret (Ok (match live with Some live => typed h live | None => answer end))
    else ret (Ok answer).

(** The loop of [delete_collection] over the names listed. *)
Fixpoint delete_each (h : StoreBackedHandler) (namespace : option string) (user : UserInfo) (dry_run : DryRun)
    (now : string) (items : list json) : M (result unit ApiError.t) :=
  match items with
  | [] => ret (Ok tt)
  | item :: items =>
      match (jget "metadata" item ≫= jget "name") ≫= as_str with
      | Some name =>
          let!? _ := delete_with_precondition h namespace name None user dry_run now in
          delete_each h namespace user dry_run now items
      | None => delete_each h namespace user dry_run now items
      end
  end.

Definition delete_collection (h : StoreBackedHandler) (namespace : option string) (sel : Selectors)
    (user : UserInfo) (dry_run : DryRun) (now : string) : M (result json ApiError.t) :=
  let!? out := list_at h namespace sel in
  let!? _ := delete_each h namespace user dry_run now out.1 in
  ret (Ok (list_response h out.1 out.2 None None)).

(** ** The status subresource *)

(** [value_text] is the JSON text of a value. *)
Context (value_text : json -> string).

Definition propose_scoped_patch_typed (h : StoreBackedHandler) (k : ResourceKey) (name : string) (patch : json)
    (patch_type : PatchType.t) (expected : option Revision) : M (result json ApiError.t) :=
  let!? o := propose_cmd (ResourceCommand.Patch k patch patch_type None expected Reason.Operator) in
  if eqb (op o) ResourceOp.Conflict then ret (Err (rv_conflict h name expected))
  else if eqb (op o) ResourceOp.PatchRejected then
    ret (Err (ApiError.BadRequest (default "patch rejected" (patch_error o))))
  else
    let! stored := read (fun c => get c k) in
    ret (match stored with
         | Some v => Ok (typed h v)
         | None => Err (ApiError.Internal "subresource patch lost during commit")
         end).

Definition propose_scoped_patch (h : StoreBackedHandler) (k : ResourceKey) (name : string) (patch : json)
    (expected : option Revision) : M (result json ApiError.t) :=
  propose_scoped_patch_typed h k name patch PatchType.Merge expected.

Definition put_status (h : StoreBackedHandler) (namespace : option string) (name : string) (incoming : json)
  : M (result json ApiError.t) :=
  let!? k := ret (handler_key h namespace name) in
  let! live := read (fun c => get c k) in
  match live with
  | None => ret (Err (not_found h name))
  | Some live =>
      let!? client := ret (body_precondition debug value_text incoming) in
      let expected := match client with Some r => Some r | None => revision_of_value live end in
      let scoped := jobj [("status", default JNull (jget "status" incoming))] in
      propose_scoped_patch h k name scoped expected
  end.

(** Every operation of a JSON patch targets the status. *)
Fixpoint check_status_ops (ops : list json) : result unit ApiError.t :=
  match ops with
  | [] => Ok tt
  | o :: ops =>
      let path := default "" (jget "path" o ≫= as_str) in
      if eqb path "/status" || starts_with "/status/" path then check_status_ops ops
      else Err (ApiError.BadRequest
                  ("the status subresource patch may only target /status; got op path " +:+ debug path))
  end.

Definition scope_status_patch (patch : json) (patch_type : PatchType.t) : result json ApiError.t :=
  match patch_type with
  | PatchType.Merge | PatchType.Strategic =>
      Ok (match patch with
          | JObject obj =>
              let out := match bt_get "status" obj with Some s => bt_insert "status" s [] | None => [] end in
              JObject (match bt_get "metadata" obj ≫= jget "resourceVersion" with
                       | Some rv => bt_insert "metadata" (jobj [("resourceVersion", rv)]) out
                       | None => out
                       end)
          | _ => JObject []
          end)
  | PatchType.Json =>
      match patch with
      | JArray ops => let? _ := check_status_ops ops in Ok patch
      | _ => Err (ApiError.BadRequest "json-patch body must be an array of operations")
      end
  | PatchType.Apply => Ok patch
  end.

Definition patch_status (h : StoreBackedHandler) (namespace : option string) (name : string) (patch : json)
    (patch_type : PatchType.t) : M (result json ApiError.t) :=
  let!? k := ret (handler_key h namespace name) in
  let! live := read (fun c => get c k) in
  match live with
  | None => ret (Err (not_found h name))
  | Some _ =>
      let!? scoped := ret (scope_status_patch patch patch_type) in
      let!? expected := ret (body_precondition debug value_text scoped) in
      propose_scoped_patch_typed h k name scoped patch_type expected
  end.

End Store.
