(* ===== verification/WritePlan.v ===== *)
(** * The write pipeline

    [engenho-apiserver/src/handler/write_plan.rs], with the metadata helpers of
    [handler.rs]: every create, replace, patch and apply of a main object is
    planned against what the store holds and proposed once, conditionally; a
    race is planned again.  The judgement of unknown fields in a patched object
    ([field_validation]) is a function of the prior and the patched object; the
    texts of characters, patches' errors and refusals are parameters. *)

From Stdlib Require Import Ascii String.
From stdpp Require Import base tactics option list strings numbers pretty.
From S2P Require Import Prelude Text BTreeMap Json Resource WatchHistory Command Read.
From S2P Require Import PatchApply Ssa Pagination Catalog CatalogTheorems Birth Mesh WatchBackend.
From S2P Require Import ApiErrors Coords Auth Params Names ObjectBody Defaulting Validation SchemaValidation.
From S2P Require Import FieldShapes FieldValidation Handler.

Local Open Scope string_scope.
Local Open Scope Z_scope.
Local Open Scope handler_scope.

(** ** Requests *)

Definition WRITE_ATTEMPTS : nat := 32.

Inductive MergeAlgorithm : Type := AlgMerge | AlgStrategic | AlgJson.

#[export] Instance merge_algorithm_eq_dec : EqDecision MergeAlgorithm.
Proof. solve_decision. Defined.

Definition algorithm_patch_type (a : MergeAlgorithm) : PatchType.t :=
  match a with
  | AlgMerge => PatchType.Merge
  | AlgStrategic => PatchType.Strategic
  | AlgJson => PatchType.Json
  end.

Inductive WriteRequest : Type :=
  | WCreate (body : json)
  | WReplace (body : json)
  | WPatch (patch : json) (algorithm : MergeAlgorithm)
  | WApply (config : json) (opts : ApplyOptions).

Inductive Existence : Type := Absent | Present | Either.

#[export] Instance existence_eq_dec : EqDecision Existence.
Proof. solve_decision. Defined.

Definition requires (r : WriteRequest) : Existence :=
  match r with
  | WCreate _ => Absent
  | WReplace _ | WPatch _ _ => Present
  | WApply _ _ => Either
  end.

Definition write_manager (r : WriteRequest) : option string :=
  match r with WApply _ opts => Some (Params.manager opts) | _ => None end.

Inductive Lifecycle : Type :=
  | LCreate
  | LUpdate (prior : json) (at_ : Revision).

Definition lifecycle_of (prior : option (json * VersionMeta)) : Lifecycle :=
  match prior with
  | None => LCreate
  | Some (prior, meta) => LUpdate prior (mod_revision meta)
  end.

Definition lifecycle_prior (l : Lifecycle) : option json :=
  match l with LCreate => None | LUpdate prior _ => Some prior end.

Definition lifecycle_revision (l : Lifecycle) : option Revision :=
  match l with LCreate => None | LUpdate _ at_ => Some at_ end.

Definition admission_action (l : Lifecycle) : AdmissionAction :=
  match l with LCreate => APut | LUpdate _ _ => APatch end.

Record WritePlan : Type := mkPlan { plan_lifecycle : Lifecycle; plan_candidate : json }.

Inductive Planned : Type := PUnchanged (stored : json) | PWrite (plan : WritePlan).

Inductive Committed : Type := Stored | Released | Raced.

(** ** Refusals *)

Record ObjectRef : Type := mkObjectRef { ref_kind : string; ref_name : string }.

Definition object_ref_text (o : ObjectRef) : string := ref_kind o +:+ "/" +:+ ref_name o.

Inductive InvalidCause : Type :=
  | CauseName (e : NameError.t)
  | CauseField (v : Violation)
  | CauseSchema (v : SchemaViolation).

Record ObjectInvalid : Type := mkInvalid { inv_kind : string; inv_name : string; inv_causes : list InvalidCause }.

Module WriteRefusal.

Inductive t : Type :=
  | AlreadyExists (o : ObjectRef)
  | NotFound (o : ObjectRef)
  | NamespaceMissing (ns : string)
  | NameMismatch (body url : string)
  | PatchRejected (e : PatchError.t)
  | ApplyConflict (c : ApplyConflicts)
  | ApplyWithoutManager
  | Invalid (i : ObjectInvalid)
  | UnexpectedOutcome (op : ResourceOp.t)
  | Unreadable (o : ObjectRef).

End WriteRefusal.

Definition op_debug (op : ResourceOp.t) : string :=
  match op with
  | ResourceOp.Created => "Created"
  | ResourceOp.Replaced => "Replaced"
  | ResourceOp.Patched => "Patched"
  | ResourceOp.Deleted => "Deleted"
  | ResourceOp.DeletionPending => "DeletionPending"
  | ResourceOp.Conflict => "Conflict"
  | ResourceOp.PatchRejected => "PatchRejected"
  | ResourceOp.ApplyConflict => "ApplyConflict"
  | ResourceOp.Unchanged => "Unchanged"
  | ResourceOp.NoOp => "NoOp"
  end.

Definition cause_text (debug_char : string -> string) (c : InvalidCause) : string :=
  match c with
  | CauseName e => "metadata.name: " +:+ NameError.to_string debug_char e
  | CauseField v => violation_display v
  | CauseSchema v => schema_violation_text v
  end.

Definition invalid_display (debug_char : string -> string) (i : ObjectInvalid) : string :=
  inv_kind i +:+ " " +:+ quoted (inv_name i) +:+ " is invalid: " +:+
  String.concat "; " (map (cause_text debug_char) (inv_causes i)).

Definition refusal_error `{ErrorText} (debug_char : string -> string) (r : WriteRefusal.t) : ApiError.t :=
  match r with
  | WriteRefusal.AlreadyExists o => ApiError.Conflict (object_ref_text o) "resource already exists"
  | WriteRefusal.NotFound o => ApiError.NotFound (object_ref_text o)
  | WriteRefusal.NamespaceMissing ns => ApiError.NotFound ("namespaces " +:+ quoted ns +:+ " not found")
  | WriteRefusal.NameMismatch body url =>
      ApiError.BadRequest ("the name of the object (" +:+ body +:+ ") does not match the name on the URL (" +:+ url +:+ ")")
  | WriteRefusal.PatchRejected e => ApiError.BadRequest (patch_error_text e)
  | WriteRefusal.ApplyConflict c => ApiError.ApplyConflict (to_causes c)
  | WriteRefusal.ApplyWithoutManager => ApiError.BadRequest "server-side apply requires a fieldManager"
  | WriteRefusal.Invalid i => ApiError.Invalid (invalid_display debug_char i)
  | WriteRefusal.UnexpectedOutcome op =>
      ApiError.Internal ("the store answered " +:+ op_debug op +:+ " to a write that proposes only a Put")
  | WriteRefusal.Unreadable o => ApiError.Internal (object_ref_text o +:+ " was written but cannot be read back")
  end.

(** ** Metadata helpers *)

(** The object's metadata, created empty when absent, changed in place. *)
Definition with_meta (f : btmap string json -> btmap string json) (v : json) : json :=
  match v with
  | JObject m =>
      let m := or_insert "metadata" (JObject []) m in
      JObject (match bt_get "metadata" m with
               | Some (JObject meta) => bt_insert "metadata" (JObject (f meta)) m
               | _ => m
               end)
  | _ => v
  end.

Definition stamp_name (v : json) (name : string) : json := with_meta (bt_insert "name" (JString name)) v.

Definition stamp_namespace (v : json) (ns : string) : json := with_meta (bt_insert "namespace" (JString ns)) v.

Definition carry (existing_meta : option json) (field : string) (meta : btmap string json) : btmap string json :=
  match existing_meta ≫= jget field with Some v => bt_insert field v meta | None => meta end.

Definition preserve_immutable_meta (body existing : json) : json :=
  let existing_meta := jget "metadata" existing in
  with_meta (fun meta =>
    let meta := carry existing_meta "uid" (carry existing_meta "creationTimestamp" meta) in
    match existing_meta ≫= jget "deletionTimestamp" with
    | Some live => bt_insert "deletionTimestamp" live meta
    | None => bt_remove "deletionTimestamp" meta
    end) body.

Definition preserve_status (body existing : json) : json :=
  match body with
  | JObject m =>
      JObject (match jget "status" existing with
               | Some live => bt_insert "status" live m
               | None => bt_remove "status" m
               end)
  | _ => body
  end.

Definition settle_name (v : json) (url : string) : result json WriteRefusal.t :=
  match (jget "metadata" v ≫= jget "name") ≫= as_str with
  | Some body => if eqb body url then Ok (stamp_name v url) else Err (WriteRefusal.NameMismatch body url)
  | None => Ok (stamp_name v url)
  end.

Definition is_terminating (v : json) : bool :=
  is_some_and (fun ts => negb (eqb ts "")) ((jget "metadata" v ≫= jget "deletionTimestamp") ≫= as_str).

Definition is_external_name (service : json) : bool :=
  eqb ((jget "spec" service ≫= jget "type") ≫= as_str) (Some "ExternalName").

Definition unset_str (o : option json) : bool := is_none_or (fun s => eqb s "") (o ≫= as_str).
Definition non_empty_array (v : json) : bool := match v with JArray (_ :: _) => true | _ => false end.

Definition carry_ips (prior_spec : json) (spec : btmap string json) : btmap string json :=
  let spec :=
    if unset_str (bt_get "clusterIP" spec)
    then match jget "clusterIP" prior_spec with Some ip => bt_insert "clusterIP" ip spec | None => spec end
    else spec in
  if negb (is_some_and non_empty_array (bt_get "clusterIPs" spec))
  then
    match jget "clusterIPs" prior_spec with
    | Some ips => if non_empty_array ips then bt_insert "clusterIPs" ips spec else spec
    | None => spec
    end
  else spec.

Definition carry_allocated_values (h : StoreBackedHandler) (candidate prior : json) : json :=
  if negb (eqb (h_group h) "" && eqb (h_version h) "v1" && eqb (h_kind h) "Service") then candidate
  else if is_external_name prior || is_external_name candidate then candidate
  else
    match jget "spec" prior, candidate with
    | Some prior_spec, JObject m =>
        match bt_get "spec" m with
        | Some (JObject spec) => JObject (bt_insert "spec" (JObject (carry_ips prior_spec spec)) m)
        | _ => candidate
        end
    | _, _ => candidate
    end.

(** [metadata.uid], dropped. *)
Definition drop_uid (v : json) : json :=
  match v with
  | JObject m =>
      match bt_get "metadata" m with
      | Some (JObject meta) => JObject (bt_insert "metadata" (JObject (bt_remove "uid" meta)) m)
      | _ => v
      end
  | _ => v
  end.

Definition stamp_server_owned (h : StoreBackedHandler) (candidate : json) (namespace : option string) (name : string)
    (lifecycle : Lifecycle) (now : string) : json :=
  let candidate := stamp_name candidate name in
  let candidate := match namespace with Some ns => stamp_namespace candidate ns | None => candidate end in
  match lifecycle with
  | LCreate => stamp_born (h_group h) (h_kind h) name namespace (drop_uid candidate) now
  | LUpdate prior _ =>
      let candidate := preserve_immutable_meta candidate prior in
      let candidate := if serves h Subresource.Status then preserve_status candidate prior else candidate in
      carry_allocated_values h candidate prior
  end.

(** ** The pipeline *)

Section Pipeline.
Context `{SerdeJson} `{PatchSchemaEnv} `{OpDecoder} `{Blake3} `{ErrorText}.
Context (debug debug_char : string -> string) (sealer : option SealFault.t)
  (refusal_text : string * SealFault.t -> string) (births : string).
Context (value_text : json -> string).

(** The field table of the kinds.  The judgement of a patched object is taken
    from [FieldValidation]; the warnings it leaves for the response are not. *)
Context (vendored_schemas : Schemas).

Let error (r : WriteRefusal.t) : ApiError.t := refusal_error debug_char r.

Definition request_of_patch (patch : json) (patch_type : PatchType.t) (apply : option ApplyOptions)
  : result WriteRequest ApiError.t :=
  match patch_type with
  | PatchType.Apply => ok_or (WApply patch <$> apply) (error WriteRefusal.ApplyWithoutManager)
  | PatchType.Merge => Ok (WPatch patch AlgMerge)
  | PatchType.Strategic => Ok (WPatch patch AlgStrategic)
  | PatchType.Json => Ok (WPatch patch AlgJson)
  end.

Definition client_precondition (r : WriteRequest) : result (option Revision) ApiError.t :=
  match r with
  | WCreate v | WReplace v | WPatch v _ | WApply v _ => body_precondition debug value_text v
  end.

Definition write_ref (h : StoreBackedHandler) (name : string) : ObjectRef := mkObjectRef (h_kind h) name.

Definition refuse_bad_create (h : StoreBackedHandler) (namespace : option string) (name : string)
  : M (result unit ApiError.t) :=
  match parse_for_kind name (h_group h) (h_kind h) with
  | Err e => ret (Err (error (WriteRefusal.Invalid (mkInvalid (h_kind h) name [CauseName e]))))
  | Ok _ =>
      match namespace with
      | Some ns =>
          if h_namespace_lifecycle h then
            let! found := read (fun c => get c (cluster_scoped "" "v1" "Namespace" ns)) in
            ret (if is_some found then Ok tt else Err (error (WriteRefusal.NamespaceMissing ns)))
          else ret (Ok tt)
      | None => ret (Ok tt)
      end
  end.

Definition default_and_validate (h : StoreBackedHandler) (candidate : json) (name : string)
  : result json ApiError.t :=
  let candidate := default_apply (h_group h) (h_version h) (h_kind h) candidate in
  match validate (h_group h) (h_version h) (h_kind h) candidate with
  | [] =>
      match h_crd_schema h with
      | None => Ok candidate
      | Some schema =>
          let candidate := apply_defaults schema candidate in
          match schema_validate schema candidate with
          | [] => Ok candidate
          | causes => Err (error (WriteRefusal.Invalid (mkInvalid (h_kind h) name (map CauseSchema causes))))
          end
      end
  | causes => Err (error (WriteRefusal.Invalid (mkInvalid (h_kind h) name (map CauseField causes))))
  end.

(** The admission step. *)
Definition review_write (h : StoreBackedHandler) (lifecycle : Lifecycle) (k : ResourceKey) (candidate : json)
    (user : UserInfo) : result json ApiError.t :=
  match h_admission h with
  | None => Ok candidate
  | Some chain =>
      match review chain
              (mkAdmission (admission_action lifecycle) k (Some candidate) (lifecycle_prior lifecycle) user) with
      | AAllow => Ok candidate
      | AMutate admitted =>
          result_map_err (fun e => admission_error e (h_version h) (h_kind h))
            (normalize (h_group h) (h_kind h) admitted)
      | ADeny reason => Err (ApiError.Forbidden reason)
      end
  end.

Definition kind_ref (h : StoreBackedHandler) : KindRef :=
  mkKindRef (h_group h) (h_version h) (h_kind h) (api_version h).

(** Steps 4 and 4b: the object a write would store. *)
Definition candidate_of (h : StoreBackedHandler) (k : ResourceKey) (name : string) (request : WriteRequest)
    (lifecycle : Lifecycle) (now : string) (fields : PatchFields) : result json ApiError.t :=
  match request with
  | WCreate body | WReplace body => Ok body
  | WPatch patch algorithm =>
      match lifecycle_prior lifecycle with
      | None => Err (error (WriteRefusal.NotFound (write_ref h name)))
      | Some prior =>
          let pt := algorithm_patch_type algorithm in
          let? patched :=
            result_map_err (fun e => error (WriteRefusal.PatchRejected e))
              (let? body := PatchBody.from_raw pt patch in PatchApply.apply pt prior body (gvk_of k)) in
          result_map fst (judge_patched vendored_schemas fields (kind_ref h) prior patched (eqb algorithm AlgStrategic))
      end
  | WApply config opts =>
      result_map_err (fun e => error (WriteRefusal.ApplyConflict e))
        (result_map SsaOutcome.merged
           (Ssa.apply_ssa (lifecycle_prior lifecycle) config (Params.manager opts) (Params.force opts) (gvk_of k) now))
  end.

(** [plan], once the lifecycle is known. *)
Definition plan_for (h : StoreBackedHandler) (k : ResourceKey) (namespace : option string) (name : string)
    (request : WriteRequest) (lifecycle : Lifecycle) (name_taken : bool) (client_expected : option Revision)
    (now : string) (user : UserInfo) (fields : PatchFields) : M (result Planned ApiError.t) :=
  if is_some_and (fun expected => negb (eqb (lifecycle_revision lifecycle) (Some expected))) client_expected
  then ret (Err (rv_conflict h name client_expected))
  else
    let!? candidate := ret (candidate_of h k name request lifecycle now fields) in
    let!? candidate :=
      ret (result_map_err (fun e => request_error e (h_version h) (h_kind h))
             (normalize (h_group h) (h_kind h) candidate)) in
    let!? candidate := ret (result_map_err error (settle_name candidate name)) in
    let!? _ :=
      match lifecycle with
      | LCreate => refuse_bad_create h namespace name
      | LUpdate _ _ => ret (Ok tt)
      end in
    let!? candidate := ret (default_and_validate h candidate name) in
    let!? candidate := ret (review_write h lifecycle k candidate user) in
    let candidate := stamp_server_owned h candidate namespace name lifecycle now in
    if name_taken then ret (Err (error (WriteRefusal.AlreadyExists (write_ref h name))))
    else
      ret (Ok (match lifecycle with
               | LUpdate prior _ =>
                   if unchanged prior candidate (write_manager request) && negb (is_terminating candidate)
                   then PUnchanged prior
                   else PWrite (mkPlan lifecycle candidate)
               | LCreate => PWrite (mkPlan lifecycle candidate)
               end)).

Definition plan (h : StoreBackedHandler) (k : ResourceKey) (namespace : option string) (name : string)
    (request : WriteRequest) (prior : option (json * VersionMeta)) (client_expected : option Revision)
    (now : string) (user : UserInfo) (fields : PatchFields) : M (result Planned ApiError.t) :=
  match requires request, prior with
  | Present, None => ret (Err (error (WriteRefusal.NotFound (write_ref h name))))
  | Absent, _ => plan_for h k namespace name request LCreate (is_some prior) client_expected now user fields
  | Present, Some _ | Either, _ =>
      plan_for h k namespace name request (lifecycle_of prior) false client_expected now user fields
  end.

Definition plan_command (k : ResourceKey) (p : WritePlan) : ResourceCommand.t :=
  match plan_lifecycle p with
  | LCreate =>
      ResourceCommand.Txn [TxnCompare.NotExists k] [TxnOp.Put k (plan_candidate p)] [] Reason.Operator
  | LUpdate _ at_ => ResourceCommand.Put k (plan_candidate p) (Some at_) Reason.Operator
  end.

Definition committed_of (op : ResourceOp.t) : result Committed ApiError.t :=
  match op with
  | ResourceOp.Created | ResourceOp.Replaced | ResourceOp.Unchanged => Ok Stored
  | ResourceOp.Deleted => Ok Released
  | ResourceOp.Conflict | ResourceOp.NoOp => Ok Raced
  | ResourceOp.Patched | ResourceOp.DeletionPending | ResourceOp.PatchRejected | ResourceOp.ApplyConflict =>
      Err (error (WriteRefusal.UnexpectedOutcome op))
  end.

Definition commit_plan (k : ResourceKey) (p : WritePlan) : M (result Committed ApiError.t) :=
  let!? o := propose_cmd sealer refusal_text births (plan_command k p) in
  ret (committed_of (op o)).

Definition read_back (h : StoreBackedHandler) (k : ResourceKey) (name : string) : M (result json ApiError.t) :=
  let! stored := read (fun c => get c k) in
  ret (match stored with
       | Some v => Ok (typed h v)
       | None => Err (error (WriteRefusal.Unreadable (write_ref h name)))
       end).

(** One pass of the loop; [Ok None] asks for another. *)
Definition attempt (h : StoreBackedHandler) (k : ResourceKey) (namespace : option string) (name : string)
    (request : WriteRequest) (client_expected : option Revision) (now : string) (user : UserInfo)
    (dry_run : DryRun) (fields : PatchFields) : M (result (option json) ApiError.t) :=
  let! prior := read (fun c => get_with_meta c k) in
  let!? planned := plan h k namespace name request prior client_expected now user fields in
  match planned with
  | PUnchanged stored => ret (Ok (Some (typed h stored)))
  | PWrite p =>
      if is_dry dry_run then ret (Ok (Some (typed h (plan_candidate p))))
      else
        let!? done := commit_plan k p in
        match done with
        | Stored => let!? v := read_back h k name in ret (Ok (Some v))
        | Released => ret (Ok (Some (delete_status_success name (h_kind h))))
        | Raced =>
            ret (if is_some client_expected then Err (rv_conflict h name client_expected)
                 else if eqb (requires request) Absent
                 then Err (error (WriteRefusal.AlreadyExists (write_ref h name)))
                 else Ok None)
        end
  end.

Fixpoint attempts (n : nat) (h : StoreBackedHandler) (k : ResourceKey) (namespace : option string) (name : string)
    (request : WriteRequest) (client_expected : option Revision) (now : string) (user : UserInfo)
    (dry_run : DryRun) (fields : PatchFields) : M (result json ApiError.t) :=
  match n with
  | O => ret (Err (rv_conflict h name client_expected))
  | S n =>
      let!? answer := attempt h k namespace name request client_expected now user dry_run fields in
      match answer with
      | Some v => ret (Ok v)
      | None => attempts n h k namespace name request client_expected now user dry_run fields
      end
  end.

Definition write (h : StoreBackedHandler) (namespace : option string) (name : string) (request : WriteRequest)
    (user : UserInfo) (dry_run : DryRun) (fields : PatchFields) (now : string) : M (result json ApiError.t) :=
  let!? k := ret (handler_key debug h namespace name) in
  let!? client_expected := ret (client_precondition request) in
  attempts WRITE_ATTEMPTS h k namespace name request client_expected now user dry_run fields.

End Pipeline.
