(* ===== verification/WriteFacts.v ===== *)
(** * What a write may change

    The plan of an update, whatever the client sent and whatever the webhooks
    made of it: the fields the server owns. *)

From Stdlib Require Import Ascii String.
From stdpp Require Import base tactics option list strings numbers.
From S2P Require Import Prelude Text BTreeMap Json Resource WatchHistory Command Read.
From S2P Require Import PatchApply PatchFacts Ssa SsaFacts Pagination Catalog CatalogTheorems Birth Mesh WatchBackend.
From S2P Require Import ApiErrors Coords Auth Params Names ObjectBody Defaulting Validation SchemaValidation.
From S2P Require Import FieldShapes FieldValidation FieldFacts.
From S2P Require Import Handler WritePlan.

Local Open Scope string_scope.
Local Open Scope Z_scope.

(** A field of an object's metadata. *)
Definition meta_field (v : json) (f : string) : option json := jget "metadata" v ≫= jget f.

(** The metadata is an object, or absent from an object. *)
Definition meta_ready (v : json) : Prop :=
  exists m, v = JObject m /\ match bt_get "metadata" m with None | Some (JObject _) => True | Some _ => False end.

(** ** One stamp at a time *)

Lemma with_meta_get f v g :
  meta_ready v -> meta_field (with_meta f v) g = bt_get g (f (default [] (jget "metadata" v ≫= as_object))).
Proof.
  intros (m & -> & Hm). unfold meta_field, with_meta, or_insert. simpl jget. destruct (bt_get "metadata" m) as [x|] eqn:E.
  - destruct x; try done. rewrite E. simpl. by rewrite bt_get_insert_eq.
  - rewrite bt_get_insert_eq. simpl. by rewrite bt_get_insert_eq.
Qed.

Lemma with_meta_ready f v : meta_ready v -> meta_ready (with_meta f v).
Proof.
  intros (m & -> & Hm). unfold with_meta, or_insert. eexists. split; [done |].
  destruct (bt_get "metadata" m) as [x|] eqn:E.
  - destruct x; try done. rewrite E. by rewrite bt_get_insert_eq.
  - rewrite bt_get_insert_eq. by rewrite bt_get_insert_eq.
Qed.

Lemma with_meta_other f v g : g <> "metadata" -> jget g (with_meta f v) = jget g v.
Proof.
  intros Hg. destruct v as [| | | | |m]; try done. unfold with_meta, or_insert. cbn [jget].
  destruct (bt_get "metadata" m) as [x|] eqn:E.
  - rewrite E. destruct x; try done. by rewrite bt_get_insert_ne.
  - rewrite bt_get_insert_eq. by rewrite !bt_get_insert_ne.
Qed.

Lemma meta_field_object v g :
  meta_ready v -> meta_field v g = bt_get g (default [] (jget "metadata" v ≫= as_object)).
Proof. intros (m & -> & Hm). unfold meta_field. simpl. destruct (bt_get "metadata" m) as [[]|]; done. Qed.

(** A status put back leaves the metadata alone. *)
Lemma preserve_status_meta v prior g :
  wf_json v = true -> meta_field (preserve_status v prior) g = meta_field v g.
Proof.
  intros Hw. destruct v as [| | | | |m]; try done. unfold meta_field, preserve_status. cbn [jget].
  destruct (jget "status" prior); [by rewrite bt_get_insert_ne | by rewrite bt_get_remove_ne by (done || by apply wf_sorted)].
Qed.

Lemma preserve_status_get v prior :
  wf_json v = true -> is_object v = true -> jget "status" (preserve_status v prior) = jget "status" prior.
Proof.
  intros Hw. destruct v as [| | | | |m]; try done. intros _. unfold preserve_status. cbn [jget].
  destruct (jget "status" prior); [by rewrite bt_get_insert_eq | by apply bt_get_remove_eq, wf_sorted].
Qed.

Lemma allocated_get h v prior g : g <> "spec" -> jget g (carry_allocated_values h v prior) = jget g v.
Proof.
  intros Hg. unfold carry_allocated_values. repeat case_match; try done. cbn [jget]. by rewrite bt_get_insert_ne.
Qed.

(** *** Well-formed JSON stays well-formed *)

Lemma wf_with_meta f v :
  wf_json v = true -> (forall m, wf_json (JObject m) = true -> wf_json (JObject (f m)) = true) ->
  wf_json (with_meta f v) = true.
Proof.
  intros Hw Hf. destruct v as [| | | | |m]; try done. unfold with_meta.
  assert (wf_json (JObject (or_insert "metadata" (JObject []) m)) = true) as Hi by (by apply wf_or_insert).
  destruct (bt_get "metadata" (or_insert "metadata" (JObject []) m)) as [x|] eqn:E; [| done].
  destruct x; try done. apply wf_json_insert; [| done]. apply Hf. by apply (wf_json_get "metadata" (JObject _) _ Hi).
Qed.

Lemma wf_carry prior f m :
  wf_json prior = true -> wf_json (JObject m) = true ->
  wf_json (JObject (carry (jget "metadata" prior) f m)) = true.
Proof.
  intros Hp Hm. unfold carry. destruct (jget "metadata" prior) as [meta|] eqn:Em; simpl; [| done].
  destruct (jget f meta) as [x|] eqn:Ex; [| done]. apply wf_json_insert; [| done].
  eapply wf_json_get; [| exact Ex]. exact (wf_json_get _ _ _ Hp Em).
Qed.

Lemma wf_preserve_meta v prior :
  wf_json v = true -> wf_json prior = true -> wf_json (preserve_immutable_meta v prior) = true.
Proof.
  intros Hv Hp. apply wf_with_meta; [done |]. intros m Hm. cbv zeta.
  assert (wf_json (JObject (carry (jget "metadata" prior) "uid" (carry (jget "metadata" prior) "creationTimestamp" m))) = true)
    as Hc by (by repeat apply wf_carry).
  destruct (jget "metadata" prior) as [meta|] eqn:Em; simpl; [| by apply wf_json_remove].
  destruct (jget "deletionTimestamp" meta) as [x|] eqn:Ex; [| by apply wf_json_remove].
  apply wf_json_insert; [| done]. eapply wf_json_get; [| exact Ex]. exact (wf_json_get _ _ _ Hp Em).
Qed.

Lemma wf_preserve_status v prior :
  wf_json v = true -> wf_json prior = true -> wf_json (preserve_status v prior) = true.
Proof.
  intros Hv Hp. destruct v as [| | | | |m]; try done. unfold preserve_status.
  destruct (jget "status" prior) as [x|] eqn:E; [| by apply wf_json_remove].
  apply wf_json_insert; [| done]. exact (wf_json_get _ _ _ Hp E).
Qed.

(** *** The metadata an update carries over *)

Lemma carry_get prior f g (m : btmap string json) :
  bt_get g (carry (jget "metadata" prior) f m) =
  if eqb g f then match meta_field prior f with Some x => Some x | None => bt_get g m end else bt_get g m.
Proof.
  unfold carry, meta_field. destruct (eqb g f) eqn:E.
  - apply (proj1 (eqb_true _ _)) in E. subst g. destruct (jget "metadata" prior ≫= jget f); [by rewrite bt_get_insert_eq | done].
  - apply (proj1 (eqb_false _ _)) in E. destruct (jget "metadata" prior ≫= jget f); [by rewrite bt_get_insert_ne | done].
Qed.

Lemma preserve_meta_field v prior f :
  meta_ready v -> wf_json v = true -> wf_json prior = true ->
  meta_field (preserve_immutable_meta v prior) f =
  if eqb f "deletionTimestamp" then meta_field prior f
  else if eqb f "uid" || eqb f "creationTimestamp"
  then match meta_field prior f with Some x => Some x | None => meta_field v f end
  else meta_field v f.
Proof.
  intros Hr Hv Hp. unfold preserve_immutable_meta. rewrite with_meta_get, (meta_field_object v) by done. cbv zeta.
  set (m := default [] _).
  assert (wf_json (JObject m) = true) as Hm.
  { unfold m. destruct Hr as (o & -> & Ho). simpl. destruct (bt_get "metadata" o) as [[]|] eqn:E; try done.
    exact (wf_json_get "metadata" (JObject o) _ Hv E). }
  assert (bt_sorted (carry (jget "metadata" prior) "uid" (carry (jget "metadata" prior) "creationTimestamp" m))) as Hs
    by (by apply wf_sorted; repeat apply wf_carry).
  fold (meta_field prior "deletionTimestamp"). destruct (eqb f "deletionTimestamp") eqn:Ed.
  - apply (proj1 (eqb_true _ _)) in Ed. subst f.
    destruct (meta_field prior "deletionTimestamp"); [by rewrite bt_get_insert_eq | by rewrite bt_get_remove_eq].
  - apply (proj1 (eqb_false _ _)) in Ed. trans (bt_get f (carry (jget "metadata" prior) "uid" (carry (jget "metadata" prior) "creationTimestamp" m))).
    { destruct (meta_field prior "deletionTimestamp"); [by rewrite bt_get_insert_ne | by rewrite bt_get_remove_ne]. }
    rewrite !carry_get. destruct (eqb f "uid") eqn:E1, (eqb f "creationTimestamp") eqn:E2; cbn [orb];
      repeat match goal with H : eqb _ _ = true |- _ => apply (proj1 (eqb_true _ _)) in H; subst f end; done.
Qed.

(** What the last step of an update leaves, field by field. *)
Lemma stamped_update h v namespace name prior at_ now :
  meta_ready v -> wf_json v = true -> wf_json prior = true ->
  let out := stamp_server_owned h v namespace name (LUpdate prior at_) now in
  (forall f, In f ["creationTimestamp"; "uid"] -> forall x, meta_field prior f = Some x -> meta_field out f = Some x) /\
  meta_field out "deletionTimestamp" = meta_field prior "deletionTimestamp" /\
  meta_field out "name" = Some (JString name) /\
  (forall ns, namespace = Some ns -> meta_field out "namespace" = Some (JString ns)) /\
  (serves h Subresource.Status = true -> jget "status" out = jget "status" prior).
Proof.
  intros Hr Hw Hp out.
  set (named := stamp_name v name).
  assert (meta_ready named /\ wf_json named = true /\ meta_field named "name" = Some (JString name)) as (Hr1 & Hw1 & Hn1).
  { split_and!; [by apply with_meta_ready | by apply wf_with_meta; [| intros; by apply wf_json_insert] |].
    unfold named, stamp_name. by rewrite with_meta_get, bt_get_insert_eq. }
  set (placed := match namespace with Some ns => stamp_namespace named ns | None => named end).
  assert (meta_ready placed /\ wf_json placed = true /\ meta_field placed "name" = Some (JString name) /\
          (forall ns, namespace = Some ns -> meta_field placed "namespace" = Some (JString ns))) as (Hr2 & Hw2 & Hn2 & Hns2).
  { unfold placed. destruct namespace as [ns|]; [| done]. unfold stamp_namespace.
    split_and!; [by apply with_meta_ready | by apply wf_with_meta; [| intros; by apply wf_json_insert] | |].
    - rewrite with_meta_get, bt_get_insert_ne by done. by rewrite <- meta_field_object.
    - intros ns' [= <-]. by rewrite with_meta_get, bt_get_insert_eq. }
  set (kept := preserve_immutable_meta placed prior).
  assert (wf_json kept = true) as Hw3 by (by apply wf_preserve_meta).
  assert (forall f, meta_field out f = meta_field kept f) as Hout.
  { intros f. unfold out, stamp_server_owned. fold named placed kept. unfold meta_field.
    rewrite allocated_get by done. destruct (serves h Subresource.Status); [| done]. by apply preserve_status_meta. }
  assert (forall f, meta_field kept f = _) as Hk by (intros f; by apply preserve_meta_field).
  split_and!.
  - intros f Hf x Hx. rewrite Hout, Hk. destruct Hf as [<- | [<- | []]]; cbn; by rewrite Hx.
  - by rewrite Hout, Hk.
  - by rewrite Hout, Hk.
  - intros ns Hns. rewrite Hout, Hk. by apply Hns2.
  - intros Hst. unfold out, stamp_server_owned. fold named placed kept. rewrite Hst, allocated_get by done.
    apply preserve_status_get; [done |]. destruct Hr2 as (m & Hm & _). unfold kept. by rewrite Hm.
Qed.

(** ** Every candidate reaches the stamps with readable metadata *)

(** The metadata is there, as an object. *)
Definition meta_present (v : json) : Prop :=
  exists m meta, v = JObject m /\ bt_get "metadata" m = Some (JObject meta).

Lemma present_ready v : meta_present v -> meta_ready v.
Proof. intros (m & meta & -> & E). exists m. by rewrite E. Qed.

Lemma with_meta_present f v : meta_ready v -> meta_present (with_meta f v).
Proof.
  intros (m & -> & Hm). unfold with_meta, or_insert. destruct (bt_get "metadata" m) as [x|] eqn:E.
  - destruct x as [| | | | |meta]; try done. rewrite E. eexists _, _. split; [done |]. by rewrite bt_get_insert_eq.
  - rewrite bt_get_insert_eq. eexists _, _. split; [done |]. by rewrite bt_get_insert_eq.
Qed.

Lemma extends_present v w : extends v w -> meta_present v -> meta_present w.
Proof.
  intros He (m & meta & -> & E). inversion He as [| ? n Hmn |]; subst; [by exists m, meta |].
  destruct (Hmn _ _ E) as (y & Hy & Hext). inversion Hext; subst; by exists n; eexists.
Qed.

Lemma keeps_present v w : keeps v w -> meta_present v -> meta_present w.
Proof.
  intros He (m & meta & -> & E). inversion He as [| ? n Hmn |]; subst; [by exists m, meta |].
  destruct (Hmn _ _ E) as [? | (y & Hy & Hext)]; [done |]. inversion Hext; subst; by exists n; eexists.
Qed.

Lemma normalize_ready group kind v out :
  wf_json v = true -> normalize group kind v = Ok out -> wf_json out = true /\ meta_ready out.
Proof.
  intros Hw. unfold normalize. destruct v as [| | | | |root]; try done.
  destruct (normalize_meta_slot root []) as [r1|] eqn:E1; cbn [result_bind]; [| done].
  destruct (each normalize_at _ r1) as [r2|] eqn:E2; cbn [result_bind]; [| done]. intros [= <-].
  destruct (parents_ok group kind) as [Hnd Hm].
  destruct (each_slots ([] :: embedded_meta_parents group kind) root r2 Hnd Hm Hw) as (Hw2 & Hg & _).
  { cbn [each]. unfold normalize_at at 1. cbn [on_object_at]. by rewrite E1. }
  split; [done |]. exists r2. split; [done |]. specialize (Hg [] (or_introl eq_refl)). simpl in Hg.
  by destruct (bt_get "metadata" r2) as [[]|].
Qed.

Lemma wf_stamp_name v name : wf_json v = true -> wf_json (stamp_name v name) = true.
Proof. intros Hv. apply wf_with_meta; [done |]. intros. by apply wf_json_insert. Qed.

Lemma settle_name_ready v url out :
  wf_json v = true -> meta_ready v -> settle_name v url = Ok out -> wf_json out = true /\ meta_present out.
Proof.
  intros Hw Hr. unfold settle_name. repeat case_match; try done; intros [= <-];
    (split; [by apply wf_stamp_name | by apply with_meta_present]).
Qed.

(** The webhooks answer JSON. *)
Definition json_chain (h : StoreBackedHandler) : Prop :=
  forall chain hook r v, h_admission h = Some chain -> In hook (hooks chain) -> hook_review hook r = Ok (AMutate v) ->
    wf_json v = true.

Lemma review_wf h chain r v :
  json_chain h -> h_admission h = Some chain -> (forall x, adm_value r = Some x -> wf_json x = true) ->
  review chain r = AMutate v -> wf_json v = true.
Proof.
  intros Hj Hc. unfold review.
  assert (forall hook, In hook (hooks chain) -> forall r v, hook_review hook r = Ok (AMutate v) -> wf_json v = true) as Hh.
  { intros hook Hin q w. by eapply Hj. }
  revert r Hh. generalize (hooks chain) as l. induction l as [|hook l IH]; intros r Hh Hr; cbn [review_hooks].
  - destruct (adm_value r) eqn:E; [| done]. intros [= <-]. by apply Hr.
  - assert (forall hook, In hook l -> forall r v, hook_review hook r = Ok (AMutate v) -> wf_json v = true) as Hh'
      by (intros x Hx; apply Hh; by right).
    destruct (hook_review hook r) as [[| w |]|] eqn:E, (chain_mode chain); try done; try (by apply IH);
      (apply IH; [done |]; intros x [= <-]; eapply Hh; [by left | done]).
Qed.

Definition request_wf (r : WriteRequest) : bool :=
  match r with WCreate v | WReplace v | WPatch v _ | WApply v _ => wf_json v end.

Section Plans.
Context `{SerdeJsonLaws} `{PatchSchemaEnv} `{OpDecoderLaws} `{Blake3} `{ErrorText}.
Context (debug_char : string -> string).
Context (vendored_schemas : Schemas).
Context (h : StoreBackedHandler).

(** The hypotheses on what comes from outside: values are JSON. *)
Context (Hchain : json_chain h).
Context (Hschema : forall s, h_crd_schema h = Some s -> wf_json s = true).

Lemma judged_wf fields kind prior v strategic out :
  wf_json v = true -> result_map fst (judge_patched vendored_schemas fields kind prior v strategic) = Ok out ->
  wf_json out = true.
Proof.
  intros Hv. destruct (row_of vendored_schemas kind) as [row|] eqn:Er.
  - pose proof (judge_patched_keeps vendored_schemas fields kind row prior v strategic Er Hv) as Hj.
    destruct (judge_patched _ _ _ _ _ _) as [[w f]|]; [| done]. intros [= <-]. apply Hj.
  - unfold judge_patched. rewrite Er. destruct (judge _ _ _ _); [| done]. by intros [= <-].
Qed.

Lemma candidate_wf k name request lifecycle now fields out :
  request_wf request = true -> (forall v, lifecycle_prior lifecycle = Some v -> wf_json v = true) ->
  candidate_of debug_char vendored_schemas h k name request lifecycle now fields = Ok out -> wf_json out = true.
Proof.
  intros Hr Hp. unfold candidate_of. destruct request as [v | v | v alg | v opts]; simpl in Hr; [by intros [= <-] | by intros [= <-] | |].
  - destruct (lifecycle_prior lifecycle) as [prior|] eqn:El; [| done].
    destruct (PatchBody.from_raw (algorithm_patch_type alg) v) as [body|] eqn:Eb; simpl; [| done].
    destruct (PatchApply.apply _ prior body _) as [patched|] eqn:Ea; simpl; [| done].
    apply judged_wf. by eapply apply_body_wf; [| | exact Eb | exact Ea]; [apply Hp |].
  - destruct (apply_ssa _ _ _ _ _ _) as [o|] eqn:Ea; simpl; [| done]. intros [= <-].
    by apply (apply_ssa_wf _ _ _ _ _ _ _ Hp Hr Ea).
Qed.

Lemma validated_ready v name out :
  wf_json v = true -> meta_present v -> default_and_validate debug_char h v name = Ok out ->
  wf_json out = true /\ meta_present out.
Proof.
  intros Hw Hm. unfold default_and_validate. set (d := default_apply _ _ _ v).
  assert (wf_json d = true /\ meta_present d) as [Hwd Hmd].
  { split; [by apply default_apply_wf |]. eapply extends_present; [apply defaults_extend | done]. }
  destruct (validate _ _ _ d); [| done]. destruct (h_crd_schema h) as [s|] eqn:Es; [| by intros [= <-]].
  destruct (schema_validate s _); [| done]. intros [= <-]. specialize (Hschema s eq_refl).
  split; [by apply (defaults_wf (depth s)) |]. eapply keeps_present; [by apply (defaults_keep (depth s)) | done].
Qed.

Lemma reviewed_ready lifecycle k v user out :
  wf_json v = true -> meta_ready v -> review_write h lifecycle k v user = Ok out -> wf_json out = true /\ meta_ready out.
Proof.
  intros Hw Hm. unfold review_write. destruct (h_admission h) as [chain|] eqn:Ec; [| by intros [= <-]].
  destruct (review chain _) as [| x |] eqn:Er; [by intros [= <-] | | done].
  destruct (normalize _ _ x) eqn:En; simpl; [| done]. intros [= <-].
  eapply normalize_ready; [| exact En]. eapply review_wf; [done | done | | exact Er]. by intros y [= <-].
Qed.

(** A step of the pipeline that did not stop. *)
Lemma bind_ok_inv {A B E} (m : M (result A E)) (f : A -> M (result B E)) w b w' :
  bind_ok m f w = (Ok b, w') -> exists a w1, m w = (Ok a, w1) /\ f a w1 = (Ok b, w').
Proof. unfold bind_ok, bind. destruct (m w) as [[a|e] w1]; [eauto | done]. Qed.

Ltac pipe Hp x :=
  let w1 := fresh "w" in let Hx := fresh "H" x in
  apply bind_ok_inv in Hp as (x & w1 & Hx & Hp); unfold ret in Hx; try (injection Hx as Hx <-).

(** What a plan is made of. *)
Lemma plan_for_shape k namespace name request l taken expected now user fields w p w' :
  request_wf request = true -> (forall v, lifecycle_prior l = Some v -> wf_json v = true) ->
  plan_for debug_char vendored_schemas h k namespace name request l taken expected now user fields w = (Ok p, w') ->
  taken = false /\ (forall e, expected = Some e -> lifecycle_revision l = Some e) /\
  exists v, wf_json v = true /\ meta_ready v /\
    let candidate := stamp_server_owned h v namespace name l now in
    p = match l with
        | LUpdate old _ =>
            if unchanged old candidate (write_manager request) && negb (is_terminating candidate)
            then PUnchanged old else PWrite (mkPlan l candidate)
        | LCreate => PWrite (mkPlan l candidate)
        end.
Proof.
  intros Hr Hlp Hp. unfold plan_for in Hp.
  destruct (is_some_and _ expected) eqn:He; [done |].
  pipe Hp v1. pipe Hp v2. pipe Hp v3. pipe Hp u. pipe Hp v4. pipe Hp v5.
  apply (candidate_wf _ _ _ _ _ _ _ Hr Hlp) in Hv1.
  destruct (normalize (h_group h) (h_kind h) v1) as [n|] eqn:En; simpl in Hv2; [| done]. injection Hv2 as ->.
  destruct (normalize_ready _ _ _ _ Hv1 En) as [Hw2 Hm2].
  destruct (settle_name v2 name) as [n|] eqn:Es; simpl in Hv3; [| done]. injection Hv3 as ->.
  destruct (settle_name_ready _ _ _ Hw2 Hm2 Es) as [Hw3 Hm3].
  destruct (validated_ready _ _ _ Hw3 Hm3 Hv4) as [Hw4 Hm4].
  destruct (reviewed_ready _ _ _ _ _ Hw4 (present_ready _ Hm4) Hv5) as [Hw5 Hm5].
  cbv zeta in Hp. destruct taken; [done |]. split; [done |]. split.
  - intros e ->. simpl in He. apply negb_false_iff in He. exact (proj1 (eqb_true _ _) He).
  - exists v5. split; [done |]. split; [done |]. by injection Hp.
Qed.

(** The lifecycle a plan is made for. *)
Definition planned_lifecycle (request : WriteRequest) (prior : option (json * VersionMeta)) : Lifecycle :=
  if eqb (requires request) Absent then LCreate else lifecycle_of prior.

Lemma plan_split k namespace name request prior expected now user fields w p w' :
  plan debug_char vendored_schemas h k namespace name request prior expected now user fields w = (Ok p, w') ->
  exists taken, plan_for debug_char vendored_schemas h k namespace name request (planned_lifecycle request prior) taken
    expected now user fields w = (Ok p, w') /\ (requires request = Absent -> taken = is_some prior) /\
    (requires request = Present -> prior <> None).
Proof.
  unfold plan, planned_lifecycle. intros Hp.
  destruct (requires request), prior as [[q m]|]; try done; eexists; (split; [exact Hp | split; naive_solver]).
Qed.

(** (C23) Whatever a client sent and whatever a webhook made of it, an update that
    gets as far as a plan leaves alone what the server owns: the creation time
    and the uid the object has, the deletion mark (set or not), the name and the
    namespace of the address, and the status of a kind that serves it apart. *)
Theorem update_keeps_server_owned k namespace name request old meta expected now user fields w p w' :
  request_wf request = true -> wf_json old = true -> requires request <> Absent ->
  plan debug_char vendored_schemas h k namespace name request (Some (old, meta)) expected now user fields w = (Ok (PWrite p), w') ->
  let out := plan_candidate p in
  plan_lifecycle p = LUpdate old (mod_revision meta) /\
  (forall f, In f ["creationTimestamp"; "uid"] -> forall x, meta_field old f = Some x -> meta_field out f = Some x) /\
  meta_field out "deletionTimestamp" = meta_field old "deletionTimestamp" /\
  meta_field out "name" = Some (JString name) /\
  (forall ns, namespace = Some ns -> meta_field out "namespace" = Some (JString ns)) /\
  (serves h Subresource.Status = true -> jget "status" out = jget "status" old).
Proof.
  intros Hr Hold Hneed Hp out. apply plan_split in Hp as (taken & Hp & _).
  apply plan_for_shape in Hp as (_ & _ & v & Hv & Hm & Hp); [| done |].
  2: { intros x. unfold planned_lifecycle. destruct (eqb _ _); [done |]. by intros [= <-]. }
  assert (planned_lifecycle request (Some (old, meta)) = LUpdate old (mod_revision meta)) as El.
  { unfold planned_lifecycle. by rewrite (proj2 (eqb_false _ _)). }
  rewrite El in Hp. cbv zeta in Hp. destruct (_ && _); [done |]. injection Hp as ->. split; [done |]. 
  exact (stamped_update h v namespace name old (mod_revision meta) now Hm Hv Hold).
Qed.

End Plans.

(** ** A witness *)

#[local] Existing Instance numbered.
#[local] Existing Instance numbered_laws.
#[local] Existing Instance sample_env.
#[local] Existing Instance sample_ops.
#[local] Existing Instance sample_ops_laws.
#[local] Existing Instance zero_blake3.
#[local] Existing Instance sample_text.

Definition pods : StoreBackedHandler :=
  mkHandler "" "v1" "Pod" "pods" true [Subresource.Status] None false None.

Definition running_pod : json :=
  jobj [("metadata", jobj [("name", JString "p"); ("namespace", JString "default"); ("uid", JString "u1");
                           ("creationTimestamp", JString "2024-01-01T00:00:00Z")]);
        ("status", jobj [("phase", JString "Running")])].

(** A replace that forges what it does not own. *)
Definition forged_pod : json :=
  jobj [("metadata", jobj [("uid", JString "u2"); ("deletionTimestamp", JString "2030-01-01T00:00:00Z");
                           ("labels", jobj [("a", JString "b")])]);
        ("spec", jobj [("containers", JArray [jobj [("name", JString "c"); ("image", JString "i:1")]])]);
        ("status", jobj [("phase", JString "Failed")])].

Definition replace_plan : result Planned ApiError.t * World :=
  plan (fun s => s) no_schemas pods pod_key (Some "default") "p" (WReplace forged_pod)
    (Some (running_pod, mkVersionMeta 3 7 2)) None "2025-01-01T00:00:00Z" (mkUserInfo "u" "" [] []) unasked (mkWorld empty []).

Lemma update_keeps_server_owned_witness :
  exists p w', replace_plan = (Ok (PWrite p), w') /\
    meta_field (plan_candidate p) "uid" = Some (JString "u1") /\
    meta_field (plan_candidate p) "deletionTimestamp" = None /\
    jget "status" (plan_candidate p) = Some (jobj [("phase", JString "Running")]).
Proof.
  destruct replace_plan as [[[u|p]|] w'] eqn:E; try (by vm_compute in E). exists p, w'. split; [done |].
  assert (json_chain pods) as Hc by done. assert (forall s, h_crd_schema pods = Some s -> wf_json s = true) as Hs by done.
  destruct (update_keeps_server_owned (fun s => s) no_schemas pods Hc Hs pod_key (Some "default") "p" (WReplace forged_pod)
    running_pod (mkVersionMeta 3 7 2) None "2025-01-01T00:00:00Z" (mkUserInfo "u" "" [] []) unasked (mkWorld empty []) p w'
    eq_refl eq_refl ltac:(done) E) as (_ & H1 & H2 & _ & _ & H3).
  split; [by apply H1; [right; left |] |]. split; [exact H2 |]. by apply H3.
Defined.
