(* ===== verification/WriteRace.v ===== *)
(** * A write among others

    A handler reads, plans and proposes while others write.  Two facts: a dry run
    leaves the store to the others, and a write that succeeds replaced exactly
    the object its plan was made from, however the others interleaved. *)

From Stdlib Require Import Ascii String.
From stdpp Require Import base tactics option list strings numbers.
From S2P Require Import Prelude Text BTreeMap Json Resource WatchHistory Command Read.
From S2P Require Import PatchApply PatchFacts Ssa SsaFacts Pagination Catalog CatalogMeta CatalogFacts CatalogTheorems.
From S2P Require Import Birth Mesh WatchBackend ApiErrors Coords Auth Params Names ObjectBody Defaulting Validation.
From S2P Require Import SchemaValidation FieldShapes FieldValidation FieldFacts Handler WritePlan WriteFacts.

Local Open Scope string_scope.
Local Open Scope Z_scope.

(** ** Operations that only read *)

Section Reads.
Context `{SerdeJson} `{PatchSchemaEnv} `{OpDecoder} `{Blake3} `{ErrorText}.

(** Whatever the operation answers, the store is where the others brought it. *)
Definition reads_only {A} (m : M A) : Prop := forall w, exists n, (m w).2 = Nat.iter n step_others w.

Lemma reads_ret {A} (a : A) : reads_only (ret a).
Proof. intros w. by exists 0%nat. Qed.

Lemma reads_read {A} (f : ResourceCatalog -> A) : reads_only (read f).
Proof. intros w. by exists 1%nat. Qed.

Lemma reads_bind {A B} (m : M A) (f : A -> M B) : reads_only m -> (forall a, reads_only (f a)) -> reads_only (bind m f).
Proof.
  intros Hm Hf w. unfold bind. destruct (Hm w) as [n Hn]. destruct (m w) as [a w1]. simpl in Hn.
  destruct (Hf a w1) as [n' Hn']. exists (n' + n)%nat. by rewrite Hn', Hn, Nat.iter_add.
Qed.

Lemma reads_bind_ok {A B E} (m : M (result A E)) (f : A -> M (result B E)) :
  reads_only m -> (forall a, reads_only (f a)) -> reads_only (bind_ok m f).
Proof. intros Hm Hf. apply reads_bind; [done |]. intros [a|e]; [done | apply reads_ret]. Qed.
End Reads.

Create HintDb reads.
#[export] Hint Resolve reads_ret reads_read : reads.
#[export] Hint Extern 1 (reads_only (bind _ _)) => apply reads_bind; [| intros] : reads.
#[export] Hint Extern 1 (reads_only (bind_ok _ _)) => apply reads_bind_ok; [| intros] : reads.
#[export] Hint Extern 2 (reads_only (match ?x with _ => _ end)) => destruct x : reads.

Section Dry.
Context `{SerdeJson} `{PatchSchemaEnv} `{OpDecoder} `{Blake3} `{ErrorText}.
Context (debug debug_char : string -> string) (sealer : option SealFault.t)
  (refusal_text : string * SealFault.t -> string) (births : string) (value_text : json -> string).
Context (vendored_schemas : Schemas) (number_text : number -> string).

Lemma create_check_reads h namespace name : reads_only (refuse_bad_create debug_char h namespace name).
Proof. unfold refuse_bad_create. eauto 10 with reads. Qed.

Lemma plan_for_reads h k namespace name request l taken expected now user fields :
  reads_only (plan_for debug_char vendored_schemas h k namespace name request l taken expected now user fields).
Proof.
  unfold plan_for. destruct (is_some_and _ _); [apply reads_ret |].
  repeat (apply reads_bind_ok; [| intros]); try apply reads_ret.
  - destruct l; [apply create_check_reads | apply reads_ret].
  - cbv zeta. destruct taken; apply reads_ret.
Qed.

Lemma plan_reads h k namespace name request prior expected now user fields :
  reads_only (plan debug_char vendored_schemas h k namespace name request prior expected now user fields).
Proof. unfold plan. destruct (requires request), prior; apply reads_ret || apply plan_for_reads. Qed.

Lemma attempts_dry_reads n h k namespace name request expected now user fields :
  reads_only (attempts debug_char sealer refusal_text births vendored_schemas n h k namespace name request expected now user
    All fields).
Proof.
  induction n as [|n IH]; [apply reads_ret |]. cbn [attempts]. apply reads_bind_ok.
  - unfold attempt. apply reads_bind; [apply reads_read | intros prior].
    apply reads_bind_ok; [apply plan_reads |]. intros [stored | p]; apply reads_ret.
  - intros [v|]; [apply reads_ret | apply IH].
Qed.

Lemma delete_dry_reads h namespace name expected user now :
  reads_only (delete_with_precondition debug sealer refusal_text births h namespace name expected user All now).
Proof.
  unfold delete_with_precondition, review_delete. apply reads_bind_ok; [apply reads_ret | intros k].
  apply reads_bind_ok; [eauto with reads |]. intros _. apply reads_bind; [apply reads_read |]. intros prior. apply reads_ret.
Qed.

Lemma delete_each_dry_reads h namespace user now items :
  reads_only (delete_each debug sealer refusal_text births h namespace user All now items).
Proof.
  induction items as [|item items IH]; [apply reads_ret |]. cbn [delete_each].
  destruct (_ ≫= as_str); [| done]. apply reads_bind_ok; [apply delete_dry_reads | done].
Qed.

Lemma write_dry_reads h namespace name request user fields now :
  reads_only (write debug debug_char sealer refusal_text births value_text vendored_schemas h namespace name request user All
                fields now).
Proof.
  unfold write. apply reads_bind_ok; [apply reads_ret | intros k]. apply reads_bind_ok; [apply reads_ret | intros e].
  apply attempts_dry_reads.
Qed.

Lemma delete_collection_dry_reads h namespace sel user now :
  reads_only (delete_collection debug sealer refusal_text births number_text h namespace sel user All now).
Proof.
  unfold delete_collection, list_at, refuse_unreadable_secrets.
  apply reads_bind_ok; [eauto 10 with reads | intros out]. apply reads_bind_ok; [apply delete_each_dry_reads | intros _].
  apply reads_ret.
Qed.

End Dry.

(** ** The same revision is the same object *)

Section Race.
Context `{SerdeJsonLaws} `{PatchSchemaEnv} `{OpDecoderLaws} `{Blake3} `{ErrorText}.

(** While others write, an object that still has its revision is unchanged. *)
Lemma run_same_revision entries c log k v m v' m' :
  catalog_ok c log -> wf_entries entries = true -> revision_of c + Z.of_nat (length entries) <= Word.u64_max ->
  bt_get k (resources c) = Some (v, m) -> bt_get k (resources (run c entries).2) = Some (v', m') ->
  mod_revision m' = mod_revision m -> (v', m') = (v, m).
Proof.
  intros Hok Hw Hroom Hg Hg' Hrev.
  destruct (run_correct entries c log Hok Hw Hroom) as [Hok' Hres _ Hnew _ _ _].
  pose proof (ok_tracked _ _ Hok' k v' m' Hg') as Ht.
  rewrite Hres, replay_get in Hg' by apply Hok. rewrite last_on_key_app in Ht.
  match type of Ht with context [match ?l with Some _ => _ | None => _ end] => destruct l as [ch|] eqn:El; [| congruence] end.
  destruct Ht as (_ & _ & Hr). destruct (last_on_key_In _ _ _ El) as [Hin _].
  rewrite List.Forall_forall in Hnew. specialize (Hnew _ Hin).
  pose proof (ok_metas _ _ Hok) as Hm. rewrite List.Forall_forall in Hm. apply bt_get_mem in Hg.
  destruct (Hm _ Hg) as [Hmk _]. unfold meta_ok in Hmk. simpl in Hmk. lia.
Qed.

(** A world whose others write commands that fit. *)
Definition world_ok (w : World) : Prop :=
  (exists log, catalog_ok (stored_catalog w) log) /\ forallb wf_entries (others w) = true /\
  revision_of (stored_catalog w) + Z.of_nat (length (concat (others w))) <= Word.u64_max.

Lemma run_app c a b : (run c (a ++ b)).2 = (run (run c a).2 b).2.
Proof.
  revert c. induction a as [|[[e t] i] a IH]; intros c; [done |]. cbn [app run]. destruct (apply_logged c e t i) as [o c1].
  specialize (IH c1). destruct (run c1 (a ++ b)), (run c1 a). done.
Qed.

Lemma wf_entries_app a b : wf_entries (a ++ b) = wf_entries a && wf_entries b.
Proof. apply forallb_app. Qed.

Lemma run_revision_le entries c log : catalog_ok c log -> wf_entries entries = true ->
  revision_of c + Z.of_nat (length entries) <= Word.u64_max ->
  revision_of (run c entries).2 <= revision_of c + Z.of_nat (length entries).
Proof.
  revert c log. induction entries as [|[[e t] i] entries IH]; intros c log Hok Hw Hroom; [simpl; lia |].
  cbn [run]. cbn [wf_entries forallb fst] in Hw. apply andb_true_iff in Hw as [He Hw]. cbn [length] in *.
  pose proof (apply_logged_advances c log e t i Hok He) as Ha.
  destruct (apply_logged c e t i) as [o c1]. cbn [fst snd] in Ha.
  destruct (advances_head _ _ _ _ Hok Ha ltac:(lia)) as [Hh _].
  pose proof (advances_ok _ _ _ _ Hok Ha ltac:(lia)) as Hok1.
  assert (revision_of c1 <= revision_of c + 1) by (case_match; lia).
  specialize (IH c1 _ Hok1 Hw ltac:(lia)). destruct (run c1 entries). simpl in *. lia.
Qed.

(** What the others did, as one run. *)
Lemma others_run n w : world_ok w ->
  world_ok (Nat.iter n step_others w) /\
  exists entries, stored_catalog (Nat.iter n step_others w) = (run (stored_catalog w) entries).2 /\
    wf_entries entries = true /\ (length entries <= length (concat (others w)))%nat.
Proof.
  revert w. induction n as [|n IH]; intros w Hw.
  { split; [done |]. exists []. split_and!; [done | done |]. simpl. lia. }
  rewrite Nat.iter_succ_r. destruct Hw as ([log Hok] & Hwf & Hr).
  destruct (others w) as [|l rest] eqn:Eo.
  { replace (step_others w) with w by (unfold step_others; by rewrite Eo). rewrite <- Eo. apply IH.
    by split_and!; [exists log | rewrite Eo | rewrite Eo]. }
  cbn [forallb concat] in Hwf, Hr. apply andb_true_iff in Hwf as [Hl Hrest]. rewrite length_app in Hr.
  assert (step_others w = mkWorld (run (stored_catalog w) l).2 rest) as -> by (unfold step_others; by rewrite Eo).
  pose proof (run_revision_le l _ _ Hok Hl ltac:(lia)) as Hle.
  destruct (IH (mkWorld (run (stored_catalog w) l).2 rest)) as (Hw' & entries & E & He & Hre).
  { split_and!; simpl; [| done | lia]. eexists. apply (run_correct l _ _ Hok Hl). lia. }
  split; [done |]. exists (l ++ entries)%list. rewrite E, run_app. cbn [concat others stored_catalog] in *.
  split_and!; [done | by rewrite wf_entries_app, Hl, He |]. rewrite !length_app. lia.
Qed.

(** ** The proposal of a plan *)

(** The entry a plan was made for. *)
Definition made_for (l : Lifecycle) (e : option (json * VersionMeta)) : bool :=
  match l, e with
  | LCreate, None => true
  | LUpdate _ at_, Some (_, m) => mod_revision m =? at_
  | _, _ => false
  end.

(** An outcome that commits a plan. *)
Definition commits (o : ResourceOp.t) : bool :=
  match o with
  | ResourceOp.Created | ResourceOp.Replaced | ResourceOp.Unchanged | ResourceOp.Deleted => true
  | _ => false
  end.

Lemma put_commits c k v ex oi rev :
  check_precondition ex (snd <$> bt_get k (resources c)) = true -> commits (op (apply_put c k v ex oi rev).1) = true.
Proof.
  intros Hc. unfold apply_put. cbv zeta. rewrite Hc. cbn [negb]. destruct (OnIdentical.skips _ _ _ _); [done |].
  destruct (finalizer_release_removal _ _ _ _ _) as [out|] eqn:E; [by rewrite (release_op _ _ _ _ _ _ E) |].
  by destruct (is_some _).
Qed.

Lemma create_txn c k v rev :
  apply_txn c [TxnCompare.NotExists k] [TxnOp.Put k v] [] rev =
  if bt_contains k (resources c) then (no_change ResourceOp.NoOp, c)
  else (committed ResourceOp.Replaced (default (mkChange 0 k Put v None (created_at 0))
          (change (apply_put c k v None OnIdentical.Commit rev).1)) [], (apply_put c k v None OnIdentical.Commit rev).2).
Proof.
  unfold apply_txn. cbn [forallb eval_compare]. destruct (bt_contains k (resources c)) eqn:E; [done |].
  cbn [negb andb run_branch apply_txn_op]. destruct (apply_put c k v None OnIdentical.Commit rev) as [o c1] eqn:Ep.
  unfold bt_contains in E. unfold apply_put in Ep. cbv zeta in Ep. destruct (bt_get k (resources c)); [done |].
  unfold finalizer_release_removal in Ep. cbn in Ep. by injection Ep as <- <-.
Qed.

Lemma stamp_births_keys c cmd now : ResourceCommand.keys (stamp_births c cmd now) = ResourceCommand.keys cmd.
Proof.
  destruct cmd as [| | | cmps su fa r]; try done. cbn [stamp_births ResourceCommand.keys]. f_equal.
  rewrite <- map_app, map_map. apply map_ext. by intros [].
Qed.

(** A proposed plan commits exactly on the entry it was made for; otherwise it
    changes nothing. *)
Lemma propose_plan_spec sealer births c k p o c' :
  propose sealer births c (plan_command k p) = Ok (o, c') ->
  if made_for (plan_lifecycle p) (get_with_meta c k) then commits (op o) = true
  else (op o = ResourceOp.Conflict \/ op o = ResourceOp.NoOp) /\ exists t i, c' = set_applied c t i.
Proof.
  unfold propose. destruct (write_refusal sealer c (plan_command k p)) eqn:Er; [done |]. intros [= E].
  unfold apply_logged, apply_under in E. cbn [command proposed] in E.
  assert (unreadable_touched_by c (stamp_births c (plan_command k p) births) = None) as Hu.
  { unfold write_refusal in Er. destruct (sealer ≫= _); [done |]. unfold unreadable_touched_by in *. rewrite stamp_births_keys.
    match type of Er with option_map _ ?t = None => by destruct t end. }
  rewrite Hu in E. unfold plan_command, get_with_meta in *.
  destruct (plan_lifecycle p) as [|old at_]; cbn [stamp_births apply_command map stamp_birth_op] in E.
  - rewrite create_txn in E. unfold bt_contains in E. destruct (bt_get k (resources c)) as [[v m]|] eqn:Eg;
      cbn [is_some made_for] in *.
    + injection E as <- <-. split; [by right |]. by eexists _, _.
    + cbn in E. by injection E as <- <-.
  - cbn [made_for]. pose proof (conflict_iff c (ResourceCommand.Put k (stamp_birth c k (plan_candidate p) births) (Some at_) Reason.Operator)
      (OnIdentical.under ApplySemantics.CURRENT) (next_revision (history c)) k (Some at_) eq_refl) as Hc. cbv zeta in Hc.
    cbn [check_precondition apply_command] in Hc.
    destruct (bt_get k (resources c)) as [[v m]|] eqn:Eg; cbn [fmap option_fmap option_map is_some_and snd] in Hc.
    + destruct (mod_revision m =? at_) eqn:Em.
      * pose proof (put_commits c k (stamp_birth c k (plan_candidate p) births) (Some at_)
          (OnIdentical.under ApplySemantics.CURRENT) (next_revision (history c))) as Hput.
        rewrite Eg in Hput. cbn [check_precondition fmap option_fmap option_map is_some_and snd] in Hput. specialize (Hput Em).
        cbn [semantics proposed] in E. destruct (apply_put _ _ _ _ _ _) as [o1 c1]. by injection E as <- _.
      * cbn [semantics proposed] in E. rewrite Hc in E. injection E as <- <-. split; [by left |]. by eexists _, _.
    + cbn [semantics proposed] in E. rewrite Hc in E. injection E as <- <-. split; [by left |]. by eexists _, _.
Qed.

(** ** The loop *)

(** Nothing of the handler's is committed from one world to the other: the others
    write, and proposals of its own are refused. *)
Inductive waits : World -> World -> Prop :=
| waits_refl w : waits w w
| waits_others w w' : waits (step_others w) w' -> waits w w'
| waits_raced w t i w' : waits (mkWorld (set_applied (stored_catalog w) t i) (others w)) w' -> waits w w'.

Lemma waits_iter n w : waits w (Nat.iter n step_others w).
Proof. revert w. induction n as [|n IH]; intros w; [constructor |]. rewrite Nat.iter_succ_r. by apply waits_others. Qed.

Lemma waits_trans w1 w2 w3 : waits w1 w2 -> waits w2 w3 -> waits w1 w3.
Proof. induction 1; intros; [done | by apply waits_others; auto | by eapply waits_raced; auto]. Qed.

Lemma raced_ok w t i : world_ok w -> world_ok (mkWorld (set_applied (stored_catalog w) t i) (others w)).
Proof. intros ([log []] & Hw & Hr). split_and!; [| done | done]. by exists log. Qed.

Context (debug debug_char : string -> string) (sealer : option SealFault.t)
  (refusal_text : string * SealFault.t -> string) (births : string) (value_text : json -> string).
Context (schemas : Schemas).

(** The plan of an update is for the entry it was given. *)
Lemma plan_made_for h k namespace name request prior expected now user fields w p w' :
  plan debug_char schemas h k namespace name request prior expected now user fields w = (Ok (PWrite p), w') ->
  plan_lifecycle p = lifecycle_of prior.
Proof.
  intros Hp.
  assert (forall l taken, plan_for debug_char schemas h k namespace name request l taken expected now user fields w =
    (Ok (PWrite p), w') -> taken = false /\ plan_lifecycle p = l) as Hfor.
  { clear Hp. intros l taken Hp. unfold plan_for in Hp. destruct (is_some_and _ _); [done |].
    do 6 (apply bind_ok_inv in Hp as (? & ? & _ & Hp)). cbv zeta in Hp. destruct taken; [done |]. split; [done |].
    destruct l; [by injection Hp as <- |]. destruct (_ && _); [done |]. by injection Hp as <- _. }
  unfold plan in Hp. destruct (requires request), prior as [[v m]|]; try done; apply Hfor in Hp as [Ht Hl]; by simplify_eq/=.
Qed.

(** The entry a plan was made for, found again, is the entry it was made from. *)
Lemma same_entry prior w n k : world_ok w -> prior = get_with_meta (stored_catalog w) k ->
  made_for (lifecycle_of prior) (get_with_meta (stored_catalog (Nat.iter n step_others w)) k) = true ->
  get_with_meta (stored_catalog (Nat.iter n step_others w)) k = prior.
Proof.
  intros Hw -> Hm. destruct (others_run n w Hw) as (_ & entries & E & He & Hlen).
  rewrite E in *. clear E.
  destruct Hw as ([log Hok] & _ & Hr). unfold get_with_meta in *.
  destruct (bt_get k (resources (stored_catalog w))) as [[v m]|] eqn:Eg; cbn [lifecycle_of made_for] in Hm;
    destruct (bt_get k (resources (run (stored_catalog w) entries).2)) as [[v' m']|] eqn:Eg'; try done.
  f_equal. apply (run_same_revision entries _ log k v m v' m' Hok He); [lia | done | done |]. by apply Z.eqb_eq.
Qed.

(** How a write that succeeds ends. *)
Inductive settled_write (h : StoreBackedHandler) (k : ResourceKey) (namespace : option string) (name : string)
    (request : WriteRequest) (expected : option Revision) (now : string) (user : UserInfo) (fields : PatchFields)
    (w : World) : json -> World -> Prop :=
| Kept wr stored wp :
    waits w wr ->
    plan debug_char schemas h k namespace name request (get_with_meta (stored_catalog wr) k) expected now user fields wr =
      (Ok (PUnchanged stored), wp) ->
    settled_write h k namespace name request expected now user fields w (typed h stored) wp
| Written wr wc p wp o c v w' :
    waits w wr -> waits wr wc ->
    plan debug_char schemas h k namespace name request (get_with_meta (stored_catalog wc) k) expected now user fields wr =
      (Ok (PWrite p), wp) ->
    propose sealer births (stored_catalog wc) (plan_command k p) = Ok (o, c) -> commits (op o) = true ->
    waits (mkWorld c (others wc)) w' ->
    settled_write h k namespace name request expected now user fields w v w'.

Lemma settled_from h k namespace name request expected now user fields w w1 v w' :
  waits w w1 -> settled_write h k namespace name request expected now user fields w1 v w' ->
  settled_write h k namespace name request expected now user fields w v w'.
Proof.
  intros Hw [wr stored wp Hr Hp | wr wc p wp o c v' w2 Hr Hc Hp Ho Hk Hw'].
  - eapply Kept; [by eapply waits_trans | done].
  - by eapply Written; [eapply waits_trans | ..].
Qed.

Lemma attempts_settle n h k namespace name request expected now user fields w v w' :
  world_ok w ->
  attempts debug_char sealer refusal_text births schemas n h k namespace name request expected now user Off fields w = (Ok v, w') ->
  settled_write h k namespace name request expected now user fields w v w'.
Proof.
  revert w. induction n as [|n IH]; intros w Hw Ha; [done |]. cbn [attempts] in Ha.
  apply bind_ok_inv in Ha as (answer & wa & Ha & Hrest). unfold attempt, bind, read in Ha. cbv zeta in Ha.
  set (wr := step_others w) in *. set (prior := get_with_meta (stored_catalog wr) k) in *.
  assert (world_ok wr) as Hwr by (by apply (others_run 1 w)).
  assert (waits w wr) as Hwait by (by apply (waits_iter 1)).
  apply bind_ok_inv in Ha as (planned & wp & Hp & Ha). destruct planned as [stored | p].
  { unfold ret in *. injection Ha as <- <-. injection Hrest as <- <-. by apply Kept with wr. }
  cbn [is_dry] in Ha. apply bind_ok_inv in Ha as (done & wd & Hd & Ha). unfold commit_plan in Hd.
  apply bind_ok_inv in Hd as (o & wo & Ho & Hd). unfold propose_cmd in Ho. cbv zeta in Ho.
  destruct (plan_reads debug_char schemas h k namespace name request prior expected now user fields wr) as [m Hm].
  rewrite Hp in Hm. cbn [snd] in Hm.
  assert (step_others wp = Nat.iter (S m) step_others wr) as Hwc by (by rewrite Hm).
  set (wc := step_others wp) in *.
  destruct (propose sealer births (stored_catalog wc) (plan_command k p)) as [[o' c]|] eqn:Epr; [| done].
  injection Ho as -> <-. pose proof (propose_plan_spec _ _ _ _ _ _ _ Epr) as Hspec.
  rewrite (plan_made_for _ _ _ _ _ _ _ _ _ _ _ _ _ Hp) in Hspec.
  destruct (made_for _ _) eqn:Emf.
  - assert (get_with_meta (stored_catalog wc) k = prior) as Hsame.
    { rewrite Hwc in Emf |- *. by apply same_entry. }
    apply Written with wr wc p wp o c; [done | | by rewrite Hsame | done | done |].
    + rewrite Hwc. apply waits_iter.
    + unfold ret in Hd. injection Hd as Hd <-. destruct (op o); try done; injection Hd as <-;
        try (apply bind_ok_inv in Ha as (back & wb & Hb & Ha); unfold read_back, bind, read, ret in Hb; cbv zeta in Hb;
             injection Hb as _ <-; unfold ret in Ha);
        injection Ha as <- <-; injection Hrest as _ <-; first [apply waits_refl | apply (waits_iter 1)].
  - destruct Hspec as [Hop (t & i & ->)]. unfold ret in Hd. injection Hd as Hd <-.
    assert (done = Raced) as -> by (destruct Hop as [Hop | Hop]; rewrite Hop in Hd; by injection Hd as <-).
    unfold ret in Ha. destruct (is_some expected); [done |]. destruct (eqb _ Absent); [done |]. injection Ha as <- <-.
    apply settled_from with (mkWorld (set_applied (stored_catalog wc) t i) (others wc)).
    + eapply waits_trans; [exact Hwait |]. apply (waits_trans _ wc); [rewrite Hwc; apply waits_iter |].
      apply (waits_raced wc t i). constructor.
    + apply IH; [| done]. apply raced_ok. rewrite Hwc. by apply others_run.
Qed.

(** (C20) However others write in between, a write that succeeds either answers the
    stored object its plan found nothing to change in, or commits, once, a plan
    made from exactly the entry the store held at the instant of the commit: no
    write of another is lost under it, and every refused attempt left the objects
    alone. *)
Theorem write_replaces_what_it_read h k namespace name request expected now user fields w v w' :
  world_ok w -> handler_key debug h namespace name = Ok k -> client_precondition debug value_text request = Ok expected ->
  write debug debug_char sealer refusal_text births value_text schemas h namespace name request user Off fields now w =
    (Ok v, w') ->
  settled_write h k namespace name request expected now user fields w v w'.
Proof.
  intros Hw Hk He Hwrite. unfold write, bind_ok, bind, ret in Hwrite. rewrite Hk, He in Hwrite.
  by eapply attempts_settle.
Qed.

End Race.

(** ** A witness *)

#[local] Existing Instance numbered.
#[local] Existing Instance numbered_laws.
#[local] Existing Instance sample_env.
#[local] Existing Instance sample_ops.
#[local] Existing Instance sample_ops_laws.
#[local] Existing Instance zero_blake3.
#[local] Existing Instance zero_blake3_laws.
#[local] Existing Instance sample_text.

(** A patch, while another writes between the read and the proposal. *)
Definition container_patch : WriteRequest :=
  WPatch (jobj [("spec", jobj [("containers", JArray [jobj [("name", JString "c"); ("image", JString "i:1")]])])]) AlgMerge.

Definition contended : World := mkWorld stored [[]; [entry (put_at "b") 2]; []].

Definition patch_run : result json ApiError.t * World :=
  write (fun s => s) (fun s => s) None (fun _ => "") "now" (fun _ => "") no_schemas pods (Some "default") "web"
    container_patch (mkUserInfo "u" "" [] []) Off unasked "now" contended.

Lemma write_replaces_what_it_read_witness :
  exists v w', patch_run = (Ok v, w') /\ revision_of (stored_catalog w') = 3 /\
    settled_write (fun s => s) None "now" no_schemas pods pod_key (Some "default") "web" container_patch None "now"
      (mkUserInfo "u" "" [] []) unasked contended v w'.
Proof.
  assert (is_ok patch_run.1 && (revision_of (stored_catalog patch_run.2) =? 3) = true) as Hok by (by vm_compute).
  destruct patch_run as [[v|] w'] eqn:E; [| done]. cbn [fst snd is_ok andb] in Hok. exists v, w'. split; [done |].
  split; [by apply Z.eqb_eq |].
  apply (write_replaces_what_it_read (fun s => s) (fun s => s) None (fun _ => "") "now" (fun _ => "") no_schemas pods pod_key
    (Some "default") "web" container_patch None "now" (mkUserInfo "u" "" [] []) unasked contended v w');
    [| done | done | exact E].
  split_and!; [by eexists; apply stored_ok | by vm_compute | by vm_compute].
Defined.

(** ** Two births

    A create drops the uid a client sent and nothing else of what the server
    owns: an object can be born terminating, and the next ordinary update then
    removes it; and it can be born at a time of the client's choosing. *)

Definition do_write (request : WriteRequest) (w : World) : result json ApiError.t * World :=
  write (fun s => s) (fun s => s) None (fun _ => "") "now" (fun _ => "") no_schemas pods (Some "default") "web"
    request (mkUserInfo "u" "" [] []) Off unasked "now" w.

Definition doomed_pod : json :=
  jobj [("metadata", jobj [("deletionTimestamp", JString "2030-01-01T00:00:00Z");
                           ("creationTimestamp", JString "1970-01-01T00:00:00Z")]);
        ("spec", jobj [("containers", JArray [jobj [("name", JString "c"); ("image", JString "i:1")]])])].

Definition label_patch : WriteRequest := WPatch (jobj [("metadata", jobj [("labels", jobj [("a", JString "b")])])]) AlgMerge.

Lemma born_terminating :
  let created := do_write (WCreate doomed_pod) (mkWorld empty []) in
  let patched := do_write label_patch created.2 in
  is_ok created.1 = true /\
  (get (stored_catalog created.2) pod_key ≫= fun v => meta_field v "creationTimestamp") =
    Some (JString "1970-01-01T00:00:00Z") /\
  patched.1 = Ok (delete_status_success "web" "Pod") /\ get (stored_catalog patched.2) pod_key = None.
Proof. by vm_compute. Qed.
