(* ===== verification/Eviction.v ===== *)
(** * Evictions

    [engenho-apiserver/src/eviction.rs], and [evict] and [spend_budget] of
    [handler.rs]: a delete that a PodDisruptionBudget may refuse; the selection of
    pods by a budget and the readiness of a pod are of [engenho-controllers]
    ([pdb.rs], [selector.rs], [status.rs]). *)

From Stdlib Require Import Ascii String.
From stdpp Require Import base tactics option list strings numbers pretty.
From S2P Require Import Prelude Text BTreeMap Json Resource WatchHistory Command Read.
From S2P Require Import PatchApply PatchFacts Ssa SsaFacts Pagination Catalog CatalogMeta CatalogFacts CatalogTheorems CatalogReads.
From S2P Require Import Birth Mesh WatchBackend ApiErrors Coords Auth Params Handler WritePlan WriteFacts WriteRace.

Local Open Scope string_scope.
Local Open Scope Z_scope.
Local Open Scope handler_scope.

(** ** Selectors and readiness *)

Definition matches_labels (resource match_labels : json) : bool :=
  match as_object match_labels with
  | None | Some [] => false
  | Some want =>
      match (jget "metadata" resource ≫= jget "labels") ≫= as_object with
      | None => false
      | Some have => forallb (fun e => is_some_and (eqb e.2) (bt_get e.1 have)) want
      end
  end.

Definition selector_match_labels (parent : json) : option json :=
  (jget "spec" parent ≫= jget "selector") ≫= fun sel =>
    match jget "matchLabels" sel with Some m => Some m | None => Some sel end.

Definition pdb_selects (pdb pod : json) : bool :=
  is_some_and (matches_labels pod) (selector_match_labels pdb).

Definition is_ready_condition (c : json) : bool :=
  eqb (jget "type" c ≫= as_str) (Some "Ready") && eqb (jget "status" c ≫= as_str) (Some "True").

Definition pod_is_ready (pod : json) : bool :=
  is_some_and (existsb is_ready_condition) ((jget "status" pod ≫= jget "conditions") ≫= as_array).

(** ** The eviction of a request *)

Record Eviction : Type := mkEviction {
  ev_uid : option string;
  ev_resource_version : option string;
  ev_dry_run : bool
}.

Definition eviction_from_body (body : json) (name : string) : result Eviction ApiError.t :=
  let kind := default "Eviction" (jget "kind" body ≫= as_str) in
  let version := default "policy/v1" (jget "apiVersion" body ≫= as_str) in
  if negb (eqb kind "Eviction") || negb (eqb version "policy/v1" || eqb version "policy/v1beta1") then
    Err (ApiError.BadRequest ("expected a policy/v1 Eviction, got " +:+ version +:+ " " +:+ kind))
  else if is_some_and (fun n => negb (eqb n name)) ((jget "metadata" body ≫= jget "name") ≫= as_str) then
    Err (ApiError.BadRequest "name in URL does not match name in Eviction object")
  else
    let opts := jget "deleteOptions" body in
    let pre f := ((opts ≫= jget "preconditions") ≫= jget f) ≫= as_str in
    Ok (mkEviction (pre "uid") (pre "resourceVersion")
          (is_some_and (existsb (eqb (JString "All"))) ((opts ≫= jget "dryRun") ≫= as_array))).

Definition success_status (name : string) : json :=
  jobj [("kind", JString "Status"); ("apiVersion", JString "v1"); ("metadata", JObject []);
        ("status", JString "Success"); ("details", jobj [("name", JString name); ("kind", JString "pods")])].

Definition ignores_budgets (pod : json) : bool :=
  is_some_and (fun p => existsb (eqb p) ["Succeeded"; "Failed"; "Pending"])
    ((jget "status" pod ≫= jget "phase") ≫= as_str) ||
  is_some (jget "metadata" pod ≫= jget "deletionTimestamp").

(** ** The judgement of one budget *)

Inductive Decision : Type := DeletePod | Spend (patch : json).

Definition status_int (pdb : json) (f : string) : option Z := (jget "status" pdb ≫= jget f) ≫= as_i64.

(** What the budget says it allows. *)
Definition allowance (pdb : json) : Z := default 0 (status_int pdb "disruptionsAllowed").

Definition spend_patch (allowed : Z) (pod_name now : string) : json :=
  jobj [("status", jobj [("disruptionsAllowed", JNumber (number_of_i64 (allowed - 1)));
                         ("disruptedPods", jobj [(pod_name, JString now)])])].

Definition decide (pod pdb : json) (now : string) : result Decision ApiError.t :=
  let pdb_name := default "" ((jget "metadata" pdb ≫= jget "name") ≫= as_str) in
  let current := default 0 (status_int pdb "currentHealthy") in
  let desired := default 0 (status_int pdb "desiredHealthy") in
  let policy := default "IfHealthyBudget" ((jget "spec" pdb ≫= jget "unhealthyPodEvictionPolicy") ≫= as_str) in
  if negb (pod_is_ready pod) && (eqb policy "AlwaysAllow" || ((desired <=? current) && (0 <? desired)))
  then Ok DeletePod
  else
    let generation := (jget "metadata" pdb ≫= jget "generation") ≫= as_i64 in
    let observed := status_int pdb "observedGeneration" in
    if match observed with
       | None => true
       | Some o => is_some_and (fun g => o <? g) generation
       end
    then Err (ApiError.DisruptionBudget
                ("The disruption budget " +:+ pdb_name +:+ " is still being processed by the server."))
    else
      let allowed := allowance pdb in
      if allowed <? 0 then Err (ApiError.Forbidden "pdb disruptions allowed is negative")
      else if allowed =? 0 then
        Err (ApiError.DisruptionBudget
               ("The disruption budget " +:+ pdb_name +:+ " needs " +:+ pretty desired +:+
                " healthy pods and has " +:+ pretty current +:+ " currently"))
      else Ok (Spend (spend_patch allowed (default "" ((jget "metadata" pod ≫= jget "name") ≫= as_str)) now)).

(** ** The handler's part *)

Definition ATTEMPTS : nat := 3.

Section Evict.
Context `{SerdeJson} `{PatchSchemaEnv} `{OpDecoder} `{Blake3} `{ErrorText}.
Context (debug : string -> string) (sealer : option SealFault.t) (refusal_text : string * SealFault.t -> string)
  (births : string).

(** The budgets that select a pod. *)
Definition selecting (pod : json) (l : list (ResourceKey * json)) : list (ResourceKey * json) :=
  List.filter (fun e => pdb_selects e.2 pod) l.

(** [clock n] is what the clock reads with [n] attempts left. *)
Fixpoint spend_budget (n : nat) (clock : nat -> string) (namespace : option string) (pod : json) (dry_run : DryRun)
  : M (result unit ApiError.t) :=
  match n with
  | O =>
      ret (Err (ApiError.DisruptionBudget
                  "the disruption budget kept changing while this eviction was judged; retry"))
  | S n =>
      let! listed := read (fun c => list_ c "policy" "v1" "PodDisruptionBudget" namespace) in
      match selecting pod listed with
      | [] => ret (Ok tt)
      | [(pdb_key, pdb)] =>
          let!? decision := ret (decide pod pdb (clock n)) in
          match decision with
          | DeletePod => ret (Ok tt)
          | Spend patch =>
              if is_dry dry_run then ret (Ok tt)
              else
                let! found := read (fun c => get_with_meta c pdb_key) in
                match found with
                | None => spend_budget n clock namespace pod dry_run
                | Some (_, meta) =>
                    let!? applied :=
                      propose_cmd sealer refusal_text births
                        (ResourceCommand.patch_cas pdb_key patch (Some (mod_revision meta)) Reason.Operator) in
                    if eqb (op applied) ResourceOp.Conflict then spend_budget n clock namespace pod dry_run
                    else ret (Ok tt)
                end
          end
      | _ =>
          ret (Err (ApiError.Internal
                      ("This pod has more than one PodDisruptionBudget, which the eviction " +:+
                       "subresource does not support.")))
      end
  end.

(** [no_subresource]. *)
Definition no_subresource (h : StoreBackedHandler) (sub name : string) : ApiError.t :=
  ApiError.NotFound
    ("the server could not find the requested resource: " +:+ h_kind h +:+ " " +:+ debug name +:+
     " does not serve subresource " +:+ debug sub).

Definition evict (h : StoreBackedHandler) (namespace : option string) (name : string) (eviction : Eviction)
    (user : UserInfo) (dry_run : DryRun) (clock : nat -> string) (now : string) : M (result unit ApiError.t) :=
  if negb (serves h Subresource.Eviction) then ret (Err (no_subresource h "eviction" name))
  else
    let dry_run := if ev_dry_run eviction then All else dry_run in
    let!? k := ret (handler_key debug h namespace name) in
    let! found := read (fun c => get_with_meta c k) in
    match found with
    | None => ret (Err (ApiError.NotFound ("pods " +:+ quoted name +:+ " not found")))
    | Some (pod, meta) =>
        if is_some_and (fun uid => negb (eqb ((jget "metadata" pod ≫= jget "uid") ≫= as_str) (Some uid))) (ev_uid eviction)
        then ret (Err (ApiError.ResourceVersionConflict
                         ("Operation cannot be fulfilled on pods " +:+ quoted name +:+
                          ": the UID in the precondition (" +:+ default "" (ev_uid eviction) +:+
                          ") does not match the UID in record")))
        else
          let!? expected :=
            ret (match ev_resource_version eviction with
                 | None => Ok None
                 | Some rv =>
                     match parse_unsigned Word.u64_max rv with
                     | Some r => Ok (Some r)
                     | None => Err (ApiError.BadRequest ("invalid resourceVersion precondition " +:+ debug rv))
                     end
                 end) in
          if is_some_and (fun rv => negb (rv =? mod_revision meta)) expected
          then ret (Err (rv_conflict h name expected))
          else
            let!? _ :=
              (if ignores_budgets pod then ret (Ok tt) else spend_budget ATTEMPTS clock namespace pod dry_run) in
            let!? _ :=
              delete_with_precondition debug sealer refusal_text births h namespace name expected user dry_run now in
            ret (Ok tt)
    end.

End Evict.

(** ** A budget is spent once *)

Section Spends.
Context `{SerdeJsonLaws} `{PatchSchemaEnv} `{OpDecoderLaws} `{Blake3} `{ErrorText}.

Lemma list_get c group version kind namespace k v : bt_sorted (resources c) ->
  In (k, v) (list_ c group version kind namespace) ->
  exists m, bt_get k (resources c) = Some (v, m) /\ Resource.kind k = kind.
Proof.
  intros Hs Hin. unfold list_, values_of in Hin. rewrite run_of_scope in Hin.
  apply in_map_iff in Hin as ([k' [v' m]] & E & Hin). simpl in E. injection E as -> ->.
  apply filter_In in Hin as [Hin Hc]. exists m. split; [by apply bt_get_In |].
  unfold contains in Hc. apply andb_true_iff in Hc as [Hc _]. apply andb_true_iff in Hc as [_ Hc].
  exact (proj1 (eqb_true _ _) Hc).
Qed.

(** A conditional patch at the revision the object has is the plain patch. *)
Lemma cas_is_patch sealer births c k p v m reason :
  bt_get k (resources c) = Some (v, m) ->
  propose sealer births c (ResourceCommand.patch_cas k p (Some (mod_revision m)) reason) =
  propose sealer births c (ResourceCommand.patch k p reason).
Proof.
  intros Hg. unfold propose.
  replace (write_refusal sealer c (ResourceCommand.patch_cas k p (Some (mod_revision m)) reason))
    with (write_refusal sealer c (ResourceCommand.patch k p reason)) by done.
  destruct (write_refusal _ _ _); [done |]. apply (f_equal Ok). unfold apply_logged, apply_under.
  cbn [command proposed semantics ResourceCommand.patch_cas ResourceCommand.patch ResourceCommand.patch_typed stamp_births].
  replace (unreadable_touched_by c (ResourceCommand.Patch k p PatchType.Merge None (Some (mod_revision m)) reason))
    with (unreadable_touched_by c (ResourceCommand.Patch k p PatchType.Merge None None reason)) by done.
  destruct (unreadable_touched_by c _); [done |]. 
  unfold apply_command, ResourceCommand.patch_cas, ResourceCommand.patch, ResourceCommand.patch_typed, apply_patch.
  rewrite (proj2 (eqb_false PatchType.Merge PatchType.Apply)) by done. rewrite Hg.
  cbn [check_precondition is_some_and]. by rewrite Z.eqb_refl.
Qed.

(** A plain patch is never in conflict. *)
Lemma patch_no_conflict sealer births c k p reason o c' :
  propose sealer births c (ResourceCommand.patch k p reason) = Ok (o, c') -> op o <> ResourceOp.Conflict.
Proof.
  unfold propose. destruct (write_refusal _ _ _); [done |]. intros [= E]. unfold apply_logged, apply_under in E.
  cbn [command proposed semantics] in E. destruct (unreadable_touched_by c _) as [[k' f]|]; [by injection E as <- _ |].
  pose proof (conflict_iff c (ResourceCommand.patch k p reason) (OnIdentical.under ApplySemantics.CURRENT)
    (next_revision (history c)) k None eq_refl) as Hc. cbn [check_precondition] in Hc.
  replace (stamp_births c (ResourceCommand.patch k p reason) births) with (ResourceCommand.patch k p reason) in E by done.
  destruct (apply_command _ _ _ _) as [o1 c1]. by injection E as <- _.
Qed.

(** What a delete leaves. *)
Lemma propose_delete_spec sealer births c k expected now o c' : bt_sorted (resources c) -> now <> "" ->
  propose sealer births c (ResourceCommand.delete_at k expected Reason.Operator (Some now)) = Ok (o, c') ->
  op o <> ResourceOp.Conflict ->
  (forall k', k' <> k -> get_with_meta c' k' = get_with_meta c k') /\
  match get c' k with None => True | Some v => is_some (deletion_timestamp_of v) = true end.
Proof.
  intros Hs Hnow Hp Hop. unfold propose in Hp. destruct (write_refusal _ _ _) eqn:Er; [done |]. injection Hp as E.
  unfold apply_logged, apply_under in E. cbn [command proposed semantics ResourceCommand.delete_at stamp_births] in E.
  unfold write_refusal in Er. destruct (sealer ≫= _); [done |].
  destruct (unreadable_touched_by c _); [done |].
  unfold apply_command, ResourceCommand.delete_at, apply_delete in E.
  unfold get_with_meta, get. destruct (check_precondition _ _); cbn [negb] in E; [| by injection E as <- <-].
  destruct (bt_get k (resources c)) as [[v m]|] eqn:Eg.
  2: { injection E as <- <-. split; [done |]. cbn. by rewrite Eg. }
  destruct (has_finalizers v) eqn:Ef; cbn [negb] in E.
  2: { cbn in E. injection E as <- <-. cbn. split; [intros k' Hk; by apply bt_get_remove_ne | by rewrite bt_get_remove_eq]. }
  destruct (is_some (deletion_timestamp_of v)) eqn:Ed.
  { injection E as <- <-. split; [done |]. cbn. by rewrite Eg. }
  cbn in E. injection E as <- <-. cbn. split; [intros k' Hk; by apply bt_get_insert_ne |]. rewrite bt_get_insert_eq. cbn.
  by rewrite (proj2 (terminating_fields v now _ Ef Hnow)).
Qed.

(** *** The judgement *)

Lemma decide_spend pod pdb now patch : decide pod pdb now = Ok (Spend patch) ->
  0 < allowance pdb /\ exists name, patch = spend_patch (allowance pdb) name now.
Proof.
  unfold decide. cbv zeta. destruct (_ && _); [done |]. destruct (match status_int _ _ with None => _ | Some _ => _ end); [done |].
  destruct (allowance pdb <? 0) eqn:E1; [done |]. destruct (allowance pdb =? 0) eqn:E2; [done |]. intros [= <-].
  apply Z.ltb_ge in E1. apply Z.eqb_neq in E2. split; [lia | by eexists].
Qed.

Lemma decide_delete pod pdb now : decide pod pdb now = Ok DeletePod -> pod_is_ready pod = false.
Proof.
  unfold decide. cbv zeta. destruct (negb (pod_is_ready pod)) eqn:E; [by apply negb_true_iff in E |]. cbn [andb].
  repeat case_match; done.
Qed.

Lemma allowance_range pdb : wf_json pdb = true -> Word.is_i64 (allowance pdb).
Proof.
  intros Hw. unfold allowance, status_int. destruct (jget "status" pdb) as [st|] eqn:Es; simpl; [| by vm_compute].
  destruct (jget "disruptionsAllowed" st) as [x|] eqn:Ex; simpl; [| by vm_compute].
  destruct (as_i64 x) as [z|] eqn:Ez; simpl; [| by vm_compute].
  apply (as_i64_range x z); [| done]. eapply wf_json_get; [| exact Ex]. exact (wf_json_get _ _ _ Hw Es).
Qed.

Definition spent_status (allowed : Z) (pod_name now : string) : btmap string json :=
  [("disruptedPods", jobj [(pod_name, JString now)]); ("disruptionsAllowed", JNumber (number_of_i64 (allowed - 1)))].

Lemma spend_patch_shape allowed pod_name now :
  spend_patch allowed pod_name now = JObject [("status", JObject (spent_status allowed pod_name now))].
Proof. done. Qed.

Lemma spend_patch_plain allowed pod_name now : Word.is_i64 (allowed - 1) -> plain_patch (spend_patch allowed pod_name now) = true.
Proof.
  intros Ha. rewrite spend_patch_shape. unfold plain_patch. cbn. by rewrite number_of_i64_ok.
Qed.

(** The budget as the patch leaves it. *)
Lemma spent_allowance pdb pod_name now : wf_json pdb = true -> 0 < allowance pdb ->
  (forall v, jget "status" v = jget "status" (merge_rfc7396 pdb (spend_patch (allowance pdb) pod_name now)) ->
   allowance v = allowance pdb - 1).
Proof.
  intros Hw Ha v Hv. pose proof (allowance_range pdb Hw) as Hr. unfold allowance at 1, status_int. rewrite Hv.
  rewrite spend_patch_shape, merge_jget by (done || by apply bt_sortedb_spec). cbn [bt_get].
  replace (cmp "status" "status") with Eq by done. cbn [mbind option_bind].
  rewrite merge_jget; [| | by apply bt_sortedb_spec].
  2: { destruct (jget "status" pdb) as [st|] eqn:Es; [| done]. exact (wf_json_get _ _ _ Hw Es). }
  unfold spent_status. replace (bt_get "disruptionsAllowed" _) with (Some (JNumber (number_of_i64 (allowance pdb - 1)))) by done.
  cbn [mbind option_bind merge_rfc7396]. rewrite as_i64_of_i64; [done |]. unfold Word.is_i64, Word.i64_min, Word.i64_max in *. lia.
Qed.

(** *** Without interference *)

Context (debug : string -> string) (sealer : option SealFault.t) (refusal_text : string * SealFault.t -> string)
  (births : string).

(** The budget after an eviction: spent once, or the pod was not worth any. *)
Definition budget_after (pod pdb pdb' : json) : Prop :=
  (0 < allowance pdb /\ allowance pdb' = allowance pdb - 1) \/ (pod_is_ready pod = false /\ pdb' = pdb).

Lemma propose_alone c cmd o w : propose_cmd sealer refusal_text births cmd (mkWorld c []) = (Ok o, w) ->
  exists c', w = mkWorld c' [] /\ propose sealer births c cmd = Ok (o, c').
Proof.
  unfold propose_cmd. cbn. destruct (propose sealer births c cmd) as [[o' c']|]; [| done]. intros [= -> <-]. by exists c'.
Qed.

Lemma spend_alone n clock namespace pod c log pdb_key pdb w :
  catalog_ok c log -> selecting pod (list_ c "policy" "v1" "PodDisruptionBudget" namespace) = [(pdb_key, pdb)] ->
  finalizers_released pdb = false ->
  spend_budget sealer refusal_text births (S n) clock namespace pod Off (mkWorld c []) = (Ok tt, w) ->
  exists c', w = mkWorld c' [] /\ bt_sorted (resources c') /\
    (forall k, k <> pdb_key -> get_with_meta c' k = get_with_meta c k) /\
    exists pdb', get c' pdb_key = Some pdb' /\ budget_after pod pdb pdb'.
Proof.
  intros Hok Hsel Hrel Hs. cbn [spend_budget] in Hs. unfold bind at 1, read at 1 in Hs. cbn [step_others others stored_catalog] in Hs.
  rewrite Hsel in Hs. assert (In (pdb_key, pdb) (list_ c "policy" "v1" "PodDisruptionBudget" namespace)) as Hin.
  { assert (In (pdb_key, pdb) (selecting pod (list_ c "policy" "v1" "PodDisruptionBudget" namespace))) as Hi
      by (rewrite Hsel; by left). by apply filter_In in Hi as [Hi _]. }
  destruct (list_get c _ _ _ _ _ _ (ok_sorted _ _ Hok) Hin) as (m & Hg & _).
  assert (get c pdb_key = Some pdb) as Hget by (unfold get; by rewrite Hg).
  apply bind_ok_inv in Hs as (d & w1 & Hd & Hs). unfold ret in Hd. injection Hd as Hd <-. destruct d as [|patch].
  { unfold ret in Hs. injection Hs as <-. exists c. split_and!; [done | apply Hok | done |].
    exists pdb. split; [done |]. right. split; [by eapply decide_delete | done]. }
  cbn [is_dry] in Hs. unfold bind at 1, read at 1 in Hs. cbn [step_others others stored_catalog] in Hs.
  unfold get_with_meta at 1 in Hs. rewrite Hg in Hs. apply bind_ok_inv in Hs as (o & w1 & Ho & Hs).
  apply propose_alone in Ho as (c' & -> & Hp). rewrite (cas_is_patch _ _ _ _ _ _ _ _ Hg) in Hp.
  destruct (decide_spend _ _ _ _ Hd) as (Hpos & pn & ->).
  pose proof (values_wf_get _ _ _ (ok_sorted _ _ Hok) (ok_values _ _ Hok) Hg) as Hw. simpl in Hw.
  destruct (propose_patch sealer births c pdb_key (spend_patch (allowance pdb) pn (clock n)) Reason.Operator pdb m o c' (ok_sorted _ _ Hok) (ok_values _ _ Hok) Hg)
    as (v' & m' & Hres & Hf & _ & _); [| done | done |].
  { apply spend_patch_plain. pose proof (allowance_range pdb Hw). unfold Word.is_i64, Word.i64_min, Word.i64_max in *. lia. }
  pose proof (patch_no_conflict _ _ _ _ _ _ _ _ Hp) as Hop.
  rewrite (proj2 (eqb_false _ _) Hop) in Hs. unfold ret in Hs. injection Hs as <-. exists c'. rewrite Hres.
  split_and!; [done | apply bt_insert_sorted, Hok | |].
  - intros k Hk. unfold get_with_meta. rewrite Hres. by apply bt_get_insert_ne.
  - exists v'. unfold get. rewrite Hres, bt_get_insert_eq. split; [done |]. left. split; [done |].
    apply (spent_allowance pdb pn (clock n) Hw Hpos). by apply Hf.
Qed.

(** A delete nobody interferes with. *)
Lemma delete_alone h namespace name expected user now c k v w : bt_sorted (resources c) ->
  handler_key debug h namespace name = Ok k -> now <> "" ->
  delete_with_precondition debug sealer refusal_text births h namespace name expected user Off now (mkWorld c []) = (Ok v, w) ->
  exists c', w = mkWorld c' [] /\ (forall k', k' <> k -> get_with_meta c' k' = get_with_meta c k') /\
    match get c' k with None => True | Some v => is_some (deletion_timestamp_of v) = true end.
Proof.
  intros Hs Hk Hnow Hd. unfold delete_with_precondition in Hd. rewrite Hk in Hd.
  apply bind_ok_inv in Hd as (k0 & w0 & Hk0 & Hd). unfold ret in Hk0. injection Hk0 as <- <-.
  apply bind_ok_inv in Hd as ([] & w1 & Hr & Hd).
  assert (w1 = mkWorld c []) as ->.
  { unfold review_delete in Hr. destruct (h_admission h); unfold bind, read, ret in Hr; by injection Hr; intros. }
  unfold bind at 1, read at 1 in Hd. cbn [step_others others stored_catalog is_dry] in Hd. cbv zeta in Hd.
  apply bind_ok_inv in Hd as (o & w2 & Ho & Hd). apply propose_alone in Ho as (c' & -> & Hp).
  destruct (eqb (op o) ResourceOp.Conflict) eqn:Eo; [done |].
  destruct (propose_delete_spec _ _ _ _ _ _ _ _ Hs Hnow Hp (proj1 (eqb_false _ _) Eo)) as [Hf Hg].
  exists c'. split_and!; [| done | done].
  destruct (eqb (op o) ResourceOp.DeletionPending); unfold bind, read, ret in Hd; by injection Hd; intros.
Qed.

Lemma spend_dry_reads n clock namespace pod :
  reads_only (spend_budget sealer refusal_text births n clock namespace pod All).
Proof.
  destruct n as [|n]; [apply reads_ret |]. cbn [spend_budget]. apply reads_bind; [apply reads_read | intros pdbs].
  destruct (selecting pod pdbs) as [|[k pdb] [|]]; try apply reads_ret.
  destruct (decide pod pdb _) as [[|patch]|]; apply reads_ret.
Qed.

Lemma evict_dry_reads h namespace name ev user clock now :
  reads_only (evict debug sealer refusal_text births h namespace name ev user All clock now).
Proof.
  unfold evict. destruct (negb _); [apply reads_ret |]. replace (if ev_dry_run ev then All else All) with All by (by destruct (ev_dry_run ev)).
  cbv zeta. apply reads_bind_ok; [apply reads_ret | intros k]. apply reads_bind; [apply reads_read |]. intros [[pod meta]|]; [| apply reads_ret].
  destruct (is_some_and _ (ev_uid ev)); [apply reads_ret |]. apply reads_bind_ok; [apply reads_ret | intros expected].
  destruct (is_some_and _ expected); [apply reads_ret |]. apply reads_bind_ok.
  - destruct (ignores_budgets pod); [apply reads_ret | apply spend_dry_reads].
  - intros _. apply reads_bind_ok; [apply delete_dry_reads | intros; apply reads_ret].
Qed.

Lemma steps_alone n c : Nat.iter n step_others (mkWorld c []) = mkWorld c [].
Proof. induction n as [|n IH]; [done |]. simpl. by rewrite IH. Qed.

Lemma evict_dry_alone h namespace name ev user dry clock now c r w :
  ev_dry_run ev || is_dry dry = true ->
  evict debug sealer refusal_text births h namespace name ev user dry clock now (mkWorld c []) = (r, w) ->
  stored_catalog w = c.
Proof.
  intros Hd He.
  assert (evict debug sealer refusal_text births h namespace name ev user dry clock now =
          evict debug sealer refusal_text births h namespace name ev user All clock now) as Ha.
  { unfold evict. destruct (ev_dry_run ev); [done |]. by destruct dry. }
  rewrite Ha in He. destruct (evict_dry_reads h namespace name ev user clock now (mkWorld c [])) as [n Hn].
  rewrite He, steps_alone in Hn. cbn [snd] in Hn. by subst.
Qed.

(** A selecting budget is stored, and is no pod. *)
Lemma selected_stored c log pod namespace pdb_key pdb :
  catalog_ok c log -> selecting pod (list_ c "policy" "v1" "PodDisruptionBudget" namespace) = [(pdb_key, pdb)] ->
  exists m, bt_get pdb_key (resources c) = Some (pdb, m).
Proof.
  intros Hok Hsel. assert (In (pdb_key, pdb) (selecting pod (list_ c "policy" "v1" "PodDisruptionBudget" namespace))) as Hi
    by (rewrite Hsel; by left).
  apply filter_In in Hi as [Hi _]. destruct (list_get c _ _ _ _ _ _ (ok_sorted _ _ Hok) Hi) as (m & Hm & _). by exists m.
Qed.

Lemma budget_is_no_pod h name c log k pod namespace pdb_key pdb :
  catalog_ok c log -> h_kind h = "Pod" -> handler_key debug h namespace name = Ok k ->
  selecting pod (list_ c "policy" "v1" "PodDisruptionBudget" namespace) = [(pdb_key, pdb)] -> pdb_key <> k.
Proof.
  intros Hok Hkind Hk Hsel ->. assert (In (k, pdb) (selecting pod (list_ c "policy" "v1" "PodDisruptionBudget" namespace))) as Hi
    by (rewrite Hsel; by left).
  apply filter_In in Hi as [Hi _]. destruct (list_get c _ _ _ _ _ _ (ok_sorted _ _ Hok) Hi) as (_ & _ & Hkk).
  unfold handler_key in Hk. destruct (negb _); [done |]. injection Hk as <-. destruct namespace; cbn in Hkk; congruence.
Qed.

(** What a granted eviction leaves: nothing changed in a dry run; else the
    selecting budget is as it was for a pod that ignores budgets, and spent once
    for another; and the pod is gone or on its way. *)
Definition evicted (dry : bool) (c : ResourceCatalog) (k : ResourceKey) (pod : json) (pdb_key : ResourceKey) (pdb : json)
    (after : ResourceCatalog) : Prop :=
  if dry then after = c
  else
    (exists pdb', get after pdb_key = Some pdb' /\
       if ignores_budgets pod then pdb' = pdb else budget_after pod pdb pdb') /\
    match get after k with None => True | Some v => is_some (deletion_timestamp_of v) = true end.

(** (C25) A granted eviction that nobody interferes with, of a pod one budget selects.
    In a dry run, asked for by the request or by the eviction, nothing changes.
    Otherwise the pod is gone or on its way; the budget is as it was where the pod
    ignores budgets (it is Pending, over, or already being deleted), and else it
    had a disruption to spare and has one less, or the pod was unready and it is as
    it was. *)
Theorem eviction_spends_one h namespace name ev user dry clock now c log k pod meta pdb_key pdb w :
  catalog_ok c log -> h_kind h = "Pod" -> handler_key debug h namespace name = Ok k -> now <> "" ->
  get_with_meta c k = Some (pod, meta) ->
  selecting pod (list_ c "policy" "v1" "PodDisruptionBudget" namespace) = [(pdb_key, pdb)] ->
  finalizers_released pdb = false ->
  evict debug sealer refusal_text births h namespace name ev user dry clock now (mkWorld c []) = (Ok tt, w) ->
  evicted (ev_dry_run ev || is_dry dry) c k pod pdb_key pdb (stored_catalog w).
Proof.
  intros Hok Hkind Hk Hnow Hpod Hsel Hrel He. unfold evicted.
  destruct (ev_dry_run ev || is_dry dry) eqn:Hdry; [by eapply evict_dry_alone |].
  apply orb_false_iff in Hdry as [Hdry Hoff]. destruct dry; [| done]. unfold evict in He.
  destruct (serves _ _); cbn [negb] in He; [| done].
  rewrite Hdry, Hk in He. cbv zeta in He. apply bind_ok_inv in He as (k0 & w0 & Hk0 & He). unfold ret in Hk0. injection Hk0 as <- <-.
  unfold bind at 1, read at 1 in He. cbn [step_others others stored_catalog] in He. rewrite Hpod in He.
  destruct (is_some_and _ (ev_uid ev)); [done |]. apply bind_ok_inv in He as (expected & w1 & Hx & He).
  unfold ret in Hx. injection Hx as _ <-. destruct (is_some_and _ expected); [done |].
  apply bind_ok_inv in He as ([] & w2 & Hs & He).
  assert (exists c1, w2 = mkWorld c1 [] /\ bt_sorted (resources c1) /\
    exists pdb', get c1 pdb_key = Some pdb' /\ if ignores_budgets pod then pdb' = pdb else budget_after pod pdb pdb')
    as (c1 & -> & Hs1 & pdb' & Hp' & Hb).
  { destruct (ignores_budgets pod).
    - unfold ret in Hs. injection Hs as <-. exists c. split_and!; [done | apply Hok |]. exists pdb. split; [| done].
      destruct (selected_stored _ _ _ _ _ _ Hok Hsel) as [m Hm]. unfold get, get_with_meta. by rewrite Hm.
    - destruct (spend_alone _ _ _ _ _ _ _ _ _ Hok Hsel Hrel Hs) as (c1 & -> & Hs1 & _ & Hp). eauto. }
  apply bind_ok_inv in He as (v & w3 & Hd & He). unfold ret in He. injection He as <-.
  assert (pdb_key <> k) as Hne by (by eapply budget_is_no_pod).
  destruct (delete_alone _ _ _ _ _ _ _ _ _ _ Hs1 Hk Hnow Hd) as (c2 & -> & Hfr & Hgone).
  split; [| exact Hgone]. exists pdb'. split; [| done]. cbn [stored_catalog]. unfold get in *.
  specialize (Hfr pdb_key Hne). unfold get_with_meta in Hfr. by rewrite Hfr.
Qed.

End Spends.

(** ** Witnesses *)

#[local] Existing Instance numbered.
#[local] Existing Instance numbered_laws.
#[local] Existing Instance sample_env.
#[local] Existing Instance sample_ops.
#[local] Existing Instance sample_ops_laws.
#[local] Existing Instance zero_blake3.
#[local] Existing Instance zero_blake3_laws.
#[local] Existing Instance sample_text.

Definition web_pod (name : string) : json :=
  jobj [("metadata", jobj [("name", JString name); ("labels", jobj [("app", JString "web")])]);
        ("status", jobj [("phase", JString "Running");
                         ("conditions", JArray [jobj [("type", JString "Ready"); ("status", JString "True")]])])].

Definition web_budget : json :=
  jobj [("metadata", jobj [("name", JString "web")]);
        ("spec", jobj [("selector", jobj [("matchLabels", jobj [("app", JString "web")])])]);
        ("status", jobj [("currentHealthy", JNumber (PosInt 3)); ("desiredHealthy", JNumber (PosInt 1));
                         ("disruptionsAllowed", JNumber (PosInt 2)); ("observedGeneration", JNumber (PosInt 1))])].

Definition web_key (name : string) : ResourceKey := namespaced "" "v1" "Pod" "default" name.
Definition budget_key : ResourceKey := namespaced "policy" "v1" "PodDisruptionBudget" "default" "web".

Definition web_entries : list LogEntry :=
  [entry (ResourceCommand.put (web_key "a") (web_pod "a") Reason.Operator) 1;
   entry (ResourceCommand.put (web_key "b") (web_pod "b") Reason.Operator) 2;
   entry (ResourceCommand.put budget_key web_budget Reason.Operator) 3].

Definition web_catalog : ResourceCatalog := (run empty web_entries).2.

Definition web_handler : StoreBackedHandler :=
  mkHandler "" "v1" "Pod" "pods" true [Subresource.Status; Subresource.Eviction] None false None.

(** The eviction of the pod [a]. *)
#[local] Abbreviation evict_a :=
  (evict (fun s => s) None (fun _ => "") "now" web_handler (Some "default") "a" (mkEviction None None false)
     (mkUserInfo "u" "" [] []) Off (fun _ => "now") "now").

Definition stored_at (c : ResourceCatalog) (k : ResourceKey) : json * VersionMeta :=
  default (JNull, created_at 0) (get_with_meta c k).

Lemma web_catalog_ok : exists log, catalog_ok web_catalog log.
Proof.
  eexists. refine (run_ok _ _ _ _ (run_correct web_entries empty [] (reaches_ok _ _ (reaches_fresh 16)) eq_refl _)).
  by vm_compute.
Qed.

Lemma eviction_spends_one_witness :
  exists w, evict_a (mkWorld web_catalog []) = (Ok tt, w) /\
  (exists pdb', get (stored_catalog w) budget_key = Some pdb' /\
     budget_after (stored_at web_catalog (web_key "a")).1 (stored_at web_catalog budget_key).1 pdb') /\
  allowance (stored_at (stored_catalog w) budget_key).1 = 1.
Proof.
  assert (is_ok (evict_a (mkWorld web_catalog [])).1 = true) as Hres by (by vm_compute).
  assert (allowance (stored_at (stored_catalog (evict_a (mkWorld web_catalog [])).2) budget_key).1 = 1) as Hallow by (by vm_compute).
  assert (get_with_meta web_catalog (web_key "a") =
    Some ((stored_at web_catalog (web_key "a")).1, (stored_at web_catalog (web_key "a")).2)) as Hpod by (by vm_compute).
  assert (selecting (stored_at web_catalog (web_key "a")).1
    (list_ web_catalog "policy" "v1" "PodDisruptionBudget" (Some "default")) =
    [(budget_key, (stored_at web_catalog budget_key).1)]) as Hsel by (by vm_compute).
  assert (finalizers_released (stored_at web_catalog budget_key).1 = false) as Hrel by (by vm_compute).
  assert (ignores_budgets (stored_at web_catalog (web_key "a")).1 = false) as Hig by (by vm_compute).
  destruct web_catalog_ok as [log Hok].
  revert Hres Hallow Hpod Hsel Hrel Hig. generalize (stored_at web_catalog (web_key "a")).1.
  generalize (stored_at web_catalog (web_key "a")).2. generalize (stored_at web_catalog budget_key).1.
  revert Hok. generalize web_catalog. intros c Hok pdb meta pod Hres Hallow Hpod Hsel Hrel Hig.
  destruct (evict_a (mkWorld c [])) as [[[]|] w] eqn:E; [| done]. cbn [fst snd] in Hallow. exists w.
  split; [done |]. split; [| done].
  pose proof (eviction_spends_one (fun s => s) None (fun _ => "") "now" web_handler (Some "default") "a"
    (mkEviction None None false) (mkUserInfo "u" "" [] []) Off (fun _ => "now") "now" c log (web_key "a") pod meta
    budget_key pdb w Hok eq_refl eq_refl ltac:(done) Hpod Hsel Hrel E) as Hev.
  unfold evicted in Hev. cbn [ev_dry_run is_dry orb] in Hev. rewrite Hig in Hev. exact (proj1 Hev).
Defined.

(** ** A budget spent twice for once

    The budget an eviction judges is read before the revision it is written
    back at: another eviction that commits in between is overwritten.  Two pods
    go, and of two disruptions the budget still allows one. *)

Definition evict_b_spends : LogEntry :=
  entry (ResourceCommand.patch_cas budget_key (spend_patch 2 "b" "now") (Some 3) Reason.Operator) 4.

Lemma budget_spent_twice :
  let w := mkWorld web_catalog [[]; []; [evict_b_spends]] in
  let out := evict_a w in
  allowance (stored_at web_catalog budget_key).1 = 2 /\
  allowance (stored_at (run web_catalog [evict_b_spends]).2 budget_key).1 = 1 /\
  out.1 = Ok tt /\ get (stored_catalog out.2) (web_key "a") = None /\
  allowance (stored_at (stored_catalog out.2) budget_key).1 = 1.
Proof. by vm_compute. Qed.
