(* ===== verification/Scale.v ===== *)
(** * The scale subresource

    [engenho-apiserver/src/scale.rs], and [get_scale], [put_scale] and
    [patch_scale] of [handler.rs]: a view of an object's replica counts, read
    through [engenho-types/src/spec_int.rs] and [int_at] of
    [engenho-controllers/src/meta.rs].

    [serde]'s derived decoding of a [Scale] is written out: a struct is read from
    an object, unknown keys ignored, or from an array by position; the text of its
    errors is a parameter. *)

From Stdlib Require Import Ascii String.
From stdpp Require Import base tactics option list strings numbers pretty.
From S2P Require Import Prelude Text BTreeMap Json Resource WatchHistory Command Read.
From S2P Require Import PatchApply PatchFacts Ssa SsaFacts Pagination Catalog CatalogMeta CatalogFacts CatalogTheorems CatalogReads.
From S2P Require Import Birth Mesh WatchBackend ApiErrors Coords Auth Params Handler WritePlan WriteFacts WriteRace Eviction.

Local Open Scope string_scope.
Local Open Scope Z_scope.
Local Open Scope handler_scope.

(** ** Integers of a spec *)

Inductive SpecInt : Type := AbsentInt | Int (n : Z) | Malformed (v : json).

Definition spec_int_of (field : option json) : SpecInt :=
  match field with
  | None | Some JNull => AbsentInt
  | Some v => match as_i64 v with Some n => Int n | None => Malformed v end
  end.

Fixpoint spec_int_at (here : json) (path : list string) : SpecInt :=
  match path with
  | [] => spec_int_of (Some here)
  | step :: path =>
      match here with
      | JNull => AbsentInt
      | JObject m => match bt_get step m with Some next => spec_int_at next path | None => AbsentInt end
      | _ => Malformed here
      end
  end.

(** [JsonKind]: what is found in the way. *)
Definition json_kind (v : json) : option string :=
  match v with
  | JNull => None
  | JBool _ => Some "a boolean"
  | JNumber _ => Some "a number"
  | JString _ => Some "a string"
  | JArray _ => Some "an array"
  | JObject _ => Some "an object"
  end.

(** [ShapeError::NotAnInteger]. *)
Record NotAnInteger : Type := mkNotAnInteger { nai_path : list string; nai_found : string }.

Definition not_an_integer_text (e : NotAnInteger) : string :=
  match nai_path e with [] => "the object itself" | p => String.concat "." p end +:+
  " is not an integer (found " +:+ nai_found e +:+ ")".

Definition int_at (object : json) (path : list string) : result (option Z) NotAnInteger :=
  match spec_int_at object path with
  | AbsentInt => Ok None
  | Int n => Ok (Some n)
  | Malformed v => match json_kind v with Some k => Err (mkNotAnInteger path k) | None => Ok None end
  end.

(** [DefaultedInt::read]. *)
Definition defaulted (path : list string) (absent : Z) (object : json) : result Z NotAnInteger :=
  result_map (default absent) (int_at object path).

Definition REPLICAS : json -> result Z NotAnInteger := defaulted ["spec"; "replicas"] 1.
Definition STATUS_REPLICAS : json -> result Z NotAnInteger := defaulted ["status"; "replicas"] 0.

(** ** The view *)

Record ScaleMeta : Type := mkScaleMeta {
  sm_name : string;
  sm_namespace : option string;
  sm_uid : option string;
  sm_resource_version : string;
  sm_creation_timestamp : option string
}.

Record Scale : Type := mkScale {
  s_api_version : string;
  s_kind : string;
  s_metadata : ScaleMeta;
  s_spec_replicas : Z;
  s_status_replicas : Z;
  s_selector : option string
}.

Definition no_meta : ScaleMeta := mkScaleMeta "" None None "" None.

Definition read_str (obj : json) (a b : string) : option string := (jget a obj ≫= jget b) ≫= as_str.

Section Text.
Context `{SerdeJson}.

(** [label_selector_to_string]: a map iterates in the order of its keys. *)
Definition label_selector_to_string (match_labels : json) : option string :=
  match as_object match_labels with
  | None | Some [] => None
  | Some obj =>
      Some (String.concat "," (map (fun e => e.1 +:+ "=" +:+ match e.2 with JString s => s | v => json_text v end) obj))
  end.

Definition project_scale (parent : json) : result Scale NotAnInteger :=
  let? spec_replicas := REPLICAS parent in
  let? status_replicas := STATUS_REPLICAS parent in
  Ok (mkScale "autoscaling/v1" "Scale"
        (mkScaleMeta (default "" (read_str parent "metadata" "name")) (read_str parent "metadata" "namespace")
           (read_str parent "metadata" "uid") (default "" (read_str parent "metadata" "resourceVersion"))
           (read_str parent "metadata" "creationTimestamp"))
        spec_replicas status_replicas
        (((jget "spec" parent ≫= jget "selector") ≫= jget "matchLabels") ≫= label_selector_to_string)).

(** [UnprojectableScale], as the error it becomes. *)
Definition unprojectable (e : NotAnInteger) : ApiError.t :=
  ApiError.Internal ("no Scale can be projected from this object: " +:+ not_an_integer_text e).

End Text.

(** *** As JSON *)

Definition opt_field (k : string) (v : option string) : list (string * json) :=
  match v with Some s => [(k, JString s)] | None => [] end.
Definition str_field (k s : string) : list (string * json) := if eqb s "" then [] else [(k, JString s)].

Definition scale_value (s : Scale) : json :=
  let m := s_metadata s in
  jobj [("apiVersion", JString (s_api_version s)); ("kind", JString (s_kind s));
        ("metadata", jobj (str_field "name" (sm_name m) ++ opt_field "namespace" (sm_namespace m) ++
                           opt_field "uid" (sm_uid m) ++ str_field "resourceVersion" (sm_resource_version m) ++
                           opt_field "creationTimestamp" (sm_creation_timestamp m))%list);
        ("spec", jobj [("replicas", JNumber (number_of_i64 (s_spec_replicas s)))]);
        ("status", jobj (("replicas", JNumber (number_of_i64 (s_status_replicas s))) :: opt_field "selector" (s_selector s)))].

(** The field [name], the [i]th of a struct of [n]; [None] when the value is no
    struct of that many. *)
Definition struct_field (n i : nat) (name : string) (v : json) : option (option json) :=
  match v with
  | JObject m => Some (bt_get name m)
  | JArray l => if (length l <=? n)%nat then Some (l !! i) else None
  | _ => None
  end.

Definition required_field {A} (de : json -> option A) (f : option (option json)) : option A :=
  match f with Some (Some v) => de v | _ => None end.

Definition default_field {A} (de : json -> option A) (d : A) (f : option (option json)) : option A :=
  match f with Some (Some v) => de v | Some None => Some d | None => None end.

Definition de_opt (v : json) : option (option string) :=
  match v with JNull => Some None | JString s => Some (Some s) | _ => None end.

Definition de_meta (v : json) : option ScaleMeta :=
  name ← default_field as_str "" (struct_field 5 0 "name" v);
  namespace ← default_field de_opt None (struct_field 5 1 "namespace" v);
  uid ← default_field de_opt None (struct_field 5 2 "uid" v);
  rv ← default_field as_str "" (struct_field 5 3 "resourceVersion" v);
  ts ← default_field de_opt None (struct_field 5 4 "creationTimestamp" v);
  Some (mkScaleMeta name namespace uid rv ts).

Definition de_spec (v : json) : option Z := default_field as_i64 0 (struct_field 1 0 "replicas" v).

Definition de_status (v : json) : option (Z * option string) :=
  replicas ← default_field as_i64 0 (struct_field 2 0 "replicas" v);
  selector ← default_field de_opt None (struct_field 2 1 "selector" v);
  Some (replicas, selector).

(** [serde_json::from_value::<Scale>]. *)
Definition de_scale (v : json) : option Scale :=
  version ← required_field as_str (struct_field 5 0 "apiVersion" v);
  kind ← required_field as_str (struct_field 5 1 "kind" v);
  meta ← default_field de_meta no_meta (struct_field 5 2 "metadata" v);
  spec ← default_field de_spec 0 (struct_field 5 3 "spec" v);
  status ← default_field de_status (0, None) (struct_field 5 4 "status" v);
  Some (mkScale version kind meta spec status.1 status.2).

(** ** The handlers *)

Definition replicas_patch (n : Z) : json := jobj [("spec", jobj [("replicas", JNumber (number_of_i64 n))])].

Section Handlers.
Context `{SerdeJson} `{PatchSchemaEnv} `{OpDecoder} `{Blake3} `{ErrorText}.
Context (debug : string -> string) (sealer : option SealFault.t) (refusal_text : string * SealFault.t -> string)
  (births : string) (value_text scale_error : json -> string).

Definition get_scale (h : StoreBackedHandler) (namespace : option string) (name : string) : M (result json ApiError.t) :=
  let!? k := ret (handler_key debug h namespace name) in
  let! live := read (fun c => get c k) in
  ret (match live with
       | None => Err (not_found h name)
       | Some live => result_map scale_value (result_map_err unprojectable (project_scale live))
       end).

Definition put_scale (h : StoreBackedHandler) (namespace : option string) (name : string) (incoming : json)
  : M (result json ApiError.t) :=
  let!? k := ret (handler_key debug h namespace name) in
  let! live := read (fun c => get c k) in
  match live with
  | None => ret (Err (not_found h name))
  | Some live =>
      let!? _ := ret (result_map_err unprojectable (project_scale live)) in
      let!? scale :=
        ret (ok_or (de_scale incoming) (ApiError.BadRequest ("invalid Scale body: " +:+ scale_error incoming))) in
      let expected :=
        match parse_unsigned Word.u64_max (sm_resource_version (s_metadata scale)) with
        | Some r => Some r
        | None => revision_of_value live
        end in
      let!? _ :=
        propose_scoped_patch sealer refusal_text births h k name (replicas_patch (s_spec_replicas scale)) expected in
      get_scale h namespace name
  end.

Definition patch_scale (h : StoreBackedHandler) (namespace : option string) (name : string) (patch : json)
    (patch_type : PatchType.t) : M (result json ApiError.t) :=
  let!? k := ret (handler_key debug h namespace name) in
  let! live := read (fun c => get c k) in
  match live with
  | None => ret (Err (not_found h name))
  | Some live =>
      let!? _ := ret (result_map_err unprojectable (project_scale live)) in
      let scoped :=
        match (jget "spec" patch ≫= jget "replicas") ≫= as_i64 with
        | Some n => replicas_patch n
        | None => JObject []
        end in
      let!? expected := ret (body_precondition debug value_text patch) in
      let!? _ := propose_scoped_patch sealer refusal_text births h k name scoped expected in
      get_scale h namespace name
  end.

End Handlers.

(** ** What a scoped patch does *)

Section Scoped.
Context `{SerdeJsonLaws} `{PatchSchemaEnv} `{OpDecoderLaws} `{Blake3} `{ErrorText}.
Context (debug : string -> string) (sealer : option SealFault.t) (refusal_text : string * SealFault.t -> string)
  (births : string) (value_text scale_error : json -> string).

(** A patch at the revision the object has, or at none, is the plain patch; at
    another it is in conflict. *)
Lemma scoped_is_patch c k p expected v m o c' : bt_get k (resources c) = Some (v, m) ->
  propose sealer births c (ResourceCommand.Patch k p PatchType.Merge None expected Reason.Operator) = Ok (o, c') ->
  op o <> ResourceOp.Conflict -> propose sealer births c (ResourceCommand.patch k p Reason.Operator) = Ok (o, c').
Proof.
  intros Hg Hp Hop. destruct expected as [r|]; [| done].
  destruct (mod_revision m =? r) eqn:Er.
  { apply Z.eqb_eq in Er as <-. by rewrite <- (cas_is_patch sealer births c k p v m Reason.Operator Hg). }
  exfalso. apply Hop. unfold propose in Hp. destruct (write_refusal _ _ _) eqn:Ew; [done |]. injection Hp as E.
  unfold apply_logged, apply_under in E. cbn [command proposed semantics stamp_births] in E.
  unfold write_refusal in Ew. destruct (sealer ≫= _); [done |]. destruct (unreadable_touched_by c _); [done |].
  pose proof (conflict_iff c (ResourceCommand.Patch k p PatchType.Merge None (Some r) Reason.Operator)
    (OnIdentical.under ApplySemantics.CURRENT) (next_revision (history c)) k (Some r) eq_refl) as Hc. cbv zeta in Hc.
  rewrite Hg in Hc. cbn [check_precondition is_some_and fmap option_fmap option_map snd] in Hc. rewrite Er in Hc.
  rewrite Hc in E. by injection E as <- _.
Qed.

Lemma scoped_alone h k name p expected c log v m answer w :
  catalog_ok c log -> get_with_meta c k = Some (v, m) -> plain_patch p = true -> finalizers_released v = false ->
  propose_scoped_patch sealer refusal_text births h k name p expected (mkWorld c []) = (Ok answer, w) ->
  exists c' v' m', w = mkWorld c' [] /\ resources c' = bt_insert k (v', m') (resources c) /\
    (forall f, f <> "metadata" -> jget f v' = jget f (merge_rfc7396 v p)) /\ answer = typed h v'.
Proof.
  intros Hok Hg Hp Hr Hs. unfold propose_scoped_patch, propose_scoped_patch_typed in Hs.
  apply bind_ok_inv in Hs as (o & w1 & Ho & Hs). apply (propose_alone sealer refusal_text births) in Ho as (c' & -> & Hpr).
  destruct (eqb (op o) ResourceOp.Conflict) eqn:Eo; [done |]. apply (proj1 (eqb_false _ _)) in Eo.
  pose proof (scoped_is_patch _ _ _ _ _ _ _ _ Hg Hpr Eo) as Hplain.
  destruct (propose_patch sealer births c k p Reason.Operator v m o c' (ok_sorted _ _ Hok) (ok_values _ _ Hok) Hg Hp Hr Hplain)
    as (v' & m' & Hres & Hf & _ & _).
  destruct (eqb (op o) ResourceOp.PatchRejected); [done |]. unfold bind, read, ret in Hs.
  cbn [step_others others stored_catalog] in Hs. unfold get in Hs. rewrite Hres, bt_get_insert_eq in Hs. cbn in Hs.
  injection Hs as <- <-. by exists c', v', m'.
Qed.

(** *** Replica counts *)

Lemma de_scale_replicas v s : wf_json v = true -> de_scale v = Some s -> Word.is_i64 (s_spec_replicas s).
Proof.
  intros Hw. unfold de_scale. intros (? & _ & E)%bind_Some. apply bind_Some in E as (? & _ & E).
  apply bind_Some in E as (? & _ & E). apply bind_Some in E as (n & En & E). apply bind_Some in E as (? & _ & [= <-]). simpl.
  unfold default_field in En. destruct (struct_field 5 3 "spec" v) as [[sp|]|] eqn:Es; [| injection En as <-; by vm_compute | done].
  assert (wf_json sp = true) as Hsp.
  { unfold struct_field in Es. destruct v as [| | | | l | m]; try done.
    - destruct (_ <=? _)%nat; [| done]. injection Es as Es. apply wf_json_array in Hw. exact (Forall_lookup_1 _ _ _ _ Hw Es).
    - injection Es as Es. exact (wf_json_get "spec" (JObject m) _ Hw Es). }
  unfold de_spec, default_field in En. destruct (struct_field 1 0 "replicas" sp) as [[y|]|] eqn:Ex; [| injection En as <-; by vm_compute | done].
  apply (as_i64_range y n); [| done]. unfold struct_field in Ex. destruct sp as [| | | | l | m]; try done.
  - destruct (_ <=? _)%nat; [| done]. injection Ex as Ex. apply wf_json_array in Hsp. exact (Forall_lookup_1 _ _ _ _ Hsp Ex).
  - injection Ex as Ex. exact (wf_json_get "replicas" (JObject m) _ Hsp Ex).
Qed.

(** The count a patch of replicas leaves, and the rest of the spec. *)
Lemma replicas_merged v v' n : wf_json v = true -> Word.is_i64 n ->
  jget "spec" v' = jget "spec" (merge_rfc7396 v (replicas_patch n)) ->
  REPLICAS v' = Ok n /\ (forall f, f <> "replicas" -> (jget "spec" v' ≫= jget f) = (jget "spec" v ≫= jget f)).
Proof.
  intros Hw Hn Hv. change (replicas_patch n) with (JObject [("spec", JObject [("replicas", JNumber (number_of_i64 n))])]) in Hv.
  rewrite merge_jget in Hv by (done || by apply bt_sortedb_spec). cbn [bt_get] in Hv.
  replace (cmp "spec" "spec") with Eq in Hv by done.
  set (sp := default JNull (jget "spec" v)) in *.
  assert (wf_json sp = true) as Hsp.
  { unfold sp. destruct (jget "spec" v) eqn:E; [| done]. exact (wf_json_get _ _ _ Hw E). }
  assert (forall f, jget f (merge_rfc7396 sp (JObject [("replicas", JNumber (number_of_i64 n))])) =
    if eqb f "replicas" then Some (JNumber (number_of_i64 n)) else jget f sp) as Hf.
  { intros f. rewrite merge_jget by (done || by apply bt_sortedb_spec). destruct (eqb f "replicas") eqn:E.
    - by apply (proj1 (eqb_true _ _)) in E as ->.
    - apply (proj1 (eqb_false _ _)) in E. cbn [bt_get]. destruct (cmp f "replicas") eqn:Ec; try done.
      by apply cmp_eq in Ec. }
  split.
  - unfold REPLICAS, defaulted, int_at. destruct v' as [| | | | | m']; try done. cbn [spec_int_at].
    change (bt_get "spec" m') with (jget "spec" (JObject m')). rewrite Hv.
    specialize (Hf "replicas"). rewrite eqb_refl in Hf.
    destruct (merge_rfc7396 sp _) as [| | | | | spm] eqn:Em; try done. cbn [jget] in Hf. rewrite Hf.
    cbn [spec_int_of]. by rewrite as_i64_of_i64.
  - intros f Hne. rewrite Hv. cbn [mbind option_bind]. rewrite Hf, (proj2 (eqb_false _ _) Hne).
    unfold sp. by destruct (jget "spec" v).
Qed.

Lemma replicas_patch_plain n : Word.is_i64 n -> plain_patch (replicas_patch n) = true.
Proof. intros Hn. unfold plain_patch. cbn. by rewrite number_of_i64_ok. Qed.

(** A scale that is put is the scale that is read back: the count asked for
    becomes the object's, the rest of its spec and every other field but the
    metadata are untouched, and the answer is the view of the object as stored. *)
Theorem scale_round_trip h namespace name incoming c log k live m v w :
  catalog_ok c log -> wf_json incoming = true -> handler_key debug h namespace name = Ok k ->
  get_with_meta c k = Some (live, m) -> finalizers_released live = false ->
  put_scale debug sealer refusal_text births scale_error h namespace name incoming (mkWorld c []) = (Ok v, w) ->
  exists scale live', de_scale incoming = Some scale /\ get (stored_catalog w) k = Some live' /\
    REPLICAS live' = Ok (s_spec_replicas scale) /\
    (forall f, f <> "metadata" -> f <> "spec" -> jget f live' = jget f live) /\
    (forall f, f <> "replicas" -> (jget "spec" live' ≫= jget f) = (jget "spec" live ≫= jget f)) /\
    result_map scale_value (project_scale live') = Ok v.
Proof.
  intros Hok Hwf Hk Hg Hr Hp. unfold put_scale in Hp. rewrite Hk in Hp.
  apply bind_ok_inv in Hp as (k0 & w0 & Hk0 & Hp). unfold ret in Hk0. injection Hk0 as <- <-.
  unfold bind at 1, read at 1 in Hp. cbn [step_others others stored_catalog] in Hp.
  assert (get c k = Some live) as Hget by (unfold get; unfold get_with_meta in Hg; by rewrite Hg). rewrite Hget in Hp.
  apply bind_ok_inv in Hp as (view & w1 & Hv & Hp). unfold ret in Hv. injection Hv as _ <-.
  apply bind_ok_inv in Hp as (scale & w2 & Hs & Hp). unfold ret in Hs. injection Hs as Hs <-.
  destruct (de_scale incoming) as [s|] eqn:Ed; [| done]. injection Hs as ->. cbv zeta in Hp.
  apply bind_ok_inv in Hp as (answer & w3 & Ha & Hp).
  pose proof (de_scale_replicas _ _ Hwf Ed) as Hn.
  destruct (scoped_alone _ _ _ _ _ _ _ _ _ _ _ Hok Hg (replicas_patch_plain _ Hn) Hr Ha) as (c' & v' & m' & -> & Hres & Hf & _).
  pose proof (values_wf_get _ _ _ (ok_sorted _ _ Hok) (ok_values _ _ Hok) Hg) as Hw. simpl in Hw.
  unfold get_scale in Hp. rewrite Hk in Hp. apply bind_ok_inv in Hp as (k1 & w4 & Hk1 & Hp). unfold ret in Hk1. injection Hk1 as <- <-.
  unfold bind, read, ret in Hp. cbn [step_others others stored_catalog] in Hp.
  assert (get c' k = Some v') as Hget' by (unfold get; by rewrite Hres, bt_get_insert_eq). rewrite Hget' in Hp.
  injection Hp as Hview <-. exists scale, v'. split; [done |]. split; [done |].
  destruct (replicas_merged live v' _ Hw Hn (Hf "spec" ltac:(done))) as [HR Hrest]. split_and!; [done | | done |].
  - intros f Hm Hsp. rewrite Hf by done.
    change (replicas_patch (s_spec_replicas scale)) with
      (JObject [("spec", JObject [("replicas", JNumber (number_of_i64 (s_spec_replicas scale)))])]).
    rewrite merge_jget by (done || by apply bt_sortedb_spec). cbn [bt_get]. destruct (cmp f "spec") eqn:Ec; try done.
    by apply cmp_eq in Ec.
  - destruct (project_scale v'); [| done]. by injection Hview as <-.
Qed.

End Scoped.

(** ** A witness *)

#[local] Existing Instance numbered.
#[local] Existing Instance numbered_laws.
#[local] Existing Instance sample_env.
#[local] Existing Instance sample_ops.
#[local] Existing Instance sample_ops_laws.
#[local] Existing Instance zero_blake3.
#[local] Existing Instance zero_blake3_laws.
#[local] Existing Instance sample_text.

Definition deploy_key : ResourceKey := namespaced "apps" "v1" "Deployment" "default" "web".

Definition put_deployment : ResourceCommand.t :=
  ResourceCommand.put deploy_key
    (jobj [("metadata", jobj [("name", JString "web")]);
           ("spec", jobj [("replicas", JNumber (PosInt 1)); ("paused", JBool true)])]) Reason.Operator.

Definition deploy_catalog : ResourceCatalog := (apply_logged empty (proposed put_deployment) 1 1).2.

Definition deployments : StoreBackedHandler :=
  mkHandler "apps" "v1" "Deployment" "deployments" true [Subresource.Status; Subresource.Scale] None false None.

Definition scale_to_3 : json :=
  jobj [("apiVersion", JString "autoscaling/v1"); ("kind", JString "Scale"); ("spec", jobj [("replicas", JNumber (PosInt 3))])].

Definition put_3 : result json ApiError.t * World :=
  put_scale (fun s => s) None (fun _ => "") "now" (fun _ => "") deployments (Some "default") "web" scale_to_3
    (mkWorld deploy_catalog []).

Lemma deploy_catalog_ok : exists log, catalog_ok deploy_catalog log.
Proof. eexists. apply (reaches_ok _ _ (reaches_apply _ [] (proposed put_deployment) 1 1 (reaches_fresh 16) eq_refl eq_refl)). Qed.

Lemma scale_round_trip_witness :
  exists v w live', put_3 = (Ok v, w) /\ get (stored_catalog w) deploy_key = Some live' /\ REPLICAS live' = Ok 3.
Proof.
  assert (is_ok put_3.1 = true) as Hok by (by vm_compute). destruct put_3 as [[v|] w] eqn:E; [| done].
  destruct deploy_catalog_ok as [log Hc].
  assert (get_with_meta deploy_catalog deploy_key =
    Some ((stored_at deploy_catalog deploy_key).1, (stored_at deploy_catalog deploy_key).2)) as Hg by (by vm_compute).
  destruct (scale_round_trip (fun s => s) None (fun _ => "") "now" (fun _ => "") deployments (Some "default") "web" scale_to_3
    deploy_catalog log deploy_key _ _ v w Hc eq_refl eq_refl Hg ltac:(by vm_compute) E) as (scale & live' & Hd & Hl & Hr & _).
  exists v, w, live'. split; [done |]. split; [done |]. rewrite Hr. by injection Hd as <-.
Defined.

(** ** A patch that scales nothing

    Only the merge form of a patch is read: a JSON patch of the count is answered
    like any other, and changes nothing. *)

Definition replace_replicas : json :=
  JArray [jobj [("op", JString "replace"); ("path", JString "/spec/replicas"); ("value", JNumber (PosInt 3))]].

Lemma json_patch_scales_nothing :
  let out := patch_scale (fun s => s) None (fun _ => "") "now" (fun _ => "") deployments (Some "default") "web"
               replace_replicas PatchType.Json (mkWorld deploy_catalog []) in
  is_ok out.1 = true /\ (REPLICAS <$> get (stored_catalog out.2) deploy_key) = Some (Ok 1).
Proof. by vm_compute. Qed.

(** ** What a status write may change

    [put_status] and [patch_status] of [engenho-apiserver/src/handler.rs]. *)

Section Status.
Context `{SerdeJsonLaws} `{PatchSchemaEnv} `{OpDecoderLaws} `{Blake3} `{ErrorText}.
Context (debug : string -> string) (sealer : option SealFault.t) (refusal_text : string * SealFault.t -> string)
  (births : string) (value_text : json -> string).

(** The status a PUT leaves. *)
Definition status_put (old incoming : option json) : option json :=
  match incoming with
  | None | Some JNull => None
  | Some s => Some (merge_rfc7396 (default JNull old) s)
  end.

(** A status PUT writes the status and nothing else but the metadata the store
    keeps; the status it leaves is the old one with the new one merged into it,
    or none when the body has none. *)
Theorem status_put_scoped h namespace name incoming c log k live m v w :
  catalog_ok c log -> wf_json incoming = true -> handler_key debug h namespace name = Ok k ->
  get_with_meta c k = Some (live, m) -> finalizers_released live = false ->
  put_status debug sealer refusal_text births value_text h namespace name incoming (mkWorld c []) = (Ok v, w) ->
  exists live', get (stored_catalog w) k = Some live' /\ v = typed h live' /\
    jget "status" live' = status_put (jget "status" live) (jget "status" incoming) /\
    (forall f, f <> "metadata" -> f <> "status" -> jget f live' = jget f live).
Proof.
  intros Hok Hwf Hk Hg Hr Hp. unfold put_status in Hp. rewrite Hk in Hp.
  apply bind_ok_inv in Hp as (k0 & w0 & Hk0 & Hp). unfold ret in Hk0. injection Hk0 as <- <-.
  unfold bind at 1, read at 1 in Hp. cbn [step_others others stored_catalog] in Hp.
  assert (get c k = Some live) as Hget by (unfold get; unfold get_with_meta in Hg; by rewrite Hg). rewrite Hget in Hp.
  apply bind_ok_inv in Hp as (client & w1 & Hc & Hp). unfold ret in Hc. injection Hc as _ <-. cbv zeta in Hp.
  set (s := default JNull (jget "status" incoming)) in *.
  assert (wf_json s = true) as Hs.
  { unfold s. destruct (jget "status" incoming) eqn:E; [| done]. exact (wf_json_get _ _ _ Hwf E). }
  assert (plain_patch (jobj [("status", s)]) = true) as Hplain.
  { unfold plain_patch. change (jobj [("status", s)]) with (JObject [("status", s)]). cbn. by rewrite Hs. }
  destruct (scoped_alone _ _ _ _ _ _ _ _ _ _ _ _ _ _ Hok Hg Hplain Hr Hp) as (c' & v' & m' & -> & Hres & Hf & ->).
  pose proof (values_wf_get _ _ _ (ok_sorted _ _ Hok) (ok_values _ _ Hok) Hg) as Hw. simpl in Hw.
  change (jobj [("status", s)]) with (JObject [("status", s)]) in Hf.
  exists v'. split; [by unfold get; cbn [stored_catalog]; rewrite Hres, bt_get_insert_eq |]. split; [done |]. split.
  - rewrite Hf, merge_jget by (done || by apply bt_sortedb_spec). cbn [bt_get]. replace (cmp "status" "status") with Eq by done.
    unfold status_put, s. destruct (jget "status" incoming) as [[]|]; done.
  - intros f Hm Hst. rewrite Hf, merge_jget by (done || by apply bt_sortedb_spec). cbn [bt_get].
    destruct (cmp f "status") eqn:Ec; try done. by apply cmp_eq in Ec.
Qed.

End Status.

(** ** A witness, and what a PUT keeps *)

#[local] Existing Instance numbered.
#[local] Existing Instance numbered_laws.
#[local] Existing Instance sample_env.
#[local] Existing Instance sample_ops.
#[local] Existing Instance sample_ops_laws.
#[local] Existing Instance zero_blake3.
#[local] Existing Instance zero_blake3_laws.
#[local] Existing Instance sample_text.

(** A status without the two fields the stored one has. *)
Definition new_status : json := jobj [("status", jobj [("disruptionsAllowed", JNumber (PosInt 0))])].

Definition budgets : StoreBackedHandler :=
  mkHandler "policy" "v1" "PodDisruptionBudget" "poddisruptionbudgets" true [Subresource.Status] None false None.

Definition put_budget_status : result json ApiError.t * World :=
  put_status (fun s => s) None (fun _ => "") "now" (fun _ => "") budgets (Some "default") "web" new_status
    (mkWorld web_catalog []).

(** The fields of the stored status the body leaves out survive: the whole
    object is not replaced. *)
Lemma status_put_scoped_witness :
  exists v w live', put_budget_status = (Ok v, w) /\ get (stored_catalog w) budget_key = Some live' /\
    status_int live' "disruptionsAllowed" = Some 0 /\ status_int live' "currentHealthy" = Some 3.
Proof.
  assert (is_ok put_budget_status.1 = true) as Hok by (by vm_compute).
  destruct put_budget_status as [[v|] w] eqn:E; [| done]. destruct web_catalog_ok as [log Hc].
  assert (get_with_meta web_catalog budget_key =
    Some ((stored_at web_catalog budget_key).1, (stored_at web_catalog budget_key).2)) as Hg by (by vm_compute).
  destruct (status_put_scoped (fun s => s) None (fun _ => "") "now" (fun _ => "") budgets (Some "default") "web" new_status
    web_catalog log budget_key _ _ v w Hc eq_refl eq_refl Hg ltac:(by vm_compute) E) as (live' & Hl & _ & Hs & _).
  exists v, w, live'. split; [done |]. split; [done |]. unfold status_int. rewrite Hs. by vm_compute.
Defined.

(** ** A status patch that takes from the spec

    The paths a JSON patch writes to are checked, the path it moves from is not. *)

Definition move_patch : json :=
  JArray [jobj [("op", JString "move"); ("from", JString "/spec/selector"); ("path", JString "/status/selector")]].

(** A decoder that reads this operation. *)
Definition move_decoder : OpDecoder := {|
  decode_ops v := if eqb v move_patch then Ok [JsonPatchOp.Move "/spec/selector" "/status/selector"] else Err "not this patch"
|}.

Lemma status_patch_moves_spec :
  let out := @patch_status numbered sample_env move_decoder zero_blake3 sample_text (fun s => s) None (fun _ => "") "now"
               (fun _ => "") budgets (Some "default") "web" move_patch PatchType.Json (mkWorld web_catalog []) in
  is_ok out.1 = true /\
  (jget "spec" (stored_at web_catalog budget_key).1 ≫= jget "selector") <> None /\
  (jget "spec" (stored_at (stored_catalog out.2) budget_key).1 ≫= jget "selector") = None.
Proof. by vm_compute. Qed.
