(* ===== verification/Accept.v ===== *)
(** * The Accept header

    [engenho-apiserver/src/accept.rs]: media ranges with their weights, the order
    they are tried in, and the serialization a header selects; [accept_wants_table]
    and [accept_wants_partial_metadata] of [table.rs] and
    [ResponseCodec::from_headers] of [router.rs].

    A weight is an [f32]: reading one ([f32::from_str]) rounds the decimal to the
    nearest float, ties to even, and [>] is the comparison of IEEE 754. *)

From Stdlib Require Import Ascii String Sorted.
From stdpp Require Import base tactics option list strings numbers.
From S2P Require Import Prelude Text ApiErrors.

Local Open Scope string_scope.
Local Open Scope Z_scope.

(** ** [f32] *)

(** [Fin m e] is [m * 2^e]. *)
Inductive f32 : Type := NaN | Inf (negative : bool) | Fin (m e : Z).

(** [num / den] scaled down by [2^e], as a fraction. *)
Definition scaled (num den e : Z) : Z * Z :=
  if 0 <=? e then (num, den * 2 ^ e) else (num * 2 ^ (- e), den).

(** The integer nearest to a fraction, ties to even. *)
Definition nearest_even (num den : Z) : Z :=
  let q := num / den in
  let r := num mod den in
  match 2 * r ?= den with
  | Lt => q
  | Gt => q + 1
  | Eq => if Z.even q then q else q + 1
  end.

(** The exponent of the unit in the last place of [num / den]. *)
Definition unit_exponent (num den : Z) : Z :=
  let e := Z.log2 num - Z.log2 den in
  let '(n, d) := scaled num den e in
  Z.max ((if n <? d then e - 1 else e) - 23) (-149).

Definition round_f32 (negative : bool) (num den : Z) : f32 :=
  if num =? 0 then Fin 0 0
  else
    let e := unit_exponent num den in
    let '(n, d) := scaled num den e in
    let m := nearest_even n d in
    if (0 <=? e) && (2 ^ 128 <=? m * 2 ^ e) then Inf negative else Fin (if negative then - m else m) e.

Definition all_digits (s : string) : option Z :=
  if str_all is_ascii_digit s
  then Some (fold_left (fun acc c => acc * 10 + default 0 (digit c)) (list_ascii_of_string s) 0) else None.

(** The decimal exponent of a literal, when it has one. *)
Definition parse_exponent (s : string) : option Z :=
  match s with
  | "" => None
  | String "+" t => if eqb t "" then None else all_digits t
  | String "-" t => if eqb t "" then None else Z.opp <$> all_digits t
  | _ => all_digits s
  end.

Definition split_exponent (s : string) : option (string * Z) :=
  let '(mantissa, rest) := span_while (fun c => negb (Ascii.eqb (ascii_lower c) "e")) s in
  match rest with
  | "" => Some (mantissa, 0)
  | String _ e => (fun x => (mantissa, x)) <$> parse_exponent e
  end.

(** Digits with at most one point among them and at least one digit. *)
Definition parse_decimal (negative : bool) (s : string) : option f32 :=
  '(mantissa, x) ← split_exponent s;
  let '(whole, fraction) := default (mantissa, "") (split_once "." mantissa) in
  if eqb whole "" && eqb fraction "" then None
  else
    n ← all_digits (whole +:+ fraction);
    let x := x - Z.of_nat (String.length fraction) in
    Some (if 0 <=? x then round_f32 negative (n * 10 ^ x) 1 else round_f32 negative n (10 ^ (- x))).

Definition parse_unsigned_f32 (negative : bool) (s : string) : option f32 :=
  let word := to_ascii_lowercase s in
  if eqb word "nan" then Some NaN
  else if eqb word "inf" || eqb word "infinity" then Some (Inf negative)
  else parse_decimal negative s.

(** [f32::from_str]. *)
Definition parse_f32 (s : string) : option f32 :=
  match s with
  | String "+" t => parse_unsigned_f32 false t
  | String "-" t => parse_unsigned_f32 true t
  | _ => parse_unsigned_f32 false s
  end.

Definition f32_one : f32 := Fin 1 0.
Definition f32_zero : f32 := Fin 0 0.

Definition f32_gt (a b : f32) : bool :=
  match a, b with
  | NaN, _ | _, NaN => false
  | Inf na, Inf nb => negb na && nb
  | Inf na, Fin _ _ => negb na
  | Fin _ _, Inf nb => nb
  | Fin m e, Fin m' e' => let lo := Z.min e e' in m' * 2 ^ (e' - lo) <? m * 2 ^ (e - lo)
  end.

(** ** Ranges *)

Inductive Served : Type := SJson | SYaml | SProtobuf.

Definition all_served : list Served := [SJson; SYaml; SProtobuf].

Definition CONTENT_TYPE_PROTOBUF : string := "application/vnd.kubernetes.protobuf".

Definition media_type (s : Served) : string :=
  match s with SJson => "application/json" | SYaml => "application/yaml" | SProtobuf => CONTENT_TYPE_PROTOBUF end.

Record AcceptRange : Type := mkRange { r_kind : string; r_subtype : string; r_q : f32 }.

(** [nextSplitElement]: nothing after the separator is no rest. *)
Definition split_next (s : string) (sep : ascii) : string * option string :=
  match split_once sep s with
  | Some (head, tail) => (head, if eqb tail "" then None else Some tail)
  | None => (s, None)
  end.

(** [trim_matches(' ')]. *)
Definition trim_spaces (s : string) : string :=
  let drop s := (span_while (fun c => Ascii.eqb c " ") s).2 in String.rev (drop (String.rev (drop s))).

(** The parts at a separator, one unit of fuel for each. *)
Fixpoint parts_of (fuel : nat) (sep : ascii) (rest : option string) : list string :=
  match fuel, rest with
  | S fuel, Some s => let '(part, next) := split_next s sep in part :: parts_of fuel sep next
  | _, _ => []
  end.

(** One parameter of a range, over the weight before it. *)
Definition parameter (q : f32) (param : string) : f32 :=
  match split_next param "=" with
  | (token, Some value) =>
      match split_next value "=" with
      | (value, None) => if eqb (trim_spaces token) "q" then default f32_zero (parse_f32 value) else q
      | (_, Some _) => q
      end
  | (_, None) => q
  end.

Definition parameters (params : option string) : f32 :=
  fold_left parameter (parts_of (S (String.length (default "" params))) ";" params) f32_one.

Definition range_parse (part : string) : option AcceptRange :=
  let '(media, params) := split_next (trim_spaces part) ";" in
  let '(kind, rest) := split_next media "/" in
  let kind := trim_spaces kind in
  let subtype :=
    match rest with
    | None => if eqb kind "*" then Some "*" else None
    | Some rest => match split_next rest "/" with (_, Some _) => None | (subtype, None) => Some (trim_spaces subtype) end
    end in
  (fun subtype => mkRange kind subtype (parameters params)) <$> subtype.

Definition ranks_before (a b : AcceptRange) : bool :=
  f32_gt (r_q a) (r_q b) || (negb (eqb (r_kind a) "*") && eqb (r_kind b) "*") ||
  (negb (eqb (r_subtype a) "*") && eqb (r_subtype b) "*").

Definition eq_ignore_ascii_case (a b : string) : bool := eqb (to_ascii_lowercase a) (to_ascii_lowercase b).

Definition takes (r : AcceptRange) (s : Served) : bool :=
  let '(kind, subtype) := default (media_type s, "") (split_once "/" (media_type s)) in
  (eqb (r_kind r) "*" && eqb (r_subtype r) "*") ||
  (eq_ignore_ascii_case (r_kind r) kind && (eqb (r_subtype r) "*" || eq_ignore_ascii_case (r_subtype r) subtype)).

Definition serialization (r : AcceptRange) : option Served := List.find (takes r) all_served.

(** The comma-separated parts. *)
Definition parts (accept : string) : list string :=
  parts_of (S (String.length accept)) "," (if eqb accept "" then None else Some accept).

Definition ranges (accept : string) : list AcceptRange := omap range_parse (parts accept).

(** [ranked]: the inner loop carries a range back past those it ranks before;
    [sunk] are the ranges before it, last first. *)
Fixpoint sink (r : AcceptRange) (sunk : list AcceptRange) : list AcceptRange :=
  match sunk with
  | prev :: sunk => if ranks_before r prev then prev :: sink r sunk else r :: prev :: sunk
  | [] => [r]
  end.

Definition ranked (accept : string) : list AcceptRange :=
  rev (fold_left (fun sunk r => sink r sunk) (ranges accept) []).

(** [Iterator::find_map]. *)
Fixpoint find_map {A B} (f : A -> option B) (l : list A) : option B :=
  match l with [] => None | x :: l => match f x with Some y => Some y | None => find_map f l end end.

Definition negotiate (accept : string) : option Served := find_map serialization (ranked accept).

Definition admits (accept : string) (s : Served) : bool := existsb (fun r => takes r s) (ranges accept).

(** ** The codec of a response *)

Definition asks_for (conversion accept : string) : bool :=
  existsb (fun range => let lower := to_ascii_lowercase range in
             str_contains conversion lower && str_contains "g=meta.k8s.io" lower) (split_char "," accept).

Definition accept_wants_table : string -> bool := asks_for "as=table".
Definition accept_wants_partial_metadata : string -> bool := asks_for "as=partialobjectmetadata".

Inductive ResponseCodec : Type :=
  | CJson
  | CProtobuf (json_admitted : bool)
  | CTable
  | CPartialMetadata.

(** [ResponseCodec::from_headers], of the header's text when it has one. *)
Definition codec_from_headers (accept : option string) : result ResponseCodec ApiError.t :=
  let accept := default "" accept in
  let negotiated := negotiate accept in
  if negb (eqb (trim accept) "") && negb (is_some negotiated)
  then Err (ApiError.NotAcceptable ("only the following media types are acceptable: application/json, application/yaml, " +:+
              CONTENT_TYPE_PROTOBUF +:+ "; got " +:+ accept))
  else if accept_wants_table accept then Ok CTable
  else if accept_wants_partial_metadata accept then Ok CPartialMetadata
  else
    match negotiated with
    | Some SProtobuf => Ok (CProtobuf (admits accept SJson))
    | _ => Ok CJson
    end.

(** ** What a header selects *)

Example weights :
  (parse_f32 "0.5", parse_f32 "1", parse_f32 " 0.5", parse_f32 "1e-50", parse_f32 "16777217", parse_f32 ".") =
  (Some (Fin 8388608 (-24)), Some (Fin 8388608 (-23)), None, Some (Fin 0 (-149)), Some (Fin 8388608 1), None).
Proof. vm_compute. reflexivity. Qed.

(** The fuel is enough: the parts are those of [str::split], less one empty
    part at the end. *)
Lemma split_once_char sep s :
  match split_once sep s with
  | Some (a, b) => split_char sep s = a :: split_char sep b /\ (String.length b < String.length s)%nat
  | None => split_char sep s = [s]
  end.
Proof.
  induction s as [|x s IH]; [done |]. cbn [split_once split_char]. destruct (Ascii.eqb x sep); [split; [done | simpl; lia] |].
  destruct (split_once sep s) as [[a b]|]; [destruct IH as [-> Hl] | rewrite IH]; [| done]. simpl. split; [done | lia].
Qed.

Lemma parts_of_exact fuel sep s :
  s <> "" -> (String.length s < fuel)%nat ->
  exists end_, split_char sep s = (parts_of fuel sep (Some s) ++ end_)%list /\ (end_ = [] \/ end_ = [""]).
Proof.
  revert s. induction fuel as [|fuel IH]; intros s Hne Hf; [lia |]. cbn [parts_of]. unfold split_next.
  pose proof (split_once_char sep s) as Hs. destruct (split_once sep s) as [[a b]|].
  - destruct Hs as [-> Hl]. destruct (eqb b "") eqn:Eb.
    + apply (proj1 (eqb_true _ _)) in Eb as ->. exists [""]. destruct fuel; cbn; auto.
    + apply eqb_false in Eb. destruct (IH b Eb ltac:(lia)) as (end_ & -> & He). by exists end_.
  - rewrite Hs. exists []. split; [| by left]. destruct fuel; done.
Qed.

(** *** Weights in order *)

Lemma f32_gt_at lo m e m' e' :
  lo <= e -> lo <= e' -> f32_gt (Fin m e) (Fin m' e') = (m' * 2 ^ (e' - lo) <? m * 2 ^ (e - lo)).
Proof.
  intros He He'. cbn [f32_gt]. set (l := Z.min e e').
  replace (e' - lo) with ((e' - l) + (l - lo)) by lia. replace (e - lo) with ((e - l) + (l - lo)) by lia.
  rewrite !Z.pow_add_r, !Z.mul_assoc by lia.
  apply eq_true_iff_eq. rewrite !Z.ltb_lt. apply Z.mul_lt_mono_pos_r. apply Z.pow_pos_nonneg; lia.
Qed.

Definition is_weight (q : f32) : bool := match q with NaN => false | _ => true end.

(** Weights that are numbers are a total preorder. *)
Lemma f32_ge_trans a b c :
  is_weight a = true -> is_weight b = true -> is_weight c = true ->
  f32_gt b a = false -> f32_gt c b = false -> f32_gt c a = false.
Proof.
  destruct a as [|na|ma ea], b as [|nb|mb eb], c as [|nc|mc ec]; try done; try (by destruct na, nb, nc);
    try (by destruct na, nb); try (by destruct nb, nc); try (by destruct na, nc); try (by destruct na); try (by destruct nb);
    try (by destruct nc).
  intros _ _ _. set (lo := Z.min ea (Z.min eb ec)).
  rewrite !(f32_gt_at lo) by lia. rewrite !Z.ltb_ge. lia.
Qed.

Lemma f32_gt_ge a b : f32_gt a b = true -> f32_gt b a = false.
Proof.
  destruct a as [|na|ma ea], b as [|nb|mb eb]; try done; try (by destruct na); try (by destruct nb); try (by destruct na, nb).
  rewrite !(f32_gt_at (Z.min ea eb)) by lia. rewrite Z.ltb_lt, Z.ltb_ge. lia.
Qed.

(** *** The order of the ranges *)

Lemma sink_perm r l : sink r l ≡ₚ r :: l.
Proof.
  induction l as [|prev l IH]; simpl; [done |]. destruct (ranks_before r prev); [| done]. rewrite IH. constructor.
Qed.

Definition sunk (l : list AcceptRange) : list AcceptRange := fold_left (fun sunk r => sink r sunk) l [].

Lemma sunk_snoc l r : sunk (l ++ [r])%list = sink r (sunk l).
Proof. unfold sunk. by rewrite fold_left_app. Qed.

Lemma sunk_perm l : sunk l ≡ₚ l.
Proof.
  induction l as [|r l IH] using rev_ind; [done |]. rewrite sunk_snoc, sink_perm, IH. apply Permutation_cons_append.
Qed.

(** Where the range ends up: past those it ranks before. *)
Lemma sink_split r l : exists after_ before_, l = (after_ ++ before_)%list /\ sink r l = (after_ ++ r :: before_)%list /\
  Forall (fun x => ranks_before r x = true) after_ /\
  match before_ with x :: _ => ranks_before r x = false | [] => True end.
Proof.
  induction l as [|x l IH]; simpl; [by exists [], [] |]. destruct (ranks_before r x) eqn:E.
  - destruct IH as (a & b & -> & -> & Ha & Hb). exists (x :: a), b. split_and!; [done | done | by constructor | done].
  - by exists [], (x :: l).
Qed.

Lemma find_map_app {A B} (f : A -> option B) l k :
  find_map f (l ++ k)%list = match find_map f l with Some y => Some y | None => find_map f k end.
Proof. induction l as [|x l IH]; simpl; [done |]. by destruct (f x). Qed.

Lemma find_map_None {A B} (f : A -> option B) l : find_map f l = None <-> Forall (fun x => f x = None) l.
Proof.
  induction l as [|x l IH]; simpl; [by split |]. rewrite List.Forall_cons_iff. destruct (f x); [split; [done | naive_solver] |].
  rewrite IH. naive_solver.
Qed.

Lemma find_map_Some {A B} (f : A -> option B) l y :
  find_map f l = Some y -> exists l1 x l2, l = (l1 ++ x :: l2)%list /\ f x = Some y /\ Forall (fun z => f z = None) l1.
Proof.
  induction l as [|x l IH]; simpl; [done |]. destruct (f x) eqn:E; [intros [= ->]; by exists [], x, l |].
  intros H. destruct (IH H) as (l1 & z & l2 & -> & Hz & Hl). exists (x :: l1), z, l2. split_and!; [done | done | by constructor].
Qed.

(** A range that names a type and a subtype, with a weight that is a number. *)
Definition concrete (r : AcceptRange) : bool :=
  negb (eqb (r_kind r) "*") && negb (eqb (r_subtype r) "*") && is_weight (r_q r).

Lemma concrete_ranks a b : concrete a = true -> concrete b = true -> ranks_before a b = f32_gt (r_q a) (r_q b).
Proof.
  unfold concrete, ranks_before. rewrite !andb_true_iff, !negb_true_iff. intros [[-> ->] _] [[-> ->] _].
  by rewrite !andb_false_r, !orb_false_r.
Qed.

Definition no_heavier (x y : AcceptRange) : Prop := f32_gt (r_q x) (r_q y) = false.

Lemma no_heavier_trans x y z :
  concrete x = true -> concrete y = true -> concrete z = true -> no_heavier x y -> no_heavier y z -> no_heavier x z.
Proof.
  unfold concrete. rewrite !andb_true_iff. intros [_ Hx] [_ Hy] [_ Hz] Hxy Hyz. by apply (f32_ge_trans _ (r_q y)).
Qed.

Lemma sink_sorted r l :
  concrete r = true -> Forall (fun x => concrete x = true) l -> StronglySorted no_heavier l ->
  StronglySorted no_heavier (sink r l) /\
  exists after_ before_, l = (after_ ++ before_)%list /\ sink r l = (after_ ++ r :: before_)%list /\
    Forall (fun x => f32_gt (r_q r) (r_q x) = true) after_ /\ Forall (no_heavier r) before_.
Proof.
  intros Hr. induction l as [|x l IH]; intros Hc Hs; simpl.
  - split; [repeat constructor |]. by exists [], [].
  - apply List.Forall_cons_iff in Hc as [Hx Hc]. apply StronglySorted_inv in Hs as [Hs Hxl].
    rewrite concrete_ranks by done. destruct (f32_gt (r_q r) (r_q x)) eqn:E.
    + destruct (IH Hc Hs) as (Hs' & a & b & -> & Eq & Ha & Hb). split.
      * constructor; [done |]. rewrite Eq. rewrite List.Forall_app in Hxl. destruct Hxl as [H1 H2].
        apply List.Forall_app. split; [done |]. constructor; [by apply f32_gt_ge | done].
      * exists (x :: a), b. split_and!; [done | by rewrite Eq | by constructor | done].
    + assert (Forall (no_heavier r) l) as Hl.
      { apply List.Forall_forall. intros y Hy. rewrite List.Forall_forall in Hxl, Hc.
        apply (no_heavier_trans r x y); auto. }
      split; [repeat constructor; auto |]. exists [], (x :: l). split_and!; [done | done | constructor | by constructor].
Qed.

Lemma sunk_sorted l :
  Forall (fun x => concrete x = true) l -> StronglySorted no_heavier (sunk l) /\ Forall (fun x => concrete x = true) (sunk l).
Proof.
  induction l as [|r l IH] using rev_ind; intros Hc; [repeat constructor |].
  rewrite List.Forall_app in Hc. destruct Hc as [Hc Hr]. apply List.Forall_cons_iff in Hr as [Hr _].
  destruct (IH Hc) as [Hs Hk]. rewrite sunk_snoc. split; [by apply sink_sorted |].
  rewrite sink_perm. by constructor.
Qed.

(** The best of a list for [f]: earlier ones that [f] answers are lighter, later
    ones no heavier. *)
Definition best_for {B} (f : AcceptRange -> option B) (l : list AcceptRange) (y : B) : Prop :=
  exists pre r post, l = (pre ++ r :: post)%list /\ f r = Some y /\
    (forall x, In x pre -> f x <> None -> f32_gt (r_q r) (r_q x) = true) /\
    (forall x, In x post -> f x <> None -> f32_gt (r_q x) (r_q r) = false).

Lemma sunk_best {B} (f : AcceptRange -> option B) l y :
  Forall (fun x => concrete x = true) l -> find_map f (rev (sunk l)) = Some y -> best_for f l y.
Proof.
  intros Hc. enough (forall pre0 r0 post0, rev (sunk l) = (pre0 ++ r0 :: post0)%list -> f r0 = Some y ->
    Forall (fun x => f x = None) pre0 -> exists pre post, l = (pre ++ r0 :: post)%list /\
    (forall x, In x pre -> f x <> None -> f32_gt (r_q r0) (r_q x) = true) /\
    (forall x, In x post -> f x <> None -> f32_gt (r_q x) (r_q r0) = false)) as Hall.
  { intros Hf. apply find_map_Some in Hf as (l1 & r & l2 & Hl & Hr & Hn).
    destruct (Hall _ _ _ Hl Hr Hn) as (pre & post & H1 & H2 & H3). by exists pre, r, post. }
  induction l as [|r l IH] using rev_ind; intros pre0 r0 post0 Hrev Hf Hn; [by destruct pre0 |].
  rewrite List.Forall_app in Hc. destruct Hc as [Hc Hr]. apply List.Forall_cons_iff in Hr as [Hr _].
  destruct (sunk_sorted l Hc) as [Hs Hk]. rewrite sunk_snoc in Hrev.
  destruct (sink_sorted r (sunk l) Hr Hk Hs) as (_ & a & b & Ha & Eq & Hafter & Hbefore).
  rewrite Eq, rev_app_distr in Hrev. cbn [rev] in Hrev. rewrite <- app_assoc in Hrev. cbn [app] in Hrev.
  assert (forall x, In x l -> In x a \/ In x b) as Hin.
  { intros x Hx. apply in_app_iff. rewrite <- Ha. by apply (Permutation_in x (Permutation_sym (sunk_perm l))). }
  assert (rev (sunk l) = (rev b ++ rev a)%list) as Hsl by (by rewrite Ha, rev_app_distr).
  assert (r0 = r -> Forall (fun x => f x = None) (rev b) -> exists pre post, (l ++ [r])%list = (pre ++ r0 :: post)%list /\
    (forall x, In x pre -> f x <> None -> f32_gt (r_q r0) (r_q x) = true) /\
    (forall x, In x post -> f x <> None -> f32_gt (r_q x) (r_q r0) = false)) as Hlast.
  { intros -> Hb. exists l, []. split_and!; [done | | done]. intros x Hx Hfx. destruct (Hin x Hx) as [Hxa|Hxb].
    - rewrite List.Forall_forall in Hafter. auto.
    - rewrite List.Forall_forall in Hb. by destruct Hfx; apply Hb, (proj1 (in_rev _ _)). }
  assert (forall p q, rev (sunk l) = (p ++ r0 :: q)%list -> Forall (fun x => f x = None) p ->
    (f r <> None -> no_heavier r r0) -> exists pre post, (l ++ [r])%list = (pre ++ r0 :: post)%list /\
    (forall x, In x pre -> f x <> None -> f32_gt (r_q r0) (r_q x) = true) /\
    (forall x, In x post -> f x <> None -> f32_gt (r_q x) (r_q r0) = false)) as Hold.
  { intros p q Hp Hpn Hle. destruct (IH Hc p r0 q Hp Hf Hpn) as (pre & post & -> & Hpre & Hpost).
    exists pre, (post ++ [r])%list. split_and!; [by rewrite <- app_assoc | done |].
    intros x Hx Hfx. apply in_app_iff in Hx as [Hx|[<-|[]]]; [by apply Hpost | by apply Hle]. }
  symmetry in Hrev. apply app_eq_inv in Hrev as [(k & -> & Hk2)|(k & Hk1 & Hk2)].
  - rewrite List.Forall_app in Hn. destruct Hn as [Hnb Hnk]. destruct k as [|z k]; injection Hk2 as <- Hk2; [by apply Hlast |].
    apply List.Forall_cons_iff in Hnk as [Hz Hnk].
    apply (Hold (rev b ++ k)%list post0); [by rewrite Hsl, Hk2, app_assoc | by apply List.Forall_app | by rewrite Hz].
  - destruct k as [|z k]; injection Hk2 as -> Hk2.
    { rewrite app_nil_r in Hk1. apply Hlast; [done | by rewrite Hk1]. }
    apply (Hold pre0 (k ++ rev a)%list); [by rewrite Hsl, Hk1, <- app_assoc | done |]. intros _.
    rewrite List.Forall_forall in Hbefore. apply Hbefore, (proj2 (in_rev _ _)). rewrite Hk1. apply in_app_iff. right. by left.
Qed.

Lemma negotiate_none accept :
  negotiate accept = None <-> forall r s, In r (ranges accept) -> takes r s = false.
Proof.
  unfold negotiate, ranked. fold (sunk (ranges accept)). rewrite find_map_None, List.Forall_forall. split.
  - intros Hall r s Hin. assert (serialization r = None) as Hs.
    { apply Hall, (proj1 (in_rev _ _)), (Permutation_in r (Permutation_sym (sunk_perm _)) Hin). }
    unfold serialization in Hs. apply (find_none _ _ Hs). by destruct s; cbn; auto.
  - intros Hall r Hin. apply (proj2 (in_rev _ _)), (Permutation_in r (sunk_perm _)) in Hin.
    unfold serialization. cbn [List.find all_served]. by rewrite !Hall.
Qed.

(** Every range counts, whatever its weight: a header is refused exactly when no
    range takes anything that is served, and among ranges that name their types
    the answer is that of the heaviest range that takes something, the first of
    them where several weigh the same. *)
Theorem negotiate_exact accept :
  match negotiate accept with
  | None => forall r s, In r (ranges accept) -> takes r s = false
  | Some s =>
      (exists r, In r (ranges accept) /\ serialization r = Some s) /\
      (Forall (fun r => concrete r = true) (ranges accept) -> best_for serialization (ranges accept) s)
  end.
Proof.
  destruct (negotiate accept) as [s|] eqn:E; [| by apply negotiate_none].
  unfold negotiate, ranked in E. fold (sunk (ranges accept)) in E. split; [| intros Hc; by apply sunk_best].
  apply find_map_Some in E as (l1 & r & l2 & Hl & Hr & _). exists r. split; [| done].
  apply (Permutation_in r (sunk_perm (ranges accept))), (proj2 (in_rev _ _)). rewrite Hl. apply in_app_iff. right. by left.
Qed.

(** A header that says something is answered 406 exactly when nothing that is
    served is taken by one of its ranges; one that says nothing is answered. *)
Lemma codec_refused_iff accept :
  is_ok (codec_from_headers accept) = false <->
  trim (default "" accept) <> "" /\ forall r s, In r (ranges (default "" accept)) -> takes r s = false.
Proof.
  unfold codec_from_headers. rewrite <- negotiate_none. set (a := default "" accept). cbv zeta.
  destruct (eqb (trim a) "") eqn:Et; cbn [negb andb].
  - apply (proj1 (eqb_true _ _)) in Et. split; [| by intros [? _]]. destruct (accept_wants_table a), (accept_wants_partial_metadata a);
      try done. by destruct (negotiate a) as [[]|].
  - apply eqb_false in Et. destruct (negotiate a) as [s|]; cbn [is_some negb andb]; [| by split].
    split; [| by intros [_ ?]]. destruct (accept_wants_table a), (accept_wants_partial_metadata a); try done. by destruct s.
Qed.

(** The order of the header decides between a type and a wildcard. *)
Lemma wildcard_outranks :
  r_subtype <$> ranked "application/json;q=0.1,*/*;q=0.9" = ["*"; "json"] /\
  r_subtype <$> ranked "*/*;q=0.9,application/json;q=0.1" = ["json"; "*"].
Proof. by vm_compute. Qed.
