(* ===== verification/Verbs.v ===== *)
(** * The verbs of the router

    [engenho-apiserver/src/router.rs]: decoding the body of a write, choosing the
    subresource, and the handlers of POST, PUT, PATCH and DELETE on a resource
    path, with the handler's [create], [replace] and [patch], and the minting of
    tokens.

    An answer is the status, the codec and the value [render_object] is given,
    and the warnings of the response; rendering itself is not modelled, nor is
    the shadow gate of [typed_decode.rs], which only counts.  The streams of a pod
    are answered by their kind.  A protobuf body is decoded by a parameter, and the
    warnings the pipeline leaves for a patch are not collected. *)

From Stdlib Require Import Ascii String.
From stdpp Require Import base tactics option list strings numbers.
From S2P Require Import Prelude Text BTreeMap Json Resource WatchHistory Command Read.
From S2P Require Import PatchApply Ssa Pagination Catalog CatalogTheorems Birth Mesh WatchBackend.
From S2P Require Import ApiErrors Coords Auth Params ObjectBody FieldShapes FieldValidation Handler WritePlan Eviction Scale Accept.

Local Open Scope string_scope.
Local Open Scope Z_scope.
Local Open Scope handler_scope.

(** The two headers a verb reads, when they are text. *)
Record Headers : Type := mkHeaders { content_type : option string; accept_header : option string }.

(** The media type of a content type, without its parameters. *)
Definition media_of (content_type : string) : string := trim (List.hd "" (split_char ";" content_type)).

Definition is_protobuf_content_type (content_type : string) : bool :=
  eq_ignore_ascii_case (media_of content_type) CONTENT_TYPE_PROTOBUF.

(** [PatchType::from_content_type]. *)
Definition patch_type_of (content_type : string) : option PatchType.t :=
  let media := media_of content_type in
  if eqb media "" then Some PatchType.Strategic
  else if eqb media "application/merge-patch+json" then Some PatchType.Merge
  else if eqb media "application/strategic-merge-patch+json" then Some PatchType.Strategic
  else if eqb media "application/json-patch+json" then Some PatchType.Json
  else if eqb media "application/apply-patch+yaml" || eqb media "application/apply-patch+json" then Some PatchType.Apply
  else None.

(** [proto_transcode::Decoded]: the object, and the texts of what was lost. *)
Record Decoded : Type := mkDecoded { d_value : json; d_losses : list string }.

(** The request's bytes when they are JSON. *)
Definition json_bytes (headers : Headers) (raw : string) : option string :=
  if is_protobuf_content_type (default "" (content_type headers)) then None else Some raw.

(** [WriteParams] and [ApplyParams]. *)
Record WriteParams : Type := mkWriteParams { w_dry_run : option string; w_field_validation : option string }.

Record ApplyParams : Type := mkApplyParams {
  a_field_manager : option string;
  a_force : bool;
  a_dry_run : option string;
  a_field_validation : option string
}.

(** What [render_object] is given, the log or stream of a pod, or the list or
    watch of a collection; the last two are answered elsewhere. *)
Inductive Answer : Type :=
  | Rendered (status : Z) (codec : ResponseCodec) (v : json)
  | Streaming (sub : Subresource.t) (name : string)
  | Listing.

(** The response of a verb: its answer or its error, with the warnings. *)
Record Response : Type := mkResponse { outcome : result Answer ApiError.t; response_warnings : Warnings }.

(** [SaIssuer]. *)
Record SaIssuer `{Ed25519} : Type := mkIssuer {
  signing : SigningKey;
  token_issuer : string;
  default_audience : string
}.

Definition TOKEN_LIFETIME_DEFAULT_SECS : Z := 3600.
Definition TOKEN_LIFETIME_MIN_SECS : Z := 600.
Definition TOKEN_LIFETIME_MAX_SECS : Z := 86400.

Definition clamp_token_lifetime (requested : Z) : Z :=
  Word.saturate TOKEN_LIFETIME_MIN_SECS TOKEN_LIFETIME_MAX_SECS requested.

(** The streams of a pod ([PodStreamKind::of]). *)
Definition is_stream (s : Subresource.t) : bool :=
  match s with Subresource.Exec | Subresource.Attach | Subresource.PortForward => true | _ => false end.

Definition stream_segment (s : Subresource.t) : string :=
  match s with
  | Subresource.Exec => "exec"
  | Subresource.Attach => "attach"
  | Subresource.PortForward => "portforward"
  | _ => "stream"
  end.

Definition eviction_verb_refusal (verb : string) : ApiError.t :=
  ApiError.BadRequest ("the eviction subresource supports create (POST) only, not " +:+ verb).

Definition stream_verb_refusal (s : Subresource.t) (verb : string) : ApiError.t :=
  ApiError.BadRequest ("the " +:+ stream_segment s +:+
    " subresource supports only a WebSocket upgrade (GET or POST), not " +:+ verb).

(** [is_status_value]. *)
Definition is_status_value (v : json) : bool := eqb (jget "kind" v ≫= as_str) (Some "Status").

Definition supports_delete_collection (h : StoreBackedHandler) : bool :=
  negb (existsb (eqb (h_kind h)) ["Namespace"; "Binding"; "ComponentStatus"]).

Section Verbs.
Context `{SerdeJson} `{PatchSchemaEnv} `{OpDecoder} `{Blake3} `{ErrorText} `{JsonReader}.
Context `{ClaimsSerde} `{Ed25519} `{Base64Url}.
Context (debug debug_char : string -> string) (sealer : option SealFault.t)
  (refusal_text : string * SealFault.t -> string) (births : string) (value_text scale_error : json -> string)
  (number_text : number -> string) (vendored_schemas : Schemas).

(** The transcoder of protobuf bodies. *)
Context (decode_protobuf_body : string -> result Decoded ApiError.t).

(** ** Bodies *)

Definition decode_body (headers : Headers) (raw : string) : result Decoded ApiError.t :=
  let content_type := default "" (content_type headers) in
  let media := media_of content_type in
  if eqb media "" || eq_ignore_ascii_case media "application/json" then
    result_map_err (fun e => ApiError.BadRequest ("invalid JSON request body: " +:+ e))
      (result_map (fun v => mkDecoded v []) (from_slice raw))
  else if is_protobuf_content_type content_type then decode_protobuf_body raw
  else Err (ApiError.UnsupportedMediaType
              ("the body of the request was in an unsupported format - accepted media types are application/json, " +:+
               CONTENT_TYPE_PROTOBUF +:+ "; got " +:+ debug media)).

Definition decode_write_body (headers : Headers) (raw : string) : result json ApiError.t :=
  result_map d_value (decode_body headers raw).

(** [Border::check_object]. *)
Definition border_check (d : Directive) (h : StoreBackedHandler) (headers : Headers) (raw : string) (v : json) (w : Warnings)
  : result (json * Warnings) ApiError.t :=
  check_object vendored_schemas d (kind_ref h) (json_bytes headers raw) v w.

(** The body with the warnings of the border; an error keeps the warnings
    gathered before it. *)
Definition decode_object_body (h : StoreBackedHandler) (headers : Headers) (raw : string) (d : Directive)
  : result json ApiError.t * Warnings :=
  let normal v := result_map_err (fun e => request_error e (h_version h) (h_kind h)) (normalize (h_group h) (h_kind h) v) in
  match decode_body headers raw with
  | Err e => (Err e, [])
  | Ok decoded =>
      let w := fold_left add_warning (d_losses decoded) [] in
      match normal (d_value decoded) with
      | Err e => (Err e, w)
      | Ok v =>
          match border_check d h headers raw v w with
          | Err e => (Err e, w)
          | Ok (v, w) => (normal v, w)
          end
      end
  end.

(** The patch and the algorithm its content type names. *)
Definition decode_patch (headers : Headers) (raw : string) : result (json * PatchType.t) ApiError.t :=
  let content_type := default "" (content_type headers) in
  let media := media_of content_type in
  let parsed := result_map_err (fun e => ApiError.BadRequest ("invalid JSON patch body: " +:+ e)) (from_slice raw) in
  if eq_ignore_ascii_case media "application/json" then result_map (fun v => (v, PatchType.Merge)) parsed
  else if is_protobuf_content_type content_type then
    result_map (fun d => (d_value d, PatchType.Merge)) (decode_protobuf_body raw)
  else
    match patch_type_of media with
    | None => Err (ApiError.UnsupportedMediaType
                     ("the body of the patch request was in an unsupported format; got " +:+ debug media))
    | Some pt => result_map (fun v => (v, pt)) parsed
    end.

(** ** The handler's writes *)

Let write := write debug debug_char sealer refusal_text births value_text vendored_schemas.

Definition create (h : StoreBackedHandler) (namespace : option string) (body : json) (user : UserInfo) (dry_run : DryRun)
    (now : string) : M (result json ApiError.t) :=
  match (jget "metadata" body ≫= jget "name") ≫= as_str with
  | None => ret (Err (ApiError.BadRequest "missing metadata.name in request body"))
  | Some name => write h namespace name (WCreate body) user dry_run unasked now
  end.

Definition replace (h : StoreBackedHandler) (namespace : option string) (name : string) (body : json) (user : UserInfo)
    (dry_run : DryRun) (now : string) : M (result json ApiError.t) :=
  write h namespace name (WReplace body) user dry_run unasked now.

Definition patch (h : StoreBackedHandler) (namespace : option string) (name : string) (patch : json)
    (patch_type : PatchType.t) (apply_opts : option ApplyOptions) (user : UserInfo) (dry_run : DryRun)
    (fields : PatchFields) (now : string) : M (result json ApiError.t) :=
  let!? request := ret (request_of_patch debug_char patch patch_type apply_opts) in
  write h namespace name request user dry_run fields now.

(** ** The body of each verb *)

(** The answer for a value, in the codec the request accepts. *)
Definition render (headers : Headers) (status : Z) (v : json) : result Answer ApiError.t :=
  result_map (fun codec => Rendered status codec v) (codec_from_headers (accept_header headers)).

Definition do_get (h : StoreBackedHandler) (namespace : option string) (name : string) (codec : ResponseCodec)
  : M (result Answer ApiError.t) :=
  let!? v := handler_get debug h namespace name in
  ret (Ok (Rendered 200 codec v)).

Definition do_create (h : StoreBackedHandler) (namespace : option string) (headers : Headers) (raw : string)
    (user : UserInfo) (dry_run : DryRun) (d : Directive) (now : string) : M Response :=
  let '(body, w) := decode_object_body h headers raw d in
  let! r :=
    (let!? body := ret body in
     let!? v := create h namespace body user dry_run now in
     ret (render headers 201 v)) in
  ret (mkResponse r w).

Definition do_replace (h : StoreBackedHandler) (namespace : option string) (name : string) (headers : Headers) (raw : string)
    (user : UserInfo) (dry_run : DryRun) (d : Directive) (now : string) : M Response :=
  let '(body, w) := decode_object_body h headers raw d in
  let! r :=
    (let!? body := ret body in
     let!? v := replace h namespace name body user dry_run now in
     ret (render headers 200 v)) in
  ret (mkResponse r w).

(** The patch, its options and what the border found in its bytes. *)
Definition judge_patch_body (h : StoreBackedHandler) (headers : Headers) (raw : string) (params : ApplyParams) (d : Directive)
  : result (json * PatchType.t * option ApplyOptions * PatchFields * Warnings) ApiError.t :=
  let? decoded := decode_patch headers raw in
  let '(patch, pt) := decoded in
  let? opts :=
    match pt with
    | PatchType.Apply => result_map Some (from_params (a_field_manager params) (a_force params))
    | _ => Ok None
    end in
  match pt, json_bytes headers raw with
  | PatchType.Apply, _ =>
      let? checked := border_check d h headers raw patch [] in
      Ok (checked.1, pt, opts, unasked, checked.2)
  | PatchType.Json, Some raw => let? f := scan_patch d raw BJson in Ok (patch, pt, opts, f, [])
  | _, Some raw => let? f := scan_patch d raw BMerge in Ok (patch, pt, opts, f, [])
  | _, None => let? f := scan_patch d raw BOpaque in Ok (patch, pt, opts, f, [])
  end.

Definition do_patch (h : StoreBackedHandler) (namespace : option string) (name : string) (headers : Headers) (raw : string)
    (params : ApplyParams) (user : UserInfo) (d : Directive) (now : string) : M Response :=
  match judge_patch_body h headers raw params d with
  | Err e => ret (mkResponse (Err e) [])
  | Ok (body, pt, opts, fields, w) =>
      let! r :=
        (let!? dry_run := ret (dry_run_parse debug (a_dry_run params)) in
         let!? v := patch h namespace name body pt opts user dry_run fields now in
         ret (render headers 200 v)) in
      ret (mkResponse r w)
  end.

Definition do_delete (h : StoreBackedHandler) (namespace : option string) (name : string) (headers : Headers)
    (p : ListWatchParams) (user : UserInfo) (dry_run : DryRun) (now : string) : M (result Answer ApiError.t) :=
  let!? expected := ret (precondition debug p) in
  let!? v := delete_with_precondition debug sealer refusal_text births h namespace name expected user dry_run now in
  let!? codec := ret (codec_from_headers (accept_header headers)) in
  ret (Ok (Rendered 200 (if is_status_value v then CJson else codec) v)).

Definition do_delete_collection (h : StoreBackedHandler) (namespace : option string) (p : ListWatchParams) (user : UserInfo)
    (dry_run : DryRun) (now : string) : M (result Answer ApiError.t) :=
  let!? sel := ret (selectors debug p) in
  let!? v := delete_collection debug sealer refusal_text births number_text h namespace sel user dry_run now in
  ret (Ok (Rendered 200 CJson v)).

(** ** Subresources *)

(** The segment of each subresource a kind can serve. *)
Definition subresource_of (segment : string) : option Subresource.t :=
  if eqb segment "status" then Some Subresource.Status
  else if eqb segment "scale" then Some Subresource.Scale
  else if eqb segment "log" then Some Subresource.Log
  else if eqb segment "token" then Some Subresource.Token
  else if eqb segment "exec" then Some Subresource.Exec
  else if eqb segment "attach" then Some Subresource.Attach
  else if eqb segment "portforward" then Some Subresource.PortForward
  else if eqb segment "eviction" then Some Subresource.Eviction
  else None.

Definition resolve_subresource (coords : ResourceCoords) (h : StoreBackedHandler)
  : result (option (Subresource.t * string)) ApiError.t :=
  match coords_subresource coords with
  | None => Ok None
  | Some sub =>
      match coords_name coords with
      | None => Err (ApiError.BadRequest ("subresource " +:+ debug sub +:+ " requires a resource name (instance path)"))
      | Some name =>
          match subresource_of sub with
          | Some s =>
              if serves h s then Ok (Some (s, name))
              else Err (ApiError.NotFound ("the server could not find the requested resource: " +:+ plural coords +:+
                          " does not serve subresource " +:+ debug sub))
          | None => Err (ApiError.NotFound ("the server could not find the requested resource: " +:+ plural coords +:+
                          " does not serve subresource " +:+ debug sub))
          end
      end
  end.

Definition do_put_status (h : StoreBackedHandler) (namespace : option string) (name : string) (headers : Headers) (raw : string)
  : M (result Answer ApiError.t) :=
  let!? body := ret (decode_write_body headers raw) in
  let!? v := put_status debug sealer refusal_text births value_text h namespace name body in
  ret (render headers 200 v).

Definition do_patch_status (h : StoreBackedHandler) (namespace : option string) (name : string) (headers : Headers)
    (raw : string) : M (result Answer ApiError.t) :=
  let!? decoded := ret (decode_patch headers raw) in
  let!? v := patch_status debug sealer refusal_text births value_text h namespace name decoded.1 decoded.2 in
  ret (render headers 200 v).

Definition do_get_scale (h : StoreBackedHandler) (namespace : option string) (name : string) : M (result Answer ApiError.t) :=
  let!? v := get_scale debug h namespace name in
  ret (Ok (Rendered 200 CJson v)).

Definition do_put_scale (h : StoreBackedHandler) (namespace : option string) (name : string) (headers : Headers) (raw : string)
  : M (result Answer ApiError.t) :=
  let!? body := ret (decode_write_body headers raw) in
  let!? v := put_scale debug sealer refusal_text births scale_error h namespace name body in
  ret (Ok (Rendered 200 CJson v)).

Definition do_patch_scale (h : StoreBackedHandler) (namespace : option string) (name : string) (headers : Headers)
    (raw : string) : M (result Answer ApiError.t) :=
  let!? decoded := ret (decode_patch headers raw) in
  let!? v := patch_scale debug sealer refusal_text births value_text h namespace name decoded.1 decoded.2 in
  ret (Ok (Rendered 200 CJson v)).

Definition do_eviction (h : StoreBackedHandler) (namespace : option string) (name : string) (headers : Headers) (raw : string)
    (user : UserInfo) (dry_run : DryRun) (clock : nat -> string) (now : string) : M (result Answer ApiError.t) :=
  let!? body := ret (decode_write_body headers raw) in
  let!? eviction := ret (eviction_from_body body name) in
  let!? _ := evict debug sealer refusal_text births h namespace name eviction user dry_run clock now in
  ret (Ok (Rendered 201 CJson (success_status name))).

(** ** Tokens *)

(** What a token request asks for: its audiences, its lifetime in seconds and the
    pod it is bound to. *)
Definition request_audiences (issuer : SaIssuer) (spec : option json) : list string :=
  match (spec ≫= jget "audiences") ≫= as_array with
  | Some l => match omap as_str l with [] => [default_audience issuer] | audiences => audiences end
  | None => [default_audience issuer]
  end.

Definition request_lifetime (spec : option json) : Z :=
  clamp_token_lifetime (default TOKEN_LIFETIME_DEFAULT_SECS ((spec ≫= jget "expirationSeconds") ≫= as_i64)).

Definition request_pod (spec : option json) : option NamedUid :=
  match spec ≫= jget "boundObjectRef" with
  | Some b =>
      if eqb (jget "kind" b ≫= as_str) (Some "Pod")
      then Some (mkNamedUid (default "" (jget "name" b ≫= as_str)) (default "" (jget "uid" b ≫= as_str))) else None
  | None => None
  end.

(** [clock] is the reading of the system clock, in seconds of the epoch;
    [rfc3339] the text of an instant. *)
Definition do_token_request (issuer : option SaIssuer) (h : StoreBackedHandler) (namespace : option string) (name : string)
    (headers : Headers) (raw : string) (clock : result Z ApiError.t) (rfc3339 : Z -> option string) (created : string)
  : M (result Answer ApiError.t) :=
  match namespace, issuer with
  | None, _ =>
      ret (Err (ApiError.BadRequest "the token subresource is namespaced; no namespace in the request path"))
  | Some _, None =>
      ret (Err (ApiError.Internal
        ("ServiceAccount token issuance is not configured: this apiserver holds no SA signing key, so `/token` cannot mint. " +:+
         "(The cluster's key lives at <data_dir>/pki/sa.key and is installed via RouterState::with_token_issuer.)")))
  | Some ns, Some issuer =>
      let!? sa := handler_get debug h (Some ns) name in
      let uid := default "" ((jget "metadata" sa ≫= jget "uid") ≫= as_str) in
      let!? req := ret (if eqb raw "" then Ok (JObject []) else decode_write_body headers raw) in
      let spec := jget "spec" req in
      let audiences := request_audiences issuer spec in
      let lifetime := request_lifetime spec in
      let!? now := ret clock in
      let token := issue (signing issuer) (token_issuer issuer) ns name uid audiences (request_pod spec) now lifetime in
      let!? expiry :=
        ret (ok_or (rfc3339 (Word.i64_add now lifetime))
               (ApiError.Internal "the computed token expiry is not a representable instant")) in
      ret (Ok (Rendered 201 CJson
        (jobj [("kind", JString "TokenRequest"); ("apiVersion", JString "authentication.k8s.io/v1");
               ("metadata", jobj [("name", JString name); ("namespace", JString ns); ("creationTimestamp", JString created)]);
               ("spec", jobj [("audiences", JArray (map JString audiences));
                              ("expirationSeconds", JNumber (number_of_i64 lifetime))]);
               ("status", jobj [("token", JString token); ("expirationTimestamp", JString expiry)])])))
  end.

(** ** The router *)

(** [RouterState]: the handlers by group, version and plural. *)
Record RouterState : Type := mkRouter {
  handlers : list (string * string * string * StoreBackedHandler);
  rt_issuer : option SaIssuer
}.

Definition lookup (state : RouterState) (coords : ResourceCoords) : result StoreBackedHandler ApiError.t :=
  let key := (group_key coords, version_key coords, plural coords) in
  match List.find (fun e => eqb e.1 key) (handlers state) with
  | Some (_, h) => Ok h
  | None =>
      Err (ApiError.NotFound
        (if eqb (group_key coords) "" then "unknown core kind plural: " +:+ plural coords
         else "unknown kind: " +:+ group_key coords +:+ "/" +:+ version_key coords +:+ "/" +:+ plural coords))
  end.

(** The times of a request: the write's, those of an eviction's attempts, the
    system clock and how instants are written. *)
Record Clocks : Type := mkClocks {
  now_text : string;
  attempt_clock : nat -> string;
  system_clock : result Z ApiError.t;
  rfc3339 : Z -> option string
}.

(** An error before the border is answered without warnings. *)
Definition early (e : ApiError.t) : M Response := ret (mkResponse (Err e) []).

Definition orelse {A} (r : result A ApiError.t) (f : A -> M Response) : M Response :=
  match r with Ok a => f a | Err e => early e end.

(** [warnings.attach] of the answer. *)
Definition attach (w : Warnings) (m : M (result Answer ApiError.t)) : M Response :=
  let! r := m in ret (mkResponse r w).

Definition resource_get (state : RouterState) (coords : ResourceCoords) (headers : Headers) : M Response :=
  orelse (lookup state coords) (fun h =>
  orelse (resolve_subresource coords h) (fun target =>
  orelse (codec_from_headers (accept_header headers)) (fun codec =>
  match target, coords_name coords with
  | Some (Subresource.Status, name), _ | None, Some name => attach [] (do_get h (coords_namespace coords) name codec)
  | Some (Subresource.Scale, name), _ => attach [] (do_get_scale h (coords_namespace coords) name)
  | Some (Subresource.Eviction, _), _ => early (eviction_verb_refusal "GET")
  | Some (Subresource.Token, _), _ => early (ApiError.BadRequest "the token subresource supports create (POST) only; there is no stored token to                  GET — a minted token is returned once, in the POST response, and never                  persisted")
  | Some (s, name), _ => ret (mkResponse (Ok (Streaming s name)) [])
  | None, None => ret (mkResponse (Ok Listing) [])
  end))).

Definition resource_create (state : RouterState) (coords : ResourceCoords) (params : WriteParams) (headers : Headers)
    (user : UserInfo) (raw : string) (t : Clocks) : M Response :=
  orelse (dry_run_parse debug (w_dry_run params)) (fun dry_run =>
  match coords_subresource coords with
  | Some sub =>
      orelse (lookup state coords) (fun h =>
      orelse (resolve_subresource coords h) (fun target =>
      match target with
      | Some (Subresource.Eviction, name) =>
          orelse (subresource_directive (w_field_validation params) CreateOptions "eviction" []) (fun w =>
          attach w (do_eviction h (coords_namespace coords) name headers raw user dry_run (attempt_clock t) (now_text t)))
      | Some (Subresource.Token, name) =>
          orelse (subresource_directive (w_field_validation params) CreateOptions "token" []) (fun w =>
          attach w (do_token_request (rt_issuer state) h (coords_namespace coords) name headers raw (system_clock t)
                      (rfc3339 t) (now_text t)))
      | Some (s, name) =>
          if is_stream s then ret (mkResponse (Ok (Streaming s name)) [])
          else early (ApiError.BadRequest ("the " +:+ debug sub +:+ " subresource does not support create (POST)"))
      | None => early (ApiError.BadRequest ("the " +:+ debug sub +:+ " subresource does not support create (POST)"))
      end))
  | None =>
      if is_some (coords_name coords) then
        early (ApiError.BadRequest "POST is only valid on a collection path (no resource name)")
      else
        orelse (lookup state coords) (fun h =>
        orelse (directive_parse (w_field_validation params) CreateOptions) (fun d =>
        do_create h (coords_namespace coords) headers raw user dry_run d (now_text t)))
  end).

(** The refusals of a write on a subresource that takes none. *)
Definition unwritable (s : Subresource.t) (verb : string) : ApiError.t :=
  match s with
  | Subresource.Token => ApiError.BadRequest "the token subresource supports create (POST) only"
  | Subresource.Log => ApiError.BadRequest "the log subresource is read-only (GET only)"
  | Subresource.Eviction => eviction_verb_refusal verb
  | _ => stream_verb_refusal s verb
  end.

Definition resource_put (state : RouterState) (coords : ResourceCoords) (params : WriteParams) (headers : Headers)
    (user : UserInfo) (raw : string) (t : Clocks) : M Response :=
  orelse (ok_or (coords_name coords) (ApiError.BadRequest "PUT requires a resource name (instance path)")) (fun name =>
  orelse (lookup state coords) (fun h =>
  orelse (resolve_subresource coords h) (fun target =>
  match fst <$> target with
  | Some Subresource.Status =>
      orelse (subresource_directive (w_field_validation params) UpdateOptions "status" []) (fun w =>
      attach w (do_put_status h (coords_namespace coords) name headers raw))
  | Some Subresource.Scale =>
      orelse (subresource_directive (w_field_validation params) UpdateOptions "scale" []) (fun w =>
      attach w (do_put_scale h (coords_namespace coords) name headers raw))
  | Some s => early (unwritable s "PUT")
  | None =>
      orelse (dry_run_parse debug (w_dry_run params)) (fun dry_run =>
      orelse (directive_parse (w_field_validation params) UpdateOptions) (fun d =>
      do_replace h (coords_namespace coords) name headers raw user dry_run d (now_text t)))
  end))).

Definition resource_patch (state : RouterState) (coords : ResourceCoords) (params : ApplyParams) (headers : Headers)
    (user : UserInfo) (raw : string) (t : Clocks) : M Response :=
  orelse (ok_or (coords_name coords) (ApiError.BadRequest "PATCH requires a resource name (instance path)")) (fun name =>
  orelse (lookup state coords) (fun h =>
  orelse (resolve_subresource coords h) (fun target =>
  match fst <$> target with
  | Some Subresource.Status =>
      orelse (subresource_directive (a_field_validation params) PatchOptions "status" []) (fun w =>
      attach w (do_patch_status h (coords_namespace coords) name headers raw))
  | Some Subresource.Scale =>
      orelse (subresource_directive (a_field_validation params) PatchOptions "scale" []) (fun w =>
      attach w (do_patch_scale h (coords_namespace coords) name headers raw))
  | Some s => early (unwritable s "PATCH")
  | None =>
      orelse (directive_parse (a_field_validation params) PatchOptions) (fun d =>
      do_patch h (coords_namespace coords) name headers raw params user d (now_text t))
  end))).

(** The body of a DELETE is read for its [dryRun] when it is JSON. *)
Definition resource_delete (state : RouterState) (coords : ResourceCoords) (p : ListWatchParams) (params : WriteParams)
    (headers : Headers) (user : UserInfo) (raw : string) (t : Clocks) : M Response :=
  let body := match from_slice raw with Ok v => Some v | Err _ => None end in
  orelse (for_delete debug (w_dry_run params) body) (fun dry_run =>
  match coords_subresource coords with
  | Some sub => early (ApiError.BadRequest ("the " +:+ debug sub +:+ " subresource does not support delete"))
  | None =>
      orelse (lookup state coords) (fun h =>
      match coords_name coords with
      | None =>
          if supports_delete_collection h
          then attach [] (do_delete_collection h (coords_namespace coords) p user dry_run (now_text t))
          else early (ApiError.BadRequest "DELETE requires a resource name (instance path)")
      | Some name => attach [] (do_delete h (coords_namespace coords) name headers p user dry_run (now_text t))
      end)
  end).

End Verbs.
