(* ===== verification/VerbFacts.v ===== *)
(** * What the verbs promise

    A dry run of any write on a main object, of an eviction and of a delete writes
    nothing; what a create answers is what a read then answers; a minted token
    authenticates as the account it was minted for, within the lifetime it
    states.  And what they do not: a dry run of a status or a scale is committed,
    and so is a write the client is told it cannot be shown. *)

From Stdlib Require Import Ascii String.
From stdpp Require Import base tactics option list strings numbers.
From S2P Require Import Prelude Text BTreeMap Json Resource WatchHistory Command Read.
From S2P Require Import PatchApply PatchFacts Ssa SsaFacts Pagination Catalog CatalogMeta CatalogFacts CatalogTheorems.
From S2P Require Import Birth Mesh WatchBackend ApiErrors Coords Auth Params Names ObjectBody Defaulting Validation.
From S2P Require Import SchemaValidation FieldShapes FieldValidation FieldFacts Handler WritePlan WriteFacts WriteRace.
From S2P Require Import Eviction Scale Accept Verbs.

Local Open Scope string_scope.
Local Open Scope Z_scope.
Local Open Scope handler_scope.

Section Dry.
Context `{SerdeJson} `{PatchSchemaEnv} `{OpDecoder} `{Blake3} `{ErrorText} `{JsonReader}.
Context `{ClaimsSerde} `{Ed25519} `{Base64Url}.
Context (debug debug_char : string -> string) (sealer : option SealFault.t)
  (refusal_text : string * SealFault.t -> string) (births : string) (value_text scale_error : json -> string)
  (number_text : number -> string) (vendored_schemas : Schemas) (proto : string -> result Decoded ApiError.t).

Lemma parse_all : dry_run_parse debug (Some "All") = Ok All.
Proof. done. Qed.

Lemma reads_early e : reads_only (early e).
Proof. apply reads_ret. Qed.

Lemma reads_orelse {A} (r : result A ApiError.t) f : (forall a, reads_only (f a)) -> reads_only (orelse r f).
Proof. intros Hf. destruct r; [apply Hf | apply reads_ret]. Qed.

Lemma reads_known {A B} (a : A) (f : A -> M (result B ApiError.t)) : reads_only (f a) -> reads_only (bind_ok (ret (Ok a)) f).
Proof. done. Qed.

Lemma reads_attach w m : reads_only m -> reads_only (attach w m).
Proof. intros Hm. apply reads_bind; [done | intros; apply reads_ret]. Qed.

Lemma handler_get_reads h namespace name : reads_only (handler_get debug h namespace name).
Proof. unfold handler_get. eauto 10 with reads. Qed.

Lemma do_eviction_dry_reads h namespace name headers raw user clock now :
  reads_only (do_eviction debug sealer refusal_text births proto h namespace name headers raw user All clock now).
Proof.
  unfold do_eviction. repeat (apply reads_bind_ok; [apply reads_ret || apply evict_dry_reads | intros]). apply reads_ret.
Qed.

Lemma token_reads issuer h namespace name headers raw clock rfc created :
  reads_only (do_token_request debug proto issuer h namespace name headers raw clock rfc created).
Proof.
  unfold do_token_request. destruct namespace as [ns|]; [| apply reads_ret]. destruct issuer as [i|]; [| apply reads_ret].
  apply reads_bind_ok; [apply handler_get_reads | intros sa]. cbv zeta.
  repeat (apply reads_bind_ok; [apply reads_ret | intros]). apply reads_ret.
Qed.

Lemma create_dry_reads h namespace headers raw user d now :
  reads_only (do_create debug debug_char sealer refusal_text births value_text vendored_schemas proto h namespace headers raw
    user All d now).
Proof.
  unfold do_create. destruct (decode_object_body _ _ _ _ _ _ _) as [body w]. apply reads_bind; [| intros; apply reads_ret].
  apply reads_bind_ok; [apply reads_ret | intros v]. apply reads_bind_ok; [| intros; apply reads_ret].
  unfold create. destruct (_ ≫= as_str); [apply write_dry_reads | apply reads_ret].
Qed.

Lemma replace_dry_reads h namespace name headers raw user d now :
  reads_only (do_replace debug debug_char sealer refusal_text births value_text vendored_schemas proto h namespace name headers
    raw user All d now).
Proof.
  unfold do_replace. destruct (decode_object_body _ _ _ _ _ _ _) as [body w]. apply reads_bind; [| intros; apply reads_ret].
  apply reads_bind_ok; [apply reads_ret | intros v]. apply reads_bind_ok; [apply write_dry_reads | intros; apply reads_ret].
Qed.

Lemma patch_dry_reads h namespace name headers raw params user d now :
  a_dry_run params = Some "All" ->
  reads_only (do_patch debug debug_char sealer refusal_text births value_text vendored_schemas proto h namespace name headers
    raw params user d now).
Proof.
  intros Hd. unfold do_patch. destruct (judge_patch_body _ _ _ _ _ _ _ _) as [[[[[body pt] opts] fields] w]|]; [| apply reads_ret].
  apply reads_bind; [| intros; apply reads_ret]. rewrite Hd, parse_all. apply reads_known. apply reads_bind_ok; [| intros; apply reads_ret].
  unfold patch. apply reads_bind_ok; [apply reads_ret | intros; apply write_dry_reads].
Qed.

Lemma delete_verb_dry_reads h namespace name headers p user now :
  reads_only (do_delete debug sealer refusal_text births h namespace name headers p user All now).
Proof.
  unfold do_delete. apply reads_bind_ok; [apply reads_ret | intros expected].
  apply reads_bind_ok; [apply delete_dry_reads | intros v]. apply reads_bind_ok; intros; apply reads_ret.
Qed.

Lemma delete_collection_verb_dry_reads h namespace p user now :
  reads_only (do_delete_collection debug sealer refusal_text births number_text h namespace p user All now).
Proof.
  unfold do_delete_collection. apply reads_bind_ok; [apply reads_ret | intros sel].
  apply reads_bind_ok; [apply delete_collection_dry_reads | intros; apply reads_ret].
Qed.

(** A body of delete options, in JSON, that asks for a dry run. *)
Definition body_dry (raw : string) : Prop :=
  exists v entries, from_slice raw = Ok v /\ (jget "dryRun" v ≫= as_array) = Some entries /\ In (JString "All") entries.

Lemma entries_dry entries d out :
  dry_run_entries debug out entries = Ok d -> is_dry out = true \/ In (JString "All") entries -> d = All.
Proof.
  revert out. induction entries as [|e entries IH]; intros out; cbn [dry_run_entries].
  - intros [= <-] [Ho | []]. by destruct out.
  - destruct (dry_run_parse debug _) as [d' |] eqn:E; [| done]. cbn [result_bind]. intros Hd Ho. apply (IH _ Hd).
    destruct (is_dry d') eqn:Ed; [by left |]. destruct Ho as [Ho | [-> | Ho]]; [by left | | by right].
    cbn [as_str default from_option id] in E. rewrite parse_all in E. injection E as <-. done.
Qed.

(** Marked in the query or in the body, a delete is a dry run or refused. *)
Lemma for_delete_dry query raw d :
  for_delete debug query (match from_slice raw with Ok v => Some v | Err _ => None end) = Ok d ->
  query = Some "All" \/ body_dry raw -> d = All.
Proof.
  unfold for_delete. destruct (dry_run_parse debug query) as [q |] eqn:Eq; [| done]. cbn [result_bind].
  destruct (is_dry q) eqn:Ed; [by intros [= <-] |]. intros Hd [-> | (v & entries & Hv & He & Hin)].
  - rewrite parse_all in Eq. by injection Eq as <-.
  - rewrite Hv in Hd. cbn [mbind option_bind] in Hd. cbn [mbind option_bind] in He. rewrite He in Hd.
    apply (entries_dry _ _ _ Hd). by right.
Qed.

(** (C26) A dry run writes nothing.  Marked [dryRun=All] in the query, a POST on any
    path, evictions and tokens included, and a PUT and a PATCH of a main object
    leave the store exactly as the others' own writes make it; so does a DELETE of
    an object or a collection marked in the query, or in a JSON body of delete
    options. *)
Theorem dry_requests_write_nothing state coords params aparams p headers user raw t :
  (w_dry_run params = Some "All" ->
   reads_only (resource_create debug debug_char sealer refusal_text births value_text vendored_schemas proto state coords params
     headers user raw t)) /\
  (w_dry_run params = Some "All" \/ body_dry raw ->
   reads_only (resource_delete debug sealer refusal_text births number_text state coords p params headers user raw t)) /\
  (coords_subresource coords = None -> w_dry_run params = Some "All" ->
   reads_only (resource_put debug debug_char sealer refusal_text births value_text scale_error vendored_schemas proto state
     coords params headers user raw t)) /\
  (coords_subresource coords = None -> a_dry_run aparams = Some "All" ->
   reads_only (resource_patch debug debug_char sealer refusal_text births value_text vendored_schemas proto state coords aparams
     headers user raw t)).
Proof.
  split_and!.
  - intros Hd. unfold resource_create. rewrite Hd, parse_all. cbn [orelse]. destruct (coords_subresource coords) as [sub|].
    + apply reads_orelse. intros h. apply reads_orelse. intros [[s name]|]; [| apply reads_ret].
      destruct s; cbn [is_stream]; try apply reads_ret; apply reads_orelse; intros w; apply reads_attach;
        [apply token_reads | apply do_eviction_dry_reads].
    + destruct (is_some _); [apply reads_ret |]. apply reads_orelse. intros h. apply reads_orelse. intros d.
      apply create_dry_reads.
  - intros Hd. unfold resource_delete. cbv zeta.
    destruct (for_delete debug (w_dry_run params) _) as [d |] eqn:Ed; [| apply reads_ret].
    apply for_delete_dry in Ed as ->; [| exact Hd]. cbn [orelse].
    destruct (coords_subresource coords); [apply reads_ret |]. apply reads_orelse. intros h.
    destruct (coords_name coords); [apply reads_attach, delete_verb_dry_reads |].
    destruct (supports_delete_collection h); [apply reads_attach, delete_collection_verb_dry_reads | apply reads_ret].
  - intros Hs Hd. unfold resource_put, resolve_subresource. rewrite Hs.
    apply reads_orelse. intros name. apply reads_orelse. intros h. cbn [orelse fmap option_fmap option_map].
    rewrite Hd, parse_all. cbn [orelse]. apply reads_orelse. intros d. apply replace_dry_reads.
  - intros Hs Ha. unfold resource_patch, resolve_subresource. rewrite Hs.
    apply reads_orelse. intros name. apply reads_orelse. intros h. cbn [orelse fmap option_fmap option_map].
    apply reads_orelse. intros d. by apply patch_dry_reads.
Qed.

End Dry.

(** ** A create and the read after it *)

Section Created.
Context `{SerdeJson} `{PatchSchemaEnv} `{OpDecoder} `{Blake3} `{ErrorText} `{JsonReader}.
Context `{ClaimsSerde} `{Ed25519} `{Base64Url}.
Context (debug debug_char : string -> string) (sealer : option SealFault.t)
  (refusal_text : string * SealFault.t -> string) (births : string) (value_text : json -> string)
  (vendored_schemas : Schemas) (proto : string -> result Decoded ApiError.t).

(** Alone, an operation that only reads leaves the world as it is. *)
Lemma reads_alone {A} (m : M A) c a w : reads_only m -> m (mkWorld c []) = (a, w) -> w = mkWorld c [].
Proof.
  intros Hm E. destruct (Hm (mkWorld c [])) as [n Hn]. rewrite E in Hn. cbn [snd] in Hn. rewrite Hn.
  clear. induction n as [|n IH]; [done |]. by rewrite Nat.iter_succ, IH.
Qed.

Lemma create_plans h k namespace name body prior expected now user fields w p w' :
  plan debug_char vendored_schemas h k namespace name (WCreate body) prior expected now user fields w = (Ok p, w') ->
  exists v, p = PWrite (mkPlan LCreate v).
Proof.
  unfold plan, plan_for. cbn [requires]. destruct (is_some_and _ _); [done |]. intros Hp.
  do 6 (apply bind_ok_inv in Hp as (? & ? & _ & Hp)). cbv zeta in Hp. destruct (is_some prior); [done |].
  injection Hp as <- _. by eexists.
Qed.

(** A create commits a readable object or nothing. *)
Lemma propose_create c k p o c' :
  plan_lifecycle p = LCreate -> propose sealer births c (plan_command k p) = Ok (o, c') ->
  op o = ResourceOp.NoOp \/ op o = ResourceOp.Replaced /\ secret_fault c' k = None.
Proof.
  intros Hl. unfold propose. destruct (write_refusal sealer c (plan_command k p)) eqn:Er; [done |]. intros [= E].
  unfold apply_logged, apply_under in E. cbn [command proposed] in E.
  assert (unreadable_touched_by c (stamp_births c (plan_command k p) births) = None) as Hu.
  { unfold write_refusal in Er. destruct (sealer ≫= _); [done |]. unfold unreadable_touched_by in *. rewrite stamp_births_keys.
    match type of Er with option_map _ ?t = None => by destruct t end. }
  rewrite Hu in E. unfold plan_command in *. rewrite Hl in *. cbn [stamp_births apply_command map stamp_birth_op] in E.
  rewrite create_txn in E. destruct (bt_contains k (resources c)) eqn:Ek.
  { injection E as <- _. by left. }
  cbn in E. injection E as <- <-. right. split; [done |]. unfold secret_fault.
  assert (bt_get k (unreadable c) = None) as Hk.
  { apply (untouched_keys _ _ Hu). cbn. auto. }
  unfold apply_put. cbv zeta. unfold bt_contains in Ek. destruct (bt_get k (resources c)); [done |].
  unfold finalizer_release_removal. cbn. by rewrite Hk.
Qed.

(** What a create answers is stored, readable, under the name it was given. *)
Lemma create_alone h namespace name body user fields now c v w :
  write debug debug_char sealer refusal_text births value_text vendored_schemas h namespace name (WCreate body) user Off fields
    now (mkWorld c []) = (Ok v, w) ->
  exists k c' stored, handler_key debug h namespace name = Ok k /\ w = mkWorld c' [] /\ get c' k = Some stored /\
    v = typed h stored /\ secret_fault c' k = None.
Proof.
  unfold write. intros Hw. apply bind_ok_inv in Hw as (k & w0 & Hk & Hw). unfold ret in Hk. injection Hk as Hk <-.
  apply bind_ok_inv in Hw as (expected & w1 & He & Hw). unfold ret in He. injection He as _ <-.
  cbn [attempts WRITE_ATTEMPTS] in Hw. apply bind_ok_inv in Hw as (answer & w2 & Ha & Hw).
  unfold attempt, bind, read in Ha. cbv zeta in Ha. cbn [step_others others stored_catalog] in Ha.
  apply bind_ok_inv in Ha as (planned & w3 & Hp & Ha). destruct (create_plans _ _ _ _ _ _ _ _ _ _ _ _ _ Hp) as [cand ->].
  apply reads_alone in Hp as ->; [| apply plan_reads]. cbn [is_dry] in Ha.
  apply bind_ok_inv in Ha as (done_ & w4 & Hc & Ha). unfold commit_plan in Hc.
  apply bind_ok_inv in Hc as (o & w5 & Ho & Hc). apply propose_alone in Ho as (c' & -> & Ho).
  unfold ret in Hc. injection Hc as Hc <-. apply propose_create in Ho as [Ho|[Ho Hf]]; [| | done]; rewrite Ho in Hc; injection Hc as <-.
  - unfold ret in Ha. destruct (is_some expected); [done |]. cbn in Ha. done.
  - apply bind_ok_inv in Ha as (back & w6 & Hb & Ha). unfold read_back, bind, read, ret in Hb. cbv zeta in Hb.
    cbn [step_others others stored_catalog] in Hb. destruct (get c' k) as [stored|] eqn:Eg; [| done].
    injection Hb as <- <-. unfold ret in Ha. injection Ha as <- <-. unfold ret in Hw. injection Hw as <- <-.
    by exists k, c', stored.
Qed.

(** The coordinates of an object of a collection. *)
Definition object_at (coords : ResourceCoords) (name : string) : ResourceCoords :=
  mkCoords (coords_group coords) (coords_version coords) (coords_namespace coords) (plural coords) (Some name) None.

(** A create that is answered 201 is readable at once: where nobody writes in
    between, a GET of the name in its body answers the very object the create
    answered, in whatever codec that request accepts, and leaves the store as
    it is. *)
Theorem post_then_get state coords params headers user raw t c codec v warnings w :
  coords_subresource coords = None -> dry_run_parse debug (w_dry_run params) = Ok Off ->
  resource_create debug debug_char sealer refusal_text births value_text vendored_schemas proto state coords params headers user
    raw t (mkWorld c []) = (mkResponse (Ok (Rendered 201 codec v)) warnings, w) ->
  exists h d body name, lookup state coords = Ok h /\ directive_parse (w_field_validation params) CreateOptions = Ok d /\
    (decode_object_body debug vendored_schemas proto h headers raw d).1 = Ok body /\
    ((jget "metadata" body ≫= jget "name") ≫= as_str) = Some name /\
    forall headers', resource_get debug state (object_at coords name) headers' w =
      (mkResponse (result_map (fun codec => Rendered 200 codec v) (codec_from_headers (accept_header headers'))) [], w).
Proof.
  intros Hs Hd Hc. unfold resource_create in Hc. rewrite Hd, Hs in Hc. cbn [orelse] in Hc.
  destruct (is_some (coords_name coords)); [done |]. destruct (lookup state coords) as [h|] eqn:Eh; [| done]. cbn [orelse] in Hc.
  destruct (directive_parse _ _) as [d|] eqn:Ed; [| done]. cbn [orelse] in Hc. unfold do_create in Hc.
  destruct (decode_object_body _ _ _ _ _ _ _) as [[body|e] warns] eqn:Eb; [| done].
  unfold bind at 1 in Hc. destruct (bind_ok _ _ _) as [r w1] eqn:Er in Hc. unfold ret in Hc. injection Hc as -> _ <-.
  apply bind_ok_inv in Er as (b & w2 & Hb & Er). unfold ret in Hb. injection Hb as <- <-.
  apply bind_ok_inv in Er as (v0 & w3 & Hv & Er). unfold ret, render in Er.
  destruct (codec_from_headers (accept_header headers)) as [codec0|]; [| done]. injection Er as <- <- <-.
  unfold create in Hv. destruct ((jget "metadata" body ≫= jget "name") ≫= as_str) as [name|] eqn:En; [| done].
  apply create_alone in Hv as (k & c' & stored & Hk & -> & Hg & -> & Hf).
  exists h, d, body, name. split_and!; [done | done | by rewrite Eb | done |]. intros headers'.
  unfold resource_get. change (lookup state (object_at coords name)) with (lookup state coords). rewrite Eh.
  cbn [orelse object_at resolve_subresource coords_subresource coords_name coords_namespace].
  destruct (codec_from_headers (accept_header headers')) as [codec'|]; cbn [orelse result_map]; [| done].
  unfold attach, do_get, handler_get, bind_ok, bind, read, ret. rewrite Hk. cbn [step_others others stored_catalog].
  cbv zeta. cbn [step_others others stored_catalog]. rewrite Hf. cbn. by rewrite Hg.
Qed.

End Created.

(** ** Tokens *)

Section Tokens.
Context `{SerdeJson} `{PatchSchemaEnv} `{OpDecoder} `{Blake3} `{ErrorText} `{JsonReader}.
Context `{ClaimsSerde} `{Ed25519} `{Base64Url} `{TokenText}.
Context {CL : ClaimsSerdeLaws} {EL : Ed25519Laws} {BL : Base64UrlLaws}.
Context (debug : string -> string) (proto : string -> result Decoded ApiError.t).

Lemma clamp_bounds n : TOKEN_LIFETIME_MIN_SECS <= clamp_token_lifetime n <= TOKEN_LIFETIME_MAX_SECS.
Proof. by apply Word.saturate_range. Qed.

(** (C13) A minted token is worth what the response says: it authenticates, for each
    audience named there and until the expiry named there, as the service account
    that was read, with its uid; the lifetime is between ten minutes and a day;
    and minting stores nothing. *)
Theorem minted_token_authenticates (issuer : SaIssuer) h namespace name headers raw now rfc created w v w' :
  Word.is_i64 now -> now + TOKEN_LIFETIME_MAX_SECS <= Word.i64_max ->
  do_token_request debug proto (Some issuer) h namespace name headers raw (Ok now) rfc created w =
    (Ok (Rendered 201 CJson v), w') ->
  exists ns sa token life audiences,
    namespace = Some ns /\ (handler_get debug h (Some ns) name w).1 = Ok sa /\ (exists n, w' = Nat.iter n step_others w) /\
    (jget "status" v ≫= jget "token") = Some (JString token) /\
    (jget "spec" v ≫= jget "expirationSeconds") = Some (JNumber (number_of_i64 life)) /\ 600 <= life <= 86400 /\
    (jget "status" v ≫= jget "expirationTimestamp") = JString <$> rfc (now + life) /\
    (jget "spec" v ≫= jget "audiences") = Some (JArray (map JString audiences)) /\ audiences <> [] /\
    forall audience now' admin_token, In audience audiences -> now' < now + life ->
      authenticate (bootstrap admin_token (Some (mkVerifier (verifying_key (signing issuer)) (token_issuer issuer) audience)) now')
        (mkCreds None (bearer_from_headers (Some ("Bearer " +:+ token)))) =
      Ok (mkUserInfo (subject_for ns name) (default "" ((jget "metadata" sa ≫= jget "uid") ≫= as_str)) (groups_for ns) []).
Proof.
  intros Hnow Hroom Hd. destruct (token_reads debug proto (Some issuer) h namespace name headers raw (Ok now) rfc created w) as [n Hn].
  rewrite Hd in Hn. cbn [snd] in Hn. unfold do_token_request in Hd. destruct namespace as [ns|]; [| done].
  apply bind_ok_inv in Hd as (sa & w1 & Hsa & Hd). cbv zeta in Hd.
  apply bind_ok_inv in Hd as (req & w2 & _ & Hd). apply bind_ok_inv in Hd as (now0 & w3 & Hn0 & Hd).
  unfold ret in Hn0. injection Hn0 as <- <-. apply bind_ok_inv in Hd as (expiry & w4 & Hx & Hd).
  unfold ret in Hx, Hd. injection Hx as Hx <-. injection Hd as <- _.
  set (life := request_lifetime (jget "spec" req)) in *. set (auds := request_audiences issuer (jget "spec" req)).
  pose proof (clamp_bounds (default TOKEN_LIFETIME_DEFAULT_SECS ((jget "spec" req ≫= jget "expirationSeconds") ≫= as_i64))) as Hl.
  fold (request_lifetime (jget "spec" req)) in Hl. fold life in Hl. unfold TOKEN_LIFETIME_MIN_SECS, TOKEN_LIFETIME_MAX_SECS in *.
  assert (Word.i64_add now life = now + life) as Hsum.
  { apply Word.i64_add_small. unfold Word.is_i64 in *. lia. }
  rewrite Hsum in Hx. unfold ok_or in Hx. destruct (rfc (now + life)) as [text|] eqn:Er; [| done]. injection Hx as <-.
  exists ns, sa, (issue (signing issuer) (token_issuer issuer) ns name
    (default "" ((jget "metadata" sa ≫= jget "uid") ≫= as_str)) auds (request_pod (jget "spec" req)) now life), life, auds.
  split_and!; try done; [by rewrite Hsa | by exists n | lia | lia | by rewrite Er | |].
  - unfold auds, request_audiences. destruct (_ ≫= as_array) as [l|]; [| done]. by destruct (omap as_str l).
  - intros audience now' admin_token Ha Hnow'. apply issued_authenticates; [done | done | by rewrite Hsum].
Qed.

End Tokens.

(** ** Witnesses, and what the verbs do not promise *)

#[local] Existing Instance numbered.
#[local] Existing Instance numbered_laws.
#[local] Existing Instance numbered_reader.
#[local] Existing Instance sample_env.
#[local] Existing Instance sample_ops.
#[local] Existing Instance zero_blake3.
#[local] Existing Instance sample_text.
#[local] Existing Instance hex_base64.
#[local] Existing Instance hex_base64_laws.
#[local] Existing Instance toy_ed25519.
#[local] Existing Instance toy_ed25519_laws.
#[local] Existing Instance sample_claims.
#[local] Existing Instance sample_claims_laws.
#[local] Existing Instance sample_token_text.

Definition no_proto (_ : string) : result Decoded ApiError.t := Err (ApiError.UnsupportedMediaType "no protobuf").

Definition accounts : StoreBackedHandler :=
  mkHandler "" "v1" "ServiceAccount" "serviceaccounts" true [Subresource.Token] None false None.

Definition sample_router : RouterState :=
  mkRouter [("", "v1", "pods", pods); ("", "v1", "serviceaccounts", accounts);
            ("policy", "v1", "poddisruptionbudgets", budgets)] None.

Definition sample_clocks : Clocks := mkClocks "now" (fun _ => "now") (Ok 1000) (fun _ => Some "then").

Definition sample_user : UserInfo := mkUserInfo "u" "" [] [].

Definition new_pod : json :=
  jobj [("metadata", jobj [("name", JString "web")]);
        ("spec", jobj [("containers", JArray [jobj [("name", JString "c"); ("image", JString "i:1")]])])].

Definition pods_of : ResourceCoords := mkCoords None None (Some "default") "pods" None None.

Definition post_pod (dry : option string) (accept : option string) : Response * World :=
  resource_create (fun s => s) (fun s => s) None (fun _ => "") "now" (fun _ => "") no_schemas no_proto sample_router pods_of
    (mkWriteParams dry None) (mkHeaders None accept) sample_user (json_text new_pod) sample_clocks (mkWorld empty []).

Definition patch_params : ApplyParams := mkApplyParams None false (Some "All") None.

Lemma dry_requests_write_nothing_witness :
  is_ok (outcome (post_pod (Some "All") None).1) = true /\
  exists n, (post_pod (Some "All") None).2 = Nat.iter n step_others (mkWorld empty []).
Proof.
  split; [by vm_compute |].
  exact (proj1 (dry_requests_write_nothing (fun s => s) (fun s => s) None (fun _ => "") "now" (fun _ => "") (fun _ => "")
    (fun _ => "") no_schemas no_proto sample_router pods_of (mkWriteParams (Some "All") None) patch_params
    (mkParams None None None None false None None None None None) (mkHeaders None None) sample_user (json_text new_pod) sample_clocks)
    eq_refl (mkWorld empty [])).
Defined.

Definition get_pod (w : World) : Response * World :=
  resource_get (fun s => s) sample_router (object_at pods_of "web") (mkHeaders None None) w.

Definition created (r : Response) : bool :=
  match outcome r with Ok (Rendered s CJson _) => eqb s 201 && eqb (response_warnings r) [] | _ => false end.

Lemma post_then_get_witness :
  exists v w, post_pod None None = (mkResponse (Ok (Rendered 201 CJson v)) [], w) /\
    get_pod w = (mkResponse (Ok (Rendered 200 CJson v)) [], w).
Proof.
  assert (created (post_pod None None).1 = true) as Hr by (by vm_compute).
  destruct (post_pod None None) as [[r ws] w] eqn:E. unfold created in Hr. cbn [fst outcome response_warnings] in Hr.
  destruct r as [[s [] v| |]|]; try discriminate Hr. apply andb_true_iff in Hr as [Hs Hw].
  apply (proj1 (eqb_true _ _)) in Hs as ->. apply (proj1 (eqb_true _ _)) in Hw as ->. exists v, w. split; [reflexivity |].
  destruct (post_then_get (fun s => s) (fun s => s) None (fun _ => "") "now" (fun _ => "") no_schemas no_proto sample_router pods_of
    (mkWriteParams None None) (mkHeaders None None) sample_user (json_text new_pod) sample_clocks empty CJson v [] w eq_refl eq_refl E)
    as (h & d & body & name & Hh & Hd & Hb & Hn & Hget).
  assert (name = "web") as ->; [| exact (Hget (mkHeaders None None))].
  assert (h = pods) as -> by (by injection Hh). assert (d = default_directive) as -> by (by injection Hd).
  assert (Some name = Some "web") as Hname; [| by injection Hname].
  rewrite <- Hn. clear - Hb. revert Hb. vm_compute. intros [= <-]. done.
Defined.

(** A service account, and a token for it that names no lifetime. *)
Definition account_key : ResourceKey := namespaced "" "v1" "ServiceAccount" "dev" "builder".

Definition account_catalog : ResourceCatalog :=
  (apply_logged empty (proposed (ResourceCommand.Put account_key
     (jobj [("metadata", jobj [("name", JString "builder"); ("uid", JString "u-1")])]) None Reason.Operator)) 1 1).2.

Definition sample_issuer : SaIssuer := mkIssuer _ (tt : @SigningKey toy_ed25519) "https://kubernetes.default.svc" "api".

Definition mint : result Answer ApiError.t * World :=
  do_token_request (fun s => s) no_proto (Some sample_issuer) accounts (Some "dev") "builder" (mkHeaders None None) "" (Ok 1000)
    (fun n => Some (pretty.pretty n)) "now" (mkWorld account_catalog []).

Definition minted (r : result Answer ApiError.t) : bool :=
  match r with Ok (Rendered 201 CJson _) => true | _ => false end.

Lemma minted_token_authenticates_witness :
  exists v token, mint = (Ok (Rendered 201 CJson v), mint.2) /\ (jget "status" v ≫= jget "token") = Some (JString token) /\
    authenticate (bootstrap None (Some (mkVerifier tt "https://kubernetes.default.svc" "api")) 4599)
      (mkCreds None (bearer_from_headers (Some ("Bearer " +:+ token)))) =
    Ok (mkUserInfo "system:serviceaccount:dev:builder" "u-1"
          ["system:authenticated"; "system:serviceaccounts"; "system:serviceaccounts:dev"] []).
Proof.
  assert (minted mint.1 = true) as Hm by (by vm_compute).
  assert (exists v, mint = (Ok (Rendered 201 CJson v), mint.2) /\
    (jget "spec" v ≫= jget "expirationSeconds") = Some (JNumber (PosInt 3600)) /\
    (jget "spec" v ≫= jget "audiences") = Some (JArray [JString "api"])) as (v & E & Hlife & Haud).
  { unfold minted in Hm. eexists. split; [vm_compute; reflexivity |]. by vm_compute. }
  destruct (minted_token_authenticates (fun s => s) no_proto sample_issuer accounts (Some "dev") "builder" (mkHeaders None None) ""
    1000 (fun n => Some (pretty.pretty n)) "now" (mkWorld account_catalog []) v mint.2 ltac:(done) ltac:(done) E)
    as (ns & sa & token & life & audiences & Hns & Hsa & _ & Ht & Hl & Hr & _ & Ha & _ & Hauth).
  injection Hns as <-. rewrite Hlife in Hl. rewrite Haud in Ha. exists v, token. split_and!; [done | done |].
  assert (life = 3600) as ->. { unfold number_of_i64 in Hl. destruct (0 <=? life) eqn:El; [by injection Hl as -> | lia]. }
  assert (audiences = ["api"]) as ->. { by destruct audiences as [|a [|]]; simplify_eq/=. }
  etransitivity; [apply (Hauth "api" 4599 None); [by left | lia] |]. clear - Hsa. revert Hsa. vm_compute. by intros [= <-].
Defined.

(** A PUT of a status marked as a dry run is committed: the verb never reads the
    parameter. *)
Lemma dry_run_status_persists :
  let out := resource_put (fun s => s) (fun s => s) None (fun _ => "") "now" (fun _ => "") (fun _ => "") no_schemas no_proto
    sample_router (mkCoords (Some "policy") (Some "v1") (Some "default") "poddisruptionbudgets" (Some "web") (Some "status"))
    (mkWriteParams (Some "All") None) (mkHeaders None None) sample_user (json_text new_status) sample_clocks
    (mkWorld web_catalog []) in
  is_ok (outcome out.1) = true /\
  revision_of (stored_catalog out.2) = revision_of web_catalog + 1 /\
  status_int (stored_at (stored_catalog out.2) budget_key).1 "disruptionsAllowed" = Some 0 /\
  status_int (stored_at web_catalog budget_key).1 "disruptionsAllowed" <> Some 0.
Proof. by vm_compute. Qed.

(** A create is committed before the response is negotiated: a client that accepts
    no served type is told 406 and the object is there. *)
Lemma refused_but_stored :
  let out := post_pod None (Some "text/html") in
  match outcome out.1 with Err e => ApiError.code e = 406 | Ok _ => False end /\
  is_some (get (stored_catalog out.2) pod_key) = true.
Proof. by vm_compute. Qed.
