(* ===== verification/ObjectMeta.v ===== *)
(** * What the controllers read and write of an object

    [engenho-controllers/src/meta.rs], [owner.rs] and [condition.rs]: the
    accessors of [metadata], the total writers [object_mut] and [array_mut] with
    their [ShapeError], owner references, and one condition set by its type.

    A writer that borrows a slot and then assigns into it is a function of the
    slot's content: [object_mut path f v] is [v] with [f] done to the map at
    [path]. *)

From Stdlib Require Import Ascii String.
From stdpp Require Import base tactics option list strings numbers.
From S2P Require Import Prelude Text BTreeMap Json Resource WatchHistory Command Read.
From S2P Require Import PatchApply Catalog Handler Scale.

Local Open Scope string_scope.
Local Open Scope Z_scope.

(** ** Accessors *)

Definition non_empty_str (s : string) : option string := if eqb s "" then None else Some s.

Definition obj_uid (v : json) : option string := jget "metadata" v >>? jget "uid" >>? as_str >>? non_empty_str.
Definition obj_name (v : json) : option string := jget "metadata" v >>? jget "name" >>? as_str.
Definition obj_namespace (v : json) : option string := jget "metadata" v >>? jget "namespace" >>? as_str.

Definition deletion_timestamp (v : json) : option string :=
  jget "metadata" v >>? jget "deletionTimestamp" >>? as_str >>? non_empty_str.

Definition obj_terminating (v : json) : bool := is_some (deletion_timestamp v).

Definition has_finalizer (v : json) (finalizer : string) : bool :=
  match jget "metadata" v >>? jget "finalizers" >>? as_array with
  | Some l => existsb (fun f => eqb (as_str f) (Some finalizer)) l
  | None => false
  end.

(** ** Shapes *)

Inductive Container : Type := CObject | CArray.

Definition container_text (c : Container) : string :=
  match c with CObject => "an object" | CArray => "an array" end.

Inductive ShapeError : Type :=
  | Wrong (path : list string) (expected : Container) (found : string)
  | NotInt (e : NotAnInteger).

Definition path_display (p : list string) : string :=
  match p with [] => "the object itself" | _ => String.concat "." p end.

Definition shape_error_text (e : ShapeError) : string :=
  match e with
  | Wrong path expected found =>
      path_display path +:+ " is " +:+ found +:+ ", expected " +:+ container_text expected
  | NotInt e => not_an_integer_text e
  end.

Definition under (prefix : list string) (e : ShapeError) : ShapeError :=
  match e with
  | Wrong path expected found => Wrong (prefix ++ path) expected found
  | NotInt e => NotInt (mkNotAnInteger (prefix ++ nai_path e) (nai_found e))
  end.

(** The slot as a map or as an array; null is empty. *)
Definition object_slot (path : list string) (slot : json) : result (btmap string json) ShapeError :=
  match slot with
  | JObject m => Ok m
  | JNull => Ok []
  | JBool _ => Err (Wrong path CObject "a boolean")
  | JNumber _ => Err (Wrong path CObject "a number")
  | JString _ => Err (Wrong path CObject "a string")
  | JArray _ => Err (Wrong path CObject "an array")
  end.

Definition array_slot (path : list string) (slot : json) : result (list json) ShapeError :=
  match slot with
  | JArray l => Ok l
  | JNull => Ok []
  | JBool _ => Err (Wrong path CArray "a boolean")
  | JNumber _ => Err (Wrong path CArray "a number")
  | JString _ => Err (Wrong path CArray "a string")
  | JObject _ => Err (Wrong path CArray "an object")
  end.

(** The slot at [path] below [here], every step above it made a map, given to
    [k] and put back. *)
Fixpoint at_slot (here path : list string) (k : json -> result json ShapeError) (v : json) : result json ShapeError :=
  match path with
  | [] => k v
  | step :: path =>
      let? m := object_slot here v in
      let? w := at_slot (here ++ [step]) path k (default JNull (bt_get step m)) in
      Ok (JObject (bt_insert step w m))
  end.

Definition object_mut (path : list string) (f : btmap string json -> btmap string json) (v : json)
  : result json ShapeError :=
  at_slot [] path (fun slot => result_map (fun m => JObject (f m)) (object_slot path slot)) v.

Definition array_mut (path : list string) (f : list json -> list json) (v : json) : result json ShapeError :=
  at_slot [] path (fun slot => result_map (fun l => JArray (f l)) (array_slot path slot)) v.

(** ** [owner.rs] *)

Definition OWNER_REFERENCES : list string := ["metadata"; "ownerReferences"].

Record OwnerReference : Type := mkOwner {
  or_api_version : string;
  or_kind : string;
  or_name : string;
  or_uid : string;
  or_controller : bool;
  or_block_owner_deletion : bool
}.

(** [OwnerReference::to_value]. *)
Definition owner_value (o : OwnerReference) : json :=
  jobj ([("apiVersion", JString (or_api_version o)); ("kind", JString (or_kind o));
         ("name", JString (or_name o)); ("uid", JString (or_uid o))] ++
        (if or_controller o then [("controller", JBool true)] else []) ++
        (if or_block_owner_deletion o then [("blockOwnerDeletion", JBool true)] else []))%list.

Definition ref_uid (r : json) : option string := jget "uid" r >>? as_str.

Definition add_reference (o : OwnerReference) (refs : list json) : list json :=
  if existsb (fun r => eqb (ref_uid r) (Some (or_uid o))) refs then refs else (refs ++ [owner_value o])%list.

Definition set_owner_reference (child : json) (o : OwnerReference) : result json ShapeError :=
  array_mut OWNER_REFERENCES (add_reference o) child.

(** [serde(default)] on a [bool]. *)
Definition flag_field (k : string) (r : json) : option bool :=
  match jget k r with None => Some false | Some (JBool b) => Some b | Some _ => None end.

(** [serde_json::from_value::<OwnerReference>] of an object. *)
Definition de_owner (r : json) : option OwnerReference :=
  a ← (jget "apiVersion" r >>? as_str); k ← (jget "kind" r >>? as_str);
  n ← (jget "name" r >>? as_str); u ← (jget "uid" r >>? as_str);
  c ← flag_field "controller" r; b ← flag_field "blockOwnerDeletion" r;
  Some (mkOwner a k n u c b).

Definition is_controller_ref (r : json) : bool :=
  match jget "controller" r with Some (JBool b) => b | _ => false end.

Definition controller_ref (r : json) : option OwnerReference :=
  if is_controller_ref r
  then o ← de_owner r; if eqb (or_uid o) "" then None else Some o
  else None.

Fixpoint find_controller (refs : list json) : option OwnerReference :=
  match refs with
  | [] => None
  | r :: refs => match controller_ref r with Some o => Some o | None => find_controller refs end
  end.

Definition controlling_owner (child : json) : option OwnerReference :=
  jget "metadata" child >>? jget "ownerReferences" >>? as_array >>? find_controller.

Definition is_owned_by (child : json) (owner_uid : string) : bool :=
  match controlling_owner child with Some o => eqb (or_uid o) owner_uid | None => false end.

Definition owner_ref_for (parent : json) (api_version kind : string) : option OwnerReference :=
  n ← obj_name parent; u ← obj_uid parent; Some (mkOwner api_version kind n u true true).

(** ** [condition.rs] *)

Inductive ConditionStatus : Type := CTrue | CFalse | CUnknown.

Definition condition_status_str (s : ConditionStatus) : string :=
  match s with CTrue => "True" | CFalse => "False" | CUnknown => "Unknown" end.

Record DesiredCondition : Type := mkCondition {
  condition_type : string;
  cond_status : ConditionStatus;
  cond_reason : string;
  cond_message : string
}.

Definition cond_text (condition : json) (field : string) : string := default "" (jget field condition >>? as_str).

Definition is_recorded_by (d : DesiredCondition) (recorded : json) : bool :=
  eqb (cond_text recorded "status") (condition_status_str (cond_status d)) &&
  eqb (cond_text recorded "reason") (cond_reason d) && eqb (cond_text recorded "message") (cond_message d).

Definition is_type_of (d : DesiredCondition) (condition : json) : bool :=
  eqb (jget "type" condition >>? as_str) (Some (condition_type d)).

Definition write_into (d : DesiredCondition) (transition : string) (slot : btmap string json) : btmap string json :=
  bt_insert "lastTransitionTime" (JString transition)
    (bt_insert "message" (JString (cond_message d))
      (bt_insert "reason" (JString (cond_reason d))
        (bt_insert "status" (JString (condition_status_str (cond_status d)))
          (bt_insert "type" (JString (condition_type d)) slot)))).

Inductive ConditionUpsert : Type := UpsertUnchanged | UpsertChanged (conditions : list json).

(** [into_status_fields]. *)
Definition status_fields (u : ConditionUpsert) : option (btmap string json) :=
  match u with
  | UpsertUnchanged => None
  | UpsertChanged l => Some [("conditions", JArray l)]
  end.

(** [conditions.retain]: the duplicates of the type go, the first stays. *)
Fixpoint collapse (d : DesiredCondition) (seen : bool) (l : list json) : list json :=
  match l with
  | [] => []
  | c :: l =>
      if is_type_of d c && seen then collapse d seen l else c :: collapse d (seen || is_type_of d c) l
  end.

(** The first condition of the type replaced by what [f] makes of it. *)
Fixpoint at_type (d : DesiredCondition) (f : json -> result json ShapeError) (l : list json) : result (list json) ShapeError :=
  match l with
  | [] => Ok []
  | c :: l =>
      if is_type_of d c then result_map (fun c => c :: l) (f c) else result_map (cons c) (at_type d f l)
  end.

Definition transition_time (d : DesiredCondition) (recorded : json) (now : string) : string :=
  match jget "lastTransitionTime" recorded >>? as_str with
  | Some at_ => if eqb (cond_text recorded "status") (condition_status_str (cond_status d)) then at_ else now
  | None => now
  end.

Definition upsert_condition (object : json) (d : DesiredCondition) (now : string) : result ConditionUpsert ShapeError :=
  let status := default JNull (jget "status" object) in
  let? m := result_map_err (under ["status"]) (object_slot [] status) in
  let? before :=
    result_map_err (under ["status"]) (array_slot ["conditions"] (default JNull (bt_get "conditions" m))) in
  let conditions := collapse d false before in
  match List.find (is_type_of d) conditions with
  | None => Ok (UpsertChanged (conditions ++ [JObject (write_into d now [])]))
  | Some recorded =>
      if Nat.eqb (length conditions) (length before) && is_recorded_by d recorded then Ok UpsertUnchanged
      else
        result_map UpsertChanged
          (at_type d (fun c => result_map_err (under ["status"; "conditions"])
                                (object_mut [] (write_into d (transition_time d recorded now)) c)) conditions)
  end.

(** ** Facts *)

(** Reading back what was written below a path of two fields. *)
Lemma object_mut_root f v v' : object_mut [] f v = Ok v' -> exists m, object_slot [] v = Ok m /\ v' = JObject (f m).
Proof. unfold object_mut. cbn. destruct (object_slot [] v); [| done]. cbn. intros [= <-]. by eexists. Qed.

Lemma object_slot_get path v m k : object_slot path v = Ok m -> jget k v = bt_get k m.
Proof. destruct v; cbn; intros E; try done; by injection E as <-. Qed.

Section Conditions.
Variable (d : DesiredCondition).

Lemma written_type t m : is_type_of d (JObject (write_into d t m)) = true.
Proof.
  unfold is_type_of, write_into. cbn [jget].
  rewrite !bt_get_insert_ne by done. rewrite bt_get_insert_eq. cbn. apply eqb_refl.
Qed.

Lemma written_recorded t m : is_recorded_by d (JObject (write_into d t m)) = true.
Proof.
  unfold is_recorded_by, cond_text, write_into. cbn [jget].
  repeat first [rewrite bt_get_insert_eq | rewrite bt_get_insert_ne by done]. cbn. by rewrite !eqb_refl.
Qed.

Lemma written_time t m : (jget "lastTransitionTime" (JObject (write_into d t m)) >>? as_str) = Some t.
Proof. unfold write_into. cbn [jget]. by rewrite bt_get_insert_eq. Qed.

Definition of_type (l : list json) : list json := List.filter (is_type_of d) l.
Definition of_others (l : list json) : list json := List.filter (fun c => negb (is_type_of d c)) l.

Lemma collapse_others l seen : of_others (collapse d seen l) = of_others l.
Proof.
  revert seen. induction l as [|c l IH]; intros seen; [done |]. cbn [collapse].
  destruct (is_type_of d c) eqn:E; cbn [andb].
  - destruct seen; cbn [orb of_others List.filter]; rewrite E; cbn [negb]; apply IH.
  - cbn [of_others List.filter]. rewrite E. cbn [negb]. f_equal. apply IH.
Qed.

Lemma collapse_seen l : of_type (collapse d true l) = [].
Proof.
  induction l as [|c l IH]; [done |]. cbn [collapse]. destruct (is_type_of d c) eqn:E; cbn [andb orb]; [done |].
  cbn [of_type List.filter]. by rewrite E.
Qed.

Lemma collapse_type l : of_type (collapse d false l) = match List.find (is_type_of d) l with Some c => [c] | None => [] end.
Proof.
  induction l as [|c l IH]; [done |]. cbn [collapse andb List.find]. rewrite andb_false_r. cbn [orb of_type List.filter].
  destruct (is_type_of d c) eqn:E; [| done]. f_equal. apply collapse_seen.
Qed.

Lemma collapse_find l : List.find (is_type_of d) (collapse d false l) = List.find (is_type_of d) l.
Proof.
  induction l as [|c l IH]; [done |]. cbn [collapse List.find]. rewrite andb_false_r. cbn [orb List.find].
  by destruct (is_type_of d c).
Qed.

Lemma split_length l : (length (of_type l) + length (of_others l))%nat = length l.
Proof. induction l as [|c l IH]; [done |]. unfold of_type, of_others in *. cbn. destruct (is_type_of d c); cbn; lia. Qed.

(** Nothing collapses exactly when the type is there once at most. *)
Lemma collapse_length l : length (collapse d false l) = length l <-> (length (of_type l) <= 1)%nat.
Proof.
  rewrite <-(split_length l), <-(split_length (collapse d false l)), collapse_others, collapse_type.
  assert (length (match List.find (is_type_of d) l with Some c => [c] | None => [] end) = Nat.min 1 (length (of_type l))) as ->;
    [| lia].
  induction l as [|c l IH]; [done |]. unfold of_type in *. cbn. destruct (is_type_of d c); cbn; [lia | done].
Qed.

Lemma at_type_spec f c' l l' : at_type d f l = Ok l' ->
  (forall c, is_type_of d c = true -> In c l -> f c = Ok c') -> is_type_of d c' = true ->
  List.find (is_type_of d) l <> None -> (length (of_type l) <= 1)%nat ->
  of_type l' = [c'] /\ of_others l' = of_others l.
Proof.
  intros Ha Hf Hc Hex Hone. revert l' Ha Hf Hex Hone. induction l as [|c l IH]; intros l' Ha Hf Hex Hone; [done |].
  cbn [at_type List.find] in *. unfold of_type, of_others in *. cbn [List.filter] in *. destruct (is_type_of d c) eqn:E.
  - rewrite (Hf c E) in Ha by (by left). injection Ha as <-. cbn [List.filter negb]. rewrite Hc. cbn [negb].
    split; [| done]. f_equal. destruct (List.filter (is_type_of d) l); [done | cbn in Hone; lia].
  - destruct (at_type d f l) as [l2|] eqn:El; [| done]. injection Ha as <-. cbn [List.filter]. rewrite E. cbn [negb].
    destruct (IH l2 eq_refl) as [H1 H2]; [intros; apply Hf; [done | by right] | done | done |].
    by rewrite H1, H2.
Qed.

Lemma find_of_type l : List.find (is_type_of d) l = List.hd_error (of_type l).
Proof. induction l as [|c l IH]; [done |]. unfold of_type in *. cbn. by destruct (is_type_of d c). Qed.

(** The conditions an object carries. *)
Definition conditions_of (object : json) : list json :=
  default [] (jget "status" object >>? jget "conditions" >>? as_array).

Lemma conditions_read object m l : object_slot [] (default JNull (jget "status" object)) = Ok m ->
  array_slot ["conditions"] (default JNull (bt_get "conditions" m)) = Ok l -> conditions_of object = l.
Proof.
  intros Hm Hl. unfold conditions_of. destruct (jget "status" object) as [s|]; cbn in *.
  - rewrite (object_slot_get _ _ _ _ Hm). destruct (bt_get "conditions" m) as [[]|]; cbn in *; congruence.
  - injection Hm as <-. cbn in Hl. congruence.
Qed.

(** A condition that transitions carries [now]; one whose status stays carries
    the time it had. *)
Definition carried_time (before : list json) (now : string) (c : json) : Prop :=
  (jget "lastTransitionTime" c >>? as_str) =
  Some (match List.hd_error (of_type before) with
        | Some r =>
            if eqb (cond_text r "status") (condition_status_str (cond_status d))
            then default now (jget "lastTransitionTime" r >>? as_str) else now
        | None => now
        end).

(** Setting a condition leaves exactly one of its type, saying what was asked,
    and every other condition as it was and where it was.  Nothing is written
    exactly when that one is there already, so that asserting a condition again
    writes nothing; the transition time moves only with the status. *)
Theorem upsert_condition_settles object now u :
  upsert_condition object d now = Ok u ->
  exists after,
    after = match u with UpsertUnchanged => conditions_of object | UpsertChanged l => l end /\
    of_others after = of_others (conditions_of object) /\
    (exists c, of_type after = [c] /\ is_recorded_by d c = true /\
               (u <> UpsertUnchanged -> carried_time (conditions_of object) now c)) /\
    (u = UpsertUnchanged <->
       exists c, of_type (conditions_of object) = [c] /\ is_recorded_by d c = true).
Proof.
  intros Hu. unfold upsert_condition in Hu.
  destruct (object_slot [] _) as [m|] eqn:Em; [| done]. cbn [result_map_err result_bind] in Hu.
  destruct (array_slot _ _) as [before|] eqn:Eb; [| done]. cbn [result_map_err result_bind] in Hu.
  rewrite (conditions_read _ _ _ Em Eb). rewrite collapse_find, find_of_type in Hu. unfold carried_time.
  pose proof (collapse_type before) as Ht. rewrite find_of_type in Ht. pose proof (collapse_length before) as Hlen.
  destruct (of_type before) as [|r rest] eqn:Er; cbn [hd_error] in *.
  - injection Hu as <-. eexists. split; [done |]. unfold of_type, of_others in *. rewrite !List.filter_app.
    fold (of_others (collapse d false before)). rewrite collapse_others, Ht.
    cbn [List.filter]. rewrite written_type. cbn [negb]. rewrite app_nil_r. split; [done |]. split.
    + eexists. split; [done |]. split; [apply written_recorded |]. intros _. apply written_time.
    + split; [done | by intros (? & ? & _)].
  - destruct (Nat.eqb _ _ && _) eqn:Ek.
    + injection Hu as <-. apply andb_true_iff in Ek as [El Erec]. apply Nat.eqb_eq in El.
      assert (rest = []) as -> by (apply Hlen in El; destruct rest; [done | cbn in El; lia]).
      exists before. rewrite Er. split_and!; [done | done | by exists r | by split; [exists r |]].
    + destruct (at_type _ _ _) as [l|] eqn:Ea in Hu; [| done]. injection Hu as <-. exists l. split; [done |].
      assert (exists m', object_slot [] r = Ok m') as [m' Hm'].
      { assert (is_type_of d r = true) as Hr.
        { assert (In r (of_type before)) as Hin by (rewrite Er; by left). unfold of_type in Hin.
          by apply filter_In in Hin as [_ ?]. }
        unfold is_type_of in Hr. destruct r; try (cbn in Hr; discriminate Hr). by eexists. }
      destruct (at_type_spec _ (JObject (write_into d (transition_time d r now) m')) _ _ Ea) as [H1 H2].
      * intros c Hc Hin. assert (c = r) as ->.
        { assert (In c (of_type (collapse d false before))) as Hi by (apply filter_In; done). rewrite Ht in Hi.
          by destruct Hi as [-> |[]]. }
        unfold object_mut. cbn [at_slot]. by rewrite Hm'.
      * apply written_type.
      * by rewrite find_of_type, Ht.
      * rewrite Ht. cbn. lia.
      * split; [by rewrite H2, collapse_others |]. split.
        { eexists. split; [apply H1 |]. split; [apply written_recorded |]. intros _. rewrite written_time. f_equal.
          unfold transition_time. destruct (jget _ r >>? as_str); cbn; by case_match. }
        { split; [done |]. intros (c & Hc & Hrec). injection Hc as -> ->.
          rewrite Hrec, andb_true_r in Ek. apply Nat.eqb_neq in Ek. exfalso. apply Ek, Hlen. cbn. lia. }
Qed.

End Conditions.

Lemma upsert_condition_settles_witness :
  let d := mkCondition "Ready" CFalse "Down" "gone" in
  let condition s := jobj [("type", JString "Ready"); ("status", JString s); ("lastTransitionTime", JString "t0")] in
  let pod := jobj [("status", jobj [("conditions", JArray [condition "True"; JString "other"; condition "False"])])] in
  exists u, upsert_condition pod d "t1" = Ok u /\ u <> UpsertUnchanged /\
  exists after, after = match u with UpsertUnchanged => conditions_of pod | UpsertChanged l => l end /\
    of_others d after = [JString "other"] /\ exists c, of_type d after = [c] /\ carried_time d (conditions_of pod) "t1" c.
Proof.
  intros d condition pod. eexists. split; [vm_compute; reflexivity |]. split; [done |].
  destruct (upsert_condition_settles d pod "t1" _ ltac:(vm_compute; reflexivity)) as (after & H1 & H2 & (c & Hc & _ & Ht) & _).
  exists after. split; [exact H1 |]. split; [rewrite H2; reflexivity |]. exists c. split; [exact Hc |]. by apply Ht.
Defined.
