(* ===== verification/Sweep.v ===== *)
(** * One object's failure costs only that object

    [engenho-controllers/src/error.rs], [effect.rs] and [sweep.rs]: the errors of
    a controller with their class and scope, what a write did, and the sweep that
    reconciles every object of a list, isolating failures.

    The per-object work is an operation on the store other writers step
    ([Handler.M]); the sweep's lock is held for the whole sweep, so its memory is
    threaded.  The Events a sweep records are collected in order; what a sink does
    with them, and logging, are not modelled.  The one clock read of a sweep is an
    argument. *)

From Stdlib Require Import Ascii String.
From stdpp Require Import base tactics option list strings numbers.
From S2P Require Import Prelude Text BTreeMap Json Resource WatchHistory Command Read.
From S2P Require Import PatchApply Catalog Handler Scale Backoff ObjectMeta.

Local Open Scope string_scope.
Local Open Scope Z_scope.
Local Open Scope handler_scope.

(** ** Errors *)

(** [shigoto]'s failure classes, as far as they are told apart. *)
Inductive FailureKind : Type := Declarative | Transient.

Inductive StoreError : Type :=
  | ConfigInvalid (why : string)
  | InitializeFailed (why : string)
  | ClientWriteFailed (why : string)
  | Fatal (why : string)
  | Persist (why : string)
  | NoLeader
  | LeaderUnreachable (leader : Z) (why : string)
  | SecretUnreadable (subject : string) (fault : SealFault.t).

Inductive Unreclaimable : Type := UnsupportedPolicy | NoDeleter | ForeignDirectory.

Inductive ReclaimError : Type :=
  | NotReclaimable (u : Unreclaimable)
  | RemoveDir (why : string)
  | CsiDelete (driver reason : string).

Inductive PanicMessage : Type := PanicText (s : string) | PanicOpaque.

Module ControllerError.
Inductive t : Type :=
  | Store (e : StoreError)
  | InvalidResource (why : string)
  | Shape (e : ShapeError)
  | Internal (why : string)
  | Reclaim (e : ReclaimError)
  | Panicked (p : PanicMessage).
End ControllerError.

Inductive ErrorScope : Type := Item | SweepScope.

Definition store_class (e : StoreError) : FailureKind :=
  match e with
  | ClientWriteFailed _ | Persist _ | NoLeader | LeaderUnreachable _ _ => Transient
  | ConfigInvalid _ | InitializeFailed _ | Fatal _ | SecretUnreadable _ _ => Declarative
  end.

Definition store_scope (e : StoreError) : ErrorScope :=
  match e with
  | SecretUnreadable _ _ => Item
  | ClientWriteFailed _ | ConfigInvalid _ | InitializeFailed _ | Fatal _ | Persist _ | NoLeader
  | LeaderUnreachable _ _ => SweepScope
  end.

Definition reclaim_class (e : ReclaimError) : FailureKind :=
  match e with NotReclaimable _ => Declarative | RemoveDir _ | CsiDelete _ _ => Transient end.

Definition classify (e : ControllerError.t) : FailureKind :=
  match e with
  | ControllerError.Store e => store_class e
  | ControllerError.InvalidResource _ | ControllerError.Shape _ | ControllerError.Panicked _ => Declarative
  | ControllerError.Internal _ => Transient
  | ControllerError.Reclaim e => reclaim_class e
  end.

Definition scope (e : ControllerError.t) : ErrorScope :=
  match e with
  | ControllerError.Store e => store_scope e
  | ControllerError.InvalidResource _ | ControllerError.Shape _ | ControllerError.Internal _
  | ControllerError.Reclaim _ => Item
  | ControllerError.Panicked _ => SweepScope
  end.

(** ** Effects *)

Inductive Refusal : Type := RConflict | RPatchRejected | RApplyConflict.

Definition refusal_note (r : Refusal) : string :=
  match r with
  | RConflict => "the store refused the write: the object changed since it was read"
  | RPatchRejected => "the store refused the write: the patch body was rejected"
  | RApplyConflict => "the store refused the write: a field is owned by another manager"
  end.

Module Effect.
Inductive t : Type := Written | Unchanged | Rejected (r : Refusal).

Definition of_op (op : ResourceOp.t) : t :=
  match op with
  | ResourceOp.Created | ResourceOp.Replaced | ResourceOp.Patched | ResourceOp.Deleted
  | ResourceOp.DeletionPending => Written
  | ResourceOp.NoOp | ResourceOp.Unchanged => Unchanged
  | ResourceOp.Conflict => Rejected RConflict
  | ResourceOp.PatchRejected => Rejected RPatchRejected
  | ResourceOp.ApplyConflict => Rejected RApplyConflict
  end.

Definition answered (changed : bool) : t := if changed then Written else Unchanged.

Definition and (a b : t) : t :=
  match a, b with
  | Written, _ | _, Written => Written
  | Rejected r, _ | _, Rejected r => Rejected r
  | Unchanged, Unchanged => Unchanged
  end.

Definition landed (a : t) : bool := match a with Written => true | _ => false end.
End Effect.

(** ** Outcomes *)

Module ObjectOutcome.
Inductive t : Type :=
  | Changed
  | Unchanged
  | Skipped (note : option string)
  | Failed (e : ControllerError.t).

Definition of_effect (e : Effect.t) : t :=
  match e with
  | Effect.Written => Changed
  | Effect.Unchanged => Unchanged
  | Effect.Rejected r => Skipped (Some (refusal_note r))
  end.

(** [settle]: an error of the object stays with it, any other ends the sweep. *)
Definition settle (r : result t ControllerError.t) : result t ControllerError.t :=
  match r with
  | Ok o => Ok o
  | Err e => match scope e with Item => Ok (Failed e) | SweepScope => Err e end
  end.
End ObjectOutcome.

Record SweepReport : Type := mkSweepReport {
  r_changed : nat;
  r_unchanged : nat;
  r_skipped : nat;
  r_failed : nat;
  r_note : option string;
  r_retry_after : option Duration
}.

Definition empty_report : SweepReport := mkSweepReport 0 0 0 0 None None.

Definition examined (r : SweepReport) : nat := r_changed r + r_unchanged r + r_skipped r + r_failed r.

Definition record_outcome (r : SweepReport) (o : ObjectOutcome.t) : SweepReport :=
  match o with
  | ObjectOutcome.Changed =>
      mkSweepReport (S (r_changed r)) (r_unchanged r) (r_skipped r) (r_failed r) (r_note r) (r_retry_after r)
  | ObjectOutcome.Unchanged =>
      mkSweepReport (r_changed r) (S (r_unchanged r)) (r_skipped r) (r_failed r) (r_note r) (r_retry_after r)
  | ObjectOutcome.Skipped note =>
      mkSweepReport (r_changed r) (r_unchanged r) (S (r_skipped r)) (r_failed r)
        (match note with Some n => Some n | None => r_note r end) (r_retry_after r)
  | ObjectOutcome.Failed _ =>
      mkSweepReport (r_changed r) (r_unchanged r) (r_skipped r) (S (r_failed r)) (r_note r) (r_retry_after r)
  end.

Definition min_duration (a : option Duration) (b : Duration) : option Duration :=
  Some (match a with Some a => Z.min a b | None => b end).

Definition owe (r : SweepReport) (after : Duration) : SweepReport :=
  mkSweepReport (r_changed r) (r_unchanged r) (r_skipped r) (r_failed r) (r_note r) (min_duration (r_retry_after r) after).

(** [SweepReport::then]. *)
Definition report_then (a b : SweepReport) : SweepReport :=
  mkSweepReport (r_changed a + r_changed b) (r_unchanged a + r_unchanged b) (r_skipped a + r_skipped b)
    (r_failed a + r_failed b)
    (match r_note b with Some n => Some n | None => r_note a end)
    (match r_retry_after a, r_retry_after b with
     | Some x, Some y => Some (Z.min x y)
     | Some x, None => Some x
     | None, y => y
     end).

(** ** The sweep *)

Definition TRANSIENT_RETRY : Curve := mkCurve 1000 60000.

Inductive Announced : Type := Never | AtVersion (v : option string).
#[global] Instance announced_eq_dec : EqDecision Announced.
Proof. solve_decision. Defined.

Record Remembered : Type := mkRemembered { rem_streak : Streak; rem_announced : Announced }.

Record InvolvedObject : Type := mkInvolved {
  inv_api_version : string;
  inv_object_kind : string;
  inv_namespace : option string;
  inv_object_name : string;
  inv_uid : option string
}.

Record EventRecord : Type := mkEvent {
  ev_involved : InvolvedObject;
  ev_reason : string;
  ev_message : string;
  ev_component : string;
  ev_timestamp : string
}.

Record Sweep : Type := mkSweep {
  sw_component : string;
  sw_failure_reason : string;
  sw_memory : btmap ResourceKey Remembered
}.

Definition sweep_new (component failure_reason : string) : Sweep := mkSweep component failure_reason [].

Definition resource_version (value : json) : option string := jget "metadata" value >>? jget "resourceVersion" >>? as_str.

Definition involved_object (k : ResourceKey) (value : json) : InvolvedObject :=
  mkInvolved (if eqb (group k) "" then version k else group k +:+ "/" +:+ version k) (kind k) (namespace k) (name k)
    (jget "metadata" value >>? jget "uid" >>? as_str).

(** What one sweep carries from object to object. *)
Record Sweeping : Type := mkSweeping {
  s_memory : btmap ResourceKey Remembered;
  s_report : SweepReport;
  s_failing : list ResourceKey;
  s_events : list EventRecord
}.

Section Run.
(** [error_text] is the text of an error. *)
Context (error_text : ControllerError.t -> string).
Context (s : Sweep) (now : string).

Definition fresh_memory : Remembered := mkRemembered (streak_new TRANSIENT_RETRY) Never.

(** The body of the loop, after the object's outcome. *)
Definition absorb (k : ResourceKey) (value : json) (outcome : ObjectOutcome.t) (st : Sweeping) : Sweeping :=
  match outcome with
  | ObjectOutcome.Failed e =>
      let seen := default fresh_memory (bt_get k (s_memory st)) in
      let '(owed, streak) := miss (rem_streak seen) in
      let failing := k :: s_failing st in
      match classify e with
      | Declarative =>
          let version := AtVersion (resource_version value) in
          mkSweeping (bt_insert k (mkRemembered streak version) (s_memory st)) (record_outcome (s_report st) outcome) failing
            (if decide (rem_announced seen = version) then s_events st
             else s_events st ++ [mkEvent (involved_object k value) (sw_failure_reason s) (error_text e)
                                    (sw_component s) now])
      | Transient =>
          mkSweeping (bt_insert k (mkRemembered streak (rem_announced seen)) (s_memory st))
            (record_outcome (owe (s_report st) owed) outcome) failing (s_events st)
      end
  | _ => mkSweeping (bt_remove k (s_memory st)) (record_outcome (s_report st) outcome) (s_failing st) (s_events st)
  end.

Context (per_object : ResourceKey -> json -> M (result ObjectOutcome.t ControllerError.t)).

Fixpoint sweep_loop (objects : list (ResourceKey * json)) (st : Sweeping)
  : M (result unit ControllerError.t * Sweeping) :=
  match objects with
  | [] => ret (Ok tt, st)
  | (k, value) :: objects =>
      let! r := per_object k value in
      match r with
      | Err e => ret (Err e, st)
      | Ok outcome => sweep_loop objects (absorb k value outcome st)
      end
  end.

(** [Sweep::run]: the report or the error that ended it, the sweep as it is
    left and the Events. *)
Definition run (objects : list (ResourceKey * json))
  : M (result SweepReport ControllerError.t * Sweep * list EventRecord) :=
  let! out := sweep_loop objects (mkSweeping (sw_memory s) empty_report [] []) in
  let '(r, st) := out in
  ret (match r with
       | Err e => (Err e, mkSweep (sw_component s) (sw_failure_reason s) (s_memory st), s_events st)
       | Ok _ =>
           (Ok (s_report st),
            mkSweep (sw_component s) (sw_failure_reason s)
              (List.filter (fun e => existsb (eqb e.1) (s_failing st)) (s_memory st)), s_events st)
       end).

End Run.

(** ** Isolation *)

Section Isolation.
Context (error_text : ControllerError.t -> string) (s : Sweep) (now : string).

(** An object with what its own work answered. *)
Definition Visited : Type := ResourceKey * json * ObjectOutcome.t.

Definition failure_of (o : ObjectOutcome.t) : option ControllerError.t :=
  match o with ObjectOutcome.Failed e => Some e | _ => None end.

(** The work on each object, in order, whatever the others answered. *)
Fixpoint visit (reconcile : ResourceKey -> json -> M (result ObjectOutcome.t ControllerError.t))
    (objects : list (ResourceKey * json)) : M (list Visited) :=
  match objects with
  | [] => ret []
  | (k, v) :: objects =>
      let! r := reconcile k v in
      let! rest := visit reconcile objects in
      ret ((k, v, match r with Ok o => o | Err e => ObjectOutcome.Failed e end) :: rest)
  end.

Definition absorbed (l : list Visited) (st : Sweeping) : Sweeping :=
  fold_left (fun st x => absorb error_text s now x.1.1 x.1.2 x.2 st) l st.

Lemma absorbed_cons k v o l st : absorbed ((k, v, o) :: l) st = absorbed l (absorb error_text s now k v o st).
Proof. done. Qed.

(** The Event of an object, when its version was not announced. *)
Definition announcement (memory : btmap ResourceKey Remembered) (x : Visited) : option EventRecord :=
  e ← failure_of x.2;
  match classify e with
  | Transient => None
  | Declarative =>
      if decide ((rem_announced <$> bt_get x.1.1 memory) = Some (AtVersion (resource_version x.1.2))) then None
      else Some (mkEvent (involved_object x.1.1 x.1.2) (sw_failure_reason s) (error_text e) (sw_component s) now)
  end.

Lemma loop_absorbs objects reconcile st w :
  (forall k v w e w', In (k, v) objects -> reconcile k v w = (Err e, w') -> scope e = Item) ->
  exists l w', visit reconcile objects w = (l, w') /\
    sweep_loop error_text s now (fun k v => let! r := reconcile k v in ret (ObjectOutcome.settle r)) objects st w =
      ((Ok tt, absorbed l st), w').
Proof.
  revert st w. induction objects as [|[k v] objects IH]; intros st w Hi; [by exists [], w |].
  cbn [visit sweep_loop]. unfold bind, ret. destruct (reconcile k v w) as [r w1] eqn:Er.
  set (o := match r with Ok o => o | Err e => ObjectOutcome.Failed e end).
  assert (ObjectOutcome.settle r = Ok o) as ->.
  { destruct r as [|e]; [done |]. cbn. by rewrite (Hi k v w e w1) by (by left || done). }
  destruct (IH (absorb error_text s now k v o st) w1) as (l & w' & Hv & Hl); [intros; eapply Hi; [by right | done] |].
  rewrite Hv. exists ((k, v, o) :: l), w'. split; [done |]. exact Hl.
Qed.

Lemma visit_objects objects reconcile w l w' : visit reconcile objects w = (l, w') -> map fst l = objects.
Proof.
  revert w l. induction objects as [|[k v] objects IH]; intros w l Hv; cbn [visit] in Hv; unfold bind, ret in Hv.
  - by injection Hv as <- <-.
  - destruct (reconcile k v w) as [r w1]. destruct (visit reconcile objects w1) as [rest w2] eqn:E.
    injection Hv as <- ->. cbn. f_equal. by eapply IH.
Qed.

Lemma absorbed_counts l st :
  examined (s_report (absorbed l st)) = (examined (s_report st) + length l)%nat /\
  r_failed (s_report (absorbed l st)) = (r_failed (s_report st) + length (omap (fun x => failure_of x.2) l))%nat.
Proof.
  revert st. induction l as [|[[k v] o] l IH]; intros st; [cbn; lia |]. rewrite absorbed_cons.
  destruct (IH (absorb error_text s now k v o st)) as [IH1 IH2]. rewrite IH1, IH2.
  destruct o as [| | |e]; cbn; [unfold examined; cbn; lia .. |].
  destruct (classify e); cbn; unfold examined; cbn; lia.
Qed.

Lemma absorbed_retry l st :
  is_some (r_retry_after (s_report (absorbed l st))) =
  is_some (r_retry_after (s_report st)) ||
  existsb (fun x => match failure_of x.2 with Some e => match classify e with Transient => true | _ => false end | None => false end) l.
Proof.
  revert st. induction l as [|[[k v] o] l IH]; intros st; [cbn; by rewrite orb_false_r |]. rewrite absorbed_cons.
  pose proof (IH (absorb error_text s now k v o st)) as IH1. rewrite IH1. cbn [existsb fst snd].
  destruct o as [| | |e]; cbn [failure_of orb]; [done .. |].
  cbn [absorb]. destruct (miss _). destruct (classify e); cbn; [done |]. by rewrite orb_true_r.
Qed.

Lemma absorb_other k v o st k' : k' <> k -> bt_sorted (s_memory st) ->
  bt_get k' (s_memory (absorb error_text s now k v o st)) = bt_get k' (s_memory st).
Proof.
  intros Hk Hs. destruct o as [| | |e]; cbn; try (by apply bt_get_remove_ne).
  destruct (classify e); cbn; by apply bt_get_insert_ne.
Qed.

Lemma absorb_sorted k v o st : bt_sorted (s_memory st) -> bt_sorted (s_memory (absorb error_text s now k v o st)).
Proof.
  intros Hs. destruct o as [| | |e]; cbn; try (by apply bt_remove_sorted).
  destruct (classify e); cbn; by apply bt_insert_sorted.
Qed.

Lemma absorbed_sorted l st : bt_sorted (s_memory st) -> bt_sorted (s_memory (absorbed l st)).
Proof.
  revert st. induction l as [|[[k v] o] l IH]; intros st Hs; [done |]. rewrite absorbed_cons. apply IH. by apply absorb_sorted.
Qed.

Lemma absorbed_other l st k : bt_sorted (s_memory st) -> ~ In k (map (fun x => x.1.1) l) ->
  bt_get k (s_memory (absorbed l st)) = bt_get k (s_memory st).
Proof.
  revert st. induction l as [|[[k' v] o] l IH]; intros st Hs Hn; [done |]. rewrite absorbed_cons. cbn in Hn.
  rewrite IH; [| by apply absorb_sorted | tauto]. apply absorb_other; [| done]. intros ->. tauto.
Qed.

Lemma absorbed_events l st : bt_sorted (s_memory st) -> List.NoDup (map (fun x => x.1.1) l) ->
  s_events (absorbed l st) = (s_events st ++ omap (announcement (s_memory st)) l)%list.
Proof.
  revert st. induction l as [|[[k v] o] l IH]; intros st Hs Hnd; [cbn; by rewrite app_nil_r |]. rewrite absorbed_cons.
  cbn [map fst] in Hnd. apply List.NoDup_cons_iff in Hnd as [Hk Hnd'].
  rewrite IH by (by apply absorb_sorted || done). cbn [omap list_omap]. clear IH.
  assert (forall rest, (forall x, In x rest -> x.1.1 <> k) ->
    omap (announcement (s_memory (absorb error_text s now k v o st))) rest = omap (announcement (s_memory st)) rest) as Hsame.
  { induction rest as [|x rest IHr]; intros Hr; [done |]. cbn [omap list_omap].
    assert (announcement (s_memory (absorb error_text s now k v o st)) x = announcement (s_memory st) x) as ->.
    { unfold announcement. rewrite absorb_other; [done | by apply Hr; left | done]. }
    rewrite IHr by (intros; apply Hr; by right). done. }
  rewrite Hsame by (intros x Hx Ex; apply Hk, in_map_iff; by exists x). clear Hsame.
  unfold announcement at 2. destruct o as [| | |e]; cbn [failure_of mbind option_bind fst snd absorb s_events]; [done .. |].
  destruct (miss _). destruct (classify e); cbn [s_events]; [| done].
  destruct (bt_get k (s_memory st)) as [seen|]; cbn [default from_option id fmap option_fmap option_map rem_announced fresh_memory].
  - destruct (decide (rem_announced seen = AtVersion (resource_version v))) as [Hd|Hd]; [by rewrite Hd, decide_True |].
    rewrite decide_False by congruence. by rewrite <-app_assoc.
  - rewrite !decide_False by done. by rewrite <-app_assoc.
Qed.

Lemma absorbed_failing l st k :
  In k (s_failing (absorbed l st)) <-> In k (s_failing st) \/ In k (omap (fun x => (fun _ => x.1.1) <$> failure_of x.2) l).
Proof.
  revert st. induction l as [|[[k' v] o] l IH]; intros st; [cbn; tauto |]. rewrite absorbed_cons.
  rewrite IH. cbn [omap list_omap fst snd]. destruct o as [| | |e]; cbn; [tauto .. |].
  destruct (classify e); cbn; tauto.
Qed.

Lemma absorbed_remembers l st k v o : bt_sorted (s_memory st) -> List.NoDup (map (fun x => x.1.1) l) -> In (k, v, o) l ->
  match failure_of o with
  | None => bt_get k (s_memory (absorbed l st)) = None
  | Some e => exists r, bt_get k (s_memory (absorbed l st)) = Some r /\
      (classify e = Declarative -> rem_announced r = AtVersion (resource_version v))
  end.
Proof.
  revert st. induction l as [|[[k' v'] o'] l IH]; intros st Hs Hnd Hin; [done |].
  cbn [map fst] in Hnd. apply List.NoDup_cons_iff in Hnd as [Hk Hnd']. destruct Hin as [[= -> -> ->] | Hin]; [| by apply IH; [apply absorb_sorted | ..]].
  rewrite absorbed_cons. pose proof (absorbed_other l (absorb error_text s now k v o st) k) as Ho.
  rewrite Ho by (by apply absorb_sorted || done).
  destruct o as [| | |e]; cbn; try (by apply bt_get_remove_eq).
  destruct (classify e); cbn; rewrite bt_get_insert_eq; by eexists.
Qed.

(** (C15) However many objects fail with an error of their own, every object of the
    list is worked on, in order; the report counts each once and each failure as
    one; a retry is asked for exactly when some failure was transient; the sweep
    remembers exactly the objects that failed, and an unusable declaration is
    announced once for each version of the object. *)
Theorem sweep_isolates objects reconcile w :
  bt_sorted (sw_memory s) -> List.NoDup (map fst objects) ->
  (forall k v w e w', In (k, v) objects -> reconcile k v w = (Err e, w') -> scope e = Item) ->
  exists l report s' w',
    visit reconcile objects w = (l, w') /\
    run error_text s now (fun k v => let! r := reconcile k v in ret (ObjectOutcome.settle r)) objects w =
      ((Ok report, s', omap (announcement (sw_memory s)) l), w') /\
    examined report = length objects /\
    r_failed report = length (omap (fun x => failure_of x.2) l) /\
    (is_some (r_retry_after report) = true <->
       exists k v e, In (k, v, ObjectOutcome.Failed e) l /\ classify e = Transient) /\
    (forall k, is_some (bt_get k (sw_memory s')) = true <-> exists v e, In (k, v, ObjectOutcome.Failed e) l) /\
    (forall k v e, In (k, v, ObjectOutcome.Failed e) l -> announcement (sw_memory s') (k, v, ObjectOutcome.Failed e) = None).
Proof.
  intros Hs Hnd Hi. set (st0 := mkSweeping (sw_memory s) empty_report [] []).
  destruct (loop_absorbs objects reconcile st0 w Hi) as (l & w' & Hv & Hl).
  pose proof (visit_objects _ _ _ _ _ Hv) as Hobj.
  assert (List.NoDup (map (fun x : Visited => x.1.1) l)) as Hnd'.
  { by rewrite <-Hobj, map_map in Hnd. }
  exists l, (s_report (absorbed l st0)). eexists. exists w'. split; [done |]. split.
  { unfold run. unfold bind at 1. fold st0. rewrite Hl. cbn [ret fst snd]. unfold ret. repeat f_equal.
    by apply (absorbed_events l st0). }
  destruct (absorbed_counts l st0) as [Hc1 Hc2].
  split; [rewrite Hc1; cbn; rewrite <-Hobj; by rewrite length_map |]. split; [by rewrite Hc2 |]. split.
  { rewrite absorbed_retry. cbn [is_some r_retry_after s_report st0 empty_report orb]. rewrite existsb_exists. split.
    - intros ([[k v] o] & Hin & Ht). cbn in Ht. destruct o as [| | |e]; try done. cbn in Ht.
      exists k, v, e. split; [done |]. by destruct (classify e).
    - intros (k & v & e & Hin & Ht). exists (k, v, ObjectOutcome.Failed e). split; [done |]. cbn. by rewrite Ht. }
  pose proof (absorbed_sorted l st0 Hs) as Hsort. cbn [sw_memory].
  assert (forall k, bt_get k (List.filter (fun e => existsb (eqb e.1) (s_failing (absorbed l st0))) (s_memory (absorbed l st0))) =
    if existsb (eqb k) (s_failing (absorbed l st0)) then bt_get k (s_memory (absorbed l st0)) else None) as Hget.
  { intros k. by rewrite (bt_get_filter (fun k => existsb (eqb k) (s_failing (absorbed l st0)))). }
  assert (forall k, existsb (eqb k) (s_failing (absorbed l st0)) = true <-> exists v e, In (k, v, ObjectOutcome.Failed e) l) as Hfail.
  { intros k. rewrite existsb_exists. split.
    - intros (k' & Hin & E). apply (proj1 (eqb_true _ _)) in E. subst k'. apply absorbed_failing in Hin as [[] | Hin].
      apply list_elem_of_In, list_elem_of_omap in Hin as ([[k' v] o] & Hin & E). apply list_elem_of_In in Hin. cbn in E.
      destruct o as [| | |e]; try done. injection E as ->. by exists v, e.
    - intros (v & e & Hin). exists k. split; [| apply eqb_refl]. apply absorbed_failing. right.
      apply list_elem_of_In, list_elem_of_omap. exists (k, v, ObjectOutcome.Failed e). split; [by apply list_elem_of_In | done]. }
  split.
  - intros k. rewrite Hget. destruct (existsb (eqb k) _) eqn:E.
    + apply Hfail in E. split; [done |]. intros _. destruct E as (v & e & Hin).
      destruct (absorbed_remembers l st0 k v _ Hs Hnd' Hin) as (r & -> & _). done.
    + split; [done |]. intros Hex. apply Hfail in Hex. congruence.
  - intros k v e Hin. unfold announcement. cbn [failure_of mbind option_bind fst snd].
    destruct (classify e) eqn:Ec; [| done]. rewrite Hget, (proj2 (Hfail k)) by (by exists v, e).
    destruct (absorbed_remembers l st0 k v _ Hs Hnd' Hin) as (r & -> & Hr). cbn [fmap option_fmap option_map].
    rewrite Hr by done. by rewrite decide_True.
Qed.

End Isolation.

(** *** Witness: the second object is reached although the first fails *)

Definition sample_objects : list (ResourceKey * json) :=
  [(namespaced "apps" "v1" "ReplicaSet" "default" "bad", jobj [("metadata", jobj [("resourceVersion", JString "4")])]);
   (namespaced "apps" "v1" "ReplicaSet" "default" "good", jobj [])].

Definition sample_reconcile (k : ResourceKey) (_ : json) : M (result ObjectOutcome.t ControllerError.t) :=
  ret (if eqb (name k) "bad" then Err (ControllerError.InvalidResource "template") else Ok ObjectOutcome.Changed).

Definition sample_world : World := mkWorld (with_history_capacity 8) [].

Lemma sweep_isolates_witness :
  exists report s' events w', run (fun _ => "text") (sweep_new "c" "FailedCreate") "now"
      (fun k v => let! r := sample_reconcile k v in ret (ObjectOutcome.settle r)) sample_objects sample_world =
    ((Ok report, s', events), w') /\ examined report = 2%nat /\ r_failed report = 1%nat /\ length events = 1%nat.
Proof.
  destruct (sweep_isolates (fun _ => "text") (sweep_new "c" "FailedCreate") "now" sample_objects sample_reconcile sample_world)
    as (l & report & s' & w' & Hv & Hr & He & Hf & _).
  - constructor.
  - apply NoDup_ListNoDup. apply (bool_decide_unpack _). vm_compute. exact I.
  - intros k v w0 e w' _ E. unfold sample_reconcile, ret in E. destruct (eqb (name k) "bad"); [| discriminate E].
    injection E as <- _. reflexivity.
  - exists report, s', (omap (announcement (fun _ => "text") (sweep_new "c" "FailedCreate") "now" []) l), w'.
    split; [exact Hr |]. split; [exact He |].
    unfold sample_objects in Hv. cbn in Hv. injection Hv as <- _. split; [rewrite Hf; reflexivity | reflexivity].
Defined.
