(* ===== verification/OwnedChildren.v ===== *)
(** * Controllers of owned children

    [engenho-controllers/src/owned_children.rs] with [status.rs] and
    [create_stamp.rs]: the pass every controller of owned children makes over one
    parent (gather the children, compute the delta, propose it, write the status),
    the tick over all parents, and the status writes with their conditions.

    A controller is an instance of [OwnedChildrenReconciler].  The store is the
    catalog other writers step ([Handler.World]).  All clock readings of one pass
    are the one argument [now]; logging is not modelled. *)

From Stdlib Require Import Ascii String.
From stdpp Require Import base tactics option list strings numbers.
From S2P Require Import Prelude Text BTreeMap Json Resource WatchHistory Command Read.
From S2P Require Import PatchApply Ssa Pagination Catalog Birth Mesh Handler Scale ObjectMeta Sweep.

Local Open Scope string_scope.
Local Open Scope Z_scope.
Local Open Scope handler_scope.

Definition TEMPLATE : list string := ["spec"; "template"].

(** Children that are not Terminating. *)
Definition live_children (owned : list (ResourceKey * json)) : list (ResourceKey * json) :=
  List.filter (fun e => negb (obj_terminating e.2)) owned.

Inductive ChildWrite : Type := CreateChild | ProposeChild | LeaveTerminating.

(** [ChildWrite::of]. *)
Definition child_write (cmd : ResourceCommand.t) (live : option json) : ChildWrite :=
  let terminating := match live with Some v => obj_terminating v | None => false end in
  match cmd with
  | ResourceCommand.Put _ _ _ _ =>
      if terminating then LeaveTerminating else if is_none live then CreateChild else ProposeChild
  | ResourceCommand.Delete _ _ _ _ => if terminating then LeaveTerminating else ProposeChild
  | ResourceCommand.Patch _ _ _ _ _ _ | ResourceCommand.Txn _ _ _ _ => ProposeChild
  end.

Definition child_write_target (cmd : ResourceCommand.t) : option ResourceKey :=
  match cmd with
  | ResourceCommand.Put k _ _ _ | ResourceCommand.Delete k _ _ _ => Some k
  | ResourceCommand.Patch _ _ _ _ _ _ | ResourceCommand.Txn _ _ _ _ => None
  end.

Definition child_namespace (parent : json) (scope : option string) : string :=
  match obj_namespace parent, scope with
  | Some ns, _ => ns
  | None, Some ns => ns
  | None, None => "default"
  end.

(** The writes into a pod cloned from a template. *)
Definition stamp_pod (pod : json) (name namespace : string) (owner : OwnerReference) : result json ShapeError :=
  let? pod := object_mut [] (fun m => bt_insert "apiVersion" (JString "v1") (bt_insert "kind" (JString "Pod") m)) pod in
  let? pod := object_mut ["metadata"] (fun m => bt_insert "namespace" (JString namespace)
                                                  (bt_insert "name" (JString name) m)) pod in
  let? pod := set_owner_reference pod owner in
  Ok (stamp_birth_status pod).

(** The template a parent declares; null is none. *)
Definition spec_template (parent : json) : option json :=
  match jget "spec" parent >>? jget "template" with Some JNull | None => None | Some t => Some t end.

Definition pod_from_template (parent : json) (name namespace : string) (owner : OwnerReference)
  : result (option json) ShapeError :=
  match spec_template parent with
  | None => Ok None
  | Some template => result_map_err (under TEMPLATE) (result_map Some (stamp_pod template name namespace owner))
  end.

Definition template_object_mut (path : list string) (f : btmap string json -> btmap string json) (pod : json)
  : result json ShapeError :=
  result_map_err (under TEMPLATE) (object_mut path f pod).

Record ParentGvk : Type := mkParentGvk { pg_gvk : Gvk; pg_api_version : string }.

(** [status.rs]: integers and revisions of a parent. *)
Definition resource_version_of (v : json) : option Revision :=
  jget "metadata" v >>? jget "resourceVersion" >>? as_str >>? parse_unsigned Word.u64_max.

Definition generation_of (v : json) : result Z NotAnInteger := defaulted ["metadata"; "generation"] 0 v.

Definition live_status (v : json) : json := default (JObject []) (jget "status" v).

Inductive StatusWriteOutcome : Type := NoStatusChange | StatusProposed (e : Effect.t).

Definition status_effect (o : StatusWriteOutcome) : Effect.t :=
  match o with NoStatusChange => Effect.Unchanged | StatusProposed e => e end.

Inductive StatusEdit : Type := EditCurrent | EditSuperseded | EditWrite (fields : btmap string json).

Inductive StatusEditOutcome : Type :=
  | EditUnchanged | EditMovedOn | EditAbsent | EditNoRevision | EditProposed (e : Effect.t).

(** [stamp_create_timestamp]. *)
Definition stamp_create_timestamp (v : json) (now : string) : json :=
  if is_object v && creation_timestamp_is_unset (jget "metadata" v >>? jget "creationTimestamp")
  then (stamp_creation_timestamp v now).1 else v.

Definition shape {A} (r : result A ShapeError) : result A ControllerError.t := result_map_err ControllerError.Shape r.
Definition integer {A} (r : result A NotAnInteger) : result A ControllerError.t :=
  result_map_err (fun e => ControllerError.Shape (NotInt e)) r.

Class OwnedChildrenReconciler (T : Type) : Type := {
  controller_name : T -> string;
  parent_gvk : T -> ParentGvk;
  child_kinds : T -> list Gvk;
  also_reads : T -> list Gvk;
  ctl_namespace : T -> option string;
  reconcile_one : T -> string -> json -> list (ResourceKey * json) ->
    M (result (list ResourceCommand.t) ControllerError.t);
  compute_status : T -> string -> json -> list (ResourceKey * json) -> Z -> option json
}.

Section Controllers.
Context `{SerdeJson} `{PatchSchemaEnv} `{OpDecoder} `{Blake3} `{ErrorText}.
Context (sealer : option SealFault.t) (births : string) (controller_error_text : ControllerError.t -> string).

(** [store.propose(..).await?] of a controller. *)
Definition ctl_propose (cmd : ResourceCommand.t) : M (result ApplyOutcome ControllerError.t) := fun w =>
  let w := step_others w in
  match propose sealer births (stored_catalog w) cmd with
  | Ok (o, c) => (Ok o, mkWorld c (others w))
  | Err (subject, fault) => (Err (ControllerError.Store (SecretUnreadable subject fault)), w)
  end.

Definition ctl_get (k : ResourceKey) : M (option json) := read (fun c => get c k).

Definition ctl_list (g : Gvk) (namespace : option string) : M (list (ResourceKey * json)) :=
  read (fun c => list_ c (gvk_group g) (gvk_version g) (gvk_kind g) namespace).

(** ** [status.rs] *)

Definition write_status_cas (k : ResourceKey) (parent desired_status : json)
  : M (result StatusWriteOutcome ControllerError.t) :=
  if eqb (live_status parent) desired_status then ret (Ok NoStatusChange)
  else
    match resource_version_of parent with
    | None => ret (Ok NoStatusChange)
    | Some expected =>
        let!? o := ctl_propose (ResourceCommand.patch_cas k (jobj [("status", desired_status)]) (Some expected) Reason.Controller) in
        ret (Ok (StatusProposed (Effect.of_op (op o))))
    end.

(** [StoreCasEnv] as a writer for [reason], with one read and at most one write. *)
Definition edit_once (reason : Reason.t) (k : ResourceKey) (edit : json -> result StatusEdit ShapeError)
  : M (result StatusEditOutcome ControllerError.t) :=
  let! object := ctl_get k in
  match object with
  | None => ret (Ok EditAbsent)
  | Some object =>
      let!? e := ret (shape (edit object)) in
      match e with
      | EditCurrent => ret (Ok EditUnchanged)
      | EditSuperseded => ret (Ok EditMovedOn)
      | EditWrite fields =>
          match resource_version_of object with
          | None => ret (Ok EditNoRevision)
          | Some pinned =>
              let!? o := ctl_propose (ResourceCommand.patch_cas k (jobj [("status", JObject fields)]) (Some pinned) reason) in
              ret (Ok (EditProposed (Effect.of_op (op o))))
          end
      end
  end.

Definition edit_status_cas (reason : Reason.t) (k : ResourceKey) (edit : json -> result StatusEdit ShapeError)
  : M (result StatusEditOutcome ControllerError.t) :=
  let!? out := edit_once reason k edit in
  match out with
  | EditProposed (Effect.Rejected RConflict) => edit_once reason k edit
  | _ => ret (Ok out)
  end.

Definition upsert_condition_cas (reason : Reason.t) (k : ResourceKey) (desired : DesiredCondition) (now : string)
  : M (result StatusEditOutcome ControllerError.t) :=
  edit_status_cas reason k (fun object =>
    result_map (fun u => match status_fields u with None => EditCurrent | Some f => EditWrite f end)
      (upsert_condition object desired now)).

(** ** The pass over one parent *)

Section Pass.
Context {T : Type} `{OwnedChildrenReconciler T} (this : T) (now : string).

Fixpoint gather_owned (kinds : list Gvk) (parent_uid : string) (namespace : option string) : M (list (ResourceKey * json)) :=
  match kinds with
  | [] => ret []
  | g :: kinds =>
      let! all := ctl_list g namespace in
      let! rest := gather_owned kinds parent_uid namespace in
      ret (List.filter (fun e => is_owned_by e.2 parent_uid) all ++ rest)%list
  end.

(** The command as it is proposed, or nothing. *)
Definition prepared (cmd : ResourceCommand.t) (live : option json) : option ResourceCommand.t :=
  match child_write cmd live with
  | LeaveTerminating => None
  | CreateChild =>
      Some (match cmd with
            | ResourceCommand.Put k v expected reason => ResourceCommand.Put k (stamp_create_timestamp v now) expected reason
            | _ => cmd
            end)
  | ProposeChild => Some cmd
  end.

Fixpoint propose_delta (cmds : list ResourceCommand.t) (effect : Effect.t) : M (result Effect.t ControllerError.t) :=
  match cmds with
  | [] => ret (Ok effect)
  | cmd :: cmds =>
      let! live := match child_write_target cmd with Some k => ctl_get k | None => ret None end in
      match prepared cmd live with
      | None => propose_delta cmds effect
      | Some cmd =>
          let!? o := ctl_propose cmd in
          propose_delta cmds (Effect.and effect (Effect.of_op (op o)))
      end
  end.

Definition reconcile_parent (parent_key : ResourceKey) (parent : json) : M (result ObjectOutcome.t ControllerError.t) :=
  match obj_uid parent with
  | None => ret (Ok (ObjectOutcome.Skipped None))
  | Some uid =>
      let!? generation := ret (integer (generation_of parent)) in
      let! owned := gather_owned (child_kinds this) uid (namespace parent_key) in
      let!? commands := reconcile_one this now parent owned in
      let!? effect := propose_delta commands Effect.Unchanged in
      let! owned_after := gather_owned (child_kinds this) uid (namespace parent_key) in
      match compute_status this now parent owned_after generation with
      | None => ret (Ok (ObjectOutcome.of_effect effect))
      | Some desired_status =>
          let!? status := write_status_cas parent_key parent desired_status in
          ret (Ok (ObjectOutcome.of_effect (Effect.and effect (status_effect status))))
      end
  end.

(** [Controller::tick] of every controller of owned children. *)
Definition tick (s : Sweep) : M (result SweepReport ControllerError.t * Sweep * list EventRecord) :=
  let! parents := ctl_list (pg_gvk (parent_gvk this)) (ctl_namespace this) in
  Sweep.run controller_error_text s now
    (fun k v => let! r := reconcile_parent k v in ret (ObjectOutcome.settle r)) parents.

End Pass.
End Controllers.
