(* ===== verification/OwnedFacts.v ===== *)
(** * What the store does with a controller's writes

    The catalog behind [propose], seen as a map of objects: which keys a command
    can change, what a Put of a new key and a Delete leave, and how the number of
    objects with a property moves.  On these rest the theorems on controllers of
    owned children: the pass over a parent writes no object that is Terminating
    except by a patch. *)

From Stdlib Require Import Ascii String.
From stdpp Require Import base tactics option list strings numbers.
From S2P Require Import Prelude Text BTreeMap Json Resource WatchHistory Command Read.
From S2P Require Import PatchApply PatchFacts Ssa SsaFacts Pagination Catalog CatalogMeta CatalogFacts CatalogTheorems CatalogReads.
From S2P Require Import Mesh Handler WriteFacts WriteRace VerbFacts Eviction Scale ObjectMeta Sweep OwnedChildren.
From S2P Require Import CatalogMeta Birth.

Local Open Scope string_scope.
Local Open Scope Z_scope.
Local Open Scope handler_scope.

(** ** Counting the entries of a map *)

Section Counting.
Context {K V : Type} `{OrdLaws K} (p : K * V -> bool).

Definition count_where (m : btmap K V) : nat := length (List.filter p m).

Definition one_if (b : bool) : nat := if b then 1 else 0.

Lemma count_insert_new k v m : bt_get k m = None -> count_where (bt_insert k v m) = (one_if (p (k, v)) + count_where m)%nat.
Proof.
  unfold count_where. induction m as [|[k' v'] m IH]; intros Hg; cbn in *; [by destruct (p (k, v)) |].
  destruct (cmp k k') eqn:E; [done | by cbn; destruct (p (k, v)) |]. cbn. specialize (IH Hg).
  destruct (p (k', v')); cbn; lia.
Qed.

Lemma count_remove k v m : bt_sorted m -> bt_get k m = Some v -> count_where m = (one_if (p (k, v)) + count_where (bt_remove k m))%nat.
Proof.
  unfold count_where. induction m as [|[k' v'] m IH]; intros Hs Hg; cbn in *; [done |].
  destruct (cmp k k') eqn:E.
  - apply cmp_eq in E. subst. injection Hg as ->. by destruct (p (k', v)).
  - done.
  - apply bt_sorted_cons in Hs as [Hs _]. specialize (IH Hs Hg). cbn. destruct (p (k', v')); cbn; lia.
Qed.

Lemma count_replace k v w m : bt_sorted m -> bt_get k m = Some v ->
  (one_if (p (k, v)) + count_where (bt_insert k w m) = one_if (p (k, w)) + count_where m)%nat.
Proof.
  unfold count_where. induction m as [|[k' v'] m IH]; intros Hs Hg; cbn in *; [done |].
  destruct (cmp k k') eqn:E.
  - apply cmp_eq in E. subst. injection Hg as ->. cbn. destruct (p (k', v)), (p (k', w)); cbn; lia.
  - done.
  - apply bt_sorted_cons in Hs as [Hs _]. specialize (IH Hs Hg). cbn. destruct (p (k', v')); cbn; lia.
Qed.
End Counting.

(** ** Which keys a command can change *)

Definition changes_only (ks : list ResourceKey) (c c' : ResourceCatalog) : Prop :=
  unreadable c' = unreadable c /\
  (bt_sorted (resources c) -> bt_sorted (resources c') /\
     forall k, ~ In k ks -> bt_get k (resources c') = bt_get k (resources c)).

Lemma changes_only_refl ks c : changes_only ks c c.
Proof. done. Qed.

Lemma changes_only_weaken ks ks' c c' : (forall k, In k ks -> In k ks') -> changes_only ks c c' -> changes_only ks' c c'.
Proof. intros Hk [Hu Hc]. split; [done |]. intros Hs. destruct (Hc Hs) as [? Ho]. split; [done |]. intros k Hn. apply Ho. auto. Qed.

Lemma changes_only_trans ks ks' c1 c2 c3 : changes_only ks c1 c2 -> changes_only ks' c2 c3 -> changes_only (ks ++ ks') c1 c3.
Proof.
  intros [Hu1 H1] [Hu2 H2]. split; [congruence |]. intros Hs. destruct (H1 Hs) as [Hs2 Ho1]. destruct (H2 Hs2) as [Hs3 Ho2].
  split; [done |]. intros k Hn. rewrite in_app_iff in Hn. rewrite Ho2, Ho1; tauto.
Qed.

Lemma changes_insert c k e : changes_only [k] c (set_resources c (bt_insert k e (resources c))).
Proof.
  split; [done |]. intros Hs. split; [by apply bt_insert_sorted |]. intros k' Hn. cbn in *.
  apply bt_get_insert_ne. intros ->. tauto.
Qed.

Lemma changes_remove c k : changes_only [k] c (set_resources c (bt_remove k (resources c))).
Proof.
  split; [done |]. intros Hs. split; [by apply bt_remove_sorted |]. intros k' Hn. cbn in *.
  apply bt_get_remove_ne; [done |]. intros ->. tauto.
Qed.

Create HintDb only.
#[local] Hint Resolve changes_only_refl changes_insert changes_remove : only.

Section Commands.
Context `{SerdeJson} `{PatchSchemaEnv} `{OpDecoder} `{Blake3} `{ErrorText}.

Lemma release_only c k post prior rev out : finalizer_release_removal c k post prior rev = Some out -> changes_only [k] c out.2.
Proof. unfold finalizer_release_removal. case_match; [done |]. intros [= <-]. cbn. auto with only. Qed.

Lemma put_only c k v ex oi rev : changes_only [k] c (apply_put c k v ex oi rev).2.
Proof.
  unfold apply_put. cbv zeta. case_match; [done |]. case_match; [done |].
  destruct (finalizer_release_removal _ _ _ _ _) eqn:E; [by eapply release_only | cbn; auto with only].
Qed.

Lemma delete_only c k ex ts rev : changes_only [k] c (apply_delete c k ex ts rev).2.
Proof. unfold apply_delete. cbv zeta. repeat case_match; cbn; auto with only. Qed.

Lemma patch_only c k p pt am ex oi rev : changes_only [k] c (apply_patch c k p pt am ex oi rev).2.
Proof.
  unfold apply_patch, apply_ssa_command. cbv zeta.
  repeat match goal with |- changes_only _ _ (snd (match ?x with _ => _ end)) => let E := fresh in destruct x eqn:E end;
    cbn; auto with only; eapply release_only;
    repeat match goal with H : (if ?b then _ else _) = Some _ |- _ => destruct b end; done.
Qed.

Lemma branch_only c branch rev : changes_only (map TxnOp.key branch) c (run_branch c branch rev).2.
Proof.
  revert c. induction branch as [|o branch IH]; intros c; [done |]. cbn [run_branch map].
  assert (changes_only [TxnOp.key o] c (apply_txn_op c o rev).2) as Ho by (destruct o; [apply put_only | apply delete_only]).
  destruct (apply_txn_op c o rev) as [out c1]. specialize (IH c1). destruct (run_branch c1 branch rev) as [rest c2]. cbn in *.
  exact (changes_only_trans [TxnOp.key o] _ _ _ _ Ho IH).
Qed.

Lemma command_only c cmd oi rev : changes_only (ResourceCommand.keys cmd) c (apply_command c cmd oi rev).2.
Proof.
  destruct cmd as [k v ex r | k p pt am ex r | k ex r ts | cmps su fa r]; cbn [apply_command ResourceCommand.keys].
  - apply put_only.
  - apply patch_only.
  - apply delete_only.
  - unfold apply_txn. cbv zeta. set (branch := if forallb (eval_compare c) cmps then su else fa).
    pose proof (branch_only c branch rev) as Hb. destruct (run_branch c branch rev) as [chs c']. cbn in Hb.
    assert (changes_only (map TxnCompare.key cmps ++ map TxnOp.key (su ++ fa)) c c') as Hc.
    { eapply changes_only_weaken; [| exact Hb]. intros k. rewrite map_app, !in_app_iff. unfold branch. case_match; auto. }
    by destruct chs.
Qed.

Context (sealer : option SealFault.t) (births : string).

Lemma propose_only c cmd o c' : propose sealer births c cmd = Ok (o, c') -> changes_only (ResourceCommand.keys cmd) c c'.
Proof.
  unfold propose. destruct (write_refusal _ _ _); [done |]. intros [= E]. unfold apply_logged, apply_under in E.
  cbn [command proposed semantics] in E. destruct (unreadable_touched_by _ _) as [[k f]|]; [by injection E as _ <- |].
  pose proof (command_only c (stamp_births c cmd births) (OnIdentical.under ApplySemantics.CURRENT) (next_revision (history c))) as Hc.
  rewrite stamp_births_keys in Hc. destruct (apply_command _ _ _ _) as [o1 c1]. cbn in Hc. injection E as _ <-.
  by destruct (change o1).
Qed.

(** A store whose values this node can all read takes every write of a kind that
    is not sealed. *)
Lemma propose_taken c cmd : unreadable c = [] -> forallb (fun k => negb (is_sealed_kind k)) (ResourceCommand.keys cmd) = true ->
  propose sealer births c cmd = Ok (apply_logged c (proposed (stamp_births c cmd births)) (last_applied_term c)
    (Word.u64_add (last_applied_index c) 1)).
Proof.
  intros Hu Hk. unfold propose, write_refusal, unreadable_touched_by. rewrite Hu. rewrite forallb_forall in Hk.
  assert (List.find is_sealed_kind (ResourceCommand.keys cmd) = None) as ->; [| by destruct sealer].
  destruct (List.find _ _) as [k|] eqn:E; [| done]. apply List.find_some in E as [Hin Hs]. specialize (Hk k Hin).
  by rewrite Hs in Hk.
Qed.

End Commands.

(** ** What a new object keeps of its body *)

(** Metadata fields neither the birth stamp nor the store writes. *)
Definition own_field (f : string) : Prop := ~ In f ["name"; "namespace"; "creationTimestamp"; "labels"; "uid"; "resourceVersion"; "generation"].

Lemma on_metadata_field (g : btmap string json -> btmap string json) v f : (forall m, bt_get f (g m) = bt_get f m) -> meta_field f (on_metadata g v) = meta_field f v.
Proof.
  intros Hg. unfold meta_field, on_metadata, on_object, with_object. destruct v as [| | | | | m]; try done. cbn [jget].
  rewrite bt_get_insert_eq. cbn [mbind option_bind jget]. rewrite Hg. unfold object_at.
  by destruct (bt_get "metadata" m) as [[]|].
Qed.

Lemma on_object_field (g : btmap string json -> btmap string json) v f : (forall m, bt_get "metadata" (g m) = bt_get "metadata" m) -> meta_field f (on_object g v) = meta_field f v.
Proof. intros Hg. unfold meta_field, on_object. destruct v as [| | | | | m]; try done. cbn [jget]. by rewrite Hg. Qed.

Lemma with_object_get k g m f : f <> k -> bt_get f (with_object k g m) = bt_get f m.
Proof. intros Hf. unfold with_object. by rewrite bt_get_insert_ne. Qed.

Lemma with_object_entry_get k g m f : f <> k -> bt_get f (with_object_entry k g m) = bt_get f m.
Proof. intros Hf. unfold with_object_entry. by repeat case_match; rewrite ?bt_get_insert_ne by done. Qed.

Lemma fill_get field value m f : f <> field -> bt_get f (fill_if_unset field value m) = bt_get f m.
Proof. intros Hf. unfold fill_if_unset. case_match; [by rewrite bt_get_insert_ne | done]. Qed.

Lemma stamp_creation_get now m f : f <> "creationTimestamp" -> bt_get f (stamp_creation now m) = bt_get f m.
Proof. intros Hf. unfold stamp_creation. case_match; [by rewrite bt_get_insert_ne | done]. Qed.

Lemma namespace_defaults_field v f : f <> "labels" -> meta_field f (stamp_namespace_defaults v) = meta_field f v.
Proof.
  intros Hf. unfold stamp_namespace_defaults, meta_field, on_object. destruct v as [| | | | | m]; try done. cbn [jget].
  assert (forall m, bt_get "metadata" (with_object_entry "spec" add_finalizer
    (with_object_entry "status" (or_insert "phase" (JString "Active")) m)) = bt_get "metadata" m) as Hm.
  { intros m0. by rewrite !with_object_entry_get by done. }
  destruct (_ >>? as_str) as [n|]; [| by rewrite Hm]. unfold with_object_entry at 1. rewrite Hm.
  destruct (bt_get "metadata" m) as [[]|] eqn:Em; cbn [mbind option_bind jget]; rewrite ?Hm, ?Em; try done.
  - rewrite bt_get_insert_eq. cbn [mbind option_bind jget]. unfold name_label. by apply with_object_entry_get.
  - rewrite bt_get_insert_eq. cbn [mbind option_bind jget]. unfold name_label. rewrite with_object_entry_get by done. done.
Qed.

Lemma stamp_born_field group kind name ns v now f : own_field f -> meta_field f (stamp_born group kind name ns v now) = meta_field f v.
Proof.
  intros Hf. unfold own_field in Hf. cbn in Hf. unfold stamp_born. destruct v as [| | | | | m]; try done. cbv zeta.
  set (named := on_metadata _ (JObject m)).
  assert (meta_field f named = meta_field f (JObject m)) as Hn.
  { apply on_metadata_field. intros meta. destruct ns; rewrite ?fill_get by (intros ->; tauto); done. }
  assert (meta_field f (stamp_creation_timestamp named now).1 = meta_field f (JObject m)) as Hc.
  { rewrite <-Hn. cbn [stamp_creation_timestamp fst]. apply on_metadata_field. intros meta. apply stamp_creation_get. intros ->. tauto. }
  repeat case_match; rewrite <-?Hc; try done.
  - apply on_object_field. intros m0. by apply with_object_get.
  - apply namespace_defaults_field. intros ->. tauto.
  - apply on_object_field. intros m0. by apply with_object_get.
Qed.

(** Outside the core group the birth stamp writes metadata only. *)
Lemma stamp_born_body group kind name ns v now f : group <> "" -> f <> "metadata" -> jget f (stamp_born group kind name ns v now) = jget f v.
Proof.
  intros Hg Hf. unfold stamp_born. destruct v as [| | | | | m]; try done. cbv zeta. rewrite (proj2 (eqb_false group "")) by done.
  cbn [stamp_creation_timestamp fst]. unfold on_metadata, on_object. cbn [jget]. by rewrite !with_object_get.
Qed.

Section Stored.
Context `{SerdeJson} `{PatchSchemaEnv} `{OpDecoder} `{Blake3} `{ErrorText}.
Context (sealer : option SealFault.t) (births : string).

Lemma stored_by_field v k cr prior rev gen f : own_field f -> meta_field f (stored_by v k cr prior rev gen) = meta_field f v.
Proof.
  intros Hf. unfold own_field in Hf. cbn in Hf. rewrite stored_by_spec, !meta_field_meta_of, meta_of_with_metadata.
  destruct (meta_of v) as [meta|]; [| done]. cbn [mbind option_bind fmap option_fmap option_map].
  unfold revision_stamp. rewrite !bt_get_insert_ne by (intros ->; tauto). by apply identity_stamp_other; intros ->; tauto.
Qed.

(** A Put of a key that holds nothing creates the object, with the fields of its
    own. *)
Lemma propose_put_body c k v reason : bt_get k (resources c) = None -> unreadable c = [] -> is_sealed_kind k = false ->
  exists o c' v' m', propose sealer births c (ResourceCommand.Put k v None reason) = Ok (o, c') /\ op o = ResourceOp.Created /\
    resources c' = bt_insert k (v', m') (resources c) /\
    (forall f, own_field f -> meta_field f v' = meta_field f v) /\
    (forall f, group k <> "" -> f <> "metadata" -> jget f v' = jget f v).
Proof.
  intros Hg Hu Hk. rewrite propose_taken by (done || cbn; by rewrite Hk). cbn [stamp_births].
  unfold apply_logged, apply_under, unreadable_touched_by. rewrite Hu. cbn [command proposed semantics apply_command].
  unfold apply_put. cbv zeta. rewrite Hg. cbn [fmap option_fmap option_map check_precondition negb].
  unfold finalizer_release_removal. cbn. do 4 eexists. split; [done |]. split; [done |]. split; [done |].
  change (stamp_revision (stamp_identity ?v ?k ?cr ?pr) ?rev ?gen) with (stored_by v k cr pr rev gen). split.
  - intros f Hf. rewrite stored_by_field by done. unfold stamp_birth. case_match; [by apply stamp_born_field | done].
  - intros f Hgr Hf. rewrite stored_by_spec, jget_with_metadata by done. unfold stamp_birth.
    case_match; [by apply stamp_born_body | done].
Qed.

Lemma propose_put_new c k v reason : bt_get k (resources c) = None -> unreadable c = [] -> is_sealed_kind k = false ->
  exists o c' v' m', propose sealer births c (ResourceCommand.Put k v None reason) = Ok (o, c') /\ op o = ResourceOp.Created /\
    resources c' = bt_insert k (v', m') (resources c) /\
    (forall f, own_field f -> meta_field f v' = meta_field f v).
Proof.
  intros Hg Hu Hk. destruct (propose_put_body c k v reason Hg Hu Hk) as (o & c' & v' & m' & Hp & Ho & Hr & Hf & _). by exists o, c', v', m'.
Qed.

(** A Delete of an object that is not Terminating removes it or makes it
    Terminating. *)
Lemma propose_delete_live c k v m reason now : bt_sorted (resources c) -> bt_get k (resources c) = Some (v, m) ->
  unreadable c = [] -> is_sealed_kind k = false -> deletion_timestamp_of v = None -> now <> "" ->
  exists o c', propose sealer births c (ResourceCommand.delete now k reason) = Ok (o, c') /\
    (resources c' = bt_remove k (resources c) \/
     exists v' m', resources c' = bt_insert k (v', m') (resources c) /\ is_some (deletion_timestamp_of v') = true).
Proof.
  intros Hs Hg Hu Hk Hd Hn. rewrite propose_taken by (done || cbn; by rewrite Hk).
  unfold ResourceCommand.delete, ResourceCommand.delete_at. cbn [stamp_births].
  unfold apply_logged, apply_under, unreadable_touched_by. rewrite Hu. cbn [command proposed semantics apply_command].
  unfold apply_delete. rewrite Hg. cbn [fmap option_fmap option_map check_precondition negb].
  destruct (has_finalizers v) eqn:Ef; cbn [negb]; [| do 2 eexists; split; [done |]; by left].
  rewrite Hd. cbn. do 2 eexists. split; [done |]. right. do 2 eexists. split; [done |].
  by rewrite (proj2 (terminating_fields v now _ Ef Hn)).
Qed.

End Stored.

(** ** Ownership and deletion marks are metadata *)

Lemma deletion_timestamp_is v : deletion_timestamp v = deletion_timestamp_of v.
Proof.
  rewrite deletion_timestamp_field. unfold deletion_timestamp, meta_field. destruct (jget "metadata" v) as [m|]; [| done]. cbn.
  by destruct (jget "deletionTimestamp" m).
Qed.

Lemma terminating_field v w : meta_field "deletionTimestamp" v = meta_field "deletionTimestamp" w ->
  obj_terminating v = obj_terminating w.
Proof. intros E. unfold obj_terminating. by rewrite !deletion_timestamp_is, !deletion_timestamp_field, E. Qed.

Lemma owned_field v w uid : meta_field "ownerReferences" v = meta_field "ownerReferences" w -> is_owned_by v uid = is_owned_by w uid.
Proof.
  intros E. assert (forall x, controlling_owner x = (meta_field "ownerReferences" x ≫= as_array) ≫= find_controller) as Hc.
  { intros x. unfold controlling_owner, meta_field. by destruct (jget "metadata" x). }
  unfold is_owned_by. by rewrite !Hc, E.
Qed.

Lemma own_owner : own_field "ownerReferences".
Proof. unfold own_field. cbn. intuition discriminate. Qed.

Lemma own_deletion : own_field "deletionTimestamp".
Proof. unfold own_field. cbn. intuition discriminate. Qed.

Lemma stamp_create_field v now f : own_field f -> meta_field f (stamp_create_timestamp v now) = meta_field f v.
Proof.
  intros Hf. unfold stamp_create_timestamp. case_match; [| done]. cbn [stamp_creation_timestamp fst].
  apply on_metadata_field. intros m. apply stamp_creation_get. intros ->. apply Hf. cbn. tauto.
Qed.

(** ** The pass, when nobody else writes *)

Lemma filter_map_pair {K V W} (p : V -> bool) (l : list (K * (V * W))) :
  List.filter (fun e => p e.2) (map (fun e => (e.1, e.2.1)) l) = map (fun e => (e.1, e.2.1)) (List.filter (fun e => p e.2.1) l).
Proof. induction l as [|e l IH]; [done |]. cbn. destruct (p e.2.1); cbn; by rewrite IH. Qed.

Section Alone.
Context `{SerdeJson} `{PatchSchemaEnv} `{OpDecoder} `{Blake3} `{ErrorText}.
Context (sealer : option SealFault.t) (births : string).

(** The children of a parent in a catalog. *)
Definition owned_in (c : ResourceCatalog) (kinds : list Gvk) (uid : string) (ns : option string) : list (ResourceKey * json) :=
  flat_map (fun g => List.filter (fun e => is_owned_by e.2 uid) (list_ c (gvk_group g) (gvk_version g) (gvk_kind g) ns)) kinds.

Lemma gather_alone kinds uid ns c : gather_owned kinds uid ns (mkWorld c []) = (owned_in c kinds uid ns, mkWorld c []).
Proof.
  induction kinds as [|g kinds IH]; [done |]. cbn [gather_owned]. unfold bind, ctl_list, read, ret.
  cbn [step_others others stored_catalog]. cbv zeta. by rewrite IH.
Qed.

Definition kind_scope (g : Gvk) (ns : option string) : ListScope := mkListScope (gvk_group g) (gvk_version g) (gvk_kind g) ns.

Lemma In_owned g uid ns c k v : bt_sorted (resources c) ->
  In (k, v) (owned_in c [g] uid ns) <->
  exists m, bt_get k (resources c) = Some (v, m) /\ contains (kind_scope g ns) k = true /\ is_owned_by v uid = true.
Proof.
  intros Hs. unfold owned_in. cbn [flat_map]. rewrite app_nil_r, filter_In. unfold list_, values_of. rewrite run_of_scope. fold (kind_scope g ns).
  rewrite in_map_iff. split.
  - intros [([k' [v' m]] & E & Hin) Ho]. cbn in E, Ho. injection E as -> ->. apply filter_In in Hin as [Hin Hc]. exists m.
    split; [by apply bt_get_In | done].
  - intros (m & Hg & Hc & Ho). split; [| done]. exists (k, (v, m)). split; [done |]. apply filter_In. split; [by apply bt_get_In | done].
Qed.

(** The children do not change when only keys of other kinds do. *)
Lemma owned_same g uid ns c c' ks : bt_sorted (resources c) -> changes_only ks c c' ->
  Forall (fun k => contains (kind_scope g ns) k = false) ks -> owned_in c' [g] uid ns = owned_in c [g] uid ns.
Proof.
  intros Hs [_ Hc] Hk. destruct (Hc Hs) as [Hs' Ho]. unfold owned_in. cbn [flat_map]. do 2 f_equal.
  unfold list_, values_of. rewrite !run_of_scope. f_equal. fold (kind_scope g ns).
  apply bt_ext; [by apply bt_filter_sorted | by apply bt_filter_sorted |]. intros k.
  rewrite !(bt_get_filter (contains (kind_scope g ns))) by done. destruct (contains (kind_scope g ns) k) eqn:E; [| done].
  apply Ho. intros Hin. rewrite List.Forall_forall in Hk. rewrite (Hk k Hin) in E. done.
Qed.

Lemma owned_NoDup g uid ns c : bt_sorted (resources c) -> List.NoDup (map fst (owned_in c [g] uid ns)).
Proof.
  intros Hs. unfold owned_in. cbn [flat_map]. rewrite app_nil_r. unfold list_, values_of. rewrite run_of_scope.
  apply NoDup_ListNoDup. rewrite (filter_map_pair (fun v => is_owned_by v uid)).
  rewrite map_map. cbn. change (map (fun e : ResourceKey * (json * VersionMeta) => e.1) ?l) with l.*1.
  by apply bt_keys_NoDup, bt_filter_sorted, bt_filter_sorted.
Qed.

Lemma ctl_propose_alone cmd c : ctl_propose sealer births cmd (mkWorld c []) =
  match propose sealer births c cmd with
  | Ok (o, c') => (Ok o, mkWorld c' [])
  | Err (subject, fault) => (Err (ControllerError.Store (SecretUnreadable subject fault)), mkWorld c [])
  end.
Proof. unfold ctl_propose. cbn. by destruct (propose _ _ _ _) as [[]|[]]. Qed.

Lemma propose_delta_app now a b : forall e c e1 c1,
  propose_delta sealer births now a e (mkWorld c []) = (Ok e1, mkWorld c1 []) ->
  propose_delta sealer births now (a ++ b) e (mkWorld c []) = propose_delta sealer births now b e1 (mkWorld c1 []).
Proof.
  assert (forall w e e1 c1, propose_delta sealer births now a e w = (Ok e1, mkWorld c1 []) ->
    propose_delta sealer births now (a ++ b) e w = propose_delta sealer births now b e1 (mkWorld c1 [])) as Hgen; [| eauto].
  induction a as [|cmd a IH]; intros w e e1 c1 Hd; cbn [propose_delta app] in *; [unfold ret in Hd; by injection Hd as <- -> |].
  unfold bind at 1. unfold bind at 1 in Hd. destruct (_ w) as [live w1]. destruct (prepared now cmd live) as [cmd'|]; [| by apply IH].
  unfold bind_ok, bind in Hd |- *. destruct (ctl_propose sealer births cmd' w1) as [[o|er] w2]; [by apply IH | done].
Qed.

(** The object at a command's target. *)
Definition target_value (c : ResourceCatalog) (cmd : ResourceCommand.t) : option json := child_write_target cmd ≫= get c.

Lemma propose_delta_cons now cmd cmds e c : propose_delta sealer births now (cmd :: cmds) e (mkWorld c []) =
  match prepared now cmd (target_value c cmd) with
  | None => propose_delta sealer births now cmds e (mkWorld c [])
  | Some cmd =>
      match propose sealer births c cmd with
      | Ok (o, c') => propose_delta sealer births now cmds (Effect.and e (Effect.of_op (op o))) (mkWorld c' [])
      | Err (subject, fault) => (Err (ControllerError.Store (SecretUnreadable subject fault)), mkWorld c [])
      end
  end.
Proof.
  cbn [propose_delta]. unfold bind at 1.
  assert ((match child_write_target cmd with Some k => ctl_get k | None => ret None end) (mkWorld c []) =
    (target_value c cmd, mkWorld c [])) as ->.
  { unfold target_value. by destruct (child_write_target cmd). }
  destruct (prepared now cmd _) as [cmd'|]; [| done]. unfold bind_ok, bind. rewrite ctl_propose_alone.
  by destruct (propose _ _ _ _) as [[]|[]].
Qed.

Lemma prepared_keys now cmd live cmd' : prepared now cmd live = Some cmd' -> ResourceCommand.keys cmd' = ResourceCommand.keys cmd.
Proof. unfold prepared. destruct (child_write cmd live); try done; intros [= <-]; by destruct cmd. Qed.

(** A command whose target is Terminating is not proposed. *)
Lemma prepared_terminating now c cmd k v m : bt_get k (resources c) = Some (v, m) -> obj_terminating v = true ->
  child_write_target cmd = Some k -> prepared now cmd (target_value c cmd) = None.
Proof.
  intros Hg Ht Hk. unfold target_value. rewrite Hk. cbn. unfold get. rewrite Hg. cbn.
  destruct cmd; try done; unfold prepared; cbn; by rewrite Ht.
Qed.

Lemma delta_spares now cmds : forall e c r w k v m, bt_sorted (resources c) ->
  bt_get k (resources c) = Some (v, m) -> obj_terminating v = true ->
  Forall (fun cmd => child_write_target cmd = None -> ~ In k (ResourceCommand.keys cmd)) cmds ->
  propose_delta sealer births now cmds e (mkWorld c []) = (r, w) ->
  exists c', w = mkWorld c' [] /\ bt_sorted (resources c') /\ bt_get k (resources c') = Some (v, m).
Proof.
  induction cmds as [|cmd cmds IH]; intros e c r w k v m Hs Hg Ht Hc Hd.
  { unfold propose_delta, ret in Hd. injection Hd as <- <-. by exists c. }
  rewrite propose_delta_cons in Hd. apply List.Forall_cons_iff in Hc as [Hcmd Hc].
  destruct (prepared now cmd (target_value c cmd)) as [cmd'|] eqn:Ep; [| by eapply IH].
  assert (~ In k (ResourceCommand.keys cmd')) as Hk.
  { rewrite (prepared_keys _ _ _ _ Ep). destruct (child_write_target cmd) as [k'|] eqn:Et; [| by apply Hcmd].
    intros Hin. assert (k' = k) as ->; [by destruct cmd; try done; injection Et as ->; destruct Hin |].
    by rewrite (prepared_terminating now c cmd k v m Hg Ht Et) in Ep. }
  destruct (propose sealer births c cmd') as [[o c']|[su fa]] eqn:Eo; [| by injection Hd as <- <-; exists c].
  destruct (propose_only sealer births _ _ _ _ Eo) as [_ Ho]. destruct (Ho Hs) as [Hs' Hk'].
  eapply IH; [exact Hs' | | exact Ht | exact Hc | exact Hd]. by rewrite Hk'.
Qed.

Lemma write_status_only k parent desired c r w : write_status_cas sealer births k parent desired (mkWorld c []) = (r, w) ->
  exists c', w = mkWorld c' [] /\ changes_only [k] c c'.
Proof.
  unfold write_status_cas. case_match; [intros [= _ <-]; by exists c |].
  destruct (resource_version_of parent) as [rev|]; [| intros [= _ <-]; by exists c].
  unfold bind_ok, bind. rewrite ctl_propose_alone. destruct (propose _ _ _ _) as [[o c']|[]] eqn:E; intros [= _ <-]; [| by exists c].
  exists c'. split; [done |]. by apply propose_only in E.
Qed.

(** (C28) No controller of owned children, whatever it computes, writes an object that
    is being deleted: where nobody interferes, a pass over a parent leaves every
    Terminating object but the parent exactly as it was, unless the controller
    patches it. *)
Theorem terminating_untouched {T} `{OwnedChildrenReconciler T} (this : T) now parent_key parent c r w k v m :
  bt_sorted (resources c) -> (forall owned, reads_only (reconcile_one this now parent owned)) ->
  bt_get k (resources c) = Some (v, m) -> obj_terminating v = true -> k <> parent_key ->
  (forall owned w0 cmds w1, reconcile_one this now parent owned w0 = (Ok cmds, w1) ->
     Forall (fun cmd => child_write_target cmd = None -> ~ In k (ResourceCommand.keys cmd)) cmds) ->
  reconcile_parent sealer births this now parent_key parent (mkWorld c []) = (r, w) ->
  bt_get k (resources (stored_catalog w)) = Some (v, m).
Proof.
  intros Hs Hr Hg Ht Hk Hc Hp. unfold reconcile_parent in Hp.
  destruct (obj_uid parent) as [uid|]; [| unfold ret in Hp; by injection Hp as _ <-].
  unfold bind_ok at 1, bind at 1, ret at 1 in Hp.
  destruct (integer (generation_of parent)) as [gen|]; [| unfold ret in Hp; by injection Hp as _ <-].
  unfold bind at 1 in Hp. rewrite gather_alone in Hp. unfold bind_ok at 1, bind at 1 in Hp.
  destruct (reconcile_one this now parent _ _) as [res w1] eqn:Eo. pose proof (reads_alone _ _ _ _ (Hr _) Eo) as ->.
  destruct res as [cmds|]; [| unfold ret in Hp; by injection Hp as _ <-].
  unfold bind_ok at 1, bind at 1 in Hp. destruct (propose_delta _ _ _ _ _ _) as [eff w2] eqn:Ed.
  destruct (delta_spares _ _ _ _ _ _ _ _ _ Hs Hg Ht (Hc _ _ _ _ Eo) Ed) as (c2 & -> & Hs2 & Hg2).
  destruct eff as [eff|]; [| unfold ret in Hp; by injection Hp as _ <-].
  unfold bind at 1 in Hp. rewrite gather_alone in Hp.
  destruct (compute_status _ _ _ _ _) as [status|]; [| unfold ret in Hp; by injection Hp as _ <-].
  unfold bind_ok, bind in Hp. destruct (write_status_cas _ _ _ _ _ _) as [st w3] eqn:Es.
  apply write_status_only in Es as (c3 & -> & _ & Ho). destruct (Ho Hs2) as [_ Ho'].
  assert (bt_get k (resources c3) = Some (v, m)) as Hg3 by (rewrite Ho'; [done | intros [Hin|[]]; by apply Hk]).
  destruct st; unfold ret in Hp; by injection Hp as _ <-.
Qed.

(** A pass whose delta goes through ends well, and after the delta writes the
    parent at most. *)
Lemma pass_alone {T} `{OwnedChildrenReconciler T} (this : T) now parent_key parent c uid gen cmds e c1 :
  obj_uid parent = Some uid -> generation_of parent = Ok gen -> is_sealed_kind parent_key = false -> unreadable c1 = [] ->
  reconcile_one this now parent (owned_in c (child_kinds this) uid (namespace parent_key)) (mkWorld c []) = (Ok cmds, mkWorld c []) ->
  propose_delta sealer births now cmds Effect.Unchanged (mkWorld c []) = (Ok e, mkWorld c1 []) ->
  exists outcome c2, reconcile_parent sealer births this now parent_key parent (mkWorld c []) = (Ok outcome, mkWorld c2 []) /\
    changes_only [parent_key] c1 c2.
Proof.
  intros Hu Hg Hk Hr Ho Hd. unfold reconcile_parent. rewrite Hu, Hg. unfold bind_ok at 1, bind at 1, ret at 1. cbn [integer result_map_err].
  unfold bind at 1. rewrite gather_alone. unfold bind_ok at 1, bind at 1. rewrite Ho. unfold bind_ok at 1, bind at 1. rewrite Hd.
  unfold bind at 1. rewrite gather_alone. destruct (compute_status _ _ _ _ _) as [status|]; [| by eexists _, c1].
  unfold bind_ok, bind. destruct (write_status_cas sealer births parent_key parent status (mkWorld c1 [])) as [st w3] eqn:Es.
  destruct (write_status_only _ _ _ _ _ _ Es) as (c3 & -> & Hc). destruct st as [st|err].
  - unfold ret. by eexists _, c3.
  - exfalso. unfold write_status_cas in Es. destruct (eqb _ _); [done |]. destruct (resource_version_of parent); [| done].
    unfold bind_ok, bind in Es. rewrite ctl_propose_alone in Es. rewrite propose_taken in Es by (done || cbn; by rewrite Hk).
    by destruct (apply_logged _ _ _ _).
Qed.

End Alone.
