(* ===== verification/ReplicaSet.v ===== *)
(** * The ReplicaSet controller

    [engenho-controllers/src/replicaset.rs]: the indices its pods use, the pods it
    creates and evicts, and its status.  Indices are [usize]; the search for free
    ones takes one unit of fuel per index tried, and [count + |used|] units are
    enough ([ReplicaSet.free_indices_spec]). *)

From Stdlib Require Import Ascii String Sorted.
From stdpp Require Import base tactics option list strings numbers pretty.
From S2P Require Import Prelude Text BTreeMap Json Resource WatchHistory Command Read.
From S2P Require Import PatchApply PatchFacts Ssa SsaFacts Pagination Catalog CatalogFacts CatalogTheorems CatalogReads.
From S2P Require Import Mesh Handler WriteFacts WriteRace VerbFacts Eviction Scale ObjectMeta Sweep OwnedChildren OwnedFacts.
From S2P Require Import CatalogMeta Birth.

Local Open Scope string_scope.
Local Open Scope Z_scope.
Local Open Scope handler_scope.

Record ReplicaSetController : Type := mkRsController { rs_scope : option string }.

Definition pod_name_at (rs_name : string) (index : Z) : string := rs_name +:+ "-" +:+ pretty index.

Definition build_pod_from_template (rs : json) (index : Z) (owner : OwnerReference)
  : result (option (string * json)) ShapeError :=
  match obj_name rs with
  | None => Ok None
  | Some rs_name =>
      let pod_name := pod_name_at rs_name index in
      result_map (fmap (fun pod => (pod_name, pod)))
        (pod_from_template rs pod_name (default "default" (obj_namespace rs)) owner)
  end.

(** [strip_prefix] and [parse::<usize>] of one owned pod's name. *)
Definition index_of (rs_name pod_name : string) : option Z :=
  strip_prefix (rs_name +:+ "-") pod_name >>? parse_unsigned Word.u64_max.

Definition used_indices (rs_name : option string) (owned_pods : list (ResourceKey * json)) : list Z :=
  match rs_name with
  | None => []
  | Some rs_name => omap (fun e => index_of rs_name (name e.1)) owned_pods
  end.

Fixpoint free_from (fuel : nat) (idx : Z) (used : list Z) (count : nat) : list Z :=
  match fuel, count with
  | S fuel, S n =>
      if existsb (Z.eqb idx) used then free_from fuel (idx + 1) used count
      else idx :: free_from fuel (idx + 1) used n
  | _, _ => []
  end.

Definition free_indices (used : list Z) (count : nat) : list Z := free_from (count + length used) 0 used count.

(** The Puts of the new pods. *)
Fixpoint creates (rs : json) (owner : OwnerReference) (pod_ns : string) (free : list Z)
  : result (list ResourceCommand.t) ShapeError :=
  match free with
  | [] => Ok []
  | idx :: free =>
      let? built := build_pod_from_template rs idx owner in
      let? rest := creates rs owner pod_ns free in
      Ok (match built with
          | Some (pod_name, pod) =>
              ResourceCommand.Put (namespaced "" "v1" "Pod" pod_ns pod_name) pod None Reason.Controller :: rest
          | None => rest
          end)
  end.

Definition by_name (a b : ResourceKey * json) : bool := leb (name a.1) (name b.1).

Definition evictions (now : string) (live : list (ResourceKey * json)) (to_delete : nat) : list ResourceCommand.t :=
  map (fun e => ResourceCommand.delete now e.1 Reason.Controller) (take to_delete (rev (sort_by by_name live))).

(** [ReplicaSetController::reconcile_one]. *)
Definition rs_reconcile (this : ReplicaSetController) (now : string) (rs : json) (owned_pods : list (ResourceKey * json))
  : result (list ResourceCommand.t) ControllerError.t :=
  let? n := integer (REPLICAS rs) in
  let desired := Z.to_nat n in
  let live := live_children owned_pods in
  let observed := length live in
  if (observed =? desired)%nat then Ok []
  else
    match owner_ref_for rs "apps/v1" "ReplicaSet" with
    | None => Ok []
    | Some owner =>
        if (observed <? desired)%nat then
          shape (creates rs owner (child_namespace rs (rs_scope this))
                   (free_indices (used_indices (obj_name rs) owned_pods) (desired - observed)))
        else Ok (evictions now live (observed - desired))
    end.

(** [i64::try_from(n).unwrap_or(i64::MAX)]. *)
Definition count_i64 (n : nat) : json := JNumber (number_of_i64 (Z.min (Z.of_nat n) Word.i64_max)).

Definition rs_status (owned_now : list (ResourceKey * json)) (observed_generation : Z) : json :=
  let live := live_children owned_now in
  let replicas := count_i64 (length live) in
  let ready := count_i64 (length (List.filter (fun e => pod_is_ready e.2) live)) in
  jobj [("replicas", replicas); ("readyReplicas", ready); ("availableReplicas", ready);
        ("fullyLabeledReplicas", replicas); ("observedGeneration", JNumber (number_of_i64 observed_generation))].

#[export] Instance replicaset_reconciler : OwnedChildrenReconciler ReplicaSetController := {
  controller_name _ := "replicaset";
  parent_gvk _ := mkParentGvk (mkGvk "apps" "v1" "ReplicaSet") "apps/v1";
  child_kinds _ := [mkGvk "" "v1" "Pod"];
  also_reads _ := [];
  ctl_namespace this := rs_scope this;
  reconcile_one this now rs owned := ret (rs_reconcile this now rs owned);
  compute_status _ _ _ owned_now generation := Some (rs_status owned_now generation)
}.

(** ** A ReplicaSet converges

    Where nobody interferes, one pass over a ReplicaSet leaves exactly as many
    live pods as it declares: the missing ones are created under names nothing
    holds, or the excess ones with the greatest names are deleted, and no other
    object is touched.  Two findings end the file: a pod of somebody else that
    holds the next name is overwritten, and a template with a deletion mark makes
    every pass create pods again. *)

(** ** Free indices *)

Definition at_least (idx : Z) (used : list Z) : nat := length (List.filter (Z.leb idx) used).

Lemma at_least_skip idx used : In idx used -> (at_least (idx + 1) used < at_least idx used)%nat.
Proof.
  unfold at_least. intros Hin. assert (forall l, (length (List.filter (Z.leb (idx + 1)) l) <= length (List.filter (Z.leb idx) l))%nat) as Hle.
  { induction l as [|x l IH]; [done |]. cbn. destruct (Z.leb_spec (idx + 1) x), (Z.leb_spec idx x); cbn; lia. }
  induction used as [|x used IH]; [done |]. cbn. specialize (Hle used). destruct Hin as [-> | Hin].
  - destruct (Z.leb_spec (idx + 1) idx), (Z.leb_spec idx idx); cbn; lia.
  - specialize (IH Hin). destruct (Z.leb_spec (idx + 1) x), (Z.leb_spec idx x); cbn; lia.
Qed.

Lemma at_least_le idx used : (at_least (idx + 1) used <= at_least idx used)%nat.
Proof.
  unfold at_least. induction used as [|x used IH]; [done |]. cbn.
  destruct (Z.leb_spec (idx + 1) x), (Z.leb_spec idx x); cbn; lia.
Qed.

Lemma existsb_eqb_In idx used : existsb (Z.eqb idx) used = true <-> In idx used.
Proof.
  rewrite existsb_exists. split; [intros (x & Hin & E); apply Z.eqb_eq in E; by subst | intros; exists idx; by rewrite Z.eqb_refl].
Qed.

(** With enough fuel the search finds what it looks for: the lowest indices that
    are not used, as many as asked for. *)
Lemma free_from_spec fuel : forall idx used count, (count + at_least idx used <= fuel)%nat ->
  length (free_from fuel idx used count) = count /\
  Forall (fun i => idx <= i < idx + Z.of_nat fuel /\ ~ In i used) (free_from fuel idx used count) /\
  List.NoDup (free_from fuel idx used count) /\
  (forall i j, In i (free_from fuel idx used count) -> idx <= j <= i -> ~ In j used -> In j (free_from fuel idx used count)).
Proof.
  induction fuel as [|fuel IH]; intros idx used count Hf.
  { assert (count = 0%nat) as -> by lia. cbn. split_and!; [done | constructor | constructor | done]. }
  destruct count as [|n]; cbn [free_from]; [split_and!; [done | constructor | constructor | done] |].
  destruct (existsb (Z.eqb idx) used) eqn:E.
  - apply existsb_eqb_In in E. pose proof (at_least_skip idx used E) as Hsk.
    destruct (IH (idx + 1) used (S n)) as (H1 & H2 & H3 & H4); [lia |]. split_and!; [done | | done |].
    + eapply Forall_impl; [exact H2 |]. intros i [Hi Hn]. split; [lia | done].
    + intros i j Hi Hj Hn. apply (H4 i j Hi); [| done]. destruct (Z.eq_dec j idx) as [-> |]; [done | lia].
  - assert (~ In idx used) as Hni by (rewrite <-existsb_eqb_In, E; done). pose proof (at_least_le idx used) as Hle.
    destruct (IH (idx + 1) used n) as (H1 & H2 & H3 & H4); [lia |]. split_and!.
    + cbn. by rewrite H1.
    + constructor; [split; [lia | done] |]. eapply Forall_impl; [exact H2 |]. intros i [Hi Hn]. split; [lia | done].
    + constructor; [| done]. intros Hin. rewrite Forall_forall in H2. apply list_elem_of_In in Hin. apply H2 in Hin. lia.
    + intros i j Hi Hj Hn. destruct (Z.eq_dec j idx) as [-> | Hne]; [by left |]. right.
      destruct Hi as [<- | Hi]; [lia |]. by apply (H4 i j Hi); [lia |].
Qed.

Lemma free_indices_spec used count :
  length (free_indices used count) = count /\
  Forall (fun i => 0 <= i < Z.of_nat (count + length used) /\ ~ In i used) (free_indices used count) /\
  List.NoDup (free_indices used count) /\
  (forall i j, In i (free_indices used count) -> 0 <= j <= i -> ~ In j used -> In j (free_indices used count)).
Proof. apply free_from_spec. unfold at_least. pose proof (List.filter_length_le (Z.leb 0) used). lia. Qed.

(** ** Names *)

Lemma index_of_name rs_name i : 0 <= i <= Word.u64_max -> index_of rs_name (pod_name_at rs_name i) = Some i.
Proof.
  intros Hi. unfold index_of, pod_name_at. rewrite <-string_app_assoc, strip_prefix_app. cbn [mbind option_bind]. by apply parse_unsigned_pretty.
Qed.

(** ** The pods of a plain template *)

(** A template with no owners of its own and no deletion mark. *)
Definition plain_template (t : json) : bool :=
  match t with
  | JObject m =>
      match bt_get "metadata" m with
      | None | Some JNull => true
      | Some (JObject meta) =>
          match bt_get "ownerReferences" meta with None | Some JNull | Some (JArray []) => true | _ => false end &&
          negb (obj_terminating t)
      | _ => false
      end
  | _ => false
  end.

Lemma find_controller_value o : or_controller o = true -> or_uid o <> "" -> find_controller [owner_value o] = Some o.
Proof.
  intros Hc Hu. destruct o as [a k n u c b]. cbn in Hc, Hu. subst c. unfold find_controller, controller_ref.
  assert (is_controller_ref (owner_value (mkOwner a k n u true b)) = true) as -> by (destruct b; reflexivity).
  assert (de_owner (owner_value (mkOwner a k n u true b)) = Some (mkOwner a k n u true b)) as -> by (destruct b; reflexivity).
  cbn [mbind option_bind or_uid]. by rewrite (proj2 (eqb_false u "")).
Qed.

Lemma stamped_pod t name ns o : plain_template t = true -> or_controller o = true -> or_uid o <> "" ->
  exists pod, stamp_pod t name ns o = Ok pod /\ is_owned_by pod (or_uid o) = true /\ obj_terminating pod = false.
Proof.
  intros Hp Hc Hu. destruct t as [| | | | | m]; try done.
  set (m1 := bt_insert "apiVersion" (JString "v1") (bt_insert "kind" (JString "Pod") m)).
  assert (bt_get "metadata" m1 = bt_get "metadata" m) as Hm1 by (unfold m1; by rewrite !bt_get_insert_ne).
  assert (exists meta, object_slot ["metadata"] (default JNull (bt_get "metadata" m)) = Ok meta /\
    array_slot OWNER_REFERENCES (default JNull (bt_get "ownerReferences" meta)) = Ok [] /\
    (bt_get "deletionTimestamp" meta >>? as_str >>? non_empty_str) = None) as (meta & Hs & Ho & Hd).
  { cbn [plain_template] in Hp. destruct (bt_get "metadata" m) as [[| | | | | meta]|] eqn:Em; try done.
    - by exists [].
    - exists meta. apply andb_true_iff in Hp as [Hr Ht]. split; [done |]. split.
      + by destruct (bt_get "ownerReferences" meta) as [[| | | | [] |]|].
      + apply negb_true_iff in Ht. unfold obj_terminating, deletion_timestamp in Ht. cbn [jget] in Ht. rewrite Em in Ht.
        cbn [mbind option_bind jget] in Ht. by destruct (_ >>? non_empty_str).
    - by exists []. }
  set (meta2 := bt_insert "namespace" (JString ns) (bt_insert "name" (JString name) meta)).
  assert (bt_get "ownerReferences" meta2 = bt_get "ownerReferences" meta) as Ho2 by (unfold meta2; by rewrite !bt_get_insert_ne).
  set (meta3 := bt_insert "ownerReferences" (JArray [owner_value o]) meta2).
  set (m3 := bt_insert "metadata" (JObject meta3) (bt_insert "metadata" (JObject meta2) m1)).
  assert (stamp_pod (JObject m) name ns o = Ok (stamp_birth_status (JObject m3))) as ->.
  { unfold stamp_pod, object_mut. cbn [at_slot object_slot result_bind result_map]. fold m1. rewrite Hm1, Hs.
    cbn [result_bind result_map]. fold meta2. unfold set_owner_reference, array_mut, OWNER_REFERENCES.
    cbn [at_slot object_slot result_bind result_map app]. rewrite bt_get_insert_eq. cbn [default from_option id object_slot result_bind].
    rewrite Ho2. unfold OWNER_REFERENCES in Ho. rewrite Ho. reflexivity. }
  eexists. split; [done |].
  assert (forall f, meta_field f (stamp_birth_status (JObject m3)) = bt_get f meta3) as Hf.
  { intros f. unfold stamp_birth_status. rewrite on_object_field by (intros; by apply with_object_get).
    unfold meta_field. cbn [jget]. unfold m3. by rewrite bt_get_insert_eq. }
  split.
  - unfold is_owned_by. assert (controlling_owner (stamp_birth_status (JObject m3)) = Some o) as ->; [| apply eqb_refl].
    assert (forall x, controlling_owner x = (meta_field "ownerReferences" x ≫= as_array) ≫= find_controller) as Hco.
    { intros x. unfold controlling_owner, meta_field. by destruct (jget "metadata" x). }
    rewrite Hco, Hf. unfold meta3. rewrite bt_get_insert_eq. cbn [mbind option_bind as_array]. by apply find_controller_value.
  - unfold obj_terminating. rewrite deletion_timestamp_is, deletion_timestamp_field, Hf. unfold meta3.
    rewrite bt_get_insert_ne by done. unfold meta2. rewrite !bt_get_insert_ne by done.
    destruct (bt_get "deletionTimestamp" meta) as [d|]; [| done]. cbn [mbind option_bind] in *.
    destruct (as_str d); [| done]. cbn [mbind option_bind] in *. unfold non_empty_str in Hd. by case_match.
Qed.

(** ** The writes of a pass *)

Section Writes.
Context `{SerdeJson} `{PatchSchemaEnv} `{OpDecoder} `{Blake3} `{ErrorText}.
Context (sealer : option SealFault.t) (births : string) (now uid ns : string).

Definition pods_scope : ListScope := mkListScope "" "v1" "Pod" (Some ns).

Definition live_pod (e : ResourceKey * (json * VersionMeta)) : bool :=
  contains pods_scope e.1 && (is_owned_by e.2.1 uid && negb (obj_terminating e.2.1)).

Definition pods_of (c : ResourceCatalog) : list (ResourceKey * json) := owned_in c [mkGvk "" "v1" "Pod"] uid (Some ns).

Lemma pods_of_filter c : pods_of c =
  map (fun e => (e.1, e.2.1)) (List.filter (fun e => contains pods_scope e.1 && is_owned_by e.2.1 uid) (resources c)).
Proof.
  unfold pods_of, owned_in. cbn [flat_map]. rewrite app_nil_r. unfold list_, values_of. rewrite run_of_scope.
  cbn [gvk_group gvk_version gvk_kind]. fold pods_scope. induction (resources c) as [|e l IH]; [done |].
  cbn [List.filter]. destruct (contains pods_scope e.1); [| done]. cbn [map List.filter andb fst snd].
  destruct (is_owned_by e.2.1 uid); [cbn [map]; by rewrite IH | done].
Qed.

Lemma live_pods_filter c : live_children (pods_of c) = map (fun e => (e.1, e.2.1)) (List.filter live_pod (resources c)).
Proof.
  rewrite pods_of_filter. unfold live_children, live_pod. induction (resources c) as [|e l IH]; [done |]. cbn [List.filter].
  destruct (contains pods_scope e.1 && is_owned_by e.2.1 uid) eqn:E.
  - apply andb_true_iff in E as [-> ->]. cbn [map List.filter andb snd]. destruct (obj_terminating e.2.1); cbn [negb]; [done |].
    cbn [map]. by rewrite IH.
  - rewrite andb_assoc, E. done.
Qed.

Lemma live_count c : length (live_children (pods_of c)) = count_where live_pod (resources c).
Proof. rewrite live_pods_filter. by rewrite length_map. Qed.

Lemma In_pods c k v : bt_sorted (resources c) ->
  In (k, v) (pods_of c) <-> exists m, bt_get k (resources c) = Some (v, m) /\ contains pods_scope k = true /\ is_owned_by v uid = true.
Proof. exact (In_owned (mkGvk "" "v1" "Pod") uid (Some ns) c k v). Qed.

(** The number of live pods does not move when only keys outside the scope do. *)
Lemma live_pods_same c c' ks : bt_sorted (resources c) -> changes_only ks c c' ->
  Forall (fun k => contains pods_scope k = false) ks -> pods_of c' = pods_of c.
Proof. exact (owned_same (mkGvk "" "v1" "Pod") uid (Some ns) c c' ks). Qed.

(** Pods put at keys that hold nothing. *)
Lemma creates_alone pods : forall e c, unreadable c = [] -> bt_sorted (resources c) -> List.NoDup (map fst pods) ->
  Forall (fun p => bt_get p.1 (resources c) = None /\ is_sealed_kind p.1 = false /\ contains pods_scope p.1 = true /\
                   is_owned_by p.2 uid = true /\ obj_terminating p.2 = false) pods ->
  exists e' c', propose_delta sealer births now (map (fun p => ResourceCommand.Put p.1 p.2 None Reason.Controller) pods) e (mkWorld c []) =
      (Ok e', mkWorld c' []) /\
    changes_only (map fst pods) c c' /\
    count_where live_pod (resources c') = (length pods + count_where live_pod (resources c))%nat.
Proof.
  induction pods as [|[k v] pods IH]; intros e c Hu Hs Hnd Hp; [by exists e, c |].
  apply List.Forall_cons_iff in Hp as [(Hg & Hk & Hc & Ho & Ht) Hp]. cbn [map fst snd] in *.
  apply List.NoDup_cons_iff in Hnd as [Hn Hnd].
  destruct (propose_put_new sealer births c k (stamp_create_timestamp v now) Reason.Controller Hg Hu Hk)
    as (o & c1 & v' & m' & Hpr & _ & Hres & Hf).
  destruct (propose_only sealer births _ _ _ _ Hpr) as [Hu1 Ho1]. cbn [ResourceCommand.keys] in Ho1. destruct (Ho1 Hs) as [Hs1 Hk1].
  assert (live_pod (k, (v', m')) = true) as Hlive.
  { unfold live_pod. cbn [fst snd]. rewrite Hc.
    rewrite (owned_field v' v uid) by (rewrite Hf by apply own_owner; apply stamp_create_field, own_owner). rewrite Ho.
    rewrite (terminating_field v' v) by (rewrite Hf by apply own_deletion; apply stamp_create_field, own_deletion). by rewrite Ht. }
  destruct (IH (Effect.and e (Effect.of_op (op o))) c1) as (e' & c' & Hd & Hch & Hcount); [by rewrite Hu1 | done | done | |].
  { rewrite List.Forall_forall in Hp |- *. intros p Hin. destruct (Hp p Hin) as (Hpg & ?). split; [| done]. rewrite Hk1; [done |].
    intros [-> | []]. apply Hn. by apply in_map. }
  exists e', c'. split_and!.
  - rewrite propose_delta_cons.
    assert (target_value c (ResourceCommand.Put k v None Reason.Controller) = None) as -> by (cbn; unfold get; by rewrite Hg).
    assert (prepared now (ResourceCommand.Put k v None Reason.Controller) None =
      Some (ResourceCommand.Put k (stamp_create_timestamp v now) None Reason.Controller)) as -> by reflexivity. by rewrite Hpr.
  - exact (changes_only_trans [k] _ _ _ _ (propose_only sealer births _ _ _ _ Hpr) Hch).
  - rewrite Hcount, Hres, count_insert_new by done. rewrite Hlive. cbn. lia.
Qed.

(** Live pods deleted. *)
Lemma evictions_alone l : forall e c, unreadable c = [] -> bt_sorted (resources c) -> now <> "" -> List.NoDup (map fst l) ->
  Forall (fun p => is_sealed_kind p.1 = false /\ exists m, bt_get p.1 (resources c) = Some (p.2, m) /\ live_pod (p.1, (p.2, m)) = true) l ->
  exists e' c', propose_delta sealer births now (map (fun p => ResourceCommand.delete now p.1 Reason.Controller) l) e (mkWorld c []) =
      (Ok e', mkWorld c' []) /\
    changes_only (map fst l) c c' /\
    (length l + count_where live_pod (resources c'))%nat = count_where live_pod (resources c) /\
    Forall (fun p => match bt_get p.1 (resources c') with None => True | Some (v, _) => obj_terminating v = true end) l.
Proof.
  induction l as [|[k v] l IH]; intros e c Hu Hs Hnow Hnd Hp; [by exists e, c |].
  apply List.Forall_cons_iff in Hp as [(Hk & m & Hg & Hl) Hp]. cbn [map fst snd] in *.
  apply List.NoDup_cons_iff in Hnd as [Hn Hnd].
  assert (obj_terminating v = false) as Ht.
  { unfold live_pod in Hl. cbn in Hl. repeat (apply andb_true_iff in Hl as [? Hl]). by apply negb_true_iff. }
  destruct (propose_delete_live sealer births c k v m Reason.Controller now Hs Hg Hu Hk) as (o & c1 & Hpr & Hres);
    [unfold obj_terminating in Ht; rewrite deletion_timestamp_is in Ht; by destruct (deletion_timestamp_of v) | done |].
  destruct (propose_only sealer births _ _ _ _ Hpr) as [Hu1 Ho1]. cbn [ResourceCommand.keys] in Ho1. destruct (Ho1 Hs) as [Hs1 Hk1].
  assert (S (count_where live_pod (resources c1)) = count_where live_pod (resources c) /\
    match bt_get k (resources c1) with None => True | Some (v, _) => obj_terminating v = true end) as [Hcount1 Hgone].
  { destruct Hres as [-> | (v' & m' & -> & Ht')].
    - rewrite (count_remove live_pod k (v, m) (resources c)) by done. rewrite Hl. split; [done |]. by rewrite bt_get_remove_eq.
    - pose proof (count_replace live_pod k (v, m) (v', m') (resources c) Hs Hg) as Hr. rewrite Hl in Hr.
      rewrite bt_get_insert_eq. assert (obj_terminating v' = true) as Hv' by (unfold obj_terminating; by rewrite deletion_timestamp_is).
      assert (live_pod (k, (v', m')) = false) as Hf by (unfold live_pod; cbn; rewrite Hv'; by rewrite !andb_false_r).
      rewrite Hf in Hr. cbn in Hr. split; [lia | done]. }
  destruct (IH (Effect.and e (Effect.of_op (op o))) c1) as (e' & c' & Hd & Hch & Hcount & Hgone'); [by rewrite Hu1 | done | done | done | |].
  { rewrite List.Forall_forall in Hp |- *. intros p Hin. destruct (Hp p Hin) as (? & m0 & Hpg & ?). split; [done |]. exists m0.
    rewrite Hk1; [done |]. intros [-> | []]. apply Hn. by apply in_map. }
  exists e', c'. split_and!.
  - rewrite propose_delta_cons.
    assert (target_value c (ResourceCommand.delete now k Reason.Controller) = Some v) as -> by (cbn; unfold get; by rewrite Hg).
    assert (prepared now (ResourceCommand.delete now k Reason.Controller) (Some v) = Some (ResourceCommand.delete now k Reason.Controller))
      as -> by (unfold ResourceCommand.delete, ResourceCommand.delete_at, prepared, child_write; by rewrite Ht). by rewrite Hpr.
  - exact (changes_only_trans [k] _ _ _ _ (propose_only sealer births _ _ _ _ Hpr) Hch).
  - cbn [length]. lia.
  - constructor; [| done]. cbn [fst]. destruct Hch as [_ Hch]. destruct (Hch Hs1) as [_ Hch']. by rewrite Hch'.
Qed.

End Writes.

(** ** Convergence *)

Section Converges.
Context `{SerdeJson} `{PatchSchemaEnv} `{OpDecoder} `{Blake3} `{ErrorText}.
Context (sealer : option SealFault.t) (births : string).

Definition pod_key (ns pod_name : string) : ResourceKey := namespaced "" "v1" "Pod" ns pod_name.

Lemma pod_key_scope ns n : contains (pods_scope ns) (pod_key ns n) = true.
Proof. unfold contains, pods_scope, pod_key, namespaced. cbn. by rewrite !eqb_refl. Qed.

#[local] Instance pod_key_inj rs_name ns : Inj (=) (=) (fun i => pod_key ns (pod_name_at rs_name i)).
Proof.
  intros i j E. injection E as E. unfold pod_name_at in E.
  apply (inj (String.append rs_name)), (inj (String.append "-")) in E. by apply (inj pretty) in E.
Qed.

Lemma creates_spec rs t name ns owner free :
  spec_template rs = Some t -> plain_template t = true -> obj_name rs = Some name -> obj_namespace rs = Some ns ->
  or_controller owner = true -> or_uid owner <> "" ->
  exists pods, creates rs owner ns free = Ok (map (fun p => ResourceCommand.Put p.1 p.2 None Reason.Controller) pods) /\
    map fst pods = map (fun i => pod_key ns (pod_name_at name i)) free /\
    Forall (fun p => is_owned_by p.2 (or_uid owner) = true /\ obj_terminating p.2 = false) pods.
Proof.
  intros Ht Hp Hn Hns Hc Hu. induction free as [|i free (pods & IH1 & IH2 & IH3)]; [by exists [] |].
  destruct (stamped_pod t (pod_name_at name i) ns owner Hp Hc Hu) as (pod & Hs & Ho & Hd).
  exists ((pod_key ns (pod_name_at name i), pod) :: pods). cbn [creates map fst]. unfold build_pod_from_template, pod_from_template.
  rewrite Hn, Hns, Ht. cbn [default from_option id]. rewrite Hs, IH1, IH2. by repeat constructor.
Qed.

Lemma omap_length {A B} (f : A -> option B) l : (length (omap f l) <= length l)%nat.
Proof. induction l as [|x l IH]; [done |]. cbn. destruct (f x); cbn; lia. Qed.

Lemma used_index rs_name pods i k : name k = pod_name_at rs_name i -> 0 <= i <= Word.u64_max ->
  (exists v, In (k, v) pods) -> In i (used_indices (Some rs_name) pods).
Proof.
  intros Hk Hi (v & Hin). cbn [used_indices]. apply list_elem_of_In, list_elem_of_omap. exists (k, v).
  split; [by apply list_elem_of_In |]. cbn [fst]. rewrite Hk. by apply index_of_name.
Qed.

Lemma owner_of rs name uid : obj_name rs = Some name -> obj_uid rs = Some uid ->
  exists o, owner_ref_for rs "apps/v1" "ReplicaSet" = Some o /\ or_uid o = uid /\ or_controller o = true /\ uid <> "".
Proof.
  intros Hn Hu. unfold owner_ref_for. rewrite Hn, Hu. cbn. eexists. split_and!; [done | done | done |].
  unfold obj_uid in Hu. destruct (_ >>? as_str) as [u|]; [| done]. cbn in Hu. unfold non_empty_str in Hu.
  destruct (eqb u "") eqn:E; [done |]. injection Hu as <-. by apply eqb_false.
Qed.

(** The pods an eviction takes: the last ones by name. *)
Definition excess (l : list (ResourceKey * json)) (n : nat) : list (ResourceKey * json) := take n (rev (sort_by by_name l)).

Lemma excess_In l n p : In p (excess l n) -> In p l.
Proof.
  intros Hin. unfold excess in Hin. assert (In p (rev (sort_by by_name l))) as Hr.
  { rewrite <-(take_drop n (rev (sort_by by_name l))). apply in_app_iff. by left. }
  apply in_rev in Hr. by apply sort_by_In in Hr.
Qed.

Lemma excess_NoDup l n : List.NoDup (map fst l) -> List.NoDup (map fst (excess l n)).
Proof.
  intros Hnd. unfold excess. assert (List.NoDup (map fst (rev (sort_by by_name l)))) as Hr.
  { rewrite map_rev. apply NoDup_rev. eapply Permutation_NoDup; [| exact Hnd]. apply Permutation_map. symmetry. apply sort_by_perm. }
  rewrite <-(take_drop n (rev (sort_by by_name l))), map_app in Hr. by apply List.NoDup_app_remove_r in Hr.
Qed.

Lemma excess_length l n : (n <= length l)%nat -> length (excess l n) = n.
Proof.
  intros Hn. unfold excess. rewrite length_take, length_rev, (Permutation_length (sort_by_perm by_name l)). lia.
Qed.

Context (this : ReplicaSetController) (now uid name ns : string) (rs t : json) (n : Z) (parent_key : ResourceKey) (c : ResourceCatalog).

Hypothesis (Hsorted : bt_sorted (resources c)) (Hreadable : unreadable c = []) (Hnow : now <> "").
Hypothesis (Huid : obj_uid rs = Some uid) (Hname : obj_name rs = Some name) (Hns : obj_namespace rs = Some ns).
Hypothesis (Hkey : parent_key = namespaced "apps" "v1" "ReplicaSet" ns name).
Hypothesis (Hreplicas : REPLICAS rs = Ok n) (Hroom : n + Z.of_nat (length (resources c)) <= Word.u64_max).
Hypothesis (Hgeneration : is_ok (generation_of rs) = true) (Htemplate : spec_template rs = Some t) (Hplain : plain_template t = true).

(** Nobody else's pod holds a name of the set. *)
Definition names_are_ours : Prop :=
  forall i v m, bt_get (pod_key ns (pod_name_at name i)) (resources c) = Some (v, m) -> is_owned_by v uid = true.

(** What a pass may leave of an object that was stored. *)
Definition kept_or_evicted (after : ResourceCatalog) : Prop :=
  forall k v m, bt_get k (resources c) = Some (v, m) -> k <> parent_key ->
    bt_get k (resources after) = Some (v, m) \/
    In (k, v) (excess (live_children (pods_of uid ns c)) (length (live_children (pods_of uid ns c)) - Z.to_nat n)) /\
      match bt_get k (resources after) with None => True | Some (v', _) => obj_terminating v' = true end.

(** What the delta does. *)
Lemma delta_converges : names_are_ours ->
  exists cmds e c1, rs_reconcile this now rs (pods_of uid ns c) = Ok cmds /\
    propose_delta sealer births now cmds Effect.Unchanged (mkWorld c []) = (Ok e, mkWorld c1 []) /\
    unreadable c1 = [] /\ bt_sorted (resources c1) /\
    length (live_children (pods_of uid ns c1)) = Z.to_nat n /\ kept_or_evicted c1.
Proof.
  intros Hours. destruct (owner_of rs name uid Hname Huid) as (o & Ho & Hou & Hoc & Hne). unfold rs_reconcile. rewrite Hreplicas, Ho.
  cbn [integer result_map_err result_bind]. set (live := live_children (pods_of uid ns c)).
  assert (List.NoDup (map fst live)) as Hnd.
  { unfold live. rewrite live_pods_filter, map_map. cbn.
    change (map (fun e : ResourceKey * (json * VersionMeta) => e.1) ?l) with l.*1. apply NoDup_ListNoDup, bt_keys_NoDup, bt_filter_sorted, Hsorted. }
  destruct (Nat.eqb_spec (length live) (Z.to_nat n)) as [Heq|Hneq].
  { exists [], Effect.Unchanged, c. split_and!; [done | done | done | done | done |]. intros k v m Hg _. by left. }
  destruct (Nat.ltb_spec (length live) (Z.to_nat n)) as [Hlt|Hge].
  - unfold child_namespace. rewrite Hns, Hname. set (used := used_indices (Some name) (pods_of uid ns c)).
    destruct (free_indices_spec used (Z.to_nat n - length live)) as (Hfl & Hff & Hfn & _).
    destruct (creates_spec rs t name ns o (free_indices used (Z.to_nat n - length live)) Htemplate Hplain Hname Hns Hoc) as (pods & Hcr & Hfst & Hpods);
      [by rewrite Hou |]. rewrite Hcr. cbn [shape result_map_err].
    assert (length used <= length (resources c))%nat as Hul.
    { unfold used. cbn [used_indices]. etransitivity; [apply omap_length |]. rewrite pods_of_filter, length_map. apply List.filter_length_le. }
    assert (Forall (fun k => bt_get k (resources c) = None) (map fst pods)) as Hfresh.
    { rewrite Hfst. apply List.Forall_forall. intros k Hk. apply in_map_iff in Hk as (i & <- & Hi).
      rewrite List.Forall_forall in Hff. destruct (Hff i Hi) as [Hr Hni].
      destruct (bt_get (pod_key ns (pod_name_at name i)) (resources c)) as [[v m]|] eqn:Eg; [| done]. exfalso. apply Hni.
      apply (used_index name _ i (pod_key ns (pod_name_at name i))); [done | lia |]. exists v. apply In_pods; [done |]. exists m.
      split_and!; [done | apply pod_key_scope | by eapply Hours]. }
    destruct (creates_alone sealer births now uid ns pods Effect.Unchanged c Hreadable Hsorted) as (e & c1 & Hd & Hch & Hcount).
    + rewrite Hfst. apply NoDup_ListNoDup, (NoDup_fmap_2 (fun i => pod_key ns (pod_name_at name i))). by apply NoDup_ListNoDup.
    + rewrite List.Forall_forall in Hfresh, Hpods |- *. intros p Hp. destruct (Hpods p Hp) as [Hp1 Hp2]. rewrite Hou in Hp1.
      assert (exists i, p.1 = pod_key ns (pod_name_at name i)) as [i Hi].
      { assert (In p.1 (map fst pods)) as Hin by (by apply in_map). rewrite Hfst in Hin. apply in_map_iff in Hin as (i & <- & _). by exists i. }
      split_and!; [apply Hfresh, in_map, Hp | by rewrite Hi | rewrite Hi; apply pod_key_scope | done | done].
    + destruct Hch as [Hu1 Hch]. destruct (Hch Hsorted) as [Hs1 Hk1]. exists (map (fun p => ResourceCommand.Put p.1 p.2 None Reason.Controller) pods), e, c1.
      split_and!; [done | done | by rewrite Hu1 | done | |].
      * rewrite live_count, Hcount, <-live_count. fold live. assert (length pods = (Z.to_nat n - length live)%nat) as ->; [| lia].
        by rewrite <-(length_map fst), Hfst, length_map.
      * intros k v m Hg _. left. rewrite Hk1; [done |]. intros Hin. rewrite List.Forall_forall in Hfresh.
        by rewrite (Hfresh k Hin) in Hg.
  - set (l := excess live (length live - Z.to_nat n)).
    assert (forall p, In p l -> exists m, bt_get p.1 (resources c) = Some (p.2, m) /\ live_pod uid ns (p.1, (p.2, m)) = true) as Hl.
    { intros [k v] Hin. apply excess_In in Hin. unfold live in Hin. rewrite live_pods_filter in Hin.
      apply in_map_iff in Hin as ([k' [v' m]] & E & Hin). cbn in E. injection E as -> ->. apply filter_In in Hin as [Hin Hlp].
      exists m. split; [by apply bt_get_In | done]. }
    destruct (evictions_alone sealer births now uid ns l Effect.Unchanged c Hreadable Hsorted Hnow) as (e & c1 & Hd & Hch & Hcount & Hgone).
    + by apply excess_NoDup.
    + apply List.Forall_forall. intros p Hp. destruct (Hl p Hp) as (m & Hg & Hlp). split; [| by exists m].
      unfold live_pod, contains, pods_scope in Hlp. cbn in Hlp. apply andb_true_iff in Hlp as [Hlp _]. unfold is_sealed_kind.
      destruct (eqb (group p.1) ""); [| done]. cbn. repeat (apply andb_true_iff in Hlp as [Hlp ?]).
      match goal with Hk : eqb (kind p.1) "Pod" = true |- _ => apply (proj1 (eqb_true _ _)) in Hk; rewrite Hk end. done.
    + destruct Hch as [Hu1 Hch]. destruct (Hch Hsorted) as [Hs1 Hk1].
      exists (map (fun p => ResourceCommand.delete now p.1 Reason.Controller) l), e, c1.
      split_and!; [done | done | by rewrite Hu1 | done | |].
      * rewrite live_count.
        assert (length l = (length live - Z.to_nat n)%nat) as Hll by (apply excess_length; lia). 
        assert (length live = count_where (live_pod uid ns) (resources c)) as Hlc by apply live_count. lia.
      * intros k v m Hg _. destruct (in_dec (fun a b => base.decide (a = b)) k (map fst l)) as [Hin|Hin].
        { right. apply in_map_iff in Hin as ([k' v'] & E & Hin). cbn in E. subst k'. destruct (Hl _ Hin) as (m' & Hg' & _). cbn in Hg'.
          rewrite Hg in Hg'. injection Hg' as -> _. split; [exact Hin |]. rewrite List.Forall_forall in Hgone. exact (Hgone _ Hin). }
        { left. by rewrite Hk1. }
Qed.
(** (C17) One pass that nobody interferes with ends well and leaves as many live pods
    as the ReplicaSet declares.  Every other object is as it was: the pods it
    creates have names nothing held, and only the excess pods with the greatest
    names are removed or marked for deletion.  The next pass has nothing left to
    do.  This is where no pod of somebody else holds a name of the set
    ([names_are_ours]; [stranger_overwritten] is what happens otherwise), the
    template carries no owner references and no deletion mark ([plain_template];
    see [born_leaving_runs_away]), what the pass reads of the ReplicaSet can be
    read, and no stored secret is sealed for good. *)
Theorem replicaset_converges : names_are_ours ->
  exists outcome after,
    reconcile_parent sealer births this now parent_key rs (mkWorld c []) = (Ok outcome, mkWorld after []) /\
    length (live_children (pods_of uid ns after)) = Z.to_nat n /\ kept_or_evicted after /\
    rs_reconcile this now rs (pods_of uid ns after) = Ok [].
Proof.
  intros Hours. destruct (delta_converges Hours) as (cmds & e & c1 & Hr & Hd & Hu1 & Hs1 & Hlen & Hkept).
  destruct (generation_of rs) as [gen|] eqn:Eg; [| done].
  destruct (pass_alone sealer births this now parent_key rs c uid gen cmds e c1) as (outcome & after & Hpass & Hch); try done.
  { by rewrite Hkey. }
  { cbn [reconcile_one replicaset_reconciler child_kinds]. rewrite Hkey. cbn [namespace namespaced]. fold (pods_of uid ns c). unfold ret. by rewrite Hr. }
  assert (pods_of uid ns after = pods_of uid ns c1) as Hp.
  { eapply live_pods_same; [exact Hs1 | exact Hch |]. by rewrite Hkey; repeat constructor. }
  exists outcome, after. rewrite Hp. split_and!; [done | done | |].
  - intros k v m Hg Hk. destruct Hch as [_ Hch]. destruct (Hch Hs1) as [_ Ho]. rewrite Ho by (intros [Hin|[]]; by apply Hk).
    by apply Hkept.
  - unfold rs_reconcile. rewrite Hreplicas. cbn [integer result_map_err result_bind]. by rewrite Hlen, Nat.eqb_refl.
Qed.

End Converges.

(** Every command of the controller is a Put or a Delete. *)
Lemma rs_targets this now rs owned cmds : rs_reconcile this now rs owned = Ok cmds ->
  Forall (fun cmd => child_write_target cmd <> None) cmds.
Proof.
  unfold rs_reconcile. destruct (integer (REPLICAS rs)) as [n|]; [| done]. cbn [result_bind].
  case_match; [by intros [= <-] |]. destruct (owner_ref_for _ _ _) as [o|]; [| by intros [= <-]]. case_match.
  - generalize (free_indices (used_indices (obj_name rs) owned) (Z.to_nat n - length (live_children owned))) as free.
    intros free. revert cmds. induction free as [|i free IH]; intros cmds; cbn [creates shape result_map_err]; [by intros [= <-] |].
    destruct (build_pod_from_template rs i o) as [built|]; [| done]. cbn [result_bind] in *.
    destruct (creates rs o _ free) as [rest|]; [| done]. cbn [result_bind result_map_err]. intros [= <-].
    specialize (IH rest eq_refl). destruct built as [[pn pod]|]; [by constructor | done].
  - intros [= <-]. unfold evictions. apply List.Forall_forall. intros cmd Hin. apply in_map_iff in Hin as (p & <- & _). done.
Qed.

(** ** Witnesses *)

#[local] Existing Instance numbered.
#[local] Existing Instance sample_env.
#[local] Existing Instance sample_ops.
#[local] Existing Instance zero_blake3.
#[local] Existing Instance sample_text.

Definition rs_key : ResourceKey := namespaced "apps" "v1" "ReplicaSet" "default" "web".

Definition rs_body (replicas : Z) (template : json) : json :=
  jobj [("metadata", jobj [("name", JString "web"); ("namespace", JString "default"); ("uid", JString "u-1")]);
        ("spec", jobj [("replicas", JNumber (PosInt replicas)); ("template", template)])].

Definition plain_pod : json := jobj [("spec", jobj [("containers", JArray [])])].

Definition put_at_key (k : ResourceKey) (v : json) (i : Z) : LogEntry := entry (ResourceCommand.put k v Reason.Operator) i.

Definition with_rs (template : json) (more : list LogEntry) : ResourceCatalog :=
  (CatalogTheorems.run empty (put_at_key rs_key (rs_body 2 template) 1 :: more)).2.

Definition stored_rs (c : ResourceCatalog) : json := default JNull (get c rs_key).

(** One pass over the stored ReplicaSet. *)
Definition pass (c : ResourceCatalog) : ResourceCatalog :=
  stored_catalog (reconcile_parent None "born" (mkRsController None) "now" rs_key (stored_rs c) (mkWorld c [])).2.

Lemma replicaset_converges_witness :
  exists outcome after,
    reconcile_parent None "born" (mkRsController None) "now" rs_key (stored_rs (with_rs plain_pod [])) (mkWorld (with_rs plain_pod []) []) =
      (Ok outcome, mkWorld after []) /\
    length (live_children (pods_of "u-1" "default" after)) = 2%nat.
Proof.
  destruct (replicaset_converges None "born" (mkRsController None) "now" "u-1" "web" "default" (stored_rs (with_rs plain_pod []))
    plain_pod 2 rs_key (with_rs plain_pod [])) as (outcome & after & Hp & Hl & _); try (by vm_compute).
  - apply bt_sortedb_spec. by vm_compute.
  - exists outcome, after. split; [exact Hp | exact Hl].
Defined.

(** A pod on its way out, held by a finalizer. *)
Definition leaving_pod : json :=
  jobj [("metadata", jobj [("name", JString "web-0"); ("deletionTimestamp", JString "then");
                           ("finalizers", JArray [JString "hold"]);
                           ("ownerReferences", JArray [owner_value (mkOwner "apps/v1" "ReplicaSet" "web" "u-1" true true)])])].

Definition leaving : ResourceCatalog := with_rs plain_pod [put_at_key (pod_key "default" "web-0") leaving_pod 2].

Lemma terminating_untouched_witness :
  get_with_meta (pass leaving) (pod_key "default" "web-0") = get_with_meta leaving (pod_key "default" "web-0") /\
  map (fun e => name e.1) (live_children (pods_of "u-1" "default" (pass leaving))) = ["web-1"; "web-2"].
Proof.
  split; [| by vm_compute].
  assert (get_with_meta leaving (pod_key "default" "web-0") =
    Some ((stored_at leaving (pod_key "default" "web-0")).1, (stored_at leaving (pod_key "default" "web-0")).2)) as Hg by (by vm_compute).
  rewrite Hg. unfold pass, get_with_meta.
  destruct (reconcile_parent None "born" (mkRsController None) "now" rs_key (stored_rs leaving) (mkWorld leaving [])) as [r w] eqn:E.
  eapply (terminating_untouched None "born" (mkRsController None) "now" rs_key (stored_rs leaving) leaving r w); [| | exact Hg | | | | exact E].
  - apply bt_sortedb_spec. by vm_compute.
  - intros owned. apply reads_ret.
  - by vm_compute.
  - done.
  - intros owned w0 cmds w1 Hr. cbn in Hr. unfold ret in Hr. injection Hr as Hr _. apply rs_targets in Hr.
    rewrite List.Forall_forall in Hr |- *. intros cmd Hin Hnone. by destruct (Hr cmd Hin).
Defined.

(** ** A stranger's pod is overwritten

    Free indices are counted among the pods the set owns, and the Put of a new pod
    carries no condition: a pod of somebody else that holds the name is replaced,
    its spec and its node with it. *)

Definition stranger : json :=
  jobj [("metadata", jobj [("name", JString "web-0")]); ("spec", jobj [("nodeName", JString "n1")])].

Lemma stranger_overwritten :
  let c := with_rs plain_pod [put_at_key (pod_key "default" "web-0") stranger 2] in
  (get c (pod_key "default" "web-0") >>? jget "spec" >>? jget "nodeName") = Some (JString "n1") /\
  match get (pass c) (pod_key "default" "web-0") with
  | Some v => is_owned_by v "u-1" = true /\ (jget "spec" v >>? jget "nodeName") = None
  | None => False
  end.
Proof. by vm_compute. Qed.

(** ** Pods that are born leaving

    A template may carry a [deletionTimestamp]; the pods made of it are never
    live, so every pass makes as many again, under new names. *)

Definition leaving_template : json := jobj [("metadata", jobj [("deletionTimestamp", JString "then")])].

Lemma born_leaving_runs_away :
  let c := with_rs leaving_template [] in
  map (fun n => length (pods_of "u-1" "default" (Nat.iter n pass c))) [1; 2; 3]%nat = [2; 4; 6]%nat.
Proof. by vm_compute. Qed.
