(* ===== verification/PodTemplate.v ===== *)
(** * When two pod templates are the same

    [engenho-controllers/src/pod_template.rs]: the normal form templates are
    compared in, and the hash that names a ReplicaSet.  The theorem: two
    templates normalise to the same value exactly when one can be made the other
    by adding and dropping fields that mean nothing, wherever they are. *)

From Stdlib Require Import Ascii String.
From stdpp Require Import base tactics option list strings numbers.
From S2P Require Import Prelude Text BTreeMap Json Pagination.

Local Open Scope string_scope.
Local Open Scope Z_scope.

Definition POD_TEMPLATE_HASH_LABEL : string := "pod-template-hash".

Definition MAP_FIELDS : list string :=
  ["labels"; "annotations"; "nodeSelector"; "overhead"; "limits"; "requests"; "matchLabels"; "volumeAttributes"; "options"].

Definition is_map_field (field : string) : bool := existsb (eqb field) MAP_FIELDS.

Definition is_absent_field (name : string) (v : json) : bool :=
  is_null v || (match v with JArray [] => true | _ => false end) ||
  (match v with JObject [] => true | _ => false end) && (is_map_field name || eqb name "metadata").

(** The value of a map's entries is not looked into. *)
Definition opaque (field : option string) : bool := match field with Some f => is_map_field f | None => false end.

Fixpoint normalize (field : option string) (v : json) : json :=
  match v with
  | JObject m =>
      if opaque field then v
      else
        JObject ((fix fields m :=
          match m with
          | [] => []
          | (name, member) :: m =>
              let member := normalize (Some name) member in
              if is_absent_field name member then fields m else (name, member) :: fields m
          end) m)
  | JArray l => JArray (map (normalize None) l)
  | _ => v
  end.

(** The template without the label of its hash. *)
Definition without_hash (t : json) : json :=
  match t with
  | JObject m =>
      match bt_get "metadata" m with
      | Some (JObject meta) =>
          match bt_get "labels" meta with
          | Some (JObject labels) =>
              JObject (bt_insert "metadata" (JObject (bt_insert "labels" (JObject (bt_remove POD_TEMPLATE_HASH_LABEL labels)) meta)) m)
          | _ => t
          end
      | _ => t
      end
  | _ => t
  end.

(** [NormalizedTemplate::of]. *)
Definition normalized (template : json) : json := normalize None (without_hash template).

Definition of_spec_template (owner : json) : option json :=
  match jget "spec" owner >>? jget "template" with Some JNull | None => None | Some t => Some (normalized t) end.

(** ** The naming hash *)

Definition FNV_OFFSET : Z := 14695981039346656037.
Definition FNV_PRIME : Z := 1099511628211.

Definition fnv_step (h : Z) (c : ascii) : Z := (Z.lxor h (Z.of_N (N_of_ascii c)) * FNV_PRIME) mod Word.u64_modulus.

Definition fnv1a (text : string) : Z := fold_left fnv_step (list_ascii_of_string text) FNV_OFFSET.

(** [{:010x}] of the top forty bits. *)
Definition hash_text (h : Z) : string :=
  string_of_list_ascii (map (fun i => hex_digit (Z.land (Z.shiftr h (24 + 4 * (9 - Z.of_nat i))) 15)) (seq 0 10)).

Definition naming_hash `{SerdeJson} (template : json) : string := hash_text (fnv1a (json_text template)).

(** ** What a template means *)

(** One value in two spellings: fields that mean nothing come and go in every
    object that is not a map. *)
Inductive same : option string -> json -> json -> Prop :=
  | same_refl f v : same f v v
  | same_sym f v w : same f v w -> same f w v
  | same_trans f u v w : same f u v -> same f v w -> same f u w
  | same_item f l1 x y l2 : same None x y -> same f (JArray (l1 ++ x :: l2)) (JArray (l1 ++ y :: l2))
  | same_member f m1 k x y m2 : opaque f = false -> same (Some k) x y ->
      same f (JObject (m1 ++ (k, x) :: m2)) (JObject (m1 ++ (k, y) :: m2))
  | same_null f m1 k m2 : opaque f = false -> same f (JObject (m1 ++ (k, JNull) :: m2)) (JObject (m1 ++ m2))
  | same_empty_list f m1 k m2 : opaque f = false -> same f (JObject (m1 ++ (k, JArray []) :: m2)) (JObject (m1 ++ m2))
  | same_empty_map f m1 k m2 : opaque f = false -> is_map_field k || eqb k "metadata" = true ->
      same f (JObject (m1 ++ (k, JObject []) :: m2)) (JObject (m1 ++ m2)).

Fixpoint normalize_fields (m : list (string * json)) : list (string * json) :=
  match m with
  | [] => []
  | (name, member) :: m =>
      if is_absent_field name (normalize (Some name) member) then normalize_fields m
      else (name, normalize (Some name) member) :: normalize_fields m
  end.

Lemma normalize_object f m : opaque f = false -> normalize f (JObject m) = JObject (normalize_fields m).
Proof. intros Hf. cbn [normalize]. by rewrite Hf. Qed.

Lemma normalize_fields_app m1 m2 : normalize_fields (m1 ++ m2) = (normalize_fields m1 ++ normalize_fields m2)%list.
Proof. induction m1 as [|[k v] m1 IH]; [done |]. cbn. rewrite IH. by case_match. Qed.

Lemma normalize_same f a b : same f a b -> normalize f a = normalize f b.
Proof.
  induction 1 as [| | | f l1 x y l2 _ IH | f m1 k x y m2 Hf _ IH | f m1 k m2 Hf | f m1 k m2 Hf | f m1 k m2 Hf Hk]; try congruence.
  - cbn [normalize]. rewrite !map_app. cbn [map]. by rewrite IH.
  - rewrite !normalize_object by done. rewrite !normalize_fields_app. cbn [normalize_fields]. by rewrite IH.
  - rewrite !normalize_object by done. by rewrite !normalize_fields_app.
  - rewrite !normalize_object by done. by rewrite !normalize_fields_app.
  - rewrite !normalize_object by done. rewrite !normalize_fields_app. cbn [normalize_fields].
    assert (normalize (Some k) (JObject []) = JObject []) as -> by (cbn [normalize]; destruct (opaque (Some k)); reflexivity).
    unfold is_absent_field. cbn [is_null orb andb]. by rewrite Hk.
Qed.

Lemma same_absent f m1 k v m2 : opaque f = false -> is_absent_field k v = true ->
  same f (JObject (m1 ++ (k, v) :: m2)) (JObject (m1 ++ m2)).
Proof.
  intros Hf Hk. destruct v as [| | | | [|] | [|]]; try done; [by apply same_null | by apply same_empty_list |].
  by apply same_empty_map.
Qed.

Lemma same_normalize v : forall f, same f v (normalize f v).
Proof.
  induction v as [| | | | l IH | m IH] using json_nested_ind; intros f; try apply same_refl.
  - cbn [normalize]. change (JArray l) with (JArray ([] ++ l)). change (map (normalize None) l) with ([] ++ map (normalize None) l)%list.
    generalize (@nil json) as pre. induction IH as [|x l Hx _ IHl]; intros pre; [apply same_refl |]. cbn [map].
    eapply same_trans; [apply same_item, Hx |]. specialize (IHl (pre ++ [normalize None x])%list).
    by rewrite <-!app_assoc in IHl.
  - destruct (opaque f) eqn:Hf; [cbn [normalize]; rewrite Hf; apply same_refl |]. rewrite normalize_object by done.
    change (JObject m) with (JObject ([] ++ m)). change (normalize_fields m) with ([] ++ normalize_fields m)%list.
    generalize (@nil (string * json)) as pre. induction IH as [|[k x] m Hx _ IHm]; intros pre; [apply same_refl |].
    cbn [normalize_fields]. eapply same_trans; [apply same_member; [done | apply Hx] |]. cbn [snd].
    destruct (is_absent_field k (normalize (Some k) x)) eqn:Ea.
    + eapply same_trans; [by apply same_absent |]. apply IHm.
    + specialize (IHm (pre ++ [(k, normalize (Some k) x)])%list). by rewrite <-!app_assoc in IHm.
Qed.

(** Two templates are taken for the same exactly when, the label of the hash
    apart, one is the other with fields added or dropped that are null, an empty
    list, or an empty map or metadata, at any depth outside the maps. *)
Theorem templates_equal_iff a b : normalized a = normalized b <-> same None (without_hash a) (without_hash b).
Proof.
  unfold normalized. split; [| by apply normalize_same]. intros E.
  eapply same_trans; [apply same_normalize |]. rewrite E. apply same_sym, same_normalize.
Qed.
