(* ===== verification/Deployment.v ===== *)
(** * The Deployment controller

    [engenho-controllers/src/deployment.rs]: the ReplicaSet that is current, the
    writes that scale the others down and the current one to the declared count,
    the status and its conditions. *)

From Stdlib Require Import Ascii String.
From stdpp Require Import base tactics option list strings numbers pretty.
From S2P Require Import Prelude Text BTreeMap Json Resource WatchHistory Command Read InMemoryStore.
From S2P Require Import PatchApply PatchFacts Ssa SsaFacts Pagination Catalog CatalogFacts CatalogTheorems CatalogReads.
From S2P Require Import Mesh Handler WriteFacts WriteRace VerbFacts Eviction Scale ObjectMeta Sweep OwnedChildren OwnedFacts.
From S2P Require Import PodTemplate CatalogMeta Birth ReplicaSet.

Local Open Scope string_scope.
Local Open Scope Z_scope.
Local Open Scope handler_scope.

Record DeploymentController : Type := mkDeployController { deploy_scope : option string }.

Definition RS_STATUS_READY : json -> result Z NotAnInteger := defaulted ["status"; "readyReplicas"] 0.
Definition RS_STATUS_AVAILABLE : json -> result Z NotAnInteger := defaulted ["status"; "availableReplicas"] 0.

(** [hash] is the naming hash of the template. *)
Definition build_replicaset_from (d : json) (hash : string) (replicas : Z) : option (string * json) :=
  d_name ← obj_name d;
  template ← (jget "spec" d >>? jget "template");
  let rs_name := d_name +:+ "-" +:+ hash in
  Some (rs_name,
    jobj [("kind", JString "ReplicaSet"); ("apiVersion", JString "apps/v1");
          ("metadata",
           jobj [("name", JString rs_name); ("namespace", JString (default "default" (obj_namespace d)));
                 ("labels", jobj [("app.kubernetes.io/managed-by", JString "engenho-deployment-controller");
                                  (POD_TEMPLATE_HASH_LABEL, JString hash)])]);
          ("spec",
           jobj [("replicas", JNumber (number_of_i64 replicas));
                 ("selector", default JNull (jget "spec" d >>? jget "selector")); ("template", template)])]).

Definition rs_status_counts (rs : json) : result (Z * Z * Z) NotAnInteger :=
  let? r := STATUS_REPLICAS rs in
  let? rd := RS_STATUS_READY rs in
  let? av := RS_STATUS_AVAILABLE rs in
  Ok (r, rd, av).

Definition runs_template (rs template : json) : bool := eqb (of_spec_template rs) (Some template).

Definition ok_count (rs : json) : option Z := match REPLICAS rs with Ok n => Some n | Err _ => None end.

(** The order of [max_by]: the count, then the name read backwards. *)
Definition rs_order (a b : ResourceKey * json) : comparison :=
  lex (cmp (ok_count a.2) (ok_count b.2)) (cmp (name b.1) (name a.1)).

(** [Iterator::max_by]: the last of the greatest. *)
Definition max_by {A} (order : A -> A -> comparison) (l : list A) : option A :=
  fold_left (fun best x =>
    match best with
    | None => Some x
    | Some b => match order b x with Gt => Some b | _ => Some x end
    end) l None.

Definition current_replicaset (template : json) (owned_rs : list (ResourceKey * json)) : option (ResourceKey * json) :=
  max_by rs_order (List.filter (fun e => runs_template e.2 template) owned_rs).

(** The patches that retire every ReplicaSet but the current one. *)
Definition retire (current : option ResourceKey) (owned_rs : list (ResourceKey * json)) : list ResourceCommand.t :=
  omap (fun e =>
    if base.decide (current = Some e.1) then None
    else
      match REPLICAS e.2 with
      | Ok n => if n =? 0 then None else Some (ResourceCommand.patch e.1 (replicas_patch 0) Reason.Controller)
      | Err _ => None
      end) owned_rs.

(** ** Status *)

Record Counts : Type := mkCounts { cn_desired : Z; cn_replicas : Z; cn_updated : Z; cn_available : Z }.

Definition i64_saturate : Z -> Z := Word.saturate Word.i64_min Word.i64_max.

Definition scaled (value : option json) (total : Z) (round_up : bool) (default_percent : Z) : Z :=
  let of_percent percent :=
    let numer := i64_saturate (percent * total) in
    if round_up then Word.i64_add (numer / 100) (if numer mod 100 =? 0 then 0 else 1) else numer / 100 in
  match value with
  | Some (JNumber n) => Z.max (default 0 (as_i64 (JNumber n))) 0
  | Some (JString s) =>
      of_percent (default default_percent (strip_suffix "%" s >>? parse_signed Word.i64_min Word.i64_max))
  | _ => of_percent default_percent
  end.

Definition max_unavailable (d : json) (desired : Z) : Z :=
  let strategy := jget "spec" d >>? jget "strategy" in
  let recreate := eqb (strategy >>? jget "type" >>? as_str) (Some "Recreate") in
  if recreate || (desired =? 0) then 0
  else
    let rolling := strategy >>? jget "rollingUpdate" in
    let surge := scaled (rolling >>? jget "maxSurge") desired true 25 in
    let unavailable := scaled (rolling >>? jget "maxUnavailable") desired false 25 in
    let unavailable := if (surge =? 0) && (unavailable =? 0) then 1 else unavailable in
    Z.min unavailable desired.

Definition is_str (s : string) (v : option json) : bool := eqb (v >>? as_str) (Some s).

(** The closure [carried]: the condition as recorded when it says the same. *)
Definition carried (prior : list json) (now kind status reason message : string) : json :=
  let old := List.find (fun c => is_str kind (jget "type" c)) prior in
  let fresh since :=
    jobj [("type", JString kind); ("status", JString status); ("lastUpdateTime", JString now); ("lastTransitionTime", since);
          ("reason", JString reason); ("message", JString message)] in
  match old with
  | None => fresh (JString now)
  | Some old =>
      if is_str status (jget "status" old) && is_str reason (jget "reason" old) then old
      else if is_str status (jget "status" old) then fresh (default (JString now) (jget "lastTransitionTime" old))
      else fresh (JString now)
  end.

Section Reconcile.
Context `{SerdeJson} (debug : string -> string).

Definition deployment_conditions (d : json) (counts : Counts) (current_rs : option string) (now : string) : list json :=
  let prior := default [] (jget "status" d >>? jget "conditions" >>? as_array) in
  let carried := carried prior now in
  let available :=
    if Word.i64_add (cn_desired counts) (- max_unavailable d (cn_desired counts)) <=? cn_available counts
    then carried "Available" "True" "MinimumReplicasAvailable" "Deployment has minimum availability."
    else carried "Available" "False" "MinimumReplicasUnavailable" "Deployment does not have minimum availability." in
  available ::
  match current_rs with
  | None => []
  | Some rs =>
      let complete := (cn_updated counts =? cn_desired counts) && (cn_replicas counts =? cn_desired counts) &&
                      (cn_available counts =? cn_desired counts) in
      [if complete
       then carried "Progressing" "True" "NewReplicaSetAvailable" ("ReplicaSet " +:+ debug rs +:+ " has successfully progressed.")
       else carried "Progressing" "True" "ReplicaSetUpdated" ("ReplicaSet " +:+ debug rs +:+ " is progressing.")]
  end.

(** The sums over the ReplicaSets that run the template, when all can be read. *)
Fixpoint sum_counts (l : list (ResourceKey * json)) (acc : Z * Z * Z) : option (Z * Z * Z) :=
  match l with
  | [] => Some acc
  | e :: l =>
      match rs_status_counts e.2 with
      | Ok (r, rd, av) =>
          sum_counts l (i64_saturate (acc.1.1 + r), i64_saturate (acc.1.2 + rd), i64_saturate (acc.2 + av))
      | Err _ => None
      end
  end.

Definition deployment_status (now : string) (d : json) (owned_rs_after : list (ResourceKey * json)) (observed_generation : Z)
  : option json :=
  template ← of_spec_template d;
  '(replicas, ready, available) ← sum_counts (List.filter (fun e => runs_template e.2 template) owned_rs_after) (0, 0, 0);
  desired ← ok_count d;
  let current_rs := current_replicaset template owned_rs_after >>? (fun e => obj_name e.2) in
  Some (jobj [("replicas", JNumber (number_of_i64 replicas)); ("readyReplicas", JNumber (number_of_i64 ready));
              ("availableReplicas", JNumber (number_of_i64 available)); ("updatedReplicas", JNumber (number_of_i64 replicas));
              ("observedGeneration", JNumber (number_of_i64 observed_generation));
              ("conditions", JArray (deployment_conditions d (mkCounts desired replicas replicas available) current_rs now))]).

(** [DeploymentController::reconcile_one]. *)
Definition deployment_reconcile (this : DeploymentController) (d : json) (owned_rs : list (ResourceKey * json))
  : result (list ResourceCommand.t) ControllerError.t :=
  let? desired := integer (REPLICAS d) in
  match of_spec_template d, owner_ref_for d "apps/v1" "Deployment" with
  | Some template, Some owner =>
      let current := current_replicaset template owned_rs in
      let retired := retire (fst <$> current) owned_rs in
      match current with
      | Some (rs_key, rs_value) =>
          Ok (retired ++
              match REPLICAS rs_value with
              | Ok n => if n =? desired then [] else [ResourceCommand.patch rs_key (replicas_patch desired) Reason.Controller]
              | Err _ => []
              end)%list
      | None =>
          match build_replicaset_from d (naming_hash template) desired with
          | None => Ok retired
          | Some (rs_name, rs_value) =>
              let? rs_value := shape (set_owner_reference rs_value owner) in
              Ok (retired ++
                  [ResourceCommand.Put (namespaced "apps" "v1" "ReplicaSet" (child_namespace d (deploy_scope this)) rs_name)
                     rs_value None Reason.Controller])%list
          end
      end
  | _, _ => Ok []
  end.

#[export] Instance deployment_reconciler : OwnedChildrenReconciler DeploymentController := {
  controller_name _ := "deployment";
  parent_gvk _ := mkParentGvk (mkGvk "apps" "v1" "Deployment") "apps/v1";
  child_kinds _ := [mkGvk "apps" "v1" "ReplicaSet"];
  also_reads _ := [];
  ctl_namespace this := deploy_scope this;
  reconcile_one this _ d owned := ret (deployment_reconcile this d owned);
  compute_status _ now d owned generation := deployment_status now d owned generation
}.

End Reconcile.

(** ** A Deployment settles

    Where nobody interferes, one pass over a Deployment leaves one ReplicaSet that
    runs its template at the declared count and every other at zero, none of them
    lost; the next pass has nothing left to do. *)

(** ** The current ReplicaSet *)

Definition count_of (e : ResourceKey * json) : Z := default 0 (ok_count e.2).
Definition readable_count (e : ResourceKey * json) : Prop := ok_count e.2 = Some (count_of e).

Lemma order_counts a b : readable_count a -> readable_count b ->
  match rs_order a b with Gt => count_of b <= count_of a | _ => count_of a <= count_of b end.
Proof.
  intros Ha Hb. unfold rs_order. rewrite Ha, Hb, option_cmp_Some. unfold cmp at 1, Z_ord.
  destruct (Z.compare_spec (count_of a) (count_of b)); cbn [lex]; [case_match; lia | lia | lia].
Qed.

Lemma max_by_spec l : forall acc x, Forall readable_count l -> (forall b, acc = Some b -> readable_count b) ->
  fold_left (fun best x => match best with None => Some x | Some b => match rs_order b x with Gt => Some b | _ => Some x end end) l acc = Some x ->
  (In x l \/ acc = Some x) /\ (forall y, In y l \/ acc = Some y -> count_of y <= count_of x).
Proof.
  induction l as [|z l IH]; intros acc x Hr Ha Hf; cbn [fold_left] in Hf.
  { subst acc. split; [by right |]. intros y [[]|[= ->]]. lia. }
  apply List.Forall_cons_iff in Hr as [Hz Hr].
  destruct acc as [b|].
  - pose proof (order_counts b z (Ha b eq_refl) Hz) as Ho. destruct (rs_order b z); apply IH in Hf as [Hx Hy]; try done;
      try (intros ? [= <-]; first [exact Hz | by apply Ha]).
    + split; [destruct Hx as [|[= ->]]; [by left; right | by left; left] |].
      intros y [[<-|Hin]|[= ->]]; [apply Hy; by right | apply Hy; by left |]. pose proof (Hy z ltac:(by right)). lia.
    + split; [destruct Hx as [|[= ->]]; [by left; right | by left; left] |].
      intros y [[<-|Hin]|[= ->]]; [apply Hy; by right | apply Hy; by left |]. pose proof (Hy z ltac:(by right)). lia.
    + split; [destruct Hx as [|[= ->]]; [by left; right | by right] |].
      intros y [[<-|Hin]|[= ->]]; [pose proof (Hy b ltac:(by right)); lia | apply Hy; by left | apply Hy; by right].
  - apply IH in Hf as [Hx Hy]; [| done | by intros ? [= <-]].
    split; [destruct Hx as [|[= ->]]; [by left; right | by left; left] |].
    intros y [[<-|Hin]|[=]]; [apply Hy; by right | apply Hy; by left].
Qed.

Lemma max_by_none l : forall acc,
  fold_left (fun best x => match best with None => Some x | Some b => match rs_order b x with Gt => Some b | _ => Some x end end) l acc = None ->
  l = [] /\ acc = None.
Proof.
  induction l as [|z l IH]; intros acc Hf; cbn [fold_left] in Hf; [done |]. apply IH in Hf as [_ Hf]. destruct acc; [by case_match | done].
Qed.

Lemma current_spec template owned x : Forall readable_count owned -> current_replicaset template owned = Some x ->
  In x owned /\ runs_template x.2 template = true /\
  (forall y, In y owned -> runs_template y.2 template = true -> count_of y <= count_of x).
Proof.
  intros Hr Hc. unfold current_replicaset, max_by in Hc. apply max_by_spec in Hc as [[Hx|] Hy]; [| done | |].
  - apply filter_In in Hx as [Hx Ht]. split_and!; [done | done |]. intros y Hin Ht'. apply Hy. left. by apply filter_In.
  - rewrite List.Forall_forall in Hr |- *. intros y Hin. apply filter_In in Hin as [Hin _]. by apply Hr.
  - done.
Qed.

Lemma current_none template owned e : current_replicaset template owned = None -> In e owned -> runs_template e.2 template = false.
Proof.
  intros Hc Hin. unfold current_replicaset, max_by in Hc. apply max_by_none in Hc as [Hc _].
  destruct (runs_template e.2 template) eqn:E; [| done]. assert (In e []) as []. rewrite <-Hc. by apply filter_In.
Qed.

(** ** Patches of counts *)

Lemma replicas_at v s n : jget "spec" v = Some s -> jget "replicas" s = Some (JNumber (number_of_i64 n)) -> Word.is_i64 n -> REPLICAS v = Ok n.
Proof.
  intros Hs Hr Hn. unfold REPLICAS, defaulted, int_at. destruct v as [| | | | | m]; try done. cbn [spec_int_at jget] in *. rewrite Hs.
  destruct s as [| | | | | sm]; try done. cbn [jget] in Hr. rewrite Hr. cbn [spec_int_of]. by rewrite as_i64_of_i64.
Qed.

Section Patches.
Context `{SerdeJson} `{PatchSchemaEnv} `{OpDecoder} `{Blake3} `{ErrorText}.
Context (sealer : option SealFault.t) (births : string) (now uid : string).

Definition scale_to (p : ResourceKey * Z) : ResourceCommand.t := ResourceCommand.patch p.1 (replicas_patch p.2) Reason.Controller.

(** The value a patch of the count leaves. *)
Definition scaled_from (n : Z) (v v' : json) : Prop :=
  REPLICAS v' = Ok n /\ of_spec_template v' = of_spec_template v /\ is_owned_by v' uid = is_owned_by v uid.

Lemma patches_alone ps : forall e c, unreadable c = [] -> bt_sorted (resources c) -> values_wf (resources c) -> List.NoDup (map fst ps) ->
  Forall (fun p => is_sealed_kind p.1 = false /\ Word.is_i64 p.2 /\
    exists v m, bt_get p.1 (resources c) = Some (v, m) /\ finalizers_released v = false) ps ->
  exists e' c1, propose_delta sealer births now (map scale_to ps) e (mkWorld c []) = (Ok e', mkWorld c1 []) /\
    changes_only (map fst ps) c c1 /\ values_wf (resources c1) /\
    Forall (fun p => forall v m, bt_get p.1 (resources c) = Some (v, m) ->
      exists v' m', bt_get p.1 (resources c1) = Some (v', m') /\ scaled_from p.2 v v') ps.
Proof.
  induction ps as [|[k n] ps IH]; intros e c Hu Hs Hv Hnd Hp; [by exists e, c |].
  apply List.Forall_cons_iff in Hp as [(Hk & Hn & v & m & Hg & Hr) Hp]. change (k, n).1 with k in *. change (k, n).2 with n in *. cbn [map fst] in *.
  apply List.NoDup_cons_iff in Hnd as [Hni Hnd].
  pose proof (values_wf_get _ _ _ Hs Hv Hg) as Hw. cbn in Hw.
  destruct (propose sealer births c (scale_to (k, n))) as [[o c1]|] eqn:Ep.
  2: { by rewrite propose_taken in Ep by (done || cbn; by rewrite Hk). }
  destruct (propose_patch_full sealer births c k (replicas_patch n) Reason.Controller v m o c1 Hs Hv Hg (replicas_patch_plain n Hn) Hr Ep)
    as (v' & m' & Hres & Hf & _ & Hw' & Hm).
  destruct (propose_only sealer births _ _ _ _ Ep) as [Hu1 Ho1]. cbn [ResourceCommand.keys scale_to ResourceCommand.patch ResourceCommand.patch_typed] in Ho1.
  destruct (Ho1 Hs) as [Hs1 Hk1].
  assert (values_wf (resources c1)) as Hv1 by (rewrite Hres; by apply bt_insert_Forall).
  assert (scaled_from n v v') as Hsc.
  { destruct (replicas_merged v v' n Hw Hn (Hf "spec" ltac:(done))) as [H1' H2']. split; [done |]. split.
    - unfold of_spec_template. by rewrite (H2' "template").
    - apply owned_field. by apply Hm. }
  destruct (IH (Effect.and e (Effect.of_op (op o))) c1) as (e' & c2 & Hd & Hch & Hv2 & Hall); [by rewrite Hu1 | done | done | done | |].
  { rewrite List.Forall_forall in Hp |- *. intros p Hin. destruct (Hp p Hin) as (? & ? & v0 & m0 & Hg0 & ?). split_and!; [done | done |].
    exists v0, m0. split; [| done]. rewrite Hk1; [done |]. intros [Ek|[]]. change (k = p.1) in Ek. apply Hni. rewrite Ek. by apply in_map. }
  exists e', c2. split_and!.
  - change (map scale_to ((k, n) :: ps)) with (scale_to (k, n) :: map scale_to ps). rewrite propose_delta_cons.
    assert (forall live, prepared now (scale_to (k, n)) live = Some (scale_to (k, n))) as -> by reflexivity. by rewrite Ep.
  - exact (changes_only_trans [k] _ _ _ _ (propose_only sealer births _ _ _ _ Ep) Hch).
  - done.
  - constructor.
    + cbn [fst snd]. intros v0 m0 Hg0. rewrite Hg in Hg0. injection Hg0 as <- <-. exists v', m'. split; [| done].
      destruct Hch as [_ Hch]. destruct (Hch Hs1) as [_ Hch']. rewrite Hch' by done. rewrite Hres. apply bt_get_insert_eq.
    + rewrite List.Forall_forall in Hall |- *. intros p Hin v0 m0 Hg0. apply (Hall p Hin v0 m0). rewrite Hk1; [done |].
      intros [Ek|[]]. change (k = p.1) in Ek. apply Hni. rewrite Ek. by apply in_map.
Qed.

End Patches.

(** ** The pass *)

Section Settles.
Context `{SerdeJson} `{PatchSchemaEnv} `{OpDecoder} `{Blake3} `{ErrorText}.
Context (sealer : option SealFault.t) (births : string) (now uid ns : string) (debug : string -> string).

Definition rs_gvk : Gvk := mkGvk "apps" "v1" "ReplicaSet".
Definition replicasets_of (c : ResourceCatalog) : list (ResourceKey * json) := owned_in c [rs_gvk] uid (Some ns).

Lemma In_rs c k v : bt_sorted (resources c) ->
  In (k, v) (replicasets_of c) <->
  exists m, bt_get k (resources c) = Some (v, m) /\ contains (kind_scope rs_gvk (Some ns)) k = true /\ is_owned_by v uid = true.
Proof. exact (In_owned rs_gvk uid (Some ns) c k v). Qed.

Lemma rs_NoDup c : bt_sorted (resources c) -> List.NoDup (map fst (replicasets_of c)).
Proof. exact (owned_NoDup rs_gvk uid (Some ns) c). Qed.

Lemma rs_same c c' ks : bt_sorted (resources c) -> changes_only ks c c' ->
  Forall (fun k => contains (kind_scope rs_gvk (Some ns)) k = false) ks -> replicasets_of c' = replicasets_of c.
Proof. exact (owned_same rs_gvk uid (Some ns) c c' ks). Qed.

Lemma rs_scope_plain k : contains (kind_scope rs_gvk (Some ns)) k = true -> is_sealed_kind k = false.
Proof.
  unfold contains, kind_scope. cbn. intros Hk. repeat (apply andb_true_iff in Hk as [Hk ?]).
  apply (proj1 (eqb_true _ _)) in Hk. unfold is_sealed_kind. by rewrite Hk.
Qed.

(** A ReplicaSet the store takes a patch of its count for. *)
Definition scalable (e : ResourceKey * json) : Prop := readable_count e /\ finalizers_released e.2 = false.

Definition plan_for (target : ResourceKey -> Z) (ps : list (ResourceKey * Z)) (l : list (ResourceKey * json)) : Prop :=
  List.NoDup (map fst ps) /\
  (forall k n, In (k, n) ps -> n = target k /\ exists v, In (k, v) l) /\
  (forall k v, In (k, v) l -> In (k, target k) ps \/ ~ In k (map fst ps) /\ REPLICAS v = Ok (target k)).

(** The patches of a plan give every ReplicaSet its target count and change
    nothing else. *)
Lemma plan_alone target ps c : unreadable c = [] -> bt_sorted (resources c) -> values_wf (resources c) ->
  (forall k, Word.is_i64 (target k)) -> Forall scalable (replicasets_of c) -> plan_for target ps (replicasets_of c) ->
  exists e c1, propose_delta sealer births now (map scale_to ps) Effect.Unchanged (mkWorld c []) = (Ok e, mkWorld c1 []) /\
    changes_only (map fst ps) c c1 /\
    (forall k v, In (k, v) (replicasets_of c) ->
       exists v', In (k, v') (replicasets_of c1) /\ REPLICAS v' = Ok (target k) /\ of_spec_template v' = of_spec_template v) /\
    (forall k v', In (k, v') (replicasets_of c1) -> exists v, In (k, v) (replicasets_of c)).
Proof.
  intros Hu Hs Hv Ht Hl (Hnd & Hps & Hcover). rewrite List.Forall_forall in Hl.
  destruct (patches_alone sealer births now uid ps Effect.Unchanged c Hu Hs Hv Hnd) as (e & c1 & Hd & Hch & _ & Hall).
  { apply List.Forall_forall. intros [k n] Hin. destruct (Hps k n Hin) as (-> & v & Hin'). destruct (Hl _ Hin') as [_ Hr].
    apply In_rs in Hin' as (m & Hg & Hc & _); [| done]. cbn [fst snd]. split_and!; [by apply rs_scope_plain | apply Ht |].
    exists v, m. done. }
  exists e, c1. rewrite List.Forall_forall in Hall. pose proof Hch as [_ Hch']. destruct (Hch' Hs) as [Hs1 Hk1].
  split_and!; [done | done | |].
  - intros k v Hin. pose proof Hin as Ho. apply In_rs in Ho as (m & Hg & Hc & Ho); [| done].
    destruct (Hcover k v Hin) as [Hp|[Hn Hr]].
    + destruct (Hall _ Hp v m Hg) as (v' & m' & Hg' & Hr & Htm & Hown). cbn [snd] in Hr. exists v'. split_and!; [| done | done].
      apply In_rs; [done |]. exists m'. by rewrite Hown.
    + exists v. split_and!; [| done | done]. apply In_rs; [done |]. exists m. by rewrite Hk1.
  - intros k v' Hin. destruct (in_dec (fun a b => base.decide (a = b)) k (map fst ps)) as [Hp|Hn].
    + apply in_map_iff in Hp as ([k' n] & E & Hp). cbn in E. subst k'. apply (proj2 (Hps _ _ Hp)).
    + exists v'. apply In_rs in Hin as (m & Hg & Hc & Ho); [| done]. apply In_rs; [done |]. exists m. by rewrite <-Hk1.
Qed.

(** What the retirements scale. *)
Definition retired_pairs (current : option ResourceKey) (l : list (ResourceKey * json)) : list (ResourceKey * Z) :=
  omap (fun e =>
    if base.decide (current = Some e.1) then None
    else match REPLICAS e.2 with Ok n => if n =? 0 then None else Some (e.1, 0) | Err _ => None end) l.

Lemma retire_pairs current l : retire current l = map scale_to (retired_pairs current l).
Proof.
  unfold retire, retired_pairs. induction l as [|e l IH]; [done |]. cbn [omap list_omap].
  destruct (base.decide (current = Some e.1)), (Scale.REPLICAS e.2) as [m|]; try (destruct (m =? 0)); cbn [map]; by rewrite IH.
Qed.

Lemma retired_In current l k n : In (k, n) (retired_pairs current l) <->
  n = 0 /\ current <> Some k /\ exists v m, In (k, v) l /\ REPLICAS v = Ok m /\ m <> 0.
Proof.
  unfold retired_pairs. rewrite <-list_elem_of_In, list_elem_of_omap. split.
  - intros ([k' v] & Hin & E). cbn [fst snd] in E. apply list_elem_of_In in Hin.
    destruct (base.decide (current = Some k')); [done |]. destruct (REPLICAS v) as [m|] eqn:Er; [| done].
    destruct (Z.eqb_spec m 0); [done |]. injection E as -> <-. split_and!; [done | done |]. by exists v, m.
  - intros (-> & Hc & v & m & Hin & Hr & Hm). exists (k, v). split; [by apply list_elem_of_In |]. cbn [fst snd].
    destruct (base.decide (current = Some k)); [done |]. rewrite Hr. by rewrite (proj2 (Z.eqb_neq m 0)).
Qed.

Lemma retired_NoDup current l : List.NoDup (map fst l) -> List.NoDup (map fst (retired_pairs current l)).
Proof.
  unfold retired_pairs. induction l as [|e l IH]; [done |]. cbn [map omap list_omap]. intros Hn. apply List.NoDup_cons_iff in Hn as [Hn Hnd].
  assert (~ In e.1 (map fst (retired_pairs current l))) as Hni.
  { intros Hin. apply in_map_iff in Hin as ([k z] & E & Hin). cbn in E. subst k. apply retired_In in Hin as (_ & _ & v & _ & Hin & _).
    apply Hn. change (e.1) with ((e.1, v).1). by apply in_map. }
  specialize (IH Hnd). destruct (base.decide _); [done |]. destruct (REPLICAS e.2) as [m|]; [| done]. destruct (m =? 0); [done |].
  cbn [map]. by constructor.
Qed.

Context (this : DeploymentController) (name : string) (d t : json) (n : Z) (parent_key : ResourceKey) (c : ResourceCatalog).

Hypothesis (Hsorted : bt_sorted (resources c)) (Hreadable : unreadable c = []) (Hvalues : values_wf (resources c)).
Hypothesis (Huid : obj_uid d = Some uid) (Hname : obj_name d = Some name) (Hns : obj_namespace d = Some ns).
Hypothesis (Hkey : parent_key = namespaced "apps" "v1" "Deployment" ns name).
Hypothesis (Hreplicas : REPLICAS d = Ok n) (Hpos : 0 <= n <= Word.i64_max).
Hypothesis (Hgeneration : is_ok (generation_of d) = true) (Htemplate : of_spec_template d = Some t).
Hypothesis (Hscalable : Forall scalable (replicasets_of c)).

Definition new_key : ResourceKey := namespaced "apps" "v1" "ReplicaSet" ns (name +:+ "-" +:+ naming_hash t).

(** Where no ReplicaSet runs the template, nothing holds the name of the new one. *)
Hypothesis (Hfree : current_replicaset t (replicasets_of c) = None -> bt_get new_key (resources c) = None).

Definition target_of (k0 k : ResourceKey) : Z := if base.decide (k = k0) then n else 0.

(** One ReplicaSet runs the template at the declared count, every other is at
    zero. *)
Definition settled (k0 : ResourceKey) (l : list (ResourceKey * json)) : Prop :=
  (exists v, In (k0, v) l /\ runs_template v t = true) /\ (forall k v, In (k, v) l -> REPLICAS v = Ok (target_of k0 k)).

Lemma settled_quiet k0 l : settled k0 l -> deployment_reconcile this d l = Ok [].
Proof.
  intros [(v0 & Hin0 & Hrun) Hall]. unfold deployment_reconcile. rewrite Hreplicas, Htemplate. cbn [integer result_map_err result_bind].
  unfold owner_ref_for. rewrite Hname, Huid. cbn [mbind option_bind].
  assert (Forall readable_count l) as Hr.
  { apply List.Forall_forall. intros [k v] Hin. unfold readable_count, count_of, ok_count. cbn [snd]. by rewrite (Hall k v Hin). }
  destruct (current_replicaset t l) as [[k v]|] eqn:Ec; [| pose proof (current_none _ _ _ Ec Hin0) as Hrn; cbn [snd] in Hrn; congruence].
  destruct (current_spec _ _ _ Hr Ec) as (Hin & _ & Hmax). specialize (Hmax _ Hin0 Hrun).
  unfold count_of, ok_count in Hmax. cbn [snd] in Hmax. rewrite (Hall _ _ Hin), (Hall _ _ Hin0) in Hmax. cbn [default from_option id] in Hmax.
  assert (n = 0 \/ k = k0) as Hk.
  { unfold target_of in Hmax. destruct (base.decide (k = k0)); [by right |]. destruct (base.decide (k0 = k0)); [left; lia | done]. }
  rewrite (Hall _ _ Hin). unfold target_of at 1. cbn [fmap option_fmap option_map fst].
  assert (retired_pairs (Some k) l = []) as Hret.
  { destruct (retired_pairs (Some k) l) as [|[k1 z] ps] eqn:E; [done |]. exfalso.
    assert (In (k1, z) (retired_pairs (Some k) l)) as Hp by (rewrite E; by left). apply retired_In in Hp as (_ & Hne & v1 & m & Hin1 & Hr1 & Hm).
    rewrite (Hall _ _ Hin1) in Hr1. injection Hr1 as Hr1. unfold target_of in Hr1. case_match; [| lia]. destruct Hk as [Hk|Hk]; [lia | congruence]. }
  rewrite retire_pairs, Hret. cbn [map app]. destruct (base.decide (k = k0)); [by rewrite Z.eqb_refl |]. destruct Hk as [-> |]; done.
Qed.

Lemma target_i64 k0 k : Word.is_i64 (target_of k0 k).
Proof. unfold Word.is_i64, target_of. case_match; unfold Word.i64_min, Word.i64_max in *; lia. Qed.

(** Every ReplicaSet that was there is there, and runs what it ran. *)
Definition none_lost (after : ResourceCatalog) : Prop :=
  forall k v, In (k, v) (replicasets_of c) -> exists v', In (k, v') (replicasets_of after) /\ of_spec_template v' = of_spec_template v.

Definition delta_settles (cmds : list ResourceCommand.t) : Prop :=
  exists e c1 k0, propose_delta sealer births now cmds Effect.Unchanged (mkWorld c []) = (Ok e, mkWorld c1 []) /\
    unreadable c1 = [] /\ bt_sorted (resources c1) /\ settled k0 (replicasets_of c1) /\ none_lost c1.

Lemma readable_owned : Forall readable_count (replicasets_of c).
Proof. eapply Forall_impl; [exact Hscalable |]. by intros e []. Qed.

Lemma count_owned k v : In (k, v) (replicasets_of c) -> exists m, REPLICAS v = Ok m.
Proof.
  intros Hin. pose proof readable_owned as Hr. rewrite List.Forall_forall in Hr. specialize (Hr _ Hin). unfold readable_count, ok_count in Hr. cbn [snd] in Hr.
  destruct (REPLICAS v) as [m|]; [by exists m | done].
Qed.

(** The ReplicaSets but the current one, scaled to zero by the retirements. *)
Lemma retired_cover cur k v : In (k, v) (replicasets_of c) -> cur <> Some k ->
  In (k, 0) (retired_pairs cur (replicasets_of c)) \/
  ~ In k (map fst (retired_pairs cur (replicasets_of c))) /\ REPLICAS v = Ok 0.
Proof.
  intros Hin Hc. destruct (count_owned k v Hin) as [m Hm]. destruct (Z.eq_dec m 0) as [-> |Hne].
  - right. split; [| done]. intros Hp. apply in_map_iff in Hp as ([k' z] & E & Hp). cbn in E. subst k'.
    apply retired_In in Hp as (_ & _ & v' & m' & Hin' & Hr' & Hne). apply In_rs in Hin as (x & Hg & _); [| done].
    apply In_rs in Hin' as (x' & Hg' & _); [| done]. rewrite Hg in Hg'. injection Hg' as <- _. congruence.
  - left. apply retired_In. split_and!; [done | done |]. by exists v, m.
Qed.

(** The plan of a pass that found a current ReplicaSet. *)
Definition current_tail (k0 : ResourceKey) (m0 : Z) : list (ResourceKey * Z) := if m0 =? n then [] else [(k0, n)].

Lemma current_plan k0 v0 m0 : In (k0, v0) (replicasets_of c) -> REPLICAS v0 = Ok m0 ->
  plan_for (target_of k0) (retired_pairs (Some k0) (replicasets_of c) ++ current_tail k0 m0)%list (replicasets_of c).
Proof.
  intros Hin0 Hm0. assert (forall k, In k (map fst (current_tail k0 m0)) -> k = k0) as Htail.
  { unfold current_tail. destruct (m0 =? n); [done |]. by intros k [<-|[]]. }
  split_and!.
  - rewrite map_app. apply NoDup_ListNoDup, NoDup_app. split_and!.
    + apply NoDup_ListNoDup, retired_NoDup. by apply rs_NoDup.
    + intros k Hk Hk'. apply list_elem_of_In in Hk, Hk'. apply Htail in Hk'. subst k.
      apply in_map_iff in Hk as ([k' z] & E & Hp). cbn in E. subst k'. by apply retired_In in Hp as (_ & Hp & _).
    + unfold current_tail. destruct (m0 =? n); [constructor | apply NoDup_singleton].
  - intros k z Hp. apply in_app_iff in Hp as [Hp|Hp].
    + apply retired_In in Hp as (-> & Hne & v & _ & Hin & _). split; [| by exists v]. unfold target_of. case_match; [congruence | done].
    + unfold current_tail in Hp. destruct (m0 =? n); [done |]. destruct Hp as [[= <- <-]|[]]. split; [| by exists v0]. unfold target_of. by case_match.
  - intros k v Hin. unfold target_of. destruct (base.decide (k = k0)) as [-> |Hne].
    + assert (v = v0) as ->.
      { apply In_rs in Hin as (x & Hg & _); [| done]. apply In_rs in Hin0 as (x' & Hg' & _); [| done]. congruence. }
      unfold current_tail. destruct (Z.eqb_spec m0 n) as [-> |]; [right; split; [| done] | left; apply in_app_iff; right; by left].
      rewrite app_nil_r. intros Hp. apply in_map_iff in Hp as ([k' z] & E & Hp). cbn in E. subst k'. by apply retired_In in Hp as (_ & Hp & _).
    + destruct (retired_cover (Some k0) k v Hin) as [Hp|[Hp Hr]]; [congruence | left; apply in_app_iff; by left | right]. split; [| done].
      rewrite map_app, in_app_iff. intros [Hin'|Hin']; [done |]. by apply Htail in Hin'.
Qed.

Lemma scale_current k0 v0 : current_replicaset t (replicasets_of c) = Some (k0, v0) ->
  delta_settles (retire (Some k0) (replicasets_of c) ++
    match REPLICAS v0 with
    | Ok m => if m =? n then [] else [ResourceCommand.patch k0 (replicas_patch n) Reason.Controller]
    | Err _ => []
    end)%list.
Proof.
  intros Hc. destruct (current_spec _ _ _ readable_owned Hc) as (Hin0 & Hrun & _). cbn [snd] in Hrun.
  destruct (count_owned _ _ Hin0) as [m0 Hm0]. rewrite Hm0.
  replace (_ ++ _)%list with (map scale_to (retired_pairs (Some k0) (replicasets_of c) ++ current_tail k0 m0)%list).
  2: { rewrite map_app, retire_pairs. f_equal. unfold current_tail. by destruct (m0 =? n). }
  destruct (plan_alone _ _ _ Hreadable Hsorted Hvalues (target_i64 k0) Hscalable (current_plan _ _ _ Hin0 Hm0)) as (e & c1 & Hd & Hch & Hall & Hback).
  destruct Hch as [Hu1 Hch]. destruct (Hch Hsorted) as [Hs1 _]. exists e, c1, k0. split_and!; [done | by rewrite Hu1 | done | |].
  - split.
    + destruct (Hall _ _ Hin0) as (v' & Hin' & _ & Ht). exists v'. split; [done |]. unfold runs_template. by rewrite Ht.
    + intros k v' Hin'. destruct (Hback _ _ Hin') as (v & Hin). destruct (Hall _ _ Hin) as (v'' & Hin'' & Hr & _).
      apply In_rs in Hin' as (x & Hg & _); [| done]. apply In_rs in Hin'' as (x' & Hg' & _); [| done]. congruence.
  - intros k v Hin. destruct (Hall _ _ Hin) as (v' & Hin' & _ & Ht). by exists v'.
Qed.

(** The ReplicaSet the controller builds is owned by the Deployment, runs its
    template and declares its count. *)
Lemma built_replicaset : exists o rs, owner_ref_for d "apps/v1" "Deployment" = Some o /\
  shape (set_owner_reference (default JNull (snd <$> build_replicaset_from d (naming_hash t) n)) o) = Ok rs /\
  fst <$> build_replicaset_from d (naming_hash t) n = Some (name +:+ "-" +:+ naming_hash t) /\
  is_owned_by rs uid = true /\ of_spec_template rs = Some t /\ (exists s, jget "spec" rs = Some s /\ jget "replicas" s = Some (JNumber (number_of_i64 n))).
Proof.
  unfold owner_ref_for. rewrite Hname, Huid. cbn [mbind option_bind]. set (o := mkOwner _ _ _ _ _ _).
  assert (uid <> "") as Hne.
  { pose proof Huid as Hu. unfold obj_uid in Hu. destruct (_ >>? as_str) as [u|]; [| done]. cbn in Hu. unfold non_empty_str in Hu.
    destruct (eqb u "") eqn:E; [done |]. injection Hu as <-. by apply eqb_false. }
  destruct (jget "spec" d >>? jget "template") as [tm|] eqn:Et; [| unfold of_spec_template in Htemplate; by rewrite Et in Htemplate].
  unfold build_replicaset_from. rewrite Hname, Et, Hns. cbn [mbind option_bind fmap option_fmap option_map fst snd default from_option id].
  eexists o, _. split; [done |]. split; [reflexivity |]. split; [done |]. split_and!.
  - unfold is_owned_by. match goal with |- context [controlling_owner ?v] => assert (controlling_owner v = Some o) as -> end; [| apply eqb_refl].
    etransitivity; [| exact (find_controller_value o eq_refl Hne)]. reflexivity.
  - rewrite <-Htemplate. unfold of_spec_template. rewrite Et. reflexivity.
  - eexists. split; reflexivity.
Qed.

Lemma create_current : current_replicaset t (replicasets_of c) = None ->
  forall rs, is_owned_by rs uid = true -> of_spec_template rs = Some t ->
  (exists s, jget "spec" rs = Some s /\ jget "replicas" s = Some (JNumber (number_of_i64 n))) ->
  delta_settles (retire None (replicasets_of c) ++ [ResourceCommand.Put new_key rs None Reason.Controller])%list.
Proof.
  intros Hc rs Hown Ht (s & Hs & Hr). specialize (Hfree Hc). rewrite retire_pairs.
  assert (forall v, ~ In (new_key, v) (replicasets_of c)) as Hno.
  { intros v Hin. apply In_rs in Hin as (x & Hg & _); [| done]. by rewrite Hfree in Hg. }
  destruct (plan_alone (fun _ => 0) (retired_pairs None (replicasets_of c)) c) as (e & c1 & Hd & Hch & Hall & Hback); try done.
  { split_and!; [by apply retired_NoDup, rs_NoDup | |].
    - intros k z Hp. apply retired_In in Hp as (-> & _ & v & _ & Hin & _). split; [done | by exists v].
    - intros k v Hin. by apply retired_cover. }
  destruct Hch as [Hu1 Hch]. destruct (Hch Hsorted) as [Hs1 Hk1].
  assert (bt_get new_key (resources c1) = None) as Hfree1.
  { rewrite Hk1; [done |]. intros Hp. apply in_map_iff in Hp as ([k' z] & E & Hp). cbn in E. subst k'.
    apply retired_In in Hp as (_ & _ & v & _ & Hin & _). by apply (Hno v). }
  destruct (propose_put_body sealer births c1 new_key (stamp_create_timestamp rs now) Reason.Controller Hfree1)
    as (o & c2 & v2 & m2 & Hpr & _ & Hres & Hf & Hb); [by rewrite Hu1 | done |].
  destruct (propose_only sealer births _ _ _ _ Hpr) as [Hu2 Ho2]. destruct (Ho2 Hs1) as [Hs2 Hk2].
  assert (jget "spec" v2 = jget "spec" rs) as Hsp.
  { rewrite Hb by done. unfold stamp_create_timestamp. case_match; [| done]. cbn [stamp_creation_timestamp fst].
    destruct rs; try done. unfold on_metadata, on_object. cbn [jget]. by rewrite with_object_get. }
  assert (In (new_key, v2) (replicasets_of c2)) as Hnew.
  { apply In_rs; [done |]. exists m2. rewrite Hres, bt_get_insert_eq. split_and!; [done | |].
    - unfold contains, kind_scope, new_key. cbn. by rewrite !eqb_refl.
    - rewrite <-Hown. apply owned_field. rewrite Hf by apply own_owner. apply stamp_create_field, own_owner. }
  assert (forall k v, k <> new_key -> In (k, v) (replicasets_of c2) <-> In (k, v) (replicasets_of c1)) as Hsame.
  { intros k v Hne. rewrite !In_rs by done. rewrite Hk2; [done |]. intros [E|[]]. by apply Hne. }
  exists (Effect.and e (Effect.of_op (op o))), c2, new_key. split_and!; [| by rewrite Hu2, Hu1 | done | split |].
  - rewrite (propose_delta_app sealer births now _ _ _ _ _ _ Hd), propose_delta_cons.
    assert (target_value c1 (ResourceCommand.Put new_key rs None Reason.Controller) = None) as -> by (cbn; unfold get; by rewrite Hfree1).
    assert (prepared now (ResourceCommand.Put new_key rs None Reason.Controller) None =
      Some (ResourceCommand.Put new_key (stamp_create_timestamp rs now) None Reason.Controller)) as -> by reflexivity. by rewrite Hpr.
  - exists v2. split; [done |]. unfold runs_template, of_spec_template. rewrite Hsp. fold (of_spec_template rs). rewrite Ht. apply eqb_refl.
  - intros k v Hin. unfold target_of. destruct (base.decide (k = new_key)) as [-> |Hne].
    + assert (v = v2) as ->.
      { apply In_rs in Hin as (x & Hg & _); [| done]. rewrite Hres, bt_get_insert_eq in Hg. congruence. }
      eapply replicas_at; [by rewrite Hsp | exact Hr |]. unfold Word.is_i64, Word.i64_min. lia.
    + apply Hsame in Hin; [| done]. destruct (Hback _ _ Hin) as (v0 & Hin0). destruct (Hall _ _ Hin0) as (v1 & Hin1 & Hr1 & _).
      apply In_rs in Hin as (x & Hg & _); [| done]. apply In_rs in Hin1 as (x' & Hg' & _); [| done]. congruence.
  - intros k v Hin. destruct (Hall _ _ Hin) as (v' & Hin' & _ & Ht'). exists v'. split; [| done]. apply Hsame; [| done].
    intros ->. by apply (Hno v).
Qed.


End Settles.

(** ** Witness *)

#[local] Existing Instance numbered.
#[local] Existing Instance sample_env.
#[local] Existing Instance sample_ops.
#[local] Existing Instance zero_blake3.
#[local] Existing Instance sample_text.

Definition shop_key : ResourceKey := namespaced "apps" "v1" "Deployment" "default" "shop".
Definition old_rs_key : ResourceKey := namespaced "apps" "v1" "ReplicaSet" "default" "shop-old".

Definition shop_template (image : string) : json :=
  jobj [("spec", jobj [("containers", JArray [jobj [("image", JString image)]])])].

Definition shop : json :=
  jobj [("metadata", jobj [("name", JString "shop"); ("namespace", JString "default"); ("uid", JString "d-1")]);
        ("spec", jobj [("replicas", JNumber (PosInt 3)); ("template", shop_template "shop:2")])].

Definition old_rs : json :=
  jobj [("metadata", jobj [("name", JString "shop-old");
                           ("ownerReferences", JArray [owner_value (mkOwner "apps/v1" "Deployment" "shop" "d-1" true true)])]);
        ("spec", jobj [("replicas", JNumber (PosInt 2)); ("template", shop_template "shop:1")])].

(** A Deployment whose template has just changed. *)
Definition shop_catalog : ResourceCatalog :=
  (CatalogTheorems.run empty [put_at_key shop_key shop 1; put_at_key old_rs_key old_rs 2]).2.

Definition stored_shop : json := default JNull (get shop_catalog shop_key).

