(* ===== verification/Served.v ===== *)
(** * The kinds that are served

    [engenho-types/src/generated_v1_34/catalog.rs] (the compiled-in catalog of
    kinds), the reading of custom resource definitions of
    [engenho-controllers/src/crd.rs], and [gc/served.rs]: what an owner reference's
    apiVersion and kind resolve to.

    The serde derives of the CRD types and Unicode's [to_lowercase] are
    parameters. *)

From Stdlib Require Import Ascii String.
From stdpp Require Import base tactics option list strings numbers.
From S2P Require Import Prelude Text BTreeMap Json Resource Names Handler.

Local Open Scope string_scope.

Inductive Scope : Type := Namespaced | Cluster.

#[global] Instance scope_eq_dec : EqDecision Scope.
Proof. solve_decision. Defined.

(** ** The compiled-in catalog *)

Record ResourceDescriptor : Type := mkDescriptor {
  rd_group : string;
  rd_version : string;
  rd_kind : string;
  rd_plural : string;
  rd_namespaced : bool;
  rd_api_version : string;
  rd_short_names : list string;
  rd_singular : string;
  rd_categories : list string;
  rd_opaque : bool;
  rd_subresources : list Subresource.t
}.

Definition rd_scope (d : ResourceDescriptor) : Scope := if rd_namespaced d then Namespaced else Cluster.

Definition RESOURCE_CATALOG : list ResourceDescriptor :=
  [mkDescriptor "" "v1" "Pod" "pods" true "v1" ["po"] "pod" ["all"] false [Subresource.Status; Subresource.Log; Subresource.Exec; Subresource.Attach; Subresource.PortForward; Subresource.Eviction];
   mkDescriptor "" "v1" "Service" "services" true "v1" ["svc"] "service" ["all"] false [Subresource.Status];
   mkDescriptor "" "v1" "ConfigMap" "configmaps" true "v1" ["cm"] "configmap" [] false [];
   mkDescriptor "" "v1" "Secret" "secrets" true "v1" [] "secret" [] false [];
   mkDescriptor "" "v1" "Namespace" "namespaces" false "v1" ["ns"] "namespace" [] false [Subresource.Status];
   mkDescriptor "" "v1" "ServiceAccount" "serviceaccounts" true "v1" ["sa"] "serviceaccount" [] false [Subresource.Token];
   mkDescriptor "" "v1" "Node" "nodes" false "v1" ["no"] "node" [] false [Subresource.Status];
   mkDescriptor "" "v1" "PersistentVolume" "persistentvolumes" false "v1" ["pv"] "persistentvolume" [] false [];
   mkDescriptor "" "v1" "PersistentVolumeClaim" "persistentvolumeclaims" true "v1" ["pvc"] "persistentvolumeclaim" [] false [Subresource.Status];
   mkDescriptor "" "v1" "Endpoints" "endpoints" true "v1" ["ep"] "endpoints" [] false [];
   mkDescriptor "discovery.k8s.io" "v1" "EndpointSlice" "endpointslices" true "discovery.k8s.io/v1" [] "endpointslice" [] true [];
   mkDescriptor "apps" "v1" "Deployment" "deployments" true "apps/v1" ["deploy"] "deployment" ["all"] false [Subresource.Status; Subresource.Scale];
   mkDescriptor "apps" "v1" "ReplicaSet" "replicasets" true "apps/v1" ["rs"] "replicaset" ["all"] false [Subresource.Status; Subresource.Scale];
   mkDescriptor "apps" "v1" "StatefulSet" "statefulsets" true "apps/v1" ["sts"] "statefulset" ["all"] false [Subresource.Status; Subresource.Scale];
   mkDescriptor "apps" "v1" "DaemonSet" "daemonsets" true "apps/v1" ["ds"] "daemonset" ["all"] false [Subresource.Status];
   mkDescriptor "rbac.authorization.k8s.io" "v1" "Role" "roles" true "rbac.authorization.k8s.io/v1" [] "role" [] false [];
   mkDescriptor "rbac.authorization.k8s.io" "v1" "ClusterRole" "clusterroles" false "rbac.authorization.k8s.io/v1" [] "clusterrole" [] false [];
   mkDescriptor "rbac.authorization.k8s.io" "v1" "RoleBinding" "rolebindings" true "rbac.authorization.k8s.io/v1" [] "rolebinding" [] false [];
   mkDescriptor "rbac.authorization.k8s.io" "v1" "ClusterRoleBinding" "clusterrolebindings" false "rbac.authorization.k8s.io/v1" [] "clusterrolebinding" [] false [];
   mkDescriptor "apiextensions.k8s.io" "v1" "CustomResourceDefinition" "customresourcedefinitions" false "apiextensions.k8s.io/v1" ["crd"; "crds"] "customresourcedefinition" ["api-extensions"] true [];
   mkDescriptor "admissionregistration.k8s.io" "v1" "MutatingWebhookConfiguration" "mutatingwebhookconfigurations" false "admissionregistration.k8s.io/v1" [] "mutatingwebhookconfiguration" ["api-extensions"] true [];
   mkDescriptor "admissionregistration.k8s.io" "v1" "ValidatingWebhookConfiguration" "validatingwebhookconfigurations" false "admissionregistration.k8s.io/v1" [] "validatingwebhookconfiguration" ["api-extensions"] true [];
   mkDescriptor "" "v1" "ReplicationController" "replicationcontrollers" true "v1" ["rc"] "replicationcontroller" ["all"] false [Subresource.Status; Subresource.Scale];
   mkDescriptor "" "v1" "PodTemplate" "podtemplates" true "v1" [] "podtemplate" [] false [];
   mkDescriptor "" "v1" "LimitRange" "limitranges" true "v1" ["limits"] "limitrange" [] false [];
   mkDescriptor "" "v1" "ResourceQuota" "resourcequotas" true "v1" ["quota"] "resourcequota" [] false [Subresource.Status];
   mkDescriptor "" "v1" "Event" "events" true "v1" ["ev"] "event" [] false [];
   mkDescriptor "batch" "v1" "Job" "jobs" true "batch/v1" [] "job" ["all"] false [Subresource.Status];
   mkDescriptor "batch" "v1" "CronJob" "cronjobs" true "batch/v1" ["cj"] "cronjob" ["all"] false [Subresource.Status];
   mkDescriptor "apps" "v1" "ControllerRevision" "controllerrevisions" true "apps/v1" [] "controllerrevision" [] false [];
   mkDescriptor "autoscaling" "v2" "HorizontalPodAutoscaler" "horizontalpodautoscalers" true "autoscaling/v2" ["hpa"] "horizontalpodautoscaler" [] false [Subresource.Status];
   mkDescriptor "policy" "v1" "PodDisruptionBudget" "poddisruptionbudgets" true "policy/v1" ["pdb"] "poddisruptionbudget" [] false [Subresource.Status];
   mkDescriptor "networking.k8s.io" "v1" "Ingress" "ingresses" true "networking.k8s.io/v1" ["ing"] "ingress" [] false [Subresource.Status];
   mkDescriptor "networking.k8s.io" "v1" "IngressClass" "ingressclasses" false "networking.k8s.io/v1" [] "ingressclass" [] false [];
   mkDescriptor "networking.k8s.io" "v1" "NetworkPolicy" "networkpolicies" true "networking.k8s.io/v1" ["netpol"] "networkpolicy" [] false [];
   mkDescriptor "storage.k8s.io" "v1" "StorageClass" "storageclasses" false "storage.k8s.io/v1" ["sc"] "storageclass" [] false [];
   mkDescriptor "storage.k8s.io" "v1" "CSINode" "csinodes" false "storage.k8s.io/v1" [] "csinode" [] false [];
   mkDescriptor "storage.k8s.io" "v1" "CSIDriver" "csidrivers" false "storage.k8s.io/v1" [] "csidriver" [] false [];
   mkDescriptor "storage.k8s.io" "v1" "VolumeAttachment" "volumeattachments" false "storage.k8s.io/v1" [] "volumeattachment" [] false [Subresource.Status];
   mkDescriptor "storage.k8s.io" "v1" "CSIStorageCapacity" "csistoragecapacities" true "storage.k8s.io/v1" [] "csistoragecapacity" [] false [];
   mkDescriptor "node.k8s.io" "v1" "RuntimeClass" "runtimeclasses" false "node.k8s.io/v1" [] "runtimeclass" [] false [];
   mkDescriptor "scheduling.k8s.io" "v1" "PriorityClass" "priorityclasses" false "scheduling.k8s.io/v1" ["pc"] "priorityclass" [] false [];
   mkDescriptor "coordination.k8s.io" "v1" "Lease" "leases" true "coordination.k8s.io/v1" [] "lease" [] false [];
   mkDescriptor "authentication.k8s.io" "v1" "TokenReview" "tokenreviews" false "authentication.k8s.io/v1" [] "tokenreview" [] true [];
   mkDescriptor "authorization.k8s.io" "v1" "SubjectAccessReview" "subjectaccessreviews" false "authorization.k8s.io/v1" [] "subjectaccessreview" [] true [];
   mkDescriptor "authorization.k8s.io" "v1" "SelfSubjectAccessReview" "selfsubjectaccessreviews" false "authorization.k8s.io/v1" [] "selfsubjectaccessreview" [] true [];
   mkDescriptor "authorization.k8s.io" "v1" "SelfSubjectRulesReview" "selfsubjectrulesreviews" false "authorization.k8s.io/v1" [] "selfsubjectrulesreview" [] true [];
   mkDescriptor "authorization.k8s.io" "v1" "LocalSubjectAccessReview" "localsubjectaccessreviews" true "authorization.k8s.io/v1" [] "localsubjectaccessreview" [] true [];
   mkDescriptor "certificates.k8s.io" "v1" "CertificateSigningRequest" "certificatesigningrequests" false "certificates.k8s.io/v1" ["csr"] "certificatesigningrequest" [] true [Subresource.Status];
   mkDescriptor "apiregistration.k8s.io" "v1" "APIService" "apiservices" false "apiregistration.k8s.io/v1" [] "apiservice" [] true [Subresource.Status];
   mkDescriptor "flowcontrol.apiserver.k8s.io" "v1" "FlowSchema" "flowschemas" false "flowcontrol.apiserver.k8s.io/v1" [] "flowschema" [] true [Subresource.Status];
   mkDescriptor "flowcontrol.apiserver.k8s.io" "v1" "PriorityLevelConfiguration" "prioritylevelconfigurations" false "flowcontrol.apiserver.k8s.io/v1" [] "prioritylevelconfiguration" [] true [Subresource.Status]].

(** ** Custom resource definitions *)

Inductive CrdScope : Type := CrdNamespaced | CrdCluster.

Definition is_namespaced (s : CrdScope) : bool := match s with CrdNamespaced => true | CrdCluster => false end.

Record CrdNames : Type := mkCrdNames {
  cn_plural : string;
  cn_singular : string;
  cn_kind : string;
  cn_list_kind : string;
  cn_short_names : list string;
  cn_categories : list string
}.

Record CrdSubresources : Type := mkCrdSubresources { sub_status : option json; sub_scale : option json }.

Record CrdVersion : Type := mkCrdVersion {
  cv_name : string;
  cv_served : bool;
  cv_storage : bool;
  cv_subresources : option CrdSubresources;
  cv_schema : json;
  cv_printer_columns : list json
}.

Record CrdSpec : Type := mkCrdSpec {
  cs_group : string;
  cs_scope : CrdScope;
  cs_names : CrdNames;
  cs_versions : list CrdVersion
}.

Record CrdEntry : Type := mkCrdEntry {
  ce_group : string;
  ce_version : string;
  ce_kind : string;
  ce_list_kind : string;
  ce_plural : string;
  ce_singular : string;
  ce_short_names : list string;
  ce_categories : list string;
  ce_scope : CrdScope;
  ce_serves_status : bool;
  ce_schema : json;
  ce_printer_columns : list json
}.

Definition route_key (e : CrdEntry) : string * string * string := (ce_group e, ce_version e, ce_plural e).

(** [serde_json::from_value::<CrdSpec>] and [str::to_lowercase]. *)
Class CrdSerde : Type := {
  de_crd_spec : json -> option CrdSpec;
  to_lowercase : string -> string
}.

Section Entries.
Context `{CrdSerde}.

Definition parse_spec (crd : json) : option CrdSpec := jget "spec" crd ≫= de_crd_spec.

Definition entry_of (spec : CrdSpec) (v : CrdVersion) : CrdEntry :=
  let names := cs_names spec in
  mkCrdEntry (cs_group spec) (cv_name v) (cn_kind names)
    (if eqb (cn_list_kind names) "" then cn_kind names +:+ "List" else cn_list_kind names)
    (cn_plural names)
    (if eqb (cn_singular names) "" then to_lowercase (cn_kind names) else cn_singular names)
    (cn_short_names names) (cn_categories names) (cs_scope spec)
    (match cv_subresources v with Some sr => is_some (sub_status sr) | None => false end)
    (cv_schema v) (cv_printer_columns v).

Definition extract_entries (crd : json) : list CrdEntry :=
  match parse_spec crd with
  | None => []
  | Some spec => map (entry_of spec) (List.filter cv_served (cs_versions spec))
  end.

End Entries.

(** ** [gc/served.rs] *)

Record ServedKind : Type := mkServed {
  sk_group : string;
  sk_version : string;
  sk_kind : string;
  sk_plural : string;
  sk_scope : Scope
}.

Inductive Unresolvable : Type :=
  | NoRestMapping (api_version kind : string)
  | NamespacedOwnerOfClusterScoped
  | NotAList
  | Malformed (index : nat).

(** [schema.ParseGroupVersion]. *)
Definition parse_group_version (api_version : string) : option (string * string) :=
  match split_char "/" api_version with
  | [version] => if eqb version "" then None else Some ("", version)
  | [group; version] => if eqb version "" then None else Some (group, version)
  | _ => None
  end.

Definition ServedKinds : Type := list ServedKind.

Definition served_descriptor (d : ResourceDescriptor) : ServedKind :=
  mkServed (rd_group d) (rd_version d) (rd_kind d) (rd_plural d) (rd_scope d).

Definition builtin : ServedKinds := map served_descriptor RESOURCE_CATALOG.

Definition served_entry (e : CrdEntry) : ServedKind :=
  mkServed (ce_group e) (ce_version e) (ce_kind e) (ce_plural e) (if is_namespaced (ce_scope e) then Namespaced else Cluster).

Definition with_crds `{CrdSerde} (served : ServedKinds) (crds : list json) : ServedKinds :=
  (served ++ flat_map (fun crd => map served_entry (extract_entries crd)) crds)%list.

Definition at_version (group version : string) (k : ServedKind) : bool := eqb (sk_group k) group && eqb (sk_version k) version.

Definition find_served (served : ServedKinds) (group version kind : string) : option ServedKind :=
  List.find (fun k => at_version group version k && eqb (sk_kind k) kind) served.

Definition has_uppercase (s : string) : bool := negb (str_all (fun c => negb (is_ascii_uppercase c)) s).

Definition resolve (served : ServedKinds) (api_version kind : string) : result ServedKind Unresolvable :=
  let no_mapping := Err (NoRestMapping api_version kind) in
  match parse_group_version api_version with
  | None => no_mapping
  | Some (group, version) =>
      let here := List.filter (at_version group version) served in
      match List.find (fun k => eqb (sk_kind k) kind) here with
      | Some k => Ok k
      | None =>
          match List.find (fun k => negb (has_uppercase kind) &&
                             eqb (to_ascii_lowercase (sk_kind k)) (to_ascii_lowercase kind)) here with
          | Some k => Ok k
          | None => no_mapping
          end
      end
  end.

Definition other_versions (served : ServedKinds) (k0 : ServedKind) : ServedKinds :=
  List.filter (fun k => eqb (sk_group k) (sk_group k0) && eqb (sk_kind k) (sk_kind k0) &&
                        negb (eqb (sk_version k) (sk_version k0))) served.
