(* ===== verification/Gc.v ===== *)
(** * The garbage collector

    [engenho-controllers/src/gc.rs], [gc/collect.rs], [event_retention.rs] and the
    report of [controller.rs]: every owner reference of a dependent is read live
    and the dependent deleted, trimmed or left alone; Events are deleted past
    their retention.  Two theorems: whatever others write meanwhile, what is
    deleted or trimmed is, at that instant, exactly the object whose references
    were read, and every reference it loses was seen gone or waiting; and where
    nobody interferes the collector does what the owners call for.

    The store is the catalog other writers step ([Handler.World]).  Instants are
    integers; the RFC 3339 reader and the first instant of chrono's calendar are
    parameters. *)

From Stdlib Require Import Ascii String.
From stdpp Require Import base tactics option list strings numbers pretty.
From S2P Require Import Prelude Text BTreeMap Json Resource WatchHistory Command Read InMemoryStore.
From S2P Require Import PatchApply PatchFacts Ssa SsaFacts Pagination Catalog CatalogMeta CatalogFacts CatalogTheorems CatalogReads.
From S2P Require Import Mesh Backoff Handler WriteFacts WriteRace Scale ObjectMeta Sweep OwnedChildren OwnedFacts ReplicaSet Served.
From S2P Require Import CatalogMeta Birth.

Local Open Scope string_scope.
Local Open Scope Z_scope.
Local Open Scope handler_scope.

(** ** Reports ([controller.rs]) *)

Record ReconcileReport : Type := mkReport {
  objects_examined : nat;
  objects_changed : nat;
  objects_skipped : nat;
  report_note : option string
}.

Definition no_report : ReconcileReport := mkReport 0 0 0 None.

Definition record_effect (r : ReconcileReport) (e : Effect.t) : ReconcileReport :=
  match e with
  | Effect.Written => mkReport (objects_examined r) (S (objects_changed r)) (objects_skipped r) (report_note r)
  | Effect.Unchanged => r
  | Effect.Rejected _ => mkReport (objects_examined r) (objects_changed r) (S (objects_skipped r)) (report_note r)
  end.

Definition examine (r : ReconcileReport) (n : nat) : ReconcileReport :=
  mkReport (objects_examined r + n) (objects_changed r) (objects_skipped r) (report_note r).

(** ** Classification ([collect.rs]) *)

Definition FOREGROUND_DELETION : string := "foregroundDeletion".

Inductive OwnerState : Type := Solid | Dangling | WaitingForDependents.

#[global] Instance owner_state_eq_dec : EqDecision OwnerState.
Proof. solve_decision. Defined.

Definition state_of_live_owner (owner : json) : OwnerState :=
  if obj_terminating owner && has_finalizer owner FOREGROUND_DELETION then WaitingForDependents else Solid.

Definition key_at (k : ServedKind) (namespace : option string) (name : string) : ResourceKey :=
  match namespace with
  | Some ns => namespaced (sk_group k) (sk_version k) (sk_kind k) ns name
  | None => cluster_scoped (sk_group k) (sk_version k) (sk_kind k) name
  end.

(** The namespace an owner of the kind is looked up in. *)
Definition owner_namespace (s : Scope) (dependent_namespace : option string) : result (option string) Unresolvable :=
  match s, dependent_namespace with
  | Namespaced, Some ns => Ok (Some ns)
  | Namespaced, None => Err NamespacedOwnerOfClusterScoped
  | Cluster, _ => Ok None
  end.

(** [serde_json::from_value::<OwnerReference>]: an object, or an array of the
    fields in order. *)
Definition flag_item (v : option json) : option bool :=
  match v with None => Some false | Some (JBool b) => Some b | Some _ => None end.

Definition de_reference (raw : json) : option OwnerReference :=
  match raw with
  | JArray (a :: k :: n :: u :: rest) =>
      a ← as_str a; k ← as_str k; n ← as_str n; u ← as_str u;
      if Nat.ltb 2 (length rest) then None
      else c ← flag_item (nth_error rest 0); b ← flag_item (nth_error rest 1); Some (mkOwner a k n u c b)
  | JArray _ => None
  | _ => de_owner raw
  end.

Record Classified : Type := mkClassified { c_raw : json; c_reference : OwnerReference; c_state : OwnerState }.

Inductive Decision : Type :=
  | Keep
  | RemoveReferences (keep : list json) (remove : list string)
  | DeleteItem.

Definition is_solid (c : Classified) : bool := eqb (c_state c) Solid.

Definition uids (references : list Classified) (state : OwnerState) : list string :=
  map (fun c => or_uid (c_reference c)) (List.filter (fun c => eqb (c_state c) state) references).

Definition decision (references : list Classified) : Decision :=
  if negb (existsb is_solid references) then DeleteItem
  else
    let keep := List.filter is_solid references in
    let remove := List.filter (fun c => negb (is_solid c)) references in
    match remove with
    | [] => Keep
    | _ => RemoveReferences (map c_raw keep) (map (fun c => or_uid (c_reference c)) remove)
    end.

Definition owner_references (item : json) : result (list json) Unresolvable :=
  match jget "metadata" item >>? jget "ownerReferences" with
  | None | Some JNull => Ok []
  | Some (JArray refs) => Ok refs
  | Some _ => Err NotAList
  end.

Record Candidate : Type := mkCandidate { ca_key : ResourceKey; ca_uid : string; ca_being_deleted : bool }.

(** [Candidate::listed]. *)
Definition listed (k : ResourceKey) (v : json) : option Candidate :=
  match owner_references v with
  | Ok [] => None
  | _ => u ← obj_uid v; Some (mkCandidate k u (obj_terminating v))
  end.

Inductive Collected : Type :=
  | BeingDeleted
  | ItemGone
  | NoOwners
  | Unpinned
  | LeftUnresolved (why : Unresolvable)
  | KeptItem
  | ReferencesRemoved (uids : list string) (e : Effect.t)
  | DeletedItem (e : Effect.t).

Definition references_patch (references : list json) : json :=
  jobj [("metadata", jobj [("ownerReferences", JArray references)])].

(** ** Event retention ([event_retention.rs]) *)

Definition DEFAULT_EVENT_TTL : Duration := from_secs (60 * 60).
Definition DEFAULT_MAX_EVENTS : nat := Z.to_nat 20000.
Definition DELETES_PER_TXN : nat := Z.to_nat 1024.

Record EventRetention : Type := mkRetention { ttl : Duration; max_events : nat }.

Definition default_retention : EventRetention := mkRetention DEFAULT_EVENT_TTL DEFAULT_MAX_EVENTS.

Section Retention.
(** [parse_rfc3339] reads an instant; [earliest] is the first one there is. *)
Context (parse_rfc3339 : string -> option Z) (earliest : Z).

(** [Option::max] over the fields that can be read. *)
Definition latest (l : list Z) : option Z := fold_left (fun best t => Some (match best with Some b => Z.max b t | None => t end)) l None.

Definition last_seen (event : json) : option Z :=
  latest (omap (fun v => v >>? as_str >>? parse_rfc3339)
    [jget "series" event >>? jget "lastObservedTime"; jget "lastTimestamp" event; jget "eventTime" event;
     jget "metadata" event >>? jget "creationTimestamp"]).

(** The order events are given up in: the unreadable first, then the oldest. *)
Definition seen_order (a b : option Z * ResourceKey) : bool :=
  match lex (cmp a.1 b.1) (cmp (name a.2) (name b.2)) with Gt => false | _ => true end.

Definition past_horizon (horizon : option Z) (e : option Z * ResourceKey) : bool :=
  match e.1, horizon with Some t, Some h => t <? h | _, _ => false end.

Definition expired (r : EventRetention) (events : list (ResourceKey * json)) (now : Z) : list ResourceKey :=
  let horizon := if now - ttl r <? earliest then None else Some (now - ttl r) in
  let seen := map (fun e => (last_seen e.2, e.1)) events in
  let doomed := List.filter (past_horizon horizon) seen in
  let kept := List.filter (fun e => negb (past_horizon horizon e)) seen in
  (map snd doomed ++
   (if Nat.ltb (max_events r) (length kept)
    then map snd (take (length kept - max_events r) (sort_by seen_order kept)) else []))%list.

End Retention.

(** [slice::chunks]. *)
Fixpoint chunks_from {A} (fuel n : nat) (l : list A) : list (list A) :=
  match fuel, l with
  | S fuel, _ :: _ => take n l :: chunks_from fuel n (drop n l)
  | _, _ => []
  end.
Definition chunks {A} (n : nat) (l : list A) : list (list A) := chunks_from (length l) n l.

Definition DEPENDENT_KINDS : list Gvk := [mkGvk "" "v1" "Pod"; mkGvk "apps" "v1" "ReplicaSet"].

Record GcController : Type := mkGc { gc_namespace : option string }.

Section Collect.
Context `{SerdeJson} `{PatchSchemaEnv} `{OpDecoder} `{Blake3} `{ErrorText} `{CrdSerde}.
Context (sealer : option SealFault.t) (births : string) (parse_rfc3339 : string -> option Z) (earliest : Z).

(** The loop of [owner_state] over the versions the owner may sit under. *)
Fixpoint look_up (versions : list ServedKind) (namespace : option string) (owner : OwnerReference) : M OwnerState :=
  match versions with
  | [] => ret Dangling
  | at_ :: versions =>
      let! found := ctl_get (key_at at_ namespace (or_name owner)) in
      match found with
      | Some v => if eqb (obj_uid v) (Some (or_uid owner)) then ret (state_of_live_owner v) else look_up versions namespace owner
      | None => look_up versions namespace owner
      end
  end.

Definition owner_state (served : ServedKinds) (dependent_namespace : option string) (owner : OwnerReference)
  : M (result OwnerState Unresolvable) :=
  match resolve served (or_api_version owner) (or_kind owner) with
  | Err why => ret (Err why)
  | Ok k =>
      match owner_namespace (sk_scope k) dependent_namespace with
      | Err why => ret (Err why)
      | Ok namespace =>
          let! s := look_up (k :: other_versions served k) namespace owner in
          ret (Ok s)
      end
  end.

Fixpoint classify_from (served : ServedKinds) (dependent_namespace : option string) (index : nat) (references : list json)
  : M (result (list Classified) Unresolvable) :=
  match references with
  | [] => ret (Ok [])
  | raw :: references =>
      match de_reference raw with
      | None => ret (Err (Malformed index))
      | Some reference =>
          let!? state := owner_state served dependent_namespace reference in
          let!? rest := classify_from served dependent_namespace (S index) references in
          ret (Ok (mkClassified raw reference state :: rest))
      end
  end.

Definition classify_references (served : ServedKinds) (dependent_namespace : option string) (references : list json)
  : M (result (list Classified) Unresolvable) :=
  classify_from served dependent_namespace 0 references.

(** The writes of [StoreEnv]. *)
Definition gc_delete (now : string) (k : ResourceKey) (pinned : Revision) : M (result Effect.t ControllerError.t) :=
  let!? o := ctl_propose sealer births (ResourceCommand.delete_at k (Some pinned) Reason.GarbageCollector (Some now)) in
  ret (Ok (Effect.of_op (op o))).

Definition replace_owner_references (k : ResourceKey) (references : list json) (pinned : Revision)
  : M (result Effect.t ControllerError.t) :=
  let!? o := ctl_propose sealer births (ResourceCommand.patch_cas k (references_patch references) (Some pinned) Reason.GarbageCollector) in
  ret (Ok (Effect.of_op (op o))).

Definition collect (served : ServedKinds) (now : string) (item : Candidate) : M (result Collected ControllerError.t) :=
  if ca_being_deleted item then ret (Ok BeingDeleted)
  else
    let! live := ctl_get (ca_key item) in
    match live with
    | None => ret (Ok ItemGone)
    | Some live =>
        if negb (eqb (obj_uid live) (Some (ca_uid item))) then ret (Ok ItemGone)
        else if obj_terminating live then ret (Ok BeingDeleted)
        else
          match owner_references live with
          | Err why => ret (Ok (LeftUnresolved why))
          | Ok [] => ret (Ok NoOwners)
          | Ok references =>
              match resource_version_of live with
              | None => ret (Ok Unpinned)
              | Some pinned =>
                  let! classified := classify_references served (namespace (ca_key item)) references in
                  match classified with
                  | Err why => ret (Ok (LeftUnresolved why))
                  | Ok references =>
                      match decision references with
                      | Keep => ret (Ok KeptItem)
                      | RemoveReferences keep remove =>
                          let!? e := replace_owner_references (ca_key item) keep pinned in
                          ret (Ok (ReferencesRemoved remove e))
                      | DeleteItem =>
                          let!? e := gc_delete now (ca_key item) pinned in
                          ret (Ok (DeletedItem e))
                      end
                  end
              end
          end
    end.

(** ** The tick ([gc.rs]) *)

Definition served_now : M ServedKinds :=
  let! crds := ctl_list (mkGvk "apiextensions.k8s.io" "v1" "CustomResourceDefinition") None in
  ret (with_crds builtin (map snd crds)).

Fixpoint delete_chunks (stamp : string) (cs : list (list ResourceKey)) (report : ReconcileReport)
  : M (result ReconcileReport ControllerError.t) :=
  match cs with
  | [] => ret (Ok report)
  | chunk :: cs =>
      let!? o := ctl_propose sealer births
        (ResourceCommand.Txn [] (map (fun k => TxnOp.Delete k (Some stamp)) chunk) [] Reason.GarbageCollector) in
      delete_chunks stamp cs (record_effect report (Effect.of_op (op o)))
  end.

Definition expire_events (namespace : option string) (r : EventRetention) (instant : Z) (stamp : string) (report : ReconcileReport)
  : M (result ReconcileReport ControllerError.t) :=
  let! events := ctl_list (mkGvk "" "v1" "Event") namespace in
  let report := examine report (length events) in
  delete_chunks stamp (chunks DELETES_PER_TXN (expired parse_rfc3339 earliest r events instant)) report.

Definition note_collected (report : ReconcileReport) (c : Collected) : ReconcileReport :=
  match c with DeletedItem e | ReferencesRemoved _ e => record_effect report e | _ => report end.

Fixpoint collect_each (served : ServedKinds) (now : string) (dependents : list (ResourceKey * json)) (report : ReconcileReport)
  : M (result ReconcileReport ControllerError.t) :=
  match dependents with
  | [] => ret (Ok report)
  | (k, v) :: dependents =>
      match listed k v with
      | None => collect_each served now dependents report
      | Some candidate =>
          let!? c := collect served now candidate in
          collect_each served now dependents (note_collected report c)
      end
  end.

Fixpoint collect_kinds (this : GcController) (served : ServedKinds) (now : string) (kinds : list Gvk) (report : ReconcileReport)
  : M (result ReconcileReport ControllerError.t) :=
  match kinds with
  | [] => ret (Ok report)
  | g :: kinds =>
      let! dependents := ctl_list g (gc_namespace this) in
      let!? report := collect_each served now dependents (examine report (length dependents)) in
      collect_kinds this served now kinds report
  end.

Definition gc_tick (this : GcController) (instant : Z) (now : string) : M (result ReconcileReport ControllerError.t) :=
  let! served := served_now in
  let!? report := expire_events (gc_namespace this) default_retention instant now no_report in
  collect_kinds this served now DEPENDENT_KINDS report.

End Collect.

Section Facts.
Context `{SerdeJsonLaws} `{PatchSchemaEnv} `{OpDecoderLaws} `{Blake3} `{ErrorText}.

(** ** What was seen *)

(** The catalog after the others' next [n] turns. *)
Definition seen_at (w : World) (n : nat) : ResourceCatalog := stored_catalog (Nat.iter n step_others w).

(** How an owner was found, within the first [n] turns: with its uid at one of
    the versions, in that state; or at no version, each read at some turn. *)
Definition found_as (w : World) (n : nat) (versions : list ServedKind) (namespace : option string) (owner : OwnerReference)
    (s : OwnerState) : Prop :=
  match s with
  | Dangling =>
      Forall (fun at_ => exists i, (i <= n)%nat /\
        forall v, get (seen_at w i) (key_at at_ namespace (or_name owner)) = Some v -> obj_uid v <> Some (or_uid owner)) versions
  | _ =>
      exists at_ i v, In at_ versions /\ (i <= n)%nat /\ get (seen_at w i) (key_at at_ namespace (or_name owner)) = Some v /\
        obj_uid v = Some (or_uid owner) /\ state_of_live_owner v = s
  end.

Definition observed (w : World) (n : nat) (served : ServedKinds) (dependent_namespace : option string) (owner : OwnerReference)
    (s : OwnerState) : Prop :=
  exists k ns, resolve served (or_api_version owner) (or_kind owner) = Ok k /\
    owner_namespace (sk_scope k) dependent_namespace = Ok ns /\ found_as w n (k :: other_versions served k) ns owner s.

Definition read_as (w : World) (n : nat) (served : ServedKinds) (dependent_namespace : option string) (raw : json) (c : Classified) : Prop :=
  c_raw c = raw /\ de_reference raw = Some (c_reference c) /\
  observed w n served dependent_namespace (c_reference c) (c_state c).

Lemma seen_shift w m i : seen_at (Nat.iter m step_others w) i = seen_at w (i + m).
Proof. unfold seen_at. by rewrite Nat.iter_add. Qed.

Lemma found_shift w m n versions ns owner s :
  found_as (Nat.iter m step_others w) n versions ns owner s -> found_as w (n + m) versions ns owner s.
Proof.
  unfold found_as. destruct s; try (intros (at_ & i & v & Hin & Hi & Hg & Hu); rewrite seen_shift in Hg; exists at_, (i + m)%nat, v; split_and!; naive_solver lia).
  intros Hf. eapply Forall_impl; [exact Hf |]. intros at_ (i & Hi & Hv). rewrite seen_shift in Hv. exists (i + m)%nat. split; [lia | done].
Qed.

Lemma found_more w m n versions ns owner s : (m <= n)%nat -> found_as w m versions ns owner s -> found_as w n versions ns owner s.
Proof.
  unfold found_as. intros Hmn. destruct s; try (intros (at_ & i & v & ?); exists at_, i, v; naive_solver lia).
  intros Hf. eapply Forall_impl; [exact Hf |]. intros at_ (i & Hi & Hv). exists i. split; [lia | done].
Qed.

Lemma look_up_found versions ns owner : forall w s w', look_up versions ns owner w = (s, w') ->
  exists n, w' = Nat.iter n step_others w /\ found_as w n versions ns owner s.
Proof.
  induction versions as [|at_ versions IH]; intros w s w' Hl; cbn [look_up] in Hl.
  { unfold ret in Hl. injection Hl as <- <-. exists 0%nat. split; [done | constructor]. }
  unfold bind, ctl_get, read in Hl. cbv zeta in Hl.
  assert (stored_catalog (step_others w) = seen_at w 1) as Es by done. rewrite Es in Hl.
  assert (forall w', look_up versions ns owner (step_others w) = (s, w') ->
    (forall v, get (seen_at w 1) (key_at at_ ns (or_name owner)) = Some v -> obj_uid v <> Some (or_uid owner)) ->
    exists n, w' = Nat.iter n step_others w /\ found_as w n (at_ :: versions) ns owner s) as Hnext.
  { intros w1 Hw Hn. apply IH in Hw as (n & -> & Hf). exists (n + 1)%nat. split; [by rewrite Nat.iter_add |].
    apply (found_shift w 1) in Hf. unfold found_as in *. destruct s.
    - destruct Hf as (a & i & v & ?). exists a, i, v. naive_solver.
    - constructor; [| done]. exists 1%nat. split; [lia | done].
    - destruct Hf as (a & i & v & ?). exists a, i, v. naive_solver. }
  destruct (get (seen_at w 1) (key_at at_ ns (or_name owner))) as [v|] eqn:Eg; [| by apply Hnext].
  destruct (eqb (obj_uid v) (Some (or_uid owner))) eqn:Eu.
  - apply (proj1 (eqb_true _ _)) in Eu. unfold ret in Hl. injection Hl as <- <-. exists 1%nat. split; [done |].
    assert (state_of_live_owner v = Solid \/ state_of_live_owner v = WaitingForDependents) as Hs
      by (unfold state_of_live_owner; case_match; auto).
    destruct Hs as [Hs|Hs]; rewrite Hs; exists at_, 1%nat, v; split_and!; (done || by left).
  - apply (proj1 (eqb_false _ _)) in Eu. apply Hnext; [done |]. by intros ? [= <-].
Qed.

Lemma classify_read served dep references : forall index w r w',
  classify_from served dep index references w = (r, w') ->
  exists n, w' = Nat.iter n step_others w /\
    forall l, r = Ok l -> List.Forall2 (read_as w n served dep) references l.
Proof.
  induction references as [|raw references IH]; intros index w r w' Hc; cbn [classify_from] in Hc.
  { unfold ret in Hc. injection Hc as <- <-. exists 0%nat. split; [done |]. intros l [= <-]. constructor. }
  destruct (de_reference raw) as [o|] eqn:Ed; [| unfold ret in Hc; injection Hc as <- <-; by exists 0%nat].
  unfold bind_ok at 1, bind at 1 in Hc. destruct (owner_state served dep o w) as [s w1] eqn:Es.
  assert (exists n, w1 = Nat.iter n step_others w /\ forall st, s = Ok st -> observed w n served dep o st) as (n & -> & Hs).
  { unfold owner_state in Es. destruct (resolve _ _ _) as [k|] eqn:Er; [| unfold ret in Es; injection Es as <- <-; by exists 0%nat].
    destruct (owner_namespace _ _) as [ns|] eqn:En; [| unfold ret in Es; injection Es as <- <-; by exists 0%nat].
    unfold bind, ret in Es. destruct (look_up _ _ _ w) as [st w2] eqn:El. injection Es as <- <-.
    apply look_up_found in El as (n & -> & Hf). exists n. split; [done |]. intros ? [= <-]. by exists k, ns. }
  destruct s as [st|]; [| unfold ret in Hc; injection Hc as <- <-; by exists n].
  unfold bind_ok, bind in Hc. destruct (classify_from served dep (S index) references (Nat.iter n step_others w)) as [rest w2] eqn:Er.
  apply IH in Er as (n2 & -> & Hr). exists (n2 + n)%nat. rewrite Nat.iter_add. destruct rest as [l|]; unfold ret in Hc; injection Hc as <- <-.
  - split; [done |]. intros ? [= <-]. constructor.
    + split_and!; [done | done |]. destruct (Hs st eq_refl) as (k & ns & ? & ? & Hf). exists k, ns. split_and!; [done | done |].
      eapply found_more; [| exact Hf]. lia.
    + eapply List.Forall2_impl; [| exact (Hr l eq_refl)]. intros a b (? & ? & k & ns & ? & ? & Hf). split_and!; [done | done |].
      exists k, ns. split_and!; [done | done |]. by apply found_shift.
  - by split.
Qed.

(** ** The writes *)

Lemma pinned_revision c log k v m p : catalog_ok c log -> bt_get k (resources c) = Some (v, m) ->
  resource_version_of v = Some p -> p = mod_revision m.
Proof.
  intros Hok Hg Hp. pose proof (ok_metas _ _ Hok) as Hm. rewrite List.Forall_forall in Hm. apply bt_get_mem in Hg as Hin.
  destruct (Hm _ Hin) as [Hmk Hst]. cbn [fst snd] in *. unfold meta_ok in Hmk. unfold stamped in Hst.
  pose proof (backed_bounds _ _ (ok_history _ _ Hok)) as [_ Hb]. unfold revision_of in Hmk.
  unfold resource_version_of in Hp. unfold meta_of in Hst. destruct v as [| | | | | obj]; try done. cbn [jget] in *.
  destruct (bt_get "metadata" obj) as [[| | | | | meta]|]; try done. cbn [mbind option_bind jget] in Hp.
  cbn in Hst. rewrite Hst in Hp. cbn [mbind option_bind as_str] in Hp.
  rewrite parse_unsigned_pretty in Hp by lia. congruence.
Qed.

Section Writes.
Context (sealer : option SealFault.t) (births : string).

(** A proposal the store took met its precondition. *)
Lemma taken_precondition c cmd k p o c' : expected_of cmd = Some (k, Some p) -> propose sealer births c cmd = Ok (o, c') ->
  stamp_births c cmd births = cmd -> Effect.landed (Effect.of_op (op o)) = true ->
  exists v m, bt_get k (resources c) = Some (v, m) /\ mod_revision m = p.
Proof.
  intros He Hp Hst Hl. unfold propose in Hp. destruct (write_refusal sealer c cmd); [done |]. injection Hp as Ho. rewrite Hst in Ho.
  unfold apply_logged, apply_under in Ho. cbn [command proposed semantics] in Ho.
  destruct (unreadable_touched_by c cmd) as [[k' f]|]; [by injection Ho as <- _ |].
  pose proof (conflict_iff c cmd (OnIdentical.under ApplySemantics.CURRENT) (next_revision (history c)) k (Some p) He) as Hc. cbv zeta in Hc.
  cbn [check_precondition] in Hc. destruct (bt_get k (resources c)) as [[v m]|]; cbn [fmap option_fmap option_map is_some_and snd] in Hc.
  - destruct (Z.eqb_spec (mod_revision m) p) as [E|]; [by exists v, m |]. rewrite Hc in Ho. by injection Ho as <- _.
  - rewrite Hc in Ho. by injection Ho as <- _.
Qed.

Lemma delete_at_live c k v m p now o c' : bt_sorted (resources c) -> bt_get k (resources c) = Some (v, m) -> mod_revision m = p ->
  obj_terminating v = false -> now <> "" ->
  propose sealer births c (ResourceCommand.delete_at k (Some p) Reason.GarbageCollector (Some now)) = Ok (o, c') ->
  match bt_get k (resources c') with None => True | Some (v', _) => obj_terminating v' = true end.
Proof.
  intros Hs Hg Hm Ht Hn Hp. unfold propose in Hp. destruct (write_refusal sealer c _) eqn:Hw; [done |]. injection Hp as Ho.
  unfold apply_logged, apply_under in Ho. cbn [command proposed semantics] in Ho.
  unfold ResourceCommand.delete_at in *. cbn [stamp_births] in Ho.
  assert (unreadable_touched_by c (ResourceCommand.Delete k (Some p) Reason.GarbageCollector (Some now)) = None) as Hu.
  { unfold write_refusal in Hw. destruct (sealer ≫= _); [done |].
    match type of Hw with option_map _ ?t = None => by destruct t end. }
  rewrite Hu in Ho. cbn [apply_command] in Ho. unfold apply_delete in Ho. rewrite Hg in Ho.
  cbn [fmap option_fmap option_map check_precondition is_some_and snd] in Ho. rewrite Hm, Z.eqb_refl in Ho. cbn [negb] in Ho.
  destruct (has_finalizers v) eqn:Ef; cbn [negb] in Ho; [| injection Ho as _ <-; cbn; by rewrite bt_get_remove_eq].
  assert (deletion_timestamp_of v = None) as Hd.
  { unfold obj_terminating in Ht. rewrite deletion_timestamp_is in Ht. by destruct (deletion_timestamp_of v). }
  rewrite Hd in Ho. cbn in Ho. injection Ho as _ <-. cbn. rewrite bt_get_insert_eq. unfold obj_terminating.
  by rewrite deletion_timestamp_is, (proj2 (terminating_fields v now _ Ef Hn)).
Qed.

End Writes.

Lemma unchanged_meta v w f x : wf_json v = true -> unchanged v w None = true ->
  ~ In f COMPUTED_METADATA -> f <> "managedFields" -> meta_field f v = Some x -> meta_field f w = Some x.
Proof.
  intros Hv Hu Hf Hm Hx. unfold meta_field in *. destruct v as [| | | | | before]; try done. cbn [jget] in Hx.
  destruct (bt_get "metadata" before) as [mv|] eqn:Eb; [| done]. cbn [mbind option_bind] in Hx.
  apply wf_json_object in Hv as Hv'. destruct Hv' as [Hsb Hall]. apply bt_get_In in Eb as Hin; [| done].
  unfold unchanged, objects_equal_except at 1 in Hu. destruct w as [| | | | | after]; cbn [as_object] in Hu;
    try (apply eqb_sound in Hu; congruence).
  apply andb_true_iff in Hu as [_ Hu]. rewrite forallb_forall in Hu.
  assert (forall l : list (string * json), List.filter (fun _ => true) l = l) as Hid.
  { induction l as [|e l IH]; simpl; congruence. }
  cbn [existsb negb] in Hu. rewrite Hid in Hu. specialize (Hu _ Hin). cbn [fst snd] in Hu.
  cbn [jget]. destruct (bt_get "metadata" after) as [mw|]; [| done]. cbn [is_some_and mbind option_bind] in *. rewrite eqb_refl in Hu.
  destruct mv as [| | | | | pm]; try done. cbn [jget] in Hx.
  assert (bt_sorted pm) as Hsp.
  { assert (wf_json (JObject pm) = true) as Hw by exact (wf_json_get "metadata" (JObject before) (JObject pm) Hv Eb). by apply wf_json_object in Hw as [? _]. }
  unfold objects_equal_except in Hu. cbn [as_object] in Hu. destruct mw as [| | | | | cm]; try (apply eqb_sound in Hu; congruence).
  cbn [as_object jget] in *. apply andb_true_iff in Hu as [_ Hu]. rewrite forallb_forall in Hu.
  assert (In (f, x) (List.filter (fun e => negb (existsb (eqb e.1) COMPUTED_METADATA)) pm)) as Hin'.
  { apply filter_In. split; [by apply bt_get_In |]. cbn [fst]. apply negb_true_iff. apply not_true_iff_false. intros He. apply Hf.
    apply existsb_exists in He as (y & Hy & E). apply (proj1 (eqb_true _ _)) in E. by subst. }
  specialize (Hu _ Hin'). cbn [fst snd] in Hu. destruct (bt_get f cm) as [a|]; [| done]. cbn [is_some_and] in Hu.
  rewrite (proj2 (eqb_false f "managedFields")) in Hu by done. apply eqb_sound in Hu. congruence.
Qed.

(** A reference list that a merge patch writes. *)
Lemma references_merged v refs kept : wf_json v = true -> owner_references v = Ok refs -> refs <> [] ->
  owner_references (merge_rfc7396 v (references_patch kept)) = Ok kept /\
  (forall f, f <> "metadata" -> jget f (merge_rfc7396 v (references_patch kept)) = jget f v) /\
  (forall f, f <> "ownerReferences" -> meta_field f (merge_rfc7396 v (references_patch kept)) = meta_field f v) /\
  meta_field "ownerReferences" v = Some (JArray refs) /\
  meta_field "ownerReferences" (merge_rfc7396 v (references_patch kept)) = Some (JArray kept).
Proof.
  intros Hw Ho Hne. change (references_patch kept) with (JObject [("metadata", JObject [("ownerReferences", JArray kept)])]).
  assert (exists meta, jget "metadata" v = Some (JObject meta) /\ bt_get "ownerReferences" meta = Some (JArray refs)) as (meta & Hm & Hr).
  { unfold owner_references in Ho. destruct (jget "metadata" v) as [[| | | | | meta]|]; cbn [mbind option_bind jget] in Ho; try congruence.
    exists meta. split; [done |]. destruct (bt_get "ownerReferences" meta) as [[]|]; try congruence. }
  assert (wf_json (JObject meta) = true) as Hwm by exact (wf_json_get _ _ _ Hw Hm).
  assert (forall f, jget f (merge_rfc7396 (JObject meta) (JObject [("ownerReferences", JArray kept)])) =
    if eqb f "ownerReferences" then Some (JArray kept) else bt_get f meta) as Hf.
  { intros f. rewrite merge_jget by (done || by apply bt_sortedb_spec). cbn [bt_get]. destruct (eqb f "ownerReferences") eqn:E.
    - apply (proj1 (eqb_true _ _)) in E as ->. done.
    - apply (proj1 (eqb_false _ _)) in E. destruct (cmp f "ownerReferences") eqn:Ec; try done. by apply cmp_eq in Ec. }
  assert (forall f, jget f (merge_rfc7396 v (JObject [("metadata", JObject [("ownerReferences", JArray kept)])])) =
    if eqb f "metadata" then Some (merge_rfc7396 (JObject meta) (JObject [("ownerReferences", JArray kept)])) else jget f v) as Hg.
  { intros f. rewrite merge_jget by (done || by apply bt_sortedb_spec). cbn [bt_get]. destruct (eqb f "metadata") eqn:E.
    - apply (proj1 (eqb_true _ _)) in E as ->. replace (cmp "metadata" "metadata") with Eq by done. by rewrite Hm.
    - apply (proj1 (eqb_false _ _)) in E. destruct (cmp f "metadata") eqn:Ec; try done. by apply cmp_eq in Ec. }
  split_and!.
  - unfold owner_references. rewrite (Hg "metadata"), eqb_refl. cbn [mbind option_bind]. by rewrite (Hf "ownerReferences").
  - intros f Hne'. rewrite Hg. by rewrite (proj2 (eqb_false f "metadata")).
  - intros f Hne'. unfold meta_field. rewrite (Hg "metadata"), eqb_refl, Hm. cbn [mbind option_bind]. rewrite Hf.
    by rewrite (proj2 (eqb_false f "ownerReferences")).
  - unfold meta_field. by rewrite Hm.
  - unfold meta_field. rewrite (Hg "metadata"), eqb_refl. cbn [mbind option_bind]. by rewrite (Hf "ownerReferences").
Qed.

(** The metadata a trim does not write. *)
Definition trimmed (kept : list json) (v v' : json) : Prop :=
  owner_references v' = Ok kept /\ (forall f, f <> "metadata" -> jget f v' = jget f v) /\
  (forall f, ~ In f ["ownerReferences"; "resourceVersion"; "generation"] -> meta_field f v' = meta_field f v).

Section Trim.
Context (sealer : option SealFault.t) (births : string).

Lemma trim_at_live c k v m p refs kept o c' : bt_sorted (resources c) -> values_wf (resources c) ->
  bt_get k (resources c) = Some (v, m) -> mod_revision m = p ->
  obj_terminating v = false -> owner_references v = Ok refs -> refs <> [] ->
  propose sealer births c (ResourceCommand.patch_cas k (references_patch kept) (Some p) Reason.GarbageCollector) = Ok (o, c') ->
  exists v' m', bt_get k (resources c') = Some (v', m') /\ trimmed kept v v'.
Proof.
  intros Hs Hvw Hg Hm Ht Ho Hne Hp. pose proof (values_wf_get _ _ _ Hs Hvw Hg) as Hv. cbn [fst] in Hv.
  destruct (references_merged v refs kept Hv Ho Hne) as (Hmo & Hmf & Hmm & Hmv & Hmw).
  unfold propose in Hp. destruct (write_refusal sealer c _) eqn:Hw; [done |]. injection Hp as Ho'.
  unfold apply_logged, apply_under in Ho'. cbn [command proposed semantics] in Ho'.
  unfold ResourceCommand.patch_cas in *. cbn [stamp_births] in Ho'.
  assert (unreadable_touched_by c (ResourceCommand.Patch k (references_patch kept) PatchType.Merge None (Some p) Reason.GarbageCollector) = None) as Hu.
  { unfold write_refusal in Hw. destruct (sealer ≫= _); [done |].
    match type of Hw with option_map _ ?t = None => by destruct t end. }
  rewrite Hu in Ho'. cbn [apply_command] in Ho'. unfold apply_patch in Ho'.
  rewrite (proj2 (eqb_false PatchType.Merge PatchType.Apply)) in Ho' by done. rewrite Hg in Ho'.
  cbn -[OnIdentical.skips stamp_revision finalizer_release_removal commit references_patch] in Ho'. rewrite Hm, Z.eqb_refl in Ho'. cbn [negb] in Ho'.
  destruct (OnIdentical.skips _ (Some v) (merge_rfc7396 v (references_patch kept)) None) eqn:Sk.
  - injection Ho' as _ <-. exists v, m. split; [done |]. split_and!; [| done | done].
    cbn in Sk. apply andb_true_iff in Sk as [Sk _].
    pose proof (unchanged_meta v _ "ownerReferences" _ Hv Sk ltac:(cbn; intuition discriminate) ltac:(done) Hmv) as Hx.
    pose proof (eq_trans (eq_sym Hx) Hmw) as E. injection E as ->. exact Ho.
  - set (post := stamp_revision (merge_rfc7396 v (references_patch kept)) _ _) in Ho'.
    assert (forall f, ~ In f ["resourceVersion"; "generation"] -> meta_field f post = meta_field f (merge_rfc7396 v (references_patch kept))) as Hpm.
    { intros f Hf. unfold post. apply stamp_revision_meta_field; intros ->; apply Hf; cbn; tauto. }
    assert (finalizers_released post = false) as Hpost.
    { unfold finalizers_released. unfold obj_terminating in Ht. rewrite deletion_timestamp_is in Ht.
      assert (deletion_timestamp_of post = deletion_timestamp_of v) as ->.
      { rewrite !deletion_timestamp_field. rewrite Hpm by (cbn; intuition discriminate). by rewrite Hmm. }
      by rewrite Ht. }
    unfold finalizer_release_removal in Ho'. rewrite Hpost in Ho'. cbn in Ho'. injection Ho' as _ <-. cbn. rewrite bt_get_insert_eq.
    eexists post, _. split; [done |]. split_and!.
    + rewrite <-Hmo. unfold owner_references. assert (forall x, (jget "metadata" x >>? jget "ownerReferences") = meta_field "ownerReferences" x) as Hx by done.
      rewrite !Hx. by rewrite Hpm by (cbn; intuition discriminate).
    + intros f Hf. unfold post. rewrite stamp_revision_spec, jget_with_metadata by done. by apply Hmf.
    + intros f Hf. rewrite Hpm by (intros Hin; apply Hf; cbn in *; tauto). apply Hmm. intros ->. apply Hf. by left.
Qed.

End Trim.

(** ** What is collected *)

Section Collected.
Context `{CrdSerde} (sealer : option SealFault.t) (births : string).

(** The outcomes that wrote something. *)
Definition acted (out : Collected) : bool :=
  match out with DeletedItem e | ReferencesRemoved _ e => Effect.landed e | _ => false end.

Definition gone_or_leaving (k : ResourceKey) (c : ResourceCatalog) : Prop :=
  match bt_get k (resources c) with None => True | Some (v, _) => obj_terminating v = true end.

Definition not_solid (c : Classified) : bool := negb (is_solid c).

(** What an outcome leaves of the item, by how its references were read. *)
Definition carried_out (out : Collected) (k : ResourceKey) (live : json) (classified : list Classified) (after : ResourceCatalog) : Prop :=
  match out with
  | DeletedItem _ => existsb is_solid classified = false /\ gone_or_leaving k after
  | ReferencesRemoved gone _ =>
      existsb is_solid classified = true /\ gone = map (fun c => or_uid (c_reference c)) (List.filter not_solid classified) /\
      exists v' m', bt_get k (resources after) = Some (v', m') /\ trimmed (map c_raw (List.filter is_solid classified)) live v'
  | _ => False
  end.

(** A write proposed once the others have had [n + 1] turns. *)
Lemma ctl_propose_after cmd n w o w1 : ctl_propose sealer births cmd (Nat.iter (n + 1) step_others w) = (Ok o, w1) ->
  exists c', propose sealer births (seen_at w (n + 2)) cmd = Ok (o, c') /\ w1 = mkWorld c' (others (Nat.iter (n + 2) step_others w)).
Proof.
  intros Hp. unfold ctl_propose in Hp. cbv zeta in Hp. unfold seen_at. rewrite !Nat.iter_add in *. cbn [Nat.iter] in *.
  assert (forall x, step_others (Nat.iter n step_others x) = Nat.iter n step_others (step_others x)) as Hsw
    by (intros; by rewrite <-Nat.iter_succ, Nat.iter_succ_r).
  rewrite Hsw in Hp. destruct (propose _ _ _ _) as [[o' c']|[]]; [| done]. injection Hp as <- <-. by exists c'.
Qed.

(** The way to a write: what was read, and the command that was proposed on it. *)
Lemma collect_path served now item w out w' : collect sealer births served now item w = (Ok out, w') -> acted out = true ->
  exists n live refs classified p cmd o c',
    get (seen_at w 1) (ca_key item) = Some live /\ obj_uid live = Some (ca_uid item) /\ obj_terminating live = false /\
    owner_references live = Ok refs /\ refs <> [] /\ resource_version_of live = Some p /\
    List.Forall2 (read_as w (n + 2) served (namespace (ca_key item))) refs classified /\
    propose sealer births (seen_at w (n + 2)) cmd = Ok (o, c') /\ w' = mkWorld c' (others (Nat.iter (n + 2) step_others w)) /\
    Effect.landed (Effect.of_op (op o)) = true /\
    match decision classified with
    | DeleteItem => cmd = ResourceCommand.delete_at (ca_key item) (Some p) Reason.GarbageCollector (Some now) /\
        out = DeletedItem (Effect.of_op (op o))
    | RemoveReferences keep remove =>
        cmd = ResourceCommand.patch_cas (ca_key item) (references_patch keep) (Some p) Reason.GarbageCollector /\
        out = ReferencesRemoved remove (Effect.of_op (op o))
    | Keep => False
    end.
Proof.
  intros Hc Ha. unfold collect in Hc. destruct (ca_being_deleted item); [unfold ret in Hc; by injection Hc as <- |].
  unfold bind at 1, ctl_get, read in Hc. cbv zeta in Hc. change (stored_catalog (step_others w)) with (seen_at w 1) in Hc.
  destruct (get (seen_at w 1) (ca_key item)) as [live|] eqn:Eg; [| unfold ret in Hc; by injection Hc as <-].
  destruct (eqb (obj_uid live) (Some (ca_uid item))) eqn:Eu; cbn [negb] in Hc; [| unfold ret in Hc; by injection Hc as <-].
  apply (proj1 (eqb_true _ _)) in Eu. destruct (obj_terminating live) eqn:Et; [unfold ret in Hc; by injection Hc as <- |].
  destruct (owner_references live) as [refs|] eqn:Er; [| unfold ret in Hc; by injection Hc as <-].
  assert (refs = [] \/ refs <> []) as [-> |Hne] by (destruct refs; auto); [unfold ret in Hc; by injection Hc as <- |].
  replace (match refs with [] => _ | _ :: _ => _ end) with
    (match resource_version_of live with
     | None => ret (Ok Unpinned)
     | Some pinned =>
         let! classified := classify_references served (namespace (ca_key item)) refs in
         match classified with
         | Err why => ret (Ok (LeftUnresolved why))
         | Ok references =>
             match decision references with
             | Keep => ret (Ok KeptItem)
             | RemoveReferences keep remove =>
                 let!? e := replace_owner_references sealer births (ca_key item) keep pinned in ret (Ok (ReferencesRemoved remove e))
             | DeleteItem => let!? e := gc_delete sealer births now (ca_key item) pinned in ret (Ok (DeletedItem e))
             end
         end
     end) in Hc by (by destruct refs).
  destruct (resource_version_of live) as [p|] eqn:Ep; [| unfold ret in Hc; by injection Hc as <-].
  unfold bind at 1 in Hc. destruct (classify_references _ _ _ _) as [cl w2] eqn:Ec.
  apply classify_read in Ec as (n & -> & Hl). change (step_others w) with (Nat.iter 1 step_others w) in *.
  rewrite <-Nat.iter_add in Hc. destruct cl as [cl|]; [| unfold ret in Hc; by injection Hc as <-].
  specialize (Hl cl eq_refl). exists n, live, refs, cl, p.
  assert (List.Forall2 (read_as w (n + 2) served (namespace (ca_key item))) refs cl) as Hl'.
  { eapply List.Forall2_impl; [| exact Hl]. intros a b (? & ? & k & ns & ? & ? & Hf). split_and!; [done | done |].
    exists k, ns. split_and!; [done | done |]. eapply found_more; [| exact (found_shift w 1 _ _ _ _ _ Hf)]. lia. }
  unfold replace_owner_references, gc_delete, bind_ok, bind in Hc.
  destruct (decision cl) as [|keep remove|] eqn:Ed; [unfold ret in Hc; by injection Hc as <- | |].
  - destruct (ctl_propose _ _ _ _) as [[o|] w1] eqn:Ew; unfold ret in Hc; [| done]. injection Hc as <- <-.
    destruct (ctl_propose_after _ _ _ _ _ Ew) as (c' & Hp & ->). eexists _, o, c'. split_and!; try done.
  - destruct (ctl_propose _ _ _ _) as [[o|] w1] eqn:Ew; unfold ret in Hc; [| done]. injection Hc as <- <-.
    destruct (ctl_propose_after _ _ _ _ _ Ew) as (c' & Hp & ->). eexists _, o, c'. split_and!; try done.
Qed.


(** (C18) Whatever others write while it looks, an object the collector deletes or
    trims is, at the instant of the write, exactly the object whose references it
    read: the one with the uid the scan saw, not being deleted.  Every reference
    was looked up in that time.  A deleted object had none that was found solid;
    a trimmed one keeps exactly those found solid and every other field, and the
    references it loses were each found at no version or waiting for their
    dependents.  Nothing else is written. *)
Theorem gc_acts_on_what_it_read served now item w out w' :
  world_ok w -> now <> "" -> collect sealer births served now item w = (Ok out, w') -> acted out = true ->
  exists n live m refs classified after,
    bt_get (ca_key item) (resources (seen_at w n)) = Some (live, m) /\
    obj_uid live = Some (ca_uid item) /\ obj_terminating live = false /\ owner_references live = Ok refs /\
    List.Forall2 (read_as w n served (namespace (ca_key item))) refs classified /\
    w' = mkWorld after (others (Nat.iter n step_others w)) /\ changes_only [ca_key item] (seen_at w n) after /\
    carried_out out (ca_key item) live classified after.
Proof.
  intros Hw Hn Hc Ha. destruct (collect_path _ _ _ _ _ _ Hc Ha)
    as (n & live & refs & cl & p & cmd & o & c' & Hg & Hu & Ht & Hr & Hne & Hp & Hcl & Hpr & -> & Hl & Hd).
  destruct (others_run 1 w Hw) as [Hw1 _]. destruct (others_run (n + 1) _ Hw1) as ([[log Hok] _] & entries & He & Hwf & Hlen).
  rewrite <-Nat.iter_add in Hok, He. replace (n + 1 + 1)%nat with (n + 2)%nat in * by lia.
  change (stored_catalog (Nat.iter 1 step_others w)) with (seen_at w 1) in He. change (stored_catalog (Nat.iter (n + 2) step_others w)) with (seen_at w (n + 2)) in *.
  destruct Hw1 as ([log1 Hok1] & _ & Hroom). change (stored_catalog (Nat.iter 1 step_others w)) with (seen_at w 1) in Hok1, Hroom.
  unfold get in Hg. destruct (bt_get (ca_key item) (resources (seen_at w 1))) as [[v1 m1]|] eqn:Eg; [| done]. cbn in Hg. injection Hg as ->.
  pose proof (pinned_revision _ _ _ _ _ _ Hok1 Eg Hp) as ->.
  assert (bt_get (ca_key item) (resources (seen_at w (n + 2))) = Some (live, m1)) as Hlive.
  { assert (exists v m, bt_get (ca_key item) (resources (seen_at w (n + 2))) = Some (v, m) /\ mod_revision m = mod_revision m1) as (v & m & Hg' & Hm).
    { destruct (decision cl) as [|keep remove|]; [done | |]; destruct Hd as [-> _]; (eapply (taken_precondition sealer births _ _ (ca_key item) (mod_revision m1)); [| exact Hpr | reflexivity | exact Hl]; reflexivity). }
    rewrite Hg'. f_equal. rewrite He in Hg'. eapply run_same_revision; [exact Hok1 | exact Hwf | | exact Eg | exact Hg' | exact Hm]. lia. }
  exists (n + 2)%nat, live, m1, refs, cl, c'. pose proof (propose_only sealer births _ _ _ _ Hpr) as Hch.
  assert (existsb is_solid cl = false <-> decision cl = DeleteItem) as Hdel.
  { unfold decision. destruct (existsb is_solid cl); cbn [negb]; [| done]. split; [done |]. by destruct (List.filter _ cl). }
  split_and!; try done.
  - destruct (decision cl) as [|keep remove|]; [done | |]; destruct Hd as [-> _]; exact Hch.
  - destruct (decision cl) as [|keep remove|] eqn:Ed; [done | |]; destruct Hd as [-> ->]; cbn [carried_out].
    + assert (existsb is_solid cl = true) as Hs by (destruct (existsb is_solid cl); [done | by apply proj1 in Hdel; specialize (Hdel eq_refl)]).
      split; [done |]. unfold decision in Ed. rewrite Hs in Ed. cbn [negb] in Ed. cbv zeta in Ed. unfold not_solid.
      assert (keep = map c_raw (List.filter is_solid cl) /\
        remove = map (fun c => or_uid (c_reference c)) (List.filter (fun c => negb (is_solid c)) cl)) as [-> ->]
        by (destruct (List.filter (fun c => negb (is_solid c)) cl); [done | by injection Ed as <- <-]).
      split; [done |]. eapply trim_at_live; [apply (ok_sorted _ _ Hok) | apply (ok_values _ _ Hok) | exact Hlive | reflexivity | exact Ht | exact Hr | exact Hne | exact Hpr].
    + split; [by apply Hdel |]. eapply delete_at_live; [apply (ok_sorted _ _ Hok) | exact Hlive | reflexivity | exact Ht | exact Hn | exact Hpr].
Qed.

(** ** Where nobody interferes *)

Definition resolvable (served : ServedKinds) (dependent_namespace : option string) (raw : json) : Prop :=
  exists o k ns, de_reference raw = Some o /\ resolve served (or_api_version o) (or_kind o) = Ok k /\
    owner_namespace (sk_scope k) dependent_namespace = Ok ns.

Lemma iter_alone n c : Nat.iter n step_others (mkWorld c []) = mkWorld c [].
Proof. induction n as [|n IH]; [done |]. by rewrite Nat.iter_succ, IH. Qed.

Lemma read_alone c n served dep raw x : read_as (mkWorld c []) n served dep raw x -> read_as (mkWorld c []) 0 served dep raw x.
Proof.
  assert (forall i, seen_at (mkWorld c []) i = c) as Hs by (intros i; unfold seen_at; by rewrite iter_alone).
  intros (? & ? & k & ns & ? & ? & Hf). split_and!; [done | done |]. exists k, ns. split_and!; [done | done |].
  unfold found_as in *. destruct (c_state x).
  - destruct Hf as (a & i & v & ? & _ & Hg & ?). rewrite Hs in Hg. exists a, 0%nat, v. rewrite Hs. split_and!; (done || lia || tauto).
  - eapply Forall_impl; [exact Hf |]. intros a (i & _ & Hv). exists 0%nat. rewrite Hs in *. split; [lia | done].
  - destruct Hf as (a & i & v & ? & _ & Hg & ?). rewrite Hs in Hg. exists a, 0%nat, v. rewrite Hs. split_and!; (done || lia || tauto).
Qed.

Lemma classify_resolves served dep references : forall index w r w',
  classify_from served dep index references w = (r, w') -> is_ok r = true <-> Forall (resolvable served dep) references.
Proof.
  induction references as [|raw references IH]; intros index w r w' Hc; cbn [classify_from] in Hc.
  { unfold ret in Hc. injection Hc as <- _. split; [constructor | done]. }
  rewrite List.Forall_cons_iff. destruct (de_reference raw) as [o|] eqn:Ed.
  2: { unfold ret in Hc. injection Hc as <- _. split; [done |]. intros [(o & k & ns & Ho & _) _]. congruence. }
  unfold bind_ok at 1, bind at 1, owner_state in Hc. destruct (resolve _ _ _) as [k|] eqn:Er.
  2: { unfold ret in Hc. injection Hc as <- _. split; [done |]. intros [(o' & k & ns & Ho & Hk & _) _]. congruence. }
  destruct (owner_namespace _ _) as [ns|] eqn:En.
  2: { unfold ret in Hc. injection Hc as <- _. split; [done |]. intros [(o' & k' & ns & Ho & Hk & Hn) _]. congruence. }
  unfold bind in Hc. destruct (look_up _ _ _ w) as [s w1]. unfold ret at 1 in Hc. unfold bind_ok, bind in Hc.
  destruct (classify_from served dep (S index) references w1) as [rest w2] eqn:Ec. specialize (IH _ _ _ _ Ec).
  assert (resolvable served dep raw) as Hraw by (by exists o, k, ns).
  destruct rest as [l|]; unfold ret in Hc; injection Hc as <- _; cbn [is_ok] in *; tauto.
Qed.

(** Every stored object that names owners can be pinned. *)
Lemma pinned_some c log k v m refs : catalog_ok c log -> bt_get k (resources c) = Some (v, m) ->
  owner_references v = Ok refs -> refs <> [] -> resource_version_of v = Some (mod_revision m).
Proof.
  intros Hok Hg Ho Hne. assert (exists p, resource_version_of v = Some p) as [p Hp].
  { pose proof (ok_metas _ _ Hok) as Hm. rewrite List.Forall_forall in Hm. apply bt_get_mem in Hg as Hin.
    destruct (Hm _ Hin) as [Hmk Hst]. cbn [fst snd] in *. unfold meta_ok in Hmk. unfold stamped in Hst.
    pose proof (backed_bounds _ _ (ok_history _ _ Hok)) as [_ Hb]. unfold revision_of in Hmk.
    unfold owner_references in Ho. destruct v as [| | | | | obj]; cbn [jget mbind option_bind] in Ho; try congruence.
    destruct (bt_get "metadata" obj) as [[| | | | | meta]|] eqn:Em; cbn [mbind option_bind jget] in Ho; try congruence.
    unfold meta_of in Hst. cbn [jget] in Hst. rewrite Em in Hst. cbn in Hst.
    unfold resource_version_of. cbn [jget]. rewrite Em. cbn [mbind option_bind jget]. rewrite Hst. cbn [mbind option_bind as_str].
    rewrite parse_unsigned_pretty by lia. by eexists. }
  by rewrite Hp, (pinned_revision _ _ _ _ _ _ Hok Hg Hp).
Qed.

(** Where nobody interferes, collecting a dependent does what its owners call
    for: one with a reference that cannot be resolved is left as it is; one with
    no solid owner is gone or on its way; any other is there, with exactly its
    solid references.  No other object is touched. *)
Theorem gc_settles served now k v m u refs c log :
  catalog_ok c log -> unreadable c = [] -> is_sealed_kind k = false -> now <> "" ->
  get_with_meta c k = Some (v, m) -> obj_uid v = Some u -> obj_terminating v = false ->
  owner_references v = Ok refs -> refs <> [] ->
  exists out after, collect sealer births served now (mkCandidate k u false) (mkWorld c []) = (Ok out, mkWorld after []) /\
    changes_only [k] c after /\
    (~ Forall (resolvable served (namespace k)) refs -> after = c) /\
    (Forall (resolvable served (namespace k)) refs ->
     exists classified, List.Forall2 (read_as (mkWorld c []) 0 served (namespace k)) refs classified /\
       if existsb is_solid classified
       then exists v' m', bt_get k (resources after) = Some (v', m') /\ trimmed (map c_raw (List.filter is_solid classified)) v v'
       else gone_or_leaving k after).
Proof.
  intros Hok Hun Hk Hn Hg Hu Ht Ho Hne. unfold get_with_meta in Hg. unfold collect, bind, ctl_get, read. cbn [ca_being_deleted ca_key ca_uid].
  cbv zeta. change (step_others (mkWorld c [])) with (mkWorld c []). cbn [stored_catalog]. unfold get. rewrite Hg. cbn [fmap option_fmap option_map fst].
  rewrite Hu, eqb_refl, Ht, Ho, (pinned_some _ _ _ _ _ _ Hok Hg Ho Hne). cbn [negb]. destruct refs as [|r0 refs]; [done |]. set (l := r0 :: refs) in *.
  destruct (classify_references served (namespace k) l (mkWorld c [])) as [cl w2] eqn:Ec. unfold classify_references in Ec.
  pose proof (classify_resolves _ _ _ _ _ _ _ Ec) as Hres. apply classify_read in Ec as (n & -> & Hread). rewrite iter_alone.
  assert (forall cmd, ResourceCommand.keys cmd = [k] -> exists o after, ctl_propose sealer births cmd (mkWorld c []) = (Ok o, mkWorld after []) /\
    propose sealer births c cmd = Ok (o, after)) as Hprop.
  { intros cmd Hkeys. rewrite ctl_propose_alone, propose_taken by (done || rewrite Hkeys; cbn; by rewrite Hk).
    destruct (apply_logged _ _ _ _) as [o after]. by exists o, after. }
  destruct cl as [cl|why]; [| exists (LeftUnresolved why), c; split_and!; [done | done | done |]; intros Hf; by apply Hres in Hf].
  assert (List.Forall2 (read_as (mkWorld c []) 0 served (namespace k)) l cl) as Hcl.
  { eapply List.Forall2_impl; [| exact (Hread cl eq_refl)]. intros a b. apply read_alone. }
  assert (Forall (resolvable served (namespace k)) l) as Hall by (by apply Hres).
  unfold decision. destruct (existsb is_solid cl) eqn:Es; cbn [negb].
  - cbv zeta. destruct (List.filter (fun x => negb (is_solid x)) cl) as [|x0 xs] eqn:Er.
    + exists KeptItem, c. split_and!; [done | done | done |]. intros _. exists cl. rewrite Es. split; [done |]. exists v, m. split; [done |].
      split_and!; [| done | done]. rewrite Ho. f_equal. clear -Hcl Er. induction Hcl as [|raw x l cl (Hraw & _) _ IH]; [done |].
      cbn [List.filter map] in *. destruct (is_solid x); [| done]. cbn [negb map] in *. by rewrite <-IH, Hraw.
    + unfold replace_owner_references, bind_ok, bind.
      destruct (Hprop (ResourceCommand.patch_cas k (references_patch (map c_raw (List.filter is_solid cl))) (Some (mod_revision m)) Reason.GarbageCollector) eq_refl) as (o & after & -> & Hp).
      unfold ret. eexists _, after. split_and!; [done | exact (propose_only sealer births _ _ _ _ Hp) | by intros [] |]. intros _. exists cl. rewrite Es.
      split; [done |]. eapply trim_at_live; [apply (ok_sorted _ _ Hok) | apply (ok_values _ _ Hok) | exact Hg | reflexivity | exact Ht | exact Ho | done | exact Hp].
  - unfold gc_delete, bind_ok, bind.
    destruct (Hprop (ResourceCommand.delete_at k (Some (mod_revision m)) Reason.GarbageCollector (Some now)) eq_refl) as (o & after & -> & Hp).
    unfold ret. eexists _, after. split_and!; [done | exact (propose_only sealer births _ _ _ _ Hp) | by intros [] |]. intros _. exists cl. rewrite Es.
    split; [done |]. eapply delete_at_live; [apply (ok_sorted _ _ Hok) | exact Hg | reflexivity | exact Ht | exact Hn | exact Hp].
Qed.

End Collected.
End Facts.

(** ** Retention *)

Lemma chunks_concat {A} n (l : list A) : (0 < n)%nat -> concat (chunks n l) = l.
Proof.
  intros Hn. unfold chunks. assert (forall fuel l, (length l <= fuel)%nat -> concat (chunks_from (A := A) fuel n l) = l) as Hg; [| by apply Hg].
  clear l. induction fuel as [|fuel IH]; intros [|x l] Hl; try done; [cbn in Hl; lia |]. cbn [chunks_from concat].
  rewrite IH; [apply take_drop |]. rewrite length_drop. cbn [length] in *. lia.
Qed.

(** ** Witnesses *)

#[local] Existing Instance numbered.
#[local] Existing Instance numbered_laws.
#[local] Existing Instance sample_env.
#[local] Existing Instance sample_ops.
#[local] Existing Instance sample_ops_laws.
#[local] Existing Instance zero_blake3.
#[local] Existing Instance sample_text.

Definition no_crds : CrdSerde := {| de_crd_spec := fun _ => None; to_lowercase := fun s => s |}.
#[local] Existing Instance no_crds.

Definition cm_key : ResourceKey := namespaced "" "v1" "ConfigMap" "default" "conf".
Definition dep_key : ResourceKey := namespaced "" "v1" "Pod" "default" "dep".

Definition conf : json := jobj [("metadata", jobj [("name", JString "conf"); ("uid", JString "c-1")])].

Definition dead_ref : json := owner_value (mkOwner "apps/v1" "ReplicaSet" "gone" "r-1" true false).
Definition live_ref : json := owner_value (mkOwner "v1" "ConfigMap" "conf" "c-1" false false).

Definition dependent (refs : list json) : json :=
  jobj [("metadata", jobj [("name", JString "dep"); ("uid", JString "p-1"); ("ownerReferences", JArray refs)])].

Definition gc_entries (refs : list json) : list LogEntry := [put_at_key cm_key conf 1; put_at_key dep_key (dependent refs) 2].
Definition gc_catalog (refs : list json) : ResourceCatalog := (CatalogTheorems.run empty (gc_entries refs)).2.

(** Another writer changes the owner while the references are read. *)
Definition busy : World := mkWorld (gc_catalog [dead_ref; live_ref]) [[]; []; [put_at_key cm_key (jset "data" JNull conf) 3]; []; []].

Lemma gc_catalog_ok refs : wf_entries (gc_entries refs) = true ->
  exists log, catalog_ok (gc_catalog refs) log.
Proof.
  intros Hw. eexists. refine (run_ok _ _ _ _ (run_correct (gc_entries refs) empty [] (reaches_ok _ _ (reaches_fresh 16)) Hw _)).
  by vm_compute.
Qed.

Definition trim_run : result Collected ControllerError.t * World :=
  collect None "born" builtin "now" (mkCandidate dep_key "p-1" false) busy.

Lemma gc_acts_on_what_it_read_witness :
  exists w', trim_run = (Ok (ReferencesRemoved ["r-1"] Effect.Written), w') /\ revision_of (stored_catalog w') = 4 /\
  exists n live m refs classified after,
    bt_get dep_key (resources (seen_at busy n)) = Some (live, m) /\
    obj_uid live = Some "p-1" /\ obj_terminating live = false /\ owner_references live = Ok refs /\
    List.Forall2 (read_as busy n builtin (Some "default")) refs classified /\
    w' = mkWorld after (others (Nat.iter n step_others busy)) /\ changes_only [dep_key] (seen_at busy n) after /\
    carried_out (ReferencesRemoved ["r-1"] Effect.Written) dep_key live classified after.
Proof.
  assert (trim_run.1 = Ok (ReferencesRemoved ["r-1"] Effect.Written) /\ revision_of (stored_catalog trim_run.2) = 4) as [Hr Hrev]
    by (by vm_compute).
  destruct trim_run as [r w'] eqn:E. cbn [fst snd] in Hr, Hrev. subst r. exists w'. split; [done |]. split; [done |].
  apply (gc_acts_on_what_it_read None "born" builtin "now" (mkCandidate dep_key "p-1" false) busy _ w'); [| done | exact E | done].
  split_and!; [by apply gc_catalog_ok; vm_compute | by vm_compute | by vm_compute].
Defined.

(** A pod whose only owner is gone. *)
Lemma gc_settles_witness :
  exists out after classified, collect None "born" builtin "now" (mkCandidate dep_key "p-1" false) (mkWorld (gc_catalog [dead_ref]) []) =
      (Ok out, mkWorld after []) /\
    List.Forall2 (read_as (mkWorld (gc_catalog [dead_ref]) []) 0 builtin (Some "default")) [dead_ref] classified /\
    bt_get dep_key (resources after) = None.
Proof.
  destruct (gc_catalog_ok [dead_ref] eq_refl) as [log Hok].
  assert (get_with_meta (gc_catalog [dead_ref]) dep_key = Some (default (JNull, created_at 0) (get_with_meta (gc_catalog [dead_ref]) dep_key)))
    as Hg by (by vm_compute).
  destruct (default _ _) as [v m] eqn:Ev in Hg.
  assert (obj_uid v = Some "p-1" /\ obj_terminating v = false /\ owner_references v = Ok [dead_ref]) as (Hu & Ht & Ho).
  { replace v with ((default (JNull, created_at 0) (get_with_meta (gc_catalog [dead_ref]) dep_key)).1) by (by rewrite Ev). by vm_compute. }
  destruct (gc_settles None "born" builtin "now" dep_key v m "p-1" [dead_ref] (gc_catalog [dead_ref]) log Hok eq_refl eq_refl
    ltac:(done) Hg Hu Ht Ho ltac:(done)) as (out & after & Hc & _ & _ & Hall).
  assert (Forall (resolvable builtin (Some "default")) [dead_ref]) as Hres.
  { repeat constructor. by eexists _, _, _. }
  destruct (Hall Hres) as (classified & Hf & _). exists out, after, classified. split; [done |]. split; [done |].
  assert (negb (is_some (bt_get dep_key (resources (stored_catalog
    (collect None "born" builtin "now" (mkCandidate dep_key "p-1" false) (mkWorld (gc_catalog [dead_ref]) [])).2)))) = true) as Hn by (by vm_compute).
  rewrite Hc in Hn. cbn [snd stored_catalog] in Hn. by destruct (bt_get dep_key (resources after)).
Defined.
