(* ===== verification/Probe.v ===== *)
(** * The kubelet's probes

    [engenho-kubelet/src/probe.rs] and [env_ref.rs]: a container's liveness,
    readiness and startup probes, from the manifest to the tick that runs the due
    ones and decides readiness and restarts.

    Integers have their Rust widths: thresholds and streaks are [u32]s that
    saturate, a port is a [u16].  The container runtime and the network prober are
    a class of operations over a state of their own ([Prober]); an operation that
    outlives [tokio::time::timeout] answers [None].  Serialization is not
    modelled.

    The theorems compare the counters with the plain list of what a probe
    observed: the saturating counters, the latched gate and the blind streak are
    functions of that list alone, with the results that observed nothing left out;
    and a container is restarted only for a probe that observed its threshold of
    failures in a row, in a pod nobody is deleting. *)

From Stdlib Require Import Ascii String.
From stdpp Require Import base tactics option list strings numbers pretty.
From S2P Require Import Prelude Text BTreeMap Json Backoff.

Local Open Scope string_scope.
Local Open Scope Z_scope.

(** ** [$(VAR)] references ([env_ref.rs])

    The source walks whole characters; every byte it looks for is ASCII, so
    walking bytes copies the same text.  Each round consumes a byte at least: the
    length of the text is fuel enough. *)

Fixpoint expand_from (fuel : nat) (raw : string) (defined : btmap string string) : string :=
  match fuel, raw with
  | S fuel, String c rest =>
      if negb (Ascii.eqb c "$"%char) then String c (expand_from fuel rest defined)
      else
        match rest with
        | String "$"%char rest => String "$"%char (expand_from fuel rest defined)
        | String "("%char inner =>
            match split_once ")"%char inner with
            | Some (name, after) =>
                (match bt_get name defined with Some v => v | None => "$(" ++ name ++ ")" end) ++ expand_from fuel after defined
            | None => String "$"%char (expand_from fuel rest defined)
            end
        | _ => String "$"%char (expand_from fuel rest defined)
        end
  | _, _ => ""
  end.

Definition expand_env_refs (raw : string) (defined : btmap string string) : string :=
  expand_from (String.length raw) raw defined.

(** ** The typed border *)

Module ProbeKind.
Inductive t : Type := Liveness | Readiness | Startup.

#[global] Instance eq_dec : EqDecision t.
Proof. solve_decision. Defined.

Definition ALL : list t := [Startup; Readiness; Liveness].

Definition as_str (self : t) : string :=
  match self with Liveness => "liveness" | Readiness => "readiness" | Startup => "startup" end.

Definition field (self : t) : string :=
  match self with Liveness => "livenessProbe" | Readiness => "readinessProbe" | Startup => "startupProbe" end.
End ProbeKind.

Module PodLifecycle.
Inductive t : Type := Live | Terminating.

#[global] Instance eq_dec : EqDecision t.
Proof. solve_decision. Defined.

(** [PodLifecycle::of]. *)
Definition of_pod (pod : json) : t :=
  match jget "metadata" pod >>? jget "deletionTimestamp" with
  | None | Some JNull => Live
  | Some _ => Terminating
  end.
End PodLifecycle.

Definition retired (self : ProbeKind.t) (pod : PodLifecycle.t) : bool :=
  match self, pod with
  | ProbeKind.Liveness, PodLifecycle.Terminating | ProbeKind.Startup, PodLifecycle.Terminating => true
  | _, _ => false
  end.

Definition may_run (self : ProbeKind.t) (started : bool) (pod : PodLifecycle.t) : bool :=
  negb (retired self pod) &&
  match self with
  | ProbeKind.Startup => negb started
  | ProbeKind.Liveness | ProbeKind.Readiness => started
  end.

Module HttpScheme.
Inductive t : Type := Http | Https.

Definition from_k8s (s : option string) : t :=
  match option_map to_ascii_uppercase s with
  | Some u => if eqb u "HTTPS" then Https else Http
  | None => Http
  end.

Definition as_str (self : t) : string := match self with Http => "http" | Https => "https" end.
End HttpScheme.

(** [NonZeroU16]. *)
Record ProbePort : Type := mkPort { port_get : Z }.

Definition port_new (port : Z) : option ProbePort := if port =? 0 then None else Some (mkPort port).

Module UnresolvablePort.
Inductive t : Type :=
  | NoSuchName (name : string)
  | OutOfRange (number : Z)
  | Missing
  | NotIntOrString.
End UnresolvablePort.

Module ProbeHandler.
Inductive t : Type :=
  | Exec (command : list string)
  | HttpGet (path : string) (port : result ProbePort UnresolvablePort.t) (scheme : HttpScheme.t)
      (host : option string) (headers : list (string * string))
  | TcpSocket (port : result ProbePort UnresolvablePort.t) (host : option string).
End ProbeHandler.

Record ProbeTiming : Type := mkTiming {
  initial_delay : Duration;
  period : Duration;
  timeout : Duration;
  success_threshold : Z;
  failure_threshold : Z
}.

Definition k8s_defaults : ProbeTiming := mkTiming 0 (from_secs 10) (from_secs 1) 1 3.

Record ProbeSpec : Type := mkSpec { kind : ProbeKind.t; handler : ProbeHandler.t; timing : ProbeTiming }.

Module ProbeParseError.
Inductive t : Type :=
  | NoHandler
  | EmptyExecCommand
  | UnsupportedHandler (kind : string).
End ProbeParseError.

(** ** Parsing *)

Definition container_port (p : json) : option (string * Z) :=
  name ← jget "name" p >>? as_str;
  number ← jget "containerPort" p >>? as_i64;
  if (0 <=? number) && (number <=? 65535) then Some (name, number) else None.

Definition container_ports (container : json) : list (string * Z) :=
  default [] (option_map (omap container_port) (jget "ports" container >>? as_array)).

Definition env_entry (e : json) : option (string * string) :=
  name ← jget "name" e >>? as_str; Some (name, default "" (jget "value" e >>? as_str)).

Definition literal_env (container : json) : btmap string string :=
  default [] (option_map (fun entries => bt_of_list (omap env_entry entries)) (jget "env" container >>? as_array)).

Definition resolve_port (port : option json) (container_ports : list (string * Z)) : result ProbePort UnresolvablePort.t :=
  let? number :=
    (match port with
     | None | Some JNull => Err UnresolvablePort.Missing
     | Some (JString name) =>
         match List.find (fun e => eqb (fst e) name) container_ports with
         | Some (_, number) => Ok number
         | None =>
             match parse_signed Word.i64_min Word.i64_max name with
             | Some number => Ok number
             | None => Err (UnresolvablePort.NoSuchName name)
             end
         end
     | Some other => match as_i64 other with Some number => Ok number | None => Err UnresolvablePort.NotIntOrString end
     end) in
  match (if (0 <=? number) && (number <=? 65535) then port_new number else None) with
  | Some port => Ok port
  | None => Err (UnresolvablePort.OutOfRange number)
  end.

(** The positive integer at a field; [None] where it is absent, zero, negative
    or not an integer. *)
Definition set_field (probe : json) (key : string) : option Z :=
  v ← jget key probe >>? as_i64; if 0 <? v then Some v else None.

Definition secs_field (probe : json) (key : string) (dflt : Duration) : Duration :=
  default dflt (option_map from_secs (set_field probe key)).

Definition count_field (probe : json) (key : string) (dflt : Z) : Z :=
  default dflt (set_field probe key >>? fun v => if v <=? Word.u32_max then Some v else None).

Definition parse_timing (kind : ProbeKind.t) (probe : json) : ProbeTiming :=
  let d := k8s_defaults in
  mkTiming (secs_field probe "initialDelaySeconds" (initial_delay d))
    (secs_field probe "periodSeconds" (period d))
    (secs_field probe "timeoutSeconds" (timeout d))
    (match kind with
     | ProbeKind.Liveness | ProbeKind.Startup => 1
     | ProbeKind.Readiness => count_field probe "successThreshold" (success_threshold d)
     end)
    (count_field probe "failureThreshold" (failure_threshold d)).

Definition header_entry (h : json) : option (string * string) :=
  n ← jget "name" h >>? as_str; v ← jget "value" h >>? as_str; Some (n, v).

Definition host_field (action : json) : option string :=
  jget "host" action >>? as_str >>? fun h => if eqb h "" then None else Some h.

Definition from_k8s (kind : ProbeKind.t) (probe : json) (container_ports : list (string * Z))
  : result ProbeSpec ProbeParseError.t :=
  let timing := parse_timing kind probe in
  let? handler :=
    (match jget "exec" probe with
     | Some exec =>
         match default [] (option_map (omap as_str) (jget "command" exec >>? as_array)) with
         | [] => Err ProbeParseError.EmptyExecCommand
         | command => Ok (ProbeHandler.Exec command)
         end
     | None =>
         match jget "httpGet" probe with
         | Some http =>
             Ok (ProbeHandler.HttpGet
               (default "/" (jget "path" http >>? as_str))
               (resolve_port (jget "port" http) container_ports)
               (HttpScheme.from_k8s (jget "scheme" http >>? as_str))
               (host_field http)
               (default [] (option_map (omap header_entry) (jget "httpHeaders" http >>? as_array))))
         | None =>
             match jget "tcpSocket" probe with
             | Some tcp => Ok (ProbeHandler.TcpSocket (resolve_port (jget "port" tcp) container_ports) (host_field tcp))
             | None =>
                 if is_some (jget "grpc" probe) then Err (ProbeParseError.UnsupportedHandler "grpc")
                 else Err ProbeParseError.NoHandler
             end
         end
     end) in
  Ok (mkSpec kind handler timing).

Definition from_container (k : ProbeKind.t) (container : json) : result (option ProbeSpec) ProbeParseError.t :=
  match jget (ProbeKind.field k) container with
  | None | Some JNull => Ok None
  | Some probe =>
      let? spec := from_k8s k probe (container_ports container) in
      match handler spec with
      | ProbeHandler.Exec command =>
          let env := literal_env container in
          Ok (Some (mkSpec (kind spec) (ProbeHandler.Exec (map (fun arg => expand_env_refs arg env) command)) (timing spec)))
      | _ => Ok (Some spec)
      end
  end.

(** ** The counters *)

Module BlindCause.
Inductive t : Type := NoTargetAddress | RuntimeUnavailable | ProberSetup | UnresolvablePort.

#[global] Instance eq_dec : EqDecision t.
Proof. solve_decision. Defined.

Definition reason (self : t) : string :=
  match self with
  | NoTargetAddress => "NoTargetAddress"
  | RuntimeUnavailable => "RuntimeUnavailable"
  | ProberSetup => "ProberSetup"
  | UnresolvablePort => "UnresolvablePort"
  end.

Definition text (self : t) : string :=
  match self with
  | NoTargetAddress => "the pod reports no address to dial"
  | RuntimeUnavailable => "the container runtime could not run the probe"
  | ProberSetup => "the prober could not form the request"
  | UnresolvablePort => "the probe's port does not resolve to a port of the container"
  end.
End BlindCause.

Record BlindStreak : Type := mkBlind { blind_cause : BlindCause.t; consecutive : Z }.

Definition extend (previous : option BlindStreak) (cause : BlindCause.t) : BlindStreak :=
  mkBlind cause (match previous with None => 1 | Some p => Word.u32_saturate (consecutive p + 1) end).

Record BlindNotice : Type := mkNotice { n_container : string; n_kind : ProbeKind.t; n_cause : BlindCause.t }.

Definition notice_text (self : BlindNotice) : string :=
  ProbeKind.as_str (n_kind self) ++ " probe of container " ++ n_container self ++ " observed nothing: " ++
  BlindCause.text (n_cause self) ++ "; the result was discarded and the container will not be restarted on it".

Record ProbeRuntime : Type := mkRuntime {
  consecutive_successes : Z;
  consecutive_failures : Z;
  last_run : option Instant;
  started_at : Instant;
  gate_satisfied : bool;
  blind : option BlindStreak
}.

Definition runtime_new (now : Instant) : ProbeRuntime := mkRuntime 0 0 None now false None.

Definition consecutive_blind (self : ProbeRuntime) : Z :=
  match blind self with Some b => consecutive b | None => 0 end.

Definition sustained_blindness (self : ProbeRuntime) (spec : ProbeSpec) : option BlindCause.t :=
  b ← blind self; if failure_threshold (timing spec) <=? consecutive b then Some (blind_cause b) else None.

Definition past_initial_delay (self : ProbeRuntime) (spec : ProbeSpec) (now : Instant) : bool :=
  initial_delay (timing spec) <=? since now (started_at self).

Definition is_due (self : ProbeRuntime) (spec : ProbeSpec) (now : Instant) : bool :=
  if negb (past_initial_delay self spec now) then false
  else match last_run self with None => true | Some last => period (timing spec) <=? since now last end.

Definition next_due_in (self : ProbeRuntime) (spec : ProbeSpec) (now : Instant) : Duration :=
  let since_start := since now (started_at self) in
  if since_start <? initial_delay (timing spec) then Z.max 0 (initial_delay (timing spec) - since_start)
  else match last_run self with None => 0 | Some last => Z.max 0 (period (timing spec) - since now last) end.

Definition container_started (is_running : bool) (startup : option ProbeRuntime) (pod : PodLifecycle.t) : bool :=
  is_running && (retired ProbeKind.Startup pod || is_none_or gate_satisfied startup).

(** ** Observation and verdict *)

Module ProbeObservation.
Inductive t : Type := Success | Failure | Blind (cause : BlindCause.t).

#[global] Instance eq_dec : EqDecision t.
Proof. solve_decision. Defined.
End ProbeObservation.

Module TripKind.
Inductive t : Type := Liveness | Startup.

#[global] Instance eq_dec : EqDecision t.
Proof. solve_decision. Defined.

Definition text (self : t) : string := match self with Liveness => "liveness" | Startup => "startup" end.
End TripKind.

Record ProbeTrip : Type := mkTrip { trip_kind : TripKind.t; trip_failures : Z }.

Definition trip_text (self : ProbeTrip) : string :=
  TripKind.text (trip_kind self) ++ " probe failed " ++ pretty (trip_failures self) ++ " consecutive times".

Record ProbeVerdict : Type := mkVerdict {
  ready : bool;
  trip : option ProbeTrip;
  startup_done : bool;
  entered_blind : option BlindCause.t
}.

Definition record_observed_failure (spec : ProbeSpec) (rt : ProbeRuntime) : option ProbeTrip * ProbeRuntime :=
  let failures := Word.u32_saturate (consecutive_failures rt + 1) in
  let rt := mkRuntime 0 failures (last_run rt) (started_at rt) (gate_satisfied rt) (blind rt) in
  if failures <? failure_threshold (timing spec) then (None, rt)
  else
    match kind spec with
    | ProbeKind.Readiness => (None, mkRuntime 0 failures (last_run rt) (started_at rt) false (blind rt))
    | ProbeKind.Liveness => (Some (mkTrip TripKind.Liveness failures), rt)
    | ProbeKind.Startup => (Some (mkTrip TripKind.Startup failures), rt)
    end.

Definition fold_probe_observation (spec : ProbeSpec) (rt : ProbeRuntime) (obs : ProbeObservation.t) (now : Instant)
  : ProbeVerdict * ProbeRuntime :=
  let '(tripped, entered, rt) :=
    match obs with
    | ProbeObservation.Success =>
        let successes := Word.u32_saturate (consecutive_successes rt + 1) in
        (None, None, mkRuntime successes 0 (Some now) (started_at rt)
          (if success_threshold (timing spec) <=? successes then true else gate_satisfied rt) None)
    | ProbeObservation.Failure =>
        let '(t, rt) := record_observed_failure spec
          (mkRuntime (consecutive_successes rt) (consecutive_failures rt) (Some now) (started_at rt) (gate_satisfied rt) None) in
        (t, None, rt)
    | ProbeObservation.Blind cause =>
        (None, (if is_none (blind rt) then Some cause else None),
         mkRuntime (consecutive_successes rt) (consecutive_failures rt) (Some now) (started_at rt) (gate_satisfied rt)
           (Some (extend (blind rt) cause)))
    end in
  (mkVerdict (match kind spec with ProbeKind.Readiness => gate_satisfied rt | _ => false end) tripped
     (match kind spec with ProbeKind.Startup => gate_satisfied rt | _ => false end) entered, rt).

Definition aggregate_container_readiness (startup_done readiness_ready has_startup has_readiness is_running : bool) : bool * bool :=
  if has_startup && negb startup_done then (false, false)
  else (is_running && (negb has_readiness || readiness_ready), true).

(** ** The runs *)

Definition PROBE_ATTEMPTS : nat := 3.

Record HttpProbeTarget : Type := mkHttpTarget {
  ht_host : string; ht_port : Z; ht_path : string; ht_scheme : HttpScheme.t; ht_headers : list (string * string); ht_timeout : Duration
}.

Record TcpProbeTarget : Type := mkTcpTarget { tt_host : string; tt_port : Z; tt_timeout : Duration }.

Module ProbeIoError.
Inductive setup_stage : Type := Url | Client | Request.

Inductive t : Type :=
  | Connect (target reason : string)
  | Timeout (target : string)
  | Io (text : string)
  | Setup (stage : setup_stage) (reason : string).
End ProbeIoError.

(** What probes ask of the container runtime ([ContainerRuntime::exec], by its
    exit code or the text of its error) and of the network ([NetProber]), on a
    state of theirs. *)
Class Prober (E : Type) : Type := {
  exec : string -> list string -> Duration -> E -> option (result Z string) * E;
  http_get : HttpProbeTarget -> E -> option (result Z ProbeIoError.t) * E;
  tcp_connect : TcpProbeTarget -> E -> option (result unit ProbeIoError.t) * E
}.

Definition http_status_observation (status : Z) : ProbeObservation.t :=
  if (200 <=? status) && (status <? 400) then ProbeObservation.Success else ProbeObservation.Failure.

Definition net_error_observation (e : ProbeIoError.t) : ProbeObservation.t :=
  match e with
  | ProbeIoError.Connect _ _ | ProbeIoError.Timeout _ | ProbeIoError.Io _ => ProbeObservation.Failure
  | ProbeIoError.Setup _ _ => ProbeObservation.Blind BlindCause.ProberSetup
  end.

(** The probes one container declares. *)
Definition Slot : Type := option (ProbeSpec * ProbeRuntime).

Record ContainerProbes : Type := mkProbes { liveness : Slot; readiness : Slot; startup : Slot }.

Record ProbeTarget : Type := mkTarget { container_id : string; pod_ip : option string }.

Record ProbeTick : Type := mkTick {
  t_ready : bool;
  t_trip : option ProbeTrip;
  t_ran : list ProbeKind.t;
  t_entered_blind : list (ProbeKind.t * BlindCause.t);
  t_sustained_blind : option (ProbeKind.t * BlindCause.t);
  t_next_due_in : option Duration
}.

Definition empty_tick : ProbeTick := mkTick false None [] [] None None.

Definition probes_empty (self : ContainerProbes) : bool :=
  is_none (liveness self) && is_none (readiness self) && is_none (startup self).

Definition reset_slot (now : Instant) (s : Slot) : Slot := option_map (fun p => (p.1, runtime_new now)) s.

Definition probes_reset (self : ContainerProbes) (now : Instant) : ContainerProbes :=
  mkProbes (reset_slot now (liveness self)) (reset_slot now (readiness self)) (reset_slot now (startup self)).

Definition slot_blindness (s : Slot) : option (ProbeKind.t * BlindCause.t) :=
  p ← s; c ← sustained_blindness p.2 p.1; Some (kind p.1, c).

Definition probes_blindness (self : ContainerProbes) : option (ProbeKind.t * BlindCause.t) :=
  match slot_blindness (startup self) with
  | Some b => Some b
  | None => match slot_blindness (readiness self) with Some b => Some b | None => slot_blindness (liveness self) end
  end.

Definition slot_runtime (s : Slot) : option ProbeRuntime := option_map snd s.

Definition started (self : ContainerProbes) (pod : PodLifecycle.t) : bool :=
  container_started true (slot_runtime (startup self)) pod.

(** What a slot records on the tick once its probe ran. *)
Definition note_run (k : ProbeKind.t) (v : ProbeVerdict) (t : ProbeTick) : ProbeTick :=
  mkTick (t_ready t) (t_trip t) (t_ran t ++ [k])
    (t_entered_blind t ++ match entered_blind v with Some cause => [(k, cause)] | None => [] end)
    (t_sustained_blind t) (t_next_due_in t).

Definition note_due (due : Duration) (t : ProbeTick) : ProbeTick :=
  mkTick (t_ready t) (t_trip t) (t_ran t) (t_entered_blind t) (t_sustained_blind t)
    (Some (match t_next_due_in t with None => due | Some soonest => Z.min soonest due end)).

Section Runs.
Context {E : Type} `{Prober E}.

Definition run_attempt (spec : ProbeSpec) (target : ProbeTarget) (e : E) : ProbeObservation.t * E :=
  let limit := timeout (timing spec) in
  match handler spec with
  | ProbeHandler.Exec command =>
      let '(answer, e) := exec (container_id target) command limit e in
      (match answer with
       | Some (Ok exit_code) => if exit_code =? 0 then ProbeObservation.Success else ProbeObservation.Failure
       | Some (Err _) => ProbeObservation.Blind BlindCause.RuntimeUnavailable
       | None => ProbeObservation.Failure
       end, e)
  | ProbeHandler.HttpGet path port scheme host headers =>
      match port with
      | Err _ => (ProbeObservation.Blind BlindCause.UnresolvablePort, e)
      | Ok port =>
          match (match host with Some h => Some h | None => pod_ip target end) with
          | None => (ProbeObservation.Blind BlindCause.NoTargetAddress, e)
          | Some dial =>
              let '(answer, e) := http_get (mkHttpTarget dial (port_get port) path scheme headers limit) e in
              (match answer with
               | Some (Ok status) => http_status_observation status
               | Some (Err why) => net_error_observation why
               | None => ProbeObservation.Failure
               end, e)
          end
      end
  | ProbeHandler.TcpSocket port host =>
      match port with
      | Err _ => (ProbeObservation.Blind BlindCause.UnresolvablePort, e)
      | Ok port =>
          match (match host with Some h => Some h | None => pod_ip target end) with
          | None => (ProbeObservation.Blind BlindCause.NoTargetAddress, e)
          | Some dial =>
              let '(answer, e) := tcp_connect (mkTcpTarget dial (port_get port) limit) e in
              (match answer with
               | Some (Ok _) => ProbeObservation.Success
               | Some (Err why) => net_error_observation why
               | None => ProbeObservation.Failure
               end, e)
          end
      end
  end.

(** [more] attempts may follow this one. *)
Fixpoint attempts (more : nat) (spec : ProbeSpec) (target : ProbeTarget) (e : E) : ProbeObservation.t * E :=
  match more with
  | O => run_attempt spec target e
  | S more =>
      let '(o, e) := run_attempt spec target e in
      match o with
      | ProbeObservation.Blind _ => attempts more spec target e
      | _ => (o, e)
      end
  end.

Definition run_handler (spec : ProbeSpec) (target : ProbeTarget) (e : E) : ProbeObservation.t * E :=
  attempts (PROBE_ATTEMPTS - 1) spec target e.

(** ** The tick *)

Definition run_slot (s : Slot) (started : bool) (pod : PodLifecycle.t) (target : ProbeTarget) (now : Instant) (tick : ProbeTick) (e : E)
  : option ProbeVerdict * Slot * ProbeTick * E :=
  match s with
  | None => (None, None, tick, e)
  | Some (spec, rt) =>
      if negb (may_run (kind spec) started pod) then (None, s, tick, e)
      else if is_due rt spec now then
        let '(obs, e) := run_handler spec target e in
        let '(verdict, rt) := fold_probe_observation spec rt obs now in
        (Some verdict, Some (spec, rt), note_due (next_due_in rt spec now) (note_run (kind spec) verdict tick), e)
      else (None, s, note_due (next_due_in rt spec now) tick, e)
  end.

Definition tick (self : ContainerProbes) (target : ProbeTarget) (pod : PodLifecycle.t) (now : Instant) (e : E)
  : ProbeTick * ContainerProbes * E :=
  if probes_empty self then (mkTick true None [] [] None None, self, e)
  else
    let '(v, s, t, e) := run_slot (startup self) (started self pod) pod target now empty_tick e in
    let startup_trip := v >>? trip in
    let self := mkProbes (liveness self) (readiness self) s in
    let is_started := started self pod in
    let '(_, r, t, e) := run_slot (readiness self) is_started pod target now t e in
    let '(v, l, t, e) := run_slot (liveness self) is_started pod target now t e in
    let liveness_trip := v >>? trip in
    let self := mkProbes l r s in
    let readiness_ready := is_some_and gate_satisfied (slot_runtime r) in
    let '(is_ready, may_restart_on_liveness) :=
      aggregate_container_readiness (started self pod) readiness_ready (is_some s) (is_some r) true in
    (mkTick is_ready
       (match startup_trip with Some x => Some x | None => if may_restart_on_liveness then liveness_trip else None end)
       (t_ran t) (t_entered_blind t) (probes_blindness self) (t_next_due_in t), self, e).

End Runs.

(** ** A container's probes ([Kubelet::parse_container_probes]) *)

(** [KubeletError::InvalidProbe]. *)
Record InvalidProbe : Type := mkInvalid { ip_pod : string; ip_kind : ProbeKind.t; ip_source : ProbeParseError.t }.

Definition parse_one (container : json) (pod_label : string) (now : Instant) (k : ProbeKind.t) : result Slot InvalidProbe :=
  match from_container k container with
  | Err source => Err (mkInvalid pod_label k source)
  | Ok None => Ok None
  | Ok (Some spec) => Ok (Some (spec, runtime_new now))
  end.

Definition parse_container_probes (container : json) (pod_label : string) (now : Instant) : result ContainerProbes InvalidProbe :=
  let? l := parse_one container pod_label now ProbeKind.Liveness in
  let? r := parse_one container pod_label now ProbeKind.Readiness in
  let? s := parse_one container pod_label now ProbeKind.Startup in
  Ok (mkProbes l r s).

(** ** What a probe observed

    The newest first. *)

Definition answer (o : ProbeObservation.t) : bool :=
  match o with ProbeObservation.Blind _ => false | _ => true end.

(** How many of the same answer in a row, the results that observed nothing left
    out. *)
Fixpoint streak (o : ProbeObservation.t) (h : list ProbeObservation.t) : Z :=
  match h with
  | [] => 0
  | x :: h => if negb (answer x) then streak o h else if eqb x o then 1 + streak o h else 0
  end.

Fixpoint blind_run (h : list ProbeObservation.t) : Z :=
  match h with ProbeObservation.Blind _ :: h => 1 + blind_run h | _ => 0 end.

Definition won (spec : ProbeSpec) (h : list ProbeObservation.t) : bool :=
  success_threshold (timing spec) <=? streak ProbeObservation.Success h.

Definition lost (spec : ProbeSpec) (h : list ProbeObservation.t) : bool :=
  eqb (kind spec) ProbeKind.Readiness && (failure_threshold (timing spec) <=? streak ProbeObservation.Failure h).

(** The gate, with no state: at some point enough successes stood in a row, and a
    readiness probe has not since seen its threshold of failures in a row. *)
Definition latched (spec : ProbeSpec) (h : list ProbeObservation.t) : Prop :=
  exists later earlier, h = (later ++ earlier)%list /\ won spec earlier = true /\
    forall l1 l2, later = (l1 ++ l2)%list -> l2 <> [] -> lost spec (l2 ++ earlier)%list = false.

(** What the counters hold after the observations [h]. *)
Record summarises (spec : ProbeSpec) (h : list ProbeObservation.t) (rt : ProbeRuntime) : Prop := {
  sum_successes : consecutive_successes rt = Word.u32_saturate (streak ProbeObservation.Success h);
  sum_failures : consecutive_failures rt = Word.u32_saturate (streak ProbeObservation.Failure h);
  sum_gate : gate_satisfied rt = true <-> latched spec h;
  sum_blind : blind rt = match h with
    | ProbeObservation.Blind c :: _ => Some (mkBlind c (Word.u32_saturate (blind_run h)))
    | _ => None
    end
}.

(** What one observation calls for. *)
Definition due_trip (spec : ProbeSpec) (h : list ProbeObservation.t) : option ProbeTrip :=
  match h with
  | ProbeObservation.Failure :: _ =>
      let n := streak ProbeObservation.Failure h in
      if failure_threshold (timing spec) <=? n then
        match kind spec with
        | ProbeKind.Readiness => None
        | ProbeKind.Liveness => Some (mkTrip TripKind.Liveness (Word.u32_saturate n))
        | ProbeKind.Startup => Some (mkTrip TripKind.Startup (Word.u32_saturate n))
        end
      else None
  | _ => None
  end.

Definition thresholds_ok (spec : ProbeSpec) : Prop :=
  1 <= success_threshold (timing spec) <= Word.u32_max /\ 1 <= failure_threshold (timing spec) <= Word.u32_max /\
  (kind spec <> ProbeKind.Readiness -> success_threshold (timing spec) = 1).

Lemma streak_nonneg o h : 0 <= streak o h.
Proof. induction h as [|x h IH]; cbn [streak]; [lia |]. destruct (answer x); cbn [negb]; [| done]. destruct (eqb x o); lia. Qed.

Lemma blind_run_nonneg h : 0 <= blind_run h.
Proof. induction h as [|[] h IH]; cbn [blind_run]; lia. Qed.

Lemma saturate_step n : 0 <= n -> Word.u32_saturate (Word.u32_saturate n + 1) = Word.u32_saturate (1 + n).
Proof. unfold Word.u32_saturate, Word.saturate, Word.u32_max. lia. Qed.

Lemma saturate_le t n : 1 <= t <= Word.u32_max -> (t <=? Word.u32_saturate n) = (t <=? n).
Proof. unfold Word.u32_saturate, Word.saturate. intros. destruct (t <=? n) eqn:E; [apply Z.leb_le in E; apply Z.leb_le | apply Z.leb_gt in E; apply Z.leb_gt]; lia. Qed.

Lemma latched_cons spec o h : latched spec (o :: h) <-> won spec (o :: h) = true \/ (latched spec h /\ lost spec (o :: h) = false).
Proof.
  split.
  - intros ([|x later] & earlier & Hh & Hw & Hl); [cbn in Hh; subst; by left |]. cbn in Hh. injection Hh as <- ->. right. split.
    + exists later, earlier. split_and!; [done | done |]. intros l1 l2 -> Hne. by apply (Hl (o :: l1) l2).
    + by apply (Hl [] (o :: later)).
  - intros [Hw | [(later & earlier & -> & Hw & Hl) Hn]]; [by exists [], (o :: h); split_and!; [| | intros [] [] [=]] |].
    exists (o :: later), earlier. split_and!; [done | done |]. intros [|x l1] l2 Hh Hne; cbn in Hh; [by subst |].
    injection Hh as <- ->. by apply (Hl l1).
Qed.

Lemma latched_won spec h : won spec h = true -> latched spec h.
Proof. intros Hw. exists [], h. split_and!; [done | done |]. by intros [] [] [=]. Qed.

Lemma latched_lost spec h : latched spec h -> won spec h = true \/ lost spec h = false.
Proof. intros ([|x later] & earlier & -> & Hw & Hl); [by left |]. right. by apply (Hl [] (x :: later)). Qed.

Lemma latched_blind spec c h : latched spec (ProbeObservation.Blind c :: h) <-> latched spec h.
Proof.
  rewrite latched_cons. change (won spec (ProbeObservation.Blind c :: h)) with (won spec h).
  change (lost spec (ProbeObservation.Blind c :: h)) with (lost spec h). split.
  - intros [Hw|[Hl _]]; [by apply latched_won | done].
  - intros Hl. destruct (latched_lost _ _ Hl); auto.
Qed.

Lemma latched_success spec h : thresholds_ok spec ->
  latched spec (ProbeObservation.Success :: h) <-> won spec (ProbeObservation.Success :: h) = true \/ latched spec h.
Proof.
  intros (_ & Hf & _). rewrite latched_cons. assert (lost spec (ProbeObservation.Success :: h) = false) as ->; [| tauto].
  unfold lost. change (streak ProbeObservation.Failure (ProbeObservation.Success :: h)) with 0.
  rewrite (proj2 (Z.leb_gt _ _)) by lia. apply andb_false_r.
Qed.

Lemma latched_failure spec h : thresholds_ok spec ->
  latched spec (ProbeObservation.Failure :: h) <-> latched spec h /\ lost spec (ProbeObservation.Failure :: h) = false.
Proof.
  intros (Hs & _). rewrite latched_cons. assert (won spec (ProbeObservation.Failure :: h) = false) as ->; [| naive_solver].
  unfold won. change (streak ProbeObservation.Success (ProbeObservation.Failure :: h)) with 0. apply Z.leb_gt. lia.
Qed.

Lemma runtime_summarises spec now : thresholds_ok spec -> summarises spec [] (runtime_new now).
Proof.
  intros (Hs & _). split; try done. cbn. split; [done |]. intros (later & earlier & Hh & Hw & _).
  symmetry in Hh. apply app_nil in Hh as [-> ->]. unfold won in Hw. cbn in Hw. apply Z.leb_le in Hw. lia.
Qed.

(** ** One observation *)

Definition verdict_of (spec : ProbeSpec) (o : ProbeObservation.t) (h : list ProbeObservation.t) (gate : bool) : ProbeVerdict :=
  mkVerdict (eqb (kind spec) ProbeKind.Readiness && gate) (due_trip spec (o :: h)) (eqb (kind spec) ProbeKind.Startup && gate)
    (match o with ProbeObservation.Blind c => if blind_run h =? 0 then Some c else None | _ => None end).

Lemma fold_summarises spec h rt o now : thresholds_ok spec -> summarises spec h rt ->
  exists rt', fold_probe_observation spec rt o now = (verdict_of spec o h (gate_satisfied rt'), rt') /\
    summarises spec (o :: h) rt' /\ last_run rt' = Some now /\ started_at rt' = started_at rt.
Proof.
  intros Ht [Hsu Hfa Hg Hb]. pose proof (streak_nonneg ProbeObservation.Success h) as Hs0. pose proof (streak_nonneg ProbeObservation.Failure h) as Hf0.
  pose proof Ht as (Hs & Hf & _). destruct o as [| |c]; unfold fold_probe_observation.
  - cbn zeta. rewrite Hsu, saturate_step by done. eexists. split; [unfold verdict_of; by destruct (kind spec) |]. split_and!; try done.
    split; [done | done | | done]. cbn [gate_satisfied]. rewrite latched_success by done. unfold won. cbn [streak answer negb]. rewrite eqb_refl.
    rewrite saturate_le by done. destruct (success_threshold _ <=? _); [tauto |]. rewrite Hg. naive_solver.
  - unfold record_observed_failure. cbn zeta. cbn [consecutive_failures]. rewrite Hfa, saturate_step by done.
    assert (streak ProbeObservation.Failure (ProbeObservation.Failure :: h) = 1 + streak ProbeObservation.Failure h) as Hst by done.
    pose proof (latched_failure spec h Ht) as Hl. unfold lost in Hl. rewrite Hst in Hl.
    rewrite Z.ltb_antisym, saturate_le by done.
    destruct (failure_threshold (timing spec) <=? 1 + streak ProbeObservation.Failure h) eqn:Ef; cbn [negb].
    + unfold verdict_of, due_trip. rewrite Hst, Ef. destruct (kind spec) eqn:Ek; eexists; (split; [done |]); split_and!; try done;
        (split; [done | by rewrite Hst | | done]); cbn [gate_satisfied]; rewrite Hl; naive_solver.
    + unfold verdict_of, due_trip. rewrite Hst, Ef. eexists. split; [by destruct (kind spec) |]. split_and!; try done.
      split; [done | by rewrite Hst | | done]. cbn [gate_satisfied]. rewrite Hl, andb_false_r. naive_solver.
  - eexists (mkRuntime _ _ (Some now) (started_at rt) (gate_satisfied rt) (Some (extend (blind rt) c))). pose proof (blind_run_nonneg h) as Hb0.
    split; [unfold verdict_of, due_trip; rewrite Hb |].
    + destruct h as [|[] h]; cbn [blind_run] in *; try by destruct (kind spec).
      pose proof (blind_run_nonneg h). rewrite (proj2 (Z.eqb_neq _ _)) by lia. by destruct (kind spec).
    + split_and!; try done. split; [done | done | by rewrite latched_blind |]. cbn [blind]. rewrite Hb. f_equal.
      destruct h as [|[] h]; try done. unfold extend. cbn [consecutive].
      change (blind_run (ProbeObservation.Blind c :: ?l)) with (1 + blind_run l). by rewrite saturate_step.
Qed.

(** ** Parsed probes *)

Lemma count_field_range probe key d : 1 <= d <= Word.u32_max -> 1 <= count_field probe key d <= Word.u32_max.
Proof.
  intros Hd. unfold count_field, set_field. destruct (jget key probe >>? as_i64) as [v|]; [| done]. cbn [mbind option_bind].
  destruct (0 <? v) eqn:E; [| done]. cbn [mbind option_bind]. apply Z.ltb_lt in E.
  destruct (v <=? Word.u32_max) eqn:E2; [| done]. apply Z.leb_le in E2. cbn. lia.
Qed.

Lemma parse_timing_ok k probe h : thresholds_ok (mkSpec k h (parse_timing k probe)).
Proof.
  assert (1 <= 1 <= Word.u32_max /\ 1 <= 3 <= Word.u32_max) as [H1 H3] by (unfold Word.u32_max; lia).
  split_and!; cbn [timing parse_timing success_threshold failure_threshold k8s_defaults kind];
    [by destruct k; try apply count_field_range | by destruct k; try apply count_field_range | by apply count_field_range ..| by destruct k].
Qed.

Lemma from_container_ok k container spec : from_container k container = Ok (Some spec) -> thresholds_ok spec /\ kind spec = k.
Proof.
  unfold from_container. destruct (jget _ container) as [probe|]; [| done].
  destruct (from_k8s k probe _) as [sp|] eqn:Ef; [| by destruct probe].
  assert (exists h, sp = mkSpec k h (parse_timing k probe)) as [h ->].
  { unfold from_k8s in Ef. apply result_bind_Ok in Ef as (h & _ & [= <-]). by exists h. }
  intros Hs. assert (exists h', spec = mkSpec k h' (parse_timing k probe)) as [h' ->]; [| split; [apply parse_timing_ok | done]].
  destruct probe; [done | ..]; cbn in Hs; destruct h; injection Hs as <-; by eexists.
Qed.

(** The counters after a list of observations, the oldest first. *)
Definition replay (spec : ProbeSpec) (now : Instant) (log : list (ProbeObservation.t * Instant)) : ProbeRuntime :=
  fold_left (fun rt e => (fold_probe_observation spec rt e.1 e.2).2) log (runtime_new now).

Lemma replay_summarises spec now log : thresholds_ok spec -> summarises spec (rev (map fst log)) (replay spec now log).
Proof.
  intros Ht. induction log as [|[o t] log IH] using rev_ind; [by apply runtime_summarises |].
  unfold replay. rewrite fold_left_app, map_app, rev_app_distr. cbn [fold_left fst snd map rev app].
  destruct (fold_summarises spec _ _ o t Ht IH) as (rt' & Heq & Hs & _). unfold replay in Heq. by rewrite Heq.
Qed.

(** (C22) What a probe answers is a function of what it observed and of nothing else.
    After any observations of any length, the next one trips exactly when it is a
    failure that completes the threshold in a row, results that observed nothing
    left out, and the probe is not a readiness probe; the gate is up exactly when
    enough successes stood in a row and a readiness probe has not since failed its
    threshold in a row; and a warning is raised exactly on the first of a run of
    results that observed nothing.  No saturation of the counters shows. *)
Theorem probe_follows_its_answers k container spec now log o t :
  from_container k container = Ok (Some spec) ->
  exists gate rt, fold_probe_observation spec (replay spec now log) o t = (verdict_of spec o (rev (map fst log)) gate, rt) /\
    (gate = true <-> latched spec (o :: rev (map fst log))).
Proof.
  intros Hp. apply from_container_ok in Hp as [Ht _].
  destruct (fold_summarises spec _ _ o t Ht (replay_summarises spec now log Ht)) as (rt & Heq & Hs & _).
  exists (gate_satisfied rt), rt. split; [done | apply (sum_gate _ _ _ Hs)].
Qed.

(** When a probe is due is when nothing is left to wait for. *)
Lemma due_at_zero rt spec now : is_due rt spec now = true <-> next_due_in rt spec now = 0.
Proof.
  unfold is_due, next_due_in, past_initial_delay. rewrite Z.leb_antisym.
  destruct (since now (started_at rt) <? initial_delay (timing spec)) eqn:E; cbn [negb].
  - apply Z.ltb_lt in E. split; [done | lia].
  - destruct (last_run rt); [| done]. rewrite Z.leb_le. lia.
Qed.

(** ** Ticks *)

Record Logs : Type := mkLogs {
  saw_liveness : list ProbeObservation.t; saw_readiness : list ProbeObservation.t; saw_startup : list ProbeObservation.t
}.

Definition no_logs : Logs := mkLogs [] [] [].

Definition logged (o : option ProbeObservation.t) (h : list ProbeObservation.t) : list ProbeObservation.t :=
  match o with Some o => o :: h | None => h end.

Section Ticks.
Context {E : Type} `{Prober E}.

(** What a slot observes, where it runs. *)
Definition slot_saw (s : Slot) (is_started : bool) (pod : PodLifecycle.t) (target : ProbeTarget) (now : Instant) (e : E)
  : option ProbeObservation.t :=
  match s with
  | Some (spec, rt) => if may_run (kind spec) is_started pod && is_due rt spec now then Some (run_handler spec target e).1 else None
  | None => None
  end.

(** The logs after a tick. *)
Definition logs_after (p : ContainerProbes) (lg : Logs) (target : ProbeTarget) (pod : PodLifecycle.t) (now : Instant) (e : E) : Logs :=
  let '(_, s, _, e1) := run_slot (startup p) (started p pod) pod target now empty_tick e in
  let st := started (mkProbes None None s) pod in
  let '(_, _, _, e2) := run_slot (readiness p) st pod target now empty_tick e1 in
  mkLogs (logged (slot_saw (liveness p) st pod target now e2) (saw_liveness lg))
    (logged (slot_saw (readiness p) st pod target now e1) (saw_readiness lg))
    (logged (slot_saw (startup p) (started p pod) pod target now e) (saw_startup lg)).

(** The probes of a container as they come to be: parsed, ticked whenever and
    whatever answers, and started afresh when the container is. *)
Inductive reached : ContainerProbes -> Logs -> Prop :=
  | reached_parsed container label now p : parse_container_probes container label now = Ok p -> reached p no_logs
  | reached_tick p lg target pod now e : reached p lg -> reached (tick p target pod now e).1.2 (logs_after p lg target pod now e)
  | reached_restart p lg now : reached p lg -> reached (probes_reset p now) no_logs.

Definition slot_ok (k : ProbeKind.t) (h : list ProbeObservation.t) (s : Slot) : Prop :=
  match s with
  | Some (spec, rt) => kind spec = k /\ thresholds_ok spec /\ summarises spec h rt
  | None => True
  end.

Record probes_ok (p : ContainerProbes) (lg : Logs) : Prop := {
  ok_liveness : slot_ok ProbeKind.Liveness (saw_liveness lg) (liveness p);
  ok_readiness : slot_ok ProbeKind.Readiness (saw_readiness lg) (readiness p);
  ok_startup : slot_ok ProbeKind.Startup (saw_startup lg) (startup p)
}.

(** What a slot does to its log, and the trip it gives. *)
Lemma run_slot_ok k h s is_started pod target now t e v s' t' e' :
  slot_ok k h s -> run_slot s is_started pod target now t e = (v, s', t', e') ->
  slot_ok k (logged (slot_saw s is_started pod target now e) h) s' /\ option_map fst s' = option_map fst s /\
  (v >>? trip) = (spec ← option_map fst s; o ← slot_saw s is_started pod target now e; due_trip spec (o :: h)).
Proof.
  intros Hok Hr. destruct s as [[spec rt]|]; [| by injection Hr as <- <- _ _]. destruct Hok as (Hk & Ht & Hs).
  unfold run_slot, slot_saw in *. destruct (may_run (kind spec) is_started pod); cbn [negb andb] in *; [| by injection Hr as <- <- _ _].
  destruct (is_due rt spec now); [| by injection Hr as <- <- _ _].
  destruct (run_handler spec target e) as [o e1]. destruct (fold_summarises spec h rt o now Ht Hs) as (rt' & Heq & Hs' & _).
  rewrite Heq in Hr. by injection Hr as <- <- _ _.
Qed.

(** The tick's own record does not steer a slot. *)
Lemma run_slot_record s is_started pod target now t1 t2 e :
  (run_slot s is_started pod target now t1 e).1.1 = (run_slot s is_started pod target now t2 e).1.1 /\
  (run_slot s is_started pod target now t1 e).2 = (run_slot s is_started pod target now t2 e).2.
Proof.
  unfold run_slot. destruct s as [[spec rt]|]; [| done]. destruct (negb _); [done |]. destruct (is_due _ _ _); [| done].
  destruct (run_handler _ _ _). by destruct (fold_probe_observation _ _ _ _).
Qed.

Lemma slot_saw_may k s is_started pod target now e o : (exists h, slot_ok k h s) -> slot_saw s is_started pod target now e = Some o ->
  may_run k is_started pod = true.
Proof.
  intros [h Hok]. destruct s as [[spec rt]|]; [| done]. destruct Hok as [<- _]. unfold slot_saw.
  by destruct (may_run _ _ _).
Qed.

(** A startup slot that no longer holds the container back. *)
Definition passed (s : Slot) (h : list ProbeObservation.t) : Prop :=
  match s with Some (spec, _) => latched spec h | None => True end.

Lemma started_passed k l r s h pod : slot_ok k h s ->
  started (mkProbes l r s) pod = true <-> pod = PodLifecycle.Terminating \/ passed s h.
Proof.
  unfold started, container_started. cbn [startup andb]. destruct s as [[spec rt]|]; cbn [slot_runtime option_map is_none_or passed snd]; intros Hok.
  - destruct Hok as (_ & _ & Hs). rewrite <-(sum_gate _ _ _ Hs). destruct pod; cbn [retired orb]; [naive_solver | tauto].
  - rewrite orb_true_r. tauto.
Qed.

(** The trip a slot calls for: of what it just observed on top of its log. *)
Definition slot_trip (s : Slot) (o : option ProbeObservation.t) (h : list ProbeObservation.t) : option ProbeTrip :=
  spec ← option_map fst s; o ← o; due_trip spec (o :: h).

Lemma ready_passed k r h : slot_ok k h r -> negb (is_some r) || is_some_and gate_satisfied (slot_runtime r) = true <-> passed r h.
Proof.
  destruct r as [[spec rt]|]; cbn [is_some negb orb slot_runtime option_map snd is_some_and passed]; [| done].
  intros (_ & _ & Hs). apply (sum_gate _ _ _ Hs).
Qed.

Lemma liveness_saw s h st pod target now e : slot_ok ProbeKind.Liveness h s ->
  is_some (slot_saw s st pod target now e) = true -> st = true /\ pod = PodLifecycle.Live.
Proof.
  intros Hok. destruct (slot_saw s st pod target now e) as [o|] eqn:Eo; [| done]. intros _.
  apply (slot_saw_may ProbeKind.Liveness) in Eo; [| by eexists]. unfold may_run in Eo. by destruct pod, st.
Qed.

Lemma startup_saw p h pod target now e : slot_ok ProbeKind.Startup h (startup p) ->
  is_some (slot_saw (startup p) (started p pod) pod target now e) = true -> pod = PodLifecycle.Live /\ ~ passed (startup p) h.
Proof.
  intros Hok. destruct (slot_saw _ _ _ _ _ _) as [o|] eqn:Eo; [| done]. intros _.
  apply (slot_saw_may ProbeKind.Startup) in Eo; [| by eexists]. pose proof (started_passed _ (liveness p) (readiness p) _ _ pod Hok) as Hp.
  destruct p as [pl pr ps]; cbn [liveness readiness startup] in *. unfold may_run in Eo. destruct pod; [| done]. split; [done |].
  intros Hpa. rewrite (proj2 Hp) in Eo; [done | by right].
Qed.

Lemma aggregate_started st ready (s r : Slot) (P : Prop) h : st = true <-> P \/ passed s h ->
  aggregate_container_readiness st ready (is_some s) (is_some r) true = if st then (negb (is_some r) || ready, true) else (false, false).
Proof.
  intros Hst. unfold aggregate_container_readiness. destruct s; [by destruct st |].
  assert (st = true) as -> by (apply Hst; by right). done.
Qed.

(** The whole tick on the logs. *)
Record tick_decides (p : ContainerProbes) (lg : Logs) (target : ProbeTarget) (pod : PodLifecycle.t) (now : Instant) (e : E)
    (t : ProbeTick) (p' : ContainerProbes) : Prop := {
  dec_ok : probes_ok p' (logs_after p lg target pod now e);
  dec_specs : option_map fst (liveness p') = option_map fst (liveness p) /\ option_map fst (readiness p') = option_map fst (readiness p) /\
    option_map fst (startup p') = option_map fst (startup p);
  dec_ready : t_ready t = true <->
    (pod = PodLifecycle.Terminating \/ passed (startup p') (saw_startup (logs_after p lg target pod now e))) /\
    passed (readiness p') (saw_readiness (logs_after p lg target pod now e));
  dec_trip : exists so lo, saw_startup (logs_after p lg target pod now e) = logged so (saw_startup lg) /\
    saw_liveness (logs_after p lg target pod now e) = logged lo (saw_liveness lg) /\
    (is_some so = true -> pod = PodLifecycle.Live /\ ~ passed (startup p) (saw_startup lg)) /\
    (is_some lo = true -> pod = PodLifecycle.Live /\ passed (startup p') (saw_startup (logs_after p lg target pod now e))) /\
    t_trip t = match slot_trip (startup p) so (saw_startup lg) with
               | Some x => Some x
               | None => slot_trip (liveness p) lo (saw_liveness lg)
               end
}.

Lemma tick_by_logs p lg target pod now e : probes_ok p lg ->
  tick_decides p lg target pod now e (tick p target pod now e).1.1 (tick p target pod now e).1.2.
Proof.
  intros [Hl Hr Hs]. unfold tick. destruct (probes_empty p) eqn:Ee.
  { unfold probes_empty in Ee. destruct p as [[] [] []]; try done. cbn [fst snd].
    split; [done | done | | exists None, None; split_and!; done]. unfold logs_after. cbn. tauto. }
  destruct (run_slot (startup p) (started p pod) pod target now empty_tick e) as [[[v1 s1] t1] e1] eqn:E1.
  cbn [liveness readiness startup]. set (st := started (mkProbes (liveness p) (readiness p) s1) pod).
  destruct (run_slot (readiness p) st pod target now t1 e1) as [[[v2 r2] t2] e2] eqn:E2.
  pose proof (run_slot_record (readiness p) st pod target now empty_tick t1 e1) as [Hrr Hre]. rewrite E2 in Hrr, Hre.
  destruct (run_slot (readiness p) st pod target now empty_tick e1) as [[[v2' r2'] t2'] e2'] eqn:E2'. cbn in Hrr, Hre. injection Hrr as -> ->. subst e2'.
  destruct (run_slot (liveness p) st pod target now t2 e2) as [[[v3 l3] t3] e3] eqn:E3.
  destruct (run_slot_ok _ _ _ _ _ _ _ _ _ _ _ _ _ Hs E1) as (Hs' & Hf1 & Ht1).
  destruct (run_slot_ok _ _ _ _ _ _ _ _ _ _ _ _ _ Hr E2) as (Hr' & Hf2 & _).
  destruct (run_slot_ok _ _ _ _ _ _ _ _ _ _ _ _ _ Hl E3) as (Hl' & Hf3 & Ht3).
  set (so := slot_saw (startup p) (started p pod) pod target now e) in *.
  set (lo := slot_saw (liveness p) st pod target now e2) in *. set (ro := slot_saw (readiness p) st pod target now e1) in *.
  change (started (mkProbes l3 r2 s1) pod) with st. pose proof (started_passed _ (liveness p) (readiness p) _ _ pod Hs') as Hst. fold st in Hst.
  pose proof (liveness_saw _ _ st pod target now e2 Hl) as Hlo. pose proof (startup_saw p _ pod target now e Hs) as Hso. fold so in Hso. fold lo in Hlo.
  rewrite (aggregate_started _ _ s1 r2 _ _ Hst).
  assert ((v3 >>? trip) = slot_trip (liveness p) lo (saw_liveness lg)) as Ht3' by exact Ht3.
  assert ((v1 >>? trip) = slot_trip (startup p) so (saw_startup lg)) as Ht1' by exact Ht1. rewrite Ht3', Ht1'.
  assert (logs_after p lg target pod now e =
    mkLogs (logged lo (saw_liveness lg)) (logged ro (saw_readiness lg)) (logged so (saw_startup lg))) as Hlg.
  { unfold logs_after. rewrite E1. change (started (mkProbes None None s1) pod) with st. by rewrite E2'. }
  split; rewrite ?Hlg.
  - by destruct st; split.
  - by destruct st.
  - destruct st; cbn [fst snd t_ready startup readiness saw_startup saw_readiness]; [rewrite (ready_passed _ _ _ Hr'); tauto |].
    split; [done |]. intros [Hp _]. by apply Hst in Hp.
  - exists so, lo. split_and!; [done | done | done | |].
    + intros Hi. destruct (Hlo Hi) as [Hs1 ->]. split; [done |]. rewrite Hs1. apply Hst in Hs1. cbn. by destruct Hs1.
    + destruct st; [done |]. destruct lo; [by destruct (Hlo eq_refl) |]. cbn [fst snd t_trip]. unfold slot_trip at 2. destruct (liveness p); done.
Qed.

Lemma reached_ok p lg : reached p lg -> probes_ok p lg.
Proof.
  assert (forall container label now k s, parse_one container label now k = Ok s -> slot_ok k [] s) as Hp.
  { intros container label now k s. unfold parse_one. destruct (from_container k container) as [[spec|]|] eqn:Ef; [| by intros [= <-] | done].
    intros [= <-]. apply from_container_ok in Ef as [Ht Hk]. split_and!; [done | done | by apply runtime_summarises]. }
  assert (forall k h now s, slot_ok k h s -> slot_ok k [] (reset_slot now s)) as Hr.
  { intros k h now [[spec rt]|] Hs; [| done]. destruct Hs as (? & ? & _). split_and!; [done | done | by apply runtime_summarises]. }
  induction 1 as [container label now p Hc | p lg target pod now e _ IH | p lg now _ IH].
  - unfold parse_container_probes in Hc. apply result_bind_Ok in Hc as (l & Hl & Hc). apply result_bind_Ok in Hc as (r & Hr' & Hc).
    apply result_bind_Ok in Hc as (s & Hs & [= <-]). split; cbn; by eapply Hp.
  - apply (dec_ok _ _ _ _ _ _ _ _ (tick_by_logs p lg target pod now e IH)).
  - destruct IH as [? ? ?]. split; cbn; by eapply Hr.
Qed.

(** The failures a trip stands for: the newest entry of the log is one, and there
    are as many in a row as the probe's threshold asks. *)
Definition failed_in_a_row (spec : ProbeSpec) (x : ProbeTrip) (h h' : list ProbeObservation.t) : Prop :=
  h' = ProbeObservation.Failure :: h /\ failure_threshold (timing spec) <= streak ProbeObservation.Failure h' /\
  trip_failures x = Word.u32_saturate (streak ProbeObservation.Failure h').

Lemma slot_trip_failed k h s o x : slot_ok k h s -> slot_trip s o h = Some x -> is_some o = true /\
  exists spec rt, s = Some (spec, rt) /\ failed_in_a_row spec x h (logged o h) /\
    match trip_kind x with TripKind.Liveness => k = ProbeKind.Liveness | TripKind.Startup => k = ProbeKind.Startup end.
Proof.
  destruct s as [[spec rt]|]; [| done]. intros (Hk & _ & _). unfold slot_trip. cbn [option_map fst mbind option_bind].
  destruct o as [[| |]|]; [done | | done | done]. cbn [mbind option_bind due_trip].
  destruct (failure_threshold (timing spec) <=? _) eqn:Ef; [| done]. apply Z.leb_le in Ef. rewrite Hk. intros Hx. split; [done |].
  exists spec, rt. split; [done |]. destruct k; [| done |]; injection Hx as <-; by split_and!.
Qed.

(** (C19) However long a container lives, whatever its probes meet and however often it
    is started afresh, a tick asks for a restart only in a pod nobody is deleting,
    for a probe that on this very tick observed a failure and has now observed its
    threshold of them in a row, results that observed nothing left out: a startup
    probe that has not yet passed, or a liveness probe of a container whose startup
    probe, if it has one, has. *)
Theorem restart_needs_observed_failures p lg target pod now e x :
  reached p lg -> t_trip (tick p target pod now e).1.1 = Some x ->
  pod = PodLifecycle.Live /\
  match trip_kind x with
  | TripKind.Startup => exists spec rt, startup p = Some (spec, rt) /\ ~ latched spec (saw_startup lg) /\
      failed_in_a_row spec x (saw_startup lg) (saw_startup (logs_after p lg target pod now e))
  | TripKind.Liveness => exists spec rt, liveness p = Some (spec, rt) /\
      passed (startup p) (saw_startup (logs_after p lg target pod now e)) /\
      failed_in_a_row spec x (saw_liveness lg) (saw_liveness (logs_after p lg target pod now e))
  end.
Proof.
  intros Hre Hx. apply reached_ok in Hre as Hok. pose proof (tick_by_logs p lg target pod now e Hok) as [_ (_ & _ & Hsp) _ (so & lo & -> & -> & Hs & Hl & Ht)].
  rewrite Hx in Ht. destruct (slot_trip (startup p) so _) as [y|] eqn:Es.
  - injection Ht as ->. destruct (slot_trip_failed _ _ _ _ _ (ok_startup _ _ Hok) Es) as (Hi & spec & rt & Hsl & Hf & Hk).
    destruct (Hs Hi) as [-> Hn]. split; [done |]. destruct (trip_kind y); [done |]. exists spec, rt. rewrite Hsl in Hn. by split_and!.
  - symmetry in Ht. destruct (slot_trip_failed _ _ _ _ _ (ok_liveness _ _ Hok) Ht) as (Hi & spec & rt & Hsl & Hf & Hk).
    destruct (Hl Hi) as [-> Hp]. split; [done |]. destruct (trip_kind x); [| done]. exists spec, rt. split_and!; [done | | done].
    unfold passed in *. clear -Hp Hsp. destruct (startup p) as [[]|], (startup (tick p target PodLifecycle.Live now e).1.2) as [[]|]; cbn in *; congruence.
Qed.

(** A container is ready, on any tick of any life, exactly when its startup probe
    has passed (or the pod is being deleted) and its readiness probe stands
    passed, each by what it observed; one with neither probe is ready. *)
Theorem ready_by_observations p lg target pod now e :
  reached p lg ->
  t_ready (tick p target pod now e).1.1 = true <->
  (pod = PodLifecycle.Terminating \/ passed (startup p) (saw_startup (logs_after p lg target pod now e))) /\
  passed (readiness p) (saw_readiness (logs_after p lg target pod now e)).
Proof.
  intros Hre. apply reached_ok in Hre as Hok. pose proof (tick_by_logs p lg target pod now e Hok) as [_ (_ & Hr & Hs) Hd _]. rewrite Hd.
  assert (forall s s' : Slot, option_map fst s' = option_map fst s -> forall h, passed s' h <-> passed s h) as Hpa.
  { intros [[]|] [[]|] Heq h; cbn in *; congruence || naive_solver. }
  by rewrite (Hpa _ _ Hs), (Hpa _ _ Hr).
Qed.

End Ticks.

(** ** Witnesses *)

(** The answers a prober gives, in turn. *)
#[local] Instance scripted : Prober (list (option (result Z ProbeIoError.t))) := {|
  exec := fun _ _ _ e => (None, e);
  http_get := fun _ e => match e with a :: e => (a, e) | [] => (None, []) end;
  tcp_connect := fun _ e => (None, e)
|}.

Definition http_probe (threshold : Z) : json :=
  jobj [("httpGet", jobj [("port", JString "web")]); ("failureThreshold", JNumber (PosInt threshold))].

Definition web_container : json :=
  jobj [("ports", JArray [jobj [("name", JString "web"); ("containerPort", JNumber (PosInt 8080))]]);
        ("livenessProbe", http_probe 2); ("startupProbe", http_probe 5)].

Definition web_target : ProbeTarget := mkTarget "c1" (Some "10.0.0.7").

Definition web_spec : ProbeSpec :=
  default (mkSpec ProbeKind.Liveness (ProbeHandler.Exec []) k8s_defaults)
    (match from_container ProbeKind.Liveness web_container with Ok s => s | Err _ => None end).

Lemma probe_follows_its_answers_witness :
  from_container ProbeKind.Liveness web_container = Ok (Some web_spec) /\
  exists gate rt,
    fold_probe_observation web_spec
      (replay web_spec 0 [(ProbeObservation.Failure, 1); (ProbeObservation.Blind BlindCause.NoTargetAddress, 2)]) ProbeObservation.Failure 3 =
      (verdict_of web_spec ProbeObservation.Failure [ProbeObservation.Blind BlindCause.NoTargetAddress; ProbeObservation.Failure] gate, rt) /\
    (gate = true <-> latched web_spec
      [ProbeObservation.Failure; ProbeObservation.Blind BlindCause.NoTargetAddress; ProbeObservation.Failure]) /\
    due_trip web_spec [ProbeObservation.Failure; ProbeObservation.Blind BlindCause.NoTargetAddress; ProbeObservation.Failure] =
      Some (mkTrip TripKind.Liveness 2).
Proof.
  assert (from_container ProbeKind.Liveness web_container = Ok (Some web_spec)) as Hp by (by vm_compute). split; [done |].
  destruct (probe_follows_its_answers _ _ _ 0 [(ProbeObservation.Failure, 1); (ProbeObservation.Blind BlindCause.NoTargetAddress, 2)]
    ProbeObservation.Failure 3 Hp) as (gate & rt & Heq & Hg).
  exists gate, rt. split; [exact Heq |]. split; [exact Hg | by vm_compute].
Defined.

Definition web_probes : ContainerProbes :=
  match parse_container_probes web_container "default/web" 0 with Ok p => p | Err _ => mkProbes None None None end.

(** The startup probe passes at once; then the first answer is no, the request of
    the next run cannot be formed three times, and the one after is no again. *)
Definition second : Instant := from_secs 10.

Definition web_tick (p : ContainerProbes) (n : Z) (answers : list (option (result Z ProbeIoError.t))) : ProbeTick * ContainerProbes :=
  (tick p web_target PodLifecycle.Live (n * second) answers).1.

Definition unformed : option (result Z ProbeIoError.t) := Some (Err (ProbeIoError.Setup ProbeIoError.Url "bad")).

Definition boot_answers : list (option (result Z ProbeIoError.t)) := [Some (Ok 200); Some (Ok 503)].
Definition blind_answers : list (option (result Z ProbeIoError.t)) := [unformed; unformed; unformed].
Definition no_answers : list (option (result Z ProbeIoError.t)) := [Some (Ok 500)].

Definition probes_1 : ContainerProbes := (web_tick web_probes 1 boot_answers).2.
Definition probes_2 : ContainerProbes := (web_tick probes_1 2 blind_answers).2.
Definition logs_1 : Logs := logs_after web_probes no_logs web_target PodLifecycle.Live (1 * second) boot_answers.
Definition logs_2 : Logs := logs_after probes_1 logs_1 web_target PodLifecycle.Live (2 * second) blind_answers.

Lemma reached_2 : reached probes_2 logs_2.
Proof.
  apply (reached_tick probes_1 logs_1 web_target PodLifecycle.Live (2 * second) blind_answers).
  apply (reached_tick web_probes no_logs web_target PodLifecycle.Live (1 * second) boot_answers).
  by apply (reached_parsed web_container "default/web" 0).
Qed.

Lemma restart_needs_observed_failures_witness :
  t_trip (web_tick probes_2 3 no_answers).1 = Some (mkTrip TripKind.Liveness 2) /\
  exists spec rt, liveness probes_2 = Some (spec, rt) /\
    passed (startup probes_2) (saw_startup (logs_after probes_2 logs_2 web_target PodLifecycle.Live (3 * second) no_answers)) /\
    failed_in_a_row spec (mkTrip TripKind.Liveness 2) (saw_liveness logs_2)
      (saw_liveness (logs_after probes_2 logs_2 web_target PodLifecycle.Live (3 * second) no_answers)).
Proof.
  assert (t_trip (tick probes_2 web_target PodLifecycle.Live (3 * second) no_answers).1.1 = Some (mkTrip TripKind.Liveness 2)) as Ht by (by vm_compute).
  split; [exact Ht |].
  destruct (restart_needs_observed_failures probes_2 logs_2 web_target PodLifecycle.Live (3 * second) no_answers _ reached_2 Ht) as [_ Hx].
  exact Hx.
Defined.

Lemma ready_by_observations_witness :
  t_ready (web_tick probes_2 3 no_answers).1 = true /\
  ((PodLifecycle.Live = PodLifecycle.Terminating \/
    passed (startup probes_2) (saw_startup (logs_after probes_2 logs_2 web_target PodLifecycle.Live (3 * second) no_answers))) /\
   passed (readiness probes_2) (saw_readiness (logs_after probes_2 logs_2 web_target PodLifecycle.Live (3 * second) no_answers))).
Proof.
  assert (t_ready (tick probes_2 web_target PodLifecycle.Live (3 * second) no_answers).1.1 = true) as Ht by (by vm_compute).
  split; [exact Ht |]. by apply (ready_by_observations probes_2 logs_2 web_target PodLifecycle.Live (3 * second) no_answers reached_2).
Defined.

(** ** A handler that is null

    A null handler is taken for a declared one: a probe with a null [exec] beside
    its [httpGet] is refused, and one with nothing but a null [httpGet] is
    accepted, with no port, and never observes anything. *)
Lemma null_handler_counts :
  from_k8s ProbeKind.Liveness (jobj [("exec", JNull); ("httpGet", jobj [("port", JNumber (PosInt 80))])]) [] =
    Err ProbeParseError.EmptyExecCommand /\
  exists spec, from_k8s ProbeKind.Liveness (jobj [("httpGet", JNull)]) [] = Ok spec /\
    forall target e, (run_handler spec target e).1 = ProbeObservation.Blind BlindCause.UnresolvablePort.
Proof. split; [by vm_compute |]. eexists. split; [by vm_compute |]. done. Qed.
