(* ===== verification/PodPhase.v ===== *)
(** * The kubelet's pod phases

    [engenho-kubelet/src/lifecycle.rs], with the run states of [cri.rs]: what the
    kubelet does with a container it finds running or down, the phase a pod's
    containers add up to, the order of its init containers, and what a kubelet
    that lost its records does with a pod.

    Exit codes are [i32]s and restart counts [u32]s that saturate.  Serialization
    other than [ContainerStatusOut::to_wire] is not modelled.

    The theorems say what each phase means, that a terminal phase is exactly where
    no container will run again, that the init sequence starts what it starts in
    order and one regular container at a time, and that a published ending reads
    back as it was published. *)

From Stdlib Require Import Ascii String.
From stdpp Require Import base tactics option list strings numbers pretty.
From S2P Require Import Prelude Text BTreeMap Json Probe.

Local Open Scope string_scope.
Local Open Scope Z_scope.

(** ** Run states ([cri.rs]) *)

Definition i32_saturate : Z -> Z := Word.saturate Word.i32_min Word.i32_max.

Module ExitDisposition.
Inductive t : Type := Code (code : Z) | Signal (signal : Z).

#[global] Instance eq_dec : EqDecision t.
Proof. solve_decision. Defined.

Definition is_success (self : t) : bool := match self with Code c => c =? 0 | Signal _ => false end.

Definition exit_code (self : t) : Z := match self with Code c => c | Signal s => i32_saturate (128 + s) end.

Definition text (self : t) : string :=
  match self with Code c => "code " ++ pretty c | Signal s => "signal " ++ pretty s end.
End ExitDisposition.

Module RunState.
Inductive t : Type := Created | Running | Exited (d : ExitDisposition.t) | Unknown.

Definition from_cri (state exit_code : Z) : t :=
  match state with
  | 0 => Created
  | 1 => Running
  | 2 => Exited (ExitDisposition.Code exit_code)
  | _ => Unknown
  end.

Definition is_running (self : t) : bool := match self with Running => true | _ => false end.

Definition is_terminal (self : t) : bool := match self with Exited _ => true | _ => false end.

Definition exit (self : t) : option ExitDisposition.t := match self with Exited d => Some d | _ => None end.
End RunState.

(** ** Terminations *)

Module Termination.
Inductive t : Type := Observed (d : ExitDisposition.t) | Unknown.

#[global] Instance eq_dec : EqDecision t.
Proof. solve_decision. Defined.

Definition UNKNOWN_EXIT_CODE : Z := 137.
Definition UNKNOWN_REASON : string := "ContainerStatusUnknown".

Definition from_run_state (state : RunState.t) : option t :=
  match state with
  | RunState.Running => None
  | RunState.Exited d => Some (Observed d)
  | RunState.Created | RunState.Unknown => Some Unknown
  end.

Definition is_success (self : t) : bool :=
  match self with Observed d => ExitDisposition.is_success d | Unknown => false end.

Definition exit_code (self : t) : Z :=
  match self with Observed d => ExitDisposition.exit_code d | Unknown => UNKNOWN_EXIT_CODE end.

Definition reason (self : t) : string :=
  match self with
  | Observed d => if ExitDisposition.is_success d then "Completed" else "Error"
  | Unknown => UNKNOWN_REASON
  end.

Definition from_wire (exit_code : option Z) (reason : option string) : t :=
  let code := exit_code >>? fun c => if (Word.i32_min <=? c) && (c <=? Word.i32_max) then Some c else None in
  if eqb reason (Some UNKNOWN_REASON) then Unknown
  else match code with None => Unknown | Some code => Observed (ExitDisposition.Code code) end.

Definition known_after (earlier : option t) (polled : t) : t :=
  match earlier, polled with
  | Some (Observed d), Unknown => Observed d
  | _, polled => polled
  end.

Definition text (self : t) : string :=
  match self with Observed d => ExitDisposition.text d | Unknown => "unobserved" end.
End Termination.

Module RestartPolicy.
Inductive t : Type := Always | OnFailure | Never.

#[global] Instance eq_dec : EqDecision t.
Proof. solve_decision. Defined.

Definition from_spec_str (s : option string) : t :=
  if eqb s (Some "Never") then Never else if eqb s (Some "OnFailure") then OnFailure else Always.

Definition should_restart (self : t) (exit : Termination.t) : bool :=
  match self with
  | Always => true
  | Never => false
  | OnFailure => negb (Termination.is_success exit)
  end.
End RestartPolicy.

(** ** What is done with one container *)

Definition starts_fresh (pod : PodLifecycle.t) : bool := eqb pod PodLifecycle.Live.

Module RunningAction.
Inductive t : Type := Keep | Restart (trip : ProbeTrip) | Kill (trip : ProbeTrip).
End RunningAction.

Definition running_action (policy : RestartPolicy.t) (pod : PodLifecycle.t) (trip : option ProbeTrip) : RunningAction.t :=
  match trip, pod, policy with
  | None, _, _ => RunningAction.Keep
  | Some trip, PodLifecycle.Terminating, _ => RunningAction.Kill trip
  | Some trip, _, RestartPolicy.Never => RunningAction.Kill trip
  | Some trip, PodLifecycle.Live, _ => RunningAction.Restart trip
  end.

Module DownAction.
Inductive t : Type := Restart | Latch.
End DownAction.

Definition down_action (policy : RestartPolicy.t) (pod : PodLifecycle.t) (exit : Termination.t) : DownAction.t :=
  match pod with
  | PodLifecycle.Live => if RestartPolicy.should_restart policy exit then DownAction.Restart else DownAction.Latch
  | PodLifecycle.Terminating => DownAction.Latch
  end.

Module DownOutcome.
Inductive t : Type := Latched | Held (reason : string) | Replaced (container_id : string) | NotReplaced.
End DownOutcome.

(** ** Container states *)

Module ContainerState.
Inductive t : Type :=
  | Waiting (reason : string) (message : option string)
  | Running
  | Terminated (exit : Termination.t).

#[global] Instance eq_dec : EqDecision t.
Proof. solve_decision. Defined.

Definition is_running (self : t) : bool := match self with Running => true | _ => false end.
Definition is_terminated (self : t) : bool := match self with Terminated _ => true | _ => false end.
Definition is_waiting (self : t) : bool := match self with Waiting _ _ => true | _ => false end.
Definition termination (self : t) : option Termination.t := match self with Terminated exit => Some exit | _ => None end.
Definition creating : t := Waiting "ContainerCreating" None.
End ContainerState.

Module InitKind.
Inductive t : Type := Regular | Sidecar.

#[global] Instance eq_dec : EqDecision t.
Proof. solve_decision. Defined.

(** The error is the text that was found. *)
Definition from_spec_str (raw : option string) : result t string :=
  match raw with
  | None => Ok Regular
  | Some other => if eqb other "Always" then Ok Sidecar else Err other
  end.

Definition is_sidecar (self : t) : bool := match self with Sidecar => true | Regular => false end.
End InitKind.

Record ContainerObservation : Type := mkObservation {
  co_name : string;
  co_state : ContainerState.t;
  co_container_id : option string;
  co_restart_count : Z;
  co_ready : bool;
  co_kind : InitKind.t;
  co_ever_started : bool
}.

Definition obs_running (name container_id : string) (restart_count : Z) : ContainerObservation :=
  mkObservation name ContainerState.Running (Some container_id) restart_count true InitKind.Regular true.

Definition obs_terminated (name container_id : string) (exit : Termination.t) (restart_count : Z) : ContainerObservation :=
  mkObservation name (ContainerState.Terminated exit) (Some container_id) restart_count false InitKind.Regular true.

Definition obs_backing_off (name container_id reason : string) (restart_count : Z) : ContainerObservation :=
  mkObservation name (ContainerState.Waiting reason None) (Some container_id) restart_count false InitKind.Regular true.

Definition obs_waiting (name : string) : ContainerObservation :=
  mkObservation name ContainerState.creating None 0 false InitKind.Regular false.

Definition obs_held (name reason message : string) : ContainerObservation :=
  mkObservation name (ContainerState.Waiting reason (Some message)) None 0 false InitKind.Regular false.

Definition as_sidecar (self : ContainerObservation) : ContainerObservation :=
  mkObservation (co_name self) (co_state self) (co_container_id self) (co_restart_count self) (co_ready self) InitKind.Sidecar
    (co_ever_started self).

Definition with_ever_started (self : ContainerObservation) (ever_started : bool) : ContainerObservation :=
  mkObservation (co_name self) (co_state self) (co_container_id self) (co_restart_count self) (co_ready self) (co_kind self) ever_started.

Definition after_down (name container_id : string) (exit : Termination.t) (restart_count : Z) (outcome : DownOutcome.t)
  : ContainerObservation :=
  match outcome with
  | DownOutcome.Latched | DownOutcome.NotReplaced => obs_terminated name container_id exit restart_count
  | DownOutcome.Held reason => obs_backing_off name container_id reason restart_count
  | DownOutcome.Replaced new => obs_running name new (Word.u32_saturate (restart_count + 1))
  end.

Record ContainerStatusOut : Type := mkStatusOut {
  cs_name : string; cs_ready : bool; cs_state : ContainerState.t; cs_container_id : option string; cs_restart_count : Z
}.

Definition to_wire (self : ContainerStatusOut) : json :=
  let state :=
    match cs_state self with
    | ContainerState.Waiting reason None => jobj [("waiting", jobj [("reason", JString reason)])]
    | ContainerState.Waiting reason (Some message) =>
        jobj [("waiting", jobj [("reason", JString reason); ("message", JString message)])]
    | ContainerState.Running => jobj [("running", jobj [])]
    | ContainerState.Terminated exit =>
        jobj [("terminated", jobj [("exitCode", JNumber (number_of_i64 (Termination.exit_code exit)));
                                   ("reason", JString (Termination.reason exit))])]
    end in
  let entry := jobj [("name", JString (cs_name self)); ("ready", JBool (cs_ready self)); ("state", state);
                     ("restartCount", JNumber (PosInt (cs_restart_count self)))] in
  match cs_container_id self with
  | Some id => jset "containerID" (JString id) entry
  | None => entry
  end.

(** ** The phase *)

Module PodPhase.
Inductive t : Type := Pending | Running | Succeeded | Failed | Unknown.

#[global] Instance eq_dec : EqDecision t.
Proof. solve_decision. Defined.
End PodPhase.

Definition to_status (o : ContainerObservation) : ContainerStatusOut :=
  mkStatusOut (co_name o) (co_ready o) (co_state o) (co_container_id o) (co_restart_count o).

Definition never_started (o : ContainerObservation) : bool := ContainerState.is_waiting (co_state o) && negb (co_ever_started o).
Definition held_back (o : ContainerObservation) : bool := ContainerState.is_waiting (co_state o) && co_ever_started o.
Definition restartable (policy : RestartPolicy.t) (o : ContainerObservation) : bool :=
  is_some_and (RestartPolicy.should_restart policy) (ContainerState.termination (co_state o)).
Definition succeeded (o : ContainerObservation) : bool :=
  is_some_and Termination.is_success (ContainerState.termination (co_state o)).
Definition runs (o : ContainerObservation) : bool := ContainerState.is_running (co_state o).

Definition reconcile_pod_phase (restart_policy : RestartPolicy.t) (observations : list ContainerObservation)
  : PodPhase.t * list ContainerStatusOut :=
  let statuses := map to_status observations in
  match observations with
  | [] => (PodPhase.Pending, statuses)
  | _ =>
      if existsb never_started observations then (PodPhase.Pending, statuses)
      else if existsb held_back observations && negb (eqb restart_policy RestartPolicy.Never) then (PodPhase.Running, statuses)
      else if forallb runs observations then (PodPhase.Running, statuses)
      else if existsb (restartable restart_policy) observations then (PodPhase.Running, statuses)
      else if existsb runs observations then (PodPhase.Running, statuses)
      else (if forallb succeeded observations then PodPhase.Succeeded else PodPhase.Failed, statuses)
  end.

(** ** Init containers *)

Module InitAction.
Inductive t : Type :=
  | AwaitInit (start : list nat) (blocked_on : option nat)
  | InitFailed (index : nat) (exit : Termination.t)
  | Complete.

Definition is_complete (self : t) : bool := match self with Complete => true | _ => false end.
Definition is_failed (self : t) : bool := match self with InitFailed _ _ => true | _ => false end.
End InitAction.

Fixpoint init_from (restart_policy : RestartPolicy.t) (index : nat) (start : list nat) (observations : list ContainerObservation)
  : InitAction.t :=
  match observations with
  | [] => match start with [] => InitAction.Complete | _ => InitAction.AwaitInit start None end
  | o :: observations =>
      if InitKind.is_sidecar (co_kind o) then
        if negb (co_ever_started o) then init_from restart_policy (S index) (start ++ [index]) observations
        else if ContainerState.is_terminated (co_state o) then init_from restart_policy (S index) (start ++ [index]) observations
        else init_from restart_policy (S index) start observations
      else
        match co_state o with
        | ContainerState.Terminated exit =>
            if Termination.is_success exit then init_from restart_policy (S index) start observations
            else if RestartPolicy.should_restart restart_policy exit then InitAction.AwaitInit (start ++ [index]) (Some index)
            else InitAction.InitFailed index exit
        | ContainerState.Waiting _ _ => InitAction.AwaitInit (start ++ [index]) (Some index)
        | ContainerState.Running => InitAction.AwaitInit start (Some index)
        end
  end.

Definition next_init_action (restart_policy : RestartPolicy.t) (init_observations : list ContainerObservation) : InitAction.t :=
  init_from restart_policy 0 [] init_observations.

Definition reconcile_pod_phase_with_init (restart_policy : RestartPolicy.t) (init_observations app_observations : list ContainerObservation)
  : PodPhase.t * list ContainerStatusOut * list ContainerStatusOut * bool :=
  let init_statuses := map to_status init_observations in
  match next_init_action restart_policy init_observations with
  | InitAction.Complete =>
      let '(phase, app_statuses) := reconcile_pod_phase restart_policy app_observations in
      (phase, init_statuses, app_statuses, true)
  | InitAction.InitFailed _ _ => (PodPhase.Failed, init_statuses, map to_status app_observations, false)
  | InitAction.AwaitInit _ _ => (PodPhase.Pending, init_statuses, map to_status app_observations, false)
  end.

Definition phase_to_publish (published : option PodPhase.t) (computed : PodPhase.t) : PodPhase.t :=
  match published with
  | Some PodPhase.Succeeded => PodPhase.Succeeded
  | Some PodPhase.Failed => PodPhase.Failed
  | _ => computed
  end.

(** ** A pod whose records are lost *)

Record StoredRun : Type := mkRun { sr_container_id : option string; sr_restart_count : Z }.

Module StoredContainer.
Inductive t : Type :=
  | NotStarted (name : string)
  | Up (name : string) (run : StoredRun)
  | Ended (name : string) (run : StoredRun) (exit : Termination.t).

Definition name (self : t) : string := match self with NotStarted n | Up n _ | Ended n _ _ => n end.

Definition run (self : t) : option StoredRun := match self with NotStarted _ => None | Up _ r | Ended _ r _ => Some r end.

Definition is_up (self : t) : bool := match self with Up _ _ => true | _ => false end.

Definition lost_status (self : t) : ContainerStatusOut :=
  let '(state, r) :=
    match self with
    | NotStarted _ => (ContainerState.creating, None)
    | Up _ r => (ContainerState.Terminated Termination.Unknown, Some r)
    | Ended _ r exit => (ContainerState.Terminated exit, Some r)
    end in
  mkStatusOut (name self) false state (r >>? sr_container_id) (match r with Some r => sr_restart_count r | None => 0 end).
End StoredContainer.

Module LostPod.
Inductive t : Type := NothingLost | Restart | Failed (statuses : list ContainerStatusOut).
End LostPod.

Definition reconcile_lost_pod (restart_policy : RestartPolicy.t) (stored : list StoredContainer.t) : LostPod.t :=
  if negb (existsb StoredContainer.is_up stored) then LostPod.NothingLost
  else if RestartPolicy.should_restart restart_policy Termination.Unknown then LostPod.Restart
  else LostPod.Failed (map StoredContainer.lost_status stored).

Module Readoption.
Inductive t : Type := AdoptsRunning | Cannot.

#[global] Instance eq_dec : EqDecision t.
Proof. solve_decision. Defined.
End Readoption.

Module StartedAs.
Inductive t : Type := Fresh | Adopted (restart_count : Z) | Restarted (restart_count : Z).

(** [StartedAs::of]. *)
Definition of_prior (prior : option StoredRun) (started_id : string) (readoption : Readoption.t) : t :=
  match prior with
  | None => Fresh
  | Some run =>
      if eqb readoption Readoption.AdoptsRunning && eqb (sr_container_id run) (Some started_id)
      then Adopted (sr_restart_count run)
      else Restarted (Word.u32_saturate (sr_restart_count run + 1))
  end.

Definition restart_count (self : t) : Z := match self with Fresh => 0 | Adopted n | Restarted n => n end.
End StartedAs.

(** ** What the phases mean *)

(** The container is running, is still to be started, or will be started again. *)
Definition will_run (policy : RestartPolicy.t) (o : ContainerObservation) : bool :=
  match co_state o with
  | ContainerState.Running => true
  | ContainerState.Waiting _ _ => negb (co_ever_started o) || negb (eqb policy RestartPolicy.Never)
  | ContainerState.Terminated exit =>
      match down_action policy PodLifecycle.Live exit with DownAction.Restart => true | DownAction.Latch => false end
  end.

Definition terminal (p : PodPhase.t) : bool := match p with PodPhase.Succeeded | PodPhase.Failed => true | _ => false end.

Lemma will_run_parts policy o :
  will_run policy o = never_started o || (held_back o && negb (eqb policy RestartPolicy.Never)) || runs o || restartable policy o.
Proof.
  unfold will_run, never_started, held_back, runs, restartable, down_action.
  destruct (co_state o) as [r m| |exit]; cbn [ContainerState.is_waiting ContainerState.is_running ContainerState.termination is_some_and andb].
  - by destruct (co_ever_started o), (eqb policy RestartPolicy.Never).
  - by rewrite orb_true_r.
  - by destruct (RestartPolicy.should_restart policy exit).
Qed.

Lemma existsb_or {A} (f g : A -> bool) l : existsb (fun x => f x || g x) l = existsb f l || existsb g l.
Proof. induction l as [|x l IH]; [done |]. cbn [existsb]. rewrite IH. by destruct (f x), (g x), (existsb f l). Qed.

Lemma existsb_and_const {A} (f : A -> bool) b l : existsb (fun x => f x && b) l = existsb f l && b.
Proof. induction l as [|x l IH]; [done |]. cbn [existsb]. rewrite IH. by destruct (f x), b, (existsb f l). Qed.

Lemma existsb_ext' {A} (f g : A -> bool) l : (forall x, f x = g x) -> existsb f l = existsb g l.
Proof. intros Hfg. induction l as [|x l IH]; [done |]. cbn [existsb]. by rewrite Hfg, IH. Qed.

Lemma anyone_will_run policy l : existsb (will_run policy) l =
  existsb never_started l || (existsb held_back l && negb (eqb policy RestartPolicy.Never)) || existsb runs l || existsb (restartable policy) l.
Proof. rewrite (existsb_ext' _ _ l (will_run_parts policy)), !existsb_or. by rewrite existsb_and_const. Qed.

(** The fold in one line: it is over exactly when nobody will run again. *)
Lemma phase_by_will_run policy l : l <> [] ->
  (reconcile_pod_phase policy l).1 =
  if existsb never_started l then PodPhase.Pending
  else if existsb (will_run policy) l then PodPhase.Running
  else if forallb succeeded l then PodPhase.Succeeded else PodPhase.Failed.
Proof.
  intros Hl. destruct l as [|o l]; [done |]. unfold reconcile_pod_phase. set (all := o :: l). rewrite anyone_will_run.
  destruct (existsb never_started all); [done |]. destruct (existsb held_back all && _); [done |]. cbn [orb].
  assert (forallb runs all = true -> existsb runs all = true) as Hr.
  { unfold all. cbn [forallb existsb]. by destruct (runs o). }
  destruct (forallb runs all); [by rewrite Hr |]. destruct (existsb (restartable policy) all); [by rewrite orb_true_r |].
  by destruct (existsb runs all).
Qed.

Lemma succeeded_wont_run policy o : policy <> RestartPolicy.Always -> succeeded o = true -> will_run policy o = false.
Proof.
  intros Hp Hs. unfold succeeded in Hs. unfold will_run, down_action. destruct (co_state o) as [| |exit]; try done. cbn in Hs.
  unfold RestartPolicy.should_restart. destruct policy; [done | by rewrite Hs | done].
Qed.

Lemma wont_run_policy policy o : will_run policy o = false -> succeeded o = false -> policy = RestartPolicy.Never.
Proof.
  unfold will_run, down_action, succeeded. destruct policy; [| | done]; (destruct (co_state o) as [r m| |exit]; [| done |]); cbn.
  - by rewrite orb_true_r.
  - done.
  - by rewrite orb_true_r.
  - by destruct (Termination.is_success exit).
Qed.

(** (C21) What a pod's phase means: it is Pending exactly while some container has never
    been started, and over exactly when no container runs or will be started
    again, which the decision the kubelet takes on a container it finds down
    agrees with.  It has succeeded exactly when every container has and the policy
    lets a success stand, and fails only where nothing is restarted. *)
Theorem phase_exact policy l :
  l <> [] ->
  ((reconcile_pod_phase policy l).1 = PodPhase.Pending <-> exists o, In o l /\ never_started o = true) /\
  (terminal (reconcile_pod_phase policy l).1 = true <-> forall o, In o l -> will_run policy o = false) /\
  ((reconcile_pod_phase policy l).1 = PodPhase.Succeeded <-> policy <> RestartPolicy.Always /\ forall o, In o l -> succeeded o = true) /\
  ((reconcile_pod_phase policy l).1 = PodPhase.Failed -> policy = RestartPolicy.Never).
Proof.
  intros Hl. rewrite phase_by_will_run by done.
  assert (existsb never_started l = true -> existsb (will_run policy) l = true) as Hnw
    by (rewrite anyone_will_run; by intros ->).
  assert (existsb (will_run policy) l = false <-> forall o, In o l -> will_run policy o = false) as Hw.
  { rewrite <-not_true_iff_false, existsb_exists. split; [intros Hn o Hi; apply not_true_iff_false; eauto | intros Hn (o & Hi & Ho); by rewrite Hn in Ho]. }
  assert (policy <> RestartPolicy.Always -> forallb succeeded l = true -> existsb (will_run policy) l = false) as Hsw.
  { intros Hp Hs. apply Hw. intros o Hi. rewrite forallb_forall in Hs. apply succeeded_wont_run; auto. }
  assert (existsb (will_run policy) l = false -> policy <> RestartPolicy.Always) as Hal.
  { intros Hf ->. destruct l as [|o l]; [done |]. pose proof (proj1 Hw Hf o (or_introl eq_refl)) as Ho.
    unfold will_run, down_action in Ho. destruct (co_state o); try done. cbn in Ho. by rewrite orb_true_r in Ho. }
  rewrite <-existsb_exists, <-Hw, <-forallb_forall.
  destruct (existsb never_started l).
  { rewrite Hnw in * by done. split_and!; [done | done | split; [done | intros [Hp Hs]; by specialize (Hsw Hp Hs)] | done]. }
  destruct (existsb (will_run policy) l) eqn:Ew.
  { split_and!; [done | done | split; [done | intros [Hp Hs]; by specialize (Hsw Hp Hs)] | done]. }
  destruct (forallb succeeded l) eqn:Es; [split_and!; [done | done | split; [split; auto | done] | done] |].
  split_and!; [done | done | split; [done | by intros []] |].
  intros _. assert (exists o, In o l /\ succeeded o = false) as (o & Hi & Ho).
  { apply not_true_iff_false in Es. clear -Es. induction l as [|o l IH]; [done |]. cbn [forallb] in Es.
    destruct (succeeded o) eqn:E; [destruct IH as (x & ? & ?); [done | exists x; cbn; auto] | exists o; cbn; auto]. }
  eapply wont_run_policy; [by apply Hw | done].
Qed.

(** A terminal phase that was published stands, whatever is computed later. *)
Lemma published_stands published computed : terminal published = true -> fold_left (fun p c => phase_to_publish (Some p) c) computed published = published.
Proof. intros Ht. induction computed as [|c l IH]; [done |]. cbn [fold_left]. by destruct published. Qed.

(** ** The init sequence *)

(** What the sequence does not wait for: a sidecar, or one that has succeeded. *)
Definition settled_init (o : ContainerObservation) : bool := InitKind.is_sidecar (co_kind o) || succeeded o.

Definition needs_start (policy : RestartPolicy.t) (o : ContainerObservation) : bool :=
  if InitKind.is_sidecar (co_kind o) then negb (co_ever_started o) || ContainerState.is_terminated (co_state o)
  else
    match co_state o with
    | ContainerState.Waiting _ _ => true
    | ContainerState.Running => false
    | ContainerState.Terminated exit => negb (Termination.is_success exit) && RestartPolicy.should_restart policy exit
    end.

(** Of the first [n], the ones to start. *)
Definition to_start (policy : RestartPolicy.t) (l : list ContainerObservation) (n : nat) : list nat :=
  List.filter (fun j => is_some_and (needs_start policy) (l !! j)) (seq 0 n).

Definition settled_before (l : list ContainerObservation) (n : nat) : Prop :=
  forall j o, (j < n)%nat -> l !! j = Some o -> settled_init o = true.

Lemma to_start_next policy l n o : l !! n = Some o ->
  to_start policy l (S n) = (to_start policy l n ++ (if needs_start policy o then [n] else []))%list.
Proof. intros Ho. unfold to_start. rewrite seq_S, List.filter_app. cbn [List.filter Nat.add]. rewrite Ho. cbn [is_some_and]. done. Qed.

Lemma settled_next l n o : l !! n = Some o -> settled_before l n -> settled_init o = true -> settled_before l (S n).
Proof.
  intros Ho Hs Hn j x Hj Hx. destruct (Nat.eq_dec j n) as [->|]; [congruence | apply (Hs j x); [lia | done]].
Qed.

(** What each action means. *)
Definition in_order (policy : RestartPolicy.t) (l : list ContainerObservation) (a : InitAction.t) : Prop :=
  match a with
  | InitAction.Complete => settled_before l (length l) /\ to_start policy l (length l) = []
  | InitAction.AwaitInit start None => settled_before l (length l) /\ start = to_start policy l (length l) /\ start <> []
  | InitAction.AwaitInit start (Some i) =>
      settled_before l i /\ start = to_start policy l (S i) /\
      exists o, l !! i = Some o /\ settled_init o = false /\ (will_run policy o = true \/ needs_start policy o = true)
  | InitAction.InitFailed i exit =>
      settled_before l i /\ policy = RestartPolicy.Never /\ Termination.is_success exit = false /\
      exists o, l !! i = Some o /\ InitKind.is_sidecar (co_kind o) = false /\ co_state o = ContainerState.Terminated exit
  end.

Lemma init_from_in_order policy l : forall rest n, drop n l = rest -> (n <= length l)%nat -> settled_before l n ->
  in_order policy l (init_from policy n (to_start policy l n) rest).
Proof.
  induction rest as [|o rest IH]; intros n Hd Hn Hs; cbn [init_from].
  { assert (n = length l) as ->. { apply (f_equal length) in Hd. rewrite length_drop in Hd. cbn in Hd. lia. }
    destruct (to_start policy l (length l)) eqn:E; cbn [in_order]; rewrite E; by split_and!. }
  assert (l !! n = Some o) as Ho. { rewrite <-(Nat.add_0_r n), <-lookup_drop, Hd. done. }
  assert (drop (S n) l = rest) as Hd'. { rewrite <-Nat.add_1_r, <-drop_drop, Hd. done. }
  assert (S n <= length l)%nat as Hn' by (by apply lookup_lt_Some in Ho).
  assert (settled_init o = true -> in_order policy l (init_from policy (S n) (to_start policy l (S n)) rest)) as Hnext.
  { intros Hset. apply IH; [done | done | by apply (settled_next l n o)]. }
  assert (forall b, needs_start policy o = b -> to_start policy l (S n) = (to_start policy l n ++ if b then [n] else [])%list) as Hts
    by (intros b <-; by apply to_start_next).
  unfold needs_start, settled_init, succeeded in *. destruct (InitKind.is_sidecar (co_kind o)) eqn:Ek; cbn [orb] in *.
  - destruct (co_ever_started o); cbn [negb orb] in *; [| rewrite <-(Hts true eq_refl); auto].
    destruct (ContainerState.is_terminated (co_state o)); [rewrite <-(Hts true eq_refl) | rewrite (Hts false eq_refl), app_nil_r in Hnext]; auto.
  - destruct (co_state o) as [r m| |exit] eqn:Es; cbn [ContainerState.termination is_some_and] in *.
    + cbn [in_order]. rewrite <-(Hts true eq_refl). split_and!; [done | done |]. exists o. unfold settled_init, needs_start, succeeded. rewrite Ek, Es. auto.
    + cbn [in_order]. rewrite (Hts false eq_refl), app_nil_r. split_and!; [done | done |]. exists o. unfold settled_init, succeeded, will_run. rewrite Ek, Es. auto.
    + destruct (Termination.is_success exit) eqn:Ex; cbn [negb andb] in *; [rewrite (Hts false eq_refl), app_nil_r in Hnext; auto |].
      destruct (RestartPolicy.should_restart policy exit) eqn:Er; cbn [in_order].
      * rewrite <-(Hts true eq_refl). split_and!; [done | done |]. exists o. unfold settled_init, needs_start, succeeded. rewrite Ek, Es. cbn. rewrite Ex, Er. auto.
      * split_and!; [done | | done | by exists o]. unfold RestartPolicy.should_restart in Er. destruct policy; [done | by rewrite Ex in Er | done].
Qed.

(** The init sequence runs in order.  An action names the first regular container
    that has not succeeded and starts no regular container beyond it: what it
    starts is exactly the sidecars before it that never started or are down, and
    that container itself where it is not running.  The pod fails in init only
    under a policy that restarts nothing, by an unsuccessful exit; and the
    sequence is complete only once every regular container has succeeded and every
    sidecar is up. *)
Theorem init_in_order policy l : in_order policy l (next_init_action policy l).
Proof. apply (init_from_in_order policy l l 0); [done | lia |]. intros j o Hj. lia. Qed.

(** ** Lost pods and the wire *)

(** A pod that may not be restarted is not run again once its records are lost, and
    is not taken to have succeeded. *)
Lemma lost_never_fails stored : existsb StoredContainer.is_up stored = true ->
  exists statuses, reconcile_lost_pod RestartPolicy.Never stored = LostPod.Failed statuses /\
    Forall2 (fun c s => cs_name s = StoredContainer.name c /\ cs_ready s = false /\ ContainerState.is_running (cs_state s) = false) stored statuses /\
    exists s, In s statuses /\ cs_state s = ContainerState.Terminated Termination.Unknown.
Proof.
  intros Hu. unfold reconcile_lost_pod. rewrite Hu. cbn [negb RestartPolicy.should_restart]. eexists. split; [done |]. split.
  - clear Hu. induction stored as [|c l IH]; [constructor |]. constructor; [by destruct c | done].
  - apply existsb_exists in Hu as ([|n r|] & Hi & Hc); try done.
    exists (StoredContainer.lost_status (StoredContainer.Up n r)). split; [by apply in_map | done].
Qed.

(** A published ending reads back with the code it was published with, and as a
    success exactly if it was one. *)
Definition wire_ok (t : Termination.t) : Prop :=
  match t with
  | Termination.Observed (ExitDisposition.Code c) => Word.i32_min <= c <= Word.i32_max
  | Termination.Observed (ExitDisposition.Signal s) => 0 <= s <= Word.i32_max
  | Termination.Unknown => True
  end.

Lemma termination_round_trip t : wire_ok t ->
  let read := Termination.from_wire (Some (Termination.exit_code t)) (Some (Termination.reason t)) in
  Termination.exit_code read = Termination.exit_code t /\ Termination.is_success read = Termination.is_success t /\
  (Termination.is_success read = true \/ read = Termination.Unknown -> read = t).
Proof.
  intros Hok. assert (Word.i32_min = -2147483648 /\ Word.i32_max = 2147483647) as [Hlo Hhi] by done.
  destruct t as [[c|s]|]; [| | done]; cbn zeta; unfold Termination.from_wire, Termination.reason;
    (assert (forall b : bool, eqb (Some (if b then "Completed" else "Error")) (Some Termination.UNKNOWN_REASON) = false) as -> by (by intros []));
    cbn [Termination.exit_code mbind option_bind].
  - rewrite (proj2 (andb_true_iff _ _)) by (split; apply Z.leb_le; cbn in *; lia). split_and!; [done | done |]. by intros _.
  - cbn in Hok. assert (128 <= i32_saturate (128 + s) <= Word.i32_max) as Hr by (unfold i32_saturate, Word.saturate; lia).
    cbn [ExitDisposition.exit_code]. rewrite (proj2 (andb_true_iff _ _)) by (split; apply Z.leb_le; lia).
    cbn. rewrite (proj2 (Z.eqb_neq _ _)) by lia. split_and!; [done | done |]. by intros [].
Qed.

(** ** Witnesses *)

Definition job : list ContainerObservation :=
  [obs_terminated "a" "1" (Termination.Observed (ExitDisposition.Code 0)) 0; obs_terminated "b" "2" Termination.Unknown 0].

Lemma phase_exact_witness :
  (reconcile_pod_phase RestartPolicy.Never job).1 = PodPhase.Failed /\
  (reconcile_pod_phase RestartPolicy.OnFailure job).1 = PodPhase.Running /\
  (terminal (reconcile_pod_phase RestartPolicy.Never job).1 = true <-> forall o, In o job -> will_run RestartPolicy.Never o = false).
Proof.
  split; [done |]. split; [done |].
  assert (job <> []) as Hne by done. exact (proj1 (proj2 (phase_exact RestartPolicy.Never job Hne))).
Defined.

(** ** A sidecar that goes down

    The composed fold reports a pod whose sidecar is down as Pending and not
    initialized while every other container runs, though the action it is made
    from says that nothing is waited for. *)
Lemma sidecar_down_reads_pending :
  let sidecar := as_sidecar (obs_terminated "proxy" "1" (Termination.Observed (ExitDisposition.Code 1)) 0) in
  next_init_action RestartPolicy.Always [sidecar] = InitAction.AwaitInit [0%nat] None /\
  forall name id n, let '(phase, _, _, initialized) := reconcile_pod_phase_with_init RestartPolicy.Always [sidecar] [obs_running name id n] in
    phase = PodPhase.Pending /\ initialized = false.
Proof. by split. Qed.
